(* ===== verification/_CoqProject ===== *)
-Q . S2P
Prelude.v
Buffers.v
CStrings.v
Varint.v
Codec.v
Frames.v
CtlFrames.v
AckFrame.v
FrameKinds.v
FrameWalk.v
PacketNumber.v
Headers.v
Packets.v
Slots.v
SentTable.v
AckLoss.v
RtxStore.v
Timing.v
Congestion.v
Reasm.v
CryptoStream.v
Flow.v
FrameDispatch.v
Version.v
Streams.v
Lifecycle.v
PnSpace.v
Sha2.v
Hkdf.v
Aes.v
CtrMode.v
Gcm.v
Ghash.v
Poly1305.v
ChaCha.v
Suite.v
Protect.v
LongPackets.v
Cid.v
Paths.v
TransportParams.v
QpackInt.v
Huffman.v
QpackString.v
QpackTable.v
H3Core.v
H3Message.v
H3Request.v
Datagram.v
Fifo.v
Net.v
KeySched.v
ConnKeys.v
TlsMsg.v
X25519.v
Ed25519.v
TlsExt.v
