(* ===== verification/Prelude.v ===== *)
(** A verification of the QUIC transport SDK "wired".

    The program is a C library without libc: QUIC versions 1 and 2 (RFC 9000, 9001, 9002,
    9368, 9369), the TLS 1.3 handshake it carries and HTTP/3 on top.  Its sources are under
    src/src: [common] (bytes, variable-length integers, error codes), [transport] (packets,
    frames, loss recovery, streams, connections, versions), [tls], [app] (HTTP/3, QPACK,
    datagrams) and [crypto].  Most of it is made of small functions over caller-owned buffers
    and fixed-size tables; a connection is the composition of these pieces.

    ** How code is modelled

    A C function is a Rocq function of the same name.  Unsigned integers are [Z] with their
    wrap-around written out ([+w], [-w], [*w], [u8] ...).  A buffer is a list of bytes; every
    access is checked ([load], [store], [copy_loop]), and a result [None] always stands for an
    access outside an array or for a loop that ran longer than its fuel, so a theorem that a
    function returns [Some _] is a theorem of memory safety and termination.  A function that
    moves a cursor over a buffer is an action of the reader or writer monad of [Buffers]; a C
    return value 0 or 1 is a [bool] or an [option] inside the result.  A structure that the
    code passes by pointer is passed and returned.  What uninitialised memory holds is an
    argument, and the theorems hold for all its values.  Loops that do not recurse on a list
    take fuel: the bound is always the number of bytes, of slots or of bits they run over, and
    the theorems show it is enough.

    ** Files

    - [Prelude]: integers at their width, lists as arrays, tactics.
    - [Buffers] ([common/bytes/util]): readers and writers, copies, and the classes [Writes],
      [Reads], [SafeRd], [Encodes] that say what a codec promises to the code that calls it.
    - [Varint] ([common/bytes/varint]); [Codec]: the interface [FrameCodec] with its laws.
    - [Frames], [CtlFrames], [AckFrame] ([transport/packet/frame/frame]): every frame of RFC
      9000 section 19, instances of [FrameCodec]; [FrameKinds] ([dispatch.c], [permit.c],
      [common/diag/error]); [FrameWalk] ([pipeline/framewalk.c]).
    - [PacketNumber], [Headers], [Packets] ([transport/packet/header]): truncated packet
      numbers, long and short headers, Retry, Version Negotiation, coalesced packets.
    - [Slots]: tables searched from the first slot; [SentTable], [AckLoss] (the sent-packet
      tables of [recovery/detect/recovery], [rtx/sentmeta], [rtx/sentpkt], acknowledgement
      ranges, loss detection), [RtxStore] ([rtx/rtxbytes], [rtx/rtxdrive]), [Timing] (RTT,
      probe timeouts, [recovery/detect]), [Congestion] ([recovery/congestion]).
    - [Reasm] ([stream/flow/flow/reassemble.c], [stream_read.c], [crypto_rx.c]), [CryptoStream]
      ([conn/pnspace/crypto_stream]), [Flow] ([stream/flow], [stream/data/maxstreams]),
      [Streams] ([stream/data], [conn/lifecycle/fsm]).
    - [FrameDispatch] ([packet/frame/framedispatch], [dispatch_all] of [conn/loop/connio]):
      where walker, stream buffer and sent table meet.
    - [Sha2], [Hkdf] ([crypto/symmetric/hash], [crypto/kdf]): hashes, HMAC, HKDF.  [CStrings]:
      C string literals.
    - [Aes], [CtrMode], [Gcm], [Ghash], [Poly1305], [ChaCha] ([crypto/symmetric/aead]): the two
      AEADs; [CtrMode] is the encryption loop they share.
    - [Suite] ([packet/protect/protect_suite], [protect/hp], [protect/protectcs]): the interface
      [Aead] with its laws, its two instances, header protection, packets of either suite.
    - [Protect] ([packet/protect/protect], [packet/build], [pipeline/txpacket.c], [rxpacket.c],
      [tls/handshake/core/tls/initial.c]): Initial keys, Initial, Handshake and 1-RTT packets;
      [LongPackets]: the theorems on long-header packets.
    - [Lifecycle] ([conn/lifecycle]), [PnSpace] ([conn/pnspace]), [Cid] ([conn/cid],
      [tls/ext/tpverify]) and [Paths], its theorems over sequences of events.
    - [Version] ([transport/version]), [TransportParams] ([tls/ext/tparam], [tls/ext/stp]).
    - [QpackInt], [Huffman], [QpackString], [QpackTable] ([app/qpack]): prefixed integers and
      the classes [Decodes] and [SafeDec] of decoders over a whole buffer, Huffman decoding,
      field lines, the static and the dynamic table.
    - [H3Core] ([app/http3/core/h3], [h3run], [h3settings], [server/h3srv]): frames, SETTINGS,
      control streams; [H3Message]: pseudo-headers and frame order; [H3Request]
      ([app/http3/request], [core/h3conn]): requests and responses from the caller's fields to
      the STREAM frame and back.
    - [Datagram] ([app/datagram]): the datagram extension.
    - [Fifo] ([transport/io/socket/net/memlink.c], [socket/io/retransmit.c]) and [Net]
      ([transport/io/socket/net], [socket/io/addr.c]): queues of datagrams, Internet
      checksums, IPv4 and UDP headers.
    - [KeySched] ([tls/keys], [tls/handshake/core/tls]): key schedule, key update machines,
      transcript and Finished; [ConnKeys] ([conn/loop/connrunner], [crypto/kdf]): the keys a
      connection holds and how a key update replaces them.
    - [TlsMsg] ([tls/handshake/core/tls], [tls/ext/salpn], [tls/handshake/roles]): ClientHello
      and ServerHello; [TlsExt] ([tls/ext], [tls/handshake]): HelloRetryRequest, the other
      extensions, the server's flight, the handshake driver.
    - [X25519] ([tls/handshake/core/tls/x25519.c]), [Ed25519] ([crypto/asymmetric/ecc/ed25519]):
      key agreement and signatures on limbs of 51 bits.

    ** What is shown

    - Composition: bytes of the handshake cut into CRYPTO frames, sent in any order and with
      repetitions, are read back intact; a payload has exactly the effect of its frames on
      the receive buffer and the sent table; ranges generated from the packets received
      acknowledge exactly those at the sender; the parameters a server writes are the ones a
      client finds; a request and a response cross QPACK, HTTP/3 and STREAM framing intact;
      Initial, Handshake and 1-RTT packets are built, protected, unprotected and opened back to
      their payload, down to the block cipher, and a packet is accepted exactly when its tag
      is right; a ClientHello and a ServerHello are understood by the other side.
    - Equivalence with the standards: X25519 is the function of RFC 7748, the points and scalars
      of Ed25519 are those of RFC 8032 (its field encoding is not), the key schedule is that
      of RFC 8446; SHA-2 in any pieces, HMAC, HKDF-Expand-Label, AES and its S-box,
      multiplication in GF(2^128), Poly1305 modulo 2^130 - 5 (the residues 0 to 4 are wrong in
      the code), counter mode in place or not.
    - Refinement: the reassembly buffer implements a stream of bytes, the sent-packet ring a
      bag of packets, the receive window a set of packet numbers, the retransmission ring the
      list of the last 64 frames, the dynamic table the list of its newest entries,
      the in-memory link and the retransmission queue bounded queues.
    - Invariants along every sequence of operations: bytes in flight, congestion window,
      flow-control credit, stream and connection state machines, connection IDs, paths,
      key generations, the order of handshake messages.  [ConnKeys] shows what the connection's
      key update installs: keys that do not depend on the handshake.
    - Round trips and exactness of every codec used above, with the behaviour on truncated
      input; safety on arbitrary bytes of the readers of peer input, and the places where it
      fails ([Headers.header_parse_bounds], [TransportParams.preferred_address_overflow],
      [H3Request.request_recv_safe], [Net.udp4_build_overflow], [TlsExt.psk_parse_short]).
    - Termination and liveness: walks, searches and timers end within stated bounds.

    ** Not modelled

    - [crypto/asymmetric] beyond Ed25519, [crypto/pki]: P-256, RSA, X.509.  Hashes, ciphers and
      curves are modelled as functions; that they are hard to break is not a theorem here.
    - [tls]: the parsing of certificate messages and the drivers of whole handshakes ([fullhs],
      [tlsdriver], [sdrv]) with the client and server roles built on them.
    - The parts of [stream/data/appdata] and [conn/loop] that drive whole connections.
    - The socket loops of [app/http3/server] and [transport/io], [common/platform], the event
      loops: system calls and sockets. *)
From Stdlib Require Export ZArith Lia.
From stdpp Require Export base list numbers tactics.

#[export] Set Default Goal Selector "!".
Global Open Scope Z_scope.

(** * Machine integers

    The C code runs on x86_64: [u8], [u16], [u32] and [u64]/[usz] are unsigned
    and wrap.  A value of a w-bit type is a [Z] in [0, 2^w); every arithmetic
    operation of the source that could leave this range is written with its
    wrap-around. *)

Definition wrap (w z : Z) : Z := z mod 2 ^ w.
Definition u8 (z : Z) : Z := z mod 256.
Definition u16 (z : Z) : Z := z mod 65536.
Definition u32 (z : Z) : Z := z mod 4294967296.
Definition u64 (z : Z) : Z := z mod 18446744073709551616.

Definition is_u8 (z : Z) : Prop := 0 <= z < 256.
Definition is_u32 (z : Z) : Prop := 0 <= z < 4294967296.
Definition is_u64 (z : Z) : Prop := 0 <= z < 18446744073709551616.

Declare Scope word_scope.
Delimit Scope word_scope with word.
Notation "a +w b" := (u64 (a + b)) (at level 50, left associativity) : word_scope.
Notation "a -w b" := (u64 (a - b)) (at level 50, left associativity) : word_scope.
Notation "a *w b" := (u64 (a * b)) (at level 40, left associativity) : word_scope.
Notation "a <<w k" := (u64 (Z.shiftl a k)) (at level 45, left associativity) : word_scope.
Global Open Scope word_scope.

(** The largest object a C program can address (PTRDIFF_MAX + 1): buffer
    lengths are below it, so sums of two of them do not wrap. *)
Definition max_object : Z := 9223372036854775808.

Lemma u64_id z : is_u64 z -> u64 z = z.
Proof. intros; unfold u64, is_u64 in *; apply Z.mod_small; lia. Qed.

Lemma u8_id z : is_u8 z -> u8 z = z.
Proof. intros; unfold u8, is_u8 in *; apply Z.mod_small; lia. Qed.

Lemma u64_range z : is_u64 (u64 z).
Proof. unfold u64, is_u64; apply Z.mod_pos_bound; lia. Qed.

Lemma u8_range z : is_u8 (u8 z).
Proof. unfold u8, is_u8; apply Z.mod_pos_bound; lia. Qed.

Lemma u32_range z : is_u32 (u32 z).
Proof. unfold u32, is_u32; apply Z.mod_pos_bound; lia. Qed.

(** A subtraction that underflows lands in the upper part of the range. *)
Lemma u64_sub_underflow a b :
  is_u64 a -> is_u64 b -> a < b -> u64 (a - b) = a - b + 18446744073709551616.
Proof.
  unfold is_u64, u64; intros.
  rewrite <- (Z.mod_small (a - b + 18446744073709551616) 18446744073709551616) by lia.
  rewrite Z.add_mod, Z.mod_same, Z.add_0_r, Z.mod_mod by lia; done.
Qed.

(** An addition that overflows loses exactly one modulus. *)
Lemma u64_add_overflow a b :
  is_u64 a -> is_u64 b -> 18446744073709551616 <= a + b ->
  u64 (a + b) = a + b - 18446744073709551616.
Proof.
  unfold is_u64, u64; intros.
  rewrite <- (Z.mod_small (a + b - 18446744073709551616) 18446744073709551616) by lia.
  rewrite Zminus_mod, Z.mod_same, Z.sub_0_r, Z.mod_mod by lia; done.
Qed.

(** * Tactics *)

(** Case on a boolean comparison of integers in the goal, keeping the
    arithmetic fact. *)
Ltac zcase :=
  match goal with
  | |- context [?a <=? ?b] => destruct (Z.leb_spec a b)
  | |- context [?a <? ?b] => destruct (Z.ltb_spec a b)
  | |- context [?a =? ?b] => destruct (Z.eqb_spec a b)
  end.

(** Decide a boolean comparison by [lia] and rewrite it. *)
Ltac ztrue e := replace e with true by (symmetry; first [apply Z.leb_le | apply Z.ltb_lt | apply Z.eqb_eq]; lia).
Ltac zfalse e := replace e with false by (symmetry; first [apply Z.leb_gt | apply Z.ltb_ge | apply Z.eqb_neq]; lia).

Ltac zdecide :=
  repeat match goal with
  | |- context [?a <=? ?b] => first [ztrue (a <=? b) | zfalse (a <=? b)]
  | |- context [?a <? ?b] => first [ztrue (a <? b) | zfalse (a <? b)]
  | |- context [?a =? ?b] => first [ztrue (a =? b) | zfalse (a =? b)]
  end.

(** Turn boolean hypotheses into arithmetic. *)
Ltac zbool :=
  repeat match goal with
  | H : (_ && _) = true |- _ => apply andb_true_iff in H; destruct H
  | H : (_ || _) = false |- _ => apply orb_false_iff in H; destruct H
  | H : negb _ = true |- _ => apply negb_true_iff in H
  | H : negb _ = false |- _ => apply negb_false_iff in H
  | H : (_ <=? _) = true |- _ => apply Z.leb_le in H
  | H : (_ <=? _) = false |- _ => apply Z.leb_gt in H
  | H : (_ <? _) = true |- _ => apply Z.ltb_lt in H
  | H : (_ <? _) = false |- _ => apply Z.ltb_ge in H
  | H : (_ =? _) = true |- _ => apply Z.eqb_eq in H
  | H : (_ =? _) = false |- _ => apply Z.eqb_neq in H
  end.

(** Remove the wraps that the context shows to be harmless. *)
Ltac unwrap :=
  repeat match goal with
  | |- context [u64 ?z] => rewrite (u64_id z) by (unfold is_u64, max_object in *; lia)
  end.
Tactic Notation "unwrap" "in" hyp(H) :=
  repeat match type of H with
  | context [u64 ?z] => rewrite (u64_id z) in H by (unfold is_u64, max_object in *; lia)
  end.

(** Evaluate a closed arithmetic goal (used by the witnesses). *)
Ltac closed_arith := vm_compute; repeat split; first [reflexivity | discriminate].

Create HintDb quic discriminated.
#[export] Hint Resolve u64_range u8_range u32_range : quic.

(** Rewrite the second half of a conjunction under the first. *)
Lemma and_same (P : Prop) : P -> P /\ P.
Proof. tauto. Qed.

Lemma and_iff_left (P Q R : Prop) : (P -> (Q <-> R)) -> (P /\ Q <-> P /\ R).
Proof. tauto. Qed.

(** Stepping a bind without unfolding what follows. *)
Lemma bind_some {A B} (x : A) (f : A -> option B) : (Some x ≫= f) = f x.
Proof. done. Qed.

(** * Lists indexed by integers *)

Definition zlen {A} (l : list A) : Z := Z.of_nat (length l).

(** [a[i]]: [None] when [i] is outside the array. *)
Definition load {A} (l : list A) (i : Z) : option A :=
  if 0 <=? i then l !! Z.to_nat i else None.

(** [a[i] = x]: [None] when [i] is outside the array. *)
Definition store {A} (l : list A) (i : Z) (x : A) : option (list A) :=
  if (0 <=? i) && (i <? zlen l) then Some (<[Z.to_nat i := x]> l) else None.

(** The [k] elements at index [i]. *)
Definition slice {A} (l : list A) (i k : Z) : list A :=
  take (Z.to_nat k) (drop (Z.to_nat i) l).

(** [l] with the elements from index [i] on replaced by [bs]. *)
Definition splice {A} (l : list A) (i : Z) (bs : list A) : list A :=
  take (Z.to_nat i) l ++ bs ++ drop (Z.to_nat i + length bs) l.

Lemma zlen_nonneg {A} (l : list A) : 0 <= zlen l.
Proof. unfold zlen; lia. Qed.

Lemma zlen_app {A} (l k : list A) : zlen (l ++ k) = zlen l + zlen k.
Proof. unfold zlen; rewrite length_app; lia. Qed.

Lemma zlen_cons {A} (x : A) l : zlen (x :: l) = 1 + zlen l.
Proof. unfold zlen; simpl length; lia. Qed.

Lemma zlen_nil {A} : zlen (@nil A) = 0.
Proof. done. Qed.

Lemma load_app_r {A} (l k : list A) (i : Z) :
  zlen l <= i -> load (l ++ k) i = load k (i - zlen l).
Proof.
  unfold load, zlen; intros Hi. zdecide.
  rewrite lookup_app_r by lia. f_equal; lia.
Qed.

Lemma load_nil {A} (i : Z) : load (@nil A) i = None.
Proof. unfold load. by destruct (0 <=? i). Qed.

Lemma load_range {A} (l : list A) (i : Z) (x : A) : load l i = Some x -> 0 <= i < zlen l.
Proof.
  unfold load. destruct (Z.leb_spec 0 i); [|done]. intros Hx. apply lookup_lt_Some in Hx. unfold zlen. lia.
Qed.

Lemma load_app_l {A} (l k : list A) (i : Z) : i < zlen l -> load (l ++ k) i = load l i.
Proof.
  unfold load, zlen. intros Hi. destruct (Z.leb_spec 0 i); [|done]. apply lookup_app_l. lia.
Qed.

Lemma load_head {A} (l k : list A) (x : A) (i : Z) :
  i = zlen l -> load (l ++ x :: k) i = Some x.
Proof. intros ->. rewrite load_app_r by lia. by rewrite Z.sub_diag. Qed.

Lemma load_is_Some {A} (l : list A) (i : Z) :
  0 <= i < zlen l -> exists x, load l i = Some x.
Proof.
  unfold load, zlen; intros Hi. zdecide. apply lookup_lt_is_Some; lia.
Qed.

Lemma load_elem {A} (l : list A) (i : Z) (x : A) : load l i = Some x -> x ∈ l.
Proof.
  unfold load; zcase; [|done]. intros Hx. eapply list_elem_of_lookup_2; eauto.
Qed.

Lemma load_u8 (l : list Z) (i b : Z) : Forall is_u8 l -> load l i = Some b -> is_u8 b.
Proof.
  intros Hl Hb. apply load_elem, list_elem_of_In in Hb. exact (proj1 (Forall_forall _ _) Hl b Hb).
Qed.

Lemma store_ok {A} (l : list A) (i : Z) (x : A) :
  0 <= i < zlen l -> store l i x = Some (<[Z.to_nat i := x]> l).
Proof. unfold store; intros. by zdecide. Qed.

Lemma load_insert {A} (l : list A) (i j : Z) (x : A) :
  0 <= i < zlen l -> load (<[Z.to_nat i := x]> l) j = if j =? i then Some x else load l j.
Proof.
  unfold load, zlen; intros Hi. destruct (Z.eqb_spec j i) as [->|Hne].
  - zdecide. by rewrite list_lookup_insert_eq by lia.
  - destruct (0 <=? j) eqn:E; [|done]. zbool. by rewrite list_lookup_insert_ne by lia.
Qed.

Lemma zlen_take {A} (l : list A) n : 0 <= n <= zlen l -> zlen (take (Z.to_nat n) l) = n.
Proof. intros. unfold zlen in *. rewrite length_take. lia. Qed.

Lemma zlen_drop {A} (l : list A) i : 0 <= i <= zlen l -> zlen (drop (Z.to_nat i) l) = zlen l - i.
Proof. unfold zlen. intros. rewrite length_drop. lia. Qed.

Lemma zlen_insert {A} (l : list A) (i : nat) (x : A) : zlen (<[i := x]> l) = zlen l.
Proof. unfold zlen. by rewrite length_insert. Qed.

Lemma zlen_splice {A} (l bs : list A) (i : Z) :
  0 <= i -> i + zlen bs <= zlen l -> zlen (splice l i bs) = zlen l.
Proof.
  unfold zlen, splice; intros. rewrite !length_app, length_take, length_drop; lia.
Qed.

Lemma splice_nil {A} (l : list A) (i : Z) : splice l i [] = l.
Proof. unfold splice; simpl. rewrite Nat.add_0_r. apply take_drop. Qed.

Lemma splice_splice {A} (l b1 b2 : list A) (i : Z) :
  0 <= i -> i + zlen b1 + zlen b2 <= zlen l ->
  splice (splice l i b1) (i + zlen b1) b2 = splice l i (b1 ++ b2).
Proof.
  unfold splice, zlen; intros.
  replace (Z.to_nat (i + Z.of_nat (length b1))) with (Z.to_nat i + length b1)%nat by lia.
  rewrite take_app_ge, length_take_le by (rewrite ?length_take; lia).
  replace (Z.to_nat i + length b1 - Z.to_nat i)%nat with (length b1) by lia.
  rewrite take_app_length, <- !app_assoc, length_app. f_equal. f_equal. f_equal.
  rewrite drop_app_ge, length_take_le by (rewrite ?length_take; lia).
  rewrite drop_app_ge, drop_drop by lia. f_equal; lia.
Qed.

Lemma insert_splice {A} (l : list A) (i : Z) (x : A) :
  0 <= i < zlen l -> <[Z.to_nat i := x]> l = splice l i [x].
Proof.
  unfold zlen, splice; intros. rewrite insert_take_drop by lia. simpl. by rewrite Nat.add_1_r.
Qed.

Lemma splice_cons {A} (l bs : list A) (i : Z) (x : A) :
  0 <= i -> i + 1 + zlen bs <= zlen l -> splice (<[Z.to_nat i := x]> l) (i + 1) bs = splice l i (x :: bs).
Proof.
  intros Hi Hl. pose proof (zlen_nonneg bs). rewrite insert_splice by lia.
  replace (i + 1) with (i + zlen [x]) by done.
  rewrite splice_splice by (rewrite ?zlen_cons, ?zlen_nil; lia). done.
Qed.

Lemma splice_app {A} (l k bs : list A) :
  zlen bs <= zlen k -> splice (l ++ k) (zlen l) bs = l ++ bs ++ drop (length bs) k.
Proof.
  unfold splice, zlen; intros. rewrite Nat2Z.id, take_app_length.
  rewrite drop_app_ge by lia. do 3 f_equal; lia.
Qed.

Lemma splice_at {A} (l bs : list A) (i : Z) :
  0 <= i -> i + zlen bs <= zlen l ->
  exists pre old post, l = pre ++ old ++ post /\ zlen pre = i /\ zlen old = zlen bs /\
                  splice l i bs = pre ++ bs ++ post.
Proof.
  intros Hi Hl. exists (take (Z.to_nat i) l), (take (length bs) (drop (Z.to_nat i) l)),
    (drop (Z.to_nat i + length bs) l).
  unfold zlen, splice in *. rewrite <- drop_drop, !take_drop.
  rewrite !length_take, length_drop. repeat split; lia.
Qed.

Lemma drop_splice {A} (l bs : list A) (i m : Z) :
  0 <= i -> i + zlen bs <= m -> m <= zlen l ->
  drop (Z.to_nat m) (splice l i bs) = drop (Z.to_nat m) l.
Proof.
  intros Hi Hm Hl. unfold splice, zlen in *.
  rewrite drop_app_ge by (rewrite length_take; lia).
  rewrite drop_app_ge, drop_drop by (rewrite length_take; lia).
  rewrite length_take. f_equal; lia.
Qed.

Lemma take_splice_0 {A} (l bs : list A) : take (length bs) (splice l 0 bs) = bs.
Proof. unfold splice. change (Z.to_nat 0) with 0%nat. rewrite take_0, app_nil_l. apply take_app_length. Qed.

Lemma take_splice_front {A} (l bs : list A) : take (Z.to_nat (zlen bs)) (splice l 0 bs) = bs.
Proof. unfold zlen. rewrite Nat2Z.id. apply take_splice_0. Qed.

Lemma take_splice_n {A} (l bs : list A) n : zlen bs = n -> take (Z.to_nat n) (splice l 0 bs) = bs.
Proof. intros <-. apply take_splice_front. Qed.

Lemma slice_app {A} (l bs k : list A) (i n : Z) :
  i = zlen l -> n = zlen bs -> slice (l ++ bs ++ k) i n = bs.
Proof.
  unfold slice, zlen; intros -> ->. rewrite !Nat2Z.id, drop_app_length.
  by rewrite take_app_length.
Qed.

Lemma zlen_slice {A} (l : list A) (i k : Z) :
  0 <= i -> 0 <= k -> i + k <= zlen l -> zlen (slice l i k) = k.
Proof. unfold slice, zlen; intros. rewrite length_take, length_drop; lia. Qed.

Lemma load_slice {A} (l : list A) (i n j : Z) :
  0 <= i -> 0 <= j < n -> load (slice l i n) j = load l (i + j).
Proof.
  intros. unfold load, slice. zdecide. rewrite lookup_take_lt, lookup_drop by lia. f_equal; lia.
Qed.

(** The first element of a slice. *)
Lemma slice_cons {A} (l : list A) (i n : Z) : 0 <= i -> 0 < n -> i + n <= zlen l ->
  slice l i n = match load l i with Some x => [x] | None => [] end ++ slice l (i + 1) (n - 1).
Proof.
  intros Hi Hn Hl. destruct (load_is_Some l i) as [x Hx]; [lia|]. rewrite Hx.
  unfold load in Hx. unfold slice. destruct (0 <=? i); [|done].
  replace (Z.to_nat n) with (S (Z.to_nat (n - 1))) by lia. rewrite (drop_S _ _ _ Hx).
  replace (Z.to_nat (i + 1)) with (S (Z.to_nat i)) by lia. done.
Qed.

(** Lists that agree at every index are equal. *)
Lemma list_eq_load {A} (l k : list A) :
  zlen l = zlen k -> (forall i, 0 <= i < zlen l -> load l i = load k i) -> l = k.
Proof.
  unfold zlen, load; intros Hl H. apply list_eq. intros i.
  destruct (Nat.lt_ge_cases i (length l)) as [Hi|Hi].
  - specialize (H (Z.of_nat i) ltac:(lia)). destruct (Z.leb_spec 0 (Z.of_nat i)); [|lia].
    by rewrite Nat2Z.id in H.
  - rewrite !lookup_ge_None_2 by lia. done.
Qed.

(** * Bits and bytes *)

(** Or-ing a value into the cleared low bits is an addition. *)
Lemma lor_low a b k : 0 <= k -> 0 <= b < 2 ^ k -> Z.lor (a * 2 ^ k) b = a * 2 ^ k + b.
Proof.
  intros Hk Hb.
  assert (Hd : Z.land (a * 2 ^ k) b = 0).
  { rewrite <- Z.shiftl_mul_pow2 by lia. apply Z.bits_inj'. intros i Hi.
    rewrite Z.land_spec, Z.shiftl_spec, Z.bits_0 by lia.
    destruct (Z.lt_ge_cases i k).
    - rewrite Z.testbit_neg_r by lia. done.
    - rewrite <- (Z.mod_small b (2 ^ k)), Z.mod_pow2_bits_high by lia. apply andb_false_r. }
  rewrite <- Z.lxor_lor, Z.add_nocarry_lxor by done. done.
Qed.

Lemma shl8_or v b : 0 <= v -> is_u8 b -> Z.lor (Z.shiftl v 8) b = v * 256 + b.
Proof.
  intros Hv Hb. rewrite Z.shiftl_mul_pow2 by lia. apply lor_low; [lia|]. apply Hb.
Qed.

Lemma land_255 v : Z.land v 255 = v mod 256.
Proof. change 255 with (Z.ones 8). rewrite Z.land_ones by lia. done. Qed.

Lemma shiftr_8 v : Z.shiftr v 8 = v / 256.
Proof. rewrite Z.shiftr_div_pow2 by lia. done. Qed.

(** The [k] low bytes of [v], most significant first. *)
Fixpoint be_bytes (k : nat) (v : Z) : list Z :=
  match k with
  | O => []
  | S k' => be_bytes k' (v / 256) ++ [v mod 256]
  end.

(** The number a big-endian byte string denotes. *)
Definition be_value (bs : list Z) : Z := fold_left (fun acc b => acc * 256 + b) bs 0.

Lemma length_be_bytes k v : length (be_bytes k v) = k.
Proof. revert v; induction k; intros; simpl; [done|]. rewrite length_app, IHk; simpl; lia. Qed.

Lemma zlen_be_bytes k v : zlen (be_bytes k v) = Z.of_nat k.
Proof. unfold zlen. by rewrite length_be_bytes. Qed.

Lemma be_bytes_u8 k v : Forall is_u8 (be_bytes k v).
Proof.
  revert v; induction k; intros; simpl; [constructor|].
  apply Forall_app; split; [done|]. repeat constructor; apply Z.mod_pos_bound; lia.
Qed.

Lemma be_value_snoc bs b : be_value (bs ++ [b]) = be_value bs * 256 + b.
Proof. unfold be_value. by rewrite fold_left_app. Qed.

Lemma be_value_be_bytes k v : be_value (be_bytes k v) = v mod 256 ^ Z.of_nat k.
Proof.
  revert v; induction k as [|k IH]; intros v.
  - simpl. by rewrite Z.mod_1_r.
  - cbn [be_bytes]. rewrite be_value_snoc, IH, Nat2Z.inj_succ, Z.pow_succ_r by lia.
    rewrite (Z.rem_mul_r v 256) by lia. lia.
Qed.

Lemma be_value_bound bs : Forall is_u8 bs -> 0 <= be_value bs < 256 ^ zlen bs.
Proof.
  induction bs as [|b bs IH] using rev_ind; intros Hb; [unfold be_value, zlen; simpl; lia|].
  apply Forall_app in Hb as [H1 H2]. apply Forall_inv in H2. unfold is_u8 in H2.
  specialize (IH H1). rewrite be_value_snoc, zlen_app.
  change (zlen [b]) with 1. change (zlen bs + 1) with (Z.succ (zlen bs)).
  rewrite Z.pow_succ_r by apply zlen_nonneg. lia.
Qed.

Lemma be_bytes_be_value bs : Forall is_u8 bs -> be_bytes (length bs) (be_value bs) = bs.
Proof.
  induction bs as [|b bs IH] using rev_ind; intros Hb; [done|].
  apply Forall_app in Hb as [H1 H2]. apply Forall_inv in H2.
  rewrite length_app, Nat.add_comm. cbn [be_bytes Nat.add length]. rewrite be_value_snoc.
  unfold is_u8 in *. rewrite Z.div_add_l, Z.div_small, Z.add_0_r, IH by (done || lia).
  f_equal. rewrite Z.add_comm, Z.mod_add, Z.mod_small by lia. done.
Qed.

(** The first byte of a big-endian encoding. *)
Lemma be_bytes_cons k v :
  be_bytes (S k) v = (v / 256 ^ Z.of_nat k) mod 256 :: be_bytes k v.
Proof.
  revert v; induction k as [|k IH]; intros v.
  - simpl. by rewrite Z.div_1_r.
  - change (be_bytes (S (S k)) v) with (be_bytes (S k) (v / 256) ++ [v mod 256]).
    rewrite IH, Z.div_div, <- Z.pow_succ_r, <- Nat2Z.inj_succ by lia. done.
Qed.
