(* ===== verification/Buffers.v ===== *)
(** Byte buffers with bounds: the cursor readers and writers all codecs use.

    [common/bytes/util/bytes.h], [be.h] and [ct.h], and the two small monads in
    which the codecs of the transport are written.  A C function that walks a
    cursor over [buf] is an action; the outer [None] of an action stands for an
    access outside the buffer, so a theorem that an action returns [Some _] is a
    memory-safety theorem. *)
From S2P Require Import Prelude.

(** * Actions *)

(** A function [int f(const u8 *buf, usz n, usz *off, T *out)]: reads the
    [n] bytes at [buf], advancing the cursor.
    [Some (Some a, off')]: returned 1 with [*out = a];
    [Some (None, off')]: returned 0, the cursor standing at [off'];
    [None]: an access outside [buf]. *)
Definition rd (A : Type) : Type := list Z -> Z -> Z -> option (option A * Z).

(** A function [int f(u8 *buf, usz cap, usz *off, ...)]: the buffer and the
    cursor before and after, with the C return value. *)
Definition wr : Type := Z -> list Z * Z -> option (bool * (list Z * Z)).

Definition rd_ret {A} (a : A) : rd A := fun _ _ off => Some (Some a, off).

(** [return 0]. *)
Definition rd_fail {A} : rd A := fun _ _ off => Some (None, off).

(** [if (!p) return 0; ...]. *)
Definition rd_bind {A B} (p : rd A) (k : A -> rd B) : rd B := fun buf n off =>
  match p buf n off with
  | None => None
  | Some (None, off') => Some (None, off')
  | Some (Some a, off') => k a buf n off'
  end.

Definition rd_guard (b : bool) : rd unit := if b then rd_ret tt else rd_fail.

(** [return 1] and [return 0]. *)
Definition wr_ok : wr := fun _ st => Some (true, st).
Definition wr_no : wr := fun _ st => Some (false, st).

(** [if (!p) return 0; return q;]. *)
Definition wr_seq (p q : wr) : wr := fun cap st =>
  match p cap st with
  | None => None
  | Some (false, st') => Some (false, st')
  | Some (true, st') => q cap st'
  end.

(** [for (i = 0; i < n; i++) if (!p(a[i])) return 0;] over the entries. *)
Fixpoint each {A} (p : A -> wr) (l : list A) : wr :=
  match l with
  | [] => wr_ok
  | a :: l' => wr_seq (p a) (each p l')
  end.

(** [l[i]] for an index known to be inside the array. *)
Definition at_ (l : list Z) (i : Z) : Z := nth (Z.to_nat i) l 0.

(** A fresh local array: its contents are overwritten before they are read. *)
Definition local (n : Z) : list Z := repeat 0 (Z.to_nat n).

Declare Scope act_scope.
Delimit Scope act_scope with act.
Notation "x <- p ;; q" := (rd_bind p (fun x => q))
  (at level 100, p at next level, right associativity) : act_scope.
Notation "p ;;; q" := (wr_seq p q) (at level 100, right associativity) : act_scope.
Global Open Scope act_scope.

(** A decoder that skips the type byte ([usz off = 1; ... return off;]):
    [Some (Some (a, used))] when it returns [used] > 0, [Some None] when it
    returns 0. *)
Definition decode_from {A} (off : Z) (p : rd A) (buf : list Z) (n : Z) : option (option (A * Z)) :=
  match p buf n off with
  | None => None
  | Some (None, _) => Some None
  | Some (Some a, off') => Some (Some (a, off'))
  end.

(** An encoder ([usz off = 0; if (!...) return 0; return off;]): its return
    value and the buffer it leaves. *)
Definition encode_to (p : wr) (buf : list Z) (cap : Z) : option (Z * list Z) :=
  match p cap (buf, 0) with
  | None => None
  | Some (false, (buf', _)) => Some (0, buf')
  | Some (true, (buf', off)) => Some (off, buf')
  end.

(** A call on [out + off]. *)
Definition on_tail (off : Z) (f : list Z -> option (Z * list Z)) (buf : list Z) : option (Z * list Z) :=
  match f (drop (Z.to_nat off) buf) with
  | None => None
  | Some (w, tail) => Some (w, take (Z.to_nat off) buf ++ tail)
  end.

(** [n = enc(out + *off, cap - *off, ...); if (n == 0) return 0; *off += n;]. *)
Definition emit_at (enc : list Z -> Z -> option (Z * list Z)) : wr := fun cap '(out, off) =>
  match on_tail off (fun b => enc b (cap -w off)) out with
  | None => None
  | Some (w, out') => if w =? 0 then Some (false, (out', off)) else Some (true, (out', off +w w))
  end.

(** * bytes.h *)

(** The copy loop [for (i = 0; i < n; i++) dst[doff + i] = src[soff + i]]. *)
Fixpoint copy_loop (k : nat) (dst : list Z) (doff : Z) (src : list Z) (soff : Z)
  : option (list Z) :=
  match k with
  | O => Some dst
  | S k' =>
      match load src soff with
      | None => None
      | Some b =>
          match store dst doff b with
          | None => None
          | Some dst' => copy_loop k' dst' (doff + 1) src (soff + 1)
          end
      end
  end.

Definition quic_put_bytes (src : list Z) (n : Z) : wr := fun cap '(buf, off) =>
  if cap <? off +w n then Some (false, (buf, off))
  else match copy_loop (Z.to_nat n) buf off src 0 with
       | None => None
       | Some buf' => Some (true, (buf', off +w n))
       end.

(** The destination array after the copy is the value read; [dst] is what it
    held before. *)
Definition quic_take_bytes (dst : list Z) (n : Z) : rd (list Z) := fun buf len off =>
  if len <? off +w n then Some (None, off)
  else match copy_loop (Z.to_nat n) dst 0 buf off with
       | None => None
       | Some dst' => Some (Some dst', off +w n)
       end.

(** Write one byte and advance, behind [if (off >= cap) return 0]. *)
Definition put_byte (b : Z) : wr := fun cap '(buf, off) =>
  if cap <=? off then Some (false, (buf, off))
  else match store buf off b with
       | None => None
       | Some buf' => Some (true, (buf', off +w 1))
       end.

(** [quic_memcpy] and [quic_memset]. *)
Definition quic_memcpy (dst src : list Z) (n : Z) : option (list Z) :=
  copy_loop (Z.to_nat n) dst 0 src 0.

Fixpoint fill_loop (k : nat) (dst : list Z) (i c : Z) : option (list Z) :=
  match k with
  | O => Some dst
  | S k' => match store dst i (u8 c) with
            | None => None
            | Some dst' => fill_loop k' dst' (i + 1) c
            end
  end.

Definition quic_memset (dst : list Z) (c n : Z) : option (list Z) :=
  fill_loop (Z.to_nat n) dst 0 c.

(** * be.h: the bytes written big-endian *)

Definition quic_put_be16 (v : Z) : list Z := [u8 (Z.shiftr v 8); u8 v].
Definition quic_put_be32 (v : Z) : list Z :=
  [u8 (Z.shiftr v 24); u8 (Z.shiftr v 16); u8 (Z.shiftr v 8); u8 v].

(** * ct.h: [d |= a[i] ^ b[i]] over the whole array *)

Fixpoint ct_diff_loop (d : Z) (a b : list Z) : Z :=
  match a, b with
  | x :: a', y :: b' => ct_diff_loop (Z.lor d (Z.lxor x y)) a' b'
  | _, _ => d
  end.
Definition quic_ct_diff16 (a b : list Z) : Z := ct_diff_loop 0 (take 16 a) (take 16 b).
Definition quic_ct_diff32 (a b : list Z) : Z := ct_diff_loop 0 (take 32 a) (take 32 b).

(** The comparison loop [diff |= (u8)(a[i] ^ b[i])] of two arrays. *)
Fixpoint diff_loop (k : nat) (diff : Z) (a b : list Z) (i : Z) : option Z :=
  match k with
  | O => Some diff
  | S k' => match load a i, load b i with
            | Some x, Some y => diff_loop k' (Z.lor diff (u8 (Z.lxor x y))) a b (i + 1)
            | _, _ => None
            end
  end.

(** * Interface of the codecs

    [Writes p bs]: [p] appends exactly [bs] when they fit in the capacity, and
    otherwise returns 0 having touched nothing at or after [cap].
    [Reads p bs a]: [p] reads [a] from the bytes [bs] at the cursor, whatever
    follows, and returns 0 (without an out-of-bounds access) on every input that
    stops inside [bs].
    [SafeRd p Q]: on arbitrary bytes [p] stays inside the [n] readable bytes,
    and a value it returns satisfies [Q]. *)

Class Writes (p : wr) (bs : list Z) : Prop := writes_spec :
  forall cap buf off, 0 <= off <= cap -> cap <= zlen buf -> cap < max_object ->
  if off + zlen bs <=? cap
  then p cap (buf, off) = Some (true, (splice buf off bs, off + zlen bs))
  else exists buf' off', p cap (buf, off) = Some (false, (buf', off')) /\
         zlen buf' = zlen buf /\ off <= off' <= cap /\
         drop (Z.to_nat cap) buf' = drop (Z.to_nat cap) buf.

Class Reads {A} (p : rd A) (bs : list Z) (a : A) : Prop := reads_spec :
  forall pre post n, zlen pre <= n -> n <= zlen (pre ++ bs ++ post) -> n < max_object ->
  if zlen pre + zlen bs <=? n
  then p (pre ++ bs ++ post) n (zlen pre) = Some (Some a, zlen pre + zlen bs)
  else exists off', p (pre ++ bs ++ post) n (zlen pre) = Some (None, off').

Class SafeRd {A} (p : rd A) (Q : A -> Prop) : Prop := saferd_spec :
  forall buf n off, Forall is_u8 buf -> 0 <= off <= n -> n <= zlen buf -> n < max_object ->
  exists r off', p buf n off = Some (r, off') /\ off <= off' <= n /\
                 (forall a, r = Some a -> Q a).

(** ** Composition *)

#[export] Instance writes_ok_nil : Writes wr_ok [].
Proof.
  intros cap buf off Hoff Hcap Hobj. rewrite zlen_nil, Z.add_0_r, splice_nil. zdecide. done.
Qed.

#[export] Instance writes_seq (p q : wr) (b1 b2 : list Z) :
  Writes p b1 -> Writes q b2 -> Writes (wr_seq p q) (b1 ++ b2).
Proof.
  intros Hp Hq cap buf off Hoff Hcap Hobj. rewrite zlen_app. unfold wr_seq.
  pose proof (zlen_nonneg b1); pose proof (zlen_nonneg b2).
  specialize (Hp cap buf off Hoff Hcap Hobj).
  destruct (Z.leb_spec (off + zlen b1) cap) as [H1|H1].
  - rewrite Hp. specialize (Hq cap (splice buf off b1) (off + zlen b1)).
    rewrite zlen_splice in Hq by lia. specialize (Hq ltac:(lia) Hcap Hobj).
    destruct (Z.leb_spec (off + zlen b1 + zlen b2) cap).
    + zdecide. rewrite Hq, splice_splice by lia. by rewrite Z.add_assoc.
    + zdecide. destruct Hq as (buf' & off' & -> & Hlen & Hr & Hd).
      exists buf', off'. repeat split; try done; try lia.
      rewrite Hd. apply drop_splice; lia.
  - zdecide. destruct Hp as (buf' & off' & -> & ?). by exists buf', off'.
Qed.

#[export] Instance reads_ret {A} (a : A) : Reads (rd_ret a) [] a.
Proof. intros pre post n ???. rewrite zlen_nil, Z.add_0_r. by zdecide. Qed.

#[export] Instance reads_bind {A B} (p : rd A) (k : A -> rd B) b1 b2 a b :
  Reads p b1 a -> Reads (k a) b2 b -> Reads (rd_bind p k) (b1 ++ b2) b.
Proof.
  intros Hp Hk pre post n H1 H2 H3. rewrite <- app_assoc in *.
  pose proof (zlen_nonneg b1); pose proof (zlen_nonneg b2).
  specialize (Hp pre (b2 ++ post) n H1 H2 H3). unfold rd_bind. rewrite zlen_app.
  destruct (Z.leb_spec (zlen pre + zlen b1) n) as [H4|H4].
  - rewrite Hp. specialize (Hk (pre ++ b1) post n).
    rewrite <- app_assoc, zlen_app in Hk. specialize (Hk H4 H2 H3).
    destruct (Z.leb_spec (zlen pre + zlen b1 + zlen b2) n); zdecide; [|done].
    rewrite Hk. by rewrite Z.add_assoc.
  - zdecide. destruct Hp as [off' ->]. by exists off'.
Qed.

Lemma reads_bind_nil {A B} (p : rd A) (k : A -> rd B) bs a b :
  Reads p [] a -> Reads (k a) bs b -> Reads (rd_bind p k) bs b.
Proof. intros. change bs with ([] ++ bs). eapply reads_bind; eauto. Qed.

Lemma reads_bind_last {A B} (p : rd A) (k : A -> rd B) bs a b :
  Reads p bs a -> Reads (k a) [] b -> Reads (rd_bind p k) bs b.
Proof. intros. rewrite <- (app_nil_r bs). eapply reads_bind; eauto. Qed.

Lemma reads_guard b : b = true -> Reads (rd_guard b) [] tt.
Proof. intros ->. apply reads_ret. Qed.

Lemma saferd_ret {A} (a : A) (Q : A -> Prop) : Q a -> SafeRd (rd_ret a) Q.
Proof. intros HQ buf n off ????. exists (Some a), off. split_and!; [done|lia..|]. by intros ? [= <-]. Qed.

#[export] Instance saferd_fail {A} (Q : A -> Prop) : SafeRd rd_fail Q.
Proof. intros buf n off ????. exists None, off. split_and!; [done|lia..|done]. Qed.

Lemma saferd_bind {A B} (p : rd A) (k : A -> rd B) (Q : A -> Prop) (R : B -> Prop) :
  SafeRd p Q -> (forall a, Q a -> SafeRd (k a) R) -> SafeRd (rd_bind p k) R.
Proof.
  intros Hp Hk buf n off Hb Hoff Hn Hobj. unfold rd_bind.
  destruct (Hp buf n off Hb Hoff Hn Hobj) as ([a|] & off' & -> & Hr & HQ).
  - destruct (Hk a (HQ a eq_refl) buf n off') as (r & off'' & -> & ? & ?); try done; [lia|].
    exists r, off''. split_and!; auto; lia.
  - exists None, off'. split_and!; try done; lia.
Qed.

Lemma saferd_guard b (Q : unit -> Prop) : (b = true -> Q tt) -> SafeRd (rd_guard b) Q.
Proof. intros H. destruct b; [by apply saferd_ret, H | apply saferd_fail]. Qed.

Lemma saferd_weaken {A} (p : rd A) (Q R : A -> Prop) :
  SafeRd p Q -> (forall a, Q a -> R a) -> SafeRd p R.
Proof.
  intros Hp HQR buf n off ????. destruct (Hp buf n off) as (r & off' & ? & ? & ?); try done.
  exists r, off'. split_and!; auto; lia.
Qed.

(** ** The byte copies satisfy the interface *)

Lemma copy_loop_spec (bs : list Z) :
  forall dst doff pre post, 0 <= doff -> doff + zlen bs <= zlen dst ->
  copy_loop (length bs) dst doff (pre ++ bs ++ post) (zlen pre) = Some (splice dst doff bs).
Proof.
  induction bs as [|b bs IH]; intros dst doff pre post Hd Hl; simpl.
  - by rewrite splice_nil.
  - rewrite zlen_cons in Hl. pose proof (zlen_nonneg bs).
    rewrite load_head by done. rewrite store_ok by lia.
    replace (pre ++ b :: bs ++ post) with ((pre ++ [b]) ++ bs ++ post) by by rewrite <- app_assoc.
    replace (zlen pre + 1) with (zlen (pre ++ [b])) by (rewrite zlen_app; done).
    rewrite IH by (unfold zlen in *; rewrite ?length_insert; lia). f_equal. apply splice_cons; lia.
Qed.

Lemma copy_loop_len (k : nat) :
  forall dst doff src soff, 0 <= doff -> doff + Z.of_nat k <= zlen dst ->
  0 <= soff -> soff + Z.of_nat k <= zlen src ->
  copy_loop k dst doff src soff = Some (splice dst doff (slice src soff (Z.of_nat k))).
Proof.
  intros dst doff src soff Hd Hl Hs Hsl.
  assert (Hsplit : src = take (Z.to_nat soff) src ++ slice src soff (Z.of_nat k) ++
    drop (Z.to_nat soff + k) src).
  { unfold slice. rewrite Nat2Z.id, <- drop_drop, !take_drop. done. }
  assert (Hk : zlen (slice src soff (Z.of_nat k)) = Z.of_nat k) by (apply zlen_slice; lia).
  replace (copy_loop k dst doff src soff) with
    (copy_loop (length (slice src soff (Z.of_nat k))) dst doff
      (take (Z.to_nat soff) src ++ slice src soff (Z.of_nat k) ++ drop (Z.to_nat soff + k) src)
      (zlen (take (Z.to_nat soff) src))).
  { rewrite copy_loop_spec; [done|lia..]. }
  rewrite <- Hsplit. f_equal; unfold zlen in *; rewrite ?length_take; lia.
Qed.

Lemma writes_put_bytes (src : list Z) (k : Z) :
  0 <= k <= zlen src -> k < max_object ->
  Writes (quic_put_bytes src k) (take (Z.to_nat k) src).
Proof.
  intros Hk Ho cap buf off Hoff Hcap Hobj. unfold quic_put_bytes.
  assert (Hl : zlen (take (Z.to_nat k) src) = k) by (unfold zlen in *; rewrite length_take; lia).
  rewrite Hl. unwrap. destruct (Z.leb_spec (off + k) cap); zdecide.
  - rewrite copy_loop_len by lia. rewrite Z2Nat.id by lia. done.
  - exists buf, off. split_and!; done || lia.
Qed.

Lemma writes_put_bytes_all (src : list Z) :
  zlen src < max_object -> Writes (quic_put_bytes src (zlen src)) src.
Proof.
  intros Ho. pose proof (zlen_nonneg src).
  pose proof (writes_put_bytes src (zlen src) ltac:(lia) Ho) as H0.
  unfold zlen in H0 at 2. by rewrite Nat2Z.id, firstn_all in H0.
Qed.

#[export] Instance writes_put_byte b : Writes (put_byte b) [b].
Proof.
  intros cap buf off Hoff Hcap Hobj. unfold put_byte. rewrite zlen_cons, zlen_nil.
  destruct (Z.leb_spec (off + (1 + 0)) cap); zdecide.
  - rewrite store_ok by lia. unwrap. unfold splice. simpl length. simpl app.
    rewrite insert_take_drop by (unfold zlen in *; lia).
    rewrite Nat.add_1_r, Z.add_0_r. done.
  - exists buf, off. split_and!; done || lia.
Qed.

(** [quic_take_bytes] fills the first [k] bytes of its destination. *)
Lemma reads_take_bytes (dst bs : list Z) :
  zlen bs <= zlen dst -> zlen bs < max_object ->
  Reads (quic_take_bytes dst (zlen bs)) bs (splice dst 0 bs).
Proof.
  intros Hd Ho pre post n H1 H2 H3. unfold quic_take_bytes.
  pose proof (zlen_nonneg pre); pose proof (zlen_nonneg bs). unwrap.
  destruct (Z.leb_spec (zlen pre + zlen bs) n); zdecide.
  - unfold zlen at 1. rewrite Nat2Z.id. rewrite copy_loop_spec by lia. done.
  - by exists (zlen pre).
Qed.

Lemma saferd_take_bytes (dst : list Z) (k : Z) :
  0 <= k <= zlen dst -> k < max_object ->
  SafeRd (quic_take_bytes dst k) (fun d => zlen d = zlen dst).
Proof.
  intros Hk Ho buf n off Hb Hoff Hn Hobj. unfold quic_take_bytes. unwrap.
  destruct (Z.ltb_spec n (off + k)).
  - exists None, off. split_and!; done || lia.
  - rewrite copy_loop_len by lia.
    exists (Some (splice dst 0 (slice buf off (Z.of_nat (Z.to_nat k))))), (off + k).
    split_and!; try done; try lia. intros a [= <-].
    apply zlen_splice; [lia|]. rewrite zlen_slice; lia.
Qed.

(** ** Whole encoders and decoders *)

(** An encoder writes [bs] at the start of [buf] and returns their number, or
    returns 0 when they exceed [cap], leaving the bytes from [cap] on alone. *)
Lemma encode_to_spec p bs buf cap :
  Writes p bs -> 0 <= cap <= zlen buf -> cap < max_object ->
  if zlen bs <=? cap then encode_to p buf cap = Some (zlen bs, splice buf 0 bs)
  else exists buf', encode_to p buf cap = Some (0, buf') /\ zlen buf' = zlen buf /\
                    drop (Z.to_nat cap) buf' = drop (Z.to_nat cap) buf.
Proof.
  intros Hp Hc Ho. unfold encode_to.
  specialize (Hp cap buf 0 ltac:(lia) ltac:(lia) Ho). rewrite Z.add_0_l in Hp.
  destruct (zlen bs <=? cap); [by rewrite Hp|].
  destruct Hp as (buf' & off' & -> & ? & ? & ?). by exists buf'.
Qed.

(** [Encodes enc bs]: the contract of a complete encoder. *)
Class Encodes (enc : list Z -> Z -> option (Z * list Z)) (bs : list Z) : Prop := encodes_spec :
  forall buf cap, 0 <= cap <= zlen buf -> cap < max_object ->
  if zlen bs <=? cap then enc buf cap = Some (zlen bs, splice buf 0 bs)
  else exists buf', enc buf cap = Some (0, buf') /\ zlen buf' = zlen buf /\
                    drop (Z.to_nat cap) buf' = drop (Z.to_nat cap) buf.

#[export] Instance encodes_to p bs : Writes p bs -> Encodes (encode_to p) bs.
Proof. intros Hp buf cap Hc Ho. by apply encode_to_spec. Qed.

(** A writer of a sub-buffer writes at its offset. *)
Lemma take_app_splice {A} (l bs : list A) off :
  0 <= off -> off + zlen bs <= zlen l ->
  take (Z.to_nat off) l ++ splice (drop (Z.to_nat off) l) 0 bs = splice l off bs.
Proof.
  intros Ho Hl. unfold splice. change (Z.to_nat 0) with 0%nat. rewrite take_0, drop_drop. simpl. done.
Qed.

Lemma on_tail_spec enc bs buf cap off :
  Encodes enc bs -> 0 <= off <= cap -> cap <= zlen buf -> cap < max_object ->
  if off + zlen bs <=? cap
  then on_tail off (fun b => enc b (cap -w off)) buf = Some (zlen bs, splice buf off bs)
  else exists buf', on_tail off (fun b => enc b (cap -w off)) buf = Some (0, buf') /\
         zlen buf' = zlen buf /\ take (Z.to_nat off) buf' = take (Z.to_nat off) buf /\
         drop (Z.to_nat cap) buf' = drop (Z.to_nat cap) buf.
Proof.
  intros He Hoff Hcap Hobj. unfold on_tail. unwrap.
  assert (Hdl : zlen (drop (Z.to_nat off) buf) = zlen buf - off) by (unfold zlen in *; rewrite length_drop; lia).
  specialize (He (drop (Z.to_nat off) buf) (cap - off) ltac:(lia) ltac:(lia)). pose proof (zlen_nonneg bs).
  destruct (Z.leb_spec (zlen bs) (cap - off)); zdecide.
  - rewrite He. by rewrite take_app_splice by lia.
  - destruct He as (b' & -> & Hl & Hd). eexists. split; [done|].
    rewrite zlen_app, Hl, Hdl. unfold zlen at 1. rewrite length_take.
    split_and!; [unfold zlen in *; lia| |].
    + rewrite take_app_le by (rewrite length_take; unfold zlen in *; lia).
      by rewrite take_take, Nat.min_id.
    + rewrite drop_app_ge, length_take by (rewrite length_take; lia).
      replace (Z.to_nat cap - _)%nat with (Z.to_nat (cap - off)) by (unfold zlen in *; lia).
      rewrite Hd, drop_drop. f_equal. lia.
Qed.

Lemma writes_emit_at enc bs : Encodes enc bs -> 0 < zlen bs -> Writes (emit_at enc) bs.
Proof.
  intros He Hb cap buf off Hoff Hcap Hobj. unfold emit_at.
  pose proof (on_tail_spec enc bs buf cap off He Hoff Hcap Hobj) as Ht.
  destruct (Z.leb_spec (off + zlen bs) cap).
  - rewrite Ht. zdecide. unwrap. done.
  - destruct Ht as (buf' & -> & Hl & _ & Hd). simpl. exists buf', off. split_and!; done || lia.
Qed.

(** A decoder that starts at [off] returns what its action reads. *)
Lemma decode_from_reads {A} (p : rd A) pre bs post a n :
  Reads p bs a -> zlen pre <= n -> n <= zlen (pre ++ bs ++ post) -> n < max_object ->
  decode_from (zlen pre) p (pre ++ bs ++ post) n =
    Some (if zlen pre + zlen bs <=? n then Some (a, zlen pre + zlen bs) else None).
Proof.
  intros Hp H1 H2 H3. unfold decode_from. specialize (Hp pre post n H1 H2 H3).
  destruct (_ <=? n); [by rewrite Hp|]. by destruct Hp as [off' ->].
Qed.

Lemma decode_from_safe {A} (p : rd A) (Q : A -> Prop) off buf n :
  SafeRd p Q -> Forall is_u8 buf -> 0 <= off <= n -> n <= zlen buf -> n < max_object ->
  exists r, decode_from off p buf n = Some r /\
    forall a used, r = Some (a, used) -> Q a /\ off <= used <= n.
Proof.
  intros Hp Hb H1 H2 H3. unfold decode_from.
  destruct (Hp buf n off Hb H1 H2 H3) as (r & off' & -> & ? & HQ).
  destruct r as [a|]; eexists; (split; [done|]); intros; simplify_eq. auto.
Qed.

(** ** Regrouping *)

Lemma writes_eq p bs bs' : Writes p bs -> bs = bs' -> Writes p bs'.
Proof. by intros ? <-. Qed.

Lemma reads_eq {A} (p : rd A) bs bs' a : Reads p bs a -> bs = bs' -> Reads p bs' a.
Proof. by intros ? <-. Qed.

Lemma reads_guard_then {A} b (k : unit -> rd A) bs a :
  b = true -> Reads (k tt) bs a -> Reads (rd_bind (rd_guard b) k) bs a.
Proof. intros Hb Hk. eapply reads_bind_nil; [by apply reads_guard|done]. Qed.

(** ** Writers that may fail part-way

    [BoundedWr p]: from any state inside the capacity [p] returns 0 or 1, keeps
    the cursor inside the capacity and touches nothing at or after it. *)
Class BoundedWr (p : wr) : Prop := boundedwr_spec :
  forall cap buf off, 0 <= off <= cap -> cap <= zlen buf -> cap < max_object ->
  exists b buf' off', p cap (buf, off) = Some (b, (buf', off')) /\ zlen buf' = zlen buf /\
    off <= off' <= cap /\ drop (Z.to_nat cap) buf' = drop (Z.to_nat cap) buf.

#[export] Instance writes_bounded p bs : Writes p bs -> BoundedWr p.
Proof.
  intros Hp cap buf off Hoff Hcap Hobj. specialize (Hp cap buf off Hoff Hcap Hobj).
  pose proof (zlen_nonneg bs). destruct (Z.leb_spec (off + zlen bs) cap).
  - eexists _, _, _. split; [exact Hp|]. rewrite zlen_splice, drop_splice by lia. split_and!; done || lia.
  - destruct Hp as (buf' & off' & ? & ?). by exists false, buf', off'.
Qed.

#[export] Instance bounded_seq p q : BoundedWr p -> BoundedWr q -> BoundedWr (wr_seq p q).
Proof.
  intros Hp Hq cap buf off Hoff Hcap Hobj. unfold wr_seq.
  destruct (Hp cap buf off Hoff Hcap Hobj) as (b & buf1 & off1 & -> & Hl & Hr & Hd).
  destruct b; [|by exists false, buf1, off1].
  destruct (Hq cap buf1 off1) as (b & buf2 & off2 & -> & Hl2 & Hr2 & Hd2); [lia|lia|done|].
  exists b, buf2, off2. split_and!; try done; try lia; congruence.
Qed.

(** ** Comparing arrays *)

Lemma lxor_u8 x y : is_u8 x -> is_u8 y -> u8 (Z.lxor x y) = Z.lxor x y.
Proof.
  intros Hx Hy. apply u8_id. unfold is_u8 in *. split; [apply Z.lxor_nonneg; lia|].
  destruct (Z.eq_dec (Z.lxor x y) 0) as [->|Hne]; [lia|]. change 256 with (2 ^ 8). apply Z.log2_lt_pow2.
  { pose proof (proj2 (Z.lxor_nonneg x y)). lia. }
  pose proof (Z.log2_lxor x y ltac:(lia) ltac:(lia)) as Hl.
  assert (forall z, 0 <= z < 256 -> Z.log2 z < 8) as H8.
  { intros z Hz. destruct (Z.eq_dec z 0) as [->|]; [simpl; lia|]. apply Z.log2_lt_pow2; lia. }
  pose proof (H8 x Hx). pose proof (H8 y Hy). lia.
Qed.

Lemma diff_loop_spec (k : nat) a b : Forall is_u8 a -> Forall is_u8 b -> forall d i, 0 <= i ->
  i + Z.of_nat k <= zlen a -> i + Z.of_nat k <= zlen b ->
  exists d', diff_loop k d a b i = Some d' /\
    (d' = 0 <-> d = 0 /\ slice a i (Z.of_nat k) = slice b i (Z.of_nat k)).
Proof.
  intros Ha Hb. induction k as [|k IH]; intros d i Hi H1 H2; cbn [diff_loop].
  - exists d. split; [done|]. unfold slice. simpl. rewrite !take_0. tauto.
  - destruct (load_is_Some a i) as [x Hx]; [lia|]. destruct (load_is_Some b i) as [y Hy]; [lia|].
    rewrite Hx, Hy. destruct (IH (Z.lor d (u8 (Z.lxor x y))) (i + 1)) as (d' & -> & Hd); [lia..|].
    exists d'. split; [done|]. rewrite Hd, Z.lor_eq_0_iff, lxor_u8 by (exact (load_u8 _ _ _ Ha Hx) || exact (load_u8 _ _ _ Hb Hy)).
    rewrite !(slice_cons _ i) by lia. rewrite Hx, Hy. replace (Z.of_nat (S k) - 1) with (Z.of_nat k) by lia.
    rewrite Z.lxor_eq_0_iff. simpl. split; [intros [[-> ->] ->]; done|intros [-> [= -> ->]]; done].
Qed.

(** A loop over a list writes the images of its elements in order. *)
Lemma writes_each {A} (p : A -> wr) (w : A -> list Z) l :
  (forall a, a ∈ l -> Writes (p a) (w a)) -> Writes (each p l) (concat (map w l)).
Proof.
  induction l as [|a l IH]; intros H; [apply writes_ok_nil|]. cbn [each map concat].
  apply writes_seq; [apply H; by left|]. apply IH. intros b Hb. apply H. by right.
Qed.

Lemma zlen_local n : 0 <= n -> zlen (local n) = n.
Proof. intros. unfold local, zlen. rewrite repeat_length. lia. Qed.

Lemma ct_diff_loop_spec a : forall d b, length a = length b ->
  ct_diff_loop d a b = 0 <-> d = 0 /\ a = b.
Proof.
  induction a as [|x a IH]; intros d [|y b] Hl; try discriminate Hl; cbn [ct_diff_loop]; [tauto|].
  rewrite IH, Z.lor_eq_0_iff, Z.lxor_eq_0_iff by (simpl in Hl; lia).
  split; [intros [[-> ->] ->]; done|intros [-> [= -> ->]]; done].
Qed.

Lemma slice_split {A} (l : list A) i n m : 0 <= i -> 0 <= n -> 0 <= m ->
  slice l i (n + m) = slice l i n ++ slice l (i + n) m.
Proof.
  intros Hi Hn Hm. unfold slice. replace (Z.to_nat (n + m)) with (Z.to_nat n + Z.to_nat m)%nat by lia.
  replace (Z.to_nat (i + n)) with (Z.to_nat i + Z.to_nat n)%nat by lia. rewrite <- drop_drop.
  generalize (drop (Z.to_nat i) l). intros k. rewrite <- (take_drop (Z.to_nat n) (take (Z.to_nat n + Z.to_nat m) k)).
  rewrite take_take, Nat.min_l by lia. f_equal. rewrite skipn_firstn_comm. f_equal. lia.
Qed.

Lemma ct_diff16_eq want tag : zlen want = 16 -> zlen tag = 16 -> (quic_ct_diff16 want tag =? 0) = bool_decide (tag = want).
Proof.
  intros Hw Ht. apply eq_true_iff_eq. rewrite Z.eqb_eq, bool_decide_eq_true. unfold quic_ct_diff16.
  rewrite !take_ge, ct_diff_loop_spec by (unfold zlen in *; lia). split; [intros [_ ->]; done|done].
Qed.

(** Octets, by evaluation. *)
Lemma u8_by_eval l : forallb (fun b => (0 <=? b) && (b <? 256)) l = true -> Forall is_u8 l.
Proof. intros Hl. apply List.Forall_forall. intros x Hx. rewrite forallb_forall in Hl. specialize (Hl x Hx). unfold is_u8. zbool. lia. Qed.
