(* ===== verification/CStrings.v ===== *)
(** C string literals as arrays of octets. *)
From Stdlib Require Import Ascii String.
From S2P Require Import Prelude.

(** A string literal in memory: its bytes and the terminating NUL. *)
Definition c_bytes (s : string) : list Z := List.map (fun c => Z.of_N (N_of_ascii c)) (list_ascii_of_string s).
Definition c_str (s : string) : list Z := c_bytes s ++ [0].
