(* ===== verification/Varint.v ===== *)
(** The variable-length integers of RFC 9000 section 16
    ([common/bytes/varint/varint.c]). *)
From S2P Require Import Prelude.
From S2P Require Import Buffers.

Definition QUIC_VARINT_MAX : Z := 0x3FFFFFFFFFFFFFFF.

(** * Definitions *)

Definition varint_max : list Z := [0x3F; 0x3FFF; 0x3FFFFFFF; QUIC_VARINT_MAX].
Definition varint_lens : list Z := [1; 2; 4; 8; 0].

(** [while (i < 4 && v > max[i]) i++], over the thresholds not yet tested. *)
Fixpoint len_class (v : Z) (max : list Z) (i : nat) : nat :=
  match max with
  | [] => i
  | m :: max' => if m <? v then len_class v max' (S i) else i
  end.

Definition quic_varint_len (v : Z) : Z := nth (len_class v varint_max 0) varint_lens 0.

(** [while (i-- > 0) buf[i] = (u8)(v & 0xFF), v >>= 8], then the prefix. *)
Fixpoint put_be_loop (i : nat) (buf : list Z) (base v : Z) : option (list Z) :=
  match i with
  | O => Some buf
  | S i' =>
      match store buf (base + Z.of_nat i') (u8 (Z.land v 0xFF)) with
      | None => None
      | Some buf' => put_be_loop i' buf' base (Z.shiftr v 8)
      end
  end.

Definition put_be (buf : list Z) (base v n prefix : Z) : option (list Z) :=
  match put_be_loop (Z.to_nat n) buf base v with
  | None => None
  | Some buf' => match load buf' base with
                 | None => None
                 | Some b => store buf' base (u8 (Z.lor b prefix))
                 end
  end.

Definition varint_prefix : list Z := [0; 0x00; 0x40; 0; 0x80; 0; 0; 0; 0xC0].

(** Encodes at [buf + base]: the bytes written and the buffer. *)
Definition quic_varint_encode (buf : list Z) (base v : Z) : option (Z * list Z) :=
  let n := quic_varint_len v in
  if n =? 0 then Some (0, buf)
  else match put_be buf base v n (nth (Z.to_nat n) varint_prefix 0) with
       | None => None
       | Some buf' => Some (n, buf')
       end.

(** [for (i = 1; i < n; i++) v = (v << 8) | buf[i]]. *)
Fixpoint get_be_loop (k : nat) (buf : list Z) (i v : Z) : option Z :=
  match k with
  | O => Some v
  | S k' => match load buf i with
            | None => None
            | Some b => get_be_loop k' buf (i + 1) (Z.lor (v <<w 8) b)
            end
  end.

Definition get_be (buf : list Z) (n : Z) : option Z :=
  match load buf 0 with
  | None => None
  | Some b => get_be_loop (Z.to_nat (n - 1)) buf 1 (Z.land b 0x3F)
  end.

(** Decodes the [n] bytes at [buf]: [Some (Some (used, v))], or [Some None] when
    it returns 0. *)
Definition quic_varint_decode (buf : list Z) (n : Z) : option (option (Z * Z)) :=
  if n =? 0 then Some None
  else match load buf 0 with
       | None => None
       | Some b =>
           let need := nth (Z.to_nat (Z.shiftr b 6)) [1; 2; 4; 8] 0 in
           if n <? need then Some None
           else match get_be buf need with
                | None => None
                | Some v => Some (Some (need, v))
                end
       end.

Definition quic_varint_take : rd Z := fun buf n off =>
  match quic_varint_decode (drop (Z.to_nat off) buf) (n -w off) with
  | None => None
  | Some None => Some (None, off)
  | Some (Some (used, v)) => Some (Some v, off +w used)
  end.

Definition quic_varint_put (v : Z) : wr := fun cap '(buf, off) =>
  let need := quic_varint_len v in
  if (need =? 0) || (cap <? off +w need) then Some (false, (buf, off))
  else match quic_varint_encode buf off v with
       | None => None
       | Some (w, buf') => Some (true, (buf', off +w w))
       end.

(** * The encoding they implement *)

(** The shortest encoding: [len] bytes, the length class in the top two bits. *)
Definition varint_class (v : Z) : nat := len_class v varint_max 0.
Definition varint_bytes (v : Z) : list Z :=
  be_bytes (Z.to_nat (quic_varint_len v))
    (v + Z.of_nat (varint_class v) * 2 ^ (8 * quic_varint_len v - 2)).

Definition is_varint (v : Z) : Prop := 0 <= v <= QUIC_VARINT_MAX.
Existing Class is_varint.
#[export] Hint Extern 0 (is_varint _) =>
  first [assumption | unfold is_varint, QUIC_VARINT_MAX; lia] : typeclass_instances.

(** Case analysis on the length class of an encodable value. *)
Lemma varint_cases v : is_varint v ->
  (v < 2 ^ 6 /\ quic_varint_len v = 1 /\ varint_class v = 0%nat) \/
  (2 ^ 6 <= v < 2 ^ 14 /\ quic_varint_len v = 2 /\ varint_class v = 1%nat) \/
  (2 ^ 14 <= v < 2 ^ 30 /\ quic_varint_len v = 4 /\ varint_class v = 2%nat) \/
  (2 ^ 30 <= v < 2 ^ 62 /\ quic_varint_len v = 8 /\ varint_class v = 3%nat).
Proof.
  unfold is_varint, QUIC_VARINT_MAX, varint_class, quic_varint_len; intros Hv.
  change varint_max with [0x3F; 0x3FFF; 0x3FFFFFFF; 0x3FFFFFFFFFFFFFFF].
  cbn [len_class].
  do 4 (zcase; [|simpl nth; lia]). lia.
Qed.

Lemma varint_len_out v : QUIC_VARINT_MAX < v -> quic_varint_len v = 0.
Proof.
  unfold QUIC_VARINT_MAX, quic_varint_len; intros Hv.
  change varint_max with [0x3F; 0x3FFF; 0x3FFFFFFF; 0x3FFFFFFFFFFFFFFF].
  cbn [len_class]. by zdecide.
Qed.

Lemma zlen_varint_bytes v : is_varint v -> zlen (varint_bytes v) = quic_varint_len v.
Proof.
  intros Hv. unfold varint_bytes. rewrite zlen_be_bytes.
  destruct (varint_cases v Hv) as [(?&->&?)|[(?&->&?)|[(?&->&?)|(?&->&?)]]]; done.
Qed.

Lemma varint_len_pos v : is_varint v -> 1 <= quic_varint_len v <= 8.
Proof. intros Hv. destruct (varint_cases v Hv) as [H|[H|[H|H]]]; lia. Qed.

(** * The writer *)

Lemma splice_insert_last (buf bs : list Z) (base b : Z) :
  0 <= base -> base + zlen bs < zlen buf ->
  splice (<[Z.to_nat (base + zlen bs) := b]> buf) base bs = splice buf base (bs ++ [b]).
Proof.
  intros Hb Hl. unfold splice, zlen in *.
  rewrite take_insert_ge, length_app, <- app_assoc by lia. simpl length. do 2 f_equal.
  replace (Z.to_nat (base + Z.of_nat (length bs))) with (Z.to_nat base + length bs)%nat by lia.
  rewrite insert_take_drop, drop_app_ge, length_take_le, Nat.sub_diag by (rewrite ?length_take; lia).
  rewrite drop_0. simpl. do 2 f_equal. lia.
Qed.

Lemma put_be_loop_spec k buf base v :
  0 <= base -> base + Z.of_nat k <= zlen buf ->
  put_be_loop k buf base v = Some (splice buf base (be_bytes k v)).
Proof.
  revert buf v; induction k as [|k IH]; intros buf v Hb Hl.
  - simpl. by rewrite splice_nil.
  - cbn [put_be_loop be_bytes]. rewrite store_ok by lia.
    rewrite IH by (unfold zlen in *; rewrite ?length_insert; lia).
    rewrite shiftr_8, land_255. unfold u8. rewrite Z.mod_mod by lia. f_equal.
    rewrite <- splice_insert_last by (rewrite ?zlen_be_bytes; lia).
    by rewrite zlen_be_bytes.
Qed.

(** Or-ing the prefix into the first byte adds the class to the value. *)
Lemma prefix_lor h c : 0 <= h < 64 -> 0 <= c < 4 -> Z.lor h (c * 64) = c * 64 + h.
Proof. intros. rewrite Z.lor_comm. apply (lor_low c h 6); lia. Qed.

Lemma be_bytes_prefix k v c :
  0 <= v < 2 ^ (8 * Z.of_nat (S k) - 2) -> 0 <= c < 4 ->
  be_bytes (S k) (v + c * 2 ^ (8 * Z.of_nat (S k) - 2)) =
  (c * 64 + v / 256 ^ Z.of_nat k) :: be_bytes k v /\
  be_bytes (S k) v = v / 256 ^ Z.of_nat k :: be_bytes k v /\ 0 <= v / 256 ^ Z.of_nat k < 64.
Proof.
  intros Hv Hc. set (P := 256 ^ Z.of_nat k).
  assert (HP : 0 < P) by (apply Z.pow_pos_nonneg; lia).
  assert (HE : 2 ^ (8 * Z.of_nat (S k) - 2) = 64 * P).
  { replace (8 * Z.of_nat (S k) - 2) with (6 + 8 * Z.of_nat k) by lia.
    rewrite Z.pow_add_r, Z.pow_mul_r by lia. done. }
  rewrite HE in *.
  assert (Hq : 0 <= v / P < 64).
  { split; [apply Z.div_pos; lia|]. apply Z.div_lt_upper_bound; lia. }
  assert (Hm : be_bytes k (v + c * (64 * P)) = be_bytes k v).
  { rewrite <- (be_bytes_be_value (be_bytes k v)) by apply be_bytes_u8.
    rewrite <- (be_bytes_be_value (be_bytes k (v + _))) by apply be_bytes_u8.
    rewrite !length_be_bytes, !be_value_be_bytes. f_equal. fold P.
    replace (v + c * (64 * P)) with (v + (c * 64) * P) by lia. apply Z.mod_add; lia. }
  rewrite !be_bytes_cons. fold P. rewrite Hm.
  replace (v + c * (64 * P)) with (v + (c * 64) * P) by lia.
  rewrite Z.div_add, !Z.mod_small by lia. repeat split; try lia. f_equal; lia.
Qed.

Lemma put_be_spec buf base v k c :
  0 <= base -> base + Z.of_nat (S k) <= zlen buf ->
  0 <= v < 2 ^ (8 * Z.of_nat (S k) - 2) -> 0 <= c < 4 ->
  put_be buf base v (Z.of_nat (S k)) (c * 64) =
  Some (splice buf base (be_bytes (S k) (v + c * 2 ^ (8 * Z.of_nat (S k) - 2)))).
Proof.
  intros Hb Hl Hv Hc. unfold put_be. rewrite Nat2Z.id, put_be_loop_spec by lia.
  destruct (be_bytes_prefix k v c Hv Hc) as (E1 & E2 & Hq). rewrite E1, E2.
  set (h := v / _) in *. set (t := be_bytes k v) in *.
  destruct (splice_at buf (h :: t) base) as (pre & old & post & Hbuf & Hpre & Hold & ->);
    [lia|unfold t; rewrite zlen_cons, zlen_be_bytes; lia|].
  simpl app. rewrite load_head by done. rewrite prefix_lor by lia.
  rewrite u8_id by (unfold is_u8; lia).
  rewrite store_ok by (rewrite zlen_app, zlen_cons, <- Hpre;
    pose proof (zlen_nonneg (t ++ post)); pose proof (zlen_nonneg pre); lia).
  rewrite <- Hpre. unfold zlen at 1. rewrite Nat2Z.id, insert_app_r_alt, Nat.sub_diag by done.
  f_equal. simpl. rewrite Hbuf, splice_app by (rewrite zlen_app, Hold, !zlen_cons; pose proof (zlen_nonneg post); lia).
  simpl app. do 3 f_equal. rewrite drop_app_length'; [done|].
  unfold zlen in Hold. simpl length in *. lia.
Qed.

Lemma put_be_class buf base v n pfx k c :
  n = Z.of_nat (S k) -> pfx = Z.of_nat c * 64 -> (c < 4)%nat ->
  0 <= base -> base + n <= zlen buf -> 0 <= v < 2 ^ (8 * n - 2) ->
  put_be buf base v n pfx = Some (splice buf base (be_bytes (S k) (v + Z.of_nat c * 2 ^ (8 * n - 2)))).
Proof. intros -> -> ????. apply put_be_spec; lia. Qed.

Lemma varint_encode_spec v buf base : is_varint v -> 0 <= base -> base + quic_varint_len v <= zlen buf ->
  quic_varint_encode buf base v = Some (quic_varint_len v, splice buf base (varint_bytes v)).
Proof.
  intros Hv Hb Hl. pose proof (varint_len_pos v Hv). unfold quic_varint_encode. zdecide. unfold varint_bytes.
  destruct (varint_cases v Hv) as [(?&E1&E2)|[(?&E1&E2)|[(?&E1&E2)|(?&E1&E2)]]]; rewrite E1, E2 in *.
  all: unfold is_varint in Hv; simpl nth;
    first [ rewrite (put_be_class _ _ _ _ _ 0 0) by (done || lia)
          | rewrite (put_be_class _ _ _ _ _ 1 1) by (done || lia)
          | rewrite (put_be_class _ _ _ _ _ 3 2) by (done || lia)
          | rewrite (put_be_class _ _ _ _ _ 7 3) by (done || lia) ]; done.
Qed.

#[export] Instance writes_varint v `{Hv : is_varint v} :
  Writes (quic_varint_put v) (varint_bytes v).
Proof.
  intros cap buf off Hoff Hcap Hobj. unfold quic_varint_put.
  rewrite zlen_varint_bytes by done. pose proof (varint_len_pos v Hv). unwrap.
  zdecide. simpl orb. destruct (Z.leb_spec (off + quic_varint_len v) cap); zdecide.
  - rewrite varint_encode_spec by (done || lia). unwrap. done.
  - exists buf, off. split_and!; done || lia.
Qed.

(** * The reader *)

Lemma get_be_loop_spec (bs : list Z) :
  forall pre post v, Forall is_u8 bs -> 0 <= v -> (v + 1) * 256 ^ zlen bs <= 2 ^ 64 ->
  get_be_loop (length bs) (pre ++ bs ++ post) (zlen pre) v =
  Some (fold_left (fun acc b => acc * 256 + b) bs v).
Proof.
  induction bs as [|b bs IH]; intros pre post v Hb Hv Hw; [done|].
  apply Forall_cons_iff in Hb as [H1 H2]. cbn [length get_be_loop fold_left].
  simpl app. rewrite load_head by done. rewrite zlen_cons, Z.pow_add_r in Hw by (pose proof (zlen_nonneg bs); lia).
  assert (1 <= 256 ^ zlen bs) by (pose proof (Z.pow_pos_nonneg 256 (zlen bs)); pose proof (zlen_nonneg bs); lia).
  rewrite u64_id by (rewrite Z.shiftl_mul_pow2 by lia; unfold is_u64; nia).
  rewrite shl8_or by done.
  replace (pre ++ b :: bs ++ post) with ((pre ++ [b]) ++ bs ++ post) by by rewrite <- app_assoc.
  replace (zlen pre + 1) with (zlen (pre ++ [b])) by (rewrite zlen_app; done).
  apply IH; [done|unfold is_u8 in *; lia|unfold is_u8 in *; nia].
Qed.

(** The encoded length a first byte announces, and the value of its encoding. *)
Definition varint_need (b : Z) : nat := nth (Z.to_nat (b / 64)) [1%nat; 2%nat; 4%nat; 8%nat] 0%nat.

Lemma varint_need_cases b : is_u8 b ->
  (b / 64 = 0 /\ varint_need b = 1%nat) \/ (b / 64 = 1 /\ varint_need b = 2%nat) \/
  (b / 64 = 2 /\ varint_need b = 4%nat) \/ (b / 64 = 3 /\ varint_need b = 8%nat).
Proof.
  intros Hb. unfold is_u8 in Hb. unfold varint_need.
  assert (Hq : b / 64 = 0 \/ b / 64 = 1 \/ b / 64 = 2 \/ b / 64 = 3).
  { assert (0 <= b / 64) by (apply Z.div_pos; lia).
    assert (b / 64 < 4) by (apply Z.div_lt_upper_bound; lia). lia. }
  destruct Hq as [->|[->|[->| ->]]]; simpl; lia.
Qed.

(** What the decoder returns on a buffer whose first byte is [b]. *)
Lemma varint_decode_spec b rest n :
  is_u8 b -> Forall is_u8 (take (varint_need b - 1) rest) -> 1 <= n <= 1 + zlen rest ->
  let k := varint_need b in
  quic_varint_decode (b :: rest) n =
  Some (if n <? Z.of_nat k then None
        else Some (Z.of_nat k, fold_left (fun acc x => acc * 256 + x) (take (k - 1) rest) (b mod 64))).
Proof.
  intros Hb Hr Hn k. unfold quic_varint_decode. zdecide. simpl load.
  replace (load (b :: rest) 0) with (Some b) by done.
  rewrite Z.shiftr_div_pow2 by lia. change (2 ^ 6) with 64.
  assert (Hneed : nth (Z.to_nat (b / 64)) [1; 2; 4; 8] 0 = Z.of_nat k).
  { unfold k. destruct (varint_need_cases b Hb) as [[-> ->]|[[-> ->]|[[-> ->]|[-> ->]]]]; done. }
  rewrite Hneed. destruct (Z.ltb_spec n (Z.of_nat k)); [done|].
  assert (Hk : (1 <= k <= 8)%nat) by (unfold k; destruct (varint_need_cases b Hb) as [H1|[H1|[H1|H1]]]; lia).
  unfold get_be. replace (load (b :: rest) 0) with (Some b) by done.
  change 0x3F with (Z.ones 6). rewrite Z.land_ones by lia. change (2 ^ 6) with 64.
  replace (Z.to_nat (Z.of_nat k - 1)) with (length (take (k - 1) rest))
    by (rewrite length_take; unfold zlen in *; lia).
  replace (b :: rest) with ([b] ++ take (k - 1) rest ++ drop (k - 1) rest) by (by rewrite take_drop).
  pose proof (Z.mod_pos_bound b 64 ltac:(lia)).
  change 1 with (zlen [b]) at 1. rewrite get_be_loop_spec; [done|done|lia|].
  assert (zlen (take (k - 1) rest) <= 7) by (unfold zlen; rewrite length_take; lia).
  pose proof (Z.pow_le_mono_r 256 (zlen (take (k - 1) rest)) 7). nia.
Qed.

(** The decoder looks at the bytes it is given and at nothing behind them. *)
Lemma varint_decode_prefix bs rest : Forall is_u8 bs ->
  quic_varint_decode (bs ++ rest) (zlen bs) = quic_varint_decode bs (zlen bs).
Proof.
  intros Hu. destruct bs as [|b bs]; [done|]. apply Forall_cons_iff in Hu as [Hb Hu]. rewrite zlen_cons. cbn [app].
  pose proof (zlen_nonneg bs). pose proof (zlen_nonneg rest). set (k := varint_need b).
  destruct (Z.ltb_spec (1 + zlen bs) (Z.of_nat k)) as [Hlt|Hge].
  - assert (Hn : nth (Z.to_nat (Z.shiftr b 6)) [1; 2; 4; 8] 0 = Z.of_nat k).
    { rewrite Z.shiftr_div_pow2 by lia. change (2 ^ 6) with 64. unfold k.
      destruct (varint_need_cases b Hb) as [[-> ->]|[[-> ->]|[[-> ->]|[-> ->]]]]; done. }
    unfold quic_varint_decode. zdecide. replace (load (b :: bs ++ rest) 0) with (Some b) by done.
    replace (load (b :: bs) 0) with (Some b) by done. rewrite Hn. by zdecide.
  - assert (Ht : take (k - 1) (bs ++ rest) = take (k - 1) bs) by (apply take_app_le; unfold zlen in *; lia).
    rewrite !varint_decode_spec by (done || (rewrite ?zlen_app; lia) || (fold k; rewrite ?Ht; by apply Forall_take)).
    fold k. by rewrite Ht.
Qed.

Lemma fold_be_bound bs v : Forall is_u8 bs -> 0 <= v ->
  v * 256 ^ zlen bs <= fold_left (fun acc b => acc * 256 + b) bs v < (v + 1) * 256 ^ zlen bs.
Proof.
  revert v; induction bs as [|b bs IH]; intros v Hb Hv; [unfold zlen; simpl; lia|].
  apply Forall_cons_iff in Hb as [H1 H2]. unfold is_u8 in H1. cbn [fold_left].
  rewrite zlen_cons, Z.pow_add_r by (pose proof (zlen_nonneg bs); lia).
  specialize (IH (v * 256 + b) H2 ltac:(lia)).
  assert (1 <= 256 ^ zlen bs) by (pose proof (Z.pow_pos_nonneg 256 (zlen bs)); pose proof (zlen_nonneg bs); lia).
  change (256 ^ 1) with 256. nia.
Qed.

(** A decoded value fits the length it was read from. *)
Lemma varint_decode_bound b rest n used v :
  is_u8 b -> Forall is_u8 rest -> 1 <= n <= 1 + zlen rest ->
  quic_varint_decode (b :: rest) n = Some (Some (used, v)) ->
  1 <= used <= n /\ 0 <= v < 2 ^ (8 * used - 2) /\
  (used = 1 \/ used = 2 \/ used = 4 \/ used = 8).
Proof.
  intros Hb Hr Hn Hd. rewrite varint_decode_spec in Hd by (done || by apply Forall_take).
  destruct (Z.ltb_spec n (Z.of_nat (varint_need b))); [done|]. simplify_eq.
  pose proof (Z.mod_pos_bound b 64 ltac:(lia)).
  pose proof (fold_be_bound (take (varint_need b - 1) rest) (b mod 64)
    ltac:(by apply Forall_take) ltac:(lia)) as Hf.
  assert (Hl : zlen (take (varint_need b - 1) rest) = Z.of_nat (varint_need b) - 1).
  { unfold zlen in *. rewrite length_take.
    destruct (varint_need_cases b Hb) as [H1|[H1|[H1|H1]]]; lia. }
  rewrite Hl in Hf.
  destruct (varint_need_cases b Hb) as [[_ E]|[[_ E]|[[_ E]|[_ E]]]]; rewrite E in *;
    simpl Z.of_nat in *; simpl Z.sub in *; simpl Z.pow in *; lia.
Qed.

Lemma varint_bound_is_varint v used :
  0 <= v < 2 ^ (8 * used - 2) -> used = 1 \/ used = 2 \/ used = 4 \/ used = 8 -> is_varint v.
Proof.
  unfold is_varint, QUIC_VARINT_MAX.
  intros Hv [->|[->|[->| ->]]]; simpl Z.mul in Hv; simpl Z.sub in Hv; simpl Z.pow in Hv; lia.
Qed.

#[export] Instance saferd_varint : SafeRd quic_varint_take is_varint.
Proof.
  intros buf n off Hb Hoff Hn Hobj. unfold quic_varint_take. unwrap.
  destruct (drop (Z.to_nat off) buf) as [|b rest] eqn:Hd.
  - assert (n = off) as ->.
    { apply (f_equal length) in Hd. rewrite length_drop in Hd. unfold zlen in *. simpl in Hd. lia. }
    rewrite Z.sub_diag. simpl. exists None, off. split_and!; done || lia.
  - assert (Hb' : Forall is_u8 (b :: rest)) by (rewrite <- Hd; by apply Forall_drop).
    apply Forall_cons_iff in Hb' as [H1 H2].
    assert (Hlen : 1 + zlen rest = zlen buf - off).
    { apply (f_equal length) in Hd. rewrite length_drop in Hd. unfold zlen in *. simpl in Hd. lia. }
    destruct (Z.eq_dec n off) as [->|Hne].
    { rewrite Z.sub_diag. simpl. exists None, off. split_and!; done || lia. }
    pose proof (varint_decode_spec b rest (n - off) H1 ltac:(by apply Forall_take) ltac:(lia)) as He. simpl in He. rewrite He.
    destruct (n - off <? _); [exists None, off; split_and!; done || lia|].
    destruct (varint_decode_bound b rest (n - off) _ _ H1 H2 ltac:(lia) He) as (Hu & Hv & Hc).
    unwrap. eexists _, _. split; [reflexivity|]. split; [lia|].
    intros ? [= <-]. by eapply varint_bound_is_varint.
Qed.

Lemma fold_be_value bs v :
  fold_left (fun acc b => acc * 256 + b) bs v = v * 256 ^ zlen bs + be_value bs.
Proof.
  induction bs as [|b bs IH] using rev_ind; [unfold be_value, zlen; simpl; lia|].
  rewrite fold_left_app, be_value_snoc, zlen_app, Z.pow_add_r by (apply zlen_nonneg || done).
  simpl fold_left. rewrite IH. change (256 ^ zlen [b]) with 256. lia.
Qed.

(** The shape of an encoding: the class and the top bits, then the rest. *)
Lemma varint_bytes_shape v : is_varint v ->
  exists k c, varint_bytes v = (c * 64 + v / 256 ^ Z.of_nat k) :: be_bytes k v /\
    quic_varint_len v = Z.of_nat (S k) /\ 0 <= c < 4 /\ 0 <= v / 256 ^ Z.of_nat k < 64 /\
    varint_need (c * 64 + v / 256 ^ Z.of_nat k) = S k.
Proof.
  intros Hv. unfold varint_bytes.
  assert (Hsh : exists k c, quic_varint_len v = Z.of_nat (S k) /\ Z.of_nat (varint_class v) = c /\
    0 <= c < 4 /\ 0 <= v < 2 ^ (8 * Z.of_nat (S k) - 2) /\
    nth (Z.to_nat c) [1%nat; 2%nat; 4%nat; 8%nat] 0%nat = S k).
  { unfold is_varint in Hv.
    destruct (varint_cases v Hv) as [(?&->&->)|[(?&->&->)|[(?&->&->)|(?&->&->)]]];
      [exists 0%nat, 0|exists 1%nat, 1|exists 3%nat, 2|exists 7%nat, 3];
      (split_and!; [done|done|lia|lia|simpl in *; lia..|done]). }
  destruct Hsh as (k & c & -> & -> & Hc & Hv' & Hn).
  destruct (be_bytes_prefix k v c Hv' Hc) as (E & _ & Hq). rewrite Nat2Z.id, E.
  exists k, c. split_and!; try done; try lia. unfold varint_need.
  rewrite Z.div_add_l, Z.div_small, Z.add_0_r by lia. done.
Qed.

#[export] Instance reads_varint v `{Hv : is_varint v} :
  Reads quic_varint_take (varint_bytes v) v.
Proof.
  intros pre post n H1 H2 H3. unfold quic_varint_take. pose proof (zlen_nonneg pre). unwrap.
  replace (Z.to_nat (zlen pre)) with (length pre) by (unfold zlen; lia). rewrite drop_app_length.
  destruct (varint_bytes_shape v Hv) as (k & c & E & Hlen & Hc & Hq & Hneed).
  pose proof (varint_len_pos v Hv). rewrite <- (zlen_varint_bytes v Hv) in Hlen.
  destruct (Z.eq_dec n (zlen pre)) as [->|Hne].
  { rewrite Z.sub_diag. zdecide. simpl. by exists (zlen pre). }
  rewrite E in *. simpl app. rewrite !zlen_app, zlen_cons in *.
  rewrite varint_decode_spec; [|unfold is_u8; lia| |rewrite zlen_app; lia].
  2: { rewrite Hneed. simpl Nat.sub. rewrite Nat.sub_0_r, take_app_length' by by rewrite length_be_bytes.
       apply be_bytes_u8. }
  rewrite Hneed. destruct (Z.ltb_spec (n - zlen pre) (Z.of_nat (S k))); zdecide.
  { by exists (zlen pre). }
  simpl Nat.sub. rewrite Nat.sub_0_r, take_app_length' by by rewrite length_be_bytes.
  rewrite fold_be_value, be_value_be_bytes, zlen_be_bytes in *.
  rewrite Hlen. unwrap. do 3 f_equal.
  rewrite (Z.add_comm (c * 64)), Z.mod_add, Z.mod_small by lia.
  pose proof (Z.div_mod v (256 ^ Z.of_nat k) ltac:(pose proof (Z.pow_pos_nonneg 256 (Z.of_nat k)); lia)). lia.
Qed.

(** * Properties *)

(** Values above 62 bits are refused by the writer, which touches nothing. *)
Lemma varint_put_out v cap buf off :
  QUIC_VARINT_MAX < v -> quic_varint_put v cap (buf, off) = Some (false, (buf, off)).
Proof. intros Hv. unfold quic_varint_put. by rewrite varint_len_out. Qed.

(** [quic_varint_put] succeeds exactly when the value has an encoding and it
    fits; it never writes outside the buffer. *)
Lemma varint_put_ok v cap buf off :
  0 <= v -> 0 <= off <= cap -> cap <= zlen buf -> cap < max_object ->
  (exists st, quic_varint_put v cap (buf, off) = Some (true, st)) <->
  is_varint v /\ off + quic_varint_len v <= cap.
Proof.
  intros Hv H1 H2 H3. destruct (Z.lt_ge_cases QUIC_VARINT_MAX v) as [Ho|Ho].
  - rewrite varint_put_out by done. unfold is_varint. split; [by intros [? ?]|lia].
  - assert (Hi : is_varint v) by done.
    pose proof (writes_varint v cap buf off H1 H2 H3) as Hw. rewrite zlen_varint_bytes in Hw by done.
    destruct (Z.leb_spec (off + quic_varint_len v) cap).
    + rewrite Hw. split; [by intros _|by eauto].
    + destruct Hw as (? & ? & -> & ?). split; [by intros [? ?]|lia].
Qed.

(** Writing any 62-bit value at the cursor and reading it back at the same
    place returns the value and moves both cursors by the encoded length; every
    truncation of the written bytes is refused without an access outside the
    buffer. *)
Theorem varint_roundtrip (v cap off n : Z) (buf : list Z)
  (Hv : 0 <= v <= QUIC_VARINT_MAX) (Hoff : 0 <= off) (Hfit : off + quic_varint_len v <= cap)
  (Hcap : cap <= zlen buf) (Hobj : zlen buf < max_object) (Hn : off <= n <= zlen buf) :
  exists buf', quic_varint_put v cap (buf, off) = Some (true, (buf', off + quic_varint_len v)) /\
    (off + quic_varint_len v <= n ->
       quic_varint_take buf' n off = Some (Some v, off + quic_varint_len v)) /\
    (n < off + quic_varint_len v -> exists off', quic_varint_take buf' n off = Some (None, off')).
Proof.
  assert (Hi : is_varint v) by done.
  pose proof (writes_varint v cap buf off ltac:(pose proof (varint_len_pos v Hi); lia) Hcap ltac:(lia)) as Hw.
  rewrite zlen_varint_bytes in Hw by done. revert Hw. zdecide. intros Hw.
  exists (splice buf off (varint_bytes v)). split; [done|].
  destruct (splice_at buf (varint_bytes v) off) as (pre & old & post & Hb & Hpre & Hold & ->);
    [done|rewrite zlen_varint_bytes by done; lia|].
  assert (Hl : zlen (pre ++ varint_bytes v ++ post) = zlen buf) by (rewrite Hb, !zlen_app; lia).
  pose proof (reads_varint v pre post n ltac:(lia) ltac:(lia) ltac:(lia)) as Hr.
  rewrite zlen_varint_bytes, Hpre in Hr by done.
  split; intros; revert Hr; zdecide; done.
Qed.

(** Witness: a two-byte value written in the middle of a buffer. *)
Lemma varint_roundtrip_witness :
  exists buf', quic_varint_put 15293 6 ([9; 9; 9; 9; 9; 9; 9; 9], 2) = Some (true, (buf', 4)) /\
    quic_varint_take buf' 8 2 = Some (Some 15293, 4).
Proof.
  destruct (varint_roundtrip 15293 6 2 8 [9; 9; 9; 9; 9; 9; 9; 9]) as (buf' & H1 & H2 & _);
    [closed_arith..|].
  exists buf'. split; [exact H1|]. apply H2. vm_compute. discriminate.
Defined.

(** The decoder is total and safe on arbitrary bytes: with the cursor inside
    the readable bytes it never reads outside them, never moves the cursor
    backwards or past the end, and returns only values below 2^62, each of which
    the encoder would write in no more bytes than were consumed. *)
Theorem varint_take_safe (buf : list Z) (n off : Z)
  (Hb : Forall is_u8 buf) (Hoff : 0 <= off <= n) (Hn : n <= zlen buf) (Hobj : n < max_object) :
  exists r off', quic_varint_take buf n off = Some (r, off') /\ off <= off' <= n /\
    forall v, r = Some v -> 0 <= v <= QUIC_VARINT_MAX /\ quic_varint_len v <= off' - off.
Proof.
  destruct (saferd_varint buf n off Hb Hoff Hn Hobj) as (r & off' & E & Hr & Hv).
  exists r, off'. split; [done|]. split; [done|]. intros v ->.
  pose proof (Hv v eq_refl) as Hi. split; [done|].
  unfold quic_varint_take in E. unwrap in E.
  destruct (quic_varint_decode _ _) as [[[used w]|]|] eqn:Hd; simplify_eq.
  destruct (drop (Z.to_nat off) buf) as [|b rest] eqn:Hdrop.
  { unfold quic_varint_decode in Hd. revert Hd. by zcase. }
  assert (Hb' : Forall is_u8 (b :: rest)) by (rewrite <- Hdrop; by apply Forall_drop).
  apply Forall_cons_iff in Hb' as [H1 H2].
  apply (f_equal length) in Hdrop. rewrite length_drop in Hdrop. simpl in Hdrop.
  destruct (Z.eq_dec n off) as [->|Hne].
  { rewrite Z.sub_diag in Hd. by vm_compute in Hd. }
  destruct (varint_decode_bound b rest (n - off) used v H1 H2) as (Hu & Hvb & Hc);
    [unfold zlen in *; lia|done|].
  unwrap. destruct (varint_cases v Hi) as [H3|[H3|[H3|H3]]]; destruct Hc as [->|[->|[->| ->]]];
    simpl Z.mul in *; simpl Z.sub in *; simpl Z.pow in *; lia.
Qed.

(** Witness: a non-minimal encoding, and a truncated one. *)
Lemma varint_take_safe_witness :
  (exists r off', quic_varint_take [0x40; 0x25; 0xC0] 3 0 = Some (r, off') /\ 0 <= off' <= 3) /\
  quic_varint_take [0x40; 0x25; 0xC0] 3 2 = Some (None, 2).
Proof.
  split; [|reflexivity].
  destruct (varint_take_safe [0x40; 0x25; 0xC0] 3 0) as (r & off' & H1 & H2 & _);
    [repeat constructor; closed_arith|closed_arith..|by eauto].
Defined.

(** Any 64-bit value can be offered to the writer. *)
Lemma bounded_varint v : is_u64 v -> BoundedWr (quic_varint_put v).
Proof.
  intros Hv. destruct (Z.lt_ge_cases QUIC_VARINT_MAX v).
  - intros cap buf off Hoff Hcap Hobj. rewrite varint_put_out by done.
    exists false, buf, off. split_and!; done || lia.
  - eapply writes_bounded, writes_varint. unfold is_varint, is_u64 in *; lia.
Qed.
#[export] Hint Resolve bounded_varint : quic.

(** A failed read does not move the cursor. *)
Lemma varint_take_stuck buf n off off' :
  quic_varint_take buf n off = Some (None, off') -> off' = off.
Proof.
  unfold quic_varint_take. destruct (quic_varint_decode _ _) as [[[? ?]|]|]; by intros; simplify_eq.
Qed.
