(* ===== verification/Codec.v ===== *)
(** What a frame codec promises to the packet pipeline.

    Every frame of RFC 9000 section 19 has an encoder
    [usz enc(u8 *buf, usz cap, const F *f)] and a decoder
    [usz dec(const u8 *buf, usz n, F *f)] that starts at the type byte.  The class
    below is the contract between the codecs and their clients (the frame walker,
    the dispatcher, the builders): clients are proved against it and each frame
    type discharges it. *)
From S2P Require Import Prelude.
From S2P Require Import Buffers.
From S2P Require Import Varint.

Class FrameCodec (F : Type) := {
  (** the frames a caller may pass to the encoder *)
  fc_wf : F -> Prop;
  (** the wire image: the type byte and the body *)
  fc_type : F -> Z;
  fc_body : F -> list Z;
  (** what holds of every frame the decoder accepts *)
  fc_valid : F -> Prop;
  fc_encode : F -> list Z -> Z -> option (Z * list Z);
  fc_decode : list Z -> Z -> option (option (F * Z));
}.

Definition fc_bytes {F} `{FrameCodec F} (f : F) : list Z := fc_type f :: fc_body f.

Class FrameCodecLaws (F : Type) `{FrameCodec F} : Prop := {
  fc_encode_spec : forall f buf cap, fc_wf f -> 0 <= cap <= zlen buf -> cap < max_object ->
    if zlen (fc_bytes f) <=? cap
    then fc_encode f buf cap = Some (zlen (fc_bytes f), splice buf 0 (fc_bytes f))
    else exists buf', fc_encode f buf cap = Some (0, buf') /\ zlen buf' = zlen buf /\
           drop (Z.to_nat cap) buf' = drop (Z.to_nat cap) buf;
  fc_decode_spec : forall f post n, fc_wf f ->
    1 <= n <= zlen (fc_bytes f ++ post) -> n < max_object ->
    fc_decode (fc_bytes f ++ post) n =
    Some (if zlen (fc_bytes f) <=? n then Some (f, zlen (fc_bytes f)) else None);
  fc_decode_safe : forall buf n, Forall is_u8 buf -> 1 <= n <= zlen buf -> n < max_object ->
    exists r, fc_decode buf n = Some r /\
      forall f used, r = Some (f, used) -> fc_valid f /\ 1 <= used <= n;
}.

(** A one-byte varint is the byte itself. *)
Lemma varint_bytes_small t : 0 <= t < 64 -> varint_bytes t = [t].
Proof.
  intros Ht. unfold varint_bytes.
  destruct (varint_cases t) as [(?&->&->)|H]; [unfold is_varint, QUIC_VARINT_MAX; lia| |lia].
  simpl. rewrite Z.add_0_r, Z.mod_small by lia. done.
Qed.

Lemma writes_type t : 0 <= t < 64 -> Writes (quic_varint_put t) [t].
Proof.
  intros Ht. rewrite <- varint_bytes_small by lia. apply writes_varint.
  unfold is_varint, QUIC_VARINT_MAX; lia.
Qed.

(** A decoder of the shape [usz off = 1; ...; return off;]. *)
Lemma decode1_spec {A} (p : rd A) t body a post n :
  Reads p body a -> 1 <= n <= zlen ((t :: body) ++ post) -> n < max_object ->
  decode_from 1 p ((t :: body) ++ post) n =
  Some (if zlen (t :: body) <=? n then Some (a, zlen (t :: body)) else None).
Proof.
  intros Hp Hn Ho. rewrite zlen_cons.
  apply (decode_from_reads p [t] body post a n); [done|rewrite ?zlen_cons, ?zlen_nil; lia|apply Hn|done].
Qed.

Section Roundtrip.
Context {F : Type} `{FrameCodecLaws F}.

(** Whatever the encoder writes, the decoder reads back, and it consumes
    exactly the bytes written; cut anywhere, the frame is refused. *)
Lemma codec_roundtrip (f : F) buf cap n :
  fc_wf f -> zlen (fc_bytes f) <= cap -> cap <= zlen buf -> zlen buf < max_object ->
  1 <= n <= zlen buf ->
  exists buf', fc_encode f buf cap = Some (zlen (fc_bytes f), buf') /\
    fc_decode buf' n =
    Some (if zlen (fc_bytes f) <=? n then Some (f, zlen (fc_bytes f)) else None).
Proof.
  intros Hf Hfit Hcap Hobj Hn. pose proof (zlen_nonneg (fc_bytes f)).
  pose proof (fc_encode_spec f buf cap Hf ltac:(lia) ltac:(lia)) as He. revert He. zdecide.
  intros He. exists (splice buf 0 (fc_bytes f)). split; [done|].
  destruct (splice_at buf (fc_bytes f) 0) as (pre & old & post & Hb & Hp & Ho & ->); [lia|lia|].
  destruct pre as [|? ?]; [|unfold zlen in Hp; simpl in Hp; lia]. simpl app in *.
  apply fc_decode_spec; [done| |lia].
  subst buf. rewrite !zlen_app in *. lia.
Qed.
End Roundtrip.
