(* ===== verification/Frames.v ===== *)
(** The frame codecs of RFC 9000 section 19 other than ACK:
    [frame.c] (PADDING/PING, CRYPTO, STREAM, CONNECTION_CLOSE), [stream_ctl.c],
    [flowctl.c], [connctl.c] and [ncid.c] under
    [src/transport/packet/frame/frame/], with the bounds predicates beside them.
    A [const u8 *] view held by a frame is the list of bytes it points at. *)
From S2P Require Import Prelude.
From S2P Require Import Buffers.
From S2P Require Import Varint.
From S2P Require Import Codec.

(** * frame.c *)

Definition QUIC_FRAME_PADDING : Z := 0x00.
Definition QUIC_FRAME_PING : Z := 0x01.
Definition QUIC_FRAME_CRYPTO : Z := 0x06.
Definition QUIC_FRAME_STREAM_BASE : Z := 0x08.
Definition QUIC_FRAME_CONN_CLOSE_TPT : Z := 0x1c.
Definition QUIC_FRAME_CONN_CLOSE_APP : Z := 0x1d.
Definition QUIC_STREAM_FIN : Z := 0x01.
Definition QUIC_STREAM_LEN : Z := 0x02.
Definition QUIC_STREAM_OFF : Z := 0x04.

Record quic_crypto_frame := mk_crypto {
  cf_offset : Z; cf_length : Z; cf_data : list Z }.

Record quic_stream_frame := mk_stream {
  sf_stream_id : Z; sf_offset : Z; sf_length : Z; sf_data : list Z; sf_fin : Z }.

Record quic_conn_close_frame := mk_close {
  cc_is_app : Z; cc_error_code : Z; cc_frame_type : Z; cc_reason_len : Z; cc_reason : list Z }.

Definition write_bytes (src : list Z) (len : Z) : wr := fun cap '(buf, off) =>
  if cap <? off +w len then Some (false, (buf, off))
  else match copy_loop (Z.to_nat len) buf off src 0 with
       | None => None
       | Some buf' => Some (true, (buf', off +w len))
       end.

Definition read_bytes (len : Z) : rd (list Z) := fun buf n off =>
  if n <? off +w len then Some (None, off)
  else Some (Some (slice buf off len), off +w len).

Definition quic_frame_put_simple (buf : list Z) (cap type : Z) : option (Z * list Z) :=
  if cap =? 0 then Some (0, buf)
  else match store buf 0 type with None => None | Some buf' => Some (1, buf') end.

Definition put_crypto_hdr (f : quic_crypto_frame) : wr :=
  quic_varint_put QUIC_FRAME_CRYPTO ;;;
  quic_varint_put (cf_offset f) ;;;
  quic_varint_put (cf_length f).

Definition quic_frame_put_crypto (f : quic_crypto_frame) (buf : list Z) (cap : Z) :=
  encode_to (put_crypto_hdr f ;;; write_bytes (cf_data f) (cf_length f)) buf cap.

Definition take_crypto_hdr : rd (Z * Z) :=
  offset <- quic_varint_take ;;
  length <- quic_varint_take ;;
  rd_ret (offset, length).

Definition quic_frame_get_crypto (buf : list Z) (n : Z) : option (option (quic_crypto_frame * Z)) :=
  decode_from 1 (h <- take_crypto_hdr ;;
                 data <- read_bytes (snd h) ;;
                 rd_ret (mk_crypto (fst h) (snd h) data)) buf n.

Definition stream_type (f : quic_stream_frame) : Z :=
  let t := Z.lor QUIC_FRAME_STREAM_BASE QUIC_STREAM_LEN in
  let t := if sf_offset f =? 0 then t else Z.lor t QUIC_STREAM_OFF in
  if sf_fin f =? 0 then t else Z.lor t QUIC_STREAM_FIN.

Definition put_opt_offset (offset : Z) : wr :=
  if offset =? 0 then wr_ok else quic_varint_put offset.

Definition put_stream_prefix (f : quic_stream_frame) : wr :=
  quic_varint_put (stream_type f) ;;; quic_varint_put (sf_stream_id f).

Definition put_stream_hdr (f : quic_stream_frame) : wr :=
  put_stream_prefix f ;;; put_opt_offset (sf_offset f) ;;; quic_varint_put (sf_length f).

Definition quic_frame_put_stream (f : quic_stream_frame) (buf : list Z) (cap : Z) :=
  encode_to (put_stream_hdr f ;;; write_bytes (sf_data f) (sf_length f)) buf cap.

Definition take_opt_offset (type : Z) : rd Z :=
  if Z.land type QUIC_STREAM_OFF =? 0 then rd_ret 0 else quic_varint_take.

(** stream id, offset, length *)
Definition take_stream_hdr (type : Z) : rd (Z * Z * Z) :=
  id <- quic_varint_take ;;
  offset <- take_opt_offset type ;;
  length <- quic_varint_take ;;
  rd_ret (id, offset, length).

Definition quic_frame_get_stream (buf : list Z) (n : Z) : option (option (quic_stream_frame * Z)) :=
  match load buf 0 with
  | None => None
  | Some type =>
      let fin := if Z.land type QUIC_STREAM_FIN =? 0 then 0 else 1 in
      decode_from 1 (h <- take_stream_hdr type ;;
                     data <- read_bytes (snd h) ;;
                     rd_ret (mk_stream (fst (fst h)) (snd (fst h)) (snd h) data fin)) buf n
  end.

Definition put_opt_frame_type (f : quic_conn_close_frame) : wr :=
  if cc_is_app f =? 0 then quic_varint_put (cc_frame_type f) else wr_ok.

Definition put_cc_prefix (f : quic_conn_close_frame) : wr :=
  quic_varint_put (if cc_is_app f =? 0 then QUIC_FRAME_CONN_CLOSE_TPT else QUIC_FRAME_CONN_CLOSE_APP) ;;;
  quic_varint_put (cc_error_code f).

Definition put_cc_hdr (f : quic_conn_close_frame) : wr :=
  put_cc_prefix f ;;; put_opt_frame_type f ;;; quic_varint_put (cc_reason_len f).

Definition quic_frame_put_conn_close (f : quic_conn_close_frame) (buf : list Z) (cap : Z) :=
  encode_to (put_cc_hdr f ;;; write_bytes (cc_reason f) (cc_reason_len f)) buf cap.

Definition take_opt_frame_type (is_app : Z) : rd Z :=
  if is_app =? 0 then quic_varint_take else rd_ret 0.

(** error code, frame type, reason length *)
Definition take_cc_hdr (is_app : Z) : rd (Z * Z * Z) :=
  code <- quic_varint_take ;;
  ft <- take_opt_frame_type is_app ;;
  len <- quic_varint_take ;;
  rd_ret (code, ft, len).

Definition quic_frame_get_conn_close (buf : list Z) (n : Z) : option (option (quic_conn_close_frame * Z)) :=
  match load buf 0 with
  | None => None
  | Some b0 =>
      let is_app := if b0 =? QUIC_FRAME_CONN_CLOSE_APP then 1 else 0 in
      decode_from 1 (h <- take_cc_hdr is_app ;;
                     reason <- read_bytes (snd h) ;;
                     rd_ret (mk_close is_app (fst (fst h)) (snd (fst h)) (snd h) reason)) buf n
  end.

(** * Reading and writing the trailing data *)

Lemma writes_write_bytes src len :
  0 <= len <= zlen src -> len < max_object -> Writes (write_bytes src len) (take (Z.to_nat len) src).
Proof. exact (writes_put_bytes src len). Qed.

Lemma writes_write_all src len :
  zlen src = len -> len < max_object -> Writes (write_bytes src len) src.
Proof. intros <-. exact (writes_put_bytes_all src). Qed.

Lemma reads_read_bytes bs len :
  zlen bs = len -> len < max_object -> Reads (read_bytes len) bs bs.
Proof.
  intros <- Ho pre post n H1 H2 H3. unfold read_bytes.
  pose proof (zlen_nonneg pre); pose proof (zlen_nonneg bs). unwrap.
  destruct (Z.leb_spec (zlen pre + zlen bs) n); zdecide; [|by exists (zlen pre)].
  by rewrite slice_app.
Qed.

Lemma saferd_read_bytes len : is_varint len -> SafeRd (read_bytes len) (fun d => zlen d = len).
Proof.
  unfold is_varint, QUIC_VARINT_MAX. intros Hl buf n off Hb Hoff Hn Hobj. unfold read_bytes. unwrap.
  destruct (Z.ltb_spec n (off + len)); [exists None, off; split_and!; done || lia|].
  eexists _, _. split; [done|]. split; [lia|]. intros ? [= <-]. apply zlen_slice; lia.
Qed.

Lemma varint_lt_object v : is_varint v -> v < max_object.
Proof. unfold is_varint, QUIC_VARINT_MAX, max_object; lia. Qed.
#[export] Hint Resolve varint_lt_object : quic.

(** Find the bytes a writer or reader stands for, component by component. *)
Ltac derive_writes :=
  repeat first
    [ eapply writes_seq | eapply writes_ok_nil | eapply writes_put_byte
    | eapply writes_type; solve [closed_arith | eauto with quic] | eapply writes_varint; assumption
    | eapply writes_write_all; [eassumption|by eauto with quic]
    | eapply writes_put_bytes_all; by eauto with quic ].
Ltac derive_reads :=
  repeat (cbn [fst snd]; first
    [ eapply reads_ret | eapply reads_bind_last; [|cbn [fst snd]; eapply reads_ret]
    | eapply reads_bind | eapply reads_varint; assumption
    | eapply reads_read_bytes; [eassumption|by eauto with quic] ]).
Ltac derive_safe :=
  repeat (cbn [fst snd]; first
    [ apply saferd_varint | apply saferd_fail
    | apply saferd_read_bytes; assumption
    | eapply saferd_bind; [|intros ? ?] ]).

(** ** CRYPTO *)

Definition crypto_wf (f : quic_crypto_frame) : Prop :=
  is_varint (cf_offset f) /\ is_varint (cf_length f) /\ zlen (cf_data f) = cf_length f.

#[export] Instance crypto_codec : FrameCodec quic_crypto_frame := {|
  fc_wf := crypto_wf; fc_valid := crypto_wf;
  fc_type _ := QUIC_FRAME_CRYPTO;
  fc_body f := varint_bytes (cf_offset f) ++ varint_bytes (cf_length f) ++ cf_data f;
  fc_encode := quic_frame_put_crypto; fc_decode := quic_frame_get_crypto |}.

Lemma saferd_crypto_hdr : SafeRd take_crypto_hdr (fun h => is_varint (fst h) /\ is_varint (snd h)).
Proof. unfold take_crypto_hdr. derive_safe. by apply saferd_ret. Qed.

#[export] Instance crypto_laws : FrameCodecLaws quic_crypto_frame.
Proof.
  split.
  - intros f buf cap (H1 & H2 & H3) Hc Ho. apply encode_to_spec; [|done|done].
    eapply writes_eq; [unfold put_crypto_hdr; derive_writes|]. simpl. by rewrite <- app_assoc.
  - intros f post n (H1 & H2 & H3) Hn Ho. destruct f as [o l d]; simpl in *.
    apply decode1_spec; [|done|done].
    apply (reads_eq _ ((varint_bytes o ++ varint_bytes l) ++ d)); [|by rewrite <- app_assoc].
    unfold take_crypto_hdr. derive_reads.
  - intros buf n Hb Hn Ho. apply decode_from_safe; [|done|lia|lia|done].
    eapply saferd_bind; [apply saferd_crypto_hdr|intros [o l] [H1 H2]].
    derive_safe. by apply saferd_ret.
Qed.

(** ** STREAM *)

Definition stream_wf (f : quic_stream_frame) : Prop :=
  is_varint (sf_stream_id f) /\ is_varint (sf_offset f) /\ is_varint (sf_length f) /\
  zlen (sf_data f) = sf_length f /\ (sf_fin f = 0 \/ sf_fin f = 1).

Definition opt_offset_bytes (offset : Z) : list Z :=
  if offset =? 0 then [] else varint_bytes offset.

#[export] Instance stream_codec : FrameCodec quic_stream_frame := {|
  fc_wf := stream_wf; fc_valid := stream_wf;
  fc_type := stream_type;
  fc_body f := varint_bytes (sf_stream_id f) ++ opt_offset_bytes (sf_offset f) ++
               varint_bytes (sf_length f) ++ sf_data f;
  fc_encode := quic_frame_put_stream; fc_decode := quic_frame_get_stream |}.

(** The type byte carries the OFF and FIN bits the decoder tests. *)
Lemma stream_type_bits f :
  10 <= stream_type f < 16 /\
  (Z.land (stream_type f) QUIC_STREAM_OFF =? 0) = (sf_offset f =? 0) /\
  (Z.land (stream_type f) QUIC_STREAM_FIN =? 0) = (sf_fin f =? 0).
Proof.
  unfold stream_type. destruct (sf_offset f =? 0), (sf_fin f =? 0); vm_compute; intuition congruence.
Qed.

Lemma writes_opt_offset o : is_varint o -> Writes (put_opt_offset o) (opt_offset_bytes o).
Proof.
  intros Ho. unfold put_opt_offset, opt_offset_bytes. destruct (o =? 0); [apply writes_ok_nil|by apply writes_varint].
Qed.

Lemma reads_opt_offset o type :
  is_varint o -> (Z.land type QUIC_STREAM_OFF =? 0) = (o =? 0) ->
  Reads (take_opt_offset type) (opt_offset_bytes o) o.
Proof.
  intros Ho Ht. unfold take_opt_offset, opt_offset_bytes. rewrite Ht.
  destruct (Z.eqb_spec o 0) as [->|]; [apply reads_ret|by apply reads_varint].
Qed.

Lemma saferd_opt_offset type : SafeRd (take_opt_offset type) is_varint.
Proof.
  unfold take_opt_offset. destruct (_ =? 0); [|apply saferd_varint].
  apply saferd_ret. unfold is_varint, QUIC_VARINT_MAX; lia.
Qed.

Lemma saferd_stream_hdr type : SafeRd (take_stream_hdr type)
  (fun h => is_varint (fst (fst h)) /\ is_varint (snd (fst h)) /\ is_varint (snd h)).
Proof.
  unfold take_stream_hdr. eapply saferd_bind; [apply saferd_varint|intros ? ?].
  eapply saferd_bind; [apply saferd_opt_offset|intros ? ?]. derive_safe. by apply saferd_ret.
Qed.

#[export] Instance stream_laws : FrameCodecLaws quic_stream_frame.
Proof.
  split.
  - intros f buf cap (H1 & H2 & H3 & H4 & H5) Hc Ho. apply encode_to_spec; [|done|done].
    pose proof (stream_type_bits f) as [? _].
    eapply writes_eq.
    { unfold put_stream_hdr, put_stream_prefix. eapply writes_seq; [|by eapply writes_write_all; eauto with quic].
      eapply writes_seq; [eapply writes_seq; [eapply writes_type; lia|by apply writes_varint]|].
      eapply writes_seq; [by apply writes_opt_offset|by apply writes_varint]. }
    simpl. by rewrite <- !app_assoc.
  - intros f post n (H1 & H2 & H3 & H4 & H5) Hn Ho. pose proof (stream_type_bits f) as (_ & Hoff & Hfin).
    cbn [fc_decode stream_codec]. unfold quic_frame_get_stream.
    change (load (fc_bytes f ++ post) 0) with (Some (stream_type f)). cbn iota beta. rewrite Hfin.
    apply decode1_spec; [|done|done]. destruct f as [i o l d fin]; simpl in *.
    apply (reads_eq _ ((varint_bytes i ++ opt_offset_bytes o ++ varint_bytes l) ++ d));
      [|by rewrite <- !app_assoc].
    eapply reads_bind.
    { unfold take_stream_hdr. eapply reads_bind; [by apply reads_varint|].
      eapply reads_bind; [by apply reads_opt_offset|]. derive_reads. }
    replace (if fin =? 0 then 0 else 1) with fin by (by destruct H5; subst). derive_reads.
  - intros buf n Hb Hn Ho. cbn [fc_decode stream_codec]. unfold quic_frame_get_stream.
    destruct (load_is_Some buf 0) as [t ->]; [lia|].
    apply decode_from_safe; [|done|lia|lia|done].
    eapply saferd_bind; [apply saferd_stream_hdr|intros [[i o] l] (H1 & H2 & H3)].
    derive_safe. apply saferd_ret. split_and!; try done. simpl. destruct (_ =? 0); auto.
Qed.

(** ** CONNECTION_CLOSE *)

Definition close_wf (f : quic_conn_close_frame) : Prop :=
  is_varint (cc_error_code f) /\ is_varint (cc_frame_type f) /\ is_varint (cc_reason_len f) /\
  zlen (cc_reason f) = cc_reason_len f /\
  (cc_is_app f = 0 \/ cc_is_app f = 1 /\ cc_frame_type f = 0).

Definition opt_frame_type_bytes (is_app ft : Z) : list Z :=
  if is_app =? 0 then varint_bytes ft else [].

#[export] Instance close_codec : FrameCodec quic_conn_close_frame := {|
  fc_wf := close_wf; fc_valid := close_wf;
  fc_type f := if cc_is_app f =? 0 then QUIC_FRAME_CONN_CLOSE_TPT else QUIC_FRAME_CONN_CLOSE_APP;
  fc_body f := varint_bytes (cc_error_code f) ++ opt_frame_type_bytes (cc_is_app f) (cc_frame_type f) ++
               varint_bytes (cc_reason_len f) ++ cc_reason f;
  fc_encode := quic_frame_put_conn_close; fc_decode := quic_frame_get_conn_close |}.

Lemma saferd_cc_hdr is_app : SafeRd (take_cc_hdr is_app)
  (fun h => is_varint (fst (fst h)) /\ is_varint (snd (fst h)) /\ is_varint (snd h) /\
            (is_app = 0 \/ snd (fst h) = 0)).
Proof.
  unfold take_cc_hdr, take_opt_frame_type. eapply saferd_bind; [apply saferd_varint|intros code ?].
  apply (saferd_bind _ _ (fun ft => is_varint ft /\ (is_app = 0 \/ ft = 0))).
  - destruct (Z.eqb_spec is_app 0).
    + eapply saferd_weaken; [apply saferd_varint|auto].
    + apply saferd_ret. unfold is_varint, QUIC_VARINT_MAX; lia.
  - intros ft [? ?]. derive_safe. by apply saferd_ret.
Qed.

#[export] Instance close_laws : FrameCodecLaws quic_conn_close_frame.
Proof.
  split.
  - intros f buf cap (H1 & H2 & H3 & H4 & H5) Hc Ho. apply encode_to_spec; [|done|done].
    apply (writes_eq _ ((([fc_type f] ++ varint_bytes (cc_error_code f)) ++
      opt_frame_type_bytes (cc_is_app f) (cc_frame_type f) ++ varint_bytes (cc_reason_len f)) ++ cc_reason f)).
    { unfold put_cc_hdr, put_cc_prefix, put_opt_frame_type, opt_frame_type_bytes. simpl fc_type.
      destruct (cc_is_app f =? 0); derive_writes. }
    simpl. by rewrite <- !app_assoc.
  - intros f post n (H1 & H2 & H3 & H4 & H5) Hn Ho.
    cbn [fc_decode close_codec]. unfold quic_frame_get_conn_close.
    change (load (fc_bytes f ++ post) 0) with (Some (fc_type f)). cbn iota beta.
    replace (if fc_type f =? QUIC_FRAME_CONN_CLOSE_APP then 1 else 0) with (cc_is_app f)
      by (simpl; destruct H5 as [->|[-> _]]; done).
    apply decode1_spec; [|done|done]. destruct f as [a c ft l d]; simpl in *.
    apply (reads_eq _ ((varint_bytes c ++ opt_frame_type_bytes a ft ++ varint_bytes l) ++ d));
      [|by rewrite <- !app_assoc].
    eapply reads_bind.
    { unfold take_cc_hdr. eapply reads_bind; [by apply reads_varint|].
      eapply reads_bind.
      - unfold take_opt_frame_type, opt_frame_type_bytes.
        instantiate (1 := ft). destruct (Z.eqb_spec a 0); [by apply reads_varint|].
        destruct H5 as [|[_ ->]]; [done|apply reads_ret].
      - derive_reads. }
    derive_reads.
  - intros buf n Hb Hn Ho. cbn [fc_decode close_codec]. unfold quic_frame_get_conn_close.
    destruct (load_is_Some buf 0) as [t ->]; [lia|].
    apply decode_from_safe; [|done|lia|lia|done].
    eapply saferd_bind; [apply saferd_cc_hdr|intros [[c ft] l] (H1 & H2 & H3 & H4)].
    derive_safe. apply saferd_ret. unfold close_wf; simpl in *.
    split_and!; try done. destruct (t =? _); intuition lia.
Qed.

(** * Properties *)

(** A STREAM frame with any identifier, offset and data (offset present or
    omitted, FIN set or not) written by [quic_frame_put_stream] is read back by
    [quic_frame_get_stream] field for field, with exactly the bytes written
    consumed; every truncation is refused. *)
Theorem stream_roundtrip (f : quic_stream_frame) (buf : list Z) (cap n : Z)
  (Hf : stream_wf f) (Hfit : zlen (fc_bytes f) <= cap) (Hcap : cap <= zlen buf)
  (Hobj : zlen buf < max_object) (Hn : 1 <= n <= zlen buf) :
  exists buf', quic_frame_put_stream f buf cap = Some (zlen (fc_bytes f), buf') /\
    quic_frame_get_stream buf' n =
    Some (if zlen (fc_bytes f) <=? n then Some (f, zlen (fc_bytes f)) else None).
Proof. exact (codec_roundtrip f buf cap n Hf Hfit Hcap Hobj Hn). Qed.

Definition stream_example : quic_stream_frame := mk_stream 4 1000 3 [1; 2; 3] 1.

Lemma stream_example_wf : stream_wf stream_example.
Proof. unfold stream_wf, is_varint. split_and!; [closed_arith..|by right]. Qed.

(** Witness: a FIN frame at offset 1000. *)
Lemma stream_roundtrip_witness :
  exists buf', quic_frame_put_stream stream_example (repeat 0 16) 16 = Some (8, buf') /\
    quic_frame_get_stream buf' 16 = Some (Some (stream_example, 8)).
Proof.
  destruct (stream_roundtrip stream_example (repeat 0 16) 16 16) as (buf' & H1 & H2);
    [unfold stream_wf, is_varint; split_and!; [closed_arith..|by right]|closed_arith..|].
  exists buf'. split; [exact H1|exact H2].
Defined.

(** A CONNECTION_CLOSE frame of either variant (transport with a frame type,
    application without one) survives the wire unchanged; a frame that does not
    fit the capacity makes the encoder return 0 and leaves the bytes from the
    capacity on untouched. *)
Theorem conn_close_roundtrip (f : quic_conn_close_frame) (buf : list Z) (cap n : Z)
  (Hf : close_wf f) (Hcap : 0 <= cap <= zlen buf) (Hobj : zlen buf < max_object) (Hn : 1 <= n <= zlen buf) :
  (cap < zlen (fc_bytes f) -> exists buf', quic_frame_put_conn_close f buf cap = Some (0, buf') /\
     drop (Z.to_nat cap) buf' = drop (Z.to_nat cap) buf) /\
  (zlen (fc_bytes f) <= cap -> exists buf', quic_frame_put_conn_close f buf cap = Some (zlen (fc_bytes f), buf') /\
     quic_frame_get_conn_close buf' n =
     Some (if zlen (fc_bytes f) <=? n then Some (f, zlen (fc_bytes f)) else None)).
Proof.
  split; intros Hc.
  - pose proof (fc_encode_spec f buf cap Hf Hcap ltac:(lia)) as He. revert He. zdecide.
    intros (buf' & H1 & _ & H2). by exists buf'.
  - apply (@codec_roundtrip _ close_codec close_laws f buf cap n Hf Hc); done || lia.
Qed.

Definition close_example : quic_conn_close_frame := mk_close 0 7 6 2 [104; 105].

Lemma close_example_wf : close_wf close_example.
Proof. unfold close_wf, is_varint. split_and!; [closed_arith..|by left]. Qed.

(** Witness: a transport close with a two-byte reason. *)
Lemma conn_close_roundtrip_witness :
  exists buf', quic_frame_put_conn_close close_example (repeat 0 10) 10 = Some (6, buf') /\
    quic_frame_get_conn_close buf' 10 = Some (Some (close_example, 6)).
Proof.
  destruct (conn_close_roundtrip close_example (repeat 0 10) 10 10) as (_ & H);
    [unfold close_wf, is_varint; split_and!; [closed_arith..|by left]|closed_arith..|].
  destruct H as (buf' & H1 & H2); [closed_arith|]. exists buf'. split; [exact H1|exact H2].
Defined.

(** The decoder of STREAM frames does not look at the LEN bit (0x02) of the
    type byte.  A type 0x08 frame has no Length field and its data runs to the end
    of the packet; the decoder takes its first data byte for a length: the frame
    of stream 4 with data [0x41; 0x42] is refused, and the one with data
    [0x01; 0x42] is accepted as a one-byte frame carrying 0x42. *)
Theorem stream_len_bit_ignored :
  quic_frame_get_stream [0x08; 0x04; 0x41; 0x42] 4 = Some None /\
  quic_frame_get_stream [0x08; 0x04; 0x01; 0x42] 4 = Some (Some (mk_stream 4 0 1 [0x42] 0, 4)) /\
  forall f, Z.land (stream_type f) QUIC_STREAM_LEN = QUIC_STREAM_LEN.
Proof.
  split_and!; [reflexivity..|]. intros f. unfold stream_type.
  by destruct (sf_offset f =? 0), (sf_fin f =? 0).
Qed.
