(* ===== verification/CtlFrames.v ===== *)
(** The control frames of RFC 9000 section 19: stream control ([stream_ctl.c]),
    flow control ([flowctl.c]), connection and path control ([connctl.c]),
    NEW_CONNECTION_ID ([ncid.c], [ncid_check.c]), and the range predicates
    [ack_range.c], [crypto_offset.c], [stream_bounds.c], [close_convert.c]. *)
From S2P Require Import Prelude.
From S2P Require Import Buffers.
From S2P Require Import Varint.
From S2P Require Import Codec.
From S2P Require Import Frames.

(** * stream_ctl.c *)

Definition QUIC_FRAME_RESET_STREAM : Z := 0x04.
Definition QUIC_FRAME_STOP_SENDING : Z := 0x05.

Record quic_reset_stream_frame := mk_reset {
  rs_stream_id : Z; rs_error_code : Z; rs_final_size : Z }.
Record quic_stop_sending_frame := mk_stop {
  ss_stream_id : Z; ss_error_code : Z }.

Definition put_rs_head (f : quic_reset_stream_frame) : wr :=
  quic_varint_put QUIC_FRAME_RESET_STREAM ;;; quic_varint_put (rs_stream_id f).
Definition put_rs_tail (f : quic_reset_stream_frame) : wr :=
  quic_varint_put (rs_error_code f) ;;; quic_varint_put (rs_final_size f).
Definition quic_reset_stream_encode (f : quic_reset_stream_frame) (buf : list Z) (cap : Z) :=
  encode_to (put_rs_head f ;;; put_rs_tail f) buf cap.

Definition take_rs_head : rd (Z * Z) :=
  id <- quic_varint_take ;; code <- quic_varint_take ;; rd_ret (id, code).
Definition quic_reset_stream_decode (buf : list Z) (n : Z) : option (option (quic_reset_stream_frame * Z)) :=
  decode_from 1 (h <- take_rs_head ;;
                 fs <- quic_varint_take ;;
                 rd_ret (mk_reset (fst h) (snd h) fs)) buf n.

Definition put_ss_head (f : quic_stop_sending_frame) : wr :=
  quic_varint_put QUIC_FRAME_STOP_SENDING ;;; quic_varint_put (ss_stream_id f).
Definition quic_stop_sending_encode (f : quic_stop_sending_frame) (buf : list Z) (cap : Z) :=
  encode_to (put_ss_head f ;;; quic_varint_put (ss_error_code f)) buf cap.
Definition quic_stop_sending_decode (buf : list Z) (n : Z) : option (option (quic_stop_sending_frame * Z)) :=
  decode_from 1 (id <- quic_varint_take ;;
                 code <- quic_varint_take ;;
                 rd_ret (mk_stop id code)) buf n.

(** * flowctl.c *)

Definition QUIC_FRAME_MAX_DATA : Z := 0x10.
Definition QUIC_FRAME_MAX_STREAM_DATA : Z := 0x11.
Definition QUIC_FRAME_MAX_STREAMS_BIDI : Z := 0x12.
Definition QUIC_FRAME_DATA_BLOCKED : Z := 0x14.
Definition QUIC_FRAME_STREAM_DATA_BLOCKED : Z := 0x15.
Definition QUIC_FRAME_STREAMS_BLOCKED_BIDI : Z := 0x16.

Record quic_data_frame := mk_data { df_value : Z }.
Record quic_stream_data_frame := mk_stream_data { sd_stream_id : Z; sd_value : Z }.
Record quic_streams_frame := mk_streams { st_max_streams : Z; st_uni : Z }.

Definition put_at (v : Z) : wr := quic_varint_put v.

Definition put_one_varint_frame (type value : Z) (buf : list Z) (cap : Z) : option (Z * list Z) :=
  encode_to (put_at type ;;; put_at value) buf cap.

Definition get_one_varint_frame (buf : list Z) (n : Z) : option (option (Z * Z)) :=
  decode_from 1 quic_varint_take buf n.

Definition put_two_varint_frame (type a b : Z) (buf : list Z) (cap : Z) : option (Z * list Z) :=
  match put_one_varint_frame type a buf cap with
  | None => None
  | Some (off, buf1) =>
      if off =? 0 then Some (0, buf1)
      else match put_at b cap (buf1, off) with
           | None => None
           | Some (false, (buf2, _)) => Some (0, buf2)
           | Some (true, (buf2, off2)) => Some (off2, buf2)
           end
  end.

Definition get_two_varint_frame (buf : list Z) (n : Z) : option (option (Z * Z * Z)) :=
  match get_one_varint_frame buf n with
  | None => None
  | Some None => Some None
  | Some (Some (a, off)) =>
      match quic_varint_take buf n off with
      | None => None
      | Some (None, _) => Some None
      | Some (Some b, off2) => Some (Some (a, b, off2))
      end
  end.

Definition quic_max_data_encode (f : quic_data_frame) := put_one_varint_frame QUIC_FRAME_MAX_DATA (df_value f).
Definition quic_data_blocked_encode (f : quic_data_frame) := put_one_varint_frame QUIC_FRAME_DATA_BLOCKED (df_value f).

Definition data_decode (buf : list Z) (n : Z) : option (option (quic_data_frame * Z)) :=
  match get_one_varint_frame buf n with
  | None => None
  | Some None => Some None
  | Some (Some (v, off)) => Some (Some (mk_data v, off))
  end.
Definition quic_max_data_decode := data_decode.
Definition quic_data_blocked_decode := data_decode.

Definition quic_max_stream_data_encode (f : quic_stream_data_frame) :=
  put_two_varint_frame QUIC_FRAME_MAX_STREAM_DATA (sd_stream_id f) (sd_value f).
Definition quic_stream_data_blocked_encode (f : quic_stream_data_frame) :=
  put_two_varint_frame QUIC_FRAME_STREAM_DATA_BLOCKED (sd_stream_id f) (sd_value f).
Definition stream_data_decode (buf : list Z) (n : Z) : option (option (quic_stream_data_frame * Z)) :=
  match get_two_varint_frame buf n with
  | None => None
  | Some None => Some None
  | Some (Some (a, b, off)) => Some (Some (mk_stream_data a b, off))
  end.
Definition quic_max_stream_data_decode := stream_data_decode.
Definition quic_stream_data_blocked_decode := stream_data_decode.

Definition streams_type (bidi_type uni : Z) : Z := bidi_type + (if uni =? 0 then 0 else 1).

Definition quic_max_streams_encode (f : quic_streams_frame) :=
  put_one_varint_frame (streams_type QUIC_FRAME_MAX_STREAMS_BIDI (st_uni f)) (st_max_streams f).
Definition quic_streams_blocked_encode (f : quic_streams_frame) :=
  put_one_varint_frame (streams_type QUIC_FRAME_STREAMS_BLOCKED_BIDI (st_uni f)) (st_max_streams f).
Definition streams_decode (buf : list Z) (n : Z) : option (option (quic_streams_frame * Z)) :=
  match load buf 0 with
  | None => None
  | Some b0 =>
      match get_one_varint_frame buf n with
      | None => None
      | Some None => Some None
      | Some (Some (v, off)) => Some (Some (mk_streams v (Z.land b0 1), off))
      end
  end.
Definition quic_max_streams_decode := streams_decode.
Definition quic_streams_blocked_decode := streams_decode.

(** * connctl.c *)

Definition QUIC_FRAME_NEW_TOKEN : Z := 0x07.
Definition QUIC_FRAME_RETIRE_CID : Z := 0x19.
Definition QUIC_FRAME_PATH_CHALLENGE : Z := 0x1a.
Definition QUIC_FRAME_PATH_RESPONSE : Z := 0x1b.
Definition QUIC_FRAME_HANDSHAKE_DONE : Z := 0x1e.
Definition QUIC_PATH_DATA : Z := 8.

Record quic_new_token_frame := mk_token { nt_length : Z; nt_token : list Z }.

Definition put_new_token_head (length : Z) : wr :=
  quic_varint_put QUIC_FRAME_NEW_TOKEN ;;; quic_varint_put length.
Definition quic_new_token_encode (f : quic_new_token_frame) (buf : list Z) (cap : Z) :=
  encode_to (put_new_token_head (nt_length f) ;;; quic_put_bytes (nt_token f) (nt_length f)) buf cap.

Definition take_token_view (length : Z) : rd (list Z) := fun buf n off =>
  if n <? off +w length then Some (None, off)
  else Some (Some (slice buf off length), off +w length).
Definition quic_new_token_decode (buf : list Z) (n : Z) : option (option (quic_new_token_frame * Z)) :=
  decode_from 1 (len <- quic_varint_take ;;
                 tok <- take_token_view len ;;
                 rd_ret (mk_token len tok)) buf n.

Definition quic_retire_cid_encode (seq : Z) (buf : list Z) (cap : Z) :=
  encode_to (quic_varint_put QUIC_FRAME_RETIRE_CID ;;; quic_varint_put seq) buf cap.
Definition quic_retire_cid_decode (buf : list Z) (n : Z) : option (option (Z * Z)) :=
  decode_from 1 quic_varint_take buf n.

Definition quic_path_encode (type : Z) (data : list Z) (buf : list Z) (cap : Z) :=
  encode_to (put_byte type ;;; quic_put_bytes data QUIC_PATH_DATA) buf cap.

Definition type_is (buf : list Z) (n type : Z) : option bool :=
  if n =? 0 then Some false
  else match load buf 0 with None => None | Some b => Some (b =? type) end.

(** [data0] is the caller's array before the call. *)
Definition quic_path_decode (type : Z) (data0 : list Z) (buf : list Z) (n : Z) : option (option (list Z * Z)) :=
  match type_is buf n type with
  | None => None
  | Some false => Some None
  | Some true => decode_from 1 (quic_take_bytes data0 QUIC_PATH_DATA) buf n
  end.

Definition quic_handshake_done_encode (buf : list Z) (cap : Z) : option (Z * list Z) :=
  if cap =? 0 then Some (0, buf)
  else match store buf 0 QUIC_FRAME_HANDSHAKE_DONE with None => None | Some buf' => Some (1, buf') end.
Definition quic_handshake_done_decode (buf : list Z) (n : Z) : option Z :=
  if n =? 0 then Some 0
  else match load buf 0 with
       | None => None
       | Some b => if b =? QUIC_FRAME_HANDSHAKE_DONE then Some 1 else Some 0
       end.

(** * ncid.c and ncid_check.c *)

Definition QUIC_FRAME_NEW_CID : Z := 0x18.
Definition QUIC_NCID_TOKEN : Z := 16.
Definition QUIC_NCID_MAX_LEN : Z := 20.

(** [nc_cid] and [nc_token] are the whole arrays (20 and 16 bytes). *)
Record quic_ncid_frame := mk_ncid {
  nc_seq : Z; nc_retire_prior_to : Z; nc_cid_len : Z; nc_cid : list Z; nc_token : list Z }.

Definition ncid_valid (f : quic_ncid_frame) : bool :=
  (nc_cid_len f <=? QUIC_NCID_MAX_LEN) && (nc_retire_prior_to f <=? nc_seq f).

Definition put_ncid_head (f : quic_ncid_frame) : wr :=
  quic_varint_put QUIC_FRAME_NEW_CID ;;;
  quic_varint_put (nc_seq f) ;;;
  quic_varint_put (nc_retire_prior_to f).
Definition put_ncid_body (f : quic_ncid_frame) : wr :=
  put_byte (nc_cid_len f) ;;;
  quic_put_bytes (nc_cid f) (nc_cid_len f) ;;;
  quic_put_bytes (nc_token f) QUIC_NCID_TOKEN.
Definition put_ncid (f : quic_ncid_frame) : wr := put_ncid_head f ;;; put_ncid_body f.
Definition quic_ncid_encode (f : quic_ncid_frame) (buf : list Z) (cap : Z) : option (Z * list Z) :=
  if ncid_valid f then encode_to (put_ncid f) buf cap else Some (0, buf).

Definition take_ncid_head : rd (Z * Z) :=
  seq <- quic_varint_take ;; rpt <- quic_varint_take ;; rd_ret (seq, rpt).

(** [cid_len_ok] and the read of the length byte. *)
Definition take_cid_len : rd Z := fun buf n off =>
  if off <? n then
    match load buf off with
    | None => None
    | Some b => if b <=? QUIC_NCID_MAX_LEN then Some (Some b, off +w 1) else Some (None, off)
    end
  else Some (None, off).

(** [f0] is the caller's frame before the call: only the first [cid_len] bytes
    of its CID array are overwritten. *)
Definition take_ncid_body (f0 : quic_ncid_frame) : rd (Z * list Z * list Z) :=
  len <- take_cid_len ;;
  cid <- quic_take_bytes (nc_cid f0) len ;;
  tok <- quic_take_bytes (nc_token f0) QUIC_NCID_TOKEN ;;
  rd_ret (len, cid, tok).
Definition quic_ncid_decode (f0 : quic_ncid_frame) (buf : list Z) (n : Z) : option (option (quic_ncid_frame * Z)) :=
  decode_from 1 (h <- take_ncid_head ;;
                 b <- take_ncid_body f0 ;;
                 rd_ret (mk_ncid (fst h) (snd h) (fst (fst b)) (snd (fst b)) (snd b))) buf n.

Definition ncid_check_cid_len_ok (cid_len : Z) : bool := (1 <=? cid_len) && (cid_len <=? 20).
Definition quic_ncid_check (seq retire_prior_to cid_len : Z) : bool :=
  (retire_prior_to <=? seq) && ncid_check_cid_len_ok cid_len.

(** * Range predicates *)

Definition quic_ack_range_ok (largest first_range : Z) : bool := first_range <=? largest.
Definition quic_ack_gap_ok (smallest gap range_len : Z) : bool :=
  if smallest <? gap +w 2 then false else range_len <=? smallest -w gap -w 2.

Definition quic_crypto_offset_ok (offset len max_offset : Z) : bool :=
  if offset +w len <? offset then false else offset +w len <=? max_offset.
Definition quic_crypto_contiguous (received_upto new_offset : Z) : bool := new_offset <=? received_upto.

Definition QUIC_MAX_OFFSET : Z := 2 ^ 62.
Definition quic_stream_bounds_ok (offset length : Z) : bool :=
  let limit := QUIC_MAX_OFFSET -w 1 in
  if limit <? offset then false else length <=? limit -w offset.

Definition QUIC_CLOSE_TRANSPORT : Z := 0x1c.
Definition quic_close_needs_convert (is_app_close in_handshake : Z) : bool :=
  negb (is_app_close =? 0) && negb (in_handshake =? 0).
Definition quic_close_converted_type : Z := QUIC_CLOSE_TRANSPORT.

(** * The codecs satisfy the frame interface *)

(** ** RESET_STREAM and STOP_SENDING *)

Definition reset_wf (f : quic_reset_stream_frame) : Prop :=
  is_varint (rs_stream_id f) /\ is_varint (rs_error_code f) /\ is_varint (rs_final_size f).

#[export] Instance reset_codec : FrameCodec quic_reset_stream_frame := {|
  fc_wf := reset_wf; fc_valid := reset_wf; fc_type _ := QUIC_FRAME_RESET_STREAM;
  fc_body f := varint_bytes (rs_stream_id f) ++ varint_bytes (rs_error_code f) ++ varint_bytes (rs_final_size f);
  fc_encode := quic_reset_stream_encode; fc_decode := quic_reset_stream_decode |}.

Lemma saferd_two_varints {A} (k : Z -> Z -> rd A) (R : A -> Prop) :
  (forall a b, is_varint a -> is_varint b -> SafeRd (k a b) R) ->
  SafeRd (a <- quic_varint_take ;; b <- quic_varint_take ;; k a b) R.
Proof. intros Hk. eapply saferd_bind; [apply saferd_varint|intros]. eapply saferd_bind; [apply saferd_varint|auto]. Qed.

#[export] Instance reset_laws : FrameCodecLaws quic_reset_stream_frame.
Proof.
  split.
  - intros f buf cap (H1 & H2 & H3) Hc Ho. apply encode_to_spec; [|done|done].
    eapply writes_eq; [unfold put_rs_head, put_rs_tail; derive_writes|]. done.
  - intros [i c s] post n (H1 & H2 & H3) Hn Ho. apply decode1_spec; [|done|done]. simpl in *.
    apply (reads_eq _ ((varint_bytes i ++ varint_bytes c) ++ varint_bytes s)); [|by rewrite <- app_assoc].
    unfold take_rs_head. derive_reads.
  - intros buf n Hb Hn Ho. apply decode_from_safe; [|done|lia|lia|done].
    apply (saferd_bind _ _ (fun h => is_varint (fst h) /\ is_varint (snd h))).
    { apply saferd_two_varints. intros. by apply saferd_ret. }
    intros [i c] [H1 H2]. derive_safe. by apply saferd_ret.
Qed.

Definition stop_wf (f : quic_stop_sending_frame) : Prop :=
  is_varint (ss_stream_id f) /\ is_varint (ss_error_code f).

#[export] Instance stop_codec : FrameCodec quic_stop_sending_frame := {|
  fc_wf := stop_wf; fc_valid := stop_wf; fc_type _ := QUIC_FRAME_STOP_SENDING;
  fc_body f := varint_bytes (ss_stream_id f) ++ varint_bytes (ss_error_code f);
  fc_encode := quic_stop_sending_encode; fc_decode := quic_stop_sending_decode |}.

#[export] Instance stop_laws : FrameCodecLaws quic_stop_sending_frame.
Proof.
  split.
  - intros f buf cap (H1 & H2) Hc Ho. apply encode_to_spec; [|done|done].
    eapply writes_eq; [unfold put_ss_head; derive_writes|]. done.
  - intros [i c] post n (H1 & H2) Hn Ho. apply decode1_spec; [|done|done]. simpl in *. derive_reads.
  - intros buf n Hb Hn Ho. apply decode_from_safe; [|done|lia|lia|done].
    apply saferd_two_varints. intros. by apply saferd_ret.
Qed.

(** ** One- and two-varint frames *)

Lemma one_varint_encode t v buf cap :
  0 <= t < 64 -> is_varint v -> 0 <= cap <= zlen buf -> cap < max_object ->
  if zlen (t :: varint_bytes v) <=? cap
  then put_one_varint_frame t v buf cap = Some (zlen (t :: varint_bytes v), splice buf 0 (t :: varint_bytes v))
  else exists buf', put_one_varint_frame t v buf cap = Some (0, buf') /\ zlen buf' = zlen buf /\
         drop (Z.to_nat cap) buf' = drop (Z.to_nat cap) buf.
Proof.
  intros Ht Hv Hc Ho. apply encode_to_spec; [|done|done].
  apply (writes_seq _ _ [t]); [by apply writes_type|by apply writes_varint].
Qed.

Lemma one_varint_decode t v post n :
  is_varint v -> 1 <= n <= zlen ((t :: varint_bytes v) ++ post) -> n < max_object ->
  get_one_varint_frame ((t :: varint_bytes v) ++ post) n =
  Some (if zlen (t :: varint_bytes v) <=? n then Some (v, zlen (t :: varint_bytes v)) else None).
Proof. intros Hv Hn Ho. apply decode1_spec; [by apply reads_varint|done|done]. Qed.

Lemma one_varint_safe buf n :
  Forall is_u8 buf -> 1 <= n <= zlen buf -> n < max_object ->
  exists r, get_one_varint_frame buf n = Some r /\
    forall v used, r = Some (v, used) -> is_varint v /\ 1 <= used <= n.
Proof. intros. apply decode_from_safe; [apply saferd_varint|done|lia|lia|done]. Qed.

(** The two-varint forms continue the one-varint forms at their offset. *)
Lemma two_varint_encode_eq t a b buf cap :
  0 <= t < 64 -> is_varint a -> is_varint b -> 0 <= cap <= zlen buf -> cap < max_object ->
  put_two_varint_frame t a b buf cap = encode_to ((put_at t ;;; put_at a) ;;; put_at b) buf cap.
Proof.
  intros Ht Ha Hb Hc Ho. unfold put_two_varint_frame, put_one_varint_frame, encode_to.
  assert (Hw : Writes (put_at t ;;; put_at a) ([t] ++ varint_bytes a))
    by (apply writes_seq; [by apply writes_type|by apply writes_varint]).
  specialize (Hw cap buf 0 ltac:(lia) ltac:(lia) Ho). unfold wr_seq at 2. revert Hw.
  pose proof (zlen_nonneg (varint_bytes a)). rewrite Z.add_0_l. zcase; intros Hw.
  - rewrite Hw. rewrite zlen_app in *. change (zlen [t]) with 1. zdecide. done.
  - destruct Hw as (buf' & off' & -> & _). done.
Qed.

Lemma two_varint_decode_eq buf n :
  get_two_varint_frame buf n =
  match decode_from 1 (a <- quic_varint_take ;; b <- quic_varint_take ;; rd_ret (a, b)) buf n with
  | None => None
  | Some None => Some None
  | Some (Some (p, off)) => Some (Some (fst p, snd p, off))
  end.
Proof.
  unfold get_two_varint_frame, get_one_varint_frame, decode_from, rd_bind.
  destruct (quic_varint_take buf n 1) as [[[a|] o1]|]; try done.
  by destruct (quic_varint_take buf n o1) as [[[b|] o2]|].
Qed.

(** ** MAX_DATA / DATA_BLOCKED, MAX_STREAM_DATA / STREAM_DATA_BLOCKED and
       MAX_STREAMS / STREAMS_BLOCKED

    The pairs share their record, so each codec is named by its type byte. *)

Definition data_codec (t : Z) : FrameCodec quic_data_frame := {|
  fc_wf f := is_varint (df_value f); fc_valid f := is_varint (df_value f);
  fc_type _ := t; fc_body f := varint_bytes (df_value f);
  fc_encode f := put_one_varint_frame t (df_value f); fc_decode := data_decode |}.

Lemma data_laws t : 0 <= t < 64 -> @FrameCodecLaws quic_data_frame (data_codec t).
Proof.
  intros Ht. split.
  - intros f buf cap Hf Hc Ho. by apply one_varint_encode.
  - intros [v] post n Hf Hn Ho. cbn [fc_decode data_codec]. unfold data_decode.
    unfold fc_bytes; simpl fc_type; simpl fc_body. rewrite one_varint_decode by done. by destruct (_ <=? n).
  - intros buf n Hb Hn Ho. cbn [fc_decode data_codec]. unfold data_decode.
    destruct (one_varint_safe buf n Hb Hn Ho) as ([[v u]|] & -> & H1); eexists; (split; [done|]);
      intros; simplify_eq; by eapply H1.
Qed.

Definition stream_data_codec (t : Z) : FrameCodec quic_stream_data_frame := {|
  fc_wf f := is_varint (sd_stream_id f) /\ is_varint (sd_value f);
  fc_valid f := is_varint (sd_stream_id f) /\ is_varint (sd_value f);
  fc_type _ := t; fc_body f := varint_bytes (sd_stream_id f) ++ varint_bytes (sd_value f);
  fc_encode f := put_two_varint_frame t (sd_stream_id f) (sd_value f); fc_decode := stream_data_decode |}.

Lemma stream_data_laws t : 0 <= t < 64 -> @FrameCodecLaws quic_stream_data_frame (stream_data_codec t).
Proof.
  intros Ht. split.
  - intros f buf cap [H1 H2] Hc Ho. cbn [fc_encode stream_data_codec].
    rewrite two_varint_encode_eq by done. apply encode_to_spec; [|done|done].
    eapply writes_eq; [unfold put_at; derive_writes; by eapply writes_type|]. simpl. done.
  - intros [a b] post n [H1 H2] Hn Ho. cbn [fc_decode stream_data_codec]. unfold stream_data_decode.
    rewrite two_varint_decode_eq. unfold fc_bytes in *.
    cbn [fc_type fc_body stream_data_codec sd_stream_id sd_value] in *.
    rewrite (decode1_spec _ t (varint_bytes a ++ varint_bytes b) (a, b)); [|derive_reads|done|done].
    by destruct (_ <=? n).
  - intros buf n Hb Hn Ho. cbn [fc_decode stream_data_codec]. unfold stream_data_decode.
    rewrite two_varint_decode_eq.
    destruct (decode_from_safe (a <- quic_varint_take ;; b <- quic_varint_take ;; rd_ret (a, b))
      (fun p => is_varint (fst p) /\ is_varint (snd p)) 1 buf n) as ([[[a b] u]|] & -> & H1); try done; try lia.
    { apply saferd_two_varints. intros. by apply saferd_ret. }
    + eexists; split; [done|]. intros f used [= <- <-]. exact (H1 _ _ eq_refl).
    + eexists; split; [done|]. done.
Qed.

Definition streams_codec (t : Z) : FrameCodec quic_streams_frame := {|
  fc_wf f := is_varint (st_max_streams f) /\ (st_uni f = 0 \/ st_uni f = 1);
  fc_valid f := is_varint (st_max_streams f) /\ (st_uni f = 0 \/ st_uni f = 1);
  fc_type f := streams_type t (st_uni f); fc_body f := varint_bytes (st_max_streams f);
  fc_encode f := put_one_varint_frame (streams_type t (st_uni f)) (st_max_streams f);
  fc_decode := streams_decode |}.

(** The direction travels in the low bit of the (even) type. *)
Lemma streams_laws t : t = 0x12 \/ t = 0x16 -> @FrameCodecLaws quic_streams_frame (streams_codec t).
Proof.
  intros Ht.
  assert (Hty : forall f, st_uni f = 0 \/ st_uni f = 1 ->
    0 <= streams_type t (st_uni f) < 64 /\ Z.land (streams_type t (st_uni f)) 1 = st_uni f).
  { intros f [-> | ->]; destruct Ht; subst; vm_compute; intuition congruence. }
  split.
  - intros f buf cap [H1 H2] Hc Ho. apply one_varint_encode; [|done..]. by apply Hty.
  - intros [v u] post n [H1 H2] Hn Ho. cbn [fc_decode streams_codec]. unfold streams_decode.
    match goal with |- context [load ?l 0] => change (load l 0) with (Some (streams_type t u)) end.
    unfold fc_bytes; cbn [fc_type fc_body streams_codec st_max_streams st_uni].
    rewrite one_varint_decode by done. destruct (_ <=? n); [|done].
    specialize (Hty (mk_streams v u) H2). simpl in Hty. by rewrite (proj2 Hty).
  - intros buf n Hb Hn Ho. cbn [fc_decode streams_codec]. unfold streams_decode.
    destruct (load_is_Some buf 0) as [b0 ->]; [lia|].
    destruct (one_varint_safe buf n Hb Hn Ho) as ([[v u]|] & -> & H1); eexists; (split; [done|]);
      intros; simplify_eq; simpl.
    split; [|by eapply H1]. split; [by eapply H1|].
    change (Z.land b0 1) with (Z.land b0 (Z.ones 1)). rewrite Z.land_ones by lia.
    change (2 ^ 1) with 2. pose proof (Z.mod_pos_bound b0 2 ltac:(lia)). lia.
Qed.

(** ** NEW_TOKEN *)

Definition token_wf (f : quic_new_token_frame) : Prop :=
  is_varint (nt_length f) /\ zlen (nt_token f) = nt_length f.

#[export] Instance token_codec : FrameCodec quic_new_token_frame := {|
  fc_wf := token_wf; fc_valid := token_wf; fc_type _ := QUIC_FRAME_NEW_TOKEN;
  fc_body f := varint_bytes (nt_length f) ++ nt_token f;
  fc_encode := quic_new_token_encode; fc_decode := quic_new_token_decode |}.

#[export] Instance token_laws : FrameCodecLaws quic_new_token_frame.
Proof.
  split.
  - intros f buf cap [H1 H2] Hc Ho. apply encode_to_spec; [|done|done].
    eapply writes_eq.
    { unfold put_new_token_head. eapply writes_seq; [derive_writes|].
      rewrite <- H2. apply writes_put_bytes_all. rewrite H2. by eauto with quic. }
    done.
  - intros [l d] post n [H1 H2] Hn Ho. apply decode1_spec; [|done|done]. simpl in *. derive_reads.
  - intros buf n Hb Hn Ho. apply decode_from_safe; [|done|lia|lia|done].
    eapply saferd_bind; [apply saferd_varint|intros l Hl].
    eapply saferd_bind; [by apply (saferd_read_bytes l)|intros d Hd]. by apply saferd_ret.
Qed.

(** ** PATH_CHALLENGE / PATH_RESPONSE *)

Definition path_codec (t : Z) (data0 : list Z) : FrameCodec (list Z) := {|
  fc_wf d := zlen d = QUIC_PATH_DATA; fc_valid d := zlen d = QUIC_PATH_DATA;
  fc_type _ := t; fc_body d := d;
  fc_encode d := quic_path_encode t d; fc_decode := quic_path_decode t data0 |}.

Lemma path_laws t data0 : zlen data0 = QUIC_PATH_DATA -> @FrameCodecLaws (list Z) (path_codec t data0).
Proof.
  intros Hd0. split.
  - intros d buf cap Hd Hc Ho. apply encode_to_spec; [|done|done].
    apply (writes_seq _ _ [t]); [apply writes_put_byte|]. simpl in Hd. rewrite <- Hd.
    apply (writes_put_bytes_all d). by rewrite Hd.
  - intros d post n Hd Hn Ho. simpl in Hd. cbn [fc_decode path_codec]. unfold quic_path_decode, type_is.
    zdecide. change (load (fc_bytes d ++ post) 0) with (Some t). cbn iota. rewrite Z.eqb_refl.
    apply decode1_spec; [|done|done]. cbn [fc_body path_codec].
    replace d with (splice data0 0 d) at 2.
    + rewrite <- Hd. apply reads_take_bytes; rewrite ?Hd, ?Hd0; done.
    + unfold splice, zlen, QUIC_PATH_DATA in *. simpl. rewrite drop_ge by lia. by rewrite app_nil_r.
  - intros buf n Hb Hn Ho. cbn [fc_decode path_codec]. unfold quic_path_decode, type_is. zdecide.
    destruct (load_is_Some buf 0) as [b0 ->]; [lia|]. destruct (b0 =? t).
    + apply decode_from_safe; [|done|lia|lia|done]. eapply saferd_weaken.
      * apply saferd_take_bytes; rewrite ?Hd0; done.
      * intros d Hd. simpl. by rewrite Hd.
    + eexists; split; [done|]. done.
Qed.

(** ** NEW_CONNECTION_ID *)

Definition ncid_wf (f : quic_ncid_frame) : Prop :=
  is_varint (nc_seq f) /\ 0 <= nc_retire_prior_to f <= nc_seq f /\ 0 <= nc_cid_len f <= QUIC_NCID_MAX_LEN /\
  zlen (nc_cid f) = QUIC_NCID_MAX_LEN /\ zlen (nc_token f) = QUIC_NCID_TOKEN.

Definition ncid_cid (f : quic_ncid_frame) : list Z := take (Z.to_nat (nc_cid_len f)) (nc_cid f).

Definition ncid_body (f : quic_ncid_frame) : list Z :=
  (varint_bytes (nc_seq f) ++ varint_bytes (nc_retire_prior_to f)) ++
  [nc_cid_len f] ++ ncid_cid f ++ nc_token f.

Lemma writes_ncid f : ncid_wf f -> Writes (put_ncid f) (QUIC_FRAME_NEW_CID :: ncid_body f).
Proof.
  intros (H1 & H2 & H3 & H4 & H5). assert (is_varint (nc_retire_prior_to f)) by (unfold is_varint in *; lia).
  unfold QUIC_NCID_MAX_LEN, QUIC_NCID_TOKEN in *.
  apply (writes_eq _ (([QUIC_FRAME_NEW_CID] ++ varint_bytes (nc_seq f) ++ varint_bytes (nc_retire_prior_to f)) ++
    [nc_cid_len f] ++ ncid_cid f ++ nc_token f)); [|unfold ncid_body; simpl; by rewrite <- !app_assoc].
  unfold put_ncid, put_ncid_head, put_ncid_body. apply writes_seq; [derive_writes|].
  apply writes_seq; [apply writes_put_byte|]. apply writes_seq.
  - apply writes_put_bytes; unfold max_object; lia.
  - unfold QUIC_NCID_TOKEN. rewrite <- H5. apply writes_put_bytes_all. rewrite H5. done.
Qed.

Lemma reads_cid_len l : 0 <= l <= QUIC_NCID_MAX_LEN -> Reads take_cid_len [l] l.
Proof.
  intros Hl pre post n H1 H2 H3. unfold take_cid_len. pose proof (zlen_nonneg pre).
  change (zlen [l]) with 1. destruct (Z.leb_spec (zlen pre + 1) n); zdecide; [|by exists (zlen pre)].
  simpl app. rewrite load_head by done. zdecide. unwrap. done.
Qed.

Lemma saferd_cid_len : SafeRd take_cid_len (fun l => 0 <= l <= QUIC_NCID_MAX_LEN).
Proof.
  intros buf n off Hb Hoff Hn Hobj. unfold take_cid_len.
  destruct (Z.ltb_spec off n); [|exists None, off; split_and!; done || lia].
  destruct (load_is_Some buf off) as [b Hl]; [lia|]. rewrite Hl.
  pose proof (load_u8 _ _ _ Hb Hl) as Hb8.
  destruct (Z.leb_spec b QUIC_NCID_MAX_LEN); [|exists None, off; split_and!; done || lia].
  unwrap. eexists _, _. split; [done|]. split; [lia|]. intros ? [= <-]. unfold is_u8 in Hb8. lia.
Qed.

(** The array [a] with its first bytes replaced: what a bounded copy leaves. *)
Lemma reads_ncid (f f0 : quic_ncid_frame) :
  ncid_wf f -> zlen (nc_cid f0) = QUIC_NCID_MAX_LEN -> zlen (nc_token f0) = QUIC_NCID_TOKEN ->
  Reads (h <- take_ncid_head ;; b <- take_ncid_body f0 ;;
         rd_ret (mk_ncid (fst h) (snd h) (fst (fst b)) (snd (fst b)) (snd b)))
    (ncid_body f)
    (mk_ncid (nc_seq f) (nc_retire_prior_to f) (nc_cid_len f)
       (splice (nc_cid f0) 0 (ncid_cid f)) (nc_token f)).
Proof.
  intros (H1 & H2 & H3 & H4 & H5) H6 H7.
  assert (is_varint (nc_retire_prior_to f)) by (unfold is_varint in *; lia).
  unfold QUIC_NCID_MAX_LEN, QUIC_NCID_TOKEN in *.
  assert (Hl : zlen (ncid_cid f) = nc_cid_len f) by (unfold ncid_cid, zlen in *; rewrite length_take; lia).
  assert (Ht : splice (nc_token f0) 0 (nc_token f) = nc_token f).
  { unfold splice, zlen in *. simpl. rewrite drop_ge by lia. by rewrite app_nil_r. }
  unfold ncid_body. eapply reads_bind; [unfold take_ncid_head; derive_reads|].
  eapply reads_bind_last; [|cbn [fst snd]; apply (reads_ret (mk_ncid _ _ (fst (fst (nc_cid_len f,
     splice (nc_cid f0) 0 (ncid_cid f), nc_token f))) (snd (fst (nc_cid_len f,
     splice (nc_cid f0) 0 (ncid_cid f), nc_token f))) (snd (nc_cid_len f,
     splice (nc_cid f0) 0 (ncid_cid f), nc_token f))))].
  unfold take_ncid_body. eapply reads_bind; [by apply reads_cid_len|].
  eapply reads_bind; [rewrite <- Hl; apply reads_take_bytes; rewrite ?Hl; unfold max_object; lia|].
  eapply reads_bind_last.
  - unfold QUIC_NCID_TOKEN. rewrite <- H5. apply reads_take_bytes; unfold max_object; lia.
  - rewrite Ht. apply reads_ret.
Qed.

(** A NEW_CONNECTION_ID frame whose retire_prior_to does not exceed its
    sequence number survives the wire: the decoder returns the same numbers, the
    same connection ID and the same reset token, whatever the caller's frame
    held before, and refuses every truncation. *)
Theorem ncid_roundtrip (f f0 : quic_ncid_frame) (buf : list Z) (cap n : Z)
  (Hf : ncid_wf f) (H0 : zlen (nc_cid f0) = QUIC_NCID_MAX_LEN /\ zlen (nc_token f0) = QUIC_NCID_TOKEN)
  (Hfit : 1 + zlen (ncid_body f) <= cap) (Hcap : cap <= zlen buf) (Hobj : zlen buf < max_object)
  (Hn : 1 <= n <= zlen buf) :
  exists buf', quic_ncid_encode f buf cap = Some (1 + zlen (ncid_body f), buf') /\
    (n < 1 + zlen (ncid_body f) -> quic_ncid_decode f0 buf' n = Some None) /\
    (1 + zlen (ncid_body f) <= n ->
     exists g, quic_ncid_decode f0 buf' n = Some (Some (g, 1 + zlen (ncid_body f))) /\
       nc_seq g = nc_seq f /\ nc_retire_prior_to g = nc_retire_prior_to f /\
       nc_cid_len g = nc_cid_len f /\ ncid_cid g = ncid_cid f /\ nc_token g = nc_token f).
Proof.
  destruct H0 as [H01 H02]. pose proof (zlen_nonneg (ncid_body f)).
  assert (Hv : ncid_valid f = true).
  { destruct Hf as (? & ? & ? & ?). unfold ncid_valid. zdecide. done. }
  pose proof (encode_to_spec _ _ buf cap (writes_ncid f Hf) ltac:(lia) ltac:(lia)) as He.
  rewrite zlen_cons in He. revert He. zdecide. intros He.
  exists (splice buf 0 (QUIC_FRAME_NEW_CID :: ncid_body f)). unfold quic_ncid_encode. rewrite Hv.
  split; [done|].
  destruct (splice_at buf (QUIC_FRAME_NEW_CID :: ncid_body f) 0) as (pre & old & post & Hb & Hp & Ho & ->);
    [lia|rewrite zlen_cons; lia|].
  destruct pre as [|? ?]; [|unfold zlen in Hp; simpl in Hp; lia]. rewrite !app_nil_l in *.
  assert (Hlen : zlen buf = zlen ((QUIC_FRAME_NEW_CID :: ncid_body f) ++ post))
    by (subst buf; rewrite !zlen_app; lia).
  pose proof (decode1_spec _ QUIC_FRAME_NEW_CID _ _ post n (reads_ncid f f0 Hf H01 H02)
    ltac:(lia) ltac:(lia)) as Hd.
  rewrite zlen_cons in Hd. split; intros Hc; revert Hd; zdecide; intros Hd; [done|].
  eexists. split; [exact Hd|]. split_and!; try done. unfold ncid_cid at 1; simpl.
  destruct Hf as (_ & _ & ? & Hcl & _). unfold QUIC_NCID_MAX_LEN in *.
  replace (Z.to_nat (nc_cid_len f)) with (length (ncid_cid f))
    by (unfold ncid_cid, zlen in *; rewrite length_take; lia).
  apply take_splice_0.
Qed.

Definition ncid_example : quic_ncid_frame :=
  mk_ncid 300 2 8 (map Z.of_nat (seq 1 20)) (map Z.of_nat (seq 100 16)).
Definition ncid_blank : quic_ncid_frame := mk_ncid 0 0 0 (repeat 7 20) (repeat 0 16).

Lemma ncid_example_wf : ncid_wf ncid_example.
Proof. unfold ncid_wf, is_varint. split_and!; closed_arith. Qed.

(** Witness: an eight-byte connection ID in a 64-byte buffer. *)
Lemma ncid_roundtrip_witness :
  exists buf', quic_ncid_encode ncid_example (repeat 0 64) 64 = Some (29, buf') /\
    exists g, quic_ncid_decode ncid_blank buf' 64 = Some (Some (g, 29)) /\
      ncid_cid g = [1; 2; 3; 4; 5; 6; 7; 8].
Proof.
  destruct (ncid_roundtrip ncid_example ncid_blank (repeat 0 64) 64 64) as (buf' & H1 & _ & H2);
    [exact ncid_example_wf|closed_arith..|].
  exists buf'. split; [exact H1|].
  destruct H2 as (g & H3 & _ & _ & _ & H4 & _); [closed_arith|]. exists g. split; [exact H3|exact H4].
Defined.

(** The frames' range checks are exact on 64-bit inputs: [quic_stream_bounds_ok]
    holds exactly when offset + length stays at or below 2^62-1 even where the
    64-bit sum would wrap, and [quic_crypto_offset_ok] exactly when the end of the
    data stays within the receive limit, wrap included. *)
Theorem range_checks_exact (a b m : Z) (Ha : is_u64 a) (Hb : is_u64 b) (Hm : is_u64 m) :
  quic_stream_bounds_ok a b = (a + b <=? 2 ^ 62 - 1) /\
  quic_crypto_offset_ok a b m = (a + b <=? m) /\
  (a < 2 ^ 63 -> b < 2 ^ 62 -> m < 2 ^ 62 -> quic_ack_gap_ok a b m = (b + m + 2 <=? a)).
Proof.
  unfold is_u64 in *. unfold quic_stream_bounds_ok, quic_crypto_offset_ok, quic_ack_gap_ok, QUIC_MAX_OFFSET.
  change (2 ^ 62) with 4611686018427387904 in *. change (2 ^ 63) with 9223372036854775808.
  split_and!.
  - unwrap. destruct (Z.ltb_spec (4611686018427387904 - 1) a); [by zdecide|].
    unwrap. repeat zcase; done || lia.
  - destruct (Z.lt_ge_cases (a + b) 18446744073709551616).
    + unwrap. zdecide. done.
    + rewrite u64_add_overflow by (unfold is_u64; lia). zdecide. done.
  - intros. unwrap. destruct (Z.ltb_spec a (b + 2)); [by zdecide|].
    unwrap. repeat zcase; done || lia.
Qed.

(** Witness: offsets at the edge of the 62-bit and 64-bit ranges. *)
Lemma range_checks_exact_witness :
  quic_stream_bounds_ok (2 ^ 64 - 1) 2 = false /\ quic_crypto_offset_ok (2 ^ 64 - 1) 2 5 = false /\
  quic_ack_gap_ok 10 3 5 = true.
Proof.
  destruct (range_checks_exact (2 ^ 64 - 1) 2 5) as (H1 & H2 & _); [closed_arith..|].
  destruct (range_checks_exact 10 3 5) as (_ & _ & H3); [closed_arith..|].
  rewrite H1, H2, H3; [|closed_arith..]. repeat split; reflexivity.
Defined.
