(* ===== verification/AckFrame.v ===== *)
(** The ACK frame codec ([src/transport/packet/frame/frame/ack.c]).

    The set of acknowledged packet numbers is a descending list of inclusive
    ranges; on the wire it is a walk down from the largest number.  The decoder's
    loop over the (Gap, Range Length) pairs goes on after a failed pair, so the
    range array it leaves behind is part of the model. *)
From S2P Require Import Prelude.
From S2P Require Import Buffers.
From S2P Require Import Varint.
From S2P Require Import Codec.
From S2P Require Import Frames.

Definition QUIC_FRAME_ACK : Z := 0x02.
Definition QUIC_FRAME_ACK_ECN : Z := 0x03.
Definition QUIC_ACK_MAX_RANGES : Z := 32.

Record quic_ack_range := mk_range { ar_hi : Z; ar_lo : Z }.

(** [af_ranges] is the whole 32-entry array. *)
Record quic_ack_frame := mk_ack {
  af_ack_delay : Z; af_n_ranges : Z; af_ranges : list quic_ack_range;
  af_has_ecn : Z; af_ect0 : Z; af_ect1 : Z; af_ce : Z }.

(** * Encoder *)

Definition put_pair (prev cur : quic_ack_range) : wr :=
  quic_varint_put (ar_lo prev -w ar_hi cur -w 2) ;;;
  quic_varint_put (ar_hi cur -w ar_lo cur).

Definition ack_type (f : quic_ack_frame) : Z :=
  if af_has_ecn f =? 0 then QUIC_FRAME_ACK else QUIC_FRAME_ACK_ECN.

(** [f->ranges[0]]. *)
Definition first_range (f : quic_ack_frame) : option quic_ack_range := load (af_ranges f) 0.

Definition put_ack_meta (f : quic_ack_frame) (r0 : quic_ack_range) : wr :=
  quic_varint_put (ack_type f) ;;;
  quic_varint_put (ar_hi r0) ;;;
  quic_varint_put (af_ack_delay f).

Definition put_three (a b c : Z) : wr :=
  quic_varint_put a ;;; quic_varint_put b ;;; quic_varint_put c.

Definition put_ack_ecn (f : quic_ack_frame) : wr :=
  if af_has_ecn f =? 0 then wr_ok else put_three (af_ect0 f) (af_ect1 f) (af_ce f).

Definition put_ack_head (f : quic_ack_frame) (r0 : quic_ack_range) : wr :=
  put_ack_meta f r0 ;;;
  quic_varint_put (af_n_ranges f -w 1) ;;;
  quic_varint_put (ar_hi r0 -w ar_lo r0).

(** [for (i = 1; i < n_ranges; i++) if (!put_pair(..)) ok = 0;]: [k] iterations
    are left, the next one at index [i]. *)
Fixpoint put_ack_pairs_loop (k : nat) (i : Z) (ok : bool) (rs : list quic_ack_range) : wr :=
  fun cap st =>
  match k with
  | O => Some (ok, st)
  | S k' =>
      match load rs (i - 1), load rs i with
      | Some prev, Some cur =>
          match put_pair prev cur cap st with
          | None => None
          | Some (b, st') => put_ack_pairs_loop k' (i + 1) (ok && b) rs cap st'
          end
      | _, _ => None
      end
  end.

Definition put_ack_pairs (f : quic_ack_frame) : wr :=
  put_ack_pairs_loop (Z.to_nat (af_n_ranges f - 1)) 1 true (af_ranges f).

Definition ranges_ok (n : Z) : bool := negb (n =? 0) && (n <=? QUIC_ACK_MAX_RANGES).

Definition put_ack_pairs_ecn (f : quic_ack_frame) : wr := put_ack_pairs f ;;; put_ack_ecn f.

Definition put_ack_body (f : quic_ack_frame) (r0 : quic_ack_range) : wr :=
  put_ack_head f r0 ;;; put_ack_pairs_ecn f.

Definition quic_ack_encode (f : quic_ack_frame) (buf : list Z) (cap : Z) : option (Z * list Z) :=
  if ranges_ok (af_n_ranges f) then
    match first_range f with
    | None => None
    | Some r0 => encode_to (put_ack_body f r0) buf cap
    end
  else Some (0, buf).

(** * Decoder *)

(** largest, ack delay, range count *)
Definition take_ack_meta : rd (Z * Z * Z) :=
  largest <- quic_varint_take ;;
  delay <- quic_varint_take ;;
  count <- quic_varint_take ;;
  rd_ret (largest, delay, count).

Definition take_first (largest : Z) : rd Z :=
  first <- quic_varint_take ;;
  _ <- rd_guard (first <=? largest) ;;
  rd_ret first.

(** delay, count and [ranges[0]] *)
Definition take_ack_head : rd (Z * Z * quic_ack_range) :=
  m <- take_ack_meta ;;
  first <- take_first (fst (fst m)) ;;
  rd_ret (snd (fst m), snd m, mk_range (fst (fst m)) (fst (fst m) -w first)).

Definition pair_fits (prev_lo gap len : Z) : bool :=
  (gap +w 2 <=? prev_lo) && (len <=? prev_lo -w gap -w 2).

Definition take_two : rd (Z * Z) :=
  a <- quic_varint_take ;; b <- quic_varint_take ;; rd_ret (a, b).

(** Reads one pair into [ranges[i]]: the C return value, the array and the
    cursor afterwards. *)
Definition take_pair (rs : list quic_ack_range) (i : Z) (buf : list Z) (n off : Z)
  : option (bool * list quic_ack_range * Z) :=
  match load rs (i - 1) with
  | None => None
  | Some prev =>
      match take_two buf n off with
      | None => None
      | Some (None, off') => Some (false, rs, off')
      | Some (Some (gap, len), off') =>
          if pair_fits (ar_lo prev) gap len then
            let hi := ar_lo prev -w gap -w 2 in
            match store rs i (mk_range hi (hi -w len)) with
            | None => None
            | Some rs' => Some (true, rs', off')
            end
          else Some (false, rs, off')
      end
  end.

(** [for (i = 1; i <= count; i++) if (!take_pair(..)) ok = 0;]. *)
Fixpoint take_ack_pairs_loop (k : nat) (i : Z) (ok : bool) (rs : list quic_ack_range)
    (buf : list Z) (n off : Z) : option (bool * list quic_ack_range * Z) :=
  match k with
  | O => Some (ok, rs, off)
  | S k' =>
      match take_pair rs i buf n off with
      | None => None
      | Some (b, rs', off') => take_ack_pairs_loop k' (i + 1) (ok && b) rs' buf n off'
      end
  end.

Definition take_ack_pairs (rs : list quic_ack_range) (count : Z) : rd (list quic_ack_range) :=
  fun buf n off =>
  match take_ack_pairs_loop (Z.to_nat count) 1 true rs buf n off with
  | None => None
  | Some (true, rs', off') => Some (Some rs', off')
  | Some (false, _, off') => Some (None, off')
  end.

Definition count_fits (count : Z) : bool := count +w 1 <=? QUIC_ACK_MAX_RANGES.

Definition take_ack_prologue : rd (Z * Z * quic_ack_range) :=
  h <- take_ack_head ;;
  _ <- rd_guard (count_fits (snd (fst h))) ;;
  rd_ret h.

Definition take_ack_ecn (has_ecn : Z) : rd (Z * Z * Z) :=
  if has_ecn =? 0 then rd_ret (0, 0, 0)
  else e <- take_two ;; ce <- quic_varint_take ;; rd_ret (fst e, snd e, ce).

Definition take_ack_rest (rs : list quic_ack_range) (count has_ecn : Z)
  : rd (list quic_ack_range * (Z * Z * Z)) :=
  rs' <- take_ack_pairs rs count ;;
  e <- take_ack_ecn has_ecn ;;
  rd_ret (rs', e).

(** The body of [quic_ack_decode] after the type byte; [rs0] is the caller's
    range array before the call. *)
Definition take_ack (rs0 : list quic_ack_range) (has_ecn : Z) : rd quic_ack_frame :=
  h <- take_ack_prologue ;;
  r <- take_ack_rest (<[0%nat := snd h]> rs0) (snd (fst h)) has_ecn ;;
  rd_ret (mk_ack (fst (fst h)) (snd (fst h) +w 1) (fst r) has_ecn
            (fst (fst (snd r))) (snd (fst (snd r))) (snd (snd r))).

Definition quic_ack_decode (f0 : quic_ack_frame) (buf : list Z) (n : Z)
  : option (option (quic_ack_frame * Z)) :=
  match load buf 0 with
  | None => None
  | Some b0 =>
      let has_ecn := if b0 =? QUIC_FRAME_ACK_ECN then 1 else 0 in
      decode_from 1 (take_ack (af_ranges f0) has_ecn) buf n
  end.

(** * Well-formed range lists *)

Definition range_wf (r : quic_ack_range) : Prop := 0 <= ar_lo r <= ar_hi r /\ ar_hi r <= QUIC_VARINT_MAX.

(** Below the range [prev], the ranges [rs] descend and leave a gap of at least
    one unacknowledged packet between any two. *)
Fixpoint descends (prev : quic_ack_range) (rs : list quic_ack_range) : Prop :=
  match rs with
  | [] => True
  | r :: rs' => range_wf r /\ ar_hi r + 2 <= ar_lo prev /\ descends r rs'
  end.

(** The ranges a frame carries. *)
Definition ack_ranges (f : quic_ack_frame) : list quic_ack_range :=
  take (Z.to_nat (af_n_ranges f)) (af_ranges f).

(** A packet number acknowledged by the frame. *)
Definition acks (f : quic_ack_frame) (pn : Z) : Prop :=
  Exists (fun r => ar_lo r <= pn <= ar_hi r) (ack_ranges f).

Definition ack_wf (f : quic_ack_frame) : Prop :=
  1 <= af_n_ranges f <= QUIC_ACK_MAX_RANGES /\ zlen (af_ranges f) = QUIC_ACK_MAX_RANGES /\
  is_varint (af_ack_delay f) /\ is_varint (af_ect0 f) /\ is_varint (af_ect1 f) /\ is_varint (af_ce f) /\
  (af_has_ecn f = 1 \/ af_has_ecn f = 0 /\ af_ect0 f = 0 /\ af_ect1 f = 0 /\ af_ce f = 0) /\
  exists r0 rs, ack_ranges f = r0 :: rs /\ range_wf r0 /\ descends r0 rs.

(** The wire image. *)
Fixpoint pairs_bytes (prev : quic_ack_range) (rs : list quic_ack_range) : list Z :=
  match rs with
  | [] => []
  | r :: rs' => (varint_bytes (ar_lo prev - ar_hi r - 2) ++ varint_bytes (ar_hi r - ar_lo r)) ++
                pairs_bytes r rs'
  end.

Definition ecn_bytes (has_ecn a b c : Z) : list Z :=
  if has_ecn =? 0 then [] else (varint_bytes a ++ varint_bytes b) ++ varint_bytes c.

Definition ack_body (delay has_ecn e0 e1 ce : Z) (r0 : quic_ack_range) (rs : list quic_ack_range) : list Z :=
  ((varint_bytes (ar_hi r0) ++ varint_bytes delay ++ varint_bytes (zlen rs)) ++
   varint_bytes (ar_hi r0 - ar_lo r0)) ++
  pairs_bytes r0 rs ++ ecn_bytes has_ecn e0 e1 ce.

Lemma descends_varint prev r rs :
  range_wf prev -> descends prev (r :: rs) ->
  is_varint (ar_lo prev - ar_hi r - 2) /\ is_varint (ar_hi r - ar_lo r).
Proof. unfold range_wf, is_varint; simpl. unfold range_wf. lia. Qed.

(** ** The encoder writes it *)

Lemma put_pair_writes prev r rs :
  range_wf prev -> descends prev (r :: rs) ->
  Writes (put_pair prev r) (varint_bytes (ar_lo prev - ar_hi r - 2) ++ varint_bytes (ar_hi r - ar_lo r)).
Proof.
  intros Hp Hd. destruct (descends_varint prev r rs Hp Hd) as [H1 H2]. unfold put_pair.
  destruct Hd as (Hr & Hg & _). unfold range_wf, QUIC_VARINT_MAX in *.
  unwrap. apply writes_seq; by apply writes_varint.
Qed.

Lemma put_pair_bounded prev r : BoundedWr (put_pair prev r).
Proof. unfold put_pair. apply bounded_seq; apply bounded_varint, u64_range. Qed.

(** Once a pair has failed the loop goes on but returns 0. *)
Lemma put_pairs_loop_false k : forall i rs cap buf off,
  1 <= i -> i + Z.of_nat k <= zlen rs -> 0 <= off <= cap -> cap <= zlen buf -> cap < max_object ->
  exists buf' off', put_ack_pairs_loop k i false rs cap (buf, off) = Some (false, (buf', off')) /\
    zlen buf' = zlen buf /\ off <= off' <= cap /\ drop (Z.to_nat cap) buf' = drop (Z.to_nat cap) buf.
Proof.
  induction k as [|k IH]; intros i rs cap buf off Hi Hk Hoff Hcap Hobj; simpl.
  - exists buf, off. split_and!; done || lia.
  - destruct (load_is_Some rs (i - 1)) as [p ->]; [lia|].
    destruct (load_is_Some rs i) as [c ->]; [lia|].
    destruct (put_pair_bounded p c cap buf off) as (b & buf1 & off1 & -> & Hl & Hr & Hd); try done.
    destruct (IH (i + 1) rs cap buf1 off1) as (buf2 & off2 & -> & ? & ? & ?); try lia.
    exists buf2, off2. split_and!; try done; try lia; congruence.
Qed.

Lemma put_pairs_loop_writes rs : forall pre prev tail,
  range_wf prev -> descends prev rs ->
  Writes (put_ack_pairs_loop (length rs) (zlen pre + 1) true (pre ++ prev :: rs ++ tail))
    (pairs_bytes prev rs).
Proof.
  induction rs as [|r rs IH]; intros pre prev tail Hp Hd.
  - exact writes_ok_nil.
  - set (arr := pre ++ prev :: (r :: rs) ++ tail).
    assert (Harr : arr = (pre ++ [prev]) ++ r :: rs ++ tail) by (unfold arr; by rewrite <- app_assoc).
    pose proof (put_pair_writes prev r rs Hp Hd) as Hw.
    destruct Hd as (Hr & Hg & Hd').
    specialize (IH (pre ++ [prev]) r tail Hr Hd'). rewrite <- Harr in IH.
    pose proof (zlen_nonneg pre) as Hpre.
    assert (Hz : zlen (pre ++ [prev]) = zlen pre + 1) by (rewrite zlen_app; done).
    rewrite Hz in IH.
    intros cap buf off Hoff Hcap Hobj. cbn [length put_ack_pairs_loop pairs_bytes].
    replace (load arr (zlen pre + 1 - 1)) with (Some prev).
    2: { symmetry. replace (zlen pre + 1 - 1) with (zlen pre) by lia. by apply load_head. }
    replace (load arr (zlen pre + 1)) with (Some r)
      by (symmetry; rewrite Harr; by apply load_head).
    set (b1 := varint_bytes (ar_lo prev - ar_hi r - 2) ++ varint_bytes (ar_hi r - ar_lo r)) in *.
    specialize (Hw cap buf off Hoff Hcap Hobj). pose proof (zlen_nonneg b1).
    pose proof (zlen_nonneg (pairs_bytes r rs)). rewrite zlen_app.
    destruct (Z.leb_spec (off + zlen b1) cap).
    + rewrite Hw. simpl andb. specialize (IH cap (splice buf off b1) (off + zlen b1)).
      rewrite zlen_splice in IH by lia. specialize (IH ltac:(lia) Hcap Hobj).
      destruct (Z.leb_spec (off + zlen b1 + zlen (pairs_bytes r rs)) cap).
      * zdecide. rewrite IH, splice_splice by lia. by rewrite Z.add_assoc.
      * zdecide. destruct IH as (buf2 & off2 & -> & Hl & Hr2 & Hd2).
        exists buf2, off2. split_and!; try done; try lia. rewrite Hd2. apply drop_splice; lia.
    + destruct Hw as (buf1 & off1 & -> & Hl & Hr1 & Hd1). simpl andb. zdecide.
      destruct (put_pairs_loop_false (length rs) (zlen pre + 1 + 1) arr cap buf1 off1)
        as (buf2 & off2 & -> & ? & ? & ?); try lia.
      { unfold arr, zlen. rewrite !length_app. cbn [length]. rewrite length_app. cbn [length]. lia. }
      exists buf2, off2. split_and!; try done; try lia; congruence.
Qed.

Lemma ack_encode_writes f r0 rs :
  ack_wf f -> ack_ranges f = r0 :: rs ->
  Writes (put_ack_body f r0)
    (ack_type f :: ack_body (af_ack_delay f) (af_has_ecn f) (af_ect0 f) (af_ect1 f) (af_ce f) r0 rs).
Proof.
  intros (Hn & Harr & H1 & H2 & H3 & H4 & He & r0' & rs' & E & Hr & Hd) E'. rewrite E in E'. simplify_eq.
  unfold ack_ranges, QUIC_ACK_MAX_RANGES in *.
  assert (Hlen : zlen rs = af_n_ranges f - 1).
  { apply (f_equal length) in E. rewrite length_take in E. unfold zlen in *. simpl in E. lia. }
  assert (Hsplit : af_ranges f = [] ++ r0 :: rs ++ drop (Z.to_nat (af_n_ranges f)) (af_ranges f)).
  { rewrite <- (take_drop (Z.to_nat (af_n_ranges f)) (af_ranges f)) at 1. by rewrite E. }
  pose proof (put_pairs_loop_writes rs [] r0 (drop (Z.to_nat (af_n_ranges f)) (af_ranges f)) Hr Hd) as Hw.
  rewrite <- Hsplit in Hw. change (zlen [] + 1) with 1 in Hw.
  replace (length rs) with (Z.to_nat (af_n_ranges f - 1)) in Hw by (unfold zlen in *; lia).
  unfold range_wf, QUIC_VARINT_MAX in Hr.
  assert (is_varint (zlen rs)) by (unfold is_varint, QUIC_VARINT_MAX; lia).
  assert (is_varint (ar_hi r0) /\ is_varint (ar_hi r0 - ar_lo r0)) as [? ?] by (unfold is_varint, QUIC_VARINT_MAX; lia).
  apply (writes_eq _ ((([ack_type f] ++ varint_bytes (ar_hi r0) ++ varint_bytes (af_ack_delay f)) ++
    varint_bytes (zlen rs) ++ varint_bytes (ar_hi r0 - ar_lo r0)) ++
    pairs_bytes r0 rs ++ ecn_bytes (af_has_ecn f) (af_ect0 f) (af_ect1 f) (af_ce f)));
    [|unfold ack_body; simpl; by rewrite <- !app_assoc].
  unfold put_ack_body, put_ack_head, put_ack_meta. unwrap. rewrite <- Hlen.
  apply writes_seq; [apply writes_seq|].
  - apply writes_seq; [|derive_writes]. apply writes_type. unfold ack_type, QUIC_FRAME_ACK, QUIC_FRAME_ACK_ECN.
    destruct (_ =? 0); lia.
  - derive_writes.
  - apply writes_seq; [exact Hw|]. unfold put_ack_ecn, ecn_bytes.
    destruct (_ =? 0); [apply writes_ok_nil|]. rewrite <- app_assoc. unfold put_three. derive_writes.
Qed.

(** ** The decoder reads it *)

Lemma take_two_spec a b : is_varint a -> is_varint b -> Reads take_two (varint_bytes a ++ varint_bytes b) (a, b).
Proof. intros. unfold take_two. derive_reads. Qed.

(** A failed [take_two] leaves the cursor where a further read fails too. *)
Lemma take_two_stuck buf n off off' :
  take_two buf n off = Some (None, off') -> quic_varint_take buf n off' = Some (None, off').
Proof.
  unfold take_two, rd_bind, rd_ret.
  destruct (quic_varint_take buf n off) as [[[a|] o1]|] eqn:E1; [|intros [= <-]|done].
  - destruct (quic_varint_take buf n o1) as [[[b|] o2]|] eqn:E2; [done| |done].
    intros [= <-]. pose proof (varint_take_stuck _ _ _ _ E2). by subst.
  - pose proof (varint_take_stuck _ _ _ _ E1). by subst.
Qed.

Lemma take_pairs_stuck k : forall i ok rs buf n off,
  1 <= i -> i + Z.of_nat k <= zlen rs -> quic_varint_take buf n off = Some (None, off) ->
  take_ack_pairs_loop k i ok rs buf n off = Some (match k with O => ok | _ => false end, rs, off).
Proof.
  induction k as [|k IH]; intros i ok rs buf n off Hi Hk Hs; [done|]. simpl. unfold take_pair.
  destruct (load_is_Some rs (i - 1)) as [p ->]; [lia|]. unfold take_two at 1, rd_bind at 1. rewrite Hs.
  rewrite IH by (done || lia). rewrite andb_false_r. by destruct k.
Qed.

Lemma take_pairs_loop_reads rs : forall pre prev tail bpre bpost n,
  range_wf prev -> descends prev rs -> (length rs <= length tail)%nat ->
  zlen bpre <= n -> n <= zlen (bpre ++ pairs_bytes prev rs ++ bpost) -> n < max_object ->
  let buf := bpre ++ pairs_bytes prev rs ++ bpost in
  if zlen bpre + zlen (pairs_bytes prev rs) <=? n
  then take_ack_pairs_loop (length rs) (zlen pre + 1) true (pre ++ prev :: tail) buf n (zlen bpre) =
       Some (true, pre ++ prev :: rs ++ drop (length rs) tail, zlen bpre + zlen (pairs_bytes prev rs))
  else exists arr' off',
       take_ack_pairs_loop (length rs) (zlen pre + 1) true (pre ++ prev :: tail) buf n (zlen bpre) =
       Some (false, arr', off').
Proof.
  induction rs as [|r rs IH]; intros pre prev tail bpre bpost n Hp Hd Hlen H1 H2 H3 buf.
  { simpl. rewrite zlen_nil, Z.add_0_r. zdecide. done. }
  destruct (descends_varint prev r rs Hp Hd) as [Hv1 Hv2].
  destruct Hd as (Hr & Hg & Hd'). destruct tail as [|t0 tail]; [simpl in Hlen; lia|].
  set (b1 := varint_bytes (ar_lo prev - ar_hi r - 2) ++ varint_bytes (ar_hi r - ar_lo r)) in *.
  assert (Hbuf : buf = bpre ++ b1 ++ (pairs_bytes r rs ++ bpost))
    by (unfold buf; cbn [pairs_bytes]; fold b1; by rewrite <- app_assoc).
  pose proof (zlen_nonneg b1); pose proof (zlen_nonneg (pairs_bytes r rs)); pose proof (zlen_nonneg pre).
  pose proof (take_two_spec _ _ Hv1 Hv2 bpre (pairs_bytes r rs ++ bpost) n H1) as Ht.
  change (bpre ++ pairs_bytes prev (r :: rs) ++ bpost) with buf in H2.
  fold b1 in Ht. rewrite <- Hbuf in Ht. specialize (Ht H2 H3).
  assert (Hz : zlen (pairs_bytes prev (r :: rs)) = zlen b1 + zlen (pairs_bytes r rs))
    by (cbn [pairs_bytes]; fold b1; apply zlen_app).
  rewrite Hz. cbn [length take_ack_pairs_loop]. unfold take_pair.
  replace (zlen pre + 1 - 1) with (zlen pre) by lia. rewrite load_head by done.
  destruct (Z.leb_spec (zlen bpre + zlen b1) n) as [Hfit|Hfit].
  - rewrite Ht. unfold pair_fits, range_wf, QUIC_VARINT_MAX, is_varint in *. unwrap.
    replace (ar_lo prev - (ar_lo prev - ar_hi r - 2) - 2) with (ar_hi r) by lia.
    replace (ar_hi r - (ar_hi r - ar_lo r)) with (ar_lo r) by lia. zdecide. simpl andb.
    assert (Hst : store (pre ++ prev :: t0 :: tail) (zlen pre + 1) (mk_range (ar_hi r) (ar_lo r)) =
      Some ((pre ++ [prev]) ++ r :: tail)).
    { rewrite store_ok by (rewrite zlen_app, !zlen_cons; pose proof (zlen_nonneg tail); lia).
      replace (Z.to_nat (zlen pre + 1)) with (length pre + 1)%nat by (unfold zlen; lia).
      rewrite insert_app_r. destruct r. simpl. by rewrite <- app_assoc. }
    cbv iota beta. rewrite Hst. cbv iota beta.
    specialize (IH (pre ++ [prev]) r tail (bpre ++ b1) bpost n).
    rewrite <- !app_assoc in IH. rewrite <- Hbuf in IH.
    rewrite !zlen_app in IH. change (zlen [prev]) with 1 in IH. rewrite <- app_assoc.
    assert (Hlt : (length rs <= length tail)%nat) by (simpl in Hlen; lia).
    specialize (IH ltac:(unfold range_wf, QUIC_VARINT_MAX; lia) Hd' Hlt Hfit H2 H3). cbv zeta in IH.
    rewrite <- Z.add_assoc in IH. simpl app in *.
    destruct (_ <=? n); [|exact IH]. rewrite IH. by rewrite Z.add_assoc.
  - zdecide. destruct Ht as [off' Ht]. rewrite Ht. simpl andb.
    rewrite take_pairs_stuck; [by destruct rs; eexists _, _|lia| |by eapply take_two_stuck].
    unfold zlen in *. rewrite length_app. cbn [length] in *. lia.
Qed.

Lemma take_pairs_reads r0 rs tail :
  range_wf r0 -> descends r0 rs -> (length rs <= length tail)%nat ->
  Reads (take_ack_pairs (r0 :: tail) (zlen rs)) (pairs_bytes r0 rs) (r0 :: rs ++ drop (length rs) tail).
Proof.
  intros Hr Hd Hl pre post n H1 H2 H3. unfold take_ack_pairs.
  pose proof (take_pairs_loop_reads rs [] r0 tail pre post n Hr Hd Hl H1 H2 H3) as Hp.
  change (zlen [] + 1) with 1 in Hp. cbv zeta in Hp. simpl app in Hp.
  replace (Z.to_nat (zlen rs)) with (length rs) by (unfold zlen; lia).
  destruct (_ <=? n); [by rewrite Hp|].
  destruct Hp as (arr & off' & ->). by exists off'.
Qed.

Lemma take_ack_reads rs0 delay has_ecn e0 e1 ce r0 rs :
  zlen rs0 = QUIC_ACK_MAX_RANGES -> (length rs < 32)%nat ->
  is_varint delay -> is_varint e0 -> is_varint e1 -> is_varint ce ->
  has_ecn = 1 \/ has_ecn = 0 /\ e0 = 0 /\ e1 = 0 /\ ce = 0 ->
  range_wf r0 -> descends r0 rs ->
  Reads (take_ack rs0 has_ecn) (ack_body delay has_ecn e0 e1 ce r0 rs)
    (mk_ack delay (zlen rs + 1) (r0 :: rs ++ drop (S (length rs)) rs0) has_ecn e0 e1 ce).
Proof.
  intros H0 Hl Hd H1 H2 H3 He Hr Hds. pose proof Hr as Hr'. unfold range_wf, QUIC_VARINT_MAX in Hr'.
  assert (is_varint (zlen rs) /\ is_varint (ar_hi r0) /\ is_varint (ar_hi r0 - ar_lo r0)) as (?&?&?)
    by (unfold is_varint, QUIC_VARINT_MAX, zlen; lia).
  unfold ack_body, take_ack. eapply reads_bind.
  { unfold take_ack_prologue. eapply reads_bind_last.
    - unfold take_ack_head. eapply reads_bind; [unfold take_ack_meta; derive_reads|]. cbn [fst snd].
      eapply reads_bind_last; [|apply reads_ret].
      unfold take_first. eapply reads_bind_last; [by apply reads_varint|].
      apply reads_guard_then; [apply Z.leb_le; lia|apply reads_ret].
    - apply reads_guard_then; [|apply reads_ret]. cbn [fst snd]. unfold count_fits, QUIC_ACK_MAX_RANGES, zlen.
      unwrap. apply Z.leb_le. lia. }
  cbn [fst snd]. unwrap.
  replace (ar_hi r0 - (ar_hi r0 - ar_lo r0)) with (ar_lo r0) by lia.
  replace (mk_range (ar_hi r0) (ar_lo r0)) with r0 by by destruct r0.
  destruct rs0 as [|x0 rs0]; [done|]. simpl insert. cbn [drop].
  assert (Hl' : (length rs <= length rs0)%nat) by (unfold zlen, QUIC_ACK_MAX_RANGES in H0; simpl in H0; lia).
  eapply reads_bind_last.
  - unfold take_ack_rest. eapply reads_bind; [by apply take_pairs_reads|].
    eapply reads_bind_last; [|apply reads_ret].
    instantiate (1 := (e0, e1, ce)). unfold take_ack_ecn, ecn_bytes.
    destruct (Z.eqb_spec has_ecn 0).
    + destruct He as [?|(_ & -> & -> & ->)]; [lia|apply reads_ret].
    + eapply reads_bind; [by apply take_two_spec|]. derive_reads.
  - cbn [fst snd]. rewrite u64_id by (unfold is_u64, zlen; lia). apply reads_ret.
Qed.

(** The wire image of a whole frame, and what the decoder makes of it at any cut. *)
Definition ack_bytes (f : quic_ack_frame) : list Z :=
  match ack_ranges f with
  | [] => []
  | r0 :: rs => ack_type f :: ack_body (af_ack_delay f) (af_has_ecn f) (af_ect0 f) (af_ect1 f) (af_ce f) r0 rs
  end.

(** The same frame up to the unused part of the range array. *)
Definition ack_same (g f : quic_ack_frame) : Prop :=
  ack_ranges g = ack_ranges f /\ af_n_ranges g = af_n_ranges f /\
  af_ack_delay g = af_ack_delay f /\ af_has_ecn g = af_has_ecn f /\
  af_ect0 g = af_ect0 f /\ af_ect1 g = af_ect1 f /\ af_ce g = af_ce f.

Lemma ack_n_ranges f r0 rs : ack_wf f -> ack_ranges f = r0 :: rs -> zlen rs = af_n_ranges f - 1 /\ zlen rs < 32.
Proof.
  intros (Hnr & Harr & _) E. unfold QUIC_ACK_MAX_RANGES in *.
  apply (f_equal length) in E. unfold ack_ranges in E. rewrite length_take in E.
  unfold zlen in *. simpl in E. lia.
Qed.

Lemma ack_decode_bytes f f0 :
  ack_wf f -> zlen (af_ranges f0) = QUIC_ACK_MAX_RANGES ->
  1 <= zlen (ack_bytes f) /\
  exists g, ack_same g f /\ forall post n, 1 <= n <= zlen (ack_bytes f ++ post) -> n < max_object ->
    quic_ack_decode f0 (ack_bytes f ++ post) n =
    Some (if zlen (ack_bytes f) <=? n then Some (g, zlen (ack_bytes f)) else None).
Proof.
  intros Hf H0. pose proof Hf as (Hnr & Harr & H1 & H2 & H3 & H4 & He & r0 & rs & E & Hr & Hd).
  destruct (ack_n_ranges f r0 rs Hf E) as [Hlen H32]. unfold ack_bytes. rewrite E.
  set (body := ack_body (af_ack_delay f) (af_has_ecn f) (af_ect0 f) (af_ect1 f) (af_ce f) r0 rs).
  pose proof (zlen_nonneg body). split; [rewrite zlen_cons; lia|]. unfold QUIC_ACK_MAX_RANGES in *.
  pose proof (take_ack_reads (af_ranges f0) _ (af_has_ecn f) _ _ _ r0 rs
    H0 ltac:(unfold zlen in *; lia) H1 H2 H3 H4 He Hr Hd) as R. fold body in R.
  eexists. split; [|intros post n Hn Ho; unfold quic_ack_decode;
    change (load ((ack_type f :: body) ++ post) 0) with (Some (ack_type f)); cbv iota beta;
    replace (if ack_type f =? QUIC_FRAME_ACK_ECN then 1 else 0) with (af_has_ecn f)
      by (unfold ack_type; destruct He as [->|(-> & _)]; done);
    exact (decode1_spec _ (ack_type f) _ _ post n R Hn Ho)].
  unfold ack_same. cbn. split_and!; try done; [|lia].
  rewrite E. unfold ack_ranges. cbn [af_n_ranges af_ranges].
  replace (Z.to_nat (zlen rs + 1)) with (length (r0 :: rs)) by (unfold zlen; simpl; lia).
  rewrite app_comm_cons. apply take_app_length.
Qed.

(** An ACK frame over any descending list of at most 32 ranges, with or
    without ECN counts, is read back by the decoder exactly as it was given to
    the encoder (delay, ranges, counts), whatever the receiving structure held
    before, consuming exactly the bytes written; every truncation is refused. *)
Theorem ack_roundtrip (f f0 : quic_ack_frame) (buf : list Z) (cap n : Z)
  (Hf : ack_wf f) (H0 : zlen (af_ranges f0) = QUIC_ACK_MAX_RANGES)
  (Hcap : 0 <= cap <= zlen buf) (Hobj : zlen buf < max_object) (Hn : 1 <= n <= zlen buf) :
  exists len, 1 <= len /\
    (cap < len -> exists buf', quic_ack_encode f buf cap = Some (0, buf')) /\
    (len <= cap -> exists buf', quic_ack_encode f buf cap = Some (len, buf') /\
      (n < len -> quic_ack_decode f0 buf' n = Some None) /\
      (len <= n -> exists g, quic_ack_decode f0 buf' n = Some (Some (g, len)) /\
         ack_ranges g = ack_ranges f /\ af_n_ranges g = af_n_ranges f /\
         af_ack_delay g = af_ack_delay f /\ af_has_ecn g = af_has_ecn f /\
         af_ect0 g = af_ect0 f /\ af_ect1 g = af_ect1 f /\ af_ce g = af_ce f)).
Proof.
  pose proof Hf as (_ & _ & _ & _ & _ & _ & _ & r0 & rs & E & _).
  destruct (ack_decode_bytes f f0 Hf H0) as (Hpos & g & Hg & Hdec).
  exists (zlen (ack_bytes f)). split; [done|].
  assert (Henc : quic_ack_encode f buf cap = encode_to (put_ack_body f r0) buf cap).
  { destruct Hf as (Hnr & _). unfold quic_ack_encode, ranges_ok, first_range, QUIC_ACK_MAX_RANGES in *. zdecide. simpl.
    unfold ack_ranges in E. destruct (af_ranges f); [by rewrite take_nil in E|].
    destruct (Z.to_nat (af_n_ranges f)) eqn:?; [lia|]. by simpl in E; simplify_eq. }
  assert (Hb : ack_bytes f = ack_type f :: ack_body (af_ack_delay f) (af_has_ecn f) (af_ect0 f) (af_ect1 f) (af_ce f) r0 rs)
    by (unfold ack_bytes; by rewrite E).
  pose proof (encode_to_spec _ _ buf cap (ack_encode_writes f r0 rs Hf E) Hcap ltac:(lia)) as Hw.
  rewrite <- Hb in Hw. rewrite Henc. split; intros Hc; revert Hw; zdecide.
  { intros (buf' & -> & _). by exists buf'. }
  intros Hw. exists (splice buf 0 (ack_bytes f)). split; [done|].
  destruct (splice_at buf (ack_bytes f) 0) as (pre & old & post & Hbuf & Hp & Ho & ->); [lia|lia|].
  destruct pre as [|? ?]; [|unfold zlen in Hp; simpl in Hp; lia]. rewrite !app_nil_l in *.
  rewrite Hdec by (subst buf; rewrite !zlen_app in *; lia).
  split; intros Hc2; zdecide; [done|]. by exists g.
Qed.

Definition ack_example : quic_ack_frame :=
  mk_ack 25 3 (mk_range 20 18 :: mk_range 15 15 :: mk_range 9 2 :: repeat (mk_range 0 0) 29) 1 4 0 2.
Definition ack_blank : quic_ack_frame := mk_ack 0 0 (repeat (mk_range 7 7) 32) 0 0 0 0.

Lemma ack_example_wf : ack_wf ack_example.
Proof.
  unfold ack_wf, is_varint. split_and!; [closed_arith..|by left|].
  exists (mk_range 20 18), [mk_range 15 15; mk_range 9 2].
  split; [reflexivity|]. unfold descends, range_wf. cbn. split_and!; (closed_arith || exact I).
Qed.

(** Witness: three ranges with ECN counts. *)
Lemma ack_roundtrip_witness :
  exists len buf' g, quic_ack_encode ack_example (repeat 0 40) 40 = Some (len, buf') /\
    quic_ack_decode ack_blank buf' 40 = Some (Some (g, len)) /\
    ack_ranges g = [mk_range 20 18; mk_range 15 15; mk_range 9 2] /\ af_ce g = 2.
Proof.
  destruct (ack_roundtrip ack_example ack_blank (repeat 0 40) 40 40) as (len & H1 & H2 & H3);
    [exact ack_example_wf|closed_arith..|].
  destruct (Z.lt_ge_cases 40 len) as [Hc|Hc].
  - destruct (H2 Hc) as [buf' Hb]. exfalso. vm_compute in Hb. discriminate Hb.
  - destruct (H3 Hc) as (buf' & Hb & _ & H4). destruct (H4 Hc) as (g & Hg & Hr & _ & _ & _ & _ & _ & Hce).
    exists len, buf', g. repeat split; [exact Hb|exact Hg|exact Hr|exact Hce].
Defined.

(** * Safety on arbitrary input *)

(** The first [i] entries of the array are a well-formed descending list. *)
Definition chain (arr : list quic_ack_range) (i : Z) : Prop :=
  exists r0 rs, take (Z.to_nat i) arr = r0 :: rs /\ range_wf r0 /\ descends r0 rs.

Lemma descends_snoc rs : forall r0 r prev,
  list.last (r0 :: rs) = Some prev -> descends r0 rs -> range_wf r -> ar_hi r + 2 <= ar_lo prev ->
  descends r0 (rs ++ [r]).
Proof.
  induction rs as [|r1 rs IH]; intros r0 r prev Hl Hd Hr Hg; simpl.
  - by simplify_eq/=.
  - destruct Hd as (H1 & H2 & H3). split_and!; try done. by eapply IH.
Qed.

Lemma chain_last_wf rs : forall r0 prev,
  list.last (r0 :: rs) = Some prev -> range_wf r0 -> descends r0 rs -> range_wf prev.
Proof.
  induction rs as [|r1 rs IH]; intros r0 prev Hl Hr Hd; [by simplify_eq/=|].
  destruct Hd as (H1 & H2 & H3). by eapply (IH r1).
Qed.

Lemma chain_prev arr i prev :
  1 <= i <= zlen arr -> chain arr i -> load arr (i - 1) = Some prev ->
  range_wf prev /\ exists r0 rs, take (Z.to_nat i) arr = r0 :: rs /\ list.last (r0 :: rs) = Some prev /\
    range_wf r0 /\ descends r0 rs.
Proof.
  intros Hi (r0 & rs & E & Hr & Hd) Hl. unfold load in Hl. revert Hl. zdecide. intros Hl.
  assert (Hlast : list.last (r0 :: rs) = Some prev).
  { rewrite <- E, last_lookup, length_take_le by (unfold zlen in *; lia).
    rewrite lookup_take_lt by lia. rewrite <- Hl. f_equal. lia. }
  split; [by eapply chain_last_wf|]. eauto 10.
Qed.

Lemma chain_store arr i prev r :
  1 <= i < zlen arr -> chain arr i -> load arr (i - 1) = Some prev ->
  range_wf r -> ar_hi r + 2 <= ar_lo prev -> chain (<[Z.to_nat i := r]> arr) (i + 1).
Proof.
  intros Hi Hc Hl Hr Hg. destruct (chain_prev arr i prev ltac:(lia) Hc Hl) as (_ & r0 & rs & E & Hlast & Hr0 & Hd).
  exists r0, (rs ++ [r]). split_and!; [|done|by eapply descends_snoc].
  replace (Z.to_nat (i + 1)) with (S (Z.to_nat i)) by lia.
  rewrite (take_S_r _ _ r) by (apply list_lookup_insert_eq; unfold zlen in *; lia).
  rewrite take_insert_ge by lia. rewrite E. done.
Qed.

Lemma saferd_take_two : SafeRd take_two (fun p => is_varint (fst p) /\ is_varint (snd p)).
Proof.
  unfold take_two. eapply saferd_bind; [apply saferd_varint|intros a Ha].
  eapply saferd_bind; [apply saferd_varint|intros b Hb]. by apply saferd_ret.
Qed.

Lemma take_pair_safe arr i buf n off :
  Forall is_u8 buf -> 0 <= off <= n -> n <= zlen buf -> n < max_object -> 1 <= i < zlen arr ->
  exists b arr' off', take_pair arr i buf n off = Some (b, arr', off') /\ off <= off' <= n /\
    zlen arr' = zlen arr /\ (chain arr i -> b = true -> chain arr' (i + 1)).
Proof.
  intros Hb Hoff Hn Hobj Hi. unfold take_pair.
  destruct (load_is_Some arr (i - 1)) as [prev Hl]; [lia|]. rewrite Hl.
  destruct (saferd_take_two buf n off Hb Hoff Hn Hobj) as ([[gap len]|] & off' & -> & Hr & HQ);
    [|by exists false, arr, off'].
  destruct (HQ _ eq_refl) as [Hg Hle]; simpl in *.
  destruct (pair_fits (ar_lo prev) gap len) eqn:Hf; [|by exists false, arr, off'].
  rewrite store_ok by lia. eexists _, _, _. split; [done|]. split; [done|].
  split; [unfold zlen; by rewrite length_insert|]. intros Hc _.
  destruct (chain_prev arr i prev ltac:(lia) Hc Hl) as (Hp & _).
  unfold pair_fits in Hf. unfold range_wf, is_varint, QUIC_VARINT_MAX in *.
  rewrite (u64_id (gap + 2)) in Hf by (unfold is_u64; lia). zbool.
  rewrite !u64_id in * by (unfold is_u64; rewrite ?u64_id; unfold is_u64; lia).
  eapply chain_store; [lia|done|done|..]; unfold range_wf, QUIC_VARINT_MAX; cbn [ar_hi ar_lo]; lia.
Qed.

Lemma take_pairs_loop_safe k : forall i ok arr buf n off,
  Forall is_u8 buf -> 0 <= off <= n -> n <= zlen buf -> n < max_object ->
  1 <= i -> i + Z.of_nat k <= zlen arr -> (ok = true -> chain arr i) ->
  exists ok' arr' off', take_ack_pairs_loop k i ok arr buf n off = Some (ok', arr', off') /\
    off <= off' <= n /\ zlen arr' = zlen arr /\ (ok' = true -> chain arr' (i + Z.of_nat k)).
Proof.
  induction k as [|k IH]; intros i ok arr buf n off Hb Hoff Hn Hobj Hi Hk Hc; cbn [take_ack_pairs_loop].
  - exists ok, arr, off. simpl Z.of_nat. rewrite Z.add_0_r. split_and!; done || lia.
  - destruct (take_pair_safe arr i buf n off) as (b & arr1 & off1 & -> & Hr1 & Hl1 & Hc1); try done; [lia|].
    destruct (IH (i + 1) (ok && b) arr1 buf n off1) as (ok' & arr' & off' & -> & Hr & Hl & Hc'); try done; try lia.
    { intros [-> ->]%andb_true_iff. auto. }
    exists ok', arr', off'. split_and!; try done; try lia.
    intros ->. replace (i + Z.of_nat (S k)) with (i + 1 + Z.of_nat k) by lia. auto.
Qed.

Lemma saferd_take_pairs arr count :
  zlen arr = QUIC_ACK_MAX_RANGES -> 0 <= count -> count + 1 <= QUIC_ACK_MAX_RANGES -> chain arr 1 ->
  SafeRd (take_ack_pairs arr count) (fun arr' => zlen arr' = QUIC_ACK_MAX_RANGES /\ chain arr' (count + 1)).
Proof.
  intros Hl Hc0 Hc Hch buf n off Hb Hoff Hn Hobj. unfold take_ack_pairs.
  destruct (take_pairs_loop_safe (Z.to_nat count) 1 true arr buf n off) as (ok & arr' & off' & -> & Hr & Hl' & Hc');
    try done; try lia.
  destruct ok; eexists _, off'; (split; [done|]); (split; [done|]); intros ? [= <-].
  split; [lia|]. replace (count + 1) with (1 + Z.of_nat (Z.to_nat count)) by lia. auto.
Qed.

Lemma saferd_take_ack rs0 has_ecn :
  zlen rs0 = QUIC_ACK_MAX_RANGES -> has_ecn = 0 \/ has_ecn = 1 -> SafeRd (take_ack rs0 has_ecn) ack_wf.
Proof.
  intros H0 He. unfold take_ack.
  apply (saferd_bind _ _ (fun h => is_varint (fst (fst h)) /\ 0 <= snd (fst h) /\
    snd (fst h) + 1 <= QUIC_ACK_MAX_RANGES /\ range_wf (snd h))).
  { unfold take_ack_prologue.
    apply (saferd_bind _ _ (fun h => is_varint (fst (fst h)) /\ is_varint (snd (fst h)) /\ range_wf (snd h))).
    - unfold take_ack_head, take_ack_meta, take_first.
      apply (saferd_bind _ _ (fun m => is_varint (fst (fst m)) /\ is_varint (snd (fst m)) /\ is_varint (snd m))).
      { derive_safe. by apply saferd_ret. }
      intros [[l d] c] (H1 & H2 & H3). cbn [fst snd] in *.
      apply (saferd_bind _ _ (fun first => is_varint first /\ first <= l)).
      { eapply saferd_bind; [apply saferd_varint|intros x Hx].
        eapply (saferd_bind _ _ (fun _ => x <= l)); [apply saferd_guard; intros; by zbool|].
        intros _ Hxl. by apply saferd_ret. }
      intros x [Hx Hxl]. apply saferd_ret. cbn [fst snd].
      split_and!; try done; unfold range_wf, is_varint, QUIC_VARINT_MAX in *; cbn [ar_hi ar_lo]; unwrap; lia.
    - intros [[d c] r0] (H1 & H2 & H3). cbn [fst snd] in *.
      eapply (saferd_bind _ _ (fun _ => c + 1 <= QUIC_ACK_MAX_RANGES)).
      + apply saferd_guard. unfold count_fits. unfold is_varint, QUIC_VARINT_MAX in *. unwrap. intros; by zbool.
      + intros _ Hc. apply saferd_ret. cbn [fst snd]. unfold is_varint in *. split_and!; try done; lia. }
  intros [[d c] r0] (H1 & H2 & H3 & H4). cbn [fst snd] in *.
  eapply (saferd_bind _ _ (fun r => zlen (fst r) = QUIC_ACK_MAX_RANGES /\ chain (fst r) (c + 1) /\
    is_varint (fst (fst (snd r))) /\ is_varint (snd (fst (snd r))) /\ is_varint (snd (snd r)) /\
    (has_ecn = 1 \/ has_ecn = 0 /\ snd r = (0, 0, 0)))).
  - unfold take_ack_rest. eapply saferd_bind; [apply saferd_take_pairs; try done|].
    + unfold zlen in *. by rewrite length_insert.
    + destruct rs0; [done|]. exists r0, []. done.
    + intros arr [Ha1 Ha2].
      apply (saferd_bind _ _ (fun e => is_varint (fst (fst e)) /\ is_varint (snd (fst e)) /\ is_varint (snd e) /\
        (has_ecn = 1 \/ has_ecn = 0 /\ e = (0, 0, 0)))).
      { unfold take_ack_ecn. destruct (Z.eqb_spec has_ecn 0).
        - apply saferd_ret. cbn. unfold is_varint, QUIC_VARINT_MAX. split_and!; try lia. by right.
        - eapply saferd_bind; [apply saferd_take_two|intros [a b] [Ha Hb]].
          eapply saferd_bind; [apply saferd_varint|intros ce Hce]. apply saferd_ret.
          cbn in *. split_and!; try done. left; lia. }
      intros e (He1 & He2 & He3 & He4). by apply saferd_ret.
  - intros [arr [[a b] ce]] (Ha & (r1 & rs & E & Hr & Hd) & Hb1 & Hb2 & Hb3 & Hb4). cbn [fst snd] in *.
    unfold QUIC_ACK_MAX_RANGES in *.
    apply saferd_ret. rewrite u64_id by (unfold is_u64; lia).
    unfold ack_wf, ack_ranges, QUIC_ACK_MAX_RANGES. cbn. split_and!; try done; try lia.
    + destruct Hb4 as [?|[? [= -> -> ->]]]; auto.
    + eauto.
Qed.

Lemma ack_decode_ok (f0 : quic_ack_frame) (buf : list Z) (n : Z) :
  zlen (af_ranges f0) = QUIC_ACK_MAX_RANGES -> Forall is_u8 buf -> 1 <= n <= zlen buf -> n < max_object ->
  exists r, quic_ack_decode f0 buf n = Some r /\
    forall f used, r = Some (f, used) -> ack_wf f /\ 1 <= used <= n.
Proof.
  intros H0 Hb Hn Hobj. unfold quic_ack_decode. destruct (load_is_Some buf 0) as [b0 ->]; [lia|].
  apply decode_from_safe; [|done|lia|lia|done].
  apply saferd_take_ack; [done|]. destruct (b0 =? _); auto.
Qed.

(** On arbitrary bytes the ACK decoder never reads outside the buffer nor
    writes outside the 32-entry range array, although its loop continues after a
    malformed pair; and every frame it accepts carries 1 to 32 ranges, each
    non-empty and below 2^62, in strictly descending order with a gap between any
    two, so the walk never underflows packet number zero. *)
Theorem ack_decode_safe (f0 : quic_ack_frame) (buf : list Z) (n : Z)
  (H0 : zlen (af_ranges f0) = QUIC_ACK_MAX_RANGES) (Hb : Forall is_u8 buf)
  (Hn : 1 <= n <= zlen buf) (Hobj : n < max_object) :
  exists r, quic_ack_decode f0 buf n = Some r /\
    forall f used, r = Some (f, used) -> ack_wf f /\ 1 <= used <= n.
Proof. exact (ack_decode_ok f0 buf n H0 Hb Hn Hobj). Qed.

(** Witness: a frame whose second pair would underflow is refused. *)
Lemma ack_decode_safe_witness :
  (exists r, quic_ack_decode ack_blank [2; 5; 0; 1; 2; 3; 0; 9] 8 = Some r) /\
  quic_ack_decode ack_blank [2; 5; 0; 1; 2; 3; 0; 9] 8 = Some None.
Proof.
  destruct (ack_decode_safe ack_blank [2; 5; 0; 1; 2; 3; 0; 9] 8) as (r & H & _);
    [closed_arith|repeat constructor; closed_arith|closed_arith..|].
  split; [exists r; exact H|reflexivity].
Defined.
