(* ===== verification/FrameKinds.v ===== *)
(** Frame classification and placement ([dispatch.c], [permit.c]) and the
    transport error code classes ([codes.c], [error.c]). *)
From S2P Require Import Prelude.

(** * dispatch.c *)

Inductive quic_frame_kind :=
| QUIC_FK_UNKNOWN | QUIC_FK_PADDING | QUIC_FK_PING | QUIC_FK_ACK | QUIC_FK_RESET_STREAM
| QUIC_FK_STOP_SENDING | QUIC_FK_CRYPTO | QUIC_FK_NEW_TOKEN | QUIC_FK_STREAM | QUIC_FK_MAX_DATA
| QUIC_FK_MAX_STREAM_DATA | QUIC_FK_MAX_STREAMS | QUIC_FK_DATA_BLOCKED | QUIC_FK_STREAM_DATA_BLOCKED
| QUIC_FK_STREAMS_BLOCKED | QUIC_FK_NEW_CONNECTION_ID | QUIC_FK_RETIRE_CONNECTION_ID
| QUIC_FK_PATH_CHALLENGE | QUIC_FK_PATH_RESPONSE | QUIC_FK_CONNECTION_CLOSE | QUIC_FK_HANDSHAKE_DONE
| QUIC_FK_DATAGRAM.

#[export] Instance quic_frame_kind_eq_dec : EqDecision quic_frame_kind.
Proof. solve_decision. Defined.

Definition kind_eqb (a b : quic_frame_kind) : bool := bool_decide (a = b).

Definition TABLE : list (Z * quic_frame_kind) :=
  [ (0x00, QUIC_FK_PADDING); (0x01, QUIC_FK_PING); (0x02, QUIC_FK_ACK); (0x03, QUIC_FK_ACK);
    (0x04, QUIC_FK_RESET_STREAM); (0x05, QUIC_FK_STOP_SENDING); (0x06, QUIC_FK_CRYPTO);
    (0x07, QUIC_FK_NEW_TOKEN); (0x08, QUIC_FK_STREAM); (0x09, QUIC_FK_STREAM);
    (0x0a, QUIC_FK_STREAM); (0x0b, QUIC_FK_STREAM); (0x0c, QUIC_FK_STREAM);
    (0x0d, QUIC_FK_STREAM); (0x0e, QUIC_FK_STREAM); (0x0f, QUIC_FK_STREAM);
    (0x10, QUIC_FK_MAX_DATA); (0x11, QUIC_FK_MAX_STREAM_DATA); (0x12, QUIC_FK_MAX_STREAMS);
    (0x13, QUIC_FK_MAX_STREAMS); (0x14, QUIC_FK_DATA_BLOCKED); (0x15, QUIC_FK_STREAM_DATA_BLOCKED);
    (0x16, QUIC_FK_STREAMS_BLOCKED); (0x17, QUIC_FK_STREAMS_BLOCKED);
    (0x18, QUIC_FK_NEW_CONNECTION_ID); (0x19, QUIC_FK_RETIRE_CONNECTION_ID);
    (0x1a, QUIC_FK_PATH_CHALLENGE); (0x1b, QUIC_FK_PATH_RESPONSE);
    (0x1c, QUIC_FK_CONNECTION_CLOSE); (0x1d, QUIC_FK_CONNECTION_CLOSE);
    (0x1e, QUIC_FK_HANDSHAKE_DONE); (0x30, QUIC_FK_DATAGRAM); (0x31, QUIC_FK_DATAGRAM) ].

(** The scan of the table for the first row with this type. *)
Fixpoint classify_loop (rows : list (Z * quic_frame_kind)) (type : Z) : quic_frame_kind :=
  match rows with
  | [] => QUIC_FK_UNKNOWN
  | (t, k) :: rows' => if t =? type then k else classify_loop rows' type
  end.
Definition quic_frame_classify (type : Z) : quic_frame_kind := classify_loop TABLE type.

Definition non_eliciting (k : quic_frame_kind) : bool :=
  kind_eqb k QUIC_FK_PADDING || kind_eqb k QUIC_FK_ACK || kind_eqb k QUIC_FK_CONNECTION_CLOSE.
Definition quic_frame_ack_eliciting (k : quic_frame_kind) : bool :=
  if kind_eqb k QUIC_FK_UNKNOWN then false else negb (non_eliciting k).

(** * permit.c *)

Inductive quic_packet_type := QUIC_PKT_INITIAL | QUIC_PKT_HANDSHAKE | QUIC_PKT_0RTT | QUIC_PKT_1RTT.

Definition pkt_index (p : quic_packet_type) : Z :=
  match p with QUIC_PKT_INITIAL => 0 | QUIC_PKT_HANDSHAKE => 1 | QUIC_PKT_0RTT => 2 | QUIC_PKT_1RTT => 3 end.

(** The [allowed] table: bits I = 1, H = 2, Z = 4, O = 8. *)
Definition allowed (k : quic_frame_kind) : Z :=
  match k with
  | QUIC_FK_UNKNOWN => 0
  | QUIC_FK_PADDING | QUIC_FK_PING => 0xF
  | QUIC_FK_ACK => 0xB
  | QUIC_FK_RESET_STREAM | QUIC_FK_STOP_SENDING => 0xC
  | QUIC_FK_CRYPTO => 0xB
  | QUIC_FK_NEW_TOKEN => 0x8
  | QUIC_FK_STREAM | QUIC_FK_MAX_DATA | QUIC_FK_MAX_STREAM_DATA | QUIC_FK_MAX_STREAMS
  | QUIC_FK_DATA_BLOCKED | QUIC_FK_STREAM_DATA_BLOCKED | QUIC_FK_STREAMS_BLOCKED
  | QUIC_FK_NEW_CONNECTION_ID | QUIC_FK_RETIRE_CONNECTION_ID | QUIC_FK_PATH_CHALLENGE => 0xC
  | QUIC_FK_PATH_RESPONSE => 0x8
  | QUIC_FK_CONNECTION_CLOSE => 0xF
  | QUIC_FK_HANDSHAKE_DONE => 0x8
  | QUIC_FK_DATAGRAM => 0xC
  end.

Definition quic_frame_permitted (k : quic_frame_kind) (p : quic_packet_type) : bool :=
  negb (Z.land (Z.shiftr (allowed k) (pkt_index p)) 1 =? 0).

Definition quic_frame_is_grease (type : Z) : bool :=
  if type <? 0x21 then false else (type - 0x21) mod 0x1f =? 0.

(** * codes.c and error.c *)

Definition in_enum_range (code : Z) : bool := code <=? 0x11.
Definition in_crypto_range (code : Z) : bool := (0x0100 <=? code) && (code <=? 0x01ff).
Definition quic_error_is_standard (code : Z) : bool := in_enum_range code || in_crypto_range code.
Definition quic_error_is_grease (code : Z) : bool := code mod 31 =? 27.
Definition quic_error_is_app (code : Z) : bool := negb (quic_error_is_standard code).

Definition QUIC_ERR_CRYPTO_BASE : Z := 0x0100.
Definition quic_err_crypto (tls_alert : Z) : Z := QUIC_ERR_CRYPTO_BASE +w tls_alert.
Definition quic_err_is_crypto (code : Z) : bool :=
  (QUIC_ERR_CRYPTO_BASE <=? code) && (code <=? QUIC_ERR_CRYPTO_BASE + 0xff).
Definition quic_err_alert (code : Z) : Z := u8 (Z.land code 0xff).

(** * Properties *)

Lemma classify_known type :
  0 <= type <= 0x1e \/ type = 0x30 \/ type = 0x31 \/ quic_frame_classify type = QUIC_FK_UNKNOWN.
Proof.
  destruct (Z.leb_spec 0 type); [destruct (Z.leb_spec type 0x1e); [lia|]|];
    (destruct (Z.eq_dec type 0x30); [lia|]; destruct (Z.eq_dec type 0x31); [lia|]);
    do 3 right; unfold quic_frame_classify, TABLE; cbn [classify_loop]; zdecide; done.
Qed.

(** The frame placement rules: no frame type outside the RFC 9000 table is
    classified, reserved (GREASE) types never collide with a classified one, and
    only PADDING, PING, ACK, CRYPTO and CONNECTION_CLOSE may appear in Initial and
    Handshake packets, while 0-RTT packets refuse ACK, CRYPTO, NEW_TOKEN,
    PATH_RESPONSE and HANDSHAKE_DONE. *)
Theorem frame_placement (type : Z) :
  (quic_frame_classify type <> QUIC_FK_UNKNOWN <-> 0 <= type <= 0x1e \/ type = 0x30 \/ type = 0x31) /\
  (quic_frame_is_grease type = true -> quic_frame_classify type = QUIC_FK_UNKNOWN) /\
  (forall p, p = QUIC_PKT_INITIAL \/ p = QUIC_PKT_HANDSHAKE ->
     quic_frame_permitted (quic_frame_classify type) p = true ->
     quic_frame_classify type ∈ [QUIC_FK_PADDING; QUIC_FK_PING; QUIC_FK_ACK; QUIC_FK_CRYPTO; QUIC_FK_CONNECTION_CLOSE]) /\
  (quic_frame_classify type ∈ [QUIC_FK_ACK; QUIC_FK_CRYPTO; QUIC_FK_NEW_TOKEN; QUIC_FK_PATH_RESPONSE; QUIC_FK_HANDSHAKE_DONE] ->
     quic_frame_permitted (quic_frame_classify type) QUIC_PKT_0RTT = false).
Proof.
  split_and!.
  - split; [pose proof (classify_known type); tauto|].
    intros [H|[->| ->]]; [|done|done].
    assert (Hin : In type (map Z.of_nat (seq 0 31))).
    { apply in_map_iff. exists (Z.to_nat type). rewrite in_seq. lia. }
    assert (Hall : Forall (fun t => quic_frame_classify t <> QUIC_FK_UNKNOWN) (map Z.of_nat (seq 0 31)))
      by (vm_compute; repeat constructor; discriminate).
    exact (proj1 (Forall_forall _ _) Hall type Hin).
  - unfold quic_frame_is_grease. zcase; [done|]. intros Hg. zbool.
    destruct (classify_known type) as [?|[->|[->|?]]]; [lia|by vm_compute in Hg..|done].
  - intros p [-> | ->]; destruct (quic_frame_classify type); vm_compute; intros; try done; repeat constructor.
  - destruct (quic_frame_classify type); intros H; vm_compute; try done; exfalso;
      repeat (apply elem_of_cons in H as [H|H]; [done|]); by apply elem_of_nil in H.
Qed.

(** A CRYPTO_ERROR built from a TLS alert is in the CRYPTO range, is a
    standard transport code (never an application code), and gives the alert
    back; the two definitions of the range agree on every code. *)
Theorem crypto_error_roundtrip (alert code : Z) (Ha : is_u8 alert) :
  quic_err_alert (quic_err_crypto alert) = alert /\
  quic_err_is_crypto (quic_err_crypto alert) = true /\
  quic_error_is_app (quic_err_crypto alert) = false /\
  quic_err_is_crypto code = in_crypto_range code.
Proof.
  unfold is_u8 in Ha. unfold quic_err_crypto, quic_err_alert, quic_err_is_crypto, quic_error_is_app,
    quic_error_is_standard, in_enum_range, in_crypto_range, QUIC_ERR_CRYPTO_BASE. unwrap.
  rewrite land_255. unfold u8. rewrite Z.mod_mod by lia.
  replace (256 + alert) with (alert + 1 * 256) by lia. rewrite Z.mod_add, Z.mod_small by lia.
  split_and!; [done|..]; zdecide; try done.
Qed.

(** Witness: alert 40 (handshake_failure). *)
Lemma crypto_error_roundtrip_witness :
  quic_err_alert (quic_err_crypto 40) = 40 /\ quic_error_is_app (quic_err_crypto 40) = false.
Proof. destruct (crypto_error_roundtrip 40 0) as (H1 & _ & H2 & _); [closed_arith|]. split; [exact H1|exact H2]. Defined.
