(* ===== verification/FrameWalk.v ===== *)
(** The payload walker ([src/transport/packet/frame/pipeline/framewalk.c]): it
    splits a decrypted payload into frames with the frame decoders.

    The walker is a client of the codec interface: its correctness on a payload
    built by the encoders is proved from [FrameCodecLaws] alone. *)
From S2P Require Import Prelude.
From S2P Require Import Buffers.
From S2P Require Import Varint.
From S2P Require Import Codec.
From S2P Require Import Frames.
From S2P Require Import AckFrame.
From S2P Require Import FrameKinds.

(** * Definitions *)

(** [cur] is the memory from the cursor on; [remaining] bytes of it are payload. *)
Record quic_framewalk := mk_walk { fw_cur : list Z; fw_remaining : Z }.

Definition quic_framewalk_init (frames : list Z) (len : Z) : quic_framewalk := mk_walk frames len.

(** The value a decoder call returns: 0 or the bytes consumed. *)
Definition used_of {A} (r : option (option (A * Z))) : option Z :=
  match r with
  | None => None
  | Some None => Some 0
  | Some (Some (_, used)) => Some used
  end.

Section Walk.
(** [ack0] is what the walker's uninitialised local [quic_ack_frame] holds. *)
Context (ack0 : quic_ack_frame).

Definition body_len (kind : quic_frame_kind) (buf : list Z) (n : Z) : option Z :=
  if kind_eqb kind QUIC_FK_CRYPTO then used_of (quic_frame_get_crypto buf n)
  else if kind_eqb kind QUIC_FK_STREAM then used_of (quic_frame_get_stream buf n)
  else used_of (quic_frame_get_conn_close buf n).

Definition single_byte (kind : quic_frame_kind) : bool :=
  kind_eqb kind QUIC_FK_PADDING || kind_eqb kind QUIC_FK_PING || kind_eqb kind QUIC_FK_HANDSHAKE_DONE.

Definition has_body (kind : quic_frame_kind) : bool :=
  kind_eqb kind QUIC_FK_CRYPTO || kind_eqb kind QUIC_FK_STREAM || kind_eqb kind QUIC_FK_CONNECTION_CLOSE.

Definition ack_len (buf : list Z) (n : Z) : option Z := used_of (quic_ack_decode ack0 buf n).

Definition decoded_len (kind : quic_frame_kind) (buf : list Z) (n : Z) : option Z :=
  if kind_eqb kind QUIC_FK_ACK then ack_len buf n
  else if has_body kind then body_len kind buf n
  else Some 0.

Definition frame_len (type : Z) (buf : list Z) (n : Z) : option Z :=
  let kind := quic_frame_classify type in
  if single_byte kind then Some 1 else decoded_len kind buf n.

(** The type and the measured length (0 when the frame cannot be measured). *)
Definition measure (it : quic_framewalk) : option (option (Z * Z)) :=
  match quic_varint_decode (fw_cur it) (fw_remaining it) with
  | None => None
  | Some None => Some None
  | Some (Some (_, type)) =>
      match frame_len type (fw_cur it) (fw_remaining it) with
      | None => None
      | Some len => Some (Some (type, if fw_remaining it <? len then 0 else len))
      end
  end.

(** [Some (Some (type, remaining, it'))] when the walker yields a frame;
    [*frame_start] is the cursor of [it]. *)
Definition quic_framewalk_next (it : quic_framewalk) : option (option (Z * Z * quic_framewalk)) :=
  if fw_remaining it =? 0 then Some None
  else match measure it with
       | None => None
       | Some None => Some None
       | Some (Some (type, len)) =>
           if len =? 0 then Some None
           else Some (Some (type, fw_remaining it,
                  mk_walk (drop (Z.to_nat len) (fw_cur it)) (fw_remaining it -w len)))
       end.

(** The loop [while (quic_framewalk_next(..)) ...] of every client: the frames
    yielded, as (type, bytes), and where the walker stopped.  [None] as the
    result means an out-of-bounds access or that the fuel ran out. *)
Fixpoint walk (fuel : nat) (it : quic_framewalk) : option (list (Z * list Z) * quic_framewalk) :=
  match fuel with
  | O => None
  | S fuel' =>
      match quic_framewalk_next it with
      | None => None
      | Some None => Some ([], it)
      | Some (Some (type, rem, it')) =>
          match walk fuel' it' with
          | None => None
          | Some (fs, last) =>
              Some ((type, take (Z.to_nat (rem - fw_remaining it')) (fw_cur it)) :: fs, last)
          end
      end
  end.

(** * Safety and termination on arbitrary payloads *)

Context (Hack0 : zlen (af_ranges ack0) = QUIC_ACK_MAX_RANGES).

Lemma used_of_safe {A} (r : option (option (A * Z))) n (Q : A -> Prop) :
  (exists x, r = Some x /\ forall a used, x = Some (a, used) -> Q a /\ 1 <= used <= n) ->
  exists u, used_of r = Some u /\ 0 <= u /\ (u <= n \/ u = 0).
Proof.
  intros (x & -> & H). destruct x as [[a u]|]; simpl; [|exists 0; split; [done|lia]].
  destruct (H a u eq_refl). exists u. split; [done|lia].
Qed.

Lemma frame_len_safe type buf n :
  Forall is_u8 buf -> 1 <= n <= zlen buf -> n < max_object ->
  exists u, frame_len type buf n = Some u /\ 0 <= u <= n.
Proof using Hack0.
  intros Hb Hn Ho. unfold frame_len, decoded_len, body_len, ack_len.
  destruct (single_byte _); [exists 1; split; [done|lia]|].
  assert (Hz : exists u, Some 0 = Some u /\ 0 <= u <= n) by (exists 0; split; [done|lia]).
  destruct (kind_eqb _ QUIC_FK_ACK).
  { destruct (used_of_safe _ n ack_wf (ack_decode_ok ack0 buf n Hack0 Hb Hn Ho)) as (u & -> & ?); exists u; split; [done|lia]. }
  destruct (has_body _); [|done].
  destruct (kind_eqb _ QUIC_FK_CRYPTO).
  { destruct (used_of_safe _ n _ (fc_decode_safe (F := quic_crypto_frame) buf n Hb Hn Ho)) as (u & Hu & ?).
    exists u. split; [exact Hu|lia]. }
  destruct (kind_eqb _ QUIC_FK_STREAM).
  { destruct (used_of_safe _ n _ (fc_decode_safe (F := quic_stream_frame) buf n Hb Hn Ho)) as (u & Hu & ?).
    exists u. split; [exact Hu|lia]. }
  destruct (used_of_safe _ n _ (fc_decode_safe (F := quic_conn_close_frame) buf n Hb Hn Ho)) as (u & Hu & ?).
  exists u. split; [exact Hu|lia].
Qed.

Definition walk_ok (it : quic_framewalk) : Prop :=
  Forall is_u8 (fw_cur it) /\ 0 <= fw_remaining it <= zlen (fw_cur it) /\ fw_remaining it < max_object.

(** One step: it never faults, and a yielded frame takes at least one byte. *)
Lemma framewalk_next_safe it :
  walk_ok it ->
  exists r, quic_framewalk_next it = Some r /\
    forall type rem it', r = Some (type, rem, it') ->
      rem = fw_remaining it /\ walk_ok it' /\ fw_remaining it' < fw_remaining it /\
      exists k, 1 <= k /\ fw_remaining it' = fw_remaining it - k /\ fw_cur it' = drop (Z.to_nat k) (fw_cur it).
Proof using Hack0.
  intros (Hb & Hr & Ho). unfold quic_framewalk_next.
  destruct (Z.eqb_spec (fw_remaining it) 0); [by eexists|]. unfold measure.
  destruct (fw_cur it) as [|b rest] eqn:Hcur; [unfold zlen in Hr; simpl in Hr; lia|].
  pose proof Hb as Hb'. apply Forall_cons_iff in Hb' as [Hb1 Hb2].
  rewrite varint_decode_spec by (done || (by apply Forall_take) || (rewrite zlen_cons in Hr; lia)).
  destruct (fw_remaining it <? _); [by eexists|].
  match goal with |- context [frame_len ?t _ _] => set (type := t) end.
  destruct (frame_len_safe type (b :: rest) (fw_remaining it)) as (u & -> & Hu); try done; [lia|].
  destruct (Z.ltb_spec (fw_remaining it) u); [simpl; by eexists|].
  destruct (Z.eqb_spec u 0); [by eexists|]. unwrap.
  eexists. split; [done|]. intros type' rem it' [= <- <- <-]. cbn [fw_remaining fw_cur].
  split_and!; try done; try lia.
  - split_and!; cbn [fw_remaining fw_cur]; [by apply Forall_drop|lia|..|lia].
    unfold zlen in *. rewrite length_drop. lia.
  - exists u. split_and!; done || lia.
Qed.

(** The walk consumes the payload from the front: the frames it yields, put end
    to end, are the bytes before the point where it stops. *)
Lemma walk_total fuel : forall it,
  walk_ok it -> (Z.to_nat (fw_remaining it) < fuel)%nat ->
  exists fs last, walk fuel it = Some (fs, last) /\ walk_ok last /\
    fw_cur it = concat (map snd fs) ++ fw_cur last /\
    fw_remaining it = zlen (concat (map snd fs)) + fw_remaining last /\
    quic_framewalk_next last = Some None.
Proof using Hack0.
  induction fuel as [|fuel IH]; intros it Hok Hf; [lia|]. cbn [walk].
  destruct (framewalk_next_safe it Hok) as (r & Hnext & H). rewrite Hnext.
  destruct r as [[[type rem] it']|].
  - destruct (H _ _ _ eq_refl) as (-> & Hok' & Hlt & k & Hk & Hrem & Hcur).
    destruct (IH it' Hok') as (fs & last & -> & Hl & Hc & Hz & Hn).
    { pose proof (proj1 (proj1 (proj2 Hok'))). lia. }
    eexists _, last. split; [done|]. split; [done|]. cbn [map concat snd].
    replace (fw_remaining it - fw_remaining it') with k by lia.
    assert (Hk2 : k <= zlen (fw_cur it)) by (destruct Hok as (_ & ? & _); destruct Hok' as (_ & ? & _); lia).
    split_and!; try done.
    + rewrite <- app_assoc, <- Hc, Hcur. by rewrite take_drop.
    + rewrite zlen_app. unfold zlen at 1. rewrite length_take. unfold zlen in *. lia.
  - exists [], it. split_and!; try done; [apply Hok..].
Qed.
End Walk.

(** * Walking what the encoders wrote *)

(** A frame of a kind the walker can measure. *)
Inductive wframe :=
| WPadding | WPing | WHandshakeDone
| WCrypto (f : quic_crypto_frame) | WStream (f : quic_stream_frame)
| WClose (f : quic_conn_close_frame) | WAck (f : quic_ack_frame).

Definition wf_ok (w : wframe) : Prop :=
  match w with
  | WPadding | WPing | WHandshakeDone => True
  | WCrypto f => crypto_wf f
  | WStream f => stream_wf f
  | WClose f => close_wf f
  | WAck f => ack_wf f
  end.

Definition wf_type (w : wframe) : Z :=
  match w with
  | WPadding => 0x00 | WPing => 0x01 | WHandshakeDone => 0x1e
  | WCrypto f => fc_type f | WStream f => fc_type f | WClose f => fc_type f
  | WAck f => ack_type f
  end.

Definition wf_bytes (w : wframe) : list Z :=
  match w with
  | WPadding => [0x00] | WPing => [0x01] | WHandshakeDone => [0x1e]
  | WCrypto f => fc_bytes f | WStream f => fc_bytes f | WClose f => fc_bytes f
  | WAck f => ack_bytes f
  end.

Lemma wf_bytes_head w : wf_ok w -> exists body, wf_bytes w = wf_type w :: body.
Proof.
  destruct w; intros Hw; try by eexists.
  destruct Hw as (_ & _ & _ & _ & _ & _ & _ & r0 & rs & E & _).
  simpl. unfold ack_bytes. rewrite E. by eexists.
Qed.

(** Each of these types is a one-byte varint. *)
Lemma wf_type_small w : 0 <= wf_type w < 64.
Proof.
  destruct w as [| | |f|f|f|f]; simpl; unfold QUIC_FRAME_CRYPTO; try lia.
  - pose proof (stream_type_bits f); lia.
  - destruct (_ =? 0); closed_arith.
  - unfold ack_type. destruct (_ =? 0); closed_arith.
Qed.

Lemma varint_decode_type t rest n :
  0 <= t < 64 -> 1 <= n <= 1 + zlen rest -> quic_varint_decode (t :: rest) n = Some (Some (1, t)).
Proof.
  intros Ht Hn.
  assert (Hq : t / 64 = 0) by (apply Z.div_small; lia).
  rewrite varint_decode_spec; [|unfold is_u8; lia| |done].
  - unfold varint_need. rewrite Hq. simpl. zdecide. by rewrite Z.mod_small.
  - unfold varint_need. rewrite Hq. constructor.
Qed.

Section WalkEncoded.
Context (ack0 : quic_ack_frame) (Hack0 : zlen (af_ranges ack0) = QUIC_ACK_MAX_RANGES).

Lemma used_of_codec {F} `{FrameCodecLaws F} (f : F) post n :
  fc_wf f -> zlen (fc_bytes f) <= n <= zlen (fc_bytes f ++ post) -> n < max_object ->
  used_of (fc_decode (fc_bytes f ++ post) n) = Some (zlen (fc_bytes f)).
Proof.
  intros Hf Hn Ho. rewrite fc_decode_spec; [|done| |done].
  - zdecide. done.
  - unfold fc_bytes in *. rewrite zlen_cons in *. pose proof (zlen_nonneg (fc_body f)). lia.
Qed.

Lemma frame_len_encoded w post n :
  wf_ok w -> zlen (wf_bytes w) <= n <= zlen (wf_bytes w ++ post) -> n < max_object ->
  frame_len ack0 (wf_type w) (wf_bytes w ++ post) n = Some (zlen (wf_bytes w)).
Proof using Hack0.
  intros Hw Hn Ho. destruct w as [| | |f|f|f|f]; try done; cbn [wf_type wf_bytes wf_ok] in *.
  - exact (used_of_codec f post n Hw Hn Ho).
  - assert (Hk : quic_frame_classify (fc_type f) = QUIC_FK_STREAM).
    { simpl. unfold stream_type. by destruct (_ =? 0), (_ =? 0). }
    unfold frame_len. rewrite Hk. exact (used_of_codec f post n Hw Hn Ho).
  - assert (Hk : quic_frame_classify (fc_type f) = QUIC_FK_CONNECTION_CLOSE).
    { simpl. by destruct (_ =? 0). }
    unfold frame_len. rewrite Hk. exact (used_of_codec f post n Hw Hn Ho).
  - assert (Hk : quic_frame_classify (ack_type f) = QUIC_FK_ACK).
    { unfold ack_type. by destruct (_ =? 0). }
    unfold frame_len. rewrite Hk. change (ack_len ack0 (ack_bytes f ++ post) n = Some (zlen (ack_bytes f))).
    unfold ack_len.
    destruct (ack_decode_bytes f ack0 Hw Hack0) as (Hpos & g & _ & Hdec).
    rewrite Hdec by (done || lia). zdecide. done.
Qed.

Lemma framewalk_next_encoded w post :
  wf_ok w -> zlen (wf_bytes w ++ post) < max_object ->
  quic_framewalk_next ack0 (mk_walk (wf_bytes w ++ post) (zlen (wf_bytes w ++ post))) =
  Some (Some (wf_type w, zlen (wf_bytes w ++ post), mk_walk post (zlen post))).
Proof using Hack0.
  intros Hw Ho. destruct (wf_bytes_head w Hw) as [body Hbody].
  pose proof (zlen_nonneg post). pose proof (zlen_nonneg body).
  assert (Hl : zlen (wf_bytes w ++ post) = 1 + zlen body + zlen post) by (rewrite Hbody, zlen_app, zlen_cons; done).
  assert (Hl1 : zlen (wf_bytes w) = 1 + zlen body) by (by rewrite Hbody, zlen_cons).
  unfold quic_framewalk_next, measure. cbn [fw_cur fw_remaining]. zdecide.
  replace (quic_varint_decode (wf_bytes w ++ post) (zlen (wf_bytes w ++ post))) with (Some (Some (1, wf_type w))).
  2: { symmetry. rewrite Hl, Hbody. simpl app. apply varint_decode_type; [apply wf_type_small|].
       rewrite zlen_app. lia. }
  rewrite frame_len_encoded by (done || lia). zdecide.
  replace (drop (Z.to_nat (zlen (wf_bytes w))) (wf_bytes w ++ post)) with post.
  - rewrite Hl, Hl1. unwrap. do 5 f_equal. lia.
  - unfold zlen. by rewrite Nat2Z.id, drop_app_length.
Qed.

Lemma walk_encoded ws : forall fuel,
  Forall wf_ok ws -> zlen (concat (map wf_bytes ws)) < max_object -> (length ws < fuel)%nat ->
  walk ack0 fuel (mk_walk (concat (map wf_bytes ws)) (zlen (concat (map wf_bytes ws)))) =
  Some (map (fun w => (wf_type w, wf_bytes w)) ws, mk_walk [] 0).
Proof using Hack0.
  induction ws as [|w ws IH]; intros [|fuel] Hw Ho Hf; try (simpl in Hf; lia); [done|].
  apply Forall_cons_iff in Hw as [Hw Hws]. cbn [map concat walk].
  rewrite framewalk_next_encoded by done.
  pose proof (zlen_nonneg (wf_bytes w)). cbn [map concat] in Ho. rewrite zlen_app in Ho.
  rewrite IH by (done || lia || (simpl in Hf; lia)). cbn [fw_remaining fw_cur].
  do 4 f_equal. rewrite zlen_app. unfold zlen.
  replace (Z.to_nat _) with (length (wf_bytes w)) by lia. apply take_app_length.
Qed.
End WalkEncoded.

(** * Properties *)

(** Walking a payload made of any sequence of PADDING, PING, HANDSHAKE_DONE,
    CRYPTO, STREAM, CONNECTION_CLOSE and ACK frames, as their encoders write them,
    yields exactly those frames in order, each with its type and its bytes, and
    stops at the end of the payload. *)
Theorem framewalk_complete (ack0 : quic_ack_frame) (ws : list wframe)
  (Hack0 : zlen (af_ranges ack0) = QUIC_ACK_MAX_RANGES)
  (Hws : Forall wf_ok ws) (Hobj : zlen (concat (map wf_bytes ws)) < max_object) :
  walk ack0 (S (length ws)) (quic_framewalk_init (concat (map wf_bytes ws)) (zlen (concat (map wf_bytes ws)))) =
  Some (map (fun w => (wf_type w, wf_bytes w)) ws, mk_walk [] 0).
Proof. apply walk_encoded; done || lia. Qed.

Definition walk_example : list wframe :=
  [WPing; WAck ack_example; WStream stream_example; WPadding; WClose close_example].

(** Witness: a five-frame payload. *)
Lemma framewalk_complete_witness :
  walk ack_blank 6 (quic_framewalk_init (concat (map wf_bytes walk_example)) (zlen (concat (map wf_bytes walk_example)))) =
  Some (map (fun w => (wf_type w, wf_bytes w)) walk_example, mk_walk [] 0).
Proof.
  apply (framewalk_complete ack_blank walk_example); [closed_arith| |closed_arith].
  apply Forall_forall. intros w Hw. repeat destruct Hw as [<-|Hw]; try exact I; try by destruct Hw.
  - exact ack_example_wf.
  - exact stream_example_wf.
  - exact close_example_wf.
Defined.

(** C40: on an arbitrary payload of n bytes the walker never accesses memory outside
    the payload, every frame it yields takes at least one byte (so a walk takes at
    most n steps and fuel n+1 always suffices), and the frames yielded, end to end,
    are exactly the bytes before the point where it stops. *)
Theorem framewalk_safe (ack0 : quic_ack_frame) (payload : list Z)
  (Hack0 : zlen (af_ranges ack0) = QUIC_ACK_MAX_RANGES)
  (Hb : Forall is_u8 payload) (Hobj : zlen payload < max_object) :
  exists fs last, walk ack0 (S (length payload)) (quic_framewalk_init payload (zlen payload)) = Some (fs, last) /\
    payload = concat (map snd fs) ++ fw_cur last /\ fw_remaining last = zlen (fw_cur last) /\
    quic_framewalk_next ack0 last = Some None.
Proof.
  destruct (walk_total ack0 Hack0 (S (length payload)) (quic_framewalk_init payload (zlen payload)))
    as (fs & last & E & Hok & Hc & Hz & Hn).
  - pose proof (zlen_nonneg payload). split_and!; cbn; done || lia.
  - cbn. unfold zlen. lia.
  - exists fs, last. cbn in Hc, Hz. split_and!; try done. rewrite Hc, zlen_app in Hz. lia.
Qed.

(** Witness: a payload whose second frame is a MAX_DATA frame, which the walker
    cannot measure. *)
Lemma framewalk_safe_witness :
  exists fs last, walk ack_blank 4 (quic_framewalk_init [1; 0x10; 5] 3) = Some (fs, last) /\
    [1; 0x10; 5] = concat (map snd fs) ++ fw_cur last.
Proof.
  destruct (framewalk_safe ack_blank [1; 0x10; 5]) as (fs & last & H1 & H2 & _);
    [closed_arith|by rewrite !Forall_cons_iff|closed_arith|].
  exists fs, last. split; [exact H1|exact H2].
Defined.

(** The walker decodes the type as a varint but measures the frame as if the
    type were one byte: a PING whose type is written as the two-byte varint
    [0x40; 0x01] is reported as two PING frames of one byte each. *)
Theorem framewalk_long_type (ack0 : quic_ack_frame) :
  walk ack0 3 (quic_framewalk_init [0x40; 0x01] 2) = Some ([(1, [0x40]); (1, [0x01])], mk_walk [] 0).
Proof. reflexivity. Qed.
