(* ===== verification/PacketNumber.v ===== *)
(** Packet number truncation and recovery
    ([src/transport/packet/header/packet/pnum.c] and [pnlen.c]; RFC 9000
    appendix A.2 and A.3). *)
From S2P Require Import Prelude.
From S2P Require Import Buffers.
From S2P Require Import Varint.

(** * Definitions *)

(** [while (b < 4 && need >= ((u64)1 << (8 * b))) b++]: at most three rounds, the
    bound [b < 4] of the loop itself. *)
Fixpoint pnum_len_loop (rounds : nat) (need b : Z) : Z :=
  match rounds with
  | O => b
  | S rounds' => if (b <? 4) && (Z.shiftl 1 (8 * b) <=? need) then pnum_len_loop rounds' need (b + 1) else b
  end.
Definition quic_pnum_len (full_pn largest_acked : Z) : Z :=
  pnum_len_loop 4 ((full_pn -w largest_acked) *w 2) 1.

(** [while (b < 4 && (num_unacked >> (8 * b - 1)) != 0) b++]. *)
Fixpoint pnlen_loop (rounds : nat) (num_unacked b : Z) : Z :=
  match rounds with
  | O => b
  | S rounds' =>
      if (b <? 4) && negb (Z.shiftr num_unacked (8 * b - 1) =? 0)
      then pnlen_loop rounds' num_unacked (b + 1) else b
  end.
Definition quic_pnlen_needed (pn largest_acked : Z) : Z := pnlen_loop 4 (pn -w largest_acked) 1.

(** Writes the low bytes at [buf + base]; the loop is the one of [put_be]. *)
Definition quic_pnum_encode (buf : list Z) (base full_pn nbytes : Z) : option (Z * list Z) :=
  match put_be_loop (Z.to_nat nbytes) buf base full_pn with
  | None => None
  | Some buf' => Some (nbytes, buf')
  end.

Definition read_be (buf : list Z) (nbytes : Z) : option Z := get_be_loop (Z.to_nat nbytes) buf 0 0.

Definition below_window (candidate expected win : Z) : bool :=
  (candidate +w win / 2 <=? expected) && (candidate <? candidate +w win).
Definition above_window (candidate expected win : Z) : bool :=
  (expected +w win / 2 <? candidate) && (win <=? candidate).
Definition nearest (candidate expected win : Z) : Z :=
  if below_window candidate expected win then candidate +w win
  else if above_window candidate expected win then candidate -w win
  else candidate.

Definition quic_pnum_decode (buf : list Z) (nbytes largest_pn : Z) : option Z :=
  match read_be buf nbytes with
  | None => None
  | Some truncated =>
      let bits := nbytes *w 8 in
      let win := 1 <<w bits in
      let expected := largest_pn +w 1 in
      let candidate := Z.lor (Z.land expected (u64 (Z.lnot (win -w 1)))) truncated in
      Some (nearest candidate expected win)
  end.

(** * Lemmas *)

(** Clearing the low bits of a word. *)
Lemma clear_low e k : 0 <= k < 64 -> is_u64 e ->
  Z.land e (u64 (Z.lnot (2 ^ k - 1))) = e - e mod 2 ^ k.
Proof.
  intros Hk He. unfold u64, is_u64 in *. change 18446744073709551616 with (2 ^ 64) in *.
  rewrite <- (Z.land_ones _ 64) by lia.
  assert (H2 : 0 < 2 ^ k) by (apply Z.pow_pos_nonneg; lia).
  transitivity (Z.ldiff e (Z.ones k)).
  - apply Z.bits_inj'. intros i Hi.
    replace (2 ^ k - 1) with (Z.ones k) by (rewrite Z.ones_equiv; lia).
    rewrite !Z.land_spec, Z.lnot_spec, Z.ldiff_spec by done.
    destruct (Z.lt_ge_cases i 64).
    + rewrite (Z.ones_spec_low 64) by lia. by rewrite andb_true_r.
    + replace (Z.testbit e i) with false; [done|]. symmetry.
      rewrite <- (Z.mod_small e (2 ^ 64)), Z.mod_pow2_bits_high by lia. done.
  - rewrite Z.ldiff_ones_r, Z.shiftl_mul_pow2, Z.shiftr_div_pow2 by lia.
    pose proof (Z.div_mod e (2 ^ k)). lia.
Qed.

Lemma div_half k : 1 <= k -> 2 ^ k = 2 * (2 ^ k / 2) /\ 2 ^ k / 2 = 2 ^ (k - 1).
Proof.
  intros Hk. replace (2 ^ k) with (2 ^ (k - 1) * 2).
  - rewrite Z.div_mul by lia. lia.
  - rewrite Z.mul_comm, <- Z.pow_succ_r by lia. f_equal. lia.
Qed.

(** Among the numbers that end in the bits of [pn], the one nearest to the
    expected number is [pn] itself, when [pn] is in the window. *)
Lemma nearest_window pn expected win :
  0 <= pn < 2 ^ 62 -> 0 <= expected <= 2 ^ 62 -> 0 < win <= 2 ^ 32 -> win = 2 * (win / 2) ->
  expected - win / 2 < pn <= expected + win / 2 ->
  nearest (expected - expected mod win + pn mod win) expected win = pn.
Proof.
  intros Hpn He Hw Hh Hin.
  pose proof (Z.mod_pos_bound expected win ltac:(lia)). pose proof (Z.mod_pos_bound pn win ltac:(lia)).
  assert (Hdiff : exists q, expected - expected mod win + pn mod win = pn + q * win).
  { exists (expected / win - pn / win).
    pose proof (Z.div_mod expected win ltac:(lia)). pose proof (Z.div_mod pn win ltac:(lia)). lia. }
  destruct Hdiff as [q Hq]. set (c := expected - expected mod win + pn mod win) in *.
  assert (0 <= c < 2 ^ 63) by (pose proof (Z.mod_le expected win); lia).
  assert (Hq3 : q = -1 \/ q = 0 \/ q = 1) by (unfold c in *; nia).
  unfold nearest, below_window, above_window.
  rewrite (u64_id (c + win / 2)), (u64_id (expected + win / 2)), (u64_id (c + win)) by (unfold is_u64; lia).
  destruct Hq3 as [->|[->| ->]]; zdecide; simpl; unwrap; try lia.
Qed.

(** Recovery of the [k] low bytes of [pn] by a receiver whose largest number so
    far is [largest] ([-1] when it has none). *)
Lemma pnum_decode_bytes (k : nat) pn largest post :
  (1 <= k <= 4)%nat -> 0 <= pn < 2 ^ 62 -> -1 <= largest < 2 ^ 62 ->
  largest + 1 - 2 ^ (8 * Z.of_nat k - 1) < pn <= largest + 1 + 2 ^ (8 * Z.of_nat k - 1) ->
  quic_pnum_decode (be_bytes k pn ++ post) (Z.of_nat k) (u64 largest) = Some pn.
Proof.
  intros Hk Hpn Hl Hin. unfold quic_pnum_decode, read_be. rewrite Nat2Z.id.
  pose proof (get_be_loop_spec (be_bytes k pn) [] post 0 (be_bytes_u8 k pn) ltac:(lia)) as Hg.
  rewrite length_be_bytes, zlen_be_bytes in Hg. simpl app in Hg. change (zlen (@nil Z)) with 0 in Hg.
  pose proof (Z.pow_le_mono_r 256 (Z.of_nat k) 4 ltac:(lia) ltac:(lia)).
  rewrite Hg by (simpl in *; lia). clear Hg.
  change (fold_left _ (be_bytes k pn) 0) with (be_value (be_bytes k pn)). rewrite be_value_be_bytes.
  set (b := 8 * Z.of_nat k) in *.
  replace (256 ^ Z.of_nat k) with (2 ^ b) in * by (unfold b; rewrite Z.pow_mul_r by lia; done).
  rewrite (u64_id (Z.of_nat k * 8)) by (unfold is_u64; lia). rewrite Z.mul_comm. fold b.
  assert (Hb : 8 <= b <= 32) by lia. destruct (div_half b) as [Hh1 Hh2]; [lia|].
  assert (0 < 2 ^ b) by (apply Z.pow_pos_nonneg; lia).
  rewrite Z.shiftl_1_l, (u64_id (2 ^ b)) by (unfold is_u64; simpl in *; lia).
  rewrite (u64_id (2 ^ b - 1)) by (unfold is_u64; simpl in *; lia).
  replace (u64 largest +w 1) with (largest + 1).
  2: { unfold u64. rewrite Z.add_mod_idemp_l, Z.mod_small by lia. done. }
  rewrite clear_low by (unfold is_u64; lia).
  pose proof (Z.mod_pos_bound pn (2 ^ b) ltac:(lia)).
  replace (largest + 1 - (largest + 1) mod 2 ^ b) with (((largest + 1) / 2 ^ b) * 2 ^ b)
    by (pose proof (Z.div_mod (largest + 1) (2 ^ b) ltac:(lia)); lia).
  rewrite lor_low by lia. f_equal.
  replace (((largest + 1) / 2 ^ b) * 2 ^ b) with (largest + 1 - (largest + 1) mod 2 ^ b)
    by (pose proof (Z.div_mod (largest + 1) (2 ^ b) ltac:(lia)); lia).
  apply nearest_window; simpl in *; lia.
Qed.

(** The bytes needed so that twice the unacknowledged distance fits. *)
Lemma pnum_len_spec num : 0 <= num < 2 ^ 63 ->
  let b := pnum_len_loop 4 (num *w 2) 1 in
  1 <= b <= 4 /\ (num < 2 ^ 31 -> num < 2 ^ (8 * b - 1)) /\
  (forall b', 1 <= b' -> num < 2 ^ (8 * b' - 1) -> b <= b').
Proof.
  intros Hn. rewrite (u64_id (num * 2)) by (unfold is_u64; lia). unfold pnum_len_loop.
  rewrite !Z.shiftl_1_l. change (8 * 1) with 8. change (1 + 1) with 2. change (8 * 2) with 16.
  change (2 + 1) with 3. change (8 * 3) with 24.
  destruct (Z.leb_spec (2 ^ 8) (num * 2)); simpl.
  - destruct (Z.leb_spec (2 ^ 16) (num * 2)); simpl.
    + destruct (Z.leb_spec (2 ^ 24) (num * 2)); simpl; (split; [lia|]); (split; [simpl; lia|]); intros b' Hb Hlt.
      * destruct (Z.lt_ge_cases b' 4); [|lia].
        pose proof (Z.pow_le_mono_r 2 (8 * b' - 1) 23). simpl in *. lia.
      * destruct (Z.lt_ge_cases b' 3); [|lia].
        pose proof (Z.pow_le_mono_r 2 (8 * b' - 1) 15). simpl in *. lia.
    + split; [lia|]. split; [simpl in *; lia|]. intros b' Hb Hlt.
      destruct (Z.lt_ge_cases b' 2); [|lia]. pose proof (Z.pow_le_mono_r 2 (8 * b' - 1) 7). simpl in *. lia.
  - split; [lia|]. split; [simpl in *; lia|]. lia.
Qed.

Lemma pnlen_loop_eq num b rounds :
  0 <= num < 2 ^ 63 -> 1 <= b -> pnlen_loop rounds num b = pnum_len_loop rounds (num *w 2) b.
Proof.
  intros Hn. rewrite (u64_id (num * 2)) by (unfold is_u64; lia).
  revert b; induction rounds as [|r IH]; intros b Hb; [done|]. cbn [pnlen_loop pnum_len_loop].
  replace (negb (Z.shiftr num (8 * b - 1) =? 0)) with (Z.shiftl 1 (8 * b) <=? num * 2).
  { destruct (_ && _); [apply IH; lia|done]. }
  rewrite Z.shiftr_div_pow2, Z.shiftl_1_l by lia.
  assert (0 < 2 ^ (8 * b - 1)) by (apply Z.pow_pos_nonneg; lia).
  assert (E : 2 ^ (8 * b) = 2 * 2 ^ (8 * b - 1)) by (rewrite <- Z.pow_succ_r by lia; f_equal; lia).
  rewrite E. destruct (Z.eqb_spec (num / 2 ^ (8 * b - 1)) 0) as [H0|H0]; simpl.
  - apply Z.div_small_iff in H0; [|lia]. apply Z.leb_gt. lia.
  - apply Z.leb_le. assert (~ (0 <= num < 2 ^ (8 * b - 1))); [|lia].
    intros Hc. apply H0, Z.div_small_iff; lia.
Qed.

(** * Properties *)

(** C35: a packet number truncated to the length [quic_pnum_len] chooses is
    recovered exactly.  The sender knows [acked], the largest number the peer has
    acknowledged ([-1], passed as ~0, when none), at most 2^31 - 1 below [pn]; the
    receiver has processed some number [largest] that is at least [acked] and less
    than half a window ahead of [pn] (so late packets are recovered too). *)
Theorem pnum_recovers (pn acked largest base : Z) (buf : list Z)
  (Hpn : 0 <= pn < 2 ^ 62) (Ha : -1 <= acked < pn) (Hd : pn - acked < 2 ^ 31)
  (Hb : 0 <= base) (Hfit : base + 4 <= zlen buf)
  (Hl : acked <= largest < pn + 2 ^ (8 * quic_pnum_len pn (u64 acked) - 1) - 1) (Hmax : largest < 2 ^ 62) :
  let nbytes := quic_pnum_len pn (u64 acked) in
  1 <= nbytes <= 4 /\
  exists buf', quic_pnum_encode buf base pn nbytes = Some (nbytes, buf') /\
    quic_pnum_decode (drop (Z.to_nat base) buf') nbytes (u64 largest) = Some pn.
Proof.
  intros nbytes.
  assert (Hnum : u64 (pn - u64 acked) = pn - acked).
  { unfold u64. rewrite Zminus_mod_idemp_r, Z.mod_small by lia. done. }
  assert (Hs := pnum_len_spec (pn - acked) ltac:(lia)).
  assert (En : nbytes = pnum_len_loop 4 ((pn - acked) *w 2) 1)
    by (unfold nbytes, quic_pnum_len; by rewrite Hnum).
  cbv zeta in Hs. fold nbytes in Hl. rewrite <- En in Hs. clear En. destruct Hs as (Hr & Hw & _).
  specialize (Hw Hd). split; [done|]. unfold quic_pnum_encode.
  rewrite put_be_loop_spec by lia. eexists. split; [done|].
  unfold splice. rewrite drop_app_length' by (rewrite length_take; unfold zlen in *; lia).
  rewrite <- (Z2Nat.id nbytes) at 3 by lia.
  apply pnum_decode_bytes; try lia; rewrite Z2Nat.id by lia; lia.
Qed.

(** Witness: the example of RFC 9000 A.2 and A.3. *)
Lemma pnum_recovers_witness :
  quic_pnum_len 0xac5c02 0xabe8b3 = 2 /\
  exists buf', quic_pnum_encode [0; 0; 0; 0; 0] 1 0xac5c02 2 = Some (2, buf') /\
    quic_pnum_decode (drop 1 buf') 2 0xac5bff = Some 0xac5c02.
Proof.
  split; [reflexivity|].
  destruct (pnum_recovers 0xac5c02 0xabe8b3 0xac5bff 1 [0; 0; 0; 0; 0]) as (_ & buf' & H1 & H2);
    [closed_arith..|].
  exists buf'. split; [exact H1|exact H2].
Defined.

(** The two routines that choose the length of a packet number agree for every
    pair less than 2^63 apart, and their answer is the least of 1..4 whose range
    is more than twice the distance (4 when none is). *)
Theorem pnlen_equivalent (pn acked : Z) (Hd : 0 <= pn -w acked < 2 ^ 63) :
  quic_pnlen_needed pn acked = quic_pnum_len pn acked /\
  1 <= quic_pnum_len pn acked <= 4 /\
  (pn -w acked < 2 ^ 31 -> 2 * (pn -w acked) < 256 ^ quic_pnum_len pn acked) /\
  (forall b, 1 <= b -> 2 * (pn -w acked) < 256 ^ b -> quic_pnum_len pn acked <= b).
Proof.
  unfold quic_pnlen_needed, quic_pnum_len. rewrite pnlen_loop_eq by lia.
  destruct (pnum_len_spec (pn -w acked) Hd) as (H1 & H2 & H3).
  assert (E : forall b, 1 <= b -> 256 ^ b = 2 * 2 ^ (8 * b - 1)).
  { intros b Hb. change 256 with (2 ^ 8). rewrite <- Z.pow_mul_r, <- Z.pow_succ_r by lia. f_equal. lia. }
  split_and!; [done|lia|lia| |].
  - intros Hlt. specialize (H2 Hlt). rewrite E by lia. lia.
  - intros b Hb Hlt. rewrite E in Hlt by lia. apply H3; lia.
Qed.

(** Witness: three bytes, a length the comment of [quic_pnum_len] does not list. *)
Lemma pnlen_equivalent_witness :
  quic_pnlen_needed 0xace8fe 0xabe8b3 = quic_pnum_len 0xace8fe 0xabe8b3 /\
  quic_pnum_len 0xace8fe 0xabe8b3 = 3.
Proof.
  destruct (pnlen_equivalent 0xace8fe 0xabe8b3) as (H & _); [closed_arith|].
  split; [exact H|reflexivity].
Defined.
