(* ===== verification/Headers.v ===== *)
(** Packet headers: the invariant long and short headers
    ([src/transport/packet/header/packet/header.c]), the Initial token
    ([inittoken.c]), the complete long header of Initial and Handshake packets
    ([lhdr/lhdr_build.c], [lhdr/lhdr_parse.c]) and the small classifiers of the
    first byte ([ptype.c], [resbits.c], [coalorder.c], [pad.c]). *)
From S2P Require Import Prelude.
From S2P Require Import Buffers.
From S2P Require Import Varint.
From S2P Require Import PacketNumber.

(** * header.c *)

Definition QUIC_FORM_LONG : Z := 1.
Definition QUIC_FORM_SHORT : Z := 0.
Definition QUIC_LP_INITIAL : Z := 0x0.
Definition QUIC_MAX_CID_LEN : Z := 20.

Record quic_header := mk_header {
  qh_form : Z; qh_long_type : Z; qh_version : Z;
  qh_dcid_len : Z; qh_dcid : list Z; qh_scid_len : Z; qh_scid : list Z }.

(** [for (u8 i = 0; i < len; i++) dst[i] = src[i]], with [src = buf + soff]. *)
Definition copy_cid (dst src : list Z) (soff len : Z) : option (list Z) :=
  copy_loop (Z.to_nat len) dst 0 src soff.

Definition cid_fits (len off n : Z) : bool :=
  (len <=? QUIC_MAX_CID_LEN) && (off +w 1 +w len <=? n).

Definition read_cid (dst : list Z) : rd (Z * list Z) := fun buf n off =>
  if n <=? off then Some (None, off)
  else match load buf off with
       | None => None
       | Some len =>
           if negb (cid_fits len off n) then Some (None, off)
           else match copy_cid dst buf (off + 1) len with
                | None => None
                | Some dst' => Some (Some (len, dst'), off +w (1 + len))
                end
       end.

(** [((u32)b[i] << 24) | ((u32)b[i+1] << 16) | ((u32)b[i+2] << 8) | (u32)b[i+3]]. *)
Definition load_be32 (buf : list Z) (i : Z) : option Z :=
  match load buf i, load buf (i + 1), load buf (i + 2), load buf (i + 3) with
  | Some a, Some b, Some c, Some d =>
      Some (Z.lor (Z.lor (Z.lor (u32 (Z.shiftl a 24)) (u32 (Z.shiftl b 16))) (u32 (Z.shiftl c 8))) d)
  | _, _, _, _ => None
  end.

(** The first byte and the version are read before any length is checked. *)
Definition parse_long (h : quic_header) (buf : list Z) (n : Z) : option (option (quic_header * Z)) :=
  match load buf 0 with
  | None => None
  | Some b0 =>
      match load_be32 buf 1 with
      | None => None
      | Some version =>
          decode_from 5 (d <- read_cid (qh_dcid h) ;;
                         s <- read_cid (qh_scid h) ;;
                         rd_ret (mk_header QUIC_FORM_LONG (Z.land (Z.shiftr b0 4) 0x3) version
                                   (fst d) (snd d) (fst s) (snd s))) buf n
      end
  end.

Definition parse_short (h : quic_header) (buf : list Z) (n dcid_len : Z) : option (option (quic_header * Z)) :=
  if negb (cid_fits dcid_len 0 n) then Some None
  else match copy_cid (qh_dcid h) buf 1 dcid_len with
       | None => None
       | Some dcid =>
           Some (Some (mk_header QUIC_FORM_SHORT (qh_long_type h) (qh_version h) dcid_len dcid 0 (qh_scid h),
                       1 + dcid_len))
       end.

Definition quic_header_parse (h : quic_header) (buf : list Z) (n : Z) : option (option (quic_header * Z)) :=
  if n =? 0 then Some None
  else match load buf 0 with
       | None => None
       | Some b0 => if negb (Z.land b0 0x80 =? 0) then parse_long h buf n
                    else parse_short h buf n (qh_dcid_len h)
       end.

(** A run of single-byte stores [buf[i] = b; buf[i+1] = b'; ...]. *)
Fixpoint store_bytes (buf : list Z) (i : Z) (bs : list Z) : option (list Z) :=
  match bs with
  | [] => Some buf
  | b :: bs' => match store buf i b with
                | None => None
                | Some buf' => store_bytes buf' (i + 1) bs'
                end
  end.

Definition write_cid (cid : list Z) (len : Z) : wr := fun cap '(buf, off) =>
  if cap <? off +w 1 +w len then Some (false, (buf, off))
  else match store buf off len with
       | None => None
       | Some buf1 => match copy_loop (Z.to_nat len) buf1 (off + 1) cid 0 with
                      | None => None
                      | Some buf2 => Some (true, (buf2, off +w (1 + len)))
                      end
       end.

Definition put_long_prefix (h : quic_header) (buf : list Z) (cap : Z) : option (Z * list Z) :=
  if cap <? 5 then Some (0, buf)
  else match store_bytes buf 0
               (u8 (Z.lor 0xC0 (u8 (Z.shiftl (qh_long_type h) 4))) :: quic_put_be32 (qh_version h)) with
       | None => None
       | Some buf' => Some (5, buf')
       end.

(** One round of the loop of [write_cids]: a CID that does not fit resets the
    offset to 0, and the loop goes on. *)
Definition write_cids_round (cid : list Z) (len cap : Z) (st : list Z * Z) : option (list Z * Z) :=
  match write_cid cid len cap st with
  | None => None
  | Some (true, st') => Some st'
  | Some (false, (buf', _)) => Some (buf', 0)
  end.

Definition write_cids (h : quic_header) (cap : Z) (st : list Z * Z) : option (list Z * Z) :=
  match write_cids_round (qh_dcid h) (qh_dcid_len h) cap st with
  | None => None
  | Some st1 => write_cids_round (qh_scid h) (qh_scid_len h) cap st1
  end.

Definition quic_header_build_long (h : quic_header) (buf : list Z) (cap : Z) : option (Z * list Z) :=
  match put_long_prefix h buf cap with
  | None => None
  | Some (off, buf1) =>
      if negb (off =? 0)
      then match write_cids h cap (buf1, off) with
           | None => None
           | Some (buf2, off2) => Some (off2, buf2)
           end
      else Some (off, buf1)
  end.

(** * inittoken.c *)

Definition quic_inittoken_put (token : list Z) (len : Z) (buf : list Z) (cap : Z) : option (Z * list Z) :=
  encode_to (quic_varint_put len ;;; quic_put_bytes token len) buf cap.

Definition take_tlen : rd Z := fun buf n off =>
  match quic_varint_take buf n off with
  | Some (Some tlen, off') => Some (if tlen <=? n -w off' then Some tlen else None, off')
  | r => r
  end.

(** The token is the view [buf + off] of [tlen] bytes (empty when [tlen = 0]). *)
Definition quic_inittoken_get (buf : list Z) (n : Z) : option (option (list Z * Z)) :=
  match take_tlen buf n 0 with
  | None => None
  | Some (None, _) => Some None
  | Some (Some tlen, off) => Some (Some (slice buf off tlen, off +w tlen))
  end.

(** * lhdr_build.c *)

Definition quic_lhdr_byte0_pnlen (byte0 pn_len : Z) : Z :=
  u8 (Z.lor (Z.land byte0 0xFC) (Z.land (pn_len - 1) 0x3)).

Definition set_cid (dst src : list Z) (len : Z) : option (list Z) := copy_loop (Z.to_nat len) dst 0 src 0.

Definition cids_ok (dcid_len scid_len : Z) : bool :=
  (dcid_len <=? QUIC_MAX_CID_LEN) && (scid_len <=? QUIC_MAX_CID_LEN).

Definition lhdr_put_prefix (byte0 version : Z) (dcid : list Z) (dcid_len : Z) (scid : list Z)
  (scid_len pn_len : Z) (out : list Z) (cap : Z) : option (Z * list Z) :=
  if negb (cids_ok dcid_len scid_len) then Some (0, out)
  else match set_cid (repeat 0 20) dcid dcid_len, set_cid (repeat 0 20) scid scid_len with
       | Some d, Some s =>
           match quic_header_build_long (mk_header 0 0 version dcid_len d scid_len s) out cap with
           | None => None
           | Some (w, out1) =>
               if negb (w =? 5 + 1 + dcid_len + 1 + scid_len) then Some (0, out1)
               else match store out1 0 (quic_lhdr_byte0_pnlen byte0 pn_len) with
                    | None => None
                    | Some out2 => Some (w, out2)
                    end
           end
       | _, _ => None
       end.

Definition put_token (is_initial : Z) (token : list Z) (token_len : Z) : wr := fun cap st =>
  if is_initial =? 0 then Some (true, st)
  else emit_at (quic_inittoken_put token token_len) cap st.

(** The packet number, behind the check that it fits. *)
Definition put_trunc_pn (pn pn_len : Z) : wr := fun cap '(out, off) =>
  if cap <? off +w pn_len then Some (false, (out, off))
  else match quic_pnum_encode out off pn pn_len with
       | None => None
       | Some (w, out') => Some (true, (out', off +w w))
       end.

(** The third component is [*length_off_out]. *)
Definition put_len_pn (payload_len pn pn_len cap : Z) (st : list Z * Z) : option (bool * (list Z * Z) * Z) :=
  match (quic_varint_put (pn_len +w payload_len +w 16) ;;; put_trunc_pn pn pn_len) cap st with
  | None => None
  | Some (b, st') => Some (b, st', snd st)
  end.

Definition put_body (is_initial : Z) (token : list Z) (token_len payload_len pn pn_len cap : Z)
  (st : list Z * Z) : option (bool * (list Z * Z) * option Z) :=
  match put_token is_initial token token_len cap st with
  | None => None
  | Some (false, st') => Some (false, st', None)
  | Some (true, st') =>
      match put_len_pn payload_len pn pn_len cap st' with
      | None => None
      | Some (b, st'', length_off) => Some (b, st'', Some length_off)
      end
  end.

(** The header length (which is also [*hdr_len_out]) with [*length_off_out], or
    [None] when it returns 0; and the buffer. *)
Definition quic_lhdr_build (byte0 version : Z) (dcid : list Z) (dcid_len : Z) (scid : list Z) (scid_len : Z)
  (is_initial : Z) (token : list Z) (token_len payload_len pn pn_len : Z) (out : list Z) (cap : Z)
  : option (option (Z * option Z) * list Z) :=
  match lhdr_put_prefix byte0 version dcid dcid_len scid scid_len pn_len out cap with
  | None => None
  | Some (off, out1) =>
      if off =? 0 then Some (None, out1)
      else match put_body is_initial token token_len payload_len pn pn_len cap (out1, off) with
           | None => None
           | Some (false, (out2, _), _) => Some (None, out2)
           | Some (true, (out2, off2), length_off) => Some (Some (off2, length_off), out2)
           end
  end.

(** * lhdr_parse.c *)

Definition is_long_header (pkt : list Z) (len : Z) : option bool :=
  if len =? 0 then Some false
  else match load pkt 0 with
       | None => None
       | Some b0 => Some (negb (Z.land b0 0x80 =? 0))
       end.

(** [pkt + 6] and [pkt + 7 + dcid_len], as views of the lengths parsed. *)
Definition locate_cids (pkt : list Z) (h : quic_header) : list Z * list Z :=
  (slice pkt 6 (qh_dcid_len h), slice pkt (7 + qh_dcid_len h) (qh_scid_len h)).

(** The token and its length, and the cursor. *)
Definition read_token (is_initial : Z) : rd (list Z) := fun pkt len off =>
  if is_initial =? 0 then Some (Some [], off)
  else match quic_inittoken_get (drop (Z.to_nat off) pkt) (len -w off) with
       | None => None
       | Some None => Some (None, off)
       | Some (Some (token, used)) =>
           if used =? 0 then Some (None, off) else Some (Some token, off +w used)
       end.

Definition quic_lhdr_parse_prefix (h0 : quic_header) (pkt : list Z) (len : Z)
  : option (option (quic_header * (list Z * list Z) * Z)) :=
  match is_long_header pkt len with
  | None => None
  | Some false => Some None
  | Some true =>
      match quic_header_parse h0 pkt len with
      | None => None
      | Some None => Some None
      | Some (Some (h, off)) =>
          if off =? 0 then Some None else Some (Some (h, locate_cids pkt h, off))
      end
  end.

Definition read_token_and_length (is_initial : Z) : rd (list Z * Z) :=
  token <- read_token is_initial ;; length <- quic_varint_take ;; rd_ret (token, length).

Definition quic_lhdr_pn_len (byte0_unprotected : Z) : Z := Z.land byte0_unprotected 0x03 + 1.

(** The out-parameters of [quic_lhdr_parse]. *)
Record lhdr_view := mk_view {
  lv_dcid : list Z; lv_dcid_len : Z; lv_scid : list Z; lv_scid_len : Z;
  lv_token : list Z; lv_length : Z; lv_pn_off : Z }.

(** [h0] is what the uninitialised local header holds. *)
Definition quic_lhdr_parse (h0 : quic_header) (is_initial : Z) (pkt : list Z) (len : Z)
  : option (option lhdr_view) :=
  match quic_lhdr_parse_prefix h0 pkt len with
  | None => None
  | Some None => Some None
  | Some (Some (h, (dcid, scid), off)) =>
      match read_token_and_length is_initial pkt len off with
      | None => None
      | Some (None, _) => Some None
      | Some (Some (token, length), off') =>
          Some (Some (mk_view dcid (qh_dcid_len h) scid (qh_scid_len h) token length off'))
      end
  end.

(** * ptype.c, resbits.c, coalorder.c, pad.c *)

Definition QUIC_PT_NONE : Z := -1.
Definition quic_packet_is_long (byte0 : Z) : bool := negb (Z.land byte0 0x80 =? 0).
Definition quic_packet_long_type (byte0 : Z) : Z :=
  if negb (quic_packet_is_long byte0) then QUIC_PT_NONE else Z.land (Z.shiftr byte0 4) 0x3.

Definition QUIC_RESBITS_LONG : Z := 0x0c.
Definition QUIC_RESBITS_SHORT : Z := 0x18.
Definition quic_resbits_ok (byte0 is_long : Z) : bool :=
  let mask := if is_long =? 0 then QUIC_RESBITS_SHORT else QUIC_RESBITS_LONG in
  Z.land byte0 mask =? 0.

Definition quic_coalesce_short_must_be_last (byte0 is_last : Z) : bool :=
  if negb (Z.land byte0 0x80 =? 0) then true else negb (is_last =? 0).

Definition QUIC_MIN_INITIAL_DATAGRAM : Z := 1200.
Definition quic_pad_needed (cur_len : Z) : Z :=
  if QUIC_MIN_INITIAL_DATAGRAM <=? cur_len then 0 else QUIC_MIN_INITIAL_DATAGRAM - cur_len.

(** * Writers *)

Lemma store_bytes_spec bs : forall buf i,
  0 <= i -> i + zlen bs <= zlen buf -> store_bytes buf i bs = Some (splice buf i bs).
Proof.
  induction bs as [|b bs IH]; intros buf i Hi Hl; [simpl; by rewrite splice_nil|].
  rewrite zlen_cons in Hl. pose proof (zlen_nonneg bs). cbn [store_bytes]. rewrite store_ok by lia.
  rewrite IH by (unfold zlen in *; rewrite ?length_insert; lia). f_equal. apply splice_cons; lia.
Qed.

(** Stores past the end of the array fail. *)
Lemma store_bytes_none bs : forall buf i, 0 <= i -> bs <> [] -> zlen buf < i + zlen bs -> store_bytes buf i bs = None.
Proof.
  induction bs as [|b bs IH]; intros buf i Hi Hne Hl; [done|]. rewrite zlen_cons in Hl. cbn [store_bytes].
  destruct (Z.lt_ge_cases i (zlen buf)) as [Hlt|Hge]; [|unfold store; by zdecide].
  rewrite store_ok by lia. apply IH; [lia| |rewrite zlen_insert; lia]. intros ->. change (zlen (@nil Z)) with 0 in Hl. lia.
Qed.

(** A run of stores right after what has been written. *)
Lemma store_bytes_front (l w bs : list Z) : zlen w <= zlen l -> store_bytes (splice l 0 w) (zlen w) bs =
  if zlen w + zlen bs <=? zlen l then Some (splice l 0 (w ++ bs)) else None.
Proof.
  intros Hw. pose proof (zlen_nonneg w). destruct (Z.leb_spec (zlen w + zlen bs) (zlen l)).
  - rewrite store_bytes_spec by (rewrite ?zlen_splice by lia; lia). f_equal.
    pose proof (splice_splice l w bs 0) as S1. rewrite Z.add_0_l in S1. apply S1; lia.
  - apply store_bytes_none; [lia| |rewrite zlen_splice by lia; lia]. intros ->. change (zlen (@nil Z)) with 0 in *. lia.
Qed.

(** The first bytes of a 32-bit value, most significant first. *)
Lemma put_be32_bytes v : quic_put_be32 v = be_bytes 4 v.
Proof.
  unfold quic_put_be32, u8. cbn [be_bytes app]. rewrite !Z.shiftr_div_pow2 by lia.
  change (2 ^ 24) with (256 * 256 * 256). change (2 ^ 16) with (256 * 256). change (2 ^ 8) with 256.
  by rewrite !Z.div_div by lia.
Qed.

Lemma put_be16_bytes v : quic_put_be16 v = be_bytes 2 v.
Proof. unfold quic_put_be16, u8. cbn [be_bytes app]. by rewrite shiftr_8. Qed.

Lemma load_be32_spec pre post v : is_u32 v ->
  load_be32 (pre ++ be_bytes 4 v ++ post) (zlen pre) = Some v.
Proof.
  intros Hv. unfold load_be32, is_u32 in *. rewrite !(load_app_r pre) by lia.
  replace (zlen pre - zlen pre) with 0 by lia. replace (zlen pre + 1 - zlen pre) with 1 by lia.
  replace (zlen pre + 2 - zlen pre) with 2 by lia. replace (zlen pre + 3 - zlen pre) with 3 by lia.
  pose proof (Z.mod_pos_bound (v / 256 / 256 / 256) 256 ltac:(lia)).
  pose proof (Z.mod_pos_bound (v / 256 / 256) 256 ltac:(lia)).
  pose proof (Z.mod_pos_bound (v / 256) 256 ltac:(lia)). pose proof (Z.mod_pos_bound v 256 ltac:(lia)).
  set (a := (v / 256 / 256 / 256) mod 256) in *. set (b := (v / 256 / 256) mod 256) in *.
  set (c := (v / 256) mod 256) in *. set (d := v mod 256) in *.
  change (be_bytes 4 v) with [a; b; c; d].
  change (load ([a; b; c; d] ++ post) 0) with (Some a). change (load ([a; b; c; d] ++ post) 1) with (Some b).
  change (load ([a; b; c; d] ++ post) 2) with (Some c). change (load ([a; b; c; d] ++ post) 3) with (Some d).
  cbv iota beta. f_equal.
  rewrite !Z.shiftl_mul_pow2 by lia. unfold u32. rewrite !Z.mod_small by lia.
  rewrite (lor_low a (b * 2 ^ 16) 24) by lia.
  replace (a * 2 ^ 24 + b * 2 ^ 16) with ((a * 256 + b) * 2 ^ 16) by lia. rewrite lor_low by lia.
  replace ((a * 256 + b) * 2 ^ 16 + c * 2 ^ 8) with ((a * 65536 + b * 256 + c) * 2 ^ 8) by lia.
  rewrite lor_low by lia.
  assert (Ha : a = v / 256 / 256 / 256).
  { unfold a. rewrite !Z.div_div by lia. apply Z.mod_small.
    split; [apply Z.div_pos; lia|apply Z.div_lt_upper_bound; lia]. }
  pose proof (Z.div_mod v 256 ltac:(lia)). pose proof (Z.div_mod (v / 256) 256 ltac:(lia)).
  pose proof (Z.div_mod (v / 256 / 256) 256 ltac:(lia)). unfold a, b, c, d in *. lia.
Qed.

Lemma writes_write_cid cid len :
  0 <= len < 256 -> len <= zlen cid -> Writes (write_cid cid len) (len :: take (Z.to_nat len) cid).
Proof.
  intros Hl Hc cap buf off Hoff Hcap Hobj. unfold write_cid.
  assert (Ht : zlen (take (Z.to_nat len) cid) = len) by (unfold zlen in *; rewrite length_take; lia).
  rewrite zlen_cons, Ht. unwrap. destruct (Z.leb_spec (off + (1 + len)) cap); zdecide.
  - rewrite store_ok by lia. rewrite copy_loop_len by (unfold zlen in *; rewrite ?length_insert; lia).
    rewrite Z2Nat.id by lia. unfold slice. change (Z.to_nat 0) with 0%nat. rewrite drop_0.
    rewrite splice_cons by lia. unwrap. done.
  - exists buf, off. split_and!; done || lia.
Qed.

(** A header the builder may be given: the arrays are the struct's 20 bytes. *)
Definition header_wf (h : quic_header) : Prop :=
  0 <= qh_long_type h < 4 /\ is_u32 (qh_version h) /\
  0 <= qh_dcid_len h <= QUIC_MAX_CID_LEN /\ zlen (qh_dcid h) = QUIC_MAX_CID_LEN /\
  0 <= qh_scid_len h <= QUIC_MAX_CID_LEN /\ zlen (qh_scid h) = QUIC_MAX_CID_LEN.

Definition header_dcid (h : quic_header) : list Z := take (Z.to_nat (qh_dcid_len h)) (qh_dcid h).
Definition header_scid (h : quic_header) : list Z := take (Z.to_nat (qh_scid_len h)) (qh_scid h).

(** The wire image of the invariant long header after its first byte. *)
Definition cid_bytes (cid : list Z) : list Z := zlen cid :: cid.
Definition long_bytes (b0 version : Z) (dcid scid : list Z) : list Z :=
  (b0 :: be_bytes 4 version) ++ cid_bytes dcid ++ cid_bytes scid.

Lemma zlen_cid_bytes cid : zlen (cid_bytes cid) = 1 + zlen cid.
Proof. apply zlen_cons. Qed.

Lemma zlen_long_bytes b0 version dcid scid :
  zlen (long_bytes b0 version dcid scid) = 7 + zlen dcid + zlen scid.
Proof.
  unfold long_bytes, cid_bytes. rewrite !zlen_app, !zlen_cons, zlen_be_bytes. lia.
Qed.

Lemma header_cid_len h : header_wf h ->
  zlen (header_dcid h) = qh_dcid_len h /\ zlen (header_scid h) = qh_scid_len h.
Proof.
  intros (_ & _ & ? & ? & ? & ?). unfold header_dcid, header_scid, zlen in *.
  rewrite !length_take. lia.
Qed.

Definition header_byte0 (h : quic_header) : Z := Z.lor 0xC0 (Z.shiftl (qh_long_type h) 4).

Lemma header_byte0_range h : 0 <= qh_long_type h < 4 ->
  u8 (Z.lor 0xC0 (u8 (Z.shiftl (qh_long_type h) 4))) = header_byte0 h /\
  Z.land (header_byte0 h) 0x80 <> 0 /\ Z.land (Z.shiftr (header_byte0 h) 4) 0x3 = qh_long_type h.
Proof.
  intros Ht. unfold header_byte0.
  assert (Hc : qh_long_type h = 0 \/ qh_long_type h = 1 \/ qh_long_type h = 2 \/ qh_long_type h = 3) by lia.
  destruct Hc as [->|[->|[->| ->]]]; done.
Qed.

Lemma writes_header_cids h : header_wf h ->
  Writes (write_cid (qh_dcid h) (qh_dcid_len h)) (cid_bytes (header_dcid h)) /\
  Writes (write_cid (qh_scid h) (qh_scid_len h)) (cid_bytes (header_scid h)).
Proof.
  intros Hh. destruct (header_cid_len h Hh) as [E1 E2]. unfold cid_bytes. rewrite E1, E2.
  destruct Hh as (_ & _ & ? & ? & ? & ?). unfold QUIC_MAX_CID_LEN in *.
  split; apply writes_write_cid; lia.
Qed.

(** What the builder does on every capacity: the packet header when it fits;
    0 when only the second CID does not, or nothing does; but when the first CID
    does not fit and the second one fits at the start of the buffer, it writes the
    second CID there and reports its length. *)
Lemma header_build_spec h buf cap :
  header_wf h -> 0 <= cap <= zlen buf -> cap < max_object ->
  let total := 7 + qh_dcid_len h + qh_scid_len h in
  if total <=? cap
  then quic_header_build_long h buf cap =
       Some (total, splice buf 0 (long_bytes (header_byte0 h) (qh_version h) (header_dcid h) (header_scid h)))
  else exists w buf', quic_header_build_long h buf cap = Some (w, buf') /\ zlen buf' = zlen buf /\
         drop (Z.to_nat cap) buf' = drop (Z.to_nat cap) buf /\
         w = (if (5 <=? cap) && (cap <? 6 + qh_dcid_len h) && (1 + qh_scid_len h <=? cap)
              then 1 + qh_scid_len h else 0).
Proof.
  intros Hh Hcap Hobj total. destruct (header_cid_len h Hh) as [E1 E2].
  destruct (writes_header_cids h Hh) as [W1 W2].
  pose proof Hh as (Ht & Hv & H1 & H2 & H3 & H4). unfold QUIC_MAX_CID_LEN in *.
  destruct (header_byte0_range h Ht) as (B & _ & _).
  unfold quic_header_build_long, put_long_prefix. rewrite B, put_be32_bytes.
  set (pfx := header_byte0 h :: be_bytes 4 (qh_version h)).
  assert (Hp : zlen pfx = 5) by (unfold pfx; rewrite zlen_cons, zlen_be_bytes; done).
  destruct (Z.ltb_spec cap 5).
  { zdecide. exists 0, buf. by zdecide. }
  rewrite store_bytes_spec by lia. unfold write_cids, write_cids_round. simpl negb. cbv iota.
  assert (Hp2 : zlen (splice buf 0 pfx) = zlen buf) by (apply zlen_splice; lia).
  specialize (W1 cap (splice buf 0 pfx) 5 ltac:(lia) ltac:(lia) Hobj).
  rewrite zlen_cid_bytes, E1 in W1.
  destruct (Z.leb_spec (5 + (1 + qh_dcid_len h)) cap).
  - rewrite W1.
    set (b1 := splice (splice buf 0 pfx) 5 _).
    assert (Hb1 : zlen b1 = zlen buf).
    { unfold b1. rewrite zlen_splice; [done|lia|]. rewrite zlen_cid_bytes. lia. }
    specialize (W2 cap b1 (5 + (1 + qh_dcid_len h)) ltac:(lia) ltac:(lia) Hobj).
    rewrite zlen_cid_bytes, E2 in W2. unfold total.
    destruct (Z.leb_spec (5 + (1 + qh_dcid_len h) + (1 + qh_scid_len h)) cap); zdecide.
    + rewrite W2. f_equal. f_equal; [lia|].
      unfold b1, long_bytes. fold pfx. rewrite <- Hp at 1.
      replace (5 + (1 + qh_dcid_len h)) with (0 + zlen (pfx ++ cid_bytes (header_dcid h)))
        by (rewrite zlen_app, zlen_cid_bytes; lia).
      change (zlen pfx) with (0 + zlen pfx).
      rewrite splice_splice by (rewrite ?zlen_cid_bytes; lia).
      rewrite splice_splice by (rewrite ?zlen_app, ?zlen_cid_bytes; lia).
      by rewrite <- app_assoc.
    + destruct W2 as (buf' & off' & -> & Hl & _ & Hd). exists 0, buf'.
      split_and!; try done; [lia|]. rewrite Hd. unfold b1.
      rewrite !drop_splice; try lia; [done|]. rewrite zlen_cid_bytes. lia.
  - destruct W1 as (buf' & off' & -> & Hl & _ & Hd).
    specialize (W2 cap buf' 0 ltac:(lia) ltac:(lia) Hobj).
    rewrite zlen_cid_bytes, E2, Z.add_0_l in W2. unfold total.
    assert (Hd2 : drop (Z.to_nat cap) buf' = drop (Z.to_nat cap) buf) by (rewrite Hd, drop_splice; done || lia).
    destruct (Z.leb_spec (1 + qh_scid_len h) cap); zdecide; cbn [andb].
    + rewrite W2. eexists _, _. split; [done|].
      rewrite zlen_splice, drop_splice by (rewrite ?zlen_cid_bytes; lia). split_and!; done || lia.
    + destruct W2 as (buf2 & off2 & -> & Hl2 & _ & Hd3). eexists _, _. split; [done|].
      split_and!; try done; [lia|congruence].
Qed.

(** * Readers *)

Lemma reads_read_cid dst cid :
  zlen dst = QUIC_MAX_CID_LEN -> zlen cid <= QUIC_MAX_CID_LEN ->
  Reads (read_cid dst) (cid_bytes cid) (zlen cid, splice dst 0 cid).
Proof.
  intros Hd Hc pre post n H1 H2 H3. unfold read_cid, cid_fits, copy_cid, QUIC_MAX_CID_LEN in *.
  pose proof (zlen_nonneg pre); pose proof (zlen_nonneg cid). rewrite zlen_cid_bytes. unfold cid_bytes.
  simpl app. destruct (Z.leb_spec n (zlen pre)); zdecide; [by exists (zlen pre)|].
  rewrite load_head by done. unwrap.
  destruct (Z.leb_spec (zlen pre + 1 + zlen cid) n); zdecide; cbn [andb negb]; [|by exists (zlen pre)].
  replace (pre ++ zlen cid :: cid ++ post) with ((pre ++ [zlen cid]) ++ cid ++ post) by by rewrite <- app_assoc.
  replace (zlen pre + 1) with (zlen (pre ++ [zlen cid])) by (rewrite zlen_app; done).
  replace (Z.to_nat (zlen cid)) with (length cid) by (unfold zlen; lia).
  rewrite copy_loop_spec by lia. unwrap. done.
Qed.

Lemma saferd_read_cid dst :
  zlen dst = QUIC_MAX_CID_LEN ->
  SafeRd (read_cid dst) (fun r => 0 <= fst r <= QUIC_MAX_CID_LEN /\ zlen (snd r) = QUIC_MAX_CID_LEN).
Proof.
  intros Hd buf n off Hb Hoff Hn Hobj. unfold read_cid, cid_fits, copy_cid, QUIC_MAX_CID_LEN in *.
  destruct (Z.leb_spec n off); [exists None, off; split_and!; done || lia|].
  destruct (load_is_Some buf off) as [b Hl]; [lia|]. rewrite Hl.
  pose proof (load_u8 _ _ _ Hb Hl) as Hb8.
  unfold is_u8 in Hb8. unwrap.
  destruct (Z.leb_spec b 20); cbn [andb negb]; [|exists None, off; split_and!; done || lia].
  destruct (Z.leb_spec (off + 1 + b) n); cbn [negb]; [|exists None, off; split_and!; done || lia].
  rewrite copy_loop_len by lia. unwrap. eexists _, _. split; [done|]. split; [lia|].
  intros ? [= <-]. cbn [fst snd]. split; [lia|]. rewrite zlen_splice; [lia|lia|].
  rewrite zlen_slice; lia.
Qed.

Lemma zlen_be4 v post : zlen (be_bytes 4 v ++ post) = 4 + zlen post.
Proof. rewrite zlen_app, zlen_be_bytes. lia. Qed.

(** Parsing the wire image of a long header. *)
Lemma header_parse_long h0 b0 version dcid scid post n :
  is_u8 b0 -> Z.land b0 0x80 <> 0 -> is_u32 version ->
  zlen dcid <= QUIC_MAX_CID_LEN -> zlen scid <= QUIC_MAX_CID_LEN ->
  zlen (qh_dcid h0) = QUIC_MAX_CID_LEN -> zlen (qh_scid h0) = QUIC_MAX_CID_LEN ->
  5 <= n <= zlen (long_bytes b0 version dcid scid ++ post) -> n < max_object ->
  quic_header_parse h0 (long_bytes b0 version dcid scid ++ post) n =
  Some (if 7 + zlen dcid + zlen scid <=? n
        then Some (mk_header QUIC_FORM_LONG (Z.land (Z.shiftr b0 4) 0x3) version
               (zlen dcid) (splice (qh_dcid h0) 0 dcid) (zlen scid) (splice (qh_scid h0) 0 scid),
             7 + zlen dcid + zlen scid)
        else None).
Proof.
  intros Hb Hf Hv Hd Hs Hd0 Hs0 Hn Ho. unfold quic_header_parse. zdecide.
  unfold long_bytes in *. rewrite <- app_assoc in *.
  change (load ((b0 :: be_bytes 4 version) ++ _) 0) with (Some b0). cbv iota beta.
  destruct (Z.eqb_spec (Z.land b0 128) 0); [done|]. cbn [negb]. unfold parse_long.
  change (load ((b0 :: be_bytes 4 version) ++ _) 0) with (Some b0). cbv iota beta.
  change ((b0 :: be_bytes 4 version) ++ ?x) with ([b0] ++ be_bytes 4 version ++ x) at 1.
  change 1 with (zlen [b0]) at 1. rewrite load_be32_spec by done.
  assert (H5 : zlen (b0 :: be_bytes 4 version) = 5) by (rewrite zlen_cons, zlen_be_bytes; done).
  set (pfx := b0 :: be_bytes 4 version) in *. rewrite <- H5 at 1.
  rewrite (decode_from_reads _ pfx (cid_bytes dcid ++ cid_bytes scid) post
    (mk_header QUIC_FORM_LONG (Z.land (Z.shiftr b0 4) 3) version
      (zlen dcid) (splice (qh_dcid h0) 0 dcid) (zlen scid) (splice (qh_scid h0) 0 scid)));
    [|eapply reads_bind; [by apply reads_read_cid|]; eapply reads_bind_last; [by apply reads_read_cid|apply reads_ret]
     |lia|lia|done].
  rewrite !zlen_app, !zlen_cid_bytes, H5.
  replace (5 + (1 + zlen dcid + (1 + zlen scid))) with (7 + zlen dcid + zlen scid) by lia. done.
Qed.

(** The bytes a parsed long header takes. *)
Lemma read_cid_used dst buf n off len d off' :
  Forall is_u8 buf -> 0 <= off < max_object ->
  read_cid dst buf n off = Some (Some (len, d), off') -> off' = off + 1 + len.
Proof.
  intros Hb Hoff. unfold read_cid, cid_fits. repeat case_match; try done. intros. simplify_eq.
  pose proof (load_u8 _ _ len Hb ltac:(eassumption)) as Hl.
  unfold is_u8 in Hl. unwrap. lia.
Qed.

Lemma parse_long_used h0 buf n h used :
  Forall is_u8 buf -> parse_long h0 buf n = Some (Some (h, used)) ->
  used = 7 + qh_dcid_len h + qh_scid_len h /\ 0 <= qh_dcid_len h <= 20.
Proof.
  intros Hb. unfold parse_long, decode_from, rd_bind.
  destruct (load buf 0) as [b0|]; [|done]. destruct (load_be32 buf 1) as [v|]; [|done].
  destruct (read_cid (qh_dcid h0) buf n 5) as [[[[dl d]|] o1]|] eqn:E1; try done.
  destruct (read_cid (qh_scid h0) buf n o1) as [[[[sl s]|] o2]|] eqn:E2; try done.
  intros H; unfold rd_ret in H; simplify_eq. cbn.
  assert (0 <= dl <= 20).
  { revert E1. unfold read_cid, cid_fits, QUIC_MAX_CID_LEN. repeat case_match; try done. intros. simplify_eq.
    pose proof (load_u8 _ _ dl Hb ltac:(eassumption)) as Hl.
    unfold is_u8 in Hl. zbool. lia. }
  apply read_cid_used in E1; [|done|unfold max_object; lia]. subst o1.
  apply read_cid_used in E2; [|done|unfold max_object; lia]. lia.
Qed.

Lemma header_parse_form h0 pkt n b : n <> 0 -> load pkt 0 = Some b -> Z.land b 0x80 <> 0 ->
  quic_header_parse h0 pkt n = parse_long h0 pkt n.
Proof.
  intros Hn Hb Hf. unfold quic_header_parse. zdecide. rewrite Hb. by destruct (Z.eqb_spec (Z.land b 128) 0).
Qed.

Lemma parse_long_overread h0 pkt n : zlen pkt < 5 -> parse_long h0 pkt n = None.
Proof.
  intros Hx. unfold parse_long, load_be32. replace (load pkt (1 + 3)) with (@None Z); [by repeat case_match|].
  unfold load. symmetry. apply lookup_ge_None. unfold zlen in Hx. simpl. lia.
Qed.

(** On bytes that hold at least the first five, whatever they are, the parser
    stays inside the packet. *)
Lemma header_parse_safe h0 buf n :
  Forall is_u8 buf -> 0 <= n <= zlen buf -> n < max_object ->
  (5 <= n \/ 5 <= zlen buf) -> 0 <= qh_dcid_len h0 ->
  zlen (qh_dcid h0) = QUIC_MAX_CID_LEN -> zlen (qh_scid h0) = QUIC_MAX_CID_LEN ->
  exists r, quic_header_parse h0 buf n = Some r /\
    forall h used, r = Some (h, used) -> 1 <= used <= n /\
      0 <= qh_dcid_len h <= QUIC_MAX_CID_LEN /\ 0 <= qh_scid_len h <= QUIC_MAX_CID_LEN.
Proof.
  intros Hb Hn Ho H5 Hl0 Hd0 Hs0. unfold quic_header_parse. destruct (Z.eqb_spec n 0); [by eexists|].
  destruct (load_is_Some buf 0) as [b0 E0]; [lia|]. rewrite E0.
  destruct (negb _).
  - unfold parse_long. rewrite E0. unfold load_be32.
    destruct (load_is_Some buf 1) as [b1 ->]; [lia|]. destruct (load_is_Some buf (1 + 1)) as [b2 ->]; [lia|].
    destruct (load_is_Some buf (1 + 2)) as [b3 ->]; [lia|]. destruct (load_is_Some buf (1 + 3)) as [b4 ->]; [lia|].
    destruct (Z.lt_ge_cases n 5) as [Hs|Hs].
    { unfold decode_from, rd_bind, read_cid at 1. zdecide. eexists. by split. }
    match goal with |- context [decode_from 5 ?p buf n] => set (act := p) end.
    assert (HS : SafeRd act (fun h => 0 <= qh_dcid_len h <= QUIC_MAX_CID_LEN /\ 0 <= qh_scid_len h <= QUIC_MAX_CID_LEN)).
    { eapply saferd_bind; [by apply saferd_read_cid|intros d Hd].
      eapply saferd_bind; [by apply saferd_read_cid|intros s Hs']. apply saferd_ret. cbn beta in Hd, Hs'. cbn [qh_dcid_len qh_scid_len]. lia. }
    destruct (decode_from_safe act _ 5 buf n HS Hb ltac:(lia) ltac:(lia) Ho) as (r & -> & Hr).
    exists r. split; [done|]. intros h used E. destruct (Hr h used E). lia.
  - unfold parse_short, cid_fits, copy_cid, QUIC_MAX_CID_LEN in *.
    destruct (Z.leb_spec (qh_dcid_len h0) 20); cbn [andb negb]; [|by eexists].
    unwrap. destruct (Z.leb_spec (0 + 1 + qh_dcid_len h0) n); cbn [negb]; [|by eexists].
    rewrite copy_loop_len by lia. eexists. split; [done|]. intros h used [= <- <-].
    cbn [qh_dcid_len qh_scid_len]. lia.
Qed.

(** * The complete long header *)

Definition token_field (is_initial : Z) (token : list Z) : list Z :=
  if is_initial =? 0 then [] else varint_bytes (zlen token) ++ token.

Lemma writes_inittoken token : is_varint (zlen token) ->
  Writes (quic_varint_put (zlen token) ;;; quic_put_bytes token (zlen token)) (varint_bytes (zlen token) ++ token).
Proof.
  intros Ht. apply writes_seq; [by apply writes_varint|]. apply writes_put_bytes_all.
  unfold is_varint, QUIC_VARINT_MAX, max_object in *. lia.
Qed.

Lemma writes_put_token is_initial token : is_varint (zlen token) ->
  Writes (put_token is_initial token (zlen token)) (token_field is_initial token).
Proof.
  intros Ht. unfold put_token, token_field. destruct (Z.eqb_spec is_initial 0).
  { exact writes_ok_nil. }
  apply writes_emit_at; [by apply encodes_to, writes_inittoken|].
  rewrite zlen_app, zlen_varint_bytes by done. pose proof (varint_len_pos _ Ht).
  pose proof (zlen_nonneg token). lia.
Qed.

Lemma writes_put_trunc_pn pn pn_len : 0 <= pn_len < 256 ->
  Writes (put_trunc_pn pn pn_len) (be_bytes (Z.to_nat pn_len) pn).
Proof.
  intros Hl cap buf off Hoff Hcap Hobj. unfold put_trunc_pn, quic_pnum_encode. rewrite zlen_be_bytes, Z2Nat.id by lia.
  unwrap. destruct (Z.leb_spec (off + pn_len) cap); zdecide.
  - rewrite put_be_loop_spec by lia. unwrap. done.
  - exists buf, off. split_and!; done || lia.
Qed.

(** Everything after the connection IDs. *)
Definition len_pn_bytes (payload_len pn pn_len : Z) : list Z :=
  varint_bytes (pn_len + payload_len + 16) ++ be_bytes (Z.to_nat pn_len) pn.

Lemma writes_len_pn payload_len pn pn_len :
  0 <= pn_len < 256 -> 0 <= payload_len -> is_varint (pn_len + payload_len + 16) ->
  Writes (quic_varint_put (pn_len +w payload_len +w 16) ;;; put_trunc_pn pn pn_len) (len_pn_bytes payload_len pn pn_len).
Proof.
  intros H1 H2 H3. pose proof H3 as H4. unfold is_varint, QUIC_VARINT_MAX in H4. unwrap.
  apply writes_seq; [by apply writes_varint|by apply writes_put_trunc_pn].
Qed.

Definition lhdr_bytes (byte0 version : Z) (dcid scid : list Z) (is_initial : Z) (token : list Z)
  (payload_len pn pn_len : Z) : list Z :=
  long_bytes (quic_lhdr_byte0_pnlen byte0 pn_len) version dcid scid ++
  token_field is_initial token ++ len_pn_bytes payload_len pn pn_len.

(** The values [quic_lhdr_build] is called with. *)
Definition lhdr_args_ok (version : Z) (dcid scid token : list Z) (payload_len pn_len : Z) : Prop :=
  is_u32 version /\ zlen dcid <= QUIC_MAX_CID_LEN /\ zlen scid <= QUIC_MAX_CID_LEN /\
  is_varint (zlen token) /\ 1 <= pn_len <= 4 /\ 0 <= payload_len /\ is_varint (pn_len + payload_len + 16).

Lemma set_cid_ok dst cid : zlen dst = QUIC_MAX_CID_LEN -> zlen cid <= QUIC_MAX_CID_LEN ->
  set_cid dst cid (zlen cid) = Some (splice dst 0 cid).
Proof.
  intros Hd Hc. unfold set_cid. replace (Z.to_nat (zlen cid)) with (length cid) by (unfold zlen; lia).
  pose proof (copy_loop_spec cid dst 0 [] [] ltac:(lia) ltac:(lia)) as H. simpl app in H.
  rewrite app_nil_r in H. exact H.
Qed.

Lemma store_first (buf bs : list Z) b b' :
  1 + zlen bs <= zlen buf -> store (splice buf 0 (b :: bs)) 0 b' = Some (splice buf 0 (b' :: bs)).
Proof. intros H. rewrite store_ok; [done|]. rewrite zlen_splice by (rewrite ?zlen_cons; lia). pose proof (zlen_nonneg bs). lia. Qed.

Lemma lhdr_prefix_spec byte0 version dcid scid pn_len out cap :
  is_u32 version -> zlen dcid <= QUIC_MAX_CID_LEN -> zlen scid <= QUIC_MAX_CID_LEN ->
  0 <= cap <= zlen out -> cap < max_object ->
  let total := 7 + zlen dcid + zlen scid in
  if total <=? cap
  then lhdr_put_prefix byte0 version dcid (zlen dcid) scid (zlen scid) pn_len out cap =
       Some (total, splice out 0 (long_bytes (quic_lhdr_byte0_pnlen byte0 pn_len) version dcid scid))
  else exists out', lhdr_put_prefix byte0 version dcid (zlen dcid) scid (zlen scid) pn_len out cap = Some (0, out') /\
         zlen out' = zlen out /\ drop (Z.to_nat cap) out' = drop (Z.to_nat cap) out.
Proof.
  intros Hv Hd Hs Hcap Hobj total. unfold lhdr_put_prefix, cids_ok. zdecide. cbn [andb negb].
  rewrite !set_cid_ok by done.
  set (h := mk_header 0 0 version (zlen dcid) (splice (repeat 0 20) 0 dcid) (zlen scid) (splice (repeat 0 20) 0 scid)).
  pose proof (zlen_nonneg dcid). pose proof (zlen_nonneg scid).
  assert (Hh : header_wf h).
  { unfold header_wf, h, QUIC_MAX_CID_LEN in *. cbn [qh_long_type qh_version qh_dcid_len qh_dcid qh_scid_len qh_scid].
    rewrite !zlen_splice by (change (zlen (repeat 0 20)) with 20; lia). split_and!; done || lia. }
  pose proof (header_build_spec h out cap Hh Hcap Hobj) as Hb. cbv zeta in Hb.
  change (qh_dcid_len h) with (zlen dcid) in Hb. change (qh_scid_len h) with (zlen scid) in Hb.
  unfold total. destruct (Z.leb_spec (7 + zlen dcid + zlen scid) cap).
  - rewrite Hb. zdecide. cbn [negb]. unfold header_dcid, header_scid.
    cbn [qh_dcid_len qh_dcid qh_scid_len qh_scid qh_version h]. rewrite !take_splice_front.
    unfold long_bytes. rewrite <- !app_comm_cons, store_first; [done|].
    rewrite !zlen_app, !zlen_cid_bytes, zlen_be_bytes. lia.
  - destruct Hb as (w & out' & -> & Hl & Hdr & Hw). exists out'.
    replace (w =? 5 + 1 + zlen dcid + 1 + zlen scid) with false; [done|].
    symmetry. apply Z.eqb_neq. destruct (_ && _); lia.
Qed.

Lemma put_body_spec is_initial token payload_len pn pn_len cap buf off :
  is_varint (zlen token) -> 1 <= pn_len <= 4 -> 0 <= payload_len -> is_varint (pn_len + payload_len + 16) ->
  0 <= off <= cap -> cap <= zlen buf -> cap < max_object ->
  let body := token_field is_initial token ++ len_pn_bytes payload_len pn pn_len in
  if off + zlen body <=? cap
  then put_body is_initial token (zlen token) payload_len pn pn_len cap (buf, off) =
       Some (true, (splice buf off body, off + zlen body), Some (off + zlen (token_field is_initial token)))
  else exists buf' off' lo, put_body is_initial token (zlen token) payload_len pn pn_len cap (buf, off) =
         Some (false, (buf', off'), lo) /\ zlen buf' = zlen buf /\
         drop (Z.to_nat cap) buf' = drop (Z.to_nat cap) buf.
Proof.
  intros Ht Hp Hpl Hv Hoff Hcap Hobj. cbv zeta. rewrite zlen_app. unfold put_body, put_len_pn.
  pose proof (writes_put_token is_initial token Ht cap buf off Hoff Hcap Hobj) as W1.
  set (tf := token_field is_initial token) in *. set (lp := len_pn_bytes payload_len pn pn_len).
  pose proof (zlen_nonneg tf). pose proof (zlen_nonneg lp).
  destruct (Z.leb_spec (off + zlen tf) cap).
  - rewrite W1. pose proof (writes_len_pn payload_len pn pn_len ltac:(lia) Hpl Hv cap (splice buf off tf) (off + zlen tf)
      ltac:(lia) ltac:(rewrite zlen_splice; lia) Hobj) as W2. fold lp in W2.
    destruct (Z.leb_spec (off + zlen tf + zlen lp) cap); zdecide.
    + rewrite W2, splice_splice by lia. by rewrite Z.add_assoc.
    + destruct W2 as (buf' & off' & -> & Hl & _ & Hd). eexists _, _, _. split; [done|].
      rewrite Hl, Hd, zlen_splice, drop_splice by lia. done.
  - zdecide. destruct W1 as (buf' & off' & -> & Hl & _ & Hd). by eexists _, _, _.
Qed.

Lemma lhdr_build_spec byte0 version dcid scid is_initial token payload_len pn pn_len out cap :
  lhdr_args_ok version dcid scid token payload_len pn_len -> 0 <= cap <= zlen out -> cap < max_object ->
  let bytes := lhdr_bytes byte0 version dcid scid is_initial token payload_len pn pn_len in
  let length_off := 7 + zlen dcid + zlen scid + zlen (token_field is_initial token) in
  if zlen bytes <=? cap
  then quic_lhdr_build byte0 version dcid (zlen dcid) scid (zlen scid) is_initial token (zlen token)
         payload_len pn pn_len out cap = Some (Some (zlen bytes, Some length_off), splice out 0 bytes)
  else exists out', quic_lhdr_build byte0 version dcid (zlen dcid) scid (zlen scid) is_initial token (zlen token)
         payload_len pn pn_len out cap = Some (None, out') /\ zlen out' = zlen out /\
         drop (Z.to_nat cap) out' = drop (Z.to_nat cap) out.
Proof.
  intros (Hv & Hd & Hs & Ht & Hp & Hpl & Hlen) Hcap Hobj. cbv zeta. unfold quic_lhdr_build, lhdr_bytes.
  rewrite zlen_app, zlen_long_bytes.
  pose proof (lhdr_prefix_spec byte0 version dcid scid pn_len out cap Hv Hd Hs Hcap Hobj) as P. cbv zeta in P.
  set (body := token_field is_initial token ++ len_pn_bytes payload_len pn pn_len).
  pose proof (zlen_nonneg dcid). pose proof (zlen_nonneg scid). pose proof (zlen_nonneg body).
  destruct (Z.leb_spec (7 + zlen dcid + zlen scid) cap).
  - rewrite P. set (pfx := long_bytes _ version dcid scid).
    assert (Hpfx : zlen pfx = 7 + zlen dcid + zlen scid) by apply zlen_long_bytes.
    zdecide. pose proof (put_body_spec is_initial token payload_len pn pn_len cap (splice out 0 pfx)
      (7 + zlen dcid + zlen scid) Ht Hp Hpl Hlen ltac:(lia) ltac:(rewrite zlen_splice; lia) Hobj) as B.
    cbv zeta in B. fold body in B.
    destruct (Z.leb_spec (7 + zlen dcid + zlen scid + zlen body) cap); zdecide.
    + rewrite B. do 2 f_equal. rewrite <- Hpfx. apply (splice_splice out pfx body 0); lia.
    + destruct B as (buf' & off' & lo & -> & Hl & Hdr). exists buf'. split; [done|].
      rewrite Hl, Hdr, zlen_splice, drop_splice by lia. done.
  - zdecide. destruct P as (out' & -> & Hl & Hdr). by exists out'.
Qed.

(** ** Parsing it *)

(** Setting the length bits keeps the header form bit. *)
Lemma byte0_pnlen_long byte0 pn_len : is_u8 byte0 -> Z.land byte0 0x80 <> 0 ->
  is_u8 (quic_lhdr_byte0_pnlen byte0 pn_len) /\ Z.land (quic_lhdr_byte0_pnlen byte0 pn_len) 0x80 <> 0.
Proof.
  intros Hb Hf. unfold quic_lhdr_byte0_pnlen. split; [apply u8_range|].
  unfold u8. change 256 with (2 ^ 8). rewrite <- Z.land_ones by lia. intros H0. apply Hf.
  rewrite <- H0. apply Z.bits_inj'. intros i Hi. rewrite !Z.land_spec, Z.lor_spec, !Z.land_spec.
  destruct (Z.eq_dec i 7) as [->|Hne]; [simpl; by rewrite !andb_true_r, andb_false_r, orb_false_r|].
  assert (E : Z.testbit 128 i = false); [|by rewrite E, !andb_false_r].
  change 128 with (2 ^ 7). apply Z.pow2_bits_false. lia.
Qed.

Lemma reads_read_token is_initial token : is_varint (zlen token) ->
  Reads (read_token is_initial) (token_field is_initial token) (if is_initial =? 0 then [] else token).
Proof.
  intros Ht. unfold read_token, token_field. destruct (is_initial =? 0).
  { exact (reads_ret []). }
  intros pre post n H1 H2 H3. pose proof (zlen_nonneg pre). pose proof (zlen_nonneg token). unwrap.
  replace (Z.to_nat (zlen pre)) with (length pre) by (unfold zlen; lia). rewrite drop_app_length.
  unfold quic_inittoken_get, take_tlen. rewrite <- !app_assoc in *.
  pose proof (zlen_varint_bytes _ Ht) as Hvl. pose proof (varint_len_pos _ Ht) as Hvp.
  pose proof (reads_varint (zlen token) [] (token ++ post) (n - zlen pre)) as R.
  rewrite app_nil_l, zlen_nil, Z.add_0_l in R. rewrite !zlen_app in *.
  specialize (R ltac:(lia) ltac:(lia) ltac:(lia)). set (vb := varint_bytes (zlen token)) in *.
  destruct (Z.leb_spec (zlen vb) (n - zlen pre)).
  - rewrite R. unwrap. destruct (Z.leb_spec (zlen token) (n - zlen pre - zlen vb)); zdecide.
    + unwrap. zdecide. rewrite slice_app by done. unwrap. done.
    + by eexists.
  - zdecide. destruct R as [o ->]. by eexists.
Qed.

Lemma reads_token_and_length is_initial token length : is_varint (zlen token) -> is_varint length ->
  Reads (read_token_and_length is_initial) (token_field is_initial token ++ varint_bytes length)
    (if is_initial =? 0 then [] else token, length).
Proof.
  intros Ht Hl. unfold read_token_and_length. eapply reads_bind; [by apply reads_read_token|].
  eapply reads_bind_last; [by apply reads_varint|]. apply reads_ret.
Qed.

Lemma slice_app_r {A} (l r : list A) i k : zlen l <= i -> slice (l ++ r) i k = slice r (i - zlen l) k.
Proof.
  intros Hi. unfold slice, zlen in *. rewrite drop_app_ge by lia. do 2 f_equal. lia.
Qed.

Lemma slice_prefix {A} (bs r : list A) k : k = zlen bs -> slice (bs ++ r) 0 k = bs.
Proof. intros ->. apply (slice_app [] bs r 0 (zlen bs)); done. Qed.

Lemma locate_cids_spec b0 version dcid scid rest h :
  qh_dcid_len h = zlen dcid -> qh_scid_len h = zlen scid ->
  locate_cids (long_bytes b0 version dcid scid ++ rest) h = (dcid, scid).
Proof.
  intros E1 E2. unfold locate_cids, long_bytes, cid_bytes. rewrite E1, E2. pose proof (zlen_nonneg dcid).
  f_equal.
  - rewrite <- !app_assoc, slice_app_r; rewrite zlen_cons, zlen_be_bytes; [|lia].
    change (slice (dcid ++ (zlen scid :: scid) ++ rest) 0 (zlen dcid) = dcid). by apply slice_prefix.
  - rewrite <- !app_assoc, slice_app_r; rewrite zlen_cons, zlen_be_bytes; [|lia].
    rewrite slice_app_r; rewrite zlen_cons; [|lia].
    change ((zlen scid :: scid) ++ rest) with ([zlen scid] ++ scid ++ rest).
    apply slice_app; [change (zlen [zlen scid]) with 1; lia|done].
Qed.

(** The first byte announces the packet number length. *)
Lemma pn_len_byte0 byte0 pn_len : 1 <= pn_len <= 4 ->
  quic_lhdr_pn_len (quic_lhdr_byte0_pnlen byte0 pn_len) = pn_len.
Proof.
  intros Hp. unfold quic_lhdr_pn_len, quic_lhdr_byte0_pnlen, u8. change 256 with (2 ^ 8).
  rewrite <- Z.land_ones by lia.
  replace (Z.land (Z.land (Z.lor (Z.land byte0 252) (Z.land (pn_len - 1) 3)) (Z.ones 8)) 3) with (Z.land (pn_len - 1) 3).
  - change 3 with (Z.ones 2). rewrite Z.land_ones, Z.mod_small by lia. lia.
  - rewrite <- Z.land_assoc. change (Z.land (Z.ones 8) 3) with 3.
    rewrite Z.land_lor_distr_l, <- !Z.land_assoc. change (Z.land 252 3) with 0. change (Z.land 3 3) with 3.
    by rewrite Z.land_0_r.
Qed.

(** Parsing a long header up to the packet number, whatever follows. *)
Lemma lhdr_parse_front h0 b0 version dcid scid is_initial token length post n :
  is_u32 version -> zlen dcid <= QUIC_MAX_CID_LEN -> zlen scid <= QUIC_MAX_CID_LEN -> is_varint (zlen token) -> is_varint length ->
  is_u8 b0 -> Z.land b0 0x80 <> 0 -> zlen (qh_dcid h0) = QUIC_MAX_CID_LEN -> zlen (qh_scid h0) = QUIC_MAX_CID_LEN ->
  let front := long_bytes b0 version dcid scid ++ token_field is_initial token ++ varint_bytes length in
  5 <= n <= zlen (front ++ post) -> n < max_object ->
  quic_lhdr_parse h0 is_initial (front ++ post) n =
  Some (if zlen front <=? n
        then Some (mk_view dcid (zlen dcid) scid (zlen scid) (if is_initial =? 0 then [] else token) length (zlen front))
        else None).
Proof.
  intros Hv Hd Hs Ht Hlen Hb Hf Hd0 Hs0. cbv zeta. set (pfx := long_bytes b0 version dcid scid).
  set (tl := token_field is_initial token ++ varint_bytes length). rewrite <- app_assoc, (zlen_app pfx tl).
  intros Hn Ho. assert (Hpfx : zlen pfx = 7 + zlen dcid + zlen scid) by apply zlen_long_bytes.
  unfold quic_lhdr_parse, quic_lhdr_parse_prefix, is_long_header. zdecide.
  change (load (pfx ++ tl ++ post) 0) with (Some b0). cbv iota beta.
  destruct (Z.eqb_spec (Z.land b0 128) 0); [done|]. cbn [negb].
  unfold pfx at 1. rewrite header_parse_long; try done. fold pfx. rewrite <- Hpfx.
  pose proof (zlen_nonneg tl). pose proof (zlen_nonneg dcid). pose proof (zlen_nonneg scid).
  destruct (Z.leb_spec (zlen pfx) n); [|zdecide; done]. zdecide.
  unfold pfx at 1. rewrite locate_cids_spec by done.
  pose proof (reads_token_and_length is_initial token length Ht Hlen pfx post n ltac:(lia) ltac:(apply Hn) Ho) as R. fold tl in R.
  destruct (Z.leb_spec (zlen pfx + zlen tl) n); [by rewrite R|]. by destruct R as [o ->].
Qed.

(** Parsing what the builder wrote, at any cut from five bytes on. *)
Lemma lhdr_parse_spec h0 byte0 version dcid scid is_initial token payload_len pn pn_len post n :
  lhdr_args_ok version dcid scid token payload_len pn_len -> is_u8 byte0 -> Z.land byte0 0x80 <> 0 ->
  zlen (qh_dcid h0) = QUIC_MAX_CID_LEN -> zlen (qh_scid h0) = QUIC_MAX_CID_LEN ->
  let bytes := lhdr_bytes byte0 version dcid scid is_initial token payload_len pn pn_len in
  let pn_off := zlen bytes - pn_len in
  5 <= n <= zlen (bytes ++ post) -> n < max_object ->
  quic_lhdr_parse h0 is_initial (bytes ++ post) n =
  Some (if pn_off <=? n
        then Some (mk_view dcid (zlen dcid) scid (zlen scid) (if is_initial =? 0 then [] else token)
                     (pn_len + payload_len + 16) pn_off)
        else None).
Proof.
  intros (Hv & Hd & Hs & Ht & Hp & Hpl & Hlen) Hb Hf Hd0 Hs0 bytes pn_off.
  destruct (byte0_pnlen_long byte0 pn_len Hb Hf) as [Hb' Hf'].
  set (front := long_bytes (quic_lhdr_byte0_pnlen byte0 pn_len) version dcid scid ++ token_field is_initial token ++
    varint_bytes (pn_len + payload_len + 16)).
  assert (Hfr : bytes = front ++ be_bytes (Z.to_nat pn_len) pn)
    by (unfold bytes, front, lhdr_bytes, len_pn_bytes; by rewrite <- !app_assoc).
  assert (Hoff : pn_off = zlen front) by (unfold pn_off; rewrite Hfr, zlen_app, zlen_be_bytes; lia).
  rewrite Hoff, Hfr, <- app_assoc. intros Hn Ho. by apply lhdr_parse_front.
Qed.

(** * Properties *)

(** A long header built for an Initial or Handshake packet is parsed back: the
    connection IDs, the token (empty for Handshake), the Length field (packet
    number, payload and 16-byte tag) and the offset of the packet number are those
    given to the builder; the header length is that offset plus the packet number
    length, which the first byte announces; the packet number is recovered from the
    bytes there by a receiver whose window contains it; a header that does not fit
    leaves the bytes from the capacity on alone; and a header cut before the packet
    number is refused. *)
Theorem lhdr_roundtrip (h0 : quic_header) (byte0 version is_initial payload_len pn pn_len cap n largest : Z)
  (dcid scid token out : list Z)
  (Hargs : lhdr_args_ok version dcid scid token payload_len pn_len)
  (Hb : is_u8 byte0) (Hf : Z.land byte0 0x80 <> 0)
  (Hd0 : zlen (qh_dcid h0) = QUIC_MAX_CID_LEN) (Hs0 : zlen (qh_scid h0) = QUIC_MAX_CID_LEN)
  (Hcap : 0 <= cap <= zlen out) (Hobj : zlen out < max_object) (Hn : 5 <= n <= zlen out)
  (Hpn : 0 <= pn < 2 ^ 62) (Hl : -1 <= largest < 2 ^ 62)
  (Hw : largest + 1 - 2 ^ (8 * pn_len - 1) < pn <= largest + 1 + 2 ^ (8 * pn_len - 1)) :
  exists hdr_len pn_off, hdr_len = pn_off + pn_len /\
  (cap < hdr_len -> exists out', quic_lhdr_build byte0 version dcid (zlen dcid) scid (zlen scid) is_initial token
     (zlen token) payload_len pn pn_len out cap = Some (None, out') /\
     drop (Z.to_nat cap) out' = drop (Z.to_nat cap) out) /\
  (hdr_len <= cap -> exists out' length_off,
     quic_lhdr_build byte0 version dcid (zlen dcid) scid (zlen scid) is_initial token
       (zlen token) payload_len pn pn_len out cap = Some (Some (hdr_len, Some length_off), out') /\
     quic_lhdr_parse h0 is_initial out' n =
       Some (if pn_off <=? n
             then Some (mk_view dcid (zlen dcid) scid (zlen scid) (if is_initial =? 0 then [] else token)
                          (pn_len + payload_len + 16) pn_off)
             else None) /\
     option_map quic_lhdr_pn_len (load out' 0) = Some pn_len /\
     quic_pnum_decode (drop (Z.to_nat pn_off) out') pn_len (u64 largest) = Some pn).
Proof.
  set (bytes := lhdr_bytes byte0 version dcid scid is_initial token payload_len pn pn_len).
  exists (zlen bytes), (zlen bytes - pn_len). split; [lia|].
  pose proof (lhdr_build_spec byte0 version dcid scid is_initial token payload_len pn pn_len out cap Hargs
    Hcap ltac:(lia)) as B. cbv zeta in B. fold bytes in B.
  split; intros Hc; revert B; zdecide; intros B.
  { destruct B as (out' & H1 & _ & H2). by exists out'. }
  eexists _, _. split; [exact B|].
  destruct (splice_at out bytes 0) as (pre & old & post & Ho & Hp & Hold & ->); [lia|lia|].
  destruct pre as [|? ?]; [|unfold zlen in Hp; simpl in Hp; lia]. rewrite !app_nil_l in *.
  assert (Hz : zlen (bytes ++ post) = zlen out) by (rewrite Ho, !zlen_app; lia).
  pose proof Hargs as (_ & _ & _ & _ & Hpl & _).
  split_and!.
  - apply (lhdr_parse_spec h0 byte0 version dcid scid is_initial token payload_len pn pn_len post n Hargs Hb Hf Hd0 Hs0);
      fold bytes; lia.
  - change (load (bytes ++ post) 0) with (Some (quic_lhdr_byte0_pnlen byte0 pn_len)). cbn [option_map]. f_equal.
    apply pn_len_byte0; done.
  - replace (drop (Z.to_nat (zlen bytes - pn_len)) (bytes ++ post)) with (be_bytes (Z.to_nat pn_len) pn ++ post).
    + rewrite <- (Z2Nat.id pn_len) at 2 by lia. apply pnum_decode_bytes; try lia; rewrite Z2Nat.id by lia; lia.
    + unfold bytes, lhdr_bytes, len_pn_bytes. rewrite !app_assoc, <- (app_assoc _ _ post).
      rewrite drop_app_length'; [done|]. rewrite zlen_app, zlen_be_bytes. unfold zlen. lia.
Qed.

Definition header_blank : quic_header := mk_header 9 9 9 9 (repeat 9 20) 9 (repeat 9 20).

(** Witness: an Initial packet with a token and a two-byte packet number. *)
Lemma lhdr_roundtrip_witness :
  exists out' length_off,
    quic_lhdr_build 0xC3 1 [1; 2; 3; 4; 5; 6; 7; 8] 8 [9; 9] 2 1 [5; 5; 5] 3 100 700 2 (repeat 0 40) 40 =
      Some (Some (25, Some length_off), out') /\
    quic_lhdr_parse header_blank 1 out' 30 =
      Some (Some (mk_view [1; 2; 3; 4; 5; 6; 7; 8] 8 [9; 9] 2 [5; 5; 5] 118 23)) /\
    quic_pnum_decode (drop 23 out') 2 650 = Some 700.
Proof.
  destruct (lhdr_roundtrip header_blank 0xC3 1 1 100 700 2 40 30 650 [1; 2; 3; 4; 5; 6; 7; 8] [9; 9] [5; 5; 5] (repeat 0 40))
    as (hdr_len & pn_off & E & H1 & H2);
    [unfold lhdr_args_ok, is_varint; split_and!; closed_arith|closed_arith|discriminate|closed_arith..|].
  assert (Hh : hdr_len = 25).
  { destruct (Z.lt_ge_cases 40 hdr_len) as [Hc|Hc].
    - destruct (H1 Hc) as (out' & Hx & _). vm_compute in Hx. discriminate Hx.
    - destruct (H2 Hc) as (out' & lo & Hx & _). vm_compute in Hx. by inversion Hx. }
  rewrite Hh in *. destruct H2 as (out' & lo & Hx & Hy & _ & Hz); [closed_arith|].
  assert (Ho : pn_off = 23) by lia. rewrite Ho in *.
  exists out', lo. split; [exact Hx|]. split; [exact Hy|exact Hz].
Defined.

(** The builder of the invariant long header on every capacity.  It writes the
    header and returns its length when it fits.  Otherwise it leaves the bytes
    from the capacity on alone, and returns 0 except in one case: when the
    destination CID does not fit after the five-byte prefix but the source CID
    would fit at the start of the buffer, the source CID overwrites the prefix and
    the builder returns its length instead of 0. *)
Theorem header_build_every_capacity (h : quic_header) (buf : list Z) (cap : Z)
  (Hh : header_wf h) (Hcap : 0 <= cap <= zlen buf) (Hobj : zlen buf < max_object) :
  exists w buf', quic_header_build_long h buf cap = Some (w, buf') /\
    drop (Z.to_nat cap) buf' = drop (Z.to_nat cap) buf /\
    (7 + qh_dcid_len h + qh_scid_len h <= cap -> w = 7 + qh_dcid_len h + qh_scid_len h /\
       buf' = splice buf 0 (long_bytes (header_byte0 h) (qh_version h) (header_dcid h) (header_scid h))) /\
    (cap < 7 + qh_dcid_len h + qh_scid_len h ->
       (w = 1 + qh_scid_len h <-> 5 <= cap < 6 + qh_dcid_len h /\ 1 + qh_scid_len h <= cap) /\
       (w = 0 \/ w = 1 + qh_scid_len h)).
Proof.
  pose proof (header_build_spec h buf cap Hh Hcap ltac:(lia)) as B. cbv zeta in B.
  destruct (header_cid_len h Hh) as [E1 E2]. pose proof Hh as (_ & _ & Hd & _ & Hs & _).
  destruct (Z.leb_spec (7 + qh_dcid_len h + qh_scid_len h) cap).
  - eexists _, _. split; [exact B|]. rewrite drop_splice by (rewrite ?zlen_long_bytes; lia).
    split_and!; [done|done|lia].
  - destruct B as (w & buf' & Hb & _ & Hdr & Hw). exists w, buf'. split_and!; try done; [lia|].
    intros _. destruct (_ && _) eqn:E; zbool; [split; [lia|by right]|].
    split; [|by left]. split; [lia|]. intros [Hx Hy]. revert E. by zdecide.
Qed.

Definition header_long_dcid : quic_header := mk_header 0 0 1 20 (repeat 7 20) 0 (repeat 0 20).

(** Witness: a 20-byte destination CID, an empty source CID and 10 bytes of room:
    the builder returns 1. *)
Lemma header_build_every_capacity_witness :
  exists buf', quic_header_build_long header_long_dcid (repeat 0 10) 10 = Some (1, buf').
Proof.
  destruct (header_build_every_capacity header_long_dcid (repeat 0 10) 10) as (w & buf' & H1 & _ & _ & H2).
  - unfold header_wf. split_and!; closed_arith.
  - closed_arith.
  - closed_arith.
  - destruct H2 as [H2 _]; [closed_arith|]. assert (w = 1) as ->; [|exists buf'; exact H1].
    apply H2. split; closed_arith.
Defined.

(** The long header parser reads the version field before it looks at the
    length: on any packet of one to four bytes whose first byte has the long form,
    [quic_lhdr_parse] reads past the end of the packet.  From five bytes on it
    never does, and then a parsed header lies inside the packet, its connection
    IDs included. *)
Theorem header_parse_bounds (h0 : quic_header) (pkt : list Z)
  (Hb : Forall is_u8 pkt) (Hobj : zlen pkt < max_object)
  (Hd0 : zlen (qh_dcid h0) = QUIC_MAX_CID_LEN) (Hs0 : zlen (qh_scid h0) = QUIC_MAX_CID_LEN)
  (Hl0 : 0 <= qh_dcid_len h0) (b : Z) (Hfirst : load pkt 0 = Some b) (Hf : Z.land b 0x80 <> 0) :
  (quic_header_parse h0 pkt (zlen pkt) = None <-> zlen pkt < 5) /\
  (forall h used, quic_header_parse h0 pkt (zlen pkt) = Some (Some (h, used)) ->
     used = 7 + qh_dcid_len h + qh_scid_len h /\ used <= zlen pkt /\
     qh_dcid_len h <= QUIC_MAX_CID_LEN /\ qh_scid_len h <= QUIC_MAX_CID_LEN).
Proof.
  pose proof (zlen_nonneg pkt). assert (Hne : zlen pkt <> 0).
  { intros E. unfold zlen in E. destruct pkt; [done|simpl in E; lia]. }
  pose proof (header_parse_form h0 pkt (zlen pkt) b Hne Hfirst Hf) as Hform.
  destruct (Z.lt_ge_cases (zlen pkt) 5) as [Hs|Hs].
  - rewrite Hform, parse_long_overread by done. done.
  - destruct (header_parse_safe h0 pkt (zlen pkt) Hb ltac:(lia) Hobj ltac:(lia) Hl0 Hd0 Hs0) as (r & Hr & Hp).
    split; [split; intros Hx; [congruence|lia]|]. intros h used Hx. rewrite Hx in Hr. injection Hr as <-.
    destruct (Hp h used eq_refl) as (Hu & Hdl & Hsl). rewrite Hform in Hx.
    apply parse_long_used in Hx; [|done]. lia.
Qed.

(** Witness: the one-byte packet 0x80. *)
Lemma header_parse_bounds_witness : quic_header_parse header_blank [0x80] 1 = None.
Proof.
  apply (header_parse_bounds header_blank [0x80]) with (b := 0x80);
    [by rewrite !Forall_cons_iff|closed_arith..|reflexivity|discriminate|closed_arith].
Defined.
