(* ===== verification/Packets.v ===== *)
(** Whole packets without encryption: the two builders of the short header
    ([packet/short.c], [shorthdr/shorthdr.c]), Retry and Version Negotiation packets
    ([packet/retry.c], [packet/vneg.c]) and the splitter of coalesced datagrams
    ([packet/coalesce.c]), all under [src/transport/packet/header]. *)
From S2P Require Import Prelude.
From S2P Require Import Buffers.
From S2P Require Import Varint.
From S2P Require Import PacketNumber.
From S2P Require Import Headers.

(** A call whose return value the source ignores. *)
Definition ignore (p : wr) (cap : Z) (st : list Z * Z) : option (list Z * Z) :=
  match p cap st with
  | None => None
  | Some (_, st') => Some st'
  end.

(** * short.c *)

Definition short_ok (cap dcid_len pn_len : Z) : bool :=
  if (pn_len <? 1) || (4 <? pn_len) then false else 1 + dcid_len + pn_len <=? cap.

Definition short_byte0 (spin key_phase pn_len : Z) : Z :=
  u8 (Z.lor (Z.lor (Z.lor 0x40 (u8 (Z.shiftl (Z.land spin 1) 5))) (u8 (Z.shiftl (Z.land key_phase 1) 2)))
        (u8 (pn_len - 1))).

(** [for (i = 0; i < pn_len; i++) buf[off + i] = (u8)(pn >> ((pn_len - 1 - i) * 8))],
    with [k = pn_len - i] rounds left at index [j = off + i]. *)
Fixpoint put_pn_loop (k : nat) (buf : list Z) (j pn : Z) : option (list Z) :=
  match k with
  | O => Some buf
  | S k' => match store buf j (u8 (Z.shiftr pn (Z.of_nat k' * 8))) with
            | None => None
            | Some buf' => put_pn_loop k' buf' (j + 1) pn
            end
  end.

Definition put_pn (pn pn_len : Z) (st : list Z * Z) : option (list Z * Z) :=
  match put_pn_loop (Z.to_nat pn_len) (fst st) (snd st) pn with
  | None => None
  | Some buf' => Some (buf', snd st +w pn_len)
  end.

(** The length (0 for a refusal) and the buffer. *)
Definition quic_short_build (dcid : list Z) (dcid_len spin key_phase pn pn_len : Z) (buf : list Z) (cap : Z)
  : option (Z * list Z) :=
  if negb (short_ok cap dcid_len pn_len) then Some (0, buf)
  else match store buf 0 (short_byte0 spin key_phase pn_len) with
       | None => None
       | Some buf1 =>
           match ignore (quic_put_bytes dcid dcid_len) cap (buf1, 1) with
           | None => None
           | Some st => match put_pn pn pn_len st with
                        | None => None
                        | Some (buf2, off) => Some (off, buf2)
                        end
           end
       end.

(** * shorthdr.c *)

Definition quic_shorthdr_byte0 (spin key_phase pn_len : Z) : Z :=
  u8 (Z.lor (Z.lor (Z.lor 0x40 (Z.shiftl (Z.land spin 1) 5)) (Z.shiftl (Z.land key_phase 1) 2))
        (u8 (pn_len - 1))).

Definition shorthdr_ok (cap dcid_len pn_len : Z) : bool :=
  if (pn_len <? 1) || (4 <? pn_len) then false else 1 + dcid_len + pn_len <=? cap.

Definition shdr_put_pn (pn pn_len : Z) (st : list Z * Z) : option (list Z * Z) :=
  match put_pn_loop (Z.to_nat pn_len) (fst st) (snd st) pn with
  | None => None
  | Some buf' => Some (buf', snd st +w pn_len)
  end.

(** [Some len] when it returns 1 with [*out_len = len]. *)
Definition quic_shorthdr_build (spin key_phase : Z) (dcid : list Z) (dcid_len pn pn_len : Z) (out : list Z) (cap : Z)
  : option (option Z * list Z) :=
  if negb (shorthdr_ok cap dcid_len pn_len) then Some (None, out)
  else match store out 0 (quic_shorthdr_byte0 spin key_phase pn_len) with
       | None => None
       | Some out1 =>
           match ignore (quic_put_bytes dcid dcid_len) cap (out1, 1) with
           | None => None
           | Some st => match shdr_put_pn pn pn_len st with
                        | None => None
                        | Some (out2, off) => Some (Some off, out2)
                        end
           end
       end.

(** * retry.c *)

Definition QUIC_RETRY_TAG_LEN : Z := 16.

Record quic_retry_packet := mk_retry {
  rp_version : Z; rp_dcid_len : Z; rp_dcid : list Z; rp_scid_len : Z; rp_scid : list Z;
  rp_token : list Z; rp_token_len : Z; rp_tag : list Z }.

Definition retry_put_cid (cid : list Z) (len : Z) : wr := fun cap '(buf, off) =>
  if cap <? off +w 1 +w len then Some (false, (buf, off))
  else match store buf off len with
       | None => None
       | Some buf' => quic_put_bytes cid len cap (buf', off +w 1)
       end.

Definition retry_fits (cap dcid_len scid_len token_len : Z) : bool :=
  (5 + 1 + dcid_len + 1 + scid_len) +w token_len +w QUIC_RETRY_TAG_LEN <=? cap.

(** The tail of a builder: several calls whose results are ignored. *)
Fixpoint ignore_all (ps : list wr) (cap : Z) (st : list Z * Z) : option (list Z * Z) :=
  match ps with
  | [] => Some st
  | p :: ps' => match ignore p cap st with
                | None => None
                | Some st' => ignore_all ps' cap st'
                end
  end.

Definition quic_retry_build (version : Z) (dcid : list Z) (dcid_len : Z) (scid : list Z) (scid_len : Z)
  (token : list Z) (token_len : Z) (tag : list Z) (buf : list Z) (cap : Z) : option (Z * list Z) :=
  if negb (retry_fits cap dcid_len scid_len token_len) then Some (0, buf)
  else match store_bytes buf 0 (0xF0 :: quic_put_be32 version) with
       | None => None
       | Some buf1 =>
           match ignore_all [retry_put_cid dcid dcid_len; retry_put_cid scid scid_len;
                             quic_put_bytes token token_len; quic_put_bytes tag QUIC_RETRY_TAG_LEN]
                   cap (buf1, 5) with
           | None => None
           | Some (buf2, off) => Some (off, buf2)
           end
       end.

Definition retry_take_cid (dst : list Z) : rd (Z * list Z) := fun buf n off =>
  if n <=? off then Some (None, off)
  else match load buf off with
       | None => None
       | Some len =>
           if QUIC_MAX_CID_LEN <? len then Some (None, off)
           else match quic_take_bytes dst len buf n (off +w 1) with
                | None => None
                | Some (None, off') => Some (None, off')
                | Some (Some dst', off') => Some (Some (len, dst'), off')
                end
       end.

Definition retry_head_ok (buf : list Z) (n : Z) : option bool :=
  if n <? 5 + 1 + 1 + QUIC_RETRY_TAG_LEN then Some false
  else match load buf 0 with
       | None => None
       | Some b0 => Some (Z.land b0 0xF0 =? 0xF0)
       end.

Definition retry_take_cids (r : quic_retry_packet) : rd (Z * list Z * (Z * list Z)) :=
  d <- retry_take_cid (rp_dcid r) ;; s <- retry_take_cid (rp_scid r) ;; rd_ret (d, s).

(** The token view, its length and the tag. *)
Definition take_token_tag (r : quic_retry_packet) (buf : list Z) (n off : Z)
  : option (option (list Z * Z * list Z)) :=
  let tag_off := n -w QUIC_RETRY_TAG_LEN in
  if tag_off <? off then Some None
  else match quic_take_bytes (rp_tag r) QUIC_RETRY_TAG_LEN buf n tag_off with
       | None => None
       | Some (None, _) => Some None
       | Some (Some tag, _) => Some (Some (slice buf off (tag_off -w off), tag_off -w off, tag))
       end.

Definition retry_parse_after_head (r : quic_retry_packet) (buf : list Z) (n : Z) : option (option quic_retry_packet) :=
  match load_be32 buf 1 with
  | None => None
  | Some version =>
      match retry_take_cids r buf n 5 with
      | None => None
      | Some (None, _) => Some None
      | Some (Some (d, s), off) =>
          match take_token_tag r buf n off with
          | None => None
          | Some None => Some None
          | Some (Some (token, token_len, tag)) =>
              Some (Some (mk_retry version (fst d) (snd d) (fst s) (snd s) token token_len tag))
          end
      end
  end.

(** The packet and the bytes consumed. *)
Definition quic_retry_parse (r : quic_retry_packet) (buf : list Z) (n : Z)
  : option (option (quic_retry_packet * Z)) :=
  match retry_head_ok buf n with
  | None => None
  | Some false => Some None
  | Some true => match retry_parse_after_head r buf n with
                 | None => None
                 | Some None => Some None
                 | Some (Some r') => Some (Some (r', n))
                 end
  end.

(** * vneg.c *)

Record quic_vneg_packet := mk_vneg {
  vp_dcid_len : Z; vp_dcid : list Z; vp_scid_len : Z; vp_scid : list Z;
  vp_versions : list Z; vp_count : Z }.

Definition vneg_put_cid (cid : list Z) (len : Z) : wr := fun cap '(buf, off) =>
  if cap <? off +w 1 +w len then Some (false, (buf, off))
  else match store buf off len with
       | None => None
       | Some buf' => quic_put_bytes cid len cap (buf', off +w 1)
       end.

Definition vneg_fits (cap dcid_len scid_len count : Z) : bool :=
  negb (count =? 0) && ((5 + 1 + dcid_len + 1 + scid_len) +w (count *w 4) <=? cap).

(** [quic_put_be32(buf + off, versions[i]); off += 4] for each version. *)
Fixpoint put_versions (versions : list Z) (count : nat) (st : list Z * Z) : option (list Z * Z) :=
  match count with
  | O => Some st
  | S count' =>
      match versions with
      | [] => None
      | v :: vs => match store_bytes (fst st) (snd st) (quic_put_be32 v) with
                   | None => None
                   | Some buf' => put_versions vs count' (buf', snd st +w 4)
                   end
      end
  end.

Definition quic_vneg_build (dcid : list Z) (dcid_len : Z) (scid : list Z) (scid_len : Z)
  (versions : list Z) (count : Z) (buf : list Z) (cap : Z) : option (Z * list Z) :=
  if negb (vneg_fits cap dcid_len scid_len count) then Some (0, buf)
  else match store_bytes buf 0 (0x80 :: quic_put_be32 0) with
       | None => None
       | Some buf1 =>
           match ignore_all [vneg_put_cid dcid dcid_len; vneg_put_cid scid scid_len] cap (buf1, 5) with
           | None => None
           | Some st => match put_versions versions (Z.to_nat count) st with
                        | None => None
                        | Some (buf2, off) => Some (off, buf2)
                        end
           end
       end.

Definition vneg_take_cid (dst : list Z) : rd (Z * list Z) := fun buf n off =>
  if n <=? off then Some (None, off)
  else match load buf off with
       | None => None
       | Some len =>
           if QUIC_MAX_CID_LEN <? len then Some (None, off)
           else match quic_take_bytes dst len buf n (off +w 1) with
                | None => None
                | Some (None, off') => Some (None, off')
                | Some (Some dst', off') => Some (Some (len, dst'), off')
                end
       end.

Definition version_zero (buf : list Z) : option bool :=
  match load_be32 buf 1 with
  | None => None
  | Some ver => Some (ver =? 0)
  end.

Definition vneg_head_ok (buf : list Z) (n : Z) : option bool :=
  if n <? 7 then Some false
  else match load buf 0 with
       | None => None
       | Some b0 => if Z.land b0 0x80 =? 0 then Some false else version_zero buf
       end.

Definition vneg_take_cids (v : quic_vneg_packet) : rd (Z * list Z * (Z * list Z)) :=
  d <- vneg_take_cid (vp_dcid v) ;; s <- vneg_take_cid (vp_scid v) ;; rd_ret (d, s).

Definition versions_whole (rest : Z) : bool := if rest =? 0 then false else rest mod 4 =? 0.

Definition vneg_parse_after_head (v : quic_vneg_packet) (buf : list Z) (n : Z) : option (option quic_vneg_packet) :=
  match vneg_take_cids v buf n 5 with
  | None => None
  | Some (None, _) => Some None
  | Some (Some (d, s), off) =>
      let rest := n -w off in
      if negb (versions_whole rest) then Some None
      else Some (Some (mk_vneg (fst d) (snd d) (fst s) (snd s) (slice buf off rest) (rest / 4)))
  end.

Definition quic_vneg_parse (v : quic_vneg_packet) (buf : list Z) (n : Z) : option (option (quic_vneg_packet * Z)) :=
  match vneg_head_ok buf n with
  | None => None
  | Some false => Some None
  | Some true => match vneg_parse_after_head v buf n with
                 | None => None
                 | Some None => Some None
                 | Some (Some v') => Some (Some (v', n))
                 end
  end.

Definition quic_vneg_respond (recv_dcid : list Z) (recv_dcid_len : Z) (recv_scid : list Z) (recv_scid_len : Z)
  (versions : list Z) (count : Z) (buf : list Z) (cap : Z) : option (Z * list Z) :=
  quic_vneg_build recv_scid recv_scid_len recv_dcid recv_dcid_len versions count buf cap.

(** * coalesce.c *)

(** The iterator: the datagram, its length and the cursor. *)
Record quic_coalesce_iter := mk_citer { ci_dgram : list Z; ci_total : Z; ci_off : Z }.

(** A packet within the datagram, as the bytes it views. *)
Record quic_coalesced := mk_coalesced { co_data : list Z; co_len : Z }.

Definition quic_coalesce_begin (dgram : list Z) (total : Z) : quic_coalesce_iter := mk_citer dgram total 0.

Definition skip_cid : rd unit := fun buf n p =>
  if n <=? p then Some (None, p)
  else match load buf p with
       | None => None
       | Some b => let p' := p +w (1 + b) in
                   Some (if p' <=? n then Some tt else None, p')
       end.

Definition has_token (byte0 : Z) : bool := Z.land (Z.shiftr byte0 4) 0x3 =? 0x0.

Definition skip_token : rd unit := fun buf n p =>
  match quic_varint_take buf n p with
  | None => None
  | Some (None, p') => Some (None, p')
  | Some (Some tlen, p') => let p'' := p' +w tlen in
                            Some (if p'' <=? n then Some tt else None, p'')
  end.

Definition skip_long_prefix : rd unit := fun buf n p =>
  let p' := p +w 5 in
  if n <? p' then Some (None, p') else (_ <- skip_cid ;; skip_cid) buf n p'.

Definition skip_to_length (off : Z) : rd unit := fun buf n p =>
  match skip_long_prefix buf n p with
  | None => None
  | Some (None, p') => Some (None, p')
  | Some (Some _, p') =>
      match load buf off with
      | None => None
      | Some b0 => if negb (has_token b0) then Some (Some tt, p') else skip_token buf n p'
      end
  end.

Definition packet_bound (p off length n : Z) : Z :=
  if n <? p +w length then 0 else p -w off +w length.

Definition long_packet_len (buf : list Z) (n off : Z) : option Z :=
  match skip_to_length off buf n off with
  | None => None
  | Some (None, _) => Some 0
  | Some (Some _, p) =>
      match quic_varint_take buf n p with
      | None => None
      | Some (None, _) => Some 0
      | Some (Some length, p') => Some (packet_bound p' off length n)
      end
  end.

Definition coalesce_emit (it : quic_coalesce_iter) (len : Z) : option (quic_coalesced * quic_coalesce_iter) :=
  if len =? 0 then None
  else Some (mk_coalesced (slice (ci_dgram it) (ci_off it) len) len,
             mk_citer (ci_dgram it) (ci_total it) (ci_off it +w len)).

Definition quic_coalesce_next (it : quic_coalesce_iter) : option (option (quic_coalesced * quic_coalesce_iter)) :=
  let rest := ci_total it -w ci_off it in
  if ci_total it <=? ci_off it then Some None
  else match load (ci_dgram it) (ci_off it) with
       | None => None
       | Some b0 =>
           if Z.land b0 0x80 =? 0 then Some (coalesce_emit it rest)
           else match long_packet_len (ci_dgram it) (ci_total it) (ci_off it) with
                | None => None
                | Some len => Some (coalesce_emit it len)
                end
       end.

(** The clients' loop [while (quic_coalesce_next(&it, &pkt)) ...]: the packets
    yielded and where the iterator stopped; [None] stands for an access outside
    the datagram or for exhausted fuel. *)
Fixpoint coalesce_all (fuel : nat) (it : quic_coalesce_iter) : option (list quic_coalesced * quic_coalesce_iter) :=
  match fuel with
  | O => None
  | S fuel' =>
      match quic_coalesce_next it with
      | None => None
      | Some None => Some ([], it)
      | Some (Some (pkt, it')) =>
          match coalesce_all fuel' it' with
          | None => None
          | Some (pkts, last) => Some (pkt :: pkts, last)
          end
      end
  end.

(** * Writers and readers *)

Lemma ignore_all_writes ps bss : Forall2 Writes ps bss -> forall cap buf off,
  0 <= off -> off + zlen (concat bss) <= cap -> cap <= zlen buf -> cap < max_object ->
  ignore_all ps cap (buf, off) = Some (splice buf off (concat bss), off + zlen (concat bss)).
Proof.
  induction 1 as [|p bs ps bss Hp Hps IH]; intros cap buf off Hoff Hfit Hcap Hobj; cbn [ignore_all concat] in *.
  - by rewrite splice_nil, zlen_nil, Z.add_0_r.
  - rewrite zlen_app in *. pose proof (zlen_nonneg bs). pose proof (zlen_nonneg (concat bss)).
    specialize (Hp cap buf off ltac:(lia) Hcap Hobj). revert Hp. zdecide. unfold ignore. intros ->.
    rewrite IH by (rewrite ?zlen_splice; lia). rewrite splice_splice by lia. by rewrite Z.add_assoc.
Qed.

Lemma writes_retry_put_cid cid : zlen cid < 256 -> Writes (retry_put_cid cid (zlen cid)) (cid_bytes cid).
Proof.
  intros Hl cap buf off Hoff Hcap Hobj. unfold retry_put_cid. rewrite zlen_cid_bytes.
  pose proof (zlen_nonneg cid). unwrap. destruct (Z.leb_spec (off + (1 + zlen cid)) cap); zdecide.
  - rewrite store_ok by lia.
    pose proof (writes_put_bytes_all cid ltac:(unfold max_object; lia) cap (<[Z.to_nat off := zlen cid]> buf) (off + 1)) as W.
    specialize (W ltac:(lia) ltac:(unfold zlen in *; rewrite length_insert; lia) Hobj). revert W. zdecide. intros ->.
    rewrite splice_cons, <- Z.add_assoc by lia. done.
  - exists buf, off. split_and!; done || lia.
Qed.

Lemma writes_vneg_put_cid cid : zlen cid < 256 -> Writes (vneg_put_cid cid (zlen cid)) (cid_bytes cid).
Proof. exact (writes_retry_put_cid cid). Qed.

Lemma reads_retry_take_cid dst cid :
  zlen dst = QUIC_MAX_CID_LEN -> zlen cid <= QUIC_MAX_CID_LEN ->
  Reads (retry_take_cid dst) (cid_bytes cid) (zlen cid, splice dst 0 cid).
Proof.
  intros Hd Hc pre post n H1 H2 H3. unfold retry_take_cid, QUIC_MAX_CID_LEN in *.
  pose proof (zlen_nonneg pre); pose proof (zlen_nonneg cid). rewrite zlen_cid_bytes. unfold cid_bytes.
  rewrite <- !app_comm_cons. destruct (Z.leb_spec n (zlen pre)); zdecide; [by exists (zlen pre)|].
  rewrite load_head by done. zdecide. unwrap.
  replace (pre ++ zlen cid :: cid ++ post) with ((pre ++ [zlen cid]) ++ cid ++ post) by by rewrite <- app_assoc.
  pose proof (reads_take_bytes dst cid ltac:(lia) ltac:(unfold max_object; lia) (pre ++ [zlen cid]) post n) as R.
  rewrite (zlen_app pre) in R. change (zlen [zlen cid]) with 1 in R.
  specialize (R ltac:(lia)). rewrite !zlen_app in R. change (zlen [zlen cid]) with 1 in R.
  unfold cid_bytes in H2. rewrite !zlen_app, zlen_cons in H2. specialize (R ltac:(lia) H3).
  destruct (Z.leb_spec (zlen pre + 1 + zlen cid) n); zdecide.
  - rewrite R. by rewrite <- Z.add_assoc.
  - destruct R as [o ->]. by exists o.
Qed.

Lemma reads_retry_take_cids r dcid scid :
  zlen (rp_dcid r) = QUIC_MAX_CID_LEN -> zlen (rp_scid r) = QUIC_MAX_CID_LEN ->
  zlen dcid <= QUIC_MAX_CID_LEN -> zlen scid <= QUIC_MAX_CID_LEN ->
  Reads (retry_take_cids r) (cid_bytes dcid ++ cid_bytes scid)
    ((zlen dcid, splice (rp_dcid r) 0 dcid), (zlen scid, splice (rp_scid r) 0 scid)).
Proof.
  intros. eapply reads_bind; [by apply reads_retry_take_cid|].
  eapply reads_bind_last; [by apply reads_retry_take_cid|apply reads_ret].
Qed.

Lemma reads_vneg_take_cids v dcid scid :
  zlen (vp_dcid v) = QUIC_MAX_CID_LEN -> zlen (vp_scid v) = QUIC_MAX_CID_LEN ->
  zlen dcid <= QUIC_MAX_CID_LEN -> zlen scid <= QUIC_MAX_CID_LEN ->
  Reads (vneg_take_cids v) (cid_bytes dcid ++ cid_bytes scid)
    ((zlen dcid, splice (vp_dcid v) 0 dcid), (zlen scid, splice (vp_scid v) 0 scid)).
Proof.
  intros. eapply reads_bind; [by apply (reads_retry_take_cid (vp_dcid v))|].
  eapply reads_bind_last; [by apply (reads_retry_take_cid (vp_scid v))|apply reads_ret].
Qed.

Lemma put_pn_loop_spec k : forall buf j pn, 0 <= j -> j + Z.of_nat k <= zlen buf ->
  put_pn_loop k buf j pn = Some (splice buf j (be_bytes k pn)).
Proof.
  induction k as [|k IH]; intros buf j pn Hj Hl; [simpl; by rewrite splice_nil|].
  cbn [put_pn_loop]. rewrite store_ok by lia.
  rewrite IH by (unfold zlen in *; rewrite ?length_insert; lia). f_equal.
  rewrite be_bytes_cons. unfold u8. rewrite Z.shiftr_div_pow2, (Z.mul_comm _ 8), Z.pow_mul_r by lia.
  apply splice_cons; rewrite ?zlen_be_bytes; lia.
Qed.

(** The two first bytes are the same, and carry their fields. *)
Lemma short_byte0_bits spin key_phase pn_len : 1 <= pn_len <= 4 ->
  let b := short_byte0 spin key_phase pn_len in
  quic_shorthdr_byte0 spin key_phase pn_len = b /\ is_u8 b /\ Z.land b 0x80 = 0 /\
  Z.testbit b 6 = true /\ Z.testbit b 5 = Z.odd spin /\ Z.testbit b 2 = Z.odd key_phase /\
  Z.land b QUIC_RESBITS_SHORT = 0 /\ quic_lhdr_pn_len b = pn_len.
Proof.
  intros Hp. unfold short_byte0, quic_shorthdr_byte0, quic_lhdr_pn_len.
  assert (Hodd : forall x, Z.land x 1 = if Z.odd x then 1 else 0).
  { intros x. change 1 with (Z.ones 1) at 1. rewrite Z.land_ones by lia. apply Zmod_odd. }
  rewrite !Hodd.
  assert (Hc : pn_len = 1 \/ pn_len = 2 \/ pn_len = 3 \/ pn_len = 4) by lia.
  destruct Hc as [->|[->|[->| ->]]], (Z.odd spin), (Z.odd key_phase);
    split_and!; first [reflexivity | split; closed_arith].
Qed.

Definition short_bytes (b0 : Z) (dcid : list Z) (pn pn_len : Z) : list Z :=
  b0 :: dcid ++ be_bytes (Z.to_nat pn_len) pn.

Lemma short_build_tail b0 dcid pn pn_len buf cap :
  1 <= pn_len <= 4 -> zlen dcid < 256 -> 1 + zlen dcid + pn_len <= cap -> cap <= zlen buf -> cap < max_object ->
  exists buf1, store buf 0 b0 = Some buf1 /\
  exists st, ignore (quic_put_bytes dcid (zlen dcid)) cap (buf1, 1) = Some st /\
    put_pn pn pn_len st = Some (splice buf 0 (short_bytes b0 dcid pn pn_len), 1 + zlen dcid + pn_len).
Proof.
  intros Hp Hd Hfit Hcap Hobj. pose proof (zlen_nonneg dcid). eexists. split; [apply store_ok; lia|].
  pose proof (writes_put_bytes_all dcid ltac:(unfold max_object; lia) cap (<[Z.to_nat 0 := b0]> buf) 1 ltac:(lia)
    ltac:(unfold zlen in *; rewrite length_insert; lia) Hobj) as W. revert W. zdecide. intros W.
  eexists. split; [unfold ignore; rewrite W; done|]. unfold put_pn. cbn [fst snd].
  rewrite put_pn_loop_spec by (rewrite ?zlen_splice; unfold zlen in *; rewrite ?length_insert; lia).
  unwrap. do 2 f_equal. unfold short_bytes.
  pose proof (splice_cons buf dcid 0 b0 ltac:(lia) ltac:(lia)) as Hsc. rewrite Z.add_0_l in Hsc. rewrite Hsc.
  change (b0 :: dcid ++ ?x) with ((b0 :: dcid) ++ x). rewrite <- zlen_cons with (x := b0).
  apply (splice_splice buf (b0 :: dcid) _ 0); rewrite ?zlen_be_bytes, ?zlen_cons; lia.
Qed.

Lemma short_build_spec dcid spin key_phase pn pn_len buf cap :
  0 <= zlen dcid < 256 -> 0 <= cap <= zlen buf -> cap < max_object ->
  let b0 := short_byte0 spin key_phase pn_len in
  let total := 1 + zlen dcid + pn_len in
  let r := if (1 <=? pn_len) && (pn_len <=? 4) && (total <=? cap)
           then (total, splice buf 0 (short_bytes b0 dcid pn pn_len)) else (0, buf) in
  quic_short_build dcid (zlen dcid) spin key_phase pn pn_len buf cap = Some r /\
  quic_shorthdr_build spin key_phase dcid (zlen dcid) pn pn_len buf cap =
    Some (if fst r =? 0 then None else Some (fst r), snd r).
Proof.
  intros Hd Hcap Hobj. cbv zeta. unfold quic_short_build, quic_shorthdr_build, short_ok, shorthdr_ok.
  destruct (Z.ltb_spec pn_len 1); [zdecide; cbn; by zdecide|].
  destruct (Z.ltb_spec 4 pn_len); [zdecide; cbn; by zdecide|]. zdecide. cbn [andb orb].
  destruct (short_byte0_bits spin key_phase pn_len ltac:(lia)) as (-> & _).
  destruct (Z.leb_spec (1 + zlen dcid + pn_len) cap); cbn [negb fst snd]; [|by zdecide].
  destruct (short_build_tail (short_byte0 spin key_phase pn_len) dcid pn pn_len buf cap) as (b1 & -> & st & -> & E);
    try done; [lia|lia|].
  change (shdr_put_pn pn pn_len st) with (put_pn pn pn_len st). rewrite E. zdecide. done.
Qed.

(** ** Retry and Version Negotiation images *)

Definition retry_bytes (version : Z) (dcid scid token tag : list Z) : list Z :=
  long_bytes 0xF0 version dcid scid ++ token ++ tag.
Definition vneg_bytes (dcid scid : list Z) (versions : list Z) : list Z :=
  long_bytes 0x80 0 dcid scid ++ concat (map (be_bytes 4) versions).

Lemma long_prefix_len (b0 v : Z) : zlen (b0 :: be_bytes 4 v) = 5.
Proof. by rewrite zlen_cons, zlen_be_bytes. Qed.

Lemma retry_build_spec version dcid scid token tag buf cap :
  zlen dcid <= 255 -> zlen scid <= 255 -> zlen token < max_object -> zlen tag = QUIC_RETRY_TAG_LEN ->
  0 <= cap <= zlen buf -> cap < max_object ->
  let bytes := retry_bytes version dcid scid token tag in
  quic_retry_build version dcid (zlen dcid) scid (zlen scid) token (zlen token) tag buf cap =
  Some (if zlen bytes <=? cap then (zlen bytes, splice buf 0 bytes) else (0, buf)).
Proof.
  intros Hd Hs Ht Htag Hcap Hobj. cbv zeta. unfold quic_retry_build, retry_fits, QUIC_RETRY_TAG_LEN in *.
  pose proof (zlen_nonneg dcid). pose proof (zlen_nonneg scid). pose proof (zlen_nonneg token).
  assert (Hl : zlen (retry_bytes version dcid scid token tag) = 5 + 1 + zlen dcid + 1 + zlen scid + zlen token + 16)
    by (unfold retry_bytes; rewrite !zlen_app, zlen_long_bytes; lia).
  unwrap. rewrite Hl.
  destruct (Z.leb_spec (5 + 1 + zlen dcid + 1 + zlen scid + zlen token + 16) cap); cbn [negb]; [|done].
  rewrite put_be32_bytes. pose proof (long_prefix_len 0xF0 version) as H5.
  set (pfx := 0xF0 :: be_bytes 4 version) in *. rewrite store_bytes_spec by lia.
  rewrite (ignore_all_writes _ [cid_bytes dcid; cid_bytes scid; token; tag]).
  - cbn [concat]. rewrite app_nil_r.
    assert (E : pfx ++ cid_bytes dcid ++ cid_bytes scid ++ token ++ tag = retry_bytes version dcid scid token tag)
      by (unfold retry_bytes, long_bytes; by rewrite <- !app_assoc).
    do 2 f_equal; [rewrite !zlen_app, !zlen_cid_bytes; lia|].
    rewrite <- E, <- H5. apply (splice_splice buf pfx _ 0); [lia|].
    rewrite H5, !zlen_app, !zlen_cid_bytes. lia.
  - rewrite <- Htag. do 4 (constructor; [first [apply writes_retry_put_cid; lia | apply writes_put_bytes_all; unfold max_object in *; lia]|]).
    constructor.
  - lia.
  - cbn [concat]. rewrite app_nil_r, !zlen_app, !zlen_cid_bytes. lia.
  - rewrite zlen_splice; lia.
  - done.
Qed.

Lemma put_versions_spec versions : forall buf off,
  0 <= off -> off + zlen (concat (map (be_bytes 4) versions)) <= zlen buf -> zlen buf < max_object ->
  put_versions versions (length versions) (buf, off) =
  Some (splice buf off (concat (map (be_bytes 4) versions)), off + zlen (concat (map (be_bytes 4) versions))).
Proof.
  induction versions as [|v vs IH]; intros buf off Hoff Hfit Hobj; cbn [put_versions length map concat] in *.
  - by rewrite splice_nil, zlen_nil, Z.add_0_r.
  - rewrite zlen_app, zlen_be_bytes in *. pose proof (zlen_nonneg (concat (map (be_bytes 4) vs))).
    cbn [fst snd]. rewrite put_be32_bytes, store_bytes_spec by (rewrite ?zlen_be_bytes; lia). unwrap.
    rewrite IH by (rewrite ?zlen_splice; rewrite ?zlen_be_bytes; lia).
    pose proof (splice_splice buf (be_bytes 4 v) (concat (map (be_bytes 4) vs)) off Hoff) as S.
    rewrite zlen_be_bytes in S. change (Z.of_nat 4) with 4 in *. rewrite S by lia. by rewrite Z.add_assoc.
Qed.

Lemma zlen_versions versions : zlen (concat (map (be_bytes 4) versions)) = zlen versions * 4.
Proof.
  induction versions as [|v vs IH]; [done|]. cbn [map concat]. rewrite zlen_app, IH, zlen_be_bytes, zlen_cons. lia.
Qed.

Lemma vneg_build_spec dcid scid versions buf cap :
  zlen dcid <= 255 -> zlen scid <= 255 -> zlen versions < 2 ^ 60 ->
  0 <= cap <= zlen buf -> zlen buf < max_object ->
  let bytes := vneg_bytes dcid scid versions in
  quic_vneg_build dcid (zlen dcid) scid (zlen scid) versions (zlen versions) buf cap =
  Some (if negb (zlen versions =? 0) && (zlen bytes <=? cap) then (zlen bytes, splice buf 0 bytes) else (0, buf)).
Proof.
  intros Hd Hs Hv Hcap Hobj. cbv zeta. unfold quic_vneg_build, vneg_fits.
  pose proof (zlen_nonneg dcid). pose proof (zlen_nonneg scid). pose proof (zlen_nonneg versions).
  assert (Hl : zlen (vneg_bytes dcid scid versions) = 5 + 1 + zlen dcid + 1 + zlen scid + zlen versions * 4)
    by (unfold vneg_bytes; rewrite zlen_app, zlen_long_bytes, zlen_versions; lia).
  rewrite (u64_id (zlen versions * 4)), u64_id by (unfold is_u64; lia). rewrite Hl.
  destruct (negb (zlen versions =? 0)); [|done].
  destruct (Z.leb_spec (5 + 1 + zlen dcid + 1 + zlen scid + zlen versions * 4) cap); cbn [negb andb]; [|done].
  rewrite put_be32_bytes. pose proof (long_prefix_len 0x80 0) as H5.
  set (pfx := 0x80 :: be_bytes 4 0) in *. rewrite store_bytes_spec by lia.
  rewrite (ignore_all_writes _ [cid_bytes dcid; cid_bytes scid]).
  - cbn [concat]. rewrite app_nil_r, zlen_app, !zlen_cid_bytes.
    replace (Z.to_nat (zlen versions)) with (length versions) by (unfold zlen; lia).
    set (cids := cid_bytes dcid ++ cid_bytes scid).
    assert (Hc : zlen cids = 2 + zlen dcid + zlen scid) by (unfold cids; rewrite zlen_app, !zlen_cid_bytes; lia).
    rewrite put_versions_spec by (rewrite ?zlen_splice; rewrite ?zlen_splice, ?zlen_versions; lia).
    rewrite zlen_versions. do 2 f_equal; [lia|]. unfold vneg_bytes, long_bytes. fold pfx. fold cids.
    pose proof (splice_splice buf pfx cids 0 ltac:(lia) ltac:(lia)) as S1. rewrite H5, Z.add_0_l in S1. rewrite S1.
    replace (5 + (1 + zlen dcid + (1 + zlen scid))) with (0 + zlen (pfx ++ cids)) by (rewrite zlen_app; lia).
    apply splice_splice; [lia|]. rewrite zlen_app, zlen_versions. lia.
  - do 2 (constructor; [apply writes_vneg_put_cid; lia|]). constructor.
  - lia.
  - cbn [concat]. rewrite app_nil_r, zlen_app, !zlen_cid_bytes. lia.
  - rewrite zlen_splice; lia.
  - lia.
Qed.

Lemma splice_all {A} (l bs : list A) : zlen bs = zlen l -> splice l 0 bs = bs.
Proof. intros E. unfold splice, zlen in *. simpl. rewrite drop_ge by lia. apply app_nil_r. Qed.

Lemma load_long_be32 b0 version dcid scid rest : is_u32 version ->
  load_be32 (long_bytes b0 version dcid scid ++ rest) 1 = Some version.
Proof.
  intros Hv. unfold long_bytes. rewrite <- app_assoc.
  change ((b0 :: be_bytes 4 version) ++ ?x) with ([b0] ++ be_bytes 4 version ++ x).
  exact (load_be32_spec [b0] _ version Hv).
Qed.

Lemma retry_parse_spec r version dcid scid token tag post :
  is_u32 version -> zlen dcid <= QUIC_MAX_CID_LEN -> zlen scid <= QUIC_MAX_CID_LEN -> zlen tag = QUIC_RETRY_TAG_LEN ->
  zlen (rp_dcid r) = QUIC_MAX_CID_LEN -> zlen (rp_scid r) = QUIC_MAX_CID_LEN -> zlen (rp_tag r) = QUIC_RETRY_TAG_LEN ->
  let bytes := retry_bytes version dcid scid token tag in
  zlen bytes < max_object ->
  quic_retry_parse r (bytes ++ post) (zlen bytes) =
  Some (Some (mk_retry version (zlen dcid) (splice (rp_dcid r) 0 dcid) (zlen scid) (splice (rp_scid r) 0 scid)
                token (zlen token) tag, zlen bytes)).
Proof.
  intros Hv Hd Hs Htag Hrd Hrs Hrt. cbv zeta. unfold retry_bytes. rewrite zlen_app, zlen_app.
  set (pfx := long_bytes 0xF0 version dcid scid). intros Ho.
  assert (Hp : zlen pfx = 7 + zlen dcid + zlen scid) by apply zlen_long_bytes.
  pose proof (zlen_nonneg dcid). pose proof (zlen_nonneg scid). pose proof (zlen_nonneg token).
  unfold quic_retry_parse, retry_head_ok, QUIC_RETRY_TAG_LEN in *. rewrite Htag in *. zdecide.
  rewrite <- app_assoc. change (load (pfx ++ (token ++ tag) ++ post) 0) with (Some 0xF0). cbv iota.
  change (Z.land 240 240 =? 240) with true. cbv iota. unfold retry_parse_after_head.
  unfold pfx at 1. rewrite load_long_be32 by done.
  replace (pfx ++ (token ++ tag) ++ post) with ((0xF0 :: be_bytes 4 version) ++ (cid_bytes dcid ++ cid_bytes scid) ++
    (token ++ tag) ++ post) by (unfold pfx, long_bytes; by rewrite <- !app_assoc).
  pose proof (reads_retry_take_cids r dcid scid Hrd Hrs Hd Hs (0xF0 :: be_bytes 4 version) ((token ++ tag) ++ post)
    (zlen pfx + (zlen token + 16))) as R.
  rewrite long_prefix_len in R. rewrite !zlen_app, !zlen_cid_bytes, long_prefix_len in R. pose proof (zlen_nonneg post).
  specialize (R ltac:(lia) ltac:(lia) ltac:(lia)). revert R. zdecide. intros ->.
  unfold take_token_tag, QUIC_RETRY_TAG_LEN. rewrite (u64_id (zlen pfx + (zlen token + 16) - 16)) by (unfold is_u64, max_object in *; lia).
  replace (5 + (1 + zlen dcid + (1 + zlen scid))) with (zlen pfx) by lia.
  replace ((0xF0 :: be_bytes 4 version) ++ (cid_bytes dcid ++ cid_bytes scid) ++ (token ++ tag) ++ post)
    with ((pfx ++ token) ++ tag ++ post) by (unfold pfx, long_bytes; by rewrite <- !app_assoc).
  zdecide. pose proof (reads_take_bytes (rp_tag r) tag ltac:(lia) ltac:(lia) (pfx ++ token) post (zlen pfx + (zlen token + 16))) as T.
  rewrite !zlen_app, Htag in T. specialize (T ltac:(lia) ltac:(lia) ltac:(lia)). revert T. zdecide.
  replace (zlen pfx + (zlen token + 16) - 16) with (zlen pfx + zlen token) by lia. intros ->.
  rewrite (splice_all (rp_tag r)) by lia. rewrite u64_id by (unfold is_u64, max_object in *; lia).
  replace (zlen pfx + zlen token - zlen pfx) with (zlen token) by lia.
  rewrite <- app_assoc, slice_app by done. done.
Qed.

Lemma vneg_parse_spec v dcid scid versions post :
  zlen dcid <= QUIC_MAX_CID_LEN -> zlen scid <= QUIC_MAX_CID_LEN ->
  zlen (vp_dcid v) = QUIC_MAX_CID_LEN -> zlen (vp_scid v) = QUIC_MAX_CID_LEN ->
  let bytes := vneg_bytes dcid scid versions in
  zlen bytes < max_object ->
  quic_vneg_parse v (bytes ++ post) (zlen bytes) =
  Some (if zlen versions =? 0 then None
        else Some (mk_vneg (zlen dcid) (splice (vp_dcid v) 0 dcid) (zlen scid) (splice (vp_scid v) 0 scid)
                (concat (map (be_bytes 4) versions)) (zlen versions), zlen bytes)).
Proof.
  intros Hd Hs Hvd Hvs. cbv zeta. unfold vneg_bytes. rewrite zlen_app, zlen_versions.
  set (vs := concat (map (be_bytes 4) versions)). assert (Hvl : zlen vs = zlen versions * 4) by apply zlen_versions.
  set (pfx := long_bytes 0x80 0 dcid scid). intros Ho.
  assert (Hp : zlen pfx = 7 + zlen dcid + zlen scid) by apply zlen_long_bytes.
  pose proof (zlen_nonneg dcid). pose proof (zlen_nonneg scid). pose proof (zlen_nonneg versions).
  unfold quic_vneg_parse, vneg_head_ok, version_zero. zdecide.
  rewrite <- app_assoc. change (load (pfx ++ vs ++ post) 0) with (Some 0x80). cbv iota.
  change (Z.land 128 128 =? 0) with false. cbv iota.
  unfold pfx at 1. rewrite load_long_be32 by done. cbn [Z.eqb]. cbv iota. unfold vneg_parse_after_head.
  replace (pfx ++ vs ++ post) with ((0x80 :: be_bytes 4 0) ++ (cid_bytes dcid ++ cid_bytes scid) ++ vs ++ post)
    by (unfold pfx, long_bytes; by rewrite <- !app_assoc).
  pose proof (reads_vneg_take_cids v dcid scid Hvd Hvs Hd Hs (0x80 :: be_bytes 4 0) (vs ++ post)
    (zlen pfx + zlen versions * 4)) as R.
  rewrite !zlen_app, !zlen_cid_bytes, long_prefix_len in R. pose proof (zlen_nonneg post).
  specialize (R ltac:(lia) ltac:(lia) ltac:(lia)). revert R. zdecide. intros ->.
  replace (5 + (1 + zlen dcid + (1 + zlen scid))) with (zlen pfx) by lia.
  rewrite u64_id by (unfold is_u64, max_object in *; lia).
  replace (zlen pfx + zlen versions * 4 - zlen pfx) with (zlen versions * 4) by lia.
  unfold versions_whole. rewrite Z.mod_mul, Z.div_mul by lia.
  destruct (Z.eqb_spec (zlen versions) 0) as [E|E]; zdecide; [done|]. cbn [negb].
  replace ((0x80 :: be_bytes 4 0) ++ (cid_bytes dcid ++ cid_bytes scid) ++ vs ++ post) with (pfx ++ vs ++ post)
    by (unfold pfx, long_bytes; by rewrite <- !app_assoc).
  rewrite slice_app by done. done.
Qed.

(** * Splitting a datagram *)

Lemma reads_skip_cid cid : zlen cid < 256 -> Reads skip_cid (cid_bytes cid) tt.
Proof.
  intros Hc pre post n H1 H2 H3. unfold skip_cid. rewrite zlen_cid_bytes. unfold cid_bytes in *.
  pose proof (zlen_nonneg pre); pose proof (zlen_nonneg cid). rewrite <- !app_comm_cons in *.
  destruct (Z.leb_spec n (zlen pre)); zdecide; [by exists (zlen pre)|]. rewrite load_head by done. unwrap.
  destruct (Z.leb_spec (zlen pre + (1 + zlen cid)) n); [done|by eexists].
Qed.

Lemma reads_skip_token token : is_varint (zlen token) -> Reads skip_token (varint_bytes (zlen token) ++ token) tt.
Proof.
  intros Ht pre post n H1 H2 H3. unfold skip_token. rewrite <- app_assoc in *.
  pose proof (zlen_nonneg pre); pose proof (zlen_nonneg token).
  pose proof (reads_varint (zlen token) pre (token ++ post) n H1 H2 H3) as R. rewrite zlen_app.
  destruct (Z.leb_spec (zlen pre + zlen (varint_bytes (zlen token))) n).
  - rewrite R. unfold is_varint, QUIC_VARINT_MAX in Ht. pose proof (zlen_nonneg (varint_bytes (zlen token))).
    unwrap. rewrite Z.add_assoc. destruct (Z.leb_spec (zlen pre + zlen (varint_bytes (zlen token)) + zlen token) n); [done|by eexists].
  - zdecide. destruct R as [o ->]. by eexists.
Qed.

Lemma reads_skip_long_prefix b0 version dcid scid :
  zlen dcid <= QUIC_MAX_CID_LEN -> zlen scid <= QUIC_MAX_CID_LEN ->
  Reads skip_long_prefix (long_bytes b0 version dcid scid) tt.
Proof.
  unfold QUIC_MAX_CID_LEN. intros Hd Hs pre post n H1 H2 H3. unfold skip_long_prefix. rewrite zlen_long_bytes.
  unfold long_bytes in *. rewrite <- app_assoc in *. set (five := b0 :: be_bytes 4 version) in *.
  assert (H5 : zlen five = 5) by apply long_prefix_len.
  pose proof (zlen_nonneg pre); pose proof (zlen_nonneg dcid); pose proof (zlen_nonneg scid). unwrap.
  destruct (Z.ltb_spec n (zlen pre + 5)); [zdecide; by eexists|].
  assert (R : Reads (_ <- skip_cid ;; skip_cid) (cid_bytes dcid ++ cid_bytes scid) tt)
    by (eapply reads_bind; apply reads_skip_cid; lia).
  rewrite app_assoc in *. specialize (R (pre ++ five) post n). rewrite zlen_app, H5 in R.
  specialize (R ltac:(lia) H2 H3). rewrite zlen_app, !zlen_cid_bytes in R.
  destruct (Z.leb_spec (zlen pre + (7 + zlen dcid + zlen scid)) n); revert R; zdecide; intros R.
  - rewrite R. do 2 f_equal. lia.
  - done.
Qed.

Lemma has_token_pnlen byte0 pn_len :
  has_token (quic_lhdr_byte0_pnlen byte0 pn_len) = has_token byte0.
Proof.
  unfold has_token, quic_lhdr_byte0_pnlen, u8. f_equal. change 256 with (2 ^ 8). rewrite <- Z.land_ones by lia.
  apply Z.bits_inj'. intros i Hi. rewrite !Z.land_spec, !Z.shiftr_spec, !Z.land_spec, Z.lor_spec, !Z.land_spec by done.
  assert (Hc : i = 0 \/ i = 1 \/ 2 <= i) by lia. destruct Hc as [->|[->|Hc]].
  - simpl. by rewrite !andb_true_r, andb_false_r, orb_false_r.
  - simpl. by rewrite !andb_true_r, andb_false_r, orb_false_r.
  - change 3 with (Z.ones 2). rewrite (Z.ones_spec_high 2 i) by lia. by rewrite !andb_false_r.
Qed.

(** A long-header packet of a datagram: the header and the protected payload,
    which has the announced length. *)
Record lpacket := mk_lpacket {
  lk_byte0 : Z; lk_version : Z; lk_dcid : list Z; lk_scid : list Z; lk_is_initial : Z; lk_token : list Z;
  lk_payload_len : Z; lk_pn : Z; lk_pn_len : Z; lk_payload : list Z }.

Definition lpacket_ok (k : lpacket) : Prop :=
  lhdr_args_ok (lk_version k) (lk_dcid k) (lk_scid k) (lk_token k) (lk_payload_len k) (lk_pn_len k) /\
  is_u8 (lk_byte0 k) /\ Z.land (lk_byte0 k) 0x80 <> 0 /\
  has_token (lk_byte0 k) = negb (lk_is_initial k =? 0) /\ zlen (lk_payload k) = lk_payload_len k + 16.

Definition lpacket_hdr (k : lpacket) : list Z :=
  lhdr_bytes (lk_byte0 k) (lk_version k) (lk_dcid k) (lk_scid k) (lk_is_initial k) (lk_token k)
    (lk_payload_len k) (lk_pn k) (lk_pn_len k).
Definition lpacket_bytes (k : lpacket) : list Z := lpacket_hdr k ++ lk_payload k.

Lemma skip_to_length_spec k pre post n :
  lpacket_ok k -> n = zlen (pre ++ lpacket_bytes k ++ post) -> n < max_object ->
  exists q rest, lpacket_hdr k = q ++ len_pn_bytes (lk_payload_len k) (lk_pn k) (lk_pn_len k) /\
    rest = pre ++ lpacket_bytes k ++ post /\
    skip_to_length (zlen pre) rest n (zlen pre) = Some (Some tt, zlen pre + zlen q).
Proof.
  intros (Ha & Hb & Hf & Ht & Hpl) Hn Ho. destruct Ha as (_ & Hd & Hs & Htok & _).
  unfold lpacket_bytes, lpacket_hdr, lhdr_bytes in *.
  set (b0 := quic_lhdr_byte0_pnlen (lk_byte0 k) (lk_pn_len k)) in *.
  set (pfx := long_bytes b0 (lk_version k) (lk_dcid k) (lk_scid k)) in *.
  set (tf := token_field (lk_is_initial k) (lk_token k)) in *.
  set (lp := len_pn_bytes (lk_payload_len k) (lk_pn k) (lk_pn_len k)) in *.
  exists (pfx ++ tf), (pre ++ pfx ++ tf ++ lp ++ lk_payload k ++ post).
  split; [by rewrite <- app_assoc|]. split; [by rewrite <- !app_assoc|]. unfold skip_to_length.
  rewrite <- !app_assoc in Hn. rewrite !zlen_app in Hn.
  pose proof (zlen_nonneg pre). pose proof (zlen_nonneg tf). pose proof (zlen_nonneg lp).
  pose proof (zlen_nonneg (lk_payload k)). pose proof (zlen_nonneg post). pose proof (zlen_nonneg pfx).
  pose proof (reads_skip_long_prefix b0 (lk_version k) _ _ Hd Hs pre (tf ++ lp ++ lk_payload k ++ post) n) as R.
  fold pfx in R. rewrite !zlen_app in R. specialize (R ltac:(lia) ltac:(lia) Ho). revert R. zdecide. intros ->.
  change (pfx ++ ?x) with (b0 :: tail pfx ++ x) at 1. rewrite (load_head pre _ b0) by done.
  assert (Hh : has_token b0 = negb (lk_is_initial k =? 0)) by (unfold b0; by rewrite has_token_pnlen).
  rewrite Hh, zlen_app, Z.add_assoc. unfold tf, token_field in *.
  destruct (lk_is_initial k =? 0); cbn [negb].
  - rewrite zlen_nil, Z.add_0_r. done.
  - pose proof (reads_skip_token (lk_token k) Htok (pre ++ pfx) (lp ++ lk_payload k ++ post) n) as R.
    set (tkb := varint_bytes (zlen (lk_token k)) ++ lk_token k) in *.
    rewrite <- (app_assoc pre), !(zlen_app pre), !(zlen_app pfx), !(zlen_app tkb), !(zlen_app lp) in R.
    rewrite zlen_app in R. specialize (R ltac:(lia) ltac:(lia) Ho). revert R. zdecide. done.
Qed.

Lemma long_packet_len_spec k pre post :
  lpacket_ok k -> zlen (pre ++ lpacket_bytes k ++ post) < max_object ->
  long_packet_len (pre ++ lpacket_bytes k ++ post) (zlen (pre ++ lpacket_bytes k ++ post)) (zlen pre) =
  Some (zlen (lpacket_bytes k)).
Proof.
  intros Hk Ho. set (n := zlen (pre ++ lpacket_bytes k ++ post)) in *.
  destruct (skip_to_length_spec k pre post n Hk eq_refl Ho) as (q & rest & Eq & Er & E).
  unfold long_packet_len. rewrite <- Er, E, Er.
  destruct Hk as ((_ & _ & _ & _ & Hp & Hpl & Hlen) & _ & _ & _ & Hpay).
  assert (Hv := Hlen). unfold is_varint, QUIC_VARINT_MAX in Hv.
  unfold n in Ho |- *. unfold lpacket_bytes in *. rewrite Eq in *. unfold len_pn_bytes in *.
  set (vb := varint_bytes (lk_pn_len k + lk_payload_len k + 16)) in *.
  set (pnb := be_bytes (Z.to_nat (lk_pn_len k)) (lk_pn k)) in *.
  assert (Hpn : zlen pnb = lk_pn_len k) by (unfold pnb; rewrite zlen_be_bytes; lia).
  replace (pre ++ ((q ++ vb ++ pnb) ++ lk_payload k) ++ post) with ((pre ++ q) ++ vb ++ (pnb ++ lk_payload k ++ post))
    in * by (by rewrite <- !app_assoc).
  set (n' := zlen ((pre ++ q) ++ vb ++ pnb ++ lk_payload k ++ post)) in *.
  assert (Hn' : n' = zlen pre + zlen q + zlen vb + lk_pn_len k + zlen (lk_payload k) + zlen post)
    by (unfold n'; rewrite !zlen_app; lia).
  pose proof (zlen_nonneg pre). pose proof (zlen_nonneg q). pose proof (zlen_nonneg vb). pose proof (zlen_nonneg post).
  pose proof (reads_varint (lk_pn_len k + lk_payload_len k + 16) (pre ++ q) (pnb ++ lk_payload k ++ post) n') as R.
  fold vb in R. fold n' in R. rewrite (zlen_app pre q) in R. specialize (R ltac:(lia) ltac:(lia) ltac:(lia)).
  revert R. zdecide. intros ->. unfold packet_bound. unwrap. zdecide. f_equal.
  rewrite !zlen_app. lia.
Qed.

Lemma lpacket_first k : lpacket_ok k -> exists b t, lpacket_bytes k = b :: t /\ Z.land b 0x80 <> 0.
Proof.
  intros (_ & Hb & Hf & _). eexists _, _. split; [reflexivity|]. by apply byte0_pnlen_long.
Qed.

(** One step over a long-header packet. *)
Lemma coalesce_next_long k pre post :
  lpacket_ok k -> zlen (pre ++ lpacket_bytes k ++ post) < max_object ->
  let dgram := pre ++ lpacket_bytes k ++ post in
  quic_coalesce_next (mk_citer dgram (zlen dgram) (zlen pre)) =
  Some (Some (mk_coalesced (lpacket_bytes k) (zlen (lpacket_bytes k)),
              mk_citer dgram (zlen dgram) (zlen (pre ++ lpacket_bytes k)))).
Proof.
  intros Hk Ho dgram. destruct (lpacket_first k Hk) as (b & t & Eb & Hf).
  assert (Hpos : 1 <= zlen (lpacket_bytes k)) by (rewrite Eb, zlen_cons; pose proof (zlen_nonneg t); lia).
  pose proof (zlen_nonneg pre). pose proof (zlen_nonneg post).
  assert (Hz : zlen dgram = zlen pre + zlen (lpacket_bytes k) + zlen post) by (unfold dgram; rewrite !zlen_app; lia).
  unfold quic_coalesce_next. cbn [ci_total ci_off ci_dgram]. zdecide.
  replace (load dgram (zlen pre)) with (Some b) by (unfold dgram; rewrite Eb; symmetry; by apply load_head).
  destruct (Z.eqb_spec (Z.land b 128) 0); [done|].
  unfold dgram at 1 2. rewrite long_packet_len_spec by done. fold dgram.
  unfold coalesce_emit. cbn [ci_total ci_off ci_dgram]. zdecide. unfold dgram at 1.
  rewrite slice_app by done. fold dgram in Ho. unwrap. by rewrite zlen_app.
Qed.

Definition short_last (s : list Z) : Prop := s = [] \/ exists b t, s = b :: t /\ Z.land b 0x80 = 0.

Definition as_coalesced (bs : list Z) : quic_coalesced := mk_coalesced bs (zlen bs).

Lemma coalesce_next_end dgram off : zlen dgram <= off -> quic_coalesce_next (mk_citer dgram (zlen dgram) off) = Some None.
Proof. intros H. unfold quic_coalesce_next. cbn. by zdecide. Qed.

Lemma coalesce_split_from ks : forall fuel pre s,
  Forall lpacket_ok ks -> short_last s -> (length ks + 1 < fuel)%nat ->
  let dgram := pre ++ concat (map lpacket_bytes ks) ++ s in zlen dgram < max_object ->
  coalesce_all fuel (mk_citer dgram (zlen dgram) (zlen pre)) =
  Some (map (fun k => as_coalesced (lpacket_bytes k)) ks ++ (match s with [] => [] | _ => [as_coalesced s] end),
        mk_citer dgram (zlen dgram) (zlen dgram)).
Proof.
  induction ks as [|k ks IH]; intros fuel pre s Hks Hs Hfuel dgram Ho;
    (destruct fuel as [|fuel]; [simpl in Hfuel; lia|]); cbn [map concat app] in *.
  - destruct Hs as [->|(b & t & -> & Hb)].
    + unfold dgram. rewrite app_nil_r. cbn [coalesce_all]. by rewrite coalesce_next_end.
    + destruct fuel as [|fuel]; [simpl in Hfuel; lia|]. pose proof (zlen_nonneg pre). pose proof (zlen_nonneg t).
      assert (Hz : zlen dgram = zlen pre + (1 + zlen t)) by (unfold dgram; rewrite zlen_app, zlen_cons; done).
      cbn [coalesce_all]. unfold quic_coalesce_next at 1. cbn [ci_total ci_off ci_dgram]. zdecide.
      replace (load dgram (zlen pre)) with (Some b) by (unfold dgram; symmetry; by apply load_head).
      rewrite Hb. cbn [Z.eqb]. unfold coalesce_emit. cbn [ci_total ci_off ci_dgram]. unwrap. zdecide. unwrap.
      rewrite coalesce_next_end by lia. unfold as_coalesced.
      replace (slice dgram (zlen pre) (zlen dgram - zlen pre)) with (b :: t).
      * rewrite zlen_cons. do 3 f_equal; [f_equal; lia|f_equal; lia].
      * symmetry. unfold dgram at 1. rewrite <- (app_nil_r (b :: t)) at 1. apply slice_app; [done|].
        rewrite zlen_cons. lia.
  - apply Forall_cons_iff in Hks as [Hk Hks]. cbn [coalesce_all].
    assert (Ed : dgram = pre ++ lpacket_bytes k ++ concat (map lpacket_bytes ks) ++ s)
      by (unfold dgram; by rewrite <- app_assoc).
    rewrite Ed at 1 2. rewrite coalesce_next_long by (done || by rewrite <- Ed). rewrite <- Ed.
    specialize (IH fuel (pre ++ lpacket_bytes k) s Hks Hs ltac:(simpl in Hfuel; lia)). cbv zeta in IH.
    replace ((pre ++ lpacket_bytes k) ++ concat (map lpacket_bytes ks) ++ s) with dgram in IH
      by (rewrite Ed; by rewrite <- app_assoc).
    rewrite IH by done. done.
Qed.

(** ** Arbitrary datagrams *)

(** A cursor movement that succeeds only inside the buffer. *)
Definition safe_skip (p : rd unit) : Prop := forall buf n off,
  Forall is_u8 buf -> 0 <= off <= n -> n <= zlen buf -> n < max_object ->
  exists r off', p buf n off = Some (r, off') /\ (r = Some tt -> off <= off' <= n).

Lemma safe_skip_cid : safe_skip skip_cid.
Proof.
  intros buf n off Hb Hoff Hn Hobj. unfold skip_cid.
  destruct (Z.leb_spec n off); [by eexists _, _|].
  destruct (load_is_Some buf off) as [b Hl]; [lia|]. rewrite Hl.
  pose proof (load_u8 _ _ _ Hb Hl) as Hb8. unfold is_u8 in Hb8. unwrap.
  destruct (Z.leb_spec (off + (1 + b)) n); eexists _, _; (split; [done|]); [lia|done].
Qed.

Lemma safe_skip_token : safe_skip skip_token.
Proof.
  intros buf n off Hb Hoff Hn Hobj. unfold skip_token.
  destruct (saferd_varint buf n off Hb Hoff Hn Hobj) as ([v|] & off' & -> & Hr & Hv); [|by eexists _, _].
  specialize (Hv v eq_refl). unfold is_varint, QUIC_VARINT_MAX in Hv. unwrap.
  destruct (Z.leb_spec (off' + v) n); eexists _, _; (split; [done|]); [lia|done].
Qed.

Lemma safe_skip_bind p q : safe_skip p -> safe_skip q -> safe_skip (_ <- p ;; q).
Proof.
  intros Hp Hq buf n off Hb Hoff Hn Hobj. unfold rd_bind.
  destruct (Hp buf n off Hb Hoff Hn Hobj) as ([[]|] & o1 & -> & H1); [|by eexists _, _].
  specialize (H1 eq_refl). destruct (Hq buf n o1 Hb ltac:(lia) Hn Hobj) as (r & o2 & -> & H2).
  eexists _, _. split; [done|]. intros E. specialize (H2 E). lia.
Qed.

Lemma long_packet_len_safe buf n off :
  Forall is_u8 buf -> 0 <= off < n -> n <= zlen buf -> n < max_object ->
  exists len, long_packet_len buf n off = Some len /\ 0 <= len <= n - off.
Proof.
  intros Hb Hoff Hn Hobj. unfold long_packet_len, skip_to_length, skip_long_prefix. unwrap.
  destruct (Z.ltb_spec n (off + 5)); [exists 0; split; [done|lia]|].
  destruct (safe_skip_bind _ _ safe_skip_cid safe_skip_cid buf n (off + 5) Hb ltac:(lia) Hn Hobj)
    as ([[]|] & p & -> & H1); [|exists 0; split; [done|lia]].
  specialize (H1 eq_refl). destruct (load_is_Some buf off) as [b Hl]; [lia|]. rewrite Hl.
  assert (Hfin : forall q, off <= q <= n -> exists len, match quic_varint_take buf n q with
    | None => None | Some (None, _) => Some 0
    | Some (Some length, p') => Some (packet_bound p' off length n) end = Some len /\ 0 <= len <= n - off).
  { intros q Hq. destruct (saferd_varint buf n q Hb ltac:(lia) Hn Hobj) as ([v|] & q' & -> & Hr & Hv);
      [|exists 0; split; [done|lia]].
    specialize (Hv v eq_refl). unfold is_varint, QUIC_VARINT_MAX in Hv. eexists. split; [done|].
    unfold packet_bound. unwrap. destruct (Z.ltb_spec n (q' + v)); [lia|]. unwrap. lia. }
  destruct (negb (has_token b)).
  - apply Hfin. lia.
  - destruct (safe_skip_token buf n p Hb ltac:(lia) Hn Hobj) as ([[]|] & q & -> & H2); [|exists 0; split; [done|lia]].
    specialize (H2 eq_refl). apply Hfin. lia.
Qed.

Lemma coalesce_next_safe dgram off :
  Forall is_u8 dgram -> 0 <= off <= zlen dgram -> zlen dgram < max_object ->
  quic_coalesce_next (mk_citer dgram (zlen dgram) off) = Some None \/
  exists len, 1 <= len <= zlen dgram - off /\
    quic_coalesce_next (mk_citer dgram (zlen dgram) off) =
    Some (Some (mk_coalesced (slice dgram off len) len, mk_citer dgram (zlen dgram) (off + len))).
Proof.
  intros Hb Hoff Ho. unfold quic_coalesce_next. cbn [ci_total ci_off ci_dgram].
  destruct (Z.leb_spec (zlen dgram) off); [by left|].
  destruct (load_is_Some dgram off) as [b ->]; [lia|].
  assert (Hemit : forall len, 0 <= len <= zlen dgram - off ->
    coalesce_emit (mk_citer dgram (zlen dgram) off) len = None \/
    1 <= len /\ coalesce_emit (mk_citer dgram (zlen dgram) off) len =
      Some (mk_coalesced (slice dgram off len) len, mk_citer dgram (zlen dgram) (off + len))).
  { intros len Hl. unfold coalesce_emit. cbn [ci_total ci_off ci_dgram].
    destruct (Z.eqb_spec len 0); [by left|]. right. split; [lia|]. unwrap. done. }
  destruct (_ =? 0).
  - unwrap. destruct (Hemit (zlen dgram - off)) as [->|[? ->]]; [lia|by left|].
    right. eexists. split; [|done]. lia.
  - destruct (long_packet_len_safe dgram (zlen dgram) off Hb ltac:(lia) ltac:(lia) Ho) as (len & -> & Hl).
    destruct (Hemit len Hl) as [->|[? ->]]; [by left|]. right. eexists. split; [|done]. lia.
Qed.

Lemma coalesce_all_safe fuel : forall dgram off,
  Forall is_u8 dgram -> 0 <= off <= zlen dgram -> zlen dgram < max_object ->
  (Z.to_nat (zlen dgram - off) < fuel)%nat ->
  exists pkts last, coalesce_all fuel (mk_citer dgram (zlen dgram) off) = Some (pkts, mk_citer dgram (zlen dgram) last) /\
    off <= last <= zlen dgram /\ concat (map co_data pkts) = slice dgram off (last - off) /\
    Forall (fun p => co_len p = zlen (co_data p) /\ 1 <= co_len p) pkts.
Proof.
  induction fuel as [|fuel IH]; intros dgram off Hb Hoff Ho Hfuel; [lia|]. cbn [coalesce_all].
  destruct (coalesce_next_safe dgram off Hb Hoff Ho) as [->|(len & Hl & ->)].
  - exists [], off. split_and!; try done; try lia. unfold slice. by rewrite Z.sub_diag.
  - destruct (IH dgram (off + len) Hb ltac:(lia) Ho ltac:(lia)) as (pkts & last & -> & Hr & Hc & Hf).
    eexists _, last. split; [done|]. split; [lia|]. split.
    + cbn [map concat co_data]. rewrite Hc. unfold slice.
      replace (Z.to_nat (last - off)) with (Z.to_nat len + Z.to_nat (last - (off + len)))%nat by lia.
      rewrite <- take_take_drop, drop_drop. do 3 f_equal. lia.
    + constructor; [|done]. cbn [co_len co_data]. rewrite zlen_slice by lia. lia.
Qed.

(** * Properties *)

(** A datagram made of any number of long-header packets (Initial with a token,
    Handshake or 0-RTT without), each the header [quic_lhdr_build] writes followed
    by a payload of the announced length, and at most one short-header packet at
    the end, is split into exactly those packets in order. *)
Theorem coalesce_split (ks : list lpacket) (short : list Z)
  (Hks : Forall lpacket_ok ks) (Hs : short_last short)
  (Hobj : zlen (concat (map lpacket_bytes ks) ++ short) < max_object) :
  let dgram := concat (map lpacket_bytes ks) ++ short in
  coalesce_all (length ks + 2) (quic_coalesce_begin dgram (zlen dgram)) =
  Some (map (fun k => as_coalesced (lpacket_bytes k)) ks ++ (match short with [] => [] | _ => [as_coalesced short] end),
        mk_citer dgram (zlen dgram) (zlen dgram)).
Proof. apply (coalesce_split_from ks (length ks + 2) [] short Hks Hs); done || lia. Qed.

Definition initial_example : lpacket :=
  mk_lpacket 0xC0 1 [1; 2; 3; 4] [5; 6] 1 [7] 3 0 1 (repeat 0xAA 19).
Definition handshake_example : lpacket :=
  mk_lpacket 0xE1 1 [1; 2; 3; 4] [5; 6] 0 [] 0 9 2 (repeat 0xBB 16).

Lemma packet_examples_ok : Forall lpacket_ok [initial_example; handshake_example].
Proof.
  assert (Hi : lpacket_ok initial_example).
  { unfold lpacket_ok, lhdr_args_ok, is_varint. split_and!; first [closed_arith | discriminate | reflexivity]. }
  assert (Hh : lpacket_ok handshake_example).
  { unfold lpacket_ok, lhdr_args_ok, is_varint. split_and!; first [closed_arith | discriminate | reflexivity]. }
  by repeat constructor.
Qed.

(** Witness: Initial, Handshake and 1-RTT packets in one datagram. *)
Lemma coalesce_split_witness :
  let dgram := concat (map lpacket_bytes [initial_example; handshake_example]) ++ [0x41; 1; 2] in
  coalesce_all 4 (quic_coalesce_begin dgram (zlen dgram)) =
  Some ([as_coalesced (lpacket_bytes initial_example); as_coalesced (lpacket_bytes handshake_example);
         as_coalesced [0x41; 1; 2]], mk_citer dgram (zlen dgram) (zlen dgram)).
Proof.
  apply (coalesce_split [initial_example; handshake_example] [0x41; 1; 2]);
    [exact packet_examples_ok|right; by eexists _, _|closed_arith].
Defined.

(** On an arbitrary datagram the splitter never reads outside it, every packet
    it yields has at least one byte (so at most as many steps as bytes), and the
    packets are consecutive pieces of the datagram from its start. *)
Theorem coalesce_safe (dgram : list Z) (Hb : Forall is_u8 dgram) (Hobj : zlen dgram < max_object) :
  exists pkts last, coalesce_all (S (length dgram)) (quic_coalesce_begin dgram (zlen dgram)) =
      Some (pkts, mk_citer dgram (zlen dgram) last) /\
    last <= zlen dgram /\ concat (map co_data pkts) = take (Z.to_nat last) dgram /\
    Forall (fun p => co_len p = zlen (co_data p) /\ 1 <= co_len p) pkts.
Proof.
  pose proof (zlen_nonneg dgram).
  destruct (coalesce_all_safe (S (length dgram)) dgram 0 Hb ltac:(lia) Hobj ltac:(unfold zlen; lia))
    as (pkts & last & E & Hl & Hc & Hf).
  exists pkts, last. split_and!; try done; [lia|]. rewrite Hc. unfold slice. by rewrite Z.sub_0_r.
Qed.

(** Witness: a truncated long header after a complete packet. *)
Lemma coalesce_safe_witness :
  exists pkts last, coalesce_all 4 (quic_coalesce_begin [0xC0; 0; 0] 3) = Some (pkts, last).
Proof.
  destruct (coalesce_safe [0xC0; 0; 0]) as (pkts & last & H & _); [by rewrite !Forall_cons_iff|closed_arith|].
  exists pkts, (mk_citer [0xC0; 0; 0] 3 last). exact H.
Defined.

(** The two builders of the short header write the same bytes for every
    argument; when the packet number length is 1 to 4 and the header fits, the
    header they write has the form bit and the reserved bits clear and the fixed
    bit, the spin bit, the key phase and the length in their places, parsing it
    with the known connection ID length returns the connection ID, and the packet
    number is recovered by a receiver whose window contains it; in every other
    case both refuse and leave the buffer untouched. *)
Theorem short_header_roundtrip (h0 : quic_header) (dcid buf : list Z) (spin key_phase pn pn_len cap largest : Z)
  (Hd : zlen dcid <= QUIC_MAX_CID_LEN) (Hcap : 0 <= cap <= zlen buf) (Hobj : zlen buf < max_object)
  (Hd0 : zlen (qh_dcid h0) = QUIC_MAX_CID_LEN) (Hl0 : qh_dcid_len h0 = zlen dcid)
  (Hpn : 0 <= pn < 2 ^ 62) (Hl : -1 <= largest < 2 ^ 62)
  (Hw : largest + 1 - 2 ^ (8 * pn_len - 1) < pn <= largest + 1 + 2 ^ (8 * pn_len - 1)) :
  exists len buf', quic_short_build dcid (zlen dcid) spin key_phase pn pn_len buf cap = Some (len, buf') /\
    quic_shorthdr_build spin key_phase dcid (zlen dcid) pn pn_len buf cap =
      Some (if len =? 0 then None else Some len, buf') /\
    (~ (1 <= pn_len <= 4 /\ 1 + zlen dcid + pn_len <= cap) -> len = 0 /\ buf' = buf) /\
    (1 <= pn_len <= 4 /\ 1 + zlen dcid + pn_len <= cap ->
      len = 1 + zlen dcid + pn_len /\
      (exists b0, load buf' 0 = Some b0 /\ Z.land b0 0x80 = 0 /\ Z.testbit b0 6 = true /\
         Z.testbit b0 5 = Z.odd spin /\ Z.testbit b0 2 = Z.odd key_phase /\
         quic_resbits_ok b0 0 = true /\ quic_lhdr_pn_len b0 = pn_len) /\
      (exists h, quic_header_parse h0 buf' len = Some (Some (h, 1 + zlen dcid)) /\
         qh_form h = QUIC_FORM_SHORT /\ header_dcid h = dcid) /\
      quic_pnum_decode (drop (Z.to_nat (1 + zlen dcid)) buf') pn_len (u64 largest) = Some pn).
Proof.
  pose proof (zlen_nonneg dcid). unfold QUIC_MAX_CID_LEN in *.
  destruct (short_build_spec dcid spin key_phase pn pn_len buf cap ltac:(lia) Hcap ltac:(lia)) as [E1 E2].
  cbv zeta in E1, E2. eexists _, _. split; [rewrite E1; apply f_equal, surjective_pairing|]. split; [exact E2|].
  clear E1 E2. destruct (_ && _) eqn:Eb; zbool.
  2: { cbn [fst snd]. split; [done|]. intros [Hp Hf]. revert Eb. by zdecide. }
  cbn [fst snd]. split; [intros Hn; exfalso; apply Hn; lia|]. intros [Hp Hf]. split; [done|].
  destruct (short_byte0_bits spin key_phase pn_len Hp) as (_ & Hu & B1 & B2 & B3 & B4 & B5 & B6).
  set (b0 := short_byte0 spin key_phase pn_len) in *.
  assert (Hsb : zlen (short_bytes b0 dcid pn pn_len) = 1 + zlen dcid + pn_len).
  { unfold short_bytes. rewrite zlen_cons, zlen_app, zlen_be_bytes. lia. }
  destruct (splice_at buf (short_bytes b0 dcid pn pn_len) 0) as (pre & old & post & Ho & Hpre & Hold & ->); [lia|lia|].
  destruct pre as [|? ?]; [|unfold zlen in Hpre; simpl in Hpre; lia]. rewrite !app_nil_l in *.
  unfold short_bytes. rewrite <- app_comm_cons, <- app_assoc. split; [|split].
  - exists b0. split_and!; try done. unfold quic_resbits_ok. rewrite Z.eqb_refl. by rewrite B5.
  - unfold quic_header_parse. zdecide. change (load (b0 :: ?x) 0) with (Some b0). cbv iota beta. rewrite B1.
    change (negb (0 =? 0)) with false. cbv iota.
    unfold parse_short, cid_fits, copy_cid, QUIC_MAX_CID_LEN. rewrite Hl0. unwrap. zdecide. cbn [andb negb].
    replace (Z.to_nat (zlen dcid)) with (length dcid) by (unfold zlen; lia).
    pose proof (copy_loop_spec dcid (qh_dcid h0) 0 [b0] (be_bytes (Z.to_nat pn_len) pn ++ post) ltac:(lia) ltac:(lia)) as C.
    change (zlen [b0]) with 1 in C. cbn [app] in C. rewrite C. eexists. split; [done|]. split; [done|].
    unfold header_dcid. cbn [qh_dcid qh_dcid_len]. apply take_splice_front.
  - replace (drop (Z.to_nat (1 + zlen dcid)) (b0 :: dcid ++ be_bytes (Z.to_nat pn_len) pn ++ post))
      with (be_bytes (Z.to_nat pn_len) pn ++ post).
    + rewrite <- (Z2Nat.id pn_len) at 2 by lia. apply pnum_decode_bytes; try lia; rewrite Z2Nat.id by lia; lia.
    + replace (Z.to_nat (1 + zlen dcid)) with (S (length dcid)) by (unfold zlen; lia). cbn [drop].
      by rewrite drop_app_length.
Qed.

(** Witness: an eight-byte connection ID and a two-byte packet number. *)
Lemma short_header_roundtrip_witness :
  exists buf', quic_short_build [1; 2; 3; 4; 5; 6; 7; 8] 8 1 1 1000 2 (repeat 0 20) 20 = Some (11, buf') /\
    quic_pnum_decode (drop 9 buf') 2 990 = Some 1000.
Proof.
  destruct (short_header_roundtrip (mk_header 0 0 0 8 (repeat 0 20) 0 (repeat 0 20)) [1; 2; 3; 4; 5; 6; 7; 8]
    (repeat 0 20) 1 1 1000 2 20 990) as (len & buf' & H1 & _ & _ & H2); [closed_arith..|].
  destruct H2 as (-> & _ & _ & H3); [split; closed_arith|]. exists buf'. split; [exact H1|exact H3].
Defined.

(** Retry and Version Negotiation packets survive the wire.  A Retry packet
    that fits is parsed back with its version, connection IDs, token and integrity
    tag; a Version Negotiation packet that fits is parsed back with its connection
    IDs and its list of versions, and the response to a received packet carries
    the received connection IDs swapped; an empty version list is refused by the
    builder; what does not fit is refused and leaves the buffer untouched. *)
Theorem retry_vneg_roundtrip (r : quic_retry_packet) (v : quic_vneg_packet) (version cap : Z)
  (dcid scid token tag versions buf : list Z)
  (Hr : zlen (rp_dcid r) = QUIC_MAX_CID_LEN /\ zlen (rp_scid r) = QUIC_MAX_CID_LEN /\ zlen (rp_tag r) = QUIC_RETRY_TAG_LEN)
  (Hv : zlen (vp_dcid v) = QUIC_MAX_CID_LEN /\ zlen (vp_scid v) = QUIC_MAX_CID_LEN)
  (Hver : is_u32 version) (Hd : zlen dcid <= QUIC_MAX_CID_LEN) (Hs : zlen scid <= QUIC_MAX_CID_LEN)
  (Htag : zlen tag = QUIC_RETRY_TAG_LEN) (Hcap : 0 <= cap <= zlen buf) (Hobj : zlen buf < 2 ^ 60)
  (Htok : zlen token < 2 ^ 60) (Hvs : zlen versions < 2 ^ 60) :
  (exists len buf', quic_retry_build version dcid (zlen dcid) scid (zlen scid) token (zlen token) tag buf cap = Some (len, buf') /\
     (len = 0 /\ buf' = buf /\ cap < 23 + zlen dcid + zlen scid + zlen token \/
      len = 23 + zlen dcid + zlen scid + zlen token /\
      exists r', quic_retry_parse r buf' len = Some (Some (r', len)) /\ rp_version r' = version /\
        take (Z.to_nat (rp_dcid_len r')) (rp_dcid r') = dcid /\ take (Z.to_nat (rp_scid_len r')) (rp_scid r') = scid /\
        rp_token r' = token /\ rp_tag r' = tag)) /\
  (exists len buf', quic_vneg_respond dcid (zlen dcid) scid (zlen scid) versions (zlen versions) buf cap = Some (len, buf') /\
     (len = 0 /\ buf' = buf /\ (versions = [] \/ cap < 7 + zlen dcid + zlen scid + 4 * zlen versions) \/
      exists v', quic_vneg_parse v buf' len = Some (Some (v', len)) /\
        take (Z.to_nat (vp_dcid_len v')) (vp_dcid v') = scid /\ take (Z.to_nat (vp_scid_len v')) (vp_scid v') = dcid /\
        vp_versions v' = concat (map (be_bytes 4) versions) /\ vp_count v' = zlen versions)).
Proof.
  destruct Hr as (R1 & R2 & R3). destruct Hv as (V1 & V2). unfold QUIC_MAX_CID_LEN in *.
  assert (Hx : forall bytes, zlen bytes <= cap -> exists post, splice buf 0 bytes = bytes ++ post).
  { intros bytes Hb. destruct (splice_at buf bytes 0) as (pre & old & post & _ & Hpre & _ & E); [lia|lia|].
    destruct pre as [|? ?]; [|unfold zlen in Hpre; simpl in Hpre; lia]. by exists post. }
  split.
  - rewrite (retry_build_spec version dcid scid token tag buf cap) by (done || (unfold max_object; lia)).
    set (bytes := retry_bytes version dcid scid token tag).
    assert (Hl : zlen bytes = 23 + zlen dcid + zlen scid + zlen token).
    { unfold bytes, retry_bytes. rewrite !zlen_app, zlen_long_bytes, Htag. unfold QUIC_RETRY_TAG_LEN. lia. }
    destruct (Z.leb_spec (zlen bytes) cap); eexists _, _; (split; [done|]); [right|left; split_and!; done || lia].
    split; [done|]. destruct (Hx bytes ltac:(lia)) as [post ->]. eexists.
    split; [apply retry_parse_spec; done || (unfold max_object; fold bytes; lia)|].
    cbn [rp_version rp_dcid_len rp_dcid rp_scid_len rp_scid rp_token rp_tag]. by rewrite !take_splice_front.
  - unfold quic_vneg_respond. rewrite vneg_build_spec by (done || (unfold max_object; lia)).
    set (bytes := vneg_bytes scid dcid versions).
    assert (Hl : zlen bytes = 7 + zlen dcid + zlen scid + 4 * zlen versions).
    { unfold bytes, vneg_bytes. rewrite zlen_app, zlen_long_bytes, zlen_versions. lia. }
    destruct (Z.eqb_spec (zlen versions) 0) as [E0|E0]; cbn [negb andb].
    { eexists _, _. split; [done|]. left. split; [done|]. split; [done|]. left. by destruct versions. }
    destruct (Z.leb_spec (zlen bytes) cap); eexists _, _; (split; [done|]); [right|left; split_and!; [done|done|right; lia]].
    destruct (Hx bytes ltac:(lia)) as [post ->]. eexists.
    split; [unfold bytes; rewrite vneg_parse_spec by (done || (unfold max_object; fold bytes; lia)); zdecide; done|].
    cbn [vp_dcid_len vp_dcid vp_scid_len vp_scid vp_versions vp_count]. by rewrite !take_splice_front.
Qed.

Definition retry_blank : quic_retry_packet := mk_retry 0 0 (repeat 0 20) 0 (repeat 0 20) [] 0 (repeat 0 16).
Definition vneg_blank : quic_vneg_packet := mk_vneg 0 (repeat 0 20) 0 (repeat 0 20) [] 0.

(** Witness: a Retry with a three-byte token; two supported versions. *)
Lemma retry_vneg_roundtrip_witness :
  exists len buf', quic_retry_build 1 [1; 2] 2 [3] 1 [9; 9; 9] 3 (repeat 5 16) (repeat 0 64) 64 = Some (len, buf').
Proof.
  destruct (retry_vneg_roundtrip retry_blank vneg_blank 1 64 [1; 2] [3] [9; 9; 9] (repeat 5 16) [1; 0x6b3343cf] (repeat 0 64))
    as ((len & buf' & H & _) & _); [closed_arith..|]. exists len, buf'. exact H.
Defined.
