(* ===== verification/Slots.v ===== *)
(** Fixed-capacity tables of slots, as the recovery code keeps them: an array of
    entries with a [used] flag, searched from index 0.

    The loops [while (i < CAP && !p(a[i])) i++] and the folds over the entries in
    use are defined here once, with the lemmas on updating one slot. *)
From S2P Require Import Prelude.

(** The first index whose entry satisfies [p]; the length when none does. *)
Fixpoint scan {A} (p : A -> bool) (l : list A) : Z :=
  match l with
  | [] => 0
  | x :: l' => if p x then 0 else 1 + scan p l'
  end.

(** The sum of [f] over the entries that satisfy [p]. *)
Fixpoint sum_if {A} (p : A -> bool) (f : A -> Z) (l : list A) : Z :=
  match l with
  | [] => 0
  | x :: l' => (if p x then f x else 0) + sum_if p f l'
  end.

(** The entries that satisfy [p], in table order. *)
Fixpoint select {A} (p : A -> bool) (l : list A) : list A :=
  match l with
  | [] => []
  | x :: l' => if p x then x :: select p l' else select p l'
  end.

Section Slots.
Context {A : Type}.
Implicit Types (l : list A) (p : A -> bool) (f : A -> Z).

Lemma scan_range p l : 0 <= scan p l <= zlen l.
Proof. induction l as [|x l IH]; [done|]. cbn [scan]. rewrite zlen_cons. destruct (p x); lia. Qed.

(** A search that stops before the end found the first entry with [p]. *)
Lemma scan_found p l : scan p l < zlen l ->
  exists pre x post, l = pre ++ x :: post /\ scan p l = zlen pre /\ p x = true /\ Forall (fun y => p y = false) pre.
Proof.
  induction l as [|x l IH]; intros Hs; [unfold zlen in Hs; simpl in Hs; lia|].
  cbn [scan] in *. destruct (p x) eqn:E.
  - exists [], x, l. by split_and!.
  - rewrite zlen_cons in Hs. destruct IH as (pre & y & post & -> & H1 & H2 & H3); [lia|].
    exists (x :: pre), y, post. rewrite zlen_cons, H1. split_and!; try done. by constructor.
Qed.

Lemma scan_none p l : scan p l = zlen l <-> Forall (fun x => p x = false) l.
Proof.
  induction l as [|x l IH]; [split; [constructor|done]|]. cbn [scan]. rewrite zlen_cons, Forall_cons_iff.
  pose proof (zlen_nonneg l). destruct (p x) eqn:E.
  - split; [lia|by intros [? ?]].
  - rewrite <- IH. split; [lia|]. intros [_ H1]. lia.
Qed.

Lemma load_middle pre (x : A) post i : i = zlen pre -> load (pre ++ x :: post) i = Some x.
Proof. apply load_head. Qed.

Lemma store_middle pre (x y : A) post i : i = zlen pre -> store (pre ++ x :: post) i y = Some (pre ++ y :: post).
Proof.
  intros ->. pose proof (zlen_nonneg pre). pose proof (zlen_nonneg post).
  rewrite store_ok by (rewrite zlen_app, zlen_cons; lia). unfold zlen. rewrite Nat2Z.id.
  by rewrite insert_app_r_alt, Nat.sub_diag.
Qed.

Lemma sum_if_app p f l k : sum_if p f (l ++ k) = sum_if p f l + sum_if p f k.
Proof. induction l as [|x l IH]; [done|]. cbn [app sum_if]. rewrite IH. lia. Qed.

Lemma select_app p l k : select p (l ++ k) = select p l ++ select p k.
Proof. induction l as [|x l IH]; [done|]. cbn [app select]. rewrite IH. by destruct (p x). Qed.

Lemma select_none p l : Forall (fun x => p x = false) l -> select p l = [].
Proof. induction 1 as [|x l Hx _ IH]; [done|]. cbn [select]. by rewrite Hx. Qed.

Lemma select_all p l : Forall (fun x => p x = true) l -> select p l = l.
Proof. induction 1 as [|x l Hx _ IH]; [done|]. cbn [select]. by rewrite Hx, IH. Qed.

Lemma sum_if_select p f l : sum_if p f l = sum_if (fun _ => true) f (select p l).
Proof. induction l as [|x l IH]; [done|]. cbn [sum_if select]. destruct (p x); cbn [sum_if]; rewrite IH; lia. Qed.

Lemma length_select p l : (length (select p l) <= length l)%nat.
Proof. induction l as [|x l IH]; [done|]. cbn [select]. destruct (p x); simpl; lia. Qed.

Lemma elem_select p l x : In x (select p l) <-> In x l /\ p x = true.
Proof.
  induction l as [|y l IH]; [by split; [|intros []]|]. cbn [select In]. destruct (p y) eqn:E; cbn [In]; rewrite IH.
  - split; [intros [->|[]]; auto|intros [[->|] ?]; auto].
  - split; [intros []; auto|]. intros [[->|] ?]; [congruence|auto].
Qed.

(** A full table has as many selected entries as slots. *)
Lemma select_full p l : length (select p l) = length l <-> Forall (fun x => p x = true) l.
Proof.
  induction l as [|x l IH]; [split; [constructor|done]|]. cbn [select length]. rewrite Forall_cons_iff.
  pose proof (length_select p l). destruct (p x) eqn:E; simpl length.
  - rewrite <- IH. split; [intros; split; [done|lia]|intros []; lia].
  - split; [lia|by intros [? ?]].
Qed.

Lemma select_ext p (q : A -> bool) l : (forall x, p x = q x) -> select p l = select q l.
Proof. intros H. induction l as [|x l IH]; [done|]. cbn [select]. by rewrite H, IH. Qed.

Lemma sum_if_ext p (q : A -> bool) f (g : A -> Z) l :
  (forall x, In x l -> (if p x then f x else 0) = (if q x then g x else 0)) -> sum_if p f l = sum_if q g l.
Proof.
  induction l as [|x l IH]; intros H; [done|]. cbn [sum_if].
  rewrite IH by (intros; apply H; by right). rewrite (H x) by (by left). done.
Qed.
End Slots.
