(* ===== verification/SentTable.v ===== *)
(** Sent-packet bookkeeping: the acknowledgement and loss table
    ([src/transport/recovery/detect/recovery/sent.c]) and the metadata ring with
    its in-flight accounting ([src/transport/recovery/rtx/sentmeta]). *)
From S2P Require Import Prelude.
From S2P Require Import Slots.

(** * sent.c *)

Definition QUIC_SENT_CAP : Z := 256.
Definition QUIC_PACKET_THRESHOLD : Z := 3.
Definition QUIC_PKT_INFLIGHT : Z := 0.
Definition QUIC_PKT_ACKED : Z := 1.
Definition QUIC_PKT_LOST : Z := 2.

Record quic_sent_pkt := mk_sent_pkt { sp_pn : Z; sp_size : Z; sp_time_sent : Z; sp_state : Z; sp_used : Z }.
Record quic_sent := mk_sent {
  s_pkts : list quic_sent_pkt; s_bytes_in_flight : Z; s_largest_acked : Z; s_have_acked : Z }.

Definition sp_set_state (p : quic_sent_pkt) (st : Z) : quic_sent_pkt :=
  mk_sent_pkt (sp_pn p) (sp_size p) (sp_time_sent p) st (sp_used p).

Definition quic_sent_init (s : quic_sent) : quic_sent :=
  mk_sent (map (fun p => mk_sent_pkt (sp_pn p) (sp_size p) (sp_time_sent p) (sp_state p) 0) (s_pkts s)) 0 0 0.

Definition free_slot (s : quic_sent) : Z := scan (fun p => sp_used p =? 0) (s_pkts s).

(** The result of the call, with [None] for an access outside the table. *)
Definition quic_sent_on_send (s : quic_sent) (pn size time_sent : Z) : option (bool * quic_sent) :=
  let i := free_slot s in
  if i =? QUIC_SENT_CAP then Some (false, s)
  else match store (s_pkts s) i (mk_sent_pkt pn size time_sent QUIC_PKT_INFLIGHT 1) with
       | None => None
       | Some pkts => Some (true, mk_sent pkts (s_bytes_in_flight s +w size) (s_largest_acked s) (s_have_acked s))
       end.

Definition slot_has_pn (pn : Z) (p : quic_sent_pkt) : bool := negb (sp_used p =? 0) && (sp_pn p =? pn).
Definition find_pn (s : quic_sent) (pn : Z) : Z := scan (slot_has_pn pn) (s_pkts s).

Definition note_acked (s : quic_sent) (pn : Z) : quic_sent :=
  mk_sent (s_pkts s) (s_bytes_in_flight s)
    (if (s_have_acked s =? 0) || (s_largest_acked s <? pn) then pn else s_largest_acked s) 1.

Definition quic_sent_on_ack (s : quic_sent) (pn : Z) : option (bool * quic_sent) :=
  let i := find_pn s pn in
  let s := note_acked s pn in
  if i =? QUIC_SENT_CAP then Some (false, s)
  else match load (s_pkts s) i with
       | None => None
       | Some p =>
           if negb (sp_state p =? QUIC_PKT_INFLIGHT) then Some (false, s)
           else match store (s_pkts s) i (sp_set_state p QUIC_PKT_ACKED) with
                | None => None
                | Some pkts => Some (true, mk_sent pkts (s_bytes_in_flight s -w sp_size p)
                                             (s_largest_acked s) (s_have_acked s))
                end
       end.

Definition is_lost (largest_acked : Z) (p : quic_sent_pkt) : bool :=
  negb (sp_used p =? 0) && (sp_state p =? QUIC_PKT_INFLIGHT) && (sp_pn p +w QUIC_PACKET_THRESHOLD <=? largest_acked).

(** The sweep visits each slot once; [lose_one] on a slot subtracts its size and
    marks it. *)
Fixpoint sweep_losses (largest_acked : Z) (pkts : list quic_sent_pkt) (bytes lost : Z)
  : list quic_sent_pkt * Z * Z :=
  match pkts with
  | [] => ([], bytes, lost)
  | p :: rest =>
      if is_lost largest_acked p
      then let '(rest', bytes', lost') := sweep_losses largest_acked rest (bytes -w sp_size p) (lost +w 1) in
           (sp_set_state p QUIC_PKT_LOST :: rest', bytes', lost')
      else let '(rest', bytes', lost') := sweep_losses largest_acked rest bytes lost in (p :: rest', bytes', lost')
  end.

Definition quic_sent_detect_loss (s : quic_sent) : Z * quic_sent :=
  if s_have_acked s =? 0 then (0, s)
  else let '(pkts, bytes, lost) := sweep_losses (s_largest_acked s) (s_pkts s) (s_bytes_in_flight s) 0 in
       (lost, mk_sent pkts bytes (s_largest_acked s) (s_have_acked s)).

(** * sentmeta/record.c, on_ack.c, detect_loss.c *)

Definition QUIC_SENTMETA_CAP : Z := 256.
Definition QUIC_SENTMETA_PACKET_THRESHOLD : Z := 3.

Record quic_sentmeta_pkt := mk_meta_pkt {
  mp_pn : Z; mp_time_sent : Z; mp_sent_bytes : Z; mp_ack_eliciting : Z; mp_in_flight : Z; mp_used : Z }.
Record quic_sentmeta := mk_meta { m_pkts : list quic_sentmeta_pkt; m_count : Z; m_total_in_flight : Z }.

Definition mp_free (p : quic_sentmeta_pkt) : quic_sentmeta_pkt :=
  mk_meta_pkt (mp_pn p) (mp_time_sent p) (mp_sent_bytes p) (mp_ack_eliciting p) (mp_in_flight p) 0.

Definition quic_sentmeta_init (m : quic_sentmeta) : quic_sentmeta := mk_meta (map mp_free (m_pkts m)) 0 0.

Definition sentmeta_free_slot (m : quic_sentmeta) : Z := scan (fun p => mp_used p =? 0) (m_pkts m).

Definition sentmeta_store (pn time_sent ack_eliciting in_flight sent_bytes : Z) : quic_sentmeta_pkt :=
  mk_meta_pkt pn time_sent sent_bytes (if ack_eliciting =? 0 then 0 else 1) (if in_flight =? 0 then 0 else 1) 1.

Definition quic_sentmeta_on_sent (m : quic_sentmeta) (pn time_sent ack_eliciting in_flight sent_bytes : Z)
  : option (bool * quic_sentmeta) :=
  let i := sentmeta_free_slot m in
  if i =? QUIC_SENTMETA_CAP then Some (false, m)
  else match store (m_pkts m) i (sentmeta_store pn time_sent ack_eliciting in_flight sent_bytes) with
       | None => None
       | Some pkts => Some (true, mk_meta pkts (m_count m +w 1)
                                    (if in_flight =? 0 then m_total_in_flight m else m_total_in_flight m +w sent_bytes))
       end.

Definition quic_sentmeta_reclaim (m : quic_sentmeta) (i : Z) : option quic_sentmeta :=
  match load (m_pkts m) i with
  | None => None
  | Some p =>
      match store (m_pkts m) i (mp_free p) with
      | None => None
      | Some pkts => Some (mk_meta pkts (m_count m -w 1)
                             (if mp_in_flight p =? 0 then m_total_in_flight m else m_total_in_flight m -w mp_sent_bytes p))
      end
  end.

Definition sentmeta_holds (pn : Z) (p : quic_sentmeta_pkt) : bool := negb (mp_used p =? 0) && (mp_pn p =? pn).
Definition quic_sentmeta_find (m : quic_sentmeta) (pn : Z) : Z := scan (sentmeta_holds pn) (m_pkts m).

(** [Some (time_sent, ack_eliciting)] when it returns 1. *)
Definition quic_sentmeta_on_ack (m : quic_sentmeta) (acked_pn : Z) : option (option (Z * Z) * quic_sentmeta) :=
  let i := quic_sentmeta_find m acked_pn in
  if i =? QUIC_SENTMETA_CAP then Some (None, m)
  else match load (m_pkts m) i with
       | None => None
       | Some p => match quic_sentmeta_reclaim m i with
                   | None => None
                   | Some m' => Some (Some (mp_time_sent p, mp_ack_eliciting p), m')
                   end
       end.

Definition sentmeta_by_packet (largest_acked pn : Z) : bool := pn +w QUIC_SENTMETA_PACKET_THRESHOLD <=? largest_acked.
Definition sentmeta_by_time (now sent loss_delay : Z) : bool := sent +w loss_delay <=? now.
Definition sentmeta_is_lost (largest_acked now loss_delay : Z) (p : quic_sentmeta_pkt) : bool :=
  sentmeta_by_packet largest_acked (mp_pn p) || sentmeta_by_time now (mp_time_sent p) loss_delay.
Definition sentmeta_lost_slot (largest_acked now loss_delay : Z) (p : quic_sentmeta_pkt) : bool :=
  negb (mp_used p =? 0) && sentmeta_is_lost largest_acked now loss_delay p.

(** [for (i = 0; i < CAP; i++) if (lost(i)) { lost_pns[n++] = pn; reclaim(i); }],
    with [k] rounds left; the second component is what was appended to [lost_pns]. *)
Fixpoint detect_loss_loop (k : nat) (i largest_acked now loss_delay : Z) (m : quic_sentmeta) (lost : list Z)
  : option (quic_sentmeta * list Z) :=
  match k with
  | O => Some (m, lost)
  | S k' =>
      match load (m_pkts m) i with
      | None => None
      | Some p =>
          if sentmeta_lost_slot largest_acked now loss_delay p
          then match quic_sentmeta_reclaim m i with
               | None => None
               | Some m' => detect_loss_loop k' (i + 1) largest_acked now loss_delay m' (lost ++ [mp_pn p])
               end
          else detect_loss_loop k' (i + 1) largest_acked now loss_delay m lost
      end
  end.

Definition quic_sentmeta_detect_loss (m : quic_sentmeta) (largest_acked now loss_delay : Z)
  : option (quic_sentmeta * list Z) :=
  detect_loss_loop (Z.to_nat QUIC_SENTMETA_CAP) 0 largest_acked now loss_delay m [].

(** * The table of sent packets as a transition system *)

Definition in_use (p : quic_sent_pkt) : bool := negb (sp_used p =? 0).
Definition in_flight (p : quic_sent_pkt) : bool := in_use p && (sp_state p =? QUIC_PKT_INFLIGHT).
Definition flight_bytes (s : quic_sent) : Z := sum_if in_flight sp_size (s_pkts s).
Definition used_slots (s : quic_sent) : nat := length (select in_use (s_pkts s)).

Inductive sent_op := OpSend (pn size time_sent : Z) | OpAck (pn : Z) | OpLoss.

(** The call and its C return value. *)
Definition sent_exec (op : sent_op) (s : quic_sent) : option (Z * quic_sent) :=
  match op with
  | OpSend pn size t => option_map (fun r : bool * quic_sent => (if fst r then 1 else 0, snd r)) (quic_sent_on_send s pn size t)
  | OpAck pn => option_map (fun r : bool * quic_sent => (if fst r then 1 else 0, snd r)) (quic_sent_on_ack s pn)
  | OpLoss => Some (quic_sent_detect_loss s)
  end.

(** The states after a sequence of calls, with the calls made and their results. *)
Inductive sent_reach : list (sent_op * Z) -> quic_sent -> Prop :=
| sr_init s0 : zlen (s_pkts s0) = QUIC_SENT_CAP -> sent_reach [] (quic_sent_init s0)
| sr_step tr s op r s' : sent_reach tr s -> sent_exec op s = Some (r, s') -> sent_reach (tr ++ [(op, r)]) s'.

(** What the trace says: packets accepted, and the largest number acknowledged. *)
Definition accepted (e : sent_op * Z) : bool :=
  match fst e with OpSend _ _ _ => snd e =? 1 | _ => false end.
Fixpoint max_acked (tr : list (sent_op * Z)) (acc : option Z) : option Z :=
  match tr with
  | [] => acc
  | (OpAck pn, _) :: tr' =>
      max_acked tr' (Some (match acc with None => pn | Some a => if a <? pn then pn else a end))
  | _ :: tr' => max_acked tr' acc
  end.

Record sent_inv (tr : list (sent_op * Z)) (s : quic_sent) : Prop := {
  si_len : zlen (s_pkts s) = QUIC_SENT_CAP;
  si_bytes : s_bytes_in_flight s = u64 (flight_bytes s);
  si_used : used_slots s = length (select accepted tr);
  si_acked : max_acked tr None = if s_have_acked s =? 0 then None else Some (s_largest_acked s);
}.

(** ** Each call *)

Lemma u64_sub_mod a b : u64 (u64 a - b) = u64 (a - b).
Proof. unfold u64. apply Zminus_mod_idemp_l. Qed.
Lemma u64_add_mod a b : u64 (u64 a + b) = u64 (a + b).
Proof. unfold u64. apply Zplus_mod_idemp_l. Qed.

Lemma max_acked_snoc tr : forall acc e, max_acked (tr ++ [e]) acc = max_acked [e] (max_acked tr acc).
Proof. induction tr as [|[[] r] tr IH]; intros acc e; cbn [app max_acked]; [done|apply IH..]. Qed.

Lemma on_send_cases s pn size t : zlen (s_pkts s) = QUIC_SENT_CAP ->
  (Forall (fun p => in_use p = true) (s_pkts s) /\ quic_sent_on_send s pn size t = Some (false, s)) \/
  (exists pre old post, s_pkts s = pre ++ old :: post /\ in_use old = false /\
     quic_sent_on_send s pn size t =
     Some (true, mk_sent (pre ++ mk_sent_pkt pn size t QUIC_PKT_INFLIGHT 1 :: post)
                   (s_bytes_in_flight s +w size) (s_largest_acked s) (s_have_acked s))).
Proof.
  intros Hl. unfold quic_sent_on_send, free_slot. set (p := fun q => sp_used q =? 0).
  pose proof (scan_range p (s_pkts s)) as Hr. destruct (Z.eqb_spec (scan p (s_pkts s)) QUIC_SENT_CAP) as [E|E].
  - left. split; [|done]. rewrite <- Hl in E. apply scan_none in E. eapply List.Forall_impl; [|exact E].
    intros q Hq. unfold in_use. unfold p in Hq. by rewrite Hq.
  - right. destruct (scan_found p (s_pkts s)) as (pre & old & post & E1 & E2 & E3 & _); [lia|].
    exists pre, old, post. split; [done|]. split; [unfold in_use; unfold p in E3; by rewrite E3|].
    rewrite E2, E1, store_middle by done. done.
Qed.

Lemma on_ack_cases s pn : zlen (s_pkts s) = QUIC_SENT_CAP ->
  (Forall (fun q => slot_has_pn pn q = false) (s_pkts s) /\ quic_sent_on_ack s pn = Some (false, note_acked s pn)) \/
  (exists pre p post, s_pkts s = pre ++ p :: post /\ slot_has_pn pn p = true /\
     Forall (fun q => slot_has_pn pn q = false) pre /\
     quic_sent_on_ack s pn =
     Some (if in_flight p
           then (true, mk_sent (pre ++ sp_set_state p QUIC_PKT_ACKED :: post) (s_bytes_in_flight s -w sp_size p)
                         (s_largest_acked (note_acked s pn)) 1)
           else (false, note_acked s pn))).
Proof.
  intros Hl. unfold quic_sent_on_ack, find_pn. cbn [note_acked s_pkts].
  pose proof (scan_range (slot_has_pn pn) (s_pkts s)).
  destruct (Z.eqb_spec (scan (slot_has_pn pn) (s_pkts s)) QUIC_SENT_CAP) as [E|E].
  { left. split; [|done]. rewrite <- Hl in E. by apply scan_none in E. }
  right. destruct (scan_found (slot_has_pn pn) (s_pkts s)) as (pre & p & post & E1 & E2 & E3 & E4); [lia|].
  exists pre, p, post. split; [done|]. split; [done|]. split; [done|].
  rewrite E2, E1, load_middle, store_middle by done. unfold in_flight, in_use. unfold slot_has_pn in E3. zbool.
  destruct (Z.eqb_spec (sp_used p) 0); [done|]. by destruct (sp_state p =? QUIC_PKT_INFLIGHT).
Qed.

Definition lose (largest_acked : Z) (p : quic_sent_pkt) : quic_sent_pkt :=
  if is_lost largest_acked p then sp_set_state p QUIC_PKT_LOST else p.

Lemma sweep_losses_spec la pkts : forall bytes lost, is_u64 bytes -> 0 <= lost -> lost + zlen pkts < max_object ->
  sweep_losses la pkts bytes lost =
  (map (lose la) pkts, u64 (bytes - sum_if (is_lost la) sp_size pkts), lost + zlen (select (is_lost la) pkts)).
Proof.
  induction pkts as [|p pkts IH]; intros bytes lost Hb Hl Hm; cbn [sweep_losses map sum_if select].
  - rewrite Z.sub_0_r, u64_id, zlen_nil, Z.add_0_r by done. done.
  - rewrite zlen_cons in Hm. pose proof (zlen_nonneg pkts). unfold lose at 1.
    destruct (is_lost la p).
    + unwrap. rewrite IH by (auto with quic; lia). rewrite u64_sub_mod, zlen_cons.
      by rewrite <- Z.sub_add_distr, Z.add_assoc.
    + rewrite IH by (done || lia). done.
Qed.

Lemma lose_in_use la p : in_use (lose la p) = in_use p.
Proof. unfold lose, in_use. by destruct (is_lost la p). Qed.

Lemma select_in_use_lose la pkts : length (select in_use (map (lose la) pkts)) = length (select in_use pkts).
Proof.
  induction pkts as [|p pkts IH]; [done|]. cbn [map select]. rewrite lose_in_use. destruct (in_use p); simpl; by rewrite IH.
Qed.

Lemma flight_lose la pkts :
  sum_if in_flight sp_size (map (lose la) pkts) = sum_if in_flight sp_size pkts - sum_if (is_lost la) sp_size pkts.
Proof.
  induction pkts as [|p pkts IH]; [done|]. cbn [map sum_if]. rewrite IH.
  assert (E : (if in_flight (lose la p) then sp_size (lose la p) else 0) =
              (if in_flight p then sp_size p else 0) - (if is_lost la p then sp_size p else 0)); [|lia].
  unfold lose. destruct (is_lost la p) eqn:El; [|lia].
  assert (Hf : in_flight p = true) by (unfold is_lost in El; by apply andb_true_iff in El as [El _]).
  rewrite Hf. unfold in_flight. cbn [sp_set_state sp_state]. rewrite andb_false_r. lia.
Qed.

(** ** The invariant *)

Lemma flight_swap s pre p q post b la ha :
  s_pkts s = pre ++ p :: post ->
  flight_bytes (mk_sent (pre ++ q :: post) b la ha) =
  flight_bytes s - (if in_flight p then sp_size p else 0) + (if in_flight q then sp_size q else 0).
Proof.
  intros E. unfold flight_bytes. rewrite E. cbn [s_pkts]. rewrite !sum_if_app. cbn [sum_if]. lia.
Qed.

Lemma used_swap s pre p q post b la ha :
  s_pkts s = pre ++ p :: post ->
  (used_slots (mk_sent (pre ++ q :: post) b la ha) + (if in_use p then 1 else 0) =
   used_slots s + (if in_use q then 1 else 0))%nat.
Proof.
  intros E. unfold used_slots. rewrite E. cbn [s_pkts]. rewrite !select_app, !length_app. cbn [select].
  destruct (in_use p), (in_use q); simpl; lia.
Qed.

Lemma zlen_swap {A} (pre : list A) p q post : zlen (pre ++ q :: post) = zlen (pre ++ p :: post).
Proof. by rewrite !zlen_app, !zlen_cons. Qed.

Lemma sent_inv_init s0 : zlen (s_pkts s0) = QUIC_SENT_CAP -> sent_inv [] (quic_sent_init s0).
Proof.
  intros Hl. unfold quic_sent_init.
  assert (Hf : forall l, Forall (fun p => in_use p = false) (map (fun p =>
    mk_sent_pkt (sp_pn p) (sp_size p) (sp_time_sent p) (sp_state p) 0) l))
    by (intros l; induction l; constructor; done).
  constructor; cbn [s_pkts s_bytes_in_flight s_have_acked].
  - unfold zlen in *. by rewrite length_map.
  - unfold flight_bytes. cbn [s_pkts]. rewrite sum_if_select, select_none; [done|].
    eapply List.Forall_impl; [|apply Hf]. intros p Hp. unfold in_flight. by rewrite Hp.
  - unfold used_slots. cbn [s_pkts]. by rewrite select_none.
  - done.
Qed.

Lemma note_acked_max s pn tr r :
  max_acked tr None = (if s_have_acked s =? 0 then None else Some (s_largest_acked s)) ->
  max_acked (tr ++ [(OpAck pn, r)]) None = Some (s_largest_acked (note_acked s pn)).
Proof.
  intros Ha. rewrite max_acked_snoc, Ha. cbn [max_acked note_acked s_largest_acked].
  destruct (s_have_acked s =? 0); [done|]. by destruct (s_largest_acked s <? pn).
Qed.

Lemma select_snoc {A} (p : A -> bool) l x : length (select p (l ++ [x])) = (length (select p l) + if p x then 1 else 0)%nat.
Proof. rewrite select_app, length_app. cbn [select]. by destruct (p x). Qed.

Lemma sent_inv_send tr s pn size t r s' :
  sent_inv tr s -> sent_exec (OpSend pn size t) s = Some (r, s') -> sent_inv (tr ++ [(OpSend pn size t, r)]) s'.
Proof.
  intros [Hl Hb Hu Ha] Hx. unfold sent_exec in Hx.
  destruct (on_send_cases s pn size t Hl) as [[Hfull Hx']|(pre & old & post & E & Ho & Hx')];
    rewrite Hx' in Hx; simpl in Hx; simplify_eq.
  - constructor; try done.
    + rewrite select_snoc. cbn. lia.
    + rewrite max_acked_snoc. done.
  - constructor; cbn [s_pkts s_bytes_in_flight s_have_acked s_largest_acked].
    + rewrite (zlen_swap pre old), <- E. done.
    + rewrite (flight_swap s pre old), Hb, u64_add_mod by done. f_equal. unfold in_flight at 1.
      rewrite Ho. cbn. lia.
    + rewrite select_snoc. pose proof (used_swap s pre old (mk_sent_pkt pn size t QUIC_PKT_INFLIGHT 1) post
        (s_bytes_in_flight s +w size) (s_largest_acked s) (s_have_acked s) E) as Hs.
      rewrite Ho in Hs. cbn in Hs |- *. lia.
    + rewrite max_acked_snoc. done.
Qed.

Lemma sent_inv_ack tr s pn r s' :
  sent_inv tr s -> sent_exec (OpAck pn) s = Some (r, s') -> sent_inv (tr ++ [(OpAck pn, r)]) s'.
Proof.
  intros [Hl Hb Hu Ha] Hx. unfold sent_exec in Hx.
  assert (Hnote : forall r, sent_inv (tr ++ [(OpAck pn, r)]) (note_acked s pn)).
  { intros r0. constructor; try done.
    - rewrite select_snoc. cbn. rewrite Nat.add_0_r. done.
    - by apply note_acked_max. }
  destruct (on_ack_cases s pn Hl) as [[_ Hx']|(pre & p & post & E & Hp & _ & Hx')];
    rewrite Hx' in Hx; cbn [option_map fst snd] in Hx; [simplify_eq; apply Hnote|].
  destruct (in_flight p) eqn:Ef; cbn [fst snd] in Hx; simplify_eq; [|apply Hnote].
  assert (Hup : in_use p = true) by (unfold in_flight in Ef; by zbool).
  constructor; cbn [s_pkts s_bytes_in_flight s_have_acked].
  - rewrite (zlen_swap pre p), <- E. done.
  - rewrite (flight_swap s pre p), Hb, u64_sub_mod, Ef by done. f_equal.
    unfold in_flight. cbn [sp_set_state sp_state]. rewrite andb_false_r. lia.
  - rewrite select_snoc. pose proof (used_swap s pre p (sp_set_state p QUIC_PKT_ACKED) post
      (s_bytes_in_flight s -w sp_size p) (s_largest_acked (note_acked s pn)) 1 E) as Hs.
    assert (Hq : in_use (sp_set_state p QUIC_PKT_ACKED) = true) by done.
    rewrite Hup, Hq in Hs. cbn in Hs |- *. lia.
  - by apply note_acked_max.
Qed.

Lemma detect_loss_spec s : zlen (s_pkts s) = QUIC_SENT_CAP -> is_u64 (s_bytes_in_flight s) ->
  quic_sent_detect_loss s =
  if s_have_acked s =? 0 then (0, s)
  else (zlen (select (is_lost (s_largest_acked s)) (s_pkts s)),
        mk_sent (map (lose (s_largest_acked s)) (s_pkts s))
          (u64 (s_bytes_in_flight s - sum_if (is_lost (s_largest_acked s)) sp_size (s_pkts s)))
          (s_largest_acked s) (s_have_acked s)).
Proof.
  intros Hl Hb. unfold quic_sent_detect_loss. destruct (s_have_acked s =? 0); [done|].
  rewrite sweep_losses_spec by (done || (unfold QUIC_SENT_CAP, max_object in *; lia)). done.
Qed.

Lemma sent_inv_loss tr s r s' :
  sent_inv tr s -> sent_exec OpLoss s = Some (r, s') -> sent_inv (tr ++ [(OpLoss, r)]) s'.
Proof.
  intros [Hl Hb Hu Ha] Hx. unfold sent_exec in Hx. rewrite detect_loss_spec in Hx by (done || (rewrite Hb; auto with quic)).
  assert (Hsel : forall r, length (select accepted (tr ++ [(OpLoss, r)])) = length (select accepted tr))
    by (intros; rewrite select_snoc; cbn; lia).
  destruct (s_have_acked s =? 0) eqn:Eh; simplify_eq.
  - constructor; try done; [by rewrite Hsel|by rewrite max_acked_snoc, Eh].
  - constructor; cbn [s_pkts s_bytes_in_flight s_have_acked s_largest_acked].
    + unfold zlen in *. by rewrite length_map.
    + rewrite Hb, u64_sub_mod. unfold flight_bytes. cbn [s_pkts]. by rewrite flight_lose.
    + rewrite Hsel. unfold used_slots in *. cbn [s_pkts]. by rewrite select_in_use_lose.
    + rewrite max_acked_snoc, Eh. done.
Qed.

Lemma sent_reach_inv tr s : sent_reach tr s -> sent_inv tr s.
Proof.
  induction 1 as [s0 H|tr s [pn size t|pn|] r s' _ IH Hx].
  - by apply sent_inv_init.
  - by eapply sent_inv_send.
  - by eapply sent_inv_ack.
  - by eapply sent_inv_loss.
Qed.

(** Calls never leave the table. *)
Lemma sent_exec_total tr s op : sent_inv tr s -> exists r s', sent_exec op s = Some (r, s').
Proof.
  intros [Hl _ _ _]. destruct op as [pn size t|pn|]; unfold sent_exec.
  - destruct (on_send_cases s pn size t Hl) as [[_ ->]|(? & ? & ? & _ & _ & ->)]; by eexists _, _.
  - destruct (on_ack_cases s pn Hl) as [[_ ->]|(? & ? & ? & _ & _ & _ & ->)]; by eexists _, _.
  - destruct (quic_sent_detect_loss s) as [r s']. by eexists _, _.
Qed.

(** * The metadata ring *)

Definition tracked (m : quic_sentmeta) : list quic_sentmeta_pkt := select (fun p => negb (mp_used p =? 0)) (m_pkts m).
Definition mp_counts (p : quic_sentmeta_pkt) : bool := negb (mp_in_flight p =? 0).

(** The counters follow the tracked packets. *)
Record meta_inv (m : quic_sentmeta) : Prop := {
  mi_len : zlen (m_pkts m) = QUIC_SENTMETA_CAP;
  mi_count : m_count m = zlen (tracked m);
  mi_total : m_total_in_flight m = u64 (sum_if mp_counts mp_sent_bytes (tracked m));
}.

Lemma tracked_swap m pre p q post c t :
  m_pkts m = pre ++ p :: post ->
  tracked m = select (fun p => negb (mp_used p =? 0)) pre ++ (if mp_used p =? 0 then [] else [p]) ++
              select (fun p => negb (mp_used p =? 0)) post /\
  tracked (mk_meta (pre ++ q :: post) c t) =
  select (fun p => negb (mp_used p =? 0)) pre ++ (if mp_used q =? 0 then [] else [q]) ++
              select (fun p => negb (mp_used p =? 0)) post.
Proof.
  intros E. unfold tracked. rewrite E. cbn [m_pkts]. rewrite !select_app. cbn [select].
  by destruct (mp_used p =? 0), (mp_used q =? 0).
Qed.

Lemma tracked_bound m : zlen (m_pkts m) = QUIC_SENTMETA_CAP -> zlen (tracked m) <= QUIC_SENTMETA_CAP.
Proof. intros Hl. pose proof (length_select (fun p => negb (mp_used p =? 0)) (m_pkts m)). unfold tracked, zlen in *. lia. Qed.

Lemma sum_if_perm {A} (p : A -> bool) f l k : Permutation l k -> sum_if p f l = sum_if p f k.
Proof. induction 1; cbn [sum_if]; lia. Qed.

(** Freeing the slot that holds [p] takes [p] out of the tracked packets. *)
Lemma reclaim_spec m pre p post :
  meta_inv m -> m_pkts m = pre ++ p :: post -> mp_used p <> 0 ->
  exists m', quic_sentmeta_reclaim m (zlen pre) = Some m' /\ meta_inv m' /\ m_pkts m' = pre ++ mp_free p :: post /\
    Permutation (tracked m) (p :: tracked m').
Proof.
  intros [Hl Hc Ht] E Hu. unfold quic_sentmeta_reclaim. rewrite E, load_middle, store_middle by done.
  eexists. split; [done|]. set (m' := mk_meta _ _ _).
  assert (HP : Permutation (tracked m) (p :: tracked m')).
  { destruct (tracked_swap m pre p (mp_free p) post (m_count m') (m_total_in_flight m') E) as [T1 T2].
    destruct (Z.eqb_spec (mp_used p) 0); [done|]. change (mp_used (mp_free p) =? 0) with true in T2. cbv iota in T2.
    rewrite T1. change m' with (mk_meta (pre ++ mp_free p :: post) (m_count m') (m_total_in_flight m')).
    rewrite T2. cbn [app]. by rewrite Permutation_middle. }
  split; [|by split]. pose proof (tracked_bound m Hl) as Hb. pose proof (zlen_nonneg (tracked m')).
  assert (Hz : zlen (tracked m) = 1 + zlen (tracked m')).
  { unfold zlen. rewrite (Permutation_length HP). simpl length. lia. }
  constructor.
  - unfold m'. cbn [m_pkts]. rewrite (zlen_swap pre p), <- E. done.
  - change (m_count m') with (m_count m -w 1). unfold QUIC_SENTMETA_CAP in *.
    rewrite Hc, Hz, u64_id by (unfold is_u64; lia). lia.
  - change (m_total_in_flight m') with
      (if mp_in_flight p =? 0 then m_total_in_flight m else m_total_in_flight m -w mp_sent_bytes p).
    rewrite Ht, (sum_if_perm _ _ _ _ HP). cbn [sum_if].
    change (mp_counts p) with (negb (mp_in_flight p =? 0)). destruct (mp_in_flight p =? 0); cbn [negb].
    + by rewrite Z.add_0_l.
    + rewrite u64_sub_mod. f_equal. lia.
Qed.

Lemma on_sent_spec m pn t ae fl bytes : meta_inv m ->
  (zlen (tracked m) = QUIC_SENTMETA_CAP /\ quic_sentmeta_on_sent m pn t ae fl bytes = Some (false, m)) \/
  (exists m', zlen (tracked m) < QUIC_SENTMETA_CAP /\ quic_sentmeta_on_sent m pn t ae fl bytes = Some (true, m') /\ meta_inv m' /\
     Permutation (tracked m') (sentmeta_store pn t ae fl bytes :: tracked m)).
Proof.
  intros [Hl Hc Ht]. unfold quic_sentmeta_on_sent, sentmeta_free_slot. set (q := fun p => mp_used p =? 0).
  pose proof (scan_range q (m_pkts m)). pose proof (tracked_bound m Hl) as Hb.
  destruct (Z.eqb_spec (scan q (m_pkts m)) QUIC_SENTMETA_CAP) as [E|E].
  - left. split; [|done]. rewrite <- Hl in E. apply scan_none in E. rewrite <- Hl. unfold tracked.
    rewrite select_all; [done|]. eapply List.Forall_impl; [|exact E]. unfold q. by intros x ->.
  - right. destruct (scan_found q (m_pkts m)) as (pre & p & post & E1 & E2 & E3 & _); [lia|].
    rewrite E2, E1, store_middle by done. eexists. split.
    { assert (zlen (tracked m) <> QUIC_SENTMETA_CAP); [|lia]. intros Hx. rewrite <- Hl in Hx. unfold zlen in Hx.
      apply Nat2Z.inj, select_full in Hx. rewrite E1 in Hx. apply Forall_app in Hx as [_ Hx].
      apply Forall_cons_iff in Hx as [Hx _]. unfold q in E3. by rewrite E3 in Hx. }
    split; [done|]. set (np := sentmeta_store pn t ae fl bytes). set (m' := mk_meta _ _ _).
    assert (HP : Permutation (tracked m') (np :: tracked m)).
    { destruct (tracked_swap m pre p np post (m_count m') (m_total_in_flight m') E1) as [T1 T2].
      unfold q in E3. rewrite E3 in T1. change (mp_used np =? 0) with false in T2. cbv iota in T2.
      rewrite T1. change m' with (mk_meta (pre ++ np :: post) (m_count m') (m_total_in_flight m')).
      rewrite T2. cbn [app]. by rewrite Permutation_middle. }
    split; [|done].
    assert (Hz : zlen (tracked m') = 1 + zlen (tracked m)).
    { unfold zlen. rewrite (Permutation_length HP). simpl length. lia. }
    assert (Hl' : zlen (m_pkts m') = QUIC_SENTMETA_CAP) by (unfold m'; cbn [m_pkts]; by rewrite (zlen_swap pre p), <- E1).
    pose proof (tracked_bound m' Hl'). pose proof (zlen_nonneg (tracked m)).
    constructor; [done| |].
    + change (m_count m') with (m_count m +w 1). unfold QUIC_SENTMETA_CAP in *.
      rewrite Hc, Hz, u64_id by (unfold is_u64; lia). lia.
    + change (m_total_in_flight m') with (if fl =? 0 then m_total_in_flight m else m_total_in_flight m +w bytes).
      rewrite Ht, (sum_if_perm _ _ _ _ HP). cbn [sum_if].
      change (mp_counts np) with (negb ((if fl =? 0 then 0 else 1) =? 0)). change (mp_sent_bytes np) with bytes.
      destruct (fl =? 0); cbn [negb Z.eqb].
      * by rewrite Z.add_0_l.
      * rewrite u64_add_mod. f_equal. lia.
Qed.

Lemma find_spec m pn :
  (Forall (fun p => sentmeta_holds pn p = false) (m_pkts m) /\ quic_sentmeta_find m pn = zlen (m_pkts m)) \/
  (exists pre p post, m_pkts m = pre ++ p :: post /\ sentmeta_holds pn p = true /\ quic_sentmeta_find m pn = zlen pre /\
     zlen pre < zlen (m_pkts m)).
Proof.
  unfold quic_sentmeta_find. pose proof (scan_range (sentmeta_holds pn) (m_pkts m)).
  destruct (Z.eq_dec (scan (sentmeta_holds pn) (m_pkts m)) (zlen (m_pkts m))) as [E|E].
  - left. split; [by apply scan_none|done].
  - right. destruct (scan_found (sentmeta_holds pn) (m_pkts m)) as (pre & p & post & E1 & E2 & E3 & _); [lia|].
    exists pre, p, post. split_and!; try done. lia.
Qed.

Lemma on_ack_spec m pn : meta_inv m ->
  (quic_sentmeta_on_ack m pn = Some (None, m) /\ Forall (fun p => mp_pn p <> pn) (tracked m)) \/
  (exists m' p, quic_sentmeta_on_ack m pn = Some (Some (mp_time_sent p, mp_ack_eliciting p), m') /\ meta_inv m' /\
     mp_pn p = pn /\ Permutation (tracked m) (p :: tracked m')).
Proof.
  intros Hi. unfold quic_sentmeta_on_ack. pose proof (mi_len m Hi) as Hl.
  destruct (find_spec m pn) as [[Hf ->]|(pre & p & post & E & Hp & -> & Hlt)].
  - left. rewrite Hl, Z.eqb_refl. split; [done|]. apply Forall_forall. intros p Hin Hpn.
    apply elem_select in Hin as [Hin Hu]. pose proof (proj1 (Forall_forall _ _) Hf p Hin) as Hh.
    unfold sentmeta_holds in Hh. cbn beta in Hh. by rewrite Hu, Hpn, Z.eqb_refl in Hh.
  - right. rewrite Hl in Hlt. zdecide. unfold sentmeta_holds in Hp. zbool.
    destruct (reclaim_spec m pre p post Hi E ltac:(done)) as (m' & Hr & Hi' & _ & HP).
    exists m', p. rewrite E, load_middle, Hr by done. split_and!; done.
Qed.

Definition drop_lost_slot (la now delay : Z) (p : quic_sentmeta_pkt) : quic_sentmeta_pkt :=
  if sentmeta_lost_slot la now delay p then mp_free p else p.

Lemma detect_loss_loop_spec la now delay todo : forall seen m lost,
  meta_inv m -> m_pkts m = seen ++ todo ->
  exists m', detect_loss_loop (length todo) (zlen seen) la now delay m lost =
      Some (m', lost ++ map mp_pn (select (sentmeta_lost_slot la now delay) todo)) /\
    meta_inv m' /\ m_pkts m' = seen ++ map (drop_lost_slot la now delay) todo.
Proof.
  induction todo as [|p todo IH]; intros seen m lost Hi E.
  - exists m. cbn. by rewrite !app_nil_r in *.
  - cbn [length detect_loss_loop select map]. unfold drop_lost_slot at 1.
    rewrite E, load_middle by done.
    replace (zlen seen + 1) with (zlen (seen ++ [p])) by (rewrite zlen_app; done).
    destruct (sentmeta_lost_slot la now delay p) eqn:El.
    + destruct (reclaim_spec m seen p todo Hi E) as (m1 & -> & Hi1 & E1 & _).
      { unfold sentmeta_lost_slot in El. by zbool. }
      destruct (IH (seen ++ [mp_free p]) m1 (lost ++ [mp_pn p]) Hi1) as (m' & Hx & Hi' & E').
      { by rewrite E1, <- app_assoc. }
      exists m'. rewrite <- !app_assoc in *. cbn [app map] in *.
      replace (zlen (seen ++ [p])) with (zlen (seen ++ [mp_free p])) by (by rewrite !zlen_app). by split_and!.
    + destruct (IH (seen ++ [p]) m lost Hi) as (m' & Hx & Hi' & E'); [by rewrite <- app_assoc|].
      exists m'. rewrite <- !app_assoc in *. cbn [app] in *. by split_and!.
Qed.

Definition lost_pkt (la now delay : Z) (p : quic_sentmeta_pkt) : bool := sentmeta_is_lost la now delay p.

Lemma tracked_drop la now delay l :
  select (fun p => negb (mp_used p =? 0)) (map (drop_lost_slot la now delay) l) =
  select (fun p => negb (lost_pkt la now delay p)) (select (fun p => negb (mp_used p =? 0)) l) /\
  select (sentmeta_lost_slot la now delay) l =
  select (lost_pkt la now delay) (select (fun p => negb (mp_used p =? 0)) l).
Proof.
  induction l as [|p l [IH1 IH2]]; [done|]. cbn [map select].
  assert (D : drop_lost_slot la now delay p = if sentmeta_lost_slot la now delay p then mp_free p else p) by done.
  rewrite D. clear D. assert (E : sentmeta_lost_slot la now delay p = negb (mp_used p =? 0) && lost_pkt la now delay p) by done. rewrite E.
  destruct (mp_used p =? 0) eqn:Eu; cbn [negb andb]; [by rewrite Eu|].
  destruct (lost_pkt la now delay p) eqn:El; cbn [select].
  - change (mp_used (mp_free p) =? 0) with true. cbn [negb]. rewrite El. cbn [negb]. split; [done|by f_equal].
  - rewrite Eu, El. cbn [negb]. split; [by f_equal|done].
Qed.

(** ** Calls that change nothing the second time *)

Lemma note_acked_idem s pn : note_acked (note_acked s pn) pn = note_acked s pn.
Proof.
  unfold note_acked. cbn [s_pkts s_bytes_in_flight s_largest_acked s_have_acked]. f_equal. cbn [Z.eqb orb].
  destruct (Z.ltb_spec (s_largest_acked s) pn); [rewrite orb_true_r; zdecide; done|].
  rewrite orb_false_r. destruct (s_have_acked s =? 0); zdecide; done.
Qed.

Lemma note_acked_settled s pn pkts b :
  let s' := mk_sent pkts b (s_largest_acked (note_acked s pn)) 1 in note_acked s' pn = s'.
Proof.
  assert (Hge : pn <= s_largest_acked (note_acked s pn)).
  { unfold note_acked. cbn [s_largest_acked]. destruct (s_have_acked s =? 0); cbn [orb]; [lia|].
    destruct (Z.ltb_spec (s_largest_acked s) pn); lia. }
  cbv zeta. set (L := s_largest_acked (note_acked s pn)) in *. unfold note_acked.
  cbn [s_pkts s_bytes_in_flight s_largest_acked s_have_acked Z.eqb orb]. zdecide. done.
Qed.

(** A state already noted, whose first slot with [pn] (if any) is not in flight. *)
Lemma on_ack_settled s pn : zlen (s_pkts s) = QUIC_SENT_CAP -> note_acked s pn = s ->
  (Forall (fun q => slot_has_pn pn q = false) (s_pkts s) \/
   exists pre p post, s_pkts s = pre ++ p :: post /\ slot_has_pn pn p = true /\ in_flight p = false /\
     Forall (fun q => slot_has_pn pn q = false) pre) ->
  quic_sent_on_ack s pn = Some (false, s).
Proof.
  intros Hl Hn Hs. destruct (on_ack_cases s pn Hl) as [[_ E]|(pre & p & post & Es & Hp & Hpre & E)]; [by rewrite E, Hn|].
  destruct Hs as [Hs|(pre' & p' & post' & Es' & Hp' & Hf' & Hpre')].
  - rewrite Es in Hs. apply Forall_app in Hs as [_ Hs]. apply Forall_cons_iff in Hs as [Hs _]. congruence.
  - assert (p = p') as ->; [|by rewrite E, Hf', Hn].
    rewrite Es in Es'. clear - Es' Hp Hp' Hpre Hpre'. revert pre' Es' Hpre'.
    induction pre as [|q pre IH]; intros [|q' pre'] Es' Hpre'; cbn [app] in Es'; simplify_eq; [done|..].
    + apply Forall_cons_iff in Hpre' as [? _]. congruence.
    + apply Forall_cons_iff in Hpre as [? _]. congruence.
    + apply Forall_cons_iff in Hpre as [_ Hpre]. apply Forall_cons_iff in Hpre' as [_ Hpre']. by eapply IH.
Qed.

Lemma lose_not_lost la p : is_lost la (lose la p) = false.
Proof.
  unfold lose. destruct (is_lost la p) eqn:E; [|done]. unfold is_lost. cbn [sp_set_state sp_used sp_state sp_pn].
  by rewrite andb_false_r.
Qed.

Lemma detect_loss_twice s la : s_have_acked s <> 0 -> s_largest_acked s = la -> zlen (s_pkts s) = QUIC_SENT_CAP ->
  is_u64 (s_bytes_in_flight s) -> Forall (fun p => is_lost la p = false) (s_pkts s) ->
  quic_sent_detect_loss s = (0, s).
Proof.
  intros Hh Hla Hl Hb Hf. rewrite detect_loss_spec by done. destruct (Z.eqb_spec (s_have_acked s) 0); [done|].
  rewrite Hla, select_none, sum_if_select, select_none by done. cbn [sum_if]. rewrite Z.sub_0_r, u64_id by done.
  f_equal. rewrite <- Hla at 2. destruct s as [pkts b la' ha]. cbn [s_pkts s_bytes_in_flight s_largest_acked s_have_acked] in *.
  f_equal. rewrite <- (map_id pkts) at 2. apply map_ext_in. intros p Hp. unfold lose.
  by rewrite (proj1 (Forall_forall _ _) Hf p Hp).
Qed.

(** * Properties *)

(** C31: along every sequence of sends, acknowledgements and loss sweeps from an
    initialised table, no call leaves the table, [bytes_in_flight] is exactly the
    sum (modulo 2^64) of the sizes of the packets still in flight, so every packet
    is subtracted exactly once, and [largest_acked] is the largest packet number
    acknowledged so far. *)
Theorem sent_accounting (tr : list (sent_op * Z)) (s : quic_sent) (op : sent_op) (Hr : sent_reach tr s) :
  (exists r s', sent_exec op s = Some (r, s')) /\
  s_bytes_in_flight s = u64 (flight_bytes s) /\
  max_acked tr None = (if s_have_acked s =? 0 then None else Some (s_largest_acked s)).
Proof.
  pose proof (sent_reach_inv tr s Hr) as Hi. split; [by eapply sent_exec_total|].
  destruct Hi as [_ Hb _ Ha]. by split.
Qed.

Definition sent_blank : quic_sent := mk_sent (repeat (mk_sent_pkt 0 0 0 0 0) 256) 7 7 7.

(** A run of calls, for the examples. *)
Fixpoint sent_run (ops : list sent_op) (s : quic_sent) : option (list (sent_op * Z) * quic_sent) :=
  match ops with
  | [] => Some ([], s)
  | op :: ops' =>
      match sent_exec op s with
      | None => None
      | Some (r, s') => match sent_run ops' s' with
                        | None => None
                        | Some (tr, s'') => Some ((op, r) :: tr, s'')
                        end
      end
  end.

Lemma sent_run_reach ops : forall tr s tr' s', sent_reach tr s -> sent_run ops s = Some (tr', s') -> sent_reach (tr ++ tr') s'.
Proof.
  induction ops as [|op ops IH]; intros tr s tr' s' Hr Hx; cbn [sent_run] in Hx; [simplify_eq; by rewrite app_nil_r|].
  destruct (sent_exec op s) as [[r s1]|] eqn:E; [|done]. destruct (sent_run ops s1) as [[tr1 s2]|] eqn:E1; [|done].
  simplify_eq. change ((op, r) :: tr1) with ([(op, r)] ++ tr1). rewrite app_assoc. eapply IH; [by eapply sr_step|done].
Qed.

Definition sent_example_ops : list sent_op :=
  [OpSend 0 1200 5; OpSend 1 100 6; OpSend 3 50 7; OpAck 3; OpLoss; OpAck 1].
Definition sent_example : option (list (sent_op * Z) * quic_sent) := sent_run sent_example_ops (quic_sent_init sent_blank).

(** Witness: three packets sent; the last is acknowledged, the first declared
    lost, the second acknowledged. *)
Lemma sent_accounting_witness :
  exists tr s, sent_example = Some (tr, s) /\ s_bytes_in_flight s = u64 (flight_bytes s) /\ s_bytes_in_flight s = 0 /\
    max_acked tr None = Some 3.
Proof.
  destruct sent_example as [[tr s]|] eqn:E; [|vm_compute in E; discriminate E].
  exists tr, s. split; [reflexivity|].
  destruct (sent_accounting tr s OpLoss) as (_ & H1 & H2).
  - apply (sent_run_reach sent_example_ops [] (quic_sent_init sent_blank) tr s); [by constructor|exact E].
  - split; [exact H1|]. vm_compute in E. injection E as <- <-. split; reflexivity.
Defined.

(** A slot is never reused.  Whatever is acknowledged or lost, the number of
    slots in use is the number of packets accepted so far, so after 256 accepted
    packets every further send is refused. *)
Theorem sent_slots_never_reused (tr : list (sent_op * Z)) (s : quic_sent) (pn size t : Z) (Hr : sent_reach tr s) :
  used_slots s = length (select accepted tr) /\
  (length (select accepted tr) = Z.to_nat QUIC_SENT_CAP <-> quic_sent_on_send s pn size t = Some (false, s)).
Proof.
  pose proof (sent_reach_inv tr s Hr) as [Hl _ Hu _]. split; [done|]. rewrite <- Hu. unfold used_slots.
  replace (Z.to_nat QUIC_SENT_CAP) with (length (s_pkts s)) by (unfold zlen in Hl; lia). rewrite select_full.
  destruct (on_send_cases s pn size t Hl) as [[Hfull ->]|(pre & old & post & E & Ho & ->)]; [done|].
  split; [|done]. intros Hfull. rewrite E in Hfull. apply Forall_app in Hfull as [_ Hf].
  apply Forall_cons_iff in Hf as [Hf _]. congruence.
Qed.

Definition sent_full_ops : list sent_op :=
  map (fun i => OpSend (Z.of_nat i) 10 0) (seq 0 256) ++ map (fun i => OpAck (Z.of_nat i)) (seq 0 256).

(** Witness: 256 packets sent and all of them acknowledged; the next send fails. *)
Lemma sent_slots_never_reused_witness :
  exists tr s, sent_run sent_full_ops (quic_sent_init sent_blank) = Some (tr, s) /\
    s_bytes_in_flight s = 0 /\ quic_sent_on_send s 256 10 0 = Some (false, s).
Proof.
  destruct (sent_run sent_full_ops (quic_sent_init sent_blank)) as [[tr s]|] eqn:E; [|vm_compute in E; discriminate E].
  exists tr, s. split; [reflexivity|].
  pose proof (sent_run_reach sent_full_ops [] (quic_sent_init sent_blank) tr s (sr_init sent_blank eq_refl) E) as Hr.
  split; [vm_compute in E; injection E as <- <-; reflexivity|].
  apply (sent_slots_never_reused tr s 256 10 0 Hr). vm_compute in E. injection E as <- <-. reflexivity.
Defined.

(** Acknowledging a packet twice is the same as once (the second call returns 0
    and changes nothing), and a loss sweep marks exactly the packets in flight that
    are three or more below the largest acknowledged, returns how many, leaves the
    others as they are and finds nothing the next time. *)
Theorem sent_ack_loss_exact (tr : list (sent_op * Z)) (s : quic_sent) (pn : Z) (Hr : sent_reach tr s) :
  (exists b s', quic_sent_on_ack s pn = Some (b, s') /\ quic_sent_on_ack s' pn = Some (false, s')) /\
  (s_have_acked s <> 0 -> exists lost s', quic_sent_detect_loss s = (lost, s') /\
     lost = zlen (select (is_lost (s_largest_acked s)) (s_pkts s)) /\
     s_pkts s' = map (lose (s_largest_acked s)) (s_pkts s) /\
     quic_sent_detect_loss s' = (0, s')).
Proof.
  pose proof (sent_reach_inv tr s Hr) as [Hl Hb _ _]. split.
  - destruct (on_ack_cases s pn Hl) as [[Hn E]|(pre & p & post & Es & Hp & Hpre & E)].
    + eexists _, _. split; [exact E|]. apply on_ack_settled; [done|apply note_acked_idem|by left].
    + rewrite E. destruct (in_flight p) eqn:Ef; eexists _, _; (split; [reflexivity|]); apply on_ack_settled.
      * cbn [s_pkts]. by rewrite (zlen_swap pre p), <- Es.
      * by apply note_acked_settled.
      * right. exists pre, (sp_set_state p QUIC_PKT_ACKED), post. split_and!; try done.
        unfold in_flight. cbn [sp_set_state sp_state]. by rewrite andb_false_r.
      * done.
      * apply note_acked_idem.
      * right. by exists pre, p, post.
  - intros Hh. rewrite detect_loss_spec by (done || (rewrite Hb; auto with quic)).
    destruct (Z.eqb_spec (s_have_acked s) 0); [done|]. eexists _, _. split; [done|]. split; [done|]. split; [done|].
    apply detect_loss_twice with (la := s_largest_acked s); try done; cbn [s_pkts s_bytes_in_flight].
    + unfold zlen in *. by rewrite length_map.
    + auto with quic.
    + apply Forall_forall. intros p Hp. apply in_map_iff in Hp as (q & <- & _). apply lose_not_lost.
Qed.

(** Witness: the example run. *)
Lemma sent_ack_loss_exact_witness :
  exists tr s b s', sent_example = Some (tr, s) /\
    quic_sent_on_ack s 0 = Some (b, s') /\ quic_sent_on_ack s' 0 = Some (false, s').
Proof.
  destruct sent_example as [[tr s]|] eqn:E; [|vm_compute in E; discriminate E].
  destruct (sent_ack_loss_exact tr s 0) as ((b & s' & H1 & H2) & _).
  - apply (sent_run_reach sent_example_ops [] (quic_sent_init sent_blank) tr s); [by constructor|exact E].
  - exists tr, s, b, s'. split; [reflexivity|]. split; [exact H1|exact H2].
Defined.

(** The metadata ring implements a bag of at most 256 packets.  Initialisation
    empties it; a send adds the packet unless 256 are tracked; an acknowledgement
    takes out a packet with that number and returns its send time and whether it
    was ack-eliciting, or changes nothing when there is none; loss detection takes
    out exactly the packets past the packet or time threshold and reports their
    numbers.  Throughout, [count] is the size of the bag and [total_in_flight] the
    sum (modulo 2^64) of the bytes of its in-flight packets. *)
Theorem sentmeta_refines_bag (m0 m : quic_sentmeta) (pn t ae fl bytes la now delay : Z)
  (Hl : zlen (m_pkts m0) = QUIC_SENTMETA_CAP) (Hi : meta_inv m) :
  (meta_inv (quic_sentmeta_init m0) /\ tracked (quic_sentmeta_init m0) = []) /\
  (exists b m', quic_sentmeta_on_sent m pn t ae fl bytes = Some (b, m') /\ meta_inv m' /\
     (b = false -> m' = m /\ zlen (tracked m) = QUIC_SENTMETA_CAP) /\
     (b = true -> Permutation (tracked m') (sentmeta_store pn t ae fl bytes :: tracked m))) /\
  (exists r m', quic_sentmeta_on_ack m pn = Some (r, m') /\ meta_inv m' /\
     (r = None -> m' = m /\ Forall (fun p => mp_pn p <> pn) (tracked m)) /\
     (forall ts e, r = Some (ts, e) -> exists p, mp_pn p = pn /\ ts = mp_time_sent p /\ e = mp_ack_eliciting p /\
        Permutation (tracked m) (p :: tracked m'))) /\
  (exists m' lost, quic_sentmeta_detect_loss m la now delay = Some (m', lost) /\ meta_inv m' /\
     tracked m' = select (fun p => negb (lost_pkt la now delay p)) (tracked m) /\
     lost = map mp_pn (select (lost_pkt la now delay) (tracked m))).
Proof.
  split; [|split; [|split]].
  - assert (E : tracked (quic_sentmeta_init m0) = []).
    { apply select_none. apply Forall_forall. intros p Hp. apply in_map_iff in Hp as (q & <- & _). done. }
    split; [|done]. constructor; rewrite ?E; try done. cbn. unfold zlen in *. by rewrite length_map.
  - destruct (on_sent_spec m pn t ae fl bytes Hi) as [[H1 ->]|(m' & H1 & -> & H2 & H3)].
    + by exists false, m.
    + by exists true, m'.
  - destruct (on_ack_spec m pn Hi) as [[-> H1]|(m' & p & -> & H1 & H2 & H3)].
    + by exists None, m.
    + eexists _, m'. split; [done|]. split; [done|]. split; [done|]. intros ts e [= <- <-]. by exists p.
  - destruct (detect_loss_loop_spec la now delay (m_pkts m) [] m [] Hi eq_refl) as (m' & Hx & Hi' & E').
    pose proof (mi_len m Hi) as Hlen. unfold quic_sentmeta_detect_loss.
    replace (Z.to_nat QUIC_SENTMETA_CAP) with (length (m_pkts m)) by (unfold zlen in Hlen; lia).
    change (zlen (@nil quic_sentmeta_pkt)) with 0 in Hx. rewrite Hx. eexists _, _. split; [done|]. split; [done|].
    destruct (tracked_drop la now delay (m_pkts m)) as [T1 T2]. cbn [app] in *. unfold tracked. rewrite E', T1, T2. done.
Qed.

Definition meta_blank : quic_sentmeta := mk_meta (repeat (mk_meta_pkt 0 0 0 0 0 1) 256) 3 3.

(** Witness: the first packet sent after initialisation. *)
Lemma sentmeta_refines_bag_witness :
  exists m', quic_sentmeta_on_sent (quic_sentmeta_init meta_blank) 5 1 1 1 1200 = Some (true, m') /\
    Permutation (tracked m') [sentmeta_store 5 1 1 1 1200].
Proof.
  assert (Hi : meta_inv (quic_sentmeta_init meta_blank)) by (constructor; reflexivity).
  destruct (sentmeta_refines_bag meta_blank (quic_sentmeta_init meta_blank) 5 1 1 1 1200 0 0 0 eq_refl Hi)
    as ((_ & _) & (b & m' & H1 & _ & H2 & H3) & _).
  destruct b.
  - exists m'. split; [exact H1|exact (H3 eq_refl)].
  - destruct (H2 eq_refl) as [_ H4]. vm_compute in H4. discriminate H4.
Defined.
