(* ===== verification/AckLoss.v ===== *)
(** Acknowledgement generation and processing, and loss detection over the table of
    sent packets: [src/transport/recovery/rtx/sentpkt] (sentpkt.c, ack_process.c,
    loss_detect.c), [detect/lossdrive/lossdrive.c], [detect/ackrange/ackrange_process.c]
    and [detect/ackgen/ackrange.c].

    The receiver's list of packet numbers, the ranges it puts in an ACK and the
    sender's table meet here: the ranges built from a list acknowledge exactly the
    packets of that list. *)
From S2P Require Import Prelude.
From S2P Require Import Slots.
From S2P Require Import Buffers.
From S2P Require Import AckFrame.

(** * sentpkt.c *)

Definition QUIC_SENTPKT_CAP : Z := 256.
Definition QUIC_SP_INFLIGHT : Z := 0.
Definition QUIC_SP_ACKED : Z := 1.
Definition QUIC_SP_LOST : Z := 2.

Record quic_sentpkt_entry := mk_entry {
  e_pn : Z; e_time_sent : Z; e_size : Z; e_ack_eliciting : Z; e_state : Z; e_used : Z }.
(** The table: the array [e] of 256 entries. *)
Abbreviation quic_sentpkt := (list quic_sentpkt_entry).

Definition e_set (p : quic_sentpkt_entry) (state used : Z) : quic_sentpkt_entry :=
  mk_entry (e_pn p) (e_time_sent p) (e_size p) (e_ack_eliciting p) state used.

Definition quic_sentpkt_init (t : quic_sentpkt) : quic_sentpkt := map (fun p => e_set p (e_state p) 0) t.

Definition sentpkt_free_slot (t : quic_sentpkt) : Z := scan (fun p => e_used p =? 0) t.

Definition quic_sentpkt_on_send (t : quic_sentpkt) (pn time ack_eliciting size : Z) : option (bool * quic_sentpkt) :=
  let i := sentpkt_free_slot t in
  if i =? QUIC_SENTPKT_CAP then Some (false, t)
  else match store t i (mk_entry pn time size (if ack_eliciting =? 0 then 0 else 1) QUIC_SP_INFLIGHT 1) with
       | None => None
       | Some t' => Some (true, t')
       end.

(** [for (i = 0; i < CAP; i++) n += t->e[i].used]. *)
Definition quic_sentpkt_count (t : quic_sentpkt) : Z := fold_left (fun n p => n +w e_used p) t 0.

(** * ack_process.c *)

Definition pn_within (pn lo hi : Z) : bool := (lo <=? pn) && (pn <=? hi).
Definition slot_in_range (lo hi : Z) (p : quic_sentpkt_entry) : bool :=
  negb (e_used p =? 0) && (e_state p =? QUIC_SP_INFLIGHT) && pn_within (e_pn p) lo hi.

(** The loop over the slots; [out] is what has been appended to the output. *)
Fixpoint ack_range (lo hi : Z) (t : quic_sentpkt) (out : list Z) : quic_sentpkt * list Z :=
  match t with
  | [] => ([], out)
  | p :: t' =>
      if negb (slot_in_range lo hi p)
      then let '(t'', out') := ack_range lo hi t' out in (p :: t'', out')
      else let '(t'', out') := ack_range lo hi t' (out ++ [e_pn p]) in (e_set p QUIC_SP_ACKED 0 :: t'', out')
  end.

(** [for (i = 1; i + 1 < n_ranges; i += 2)]: [None] for an access outside the
    array of ranges, or when the fuel runs out. *)
Fixpoint ack_pairs_loop (fuel : nat) (ranges : list Z) (n_ranges i lo : Z) (t : quic_sentpkt) (out : list Z)
  : option (quic_sentpkt * list Z) :=
  match fuel with
  | O => None
  | S fuel' =>
      if i +w 1 <? n_ranges
      then match load ranges i, load ranges (i + 1) with
           | Some gap, Some len =>
               let hi := lo -w gap -w 2 in
               let lo' := hi -w len in
               let '(t', out') := ack_range lo' hi t out in
               ack_pairs_loop fuel' ranges n_ranges (i + 2) lo' t' out'
           | _, _ => None
           end
      else Some (t, out)
  end.

(** The table and the packet numbers written to [newly_acked_pns]. *)
Definition quic_ack_process (t : quic_sentpkt) (ack_largest : Z) (ack_ranges : list Z) (n_ranges : Z)
  : option (quic_sentpkt * list Z) :=
  if n_ranges =? 0 then Some (t, [])
  else match load ack_ranges 0 with
       | None => None
       | Some first =>
           let hi := ack_largest in
           let lo := hi -w first in
           let '(t', out) := ack_range lo hi t [] in
           ack_pairs_loop (Z.to_nat n_ranges) ack_ranges n_ranges 1 lo t' out
       end.

(** * loss_detect.c and lossdrive.c *)

Definition QUIC_SENTPKT_PACKET_THRESHOLD : Z := 3.
Definition by_packet (largest_acked pn : Z) : bool := pn +w QUIC_SENTPKT_PACKET_THRESHOLD <=? largest_acked.
Definition by_time (now sent loss_delay : Z) : bool := sent +w loss_delay <=? now.
Definition inflight (p : quic_sentpkt_entry) : bool := negb (e_used p =? 0) && (e_state p =? QUIC_SP_INFLIGHT).
Definition past_threshold (largest_acked now loss_delay : Z) (p : quic_sentpkt_entry) : bool :=
  by_packet largest_acked (e_pn p) || by_time now (e_time_sent p) loss_delay.
Definition loss_is_lost (largest_acked now loss_delay : Z) (p : quic_sentpkt_entry) : bool :=
  inflight p && past_threshold largest_acked now loss_delay p.

Fixpoint loss_loop (largest_acked now loss_delay : Z) (t : quic_sentpkt) (lost : list Z) : quic_sentpkt * list Z :=
  match t with
  | [] => ([], lost)
  | p :: t' =>
      if negb (loss_is_lost largest_acked now loss_delay p)
      then let '(t'', lost') := loss_loop largest_acked now loss_delay t' lost in (p :: t'', lost')
      else let '(t'', lost') := loss_loop largest_acked now loss_delay t' (lost ++ [e_pn p]) in
           (e_set p QUIC_SP_LOST (e_used p) :: t'', lost')
  end.
Definition quic_loss_detect (t : quic_sentpkt) (largest_acked now loss_delay : Z) : quic_sentpkt * list Z :=
  loss_loop largest_acked now loss_delay t [].

Definition slot_lost (p : quic_sentpkt_entry) : bool := negb (e_used p =? 0) && (e_state p =? QUIC_SP_LOST).
Definition drop_lost (t : quic_sentpkt) : quic_sentpkt :=
  map (fun p => if slot_lost p then e_set p (e_state p) 0 else p) t.
Definition quic_lossdrive_on_ack (t : quic_sentpkt) (largest_acked now loss_delay : Z) : quic_sentpkt * list Z :=
  let '(t', lost) := quic_loss_detect t largest_acked now loss_delay in (drop_lost t', lost).

(** * ackrange_process.c *)

Definition akr_pn_within (pn lo hi : Z) : bool := (lo <=? pn) && (pn <=? hi).
Definition akr_slot_in_range (lo hi : Z) (p : quic_sentpkt_entry) : bool :=
  negb (e_used p =? 0) && (e_state p =? QUIC_SP_INFLIGHT) && akr_pn_within (e_pn p) lo hi.

Fixpoint akr_ack_range (lo hi : Z) (t : quic_sentpkt) (out : list Z) : quic_sentpkt * list Z :=
  match t with
  | [] => ([], out)
  | p :: t' =>
      if negb (akr_slot_in_range lo hi p)
      then let '(t'', out') := akr_ack_range lo hi t' out in (p :: t'', out')
      else let '(t'', out') := akr_ack_range lo hi t' (out ++ [e_pn p]) in (e_set p QUIC_SP_ACKED 0 :: t'', out')
  end.

(** [for (i = 0; i < f.n_ranges; i++) akr_ack_range(...)], with [k] rounds left. *)
Fixpoint akr_loop (k : nat) (i : Z) (rs : list quic_ack_range) (t : quic_sentpkt) (out : list Z)
  : option (quic_sentpkt * list Z) :=
  match k with
  | O => Some (t, out)
  | S k' => match load rs i with
            | None => None
            | Some r => let '(t', out') := akr_ack_range (ar_lo r) (ar_hi r) t out in akr_loop k' (i + 1) rs t' out'
            end
  end.

(** [Some (None)] when it returns 0; [f0] is the uninitialised local frame. *)
Definition quic_ackrange_process (f0 : quic_ack_frame) (t : quic_sentpkt) (ack_frame : list Z) (len : Z)
  : option (option (quic_sentpkt * list Z)) :=
  match quic_ack_decode f0 ack_frame len with
  | None => None
  | Some None => Some None
  | Some (Some (f, used)) =>
      if used =? 0 then Some None
      else match akr_loop (Z.to_nat (af_n_ranges f)) 0 (af_ranges f) t [] with
           | None => None
           | Some r => Some (Some r)
           end
  end.

(** * ackgen/ackrange.c *)

Definition gap_of (prev_lo hi : Z) : Z := prev_lo -w hi -w 2.

(** The output array is the list of the values written so far. *)
Definition push (ranges : list Z) (cap v : Z) : option (list Z) :=
  if cap <=? zlen ranges then None else Some (ranges ++ [v]).

Definition ackrange_emit (ranges : list Z) (cap : Z) (first : bool) (prev_lo hi lo : Z) : option (list Z) :=
  if first then push ranges cap (hi -w lo)
  else match push ranges cap (gap_of prev_lo hi) with
       | None => None
       | Some ranges' => push ranges' cap (hi -w lo)
       end.

Record build_st := mk_build { b_ranges : list Z; b_hi : Z; b_prev_lo : Z; b_first : bool }.

Definition close_block (s : build_st) (cap lo next_hi : Z) : option build_st :=
  match ackrange_emit (b_ranges s) cap (b_first s) (b_prev_lo s) (b_hi s) lo with
  | None => None
  | Some ranges => Some (mk_build ranges next_hi lo false)
  end.

(** The outer [None] is an access outside [pns], the inner one a full output. *)
Definition step (s : build_st) (pns : list Z) (i cap : Z) : option (option build_st) :=
  match load pns i, load pns (i - 1) with
  | Some x, Some y => if x -w y =? 1 then Some (Some s) else Some (close_block s cap x y)
  | _, _ => None
  end.

(** [for (i = n - 1; i > 0; i--)], then the lowest block. *)
Fixpoint descend (i : nat) (s : build_st) (pns : list Z) (cap : Z) : option (option (list Z)) :=
  match i with
  | O => match load pns 0 with
         | None => None
         | Some x => Some (ackrange_emit (b_ranges s) cap (b_first s) (b_prev_lo s) (b_hi s) x)
         end
  | S i' => match step s pns (Z.of_nat i) cap with
            | None => None
            | Some None => Some None
            | Some (Some s') => descend i' s' pns cap
            end
  end.

(** The largest and the ranges; [Some None] when it returns 0. *)
Definition quic_ackgen_build_ranges (received_pns : list Z) (n cap : Z) : option (option (Z * list Z)) :=
  if n =? 0 then Some None
  else match load received_pns (n - 1) with
       | None => None
       | Some largest =>
           match descend (Z.to_nat (n - 1)) (mk_build [] largest 0 true) received_pns cap with
           | None => None
           | Some None => Some None
           | Some (Some ranges) => Some (Some (largest, ranges))
           end
       end.

(** * Acknowledging a list of blocks *)

Definition in_blocks (bs : list (Z * Z)) (pn : Z) : bool := existsb (fun b => pn_within pn (fst b) (snd b)) bs.
Definition acked_by (bs : list (Z * Z)) (p : quic_sentpkt_entry) : bool := inflight p && in_blocks bs (e_pn p).
Definition ack_slot (q : quic_sentpkt_entry -> bool) (p : quic_sentpkt_entry) : quic_sentpkt_entry :=
  if q p then e_set p QUIC_SP_ACKED 0 else p.
Definition ack_all (bs : list (Z * Z)) (st : quic_sentpkt * list Z) : quic_sentpkt * list Z :=
  fold_left (fun st b => ack_range (fst b) (snd b) (fst st) (snd st)) bs st.

Lemma ack_range_spec lo hi t : forall out,
  ack_range lo hi t out = (map (ack_slot (slot_in_range lo hi)) t, out ++ map e_pn (select (slot_in_range lo hi) t)).
Proof.
  induction t as [|p t IH]; intros out; cbn [ack_range map select]; [by rewrite app_nil_r|].
  assert (D : ack_slot (slot_in_range lo hi) p = if slot_in_range lo hi p then e_set p QUIC_SP_ACKED 0 else p) by done.
  rewrite D. destruct (slot_in_range lo hi p); cbn [negb]; rewrite IH; [|done]. cbn [map]. by rewrite <- app_assoc.
Qed.

Lemma akr_ack_range_eq lo hi t : forall out, akr_ack_range lo hi t out = ack_range lo hi t out.
Proof.
  induction t as [|p t IH]; intros out; [done|]. cbn [akr_ack_range ack_range].
  change (akr_slot_in_range lo hi p) with (slot_in_range lo hi p). by rewrite !IH.
Qed.

Lemma select_split {A} (p q r : A -> bool) l :
  (forall x, r x = p x || (q x && negb (p x))) ->
  Permutation (select p l ++ select (fun x => q x && negb (p x)) l) (select r l).
Proof.
  intros Hr. induction l as [|x l IH]; [done|]. cbn [select]. rewrite (Hr x).
  destruct (p x); cbn [orb negb].
  - rewrite andb_false_r. cbn [app]. by constructor.
  - rewrite andb_true_r. destruct (q x); [|done]. rewrite <- Permutation_middle. by constructor.
Qed.

Lemma select_map_ack (q : quic_sentpkt_entry -> bool) bs t :
  select (acked_by bs) (map (ack_slot q) t) = select (fun p => acked_by bs p && negb (q p)) t.
Proof.
  induction t as [|p t IH]; [done|]. cbn [map select]. rewrite IH.
  assert (D : ack_slot q p = if q p then e_set p QUIC_SP_ACKED 0 else p) by done. rewrite D.
  destruct (q p); cbn [negb]; [by rewrite andb_false_r|]. rewrite andb_true_r. done.
Qed.

Lemma slot_in_range_acked lo hi p : slot_in_range lo hi p = acked_by [(lo, hi)] p.
Proof. unfold slot_in_range, acked_by, inflight, in_blocks. cbn. by rewrite orb_false_r. Qed.

Lemma ack_all_cons lo hi bs t out : ack_all ((lo, hi) :: bs) (t, out) = ack_all bs (ack_range lo hi t out).
Proof. done. Qed.

(** Processing blocks acknowledges exactly the in-flight packets inside them. *)
Lemma ack_all_spec bs : forall t out,
  exists acc, ack_all bs (t, out) = (map (ack_slot (acked_by bs)) t, out ++ acc) /\
    Permutation acc (map e_pn (select (acked_by bs) t)).
Proof.
  induction bs as [|[lo hi] bs IH]; intros t out.
  - exists []. change (ack_all [] (t, out)) with (t, out). rewrite app_nil_r.
    assert (Hn : forall p, acked_by [] p = false) by (intros; unfold acked_by; apply andb_false_r).
    split; [|by rewrite select_none by (apply Forall_forall; auto)]. f_equal.
    rewrite <- (map_id t) at 1. apply map_ext. intros p. unfold ack_slot. by rewrite Hn.
  - destruct (IH (map (ack_slot (slot_in_range lo hi)) t) (out ++ map e_pn (select (slot_in_range lo hi) t)))
      as (acc & E & HP).
    exists (map e_pn (select (slot_in_range lo hi) t) ++ acc). split.
    + rewrite ack_all_cons, ack_range_spec, E. f_equal; [|by rewrite app_assoc]. rewrite map_map. apply map_ext. intros p.
      unfold ack_slot at 2. rewrite slot_in_range_acked. unfold ack_slot, acked_by, in_blocks. cbn [existsb].
      destruct (inflight p) eqn:Ei; cbn [andb]; [|by rewrite ?Ei].
      rewrite orb_false_r. cbn [fst snd]. destruct (pn_within (e_pn p) lo hi); cbn [orb fst snd]; [done|]. by rewrite ?Ei.
    + rewrite HP, select_map_ack, <- map_app. apply Permutation_map, select_split. intros p.
      rewrite slot_in_range_acked. unfold acked_by, in_blocks. cbn [existsb fst snd]. rewrite orb_false_r.
      by destruct (inflight p), (pn_within (e_pn p) lo hi), (existsb _ bs).
Qed.

(** ** The blocks an array of lengths and gaps denotes *)

Fixpoint range_blocks (lo : Z) (l : list Z) : list (Z * Z) :=
  match l with
  | gap :: len :: l' => let hi := lo -w gap -w 2 in let lo' := hi -w len in (lo', hi) :: range_blocks lo' l'
  | _ => []
  end.
Definition ack_blocks (largest : Z) (ranges : list Z) : list (Z * Z) :=
  match ranges with
  | [] => []
  | first :: rest => (largest -w first, largest) :: range_blocks (largest -w first) rest
  end.

Lemma ack_pairs_loop_spec fuel : forall pre rest lo t out,
  zlen (pre ++ rest) < max_object -> (length rest < fuel)%nat ->
  ack_pairs_loop fuel (pre ++ rest) (zlen (pre ++ rest)) (zlen pre) lo t out = Some (ack_all (range_blocks lo rest) (t, out)).
Proof.
  induction fuel as [|fuel IH]; intros pre rest lo t out Ho Hf; [lia|]. cbn [ack_pairs_loop].
  pose proof (zlen_nonneg pre). pose proof (zlen_nonneg rest). rewrite zlen_app in *. unwrap.
  destruct rest as [|gap [|len rest]].
  - rewrite zlen_nil. zdecide. done.
  - change (zlen [gap]) with 1. zdecide. done.
  - rewrite !zlen_cons in *. pose proof (zlen_nonneg rest). zdecide. rewrite load_head by done.
    replace (load (pre ++ gap :: len :: rest) (zlen pre + 1)) with (Some len).
    2: { symmetry. change (pre ++ gap :: len :: rest) with (pre ++ [gap] ++ len :: rest). rewrite app_assoc.
         apply load_head. rewrite zlen_app. done. }
    cbn [range_blocks]. cbv zeta. rewrite ack_all_cons.
    destruct (ack_range _ _ t out) as [t' out'] eqn:Er.
    specialize (IH (pre ++ [gap; len]) rest (lo -w gap -w 2 -w len) t' out').
    rewrite <- app_assoc in IH. cbn [app] in IH. rewrite !zlen_app, !zlen_cons in IH.
    change (1 + (1 + zlen (@nil Z))) with 2 in IH. cbn [length] in Hf.
    replace (zlen pre + (1 + (1 + zlen rest))) with (zlen pre + 2 + zlen rest) by lia.
    replace (zlen pre + (1 + (1 + zlen rest))) with (zlen pre + 2 + zlen rest) in IH by lia.
    rewrite IH by lia. done.
Qed.

Lemma ack_process_blocks t largest ranges :
  zlen ranges < max_object ->
  quic_ack_process t largest ranges (zlen ranges) = Some (ack_all (ack_blocks largest ranges) (t, [])).
Proof.
  intros Ho. unfold quic_ack_process. destruct ranges as [|first rest]; [done|].
  rewrite zlen_cons in *. pose proof (zlen_nonneg rest). zdecide. change (load (first :: rest) 0) with (Some first).
  cbv iota beta zeta. unfold ack_blocks. rewrite ack_all_cons.
  destruct (ack_range (largest -w first) largest t []) as [t' out].
  pose proof (ack_pairs_loop_spec (Z.to_nat (1 + zlen rest)) [first] rest (largest -w first) t' out) as H'.
  cbn [app] in H'. rewrite zlen_cons in H'. change (zlen [first]) with 1 in H'. rewrite H' by (unfold zlen in *; lia). done.
Qed.

(** ** The blocks of a received list *)

(** The maximal runs of a descending list, [cur] being the last number read of
    the run that started at [hi]. *)
Fixpoint runs (hi cur : Z) (below : list Z) : list (Z * Z) :=
  match below with
  | [] => [(cur, hi)]
  | x :: below' => if cur - x =? 1 then runs hi x below' else (cur, hi) :: runs x x below'
  end.

Fixpoint descending (cur : Z) (l : list Z) : Prop :=
  match l with
  | [] => True
  | x :: l' => 0 <= x < cur /\ descending x l'
  end.

(** Blocks below [prev], leaving gaps. *)
Fixpoint separated (prev : option Z) (bs : list (Z * Z)) : Prop :=
  match bs with
  | [] => True
  | (lo, hi) :: bs' => 0 <= lo <= hi /\ hi < 2 ^ 62 /\ (forall p, prev = Some p -> hi + 2 <= p) /\ separated (Some lo) bs'
  end.

Fixpoint enc_blocks (prev : option Z) (bs : list (Z * Z)) : list Z :=
  match bs with
  | [] => []
  | (lo, hi) :: bs' =>
      (match prev with None => [] | Some p => [p - hi - 2] end) ++ (hi - lo) :: enc_blocks (Some lo) bs'
  end.

Lemma runs_separated below : forall prev hi cur,
  descending cur below -> 0 <= cur <= hi -> hi < 2 ^ 62 -> (forall p, prev = Some p -> hi + 2 <= p) ->
  separated prev (runs hi cur below).
Proof.
  induction below as [|x below IH]; intros prev hi cur Hd Hc Hh Hp; cbn [runs].
  - by cbn.
  - cbn [descending] in Hd. destruct Hd as [Hx Hd]. destruct (Z.eqb_spec (cur - x) 1).
    + apply IH; done || lia.
    + cbn [separated]. split_and!; try lia; [done|]. apply IH; try done; try lia. intros p [= <-]. lia.
Qed.

(** The runs cover exactly the numbers of the list. *)
Lemma runs_cover below : forall hi cur pn, descending cur below -> cur <= hi ->
  in_blocks (runs hi cur below) pn = true <-> cur <= pn <= hi \/ In pn below.
Proof.
  induction below as [|x below IH]; intros hi cur pn Hd Hc; cbn [runs].
  - unfold in_blocks, pn_within. cbn. rewrite orb_false_r, andb_true_iff, Z.leb_le, Z.leb_le. intuition lia.
  - cbn [descending In] in *. destruct Hd as [Hx Hd]. destruct (Z.eqb_spec (cur - x) 1) as [E|E].
    + rewrite IH by (done || lia). intuition lia.
    + unfold in_blocks. cbn [existsb fst snd]. fold (in_blocks (runs x x below) pn).
      rewrite orb_true_iff, IH by (done || lia). unfold pn_within. rewrite andb_true_iff, Z.leb_le, Z.leb_le.
      intuition lia.
Qed.

Lemma runs_head below : forall hi cur, exists lo bs, runs hi cur below = (lo, hi) :: bs.
Proof.
  induction below as [|x below IH]; intros hi cur; cbn [runs]; [by eexists _, _|].
  destruct (cur - x =? 1); [apply IH|by eexists _, _].
Qed.

(** Decoding the encoding of separated blocks gives them back. *)
Lemma range_blocks_enc bs : forall lo, lo < 2 ^ 62 -> separated (Some lo) bs -> range_blocks lo (enc_blocks (Some lo) bs) = bs.
Proof.
  induction bs as [|[l h] bs IH]; intros lo Hlo Hs; [done|]. cbn [separated] in Hs.
  destruct Hs as (H1 & H2 & H3 & H4). specialize (H3 lo eq_refl). cbn [enc_blocks app range_blocks].
  rewrite (u64_id (lo - (lo - h - 2))) by (unfold is_u64; lia).
  replace (lo - (lo - h - 2) - 2) with h by lia. rewrite (u64_id h) by (unfold is_u64; lia).
  rewrite (u64_id (h - (h - l))) by (unfold is_u64; lia). replace (h - (h - l)) with l by lia.
  rewrite IH by (done || lia). done.
Qed.

Lemma ack_blocks_enc bs lo hi : separated None ((lo, hi) :: bs) -> ack_blocks hi (enc_blocks None ((lo, hi) :: bs)) = (lo, hi) :: bs.
Proof.
  cbn [separated enc_blocks app ack_blocks]. intros (H1 & H2 & _ & H4).
  rewrite (u64_id (hi - (hi - lo))) by (unfold is_u64; lia). replace (hi - (hi - lo)) with lo by lia.
  by rewrite range_blocks_enc by (done || lia).
Qed.

(** ** The builder *)

Definition b_prev (s : build_st) : option Z := if b_first s then None else Some (b_prev_lo s).

Lemma emit_spec ranges cap first prev_lo hi lo :
  0 <= lo <= hi -> hi < 2 ^ 62 -> (first = false -> hi + 2 <= prev_lo < 2 ^ 62) ->
  let out := ranges ++ (if first then [] else [prev_lo - hi - 2]) ++ [hi - lo] in
  ackrange_emit ranges cap first prev_lo hi lo = if zlen out <=? cap then Some out else None.
Proof.
  intros H1 H2 H3. unfold ackrange_emit, push, gap_of. rewrite (u64_id (hi - lo)) by (unfold is_u64; lia).
  destruct first; cbn [app]; rewrite !zlen_app, ?zlen_cons, zlen_nil.
  - destruct (Z.leb_spec cap (zlen ranges)); zdecide; done.
  - specialize (H3 eq_refl). rewrite (u64_id (prev_lo - hi)), u64_id by (unfold is_u64; lia).
    destruct (Z.leb_spec cap (zlen ranges)); zdecide; [done|]. rewrite zlen_app, zlen_cons, zlen_nil.
    destruct (Z.leb_spec cap (zlen ranges + (1 + 0))); zdecide; [done|]. by rewrite <- app_assoc.
Qed.

(** A strictly ascending list of packet numbers. *)
Fixpoint ascending (l : list Z) : Prop :=
  match l with
  | x :: (y :: _) as l' => x < y /\ ascending l'
  | _ => True
  end.

Lemma ascending_app l x y r : ascending (l ++ x :: y :: r) -> x < y.
Proof. induction l as [|a [|b l] IH]; cbn; intros H; [tauto|tauto|]. apply IH, H. Qed.

Lemma ascending_descending l : forall x r, ascending (l ++ x :: r) -> Forall (fun y => 0 <= y) (l ++ x :: r) ->
  descending x (rev l).
Proof.
  induction l as [|a l IH] using rev_ind; intros x r Ha Hf; [done|].
  rewrite rev_app_distr. cbn [rev app descending]. rewrite <- app_assoc in *. cbn [app] in *.
  apply Forall_app in Hf as Hf'. destruct Hf' as [_ Hf']. apply Forall_cons_iff in Hf' as [? _].
  split; [split; [done|by eapply ascending_app]|]. by eapply IH.
Qed.

Lemma enc_first s lo hi bs :
  enc_blocks (b_prev s) ((lo, hi) :: bs) =
  ((if b_first s then [] else [b_prev_lo s - hi - 2]) ++ [hi - lo]) ++ enc_blocks (Some lo) bs.
Proof. unfold b_prev. cbn [enc_blocks]. by destruct (b_first s). Qed.

Lemma zlen_enc_pos prev hi cur below : 1 <= zlen (enc_blocks prev (runs hi cur below)).
Proof.
  revert prev hi cur; induction below as [|x below IH]; intros prev hi cur; cbn [runs].
  - destruct prev; cbn [enc_blocks app]; rewrite !zlen_cons, zlen_nil; lia.
  - destruct (cur - x =? 1); [apply IH|]. cbn [enc_blocks]. rewrite zlen_app, zlen_cons.
    pose proof (zlen_nonneg (match prev with None => [] | Some p => [p - hi - 2] end)).
    pose proof (zlen_nonneg (enc_blocks (Some cur) (runs x x below))). lia.
Qed.

Lemma descend_spec below : forall cur above s pns cap,
  pns = rev below ++ cur :: above -> ascending pns -> Forall (fun y => 0 <= y < 2 ^ 62) pns ->
  cur <= b_hi s < 2 ^ 62 -> (b_first s = false -> b_hi s + 2 <= b_prev_lo s < 2 ^ 62) ->
  let out := b_ranges s ++ enc_blocks (b_prev s) (runs (b_hi s) cur below) in
  descend (length below) s pns cap = Some (if zlen out <=? cap then Some out else None).
Proof.
  induction below as [|x below IH]; intros cur above s pns cap Hp Ha Hf Hh Hprev.
  - cbn [length descend runs rev app] in *. subst pns. change (load (cur :: above) 0) with (Some cur).
    apply Forall_cons_iff in Hf as [Hc _]. rewrite emit_spec by (done || lia). cbv zeta.
    rewrite enc_first. cbn [enc_blocks]. by rewrite app_nil_r.
  - cbv zeta. cbn [length descend runs]. unfold step.
    assert (Hsplit : pns = rev below ++ x :: cur :: above) by (rewrite Hp; cbn [rev]; by rewrite <- app_assoc).
    assert (Hlen : zlen (rev below) = Z.of_nat (length below)) by (unfold zlen; by rewrite length_rev).
    replace (load pns (Z.of_nat (S (length below)))) with (Some cur).
    2: { rewrite Hp. symmetry. apply load_head. unfold zlen. rewrite length_rev. cbn [length]. lia. }
    replace (load pns (Z.of_nat (S (length below)) - 1)) with (Some x).
    2: { rewrite Hsplit. symmetry. apply load_head. lia. }
    assert (Hf' := Hf). rewrite Hsplit in Ha, Hf'. pose proof (ascending_app _ _ _ _ Ha) as Hlt.
    apply Forall_app in Hf' as [_ Hf']. apply Forall_cons_iff in Hf' as [Hx Hf']. apply Forall_cons_iff in Hf' as [Hc _].
    rewrite (u64_id (cur - x)) by (unfold is_u64; lia). rewrite <- Hsplit in Ha.
    destruct (Z.eqb_spec (cur - x) 1) as [E|E].
    + apply (IH x (cur :: above)); try done; lia.
    + unfold close_block. rewrite emit_spec by (done || lia). cbv zeta. rewrite enc_first.
      set (w := (if b_first s then [] else [b_prev_lo s - b_hi s - 2]) ++ [b_hi s - cur]).
      destruct (Z.leb_spec (zlen (b_ranges s ++ w)) cap).
      * rewrite (IH x (cur :: above)); cbn [b_ranges b_hi b_prev_lo b_first b_prev]; try done; try lia.
        by rewrite <- app_assoc.
      * pose proof (zlen_enc_pos (Some cur) x x below). rewrite app_assoc.
        replace (zlen ((b_ranges s ++ w) ++ enc_blocks (Some cur) (runs x x below)) <=? cap) with false; [done|].
        symmetry. apply Z.leb_gt. rewrite zlen_app. lia.
Qed.

Lemma zlen_enc_le prev hi cur below : zlen (enc_blocks prev (runs hi cur below)) <= 2 + 2 * zlen below.
Proof.
  revert prev hi cur; induction below as [|x below IH]; intros prev hi cur; cbn [runs].
  - destruct prev; cbn [enc_blocks app]; rewrite !zlen_cons, zlen_nil; lia.
  - rewrite zlen_cons. destruct (cur - x =? 1); [specialize (IH prev hi x); lia|]. cbn [enc_blocks].
    specialize (IH (Some cur) x x). rewrite zlen_app, zlen_cons.
    assert (zlen (match prev with None => [] | Some p => [p - hi - 2] end) <= 1) by (destruct prev; done). lia.
Qed.

(** What the builder returns: the encoding of the runs, highest first. *)
Lemma build_ranges_spec pns cap :
  pns <> [] -> ascending pns -> Forall (fun y => 0 <= y < 2 ^ 62) pns -> zlen pns < max_object ->
  exists below top, pns = rev below ++ [top] /\ descending top below /\
    let ranges := enc_blocks None (runs top top below) in
    quic_ackgen_build_ranges pns (zlen pns) cap = Some (if zlen ranges <=? cap then Some (top, ranges) else None).
Proof.
  intros Hne Ha Hf Ho. destruct (exists_last Hne) as (l & top & E).
  exists (rev l), top. rewrite rev_involutive. split; [done|].
  assert (Hpos : Forall (fun y => 0 <= y) (l ++ [top])) by (rewrite <- E; eapply List.Forall_impl; [|exact Hf]; cbn; lia).
  split; [eapply ascending_descending; [rewrite <- E; exact Ha|done]|].
  unfold quic_ackgen_build_ranges. assert (Hl : zlen pns = zlen l + 1) by (rewrite E, zlen_app; done).
  pose proof (zlen_nonneg l). zdecide.
  replace (load pns (zlen pns - 1)) with (Some top) by (rewrite E at 1; symmetry; apply load_head; lia).
  assert (Htop : 0 <= top < 2 ^ 62).
  { rewrite E in Hf. apply Forall_app in Hf as [_ Hf]. by apply Forall_cons_iff in Hf as [? _]. }
  replace (Z.to_nat (zlen pns - 1)) with (length (rev l)) by (rewrite length_rev; unfold zlen in *; lia).
  pose proof (descend_spec (rev l) top [] (mk_build [] top 0 true) pns cap) as D.
  cbn [b_hi b_first b_prev_lo b_ranges b_prev app] in D. cbv zeta in D.
  rewrite D; [|by rewrite rev_involutive|done|done|lia|done].
  change (b_prev (mk_build [] top 0 true)) with (@None Z). by destruct (_ <=? cap).
Qed.

(** ** ACK frames and loss *)

Definition frame_blocks (rs : list quic_ack_range) : list (Z * Z) := map (fun r => (ar_lo r, ar_hi r)) rs.

Lemma akr_loop_spec mid : forall pre post t out,
  akr_loop (length mid) (zlen pre) (pre ++ mid ++ post) t out = Some (ack_all (frame_blocks mid) (t, out)).
Proof.
  induction mid as [|r mid IH]; intros pre post t out; [done|]. cbn [length akr_loop app].
  rewrite load_head by done. rewrite akr_ack_range_eq.
  change (frame_blocks (r :: mid)) with ((ar_lo r, ar_hi r) :: frame_blocks mid). rewrite ack_all_cons.
  destruct (ack_range (ar_lo r) (ar_hi r) t out) as [t' out'].
  specialize (IH (pre ++ [r]) post t' out'). rewrite zlen_app in IH. change (zlen [r]) with 1 in IH.
  rewrite <- app_assoc in IH. exact IH.
Qed.

Lemma ack_ranges_len f : ack_wf f -> length (ack_ranges f) = Z.to_nat (af_n_ranges f).
Proof. intros (H1 & H2 & _). unfold ack_ranges, QUIC_ACK_MAX_RANGES, zlen in *. rewrite length_take. lia. Qed.

Definition lose_slot (q : quic_sentpkt_entry -> bool) (p : quic_sentpkt_entry) : quic_sentpkt_entry :=
  if q p then e_set p QUIC_SP_LOST (e_used p) else p.

Lemma loss_loop_spec la now delay t : forall lost,
  loss_loop la now delay t lost =
  (map (lose_slot (loss_is_lost la now delay)) t, lost ++ map e_pn (select (loss_is_lost la now delay) t)).
Proof.
  induction t as [|p t IH]; intros lost; cbn [loss_loop map select]; [by rewrite app_nil_r|].
  assert (D : lose_slot (loss_is_lost la now delay) p =
    if loss_is_lost la now delay p then e_set p QUIC_SP_LOST (e_used p) else p) by done.
  rewrite D. destruct (loss_is_lost la now delay p); cbn [negb]; rewrite IH; [|done]. cbn [map]. by rewrite <- app_assoc.
Qed.

(** * Properties *)

Definition is_received (pns : list Z) (p : quic_sentpkt_entry) : bool := inflight p && existsb (Z.eqb (e_pn p)) pns.

(** What the builder makes of a list of packet numbers, the sender reads back. *)
Lemma ack_ranges_agree (pns : list Z) (t : quic_sentpkt) (cap : Z)
  (Hne : pns <> []) (Ha : ascending pns) (Hf : Forall (fun y => 0 <= y < 2 ^ 62) pns)
  (Ho : zlen pns < 2 ^ 60) (Hcap : 2 * zlen pns <= cap) :
  exists largest ranges, quic_ackgen_build_ranges pns (zlen pns) cap = Some (Some (largest, ranges)) /\
    list.last pns = Some largest /\ zlen ranges <= 2 * zlen pns /\
    exists t' acked, quic_ack_process t largest ranges (zlen ranges) = Some (t', acked) /\
      t' = map (ack_slot (is_received pns)) t /\
      Permutation acked (map e_pn (select (is_received pns) t)).
Proof.
  destruct (build_ranges_spec pns cap Hne Ha Hf ltac:(unfold max_object; lia)) as (below & top & E & Hd & Hb).
  cbv zeta in Hb. pose proof (zlen_enc_le None top top below) as Hle.
  assert (Hz : zlen pns = zlen below + 1) by (rewrite E, zlen_app; unfold zlen; rewrite length_rev; done).
  assert (Htop : 0 <= top < 2 ^ 62).
  { rewrite E in Hf. apply Forall_app in Hf as [_ Hf]. by apply Forall_cons_iff in Hf as [? _]. }
  revert Hb. zdecide. intros Hb. eexists _, _. split; [exact Hb|].
  split; [rewrite E; apply last_snoc|]. split; [lia|].
  pose proof (runs_separated below None top top Hd ltac:(lia) ltac:(lia) ltac:(done)) as Hs.
  assert (Hblk : ack_blocks top (enc_blocks None (runs top top below)) = runs top top below).
  { destruct (runs_head below top top) as (lo & bs & Er). rewrite Er in *. by apply ack_blocks_enc. }
  rewrite ack_process_blocks, Hblk by (unfold max_object; lia).
  destruct (ack_all_spec (runs top top below) t []) as (acc & -> & HP).
  assert (Hq : forall p, acked_by (runs top top below) p = is_received pns p).
  { intros p. unfold acked_by, is_received. f_equal. apply eq_true_iff_eq.
    rewrite runs_cover by (done || lia). rewrite existsb_exists, E. split.
    - intros [Hp|Hp]; [exists top|exists (e_pn p)]; rewrite in_app_iff, Z.eqb_eq; [split; [right; by left|lia]|].
      split; [left; by apply in_rev in Hp|done].
    - intros (x & Hx & Hp). apply Z.eqb_eq in Hp. subst x. apply in_app_iff in Hx as [Hx|[<-|[]]]; [right|left; lia].
      by apply in_rev. }
  eexists _, _. split; [done|]. split; [apply map_ext; intros p; unfold ack_slot; by rewrite Hq|].
  by rewrite (select_ext _ _ t Hq) in HP.
Qed.

(** C14: the receiver's range builder and the sender's ACK processing agree.  From any
    non-empty strictly ascending list of received packet numbers (below 2^62) and an
    output array of twice its length, the builder succeeds with the largest number
    first; processing the result against any table of sent packets acknowledges
    exactly the in-flight packets of the list, each reported once, frees their
    slots, and changes no other slot. *)
Theorem ack_ranges_end_to_end (pns : list Z) (t : quic_sentpkt) (cap : Z)
  (Hne : pns <> []) (Ha : ascending pns) (Hf : Forall (fun y => 0 <= y < 2 ^ 62) pns)
  (Ho : zlen pns < 2 ^ 60) (Hcap : 2 * zlen pns <= cap) :
  exists largest ranges, quic_ackgen_build_ranges pns (zlen pns) cap = Some (Some (largest, ranges)) /\
    list.last pns = Some largest /\ zlen ranges <= 2 * zlen pns /\
    exists t' acked, quic_ack_process t largest ranges (zlen ranges) = Some (t', acked) /\
      t' = map (ack_slot (is_received pns)) t /\
      Permutation acked (map e_pn (select (is_received pns) t)).
Proof. by apply ack_ranges_agree. Qed.

Definition table_example : quic_sentpkt :=
  map (fun i => mk_entry i (100 * i) 1200 1 QUIC_SP_INFLIGHT 1) [0; 1; 2; 3; 4; 5; 6; 7; 8] ++ repeat (mk_entry 0 0 0 0 0 0) 247.

(** Witness: packets 1, 2, 5, 6 and 7 received. *)
Lemma ack_ranges_end_to_end_witness :
  exists largest ranges t' acked, quic_ackgen_build_ranges [1; 2; 5; 6; 7] 5 10 = Some (Some (largest, ranges)) /\
    quic_ack_process table_example largest ranges (zlen ranges) = Some (t', acked) /\
    Permutation acked [1; 2; 5; 6; 7].
Proof.
  destruct (ack_ranges_end_to_end [1; 2; 5; 6; 7] table_example 10) as (largest & ranges & H1 & _ & _ & t' & acked & H2 & _ & H3).
  - discriminate.
  - cbn. lia.
  - repeat (apply Forall_cons_iff; split; [closed_arith|]). constructor.
  - closed_arith.
  - closed_arith.
  - exists largest, ranges, t', acked. split; [exact H1|]. split; [exact H2|exact H3].
Defined.

Definition frame_acks (f : quic_ack_frame) (p : quic_sentpkt_entry) : bool :=
  acked_by (frame_blocks (ack_ranges f)) p.

(** A received ACK frame acknowledges exactly what it lists.  For every
    well-formed frame as the encoder writes it, processing its bytes succeeds,
    acknowledges exactly the in-flight packets inside its ranges, each once, and
    changes no other slot; a frame cut short is refused. *)
Theorem ack_frame_processed (f f0 : quic_ack_frame) (t : quic_sentpkt) (post : list Z) (n : Z)
  (Hf : ack_wf f) (H0 : zlen (af_ranges f0) = QUIC_ACK_MAX_RANGES)
  (Hn : 1 <= n <= zlen (ack_bytes f ++ post)) (Ho : n < max_object) :
  (n < zlen (ack_bytes f) -> quic_ackrange_process f0 t (ack_bytes f ++ post) n = Some None) /\
  (zlen (ack_bytes f) <= n -> exists acked,
     quic_ackrange_process f0 t (ack_bytes f ++ post) n = Some (Some (map (ack_slot (frame_acks f)) t, acked)) /\
     Permutation acked (map e_pn (select (frame_acks f) t))).
Proof.
  destruct (ack_decode_bytes f f0 Hf H0) as (Hpos & g & (Hr & Hnr & _) & Hdec).
  unfold quic_ackrange_process. rewrite Hdec by done.
  split; intros Hc; zdecide; [done|].
  assert (Hlen : Z.to_nat (af_n_ranges g) = length (ack_ranges f)) by (rewrite Hnr; symmetry; by apply ack_ranges_len).
  assert (Hsp : af_ranges g = ack_ranges f ++ drop (length (ack_ranges f)) (af_ranges g)).
  { rewrite <- Hlen. rewrite <- Hr. unfold ack_ranges. by rewrite take_drop. }
  rewrite Hsp, Hlen. pose proof (akr_loop_spec (ack_ranges f) [] (drop (length (ack_ranges f)) (af_ranges g)) t []) as L.
  cbn [app] in L. change (zlen (@nil quic_ack_range)) with 0 in L. rewrite L.
  destruct (ack_all_spec (frame_blocks (ack_ranges f)) t []) as (acc & -> & HP). exists acc. by split.
Qed.

(** Witness: the frame with three ranges against nine packets in flight. *)
Lemma ack_frame_processed_witness :
  exists acked, quic_ackrange_process ack_blank table_example (ack_bytes ack_example ++ []) (zlen (ack_bytes ack_example)) =
    Some (Some (map (ack_slot (frame_acks ack_example)) table_example, acked)) /\
    Permutation acked [2; 3; 4; 5; 6; 7; 8].
Proof.
  destruct (ack_frame_processed ack_example ack_blank table_example [] (zlen (ack_bytes ack_example))) as [_ H];
    [exact ack_example_wf|closed_arith..|].
  destruct (H ltac:(closed_arith)) as (acked & H1 & H2). exists acked. split; [exact H1|exact H2].
Defined.

(** Driving loss detection after an ACK declares lost exactly the in-flight
    packets that are three or more below the largest acknowledged or older than
    the loss delay, reports each once in table order, frees their slots, and
    changes no other slot; nothing marked lost remains in the table. *)
Theorem lossdrive_exact (t : quic_sentpkt) (la now delay : Z)
  (Ht : Forall (fun p => e_used p <> 0 -> e_state p = QUIC_SP_INFLIGHT) t) :
  exists t' lost, quic_lossdrive_on_ack t la now delay = (t', lost) /\
    lost = map e_pn (select (loss_is_lost la now delay) t) /\
    t' = map (fun p => if loss_is_lost la now delay p then e_set p QUIC_SP_LOST 0 else p) t /\
    Forall (fun p => e_used p <> 0 -> e_state p = QUIC_SP_INFLIGHT) t'.
Proof.
  unfold quic_lossdrive_on_ack, quic_loss_detect. rewrite loss_loop_spec. cbn [app].
  eexists _, _. split; [done|]. split; [done|].
  assert (E : drop_lost (map (lose_slot (loss_is_lost la now delay)) t) =
    map (fun p => if loss_is_lost la now delay p then e_set p QUIC_SP_LOST 0 else p) t).
  { unfold drop_lost. rewrite map_map. apply map_ext_in. intros p Hp.
    pose proof (proj1 (Forall_forall _ _) Ht p Hp) as Hs. cbn beta in Hs. unfold lose_slot.
    destruct (loss_is_lost la now delay p) eqn:El.
    - assert (Hu : negb (e_used p =? 0) = true)
        by (unfold loss_is_lost, inflight in El; by apply andb_true_iff in El as [[? _]%andb_true_iff _]).
      unfold slot_lost. cbn [e_set e_used e_state]. by rewrite Hu.
    - unfold slot_lost. destruct (Z.eqb_spec (e_used p) 0); [done|]. by rewrite Hs. }
  split; [exact E|]. rewrite E. apply Forall_forall. intros q Hq. apply in_map_iff in Hq as (p & <- & Hp).
  destruct (loss_is_lost la now delay p); [by cbn|]. exact (proj1 (Forall_forall _ _) Ht p Hp).
Qed.

(** Witness: packet 6 acknowledged, so 0 to 3 are lost. *)
Lemma lossdrive_exact_witness :
  exists t', quic_lossdrive_on_ack table_example 6 100 5000 = (t', [0; 1; 2; 3]).
Proof.
  destruct (lossdrive_exact table_example 6 100 5000) as (t' & lost & H1 & H2 & _).
  - apply Forall_forall. intros p Hp. unfold table_example in Hp. apply in_app_iff in Hp as [Hp|Hp].
    + apply in_map_iff in Hp as (i & <- & _). reflexivity.
    + apply repeat_spec in Hp. subst p. reflexivity.
  - exists t'. rewrite H1. f_equal. rewrite H2. reflexivity.
Defined.
