(* ===== verification/RtxStore.v ===== *)
(** Retransmission of lost frames: [transport/recovery/rtx/rtxbytes] (the ring that
    keeps the bytes of the frames sent, [rtxstore.c], [rebuild.c], [collect.c]) and
    [transport/recovery/rtx/rtxdrive] ([build.c], [select.c], [batch.c]). *)
From S2P Require Import Prelude Buffers Varint Slots Frames.

(** * rtxstore.c *)

Definition QUIC_RTXBYTES_SLOTS : Z := 64.
Definition QUIC_RTXBYTES_FRAME : Z := 1200.

Record quic_rtxbytes_slot := mk_rslot { rx_pn : Z; rx_data : list Z; rx_len : Z; rx_used : Z }.
Record quic_rtxbytes := mk_rtx { rx_s : list quic_rtxbytes_slot; rx_next : Z }.

Definition quic_rtxbytes_init (st : quic_rtxbytes) : quic_rtxbytes :=
  mk_rtx (map (fun s => mk_rslot (rx_pn s) (rx_data s) (rx_len s) 0) (rx_s st)) 0.

Definition quic_rtxbytes_store (st : quic_rtxbytes) (pn : Z) (frame_bytes : list Z) (len : Z)
  : option (bool * quic_rtxbytes) :=
  if QUIC_RTXBYTES_FRAME <? len then Some (false, st)
  else match load (rx_s st) (rx_next st) with
       | None => None
       | Some slot =>
           match quic_put_bytes frame_bytes len QUIC_RTXBYTES_FRAME (rx_data slot, 0) with
           | None => None
           | Some (false, (data, _)) =>
               match store (rx_s st) (rx_next st) (mk_rslot (rx_pn slot) data (rx_len slot) (rx_used slot)) with
               | None => None
               | Some s => Some (false, mk_rtx s (rx_next st))
               end
           | Some (true, (data, _)) =>
               match store (rx_s st) (rx_next st) (mk_rslot pn data len 1) with
               | None => None
               | Some s => Some (true, mk_rtx s ((rx_next st +w 1) mod QUIC_RTXBYTES_SLOTS))
               end
           end
       end.

Definition slot_holds (slot : quic_rtxbytes_slot) (pn : Z) : bool := negb (rx_used slot =? 0) && (rx_pn slot =? pn).

(** The bytes pointed to and the length; [None]: returned 0. *)
Definition quic_rtxbytes_get (st : quic_rtxbytes) (pn : Z) : option (list Z * Z) :=
  match load (rx_s st) (scan (fun s => slot_holds s pn) (rx_s st)) with
  | None => None
  | Some s => Some (rx_data s, rx_len s)
  end.

(** * rebuild.c *)

Definition is_ack_or_padding (type : Z) : bool := (type =? QUIC_FRAME_PADDING) || (type =? 0x02) || (type =? 0x03).

(** [Some None]: returned -1. *)
Definition quic_rtxbytes_retransmittable (buf : list Z) (len : Z) : option (option bool) :=
  match quic_varint_decode buf len with
  | None => None
  | Some None => Some None
  | Some (Some (_, type)) => Some (Some (negb (is_ack_or_padding type)))
  end.

(** [Some len]: returned 1 with [*out_len = len]; the buffer. *)
Definition rebuild_copy (lost_frame : list Z) (len : Z) (out : list Z) (cap : Z) : option (option Z * list Z) :=
  match quic_put_bytes lost_frame len cap (out, 0) with
  | None => None
  | Some (false, (out', _)) => Some (None, out')
  | Some (true, (out', _)) => Some (Some len, out')
  end.

Definition quic_rtxbytes_rebuild (lost_frame : list Z) (len : Z) (out : list Z) (cap : Z)
  : option (option Z * list Z) :=
  match quic_rtxbytes_retransmittable lost_frame len with
  | None => None
  | Some None => Some (None, out)
  | Some (Some false) => Some (Some 0, out)
  | Some (Some true) => rebuild_copy lost_frame len out cap
  end.

(** A call on [out + *off], [*off] advanced by the bytes written when it returns 1. *)
Definition append_at (build : list Z -> Z -> option (option Z * list Z)) : wr := fun cap '(out, off) =>
  match build (drop (Z.to_nat off) out) (cap -w off) with
  | None => None
  | Some (None, tail) => Some (false, (take (Z.to_nat off) out ++ tail, off))
  | Some (Some wrote, tail) => Some (true, (take (Z.to_nat off) out ++ tail, off +w wrote))
  end.

(** * collect.c *)

Definition collect_one (st : quic_rtxbytes) (pn : Z) : wr := fun cap o =>
  match quic_rtxbytes_get st pn with
  | None => Some (true, o)
  | Some (bytes, len) => append_at (quic_rtxbytes_rebuild bytes len) cap o
  end.

(** [lost_pns] holds its [n] entries. *)
Definition quic_rtxbytes_collect (st : quic_rtxbytes) (lost_pns out : list Z) (cap : Z)
  : option (option Z * list Z) :=
  match each (collect_one st) lost_pns cap (out, 0) with
  | None => None
  | Some (false, (out', _)) => Some (None, out')
  | Some (true, (out', off)) => Some (Some off, out')
  end.

(** * rtxdrive *)

Definition quic_rtxdrive_build (st : quic_rtxbytes) (lost_pn : Z) (out : list Z) (cap : Z)
  : option (option Z * list Z) :=
  match quic_rtxbytes_get st lost_pn with
  | None => Some (Some 0, out)
  | Some (bytes, len) => quic_rtxbytes_rebuild bytes len out cap
  end.

(** [Some (Some b)]: returned 1 with [*is_retransmittable = b]. *)
Definition quic_rtxdrive_select (st : quic_rtxbytes) (lost_pn : Z) : option (option bool) :=
  match quic_rtxbytes_get st lost_pn with
  | None => Some None
  | Some (bytes, len) =>
      match quic_rtxbytes_retransmittable bytes len with
      | None => None
      | Some (Some true) => Some (Some true)
      | Some _ => Some (Some false)
      end
  end.

Definition batch_one (st : quic_rtxbytes) (pn : Z) : wr := append_at (quic_rtxdrive_build st pn).

(** The loop leaves at the first 0, and the function returns 1 all the same: the buffer
    and [*out_len]. *)
Definition quic_rtxdrive_batch (st : quic_rtxbytes) (lost_pns out : list Z) (cap : Z) : option (list Z * Z) :=
  match each (batch_one st) lost_pns cap (out, 0) with
  | None => None
  | Some (_, st') => Some st'
  end.

(** * The ring as a list of the frames stored

    [h] holds the frames accepted, oldest first; the ring keeps the last 64. *)

Definition sframe : Type := Z * list Z.

Definition slot_of (s : quic_rtxbytes_slot) (f : sframe) : Prop :=
  rx_used s <> 0 /\ rx_pn s = fst f /\ rx_len s = zlen (snd f) /\ take (length (snd f)) (rx_data s) = snd f.

Definition ring_of (h : list sframe) (st : quic_rtxbytes) : Prop :=
  zlen (rx_s st) = QUIC_RTXBYTES_SLOTS /\ rx_next st = zlen h mod QUIC_RTXBYTES_SLOTS /\
  Forall (fun s => zlen (rx_data s) = QUIC_RTXBYTES_FRAME) (rx_s st) /\
  (forall j f, zlen h - QUIC_RTXBYTES_SLOTS <= j -> load h j = Some f ->
     exists s, load (rx_s st) (j mod QUIC_RTXBYTES_SLOTS) = Some s /\ slot_of s f) /\
  (forall i s, zlen h <= i -> load (rx_s st) i = Some s -> rx_used s = 0).

(** The operation, with what the caller stores. *)
Definition rtx_store (st : quic_rtxbytes) (f : sframe) : option quic_rtxbytes :=
  option_map snd (quic_rtxbytes_store st (fst f) (snd f) (zlen (snd f))).

Fixpoint rtx_stores (st : quic_rtxbytes) (fs : list sframe) : option quic_rtxbytes :=
  match fs with
  | [] => Some st
  | f :: fs' => match rtx_store st f with None => None | Some st' => rtx_stores st' fs' end
  end.

Definition storable (f : sframe) : bool := zlen (snd f) <=? QUIC_RTXBYTES_FRAME.

(** What is held: the last 64 of the frames that fit a slot. *)
Definition held (fs : list sframe) : list sframe :=
  let h := List.filter storable fs in drop (length h - 64) h.

(** The bytes held for a packet number. *)
Fixpoint frame_of (l : list sframe) (pn : Z) : option (list Z) :=
  match l with
  | [] => None
  | (p, bs) :: l' => if p =? pn then Some bs else frame_of l' pn
  end.

Lemma frame_of_some l pn bs : frame_of l pn = Some bs -> In (pn, bs) l.
Proof.
  induction l as [|[p b] l IH]; cbn; [done|]. destruct (Z.eqb_spec p pn) as [->|]; [|by right; apply IH].
  intros [= ->]. by left.
Qed.

Lemma frame_of_in l pn bs : NoDup (map fst l) -> In (pn, bs) l -> frame_of l pn = Some bs.
Proof.
  induction l as [|[p b] l IH]; cbn; [done|]. intros Hnd. inversion_clear Hnd as [|? ? Hn Hd]. intros [[= -> ->]|Hin]; [by rewrite Z.eqb_refl|].
  destruct (Z.eqb_spec p pn) as [->|]; [|by apply IH]. exfalso. apply Hn, list_elem_of_In, in_map_iff. by exists (pn, bs).
Qed.

Lemma ring_init st :
  zlen (rx_s st) = QUIC_RTXBYTES_SLOTS -> Forall (fun s => zlen (rx_data s) = QUIC_RTXBYTES_FRAME) (rx_s st) ->
  ring_of [] (quic_rtxbytes_init st).
Proof.
  intros Hl Hd. unfold ring_of, quic_rtxbytes_init. cbn [rx_s rx_next]. split_and!.
  - unfold zlen in *. by rewrite length_map.
  - done.
  - by apply Forall_map.
  - intros j f _ Hf. by rewrite load_nil in Hf.
  - intros i s _ Hs. unfold load in Hs. destruct (0 <=? i); [|done]. rewrite list_lookup_fmap in Hs.
    apply fmap_Some in Hs as (s0 & _ & ->). done.
Qed.

Lemma ring_store h st f : ring_of h st -> zlen h < 2 ^ 62 ->
  exists st', rtx_store st f = Some st' /\ ring_of (if storable f then h ++ [f] else h) st'.
Proof.
  destruct f as [pn bs]. intros (H1 & H2 & H3 & H4 & H5) Hn. unfold rtx_store, quic_rtxbytes_store, storable. cbn [fst snd].
  pose proof (zlen_nonneg bs). pose proof (zlen_nonneg h).
  destruct (Z.ltb_spec QUIC_RTXBYTES_FRAME (zlen bs)) as [Hb|Hb]; zdecide.
  { eexists. split; [reflexivity|]. done. }
  pose proof (Z.mod_pos_bound (zlen h) 64 ltac:(lia)). unfold QUIC_RTXBYTES_SLOTS, QUIC_RTXBYTES_FRAME in *.
  rewrite H2. destruct (load_is_Some (rx_s st) (zlen h mod 64)) as [slot Hs]; [lia|]. rewrite Hs.
  assert (Hd : zlen (rx_data slot) = 1200).
  { apply load_elem, list_elem_of_In in Hs. rewrite List.Forall_forall in H3. by apply H3. }
  pose proof (writes_put_bytes_all bs ltac:(unfold max_object; lia) 1200 (rx_data slot) 0 ltac:(lia) ltac:(lia) ltac:(unfold max_object; lia)) as Hw.
  replace (0 + zlen bs <=? 1200) with true in Hw by (symmetry; apply Z.leb_le; lia). rewrite Hw.
  rewrite store_ok by lia. eexists. split; [reflexivity|].
  rewrite u64_id by (unfold is_u64; lia). unfold ring_of, QUIC_RTXBYTES_SLOTS, QUIC_RTXBYTES_FRAME. cbn [rx_s rx_next snd option_map].
  rewrite zlen_insert, zlen_app. change (zlen [(pn, bs)]) with 1. split_and!; [done| | | |].
  - rewrite Zplus_mod_idemp_l. done.
  - apply Forall_insert; [done|]. cbn. rewrite zlen_splice by lia. done.
  - intros j g Hj Hg. destruct (Z.eq_dec j (zlen h)) as [->|Hne].
    + rewrite load_head in Hg by done. injection Hg as <-. eexists. split.
      * rewrite load_insert by lia. by rewrite Z.eqb_refl.
      * unfold slot_of. cbn. split_and!; [done..|]. apply take_splice_0.
    + assert (Hjr : 0 <= j < zlen h).
      { destruct (load_range _ _ _ Hg) as [? Hlt]. rewrite zlen_app in Hlt. change (zlen [(pn, bs)]) with 1 in Hlt. lia. }
      rewrite load_app_l in Hg by lia. destruct (H4 j g ltac:(lia) Hg) as (s & Hls & Hso). exists s. split; [|done].
      rewrite load_insert by lia. assert (zlen h mod 64 <> j mod 64) by (Z.div_mod_to_equations; lia). by zdecide.
  - intros i s Hi Hls. rewrite load_insert in Hls by lia.
    assert (Hir : 0 <= i < 64).
    { destruct (Z.eqb_spec i (zlen h mod 64)); [lia|]. destruct (load_range _ _ _ Hls). lia. }
    assert (zlen h mod 64 <> i) by (Z.div_mod_to_equations; lia).
    revert Hls. zdecide. intros Hls. exact (H5 i s ltac:(lia) Hls).
Qed.

Lemma ring_stores fs : forall h st, ring_of h st -> zlen h + zlen fs < 2 ^ 62 ->
  exists st', rtx_stores st fs = Some st' /\ ring_of (h ++ List.filter storable fs) st'.
Proof.
  induction fs as [|f fs IH]; intros h st Hst Hn; cbn [rtx_stores List.filter].
  - exists st. by rewrite app_nil_r.
  - rewrite zlen_cons in Hn. pose proof (zlen_nonneg fs). destruct (ring_store h st f Hst) as (st1 & -> & Hst1); [lia|].
    destruct (storable f); [|apply IH; [done|lia]].
    destruct (IH _ _ Hst1) as (st' & -> & Hst'); [rewrite zlen_app; change (zlen [f]) with 1; lia|].
    exists st'. split; [done|]. by rewrite <- app_assoc in Hst'.
Qed.

(** The slot of the ring that holds index [i] of the table holds the last frame whose
    number is [i] modulo 64. *)
Lemma ring_slot h st i s : ring_of h st -> load (rx_s st) i = Some s -> rx_used s <> 0 ->
  exists f, In f (drop (length h - 64) h) /\ slot_of s f.
Proof.
  intros (H1 & _ & _ & H4 & H5) Hs Hu. unfold QUIC_RTXBYTES_SLOTS in *.
  destruct (load_range _ _ _ Hs) as [Hi0 Hi1]. assert (Hi : i < zlen h) by (destruct (Z.lt_ge_cases i (zlen h)); [done|]; by rewrite (H5 i s) in Hu).
  set (j := zlen h - 1 - (zlen h - 1 - i) mod 64).
  assert (Hj : 0 <= j < zlen h /\ zlen h - 64 <= j /\ j mod 64 = i) by (unfold j; Z.div_mod_to_equations; lia).
  destruct (load_is_Some h j) as [f Hf]; [lia|]. destruct (H4 j f ltac:(lia) Hf) as (s' & Hs' & Hso).
  replace (j mod 64) with i in Hs' by lia. rewrite Hs in Hs'. injection Hs' as <-. exists f. split; [|done].
  apply list_elem_of_In. apply (list_elem_of_lookup_2 _ (Z.to_nat j - (length h - 64))). rewrite lookup_drop.
  unfold load in Hf. destruct (0 <=? j); [|done]. rewrite <- Hf. f_equal. unfold zlen in *. lia.
Qed.

Lemma ring_get h st pn : ring_of h st -> NoDup (map fst (drop (length h - 64) h)) ->
  match frame_of (drop (length h - 64) h) pn with
  | None => quic_rtxbytes_get st pn = None
  | Some bs => exists data, quic_rtxbytes_get st pn = Some (data, zlen bs) /\
                 take (length bs) data = bs /\ zlen data = QUIC_RTXBYTES_FRAME
  end.
Proof.
  intros Hr Hnd. pose proof Hr as (H1 & _ & H3 & H4 & _). unfold quic_rtxbytes_get.
  set (p := fun s => slot_holds s pn). pose proof (scan_range p (rx_s st)) as Hrange.
  destruct (Z.eq_dec (scan p (rx_s st)) (zlen (rx_s st))) as [He|Hne].
  - rewrite He. destruct (load (rx_s st) (zlen (rx_s st))) as [s|] eqn:Hs; [apply load_range in Hs; lia|clear Hs].
    apply scan_none in He. destruct (frame_of _ pn) as [bs|] eqn:Ef; [exfalso|done].
    apply frame_of_some, list_elem_of_In, list_elem_of_lookup_1 in Ef as [k Hk]. rewrite lookup_drop in Hk.
    assert (Hk' := lookup_lt_Some _ _ _ Hk). unfold QUIC_RTXBYTES_SLOTS in *.
    destruct (H4 (Z.of_nat (length h - 64 + k)) (pn, bs)) as (s & Hs & Hu & Hp & _).
    { unfold zlen. lia. } { unfold load. zdecide. by rewrite Nat2Z.id. }
    apply load_elem, list_elem_of_In in Hs. rewrite List.Forall_forall in He. specialize (He s Hs).
    unfold p, slot_holds in He. cbn in Hp. rewrite Hp, Z.eqb_refl, andb_true_r in He. zbool. done.
  - destruct (scan_found p (rx_s st) ltac:(lia)) as (pre & s & post & El & Es & Ep & _).
    assert (Hls : load (rx_s st) (scan p (rx_s st)) = Some s) by (rewrite El at 1; by apply load_middle). rewrite Hls.
    unfold p, slot_holds in Ep. zbool. destruct (ring_slot h st _ s Hr Hls ltac:(done)) as ([q bs] & Hin & _ & Hq & Hlen & Htk).
    cbn [fst snd] in *. subst q. assert (Hpn : rx_pn s = pn) by done. rewrite Hpn in Hin.
    rewrite (frame_of_in _ _ _ Hnd Hin). exists (rx_data s). split_and!; [by rewrite Hlen|done|].
    apply load_elem, list_elem_of_In in Hls. rewrite List.Forall_forall in H3. by apply H3.
Qed.

(** * What is written *)

(** The bytes that retransmit a frame: none for ACK and PADDING; [None] when the frame
    type cannot be read. *)
Definition rebuilt (bs : list Z) : option (list Z) :=
  match quic_varint_decode bs (zlen bs) with
  | Some (Some (_, type)) => Some (if is_ack_or_padding type then [] else bs)
  | _ => None
  end.

(** The bytes written for the lost packets into [room] bytes, up to the first frame that
    does not fit or cannot be read, and whether there was none. *)
Fixpoint retransmit (l : list sframe) (lost : list Z) (room : Z) : list Z * bool :=
  match lost with
  | [] => ([], true)
  | pn :: lost' =>
      match frame_of l pn with
      | None => retransmit l lost' room
      | Some bs =>
          match rebuilt bs with
          | None => ([], false)
          | Some w => if zlen w <=? room
                      then let (ws, ok) := retransmit l lost' (room - zlen w) in (w ++ ws, ok)
                      else ([], false)
          end
      end
  end.

Lemma rebuild_spec bs data out cap :
  Forall is_u8 bs -> take (length bs) data = bs -> 0 <= cap <= zlen out -> cap < max_object -> zlen bs < max_object ->
  quic_rtxbytes_rebuild data (zlen bs) out cap =
  match rebuilt bs with
  | None => Some (None, out)
  | Some w => Some (if zlen w <=? cap then (Some (zlen w), splice out 0 w) else (None, out))
  end.
Proof.
  intros Hu Ht Hc Ho Hb. unfold quic_rtxbytes_rebuild, quic_rtxbytes_retransmittable, rebuilt.
  assert (Ed : data = bs ++ drop (length bs) data) by (rewrite <- Ht at 1; symmetry; apply take_drop).
  assert (Hv : exists r, quic_varint_decode bs (zlen bs) = Some r).
  { destruct bs as [|b bs]; [by exists None|]. apply Forall_cons_iff in Hu as [Hb' Hu].
    rewrite varint_decode_spec; [by eexists|done|by apply Forall_take|]. rewrite zlen_cons. pose proof (zlen_nonneg bs). lia. }
  rewrite Ed, (varint_decode_prefix _ _ Hu). destruct Hv as [[[u t]|] ->]; [|done].
  destruct (is_ack_or_padding t); cbn [negb].
  { rewrite splice_nil. change (zlen []) with 0. by ztrue (0 <=? cap). }
  unfold rebuild_copy, quic_put_bytes. rewrite <- Ed. pose proof (zlen_nonneg bs).
  rewrite !(u64_id (0 + zlen bs)) by (unfold is_u64, max_object in *; lia). rewrite Z.add_0_l.
  destruct (Z.ltb_spec cap (zlen bs)); zdecide; [done|].
  assert (Hl : (length bs <= length data)%nat) by (rewrite <- Ht at 1; rewrite length_take; lia).
  rewrite copy_loop_len by (unfold zlen in *; lia). rewrite Z2Nat.id by lia.
  unfold slice. change (Z.to_nat 0) with 0%nat. rewrite drop_0.
  replace (Z.to_nat (zlen bs)) with (length bs) by (unfold zlen; lia). by rewrite Ht.
Qed.

Section Batch.
Context (l : list sframe) (Hu8 : Forall (fun f => Forall is_u8 (snd f) /\ zlen (snd f) <= QUIC_RTXBYTES_FRAME) l).
Context (st : quic_rtxbytes).
Context (Hget : forall pn, match frame_of l pn with
  | None => quic_rtxbytes_get st pn = None
  | Some bs => exists data, quic_rtxbytes_get st pn = Some (data, zlen bs) /\
                 take (length bs) data = bs /\ zlen data = QUIC_RTXBYTES_FRAME
  end).

(** One packet: the two drivers write the same bytes. *)
Lemma retransmit_one pn cap out off : 0 <= off <= cap -> cap <= zlen out -> cap < max_object ->
  let r := match frame_of l pn with
           | None => Some (true, (out, off))
           | Some bs =>
               match rebuilt bs with
               | None => Some (false, (out, off))
               | Some w => Some (if off + zlen w <=? cap then (true, (splice out off w, off + zlen w)) else (false, (out, off)))
               end
           end in
  collect_one st pn cap (out, off) = r /\ batch_one st pn cap (out, off) = r.
Proof.
  intros Hoff Hcap Ho. cbv zeta. unfold collect_one, batch_one, append_at, quic_rtxdrive_build.
  specialize (Hget pn). destruct (frame_of l pn) as [bs|] eqn:Ef.
  - destruct Hget as (data & -> & Ht & _). apply frame_of_some in Ef. rewrite List.Forall_forall in Hu8.
    destruct (Hu8 _ Ef) as [Hb Hlen]. cbn [snd] in *. unfold QUIC_RTXBYTES_FRAME in Hlen. apply and_same.
    rewrite (u64_id (cap - off)) by (unfold is_u64, max_object in *; lia).
    rewrite rebuild_spec; [|done|done|unfold zlen in *; rewrite length_drop; lia|lia|unfold max_object; lia].
    destruct (rebuilt bs) as [w|]; [|by rewrite take_drop].
    destruct (Z.leb_spec (zlen w) (cap - off)); zdecide; [|by rewrite take_drop].
    pose proof (zlen_nonneg w). rewrite take_app_splice, u64_id by (unfold is_u64, max_object in *; lia). done.
  - rewrite Hget. split; [done|]. rewrite take_drop, Z.add_0_r, u64_id by (unfold is_u64, max_object in *; lia). done.
Qed.

Lemma retransmit_each (one : Z -> wr) lost :
  (one = collect_one st \/ one = batch_one st) ->
  forall cap out off, 0 <= off <= cap -> cap <= zlen out -> cap < max_object ->
  let (ws, ok) := retransmit l lost (cap - off) in
  each one lost cap (out, off) = Some (ok, (splice out off ws, off + zlen ws)) /\ off + zlen ws <= cap.
Proof.
  intros Hone. induction lost as [|pn lost IH]; intros cap out off Hoff Hcap Ho; cbn [retransmit each].
  - rewrite splice_nil, zlen_nil, Z.add_0_r. split; [done|lia].
  - unfold wr_seq. destruct (retransmit_one pn cap out off Hoff Hcap Ho) as [Hc Hb].
    replace (one pn cap (out, off)) with (collect_one st pn cap (out, off)) by (destruct Hone as [->| ->]; by rewrite ?Hb).
    rewrite Hc. clear Hc Hb. destruct (frame_of l pn) as [bs|]; [|by apply IH].
    destruct (rebuilt bs) as [w|]; [|rewrite splice_nil, zlen_nil, Z.add_0_r; split; [done|lia]].
    pose proof (zlen_nonneg w). destruct (Z.leb_spec (zlen w) (cap - off)); zdecide;
      [|rewrite splice_nil, zlen_nil, Z.add_0_r; split; [done|lia]].
    specialize (IH cap (splice out off w) (off + zlen w)). rewrite zlen_splice in IH by lia. specialize (IH ltac:(lia) Hcap Ho).
    replace (cap - (off + zlen w)) with (cap - off - zlen w) in IH by lia.
    destruct (retransmit l lost _) as [ws ok]. destruct IH as [-> Hle]. rewrite zlen_app.
    rewrite splice_splice by lia. rewrite Z.add_assoc. split; [done|lia].
Qed.
End Batch.

Lemma retransmittable_spec bs data : Forall is_u8 bs -> take (length bs) data = bs ->
  quic_rtxbytes_retransmittable data (zlen bs) = Some (option_map (fun w => negb (zlen w =? 0)) (rebuilt bs)).
Proof.
  intros Hu Ht. assert (Ed : data = bs ++ drop (length bs) data) by (rewrite <- Ht at 1; symmetry; apply take_drop).
  unfold quic_rtxbytes_retransmittable, rebuilt. rewrite Ed, (varint_decode_prefix _ _ Hu).
  destruct bs as [|b bs]; [done|]. pose proof (zlen_nonneg bs). apply Forall_cons_iff in Hu as [Hb Hu].
  rewrite varint_decode_spec by (done || (by apply Forall_take) || (rewrite zlen_cons; lia)).
  destruct (zlen (b :: bs) <? _); [done|]. cbn [option_map]. destruct (is_ack_or_padding _); [done|].
  rewrite zlen_cons. by zfalse (1 + zlen bs =? 0).
Qed.

(** Lost frames are retransmitted verbatim.  From any initial memory, after storing
    any frames (those longer than a slot are refused, and among the last 64 kept no
    packet number occurs twice), the batch written for a list of lost packet numbers is
    the concatenation, in the order of the list, of the bytes of the frames kept for them,
    leaving out ACK and PADDING frames and packets no longer held, and ending before the
    first frame that does not fit; [quic_rtxbytes_collect] writes the same bytes and
    returns 0 exactly when it had to stop; and [quic_rtxdrive_select] tells which packets
    are held and have something to resend. *)
Theorem rtx_verbatim st (fs : list sframe) lost out cap
  (Hslots : zlen (rx_s st) = QUIC_RTXBYTES_SLOTS)
  (Hdata : Forall (fun s => zlen (rx_data s) = QUIC_RTXBYTES_FRAME) (rx_s st))
  (Hu : Forall (fun f => Forall is_u8 (snd f)) fs) (Hnd : NoDup (map fst (held fs))) (Hn : zlen fs < 2 ^ 62)
  (Hcap : 0 <= cap <= zlen out) (Ho : cap < max_object) :
  exists st', rtx_stores (quic_rtxbytes_init st) fs = Some st' /\
    (let (ws, ok) := retransmit (held fs) lost cap in
     quic_rtxdrive_batch st' lost out cap = Some (splice out 0 ws, zlen ws) /\
     quic_rtxbytes_collect st' lost out cap = Some (if ok then Some (zlen ws) else None, splice out 0 ws)) /\
    forall pn, quic_rtxdrive_select st' pn =
      Some (option_map (fun bs => match rebuilt bs with Some w => negb (zlen w =? 0) | None => false end)
              (frame_of (held fs) pn)).
Proof.
  destruct (ring_stores fs [] (quic_rtxbytes_init st)) as (st' & Hst' & Hr); [by apply ring_init|unfold sframe in *; rewrite zlen_nil; lia|].
  exists st'. split; [done|]. rewrite app_nil_l in Hr. pose proof (fun pn => ring_get _ _ pn Hr Hnd) as Hget.
  fold (held fs) in Hget.
  assert (Hheld : Forall (fun f => Forall is_u8 (snd f) /\ zlen (snd f) <= QUIC_RTXBYTES_FRAME) (held fs)).
  { unfold held. apply Forall_drop, List.Forall_forall. intros f [Hin Hs]%filter_In. rewrite List.Forall_forall in Hu.
    split; [by apply Hu|]. by apply Z.leb_le in Hs. }
  split.
  - pose proof (fun one Hone => retransmit_each _ Hheld _ Hget one lost Hone cap out 0 ltac:(lia) ltac:(lia) Ho) as He.
    rewrite Z.sub_0_r in He. destruct (retransmit (held fs) lost cap) as [ws ok].
    unfold quic_rtxdrive_batch, quic_rtxbytes_collect.
    destruct (He (batch_one st') ltac:(by right)) as [-> _], (He (collect_one st') ltac:(by left)) as [-> _].
    split; [done|by destruct ok].
  - intros pn. specialize (Hget pn). unfold quic_rtxdrive_select. destruct (frame_of (held fs) pn) as [bs|] eqn:Ef; [|by rewrite Hget].
    destruct Hget as (data & -> & Ht & _). apply frame_of_some in Ef. rewrite List.Forall_forall in Hheld.
    destruct (Hheld _ Ef) as [Hb _]. cbn [snd] in Hb. rewrite (retransmittable_spec _ _ Hb Ht). cbn [option_map].
    destruct (rebuilt bs) as [w|]; cbn; [|done]. by destruct (zlen w =? 0).
Qed.

(** Witness: a PING, an ACK and a MAX_DATA frame; the ACK is not resent. *)
Definition rtx_blank : quic_rtxbytes := mk_rtx (repeat (mk_rslot 3 (repeat 7 1200) 9 1) 64) 5.
Definition rtx_frames : list sframe := [(10, [0x01]); (11, [0x02; 5; 0; 0; 0]); (12, [0x10; 0x40; 0x80])].

Lemma rtx_verbatim_witness :
  exists st', rtx_stores (quic_rtxbytes_init rtx_blank) rtx_frames = Some st' /\
    (let (ws, ok) := retransmit (held rtx_frames) [12; 11; 9; 10] 4 in
     quic_rtxdrive_batch st' [12; 11; 9; 10] (repeat 0 4) 4 = Some (splice (repeat 0 4) 0 ws, zlen ws) /\
     quic_rtxbytes_collect st' [12; 11; 9; 10] (repeat 0 4) 4 = Some (if ok then Some (zlen ws) else None, splice (repeat 0 4) 0 ws)) /\
    forall pn, quic_rtxdrive_select st' pn =
      Some (option_map (fun bs => match rebuilt bs with Some w => negb (zlen w =? 0) | None => false end)
              (frame_of (held rtx_frames) pn)).
Proof.
  apply (rtx_verbatim rtx_blank rtx_frames [12; 11; 9; 10] (repeat 0 4) 4).
  - reflexivity.
  - apply List.Forall_forall. intros s Hs. apply repeat_spec in Hs. subst s. reflexivity.
  - repeat (apply List.Forall_cons; [repeat (apply List.Forall_cons; [closed_arith|]); apply List.Forall_nil|]). apply List.Forall_nil.
  - apply (bool_decide_unpack _). reflexivity.
  - reflexivity.
  - closed_arith.
  - reflexivity.
Defined.

(** What the example writes. *)
Example rtx_example : retransmit (held rtx_frames) [12; 11; 9; 10] 4 = ([0x10; 0x40; 0x80; 0x01], true).
Proof. reflexivity. Qed.
