(* ===== verification/Timing.v ===== *)
(** Time in loss recovery: RTT estimation, probe timeouts, the delays of loss
    detection and the policy for sending acknowledgements
    ([src/transport/recovery/detect]: recovery/rtt.c, rttinit.c, rttsample.c,
    rttvalid.c, pto.c, ptoreset.c, probe.c, losstimer.c, lossdetect.c, ackdelay.c,
    ackpolicy.c, inflight.c, largestacked.c; lossdrive/lossdelay.c, ptobackoff.c;
    losstime/losstime.c; hspto/*.c; ackgen/ackgen.c, ackfreq.c).
    All times are microseconds in 64 bits. *)
From S2P Require Import Prelude.

(** * common/bytes/util/num.h *)

Definition quic_u64_min (a b : Z) : Z := if a <? b then a else b.
Definition quic_u64_max (a b : Z) : Z := if b <? a then a else b.
Definition quic_u64_absdiff (a b : Z) : Z := if b <? a then a - b else b - a.
Definition quic_u32_in (v : Z) (list : list Z) : bool := existsb (fun x => x =? v) list.

(** * rtt.c, rttinit.c, rttsample.c, rttvalid.c *)

Definition QUIC_RTT_INITIAL_US : Z := 333000.
Definition QUIC_RTT_GRANULARITY : Z := 1000.

Record quic_rtt := mk_rtt { r_min_rtt : Z; r_smoothed_rtt : Z; r_rttvar : Z; r_have_sample : Z }.

Definition quic_rtt_init : quic_rtt := mk_rtt 0 QUIC_RTT_INITIAL_US (QUIC_RTT_INITIAL_US / 2) 0.
Definition first_sample (latest : Z) : quic_rtt := mk_rtt latest latest (latest / 2) 1.
Definition adjust (r : quic_rtt) (latest ack_delay : Z) : Z :=
  if r_min_rtt r +w ack_delay <=? latest then latest -w ack_delay else latest.
Definition next_sample (r : quic_rtt) (latest ack_delay : Z) : quic_rtt :=
  let adjusted := adjust r latest ack_delay in
  let var_sample := quic_u64_absdiff (r_smoothed_rtt r) adjusted in
  mk_rtt (quic_u64_min (r_min_rtt r) latest)
    ((7 *w r_smoothed_rtt r +w adjusted) / 8)
    ((3 *w r_rttvar r +w var_sample) / 4)
    (r_have_sample r).
Definition quic_rtt_sample (r : quic_rtt) (latest_rtt ack_delay : Z) : quic_rtt :=
  if r_have_sample r =? 0 then first_sample latest_rtt else next_sample r latest_rtt ack_delay.
Definition quic_rtt_pto (r : quic_rtt) (max_ack_delay : Z) : Z :=
  let var := quic_u64_max (4 *w r_rttvar r) QUIC_RTT_GRANULARITY in
  r_smoothed_rtt r +w var +w max_ack_delay.

Definition quic_rtt_is_first (have_sample : Z) : bool := have_sample =? 0.
Definition quic_rtt_first_srtt (latest_rtt : Z) : Z := latest_rtt.
Definition quic_rtt_first_rttvar (latest_rtt : Z) : Z := latest_rtt / 2.
Definition quic_rtt_min_update (min_rtt latest_rtt : Z) : Z := quic_u64_min min_rtt latest_rtt.
Definition quic_rtt_adjusted (latest_rtt min_rtt ack_delay : Z) : Z :=
  if min_rtt +w ack_delay <=? latest_rtt then latest_rtt -w ack_delay else latest_rtt.
Definition quic_rtt_sample_valid (largest_newly_acked was_ack_eliciting : Z) : Z :=
  if negb (largest_newly_acked =? 0) && negb (was_ack_eliciting =? 0) then 1 else 0.
Definition quic_rtt_sample_time (now sent_time : Z) : Z := if sent_time <=? now then now - sent_time else 0.

(** * pto.c, ptobackoff.c, hspto *)

Definition QUIC_PTO_GRANULARITY : Z := 1000.
Definition QUIC_PTO_BACKOFF_MAX : Z := 16.
Definition quic_pto_backoff (count : Z) : Z :=
  let shift := if count <? QUIC_PTO_BACKOFF_MAX then count else QUIC_PTO_BACKOFF_MAX in 1 <<w shift.
Definition base_pto (srtt rttvar max_ack_delay : Z) : Z :=
  let var := quic_u64_max (4 *w rttvar) QUIC_PTO_GRANULARITY in srtt +w var +w max_ack_delay.
Definition quic_pto_duration (srtt rttvar max_ack_delay backoff_count : Z) : Z :=
  base_pto srtt rttvar max_ack_delay *w quic_pto_backoff backoff_count.

Definition quic_lossdrive_pto (smoothed_rtt rttvar max_ack_delay pto_count granularity : Z) : Z :=
  let var := quic_u64_max (4 *w rttvar) granularity in
  let base := smoothed_rtt +w var +w max_ack_delay in
  base *w quic_pto_backoff pto_count.

Definition ack_delay_term (handshake_confirmed max_ack_delay : Z) : Z :=
  if handshake_confirmed =? 0 then 0 else max_ack_delay.
Definition quic_hspto_duration (srtt rttvar pto_count granularity handshake_confirmed max_ack_delay : Z) : Z :=
  let var := quic_u64_max (4 *w rttvar) granularity in
  let base := srtt +w var +w ack_delay_term handshake_confirmed max_ack_delay in
  base *w quic_pto_backoff pto_count.

Definition handshake_armable (handshake_inflight has_handshake_keys : bool) : bool :=
  handshake_inflight && has_handshake_keys.
Definition quic_hspto_should_arm (initial_inflight handshake_inflight handshake_confirmed has_handshake_keys : bool) : bool :=
  initial_inflight || handshake_armable handshake_inflight has_handshake_keys.

Definition QUIC_HSPTO_SPACE_INITIAL : Z := 0.
Definition QUIC_HSPTO_SPACE_HANDSHAKE : Z := 1.
Definition QUIC_HSPTO_SPACE_APPLICATION : Z := 2.
Definition early_space (initial_inflight handshake_inflight : bool) : Z :=
  if initial_inflight then QUIC_HSPTO_SPACE_INITIAL
  else if handshake_inflight then QUIC_HSPTO_SPACE_HANDSHAKE else QUIC_HSPTO_SPACE_APPLICATION.
Definition quic_hspto_probe_space (initial_inflight handshake_inflight handshake_confirmed : bool) : Z :=
  if handshake_confirmed then QUIC_HSPTO_SPACE_APPLICATION else early_space initial_inflight handshake_inflight.

Definition quic_pto_should_reset (ack_received : bool) (ack_eliciting_in_flight : Z) : bool :=
  ack_received && (ack_eliciting_in_flight =? 0).
Definition quic_probe_count (pto_fired : bool) : Z := if pto_fired then 2 else 0.
Definition quic_probe_should_send (bytes_in_flight : Z) (pto_expired : bool) : bool := pto_expired.
Definition quic_losstimer_next (loss_time pto_time : Z) (has_loss_time : bool) : Z :=
  if has_loss_time && (loss_time <? pto_time) then loss_time else pto_time.
Definition quic_losstimer_set (ack_eliciting_in_flight : Z) : bool := negb (ack_eliciting_in_flight =? 0).

(** * lossdetect.c, lossdelay.c, losstime.c *)

Definition QUIC_LOSS_PACKET_THRESHOLD : Z := 3.
Definition QUIC_LOSS_TIME_NUM : Z := 9.
Definition QUIC_LOSS_TIME_DEN : Z := 8.
Definition quic_loss_by_packet (largest_acked pn : Z) : bool := pn +w QUIC_LOSS_PACKET_THRESHOLD <=? largest_acked.
Definition time_threshold (srtt latest_rtt : Z) : Z :=
  (quic_u64_max srtt latest_rtt *w QUIC_LOSS_TIME_NUM) / QUIC_LOSS_TIME_DEN.
Definition quic_loss_by_time (now sent_time srtt latest_rtt : Z) : bool :=
  let elapsed := if sent_time <? now then now - sent_time else 0 in
  time_threshold srtt latest_rtt <=? elapsed.
Definition quic_lossdrive_loss_delay (smoothed_rtt latest_rtt granularity : Z) : Z :=
  let rtt := quic_u64_max smoothed_rtt latest_rtt in
  let threshold := (rtt *w QUIC_LOSS_TIME_NUM) / QUIC_LOSS_TIME_DEN in
  quic_u64_max threshold granularity.
Definition quic_losstime_threshold (srtt latest_rtt granularity : Z) : Z :=
  quic_lossdrive_loss_delay srtt latest_rtt granularity.
Definition quic_losstime_is_lost (time_sent now loss_delay : Z) : bool := time_sent +w loss_delay <=? now.

(** * ackdelay.c, inflight.c, largestacked.c *)

Definition quic_ack_delay_encode (micros exponent : Z) : Z := Z.shiftr micros exponent.
Definition quic_ack_delay_decode (value exponent : Z) : Z := value <<w exponent.
Definition quic_pkt_ack_eliciting (has_non_ack_frame : bool) : Z := if has_non_ack_frame then 1 else 0.
Definition quic_pkt_in_flight (ack_eliciting has_padding : bool) : Z := if ack_eliciting || has_padding then 1 else 0.
Definition quic_pkt_counts_bytes (in_flight : bool) (size : Z) : Z := if in_flight then size else 0.
Definition quic_largest_acked_update (current new_largest : Z) : Z := quic_u64_max current new_largest.
Definition quic_newly_acked (prev_largest pn : Z) : Z := if prev_largest <? pn then 1 else 0.

(** * ackpolicy.c, ackgen.c, ackfreq.c *)

Record quic_ackpolicy := mk_ackpolicy { ap_pending : Z; ap_since_tick : Z }.
Definition quic_ackpolicy_init : quic_ackpolicy := mk_ackpolicy 0 0.
Definition quic_ackpolicy_on_eliciting (p : quic_ackpolicy) (tick : Z) : quic_ackpolicy :=
  mk_ackpolicy (ap_pending p +w 1) (if ap_pending p =? 0 then tick else ap_since_tick p).
Definition delay_elapsed (p : quic_ackpolicy) (now max_ack_delay : Z) : bool := max_ack_delay <=? now -w ap_since_tick p.
Definition quic_ackpolicy_should_ack (p : quic_ackpolicy) (now max_ack_delay : Z) : bool :=
  if ap_pending p =? 0 then false
  else if 2 <=? ap_pending p then true else delay_elapsed p now max_ack_delay.
Definition quic_ackpolicy_on_ack_sent (p : quic_ackpolicy) : quic_ackpolicy := mk_ackpolicy 0 (ap_since_tick p).

Definition delay_due (since_last_ack max_ack_delay : Z) : bool := max_ack_delay <=? since_last_ack.
Definition second_eliciting (ack_eliciting_received ack_already_pending : bool) : bool :=
  ack_eliciting_received && ack_already_pending.
Definition has_outstanding (ack_eliciting_received ack_already_pending : bool) : bool :=
  ack_eliciting_received || ack_already_pending.
Definition quic_ackgen_should_ack (ack_eliciting_received ack_already_pending : bool) (since_last_ack max_ack_delay : Z) : bool :=
  if negb (has_outstanding ack_eliciting_received ack_already_pending) then false
  else if second_eliciting ack_eliciting_received ack_already_pending then true
  else delay_due since_last_ack max_ack_delay.
Definition quic_ackgen_due (unacked_eliciting elapsed max_ack_delay : Z) : bool :=
  if unacked_eliciting =? 0 then false else if 2 <=? unacked_eliciting then true else max_ack_delay <=? elapsed.

(** * The RTT estimator over a sequence of samples *)

(** The estimator after a sequence of (latest_rtt, ack_delay) samples. *)
Definition rtt_run (samples : list (Z * Z)) : quic_rtt :=
  fold_left (fun r s => quic_rtt_sample r (fst s) (snd s)) samples quic_rtt_init.

(** Samples below a bound that keeps the weighted sums inside 64 bits. *)
Definition sample_ok (U : Z) (s : Z * Z) : Prop := 0 <= fst s <= U /\ 0 <= snd s <= U.

Record rtt_inv (U : Z) (samples : list (Z * Z)) (r : quic_rtt) : Prop := {
  ri_have : r_have_sample r = 1;
  ri_min : r_min_rtt r = fold_left Z.min (map fst (tail samples)) (match samples with [] => 0 | s :: _ => fst s end);
  ri_pos : 0 <= r_min_rtt r;
  ri_smoothed : r_min_rtt r <= r_smoothed_rtt r <= U;
  ri_var : 0 <= r_rttvar r <= U;
}.

Lemma next_sample_inv U samples r s :
  0 <= U < 2 ^ 60 -> samples <> [] -> rtt_inv U samples r -> sample_ok U s -> rtt_inv U (samples ++ [s]) (next_sample r (fst s) (snd s)).
Proof.
  intros HU Hne [Hh Hm Hp Hs Hv] [Hl Hd]. destruct s as [latest delay]. cbn [fst snd] in *.
  unfold next_sample, adjust. set (adj := if r_min_rtt r +w delay <=? latest then latest -w delay else latest).
  assert (Hadj : Z.min (r_min_rtt r) latest <= adj <= U).
  { unfold adj. unwrap. destruct (Z.leb_spec (r_min_rtt r + delay) latest); unwrap; lia. }
  assert (Hvs : 0 <= quic_u64_absdiff (r_smoothed_rtt r) adj <= U)
    by (unfold quic_u64_absdiff; destruct (Z.ltb_spec adj (r_smoothed_rtt r)); lia).
  set (vs := quic_u64_absdiff (r_smoothed_rtt r) adj) in *. unwrap.
  assert (Hmin : quic_u64_min (r_min_rtt r) latest = Z.min (r_min_rtt r) latest)
    by (unfold quic_u64_min; destruct (Z.ltb_spec (r_min_rtt r) latest); lia).
  constructor; cbn [r_have_sample r_min_rtt r_smoothed_rtt r_rttvar]; rewrite ?Hmin.
  - done.
  - destruct samples as [|s0 samples]; [done|]. cbn [app tail] in *. rewrite map_app, fold_left_app. cbn. by rewrite Hm.
  - lia.
  - split; [apply Z.div_le_lower_bound; lia|apply Z.div_le_upper_bound; lia].
  - split; [apply Z.div_pos; lia|apply Z.div_le_upper_bound; lia].
Qed.

Lemma rtt_run_inv U samples : 0 <= U < 2 ^ 60 -> samples <> [] -> Forall (sample_ok U) samples -> rtt_inv U samples (rtt_run samples).
Proof.
  intros HU. induction samples as [|s samples IH] using rev_ind; intros Hne Hf; [done|].
  apply Forall_app in Hf as [Hf Hs]. apply Forall_inv in Hs. unfold rtt_run. rewrite fold_left_app.
  fold (rtt_run samples). cbn [fold_left].
  destruct samples as [|s0 samples].
  - destruct Hs as [Hl _]. unfold rtt_run. cbn [fold_left app]. unfold quic_rtt_sample, first_sample. cbn.
    constructor; cbn; try lia; try done.
    split; [apply Z.div_pos; lia|apply Z.div_le_upper_bound; lia].
  - specialize (IH ltac:(done) Hf). unfold quic_rtt_sample. rewrite (ri_have _ _ _ IH). cbn [Z.eqb].
    by apply next_sample_inv.
Qed.

(** * Properties *)

(** C36: for any non-empty sequence of RTT samples up to a bound U below 2^60
    microseconds, the estimator keeps the minimum of the samples as [min_rtt],
    keeps [smoothed_rtt] between that minimum and U and [rttvar] at most U, never
    overflows, and its probe timeout lies between [smoothed_rtt] plus the
    granularity and 5U plus the granularity plus the peer's ack delay. *)
Theorem rtt_estimator_bounds (samples : list (Z * Z)) (U mad : Z)
  (HU : 0 <= U < 2 ^ 60) (Hne : samples <> []) (Hs : Forall (sample_ok U) samples) (Hm : 0 <= mad < 2 ^ 60) :
  let r := rtt_run samples in
  r_min_rtt r = fold_left Z.min (map fst (tail samples)) (match samples with [] => 0 | s :: _ => fst s end) /\
  r_min_rtt r <= r_smoothed_rtt r <= U /\ 0 <= r_rttvar r <= U /\
  r_smoothed_rtt r + QUIC_RTT_GRANULARITY + mad <= quic_rtt_pto r mad <= 5 * U + QUIC_RTT_GRANULARITY + mad.
Proof.
  intros r. destruct (rtt_run_inv U samples HU Hne Hs) as [_ H1 H2 H3 H4]. fold r in H1, H2, H3, H4.
  split_and!; try done; try lia; unfold quic_rtt_pto, quic_u64_max, QUIC_RTT_GRANULARITY; unwrap;
    destruct (Z.ltb_spec 1000 (4 * r_rttvar r)); unwrap; lia.
Qed.

(** Witness: three samples. *)
Lemma rtt_estimator_bounds_witness :
  r_min_rtt (rtt_run [(100000, 0); (60000, 25000); (90000, 10000)]) = 60000 /\
  r_smoothed_rtt (rtt_run [(100000, 0); (60000, 25000); (90000, 10000)]) <= 100000.
Proof.
  destruct (rtt_estimator_bounds [(100000, 0); (60000, 25000); (90000, 10000)] 100000 25000) as (H1 & H2 & _).
  - closed_arith.
  - discriminate.
  - repeat (apply Forall_cons_iff; split; [split; closed_arith|]). constructor.
  - closed_arith.
  - split; [exact H1|exact (proj2 H2)].
Defined.

(** The three probe-timeout routines agree and back off exponentially.  With
    the same 1 ms granularity [quic_pto_duration], [quic_lossdrive_pto] and (once
    the handshake is confirmed) [quic_hspto_duration] return the same value; when
    the times are below 2^44 it is exactly
    (srtt + max(4 rttvar, 1 ms) + max_ack_delay) * 2^min(count,16), without
    overflow, so one more timeout doubles it until the sixteenth, and before the
    handshake is confirmed the peer's ack delay is left out. *)
Theorem pto_backoff (srtt rttvar mad count : Z)
  (H1 : 0 <= srtt < 2 ^ 44) (H2 : 0 <= rttvar < 2 ^ 44) (H3 : 0 <= mad < 2 ^ 44) (H4 : 0 <= count < 2 ^ 31) :
  quic_pto_duration srtt rttvar mad count = (srtt + Z.max (4 * rttvar) 1000 + mad) * 2 ^ Z.min count 16 /\
  quic_lossdrive_pto srtt rttvar mad count QUIC_PTO_GRANULARITY = quic_pto_duration srtt rttvar mad count /\
  quic_hspto_duration srtt rttvar count QUIC_PTO_GRANULARITY 1 mad = quic_pto_duration srtt rttvar mad count /\
  quic_hspto_duration srtt rttvar count QUIC_PTO_GRANULARITY 0 mad = quic_pto_duration srtt rttvar 0 count /\
  (count < 16 -> quic_pto_duration srtt rttvar mad (count + 1) = 2 * quic_pto_duration srtt rttvar mad count) /\
  (16 <= count -> quic_pto_duration srtt rttvar mad (count + 1) = quic_pto_duration srtt rttvar mad count).
Proof.
  assert (Hb : forall c, 0 <= c -> quic_pto_backoff c = 2 ^ Z.min c 16 /\ 0 < 2 ^ Z.min c 16 <= 2 ^ 16).
  { intros c Hc. assert (Hp : 0 < 2 ^ Z.min c 16 <= 2 ^ 16)
      by (split; [apply Z.pow_pos_nonneg; lia|apply Z.pow_le_mono_r; lia]).
    split; [|done]. unfold quic_pto_backoff, QUIC_PTO_BACKOFF_MAX. rewrite Z.shiftl_1_l.
    replace (if c <? 16 then c else 16) with (Z.min c 16) by (destruct (Z.ltb_spec c 16); lia).
    apply u64_id. unfold is_u64. simpl in *. lia. }
  assert (Hd : forall m c, 0 <= m < 2 ^ 44 -> 0 <= c ->
    quic_pto_duration srtt rttvar m c = (srtt + Z.max (4 * rttvar) 1000 + m) * 2 ^ Z.min c 16).
  { intros m c Hm Hc. destruct (Hb c Hc) as [E Hp]. unfold quic_pto_duration, base_pto, QUIC_PTO_GRANULARITY.
    rewrite E. unfold quic_u64_max. rewrite (u64_id (4 * rttvar)) by (unfold is_u64; lia).
    replace (if 1000 <? 4 * rttvar then 4 * rttvar else 1000) with (Z.max (4 * rttvar) 1000)
      by (destruct (Z.ltb_spec 1000 (4 * rttvar)); lia).
    unwrap. apply u64_id. unfold is_u64. simpl in *. nia. }
  split_and!; try done; [by apply Hd; lia| |].
  - intros Hc. rewrite !Hd by lia. rewrite !Z.min_l by lia. replace (count + 1) with (Z.succ count) by lia.
    rewrite Z.pow_succ_r by lia. lia.
  - intros Hc. rewrite !Hd by lia. by rewrite !Z.min_r by lia.
Qed.

(** Witness: the third timeout of a 100 ms path. *)
Lemma pto_backoff_witness : quic_pto_duration 100000 10000 25000 2 = 660000.
Proof.
  destruct (pto_backoff 100000 10000 25000 2) as (H & _); [closed_arith..|]. exact H.
Defined.
