(* ===== verification/Congestion.v ===== *)
(** Congestion control: the NewReno controller and its helpers
    ([src/transport/recovery/congestion/cc]: cc.c, ccloss.c, ccphase.c, cwndcheck.c,
    ecn.c, pacing.c, persistent.c; [cwndctl/cwndctl.c]).  Sizes are bytes. *)
From S2P Require Import Prelude.
From S2P Require Import Timing.

(** * cc.c *)

Definition QUIC_MAX_DATAGRAM : Z := 1200.
Definition QUIC_CC_MIN_WINDOW : Z := 2 * QUIC_MAX_DATAGRAM.
Definition QUIC_CC_INIT_WINDOW : Z := 10 * QUIC_MAX_DATAGRAM.

Record quic_cc := mk_cc { c_cwnd : Z; c_ssthresh : Z; c_in_recovery : Z; c_recovery_start : Z }.

Definition quic_cc_init : quic_cc := mk_cc QUIC_CC_INIT_WINDOW 0xFFFFFFFFFFFFFFFF 0 0.

Definition grow (c : quic_cc) (acked : Z) : quic_cc :=
  let inc := if c_cwnd c <? c_ssthresh c then acked else (QUIC_MAX_DATAGRAM *w acked) / c_cwnd c in
  mk_cc (c_cwnd c +w inc) (c_ssthresh c) (c_in_recovery c) (c_recovery_start c).

Definition maybe_exit_recovery (c : quic_cc) (sent_time : Z) : quic_cc :=
  if negb (c_in_recovery c =? 0) && (c_recovery_start c <? sent_time)
  then mk_cc (c_cwnd c) (c_ssthresh c) 0 (c_recovery_start c) else c.

Definition quic_cc_on_ack (c : quic_cc) (acked sent_time : Z) : quic_cc :=
  let c := maybe_exit_recovery c sent_time in
  if c_in_recovery c =? 0 then grow c acked else c.

Definition quic_cc_on_loss (c : quic_cc) (sent_time now : Z) : quic_cc :=
  if negb (c_in_recovery c =? 0) || (sent_time <? c_recovery_start c) then c
  else let ssthresh := quic_u64_max (c_cwnd c / 2) QUIC_CC_MIN_WINDOW in mk_cc ssthresh ssthresh 1 now.

Definition quic_cc_on_persistent (c : quic_cc) : quic_cc :=
  mk_cc QUIC_CC_MIN_WINDOW (c_ssthresh c) (c_in_recovery c) (c_recovery_start c).

(** * ccloss.c, ccphase.c, persistent.c *)

Definition quic_cc_on_loss_ssthresh (cwnd : Z) : Z := cwnd / 2.
Definition quic_cc_on_loss_cwnd (cwnd max_datagram : Z) : Z := quic_u64_max (cwnd / 2) (2 *w max_datagram).
Definition quic_cc_in_recovery (sent_time recovery_start : Z) : bool := sent_time <=? recovery_start.
Definition quic_cc_in_slow_start (cwnd ssthresh : Z) : bool := cwnd <? ssthresh.
Definition quic_cc_slow_start_inc (acked : Z) : Z := acked.
Definition quic_cc_avoid_inc (max_datagram acked cwnd : Z) : Z := (max_datagram *w acked) / cwnd.
Definition quic_cc_persistent (loss_period pto : Z) : bool := 3 *w pto <=? loss_period.
Definition quic_cc_persistent_cwnd (max_datagram : Z) : Z := 2 *w max_datagram.

(** * cwndcheck.c, pacing.c, cwndctl.c, ecn.c *)

Definition quic_cwnd_can_send (in_flight cwnd size : Z) : bool := in_flight +w size <=? cwnd.
Definition quic_cwnd_app_limited (in_flight cwnd : Z) : bool := in_flight <? cwnd.
Definition quic_pacing_interval (srtt cwnd packet_size : Z) : Z :=
  if cwnd =? 0 then 0 else (5 *w packet_size *w srtt) / (4 *w cwnd).
Definition quic_cwndctl_can_send (bytes_in_flight cwnd next_packet_size : Z) : bool :=
  quic_cwnd_can_send bytes_in_flight cwnd next_packet_size.
Definition quic_cwndctl_pacing_interval (smoothed_rtt cwnd mtu : Z) : Z := quic_pacing_interval smoothed_rtt cwnd mtu.
Definition quic_ecn_ce_increased (prev_ce new_ce : Z) : bool := prev_ce <? new_ce.
Definition quic_ecn_counts_valid (prev_ce new_ce prev_ect0 new_ect0 : Z) : bool :=
  (prev_ce <=? new_ce) && (prev_ect0 <=? new_ect0).

(** * The controller as a transition system *)

Inductive cc_op := CcAck (acked sent_time : Z) | CcLoss (sent_time now : Z) | CcPersistent.
Definition cc_exec (c : quic_cc) (op : cc_op) : quic_cc :=
  match op with
  | CcAck acked sent => quic_cc_on_ack c acked sent
  | CcLoss sent now => quic_cc_on_loss c sent now
  | CcPersistent => quic_cc_on_persistent c
  end.
Definition acked_bytes (op : cc_op) : Z := match op with CcAck a _ => a | _ => 0 end.
Definition op_ok (op : cc_op) : Prop :=
  match op with
  | CcAck a s => 0 <= a < 2 ^ 50 /\ 0 <= s
  | CcLoss s n => 0 <= s /\ 0 <= n
  | CcPersistent => True
  end.

Inductive cc_reach : list cc_op -> quic_cc -> Prop :=
| ccr_init : cc_reach [] quic_cc_init
| ccr_step ops c op : cc_reach ops c -> op_ok op -> cc_reach (ops ++ [op]) (cc_exec c op).

Definition total_acked (ops : list cc_op) : Z := fold_right (fun op n => acked_bytes op + n) 0 ops.

Lemma total_acked_snoc ops op : total_acked (ops ++ [op]) = total_acked ops + acked_bytes op.
Proof. unfold total_acked in *. induction ops as [|o ops IH]; cbn [app fold_right]; lia. Qed.

Record cc_inv (total : Z) (c : quic_cc) : Prop := {
  cv_lo : QUIC_CC_MIN_WINDOW <= c_cwnd c;
  cv_hi : c_cwnd c <= QUIC_CC_INIT_WINDOW + total;
  cv_th : QUIC_CC_MIN_WINDOW <= c_ssthresh c;
  cv_rec : c_in_recovery c = 0 \/ c_in_recovery c = 1 /\ c_cwnd c <= c_ssthresh c;
}.

(** Growth adds at most the bytes acknowledged. *)
Lemma grow_bounds c acked total :
  cc_inv total c -> 0 <= acked < 2 ^ 50 -> 0 <= total < 2 ^ 62 ->
  exists inc, 0 <= inc <= acked /\ grow c acked = mk_cc (c_cwnd c + inc) (c_ssthresh c) (c_in_recovery c) (c_recovery_start c).
Proof.
  intros [H1 H2 H3 _] Ha Ht. unfold grow, QUIC_CC_MIN_WINDOW, QUIC_CC_INIT_WINDOW, QUIC_MAX_DATAGRAM in *.
  destruct (c_cwnd c <? c_ssthresh c).
  - exists acked. split; [lia|]. by unwrap.
  - exists (1200 * acked / c_cwnd c). unwrap.
    assert (Hi : 0 <= 1200 * acked / c_cwnd c <= acked)
      by (split; [apply Z.div_pos; lia|apply Z.div_le_upper_bound; nia]).
    split; [done|]. by unwrap.
Qed.

Lemma cc_exec_inv total c op :
  cc_inv total c -> op_ok op -> 0 <= total -> total + acked_bytes op < 2 ^ 62 -> cc_inv (total + acked_bytes op) (cc_exec c op).
Proof.
  intros Hi Hop H0 Ht. pose proof Hi as [H1 H2 H3 H4]. destruct op as [acked sent|sent now|]; cbn [cc_exec acked_bytes op_ok] in *.
  - destruct Hop as [Ha _]. unfold quic_cc_on_ack, maybe_exit_recovery.
    assert (Hgrow : forall c0, c_cwnd c0 = c_cwnd c -> c_ssthresh c0 = c_ssthresh c -> c_in_recovery c0 = 0 ->
      cc_inv (total + acked) (grow c0 acked)).
    { intros c0 E1 E2 E3. destruct (grow_bounds c0 acked total) as (inc & Hinc & ->); [|lia|lia|].
      - constructor; rewrite ?E1, ?E2; try done. by left.
      - constructor; cbn [c_cwnd c_ssthresh c_in_recovery]; rewrite ?E1, ?E2, ?E3; lia. }
    destruct (Z.eqb_spec (c_in_recovery c) 0) as [E|E]; cbn [negb andb].
    + rewrite E. cbn [Z.eqb]. by apply Hgrow.
    + destruct (c_recovery_start c <? sent); cbn [c_in_recovery Z.eqb].
      * by apply Hgrow.
      * destruct (Z.eqb_spec (c_in_recovery c) 0); [done|]. constructor; lia.
  - unfold quic_cc_on_loss. destruct (_ || _); [constructor; lia|].
    assert (Hm : quic_u64_max (c_cwnd c / 2) QUIC_CC_MIN_WINDOW = Z.max (c_cwnd c / 2) QUIC_CC_MIN_WINDOW)
      by (unfold quic_u64_max; destruct (Z.ltb_spec QUIC_CC_MIN_WINDOW (c_cwnd c / 2)); lia).
    cbv zeta. rewrite Hm. unfold QUIC_CC_MIN_WINDOW, QUIC_CC_INIT_WINDOW, QUIC_MAX_DATAGRAM in *.
    assert (c_cwnd c / 2 <= c_cwnd c) by (apply Z.div_le_upper_bound; lia).
    constructor; cbn [c_cwnd c_ssthresh c_in_recovery];
      unfold QUIC_CC_MIN_WINDOW, QUIC_CC_INIT_WINDOW, QUIC_MAX_DATAGRAM; lia.
  - unfold quic_cc_on_persistent, QUIC_CC_MIN_WINDOW, QUIC_CC_INIT_WINDOW, QUIC_MAX_DATAGRAM in *.
    constructor; cbn [c_cwnd c_ssthresh c_in_recovery];
      unfold QUIC_CC_MIN_WINDOW, QUIC_CC_INIT_WINDOW, QUIC_MAX_DATAGRAM; lia.
Qed.

Lemma total_acked_nonneg ops c : cc_reach ops c -> 0 <= total_acked ops.
Proof.
  induction 1 as [|ops c op _ IH Hop]; [done|]. rewrite total_acked_snoc. destruct op; cbn in *; lia.
Qed.

Lemma cc_reach_inv ops c : cc_reach ops c -> total_acked ops < 2 ^ 62 -> cc_inv (total_acked ops) c.
Proof.
  induction 1 as [|ops c op Hr IH Hop]; intros Ht.
  - constructor; cbn; try lia; closed_arith.
  - rewrite total_acked_snoc in *. pose proof (total_acked_nonneg ops c Hr).
    apply cc_exec_inv; try done. apply IH. destruct op; cbn in *; lia.
Qed.

(** * Properties *)

(** Along every sequence of acknowledgements (each below 2^50 bytes, below 2^62
    in total), losses and persistent-congestion events from the initial state, the
    congestion window never falls below two datagrams, never exceeds the initial
    window plus the bytes acknowledged (so it never wraps), and the slow-start
    threshold never falls below two datagrams. *)
Theorem cc_window_bounds (ops : list cc_op) (c : quic_cc) (Hr : cc_reach ops c) (Ht : total_acked ops < 2 ^ 62) :
  QUIC_CC_MIN_WINDOW <= c_cwnd c <= QUIC_CC_INIT_WINDOW + total_acked ops /\ QUIC_CC_MIN_WINDOW <= c_ssthresh c.
Proof. destruct (cc_reach_inv ops c Hr Ht) as [H1 H2 H3 _]. lia. Qed.

(** Witness: slow start, a loss, growth in avoidance. *)
Lemma cc_window_bounds_witness :
  exists c, cc_reach [CcAck 12000 5; CcLoss 6 10; CcAck 1200 11] c /\ c_cwnd c = 12120 /\ QUIC_CC_MIN_WINDOW <= c_cwnd c.
Proof.
  assert (Hr : cc_reach (([] ++ [CcAck 12000 5]) ++ [CcLoss 6 10] ++ [CcAck 1200 11])
    (cc_exec (cc_exec (cc_exec quic_cc_init (CcAck 12000 5)) (CcLoss 6 10)) (CcAck 1200 11))).
  { rewrite app_assoc. repeat apply ccr_step; cbn; try lia. constructor. }
  eexists. split; [exact Hr|]. split; [reflexivity|].
  destruct (cc_window_bounds _ _ Hr) as ((H & _) & _); [closed_arith|exact H].
Defined.

(** The window is reduced once per recovery period, and grows as the helper
    routines say.  During recovery, or for a packet sent before the last recovery
    began, a loss changes nothing; otherwise it sets threshold and window to
    [quic_cc_on_loss_cwnd] and enters recovery.  During recovery an acknowledged
    packet sent before the recovery began changes nothing; a later one ends the
    recovery.  Outside recovery the window grows by the acknowledged bytes in slow
    start and by [quic_cc_avoid_inc] after it. *)
Theorem cc_recovery_once (c : quic_cc) (sent now acked : Z) :
  ((c_in_recovery c <> 0 \/ sent < c_recovery_start c) -> quic_cc_on_loss c sent now = c) /\
  (c_in_recovery c = 0 /\ c_recovery_start c <= sent ->
     let w := quic_cc_on_loss_cwnd (c_cwnd c) QUIC_MAX_DATAGRAM in quic_cc_on_loss c sent now = mk_cc w w 1 now) /\
  (c_in_recovery c <> 0 -> sent <= c_recovery_start c -> quic_cc_on_ack c acked sent = c) /\
  (c_in_recovery c <> 0 -> c_recovery_start c < sent -> c_in_recovery (quic_cc_on_ack c acked sent) = 0) /\
  (c_in_recovery c = 0 ->
     c_cwnd (quic_cc_on_ack c acked sent) =
     c_cwnd c +w (if quic_cc_in_slow_start (c_cwnd c) (c_ssthresh c) then quic_cc_slow_start_inc acked
                  else quic_cc_avoid_inc QUIC_MAX_DATAGRAM acked (c_cwnd c))).
Proof.
  unfold quic_cc_on_loss, quic_cc_on_ack, maybe_exit_recovery. split_and!.
  - intros [H|H]; [by destruct (Z.eqb_spec (c_in_recovery c) 0)|]. zdecide. by rewrite orb_true_r.
  - intros [H1 H2]. rewrite H1. zdecide. done.
  - intros H1 H2. destruct (Z.eqb_spec (c_in_recovery c) 0) as [E|E]; [done|]. zdecide. cbn [negb andb].
    by destruct (Z.eqb_spec (c_in_recovery c) 0).
  - intros H1 H2. destruct (Z.eqb_spec (c_in_recovery c) 0) as [E|E]; [done|]. zdecide. done.
  - intros H. rewrite H. cbn [Z.eqb negb andb]. rewrite H. done.
Qed.

(** The pacing interval multiplies by 5/4 where a pacing rate of
    5/4 * cwnd / srtt divides by it: [quic_cwndctl_pacing_interval] spreads a full
    window of k packets over more than one round trip (up to 5/4 srtt), so a paced
    sender cannot fill its window, while the rate the header of cwndctl announces
    would take 4/5 of a round trip. *)
Theorem pacing_slower_than_window (srtt size k : Z)
  (Hs : 1 <= size < 2 ^ 16) (Hk : 1 <= k < 2 ^ 16) (Hr : 4 * k < srtt < 2 ^ 28) :
  let interval := quic_cwndctl_pacing_interval srtt (k * size) size in
  srtt < k * interval <= 5 * srtt / 4.
Proof.
  cbv zeta. unfold quic_cwndctl_pacing_interval, quic_pacing_interval.
  assert (Hks : 1 <= k * size < 2 ^ 32) by nia. zdecide.
  rewrite (u64_id (5 * size)), (u64_id (5 * size * srtt)), (u64_id (4 * (k * size))) by (unfold is_u64; nia).
  replace (5 * size * srtt) with (size * (5 * srtt)) by lia. replace (4 * (k * size)) with (size * (4 * k)) by lia.
  rewrite Z.div_mul_cancel_l by lia.
  pose proof (Z.div_mod (5 * srtt) (4 * k) ltac:(lia)) as Hd. pose proof (Z.mod_pos_bound (5 * srtt) (4 * k) ltac:(lia)).
  set (q := 5 * srtt / (4 * k)) in *. split; [nia|]. apply Z.div_le_lower_bound; nia.
Qed.

(** Witness: ten 1200-byte packets, a 100 ms round trip: 12.5 ms each. *)
Lemma pacing_slower_than_window_witness :
  quic_cwndctl_pacing_interval 100000 (10 * 1200) 1200 = 12500 /\ 100000 < 10 * quic_cwndctl_pacing_interval 100000 (10 * 1200) 1200.
Proof.
  split; [reflexivity|]. apply (pacing_slower_than_window 100000 1200 10); closed_arith.
Defined.

(** [quic_cc_on_loss] and [quic_cc_in_recovery] disagree on a packet sent at the
    very time recovery began: after that recovery has ended, the helper says the
    packet belongs to the recovery period, but its loss reduces the window again. *)
Theorem cc_recovery_boundary (cwnd ssthresh t now : Z) :
  quic_cc_in_recovery t t = true /\
  quic_cc_on_loss (mk_cc cwnd ssthresh 0 t) t now =
    (let w := quic_cc_on_loss_cwnd cwnd QUIC_MAX_DATAGRAM in mk_cc w w 1 now).
Proof.
  unfold quic_cc_in_recovery, quic_cc_on_loss. cbn [c_in_recovery c_recovery_start c_cwnd]. zdecide. done.
Qed.
