(* ===== verification/Reasm.v ===== *)
(** Stream reassembly: [transport/stream/flow/flow/reassemble.c],
    [stream_read.c] and the CRYPTO receive stream
    [transport/conn/pnspace/crypto_stream/crypto_rx.c] built on it.

    Received bytes land in a 4096-byte buffer with one [have] flag per offset;
    [deliver] walks the flags from the delivered watermark; readers copy out what
    lies between their own cursor and the watermark.  The abstract stream below
    keeps only which offsets were accepted and how much was read; the refinement
    theorem shows the buffers answer every operation exactly as it does. *)
From S2P Require Import Prelude Buffers Varint.

(** * reassemble.c *)

Definition QUIC_REASM_CAP : Z := 4096.

Lemma reasm_cap : QUIC_REASM_CAP = 4096.
Proof. reflexivity. Qed.

Lemma reasm_cap_nat : Z.of_nat (Z.to_nat QUIC_REASM_CAP) = QUIC_REASM_CAP.
Proof. apply Z2Nat.id. rewrite reasm_cap. lia. Qed.

#[local] Opaque QUIC_REASM_CAP.

Record quic_reasm := {
  r_buf : list Z;
  r_have : list Z;         (* 1 if that byte offset has been received *)
  r_delivered : Z;
  r_final_size : Z;
  r_have_final : bool
}.

(** [for (i = 0; i < QUIC_REASM_CAP; i++) r->have[i] = 0;] and the three
    counters; the data bytes keep what the memory held. *)
Definition quic_reasm_init (r : quic_reasm) : option quic_reasm :=
  match fill_loop (Z.to_nat QUIC_REASM_CAP) (r_have r) 0 0 with
  | None => None
  | Some have => Some {| r_buf := r_buf r; r_have := have; r_delivered := 0;
                         r_final_size := 0; r_have_final := false |}
  end.

Definition insert_fits (r : quic_reasm) (offset len : Z) : bool :=
  if QUIC_REASM_CAP <? offset +w len then false
  else negb (r_have_final r) || (offset +w len <=? r_final_size r).

(** [for (i = 0; i < len; i++) { r->buf[offset + i] = data[i];
    r->have[offset + i] = 1; }], [k] rounds from [i] on. *)
Fixpoint insert_loop (k : nat) (r : quic_reasm) (offset : Z) (data : list Z) (i : Z)
  : option quic_reasm :=
  match k with
  | O => Some r
  | S k' =>
      match load data i with
      | None => None
      | Some b =>
          match store (r_buf r) (offset +w i) b, store (r_have r) (offset +w i) 1 with
          | Some buf, Some have =>
              insert_loop k' {| r_buf := buf; r_have := have; r_delivered := r_delivered r;
                                r_final_size := r_final_size r; r_have_final := r_have_final r |}
                          offset data (i + 1)
          | _, _ => None
          end
      end
  end.

Definition quic_reasm_insert (r : quic_reasm) (offset : Z) (data : list Z) (len : Z)
  : option (bool * quic_reasm) :=
  if negb (insert_fits r offset len) then Some (false, r)
  else match insert_loop (Z.to_nat len) r offset data 0 with
       | None => None
       | Some r' => Some (true, r')
       end.

Definition quic_reasm_set_final (r : quic_reasm) (final_size : Z) : bool * quic_reasm :=
  if QUIC_REASM_CAP <? final_size then (false, r)
  else (true, {| r_buf := r_buf r; r_have := r_have r; r_delivered := r_delivered r;
                 r_final_size := final_size; r_have_final := true |}).

(** [while (delivered < QUIC_REASM_CAP && have[delivered]) delivered++;]: the
    capacity bounds the rounds; [None] is an access outside [have]. *)
Fixpoint deliver_loop (k : nat) (have : list Z) (d : Z) : option Z :=
  if QUIC_REASM_CAP <=? d then Some d
  else match load have d with
       | None => None
       | Some h => if h =? 0 then Some d
                   else match k with
                        | O => None
                        | S k' => deliver_loop k' have (d + 1)
                        end
       end.

Definition quic_reasm_deliver (r : quic_reasm) : option (Z * quic_reasm) :=
  match deliver_loop (Z.to_nat QUIC_REASM_CAP) (r_have r) (r_delivered r) with
  | None => None
  | Some d => Some (d, {| r_buf := r_buf r; r_have := r_have r; r_delivered := d;
                          r_final_size := r_final_size r; r_have_final := r_have_final r |})
  end.

(** * stream_read.c *)

Record quic_stream_read := { sr_r : quic_reasm; read_off : Z }.

Definition quic_stream_read_init (s : quic_stream_read) : option quic_stream_read :=
  match quic_reasm_init (sr_r s) with
  | None => None
  | Some r => Some {| sr_r := r; read_off := 0 |}
  end.

Definition quic_stream_read_push (s : quic_stream_read) (offset : Z) (data : list Z) (len : Z)
  : option (bool * quic_stream_read) :=
  match quic_reasm_insert (sr_r s) offset data len with
  | None => None
  | Some (ok, r) => Some (ok, {| sr_r := r; read_off := read_off s |})
  end.

Definition readable (s : quic_stream_read) (cap : Z) : option (Z * quic_stream_read) :=
  match quic_reasm_deliver (sr_r s) with
  | None => None
  | Some (d, r) =>
      let avail := d -w read_off s in
      Some (if avail <? cap then avail else cap, {| sr_r := r; read_off := read_off s |})
  end.

(** [out] before and after, and [*out_len]. *)
Definition quic_stream_read_pull (s : quic_stream_read) (out : list Z) (cap : Z)
  : option (list Z * Z * quic_stream_read) :=
  match readable s cap with
  | None => None
  | Some (n, s1) =>
      match copy_loop (Z.to_nat n) out 0 (r_buf (sr_r s1)) (read_off s1) with
      | None => None
      | Some out' => Some (out', n, {| sr_r := sr_r s1; read_off := read_off s1 +w n |})
      end
  end.

(** * crypto_rx.c *)

Record quic_crypto_rx := { cr_reasm : quic_reasm; read_upto : Z }.

Definition quic_crypto_stream_rx_init (r : quic_crypto_rx) : option quic_crypto_rx :=
  match quic_reasm_init (cr_reasm r) with
  | None => None
  | Some re => Some {| cr_reasm := re; read_upto := 0 |}
  end.

Definition quic_crypto_stream_recv (r : quic_crypto_rx) (offset : Z) (data : list Z) (len : Z)
  : option (bool * quic_crypto_rx) :=
  match quic_reasm_insert (cr_reasm r) offset data len with
  | None => None
  | Some (ok, re) => Some (ok, {| cr_reasm := re; read_upto := read_upto r |})
  end.

(** [Some (Some (out, n), r)]: returned 1 with [*out_len = n];
    [Some (None, r)]: returned 0 (the watermark has still advanced). *)
Definition quic_crypto_stream_read (r : quic_crypto_rx) (out : list Z) (cap : Z)
  : option (option (list Z * Z) * quic_crypto_rx) :=
  match quic_reasm_deliver (cr_reasm r) with
  | None => None
  | Some (d, re) =>
      let avail := d -w read_upto r in
      if cap <? avail then Some (None, {| cr_reasm := re; read_upto := read_upto r |})
      else match copy_loop (Z.to_nat avail) out 0 (r_buf re) (read_upto r) with
           | None => None
           | Some out' => Some (Some (out', avail),
                                {| cr_reasm := re; read_upto := read_upto r +w avail |})
           end
  end.

(** * The abstract stream

    [byte i] is the stream's byte at offset [i]; the abstract state keeps the
    accepted segments, the final size and how much was read. *)

Section Stream.
Context (byte : Z -> Z).

Definition stream_bytes (i n : Z) : list Z := map byte (seqZ i n).

Record astream := { a_got : list (Z * Z); a_final : option Z; a_read : Z }.

Definition astream_init : astream := {| a_got := []; a_final := None; a_read := 0 |}.

Definition seg_has (i : Z) (seg : Z * Z) : bool := (fst seg <=? i) && (i <? fst seg + snd seg).
Definition got_at (got : list (Z * Z)) (i : Z) : bool := existsb (seg_has i) got.

(** The first offset from [i] on without [c], within [k] offsets. *)
Fixpoint gap_from (k : nat) (c : Z -> bool) (i : Z) : Z :=
  match k with
  | O => i
  | S k' => if c i then gap_from k' c (i + 1) else i
  end.
Definition a_gap (a : astream) : Z := gap_from (Z.to_nat QUIC_REASM_CAP) (got_at (a_got a)) 0.

Definition a_accepts (a : astream) (offset len : Z) : bool :=
  (offset + len <=? QUIC_REASM_CAP) &&
  match a_final a with None => true | Some fs => offset + len <=? fs end.

Definition a_push (a : astream) (offset len : Z) : bool * astream :=
  if a_accepts a offset len
  then (true, {| a_got := (offset, len) :: a_got a; a_final := a_final a; a_read := a_read a |})
  else (false, a).

Definition a_set_final (a : astream) (size : Z) : bool * astream :=
  if size <=? QUIC_REASM_CAP
  then (true, {| a_got := a_got a; a_final := Some size; a_read := a_read a |})
  else (false, a).

Definition a_advance (a : astream) (n : Z) : astream :=
  {| a_got := a_got a; a_final := a_final a; a_read := a_read a + n |}.

(** The bytes between the read position and the first gap, at most [cap]. *)
Definition a_pull (a : astream) (cap : Z) : list Z * astream :=
  let n := Z.min (a_gap a - a_read a) cap in
  (stream_bytes (a_read a) n, a_advance a n).

(** All of them, or none when they exceed [cap]. *)
Definition a_read_all (a : astream) (cap : Z) : option (list Z) * astream :=
  let n := a_gap a - a_read a in
  if cap <? n then (None, a) else (Some (stream_bytes (a_read a) n), a_advance a n).

(** ** Representation *)

Definition represents (r : quic_reasm) (cursor : Z) (a : astream) : Prop :=
  zlen (r_buf r) = QUIC_REASM_CAP /\ zlen (r_have r) = QUIC_REASM_CAP /\
  (forall i, 0 <= i < QUIC_REASM_CAP ->
     load (r_have r) i = Some (if got_at (a_got a) i then 1 else 0)) /\
  (forall i, 0 <= i < QUIC_REASM_CAP -> got_at (a_got a) i = true ->
     load (r_buf r) i = Some (byte i)) /\
  (forall i, 0 <= i < r_delivered r -> got_at (a_got a) i = true) /\
  r_delivered r <= QUIC_REASM_CAP /\ 0 <= cursor <= r_delivered r /\ a_read a = cursor /\
  (if r_have_final r then a_final a = Some (r_final_size r) else a_final a = None).

Lemma stream_bytes_length i n : 0 <= n -> zlen (stream_bytes i n) = n.
Proof. intros. unfold stream_bytes, zlen. rewrite length_map, length_seqZ; lia. Qed.

Lemma stream_bytes_load i n j :
  0 <= j < n -> load (stream_bytes i n) j = Some (byte (i + j)).
Proof.
  intros. unfold load, stream_bytes. zdecide.
  rewrite list_lookup_fmap, lookup_seqZ_lt by lia. simpl. do 2 f_equal; lia.
Qed.

Lemma gap_from_spec k c i :
  i <= gap_from k c i <= i + Z.of_nat k /\
  (forall j, i <= j < gap_from k c i -> c j = true) /\
  (gap_from k c i < i + Z.of_nat k -> c (gap_from k c i) = false).
Proof.
  revert i; induction k as [|k IH]; intros i; cbn [gap_from]; [split_and!; intros; lia|].
  destruct (c i) eqn:E; [|split_and!; [lia..| |done]; intros; lia].
  destruct (IH (i + 1)) as (H1 & H2 & H3). split_and!; [lia..| |intros; apply H3; lia].
  intros j Hj. destruct (Z.eq_dec j i) as [->|]; [done|]. apply H2. lia.
Qed.

(** Only the set of accepted offsets matters. *)
Lemma represents_ext r cursor a a' :
  (forall j, got_at (a_got a) j = got_at (a_got a') j) ->
  a_final a = a_final a' -> a_read a = a_read a' ->
  represents r cursor a -> represents r cursor a'.
Proof.
  intros Hg Hfin Hrd (Hb & Hv & Hh & Hd & Hp & Hcap & Hc & Ha & Hf). unfold represents.
  rewrite <- Hfin, <- Hrd. split_and!; try done; try lia;
    intros j; rewrite <- Hg; auto.
Qed.

(** The gap is determined by its two properties. *)
Lemma gap_unique k c g :
  0 <= g <= Z.of_nat k -> (forall j, 0 <= j < g -> c j = true) ->
  (g < Z.of_nat k -> c g = false) -> gap_from k c 0 = g.
Proof.
  intros Hg Hall Hstop. destruct (gap_from_spec k c 0) as (H1 & H2 & H3).
  destruct (Z.lt_trichotomy (gap_from k c 0) g) as [Hl|[->|Hl]]; [|done|].
  - rewrite Hall in H3 by lia. discriminate H3. lia.
  - rewrite H2 in Hstop by lia. discriminate Hstop. lia.
Qed.

(** [deliver] stops at the first gap. *)
Lemma deliver_loop_spec have got d (k : nat) :
  (forall i, 0 <= i < QUIC_REASM_CAP -> load have i = Some (if got_at got i then 1 else 0)) ->
  (forall i, 0 <= i < d -> got_at got i = true) ->
  0 <= d <= QUIC_REASM_CAP -> QUIC_REASM_CAP <= d + Z.of_nat k ->
  deliver_loop k have d = Some (gap_from (Z.to_nat QUIC_REASM_CAP) (got_at got) 0).
Proof.
  intros Hh. revert d. pose proof reasm_cap_nat as Hcap. pose proof reasm_cap as Hcv.
  induction k as [|k IH]; intros d Hd Hr Hk; cbn [deliver_loop].
  - zdecide. f_equal. symmetry. apply gap_unique; [lia|done|lia].
  - destruct (Z.leb_spec QUIC_REASM_CAP d).
    + f_equal. symmetry. apply gap_unique; [lia|done|lia].
    + rewrite Hh by lia. destruct (got_at got d) eqn:E; simpl.
      * apply IH; [|lia..]. intros i Hi. destruct (Z.eq_dec i d) as [->|]; [done|]. apply Hd. lia.
      * f_equal. symmetry. apply gap_unique; [lia|done|done].
Qed.

Lemma deliver_refines r cursor a :
  represents r cursor a ->
  exists r', quic_reasm_deliver r = Some (a_gap a, r') /\ represents r' cursor a /\
             r_delivered r' = a_gap a /\ cursor <= a_gap a <= QUIC_REASM_CAP /\ r_buf r' = r_buf r.
Proof.
  intros (Hb & Hv & Hh & Hd & Hp & Hcap & Hc & Ha & Hf). unfold quic_reasm_deliver.
  pose proof reasm_cap_nat as Hk. pose proof reasm_cap as Hcv.
  rewrite (deliver_loop_spec _ _ _ _ Hh Hp) by lia.
  destruct (gap_from_spec (Z.to_nat QUIC_REASM_CAP) (got_at (a_got a)) 0) as (H1 & H2 & H3).
  assert (r_delivered r <= a_gap a).
  { unfold a_gap. destruct (Z.le_gt_cases (r_delivered r)
      (gap_from (Z.to_nat QUIC_REASM_CAP) (got_at (a_got a)) 0)) as [|Hgt]; [done|].
    rewrite Hp in H3 by lia. discriminate H3. lia. }
  fold (a_gap a) in *. eexists. split; [reflexivity|]. unfold represents. simpl. split_and!; done || lia.
Qed.

Lemma deliver_copy r cursor a out n :
  represents r cursor a -> 0 <= n -> cursor + n <= a_gap a -> n <= zlen out ->
  copy_loop (Z.to_nat n) out 0 (r_buf r) cursor = Some (splice out 0 (stream_bytes cursor n)).
Proof.
  intros (Hb & Hv & Hh & Hd & Hp & Hcap & Hc & Ha & Hf) Hn Hg Ho.
  destruct (gap_from_spec (Z.to_nat QUIC_REASM_CAP) (got_at (a_got a)) 0) as (H1 & H2 & _).
  fold (a_gap a) in *. pose proof reasm_cap_nat. pose proof reasm_cap as Hcv.
  rewrite copy_loop_len by lia. do 2 f_equal. rewrite Z2Nat.id by lia.
  apply list_eq_load; [rewrite zlen_slice, stream_bytes_length by lia; done|].
  rewrite zlen_slice by lia. intros i Hi. rewrite stream_bytes_load by lia.
  rewrite load_slice by lia. apply Hd; [lia|]. apply H2. lia.
Qed.

(** One accepted segment. *)
Lemma insert_loop_refines offset len data (k : nat) :
  forall r cursor a i, represents r cursor a ->
  0 <= offset -> 0 <= i -> i + Z.of_nat k = len -> offset + len <= QUIC_REASM_CAP ->
  (forall j, 0 <= j < len -> load data j = Some (byte (offset + j))) ->
  exists r', insert_loop k r offset data i = Some r' /\
    represents r' cursor {| a_got := (offset + i, Z.of_nat k) :: a_got a;
                            a_final := a_final a; a_read := a_read a |}.
Proof.
  induction k as [|k IH]; intros r cursor a i HR Ho Hi Hk Hc Hdata; cbn [insert_loop].
  - exists r. split; [done|]. revert HR. apply represents_ext; [|done..].
    intros j. unfold got_at, seg_has. cbn [a_got existsb fst snd].
    change (Z.of_nat 0) with 0. destruct (Z.leb_spec (offset + i) j), (Z.ltb_spec j (offset + i + 0));
      (lia || done).
  - rewrite Hdata by lia.
    pose proof reasm_cap as Hcapv.
    assert (Hw : offset +w i = offset + i) by (apply u64_id; unfold is_u64; lia). rewrite Hw.
    pose proof HR as (Hb & Hv & Hh & Hd & Hp & Hcap & Hcu & Ha & Hf).
    rewrite !store_ok by lia.
    set (r1 := {| r_buf := _ |}).
    assert (HR1 : represents r1 cursor {| a_got := (offset + i, 1) :: a_got a;
                                          a_final := a_final a; a_read := a_read a |}).
    { unfold represents, r1. simpl. rewrite !zlen_insert. split_and!; try done; try lia.
      - intros j Hj. rewrite load_insert, Hh by lia. unfold got_at at 2, seg_has. simpl.
        fold (got_at (a_got a) j). destruct (Z.eqb_spec j (offset + i)) as [->|Hne]; zdecide; simpl; [done|].
        destruct ((offset + i <=? j) && (j <? offset + i + 1)) eqn:E; [zbool; lia|done].
      - intros j Hj Hgot. rewrite load_insert by lia. destruct (Z.eqb_spec j (offset + i)) as [->|Hne]; [done|].
        apply Hd; [done|]. unfold got_at, seg_has in Hgot. simpl in Hgot.
        destruct ((offset + i <=? j) && (j <? offset + i + 1)) eqn:E; [zbool; lia|done].
      - intros j Hj. unfold got_at. simpl. rewrite (Hp j Hj : existsb _ _ = true). apply orb_true_r. }
    destruct (IH r1 cursor _ (i + 1) HR1) as (r' & Hr' & HR'); [lia..|done|].
    exists r'. split; [exact Hr'|]. revert HR'. apply represents_ext; [|done..].
    intros j. unfold got_at, seg_has. simpl. rewrite orb_assoc. f_equal.
    repeat zcase; simpl; done || lia.
Qed.

(** [insert] accepts exactly what the abstract stream accepts. *)
Lemma insert_refines r cursor a offset data len :
  represents r cursor a -> is_varint offset -> 0 <= len < max_object ->
  (forall j, 0 <= j < len -> load data j = Some (byte (offset + j))) ->
  exists r', quic_reasm_insert r offset data len = Some (fst (a_push a offset len), r') /\
             represents r' cursor (snd (a_push a offset len)).
Proof.
  intros HR Ho Hl Hdata. unfold quic_reasm_insert, insert_fits, a_push, a_accepts.
  unfold is_varint, QUIC_VARINT_MAX in Ho.
  rewrite u64_id by (unfold is_u64, max_object in *; lia).
  pose proof HR as (_ & _ & _ & _ & _ & _ & _ & _ & Hf).
  assert (Hfit : (if r_have_final r then offset + len <=? r_final_size r else true) =
                 match a_final a with None => true | Some fs => offset + len <=? fs end).
  { destruct (r_have_final r); by rewrite Hf. }
  destruct (Z.leb_spec (offset + len) QUIC_REASM_CAP) as [Hc|Hc]; zdecide; simpl; [|by exists r].
  rewrite <- Hfit. destruct (r_have_final r); simpl.
  - destruct (Z.leb_spec (offset + len) (r_final_size r)) as [Hb|Hb]; simpl; [|by exists r].
    destruct (insert_loop_refines offset len data (Z.to_nat len) r cursor a 0) as (r' & -> & HR'); try done; try lia.
    exists r'. split; [done|]. by rewrite Z.add_0_r, Z2Nat.id in HR' by lia.
  - destruct (insert_loop_refines offset len data (Z.to_nat len) r cursor a 0) as (r' & -> & HR'); try done; try lia.
    exists r'. split; [done|]. by rewrite Z.add_0_r, Z2Nat.id in HR' by lia.
Qed.

Lemma set_final_refines r cursor a size :
  represents r cursor a ->
  fst (quic_reasm_set_final r size) = fst (a_set_final a size) /\
  represents (snd (quic_reasm_set_final r size)) cursor (snd (a_set_final a size)).
Proof.
  intros HR. unfold quic_reasm_set_final, a_set_final.
  destruct (Z.leb_spec size QUIC_REASM_CAP); zdecide; [|done]. split; [done|].
  destruct HR as (Hb & Hv & Hh & Hd & Hp & Hcap & Hc & Ha & _). unfold represents. simpl. split_and!; done || lia.
Qed.

Lemma fill_loop_load (k : nat) (c : Z) :
  forall l i, 0 <= i -> i + Z.of_nat k <= zlen l ->
  exists l', fill_loop k l i c = Some l' /\ zlen l' = zlen l /\
    forall j, load l' j = if (i <=? j) && (j <? i + Z.of_nat k) then Some (u8 c) else load l j.
Proof.
  induction k as [|k IH]; intros l i Hi Hl; cbn [fill_loop].
  - exists l. split_and!; [done..|]. intros j. destruct ((i <=? j) && (j <? i + Z.of_nat 0)) eqn:E; [zbool; lia|done].
  - rewrite store_ok by lia. destruct (IH (<[Z.to_nat i:=u8 c]> l) (i + 1)) as (l' & -> & Hl' & Hj);
      [lia|rewrite zlen_insert; lia|].
    exists l'. split_and!; [done|by rewrite Hl', zlen_insert|]. intros j. rewrite Hj, load_insert by lia.
    destruct (Z.eqb_spec j i) as [->|Hne].
    + by zdecide.
    + destruct ((i + 1 <=? j) && (j <? i + 1 + Z.of_nat k)) eqn:E1,
               ((i <=? j) && (j <? i + Z.of_nat (S k))) eqn:E2; try done; exfalso.
      * apply andb_true_iff in E1 as [? ?]. apply andb_false_iff in E2 as [?|?]; zbool; lia.
      * apply andb_true_iff in E2 as [? ?]. apply andb_false_iff in E1 as [?|?]; zbool; lia.
Qed.

Lemma init_refines r :
  zlen (r_buf r) = QUIC_REASM_CAP -> zlen (r_have r) = QUIC_REASM_CAP ->
  exists r', quic_reasm_init r = Some r' /\ represents r' 0 astream_init.
Proof.
  intros Hb Hh. unfold quic_reasm_init. pose proof reasm_cap_nat as Hn. pose proof reasm_cap.
  destruct (fill_loop_load (Z.to_nat QUIC_REASM_CAP) 0 (r_have r) 0) as (l' & -> & Hl' & Hj); [lia..|].
  eexists. split; [reflexivity|]. unfold represents. simpl. split_and!; try done; try lia.
  intros i Hi. rewrite Hj. by zdecide.
Qed.
End Stream.

(** * Runs *)

(** One operation of the receiving side of a stream: a segment of the stream
    arrives, a FIN fixes its size, the application reads into [out]. *)
Inductive sr_op :=
| SrPush (offset len : Z)
| SrFinal (size : Z)
| SrPull (out : list Z) (cap : Z).

(** What the operation returns: a C truth value or the bytes handed out. *)
Inductive sr_answer := SrOk (ok : bool) | SrBytes (bs : list Z).

Definition sr_op_ok (op : sr_op) : Prop :=
  match op with
  | SrPush offset len => is_varint offset /\ 0 <= len < max_object
  | SrFinal _ => True
  | SrPull out cap => 0 <= cap <= zlen out
  end.

Definition sr_exec (byte : Z -> Z) (op : sr_op) (s : quic_stream_read)
  : option (sr_answer * quic_stream_read) :=
  match op with
  | SrPush offset len =>
      match quic_stream_read_push s offset (stream_bytes byte offset len) len with
      | None => None
      | Some (ok, s') => Some (SrOk ok, s')
      end
  | SrFinal size =>
      let '(ok, r) := quic_reasm_set_final (sr_r s) size in
      Some (SrOk ok, {| sr_r := r; read_off := read_off s |})
  | SrPull out cap =>
      match quic_stream_read_pull s out cap with
      | None => None
      | Some (out', n, s') => Some (SrBytes (take (Z.to_nat n) out'), s')
      end
  end.

Definition sr_abs (byte : Z -> Z) (op : sr_op) (a : astream) : sr_answer * astream :=
  match op with
  | SrPush offset len => let '(ok, a') := a_push a offset len in (SrOk ok, a')
  | SrFinal size => let '(ok, a') := a_set_final a size in (SrOk ok, a')
  | SrPull out cap => let '(bs, a') := a_pull byte a cap in (SrBytes bs, a')
  end.

Fixpoint sr_run (byte : Z -> Z) (ops : list sr_op) (s : quic_stream_read)
  : option (list sr_answer * quic_stream_read) :=
  match ops with
  | [] => Some ([], s)
  | op :: ops' =>
      match sr_exec byte op s with
      | None => None
      | Some (x, s1) =>
          match sr_run byte ops' s1 with
          | None => None
          | Some (xs, s2) => Some (x :: xs, s2)
          end
      end
  end.

Fixpoint sr_abs_run (byte : Z -> Z) (ops : list sr_op) (a : astream) : list sr_answer * astream :=
  match ops with
  | [] => ([], a)
  | op :: ops' =>
      let '(x, a1) := sr_abs byte op a in
      let '(xs, a2) := sr_abs_run byte ops' a1 in (x :: xs, a2)
  end.

(** All bytes handed to the application, in order. *)
Fixpoint handed (xs : list sr_answer) : list Z :=
  match xs with
  | [] => []
  | SrOk _ :: xs' => handed xs'
  | SrBytes bs :: xs' => bs ++ handed xs'
  end.

#[local] Opaque a_gap.

Lemma represents_advance byte r cursor a n :
  represents byte r cursor a -> 0 <= n -> cursor + n <= r_delivered r ->
  represents byte r (cursor + n) (a_advance a n).
Proof.
  intros (Hb & Hv & Hh & Hdd & Hp & Hcp & Hc' & Ha' & Hf) Hn Hd. unfold represents, a_advance.
  cbn [a_got a_final a_read]. split_and!; done || lia.
Qed.

Lemma pull_refines byte s a out cap :
  represents byte (sr_r s) (read_off s) a -> 0 <= cap <= zlen out ->
  exists s' out' n, quic_stream_read_pull s out cap = Some (out', n, s') /\
    take (Z.to_nat n) out' = fst (a_pull byte a cap) /\
    n = Z.min (a_gap a - a_read a) cap /\ 0 <= n /\ read_off s' = read_off s + n /\
    represents byte (sr_r s') (read_off s') (snd (a_pull byte a cap)).
Proof.
  intros HR Hcap. destruct (deliver_refines byte _ _ _ HR) as (r' & Hd & HR' & Hdel & Hg & Hbuf).
  pose proof HR as (_ & _ & _ & _ & _ & _ & Hc & Ha & _). pose proof reasm_cap as Hcv.
  unfold quic_stream_read_pull, readable, a_pull. rewrite Hd, Ha.
  set (n := Z.min (a_gap a - read_off s) cap).
  assert (Hn : (if a_gap a -w read_off s <? cap then a_gap a -w read_off s else cap) = n)
    by (rewrite u64_id by (unfold is_u64; lia); subst n; zcase; lia).
  rewrite Hn. cbn [sr_r read_off fst snd].
  assert (0 <= n /\ read_off s + n <= a_gap a /\ n <= zlen out) as (Hn0 & Hn1 & Hn2) by lia.
  rewrite (deliver_copy byte r' (read_off s) a) by done.
  rewrite u64_id by (unfold is_u64; lia).
  eexists _, _, _. split; [reflexivity|]. cbn [sr_r read_off].
  split; [by apply take_splice_n, stream_bytes_length|]. split_and!; try done.
  apply represents_advance; [done..|lia].
Qed.

Lemma sr_exec_refines byte op s a :
  represents byte (sr_r s) (read_off s) a -> sr_op_ok op ->
  exists s', sr_exec byte op s = Some (fst (sr_abs byte op a), s') /\
    represents byte (sr_r s') (read_off s') (snd (sr_abs byte op a)) /\
    read_off s <= read_off s' /\
    handed [fst (sr_abs byte op a)] = stream_bytes byte (read_off s) (read_off s' - read_off s).
Proof.
  intros HR Hok. destruct op as [offset len|size|out cap]; cbn [sr_exec sr_abs].
  - destruct Hok as [Ho Hl]. unfold quic_stream_read_push.
    destruct (insert_refines byte _ _ _ offset (stream_bytes byte offset len) len HR Ho Hl) as (r' & -> & HR').
    { intros j Hj. by apply stream_bytes_load. }
    destruct (a_push a offset len) as [ok a']. eexists. split; [reflexivity|].
    cbn [sr_r read_off fst snd handed] in *. rewrite Z.sub_diag. split_and!; done || lia.
  - destruct (set_final_refines byte _ _ _ size HR) as [H1 H2].
    destruct (quic_reasm_set_final (sr_r s) size) as [ok r'], (a_set_final a size) as [ok' a'].
    cbn [fst snd] in *. subst. eexists. split; [reflexivity|].
    cbn [sr_r read_off handed]. rewrite Z.sub_diag. split_and!; done || lia.
  - destruct (pull_refines byte s a out cap HR Hok) as (s' & out' & n & -> & Ht & Hn & Hn0 & Hr & HR').
    pose proof HR as (_ & _ & _ & _ & _ & _ & Hc & Ha & _).
    exists s'. rewrite Ht. unfold a_pull in *. cbn [fst snd] in *. rewrite <- Hn in *.
    split_and!; try done; [lia|]. cbn [handed]. rewrite app_nil_r, Hr, Ha. f_equal. lia.
Qed.

Lemma stream_bytes_app byte i n m :
  0 <= n -> 0 <= m -> stream_bytes byte i n ++ stream_bytes byte (i + n) m = stream_bytes byte i (n + m).
Proof. intros. unfold stream_bytes. by rewrite (seqZ_app i n m), map_app by lia. Qed.

Lemma handed_cons x xs : handed (x :: xs) = handed [x] ++ handed xs.
Proof. destruct x; cbn [handed]; [done|by rewrite app_nil_r]. Qed.

(** Everything handed out in a run is the stream between the read positions. *)
Lemma sr_run_refines byte ops : forall s a,
  represents byte (sr_r s) (read_off s) a -> Forall sr_op_ok ops ->
  exists s', sr_run byte ops s = Some (fst (sr_abs_run byte ops a), s') /\
    represents byte (sr_r s') (read_off s') (snd (sr_abs_run byte ops a)) /\
    read_off s <= read_off s' /\
    handed (fst (sr_abs_run byte ops a)) = stream_bytes byte (read_off s) (read_off s' - read_off s).
Proof.
  induction ops as [|op ops IH]; intros s a HR Hok; cbn [sr_run sr_abs_run].
  - exists s. rewrite Z.sub_diag. split_and!; try done; lia.
  - apply Forall_cons_iff in Hok as [Hop Hok].
    destruct (sr_exec_refines byte op s a HR Hop) as (s1 & -> & HR1 & Hle1 & Hh1).
    destruct (sr_abs byte op a) as [x a1]. cbn [fst snd] in *.
    destruct (IH s1 a1 HR1 Hok) as (s2 & -> & HR2 & Hle & Hh).
    destruct (sr_abs_run byte ops a1) as [xs a2]. cbn [fst snd] in *.
    exists s2. split_and!; [done..|lia|]. rewrite handed_cons, Hh1, Hh.
    replace (read_off s1) with (read_off s + (read_off s1 - read_off s)) at 2 by lia.
    rewrite stream_bytes_app by lia. f_equal. lia.
Qed.

(** reassemble.h documents a final size to be refused if it conflicts with data already
    received past it. *)
Definition a_conflict (a : astream) (size : Z) : bool :=
  existsb (fun seg => (0 <? snd seg) && (size <? fst seg + snd seg)) (a_got a).

Definition doc_set_final (a : astream) (size : Z) : bool * astream :=
  if a_conflict a size then (false, a) else a_set_final a size.

Definition sr_doc (byte : Z -> Z) (op : sr_op) (a : astream) : sr_answer * astream :=
  match op with
  | SrFinal size => let '(ok, a') := doc_set_final a size in (SrOk ok, a')
  | _ => sr_abs byte op a
  end.

Fixpoint sr_doc_run (byte : Z -> Z) (ops : list sr_op) (a : astream) : list sr_answer * astream :=
  match ops with
  | [] => ([], a)
  | op :: ops' =>
      let '(x, a1) := sr_doc byte op a in
      let '(xs, a2) := sr_doc_run byte ops' a1 in (x :: xs, a2)
  end.

(** No final size within the buffer is announced below data already accepted. *)
Fixpoint conflict_free (byte : Z -> Z) (ops : list sr_op) (a : astream) : bool :=
  match ops with
  | [] => true
  | op :: ops' =>
      match op with SrFinal size => negb ((size <=? QUIC_REASM_CAP) && a_conflict a size) | _ => true end &&
      conflict_free byte ops' (snd (sr_doc byte op a))
  end.

Lemma sr_doc_iff byte ops : forall a,
  fst (sr_abs_run byte ops a) = fst (sr_doc_run byte ops a) <-> conflict_free byte ops a = true.
Proof.
  induction ops as [|op ops IH]; intros a; [done|]. cbn [sr_abs_run sr_doc_run conflict_free].
  assert (Hsame : sr_abs byte op a = sr_doc byte op a ->
    fst (let '(x, a1) := sr_abs byte op a in let '(xs, a2) := sr_abs_run byte ops a1 in (x :: xs, a2)) =
    fst (let '(x, a1) := sr_doc byte op a in let '(xs, a2) := sr_doc_run byte ops a1 in (x :: xs, a2)) <->
    conflict_free byte ops (snd (sr_doc byte op a)) = true).
  { intros ->. destruct (sr_doc byte op a) as [x a1]. cbn [snd]. rewrite <- IH.
    destruct (sr_abs_run byte ops a1), (sr_doc_run byte ops a1). cbn [fst]. split; [by intros [= ->]|by intros ->]. }
  destruct op as [offset len|size|out cap]; [by apply Hsame| |by apply Hsame].
  unfold sr_doc, doc_set_final, sr_abs, a_set_final in *.
  destruct (size <=? QUIC_REASM_CAP), (a_conflict a size); cbn [negb andb]; try (by apply Hsame).
  destruct (sr_abs_run byte ops _), (sr_doc_run byte ops _). by split.
Qed.

(** C2: whatever the order, overlap and duplication in which segments of one
    stream arrive, and however the application reads, the reassembly buffer
    answers as the abstract stream: a segment is accepted iff it fits the 4096
    bytes and the known final size, a read returns exactly the bytes between the
    read position and the first missing one (at most the reader's capacity), no
    access leaves the buffers, and all bytes handed out form the stream's prefix,
    each byte once and in order.  A final size is accepted iff it is within the
    4096 bytes, where reassemble.h wants it refused also if it conflicts with
    data already received past it; the answers are those of the stream as
    documented exactly in the histories in which no final size conflicts. *)
Theorem stream_read_refines byte ops s :
  zlen (r_buf (sr_r s)) = QUIC_REASM_CAP -> zlen (r_have (sr_r s)) = QUIC_REASM_CAP ->
  Forall sr_op_ok ops ->
  exists s0 s', quic_stream_read_init s = Some s0 /\
    sr_run byte ops s0 = Some (fst (sr_abs_run byte ops astream_init), s') /\
    handed (fst (sr_abs_run byte ops astream_init)) = stream_bytes byte 0 (read_off s') /\
    (fst (sr_abs_run byte ops astream_init) = fst (sr_doc_run byte ops astream_init) <->
     conflict_free byte ops astream_init = true).
Proof.
  intros Hb Hh Hok. unfold quic_stream_read_init.
  destruct (init_refines byte (sr_r s) Hb Hh) as (r0 & -> & HR).
  destruct (sr_run_refines byte ops {| sr_r := r0; read_off := 0 |} astream_init HR Hok)
    as (s' & Hrun & _ & _ & Hhand).
  eexists _, s'. split; [reflexivity|]. split; [done|].
  split; [rewrite Hhand; cbn [read_off]; by rewrite Z.sub_0_r|apply sr_doc_iff].
Qed.

(** Witness of C2: the second half first, then a read that finds a gap, then the
    first half with an overlap. *)
Definition reasm_example_ops : list sr_op :=
  [SrPush 3 3; SrPull [0; 0] 2; SrPush 0 4; SrPull [0; 0] 2; SrPull [0; 0; 0; 0; 0] 5].

Definition reasm_blank : quic_reasm :=
  {| r_buf := repeat 170 4096; r_have := repeat 170 4096; r_delivered := 7; r_final_size := 1; r_have_final := true |}.

Lemma stream_read_refines_witness :
  exists s0 s', quic_stream_read_init {| sr_r := reasm_blank; read_off := 9 |} = Some s0 /\
    sr_run (fun i => i + 10) reasm_example_ops s0 =
      Some ([SrOk true; SrBytes []; SrOk true; SrBytes [10; 11]; SrBytes [12; 13; 14; 15]], s') /\
    [10; 11; 12; 13; 14; 15] = stream_bytes (fun i => i + 10) 0 (read_off s') /\
    (fst (sr_abs_run (fun i => i + 10) reasm_example_ops astream_init) =
       fst (sr_doc_run (fun i => i + 10) reasm_example_ops astream_init) <-> true = true).
Proof.
  apply (stream_read_refines (fun i => i + 10) reasm_example_ops {| sr_r := reasm_blank; read_off := 9 |}).
  - reflexivity.
  - reflexivity.
  - unfold reasm_example_ops, is_varint. rewrite !Forall_cons_iff. cbn [sr_op_ok].
    unfold is_varint, QUIC_VARINT_MAX, max_object. unfold zlen. cbn [length]. split_and!; try lia. constructor.
Defined.

(** A final size of 2 after six bytes is accepted; the stream as documented refuses it. *)
Example final_size_conflict :
  fst (sr_abs_run (fun i => i) [SrPush 0 6; SrFinal 2] astream_init) = [SrOk true; SrOk true] /\
  fst (sr_doc_run (fun i => i) [SrPush 0 6; SrFinal 2] astream_init) = [SrOk true; SrOk false].
Proof. by vm_compute. Qed.
