(* ===== verification/CryptoStream.v ===== *)
(** TLS handshake bytes over CRYPTO frames:
    [transport/conn/pnspace/crypto_stream/crypto_tx.c], and its composition with
    the frame walker and the receiving side ([crypto_rx.c], in [Reasm]). *)
From S2P Require Import Prelude Buffers Varint Codec Frames AckFrame FrameWalk Reasm.

Definition crypto_tx_min_usz (a b : Z) : Z := if a <? b then a else b.

(** The output buffer, [*pos] and [*written] before and after. *)
Definition emit_one (tls_bytes : list Z) (base_offset chunk cap : Z) (st : list Z * Z * Z)
  : option (bool * (list Z * Z * Z)) :=
  let '(out, pos, written) := st in
  let f := mk_crypto (base_offset +w pos) chunk (drop (Z.to_nat pos) tls_bytes) in
  match on_tail written (fun b => quic_frame_put_crypto f b (cap -w written)) out with
  | None => None
  | Some (n, out') =>
      if n =? 0 then Some (false, (out', pos, written))
      else Some (true, (out', pos +w chunk, written +w n))
  end.

(** [while (ok && pos < len)]; every round advances [pos], so [len] rounds are
    enough ([None] also stands for more rounds than [k]). *)
Fixpoint emit_loop (k : nat) (ok : bool) (tls_bytes : list Z) (len base_offset max_frame cap : Z)
  (st : list Z * Z * Z) : option (bool * (list Z * Z * Z)) :=
  let '(out, pos, written) := st in
  if ok && (pos <? len) then
    match k with
    | O => None
    | S k' =>
        let chunk := crypto_tx_min_usz (len -w pos) max_frame in
        match emit_one tls_bytes base_offset chunk cap st with
        | None => None
        | Some (ok', st') => emit_loop k' ok' tls_bytes len base_offset max_frame cap st'
        end
    end
  else Some (ok, st).

(** The return value, [*out_len] and the output buffer. *)
Definition quic_crypto_stream_emit (tls_bytes : list Z) (len base_offset max_frame : Z)
  (out : list Z) (cap : Z) : option (bool * Z * list Z) :=
  match emit_loop (Z.to_nat len) (negb (max_frame =? 0)) tls_bytes len base_offset max_frame cap (out, 0, 0) with
  | None => None
  | Some (ok, (out', _, written)) => Some (ok, written, out')
  end.

(** * The frames emitted *)

(** (position, length) of the pieces of [pos..len), each at most [max]. *)
Fixpoint pieces (k : nat) (len max pos : Z) : list (Z * Z) :=
  match k with
  | O => []
  | S k' => if pos <? len then (pos, Z.min (len - pos) max) :: pieces k' len max (pos + Z.min (len - pos) max)
            else []
  end.

Definition piece_frame (tls_bytes : list Z) (base : Z) (p : Z * Z) : quic_crypto_frame :=
  mk_crypto (base + fst p) (snd p) (slice tls_bytes (fst p) (snd p)).

Definition crypto_frames (tls_bytes : list Z) (base max : Z) : list quic_crypto_frame :=
  map (piece_frame tls_bytes base) (pieces (length tls_bytes) (zlen tls_bytes) max 0).

Definition frames_bytes (fs : list quic_crypto_frame) : list Z := concat (map fc_bytes fs).

Lemma pieces_range k len max : forall pos, 0 <= pos -> 1 <= max ->
  Forall (fun p => pos <= fst p /\ 1 <= snd p <= max /\ fst p + snd p <= len) (pieces k len max pos).
Proof.
  induction k as [|k IH]; intros pos Hp Hm; cbn [pieces]; [done|].
  destruct (Z.ltb_spec pos len); [|done]. apply Forall_cons_iff; split; [simpl; lia|].
  eapply Forall_impl; [|apply (IH (pos + Z.min (len - pos) max)); lia]. simpl. intros; lia.
Qed.

(** The pieces cover the whole range. *)
Lemma pieces_cover k len max : forall pos i, 0 <= pos -> 1 <= max -> len - pos <= Z.of_nat k -> pos <= i < len ->
  exists p, In p (pieces k len max pos) /\ fst p <= i < fst p + snd p.
Proof.
  induction k as [|k IH]; intros pos i Hp Hm Hk Hi; cbn [pieces]; [lia|].
  destruct (Z.ltb_spec pos len); [|lia].
  destruct (Z.lt_ge_cases i (pos + Z.min (len - pos) max)).
  - eexists. split; [by left|]. simpl. lia.
  - destruct (IH (pos + Z.min (len - pos) max) i) as (p & Hin & Hp'); [lia..|].
    exists p. split; [by right|done].
Qed.

(** The encoder only reads [length] bytes behind the data pointer. *)
Lemma encodes_crypto o l data :
  is_varint o -> is_varint l -> l <= zlen data ->
  Encodes (quic_frame_put_crypto (mk_crypto o l data))
          (fc_bytes (mk_crypto o l (take (Z.to_nat l) data))).
Proof.
  intros Ho Hl Hd. apply encodes_to. unfold put_crypto_hdr. cbn [cf_offset cf_length cf_data].
  change (fc_bytes (mk_crypto o l (take (Z.to_nat l) data))) with
    ([QUIC_FRAME_CRYPTO] ++ varint_bytes o ++ varint_bytes l ++ take (Z.to_nat l) data).
  eapply writes_eq; [apply writes_seq; [apply writes_seq; [|apply writes_seq]|]|].
  - by apply writes_type.
  - by apply writes_varint.
  - by apply writes_varint.
  - unfold is_varint, QUIC_VARINT_MAX in *. apply writes_write_bytes; unfold max_object; lia.
  - by rewrite <- !app_assoc.
Qed.

Section Emit.
Context (tls_bytes : list Z) (base max cap : Z).
Context (Hbase : 0 <= base) (Hmax : 1 <= max) (Hcap : cap < max_object)
        (Hend : base + zlen tls_bytes <= QUIC_VARINT_MAX).

Lemma piece_encodes p : 0 <= fst p -> 1 <= snd p -> fst p + snd p <= zlen tls_bytes ->
  Encodes (quic_frame_put_crypto (mk_crypto (base + fst p) (snd p) (drop (Z.to_nat (fst p)) tls_bytes)))
          (fc_bytes (piece_frame tls_bytes base p)).
Proof using Hbase Hend.
  intros H1 H2 H3. apply (encodes_crypto (base + fst p) (snd p) (drop (Z.to_nat (fst p)) tls_bytes)).
  - unfold is_varint. lia.
  - unfold is_varint. lia.
  - unfold zlen in *. rewrite length_drop. lia.
Qed.

Lemma emit_one_spec p out written :
  0 <= fst p -> 1 <= snd p -> fst p + snd p <= zlen tls_bytes ->
  0 <= written <= cap -> cap <= zlen out ->
  let bs := fc_bytes (piece_frame tls_bytes base p) in
  if written + zlen bs <=? cap
  then emit_one tls_bytes base (snd p) cap (out, fst p, written) =
       Some (true, (splice out written bs, fst p + snd p, written + zlen bs))
  else exists out', emit_one tls_bytes base (snd p) cap (out, fst p, written) = Some (false, (out', fst p, written)) /\
         zlen out' = zlen out /\ take (Z.to_nat written) out' = take (Z.to_nat written) out /\
         drop (Z.to_nat cap) out' = drop (Z.to_nat cap) out.
Proof using Hbase Hend Hcap.
  intros H1 H2 H3 Hw Ho bs. unfold QUIC_VARINT_MAX in *.
  assert (0 < zlen bs) by (unfold bs, fc_bytes; rewrite zlen_cons; pose proof (zlen_nonneg (fc_body (piece_frame tls_bytes base p))); lia).
  unfold emit_one. rewrite (u64_id (base + fst p)) by (unfold is_u64; lia).
  pose proof (on_tail_spec _ _ out cap written (piece_encodes p H1 H2 H3) Hw Ho Hcap) as Ht. fold bs in Ht.
  destruct (Z.leb_spec (written + zlen bs) cap).
  - rewrite Ht. zdecide. unfold max_object in *. rewrite !u64_id by (unfold is_u64; lia). done.
  - destruct Ht as (out' & -> & Hr). exists out'. by split.
Qed.

Lemma emit_loop_spec (k : nat) : forall out pos written,
  0 <= pos <= zlen tls_bytes -> zlen tls_bytes - pos <= Z.of_nat k ->
  0 <= written <= cap -> cap <= zlen out ->
  let bs := frames_bytes (map (piece_frame tls_bytes base) (pieces k (zlen tls_bytes) max pos)) in
  if written + zlen bs <=? cap
  then emit_loop k true tls_bytes (zlen tls_bytes) base max cap (out, pos, written) =
       Some (true, (splice out written bs, zlen tls_bytes, written + zlen bs))
  else exists out' pos' written',
       emit_loop k true tls_bytes (zlen tls_bytes) base max cap (out, pos, written) =
         Some (false, (out', pos', written')) /\
       zlen out' = zlen out /\ written <= written' <= cap /\
       drop (Z.to_nat cap) out' = drop (Z.to_nat cap) out.
Proof using Hbase Hend Hcap Hmax.
  induction k as [|k IH]; intros out pos written Hp Hk Hw Ho; cbn [pieces emit_loop].
  - assert (pos = zlen tls_bytes) as -> by lia. rewrite Z.ltb_irrefl. simpl.
    unfold frames_bytes. simpl. rewrite splice_nil. change (zlen []) with 0. rewrite Z.add_0_r. by zdecide.
  - destruct (Z.ltb_spec pos (zlen tls_bytes)) as [Hlt|Hge]; simpl andb; cbv iota.
    2: { assert (pos = zlen tls_bytes) as -> by lia. unfold frames_bytes. simpl. rewrite splice_nil.
         change (zlen []) with 0. rewrite Z.add_0_r. by zdecide. }
    assert (Hc : crypto_tx_min_usz (zlen tls_bytes -w pos) max = Z.min (zlen tls_bytes - pos) max).
    { unfold crypto_tx_min_usz. unfold QUIC_VARINT_MAX in *. rewrite u64_id by (unfold is_u64; lia). zcase; lia. }
    rewrite Hc. set (c := Z.min (zlen tls_bytes - pos) max).
    unfold frames_bytes. cbn [map concat].
    pose proof (emit_one_spec (pos, c) out written) as H1. cbn [fst snd] in H1. cbv zeta in H1.
    specialize (H1 ltac:(lia) ltac:(lia) ltac:(lia) Hw Ho).
    set (b1 := fc_bytes (piece_frame tls_bytes base (pos, c))) in *. rewrite zlen_app.
    set (rest := concat (map fc_bytes (map (piece_frame tls_bytes base) (pieces k (zlen tls_bytes) max (pos + c))))).
    pose proof (zlen_nonneg b1). pose proof (zlen_nonneg rest).
    destruct (Z.leb_spec (written + zlen b1) cap).
    + rewrite H1. specialize (IH (splice out written b1) (pos + c) (written + zlen b1)).
      rewrite zlen_splice in IH by lia. specialize (IH ltac:(lia) ltac:(lia) ltac:(lia) Ho).
      cbv zeta in IH. unfold frames_bytes in IH. fold rest in IH.
      destruct (Z.leb_spec (written + zlen b1 + zlen rest) cap); zdecide.
      * rewrite IH, splice_splice by lia. by rewrite Z.add_assoc.
      * destruct IH as (out' & pos' & w' & -> & Hl & Hr & Hd). exists out', pos', w'.
        rewrite Hd, drop_splice by lia. split_and!; done || lia.
    + zdecide. destruct H1 as (out' & -> & Hl & _ & Hd). destruct k; cbn [emit_loop andb].
      * exists out', pos, written. split_and!; done || lia.
      * exists out', pos, written. split_and!; done || lia.
Qed.
End Emit.

(** * Receiving *)

(** The receiver hands every CRYPTO frame to [quic_crypto_stream_recv]; [None]
    when one is refused. *)
Fixpoint rx_feed (fs : list quic_crypto_frame) (rx : quic_crypto_rx) : option quic_crypto_rx :=
  match fs with
  | [] => Some rx
  | f :: fs' =>
      match quic_crypto_stream_recv rx (cf_offset f) (cf_data f) (cf_length f) with
      | Some (true, rx') => rx_feed fs' rx'
      | _ => None
      end
  end.

Definition seg_of (f : quic_crypto_frame) : Z * Z := (cf_offset f, cf_length f).

(** [f] carries the bytes of the stream at its offset, within the buffer. *)
Definition carries (byte : Z -> Z) (f : quic_crypto_frame) : Prop :=
  0 <= cf_offset f /\ 0 <= cf_length f /\ cf_offset f + cf_length f <= QUIC_REASM_CAP /\
  forall j, 0 <= j < cf_length f -> load (cf_data f) j = Some (byte (cf_offset f + j)).

Lemma rx_feed_refines byte fs : forall rx a,
  represents byte (cr_reasm rx) (read_upto rx) a -> a_final a = None -> Forall (carries byte) fs ->
  exists rx', rx_feed fs rx = Some rx' /\ read_upto rx' = read_upto rx /\
    represents byte (cr_reasm rx') (read_upto rx')
      {| a_got := rev (map seg_of fs) ++ a_got a; a_final := None; a_read := a_read a |}.
Proof.
  induction fs as [|f fs IH]; intros rx a HR Hfin Hfs; cbn [rx_feed].
  - exists rx. split_and!; [done..|]. revert HR. by apply represents_ext.
  - apply Forall_cons_iff in Hfs as [(H1 & H2 & H3 & H4) Hfs]. pose proof reasm_cap as Hcv.
    unfold quic_crypto_stream_recv.
    destruct (insert_refines byte _ _ a (cf_offset f) (cf_data f) (cf_length f) HR) as (r' & -> & HR').
    { unfold is_varint, QUIC_VARINT_MAX. lia. }
    { unfold max_object. lia. }
    { done. }
    unfold a_push, a_accepts in HR' |- *. rewrite Hfin in HR' |- *.
    replace (cf_offset f + cf_length f <=? QUIC_REASM_CAP) with true in * by (symmetry; by apply Z.leb_le).
    cbn [andb fst snd] in *.
    destruct (IH {| cr_reasm := r'; read_upto := read_upto rx |} _ HR' eq_refl Hfs) as (rx' & -> & Hu & HR2).
    exists rx'. split_and!; [done|by rewrite Hu|]. cbn [a_got a_read map rev] in *. by rewrite <- app_assoc.
Qed.

Lemma crypto_read_refines byte rx a out cap :
  represents byte (cr_reasm rx) (read_upto rx) a -> 0 <= cap <= zlen out ->
  a_gap a - a_read a <= cap ->
  exists rx' out', quic_crypto_stream_read rx out cap = Some (Some (out', a_gap a - a_read a), rx') /\
    take (Z.to_nat (a_gap a - a_read a)) out' = stream_bytes byte (a_read a) (a_gap a - a_read a).
Proof.
  intros HR Hcap Hfit. destruct (deliver_refines byte _ _ _ HR) as (r' & Hd & HR' & Hdel & Hg & Hbuf).
  pose proof HR as (_ & _ & _ & _ & _ & _ & Hc & Ha & _). pose proof reasm_cap as Hcv.
  unfold quic_crypto_stream_read. rewrite Hd, Ha in *. rewrite u64_id by (unfold is_u64; lia). zdecide.
  rewrite (deliver_copy byte r' (read_upto rx) a) by (done || lia).
  eexists _, _. split; [reflexivity|]. apply take_splice_n, stream_bytes_length. lia.
Qed.

#[local] Opaque QUIC_REASM_CAP.

(** When the segments accepted are those of a prefix of the stream and cover it,
    the first gap is its length. *)
Lemma gap_of_cover got n read fin :
  0 <= n <= QUIC_REASM_CAP -> Forall (fun s => fst s + snd s <= n) got ->
  (forall i, 0 <= i < n -> exists s, In s got /\ fst s <= i < fst s + snd s) ->
  a_gap {| a_got := got; a_final := fin; a_read := read |} = n.
Proof.
  intros Hn Hle Hcov. unfold a_gap. cbn [a_got]. pose proof reasm_cap_nat as Hk.
  apply gap_unique; [lia| |].
  - intros j Hj. destruct (Hcov j Hj) as (s & Hin & Hs). apply existsb_exists. exists s. split; [done|].
    unfold seg_has. by zdecide.
  - intros _. apply not_true_iff_false. intros (s & Hin & Hs)%existsb_exists.
    rewrite List.Forall_forall in Hle. specialize (Hle s Hin). unfold seg_has in Hs. zbool. lia.
Qed.

Definition tls_byte (tls_bytes : list Z) (i : Z) : Z := default 0 (load tls_bytes i).

Lemma stream_bytes_all (l : list Z) : stream_bytes (tls_byte l) 0 (zlen l) = l.
Proof.
  pose proof (zlen_nonneg l).
  apply list_eq_load; [by apply stream_bytes_length|]. rewrite stream_bytes_length by done.
  intros i Hi. rewrite stream_bytes_load by done. unfold tls_byte.
  destruct (load_is_Some l i Hi) as [x Hx]. rewrite Z.add_0_l, Hx. done.
Qed.

Lemma crypto_frames_wf tls base max :
  0 <= base -> 1 <= max -> base + zlen tls <= QUIC_VARINT_MAX ->
  Forall (fun f => crypto_wf f /\ cf_offset f + cf_length f <= base + zlen tls) (crypto_frames tls base max).
Proof.
  intros Hb Hm He. unfold crypto_frames. rewrite List.Forall_map.
  eapply Forall_impl; [|apply (pieces_range _ _ _ 0); lia].
  intros p (H1 & H2 & H3). unfold crypto_wf, piece_frame, is_varint. simpl.
  rewrite zlen_slice by lia. lia.
Qed.

Lemma crypto_frames_carry tls max :
  1 <= max -> zlen tls <= QUIC_REASM_CAP -> Forall (carries (tls_byte tls)) (crypto_frames tls 0 max).
Proof.
  intros Hm Hc. unfold crypto_frames. rewrite List.Forall_map.
  eapply Forall_impl; [|apply (pieces_range _ _ _ 0); lia].
  intros p (H1 & H2 & H3). unfold carries, piece_frame. cbn [cf_offset cf_length cf_data]. split_and!; [lia..|].
  intros j Hj. rewrite load_slice by lia. unfold tls_byte.
  destruct (load_is_Some tls (fst p + j)) as [x Hx]; [lia|]. by rewrite Z.add_0_l, Hx.
Qed.

Lemma frames_bytes_walk fs : frames_bytes fs = concat (map wf_bytes (map WCrypto fs)).
Proof. unfold frames_bytes. by rewrite map_map. Qed.

(** What the receiver reads after any arrival of the frames. *)
Lemma crypto_rx_any_order tls max arrived rx dst dcap :
  1 <= max -> zlen tls <= QUIC_REASM_CAP ->
  (forall f, In f arrived <-> In f (crypto_frames tls 0 max)) ->
  zlen (r_buf (cr_reasm rx)) = QUIC_REASM_CAP -> zlen (r_have (cr_reasm rx)) = QUIC_REASM_CAP ->
  zlen tls <= dcap <= zlen dst ->
  exists rx0 rx1 rx2 dst', quic_crypto_stream_rx_init rx = Some rx0 /\ rx_feed arrived rx0 = Some rx1 /\
    quic_crypto_stream_read rx1 dst dcap = Some (Some (dst', zlen tls), rx2) /\
    take (length tls) dst' = tls.
Proof.
  intros Hm Hc Harr Hb Hh Hd. pose proof (zlen_nonneg tls) as Hz. pose proof reasm_cap as Hcv.
  unfold quic_crypto_stream_rx_init.
  destruct (init_refines (tls_byte tls) _ Hb Hh) as (r0 & -> & HR0).
  destruct (rx_feed_refines (tls_byte tls) arrived {| cr_reasm := r0; read_upto := 0 |} _ HR0 eq_refl)
    as (rx1 & Hf & _ & HR1).
  { apply List.Forall_forall. intros f Hin. apply Harr in Hin. revert f Hin. apply List.Forall_forall.
    by apply crypto_frames_carry. }
  cbn [a_got astream_init a_read] in HR1. rewrite app_nil_r in HR1.
  set (a1 := {| a_got := rev (map seg_of arrived); a_final := None; a_read := 0 |}) in *.
  assert (Hgap : a_gap a1 = zlen tls).
  { apply gap_of_cover; [lia| |].
    - apply List.Forall_forall. intros s Hin. apply in_rev, in_map_iff in Hin as (f & <- & Hin). apply Harr in Hin.
      revert f Hin. apply List.Forall_forall.
      eapply Forall_impl; [|apply (crypto_frames_wf tls 0 max); unfold QUIC_VARINT_MAX; lia].
      intros f [_ ?]. simpl. lia.
    - intros i Hi. destruct (pieces_cover (length tls) (zlen tls) max 0 i) as (p & Hp & Hpi); [lia|lia|unfold zlen; lia|lia|].
      exists (seg_of (piece_frame tls 0 p)). split; [|simpl; lia].
      apply -> in_rev. apply in_map, Harr. unfold crypto_frames. by apply in_map. }
  assert (Hr0 : a_read a1 = 0) by done.
  destruct (crypto_read_refines _ _ _ dst dcap HR1) as (rx2 & dst' & Hread & Ht); [lia|lia|].
  rewrite Hgap, Hr0, Z.sub_0_r in *.
  eexists _, rx1, rx2, dst'. split_and!; [reflexivity|done..|].
  rewrite stream_bytes_all in Ht. unfold zlen in Ht. by rewrite Nat2Z.id in Ht.
Qed.

(** C1: handshake bytes split into CRYPTO frames arrive intact.  For every byte
    string that fits the reassembly buffer and every positive frame size,
    [quic_crypto_stream_emit] writes exactly the frames of consecutive pieces
    (each at most [max_frame] bytes), the frame walker yields exactly them, and a
    receiver to which they arrive in any order and any number of times (at least
    once) reads back the bytes. *)
Theorem crypto_stream_end_to_end tls max out cap ack0 arrived rx dst dcap :
  1 <= max -> zlen tls <= QUIC_REASM_CAP ->
  zlen (frames_bytes (crypto_frames tls 0 max)) <= cap <= zlen out -> cap < max_object ->
  zlen (af_ranges ack0) = QUIC_ACK_MAX_RANGES ->
  (forall f, In f arrived <-> In f (crypto_frames tls 0 max)) ->
  zlen (r_buf (cr_reasm rx)) = QUIC_REASM_CAP -> zlen (r_have (cr_reasm rx)) = QUIC_REASM_CAP ->
  zlen tls <= dcap <= zlen dst ->
  let fs := crypto_frames tls 0 max in
  let n := zlen (frames_bytes fs) in
  exists out', quic_crypto_stream_emit tls (zlen tls) 0 max out cap = Some (true, n, out') /\
    Forall (fun f => 1 <= cf_length f <= max) fs /\
    walk ack0 (S (length fs)) (quic_framewalk_init (take (Z.to_nat n) out') n) =
      Some (map (fun f => (QUIC_FRAME_CRYPTO, fc_bytes f)) fs, mk_walk [] 0) /\
    Forall (fun f => quic_frame_get_crypto (fc_bytes f) (zlen (fc_bytes f)) = Some (Some (f, zlen (fc_bytes f)))) fs /\
  exists rx0 rx1 rx2 dst', quic_crypto_stream_rx_init rx = Some rx0 /\ rx_feed arrived rx0 = Some rx1 /\
    quic_crypto_stream_read rx1 dst dcap = Some (Some (dst', zlen tls), rx2) /\
    take (length tls) dst' = tls.
Proof.
  intros Hm Hc Hcap Ho Hack Harr Hb Hh Hd fs n. pose proof (zlen_nonneg tls). pose proof reasm_cap as Hcv.
  pose proof (zlen_nonneg (frames_bytes (crypto_frames tls 0 max))) as Hn0.
  assert (Hv : 0 + zlen tls <= QUIC_VARINT_MAX) by (unfold QUIC_VARINT_MAX; lia).
  pose proof (emit_loop_spec tls 0 max cap ltac:(lia) Hm Ho Hv (length tls) out 0 0
    ltac:(lia) ltac:(unfold zlen; lia) ltac:(lia) ltac:(lia)) as He.
  cbv zeta in He. fold (crypto_frames tls 0 max) in He. fold fs n in He. rewrite Z.add_0_l in He.
  replace (n <=? cap) with true in He by (symmetry; apply Z.leb_le; subst n fs; lia).
  exists (splice out 0 (frames_bytes fs)). split.
  { unfold quic_crypto_stream_emit. replace (Z.to_nat (zlen tls)) with (length tls) by (unfold zlen; lia).
    replace (negb (max =? 0)) with true by (symmetry; apply negb_true_iff, Z.eqb_neq; lia). by rewrite He. }
  pose proof (crypto_frames_wf tls 0 max ltac:(lia) Hm Hv) as Hwf. fold fs in Hwf.
  split_and!.
  - subst fs. unfold crypto_frames. rewrite List.Forall_map.
    eapply Forall_impl; [|apply (pieces_range _ _ _ 0); lia]. simpl. intros; lia.
  - rewrite take_splice_n by done. unfold quic_framewalk_init, n. rewrite frames_bytes_walk.
    rewrite walk_encoded, map_map; [done|done| | |].
    + rewrite List.Forall_map. eapply Forall_impl; [|exact Hwf]. by intros f [? _].
    + rewrite <- frames_bytes_walk. unfold n in *. subst fs. lia.
    + rewrite length_map. lia.
  - eapply Forall_impl; [|exact Hwf]. intros f [Hf Hle]. pose proof (fc_decode_spec f [] (zlen (fc_bytes f)) Hf) as Hdec.
    rewrite app_nil_r in Hdec. rewrite Z.leb_refl in Hdec. apply Hdec.
    + unfold fc_bytes. rewrite zlen_cons. pose proof (zlen_nonneg (fc_body f)). lia.
    + unfold fc_bytes. cbn [fc_type fc_body crypto_codec]. destruct Hf as (H1 & H2 & H3). rewrite zlen_cons, !zlen_app, !zlen_varint_bytes by done.
      pose proof (varint_len_pos _ H1). pose proof (varint_len_pos _ H2). unfold is_varint, max_object in *. lia.
  - by apply (crypto_rx_any_order tls max).
Qed.

(** Witness of C1: five bytes in frames of two, arriving last frame first with one
    duplicate. *)
Definition rx_blank : quic_crypto_rx := {| cr_reasm := reasm_blank; read_upto := 3 |}.

Definition crypto_example : list Z := [101; 102; 103; 104; 105].

Definition crypto_arrival : list quic_crypto_frame :=
  [mk_crypto 4 1 [105]; mk_crypto 0 2 [101; 102]; mk_crypto 4 1 [105]; mk_crypto 2 2 [103; 104]].

Lemma crypto_stream_end_to_end_witness :
  exists out', quic_crypto_stream_emit crypto_example 5 0 2 (repeat 0 20) 20 = Some (true, 14, out') /\
    Forall (fun f => 1 <= cf_length f <= 2) (crypto_frames crypto_example 0 2) /\
    walk ack_blank 4 (quic_framewalk_init (take 14 out') 14) =
      Some ([(6, [6; 0; 2; 101; 102]); (6, [6; 2; 2; 103; 104]); (6, [6; 4; 1; 105])], mk_walk [] 0) /\
    Forall (fun f => quic_frame_get_crypto (fc_bytes f) (zlen (fc_bytes f)) = Some (Some (f, zlen (fc_bytes f))))
      (crypto_frames crypto_example 0 2) /\
  exists rx0 rx1 rx2 dst', quic_crypto_stream_rx_init rx_blank = Some rx0 /\ rx_feed crypto_arrival rx0 = Some rx1 /\
    quic_crypto_stream_read rx1 (repeat 0 5) 5 = Some (Some (dst', 5), rx2) /\
    take 5 dst' = crypto_example.
Proof.
  apply (crypto_stream_end_to_end crypto_example 2 (repeat 0 20) 20 ack_blank crypto_arrival rx_blank (repeat 0 5) 5).
  - lia.
  - vm_compute. discriminate.
  - closed_arith.
  - closed_arith.
  - reflexivity.
  - intros f. change (crypto_frames crypto_example 0 2) with
      [mk_crypto 0 2 [101; 102]; mk_crypto 2 2 [103; 104]; mk_crypto 4 1 [105]].
    unfold crypto_arrival. simpl In. tauto.
  - reflexivity.
  - reflexivity.
  - closed_arith.
Defined.
