(* ===== verification/Flow.v ===== *)
(** Flow control: [transport/stream/flow/flow] ([flow.c], [credit.c],
    [stream_flow.c], [dual_flow.c], [streams.c], [stream_credit.c],
    [finalsize.c]), [flow/flowviol] and [data/maxstreams].

    The sender's account and the receiver's credit are put together as a
    transition system in which MAX_DATA frames may be lost, repeated and
    reordered; the receiver never sees a violation, and the sender is never left
    without credit once its bytes are consumed and the last MAX_DATA arrives. *)
From S2P Require Import Prelude Buffers Varint Codec Frames CtlFrames FrameKinds Timing.

(** * flow.c *)

Record quic_flow_send := mk_fsend { fs_sent : Z; fs_max_data : Z }.
Record quic_flow_recv := mk_frecv { fr_consumed : Z; fr_max_data : Z; fr_window : Z }.

Definition quic_flow_send_init (max_data : Z) : quic_flow_send := mk_fsend 0 max_data.

Definition quic_flow_send_avail (f : quic_flow_send) : Z :=
  if fs_sent f <? fs_max_data f then fs_max_data f -w fs_sent f else 0.

Definition quic_flow_send_record (f : quic_flow_send) (n : Z) : bool * quic_flow_send :=
  if quic_flow_send_avail f <? n then (false, f)
  else (true, mk_fsend (fs_sent f +w n) (fs_max_data f)).

Definition quic_flow_send_update_max (f : quic_flow_send) (max_data : Z) : quic_flow_send :=
  mk_fsend (fs_sent f) (quic_u64_max (fs_max_data f) max_data).

Definition quic_flow_send_blocked (f : quic_flow_send) (want : Z) : bool :=
  if want =? 0 then false else quic_flow_send_avail f <? want.

Definition quic_flow_recv_init (window : Z) : quic_flow_recv := mk_frecv 0 window window.

Definition quic_flow_recv_consume (f : quic_flow_recv) (n : Z) : Z * quic_flow_recv :=
  let consumed := fr_consumed f +w n in
  let max := consumed +w fr_window f in
  (max, mk_frecv consumed max (fr_window f)).

(** * credit.c *)

Record quic_flow_credit := mk_fcredit { fc_consumed : Z; fc_max_data : Z; fc_window : Z }.

Definition quic_flow_credit_init (initial_max : Z) : quic_flow_credit :=
  mk_fcredit 0 initial_max initial_max.

Definition quic_flow_credit_consume (c : quic_flow_credit) (n : Z) : Z * quic_flow_credit :=
  let consumed := fc_consumed c +w n in
  let max := consumed +w fc_window c in
  (max, mk_fcredit consumed max (fc_window c)).

Definition quic_flow_credit_violation (c : quic_flow_credit) (received_total : Z) : bool :=
  fc_max_data c <? received_total.

(** * stream_flow.c *)

Record quic_stream_flow := mk_sflow { sw_consumed : Z; sw_max_stream_data : Z; sw_window : Z }.

Definition quic_stream_flow_init (window : Z) : quic_stream_flow := mk_sflow 0 window window.

Definition quic_stream_flow_consume (s : quic_stream_flow) (n : Z) : Z * quic_stream_flow :=
  let consumed := sw_consumed s +w n in
  let max := consumed +w sw_window s in
  (max, mk_sflow consumed max (sw_window s)).

Definition quic_stream_flow_violation (received max_stream_data : Z) : bool := max_stream_data <? received.

(** * dual_flow.c *)

Definition quic_dual_flow_ok (stream_used stream_max conn_used conn_max : Z) : bool :=
  (stream_used <=? stream_max) && (conn_used <=? conn_max).

(** * streams.c *)

Record quic_streams := mk_slimits { ss_limit : Z; ss_opened : Z }.

Definition quic_streams_init (limit : Z) : quic_streams := mk_slimits limit 0.

Definition quic_streams_set_max (s : quic_streams) (new_limit : Z) : bool * quic_streams :=
  if new_limit <=? ss_limit s then (false, s) else (true, mk_slimits new_limit (ss_opened s)).

Definition quic_streams_may_open (s : quic_streams) (index : Z) : bool := index <? ss_limit s.

Definition quic_streams_opened (s : quic_streams) : quic_streams :=
  mk_slimits (ss_limit s) (ss_opened s +w 1).

Definition quic_streams_observe (s : quic_streams) (index : Z) : quic_streams :=
  let needed := index +w 1 in
  if ss_opened s <? needed then mk_slimits (ss_limit s) needed else s.

(** * stream_credit.c *)

Record quic_stream_credit := mk_scredit { sc_max_streams : Z; sc_count : Z }.

Definition quic_stream_credit_init (max_streams : Z) : quic_stream_credit := mk_scredit max_streams 0.

Definition quic_stream_credit_open (s : quic_stream_credit) : bool * quic_stream_credit :=
  if sc_max_streams s <=? sc_count s then (false, s)
  else (true, mk_scredit (sc_max_streams s) (sc_count s +w 1)).

Definition quic_stream_credit_grant (s : quic_stream_credit) (new_max : Z) : quic_stream_credit :=
  if sc_max_streams s <? new_max then mk_scredit new_max (sc_count s) else s.

(** * finalsize.c *)

Record quic_finalsize := mk_fsize { fz_highest : Z; fz_final_size : Z; fz_known : bool }.

Definition quic_finalsize_init : quic_finalsize := mk_fsize 0 0 false.

Definition note_highest (f : quic_finalsize) (offset len : Z) : Z * quic_finalsize :=
  let end_ := offset +w len in
  (end_, if fz_highest f <? end_ then mk_fsize end_ (fz_final_size f) (fz_known f) else f).

Definition quic_finalsize_data (f : quic_finalsize) (offset len : Z) : bool * quic_finalsize :=
  let '(end_, f') := note_highest f offset len in
  if negb (fz_known f') then (true, f') else (end_ <=? fz_final_size f', f').

Definition size_consistent (f : quic_finalsize) (size : Z) : bool :=
  if fz_known f then size =? fz_final_size f else fz_highest f <=? size.

Definition quic_finalsize_set (f : quic_finalsize) (size : Z) : bool * quic_finalsize :=
  if negb (size_consistent f size) then (false, f)
  else (true, mk_fsize (fz_highest f) size true).

(** * flowviol.c, closeframe.c *)

Definition QUIC_EC_FLOW_CONTROL_ERROR : Z := 0x03.
Definition QUIC_EC_STREAM_LIMIT_ERROR : Z := 0x04.

Definition data_violation (received_total max_data : Z) : bool :=
  quic_flow_credit_violation (quic_flow_credit_init max_data) received_total.

Definition stream_violation (stream_count max_streams : Z) : bool :=
  let s := quic_stream_credit_init max_streams in
  negb (fst (quic_stream_credit_open (mk_scredit (sc_max_streams s) stream_count))).

(** [Some code]: returned 1 with [*error_code = code]; [None]: returned 0. *)
Definition quic_flowviol_check (received_total max_data stream_count max_streams : Z) : option Z :=
  if data_violation received_total max_data then Some QUIC_EC_FLOW_CONTROL_ERROR
  else if stream_violation stream_count max_streams then Some QUIC_EC_STREAM_LIMIT_ERROR
  else None.

(** The return value, [*out_len] when it is set, and the buffer. *)
Definition quic_flowviol_close_frame (error_code frame_type : Z) (reason : list Z) (reason_len : Z)
  (out : list Z) (cap : Z) : option (option Z * list Z) :=
  match quic_frame_put_conn_close (mk_close 0 error_code frame_type reason_len reason) out cap with
  | None => None
  | Some (n, out') => if n =? 0 then Some (None, out') else Some (Some n, out')
  end.

(** * maxstreams.c *)

Definition quic_maxstreams_frame (uni max : Z) (out : list Z) (cap : Z) : option (option Z * list Z) :=
  match quic_max_streams_encode (CtlFrames.mk_streams max (if uni =? 0 then 0 else 1)) out cap with
  | None => None
  | Some (n, out') => if n =? 0 then Some (None, out') else Some (Some n, out')
  end.

Definition quic_maxstreams_parse (buf : list Z) (n : Z) : option (option (Z * Z)) :=
  match quic_max_streams_decode buf n with
  | None => None
  | Some None => Some None
  | Some (Some (f, _)) => Some (Some (st_uni f, st_max_streams f))
  end.

Definition quic_maxstreams_can_open (opened max_streams : Z) : bool := opened <? max_streams.

(** * Sender and receiver together *)

(** The sender's account, the receiver's credit, the bytes received so far, and
    the MAX_DATA values sent so far (any of them may still arrive, any number of
    times, in any order). *)
Record flow_net := mk_net {
  n_snd : quic_flow_send; n_rcv : quic_flow_credit; n_received : Z; n_ads : list Z }.

Definition flow_net_init (w : Z) : flow_net :=
  mk_net (quic_flow_send_init w) (quic_flow_credit_init w) 0 [].

Inductive flow_step : flow_net -> flow_net -> Prop :=
| flow_sends net n snd' : 0 <= n -> quic_flow_send_record (n_snd net) n = (true, snd') ->
    flow_step net (mk_net snd' (n_rcv net) (n_received net) (n_ads net))
| flow_delivers net k : n_received net <= k <= fs_sent (n_snd net) ->
    flow_step net (mk_net (n_snd net) (n_rcv net) k (n_ads net))
| flow_consumes net n max rcv' : 0 <= n -> fc_consumed (n_rcv net) + n <= n_received net ->
    is_varint (fc_consumed (n_rcv net) + n + fc_window (n_rcv net)) ->
    quic_flow_credit_consume (n_rcv net) n = (max, rcv') ->
    flow_step net (mk_net (n_snd net) rcv' (n_received net) (max :: n_ads net))
| flow_hears net m : In m (n_ads net) ->
    flow_step net (mk_net (quic_flow_send_update_max (n_snd net) m) (n_rcv net) (n_received net) (n_ads net)).

Inductive flow_reach (w : Z) : flow_net -> Prop :=
| flow_start : flow_reach w (flow_net_init w)
| flow_next net net' : flow_reach w net -> flow_step net net' -> flow_reach w net'.

Definition flow_inv (w : Z) (net : flow_net) : Prop :=
  0 <= fc_consumed (n_rcv net) <= n_received net /\ n_received net <= fs_sent (n_snd net) /\
  fs_sent (n_snd net) <= fs_max_data (n_snd net) /\ fs_max_data (n_snd net) <= fc_max_data (n_rcv net) /\
  fc_max_data (n_rcv net) = fc_consumed (n_rcv net) + w /\ fc_window (n_rcv net) = w /\
  is_varint (fc_max_data (n_rcv net)) /\ Forall (fun m => 0 <= m <= fc_max_data (n_rcv net)) (n_ads net) /\
  w <= fs_max_data (n_snd net).

Lemma send_record_ok f n f' :
  0 <= fs_sent f <= fs_max_data f -> is_varint (fs_max_data f) -> 0 <= n ->
  quic_flow_send_record f n = (true, f') <->
  fs_sent f + n <= fs_max_data f /\ f' = mk_fsend (fs_sent f + n) (fs_max_data f).
Proof.
  unfold is_varint, QUIC_VARINT_MAX, quic_flow_send_record, quic_flow_send_avail. intros Hs Hm Hn.
  destruct (Z.ltb_spec (fs_sent f) (fs_max_data f)).
  - rewrite (u64_id (_ - _)) by (unfold is_u64; lia). zcase.
    + split; [done|lia].
    + rewrite u64_id by (unfold is_u64; lia). split; [intros [= <-]; split; [lia|done]|intros [_ ->]; done].
  - zcase; [split; [done|lia]|]. rewrite u64_id by (unfold is_u64; lia).
    split; [intros [= <-]; split; [lia|done]|intros [_ ->]; done].
Qed.

Lemma flow_step_inv w net net' : flow_inv w net -> flow_step net net' -> flow_inv w net'.
Proof.
  intros (H1 & H2 & H3 & H4 & H5 & H6 & H7 & H8 & H9) Hs. pose proof H7 as Hv. unfold is_varint, QUIC_VARINT_MAX in Hv.
  destruct Hs as [net n snd' Hn Hr|net k Hk|net n max rcv' Hn Hr Hb Hc|net m Hm]; unfold flow_inv; cbn [n_snd n_rcv n_received n_ads].
  - apply send_record_ok in Hr as [Hr ->]; [|lia|unfold is_varint, QUIC_VARINT_MAX; lia|done].
    cbn [fs_sent fs_max_data]. split_and!; done || lia.
  - split_and!; done || lia.
  - unfold quic_flow_credit_consume in Hc. unfold is_varint, QUIC_VARINT_MAX in Hb.
    rewrite (u64_id (fc_consumed _ + n)) in Hc by (unfold is_u64; lia).
    rewrite u64_id in Hc by (unfold is_u64; lia). injection Hc as <- <-. cbn [fc_consumed fc_max_data fc_window].
    split_and!; try done; try lia; try (unfold is_varint, QUIC_VARINT_MAX; lia).
    apply Forall_cons_iff; split; [lia|]. eapply Forall_impl; [|exact H8]. simpl. intros; lia.
  - unfold quic_flow_send_update_max, quic_u64_max. cbn [fs_sent fs_max_data].
    rewrite List.Forall_forall in H8. pose proof (H8 m Hm) as Hmb. simpl in Hmb.
    assert (Hf : Forall (fun m => 0 <= m <= fc_max_data (n_rcv net)) (n_ads net)) by (by apply List.Forall_forall).
    zcase; split_and!; done || lia.
Qed.

Lemma flow_reach_inv w net : is_varint w -> flow_reach w net -> flow_inv w net.
Proof.
  intros Hw. induction 1 as [|net net' _ IH Hs]; [|by eapply flow_step_inv].
  unfold is_varint, QUIC_VARINT_MAX in Hw.
  unfold flow_inv, flow_net_init. cbn. unfold is_varint, QUIC_VARINT_MAX. split_and!; try lia. constructor.
Qed.

(** C29: flow control never fails between two endpoints that both run this code.
    In every state reachable by sending, delivery, consumption and MAX_DATA frames
    that may be lost, repeated or reordered, the receiver's violation check is
    false for the bytes received, the sender's record of [n] more bytes succeeds
    exactly when they fit its limit (and then it is not reported blocked), and once
    everything sent is consumed the newest MAX_DATA restores the full window. *)
Theorem flow_control_sound w net (Hw : is_varint w) (Hr : flow_reach w net) :
  quic_flow_credit_violation (n_rcv net) (n_received net) = false /\
  (forall n, 0 <= n ->
     fst (quic_flow_send_record (n_snd net) n) = (fs_sent (n_snd net) + n <=? fs_max_data (n_snd net)) /\
     quic_flow_send_blocked (n_snd net) n = negb (fs_sent (n_snd net) + n <=? fs_max_data (n_snd net))) /\
  (fc_consumed (n_rcv net) = fs_sent (n_snd net) ->
     quic_flow_send_avail (quic_flow_send_update_max (n_snd net) (fc_max_data (n_rcv net))) = w).
Proof.
  destruct (flow_reach_inv w net Hw Hr) as (H1 & H2 & H3 & H4 & H5 & H6 & H7 & H8 & H9).
  unfold is_varint, QUIC_VARINT_MAX in *. split_and!.
  - unfold quic_flow_credit_violation. zdecide. done.
  - intros n Hn. unfold quic_flow_send_record, quic_flow_send_blocked, quic_flow_send_avail.
    destruct (Z.ltb_spec (fs_sent (n_snd net)) (fs_max_data (n_snd net))).
    + rewrite (u64_id (_ - _)) by (unfold is_u64; lia). destruct (Z.eqb_spec n 0).
      * by zdecide.
      * destruct (Z.leb_spec (fs_sent (n_snd net) + n) (fs_max_data (n_snd net))); by zdecide.
    + destruct (Z.eqb_spec n 0); [by zdecide|]. by zdecide.
  - intros Hc. unfold quic_flow_send_update_max, quic_u64_max, quic_flow_send_avail. cbn [fs_sent fs_max_data].
    assert (Hm : (if fc_max_data (n_rcv net) <? fs_max_data (n_snd net)
                  then fs_max_data (n_snd net) else fc_max_data (n_rcv net)) = fc_max_data (n_rcv net)) by (zcase; lia).
    rewrite Hm. zcase; [|lia]. rewrite u64_id by (unfold is_u64; lia). lia.
Qed.

(** Witness of C29: the window is used up, part of it is consumed, and the new limit
    arrives. *)
Definition flow_example : flow_net :=
  mk_net (mk_fsend 10 14) (mk_fcredit 4 14 10) 6 [14].

Lemma flow_example_reach : flow_reach 10 flow_example.
Proof.
  set (n1 := mk_net (mk_fsend 10 10) (mk_fcredit 0 10 10) 0 []).
  set (n2 := mk_net (mk_fsend 10 10) (mk_fcredit 0 10 10) 6 []).
  set (n3 := mk_net (mk_fsend 10 10) (mk_fcredit 4 14 10) 6 [14]).
  apply (flow_next _ n3); [apply (flow_next _ n2); [apply (flow_next _ n1); [apply (flow_next _ (flow_net_init 10))|]|]|].
  - apply flow_start.
  - exact (flow_sends (flow_net_init 10) 10 (mk_fsend 10 10) ltac:(lia) eq_refl).
  - apply (flow_delivers n1 6). cbn. lia.
  - apply (flow_consumes n2 4 14 (mk_fcredit 4 14 10)); [lia|cbn; lia| |reflexivity].
    cbn. unfold is_varint, QUIC_VARINT_MAX. lia.
  - apply (flow_hears n3 14). by left.
Qed.

Lemma flow_control_sound_witness :
  quic_flow_credit_violation (n_rcv flow_example) (n_received flow_example) = false /\
  (forall n, 0 <= n ->
     fst (quic_flow_send_record (n_snd flow_example) n) = (10 + n <=? 14) /\
     quic_flow_send_blocked (n_snd flow_example) n = negb (10 + n <=? 14)) /\
  (4 = 10 -> quic_flow_send_avail (quic_flow_send_update_max (n_snd flow_example) 14) = 10).
Proof.
  apply (flow_control_sound 10 flow_example).
  - unfold is_varint, QUIC_VARINT_MAX. lia.
  - exact flow_example_reach.
Defined.

(** * Final sizes *)

Inductive fz_event := FzData (offset len : Z) | FzSet (size : Z).

Definition fz_exec (e : fz_event) (f : quic_finalsize) : bool * quic_finalsize :=
  match e with
  | FzData offset len => quic_finalsize_data f offset len
  | FzSet size => quic_finalsize_set f size
  end.

(** All calls return 1. *)
Fixpoint fz_all (evs : list fz_event) (f : quic_finalsize) : bool :=
  match evs with
  | [] => true
  | e :: evs' => let '(ok, f') := fz_exec e f in ok && fz_all evs' f'
  end.

Fixpoint fz_ends (evs : list fz_event) : list Z :=
  match evs with
  | [] => []
  | FzData offset len :: evs' => (offset + len) :: fz_ends evs'
  | FzSet _ :: evs' => fz_ends evs'
  end.

Fixpoint fz_sizes (evs : list fz_event) : list Z :=
  match evs with
  | [] => []
  | FzData _ _ :: evs' => fz_sizes evs'
  | FzSet size :: evs' => size :: fz_sizes evs'
  end.

Definition fz_ok (e : fz_event) : Prop :=
  match e with
  | FzData offset len => 0 <= offset /\ 0 <= len /\ offset + len < 18446744073709551616
  | FzSet size => 0 <= size
  end.

(** RFC 9000 4.5: one final size, and no data beyond it. *)
Definition fz_consistent (evs : list fz_event) : Prop :=
  (forall s s', In s (fz_sizes evs) -> In s' (fz_sizes evs) -> s = s') /\
  (forall s e, In s (fz_sizes evs) -> In e (fz_ends evs) -> e <= s).

Definition fz_fits (f : quic_finalsize) (evs : list fz_event) : Prop :=
  (forall s, In s (fz_sizes evs) -> fz_highest f <= s /\ (fz_known f = true -> s = fz_final_size f)) /\
  (fz_known f = true -> forall e, In e (fz_ends evs) -> e <= fz_final_size f).

Lemma fz_data_spec f offset len : fz_ok (FzData offset len) -> 0 <= fz_highest f ->
  quic_finalsize_data f offset len =
  (negb (fz_known f) || (offset + len <=? fz_final_size f),
   mk_fsize (Z.max (fz_highest f) (offset + len)) (fz_final_size f) (fz_known f)).
Proof.
  intros (H1 & H2 & H3) Hh. unfold quic_finalsize_data, note_highest. rewrite u64_id by (unfold is_u64; lia).
  destruct f as [h fs k]. cbn [fz_highest fz_final_size fz_known] in *.
  destruct (Z.ltb_spec h (offset + len)); cbn [fz_highest fz_final_size fz_known]; destruct k; simpl;
    do 2 f_equal; lia.
Qed.

Lemma fz_all_spec evs : forall f,
  Forall fz_ok evs -> 0 <= fz_highest f -> (fz_known f = true -> fz_highest f <= fz_final_size f) ->
  fz_all evs f = true <-> fz_fits f evs /\ fz_consistent evs.
Proof.
  induction evs as [|e evs IH]; intros f Hok Hh Hk; cbn [fz_all].
  - unfold fz_fits, fz_consistent. simpl. naive_solver.
  - apply Forall_cons_iff in Hok as [He Hok]. destruct e as [offset len|size]; cbn [fz_exec].
    + rewrite fz_data_spec, andb_true_iff, orb_true_iff, negb_true_iff, Z.leb_le by done.
      destruct f as [h fs k]. cbn [fz_highest fz_final_size fz_known] in *.
      etransitivity; [apply and_iff_left; intros Hx; apply IH; [done|cbn; lia|cbn; intros ->; destruct Hx; [done|]; specialize (Hk eq_refl); lia]|].
      unfold fz_fits, fz_consistent. cbn [fz_sizes fz_ends In fz_highest fz_final_size fz_known].
      split.
      * intros (H1 & [H2 H3] & H4 & H5). split_and!.
        -- intros s Hs. specialize (H2 s Hs). intuition lia.
        -- intros -> e [<-|Hi]; [destruct H1; [done|lia]|auto].
        -- done.
        -- intros s e Hs [<-|Hi]; [specialize (H2 s Hs); lia|auto].
      * intros ([H1 H2] & H3 & H4). split_and!.
        -- destruct k; [right; apply H2; auto|by left].
        -- intros s Hs. specialize (H1 s Hs). specialize (H4 s (offset + len) Hs (or_introl eq_refl)). intuition lia.
        -- intros -> e Hi. apply H2; auto.
        -- done.
        -- intros s e Hs Hi. apply H4; auto.
    + unfold quic_finalsize_set. destruct f as [h fs k]. simpl in He, Hh, Hk.
      assert (Hc : size_consistent (mk_fsize h fs k) size = true <-> h <= size /\ (k = true -> size = fs)).
      { unfold size_consistent. cbn [fz_highest fz_final_size fz_known].
        destruct k; rewrite ?Z.eqb_eq, ?Z.leb_le; intuition (subst; auto; congruence). }
      destruct (size_consistent (mk_fsize h fs k) size); cbn [negb andb fz_highest].
      * destruct (proj1 Hc eq_refl) as [Hc1 Hc2]. rewrite IH by (cbn; auto).
        unfold fz_fits, fz_consistent. cbn [fz_sizes fz_ends In fz_highest fz_final_size fz_known].
        split.
        -- intros ([H1 H2] & H3 & H4). split_and!.
           ++ intros s [<-|Hs]; [done|]. destruct (H1 s Hs) as [? H5]. rewrite (H5 eq_refl) in *. done.
           ++ intros Ek e Hi. rewrite <- (Hc2 Ek). auto.
           ++ intros s s' [<-|Hs] [<-|Hs']; auto; [symmetry; by apply H1|by apply H1].
           ++ intros s e [<-|Hs] Hi; auto.
        -- intros ([H1 H2] & H3 & H4). split_and!; [|intros _ e Hi; auto|intros s s' Hs Hs'; auto|intros s e Hs Hi; auto].
           intros s Hs. split; [by apply H1; right|]. intros _. apply H3; auto.
      * split; [done|]. intros ([H1 _] & _). exfalso. assert (false = true); [|done]. apply Hc.
        apply H1. by left.
Qed.

(** The final-size checks are exactly the rule of RFC 9000 4.5.  Over any
    sequence of data ranges and final sizes (ends below 2^64), all calls return 1
    if and only if all final sizes are equal and no data reaches beyond them,
    whatever the order in which data and sizes arrive. *)
Theorem finalsize_exact evs (Hok : Forall fz_ok evs) :
  fz_all evs quic_finalsize_init = true <-> fz_consistent evs.
Proof.
  rewrite fz_all_spec by (done || (cbn; lia)). split; [tauto|]. intros Hc. split; [|done].
  split; [|done]. intros s Hs. split; [|done]. cbn.
  clear Hc. induction evs as [|[o l|z] evs IH]; [done| |]; apply Forall_cons_iff in Hok as [He Hok].
  - auto.
  - destruct Hs as [<-|Hs]; [done|auto].
Qed.

(** Witness: data past the final size, announced afterwards, is caught. *)
Lemma finalsize_exact_witness :
  fz_all [FzData 0 10; FzSet 12; FzData 8 5] quic_finalsize_init = true <->
  fz_consistent [FzData 0 10; FzSet 12; FzData 8 5].
Proof.
  apply (finalsize_exact [FzData 0 10; FzSet 12; FzData 8 5]).
  rewrite !Forall_cons_iff. cbn [fz_ok]. split_and!; try lia. constructor.
Defined.

(** * Reporting a violation *)

(** The receiver accounts of the connection and of a stream are the same
    function, and accepting data is the absence of both violations. *)
Lemma flow_accounts_agree consumed max window n su sm cu :
  fst (quic_flow_recv_consume (mk_frecv consumed max window) n) =
    fst (quic_flow_credit_consume (mk_fcredit consumed max window) n) /\
  fst (quic_stream_flow_consume (mk_sflow consumed max window) n) =
    fst (quic_flow_credit_consume (mk_fcredit consumed max window) n) /\
  quic_dual_flow_ok su sm cu max =
    negb (quic_stream_flow_violation su sm) &&
    negb (quic_flow_credit_violation (mk_fcredit consumed max window) cu).
Proof.
  split_and!; [done..|]. unfold quic_dual_flow_ok, quic_stream_flow_violation, quic_flow_credit_violation.
  cbn [fc_max_data]. by rewrite <- !Z.leb_antisym.
Qed.

Lemma flowviol_check_spec received max_data count max_streams :
  quic_flowviol_check received max_data count max_streams =
  if max_data <? received then Some QUIC_EC_FLOW_CONTROL_ERROR
  else if max_streams <=? count then Some QUIC_EC_STREAM_LIMIT_ERROR else None.
Proof.
  unfold quic_flowviol_check, data_violation, stream_violation, quic_flow_credit_violation, quic_stream_credit_open.
  cbn [fc_max_data quic_flow_credit_init sc_max_streams sc_count quic_stream_credit_init].
  destruct (max_data <? received); [done|]. by destruct (max_streams <=? count).
Qed.

(** C38: a violation is detected exactly and reported intact.  The check answers
    FLOW_CONTROL_ERROR when more bytes than advertised were received, otherwise
    STREAM_LIMIT_ERROR when one more stream may not be opened (as
    [quic_maxstreams_can_open] also says), otherwise nothing; and the
    CONNECTION_CLOSE frame built for the code is decoded by the peer as a
    transport close with that code, frame type and reason, or reported as not
    fitting. *)
Theorem flow_violation_reported received max_data count max_streams frame_type reason out cap :
  is_varint frame_type -> is_varint (zlen reason) -> 0 <= cap <= zlen out -> zlen out < max_object ->
  match quic_flowviol_check received max_data count max_streams with
  | None => received <= max_data /\ quic_maxstreams_can_open count max_streams = true
  | Some code =>
      (code = QUIC_EC_FLOW_CONTROL_ERROR /\ max_data < received \/
       code = QUIC_EC_STREAM_LIMIT_ERROR /\ received <= max_data /\
         quic_maxstreams_can_open count max_streams = false) /\
      let f := mk_close 0 code frame_type (zlen reason) reason in
      if zlen (fc_bytes f) <=? cap
      then exists out', quic_flowviol_close_frame code frame_type reason (zlen reason) out cap =
                          Some (Some (zlen (fc_bytes f)), out') /\
             quic_frame_get_conn_close out' (zlen out) = Some (Some (f, zlen (fc_bytes f)))
      else exists out', quic_flowviol_close_frame code frame_type reason (zlen reason) out cap = Some (None, out')
  end.
Proof.
  intros Hft Hrl Hcap Ho. rewrite flowviol_check_spec. unfold quic_maxstreams_can_open.
  assert (Hclose : forall code, is_varint code ->
    let f := mk_close 0 code frame_type (zlen reason) reason in
    if zlen (fc_bytes f) <=? cap
    then exists out', quic_flowviol_close_frame code frame_type reason (zlen reason) out cap =
                        Some (Some (zlen (fc_bytes f)), out') /\
           quic_frame_get_conn_close out' (zlen out) = Some (Some (f, zlen (fc_bytes f)))
    else exists out', quic_flowviol_close_frame code frame_type reason (zlen reason) out cap = Some (None, out')).
  { intros code Hc f. unfold quic_flowviol_close_frame. fold f.
    assert (Hwf : close_wf f) by (unfold close_wf, f; cbn; split_and!; auto).
    assert (0 < zlen (fc_bytes f)) by (unfold fc_bytes; rewrite zlen_cons; pose proof (zlen_nonneg (fc_body f)); lia).
    destruct (Z.leb_spec (zlen (fc_bytes f)) cap).
    - destruct (codec_roundtrip f out cap (zlen out)) as (out' & He & Hd); [done|lia..|].
      cbn [fc_encode fc_decode close_codec] in *. rewrite He. zdecide. exists out'. split; [done|].
      rewrite Hd. by zdecide.
    - pose proof (fc_encode_spec f out cap Hwf Hcap ltac:(lia)) as He. cbn [fc_encode close_codec] in He.
      revert He. zdecide. intros (out' & -> & _). by exists out'. }
  unfold is_varint, QUIC_VARINT_MAX, QUIC_EC_FLOW_CONTROL_ERROR, QUIC_EC_STREAM_LIMIT_ERROR in *.
  destruct (Z.ltb_spec max_data received); [split; [by left|apply Hclose; lia]|].
  destruct (Z.leb_spec max_streams count).
  - split; [right; split_and!; [done|done|by zdecide]|apply Hclose; lia].
  - split; [done|by zdecide].
Qed.

(** Witness of C38: too many bytes, reported with an empty reason. *)
Lemma flow_violation_reported_witness :
  (3 = QUIC_EC_FLOW_CONTROL_ERROR /\ 100 < 101 \/
   3 = QUIC_EC_STREAM_LIMIT_ERROR /\ 101 <= 100 /\ quic_maxstreams_can_open 0 1 = false) /\
  exists out', quic_flowviol_close_frame 3 8 [] 0 (repeat 0 16) 16 = Some (Some 4, out') /\
    quic_frame_get_conn_close out' 16 = Some (Some (mk_close 0 3 8 0 [], 4)).
Proof.
  apply (flow_violation_reported 101 100 0 1 8 [] (repeat 0 16) 16); closed_arith.
Defined.
