(* ===== verification/FrameDispatch.v ===== *)
(** Frame dispatch: [transport/packet/frame/framedispatch/dispatch_state.c] and the
    loop that feeds it ([dispatch_all] of [transport/conn/loop/connio/connio.c]).

    This is where the components meet: the walker finds the frames of a payload, and
    each is handed to the stream buffer, the sent-packet table or the flow credit. *)
From S2P Require Import Prelude Buffers Varint Codec Frames CtlFrames AckFrame FrameKinds FrameWalk AckLoss Reasm Flow.

(** * The state

    The three pointers of the structure are the objects they point to. *)
Record quic_framedispatch_state := mk_disp {
  fd_stream : quic_stream_read; fd_sent : quic_sentpkt; fd_credit : quic_flow_credit;
  fd_ack_eliciting : Z; fd_close : Z; fd_has_ack : Z; fd_largest_acked : Z }.

Definition fd_set_stream (st : quic_framedispatch_state) (s : quic_stream_read) : quic_framedispatch_state :=
  mk_disp s (fd_sent st) (fd_credit st) (fd_ack_eliciting st) (fd_close st) (fd_has_ack st) (fd_largest_acked st).
Definition fd_set_credit (st : quic_framedispatch_state) (c : quic_flow_credit) : quic_framedispatch_state :=
  mk_disp (fd_stream st) (fd_sent st) c (fd_ack_eliciting st) (fd_close st) (fd_has_ack st) (fd_largest_acked st).
Definition fd_set_close (st : quic_framedispatch_state) : quic_framedispatch_state :=
  mk_disp (fd_stream st) (fd_sent st) (fd_credit st) (fd_ack_eliciting st) 1 (fd_has_ack st) (fd_largest_acked st).
Definition fd_set_eliciting (st : quic_framedispatch_state) (k : quic_frame_kind) : quic_framedispatch_state :=
  mk_disp (fd_stream st) (fd_sent st) (fd_credit st) (Z.lor (fd_ack_eliciting st) (Z.b2z (quic_frame_ack_eliciting k)))
    (fd_close st) (fd_has_ack st) (fd_largest_acked st).
Definition fd_set_acked (st : quic_framedispatch_state) (t : quic_sentpkt) (largest : Z) : quic_framedispatch_state :=
  mk_disp (fd_stream st) t (fd_credit st) (fd_ack_eliciting st) (fd_close st) 1 largest.

(** * The handlers

    The return value and the state; [None] is an access out of bounds. *)
Definition handler : Type := quic_framedispatch_state -> list Z -> Z -> option (bool * quic_framedispatch_state).

Definition on_stream : handler := fun st frame len =>
  match quic_frame_get_stream frame len with
  | None => None
  | Some None => Some (false, st)
  | Some (Some (f, _)) =>
      match quic_stream_read_push (fd_stream st) (sf_offset f) (sf_data f) (sf_length f) with
      | None => None
      | Some (ok, s) => Some (ok, fd_set_stream st s)
      end
  end.

(** [wire[w++] = v] on the array of [2 * QUIC_ACK_MAX_RANGES] entries. *)
Definition wire_push (wire : list Z) (v : Z) : option (list Z) :=
  if zlen wire <? 2 * QUIC_ACK_MAX_RANGES then Some (wire ++ [v]) else None.

(** [for (i = 1; i < f.n_ranges; i++)], [k] rounds from [i] on. *)
Fixpoint wire_loop (k : nat) (i : Z) (rs : list quic_ack_range) (wire : list Z) : option (list Z) :=
  match k with
  | O => Some wire
  | S k' =>
      match load rs (i - 1), load rs i with
      | Some prev, Some cur =>
          match wire_push wire (ar_lo prev -w ar_hi cur -w 2) with
          | None => None
          | Some wire1 => match wire_push wire1 (ar_hi cur -w ar_lo cur) with
                          | None => None
                          | Some wire2 => wire_loop k' (i + 1) rs wire2
                          end
          end
      | _, _ => None
      end
  end.

Section Dispatch.
(** What the uninitialised local [quic_ack_frame] holds. *)
Context (ack0 : quic_ack_frame).

Definition on_ack : handler := fun st frame len =>
  match quic_ack_decode ack0 frame len with
  | None => None
  | Some None => Some (false, st)
  | Some (Some (f, _)) =>
      match load (af_ranges f) 0 with
      | None => None
      | Some r0 =>
          match wire_loop (Z.to_nat (af_n_ranges f - 1)) 1 (af_ranges f) [ar_hi r0 -w ar_lo r0] with
          | None => None
          | Some wire =>
              match quic_ack_process (fd_sent st) (ar_hi r0) wire (zlen wire) with
              | None => None
              | Some (t, _) => Some (true, fd_set_acked st t (ar_hi r0))
              end
          end
      end
  end.

Definition on_max_data : handler := fun st frame len =>
  match quic_max_data_decode frame len with
  | None => None
  | Some None => Some (false, st)
  | Some (Some (f, _)) =>
      Some (true, fd_set_credit st (mk_fcredit (fc_consumed (fd_credit st)) (df_value f) (fc_window (fd_credit st))))
  end.

Definition on_close : handler := fun st _ _ => Some (true, fd_set_close st).
Definition on_noop : handler := fun st _ _ => Some (true, st).

(** The table; a kind without an entry, or past its end, has no handler. *)
Definition handlers (k : quic_frame_kind) : option handler :=
  match k with
  | QUIC_FK_PADDING | QUIC_FK_PING => Some on_noop
  | QUIC_FK_ACK => Some on_ack
  | QUIC_FK_STREAM => Some on_stream
  | QUIC_FK_MAX_DATA => Some on_max_data
  | QUIC_FK_CONNECTION_CLOSE => Some on_close
  | _ => None
  end.

Definition quic_framedispatch_ack_eliciting (frame_type : Z) : bool :=
  quic_frame_ack_eliciting (quic_frame_classify frame_type).

Definition quic_framedispatch_handle (st : quic_framedispatch_state) (frame_type : Z) (frame : list Z) (len : Z)
  : option (bool * quic_framedispatch_state) :=
  let k := quic_frame_classify frame_type in
  match handlers k with
  | None => Some (false, st)
  | Some h => h (fd_set_eliciting st k) frame len
  end.


End Dispatch.

(** * Acknowledgements *)





Section Payload.
Context (ack0 : quic_ack_frame) (Hack0 : zlen (af_ranges ack0) = QUIC_ACK_MAX_RANGES).


(** * Payloads

    What each frame does to the state; a CRYPTO or HANDSHAKE_DONE frame has no handler. *)






End Payload.













(** A MAX_DATA frame replaces the limit even when it is smaller: a reordered frame
    lowers it ([quic_flow_send_update_max] keeps the maximum). *)
Lemma max_data_can_lower ack0 st v post : is_varint v ->
  let bs := @fc_bytes quic_data_frame (data_codec QUIC_FRAME_MAX_DATA) (mk_data v) in
  zlen (bs ++ post) < max_object ->
  exists st', quic_framedispatch_handle ack0 st QUIC_FRAME_MAX_DATA (bs ++ post) (zlen (bs ++ post)) = Some (true, st') /\
    fc_max_data (fd_credit st') = v.
Proof.
  intros Hv bs Ho. unfold quic_framedispatch_handle.
  replace (quic_frame_classify QUIC_FRAME_MAX_DATA) with QUIC_FK_MAX_DATA by done. cbn [handlers]. unfold on_max_data.
  pose proof (@fc_decode_spec quic_data_frame (data_codec QUIC_FRAME_MAX_DATA) (data_laws QUIC_FRAME_MAX_DATA ltac:(closed_arith)) (mk_data v) post (zlen (bs ++ post)) Hv) as Hd.
  change (fc_decode (FrameCodec := data_codec QUIC_FRAME_MAX_DATA)) with quic_max_data_decode in Hd.
  assert (1 <= zlen bs) by (unfold bs, fc_bytes; rewrite zlen_cons; pose proof (zlen_nonneg (@fc_body quic_data_frame (data_codec QUIC_FRAME_MAX_DATA) (mk_data v))); lia).
  pose proof (zlen_nonneg post). fold bs in Hd. rewrite Hd by (rewrite ?zlen_app in *; lia). rewrite zlen_app. zdecide.
  eexists. split; [reflexivity|done].
Qed.
