(* ===== verification/Version.v ===== *)
(** QUIC versions: [transport/version/version] (version numbers, the
    version_information transport parameter, compatible negotiation, the client's
    reaction to Version Negotiation, version 2 packet types and Initial salts),
    [transport/version/versmgr] and [transport/version/vndrive]. *)
From S2P Require Import Prelude Buffers Varint Headers Packets Timing.

(** * version.c, availfilter.c, compat.c, compatnego.c, downgrade.c, switchrule.c, abandon.c

    A pointer with a count is the list of the entries. *)

Definition QUIC_VERSION_1 : Z := 0x00000001.
Definition QUIC_VERSION_2 : Z := 0x6b3343cf.

Definition quic_version_is_reserved (version : Z) : bool := Z.land version 0x0f0f0f0f =? 0x0a0a0a0a.
Definition quic_verinfo_is_usable (version : Z) : bool := negb (quic_version_is_reserved version).

Definition is_known (v : Z) : bool := (v =? QUIC_VERSION_1) || (v =? QUIC_VERSION_2).
Definition quic_version_compatible (a b : Z) : bool := if a =? b then is_known a else is_known a && is_known b.
Definition quic_version_compat_switch_ok (original negotiated : Z) : bool := quic_version_compatible original negotiated.
Definition quic_version_needs_retry (original negotiated : Z) : bool := negb (quic_version_compatible original negotiated).
Definition quic_version_downgrade_detected (client_chose server_reported : Z) : bool := negb (client_chose =? server_reported).
Definition quic_version_retry_reencode (from to : Z) : bool := negb (from =? to).
Definition quic_version_0rtt_keep (original negotiated : Z) : bool :=
  if original =? negotiated then true else quic_version_compatible original negotiated.

Definition supported (we_support : list Z) (v : Z) : bool := existsb (fun x => x =? v) we_support.
Definition usable (v : Z) (we_support : list Z) : bool := negb (quic_version_is_reserved v) && supported we_support v.
Definition quic_version_must_abandon (offered we_support : list Z) : bool :=
  negb (existsb (fun v => usable v we_support) offered).

(** ** v2types.c *)

Inductive quic_logical_type := QUIC_LT_INITIAL | QUIC_LT_0RTT | QUIC_LT_HANDSHAKE | QUIC_LT_RETRY | QUIC_LT_INVALID.

Definition lt_num (lt : quic_logical_type) : Z :=
  match lt with QUIC_LT_INITIAL => 0 | QUIC_LT_0RTT => 1 | QUIC_LT_HANDSHAKE => 2 | QUIC_LT_RETRY => 3 | QUIC_LT_INVALID => -1 end.
Definition lt_of (n : Z) : quic_logical_type :=
  match n with 0 => QUIC_LT_INITIAL | 1 => QUIC_LT_0RTT | 2 => QUIC_LT_HANDSHAKE | 3 => QUIC_LT_RETRY | _ => QUIC_LT_INVALID end.

Definition V2_WIRE : list Z := [1; 2; 3; 0].
Definition in_range (v : Z) : bool := (0 <=? v) && (v <? 4).
Definition quic_v1_packet_type (lt : quic_logical_type) : Z := if in_range (lt_num lt) then lt_num lt else -1.
Definition quic_v2_packet_type (lt : quic_logical_type) : Z :=
  if in_range (lt_num lt) then default (-1) (load V2_WIRE (lt_num lt)) else -1.
Definition quic_v1_logical_type (wire : Z) : quic_logical_type := if in_range wire then lt_of wire else QUIC_LT_INVALID.

(** [for (lt = 0; lt < 4; lt++) if (V2_WIRE[lt] == wire) return lt]. *)
Fixpoint v2_logical_loop (rows : list Z) (lt wire : Z) : quic_logical_type :=
  match rows with
  | [] => QUIC_LT_INVALID
  | w :: rows' => if w =? wire then lt_of lt else v2_logical_loop rows' (lt + 1) wire
  end.
Definition quic_v2_logical_type (wire : Z) : quic_logical_type := v2_logical_loop V2_WIRE 0 wire.

(** ** v2keys.c and v2switch.c *)

Definition QUIC_INITIAL_SALT_LEN : Z := 20.
Definition V1_SALT : list Z :=
  [0x38; 0x76; 0x2c; 0xf7; 0xf5; 0x59; 0x34; 0xb3; 0x4d; 0x17; 0x9a; 0xe6; 0xa4; 0xc8; 0x0c; 0xad; 0xcc; 0xbb; 0x7f; 0x0a].
Definition V2_SALT : list Z :=
  [0x0d; 0xed; 0xe3; 0xde; 0xf7; 0x00; 0xa6; 0xdb; 0x81; 0x93; 0x81; 0xbe; 0x6e; 0x26; 0x9d; 0xcb; 0xf9; 0xbd; 0x2e; 0xd9].
Definition salt_for (version : Z) : option (list Z) :=
  if version =? QUIC_VERSION_1 then Some V1_SALT else if version =? QUIC_VERSION_2 then Some V2_SALT else None.
(** The salt and its length. *)
Definition quic_version_initial_salt (version : Z) : option (list Z * Z) :=
  match salt_for version with None => None | Some s => Some (s, QUIC_INITIAL_SALT_LEN) end.
(** The characters of ["quic "] and ["quicv2 "], and the length. *)
Definition quic_version_label_prefix (version : Z) : option (list Z * Z) :=
  if version =? QUIC_VERSION_1 then Some ([0x71; 0x75; 0x69; 0x63; 0x20], 5)
  else if version =? QUIC_VERSION_2 then Some ([0x71; 0x75; 0x69; 0x63; 0x76; 0x32; 0x20], 7) else None.
Definition quic_vers_is_v2 (version : Z) : bool := version =? QUIC_VERSION_2.
Definition quic_vers_initial_salt (version : Z) := quic_version_initial_salt version.
Definition quic_vers_label_prefix (version : Z) := quic_version_label_prefix version.

(** ** verinfo.c: the value of the parameter *)

Definition QUIC_VI_MAX_AVAILABLE : Z := 16.

(** [vi_available] is the whole 16-entry array. *)
Record quic_version_information := mk_verinfo { vi_chosen : Z; vi_count : Z; vi_available : list Z }.

Definition encode_room (cap count n : Z) : bool := (count <=? QUIC_VI_MAX_AVAILABLE) && (n <=? cap).

Definition quic_verinfo_encode (vi : quic_version_information) (buf : list Z) (cap : Z) : option (Z * list Z) :=
  let n := 4 +w 4 *w vi_count vi in
  if negb (encode_room cap (vi_count vi) n) then Some (0, buf)
  else match store_bytes buf 0 (quic_put_be32 (vi_chosen vi)) with
       | None => None
       | Some buf1 => match put_versions (vi_available vi) (Z.to_nat (vi_count vi)) (buf1, 4) with
                      | None => None
                      | Some (buf2, _) => Some (n, buf2)
                      end
       end.

Definition rd_be32 (buf : list Z) (i : Z) : option Z := load_be32 buf i.
Definition decode_len_ok (n : Z) : bool := (4 <=? n) && (n mod 4 =? 0) && (n / 4 -w 1 <=? QUIC_VI_MAX_AVAILABLE).

(** [for (i = 0; i < count; i++) vi->available[i] = rd_be32(buf + off + 4 + 4 * i)], [k]
    rounds from [i] on. *)
Fixpoint read_available (k : nat) (buf : list Z) (off i : Z) (arr : list Z) : option (list Z) :=
  match k with
  | O => Some arr
  | S k' =>
      match rd_be32 buf (off + 4 + 4 * i) with
      | None => None
      | Some v => match store arr i v with
                  | None => None
                  | Some arr' => read_available k' buf off (i + 1) arr'
                  end
      end
  end.

(** [Some None]: returned 0; [vi] is what the structure held. *)
Definition quic_verinfo_decode (vi : quic_version_information) (buf : list Z) (n : Z)
  : option (option (quic_version_information * Z)) :=
  if negb (decode_len_ok n) then Some None
  else let count := n / 4 -w 1 in
       match rd_be32 buf 0 with
       | None => None
       | Some chosen => match read_available (Z.to_nat count) buf 0 0 (vi_available vi) with
                        | None => None
                        | Some arr => Some (Some (mk_verinfo chosen count arr, n))
                        end
       end.

(** ** verselect.c *)

Definition quic_verinfo_chosen_ok (chosen actual_packet_version : Z) : bool := chosen =? actual_packet_version.

(** The scan of the first [vi_count] entries of the array. *)
Definition peer_lists (vi : quic_version_information) (v : Z) : bool :=
  existsb (fun x => x =? v) (take (Z.to_nat (vi_count vi)) (vi_available vi)).
Definition selectable (vi : quic_version_information) (v : Z) : bool :=
  quic_verinfo_is_usable v && peer_lists vi v && quic_version_compatible (vi_chosen vi) v.

(** [for (...) if (p(l[i])) { *out = l[i]; return 1; } return 0;]. *)
Fixpoint first_such (p : Z -> bool) (l : list Z) : option Z :=
  match l with
  | [] => None
  | v :: l' => if p v then Some v else first_such p l'
  end.

Definition quic_verinfo_pick_compatible (vi : quic_version_information) (we_support : list Z) : option Z :=
  first_such (selectable vi) we_support.

(** ** version.c: the whole transport parameter *)

Definition QUIC_TP_VERSION_INFORMATION : Z := 0x11.
Record quic_version_info := mk_vinfo { v_chosen : Z; v_n_available : Z; v_available : list Z }.

Definition vi_value_len (vi : quic_version_info) : Z := 4 +w 4 *w v_n_available vi.

Definition version_put_versions (vi : quic_version_info) (buf : list Z) (off : Z) : option (list Z) :=
  match store_bytes buf off (quic_put_be32 (v_chosen vi)) with
  | None => None
  | Some buf1 => match put_versions (v_available vi) (Z.to_nat (v_n_available vi)) (buf1, off + 4) with
                 | None => None
                 | Some (buf2, _) => Some buf2
                 end
  end.

Definition put_vi_head (vi : quic_version_info) (vlen : Z) : wr :=
  if QUIC_VI_MAX_AVAILABLE <? v_n_available vi then wr_no
  else (quic_varint_put QUIC_TP_VERSION_INFORMATION ;;; quic_varint_put vlen).

Definition quic_version_info_encode (vi : quic_version_info) (buf : list Z) (cap : Z) : option (Z * list Z) :=
  let vlen := vi_value_len vi in
  match put_vi_head vi vlen cap (buf, 0) with
  | None => None
  | Some (false, (buf1, _)) => Some (0, buf1)
  | Some (true, (buf1, off)) =>
      if cap <? off +w vlen then Some (0, buf1)
      else match version_put_versions vi buf1 off with
           | None => None
           | Some buf2 => Some (off +w vlen, buf2)
           end
  end.

Definition version_rd_be32 (buf : list Z) (i : Z) : option Z := load_be32 buf i.
Definition vlen_ok (vlen : Z) : bool := (4 <=? vlen) && (vlen mod 4 =? 0).
Definition take_vi_id : rd unit := id <- quic_varint_take ;; rd_guard (id =? QUIC_TP_VERSION_INFORMATION).
Definition take_vi_head : rd Z :=
  _ <- take_vi_id ;; vlen <- quic_varint_take ;; _ <- rd_guard (vlen_ok vlen) ;; rd_ret vlen.

Definition read_versions (vi : quic_version_info) (buf : list Z) (off count : Z) : option quic_version_info :=
  match version_rd_be32 buf off with
  | None => None
  | Some chosen => match read_available (Z.to_nat count) buf off 0 (v_available vi) with
                   | None => None
                   | Some arr => Some (mk_vinfo chosen count arr)
                   end
  end.

Definition vi_fits (off vlen n : Z) : bool := (off +w vlen <=? n) && (vlen / 4 -w 1 <=? QUIC_VI_MAX_AVAILABLE).

Definition quic_version_info_decode (vi : quic_version_info) (buf : list Z) (n : Z)
  : option (option (quic_version_info * Z)) :=
  match take_vi_head buf n 0 with
  | None => None
  | Some (None, _) => Some None
  | Some (Some vlen, off) =>
      if negb (vi_fits off vlen n) then Some None
      else match read_versions vi buf off (vlen / 4 -w 1) with
           | None => None
           | Some vi' => Some (Some (vi', off +w vlen))
           end
  end.

(** ** vneg.c: the client's reaction *)

Inductive quic_vneg_phase := QUIC_VNEG_INITIAL | QUIC_VNEG_REACTED | QUIC_VNEG_CONFIRMED | QUIC_VNEG_ERROR.

#[export] Instance quic_vneg_phase_eq_dec : EqDecision quic_vneg_phase.
Proof. solve_decision. Defined.

(** [vn_supported] is the whole 16-entry array. *)
Record quic_vneg := mk_vn {
  vn_phase : quic_vneg_phase; vn_negotiated : Z; vn_reacted : Z; vn_supported : list Z; vn_n_supported : Z }.

Definition quic_vneg_init (v : quic_vneg) (supported : list Z) (n : Z) : option quic_vneg :=
  match copy_loop (Z.to_nat n) (vn_supported v) 0 supported 0 with
  | None => None
  | Some s => Some (mk_vn QUIC_VNEG_INITIAL 0 0 s n)
  end.

Definition list_has (list : list Z) (n version : Z) : bool := existsb (fun x => x =? version) (take (Z.to_nat n) list).
Definition quic_vneg_supports (v : quic_vneg) (version : Z) : bool := list_has (vn_supported v) (vn_n_supported v) version.

Definition downgrade_ok (vi : quic_version_info) (in_use : Z) : bool :=
  if negb (v_chosen vi =? in_use) || (v_n_available vi =? 0) then false
  else list_has (v_available vi) (v_n_available vi) (v_chosen vi).
Definition quic_vneg_check_downgrade (v : quic_vneg) (vi : quic_version_info) (in_use : Z) : bool * quic_vneg :=
  if downgrade_ok vi in_use then (true, v)
  else (false, mk_vn QUIC_VNEG_ERROR (vn_negotiated v) (vn_reacted v) (vn_supported v) (vn_n_supported v)).

Definition qualifies (v : quic_vneg) (original ver : Z) : bool := negb (ver =? original) && quic_vneg_supports v ver.
Definition pick_mutual (v : quic_vneg) (original : Z) (offered : list Z) : option Z :=
  first_such (qualifies v original) offered.
Definition may_react (v : quic_vneg) (original : Z) (offered : list Z) : bool :=
  (vn_reacted v =? 0) && negb (list_has offered (zlen offered) original).
(** [Some chosen]: returned 1. *)
Definition quic_vneg_react (v : quic_vneg) (original : Z) (offered : list Z) : option Z * quic_vneg :=
  if negb (may_react v original offered) then (None, v)
  else match pick_mutual v original offered with
       | None => (None, v)
       | Some c => (Some c, mk_vn QUIC_VNEG_REACTED (vn_negotiated v) 1 (vn_supported v) (vn_n_supported v))
       end.
Definition quic_vneg_confirm (v : quic_vneg) (version : Z) : quic_vneg :=
  if bool_decide (vn_phase v = QUIC_VNEG_ERROR) then v
  else mk_vn QUIC_VNEG_CONFIRMED version (vn_reacted v) (vn_supported v) (vn_n_supported v).

(** * versmgr *)

Definition QUIC_VERS_MAX : Z := 16.
Record quic_vers_set := mk_vset { vs_n : Z; vs_versions : list Z }.

Definition quic_vers_init (s : quic_vers_set) : option quic_vers_set :=
  match store_bytes (vs_versions s) 0 [QUIC_VERSION_2; QUIC_VERSION_1] with
  | None => None
  | Some l => Some (mk_vset 2 l)
  end.

Definition in_list (list : list Z) (v : Z) : bool := existsb (fun x => x =? v) list.
Definition quic_vers_supports (s : quic_vers_set) (version : Z) : bool :=
  in_list (take (Z.to_nat (vs_n s)) (vs_versions s)) version.
Definition quic_vers_choose_compatible (s : quic_vers_set) (peer_versions : list Z) : option Z :=
  first_such (in_list peer_versions) (take (Z.to_nat (vs_n s)) (vs_versions s)).

Definition scan_step (v negotiated : Z) : Z :=
  if v =? negotiated then 0 else if quic_verinfo_is_usable v then -1 else 1.
Fixpoint quic_vers_no_downgrade (negotiated : Z) (server_available : list Z) : bool :=
  match server_available with
  | [] => false
  | v :: l => let step := scan_step v negotiated in if step <=? 0 then step =? 0 else quic_vers_no_downgrade negotiated l
  end.

(** * vndrive *)

Definition quic_vndrive_accept (handshake_complete : bool) (sent_version : Z) (offered : list Z) : bool :=
  if handshake_complete then false else negb (quic_u32_in sent_version offered).
Definition QUIC_VNDRIVE_MAX_RETRY : Z := 1.
Definition within_budget (chosen_version vn_retry_count : Z) : bool :=
  negb (chosen_version =? 0) && (vn_retry_count <? QUIC_VNDRIVE_MAX_RETRY).
Definition quic_vndrive_should_retry (chosen_version vn_retry_count : Z) : bool :=
  within_budget chosen_version vn_retry_count.
Definition quic_vndrive_select (offered supported : list Z) : option Z :=
  first_such (fun v => quic_u32_in v offered) supported.

(** * The version_information parameter on the wire *)

Definition versions_bytes (chosen : Z) (vs : list Z) : list Z := be_bytes 4 chosen ++ concat (map (be_bytes 4) vs).
Definition vinfo_bytes (chosen : Z) (vs : list Z) : list Z :=
  varint_bytes QUIC_TP_VERSION_INFORMATION ++ varint_bytes (4 + 4 * zlen vs) ++ versions_bytes chosen vs.

Lemma zlen_versions_bytes c vs : zlen (versions_bytes c vs) = 4 + 4 * zlen vs.
Proof. unfold versions_bytes. rewrite zlen_app, zlen_be_bytes, zlen_versions. lia. Qed.

Lemma read_available_spec vs : forall pre post off i arr,
  zlen pre = off + 4 + 4 * i -> 0 <= i -> i + zlen vs <= zlen arr -> Forall is_u32 vs ->
  read_available (length vs) (pre ++ concat (map (be_bytes 4) vs) ++ post) off i arr = Some (splice arr i vs).
Proof.
  induction vs as [|v vs IH]; intros pre post off i arr Hp Hi Hl Hu; cbn [length read_available].
  - by rewrite splice_nil.
  - apply Forall_cons_iff in Hu as [Hv Hu]. rewrite zlen_cons in Hl. pose proof (zlen_nonneg vs).
    cbn [map concat]. rewrite <- Hp. unfold rd_be32. rewrite <- app_assoc, load_be32_spec by done.
    rewrite store_ok by lia. rewrite app_assoc, (IH (pre ++ be_bytes 4 v)); [|rewrite zlen_app, zlen_be_bytes; lia|lia| |done].
    + f_equal. apply splice_cons; lia.
    + rewrite zlen_insert. lia.
Qed.

Lemma put_versions_take vs arr : take (length vs) arr = vs ->
  forall st, put_versions vs (length vs) st = put_versions arr (length vs) st.
Proof.
  revert arr; induction vs as [|v vs IH]; intros [|a arr] E st; try done. cbn [length take] in E. injection E as -> E.
  cbn [put_versions length]. destruct (store_bytes _ _ _); [|done]. by apply IH.
Qed.

(** A structure that holds the version [c] and the list [vs]. *)
Definition holds_versions (chosen count : Z) (arr : list Z) (c : Z) (vs : list Z) : Prop :=
  chosen = c /\ count = zlen vs /\ take (length vs) arr = vs.

Section Wire.
Context (c : Z) (vs : list Z) (Hc : is_u32 c) (Hvs : Forall is_u32 vs) (Hn : zlen vs <= QUIC_VI_MAX_AVAILABLE).
Context (arr : list Z) (Harr : take (length vs) arr = vs).

Lemma put_versions_array buf off : 0 <= off -> off + 4 * zlen vs <= zlen buf -> zlen buf < max_object ->
  put_versions arr (length vs) (buf, off) =
  Some (splice buf off (concat (map (be_bytes 4) vs)), off + 4 * zlen vs).
Proof using Harr.
  intros Hoff Hfit Ho. rewrite <- (put_versions_take vs arr Harr), put_versions_spec by (rewrite ?zlen_versions; lia).
  rewrite zlen_versions. do 2 f_equal. lia.
Qed.

Lemma verinfo_encode_spec buf cap : 0 <= cap <= zlen buf -> zlen buf < max_object ->
  quic_verinfo_encode (mk_verinfo c (zlen vs) arr) buf cap =
  Some (if zlen (versions_bytes c vs) <=? cap
        then (zlen (versions_bytes c vs), splice buf 0 (versions_bytes c vs)) else (0, buf)).
Proof using Hn Harr.
  intros Hcap Ho. unfold quic_verinfo_encode, encode_room. cbn [vi_count vi_chosen vi_available].
  unfold QUIC_VI_MAX_AVAILABLE in *. pose proof (zlen_nonneg vs).
  rewrite (u64_id (4 * zlen vs)), u64_id by (unfold is_u64; lia). rewrite zlen_versions_bytes. zdecide. cbn [andb].
  destruct (Z.leb_spec (4 + 4 * zlen vs) cap); cbn [negb]; [|done].
  rewrite put_be32_bytes, store_bytes_spec by (rewrite ?zlen_be_bytes; lia).
  replace (Z.to_nat (zlen vs)) with (length vs) by (unfold zlen; lia).
  rewrite put_versions_array by (rewrite ?zlen_splice; rewrite ?zlen_be_bytes; lia).
  pose proof (splice_splice buf (be_bytes 4 c) (concat (map (be_bytes 4) vs)) 0) as S.
  rewrite zlen_be_bytes, zlen_versions in S. change (0 + Z.of_nat 4) with 4 in S. rewrite S by lia. done.
Qed.

Lemma version_info_encode_spec buf cap : 0 <= cap <= zlen buf -> zlen buf < max_object ->
  if zlen (vinfo_bytes c vs) <=? cap
  then quic_version_info_encode (mk_vinfo c (zlen vs) arr) buf cap =
         Some (zlen (vinfo_bytes c vs), splice buf 0 (vinfo_bytes c vs))
  else exists buf', quic_version_info_encode (mk_vinfo c (zlen vs) arr) buf cap = Some (0, buf') /\ zlen buf' = zlen buf.
Proof using Hn Harr.
  intros Hcap Ho. unfold quic_version_info_encode, put_vi_head, vi_value_len. cbn [v_n_available].
  unfold QUIC_VI_MAX_AVAILABLE in *. pose proof (zlen_nonneg vs). zdecide.
  rewrite (u64_id (4 * zlen vs)), (u64_id (4 + _)) by (unfold is_u64; lia).
  set (head := varint_bytes QUIC_TP_VERSION_INFORMATION ++ varint_bytes (4 + 4 * zlen vs)).
  assert (Hw : Writes (quic_varint_put QUIC_TP_VERSION_INFORMATION ;;; quic_varint_put (4 + 4 * zlen vs)) head)
    by (apply writes_seq; apply writes_varint; unfold is_varint, QUIC_TP_VERSION_INFORMATION, QUIC_VARINT_MAX; lia).
  assert (Hb : vinfo_bytes c vs = head ++ versions_bytes c vs) by (unfold vinfo_bytes, head; by rewrite app_assoc).
  rewrite Hb, zlen_app, zlen_versions_bytes. pose proof (zlen_nonneg head).
  specialize (Hw cap buf 0 ltac:(lia) ltac:(lia) ltac:(lia)). rewrite Z.add_0_l in Hw.
  destruct (Z.leb_spec (zlen head) cap).
  2: { zdecide. destruct Hw as (buf' & off' & -> & Hl & _). by exists buf'. }
  rewrite Hw. rewrite u64_id by (unfold is_u64, max_object in *; lia).
  destruct (Z.leb_spec (zlen head + (4 + 4 * zlen vs)) cap); zdecide.
  2: { eexists. split; [reflexivity|]. rewrite zlen_splice; lia. }
  unfold version_put_versions. cbn [v_chosen v_available v_n_available].
  rewrite put_be32_bytes, store_bytes_spec by (rewrite ?zlen_splice, ?zlen_be_bytes; lia).
  replace (Z.to_nat (zlen vs)) with (length vs) by (unfold zlen; lia).
  rewrite put_versions_array by (rewrite ?zlen_splice; rewrite ?zlen_be_bytes, ?zlen_splice; lia).
  pose proof (splice_splice buf head (be_bytes 4 c) 0) as S1. rewrite zlen_be_bytes, Z.add_0_l in S1. rewrite S1 by lia.
  pose proof (splice_splice buf (head ++ be_bytes 4 c) (concat (map (be_bytes 4) vs)) 0) as S2.
  rewrite zlen_app, zlen_be_bytes, zlen_versions, Z.add_0_l in S2. change (Z.of_nat 4) with 4 in S2. rewrite S2 by lia.
  unfold versions_bytes. by rewrite <- app_assoc.
Qed.
End Wire.

Section WireDecode.
Context (c : Z) (vs : list Z) (Hc : is_u32 c) (Hvs : Forall is_u32 vs) (Hn : zlen vs <= QUIC_VI_MAX_AVAILABLE).

(** Reading the versions back from behind [pre]. *)
Lemma read_versions_back pre post arr0 :
  zlen arr0 = QUIC_VI_MAX_AVAILABLE ->
  load_be32 (pre ++ versions_bytes c vs ++ post) (zlen pre) = Some c /\
  read_available (length vs) (pre ++ versions_bytes c vs ++ post) (zlen pre) 0 arr0 = Some (splice arr0 0 vs).
Proof using Hc Hvs Hn.
  intros Ha. unfold versions_bytes. rewrite <- app_assoc. split; [by apply load_be32_spec|].
  rewrite app_assoc. apply read_available_spec; [rewrite zlen_app, zlen_be_bytes; lia|lia|lia|done].
Qed.

Lemma count_back : (4 + 4 * zlen vs) / 4 -w 1 = zlen vs /\ (4 + 4 * zlen vs) mod 4 = 0.
Proof using Hn.
  unfold QUIC_VI_MAX_AVAILABLE in Hn. pose proof (zlen_nonneg vs).
  replace (4 + 4 * zlen vs) with ((1 + zlen vs) * 4) by lia. rewrite Z.div_mul, Z.mod_mul by lia.
  split; [|done]. rewrite u64_id by (unfold is_u64; lia). lia.
Qed.

Lemma verinfo_decode_spec vi0 post : zlen (vi_available vi0) = QUIC_VI_MAX_AVAILABLE ->
  quic_verinfo_decode vi0 (versions_bytes c vs ++ post) (zlen (versions_bytes c vs)) =
  Some (Some (mk_verinfo c (zlen vs) (splice (vi_available vi0) 0 vs), zlen (versions_bytes c vs))).
Proof using Hc Hvs Hn.
  intros Ha. destruct count_back as [Hd Hm]. destruct (read_versions_back [] post _ Ha) as [Hl Hr].
  rewrite zlen_nil in Hl, Hr. cbn [app] in Hl, Hr. unfold quic_verinfo_decode, decode_len_ok, rd_be32.
  rewrite zlen_versions_bytes, Hd, Hm, Hl. replace (Z.to_nat (zlen vs)) with (length vs) by (unfold zlen; lia). rewrite Hr.
  unfold QUIC_VI_MAX_AVAILABLE in *. pose proof (zlen_nonneg vs). zdecide. done.
Qed.

Lemma reads_vi_head :
  Reads take_vi_head (varint_bytes QUIC_TP_VERSION_INFORMATION ++ varint_bytes (4 + 4 * zlen vs)) (4 + 4 * zlen vs).
Proof using Hn.
  unfold QUIC_VI_MAX_AVAILABLE in Hn. pose proof (zlen_nonneg vs).
  assert (is_varint (4 + 4 * zlen vs)) by (unfold is_varint, QUIC_VARINT_MAX; lia).
  unfold take_vi_head, take_vi_id. eapply reads_bind.
  - eapply reads_bind_last; [apply reads_varint; closed_arith|]. by apply reads_guard.
  - cbv beta. eapply reads_bind_last; [by apply reads_varint|]. cbv beta. apply reads_guard_then.
    + unfold vlen_ok. destruct count_back as [_ ->]. zdecide. done.
    + apply reads_ret.
Qed.

Lemma version_info_decode_spec vi0 post n : zlen (v_available vi0) = QUIC_VI_MAX_AVAILABLE ->
  0 <= n <= zlen (vinfo_bytes c vs ++ post) -> n < max_object ->
  quic_version_info_decode vi0 (vinfo_bytes c vs ++ post) n =
  Some (if zlen (vinfo_bytes c vs) <=? n
        then Some (mk_vinfo c (zlen vs) (splice (v_available vi0) 0 vs), zlen (vinfo_bytes c vs)) else None).
Proof using Hc Hvs Hn.
  intros Ha Hr Ho. unfold quic_version_info_decode.
  set (head := varint_bytes QUIC_TP_VERSION_INFORMATION ++ varint_bytes (4 + 4 * zlen vs)) in *.
  assert (Hb : vinfo_bytes c vs = head ++ versions_bytes c vs) by (unfold vinfo_bytes, head; by rewrite app_assoc).
  rewrite Hb in *. rewrite <- app_assoc in *.
  pose proof (reads_vi_head [] (versions_bytes c vs ++ post) n ltac:(rewrite zlen_nil; lia) (proj2 Hr) Ho) as Hh.
  rewrite zlen_nil, Z.add_0_l in Hh. cbn [app] in Hh. fold head in Hh. rewrite !zlen_app, zlen_versions_bytes in *.
  pose proof (zlen_nonneg vs). pose proof (zlen_nonneg head). pose proof (zlen_nonneg post).
  destruct (Z.leb_spec (zlen head) n); [|destruct Hh as [off' ->]; by zdecide]. rewrite Hh.
  destruct count_back as [Hd _]. unfold vi_fits. rewrite Hd, u64_id by (unfold is_u64, max_object, QUIC_VI_MAX_AVAILABLE in *; lia).
  destruct (Z.leb_spec (zlen head + (4 + 4 * zlen vs)) n); cbn [andb negb]; [|done]. zdecide. cbn [negb].
  destruct (read_versions_back head post _ Ha) as [Hl Hrd]. unfold read_versions, version_rd_be32. rewrite Hl.
  replace (Z.to_nat (zlen vs)) with (length vs) by (unfold zlen; lia). by rewrite Hrd.
Qed.
End WireDecode.

(** Version information survives the wire.  For a chosen version and up to 16
    available versions, in a structure whose array has any other entries after them: the
    whole parameter is written when it fits (otherwise the encoder returns 0), and decoded,
    into a structure that held anything, as the same chosen version, count and list,
    consuming exactly the bytes written; every truncation is refused.  The value alone, as
    [quic_verinfo_encode] writes it, is the tail of that encoding, and
    [quic_verinfo_decode] reads it back. *)
Theorem version_info_roundtrip c vs arr buf cap vi0 wi0 post n
  (Hc : is_u32 c) (Hvs : Forall is_u32 vs) (Hn : zlen vs <= QUIC_VI_MAX_AVAILABLE) (Harr : take (length vs) arr = vs)
  (Hcap : 0 <= cap <= zlen buf) (Ho : zlen buf < max_object)
  (Hv0 : zlen (v_available vi0) = QUIC_VI_MAX_AVAILABLE) (Hw0 : zlen (vi_available wi0) = QUIC_VI_MAX_AVAILABLE)
  (Hr : 0 <= n <= zlen (vinfo_bytes c vs ++ post)) (Hm : n < max_object) :
  (if zlen (vinfo_bytes c vs) <=? cap
   then quic_version_info_encode (mk_vinfo c (zlen vs) arr) buf cap =
          Some (zlen (vinfo_bytes c vs), splice buf 0 (vinfo_bytes c vs))
   else exists buf', quic_version_info_encode (mk_vinfo c (zlen vs) arr) buf cap = Some (0, buf') /\ zlen buf' = zlen buf) /\
  (n < zlen (vinfo_bytes c vs) -> quic_version_info_decode vi0 (vinfo_bytes c vs ++ post) n = Some None) /\
  (zlen (vinfo_bytes c vs) <= n -> exists vi,
     quic_version_info_decode vi0 (vinfo_bytes c vs ++ post) n = Some (Some (vi, zlen (vinfo_bytes c vs))) /\
     holds_versions (v_chosen vi) (v_n_available vi) (v_available vi) c vs) /\
  quic_verinfo_encode (mk_verinfo c (zlen vs) arr) buf cap =
    Some (if zlen (versions_bytes c vs) <=? cap
          then (zlen (versions_bytes c vs), splice buf 0 (versions_bytes c vs)) else (0, buf)) /\
  exists wi, quic_verinfo_decode wi0 (versions_bytes c vs ++ post) (zlen (versions_bytes c vs)) =
               Some (Some (wi, zlen (versions_bytes c vs))) /\
             holds_versions (vi_chosen wi) (vi_count wi) (vi_available wi) c vs.
Proof.
  split_and!.
  - by apply version_info_encode_spec.
  - intros Hlt. rewrite version_info_decode_spec by done. by zdecide.
  - intros Hle. rewrite version_info_decode_spec by done. zdecide. eexists. split; [reflexivity|].
    split_and!; [done|done|]. apply take_splice_0.
  - by apply verinfo_encode_spec.
  - rewrite verinfo_decode_spec by done. eexists. split; [reflexivity|]. split_and!; [done|done|]. apply take_splice_0.
Qed.

(** Witness: version 2 chosen, both versions available. *)
Lemma version_info_roundtrip_witness :
  exists vi, quic_version_info_decode (mk_vinfo 0 9 (repeat 7 16))
      (vinfo_bytes QUIC_VERSION_2 [QUIC_VERSION_2; QUIC_VERSION_1] ++ [9]) 14 = Some (Some (vi, 14)) /\
    holds_versions (v_chosen vi) (v_n_available vi) (v_available vi) QUIC_VERSION_2 [QUIC_VERSION_2; QUIC_VERSION_1].
Proof.
  destruct (version_info_roundtrip QUIC_VERSION_2 [QUIC_VERSION_2; QUIC_VERSION_1] [QUIC_VERSION_2; QUIC_VERSION_1; 5]
    (repeat 0 20) 20 (mk_vinfo 0 9 (repeat 7 16)) (mk_verinfo 0 9 (repeat 7 16)) [9] 14) as (_ & _ & H & _);
    [closed_arith| |closed_arith|reflexivity|closed_arith|closed_arith|reflexivity|reflexivity|closed_arith|closed_arith|].
  - repeat apply List.Forall_cons; [closed_arith..|apply List.Forall_nil].
  - apply H. closed_arith.
Defined.

(** * Choosing a version *)

(** [v] is the first entry of [l] with [P]. *)
Definition first_with (P : Z -> Prop) (l : list Z) (v : Z) : Prop :=
  exists pre post, l = pre ++ v :: post /\ P v /\ Forall (fun x => ~ P x) pre.

Lemma first_such_spec p (P : Z -> Prop) l : (forall v, p v = true <-> P v) ->
  match first_such p l with
  | Some v => first_with P l v
  | None => Forall (fun x => ~ P x) l
  end.
Proof.
  intros Hp. induction l as [|x l IH]; cbn [first_such]; [constructor|].
  destruct (p x) eqn:E.
  - exists [], l. split_and!; [done|by apply Hp|constructor].
  - assert (Hx : ~ P x) by (rewrite <- Hp, E; done). destruct (first_such p l) as [v|].
    + destruct IH as (pre & post & -> & Hv & Hpre). exists (x :: pre), post. split_and!; [done|done|by constructor].
    + by constructor.
Qed.

Lemma existsb_In l v : existsb (fun x => x =? v) l = true <-> In v l.
Proof.
  rewrite existsb_exists. split; [intros (x & Hx & ->%Z.eqb_eq); done|intros Hv; exists v; by rewrite Z.eqb_refl].
Qed.

Lemma known_usable v : is_known v = true -> quic_verinfo_is_usable v = true.
Proof. unfold is_known. intros [->%Z.eqb_eq| ->%Z.eqb_eq]%orb_true_iff; reflexivity. Qed.

Lemma selectable_spec vi v : selectable vi v = true <->
  In v (take (Z.to_nat (vi_count vi)) (vi_available vi)) /\ is_known (vi_chosen vi) = true /\ is_known v = true.
Proof.
  unfold selectable, peer_lists. rewrite !andb_true_iff, existsb_In.
  assert (Hc : quic_version_compatible (vi_chosen vi) v = true <-> is_known (vi_chosen vi) = true /\ is_known v = true).
  { unfold quic_version_compatible. destruct (Z.eqb_spec (vi_chosen vi) v) as [->|]; [tauto|apply andb_true_iff]. }
  rewrite Hc. split; [tauto|]. intros (H1 & H2 & H3). split_and!; try done. by apply known_usable.
Qed.

Lemma no_downgrade_spec negotiated l : quic_vers_no_downgrade negotiated l = true <->
  exists pre post, l = pre ++ negotiated :: post /\ Forall (fun x => quic_version_is_reserved x = true) pre.
Proof.
  induction l as [|v l IH]; cbn [quic_vers_no_downgrade].
  { split; [done|]. intros ([|] & ? & ? & _); done. }
  unfold scan_step, quic_verinfo_is_usable. destruct (Z.eqb_spec v negotiated) as [->|Hne].
  { split; [|done]. intros _. exists [], l. split; [done|constructor]. }
  destruct (quic_version_is_reserved v) eqn:E; cbn [negb].
  - change (1 <=? 0) with false. cbv iota. rewrite IH. split.
    + intros (pre & post & -> & Hp). exists (v :: pre), post. split; [done|by constructor].
    + intros ([|x pre] & post & [= -> ->] & Hp); [done|]. apply Forall_cons_iff in Hp as [_ Hp]. by exists pre, post.
  - change (-1 <=? 0) with true. cbv iota. split; [done|].
    intros ([|x pre] & post & [= -> ->] & Hp); [done|]. apply Forall_cons_iff in Hp as [Hx _]. congruence.
Qed.

(** Versions are chosen by preference and nothing else.  From a peer's version
    information the pick is the first entry of our list that the peer lists, when both it and
    the peer's chosen version are versions 1 or 2, and there is a pick whenever there is such
    an entry.  The two selections from an offered list agree on this: the first of our
    versions that is offered; and a list without reserved entries is to be abandoned exactly
    when that selection finds nothing.  The downgrade check passes exactly when the negotiated
    version is listed by the server with only reserved versions before it.  Packet types of
    both versions are mapped to the wire and back without loss. *)
Theorem version_selection vi ours offered s negotiated :
  (match quic_verinfo_pick_compatible vi ours with
   | Some v => first_with (fun v => In v (take (Z.to_nat (vi_count vi)) (vi_available vi)) /\
                 is_known (vi_chosen vi) = true /\ is_known v = true) ours v
   | None => Forall (fun v => ~ (In v (take (Z.to_nat (vi_count vi)) (vi_available vi)) /\
                 is_known (vi_chosen vi) = true /\ is_known v = true)) ours
   end) /\
  (match quic_vndrive_select offered ours with
   | Some v => first_with (fun v => In v offered) ours v
   | None => Forall (fun v => ~ In v offered) ours
   end) /\
  quic_vers_choose_compatible s offered = quic_vndrive_select offered (take (Z.to_nat (vs_n s)) (vs_versions s)) /\
  (Forall (fun v => quic_version_is_reserved v = false) ours ->
     quic_version_must_abandon offered ours = bool_decide (quic_vndrive_select offered ours = None)) /\
  (quic_vers_no_downgrade negotiated offered = true <->
     exists pre post, offered = pre ++ negotiated :: post /\ Forall (fun x => quic_version_is_reserved x = true) pre) /\
  (forall t, quic_v1_logical_type (quic_v1_packet_type t) = t /\ quic_v2_logical_type (quic_v2_packet_type t) = t).
Proof.
  split_and!.
  - apply first_such_spec. intros v. apply selectable_spec.
  - apply first_such_spec. intros v. apply existsb_In.
  - done.
  - intros Hr. unfold quic_version_must_abandon. apply eq_true_iff_eq. rewrite negb_true_iff, bool_decide_eq_true.
    pose proof (first_such_spec (fun v => quic_u32_in v offered) (fun v => In v offered) ours (fun v => existsb_In offered v)) as Hs.
    unfold quic_vndrive_select. rewrite List.Forall_forall in Hr. split.
    + intros Hx. destruct (first_such _ ours) as [v|]; [|done]. destruct Hs as (pre & post & -> & Hv & _). exfalso.
      assert (existsb (fun x => usable x (pre ++ v :: post)) offered = true) as Ht; [|congruence].
      apply existsb_exists. exists v. split; [done|]. unfold usable, supported. rewrite Hr by (apply in_or_app; right; by left).
      cbn. apply existsb_In, in_or_app. right. by left.
    + intros E. rewrite E in Hs. apply not_true_iff_false. rewrite existsb_exists. intros (v & Hv & [_ Hu]%andb_true_iff).
      apply existsb_In in Hu. rewrite List.Forall_forall in Hs. by apply (Hs v Hu).
  - apply no_downgrade_spec.
  - intros []; split; reflexivity.
Qed.

(** * The reaction to Version Negotiation over a connection attempt *)

Inductive vn_event := VnPacket (original : Z) (offered : list Z) | VnCheck (vi : quic_version_info) (in_use : Z) | VnConfirm (version : Z).

(** The state after the events and the versions chosen by reactions. *)
Fixpoint vn_run (v : quic_vneg) (evs : list vn_event) : quic_vneg * list Z :=
  match evs with
  | [] => (v, [])
  | VnPacket o l :: evs' =>
      let (r, v1) := quic_vneg_react v o l in
      let (v2, cs) := vn_run v1 evs' in (v2, match r with Some c => c :: cs | None => cs end)
  | VnCheck vi u :: evs' => vn_run (snd (quic_vneg_check_downgrade v vi u)) evs'
  | VnConfirm x :: evs' => vn_run (quic_vneg_confirm v x) evs'
  end.

Lemma vn_reacted_final evs : forall v, vn_reacted v <> 0 ->
  snd (vn_run v evs) = [] /\
  (vn_phase v = QUIC_VNEG_ERROR ->
   vn_phase (fst (vn_run v evs)) = QUIC_VNEG_ERROR /\ vn_negotiated (fst (vn_run v evs)) = vn_negotiated v).
Proof.
  induction evs as [|[o l|vi u|x] evs IH]; intros v Hv; cbn [vn_run]; [done|..].
  - unfold quic_vneg_react, may_react. rewrite (proj2 (Z.eqb_neq _ _) Hv). cbn [andb negb].
    specialize (IH v Hv). by destruct (vn_run v evs).
  - unfold quic_vneg_check_downgrade. destruct (downgrade_ok vi u); cbn [snd]; [by apply IH|].
    destruct (IH (mk_vn QUIC_VNEG_ERROR (vn_negotiated v) (vn_reacted v) (vn_supported v) (vn_n_supported v)) Hv) as [H1 H2].
    split; [done|]. intros _. by apply H2.
  - unfold quic_vneg_confirm. case_bool_decide; [by apply IH|].
    destruct (IH (mk_vn QUIC_VNEG_CONFIRMED x (vn_reacted v) (vn_supported v) (vn_n_supported v)) Hv) as [H1 _]. by split.
Qed.

Lemma vn_react_chosen v o l c v1 : quic_vneg_react v o l = (Some c, v1) ->
  In c l /\ c <> o /\ In c (take (Z.to_nat (vn_n_supported v)) (vn_supported v)) /\ ~ In o l /\ vn_reacted v1 = 1.
Proof.
  unfold quic_vneg_react, may_react, pick_mutual. destruct (vn_reacted v =? 0); cbn [andb negb]; [|done].
  destruct (list_has l (zlen l) o) eqn:E; cbn [negb]; [done|].
  pose proof (first_such_spec (qualifies v o) (fun x => x <> o /\ In x (take (Z.to_nat (vn_n_supported v)) (vn_supported v))) l) as Hs.
  destruct (first_such _ l) as [x|]; [|done]. intros [= -> <-].
  destruct Hs as (pre & post & -> & [H1 H2] & _).
  { intros y. unfold qualifies, quic_vneg_supports, list_has. by rewrite andb_true_iff, negb_true_iff, Z.eqb_neq, existsb_In. }
  split_and!; [apply in_or_app; right; by left|done|done| |done].
  apply not_true_iff_false in E. intros Hin. apply E. unfold list_has, zlen. rewrite Nat2Z.id, firstn_all. by apply existsb_In.
Qed.

(** A client reacts to Version Negotiation at most once and never to a downgrade.
    Over any sequence of Version Negotiation packets, version information checks and
    confirmations, at most one reaction succeeds; the version it picks was offered, is one we
    support and is not the original, whose presence in the offer makes the packet ignored;
    and once a client that has reacted has found a downgrade, nothing confirms a version any
    more. *)
Theorem vneg_reacts_once v evs :
  (length (snd (vn_run v evs)) <= 1)%nat /\
  (vn_reacted v <> 0 -> vn_phase v = QUIC_VNEG_ERROR ->
     vn_phase (fst (vn_run v evs)) = QUIC_VNEG_ERROR /\ vn_negotiated (fst (vn_run v evs)) = vn_negotiated v) /\
  (forall o l c v1, quic_vneg_react v o l = (Some c, v1) ->
     In c l /\ c <> o /\ In c (take (Z.to_nat (vn_n_supported v)) (vn_supported v)) /\ ~ In o l /\ vn_reacted v1 = 1).
Proof.
  split_and!; [|intros H1 H2; by apply vn_reacted_final|intros o l c v1; apply vn_react_chosen].
  revert v. induction evs as [|[o l|vi u|x] evs IH]; intros v; cbn [vn_run]; [cbn; lia| |apply IH|apply IH].
  destruct (quic_vneg_react v o l) as [[c|] v1] eqn:E.
  - assert (Hr : vn_reacted v1 <> 0) by (apply vn_react_chosen in E as (_ & _ & _ & _ & ->); lia).
    pose proof (proj1 (vn_reacted_final evs v1 Hr)) as Hn. destruct (vn_run v1 evs). cbn in *. subst. done.
  - specialize (IH v1). by destruct (vn_run v1 evs).
Qed.

(** A Version Negotiation packet that arrives after a detected downgrade makes the client
    forget it: the phase leaves ERROR, and a version can be confirmed. *)
Example vneg_error_forgotten :
  let v0 := mk_vn QUIC_VNEG_ERROR 0 0 [QUIC_VERSION_1; QUIC_VERSION_2] 2 in
  vn_phase (fst (vn_run v0 [VnPacket QUIC_VERSION_2 [QUIC_VERSION_1]; VnConfirm QUIC_VERSION_1])) = QUIC_VNEG_CONFIRMED.
Proof. reflexivity. Qed.

(** Confirming twice replaces the negotiated version. *)
Example vneg_confirm_again :
  let v0 := mk_vn QUIC_VNEG_INITIAL 0 0 [QUIC_VERSION_1; QUIC_VERSION_2] 2 in
  vn_negotiated (fst (vn_run v0 [VnConfirm QUIC_VERSION_1; VnConfirm QUIC_VERSION_2])) = QUIC_VERSION_2.
Proof. reflexivity. Qed.
