(* ===== verification/Streams.v ===== *)
(** Streams: the table-driven state machine [transport/conn/lifecycle/fsm/fsm.c],
    the sending and receiving halves of a stream [data/stream/stream.c] and
    [bidi.c], stream identifiers, limits and roles ([stream_id.c],
    [stream_limit.c], [stream_role.c]) and the STREAM frame builder
    [data/appdata/stream_send.c].

    For each machine the theorems give the language of event sequences that lead
    to each state, so they say which events were accepted, how often and in which
    order, for every run. *)
From S2P Require Import Prelude Buffers Varint Codec Frames.

(** * fsm.c *)

Record quic_fsm_row := mk_row { row_from : Z; row_ev : Z; row_to : Z }.

Definition QUIC_FSM_NONE : Z := 0xFF.

Definition row_matches (r : quic_fsm_row) (from ev : Z) : bool :=
  (row_from r =? from) && (row_ev r =? ev).

Fixpoint fsm_lookup (rows : list quic_fsm_row) (from ev : Z) : Z :=
  match rows with
  | [] => QUIC_FSM_NONE
  | r :: rows' => if row_matches r from ev then row_to r else fsm_lookup rows' from ev
  end.

Definition quic_fsm_step (state : Z) (rows : list quic_fsm_row) (ev : Z) : bool * Z :=
  let to := fsm_lookup rows state ev in
  if to =? QUIC_FSM_NONE then (false, state) else (true, to).

(** * stream.c *)

Inductive quic_send_state :=
| QUIC_SEND_READY | QUIC_SEND_SEND | QUIC_SEND_DATA_SENT | QUIC_SEND_DATA_RECVD
| QUIC_SEND_RESET_SENT | QUIC_SEND_RESET_RECVD.

Inductive quic_recv_state :=
| QUIC_RECV_RECV | QUIC_RECV_SIZE_KNOWN | QUIC_RECV_DATA_RECVD | QUIC_RECV_DATA_READ
| QUIC_RECV_RESET_RECVD | QUIC_RECV_RESET_READ.

Inductive quic_send_event :=
| QUIC_SEND_EV_STREAM | QUIC_SEND_EV_FIN_SENT | QUIC_SEND_EV_ACKED
| QUIC_SEND_EV_RESET | QUIC_SEND_EV_RESET_ACKED.

Inductive quic_recv_event :=
| QUIC_RECV_EV_FIN | QUIC_RECV_EV_ALL_DATA | QUIC_RECV_EV_READ | QUIC_RECV_EV_RESET.

#[export] Instance send_state_eq : EqDecision quic_send_state.
Proof. solve_decision. Defined.
#[export] Instance recv_state_eq : EqDecision quic_recv_state.
Proof. solve_decision. Defined.
#[export] Instance send_event_eq : EqDecision quic_send_event.
Proof. solve_decision. Defined.
#[export] Instance recv_event_eq : EqDecision quic_recv_event.
Proof. solve_decision. Defined.

(** The numbers of the C enumerations. *)
Definition send_num (s : quic_send_state) : Z :=
  match s with
  | QUIC_SEND_READY => 0 | QUIC_SEND_SEND => 1 | QUIC_SEND_DATA_SENT => 2
  | QUIC_SEND_DATA_RECVD => 3 | QUIC_SEND_RESET_SENT => 4 | QUIC_SEND_RESET_RECVD => 5
  end.
Definition recv_num (s : quic_recv_state) : Z :=
  match s with
  | QUIC_RECV_RECV => 0 | QUIC_RECV_SIZE_KNOWN => 1 | QUIC_RECV_DATA_RECVD => 2
  | QUIC_RECV_DATA_READ => 3 | QUIC_RECV_RESET_RECVD => 4 | QUIC_RECV_RESET_READ => 5
  end.
Definition send_ev_num (e : quic_send_event) : Z :=
  match e with
  | QUIC_SEND_EV_STREAM => 0 | QUIC_SEND_EV_FIN_SENT => 1 | QUIC_SEND_EV_ACKED => 2
  | QUIC_SEND_EV_RESET => 3 | QUIC_SEND_EV_RESET_ACKED => 4
  end.
Definition recv_ev_num (e : quic_recv_event) : Z :=
  match e with
  | QUIC_RECV_EV_FIN => 0 | QUIC_RECV_EV_ALL_DATA => 1 | QUIC_RECV_EV_READ => 2 | QUIC_RECV_EV_RESET => 3
  end.

(** The casts back from [u8]. *)
Definition send_of (n : Z) : quic_send_state :=
  nth (Z.to_nat n) [QUIC_SEND_READY; QUIC_SEND_SEND; QUIC_SEND_DATA_SENT; QUIC_SEND_DATA_RECVD;
                    QUIC_SEND_RESET_SENT; QUIC_SEND_RESET_RECVD] QUIC_SEND_READY.
Definition recv_of (n : Z) : quic_recv_state :=
  nth (Z.to_nat n) [QUIC_RECV_RECV; QUIC_RECV_SIZE_KNOWN; QUIC_RECV_DATA_RECVD; QUIC_RECV_DATA_READ;
                    QUIC_RECV_RESET_RECVD; QUIC_RECV_RESET_READ] QUIC_RECV_RECV.

Definition send_row (from : quic_send_state) (ev : quic_send_event) (to : quic_send_state) :=
  mk_row (send_num from) (send_ev_num ev) (send_num to).
Definition recv_row (from : quic_recv_state) (ev : quic_recv_event) (to : quic_recv_state) :=
  mk_row (recv_num from) (recv_ev_num ev) (recv_num to).

Definition send_rows : list quic_fsm_row :=
  [send_row QUIC_SEND_READY QUIC_SEND_EV_STREAM QUIC_SEND_SEND;
   send_row QUIC_SEND_SEND QUIC_SEND_EV_FIN_SENT QUIC_SEND_DATA_SENT;
   send_row QUIC_SEND_DATA_SENT QUIC_SEND_EV_ACKED QUIC_SEND_DATA_RECVD;
   send_row QUIC_SEND_READY QUIC_SEND_EV_RESET QUIC_SEND_RESET_SENT;
   send_row QUIC_SEND_SEND QUIC_SEND_EV_RESET QUIC_SEND_RESET_SENT;
   send_row QUIC_SEND_DATA_SENT QUIC_SEND_EV_RESET QUIC_SEND_RESET_SENT;
   send_row QUIC_SEND_RESET_SENT QUIC_SEND_EV_RESET_ACKED QUIC_SEND_RESET_RECVD].

Definition recv_rows : list quic_fsm_row :=
  [recv_row QUIC_RECV_RECV QUIC_RECV_EV_FIN QUIC_RECV_SIZE_KNOWN;
   recv_row QUIC_RECV_SIZE_KNOWN QUIC_RECV_EV_ALL_DATA QUIC_RECV_DATA_RECVD;
   recv_row QUIC_RECV_DATA_RECVD QUIC_RECV_EV_READ QUIC_RECV_DATA_READ;
   recv_row QUIC_RECV_RECV QUIC_RECV_EV_RESET QUIC_RECV_RESET_RECVD;
   recv_row QUIC_RECV_SIZE_KNOWN QUIC_RECV_EV_RESET QUIC_RECV_RESET_RECVD;
   recv_row QUIC_RECV_RESET_RECVD QUIC_RECV_EV_READ QUIC_RECV_RESET_READ].

Definition quic_send_step (s : quic_send_state) (ev : quic_send_event) : bool * quic_send_state :=
  let '(ok, st) := quic_fsm_step (u8 (send_num s)) send_rows (u8 (send_ev_num ev)) in (ok, send_of st).

Definition quic_recv_step (s : quic_recv_state) (ev : quic_recv_event) : bool * quic_recv_state :=
  let '(ok, st) := quic_fsm_step (u8 (recv_num s)) recv_rows (u8 (recv_ev_num ev)) in (ok, recv_of st).

(** * bidi.c *)

Record quic_bidi := mk_bidi { bd_send : quic_send_state; bd_recv : quic_recv_state }.

Definition quic_bidi_init : quic_bidi := mk_bidi QUIC_SEND_READY QUIC_RECV_RECV.

Definition send_terminal (s : quic_send_state) : bool :=
  bool_decide (s = QUIC_SEND_DATA_RECVD) || bool_decide (s = QUIC_SEND_RESET_RECVD).

Definition recv_terminal (s : quic_recv_state) : bool :=
  bool_decide (s = QUIC_RECV_DATA_READ) || bool_decide (s = QUIC_RECV_RESET_READ).

Definition quic_bidi_closed (b : quic_bidi) : bool := send_terminal (bd_send b) && recv_terminal (bd_recv b).

(** * stream_id.c, stream_limit.c, stream_role.c *)

Definition QUIC_STREAM_INITIATOR_BIT : Z := 0x1.
Definition QUIC_STREAM_DIR_BIT : Z := 0x2.

Definition quic_stream_is_client_initiated (id : Z) : bool := Z.land id QUIC_STREAM_INITIATOR_BIT =? 0.
Definition quic_stream_is_uni (id : Z) : bool := negb (Z.land id QUIC_STREAM_DIR_BIT =? 0).

Definition quic_stream_id (is_server is_uni : bool) (index : Z) : Z :=
  let low := Z.lor (if is_server then QUIC_STREAM_INITIATOR_BIT else 0) (if is_uni then QUIC_STREAM_DIR_BIT else 0) in
  Z.lor (index <<w 2) low.

Definition QUIC_MAX_STREAMS_LIMIT : Z := u64 (Z.shiftl 1 60).

Definition quic_stream_max_streams_ok (max_streams : Z) : bool := max_streams <=? QUIC_MAX_STREAMS_LIMIT.

Definition quic_stream_max_id (is_server is_uni : bool) (max_streams : Z) : option Z :=
  if max_streams =? 0 then None
  else if negb (quic_stream_max_streams_ok max_streams) then None
  else Some (quic_stream_id is_server is_uni (max_streams -w 1)).

Definition am_initiator (am_client : bool) (stream_id : Z) : bool :=
  Bool.eqb am_client (quic_stream_is_client_initiated stream_id).

Definition quic_stream_can_send (am_client : bool) (stream_id : Z) : bool :=
  if negb (quic_stream_is_uni stream_id) then true else am_initiator am_client stream_id.

Definition quic_stream_can_receive (am_client : bool) (stream_id : Z) : bool :=
  if negb (quic_stream_is_uni stream_id) then true else negb (am_initiator am_client stream_id).

(** * stream_send.c *)

(** The return value, [*out_len] when it is set, and the buffer. *)
Definition quic_appdata_stream_frame (stream_id offset : Z) (data : list Z) (len fin : Z)
  (out : list Z) (cap : Z) : option (option Z * list Z) :=
  match quic_frame_put_stream (mk_stream stream_id offset len data (if fin =? 0 then 0 else 1)) out cap with
  | None => None
  | Some (n, out') => if n =? 0 then Some (None, out') else Some (Some n, out')
  end.

(** * The language of a machine *)

Section Machine.
Context {St Ev : Type} (step : St -> Ev -> bool * St).

(** Feed events in order; the events accepted and the final state. *)
Fixpoint fsm_run (evs : list Ev) (s : St) : list Ev * St :=
  match evs with
  | [] => ([], s)
  | e :: evs' =>
      let '(ok, s') := step s e in
      let '(acc, last) := fsm_run evs' s' in
      (if ok then e :: acc else acc, last)
  end.

(** [hists s] lists the accepted histories that lead to [s]. *)
Definition hists_closed (init : St) (hists : St -> list (list Ev)) : Prop :=
  [] ∈ hists init /\
  forall s h ev, h ∈ hists s ->
    if fst (step s ev) then (h ++ [ev]) ∈ hists (snd (step s ev)) else snd (step s ev) = s.

Lemma fsm_run_hists init hists : hists_closed init hists -> forall evs s h,
  h ∈ hists s -> (h ++ fst (fsm_run evs s)) ∈ hists (snd (fsm_run evs s)).
Proof.
  intros [_ Hc]. induction evs as [|e evs IH]; intros s h Hh; cbn [fsm_run]; [by rewrite app_nil_r|].
  specialize (Hc s h e Hh). destruct (step s e) as [[] s'] eqn:E; cbn [fst snd] in *.
  - specialize (IH s' _ Hc). destruct (fsm_run evs s') as [acc last]. cbn [fst snd] in *.
    by rewrite <- app_assoc in IH.
  - subst s'. specialize (IH s h Hh). by destruct (fsm_run evs s) as [acc last].
Qed.
End Machine.

(** The histories of the sending half: data in order, or a reset at any point
    before all data is acknowledged. *)
Definition send_hists (s : quic_send_state) : list (list quic_send_event) :=
  let S := QUIC_SEND_EV_STREAM in let F := QUIC_SEND_EV_FIN_SENT in
  let A := QUIC_SEND_EV_ACKED in let R := QUIC_SEND_EV_RESET in let RA := QUIC_SEND_EV_RESET_ACKED in
  match s with
  | QUIC_SEND_READY => [[]]
  | QUIC_SEND_SEND => [[S]]
  | QUIC_SEND_DATA_SENT => [[S; F]]
  | QUIC_SEND_DATA_RECVD => [[S; F; A]]
  | QUIC_SEND_RESET_SENT => [[R]; [S; R]; [S; F; R]]
  | QUIC_SEND_RESET_RECVD => [[R; RA]; [S; R; RA]; [S; F; R; RA]]
  end.

Definition recv_hists (s : quic_recv_state) : list (list quic_recv_event) :=
  let F := QUIC_RECV_EV_FIN in let D := QUIC_RECV_EV_ALL_DATA in
  let R := QUIC_RECV_EV_READ in let X := QUIC_RECV_EV_RESET in
  match s with
  | QUIC_RECV_RECV => [[]]
  | QUIC_RECV_SIZE_KNOWN => [[F]]
  | QUIC_RECV_DATA_RECVD => [[F; D]]
  | QUIC_RECV_DATA_READ => [[F; D; R]]
  | QUIC_RECV_RESET_RECVD => [[X]; [F; X]]
  | QUIC_RECV_RESET_READ => [[X; R]; [F; X; R]]
  end.

Ltac close_hists :=
  split; [by left|];
  intros s h ev Hh; rewrite list_elem_of_In in Hh;
  destruct s, ev;
  match goal with |- context [if fst ?x then _ else _] => let v := eval vm_compute in x in change x with v end;
  cbn [fst snd]; try reflexivity; rewrite list_elem_of_In; simpl in *;
  repeat match goal with H : _ \/ _ |- _ => destruct H as [<-|H] end; simpl; tauto.

Lemma send_hists_closed : hists_closed quic_send_step QUIC_SEND_READY send_hists.
Proof. close_hists. Qed.

Lemma recv_hists_closed : hists_closed quic_recv_step QUIC_RECV_RECV recv_hists.
Proof. close_hists. Qed.

(** The life of a stream.  Whatever events are offered to the two halves, in
    whatever order, the events accepted by the sending half are exactly one of the
    histories of RFC 9000 3.1 for the state reached (data, FIN, acknowledgement in
    this order, or a reset before the last acknowledgement) and likewise for the
    receiving half; every such history is possible; a stream whose halves are both
    terminal is closed, and then no event changes it. *)
Theorem stream_lifecycle (sevs : list quic_send_event) (revs : list quic_recv_event) :
  let s := snd (fsm_run quic_send_step sevs (bd_send quic_bidi_init)) in
  let r := snd (fsm_run quic_recv_step revs (bd_recv quic_bidi_init)) in
  fst (fsm_run quic_send_step sevs (bd_send quic_bidi_init)) ∈ send_hists s /\
  fst (fsm_run quic_recv_step revs (bd_recv quic_bidi_init)) ∈ recv_hists r /\
  (forall t, Forall (fun h => fsm_run quic_send_step h QUIC_SEND_READY = (h, t)) (send_hists t)) /\
  (forall t, Forall (fun h => fsm_run quic_recv_step h QUIC_RECV_RECV = (h, t)) (recv_hists t)) /\
  (quic_bidi_closed (mk_bidi s r) = true <->
     (forall e, quic_send_step s e = (false, s)) /\ (forall e, quic_recv_step r e = (false, r))).
Proof.
  intros s r. split_and!.
  - exact (fsm_run_hists _ _ _ send_hists_closed sevs QUIC_SEND_READY [] ltac:(by left)).
  - exact (fsm_run_hists _ _ _ recv_hists_closed revs QUIC_RECV_RECV [] ltac:(by left)).
  - intros []; cbv [send_hists recv_hists]; repeat (apply List.Forall_cons; [reflexivity|]); apply List.Forall_nil.
  - intros []; cbv [send_hists recv_hists]; repeat (apply List.Forall_cons; [reflexivity|]); apply List.Forall_nil.
  - unfold quic_bidi_closed. cbn [bd_send bd_recv]. clearbody s r. split.
    + intros Hc. destruct s, r; try (vm_compute in Hc; discriminate Hc); split; by intros [].
    + intros [Hs Hr].
      destruct s; try (specialize (Hs QUIC_SEND_EV_RESET); vm_compute in Hs; congruence);
        try (specialize (Hs QUIC_SEND_EV_RESET_ACKED); vm_compute in Hs; congruence);
      destruct r; try done; try (specialize (Hr QUIC_RECV_EV_RESET); vm_compute in Hr; congruence);
        specialize (Hr QUIC_RECV_EV_READ); vm_compute in Hr; congruence.
Qed.

(** * Stream identifiers *)

Definition stream_type_num (is_server is_uni : bool) : Z := Z.b2z is_server + 2 * Z.b2z is_uni.

Lemma stream_id_value is_server is_uni index : 0 <= index < 4611686018427387904 ->
  quic_stream_id is_server is_uni index = 4 * index + stream_type_num is_server is_uni.
Proof.
  intros Hi. unfold quic_stream_id. rewrite Z.shiftl_mul_pow2, u64_id by (unfold is_u64; lia).
  replace (Z.lor (if is_server then QUIC_STREAM_INITIATOR_BIT else 0) (if is_uni then QUIC_STREAM_DIR_BIT else 0))
    with (stream_type_num is_server is_uni) by (by destruct is_server, is_uni).
  rewrite lor_low; [lia|lia|]. destruct is_server, is_uni; closed_arith.
Qed.

Lemma stream_id_bits is_server is_uni index : 0 <= index < 4611686018427387904 ->
  quic_stream_is_client_initiated (quic_stream_id is_server is_uni index) = negb is_server /\
  quic_stream_is_uni (quic_stream_id is_server is_uni index) = is_uni.
Proof.
  intros Hi. rewrite stream_id_value by done. unfold quic_stream_is_client_initiated, quic_stream_is_uni.
  assert (H1 : forall k, Z.land (4 * index + k) 3 = Z.land k 3).
  { intros k. change 3 with (Z.ones 2). rewrite !Z.land_ones by lia. change (2 ^ 2) with 4.
    by rewrite Z.add_comm, Z.mul_comm, Z.mod_add by lia. }
  assert (Hb : forall k m, Z.land m 3 = m -> Z.land (4 * index + k) m = Z.land k m).
  { intros k m Hm. rewrite <- Hm, (Z.land_comm m 3), !Z.land_assoc, H1. done. }
  rewrite !Hb by done. by destruct is_server, is_uni.
Qed.

(** Stream identifiers.  The identifier of the [index]-th stream of a type
    carries the type in its low bits and the index above them (so identifiers of
    different streams differ); a limit of N streams admits exactly the indices
    below N, by identifier as by count, and every admitted identifier is a legal
    variable-length integer; no limit above 2^60 nor 0 has a largest identifier;
    and on every stream, of the two endpoints exactly the initiator may send when
    it is unidirectional and exactly the other may receive, both when it is
    bidirectional. *)
Theorem stream_ids_exact is_server is_uni index n
  (Hi : 0 <= index < 4611686018427387904) (Hn : 0 <= n < 18446744073709551616) :
  let id := quic_stream_id is_server is_uni index in
  quic_stream_is_client_initiated id = negb is_server /\ quic_stream_is_uni id = is_uni /\
  Z.shiftr id 2 = index /\
  match quic_stream_max_id is_server is_uni n with
  | None => n = 0 \/ 2 ^ 60 < n
  | Some m => 1 <= n <= 2 ^ 60 /\ (id <= m <-> index < n) /\ is_varint m
  end /\
  (forall am_client,
     quic_stream_can_send am_client id = (negb is_uni || eqb am_client (negb is_server)) /\
     quic_stream_can_receive am_client id = quic_stream_can_send (negb am_client) id).
Proof.
  intros id. destruct (stream_id_bits is_server is_uni index Hi) as [Hc Hu]. fold id in Hc, Hu.
  split_and!; [done|done| | |].
  - unfold id. rewrite stream_id_value by done. rewrite Z.shiftr_div_pow2 by lia. change (2 ^ 2) with 4.
    rewrite Z.mul_comm, Z.div_add_l by lia. rewrite Z.div_small; [lia|].
    destruct is_server, is_uni; closed_arith.
  - unfold quic_stream_max_id, quic_stream_max_streams_ok. change QUIC_MAX_STREAMS_LIMIT with (2 ^ 60).
    destruct (Z.eqb_spec n 0); [by left|]. destruct (Z.leb_spec n (2 ^ 60)); [|by right]. cbn [negb].
    rewrite u64_id by (unfold is_u64; lia). unfold id. rewrite !stream_id_value by lia.
    split; [lia|]. split; [lia|]. unfold is_varint, QUIC_VARINT_MAX.
    destruct is_server, is_uni; unfold stream_type_num; simpl Z.b2z; lia.
  - intros am. unfold quic_stream_can_send, quic_stream_can_receive, am_initiator. rewrite Hc, Hu.
    by destruct am, is_server, is_uni.
Qed.

(** Witness: the third server-initiated unidirectional stream under a limit
    of three. *)
Lemma stream_ids_exact_witness :
  let id := quic_stream_id true true 2 in
  quic_stream_is_client_initiated id = false /\ quic_stream_is_uni id = true /\ Z.shiftr id 2 = 2 /\
  (1 <= 3 <= 2 ^ 60 /\ (id <= 11 <-> 2 < 3) /\ is_varint 11) /\
  (forall am_client,
     quic_stream_can_send am_client id = eqb am_client false /\
     quic_stream_can_receive am_client id = quic_stream_can_send (negb am_client) id).
Proof. apply (stream_ids_exact true true 2 3); lia. Defined.

(** The STREAM frame of application data is the codec's. *)
Lemma appdata_stream_frame_decodes stream_id offset data fin out cap :
  is_varint stream_id -> is_varint offset -> is_varint (zlen data) ->
  let f := mk_stream stream_id offset (zlen data) data (if fin =? 0 then 0 else 1) in
  zlen (fc_bytes f) <= cap <= zlen out -> zlen out < max_object ->
  exists out', quic_appdata_stream_frame stream_id offset data (zlen data) fin out cap =
                 Some (Some (zlen (fc_bytes f)), out') /\
    quic_frame_get_stream out' (zlen out) = Some (Some (f, zlen (fc_bytes f))).
Proof.
  intros H1 H2 H3 f Hcap Ho.
  assert (0 < zlen (fc_bytes f)) by (unfold fc_bytes; rewrite zlen_cons; pose proof (zlen_nonneg (fc_body f)); lia).
  destruct (codec_roundtrip f out cap (zlen out)) as (out' & He & Hd); try lia.
  { cbn. unfold stream_wf, f. cbn. destruct (fin =? 0); split_and!; auto. }
  unfold quic_appdata_stream_frame. fold f. cbn [fc_encode fc_decode stream_codec] in He, Hd.
  rewrite He. zdecide. exists out'. split; [done|]. rewrite Hd. by zdecide.
Qed.
