(* ===== verification/Lifecycle.v ===== *)
(** Connection lifecycle: [transport/conn/lifecycle] ([conn/conn.c],
    [conn/pnspace.c], [conn/demux.c], [conn/cidnego.c], [closelife], [idledrive]).

    [quic_conn] is the handshake phase with the packet numbers of the three spaces;
    [quic_life] is the close lifecycle driven by timer ticks. *)
From S2P Require Import Prelude Buffers Timing Streams.

(** * conn.c *)

Inductive quic_phase :=
| QUIC_PHASE_INITIAL | QUIC_PHASE_HANDSHAKE | QUIC_PHASE_CONFIRMED
| QUIC_PHASE_CLOSING | QUIC_PHASE_DRAINING | QUIC_PHASE_CLOSED.

Inductive quic_conn_event :=
| QUIC_CONN_EV_HS_PROGRESS | QUIC_CONN_EV_HS_CONFIRMED | QUIC_CONN_EV_CLOSE
| QUIC_CONN_EV_DRAIN | QUIC_CONN_EV_CLOSED.

Inductive quic_pn_space := QUIC_PN_INITIAL | QUIC_PN_HANDSHAKE | QUIC_PN_APPLICATION.

Definition QUIC_PN_SPACE_COUNT : Z := 3.

#[export] Instance phase_eq : EqDecision quic_phase.
Proof. solve_decision. Defined.
#[export] Instance conn_event_eq : EqDecision quic_conn_event.
Proof. solve_decision. Defined.
#[export] Instance pn_space_eq : EqDecision quic_pn_space.
Proof. solve_decision. Defined.

Definition phase_num (p : quic_phase) : Z :=
  match p with
  | QUIC_PHASE_INITIAL => 0 | QUIC_PHASE_HANDSHAKE => 1 | QUIC_PHASE_CONFIRMED => 2
  | QUIC_PHASE_CLOSING => 3 | QUIC_PHASE_DRAINING => 4 | QUIC_PHASE_CLOSED => 5
  end.
Definition conn_ev_num (e : quic_conn_event) : Z :=
  match e with
  | QUIC_CONN_EV_HS_PROGRESS => 0 | QUIC_CONN_EV_HS_CONFIRMED => 1 | QUIC_CONN_EV_CLOSE => 2
  | QUIC_CONN_EV_DRAIN => 3 | QUIC_CONN_EV_CLOSED => 4
  end.
Definition space_num (s : quic_pn_space) : Z :=
  match s with QUIC_PN_INITIAL => 0 | QUIC_PN_HANDSHAKE => 1 | QUIC_PN_APPLICATION => 2 end.

(** The cast back from [u8]. *)
Definition phase_of (n : Z) : quic_phase :=
  nth (Z.to_nat n) [QUIC_PHASE_INITIAL; QUIC_PHASE_HANDSHAKE; QUIC_PHASE_CONFIRMED;
                    QUIC_PHASE_CLOSING; QUIC_PHASE_DRAINING; QUIC_PHASE_CLOSED] QUIC_PHASE_INITIAL.

Record quic_conn := mk_conn { cn_phase : quic_phase; cn_next_pn : list Z }.

Definition phase_row (from : quic_phase) (ev : quic_conn_event) (to : quic_phase) :=
  mk_row (phase_num from) (conn_ev_num ev) (phase_num to).

Definition phase_rows : list quic_fsm_row :=
  [phase_row QUIC_PHASE_INITIAL QUIC_CONN_EV_HS_PROGRESS QUIC_PHASE_HANDSHAKE;
   phase_row QUIC_PHASE_HANDSHAKE QUIC_CONN_EV_HS_CONFIRMED QUIC_PHASE_CONFIRMED;
   phase_row QUIC_PHASE_INITIAL QUIC_CONN_EV_CLOSE QUIC_PHASE_CLOSING;
   phase_row QUIC_PHASE_HANDSHAKE QUIC_CONN_EV_CLOSE QUIC_PHASE_CLOSING;
   phase_row QUIC_PHASE_CONFIRMED QUIC_CONN_EV_CLOSE QUIC_PHASE_CLOSING;
   phase_row QUIC_PHASE_INITIAL QUIC_CONN_EV_DRAIN QUIC_PHASE_DRAINING;
   phase_row QUIC_PHASE_HANDSHAKE QUIC_CONN_EV_DRAIN QUIC_PHASE_DRAINING;
   phase_row QUIC_PHASE_CONFIRMED QUIC_CONN_EV_DRAIN QUIC_PHASE_DRAINING;
   phase_row QUIC_PHASE_CLOSING QUIC_CONN_EV_CLOSED QUIC_PHASE_CLOSED;
   phase_row QUIC_PHASE_DRAINING QUIC_CONN_EV_CLOSED QUIC_PHASE_CLOSED].

(** [for (i = 0; i < QUIC_PN_SPACE_COUNT; i++) c->next_pn[i] = 0;] *)
Fixpoint zero_loop (k : nat) (l : list Z) (i : Z) : option (list Z) :=
  match k with
  | O => Some l
  | S k' => match store l i 0 with None => None | Some l' => zero_loop k' l' (i + 1) end
  end.

Definition quic_conn_init (c : quic_conn) : option quic_conn :=
  match zero_loop (Z.to_nat QUIC_PN_SPACE_COUNT) (cn_next_pn c) 0 with
  | None => None
  | Some l => Some (mk_conn QUIC_PHASE_INITIAL l)
  end.

Definition phase_step (p : quic_phase) (ev : quic_conn_event) : bool * quic_phase :=
  let '(ok, st) := quic_fsm_step (u8 (phase_num p)) phase_rows (u8 (conn_ev_num ev)) in (ok, phase_of st).

Definition quic_conn_step (c : quic_conn) (ev : quic_conn_event) : bool * quic_conn :=
  let '(ok, p) := phase_step (cn_phase c) ev in (ok, mk_conn p (cn_next_pn c)).

Definition app_space_allowed (c : quic_conn) (space : quic_pn_space) : bool :=
  if negb (bool_decide (space = QUIC_PN_APPLICATION)) then true
  else bool_decide (cn_phase c = QUIC_PHASE_CONFIRMED).

(** [Some (Some pn, c')]: returned 1 with [*pn = pn]; [Some (None, c)]: returned 0. *)
Definition quic_conn_next_pn (c : quic_conn) (space : quic_pn_space) : option (option Z * quic_conn) :=
  if negb (app_space_allowed c space) then Some (None, c)
  else match load (cn_next_pn c) (space_num space) with
       | None => None
       | Some pn =>
           match store (cn_next_pn c) (space_num space) (pn +w 1) with
           | None => None
           | Some l => Some (Some pn, mk_conn (cn_phase c) l)
           end
       end.

(** * pnspace.c *)

Record quic_pnspace := mk_pnspace { ps_next : list Z }.

Definition QUIC_PNS_COUNT : Z := 3.

Definition quic_pnspace_init (s : quic_pnspace) : option quic_pnspace :=
  match zero_loop (Z.to_nat QUIC_PNS_COUNT) (ps_next s) 0 with
  | None => None
  | Some l => Some (mk_pnspace l)
  end.

Definition quic_pnspace_next (s : quic_pnspace) (space : Z) : option (Z * quic_pnspace) :=
  match load (ps_next s) space with
  | None => None
  | Some pn => match store (ps_next s) space (pn +w 1) with
               | None => None
               | Some l => Some (pn, mk_pnspace l)
               end
  end.

(** * demux.c, cidnego.c *)

Definition quic_demux_match (dcid : list Z) (dcid_len : Z) (conn_cid : list Z) (cid_len : Z) : option bool :=
  if negb (dcid_len =? cid_len) then Some false
  else match diff_loop (Z.to_nat dcid_len) 0 dcid conn_cid 0 with
       | None => None
       | Some diff => Some (diff =? 0)
       end.

(** [Some (Some (our_dcid, our_dcid_len))]: returned 1. *)
Definition quic_cidnego_peer_dcid (peer_scid : list Z) (scid_len : Z) (our_dcid : list Z)
  : option (option (list Z * Z)) :=
  if 20 <? scid_len then Some None
  else match copy_loop (Z.to_nat scid_len) our_dcid 0 peer_scid 0 with
       | None => None
       | Some d => Some (Some (d, scid_len))
       end.

Fixpoint eq_loop (k : nat) (eq : bool) (a b : list Z) (i : Z) : option bool :=
  match k with
  | O => Some eq
  | S k' => match load a i, load b i with
            | Some x, Some y => eq_loop k' (eq && (x =? y)) a b (i + 1)
            | _, _ => None
            end
  end.

Definition quic_cidnego_match (a : list Z) (a_len : Z) (b : list Z) (b_len : Z) : option bool :=
  let n := if a_len <? b_len then a_len else b_len in
  eq_loop (Z.to_nat n) (a_len =? b_len) a b 0.

(** * closelife.c, termgate.c *)

Inductive quic_life_phase := QUIC_LIFE_OPEN | QUIC_LIFE_CLOSING | QUIC_LIFE_DRAINING | QUIC_LIFE_CLOSED.

#[export] Instance life_phase_eq : EqDecision quic_life_phase.
Proof. solve_decision. Defined.

Record quic_life := mk_life {
  lf_phase : quic_life_phase; lf_idle_ticks : Z; lf_idle_max : Z;
  lf_close_ticks : Z; lf_close_max : Z; lf_sent_close : Z; lf_notified : Z }.

Definition quic_life_init (idle_max close_max : Z) : quic_life :=
  mk_life QUIC_LIFE_OPEN 0 idle_max 0 close_max 0 0.

Definition set_phase (l : quic_life) (p : quic_life_phase) : quic_life :=
  mk_life p (lf_idle_ticks l) (lf_idle_max l) (lf_close_ticks l) (lf_close_max l) (lf_sent_close l) (lf_notified l).

Definition tick_open (l : quic_life) : quic_life :=
  let l := mk_life (lf_phase l) (lf_idle_ticks l +w 1) (lf_idle_max l) (lf_close_ticks l) (lf_close_max l)
                   (lf_sent_close l) (lf_notified l) in
  if lf_idle_max l <=? lf_idle_ticks l then set_phase l QUIC_LIFE_CLOSED else l.

Definition tick_closing (l : quic_life) : quic_life :=
  let l := mk_life (lf_phase l) (lf_idle_ticks l) (lf_idle_max l) (lf_close_ticks l +w 1) (lf_close_max l)
                   (lf_sent_close l) (lf_notified l) in
  if lf_close_max l <=? lf_close_ticks l then set_phase l QUIC_LIFE_CLOSED else l.

Definition quic_life_tick (l : quic_life) : quic_life :=
  if bool_decide (lf_phase l = QUIC_LIFE_OPEN) then tick_open l
  else if bool_decide (lf_phase l = QUIC_LIFE_CLOSED) then l
  else tick_closing l.

Definition quic_life_on_recv (l : quic_life) : quic_life :=
  if bool_decide (lf_phase l = QUIC_LIFE_OPEN)
  then mk_life (lf_phase l) 0 (lf_idle_max l) (lf_close_ticks l) (lf_close_max l) (lf_sent_close l) (lf_notified l)
  else l.

Definition quic_life_on_send (l : quic_life) : quic_life :=
  if bool_decide (lf_phase l = QUIC_LIFE_OPEN)
  then mk_life (lf_phase l) 0 (lf_idle_max l) (lf_close_ticks l) (lf_close_max l) (lf_sent_close l) (lf_notified l)
  else l.

Definition quic_life_close (l : quic_life) : quic_life :=
  if negb (bool_decide (lf_phase l = QUIC_LIFE_OPEN)) then l
  else mk_life QUIC_LIFE_CLOSING (lf_idle_ticks l) (lf_idle_max l) 0 (lf_close_max l) 1 1.

Definition quic_life_on_peer_close (l : quic_life) : quic_life :=
  if negb (bool_decide (lf_phase l = QUIC_LIFE_OPEN)) then l
  else mk_life QUIC_LIFE_DRAINING (lf_idle_ticks l) (lf_idle_max l) 0 (lf_close_max l) (lf_sent_close l) 1.

Definition quic_life_on_reset (l : quic_life) : quic_life :=
  if negb (bool_decide (lf_phase l = QUIC_LIFE_CLOSED)) then set_phase l QUIC_LIFE_CLOSED else l.

Inductive quic_send_kind := QUIC_SEND_NONE | QUIC_SEND_CC | QUIC_SEND_APPDATA.

Definition send_by_phase (p : quic_life_phase) : quic_send_kind :=
  match p with
  | QUIC_LIFE_OPEN => QUIC_SEND_APPDATA
  | QUIC_LIFE_CLOSING => QUIC_SEND_CC
  | QUIC_LIFE_DRAINING => QUIC_SEND_NONE
  | QUIC_LIFE_CLOSED => QUIC_SEND_NONE
  end.

Definition quic_life_send_kind (l : quic_life) : quic_send_kind := send_by_phase (lf_phase l).

Definition quic_life_close_due (l : quic_life) : bool :=
  (0 <? lf_close_ticks l) && (lf_close_max l <=? lf_close_ticks l).

Definition quic_life_idle_due (l : quic_life) : bool :=
  bool_decide (lf_phase l = QUIC_LIFE_OPEN) && (lf_idle_max l <=? lf_idle_ticks l).

(** * idle timers *)

Definition quic_idle_floor (idle_timeout pto : Z) : Z := quic_u64_max idle_timeout (3 *w pto).
Definition quic_idle_should_close (elapsed effective_idle : Z) : bool := effective_idle <=? elapsed.

Definition quic_draining_period (pto : Z) : Z := 3 *w pto.
Definition quic_draining_done (close_time now pto : Z) : bool := close_time +w quic_draining_period pto <=? now.
Definition quic_draining_may_send (in_draining : bool) : bool := negb in_draining.

Definition as_limit (v : Z) : Z := if v =? 0 then u64 (-1) else v.
Definition quic_idle_effective (local peer : Z) : Z :=
  let l := as_limit local in let p := as_limit peer in
  let m := if l <? p then l else p in
  if m =? u64 (-1) then 0 else m.
Definition quic_idle_expired (last_activity now effective : Z) : bool :=
  negb (effective =? 0) && (effective <=? now -w last_activity).

Definition quic_keepalive_interval (idle_timeout : Z) : Z := idle_timeout / 2.
Definition quic_keepalive_due (last_activity now idle_timeout : Z) : bool :=
  quic_keepalive_interval idle_timeout <=? now -w last_activity.

Definition idlenego_as_limit (v : Z) : Z := if v =? 0 then u64 (-1) else v.
Definition quic_idledrive_effective (local_timeout peer_timeout : Z) : Z :=
  let l := idlenego_as_limit local_timeout in let p := idlenego_as_limit peer_timeout in
  let m := if l <? p then l else p in
  if m =? u64 (-1) then 0 else m.

Record quic_idledrive := mk_idledrive { id_idle_timeout : Z; id_last_activity : Z }.
Definition quic_idledrive_init (idle_timeout : Z) : quic_idledrive := mk_idledrive idle_timeout 0.
Definition quic_idledrive_on_activity (s : quic_idledrive) (now : Z) : quic_idledrive :=
  mk_idledrive (id_idle_timeout s) now.
Definition quic_idledrive_expired (s : quic_idledrive) (now : Z) : bool :=
  negb (id_idle_timeout s =? 0) && (id_idle_timeout s <=? now -w id_last_activity s).

Definition quic_idledrive_should_close (error_occurred idle_expired : bool) : bool := error_occurred || idle_expired.

(** * Phases and packet numbers *)

Definition phase_hists (p : quic_phase) : list (list quic_conn_event) :=
  let P := QUIC_CONN_EV_HS_PROGRESS in let C := QUIC_CONN_EV_HS_CONFIRMED in
  let X := QUIC_CONN_EV_CLOSE in let D := QUIC_CONN_EV_DRAIN in let Z := QUIC_CONN_EV_CLOSED in
  match p with
  | QUIC_PHASE_INITIAL => [[]]
  | QUIC_PHASE_HANDSHAKE => [[P]]
  | QUIC_PHASE_CONFIRMED => [[P; C]]
  | QUIC_PHASE_CLOSING => [[X]; [P; X]; [P; C; X]]
  | QUIC_PHASE_DRAINING => [[D]; [P; D]; [P; C; D]]
  | QUIC_PHASE_CLOSED => [[X; Z]; [P; X; Z]; [P; C; X; Z]; [D; Z]; [P; D; Z]; [P; C; D; Z]]
  end.

Lemma phase_hists_closed : hists_closed phase_step QUIC_PHASE_INITIAL phase_hists.
Proof. close_hists. Qed.

(** Packet numbers handed out in one space, oldest first. *)
Definition pns_of (sp : quic_pn_space) (given : list (quic_pn_space * Z)) : list Z :=
  map snd (List.filter (fun g => bool_decide (fst g = sp)) given).

(** Connections reachable from an initialised one, with the phase events accepted
    and the packet numbers handed out so far. *)
Inductive conn_reach : list quic_conn_event -> list (quic_pn_space * Z) -> quic_conn -> Prop :=
| conn_started c c0 : zlen (cn_next_pn c) = QUIC_PN_SPACE_COUNT -> quic_conn_init c = Some c0 -> conn_reach [] [] c0
| conn_stepped evs given c ev c' : conn_reach evs given c -> quic_conn_step c ev = (true, c') ->
    conn_reach (evs ++ [ev]) given c'
| conn_refused evs given c ev c' : conn_reach evs given c -> quic_conn_step c ev = (false, c') ->
    conn_reach evs given c'
| conn_gave evs given c sp pn c' : conn_reach evs given c -> quic_conn_next_pn c sp = Some (Some pn, c') ->
    conn_reach evs (given ++ [(sp, pn)]) c'
| conn_gave_not evs given c sp c' : conn_reach evs given c -> quic_conn_next_pn c sp = Some (None, c') ->
    conn_reach evs given c'.

Lemma pns_of_snoc sp given sp' pn :
  pns_of sp (given ++ [(sp', pn)]) = pns_of sp given ++ (if bool_decide (sp' = sp) then [pn] else []).
Proof.
  unfold pns_of. rewrite List.filter_app, map_app. cbn [List.filter fst].
  by destruct (bool_decide (sp' = sp)).
Qed.

Lemma pns_of_length sp given : zlen (pns_of sp given) <= zlen given.
Proof.
  unfold pns_of, zlen. rewrite length_map. pose proof (List.filter_length_le (fun g => bool_decide (fst g = sp)) given). lia.
Qed.

Definition conn_inv (evs : list quic_conn_event) (given : list (quic_pn_space * Z)) (c : quic_conn) : Prop :=
  evs ∈ phase_hists (cn_phase c) /\ zlen (cn_next_pn c) = QUIC_PN_SPACE_COUNT /\
  forall sp, load (cn_next_pn c) (space_num sp) = Some (zlen (pns_of sp given)) /\
             pns_of sp given = seqZ 0 (zlen (pns_of sp given)).

Lemma space_range sp : 0 <= space_num sp < QUIC_PN_SPACE_COUNT.
Proof. destruct sp; closed_arith. Qed.

Lemma next_pn_spec evs given c sp : conn_inv evs given c -> zlen given < 18446744073709551615 ->
  quic_conn_next_pn c sp =
  Some (if app_space_allowed c sp
        then (Some (zlen (pns_of sp given)),
              mk_conn (cn_phase c) (<[Z.to_nat (space_num sp) := zlen (pns_of sp given) + 1]> (cn_next_pn c)))
        else (None, c)).
Proof.
  intros (_ & Hl & Hs) Hg. unfold quic_conn_next_pn. destruct (app_space_allowed c sp); cbn [negb]; [|done].
  destruct (Hs sp) as [-> _]. pose proof (pns_of_length sp given). pose proof (zlen_nonneg (pns_of sp given)).
  rewrite u64_id by (unfold is_u64; lia). by rewrite store_ok by (rewrite Hl; apply space_range).
Qed.

Lemma conn_reach_inv evs given c : conn_reach evs given c -> zlen given < 18446744073709551615 -> conn_inv evs given c.
Proof.
  induction 1 as [c c0 Hl Hi|evs given c ev c' _ IH Hs|evs given c ev c' _ IH Hs|evs given c sp pn c' _ IH Hs|evs given c sp c' _ IH Hs];
    intros Hg.
  - unfold quic_conn_init in Hi. apply (f_equal Z.to_nat) in Hl. unfold zlen in Hl. rewrite Nat2Z.id in Hl.
    destruct c as [p [|a [|b [|d [|]]]]]; try discriminate Hl.
    vm_compute in Hi. injection Hi as <-. split_and!; [by left|done|]. intros []; by split.
  - destruct (IH Hg) as (H1 & H2 & H3). pose proof (proj2 phase_hists_closed (cn_phase c) evs ev H1) as Hh.
    unfold quic_conn_step in Hs. destruct (phase_step (cn_phase c) ev) as [ok p]. injection Hs as -> <-. by split_and!.
  - destruct (IH Hg) as (H1 & H2 & H3). pose proof (proj2 phase_hists_closed (cn_phase c) evs ev H1) as Hh.
    unfold quic_conn_step in Hs. destruct (phase_step (cn_phase c) ev) as [ok p]. injection Hs as -> <-.
    cbn [fst snd] in Hh. subst p. by split_and!.
  - rewrite zlen_app in Hg. pose proof (zlen_nonneg given). assert (Hg' : zlen given < 18446744073709551615) by (change (zlen [(sp, pn)]) with 1 in Hg; lia).
    pose proof (IH Hg') as Hinv. rewrite (next_pn_spec _ _ _ _ Hinv Hg') in Hs.
    destruct (app_space_allowed c sp); [|done]. injection Hs as <- <-. destruct Hinv as (H1 & H2 & H3).
    unfold conn_inv. cbn [cn_phase cn_next_pn]. split_and!; [done|by rewrite zlen_insert|].
    intros sp'. rewrite pns_of_snoc. destruct (H3 sp') as [H4 H5].
    rewrite load_insert by (rewrite H2; apply space_range).
    case_bool_decide as E.
    + subst sp'. rewrite Z.eqb_refl, zlen_app. change (zlen [_]) with 1. split; [done|].
      rewrite seqZ_app by (pose proof (zlen_nonneg (pns_of sp given)); lia). by rewrite <- H5.
    + rewrite app_nil_r. split; [|done]. by destruct sp, sp'; simpl.
  - pose proof (IH Hg) as Hinv. rewrite (next_pn_spec _ _ _ _ Hinv Hg) in Hs.
    destruct (app_space_allowed c sp); [done|]. by injection Hs as <-.
Qed.

(** Phases and packet numbers of a connection.  In every reachable connection
    (fewer than 2^64 - 1 packets) the accepted phase events form a history of the
    phase reached: forward through the handshake, then closed or drained once,
    then closed for good.  The packet numbers handed out in each space are exactly
    0, 1, 2, ... in order, whatever happens in the other spaces; the next request
    gets the next number, except that the Application space is refused unless the
    events accepted are precisely handshake progress and confirmation. *)
Theorem conn_packet_numbers evs given c sp
  (Hr : conn_reach evs given c) (Hg : zlen given < 18446744073709551615) :
  evs ∈ phase_hists (cn_phase c) /\
  pns_of sp given = seqZ 0 (zlen (pns_of sp given)) /\
  exists c', quic_conn_next_pn c sp =
    Some (if negb (bool_decide (sp = QUIC_PN_APPLICATION)) ||
             bool_decide (evs = [QUIC_CONN_EV_HS_PROGRESS; QUIC_CONN_EV_HS_CONFIRMED])
          then Some (zlen (pns_of sp given)) else None, c').
Proof.
  pose proof (conn_reach_inv _ _ _ Hr Hg) as Hinv. pose proof Hinv as (H1 & H2 & H3). split_and!; [done|apply H3|].
  rewrite (next_pn_spec _ _ _ _ Hinv Hg). unfold app_space_allowed.
  assert (Hc : bool_decide (cn_phase c = QUIC_PHASE_CONFIRMED) =
               bool_decide (evs = [QUIC_CONN_EV_HS_PROGRESS; QUIC_CONN_EV_HS_CONFIRMED])).
  { apply bool_decide_ext. rewrite list_elem_of_In in H1. split.
    - intros E. rewrite E in H1. simpl in H1. intuition congruence.
    - intros ->. destruct (cn_phase c); simpl in H1; intuition congruence. }
  rewrite <- Hc. destruct (bool_decide (sp = QUIC_PN_APPLICATION)); cbn [negb orb]; [|by eexists].
  destruct (bool_decide (cn_phase c = QUIC_PHASE_CONFIRMED)); by eexists.
Qed.

(** Witness: a confirmed connection that has sent two Initial packets and one
    application packet. *)
Definition conn_example : quic_conn := mk_conn QUIC_PHASE_CONFIRMED [2; 0; 1].

Lemma conn_example_reach : conn_reach [QUIC_CONN_EV_HS_PROGRESS; QUIC_CONN_EV_HS_CONFIRMED]
  [(QUIC_PN_INITIAL, 0); (QUIC_PN_INITIAL, 1); (QUIC_PN_APPLICATION, 0)] conn_example.
Proof.
  assert (H0 : conn_reach [] [] (mk_conn QUIC_PHASE_INITIAL [0; 0; 0]))
    by (apply (conn_started (mk_conn QUIC_PHASE_CLOSED [7; 8; 9])); reflexivity).
  assert (H1 := conn_gave _ _ _ QUIC_PN_INITIAL 0 _ H0 eq_refl).
  assert (H2 := conn_gave _ _ _ QUIC_PN_INITIAL 1 _ H1 eq_refl).
  assert (H3 := conn_stepped _ _ _ QUIC_CONN_EV_HS_PROGRESS _ H2 eq_refl).
  assert (H4 := conn_stepped _ _ _ QUIC_CONN_EV_HS_CONFIRMED _ H3 eq_refl).
  exact (conn_gave _ _ _ QUIC_PN_APPLICATION 0 _ H4 eq_refl).
Qed.

Lemma conn_packet_numbers_witness :
  [QUIC_CONN_EV_HS_PROGRESS; QUIC_CONN_EV_HS_CONFIRMED] ∈ phase_hists QUIC_PHASE_CONFIRMED /\
  [0] = seqZ 0 1 /\
  exists c', quic_conn_next_pn conn_example QUIC_PN_APPLICATION = Some (Some 1, c').
Proof.
  apply (conn_packet_numbers [QUIC_CONN_EV_HS_PROGRESS; QUIC_CONN_EV_HS_CONFIRMED]
    [(QUIC_PN_INITIAL, 0); (QUIC_PN_INITIAL, 1); (QUIC_PN_APPLICATION, 0)] conn_example QUIC_PN_APPLICATION).
  - exact conn_example_reach.
  - reflexivity.
Defined.

(** * Closing *)

Inductive life_op := LTick | LRecv | LSend | LClose | LPeerClose | LReset.

Definition life_exec (op : life_op) (l : quic_life) : quic_life :=
  match op with
  | LTick => quic_life_tick l
  | LRecv => quic_life_on_recv l
  | LSend => quic_life_on_send l
  | LClose => quic_life_close l
  | LPeerClose => quic_life_on_peer_close l
  | LReset => quic_life_on_reset l
  end.

Fixpoint life_run (ops : list life_op) (l : quic_life) : quic_life :=
  match ops with
  | [] => l
  | op :: ops' => life_run ops' (life_exec op l)
  end.

Definition is_tick (op : life_op) : Z := match op with LTick => 1 | _ => 0 end.
Fixpoint ticks (ops : list life_op) : Z :=
  match ops with [] => 0 | op :: ops' => is_tick op + ticks ops' end.

Lemma ticks_nonneg ops : 0 <= ticks ops.
Proof. induction ops as [|[] ops IH]; cbn [ticks is_tick]; lia. Qed.

(** Packets sent or received keep an open connection open. *)
Definition quiet (op : life_op) : bool := match op with LRecv | LSend => false | _ => true end.

Definition life_inv (l : quic_life) : Prop :=
  1 <= lf_idle_max l < 18446744073709551616 /\ 1 <= lf_close_max l < 18446744073709551616 /\
  match lf_phase l with
  | QUIC_LIFE_OPEN => 0 <= lf_idle_ticks l < lf_idle_max l /\ lf_close_ticks l = 0 /\
                      lf_sent_close l = 0 /\ lf_notified l = 0
  | QUIC_LIFE_CLOSING => 0 <= lf_close_ticks l < lf_close_max l /\ lf_sent_close l = 1 /\ lf_notified l = 1
  | QUIC_LIFE_DRAINING => 0 <= lf_close_ticks l < lf_close_max l /\ lf_sent_close l = 0 /\ lf_notified l = 1
  | QUIC_LIFE_CLOSED => True
  end.

(** Ticks that remain, at most, before the connection is closed. *)
Definition life_left (l : quic_life) : Z :=
  match lf_phase l with
  | QUIC_LIFE_OPEN => lf_idle_max l - lf_idle_ticks l + lf_close_max l
  | QUIC_LIFE_CLOSED => 0
  | _ => lf_close_max l - lf_close_ticks l
  end.

(** Evaluate an operation on a state whose phase is known. *)
Ltac life_eval :=
  unfold quic_life_tick, quic_life_on_recv, quic_life_on_send, quic_life_close, quic_life_on_peer_close,
    quic_life_on_reset, tick_open, tick_closing, set_phase; cbn [lf_phase];
  repeat match goal with
  | |- context [bool_decide ?P] =>
      let b := eval vm_compute in (bool_decide P) in change (bool_decide P) with b
  end;
  cbn [negb lf_phase lf_idle_ticks lf_idle_max lf_close_ticks lf_close_max lf_sent_close lf_notified].

Ltac life_cases :=
  repeat match goal with
  | |- context [if ?a <=? ?b then _ else _] => destruct (Z.leb_spec a b)
  end.

Lemma life_exec_spec op l : life_inv l ->
  life_inv (life_exec op l) /\ lf_idle_max (life_exec op l) = lf_idle_max l /\
  lf_close_max (life_exec op l) = lf_close_max l /\
  (quiet op = true \/ lf_phase l <> QUIC_LIFE_OPEN ->
     life_left (life_exec op l) <= Z.max 0 (life_left l - is_tick op)) /\
  (lf_phase l <> QUIC_LIFE_OPEN -> lf_phase (life_exec op l) <> QUIC_LIFE_OPEN /\
     lf_sent_close (life_exec op l) = lf_sent_close l /\ lf_notified (life_exec op l) = lf_notified l) /\
  (lf_phase l = QUIC_LIFE_CLOSED -> life_exec op l = l).
Proof.
  intros (Hi & Hc & Hp). destruct l as [p it im ct cm sc nt]. cbn in Hi, Hc, Hp.
  destruct op, p; cbn in Hp; cbn [life_exec]; life_eval;
    rewrite ?(u64_id (it + 1)) by (unfold is_u64; lia); rewrite ?(u64_id (ct + 1)) by (unfold is_u64; lia);
    life_cases; unfold life_inv, life_left; cbn; intuition (try discriminate; try congruence; try lia).
Qed.

Lemma life_run_spec ops : forall l, life_inv l ->
  life_inv (life_run ops l) /\
  (forallb quiet ops = true \/ lf_phase l <> QUIC_LIFE_OPEN ->
     life_left (life_run ops l) <= Z.max 0 (life_left l - ticks ops)) /\
  (lf_phase l <> QUIC_LIFE_OPEN -> lf_phase (life_run ops l) <> QUIC_LIFE_OPEN /\
     lf_sent_close (life_run ops l) = lf_sent_close l /\ lf_notified (life_run ops l) = lf_notified l).
Proof.
  induction ops as [|op ops IH]; intros l Hl; cbn [life_run ticks forallb].
  - split_and!; try done; try lia.
  - destruct (life_exec_spec op l Hl) as (H1 & H2 & H3 & H4 & H5 & H6).
    destruct (IH (life_exec op l) H1) as (I1 & I2 & I3). split_and!; [done| |].
    + intros Hq. assert (Hq1 : quiet op = true \/ lf_phase l <> QUIC_LIFE_OPEN) by (destruct Hq as [Hq|]; [left; apply andb_true_iff in Hq; tauto|by right]).
      assert (Hq2 : forallb quiet ops = true \/ lf_phase (life_exec op l) <> QUIC_LIFE_OPEN).
      { destruct Hq as [Hq|Hq]; [left; apply andb_true_iff in Hq; tauto|right; by apply H5]. }
      specialize (H4 Hq1). specialize (I2 Hq2). pose proof (ticks_nonneg ops). destruct op; cbn [is_tick] in *; lia.
    + intros Hn. destruct (H5 Hn) as (J1 & J2 & J3). destruct (I3 J1) as (K1 & K2 & K3).
      split_and!; [done|congruence|congruence].
Qed.

Lemma life_left_closed l : life_inv l -> life_left l <= 0 -> lf_phase l = QUIC_LIFE_CLOSED.
Proof.
  intros (Hi & Hc & Hp) Hl. unfold life_left in Hl. destruct (lf_phase l); try done; lia.
Qed.

(** Until its timer runs out a closing connection stays as it is. *)
Lemma life_closing_stays ops : forall l, life_inv l ->
  lf_phase l = QUIC_LIFE_CLOSING \/ lf_phase l = QUIC_LIFE_DRAINING ->
  LReset ∉ ops -> lf_close_ticks l + ticks ops < lf_close_max l ->
  lf_phase (life_run ops l) = lf_phase l.
Proof.
  induction ops as [|op ops IH]; intros l Hl Hp Hr Ht; cbn [life_run]; [done|]. cbn [ticks] in Ht.
  pose proof (ticks_nonneg ops).
  assert (Hne : op <> LReset) by (intros ->; apply Hr; left).
  destruct (life_exec_spec op l Hl) as (H1 & _ & H3 & _).
  assert (Hs : lf_phase (life_exec op l) = lf_phase l /\ lf_close_ticks (life_exec op l) = lf_close_ticks l + is_tick op).
  { destruct Hl as (Hi & Hc & Hl). destruct l as [p it im ct cm sc nt]. cbn in *.
    destruct op, Hp as [-> | ->]; try done; cbn [life_exec]; life_eval; try (split; [done|cbn; lia]);
      cbn in Ht, Hl; rewrite (u64_id (ct + 1)) by (unfold is_u64; lia); zdecide; done. }
  destruct Hs as [Hs1 Hs2]. rewrite IH; [done|done|by rewrite Hs1| |lia].
  intros Hin. apply Hr. by right.
Qed.

(** How a connection leaves the open phase, from the operations alone: the first
    close of either side or reset, unless the idle timer runs out before. *)
Inductive life_end := EndClose | EndPeerClose | EndReset | EndIdle.

Fixpoint life_end_of (idle_max idle : Z) (ops : list life_op) : option life_end :=
  match ops with
  | [] => None
  | LTick :: ops' => if idle_max <=? idle + 1 then Some EndIdle else life_end_of idle_max (idle + 1) ops'
  | LRecv :: ops' | LSend :: ops' => life_end_of idle_max 0 ops'
  | LClose :: _ => Some EndClose
  | LPeerClose :: _ => Some EndPeerClose
  | LReset :: _ => Some EndReset
  end.

(** What each end leaves behind: a CONNECTION_CLOSE is sent only for our own close, and
    the application is told of a close of either side, not of a reset or an idle timeout. *)
Definition life_outcome (e : option life_end) (l : quic_life) : Prop :=
  match e with
  | None => lf_phase l = QUIC_LIFE_OPEN /\ lf_sent_close l = 0 /\ lf_notified l = 0
  | Some EndClose => lf_phase l <> QUIC_LIFE_OPEN /\ lf_sent_close l = 1 /\ lf_notified l = 1
  | Some EndPeerClose => lf_phase l <> QUIC_LIFE_OPEN /\ lf_sent_close l = 0 /\ lf_notified l = 1
  | Some _ => lf_phase l = QUIC_LIFE_CLOSED /\ lf_sent_close l = 0 /\ lf_notified l = 0
  end.

Lemma life_run_closed ops : forall l, life_inv l -> lf_phase l = QUIC_LIFE_CLOSED -> life_run ops l = l.
Proof.
  induction ops as [|op ops IH]; intros l Hl Hc; [done|]. cbn [life_run].
  destruct (life_exec_spec op l Hl) as (_ & _ & _ & _ & _ & H). rewrite (H Hc). by apply IH.
Qed.

Lemma life_end_spec ops : forall l, life_inv l -> lf_phase l = QUIC_LIFE_OPEN ->
  life_outcome (life_end_of (lf_idle_max l) (lf_idle_ticks l) ops) (life_run ops l).
Proof.
  induction ops as [|op ops IH]; intros l Hl Ho.
  { destruct Hl as (_ & _ & Hp). rewrite Ho in Hp. cbn. tauto. }
  pose proof Hl as (Hi & _ & Hp). rewrite Ho in Hp. cbn [life_run].
  destruct (life_exec_spec op l Hl) as (H1 & Hm & _). specialize (IH (life_exec op l) H1). rewrite Hm in IH.
  destruct (life_run_spec ops (life_exec op l) H1) as (_ & _ & Hsame). pose proof (life_run_closed ops (life_exec op l) H1) as Hcl.
  destruct l as [p it im ct cm sc nt]. cbn in Ho, Hi, Hp, IH |- *. subst p. destruct Hp as (Hit & -> & -> & ->).
  revert IH Hsame Hcl. destruct op; cbn [life_exec life_end_of]; life_eval; rewrite ?(u64_id (it + 1)) by (unfold is_u64; lia);
    life_cases; cbn [lf_phase lf_idle_ticks lf_sent_close lf_notified]; intros IH Hsame Hcl; try (by apply IH).
  - by rewrite Hcl.
  - destruct (Hsame ltac:(discriminate)) as (? & ? & ?). done.
  - destruct (Hsame ltac:(discriminate)) as (? & ? & ?). done.
  - by rewrite Hcl.
Qed.

(** C37: a connection that closes ends, in time and for good.  For every connection
    reached from the initial state by any operations, and any further operations:
    it is open until the first close of either side, reset or idle timeout; a
    CONNECTION_CLOSE was sent exactly if it was our close, and the application was
    told exactly if it was a close of either side (a reset and an idle timeout are
    silent); once it has left the open phase it never reopens and neither of these
    changes again; a closing or draining connection is closed once [close_max] more
    ticks have passed, whatever else happens, and not before its timer unless a
    reset arrives; an open connection that neither sends nor receives is closed
    after at most [idle_max + close_max] ticks; and application data may be sent
    exactly while it is open. *)
Theorem life_ends ops0 ops idle_max close_max
  (Hi : 1 <= idle_max < 18446744073709551616) (Hc : 1 <= close_max < 18446744073709551616) :
  let l := life_run ops0 (quic_life_init idle_max close_max) in
  let l' := life_run ops l in
  life_outcome (life_end_of idle_max 0 ops0) l /\
  (lf_phase l <> QUIC_LIFE_OPEN -> lf_phase l' <> QUIC_LIFE_OPEN /\
     lf_sent_close l' = lf_sent_close l /\ lf_notified l' = lf_notified l) /\
  (lf_phase l <> QUIC_LIFE_OPEN -> close_max <= ticks ops -> lf_phase l' = QUIC_LIFE_CLOSED) /\
  (lf_phase l = QUIC_LIFE_CLOSING \/ lf_phase l = QUIC_LIFE_DRAINING -> LReset ∉ ops ->
     lf_close_ticks l + ticks ops < close_max -> lf_phase l' = lf_phase l) /\
  (forallb quiet ops = true -> idle_max + close_max <= ticks ops -> lf_phase l' = QUIC_LIFE_CLOSED) /\
  (quic_life_send_kind l = QUIC_SEND_APPDATA <-> lf_phase l = QUIC_LIFE_OPEN).
Proof.
  intros l l'. assert (H0 : life_inv (quic_life_init idle_max close_max)) by (unfold life_inv; cbn; lia).
  destruct (life_run_spec ops0 _ H0) as (Hl & _ & _). fold l in Hl.
  destruct (life_run_spec ops l Hl) as (Hl' & Hleft & Hsame). fold l' in Hl', Hleft, Hsame.
  assert (Hmax : lf_idle_max l = idle_max /\ lf_close_max l = close_max).
  { unfold l. clear -H0. remember (quic_life_init idle_max close_max) as i eqn:E.
    assert (lf_idle_max i = idle_max /\ lf_close_max i = close_max) as Hm by (by subst). clear E. revert i H0 Hm.
    induction ops0 as [|op ops0 IH]; intros i H0 Hm; [done|]. cbn [life_run].
    destruct (life_exec_spec op i H0) as (H1 & H2 & H3 & _). apply IH; [done|]. by rewrite H2, H3. }
  destruct Hmax as [Hm1 Hm2].
  assert (Hb : life_left l <= idle_max + close_max /\ (lf_phase l <> QUIC_LIFE_OPEN -> life_left l <= close_max)).
  { destruct Hl as (_ & _ & Hp). unfold life_left. destruct (lf_phase l); split; try done; intros; lia. }
  split; [|split_and!].
  - exact (life_end_spec ops0 (quic_life_init idle_max close_max) H0 eq_refl).
  - exact Hsame.
  - intros Hn Ht. apply life_left_closed; [done|]. specialize (Hleft (or_intror Hn)). pose proof (proj2 Hb Hn). lia.
  - intros Hp Hr Ht. by apply life_closing_stays; try done; rewrite Hm2.
  - intros Hq Ht. apply life_left_closed; [done|]. specialize (Hleft (or_introl Hq)). lia.
  - unfold quic_life_send_kind, send_by_phase. by destruct (lf_phase l).
Qed.

(** Witness of C37: closed by the application, then three ticks of a three-tick
    closing period. *)
Lemma life_ends_witness :
  let l := life_run [LTick; LClose] (quic_life_init 5 3) in
  let l' := life_run [LTick; LRecv; LTick; LTick] l in
  life_outcome (Some EndClose) l /\
  (lf_phase l <> QUIC_LIFE_OPEN -> lf_phase l' <> QUIC_LIFE_OPEN /\
     lf_sent_close l' = lf_sent_close l /\ lf_notified l' = lf_notified l) /\
  (lf_phase l <> QUIC_LIFE_OPEN -> 3 <= 3 -> lf_phase l' = QUIC_LIFE_CLOSED) /\
  (lf_phase l = QUIC_LIFE_CLOSING \/ lf_phase l = QUIC_LIFE_DRAINING -> LReset ∉ [LTick; LRecv; LTick; LTick] ->
     lf_close_ticks l + 3 < 3 -> lf_phase l' = lf_phase l) /\
  (forallb quiet [LTick; LRecv; LTick; LTick] = true -> 5 + 3 <= 3 -> lf_phase l' = QUIC_LIFE_CLOSED) /\
  (quic_life_send_kind l = QUIC_SEND_APPDATA <-> lf_phase l = QUIC_LIFE_OPEN).
Proof. apply (life_ends [LTick; LClose] [LTick; LRecv; LTick; LTick] 5 3); lia. Defined.
