(* ===== verification/PnSpace.v ===== *)
(** Received packet numbers: [transport/conn/pnspace/recvpn/recvpn.c], and the
    three independent spaces of [transport/conn/pnspace/pnspaces].

    The receiver keeps the largest number and a 64-bit window below it.  The
    theorems relate the bitmap to the set of numbers recorded, and compose it with
    the ACK range builder and the sender's table. *)
From S2P Require Import Prelude Slots AckLoss Lifecycle.

(** * recvpn.c *)

Definition QUIC_RECVPN_WINDOW : Z := 64.

Record quic_recvpn := mk_recvpn { rp_largest : Z; rp_bitmap : Z; rp_any : bool }.

Definition quic_recvpn_init : quic_recvpn := mk_recvpn 0 0 false.

Definition below_seen (r : quic_recvpn) (pn : Z) : bool :=
  let delta := rp_largest r -w pn in
  if QUIC_RECVPN_WINDOW <? delta then false
  else negb (Z.land (Z.shiftr (rp_bitmap r) (delta -w 1)) 1 =? 0).

Definition seen_at_or_above (r : quic_recvpn) (pn : Z) : bool :=
  if pn =? rp_largest r then true
  else if rp_largest r <? pn then false else below_seen r pn.

Definition quic_recvpn_seen (r : quic_recvpn) (pn : Z) : bool :=
  if negb (rp_any r) then false else seen_at_or_above r pn.

Definition recvpn_advance (r : quic_recvpn) (pn : Z) : quic_recvpn :=
  let step := pn -w rp_largest r in
  let shifted := if 64 <=? step then 0 else rp_bitmap r <<w step in
  let old_bit := if step <=? 64 then 1 <<w (step -w 1) else 0 in
  mk_recvpn pn (Z.lor shifted old_bit) (rp_any r).

Definition mark_below (r : quic_recvpn) (pn : Z) : quic_recvpn :=
  let delta := rp_largest r -w pn in
  if (delta =? 0) || (QUIC_RECVPN_WINDOW <? delta) then r
  else mk_recvpn (rp_largest r) (Z.lor (rp_bitmap r) (1 <<w (delta -w 1))) (rp_any r).

Definition quic_recvpn_record (r : quic_recvpn) (pn : Z) : quic_recvpn :=
  if negb (rp_any r) then mk_recvpn pn (rp_bitmap r) true
  else if rp_largest r <? pn then recvpn_advance r pn
  else mark_below r pn.

Definition run_continues (r : quic_recvpn) (i : Z) : bool :=
  (i <? QUIC_RECVPN_WINDOW) && negb (Z.land (Z.shiftr (rp_bitmap r) i) 1 =? 0).

(** [while (run_continues(r, count)) count++;]: the window bounds the rounds. *)
Fixpoint first_range_loop (k : nat) (r : quic_recvpn) (count : Z) : option Z :=
  if run_continues r count
  then match k with O => None | S k' => first_range_loop k' r (count +w 1) end
  else Some count.

Definition quic_recvpn_first_range (r : quic_recvpn) : option Z :=
  if negb (rp_any r) then Some 0 else first_range_loop (Z.to_nat QUIC_RECVPN_WINDOW) r 0.

(** * pnspaces *)

Record quic_pnspaces := mk_pnspaces { sp_pn : quic_pnspace }.

Definition quic_pnspaces_init (s : quic_pnspaces) : option quic_pnspaces :=
  match quic_pnspace_init (sp_pn s) with None => None | Some p => Some (mk_pnspaces p) end.

Definition quic_pnspaces_next_pn (s : quic_pnspaces) (space : Z) : option (Z * quic_pnspaces) :=
  match quic_pnspace_next (sp_pn s) space with
  | None => None
  | Some (pn, p) => Some (pn, mk_pnspaces p)
  end.

Definition quic_pnspaces_sent : Type := list quic_sentpkt.

Definition quic_pnspaces_sent_init (s : quic_pnspaces_sent) : quic_pnspaces_sent := map quic_sentpkt_init s.

Definition quic_pnspaces_on_send (s : quic_pnspaces_sent) (space pn time ack_eliciting size : Z)
  : option (bool * quic_pnspaces_sent) :=
  match load s space with
  | None => None
  | Some t =>
      match quic_sentpkt_on_send t pn time ack_eliciting size with
      | None => None
      | Some (ok, t') => match store s space t' with None => None | Some s' => Some (ok, s') end
      end
  end.

Definition quic_pnspaces_on_ack (s : quic_pnspaces_sent) (space ack_largest : Z) (ack_ranges : list Z) (n_ranges : Z)
  : option (quic_pnspaces_sent * list Z) :=
  match load s space with
  | None => None
  | Some t =>
      match quic_ack_process t ack_largest ack_ranges n_ranges with
      | None => None
      | Some (t', acked) => match store s space t' with None => None | Some s' => Some (s', acked) end
      end
  end.

Definition quic_pnspaces_sent_count (s : quic_pnspaces_sent) (space : Z) : option Z :=
  match load s space with None => None | Some t => Some (quic_sentpkt_count t) end.

Definition quic_pnspaces_recv : Type := list quic_recvpn.

Definition quic_pnspaces_recv_init (s : quic_pnspaces_recv) : quic_pnspaces_recv :=
  map (fun _ => quic_recvpn_init) s.

Definition quic_pnspaces_on_recv (s : quic_pnspaces_recv) (space pn : Z) : option quic_pnspaces_recv :=
  match load s space with
  | None => None
  | Some r => store s space (quic_recvpn_record r pn)
  end.

Definition QUIC_PNSPACES_ACK_CAP : Z := QUIC_RECVPN_WINDOW + 1.

(** [for (d = k; d >= 1; d--) if (seen(largest - d)) out[n++] = largest - d;];
    the list is what has been written to [out]. *)
Fixpoint collect_loop (k : nat) (r : quic_recvpn) (out : list Z) : list Z :=
  match k with
  | O => out
  | S k' =>
      let pn := rp_largest r -w Z.of_nat k in
      collect_loop k' r (if quic_recvpn_seen r pn then out ++ [pn] else out)
  end.

Definition collect_pns (r : quic_recvpn) : list Z :=
  collect_loop (Z.to_nat QUIC_RECVPN_WINDOW) r [] ++ [rp_largest r].

(** [Some (Some (largest, ranges))]: returned 1; [Some None]: returned 0. *)
Definition quic_pnspaces_ack_ranges (s : quic_pnspaces_recv) (space cap : Z) : option (option (Z * list Z)) :=
  match load s space with
  | None => None
  | Some r =>
      if negb (rp_any r) then Some None
      else let pns := collect_pns r in quic_ackgen_build_ranges pns (zlen pns) cap
  end.

(** * The bitmap and the set of numbers recorded *)

Definition recorded (h : list Z) : quic_recvpn := fold_left quic_recvpn_record h quic_recvpn_init.

(** Bit [i] of the window says whether [largest - 1 - i] is in [h]. *)
Definition window_of (h : list Z) (r : quic_recvpn) : Prop :=
  rp_any r = negb (bool_decide (h = [])) /\ (h = [] -> rp_bitmap r = 0) /\
  (h <> [] -> In (rp_largest r) h) /\ Forall (fun pn => 0 <= pn <= rp_largest r) h /\
  0 <= rp_bitmap r < 2 ^ 64 /\
  forall i, 0 <= i < 64 -> Z.testbit (rp_bitmap r) i = true <-> In (rp_largest r - 1 - i) h.

Lemma bit_test x i : 0 <= i -> negb (Z.land (Z.shiftr x i) 1 =? 0) = Z.testbit x i.
Proof.
  intros Hi. change 1 with (Z.ones 1). rewrite Z.land_ones by lia. change (2 ^ 1) with 2.
  rewrite <- Z.bit0_mod, Z.shiftr_spec, Z.add_0_l by lia. by destruct (Z.testbit x i).
Qed.

Lemma testbit_u64 x i : 0 <= i < 64 -> Z.testbit (u64 x) i = Z.testbit x i.
Proof. intros. unfold u64. change 18446744073709551616 with (2 ^ 64). apply Z.mod_pow2_bits_low. lia. Qed.

Lemma lor_u64 a b : 0 <= a < 2 ^ 64 -> 0 <= b < 2 ^ 64 -> 0 <= Z.lor a b < 2 ^ 64.
Proof.
  intros Ha Hb. split; [apply Z.lor_nonneg; lia|].
  destruct (Z.eq_dec (Z.lor a b) 0) as [->|Hne]; [lia|]. apply Z.log2_lt_pow2.
  { pose proof (proj2 (Z.lor_nonneg a b)). lia. }
  rewrite Z.log2_lor by lia. apply Z.max_lub_lt; (destruct (Z.eq_dec a 0), (Z.eq_dec b 0); subst; try (simpl; lia));
    apply Z.log2_lt_pow2; lia.
Qed.

Lemma testbit_one_shl k i : 0 <= k < 64 -> 0 <= i < 64 -> Z.testbit (1 <<w k) i = (i =? k).
Proof.
  intros Hk Hi. rewrite testbit_u64, Z.shiftl_spec by lia. destruct (Z.eqb_spec i k) as [->|Hne].
  - by rewrite Z.sub_diag.
  - destruct (Z.lt_ge_cases i k); [by rewrite Z.testbit_neg_r by lia|].
    change 1 with (2 ^ 0). apply Z.pow2_bits_false. lia.
Qed.

Lemma window_init : window_of [] quic_recvpn_init.
Proof.
  unfold window_of. cbn. split_and!; try done. intros i Hi. rewrite Z.testbit_0_l. by split.
Qed.

Lemma window_advance h r pn : h <> [] -> window_of h r -> rp_largest r < pn < 2 ^ 62 ->
  window_of (h ++ [pn]) (recvpn_advance r pn).
Proof.
  intros Hne (Hany & _ & Hin & Hle & Hbm & Hbit) Hpn.
  assert (Hl0 : 0 <= rp_largest r) by (specialize (Hin Hne); rewrite List.Forall_forall in Hle; apply Hle in Hin; lia).
  unfold recvpn_advance. rewrite (u64_id (pn - rp_largest r)) by (unfold is_u64; lia).
  set (step := pn - rp_largest r). rewrite (u64_id (step - 1)) by (unfold is_u64; lia).
  unfold window_of. cbn [rp_any rp_largest rp_bitmap]. split_and!.
  - rewrite Hany, !bool_decide_eq_false_2; [done| |done]. by destruct h.
  - by destruct h.
  - intros _. apply in_app_iff. right. by left.
  - apply Forall_app. split; [|apply Forall_cons_iff; split; [lia|constructor]].
    eapply List.Forall_impl; [|exact Hle]. simpl. intros; lia.
  - apply lor_u64; [destruct (64 <=? step)|destruct (step <=? 64)]; try lia; apply u64_range.
  - apply lor_u64; [destruct (64 <=? step)|destruct (step <=? 64)]; try lia; apply u64_range.
  - intros i Hi. rewrite Z.lor_spec, orb_true_iff, in_app_iff. cbn [In].
    assert (H1 : Z.testbit (if 64 <=? step then 0 else rp_bitmap r <<w step) i = true <->
                 step <= i /\ In (pn - 1 - i) h).
    { destruct (Z.leb_spec 64 step).
      - rewrite Z.testbit_0_l. split; [done|lia].
      - rewrite testbit_u64, Z.shiftl_spec by lia. destruct (Z.lt_ge_cases i step).
        + rewrite Z.testbit_neg_r by lia. split; [done|lia].
        + rewrite Hbit by lia. replace (rp_largest r - 1 - (i - step)) with (pn - 1 - i) by lia. tauto. }
    assert (H2 : Z.testbit (if step <=? 64 then 1 <<w (step - 1) else 0) i = true <-> i = step - 1).
    { destruct (Z.leb_spec step 64).
      - rewrite testbit_one_shl by lia. by rewrite Z.eqb_eq.
      - rewrite Z.testbit_0_l. split; [done|lia]. }
    rewrite H1, H2. rewrite List.Forall_forall in Hle. split.
    + intros [[_ ?]| ->]; [by left|]. left. replace (pn - 1 - (step - 1)) with (rp_largest r) by lia. auto.
    + intros [Hh|[?|[]]]; [|lia]. destruct (Z.eq_dec i (step - 1)); [by right|left].
      split; [|done]. specialize (Hle _ Hh). simpl in Hle. lia.
Qed.

Lemma window_below h r pn : h <> [] -> window_of h r -> 0 <= pn <= rp_largest r -> rp_largest r < 2 ^ 62 ->
  window_of (h ++ [pn]) (mark_below r pn).
Proof.
  intros Hne (Hany & _ & Hin & Hle & Hbm & Hbit) Hpn Hl.
  assert (Hany' : rp_any r = negb (bool_decide (h ++ [pn] = []))).
  { rewrite Hany, !bool_decide_eq_false_2; [done| |done]. by destruct h. }
  assert (Hle' : Forall (fun x => 0 <= x <= rp_largest r) (h ++ [pn])).
  { apply Forall_app. split; [done|apply Forall_cons_iff; split; [lia|constructor]]. }
  assert (Hin' : In (rp_largest r) (h ++ [pn])) by (apply in_app_iff; auto).
  assert (Hnn : h ++ [pn] = [] -> rp_bitmap r = 0) by (by destruct h).
  unfold mark_below. rewrite (u64_id (rp_largest r - pn)) by (unfold is_u64; lia).
  set (delta := rp_largest r - pn) in *. unfold QUIC_RECVPN_WINDOW.
  destruct (Z.eqb_spec delta 0); simpl orb; [|destruct (Z.ltb_spec 64 delta)].
  - unfold window_of. split_and!; try done; try lia. intros i Hi. rewrite Hbit, in_app_iff by done.
    split; [by left|]. intros [?|[?|[]]]; [done|]. lia.
  - unfold window_of. split_and!; try done; try lia. intros i Hi. rewrite Hbit, in_app_iff by done.
    split; [by left|]. intros [?|[?|[]]]; [done|]. lia.
  - rewrite (u64_id (delta - 1)) by (unfold is_u64; lia). unfold window_of. cbn [rp_any rp_largest rp_bitmap].
    split_and!; try done; [by destruct h|apply lor_u64; [lia|apply u64_range]..|].
    intros i Hi. rewrite Z.lor_spec, orb_true_iff, testbit_one_shl, Z.eqb_eq, Hbit, in_app_iff by lia. cbn [In].
    split; [intros [?|?]; [by left|right; left; lia]|intros [?|[?|[]]]; [by left|right; lia]].
Qed.

Lemma window_recorded h : Forall (fun pn => 0 <= pn < 2 ^ 62) h -> window_of h (recorded h).
Proof.
  induction h as [|pn h IH] using rev_ind; intros Hh; [exact window_init|].
  apply Forall_app in Hh as [Hh Hp]. apply Forall_cons_iff in Hp as [Hp _]. specialize (IH Hh).
  unfold recorded in *. rewrite fold_left_app. cbn [fold_left]. set (r := fold_left _ h _) in *.
  unfold quic_recvpn_record. pose proof IH as (Hany & Hz & Hin & Hle & Hbm & Hbit).
  destruct h as [|x h'].
  - rewrite Hany. cbn. unfold window_of. cbn. split_and!; try done; try lia.
    + apply Forall_cons_iff. split; [lia|constructor].
    + intros i Hi. rewrite Z.testbit_0_l. split; [done|]. intros [?|[]]. lia.
  - rewrite Hany, bool_decide_eq_false_2 by done. cbn [negb].
    assert (Hne : x :: h' <> []) by done. specialize (Hin Hne).
    rewrite List.Forall_forall in Hle, Hh. pose proof (Hh _ Hin). simpl in *.
    destruct (Z.ltb_spec (rp_largest r) pn).
    + apply (window_advance (x :: h')); [done|done|lia].
    + apply (window_below (x :: h')); [done|done|lia|lia].
Qed.

Definition mem (h : list Z) (pn : Z) : bool := existsb (Z.eqb pn) h.

Lemma mem_in h pn : mem h pn = true <-> In pn h.
Proof. unfold mem. rewrite existsb_exists. split; [intros (x & ? & ->%Z.eqb_eq); done|intros; exists pn; by rewrite Z.eqb_refl]. Qed.

(** A number is reported as seen exactly when it was recorded and lies in the
    window below the largest. *)
Lemma seen_spec h r pn : window_of h r -> rp_largest r < 2 ^ 62 -> is_u64 pn ->
  quic_recvpn_seen r pn = mem h pn && (rp_largest r - pn <=? QUIC_RECVPN_WINDOW).
Proof.
  intros (Hany & _ & Hin & Hle & Hbm & Hbit) Hl Hpn. unfold is_u64 in Hpn. rewrite List.Forall_forall in Hle.
  unfold quic_recvpn_seen, seen_at_or_above, below_seen, QUIC_RECVPN_WINDOW. rewrite Hany. apply eq_true_iff_eq.
  rewrite andb_true_iff, mem_in, Z.leb_le.
  destruct (decide (h = [])) as [->|Hne]; [by simpl; split; [|intros [[] _]]|].
  specialize (Hin Hne). rewrite bool_decide_eq_false_2 by done. cbn [negb].
  destruct (Z.eqb_spec pn (rp_largest r)) as [->|Hd]; [split; [intros _; split; [done|lia]|done]|].
  destruct (Z.ltb_spec (rp_largest r) pn); [split; [done|intros [Hp _]; apply Hle in Hp; lia]|].
  rewrite (u64_id (rp_largest r - pn)) by (unfold is_u64; lia). zcase; [split; [done|lia]|].
  rewrite (u64_id (_ - 1)), bit_test, Hbit by (unfold is_u64; lia).
  replace (rp_largest r - 1 - (rp_largest r - pn - 1)) with pn by lia. intuition lia.
Qed.

Lemma first_range_spec r (k : nat) : forall count, 0 <= count -> count + Z.of_nat k = 64 ->
  exists c, first_range_loop k r count = Some c /\ count <= c <= 64 /\
    (forall i, count <= i < c -> Z.testbit (rp_bitmap r) i = true) /\
    (c < 64 -> Z.testbit (rp_bitmap r) c = false).
Proof.
  induction k as [|k IH]; intros count H0 Hk; cbn [first_range_loop]; unfold run_continues, QUIC_RECVPN_WINDOW.
  - zdecide. exists count. split_and!; try done; intros; lia.
  - zdecide. cbn [andb]. rewrite bit_test by done. destruct (Z.testbit (rp_bitmap r) count) eqn:E.
    + rewrite u64_id by (unfold is_u64; lia). destruct (IH (count + 1)) as (c & -> & Hc & Hall & Hstop); [lia|lia|].
      exists c. split_and!; try done; try lia. intros i Hi. destruct (Z.eq_dec i count) as [->|]; [done|]. apply Hall. lia.
    + exists count. split_and!; try done; intros; lia.
Qed.

(** Duplicate detection is exact within the window.  After recording any
    packet numbers in any order, [quic_recvpn_seen] reports a number as seen exactly
    when it was recorded and is at most 64 below the largest, and
    [quic_recvpn_first_range] counts the numbers recorded without a gap immediately
    below the largest, up to the window. *)
Theorem recvpn_exact h pn (Hh : Forall (fun x => 0 <= x < 2 ^ 62) h) (Hne : h <> []) (Hpn : is_u64 pn) :
  let r := recorded h in
  In (rp_largest r) h /\ Forall (fun x => x <= rp_largest r) h /\
  quic_recvpn_seen r pn = mem h pn && (rp_largest r - pn <=? QUIC_RECVPN_WINDOW) /\
  exists c, quic_recvpn_first_range r = Some c /\ 0 <= c <= QUIC_RECVPN_WINDOW /\
    (forall i, 1 <= i <= c -> In (rp_largest r - i) h) /\
    (c < QUIC_RECVPN_WINDOW -> ~ In (rp_largest r - 1 - c) h).
Proof.
  intros r. pose proof (window_recorded h Hh) as Hw. fold r in Hw.
  pose proof Hw as (Hany & _ & Hin & Hle & Hbm & Hbit). specialize (Hin Hne).
  assert (Hl : rp_largest r < 2 ^ 62) by (rewrite List.Forall_forall in Hh; apply Hh in Hin; lia).
  split_and!; [done| |by apply seen_spec|].
  - eapply List.Forall_impl; [|exact Hle]. simpl. intros; lia.
  - unfold quic_recvpn_first_range. rewrite Hany, bool_decide_eq_false_2 by done. cbn [negb].
    destruct (first_range_spec r (Z.to_nat QUIC_RECVPN_WINDOW) 0) as (c & -> & Hc & Hall & Hstop); [lia|done|].
    unfold QUIC_RECVPN_WINDOW. exists c. split_and!; try done; try lia.
    + intros i Hi. replace (rp_largest r - i) with (rp_largest r - 1 - (i - 1)) by lia.
      apply Hbit; [lia|]. apply Hall. lia.
    + intros Hc64 Hx. apply Hbit in Hx; [|lia]. rewrite Hstop in Hx; [done|lia].
Qed.

(** Witness: out of order, with a duplicate and a number far behind. *)
Lemma recvpn_exact_witness :
  let r := recorded [5; 200; 198; 199; 5] in
  In (rp_largest r) [5; 200; 198; 199; 5] /\ Forall (fun x => x <= rp_largest r) [5; 200; 198; 199; 5] /\
  quic_recvpn_seen r 198 = true /\
  exists c, quic_recvpn_first_range r = Some c /\ 0 <= c <= 64 /\
    (forall i, 1 <= i <= c -> In (rp_largest r - i) [5; 200; 198; 199; 5]) /\
    (c < 64 -> ~ In (rp_largest r - 1 - c) [5; 200; 198; 199; 5]).
Proof.
  apply (recvpn_exact [5; 200; 198; 199; 5] 198).
  - rewrite !Forall_cons_iff. split_and!; try lia. constructor.
  - discriminate.
  - closed_arith.
Defined.

(** * From packets received to packets acknowledged *)

Lemma seqZ_step i n : 0 < n -> seqZ i n = i :: seqZ (i + 1) (n - 1).
Proof. intros. rewrite seqZ_cons by lia. unfold Z.succ. by rewrite <- Z.sub_1_r. Qed.

(** What the collecting loop writes: the numbers recorded, lowest first. *)
Lemma collect_loop_spec h r (k : nat) : forall out, window_of h r -> rp_largest r < 2 ^ 62 -> h <> [] ->
  Z.of_nat k <= 64 ->
  collect_loop k r out = out ++ List.filter (mem h) (seqZ (rp_largest r - Z.of_nat k) (Z.of_nat k)).
Proof.
  induction k as [|k IH]; intros out Hw Hl Hne Hk; cbn [collect_loop]; [by rewrite app_nil_r|].
  rewrite IH by (done || lia). rewrite (seqZ_step _ (Z.of_nat (S k))) by lia.
  replace (rp_largest r - Z.of_nat (S k) + 1) with (rp_largest r - Z.of_nat k) by lia.
  replace (Z.of_nat (S k) - 1) with (Z.of_nat k) by lia. cbn [List.filter].
  set (pn := rp_largest r - Z.of_nat (S k)). pose proof Hw as (_ & _ & Hin & Hle & _).
  rewrite List.Forall_forall in Hle. specialize (Hin Hne). pose proof (Hle _ Hin) as Hlb. simpl in Hlb.
  assert (Hs : quic_recvpn_seen r (u64 pn) = mem h pn /\ (mem h pn = true -> u64 pn = pn)).
  { rewrite (seen_spec h) by (done || apply u64_range). unfold QUIC_RECVPN_WINDOW.
    destruct (Z.lt_ge_cases pn 0) as [Hneg|Hpos].
    - assert (Hu : u64 pn = pn + 18446744073709551616).
      { unfold pn. rewrite u64_sub_underflow; unfold is_u64; lia. }
      assert (Hm1 : mem h (u64 pn) = false).
      { apply not_true_iff_false. rewrite mem_in. intros Hx. apply Hle in Hx. lia. }
      assert (Hm2 : mem h pn = false).
      { apply not_true_iff_false. rewrite mem_in. intros Hx. apply Hle in Hx. lia. }
      rewrite Hm1, Hm2. done.
    - rewrite u64_id by (unfold is_u64; lia). rewrite andb_comm. zdecide. done. }
  destruct Hs as [-> Hu]. destruct (mem h pn); [|done]. rewrite Hu by done. by rewrite <- app_assoc.
Qed.

Lemma ascending_cons x l : Forall (fun y => x < y) l -> ascending l -> ascending (x :: l).
Proof. destruct l as [|y l]; [done|]. intros Hf Ha. apply Forall_cons_iff in Hf as [? _]. by split. Qed.

Lemma filter_seqZ_bounds f (n : nat) : forall i, Forall (fun y => i <= y < i + Z.of_nat n) (List.filter f (seqZ i (Z.of_nat n))).
Proof.
  intros i. apply List.Forall_forall. intros x Hx. apply filter_In in Hx as [Hx _].
  apply list_elem_of_In, elem_of_seqZ in Hx. lia.
Qed.

Lemma ascending_filter_seqZ f top (n : nat) : forall i, i + Z.of_nat n = top ->
  ascending (List.filter f (seqZ i (Z.of_nat n)) ++ [top]).
Proof.
  induction n as [|n IH]; intros i Hi; [done|]. rewrite (seqZ_step i) by lia.
  replace (Z.of_nat (S n) - 1) with (Z.of_nat n) by lia. cbn [List.filter].
  specialize (IH (i + 1) ltac:(lia)). destruct (f i); [|done]. cbn [app]. apply ascending_cons; [|done].
  apply Forall_app. split; [|apply Forall_cons_iff; split; [lia|constructor]].
  eapply List.Forall_impl; [|apply filter_seqZ_bounds]. simpl. intros; lia.
Qed.

Lemma collect_spec h : Forall (fun x => 0 <= x < 2 ^ 62) h -> h <> [] ->
  let pns := collect_pns (recorded h) in let top := rp_largest (recorded h) in
  ascending pns /\ zlen pns <= QUIC_PNSPACES_ACK_CAP /\ pns <> [] /\
  (forall pn, In pn pns <-> In pn h /\ top - QUIC_RECVPN_WINDOW <= pn).
Proof.
  intros Hh Hne pns top. pose proof (window_recorded h Hh) as Hw. pose proof Hw as (_ & _ & Hin & Hle & _).
  rewrite List.Forall_forall in Hh, Hle. specialize (Hin Hne). fold top in Hin, Hle. pose proof (Hh _ Hin) as Ht.
  assert (E : pns = List.filter (mem h) (seqZ (top - 64) 64) ++ [top]).
  { unfold pns, collect_pns. rewrite (collect_loop_spec h) by (done || (fold top; lia)). done. }
  rewrite E. unfold QUIC_PNSPACES_ACK_CAP, QUIC_RECVPN_WINDOW. split_and!.
  - apply (ascending_filter_seqZ (mem h) top 64). lia.
  - rewrite zlen_app. change (zlen [top]) with 1. unfold zlen.
    pose proof (List.filter_length_le (mem h) (seqZ (top - 64) 64)) as Hf. rewrite length_seqZ in Hf. lia.
  - by destruct (List.filter _ _).
  - intros pn. rewrite in_app_iff, filter_In, <- list_elem_of_In, elem_of_seqZ, mem_in. cbn [In]. split.
    + clear E. clearbody pns top. intros [[? ?]|[<-|[]]]; (split; [assumption|lia]).
    + clear E. clearbody pns top. intros [Hp ?]. pose proof (Hle _ Hp) as Hq. cbn beta in Hq. destruct (Z.eq_dec pn top) as [->|]; [tauto|]. left. split; [lia|done].
Qed.

#[local] Opaque collect_loop.

(** What a receiver acknowledges is what it received.  After recording any
    packet numbers in one space, in any order, the ranges built for that space by
    [quic_pnspaces_ack_ranges], processed by the peer against the table of the same
    space, acknowledge exactly the in-flight packets that were received and are at
    most 64 below the largest, each once; the tables of the other spaces are not
    touched; and the collected numbers fit the 65-entry array. *)
Theorem pnspaces_ack_end_to_end h space rs ts t cap
  (Hh : Forall (fun x => 0 <= x < 2 ^ 62) h) (Hne : h <> [])
  (Hr : load rs space = Some (recorded h)) (Ht : load ts space = Some t) (Hsp : 0 <= space < zlen ts)
  (Hcap : 2 * QUIC_PNSPACES_ACK_CAP <= cap) :
  let top := rp_largest (recorded h) in
  zlen (collect_pns (recorded h)) <= QUIC_PNSPACES_ACK_CAP /\
  exists ranges ts' acked,
    quic_pnspaces_ack_ranges rs space cap = Some (Some (top, ranges)) /\
    quic_pnspaces_on_ack ts space top ranges (zlen ranges) = Some (ts', acked) /\
    Permutation acked (map e_pn (select (fun p => inflight p && mem h (e_pn p) && (top - e_pn p <=? QUIC_RECVPN_WINDOW)) t)) /\
    forall s, s <> space -> load ts' s = load ts s.
Proof.
  intros top. destruct (collect_spec h Hh Hne) as (Ha & Hlen & Hpn & Hin). fold top in Hin.
  assert (Hlt : list.last (collect_pns (recorded h)) = Some top) by (unfold collect_pns; apply last_snoc).
  remember (collect_pns (recorded h)) as pns eqn:Epns. split; [done|].
  assert (Hw := window_recorded h Hh). destruct Hw as (Hany & _).
  assert (Hf : Forall (fun y => 0 <= y < 2 ^ 62) pns).
  { apply List.Forall_forall. intros x Hx. apply Hin in Hx as [Hx _]. rewrite List.Forall_forall in Hh. by apply Hh. }
  unfold QUIC_PNSPACES_ACK_CAP, QUIC_RECVPN_WINDOW in Hlen, Hcap.
  destruct (ack_ranges_agree pns t cap Hpn Ha Hf ltac:(lia) ltac:(lia)) as (lg & ranges & Hb & Hlast & Hz & t' & acked & Hp & Ht' & Hperm).
  assert (lg = top) as ->.
  { rewrite Hlt in Hlast. by injection Hlast. }
  exists ranges, (<[Z.to_nat space := t']> ts), acked. split_and!.
  - unfold quic_pnspaces_ack_ranges. rewrite Hr, Hany, bool_decide_eq_false_2 by done.
    cbn [negb]. cbv zeta. rewrite <- Epns. exact Hb.
  - unfold quic_pnspaces_on_ack. by rewrite Ht, Hp, store_ok by done.
  - rewrite Hperm. erewrite select_ext; [reflexivity|]. intros p. unfold is_received. rewrite <- andb_assoc. f_equal.
    apply eq_true_iff_eq. fold (mem pns (e_pn p)). rewrite mem_in, Hin, andb_true_iff, mem_in, Z.leb_le.
    unfold QUIC_RECVPN_WINDOW. intuition lia.
  - intros s Hs. rewrite load_insert by done. by rewrite (proj2 (Z.eqb_neq s space) Hs).
Qed.

#[local] Transparent collect_loop.

(** Witness: packets 0, 1, 2, 5, 7 of the Handshake space received. *)
Lemma pnspaces_ack_end_to_end_witness :
  zlen (collect_pns (recorded [7; 0; 2; 1; 5; 2])) <= QUIC_PNSPACES_ACK_CAP /\
  exists ranges ts' acked,
    quic_pnspaces_ack_ranges [quic_recvpn_init; recorded [7; 0; 2; 1; 5; 2]; quic_recvpn_init] 1 130 = Some (Some (7, ranges)) /\
    quic_pnspaces_on_ack [[]; table_example; []] 1 7 ranges (zlen ranges) = Some (ts', acked) /\
    Permutation acked [0; 1; 2; 5; 7] /\
    forall s, s <> 1 -> load ts' s = load [[]; table_example; []] s.
Proof.
  apply (pnspaces_ack_end_to_end [7; 0; 2; 1; 5; 2] 1
    [quic_recvpn_init; recorded [7; 0; 2; 1; 5; 2]; quic_recvpn_init] [[]; table_example; []] table_example 130).
  - rewrite !Forall_cons_iff. split_and!; try lia. constructor.
  - discriminate.
  - reflexivity.
  - reflexivity.
  - closed_arith.
  - closed_arith.
Defined.
