(* ===== verification/Sha2.v ===== *)
(** SHA-256, SHA-512 and SHA-384.

    [crypto/symmetric/hash/hash/sha256.c], [sha512.c] and [sha384.c].  The two
    contexts are streamed in the same way, so the code that buffers, absorbs and
    pads is written once over the block size, the compression function and the
    size of the length field ([Section Streaming]); [sha256.c] and [sha512.c] are
    its instances.  Inside the compression functions every index is a constant
    below the size of its array, so these read arrays with [at]; data given by
    the caller is read with checked accesses.  The reference is FIPS 180-4: the
    digest is the fold of the compression function over the blocks of the padded
    message, and the constants are the roots of the first primes. *)
From S2P Require Import Prelude.
From S2P Require Import Buffers.

(** * The streaming context *)

Record sha_ctx := Ctx { sh_h : list Z; sh_total : Z; sh_buf : list Z; sh_buf_len : Z }.

Section Streaming.
  (** block size, compression of one block, octets of the length field *)
  Context (B : Z) (comp : list Z -> list Z -> list Z) (L : Z).

Definition absorb_block (s : sha_ctx) (block : list Z) : sha_ctx :=
  Ctx (comp (sh_h s) block) (sh_total s) (sh_buf s) (sh_buf_len s).

(** [while (len - off >= BLOCK)]: [len / BLOCK] rounds. *)
Fixpoint absorb_blocks_loop (fuel : nat) (s : sha_ctx) (data : list Z) (len off : Z) : option (sha_ctx * Z) :=
  if B <=? len -w off
  then match fuel with
       | O => None
       | S f => if off + B <=? zlen data
                then absorb_blocks_loop f (absorb_block s (slice data off B)) data len (off +w B)
                else None
       end
  else Some (s, off).

Definition absorb_blocks_ (s : sha_ctx) (data : list Z) (len : Z) : option (sha_ctx * Z) :=
  absorb_blocks_loop (Z.to_nat (len / B)) s data len 0.

Definition buffer_ (s : sha_ctx) (data : list Z) (n : Z) : option sha_ctx :=
  buf' ← copy_loop (Z.to_nat n) (sh_buf s) (sh_buf_len s) data 0;
  Some (Ctx (sh_h s) (sh_total s) buf' (sh_buf_len s +w n)).

Definition pending_take_ (s : sha_ctx) (len : Z) : Z :=
  let want := B -w sh_buf_len s in
  if negb (sh_buf_len s =? 0) && (want <=? len) then want else 0.

Definition fill_pending_ (s : sha_ctx) (data : list Z) (len : Z) : option (sha_ctx * Z) :=
  let take_ := pending_take_ s len in
  s1 ← buffer_ s data take_;
  Some (if negb (take_ =? 0) then Ctx (comp (sh_h s1) (sh_buf s1)) (sh_total s1) (sh_buf s1) 0 else s1, take_).

Definition update_ (s : sha_ctx) (data : list Z) (len : Z) : option sha_ctx :=
  '(s1, off) ← fill_pending_ s data len;
  '(s2, done) ← absorb_blocks_ s1 (drop (Z.to_nat off) data) (len -w off);
  let off' := off +w done in
  s3 ← buffer_ s2 (drop (Z.to_nat off') data) (len -w off');
  Some (Ctx (sh_h s3) (sh_total s3 +w len) (sh_buf s3) (sh_buf_len s3)).

(** [while (s->buf_len != BLOCK - L) update(s, &zero, 1)]: at most one block. *)
Fixpoint pad_zeros (fuel : nat) (s : sha_ctx) : option sha_ctx :=
  if sh_buf_len s =? B - L then Some s
  else match fuel with
       | O => None
       | S f => s' ← update_ s [0] 1; pad_zeros f s'
       end.

Definition pad_message_ (s : sha_ctx) : option sha_ctx :=
  s1 ← update_ s [0x80] 1; pad_zeros (Z.to_nat B) s1.

(** The length field, [bits] in its last eight octets. *)
Definition final_ (s : sha_ctx) : option (list Z) :=
  let bits := sh_total s *w 8 in
  s1 ← pad_message_ s;
  s2 ← update_ s1 (repeat 0 (Z.to_nat (L - 8)) ++ be_bytes 8 bits) L;
  Some (sh_h s2).

End Streaming.

(** * sha256.c *)

Definition QUIC_SHA256_DIGEST : Z := 32.
Definition QUIC_SHA256_BLOCK : Z := 64.

Definition K : list Z :=
  [1116352408; 1899447441; 3049323471; 3921009573; 961987163; 1508970993; 2453635748; 2870763221; 3624381080;
   310598401; 607225278; 1426881987; 1925078388; 2162078206; 2614888103; 3248222580; 3835390401; 4022224774;
   264347078; 604807628; 770255983; 1249150122; 1555081692; 1996064986; 2554220882; 2821834349; 2952996808;
   3210313671; 3336571891; 3584528711; 113926993; 338241895; 666307205; 773529912; 1294757372; 1396182291;
   1695183700; 1986661051; 2177026350; 2456956037; 2730485921; 2820302411; 3259730800; 3345764771; 3516065817;
   3600352804; 4094571909; 275423344; 430227734; 506948616; 659060556; 883997877; 958139571; 1322822218;
   1537002063; 1747873779; 1955562222; 2024104815; 2227730452; 2361852424; 2428436474; 2756734187; 3204031479;
   3329325298].

Definition H0 : list Z :=
  [1779033703; 3144134277; 1013904242; 2773480762; 1359893119; 2600822924; 528734635; 1541459225].

Definition ROR (x n : Z) : Z := Z.lor (Z.shiftr x n) (u32 (Z.shiftl x (32 - n))).
Definition CH (x y z : Z) : Z := Z.lxor (Z.land x y) (Z.land (u32 (Z.lnot x)) z).
Definition MAJ (x y z : Z) : Z := Z.lxor (Z.lxor (Z.land x y) (Z.land x z)) (Z.land y z).
Definition BS0 (x : Z) : Z := Z.lxor (Z.lxor (ROR x 2) (ROR x 13)) (ROR x 22).
Definition BS1 (x : Z) : Z := Z.lxor (Z.lxor (ROR x 6) (ROR x 11)) (ROR x 25).
Definition SS0 (x : Z) : Z := Z.lxor (Z.lxor (ROR x 7) (ROR x 18)) (Z.shiftr x 3).
Definition SS1 (x : Z) : Z := Z.lxor (Z.lxor (ROR x 17) (ROR x 19)) (Z.shiftr x 10).

(** Big-endian word of four octets. *)
Definition load_be32 (p : list Z) (o : Z) : Z :=
  Z.lor (Z.lor (Z.lor (Z.shiftl (at_ p o) 24) (Z.shiftl (at_ p (o + 1)) 16)) (Z.shiftl (at_ p (o + 2)) 8)) (at_ p (o + 3)).

(** The words from [i] on, [k] of them. *)
Fixpoint schedule_loop (k : nat) (i : Z) (w : list Z) : list Z :=
  match k with
  | O => w
  | S k' => schedule_loop k' (i + 1)
      (w ++ [u32 (SS1 (at_ w (i - 2)) + at_ w (i - 7) + SS0 (at_ w (i - 15)) + at_ w (i - 16))])
  end.

Definition schedule (p : list Z) : list Z :=
  schedule_loop 48 16 (List.map (fun i => load_be32 p (Z.of_nat i * 4)) (seq 0 16)).

(** After the shift [v[4]] holds the old [v[3]]. *)
Definition round_step (v : list Z) (kw : Z) : list Z :=
  let t1 := u32 (at_ v 7 + BS1 (at_ v 4) + CH (at_ v 4) (at_ v 5) (at_ v 6) + kw) in
  let t2 := u32 (BS0 (at_ v 0) + MAJ (at_ v 0) (at_ v 1) (at_ v 2)) in
  [u32 (t1 + t2); at_ v 0; at_ v 1; at_ v 2; u32 (at_ v 3 + t1); at_ v 4; at_ v 5; at_ v 6].

Definition run_rounds (h w : list Z) : list Z :=
  fold_left (fun v i => round_step v (u32 (at_ K (Z.of_nat i) + at_ w (Z.of_nat i)))) (seq 0 64) h.

Definition compress (h p : list Z) : list Z :=
  let v := run_rounds h (schedule p) in
  List.map (fun i => u32 (at_ h (Z.of_nat i) + at_ v (Z.of_nat i))) (seq 0 8).

Definition absorb_blocks := absorb_blocks_ QUIC_SHA256_BLOCK compress.
Definition buffer := buffer_.
Definition pending_take := pending_take_ QUIC_SHA256_BLOCK.
Definition fill_pending := fill_pending_ QUIC_SHA256_BLOCK compress.
Definition quic_sha256_update := update_ QUIC_SHA256_BLOCK compress.
Definition pad_message := pad_message_ QUIC_SHA256_BLOCK compress 8.

(** [buf0] is what the buffer of a fresh context happens to hold. *)
Definition quic_sha256_init (buf0 : list Z) : sha_ctx := Ctx H0 0 buf0 0.

Definition put_be32 (v : Z) : list Z := [u8 (Z.shiftr v 24); u8 (Z.shiftr v 16); u8 (Z.shiftr v 8); u8 v].

Definition quic_sha256_final (s : sha_ctx) : option (list Z) :=
  h ← final_ QUIC_SHA256_BLOCK compress 8 s; Some (List.flat_map put_be32 h).

Definition quic_sha256 (buf0 data : list Z) (len : Z) : option (list Z) :=
  s ← quic_sha256_update (quic_sha256_init buf0) data len; quic_sha256_final s.

(** * sha512.c *)

Definition QUIC_SHA512_DIGEST : Z := 64.
Definition QUIC_SHA512_BLOCK : Z := 128.

Definition S512_K : list Z :=
  [4794697086780616226; 8158064640168781261; 13096744586834688815; 16840607885511220156; 4131703408338449720;
   6480981068601479193; 10538285296894168987; 12329834152419229976; 15566598209576043074; 1334009975649890238;
   2608012711638119052; 6128411473006802146; 8268148722764581231; 9286055187155687089; 11230858885718282805;
   13951009754708518548; 16472876342353939154; 17275323862435702243; 1135362057144423861; 2597628984639134821;
   3308224258029322869; 5365058923640841347; 6679025012923562964; 8573033837759648693; 10970295158949994411;
   12119686244451234320; 12683024718118986047; 13788192230050041572; 14330467153632333762;
   15395433587784984357; 489312712824947311; 1452737877330783856; 2861767655752347644; 3322285676063803686;
   5560940570517711597; 5996557281743188959; 7280758554555802590; 8532644243296465576; 9350256976987008742;
   10552545826968843579; 11727347734174303076; 12113106623233404929; 14000437183269869457;
   14369950271660146224; 15101387698204529176; 15463397548674623760; 17586052441742319658;
   1182934255886127544; 1847814050463011016; 2177327727835720531; 2830643537854262169; 3796741975233480872;
   4115178125766777443; 5681478168544905931; 6601373596472566643; 7507060721942968483; 8399075790359081724;
   8693463985226723168; 9568029438360202098; 10144078919501101548; 10430055236837252648; 11840083180663258601;
   13761210420658862357; 14299343276471374635; 14566680578165727644; 15097957966210449927;
   16922976911328602910; 17689382322260857208; 500013540394364858; 748580250866718886; 1242879168328830382;
   1977374033974150939; 2944078676154940804; 3659926193048069267; 4368137639120453308; 4836135668995329356;
   5532061633213252278; 6448918945643986474; 6902733635092675308; 7801388544844847127].

Definition S512_H0 : list Z :=
  [7640891576956012808; 13503953896175478587; 4354685564936845355; 11912009170470909681; 5840696475078001361;
   11170449401992604703; 2270897969802886507; 6620516959819538809].

Definition S512ROR (x n : Z) : Z := Z.lor (Z.shiftr x n) (u64 (Z.shiftl x (64 - n))).
Definition S512CH (x y z : Z) : Z := Z.lxor (Z.land x y) (Z.land (u64 (Z.lnot x)) z).
Definition S512BS0 (x : Z) : Z := Z.lxor (Z.lxor (S512ROR x 28) (S512ROR x 34)) (S512ROR x 39).
Definition S512BS1 (x : Z) : Z := Z.lxor (Z.lxor (S512ROR x 14) (S512ROR x 18)) (S512ROR x 41).
Definition S512SS0 (x : Z) : Z := Z.lxor (Z.lxor (S512ROR x 1) (S512ROR x 8)) (Z.shiftr x 7).
Definition S512SS1 (x : Z) : Z := Z.lxor (Z.lxor (S512ROR x 19) (S512ROR x 61)) (Z.shiftr x 6).

Definition load_be64 (p : list Z) (o : Z) : Z :=
  fold_left (fun v j => Z.lor (u64 (Z.shiftl v 8)) (at_ p (o + Z.of_nat j))) (seq 0 8) 0.

Fixpoint sha512_schedule_loop (k : nat) (i : Z) (w : list Z) : list Z :=
  match k with
  | O => w
  | S k' => sha512_schedule_loop k' (i + 1)
      (w ++ [u64 (S512SS1 (at_ w (i - 2)) + at_ w (i - 7) + S512SS0 (at_ w (i - 15)) + at_ w (i - 16))])
  end.

Definition sha512_schedule (p : list Z) : list Z :=
  sha512_schedule_loop 64 16 (List.map (fun i => load_be64 p (Z.of_nat i * 8)) (seq 0 16)).

Definition sha512_round_step (v : list Z) (kw : Z) : list Z :=
  let t1 := u64 (at_ v 7 + S512BS1 (at_ v 4) + S512CH (at_ v 4) (at_ v 5) (at_ v 6) + kw) in
  let t2 := u64 (S512BS0 (at_ v 0) + MAJ (at_ v 0) (at_ v 1) (at_ v 2)) in
  [u64 (t1 + t2); at_ v 0; at_ v 1; at_ v 2; u64 (at_ v 3 + t1); at_ v 4; at_ v 5; at_ v 6].

Definition sha512_run_rounds (h w : list Z) : list Z :=
  fold_left (fun v i => sha512_round_step v (u64 (at_ S512_K (Z.of_nat i) + at_ w (Z.of_nat i)))) (seq 0 80) h.

Definition sha512_compress (h p : list Z) : list Z :=
  let v := sha512_run_rounds h (sha512_schedule p) in
  List.map (fun i => u64 (at_ h (Z.of_nat i) + at_ v (Z.of_nat i))) (seq 0 8).

Definition sha512_absorb_blocks := absorb_blocks_ QUIC_SHA512_BLOCK sha512_compress.
Definition sha512_buffer := buffer_.
Definition sha512_pending_take := pending_take_ QUIC_SHA512_BLOCK.
Definition sha512_fill_pending := fill_pending_ QUIC_SHA512_BLOCK sha512_compress.
Definition quic_sha512_update := update_ QUIC_SHA512_BLOCK sha512_compress.
Definition sha512_pad_message := pad_message_ QUIC_SHA512_BLOCK sha512_compress 16.

Definition quic_sha512_init (buf0 : list Z) : sha_ctx := Ctx S512_H0 0 buf0 0.

Definition sha512_put_be64 (v : Z) : list Z :=
  List.map (fun j => u8 (Z.shiftr v (56 - Z.of_nat j * 8))) (seq 0 8).

Definition quic_sha512_final (s : sha_ctx) : option (list Z) :=
  h ← final_ QUIC_SHA512_BLOCK sha512_compress 16 s; Some (List.flat_map sha512_put_be64 h).

Definition quic_sha512 (buf0 data : list Z) (len : Z) : option (list Z) :=
  s ← quic_sha512_update (quic_sha512_init buf0) data len; quic_sha512_final s.

(** * sha384.c *)

Definition QUIC_SHA384_DIGEST : Z := 48.

Definition sha384_h0 : list Z :=
  [14680500436340154072; 7105036623409894663; 10473403895298186519; 1526699215303891257; 7436329637833083697;
   10282925794625328401; 15784041429090275239; 5167115440072839076].

Definition quic_sha384_init (buf0 : list Z) : sha_ctx :=
  let s := quic_sha512_init buf0 in Ctx sha384_h0 (sh_total s) (sh_buf s) (sh_buf_len s).

Definition quic_sha384_final (s : sha_ctx) : option (list Z) :=
  full ← quic_sha512_final s; Some (take (Z.to_nat QUIC_SHA384_DIGEST) full).

Definition quic_sha384 (buf0 data : list Z) (len : Z) : option (list Z) :=
  s ← quic_sha512_update (quic_sha384_init buf0) data len; quic_sha384_final s.

(** * Streaming refines hashing of the whole message *)

Section StreamingSpec.
  Context (B : Z) (comp : list Z -> list Z -> list Z) (L : Z) (h0 : list Z).
  Context (HB : 0 < B < 4096) (HL : 8 <= L < B).

(** The context after the octets of [m]: full blocks are compressed, the rest is
    in the buffer. *)
Definition absorbed (s : sha_ctx) (m : list Z) : Prop := exists blks rest,
  m = concat blks ++ rest /\ Forall (fun b => zlen b = B) blks /\ sh_h s = fold_left comp blks h0 /\
  zlen rest = sh_buf_len s /\ sh_buf_len s < B /\ take (Z.to_nat (sh_buf_len s)) (sh_buf s) = rest /\
  zlen (sh_buf s) = B /\ sh_total s = u64 (zlen m).

Lemma buffer_spec s data n : 0 <= sh_buf_len s -> 0 <= n <= zlen data -> sh_buf_len s + n <= zlen (sh_buf s) ->
  zlen (sh_buf s) = B ->
  buffer_ s data n = Some (Ctx (sh_h s) (sh_total s) (splice (sh_buf s) (sh_buf_len s) (take (Z.to_nat n) data)) (sh_buf_len s + n)).
Proof.
  intros H0 Hn Hb HzB. unfold buffer_. rewrite copy_loop_len by (rewrite ?Z2Nat.id by lia; lia). simpl mbind.
  rewrite Z2Nat.id by lia. unwrap. unfold slice. change (Z.to_nat 0) with 0%nat. by rewrite drop_0.
Qed.

Lemma absorb_loop_spec fuel : forall s data len off,
  0 <= off <= len -> len <= zlen data -> len < max_object -> len - off < B * (Z.of_nat fuel + 1) ->
  exists blks off', absorb_blocks_loop B comp fuel s data len off =
      Some (Ctx (fold_left comp blks (sh_h s)) (sh_total s) (sh_buf s) (sh_buf_len s), off') /\
    Forall (fun b => zlen b = B) blks /\ drop (Z.to_nat off) data = concat blks ++ drop (Z.to_nat off') data /\
    off <= off' <= len /\ len - off' < B.
Proof.
  induction fuel as [|fuel IH]; intros s data len off Hoff Hl Ho Hf; cbn [absorb_blocks_loop]; unwrap.
  - exists [], off. zdecide. destruct s. split_and!; done || lia.
  - destruct (Z.leb_spec B (len - off)).
    + zdecide. unwrap. destruct (IH (absorb_block comp s (slice data off B)) data len (off + B)) as (blks & off' & He & Hb & Hd & Hr); [lia..|].
      exists (slice data off B :: blks), off'. split_and!; [exact He|apply List.Forall_cons; [apply zlen_slice; lia|done]| |lia..].
      cbn [concat]. rewrite <- app_assoc, <- Hd. unfold slice.
      replace (Z.to_nat (off + B)) with (Z.to_nat off + Z.to_nat B)%nat by lia.
      by rewrite <- drop_drop, take_drop.
    + exists [], off. destruct s. split_and!; done || lia.
Qed.

Lemma absorb_blocks_spec s data len : 0 <= len <= zlen data -> len < max_object ->
  exists blks off', absorb_blocks_ B comp s data len =
      Some (Ctx (fold_left comp blks (sh_h s)) (sh_total s) (sh_buf s) (sh_buf_len s), off') /\
    Forall (fun b => zlen b = B) blks /\ data = concat blks ++ drop (Z.to_nat off') data /\
    0 <= off' <= len /\ len - off' < B.
Proof.
  intros Hl Ho. unfold absorb_blocks_.
  destruct (absorb_loop_spec (Z.to_nat (len / B)) s data len 0) as (blks & off' & He & Hb & Hd & H1 & H2); try lia.
  - rewrite Z2Nat.id by (apply Z.div_pos; lia). pose proof (Z.mul_succ_div_gt len B ltac:(lia)). lia.
  - exists blks, off'. split_and!; try done; lia.
Qed.

(** A tail with at most one block's rest. *)
Lemma update_tail s data len m off blks0 :
  0 <= off <= len -> len <= zlen data -> len < max_object ->
  zlen (sh_buf s) = B -> sh_buf_len s = 0 ->
  m ++ take (Z.to_nat off) data = concat blks0 -> Forall (fun b => zlen b = B) blks0 -> sh_h s = fold_left comp blks0 h0 ->
  sh_total s = u64 (zlen m) ->
  exists s', ('(s2, done) ← absorb_blocks_ B comp s (drop (Z.to_nat off) data) (len -w off);
     let off' := off +w done in
     s3 ← buffer_ s2 (drop (Z.to_nat off') data) (len -w off');
     Some (Ctx (sh_h s3) (sh_total s3 +w len) (sh_buf s3) (sh_buf_len s3))) = Some s' /\
    absorbed s' (m ++ take (Z.to_nat len) data).
Proof.
  intros Hoff Hl Ho Hz Hb0 Hm HB0 Hh Ht. unwrap.
  destruct (absorb_blocks_spec s (drop (Z.to_nat off) data) (len - off)) as (blks & done & -> & Hbl & Hd & Hdn & Hrest);
    [unfold zlen in *; rewrite length_drop; lia|lia|].
  cbn [mbind option_bind]. unwrap. rewrite drop_drop in Hd.
  replace (Z.to_nat off + Z.to_nat done)%nat with (Z.to_nat (off + done)) in Hd by lia.
  assert (Hdl : zlen (drop (Z.to_nat (off + done)) data) = zlen data - (off + done)) by (unfold zlen in *; rewrite length_drop; lia).
  rewrite buffer_spec; cbn [sh_buf_len sh_buf sh_h sh_total]; [|lia|lia|lia|done]. cbn [mbind option_bind].
  eexists. split; [done|]. set (rest := take (Z.to_nat (len - (off + done))) (drop (Z.to_nat (off + done)) data)).
  assert (Hrl : zlen rest = len - (off + done)) by (subst rest; unfold zlen in *; rewrite length_take; lia).
  exists (blks0 ++ blks), rest. cbn [sh_h sh_buf_len sh_buf sh_total]. split_and!.
  - rewrite concat_app, <- Hm, <- !app_assoc. f_equal.
    rewrite <- (take_drop (Z.to_nat off) (take (Z.to_nat len) data)), take_take, Nat.min_l by lia. f_equal.
    rewrite skipn_firstn_comm, Hd. subst rest.
    assert (Hcl : length (concat blks) = Z.to_nat done).
    { apply (f_equal length) in Hd. rewrite length_app, !length_drop in Hd. unfold zlen in *. lia. }
    rewrite take_app_ge, Hcl by lia. f_equal. f_equal. lia.
  - by apply Forall_app.
  - by rewrite fold_left_app, Hh.
  - rewrite Hb0. lia.
  - lia.
  - rewrite Hb0, Z.add_0_l, <- Hrl. apply take_splice_front.
  - by rewrite zlen_splice by lia.
  - rewrite Ht. unfold u64. rewrite zlen_app, Zplus_mod_idemp_l. do 2 f_equal. unfold zlen in *. rewrite length_take. lia.
Qed.

(** Data too short to fill a block that is already begun stays in the buffer. *)
Lemma update_short s data len blks rest :
  Forall (fun b => zlen b = B) blks -> sh_h s = fold_left comp blks h0 -> zlen rest = sh_buf_len s ->
  take (Z.to_nat (sh_buf_len s)) (sh_buf s) = rest -> zlen (sh_buf s) = B -> sh_total s = u64 (zlen (concat blks ++ rest)) ->
  0 <= len <= zlen data -> sh_buf_len s + len < B ->
  exists s', ('(s2, done) ← absorb_blocks_ B comp s data len;
     s3 ← buffer_ s2 (drop (Z.to_nat (0 +w done)) data) (len -w (0 +w done));
     Some (Ctx (sh_h s3) (sh_total s3 +w len) (sh_buf s3) (sh_buf_len s3))) = Some s' /\
    absorbed s' ((concat blks ++ rest) ++ take (Z.to_nat len) data).
Proof.
  intros Hb Hh Hr Hbuf Hz Ht Hl Hlt. pose proof (zlen_nonneg rest).
  assert (Hab : absorb_blocks_ B comp s data len = Some (s, 0)).
  { unfold absorb_blocks_. rewrite Z.div_small by lia. change (Z.to_nat 0) with 0%nat. cbn [absorb_blocks_loop].
    rewrite Z.sub_0_r. unwrap. by zdecide. }
  rewrite Hab. cbn [mbind option_bind]. change (0 +w 0) with 0. rewrite Z.sub_0_r. unwrap.
  change (drop (Z.to_nat 0) data) with data. rewrite buffer_spec by lia.
  cbn [mbind option_bind]. eexists. split; [done|].
  set (d := take (Z.to_nat len) data). assert (Hd : zlen d = len) by (subst d; unfold zlen in *; rewrite length_take; lia).
  exists blks, (rest ++ d). cbn [sh_h sh_buf_len sh_buf sh_total]. split_and!; try done.
  - by rewrite app_assoc.
  - rewrite zlen_app. lia.
  - unfold splice. rewrite Hbuf, app_assoc. apply take_app_length'. rewrite length_app. unfold zlen in *. lia.
  - by rewrite zlen_splice by lia.
  - rewrite Ht. unfold u64. by rewrite Zplus_mod_idemp_l, (zlen_app _ d), Hd.
Qed.

Lemma update_spec s data len m : absorbed s m -> 0 <= len <= zlen data -> len < max_object ->
  exists s', update_ B comp s data len = Some s' /\ absorbed s' (m ++ take (Z.to_nat len) data).
Proof.
  intros (blks & rest & -> & Hb & Hh & Hr & Hlt & Hbuf & Hz & Ht) Hl Ho. pose proof (zlen_nonneg rest) as Hr0.
  unfold update_, fill_pending_, pending_take_. unwrap. cbv zeta.
  destruct (Z.eqb_spec (sh_buf_len s) 0) as [Hb0|Hb0]; cbn [negb andb]; [|destruct (Z.leb_spec (B - sh_buf_len s) len)].
  - rewrite buffer_spec by lia. cbn [mbind option_bind]. rewrite Z.eqb_refl. cbn [negb].
    rewrite Hb0 in Hr. assert (rest = []) as -> by (apply nil_length_inv; unfold zlen in Hr; lia).
    apply (update_tail _ data len _ 0 blks); cbn [sh_buf sh_buf_len sh_h sh_total]; try done; try lia.
    + by rewrite zlen_splice by (change (zlen (take (Z.to_nat 0) data)) with 0; lia).
    + change (take (Z.to_nat 0) data) with (@nil Z). by rewrite !app_nil_r.
  - rewrite buffer_spec by lia. cbn [mbind option_bind]. zdecide. cbn [negb sh_h sh_total sh_buf].
    set (d := take (Z.to_nat (B - sh_buf_len s)) data).
    assert (Hd : zlen d = B - sh_buf_len s) by (subst d; unfold zlen in *; rewrite length_take; lia).
    assert (Hfull : splice (sh_buf s) (sh_buf_len s) d = rest ++ d).
    { unfold splice. rewrite Hbuf, drop_ge, app_nil_r by (unfold zlen in *; lia). done. }
    rewrite Hfull. apply (update_tail _ data len _ (B - sh_buf_len s) (blks ++ [rest ++ d])); cbn [sh_buf sh_buf_len sh_h sh_total]; try done; try lia.
    + rewrite zlen_app. lia.
    + rewrite concat_app. cbn [concat]. by rewrite app_nil_r, <- app_assoc.
    + apply Forall_app. split; [done|]. apply List.Forall_cons; [rewrite zlen_app; lia|apply List.Forall_nil].
    + by rewrite fold_left_app, <- Hh.
  - rewrite buffer_spec by lia. cbn [mbind option_bind]. rewrite Z.eqb_refl. cbn [negb].
    assert (Hs : splice (sh_buf s) (sh_buf_len s) (take (Z.to_nat 0) data) = sh_buf s) by apply splice_nil.
    rewrite Hs, Z.add_0_r, Z.sub_0_r. change (drop (Z.to_nat 0) data) with data.
    rewrite (u64_id len) by (unfold is_u64, max_object in *; lia).
    destruct (update_short s data len blks rest) as (s' & He & Ha); try done; try lia.
    exists s'. split; [|done]. by destruct s.
Qed.

Lemma absorbed_init buf0 : zlen buf0 = B -> absorbed (Ctx h0 0 buf0 0) [].
Proof. intros H. exists [], []. cbn. split_and!; done || lia. Qed.

Lemma absorbed_len s m : absorbed s m -> sh_buf_len s = zlen m mod B.
Proof.
  intros (blks & rest & -> & Hb & _ & Hr & Hlt & _). pose proof (zlen_nonneg rest). rewrite <- Hr, zlen_app.
  assert (Hc : zlen (concat blks) = B * zlen blks).
  { clear -Hb. induction Hb as [|b blks Hz Hb IH]; [unfold zlen; cbn; lia|]. cbn [concat]. rewrite zlen_app, zlen_cons, IH, Hz. lia. }
  rewrite Hc, Z.add_comm, Z.mul_comm, Z.mod_add, Z.mod_small by lia. done.
Qed.

(** Zeros up to the length field. *)
Definition pad_count (len : Z) : Z := (B - L - len) mod B.

Lemma pad_count_step len : pad_count len <> 0 -> pad_count (len + 1) = pad_count len - 1.
Proof.
  unfold pad_count. intros Hne. pose proof (Z.mod_pos_bound (B - L - len) B ltac:(lia)) as Hb.
  symmetry. apply (Z.mod_unique_pos _ _ ((B - L - len) / B)); [lia|].
  pose proof (Z.div_mod (B - L - len) B ltac:(lia)). lia.
Qed.

Lemma pad_count_zero len : len mod B = B - L <-> pad_count len = 0.
Proof.
  unfold pad_count. pose proof (Z.mod_pos_bound len B ltac:(lia)) as Hb.
  pose proof (Z.div_mod len B ltac:(lia)) as Hd.
  assert (Hm : (B - L - len) mod B = (B - L - len mod B) mod B).
  { rewrite (Zminus_mod_idemp_r (B - L) len B). done. }
  rewrite Hm. split; [intros ->; by rewrite Z.sub_diag|]. intros Hz.
  destruct (Z_le_gt_dec (len mod B) (B - L)) as [Hle|Hgt].
  - rewrite Z.mod_small in Hz by lia. lia.
  - rewrite <- (Z.mod_add _ 1) in Hz by lia. rewrite Z.mod_small in Hz by lia. lia.
Qed.

Lemma pad_zeros_spec fuel : forall s m, absorbed s m -> pad_count (zlen m) <= Z.of_nat fuel ->
  exists s', pad_zeros B comp L fuel s = Some s' /\ absorbed s' (m ++ repeat 0 (Z.to_nat (pad_count (zlen m)))).
Proof.
  induction fuel as [|fuel IH]; intros s m Ha Hf; cbn [pad_zeros]; rewrite (absorbed_len _ _ Ha).
  - pose proof (Z.mod_pos_bound (B - L - zlen m) B ltac:(lia)). assert (Hz : pad_count (zlen m) = 0) by (unfold pad_count in *; lia).
    rewrite (proj2 (pad_count_zero _) Hz), Z.eqb_refl, Hz, app_nil_r. by exists s.
  - destruct (Z.eqb_spec (zlen m mod B) (B - L)) as [Hz|Hz].
    + apply pad_count_zero in Hz. rewrite Hz, app_nil_r. by exists s.
    + rewrite pad_count_zero in Hz. pose proof (pad_count_step _ Hz) as Hp.
      destruct (update_spec s [0] 1 m Ha) as (s1 & -> & Ha1); [unfold zlen; cbn; lia|unfold max_object; lia|]. cbn [mbind option_bind].
      change (take (Z.to_nat 1) [0]) with [0] in Ha1.
      destruct (IH s1 _ Ha1) as (s2 & -> & Ha2); [rewrite zlen_app; change (zlen [0]) with 1; lia|].
      exists s2. split; [done|]. rewrite zlen_app in Ha2. change (zlen [0]) with 1 in Ha2. rewrite Hp, <- app_assoc in Ha2.
      pose proof (Z.mod_pos_bound (B - L - zlen m) B ltac:(lia)) as Hb. fold (pad_count (zlen m)) in Hb.
      replace (Z.to_nat (pad_count (zlen m))) with (S (Z.to_nat (pad_count (zlen m) - 1))) by lia. exact Ha2.
Qed.

(** FIPS 180-4 section 5.1: one bit, zeros, the length in bits. *)
Definition padding (len : Z) : list Z :=
  0x80 :: repeat 0 (Z.to_nat (pad_count (len + 1))) ++ repeat 0 (Z.to_nat (L - 8)) ++ be_bytes 8 (8 * len).

Fixpoint cut (n : nat) (l : list Z) : list (list Z) :=
  match n with O => [] | S n' => take (Z.to_nat B) l :: cut n' (drop (Z.to_nat B) l) end.
Definition blocks (l : list Z) : list (list Z) := cut (Z.to_nat (zlen l / B)) l.

Definition sha_hash (m : list Z) : list Z := fold_left comp (blocks (m ++ padding (zlen m))) h0.

Lemma blocks_concat blks : Forall (fun b => zlen b = B) blks -> blocks (concat blks) = blks.
Proof.
  intros Hb. unfold blocks.
  assert (Hc : zlen (concat blks) = zlen blks * B).
  { induction Hb as [|b blks Hz Hb IH]; [done|]. cbn [concat]. rewrite zlen_app, zlen_cons, IH, Hz. lia. }
  rewrite Hc, Z.div_mul by lia. unfold zlen. rewrite Nat2Z.id. clear Hc.
  induction Hb as [|b blks Hz Hb IH]; [done|]. cbn [length cut concat].
  rewrite take_app_length', drop_app_length' by (unfold zlen in Hz; lia). by rewrite IH.
Qed.

Lemma final_spec s m : absorbed s m -> 8 * zlen m < 2 ^ 64 -> final_ B comp L s = Some (sha_hash m).
Proof.
  intros Ha Hm. pose proof (zlen_nonneg m). change (2 ^ 64) with 18446744073709551616 in Hm. unfold final_, pad_message_. cbv zeta.
  assert (Ht : sh_total s = zlen m) by (destruct Ha as (? & ? & _ & _ & _ & _ & _ & _ & _ & ->); apply u64_id; unfold is_u64; lia).
  destruct (update_spec s [0x80] 1 m Ha) as (s1 & -> & Ha1); [unfold zlen; cbn; lia|unfold max_object; lia|]. cbn [mbind option_bind].
  change (take (Z.to_nat 1) [128]) with [128] in Ha1.
  destruct (pad_zeros_spec (Z.to_nat B) s1 _ Ha1) as (s2 & -> & Ha2).
  { pose proof (Z.mod_pos_bound (B - L - zlen (m ++ [128])) B ltac:(lia)). unfold pad_count. lia. }
  cbn [mbind option_bind]. rewrite Ht. rewrite (Z.mul_comm (zlen m)). rewrite (u64_id (8 * zlen m)) by (unfold is_u64; lia).
  set (f := repeat 0 (Z.to_nat (L - 8)) ++ be_bytes 8 (8 * zlen m)).
  assert (Hf : zlen f = L) by (subst f; rewrite zlen_app, zlen_be_bytes; unfold zlen; rewrite repeat_length; lia).
  destruct (update_spec s2 f L _ Ha2) as (s3 & -> & Ha3); [lia|unfold max_object; lia|]. cbn [mbind option_bind]. f_equal.
  rewrite <- Hf in Ha3 at 1. unfold zlen in Ha3 at 2. rewrite Nat2Z.id, firstn_all in Ha3.
  pose proof (absorbed_len _ _ Ha3) as Hl3. destruct Ha3 as (blks & rest & He & Hb & Hh & Hr & Hlt & _).
  assert (Hmod : sh_buf_len s3 = 0).
  { rewrite Hl3, zlen_app, Hf, <- (Z.mod_add _ (-1)) by lia.
    set (q := (m ++ [128]) ++ repeat 0 (Z.to_nat (pad_count (zlen (m ++ [128]))))).
    assert (Hq : zlen q mod B = B - L).
    { apply pad_count_zero. subst q. unfold pad_count. rewrite zlen_app. unfold zlen at 2. rewrite repeat_length.
      pose proof (Z.mod_pos_bound (B - L - zlen (m ++ [128])) B ltac:(lia)). rewrite Z2Nat.id by lia.
      rewrite Z.sub_add_distr, Zminus_mod_idemp_r, Z.sub_diag. done. }
    replace (zlen q + L + -1 * B) with (zlen q - (B - L)) by lia. rewrite <- Hq, Zminus_mod_idemp_r, Z.sub_diag. done. }
  assert (rest = []) as -> by (apply nil_length_inv; rewrite Hmod in Hr; unfold zlen in Hr; lia).
  rewrite app_nil_r in He. rewrite Hh. unfold sha_hash. f_equal. rewrite <- (blocks_concat blks Hb), <- He.
  f_equal. unfold padding, f. rewrite zlen_app. change (zlen [128]) with 1. by rewrite <- !app_assoc.
Qed.
End StreamingSpec.

(** * The digests *)

Definition sha256_spec (m : list Z) : list Z := flat_map put_be32 (sha_hash 64 compress 8 H0 m).
Definition sha512_spec (m : list Z) : list Z := flat_map sha512_put_be64 (sha_hash 128 sha512_compress 16 S512_H0 m).
Definition sha384_spec (m : list Z) : list Z :=
  take 48 (flat_map sha512_put_be64 (sha_hash 128 sha512_compress 16 sha384_h0 m)).

(** Updates with one piece after the other. *)
Fixpoint sha_feed (update : sha_ctx -> list Z -> Z -> option sha_ctx) (s : sha_ctx) (ds : list (list Z)) : option sha_ctx :=
  match ds with
  | [] => Some s
  | d :: ds' => s' ← update s d (zlen d); sha_feed update s' ds'
  end.

Lemma sha_feed_spec B comp L h0 : 0 < B < 4096 -> 8 <= L < B -> forall ds s m, absorbed B comp h0 s m ->
  zlen (concat ds) < max_object ->
  exists s', sha_feed (update_ B comp) s ds = Some s' /\ absorbed B comp h0 s' (m ++ concat ds).
Proof.
  intros HB HL. induction ds as [|d ds IH]; intros s m Ha Hz; cbn [sha_feed concat] in *.
  - exists s. by rewrite app_nil_r.
  - rewrite zlen_app in Hz. pose proof (zlen_nonneg d). pose proof (zlen_nonneg (concat ds)).
    destruct (update_spec B comp L h0 HB HL s d (zlen d) m Ha) as (s1 & -> & Ha1); [lia|lia|].
    cbn [mbind option_bind]. unfold zlen in Ha1. rewrite Nat2Z.id, firstn_all in Ha1.
    destruct (IH s1 _ Ha1) as (s2 & -> & Ha2); [lia|]. exists s2. by rewrite app_assoc.
Qed.

Lemma streaming_spec B comp L h0 buf0 ds : 0 < B < 4096 -> 8 <= L < B -> zlen buf0 = B ->
  8 * zlen (concat ds) < 2 ^ 64 ->
  (s ← sha_feed (update_ B comp) (Ctx h0 0 buf0 0) ds; final_ B comp L s) = Some (sha_hash B comp L h0 (concat ds)).
Proof.
  intros HB HL Hb Hz. change (2 ^ 64) with 18446744073709551616 in Hz.
  destruct (sha_feed_spec B comp L h0 HB HL ds _ [] (absorbed_init B comp h0 HB buf0 Hb)) as (s & -> & Ha); [unfold max_object; lia|].
  cbn [mbind option_bind]. exact (final_spec B comp L h0 HB HL s (concat ds) Ha Hz).
Qed.

Lemma sha256_stream buf0 ds : zlen buf0 = 64 -> 8 * zlen (concat ds) < 2 ^ 64 ->
  (s ← sha_feed quic_sha256_update (quic_sha256_init buf0) ds; quic_sha256_final s) = Some (sha256_spec (concat ds)).
Proof.
  intros Hb Hz. pose proof (streaming_spec 64 compress 8 H0 buf0 ds ltac:(lia) ltac:(lia) Hb Hz) as Hs.
  unfold quic_sha256_update, quic_sha256_final, quic_sha256_init. change QUIC_SHA256_BLOCK with 64.
  destruct (sha_feed _ _ _) as [s|]; [|done]. cbn [mbind option_bind] in *. rewrite Hs. done.
Qed.

Lemma sha512_stream h0 buf0 ds : zlen buf0 = 128 -> 8 * zlen (concat ds) < 2 ^ 64 ->
  (s ← sha_feed quic_sha512_update (Ctx h0 0 buf0 0) ds; quic_sha512_final s) =
  Some (flat_map sha512_put_be64 (sha_hash 128 sha512_compress 16 h0 (concat ds))).
Proof.
  intros Hb Hz. pose proof (streaming_spec 128 sha512_compress 16 h0 buf0 ds ltac:(lia) ltac:(lia) Hb Hz) as Hs.
  unfold quic_sha512_update, quic_sha512_final. change QUIC_SHA512_BLOCK with 128.
  destruct (sha_feed _ _ _) as [s|]; [|done]. cbn [mbind option_bind] in *. rewrite Hs. done.
Qed.

(** C22: The streaming hashes compute the digest of the whole message: whatever
    the pieces an input is fed in and whatever the buffer held before, SHA-256,
    SHA-512 and SHA-384 return the fold of their compression function over the
    64 or 128-byte blocks of the message padded as FIPS 180-4 section 5.1 says. *)
Theorem sha2_streaming ds buf64 buf128 : zlen buf64 = 64 -> zlen buf128 = 128 -> 8 * zlen (concat ds) < 2 ^ 64 ->
  (s ← sha_feed quic_sha256_update (quic_sha256_init buf64) ds; quic_sha256_final s) = Some (sha256_spec (concat ds)) /\
  (s ← sha_feed quic_sha512_update (quic_sha512_init buf128) ds; quic_sha512_final s) = Some (sha512_spec (concat ds)) /\
  (s ← sha_feed quic_sha512_update (quic_sha384_init buf128) ds; quic_sha384_final s) = Some (sha384_spec (concat ds)).
Proof.
  intros H1 H2 Hz. split_and!; [by apply sha256_stream|by apply sha512_stream|].
  pose proof (sha512_stream sha384_h0 buf128 ds H2 Hz) as Hs. unfold quic_sha384_final, quic_sha384_init. cbn [quic_sha512_init sh_total sh_buf sh_buf_len].
  destruct (sha_feed _ _ _) as [s|]; [|done]. cbn [mbind option_bind] in *. rewrite Hs. done.
Qed.

(** Witness of C22: "abc" in two pieces. *)
Lemma sha2_streaming_witness :
  (s ← sha_feed quic_sha256_update (quic_sha256_init (repeat 7 64)) [[97]; [98; 99]]; quic_sha256_final s)
    = Some (sha256_spec [97; 98; 99]) /\
  (s ← sha_feed quic_sha512_update (quic_sha512_init (repeat 7 128)) [[97]; [98; 99]]; quic_sha512_final s)
    = Some (sha512_spec [97; 98; 99]) /\
  (s ← sha_feed quic_sha512_update (quic_sha384_init (repeat 7 128)) [[97]; [98; 99]]; quic_sha384_final s)
    = Some (sha384_spec [97; 98; 99]).
Proof. refine (sha2_streaming [[97]; [98; 99]] (repeat 7 64) (repeat 7 128) _ _ _); closed_arith. Defined.

(** The one-shot functions. *)
Lemma sha256_whole buf0 data : zlen buf0 = 64 -> 8 * zlen data < 2 ^ 64 ->
  quic_sha256 buf0 data (zlen data) = Some (sha256_spec data).
Proof.
  intros Hb Hz. pose proof (sha256_stream buf0 [data] Hb) as Hs. cbn [concat] in Hs. rewrite app_nil_r in Hs.
  rewrite <- (Hs Hz). unfold quic_sha256. cbn [sha_feed]. by destruct (quic_sha256_update _ _ _).
Qed.

(** Test vectors of FIPS 180-4: the message abc. *)
Example sha256_abc : take 8 (sha256_spec [97; 98; 99]) = [186; 120; 22; 191; 143; 1; 207; 234].
Proof. by vm_compute. Qed.
Example sha384_abc : take 8 (sha384_spec [97; 98; 99]) = [203; 0; 117; 63; 69; 163; 94; 139].
Proof. by vm_compute. Qed.

(** ** The constants *)

Definition primes : list Z :=
  List.filter (fun p => forallb (fun d => negb (p mod d =? 0)) (map Z.of_nat (seq 2 (Z.to_nat p - 2)))) (map Z.of_nat (seq 2 408)).

(** [k] is the first [w] bits of the fractional part of the [e]-th root of [p]. *)
Definition is_root_frac (e w p k : Z) : bool :=
  existsb (fun q => let r := Z.of_nat q * 2 ^ w + k in
    (0 <=? k) && (k <? 2 ^ w) && (r ^ e <=? p * 2 ^ (w * e)) && (p * 2 ^ (w * e) <? (r + 1) ^ e)) (seq 1 21).

(** FIPS 180-4 sections 4.2.2, 4.2.3, 5.3.3 to 5.3.5: the round constants are
    the fractional parts of the cube roots of the first primes, the initial
    values those of the square roots (SHA-384: of the ninth to sixteenth prime). *)
Lemma constants_exact :
  forallb (fun pk => is_root_frac 3 32 (fst pk) (snd pk)) (combine primes K) = true /\ length K = 64%nat /\
  forallb (fun pk => is_root_frac 2 32 (fst pk) (snd pk)) (combine primes H0) = true /\ length H0 = 8%nat /\
  forallb (fun pk => is_root_frac 3 64 (fst pk) (snd pk)) (combine primes S512_K) = true /\ length S512_K = 80%nat /\
  forallb (fun pk => is_root_frac 2 64 (fst pk) (snd pk)) (combine primes S512_H0) = true /\ length S512_H0 = 8%nat /\
  forallb (fun pk => is_root_frac 2 64 (fst pk) (snd pk)) (combine (drop 8 primes) sha384_h0) = true /\
  length sha384_h0 = 8%nat /\ length primes = 80%nat.
Proof. by vm_compute. Qed.
