(* ===== verification/Hkdf.v ===== *)
(** HMAC-SHA-256 and HKDF.

    [crypto/symmetric/hash/hash/hmac.c] and [crypto/kdf/hkdf/hkdf.c].  The
    references are FIPS 198-1 and RFC 5869 over the digest [Sha2.sha256_spec];
    HKDF-Expand-Label is the one of RFC 8446 section 7.1. *)
From Stdlib Require Import Ascii String.
From S2P Require Import Prelude.
From S2P Require Import Buffers.
From S2P Require Import CStrings.
From S2P Require Import Sha2.

(** * hmac.c *)

Definition hash256 (data : list Z) (len : Z) : option (list Z) := quic_sha256 (local 64) data len.

Definition short_key (key : list Z) (key_len : Z) : option (list Z) :=
  copy_loop (Z.to_nat key_len) (local QUIC_SHA256_BLOCK) 0 key 0.

Definition key_block (key : list Z) (key_len : Z) : option (list Z) :=
  if QUIC_SHA256_BLOCK <? key_len
  then d ← hash256 key key_len; copy_loop 32 (local QUIC_SHA256_BLOCK) 0 d 0
  else short_key key key_len.

Definition feed_pad (s : sha_ctx) (kb : list Z) (pad : Z) : option sha_ctx :=
  quic_sha256_update s (List.map (fun b => Z.lxor b pad) (take 64 kb)) QUIC_SHA256_BLOCK.

Definition inner_hash (kb msg : list Z) (msg_len : Z) : option (list Z) :=
  s1 ← feed_pad (quic_sha256_init (local 64)) kb 0x36;
  s2 ← quic_sha256_update s1 msg msg_len;
  quic_sha256_final s2.

Definition quic_hmac_sha256 (key : list Z) (key_len : Z) (msg : list Z) (msg_len : Z) : option (list Z) :=
  kb ← key_block key key_len;
  inner ← inner_hash kb msg msg_len;
  s1 ← feed_pad (quic_sha256_init (local 64)) kb 0x5c;
  s2 ← quic_sha256_update s1 inner QUIC_SHA256_DIGEST;
  quic_sha256_final s2.

(** * hkdf.c *)

Definition QUIC_HKDF_PRK : Z := 32.

Definition quic_hkdf_extract (salt : list Z) (salt_len : Z) (ikm : list Z) (ikm_len : Z) : option (list Z) :=
  quic_hmac_sha256 salt salt_len ikm ikm_len.

Definition expand_block (prk prev : list Z) (prev_len : Z) (info : list Z) (info_len counter : Z) : option (list Z) :=
  b1 ← copy_loop (Z.to_nat prev_len) (local 289) 0 prev 0;
  b2 ← copy_loop (Z.to_nat info_len) b1 prev_len info 0;
  b3 ← store b2 (prev_len + info_len) counter;
  quic_hmac_sha256 prk QUIC_HKDF_PRK b3 (prev_len + info_len + 1).

Definition emit (okm : list Z) (off len : Z) (t : list Z) : option (list Z * Z) :=
  let take_ := if len -w off <? QUIC_SHA256_DIGEST then len -w off else QUIC_SHA256_DIGEST in
  okm' ← copy_loop (Z.to_nat take_) okm off t 0;
  Some (okm', off +w take_).

Definition expand_ok (info_len len : Z) : bool := (len <=? 255 * QUIC_SHA256_DIGEST) && (info_len <=? 256).

(** [while (off < len)]: 32 octets a round. *)
Fixpoint expand_loop (fuel : nat) (prk t : list Z) (prev_len : Z) (info : list Z) (info_len : Z)
    (okm : list Z) (off len counter : Z) : option (list Z) :=
  if off <? len
  then match fuel with
       | O => None
       | S f =>
           t' ← expand_block prk t prev_len info info_len counter;
           '(okm', off') ← emit okm off len t';
           expand_loop f prk t' QUIC_SHA256_DIGEST info info_len okm' off' len (u8 (counter + 1))
       end
  else Some okm.

(** [Some (false, okm)] on a return of 0. *)
Definition quic_hkdf_expand (prk info : list Z) (info_len : Z) (okm : list Z) (len : Z) : option (bool * list Z) :=
  if negb (expand_ok info_len len) then Some (false, okm)
  else okm' ← expand_loop 255 prk (local 32) 0 info info_len okm 0 len 1; Some (true, okm').

Definition append (info : list Z) (off : Z) (src : list Z) (n : Z) : option (list Z * Z) :=
  info' ← copy_loop (Z.to_nat n) info off src 0; Some (info', off +w n).

Definition label_prefix : list Z := [116; 108; 115; 49; 51; 32].

Definition build_label (info label : list Z) (label_len : Z) (ctx : list Z) (ctx_len len : Z) : option (list Z * Z) :=
  i1 ← store info 0 (u8 (Z.shiftr len 8));
  i2 ← store i1 1 (u8 len);
  i3 ← store i2 2 (u8 (6 + label_len));
  '(i4, n4) ← append i3 3 label_prefix 6;
  '(i5, n5) ← append i4 n4 label label_len;
  i6 ← store i5 n5 (u8 ctx_len);
  append i6 (n5 + 1) ctx ctx_len.

Definition quic_hkdf_expand_label (prk label : list Z) (label_len : Z) (ctx : list Z) (ctx_len : Z)
    (okm : list Z) (len : Z) : option (bool * list Z) :=
  if (64 <? label_len) || (64 <? ctx_len) then Some (false, okm)
  else '(info, info_len) ← build_label (local 138) label label_len ctx ctx_len len;
       quic_hkdf_expand prk info info_len okm len.

(** * Reference definitions *)

Definition hmac_key (key : list Z) : list Z :=
  let k := if 64 <? zlen key then sha256_spec key else key in k ++ local (64 - zlen k).

Definition xor_all (pad : Z) (l : list Z) : list Z := List.map (fun b => Z.lxor b pad) l.

Definition hmac_spec (key msg : list Z) : list Z :=
  let k := hmac_key key in sha256_spec (xor_all 0x5c k ++ sha256_spec (xor_all 0x36 k ++ msg)).

(** [T(i) ++ T(i+1) ++ ...], [n] blocks, [prev] being [T(i-1)]. *)
Fixpoint hkdf_blocks (n : nat) (prk info prev : list Z) (i : Z) : list Z :=
  match n with
  | O => []
  | S n' => let t := hmac_spec prk (prev ++ info ++ [i]) in t ++ hkdf_blocks n' prk info t (i + 1)
  end.

(** RFC 5869 section 2.3. *)
Definition hkdf_okm (prk info : list Z) (len : Z) : list Z := take (Z.to_nat len) (hkdf_blocks 255 prk info [] 1).

(** RFC 8446 section 7.1. *)
Definition hkdf_label (label ctx : list Z) (len : Z) : list Z :=
  be_bytes 2 len ++ [6 + zlen label] ++ c_bytes "tls13 " ++ label ++ [zlen ctx] ++ ctx.

(** * HMAC *)

Lemma length_compress h p : length (compress h p) = 8%nat.
Proof. unfold compress. rewrite List.length_map, length_seq. done. Qed.

Lemma zlen_sha256_spec m : zlen (sha256_spec m) = 32.
Proof.
  unfold sha256_spec, sha_hash. generalize (blocks 64 (m ++ padding 64 8 (zlen m))). intros bs.
  assert (Hl : length (fold_left compress bs H0) = 8%nat).
  { induction bs as [|b bs IH] using rev_ind; [done|]. rewrite fold_left_app. apply length_compress. }
  destruct (fold_left compress bs H0) as [|a0 [|a1 [|a2 [|a3 [|a4 [|a5 [|a6 [|a7 [|]]]]]]]]]; done.
Qed.

(** Two updates in a row, the second with the first [k] octets of an array. *)
Lemma sha256_two a b k : 0 <= k <= zlen b -> 8 * (zlen a + k) < 2 ^ 64 ->
  (s1 ← quic_sha256_update (quic_sha256_init (local 64)) a (zlen a);
   s2 ← quic_sha256_update s1 b k; quic_sha256_final s2) = Some (sha256_spec (a ++ take (Z.to_nat k) b)).
Proof.
  change (2 ^ 64) with 18446744073709551616. intros Hk Hz. pose proof (zlen_nonneg a).
  destruct (update_spec 64 compress 8 H0 ltac:(lia) ltac:(lia) _ a (zlen a) [] (absorbed_init 64 compress H0 ltac:(lia) (local 64) eq_refl))
    as (s1 & He1 & Ha1); [lia|unfold max_object; lia|].
  unfold zlen in Ha1. rewrite Nat2Z.id, firstn_all in Ha1. change ([] ++ a) with a in Ha1.
  destruct (update_spec 64 compress 8 H0 ltac:(lia) ltac:(lia) s1 b k a Ha1) as (s2 & He2 & Ha2); [lia|unfold max_object; lia|].
  unfold quic_sha256_update, quic_sha256_init. change QUIC_SHA256_BLOCK with 64. rewrite He1. cbn [mbind option_bind].
  rewrite He2. cbn [mbind option_bind]. unfold quic_sha256_final. change QUIC_SHA256_BLOCK with 64.
  rewrite (final_spec 64 compress 8 H0 ltac:(lia) ltac:(lia) s2 _ Ha2); [done|].
  rewrite zlen_app. unfold zlen at 2. rewrite length_take. change (2 ^ 64) with 18446744073709551616. lia.
Qed.

Lemma zlen_hmac_key key : zlen (hmac_key key) = 64.
Proof.
  unfold hmac_key. cbv zeta. pose proof (zlen_nonneg key). destruct (Z.ltb_spec 64 (zlen key)).
  - rewrite zlen_app, zlen_sha256_spec, zlen_local; lia.
  - rewrite zlen_app, zlen_local; lia.
Qed.

Lemma drop_repeat {A} (x : A) n : forall k, drop k (repeat x n) = repeat x (n - k).
Proof. induction n as [|n IH]; intros [|k]; try done. cbn [repeat Nat.sub]. apply IH. Qed.

(** A copy into a fresh array leaves zeros behind it. *)
Lemma copy_local src n : 0 <= n -> zlen src <= n ->
  copy_loop (Z.to_nat (zlen src)) (local n) 0 src 0 = Some (src ++ local (n - zlen src)).
Proof.
  intros Hn Hs. pose proof (zlen_nonneg src). rewrite copy_loop_len by (rewrite ?zlen_local by lia; lia). f_equal.
  rewrite Z2Nat.id by lia. assert (Hsl : slice src 0 (zlen src) = src) by (unfold slice, zlen; by rewrite Nat2Z.id, drop_0, firstn_all).
  rewrite Hsl. unfold splice, local. change (Z.to_nat 0) with 0%nat. rewrite take_0. cbn [app]. f_equal.
  rewrite drop_repeat. f_equal. unfold zlen in *. lia.
Qed.

Lemma key_block_spec key : 8 * zlen key < 2 ^ 64 -> key_block key (zlen key) = Some (hmac_key key).
Proof.
  intros Hz. unfold key_block, hmac_key, QUIC_SHA256_BLOCK. destruct (Z.ltb_spec 64 (zlen key)).
  - unfold hash256. rewrite sha256_whole by done. cbn [mbind option_bind].
    pose proof (copy_local (sha256_spec key) 64 ltac:(lia)) as Hc. rewrite zlen_sha256_spec in *. apply Hc. lia.
  - by apply copy_local.
Qed.

Lemma feed_pad_eq s kb pad : zlen kb = 64 ->
  feed_pad s kb pad = quic_sha256_update s (xor_all pad kb) (zlen (xor_all pad kb)).
Proof.
  intros Hk. unfold feed_pad, xor_all. rewrite take_ge by (unfold zlen in Hk; lia). f_equal.
  unfold zlen in *. rewrite List.length_map. unfold QUIC_SHA256_BLOCK. lia.
Qed.

(** The C function computes HMAC of the first [n] octets it is given. *)
Lemma hmac_front key msg n : 8 * zlen key < 2 ^ 64 -> 0 <= n <= zlen msg -> 8 * n < 2 ^ 63 ->
  quic_hmac_sha256 key (zlen key) msg n = Some (hmac_spec key (take (Z.to_nat n) msg)).
Proof.
  change (2 ^ 63) with 9223372036854775808. intros Hk Hn Hm. pose proof (zlen_hmac_key key) as Hz. set (kb := hmac_key key) in *.
  assert (Hx : forall pad, zlen (xor_all pad kb) = 64) by (intros; unfold xor_all, zlen in *; rewrite List.length_map; lia).
  assert (Hi : inner_hash kb msg n = Some (sha256_spec (xor_all 0x36 kb ++ take (Z.to_nat n) msg))).
  { unfold inner_hash. rewrite feed_pad_eq by done. apply sha256_two; [done|]. rewrite Hx. change (2 ^ 64) with 18446744073709551616. lia. }
  unfold quic_hmac_sha256. rewrite key_block_spec by done. fold kb. cbn [mbind option_bind]. rewrite Hi. cbn [mbind option_bind].
  rewrite feed_pad_eq by done. set (inner := sha256_spec (xor_all 54 kb ++ take (Z.to_nat n) msg)).
  assert (Hl : zlen inner = 32) by apply zlen_sha256_spec.
  pose proof (sha256_two (xor_all 0x5c kb) inner 32 ltac:(lia)) as H2.
  replace (Z.to_nat 32) with (length inner) in H2 by (unfold zlen in Hl; lia). rewrite firstn_all in H2.
  apply H2. rewrite Hx. change (2 ^ 64) with 18446744073709551616. lia.
Qed.

Lemma hmac_exact key msg : 8 * zlen key < 2 ^ 64 -> 8 * zlen msg < 2 ^ 63 ->
  quic_hmac_sha256 key (zlen key) msg (zlen msg) = Some (hmac_spec key msg).
Proof.
  intros Hk Hm. pose proof (zlen_nonneg msg). rewrite hmac_front by (done || lia). unfold zlen. by rewrite Nat2Z.id, firstn_all.
Qed.

Lemma zlen_hmac_spec key msg : zlen (hmac_spec key msg) = 32.
Proof. apply zlen_sha256_spec. Qed.

(** * HKDF *)

(** A copy that does not start at the front. *)
Lemma copy_front k dst doff src : 0 <= k <= zlen src -> 0 <= doff -> doff + k <= zlen dst ->
  copy_loop (Z.to_nat k) dst doff src 0 = Some (splice dst doff (take (Z.to_nat k) src)).
Proof.
  intros Hk Hd Hl. rewrite copy_loop_len by (rewrite ?Z2Nat.id by lia; lia). rewrite Z2Nat.id by lia. done.
Qed.

Lemma expand_block_spec prk t prev_len info info_len counter : zlen prk = 32 ->
  0 <= prev_len <= 32 -> prev_len <= zlen t -> 0 <= info_len <= 256 -> info_len <= zlen info ->
  expand_block prk t prev_len info info_len counter =
  Some (hmac_spec prk (take (Z.to_nat prev_len) t ++ take (Z.to_nat info_len) info ++ [counter])).
Proof.
  intros Hp Hv Ht Hi Hil. unfold expand_block.
  set (a := take (Z.to_nat prev_len) t). set (b := take (Z.to_nat info_len) info).
  assert (Ha : zlen a = prev_len) by (subst a; unfold zlen in *; rewrite length_take; lia).
  assert (Hb : zlen b = info_len) by (subst b; unfold zlen in *; rewrite length_take; lia).
  assert (Hl : zlen (local 289) = 289) by done.
  rewrite copy_front by lia. fold a. cbn [mbind option_bind]. rewrite copy_front by (rewrite ?zlen_splice by lia; lia). fold b.
  cbn [mbind option_bind]. rewrite store_ok by (rewrite !zlen_splice by (rewrite ?zlen_splice by lia; lia); lia).
  cbn [mbind option_bind]. rewrite insert_splice by (rewrite !zlen_splice by (rewrite ?zlen_splice by lia; lia); lia).
  pose proof (splice_splice (local 289) a b 0) as S1. rewrite Z.add_0_l, Ha in S1. rewrite S1 by lia.
  pose proof (splice_splice (local 289) (a ++ b) [counter] 0) as S2. rewrite Z.add_0_l, zlen_app, Ha, Hb in S2.
  rewrite S2 by (change (zlen [counter]) with 1; lia). change QUIC_HKDF_PRK with 32. rewrite <- Hp at 1.
  rewrite hmac_front.
  - f_equal. f_equal. rewrite <- app_assoc. apply take_splice_n. rewrite !zlen_app, Ha, Hb. change (zlen [counter]) with 1. lia.
  - rewrite Hp. done.
  - rewrite zlen_splice by (rewrite ?zlen_app; change (zlen [counter]) with 1; lia). lia.
  - change (2 ^ 63) with 9223372036854775808. lia.
Qed.

Lemma zlen_hkdf_blocks n prk info : forall prev i, zlen (hkdf_blocks n prk info prev i) = 32 * Z.of_nat n.
Proof.
  induction n as [|n IH]; intros prev i; [done|]. cbn [hkdf_blocks]. cbv zeta. rewrite zlen_app, IH, zlen_hmac_spec. lia.
Qed.

(** The rounds from [off] on append the blocks [T(counter)], [T(counter+1)], ... *)
Lemma expand_loop_spec fuel : forall prk t prev_len info info_len okm off len counter,
  zlen prk = 32 -> 0 <= prev_len <= 32 -> prev_len <= zlen t -> 0 <= info_len <= 256 -> info_len <= zlen info ->
  0 <= off <= len -> len <= zlen okm -> zlen okm < max_object -> len - off <= 32 * Z.of_nat fuel ->
  0 <= counter -> counter + Z.of_nat fuel <= 256 ->
  expand_loop fuel prk t prev_len info info_len okm off len counter =
  Some (splice okm off (take (Z.to_nat (len - off))
    (hkdf_blocks fuel prk (take (Z.to_nat info_len) info) (take (Z.to_nat prev_len) t) counter))).
Proof.
  induction fuel as [|fuel IH]; intros prk t prev_len info info_len okm off len counter Hp Hv Ht Hi Hil Ho Hl Hob Hf Hc0 Hc;
    cbn [expand_loop].
  - zdecide. replace (len - off) with 0 by lia. change (take (Z.to_nat 0) _) with (@nil Z). by rewrite splice_nil.
  - destruct (Z.ltb_spec off len) as [Hlt|Hge].
    2:{ replace (len - off) with 0 by lia. change (take (Z.to_nat 0) _) with (@nil Z). by rewrite splice_nil. }
    rewrite expand_block_spec by lia. cbn [mbind option_bind hkdf_blocks]. cbv zeta.
    set (t' := hmac_spec prk _). assert (Ht' : zlen t' = 32) by apply zlen_hmac_spec.
    unfold emit. cbv zeta. unwrap. change QUIC_SHA256_DIGEST with 32.
    destruct (Z.ltb_spec (len - off) 32) as [Hs|Hs].
    + rewrite copy_front by lia. cbn [mbind option_bind]. unwrap. replace (off + (len - off)) with len by lia.
      rewrite take_app_le by (unfold zlen in Ht'; lia).
      destruct fuel; cbn [expand_loop]; by rewrite Z.ltb_irrefl.
    + rewrite copy_front by lia. cbn [mbind option_bind]. unwrap.
      assert (Hfull : take (Z.to_nat 32) t' = t') by (apply take_ge; unfold zlen in Ht'; lia). rewrite Hfull.
      assert (Hu : u8 (counter + 1) = counter + 1 \/ fuel = 0%nat).
      { destruct (Z.eq_dec counter 255) as [->|]; [right; lia|left; apply u8_id; unfold is_u8; lia]. }
      assert (Hstep : expand_loop fuel prk t' 32 info info_len (splice okm off t') (off + 32) len (u8 (counter + 1)) =
        expand_loop fuel prk t' 32 info info_len (splice okm off t') (off + 32) len (counter + 1)).
      { destruct Hu as [->| ->]; done. }
      rewrite Hstep, IH by (rewrite ?zlen_splice by lia; lia). rewrite Hfull, <- Ht', splice_splice.
      * f_equal. f_equal. rewrite take_app_ge by (unfold zlen in *; lia). f_equal. f_equal. unfold zlen in *. lia.
      * lia.
      * rewrite Ht'. unfold zlen at 1. rewrite length_take. pose proof (zlen_hkdf_blocks fuel prk (take (Z.to_nat info_len) info) t' (counter + 1)) as Hb.
        unfold zlen in *. lia.
Qed.

Lemma expand_spec prk info info_len okm len : zlen prk = 32 -> 0 <= info_len <= zlen info ->
  0 <= len <= zlen okm -> zlen okm < max_object ->
  quic_hkdf_expand prk info info_len okm len =
  Some (if (len <=? 8160) && (info_len <=? 256)
        then (true, splice okm 0 (hkdf_okm prk (take (Z.to_nat info_len) info) len)) else (false, okm)).
Proof.
  intros Hp Hi Hl Ho. unfold quic_hkdf_expand, expand_ok. change (255 * QUIC_SHA256_DIGEST) with 8160.
  destruct (Z.leb_spec len 8160), (Z.leb_spec info_len 256); cbn [andb negb]; try done.
  rewrite expand_loop_spec by (try done; try lia; cbn; lia). cbn [mbind option_bind]. rewrite Z.sub_0_r. done.
Qed.

(** Filling an array from its front. *)
Lemma store_front (l bs : list Z) x i : i = zlen bs -> zlen bs < zlen l -> store (splice l 0 bs) i x = Some (splice l 0 (bs ++ [x])).
Proof.
  intros -> Hl. pose proof (zlen_nonneg bs). rewrite store_ok by (rewrite zlen_splice by lia; lia).
  rewrite insert_splice by (rewrite zlen_splice by lia; lia). f_equal.
  pose proof (splice_splice l bs [x] 0) as S1. rewrite Z.add_0_l in S1. apply S1; [lia|]. change (zlen [x]) with 1. lia.
Qed.

Lemma append_front (l bs src : list Z) k i : i = zlen bs -> 0 <= k <= zlen src -> zlen bs + k <= zlen l -> zlen l < max_object ->
  append (splice l 0 bs) i src k = Some (splice l 0 (bs ++ take (Z.to_nat k) src), zlen (bs ++ take (Z.to_nat k) src)).
Proof.
  intros -> Hk Hl Ho. pose proof (zlen_nonneg bs). unfold append. rewrite copy_front by (rewrite ?zlen_splice by lia; lia).
  assert (Ht : zlen (take (Z.to_nat k) src) = k) by (unfold zlen in *; rewrite length_take; lia).
  cbn [mbind option_bind]. unwrap. rewrite zlen_app, Ht. do 2 f_equal.
  pose proof (splice_splice l bs (take (Z.to_nat k) src) 0) as S1. rewrite Z.add_0_l in S1. apply S1; lia.
Qed.

Lemma build_label_spec label ctx len : zlen label <= 64 -> zlen ctx <= 64 ->
  exists info, build_label (local 138) label (zlen label) ctx (zlen ctx) len = Some (info, 10 + zlen label + zlen ctx) /\
    take (Z.to_nat (10 + zlen label + zlen ctx)) info = hkdf_label label ctx len /\ zlen info = 138.
Proof.
  intros Hl Hc. pose proof (zlen_nonneg label). pose proof (zlen_nonneg ctx). unfold build_label.
  assert (H138 : zlen (local 138) = 138) by done. assert (H138o : zlen (local 138) < max_object) by done.
  assert (Ht : forall l : list Z, take (Z.to_nat (zlen l)) l = l) by (intros; unfold zlen; by rewrite Nat2Z.id, firstn_all).
  set (w := [u8 (Z.shiftr len 8); u8 len; u8 (6 + zlen label)]).
  assert (Hi3 : (i1 ← store (local 138) 0 (u8 (Z.shiftr len 8)); i2 ← store i1 1 (u8 len); store i2 2 (u8 (6 + zlen label))) =
    Some (splice (local 138) 0 w)).
  { rewrite <- (splice_nil (local 138) 0) at 1. rewrite store_front by done. cbn [mbind option_bind app].
    rewrite store_front by done. cbn [mbind option_bind app]. by rewrite store_front. }
  destruct (store (local 138) 0 _) as [i1|]; [|done]. cbn [mbind option_bind] in *.
  destruct (store i1 1 _) as [i2|]; [|done]. cbn [mbind option_bind] in *. rewrite Hi3. cbn [mbind option_bind].
  rewrite append_front by (done || lia). cbn [mbind option_bind]. change (take (Z.to_nat 6) label_prefix) with label_prefix.
  set (w2 := w ++ label_prefix). assert (Hw2 : zlen w2 = 9) by done.
  rewrite append_front by (done || lia). cbn [mbind option_bind]. rewrite Ht.
  rewrite store_front by (done || rewrite zlen_app; lia). cbn [mbind option_bind].
  rewrite append_front by (done || (rewrite !zlen_app; try change (zlen [u8 (zlen ctx)]) with 1; lia)). rewrite Ht.
  set (all := ((w2 ++ label) ++ [u8 (zlen ctx)]) ++ ctx).
  assert (Hz : zlen all = 10 + zlen label + zlen ctx) by (subst all; rewrite !zlen_app; change (zlen [u8 (zlen ctx)]) with 1; lia).
  exists (splice (local 138) 0 all). rewrite Hz. split_and!; [done| |rewrite zlen_splice; lia].
  rewrite <- Hz, take_splice_front. subst all w2 w. unfold hkdf_label. rewrite (u8_id (6 + zlen label)), (u8_id (zlen ctx)) by (unfold is_u8; lia).
  rewrite shiftr_8, <- !app_assoc. done.
Qed.

Lemma expand_label_ok prk label ctx okm len : zlen prk = 32 -> zlen label <= 64 -> zlen ctx <= 64 -> 0 <= len <= 8160 ->
  len <= zlen okm -> zlen okm < max_object ->
  quic_hkdf_expand_label prk label (zlen label) ctx (zlen ctx) okm len =
  Some (true, splice okm 0 (hkdf_okm prk (hkdf_label label ctx len) len)).
Proof.
  intros Hp Hlb Hcx Hl Hlo Ho. unfold quic_hkdf_expand_label. pose proof (zlen_nonneg label). pose proof (zlen_nonneg ctx). zdecide. cbn [orb].
  destruct (build_label_spec label ctx len) as (info & He & Hi & Hz); [lia|lia|]. rewrite He. cbn [mbind option_bind].
  rewrite expand_spec by (done || lia). rewrite Hi.
  ztrue (len <=? 8160). ztrue (10 + zlen label + zlen ctx <=? 256). done.
Qed.

(** C24: HKDF-Expand-Label is the function of RFC 8446 section 7.1 over the HKDF of
    RFC 5869 and HMAC-SHA-256: for every secret, label and context of at most 64
    octets and every length up to 255 * 32 the output buffer receives exactly the
    first [len] octets of T(1) || T(2) || ... for the HkdfLabel, and nothing
    outside; longer labels, contexts and lengths are refused with the buffer
    unchanged. *)
Theorem expand_label_exact prk label ctx okm len : zlen prk = 32 -> 0 <= len <= zlen okm -> zlen okm < max_object ->
  quic_hkdf_expand_label prk label (zlen label) ctx (zlen ctx) okm len =
  Some (if (zlen label <=? 64) && (zlen ctx <=? 64) && (len <=? 8160)
        then (true, splice okm 0 (hkdf_okm prk (hkdf_label label ctx len) len)) else (false, okm)).
Proof.
  intros Hp Hl Ho. pose proof (zlen_nonneg label). pose proof (zlen_nonneg ctx).
  destruct (Z.leb_spec (zlen label) 64) as [Hlb|Hlb]; [|unfold quic_hkdf_expand_label; by zdecide].
  destruct (Z.leb_spec (zlen ctx) 64) as [Hcx|Hcx]; [|unfold quic_hkdf_expand_label; by zdecide].
  destruct (Z.leb_spec len 8160); [apply expand_label_ok; lia|]. unfold quic_hkdf_expand_label. zdecide. cbn [orb andb].
  destruct (build_label_spec label ctx len) as (info & He & Hi & Hz); [lia|lia|]. rewrite He. cbn [mbind option_bind].
  rewrite expand_spec by (done || lia). by zfalse (len <=? 8160).
Qed.

(** Witness of C24: the label of the client's Initial secret. *)
Lemma expand_label_exact_witness :
  quic_hkdf_expand_label (local 32) (c_bytes "client in") 9 [] 0 (local 40) 32 =
  Some (true, splice (local 40) 0 (hkdf_okm (local 32) (hkdf_label (c_bytes "client in") [] 32) 32)).
Proof. exact (expand_label_exact (local 32) (c_bytes "client in") [] (local 40) 32 eq_refl ltac:(closed_arith) eq_refl). Defined.
