(* ===== verification/Aes.v ===== *)
(** AES-128, encryption of one block.

    [crypto/symmetric/aead/aes/aes.c].  The state is a list of 16 octets, the key
    schedule a list of 44 words; all indices are constants below the sizes of the
    arrays.  The reference is FIPS 197: the S-box is the affine image of the
    inverse in GF(2^8), MixColumns is the product with the circulant matrix
    (2 3 1 1). *)
From S2P Require Import Prelude.
From S2P Require Import Buffers.

Definition QUIC_AES_BLOCK : Z := 16.
Definition QUIC_AES_ROUNDS : Z := 10.
Definition QUIC_AES_RK_WORDS : Z := 44.

Definition SBOX : list Z :=
  [99; 124; 119; 123; 242; 107; 111; 197; 48; 1; 103; 43; 254; 215; 171; 118; 202; 130; 201; 125; 250; 89; 71;
   240; 173; 212; 162; 175; 156; 164; 114; 192; 183; 253; 147; 38; 54; 63; 247; 204; 52; 165; 229; 241; 113;
   216; 49; 21; 4; 199; 35; 195; 24; 150; 5; 154; 7; 18; 128; 226; 235; 39; 178; 117; 9; 131; 44; 26; 27; 110;
   90; 160; 82; 59; 214; 179; 41; 227; 47; 132; 83; 209; 0; 237; 32; 252; 177; 91; 106; 203; 190; 57; 74; 76;
   88; 207; 208; 239; 170; 251; 67; 77; 51; 133; 69; 249; 2; 127; 80; 60; 159; 168; 81; 163; 64; 143; 146;
   157; 56; 245; 188; 182; 218; 33; 16; 255; 243; 210; 205; 12; 19; 236; 95; 151; 68; 23; 196; 167; 126; 61;
   100; 93; 25; 115; 96; 129; 79; 220; 34; 42; 144; 136; 70; 238; 184; 20; 222; 94; 11; 219; 224; 50; 58; 10;
   73; 6; 36; 92; 194; 211; 172; 98; 145; 149; 228; 121; 231; 200; 55; 109; 141; 213; 78; 169; 108; 86; 244;
   234; 101; 122; 174; 8; 186; 120; 37; 46; 28; 166; 180; 198; 232; 221; 116; 31; 75; 189; 139; 138; 112; 62;
   181; 102; 72; 3; 246; 14; 97; 53; 87; 185; 134; 193; 29; 158; 225; 248; 152; 17; 105; 217; 142; 148; 155;
   30; 135; 233; 206; 85; 40; 223; 140; 161; 137; 13; 191; 230; 66; 104; 65; 153; 45; 15; 176; 84; 187; 22].

Definition RCON : list Z := [1; 2; 4; 8; 16; 32; 64; 128; 27; 54].

Definition XTIME (x : Z) : Z := u8 (Z.lxor (Z.shiftl x 1) (Z.shiftr x 7 * 0x1b)).

(** The words of the key schedule. *)
Definition quic_aes128 : Type := list Z.

Definition copy16 (src : list Z) : list Z := List.map (fun i => at_ src (Z.of_nat i)) (seq 0 16).

Definition sub_word (w : Z) : Z :=
  Z.lor (Z.lor (Z.lor (Z.shiftl (at_ SBOX (Z.land (Z.shiftr w 24) 0xff)) 24)
                      (Z.shiftl (at_ SBOX (Z.land (Z.shiftr w 16) 0xff)) 16))
               (Z.shiftl (at_ SBOX (Z.land (Z.shiftr w 8) 0xff)) 8))
        (at_ SBOX (Z.land w 0xff)).

Definition schedule_word (prev : Z) (i : Z) : Z :=
  if negb (i mod 4 =? 0) then prev
  else Z.lxor (sub_word (Z.lor (u32 (Z.shiftl prev 8)) (Z.shiftr prev 24))) (Z.shiftl (at_ RCON (i / 4 - 1)) 24).

Definition key_word (key : list Z) (i : Z) : Z :=
  Z.lor (Z.lor (Z.lor (Z.shiftl (at_ key (4 * i)) 24) (Z.shiftl (at_ key (4 * i + 1)) 16))
               (Z.shiftl (at_ key (4 * i + 2)) 8)) (at_ key (4 * i + 3)).

(** [for (i = 4; i < 44; i++)], [k] words from [i] on. *)
Fixpoint expand_key (k : nat) (i : Z) (rk : list Z) : list Z :=
  match k with
  | O => rk
  | S k' => expand_key k' (i + 1) (rk ++ [Z.lxor (at_ rk (i - 4)) (schedule_word (at_ rk (i - 1)) i)])
  end.

Definition quic_aes128_init (key : list Z) : quic_aes128 :=
  expand_key 40 4 (List.map (fun i => key_word key (Z.of_nat i)) (seq 0 4)).

(** Octet [4c + r] is masked with octet [r] of word [c]; [rk] starts at the
    round's first word. *)
Definition add_round_key (s rk : list Z) : list Z :=
  List.map (fun i => Z.lxor (at_ s (Z.of_nat i))
    (u8 (Z.shiftr (at_ rk (Z.of_nat i / 4)) (24 - 8 * (Z.of_nat i mod 4))))) (seq 0 16).

Definition sub_bytes (s : list Z) : list Z := List.map (fun i => at_ SBOX (at_ s (Z.of_nat i))) (seq 0 16).

(** [t[4c + r] = s[4 ((c + r) mod 4) + r]]. *)
Definition shift_col (s : list Z) (c : Z) : list Z :=
  List.map (fun r => at_ s (4 * ((c + Z.of_nat r) mod 4) + Z.of_nat r)) (seq 0 4).
Definition shift_rows (s : list Z) : list Z := List.flat_map (fun c => shift_col s (Z.of_nat c)) (seq 0 4).

Definition mix_one (a0 a1 a2 a3 : Z) : list Z :=
  [Z.lxor (Z.lxor (Z.lxor (XTIME a0) (Z.lxor (XTIME a1) a1)) a2) a3;
   Z.lxor (Z.lxor (Z.lxor a0 (XTIME a1)) (Z.lxor (XTIME a2) a2)) a3;
   Z.lxor (Z.lxor (Z.lxor a0 a1) (XTIME a2)) (Z.lxor (XTIME a3) a3);
   Z.lxor (Z.lxor (Z.lxor (Z.lxor (XTIME a0) a0) a1) a2) (XTIME a3)].
Definition mix_columns (s : list Z) : list Z :=
  List.flat_map (fun c => mix_one (at_ s (4 * Z.of_nat c)) (at_ s (4 * Z.of_nat c + 1)) (at_ s (4 * Z.of_nat c + 2))
    (at_ s (4 * Z.of_nat c + 3))) (seq 0 4).

Definition round_full (s rk : list Z) : list Z := add_round_key (mix_columns (shift_rows (sub_bytes s))) rk.
Definition round_last (s rk : list Z) : list Z := add_round_key (shift_rows (sub_bytes s)) rk.

Definition quic_aes128_encrypt (a : quic_aes128) (inp : list Z) : list Z :=
  let s0 := add_round_key (copy16 inp) a in
  let s9 := fold_left (fun s r => round_full s (drop (4 * r) a)) (seq 1 9) s0 in
  copy16 (round_last s9 (drop 40 a)).

(** * Reference: arithmetic in GF(2^8) *)

(** Product modulo x^8 + x^4 + x^3 + x + 1, [k] bits of [b] from the top. *)
Fixpoint gmul8 (k : nat) (a b : Z) : Z :=
  match k with
  | O => 0
  | S k' =>
      let hi := gmul8 k' a (Z.shiftr b 1) in
      Z.lxor (if Z.testbit hi 7 then Z.lxor (2 * hi) 0x11b else 2 * hi) (if Z.testbit b 0 then a else 0)
  end.
Definition gmul (a b : Z) : Z := gmul8 8 a b.

Definition octets : list Z := List.map Z.of_nat (seq 0 256).

(** The inverse, 0 for 0, by search. *)
Definition ginv (a : Z) : Z := match find (fun b => gmul a b =? 1) octets with Some b => b | None => 0 end.

(** FIPS 197 section 5.1.1: b + (b <<< 1) + ... + (b <<< 4) + 63. *)
Definition rotl8 (b k : Z) : Z := Z.lor (u8 (Z.shiftl b k)) (Z.shiftr b (8 - k)).
Definition affine (b : Z) : Z :=
  Z.lxor (Z.lxor (Z.lxor (Z.lxor (Z.lxor b (rotl8 b 1)) (rotl8 b 2)) (rotl8 b 3)) (rotl8 b 4)) 0x63.

Lemma sbox_exact : List.map (fun a => affine (ginv a)) octets = SBOX.
Proof. by vm_compute. Qed.

Lemma rcon_exact : RCON = List.map (fun i => Nat.iter i (gmul 2) 1) (seq 0 10).
Proof. by vm_compute. Qed.

Lemma xtime_exact a : is_u8 a -> XTIME a = gmul 2 a /\ Z.lxor (XTIME a) a = gmul 3 a.
Proof.
  intros Ha. assert (Hall : forallb (fun a => (XTIME a =? gmul 2 a) && (Z.lxor (XTIME a) a =? gmul 3 a)) octets = true) by by vm_compute.
  rewrite forallb_forall in Hall. specialize (Hall a). rewrite andb_true_iff, !Z.eqb_eq in Hall. apply Hall.
  unfold octets. apply in_map_iff. exists (Z.to_nat a). unfold is_u8 in Ha. split; [lia|apply in_seq; lia].
Qed.

(** MixColumns on one column is the product with the circulant of (2 3 1 1). *)
Lemma mix_one_exact a0 a1 a2 a3 : is_u8 a0 -> is_u8 a1 -> is_u8 a2 -> is_u8 a3 ->
  mix_one a0 a1 a2 a3 =
  [Z.lxor (Z.lxor (Z.lxor (gmul 2 a0) (gmul 3 a1)) a2) a3; Z.lxor (Z.lxor (Z.lxor a0 (gmul 2 a1)) (gmul 3 a2)) a3;
   Z.lxor (Z.lxor (Z.lxor a0 a1) (gmul 2 a2)) (gmul 3 a3); Z.lxor (Z.lxor (Z.lxor (gmul 3 a0) a1) a2) (gmul 2 a3)].
Proof.
  intros [X0 T0]%xtime_exact [X1 T1]%xtime_exact [X2 T2]%xtime_exact [X3 T3]%xtime_exact. unfold mix_one.
  by rewrite T0, T1, T2, T3, X0, X1, X2, X3.
Qed.

(** FIPS 197 appendix B. *)
Example aes_fips197 :
  quic_aes128_encrypt (quic_aes128_init [43; 126; 21; 22; 40; 174; 210; 166; 171; 247; 21; 136; 9; 207; 79; 60])
    [50; 67; 246; 168; 136; 90; 48; 141; 49; 49; 152; 162; 224; 55; 7; 52] =
  [57; 37; 132; 29; 2; 220; 9; 251; 220; 17; 133; 151; 25; 106; 11; 50].
Proof. by vm_compute. Qed.

(** ** Blocks stay blocks of octets *)

Lemma u8_lxor x y : is_u8 x -> is_u8 y -> is_u8 (Z.lxor x y).
Proof. intros Hx Hy. rewrite <- lxor_u8 by done. apply u8_range. Qed.

Lemma map_seq_block (f : nat -> Z) : (forall i, is_u8 (f i)) -> Forall is_u8 (List.map f (seq 0 16)).
Proof. intros Hf. apply List.Forall_forall. intros x (i & <- & _)%in_map_iff. apply Hf. Qed.

Lemma encrypt_block a inp : zlen (quic_aes128_encrypt a inp) = 16.
Proof. unfold quic_aes128_encrypt, copy16, zlen. by rewrite List.length_map, length_seq. Qed.

Lemma at_u8 l i : Forall is_u8 l -> is_u8 (at_ l i).
Proof.
  intros Hl. unfold at_. destruct (Nat.lt_ge_cases (Z.to_nat i) (length l)) as [Hi|Hi].
  - rewrite List.Forall_forall in Hl. by apply Hl, nth_In.
  - rewrite nth_overflow by done. unfold is_u8. lia.
Qed.

Lemma sbox_u8 : Forall is_u8 SBOX.
Proof.
  apply List.Forall_forall. intros x Hx. assert (Hall : forallb (fun x => (0 <=? x) && (x <? 256)) SBOX = true) by by vm_compute.
  rewrite forallb_forall in Hall. specialize (Hall x Hx). zbool. unfold is_u8. lia.
Qed.

Lemma encrypt_u8 a inp : Forall is_u8 (quic_aes128_encrypt a inp).
Proof.
  unfold quic_aes128_encrypt. cbv zeta. set (s9 := fold_left _ _ _). apply map_seq_block. intros i. apply at_u8.
  apply map_seq_block. intros j. apply u8_lxor; [|apply u8_range]. apply at_u8. unfold shift_rows, shift_col.
  apply List.Forall_forall. intros x (c & _ & (r & <- & _)%in_map_iff)%in_flat_map. apply at_u8.
  apply map_seq_block. intros k. apply at_u8, sbox_u8.
Qed.
