(* ===== verification/CtrMode.v ===== *)
(** Counter mode.

    Both ciphers of the program encrypt by xoring the message with a key stream
    made of the images of successive counters: [ctr_xor] of
    [crypto/symmetric/aead/gcm/gcm.c] (16-octet blocks, the counter is the last
    four octets of a block) and [quic_chacha20_xor] of
    [crypto/symmetric/aead/chacha/chacha20.c] (64-octet blocks, a [u32] counter).
    The two loops are the same up to the block size, the block function and the
    successor, which are the parameters of the section.  The output may be the
    input itself (packets are encrypted and decrypted in place), so the source is
    either another array or the output array. *)
From S2P Require Import Prelude.
From S2P Require Import Buffers.
From S2P Require Import Aes.

(** Where an encryption reads: an array apart from the output, or the output
    array itself. *)
Inductive source := Apart (l : list Z) | InPlace.

Definition source_of (s : source) (out : list Z) : list Z := match s with Apart l => l | InPlace => out end.

(** [out[off + i] = in[off + i] ^ ks[i]] for the [k] octets from [i] on. *)
Fixpoint xor_loop (k : nat) (inp : source) (ks out : list Z) (off i : Z) : option (list Z) :=
  match k with
  | O => Some out
  | S k' => b ← load (source_of inp out) (off + i);
            out' ← store out (off + i) (Z.lxor b (at_ ks i));
            xor_loop k' inp ks out' off (i + 1)
  end.

Fixpoint zip_xor (m ks : list Z) : list Z :=
  match m, ks with x :: m', k :: ks' => Z.lxor x k :: zip_xor m' ks' | _, _ => [] end.

Lemma zip_xor_app m1 : forall m2 k1 k2, length m1 = length k1 -> zip_xor (m1 ++ m2) (k1 ++ k2) = zip_xor m1 k1 ++ zip_xor m2 k2.
Proof. induction m1 as [|x m1 IH]; intros m2 [|k k1] k2 Hl; try done. cbn. f_equal. apply IH. by injection Hl. Qed.

Lemma length_zip_xor m : forall ks, (length m <= length ks)%nat -> length (zip_xor m ks) = length m.
Proof. induction m as [|x m IH]; intros [|k ks] Hl; cbn in *; try lia. rewrite IH; lia. Qed.

Lemma zip_xor_longer m : forall ks ks', (length m <= length ks)%nat -> zip_xor m (ks ++ ks') = zip_xor m ks.
Proof. induction m as [|x m IH]; intros [|k ks] ks' Hl; cbn in *; try done; try lia. f_equal. apply IH. lia. Qed.

Lemma zip_xor_twice m : forall ks, (length m <= length ks)%nat -> zip_xor (zip_xor m ks) ks = m.
Proof.
  induction m as [|x m IH]; intros [|k ks] Hl; cbn in *; try done; try lia. f_equal; [|apply IH; lia].
  by rewrite Z.lxor_assoc, Z.lxor_nilpotent, Z.lxor_0_r.
Qed.

Lemma zip_xor_u8 m : forall ks, Forall is_u8 m -> Forall is_u8 ks -> Forall is_u8 (zip_xor m ks).
Proof.
  induction m as [|x m IH]; intros [|k ks] Hm Hk; cbn; try apply List.Forall_nil.
  apply List.Forall_cons_iff in Hm as [Hx Hm], Hk as [Hk Hks]. apply List.Forall_cons; [by apply u8_lxor|by apply IH].
Qed.

Lemma xor_loop_spec k : forall inp ks out off i, 0 <= off -> 0 <= i -> i + Z.of_nat k <= zlen ks ->
  off + i + Z.of_nat k <= zlen out -> off + i + Z.of_nat k <= zlen (source_of inp out) ->
  xor_loop k inp ks out off i =
  Some (splice out (off + i) (zip_xor (slice (source_of inp out) (off + i) (Z.of_nat k)) (drop (Z.to_nat i) ks))).
Proof.
  induction k as [|k IH]; intros inp ks out off i Hoff Hi Hk Ho Hs; cbn [xor_loop].
  - change (slice _ (off + i) (Z.of_nat 0)) with (@nil Z). cbn [zip_xor]. by rewrite splice_nil.
  - destruct (load_is_Some (source_of inp out) (off + i)) as [b Hb]; [lia|]. rewrite Hb. cbn [mbind option_bind].
    rewrite store_ok by lia. cbn [mbind option_bind].
    assert (Hsrc : slice (source_of inp (<[Z.to_nat (off + i):=Z.lxor b (at_ ks i)]> out)) (off + (i + 1)) (Z.of_nat k) =
      slice (source_of inp out) (off + (i + 1)) (Z.of_nat k)).
    { destruct inp; cbn [source_of]; [done|]. unfold slice. f_equal. apply drop_insert_lt. lia. }
    rewrite IH; [|lia|lia|lia|rewrite zlen_insert; lia|].
    2:{ destruct inp; cbn [source_of] in *; rewrite ?zlen_insert; lia. }
    f_equal. rewrite Hsrc, (slice_cons (source_of inp out) (off + i)) by lia. rewrite Hb.
    replace (off + i + 1) with (off + (i + 1)) by lia. replace (Z.of_nat (S k) - 1) with (Z.of_nat k) by lia.
    assert (Hd : drop (Z.to_nat i) ks = at_ ks i :: drop (Z.to_nat (i + 1)) ks).
    { destruct (lookup_lt_is_Some_2 ks (Z.to_nat i)) as [x Hx]; [unfold zlen in Hk; lia|].
      rewrite (drop_S ks x (Z.to_nat i) Hx). f_equal; [|f_equal; lia]. unfold at_. by rewrite (nth_lookup_Some _ _ 0 _ Hx). }
    rewrite Hd. cbn [zip_xor app].
    set (t := zip_xor _ _). assert (Ht : (length t <= k)%nat).
    { subst t. transitivity (length (slice (source_of inp out) (off + (i + 1)) (Z.of_nat k))).
      - rewrite length_zip_xor; [done|]. unfold slice. rewrite length_take, !length_drop. unfold zlen in *. lia.
      - unfold slice. rewrite length_take. lia. }
    rewrite <- splice_cons by (rewrite ?zlen_cons; unfold zlen in *; lia).
    by replace (off + i + 1) with (off + (i + 1)) by lia.
Qed.

Section CtrMode.
Context {C : Type} (B : Z) (block : C -> list Z) (next : C -> C).
Context (HB : 0 < B < 2 ^ 16) (Hblock : forall c, zlen (block c) = B) (Hu8 : forall c, Forall is_u8 (block c)).

(** [(len - off < B) ? len - off : B]. *)
Definition chunk_n (off len : Z) : Z := if len -w off <? B then len -w off else B.

(** The octets done and the output array. *)
Definition ctr_chunk_ (c : C) (inp : source) (off len : Z) (out : list Z) : option (Z * list Z) :=
  let n := chunk_n off len in
  out' ← xor_loop (Z.to_nat n) inp (block c) out off 0; Some (n, out').

(** [while (off < len)]. *)
Fixpoint ctr_loop_ (fuel : nat) (c : C) (inp : source) (off len : Z) (out : list Z) : option (list Z) :=
  if off <? len
  then match fuel with
       | O => None
       | S f => '(n, out') ← ctr_chunk_ c inp off len out; ctr_loop_ f (next c) inp (off +w n) len out'
       end
  else Some out.

(** One round a block is enough. *)
Definition ctr_xor_ (c : C) (inp : source) (len : Z) (out : list Z) : option (list Z) :=
  ctr_loop_ (Z.to_nat ((len + B - 1) / B)) c inp 0 len out.

(** ** The key stream *)

(** [n] blocks of key stream from counter [c] on. *)
Fixpoint key_stream (c : C) (n : nat) : list Z :=
  match n with O => [] | S n' => block c ++ key_stream (next c) n' end.

Definition ctr_crypt (c : C) (m : list Z) : list Z := zip_xor m (key_stream c (length m)).

Lemma zlen_key_stream n : forall c, zlen (key_stream c n) = B * Z.of_nat n.
Proof.
  induction n as [|n IH]; intros c; [cbn; change (zlen (@nil Z)) with 0; lia|]. cbn [key_stream]. rewrite zlen_app, IH, Hblock. lia.
Qed.

Lemma key_stream_long n c : (n <= length (key_stream c n))%nat.
Proof. pose proof (zlen_key_stream n c) as H. unfold zlen in H. nia. Qed.

Lemma key_stream_u8 n : forall c, Forall is_u8 (key_stream c n).
Proof. induction n as [|n IH]; intros c; [apply List.Forall_nil|]. apply Forall_app. split; [apply Hu8|apply IH]. Qed.

Lemma key_stream_more n k : forall c, exists t, key_stream c (n + k) = key_stream c n ++ t.
Proof.
  induction n as [|n IH]; intros c; [by exists (key_stream c k)|].
  destruct (IH (next c)) as [t Ht]. exists t. cbn [Nat.add key_stream]. by rewrite Ht, app_assoc.
Qed.

(** More blocks than the message needs change nothing. *)
Lemma key_stream_enough m n c : zlen m <= B * Z.of_nat n ->
  zip_xor m (key_stream c n) = zip_xor m (key_stream c (length m)).
Proof.
  intros Hn. destruct (Nat.le_ge_cases n (length m)) as [Hle|Hle].
  - destruct (key_stream_more n (length m - n)%nat c) as [t Ht]. replace (n + (length m - n))%nat with (length m) in Ht by lia.
    rewrite Ht, zip_xor_longer; [done|]. pose proof (zlen_key_stream n c) as Hz. unfold zlen in *. lia.
  - destruct (key_stream_more (length m) (n - length m)%nat c) as [t Ht]. replace (length m + (n - length m))%nat with n in Ht by lia.
    rewrite Ht, zip_xor_longer; [done|]. apply key_stream_long.
Qed.

Lemma zlen_ctr_crypt c m : zlen (ctr_crypt c m) = zlen m.
Proof. unfold zlen. f_equal. apply length_zip_xor, key_stream_long. Qed.

Lemma ctr_crypt_twice c m : ctr_crypt c (ctr_crypt c m) = m.
Proof.
  pose proof (zlen_ctr_crypt c m) as Hl. unfold zlen in Hl. apply Nat2Z.inj in Hl. unfold ctr_crypt at 1. rewrite Hl.
  apply zip_xor_twice, key_stream_long.
Qed.

Lemma ctr_crypt_u8 c m : Forall is_u8 m -> Forall is_u8 (ctr_crypt c m).
Proof. intros Hm. apply zip_xor_u8; [done|apply key_stream_u8]. Qed.

(** One block after the other. *)
Lemma ctr_crypt_app c m1 m2 : zlen m1 = B -> ctr_crypt c (m1 ++ m2) = zip_xor m1 (block c) ++ ctr_crypt (next c) m2.
Proof.
  intros H1. unfold ctr_crypt. rewrite length_app. destruct m1 as [|x m1]; [change (zlen (@nil Z)) with 0 in H1; lia|].
  cbn [length Nat.add key_stream]. rewrite zip_xor_app by (pose proof (Hblock c); unfold zlen in *; lia). f_equal.
  apply key_stream_enough. unfold zlen. nia.
Qed.

Lemma ctr_crypt_short c m : zlen m <= B -> ctr_crypt c m = zip_xor m (block c).
Proof. intros Hl. unfold ctr_crypt. rewrite <- (key_stream_enough m 1 c) by lia. cbn [key_stream]. by rewrite app_nil_r. Qed.

(** The loop writes the encryption of what it reads, in place or not. *)
Lemma ctr_loop_spec fuel : forall c inp off len out,
  0 <= off <= len -> len <= zlen out -> len <= zlen (source_of inp out) -> zlen out < max_object ->
  len - off <= B * Z.of_nat fuel ->
  ctr_loop_ fuel c inp off len out = Some (splice out off (ctr_crypt c (slice (source_of inp out) off (len - off)))).
Proof.
  induction fuel as [|fuel IH]; intros c inp off len out Hoff Hl Hs Ho Hf; cbn [ctr_loop_].
  - zdecide. replace (len - off) with 0 by lia. change (ctr_crypt c (slice _ off 0)) with (@nil Z). by rewrite splice_nil.
  - destruct (Z.ltb_spec off len) as [Hlt|Hge].
    2:{ replace (len - off) with 0 by lia. change (ctr_crypt c (slice _ off 0)) with (@nil Z). by rewrite splice_nil. }
    unfold ctr_chunk_. cbv zeta. unfold chunk_n. unwrap.
    set (n := if len - off <? B then len - off else B).
    assert (Hn : 0 < n <= B /\ n <= len - off) by (subst n; zcase; lia).
    pose proof (Hblock c) as He.
    rewrite xor_loop_spec by lia. cbn [mbind option_bind]. rewrite Z2Nat.id, Z.add_0_r by lia. unwrap.
    change (drop (Z.to_nat 0) ?x) with x. set (z := zip_xor _ _).
    assert (Hsl : zlen (slice (source_of inp out) off n) = n) by (apply zlen_slice; lia).
    assert (Hz : zlen z = n) by (subst z; unfold zlen in *; rewrite length_zip_xor; lia).
    assert (Hsrc : slice (source_of inp (splice out off z)) (off + n) (len - (off + n)) = slice (source_of inp out) (off + n) (len - (off + n))).
    { destruct inp; cbn [source_of]; [done|]. unfold slice. rewrite drop_splice by lia. done. }
    rewrite IH; [|lia|rewrite zlen_splice; lia| |rewrite zlen_splice; lia|subst n; revert Hn; zcase; lia].
    2:{ destruct inp; cbn [source_of] in *; rewrite ?zlen_splice by lia; lia. }
    rewrite Hsrc. replace (splice (splice out off z) (off + n)) with (splice (splice out off z) (off + zlen z)) by (by rewrite Hz).
    rewrite splice_splice; [|lia|rewrite Hz, zlen_ctr_crypt, zlen_slice; lia].
    f_equal. f_equal. replace (len - off) with (n + (len - (off + n))) by lia. rewrite slice_split by lia.
    destruct (Z.ltb_spec (len - off) B) as [Hs16|Hs16].
    + assert (n = len - off) by (subst n; by zdecide). replace (len - (off + n)) with 0 by lia.
      change (slice _ (off + n) 0) with (@nil Z). change (ctr_crypt (next c) []) with (@nil Z).
      rewrite !app_nil_r, ctr_crypt_short; [done|lia].
    + assert (n = B) by (subst n; by zdecide). rewrite ctr_crypt_app; [done|lia].
Qed.

Lemma ctr_xor_spec c inp len out : 0 <= len <= zlen out -> len <= zlen (source_of inp out) -> zlen out < max_object ->
  ctr_xor_ c inp len out = Some (splice out 0 (ctr_crypt c (take (Z.to_nat len) (source_of inp out)))).
Proof.
  intros Hl Hs Ho. unfold ctr_xor_. rewrite ctr_loop_spec; [by rewrite Z.sub_0_r|lia..|].
  pose proof (Z.mul_succ_div_gt (len + B - 1) B ltac:(lia)). rewrite Z2Nat.id by (apply Z.div_pos; lia). lia.
Qed.
End CtrMode.
