(* ===== verification/Gcm.v ===== *)
(** AES-128-GCM.

    [crypto/symmetric/aead/gcm/gcm.c].  The 16-octet arrays of the code are lists
    read with constant indices; message, additional data and output are arrays of
    the caller, read and written with checked accesses.  Counter mode is that of CtrMode,
    with AES as the block function. *)
From S2P Require Import Prelude.
From S2P Require Import Buffers.
From S2P Require Import Aes.
From S2P Require Import CtrMode.

Definition QUIC_GCM_NONCE : Z := 12.
Definition QUIC_GCM_TAG : Z := 16.

(** ** GHASH *)

Definition xor16 (dst src : list Z) : list Z :=
  List.map (fun i => Z.lxor (at_ dst (Z.of_nat i)) (at_ src (Z.of_nat i))) (seq 0 16).

(** Each octet takes the low bit of the one before it; the loop runs from the
    last octet down, so it reads old values. *)
Definition shr1 (x : list Z) : list Z :=
  List.map (fun i => if (i =? 0)%nat then Z.shiftr (at_ x 0) 1
    else u8 (Z.lor (Z.shiftr (at_ x (Z.of_nat i)) 1) (Z.shiftl (at_ x (Z.of_nat i - 1)) 7))) (seq 0 16).

(** [z ^= v & mask; v = (v >> 1) ^ (v & 1 ? 0xe1 << 120 : 0)]. *)
Definition gf_step (zv : list Z * list Z) (mask : Z) : list Z * list Z :=
  let '(z, v) := zv in
  let z' := List.map (fun j => Z.lxor (at_ z (Z.of_nat j)) (Z.land (at_ v (Z.of_nat j)) mask)) (seq 0 16) in
  let lsb := u8 (- Z.land (at_ v 15) 1) in
  let w := shr1 v in
  (z', <[0%nat := Z.lxor (at_ w 0) (Z.land 0xe1 lsb)]> w).

Definition gf_bit (y : list Z) (bit : nat) : Z :=
  u8 (- Z.land (Z.shiftr (at_ y (Z.of_nat bit / 8)) (7 - Z.of_nat bit mod 8)) 1).

Definition gf_mul (x y : list Z) : list Z :=
  fst (fold_left (fun zv bit => gf_step zv (gf_bit y bit)) (seq 0 128) (repeat 0 16, copy16 x)).

Definition ghash_block (h y block : list Z) : list Z := gf_mul (xor16 y block) (copy16 h).

Definition block_n (off len : Z) : Z := if len -w off <? 16 then len -w off else 16.

(** [None] when an octet outside [p] is read. *)
Definition load_block (p : list Z) (off len : Z) : option (list Z) :=
  let n := block_n off len in
  if off + n <=? zlen p then Some (slice p off n ++ repeat 0 (Z.to_nat (16 - n))) else None.

(** [while (off < len)], 16 octets a round. *)
Fixpoint ghash_loop (fuel : nat) (h y p : list Z) (off len : Z) : option (list Z) :=
  if off <? len
  then match fuel with
       | O => None
       | S f => b ← load_block p off len; ghash_loop f h (ghash_block h y b) p (off +w 16) len
       end
  else Some y.

Definition ghash_bytes (h y p : list Z) (len : Z) : option (list Z) :=
  ghash_loop (Z.to_nat ((len + 15) / 16)) h y p 0 len.

(** ** Counter mode *)

Definition put_be64 (v : Z) : list Z := List.map (fun i => u8 (Z.shiftr v (56 - Z.of_nat i * 8))) (seq 0 8).

(** [for (i = 16; i > 12; i--) if (++c[i-1] != 0) return;] *)
Fixpoint ctr_inc_loop (k : nat) (i : nat) (c : list Z) : list Z :=
  match k with
  | O => c
  | S k' => let b := u8 (at_ c (Z.of_nat i - 1) + 1) in
            let c' := <[(i - 1)%nat := b]> c in
            if negb (b =? 0) then c' else ctr_inc_loop k' (i - 1) c'
  end.
Definition ctr_inc (c : list Z) : list Z := ctr_inc_loop 4 16 c.

(** The loop of [ctr_xor] with the body of [ctr_chunk]: one block of key stream,
    then the next counter. *)
Definition ctr_xor (a : quic_aes128) (ctr : list Z) (inp : source) (len : Z) (out : list Z) : option (list Z) :=
  ctr_xor_ 16 (quic_aes128_encrypt a) ctr_inc ctr inp len out.

(** ** The AEAD *)

(** [H] and [J0]. *)
Definition gcm_setup (a : quic_aes128) (nonce : list Z) : list Z * list Z :=
  (quic_aes128_encrypt a (repeat 0 16), take 12 nonce ++ [0; 0; 0; 1]).

Definition gcm_tag (a : quic_aes128) (h j0 aad : list Z) (aad_len : Z) (ct : list Z) (ct_len : Z) : option (list Z) :=
  y1 ← ghash_bytes h (repeat 0 16) aad aad_len;
  y2 ← ghash_bytes h y1 ct ct_len;
  let y3 := ghash_block h y2 (put_be64 (aad_len *w 8) ++ put_be64 (ct_len *w 8)) in
  Some (xor16 y3 (quic_aes128_encrypt a j0)).

(** The ciphertext array and the tag; [ct] is the output array. *)
Definition quic_gcm_seal (a : quic_aes128) (nonce aad : list Z) (aad_len : Z) (pt : source) (pt_len : Z) (ct : list Z)
  : option (list Z * list Z) :=
  let '(h, j0) := gcm_setup a nonce in
  ct' ← ctr_xor a (ctr_inc (copy16 j0)) pt pt_len ct;
  tag ← gcm_tag a h j0 aad aad_len ct' pt_len;
  Some (ct', tag).

(** [Some None] on a tag mismatch; [pt] is the output array. *)
Definition quic_gcm_open (a : quic_aes128) (nonce aad : list Z) (aad_len : Z) (ct : source) (ct_len : Z) (tag pt : list Z)
  : option (option (list Z)) :=
  let '(h, j0) := gcm_setup a nonce in
  want ← gcm_tag a h j0 aad aad_len (source_of ct pt) ct_len;
  if negb (quic_ct_diff16 want tag =? 0) then Some None
  else pt' ← ctr_xor a (ctr_inc (copy16 j0)) ct ct_len pt; Some (Some pt').

(** * What the code computes *)

(** GHASH over the octets of [l], the last block filled with zeros; [n] is at
    least the number of blocks. *)
Fixpoint ghash_list (n : nat) (h y l : list Z) : list Z :=
  match n, l with
  | S n', _ :: _ => ghash_list n' h (ghash_block h y (take 16 l ++ repeat 0 (16 - length (take 16 l)))) (drop 16 l)
  | _, _ => y
  end.

Definition gcm_j0 (nonce : list Z) : list Z := take 12 nonce ++ [0; 0; 0; 1].

Definition gcm_cipher (a : quic_aes128) (nonce m : list Z) : list Z := 
  ctr_crypt (quic_aes128_encrypt a) ctr_inc (ctr_inc (copy16 (gcm_j0 nonce))) m.

Definition gcm_mac (a : quic_aes128) (nonce aad ct : list Z) : list Z :=
  let h := quic_aes128_encrypt a (repeat 0 16) in
  let y1 := ghash_list (length aad) h (repeat 0 16) aad in
  let y2 := ghash_list (length ct) h y1 ct in
  xor16 (ghash_block h y2 (put_be64 (zlen aad * 8) ++ put_be64 (zlen ct * 8))) (quic_aes128_encrypt a (gcm_j0 nonce)).

(** ** Counter mode *)

Lemma aes_ctr_spec a ctr inp len out : 0 <= len <= zlen out -> len <= zlen (source_of inp out) -> zlen out < max_object ->
  ctr_xor a ctr inp len out =
  Some (splice out 0 (ctr_crypt (quic_aes128_encrypt a) ctr_inc ctr (take (Z.to_nat len) (source_of inp out)))).
Proof. apply ctr_xor_spec; [lia|apply encrypt_block]. Qed.

Lemma zlen_gcm_cipher a nonce m : zlen (gcm_cipher a nonce m) = zlen m.
Proof. apply (zlen_ctr_crypt 16); [lia|apply encrypt_block]. Qed.

(** ** GHASH *)

Lemma ghash_list_enough h n : forall m y l, (length l <= 16 * n)%nat -> (length l <= 16 * m)%nat ->
  ghash_list n h y l = ghash_list m h y l.
Proof.
  induction n as [|n IH]; intros [|m] y l Hn Hm; destruct l as [|x l]; try done; cbn [length] in *; try lia.
  cbn [ghash_list]. apply IH; rewrite length_drop; cbn [length]; lia.
Qed.

Lemma ghash_loop_spec fuel : forall h y p off len, 0 <= off <= len -> len <= zlen p -> len < max_object ->
  len - off <= 16 * Z.of_nat fuel ->
  ghash_loop fuel h y p off len = Some (ghash_list fuel h y (slice p off (len - off))).
Proof.
  induction fuel as [|fuel IH]; intros h y p off len Hoff Hl Ho Hf; cbn [ghash_loop].
  - by zdecide.
  - destruct (Z.ltb_spec off len) as [Hlt|Hge]; [|by replace (len - off) with 0 by lia].
    unfold load_block, block_n. unwrap. cbv zeta. set (n := if len - off <? 16 then len - off else 16).
    assert (Hn : 0 < n <= 16 /\ n <= len - off) by (subst n; zcase; lia). zdecide. cbn [mbind option_bind].
    assert (Hsl : zlen (slice p off n) = n) by (apply zlen_slice; lia).
    assert (Hw : zlen (slice p off (len - off)) = len - off) by (apply zlen_slice; lia).
    destruct (slice p off (len - off)) as [|b l] eqn:E; [unfold zlen in Hw; cbn in Hw; lia|]. rewrite <- E in *.
    assert (Htake : take 16 (slice p off (len - off)) = slice p off n).
    { unfold slice. rewrite take_take. f_equal. subst n. zcase; lia. }
    assert (Hstep : ghash_list (S fuel) h y (slice p off (len - off)) =
      ghash_list fuel h (ghash_block h y (slice p off n ++ repeat 0 (Z.to_nat (16 - n)))) (drop 16 (slice p off (len - off)))).
    { rewrite E. cbn [ghash_list]. rewrite <- E, Htake.
      replace (16 - length (slice p off n))%nat with (Z.to_nat (16 - n)) by (unfold zlen in Hsl; lia). reflexivity. }
    rewrite Hstep. subst n. destruct (Z.ltb_spec (len - off) 16).
    + assert (Hd : drop 16 (slice p off (len - off)) = []) by (apply drop_ge; unfold zlen in Hw; lia). rewrite Hd.
      destruct fuel; cbn [ghash_loop ghash_list]; by zdecide.
    + unwrap. rewrite IH by lia.
      replace (slice p (off + 16) (len - (off + 16))) with (drop 16 (slice p off (len - off))); [reflexivity|].
      unfold slice. rewrite skipn_firstn_comm, drop_drop. f_equal; [lia|]. f_equal. lia.
Qed.

Lemma ghash_bytes_spec h y p len : 0 <= len <= zlen p -> len < max_object ->
  ghash_bytes h y p len = Some (ghash_list (length (take (Z.to_nat len) p)) h y (take (Z.to_nat len) p)).
Proof.
  intros Hl Ho. unfold ghash_bytes. pose proof (Z.mul_succ_div_gt (len + 15) 16 ltac:(lia)).
  assert (Hf : len <= 16 * Z.of_nat (Z.to_nat ((len + 15) / 16))) by (rewrite Z2Nat.id by (apply Z.div_pos; lia); lia).
  rewrite ghash_loop_spec by lia. f_equal. rewrite Z.sub_0_r. change (slice p 0 len) with (take (Z.to_nat len) p).
  apply ghash_list_enough; [|lia]. rewrite length_take. unfold zlen in Hl. lia.
Qed.

Lemma gcm_tag_spec a nonce aad aad_len ct ct_len : 0 <= aad_len <= zlen aad -> 0 <= ct_len <= zlen ct ->
  aad_len < 2 ^ 60 -> ct_len < 2 ^ 60 ->
  gcm_tag a (quic_aes128_encrypt a (repeat 0 16)) (gcm_j0 nonce) aad aad_len ct ct_len =
  Some (gcm_mac a nonce (take (Z.to_nat aad_len) aad) (take (Z.to_nat ct_len) ct)).
Proof.
  change (2 ^ 60) with 1152921504606846976. intros Ha Hc Hao Hco. unfold gcm_tag.
  rewrite ghash_bytes_spec by (unfold max_object; lia). cbn [mbind option_bind].
  rewrite ghash_bytes_spec by (unfold max_object; lia). cbn [mbind option_bind]. unwrap.
  unfold gcm_mac. cbv zeta.
  replace (zlen (take (Z.to_nat aad_len) aad)) with aad_len by (unfold zlen in *; rewrite length_take; lia).
  by replace (zlen (take (Z.to_nat ct_len) ct)) with ct_len by (unfold zlen in *; rewrite length_take; lia).
Qed.

Lemma length_xor16 x y : length (xor16 x y) = 16%nat.
Proof. unfold xor16. by rewrite List.length_map, length_seq. Qed.

Lemma zlen_gcm_mac a nonce aad ct : zlen (gcm_mac a nonce aad ct) = 16.
Proof. unfold gcm_mac, zlen. by rewrite length_xor16. Qed.

(** ** Seal and open *)

Lemma gcm_seal_spec a nonce aad aad_len pt pt_len ct : 0 <= aad_len <= zlen aad -> aad_len < 2 ^ 60 ->
  0 <= pt_len <= zlen ct -> pt_len <= zlen (source_of pt ct) -> pt_len < 2 ^ 60 -> zlen ct < max_object ->
  let c := gcm_cipher a nonce (take (Z.to_nat pt_len) (source_of pt ct)) in
  quic_gcm_seal a nonce aad aad_len pt pt_len ct =
  Some (splice ct 0 c, gcm_mac a nonce (take (Z.to_nat aad_len) aad) c).
Proof.
  intros Ha Hao Hp Hs Hpo Ho c. unfold quic_gcm_seal, gcm_setup. fold (gcm_j0 nonce).
  rewrite aes_ctr_spec by lia. cbn [mbind option_bind]. fold (gcm_cipher a nonce (take (Z.to_nat pt_len) (source_of pt ct))).
  fold c. assert (Hc : zlen c = pt_len).
  { subst c. rewrite zlen_gcm_cipher. unfold zlen in *. rewrite length_take. lia. }
  rewrite gcm_tag_spec by (try done; try lia; rewrite zlen_splice by lia; lia). cbn [mbind option_bind].
  by rewrite (take_splice_n ct c pt_len Hc).
Qed.

Lemma gcm_open_spec a nonce aad aad_len ct ct_len tag pt : 0 <= aad_len <= zlen aad -> aad_len < 2 ^ 60 ->
  0 <= ct_len <= zlen pt -> ct_len <= zlen (source_of ct pt) -> ct_len < 2 ^ 60 -> zlen pt < max_object -> zlen tag = 16 ->
  let c := take (Z.to_nat ct_len) (source_of ct pt) in
  quic_gcm_open a nonce aad aad_len ct ct_len tag pt =
  Some (if bool_decide (tag = gcm_mac a nonce (take (Z.to_nat aad_len) aad) c)
        then Some (splice pt 0 (gcm_cipher a nonce c)) else None).
Proof.
  intros Ha Hao Hp Hs Hpo Ho Ht c. unfold quic_gcm_open, gcm_setup. fold (gcm_j0 nonce).
  rewrite gcm_tag_spec by (done || lia). cbn [mbind option_bind]. fold c.
  pose proof (zlen_gcm_mac a nonce (take (Z.to_nat aad_len) aad) c) as Hz. set (want := gcm_mac _ _ _ _) in *.
  rewrite (ct_diff16_eq want tag Hz Ht). case_bool_decide; cbn [negb]; [|done]. rewrite aes_ctr_spec by lia. done.
Qed.

(** Encrypting twice is the identity; lengths and octets are kept. *)
Lemma gcm_cipher_twice a nonce m : gcm_cipher a nonce (gcm_cipher a nonce m) = m.
Proof. apply (ctr_crypt_twice 16); [lia|apply encrypt_block]. Qed.

Lemma gcm_cipher_u8 a nonce m : Forall is_u8 m -> Forall is_u8 (gcm_cipher a nonce m).
Proof. apply ctr_crypt_u8, encrypt_u8. Qed.

(** NIST SP 800-38D, test cases 2 and 4 of the GCM specification. *)
Example gcm_case2 : quic_gcm_seal (quic_aes128_init (repeat 0 16)) (repeat 0 12) [] 0 (Apart (repeat 0 16)) 16 (repeat 0 16) =
  Some ([3; 136; 218; 206; 96; 182; 163; 146; 243; 40; 194; 185; 113; 178; 254; 120],
        [171; 110; 71; 212; 44; 236; 19; 189; 245; 58; 103; 178; 18; 87; 189; 223]).
Proof. by vm_compute. Qed.
