(* ===== verification/Ghash.v ===== *)
(** The multiplication of GHASH.

    [gf_mul] of [gcm.c] works on arrays of 16 octets with masks; here it is shown
    to be the block multiplication of NIST SP 800-38D (Algorithm 1), stated on
    128-bit integers, where bit 127 is the coefficient of 1. *)
From S2P Require Import Prelude.
From S2P Require Import Buffers.
From S2P Require Import Aes.
From S2P Require Import Gcm.

(** 11100001 || 0^120. *)
Definition gf128_R : Z := 0xe1 * 2 ^ 120.

Definition gf128_step (zv : Z * Z) (bit : bool) : Z * Z :=
  let '(z, v) := zv in
  (if bit then Z.lxor z v else z, if Z.testbit v 0 then Z.lxor (Z.shiftr v 1) gf128_R else Z.shiftr v 1).

(** The bits of [y] from the most significant down. *)
Definition gf128_mul (x y : Z) : Z :=
  fst (fold_left (fun zv i => gf128_step zv (Z.testbit y (127 - Z.of_nat i))) (seq 0 128) (0, x)).

(** ** Octets and bits *)

Lemma be_value_testbit l : Forall is_u8 l -> forall k, 0 <= k < 8 * zlen l ->
  Z.testbit (be_value l) k = Z.testbit (at_ l (zlen l - 1 - k / 8)) (k mod 8).
Proof.
  induction l as [|b l IH] using rev_ind; intros Hl k Hk; [unfold zlen in Hk; cbn in Hk; lia|].
  apply Forall_app in Hl as [Hl Hb]. apply Forall_inv in Hb. rewrite be_value_snoc.
  pose proof (be_value_bound l Hl). rewrite zlen_app in *. change (zlen [b]) with 1 in *. pose proof (zlen_nonneg l).
  rewrite <- shl8_or by (done || lia). rewrite Z.lor_spec, Z.shiftl_spec by lia.
  destruct (Z_lt_ge_dec k 8) as [Hlt|Hge].
  - rewrite Z.div_small, Z.mod_small by lia. rewrite (Z.testbit_neg_r _ (k - 8)) by lia. cbn [orb].
    unfold at_. rewrite app_nth2 by (unfold zlen; lia).
    replace (Z.to_nat (zlen l + 1 - 1 - 0) - length l)%nat with 0%nat by (unfold zlen; lia). done.
  - rewrite (IH Hl) by lia. replace (k / 8) with ((k - 8) / 8 + 1) by (rewrite <- Z.div_add by lia; f_equal; lia).
    replace (k mod 8) with ((k - 8) mod 8) by (rewrite <- (Z.mod_add (k - 8) 1) by lia; f_equal; lia).
    assert (Hbk : Z.testbit b k = false).
    { destruct (Z.eq_dec b 0) as [->|]; [apply Z.testbit_0_l|]. apply Z.bits_above_log2; [unfold is_u8 in Hb; lia|].
      apply Z.log2_lt_pow2; [unfold is_u8 in Hb; lia|]. apply Z.lt_le_trans with (2 ^ 8); [unfold is_u8 in Hb; lia|].
      apply Z.pow_le_mono_r; lia. }
    rewrite Hbk, orb_false_r. unfold at_. rewrite app_nth1.
    + f_equal. f_equal. lia.
    + assert (0 <= (k - 8) / 8 <= zlen l - 1). { split; [apply Z.div_pos; lia|]. assert ((k - 8) / 8 < zlen l) by (apply Z.div_lt_upper_bound; lia). lia. }
      unfold zlen in *. lia.
Qed.

Lemma be_value_high l k : Forall is_u8 l -> 8 * zlen l <= k -> Z.testbit (be_value l) k = false.
Proof.
  intros Hl Hk. pose proof (be_value_bound l Hl) as Hb. pose proof (zlen_nonneg l).
  destruct (Z.eq_dec (be_value l) 0) as [->|]; [apply Z.testbit_0_l|]. apply Z.bits_above_log2; [lia|].
  apply Z.log2_lt_pow2; [lia|]. apply Z.lt_le_trans with (256 ^ zlen l); [lia|].
  change 256 with (2 ^ 8). rewrite <- Z.pow_mul_r by lia. apply Z.pow_le_mono_r; lia.
Qed.

(** Two numbers below [2^128] given by blocks are equal when their octets agree
    bit by bit. *)
Lemma block_value_eq l v : Forall is_u8 l -> zlen l = 16 -> 0 <= v < 2 ^ 128 ->
  (forall i b, 0 <= i < 16 -> 0 <= b < 8 -> Z.testbit (at_ l i) b = Z.testbit v (8 * (15 - i) + b)) -> be_value l = v.
Proof.
  intros Hl Hz Hv H. apply Z.bits_inj'. intros k Hk. destruct (Z_lt_ge_dec k 128) as [Hlt|Hge].
  - rewrite be_value_testbit by (done || lia). rewrite Hz, H.
    + f_equal. pose proof (Z.div_mod k 8 ltac:(lia)). lia.
    + assert (0 <= k / 8 < 16). { split; [apply Z.div_pos; lia|apply Z.div_lt_upper_bound; lia]. } lia.
    + apply Z.mod_pos_bound. lia.
  - rewrite be_value_high by (done || lia). symmetry. destruct (Z.eq_dec v 0) as [->|]; [apply Z.testbit_0_l|].
    apply Z.bits_above_log2; [lia|]. apply Z.log2_lt_pow2; [lia|]. apply Z.lt_le_trans with (2 ^ 128); [lia|]. apply Z.pow_le_mono_r; lia.
Qed.

Lemma block_bound l : Forall is_u8 l -> zlen l = 16 -> 0 <= be_value l < 2 ^ 128.
Proof. intros Hl Hz. pose proof (be_value_bound l Hl) as H. rewrite Hz in H. exact H. Qed.

Lemma block_testbit l i b : Forall is_u8 l -> zlen l = 16 -> 0 <= i < 16 -> 0 <= b < 8 ->
  Z.testbit (be_value l) (8 * (15 - i) + b) = Z.testbit (at_ l i) b.
Proof.
  intros Hl Hz Hi Hb. rewrite be_value_testbit by (done || lia). rewrite Hz.
  replace ((8 * (15 - i) + b) / 8) with (15 - i) by (apply Z.div_unique with b; lia).
  replace ((8 * (15 - i) + b) mod 8) with b by (apply Z.mod_unique with (15 - i); lia). f_equal. f_equal. lia.
Qed.

(** Reading a block given index by index. *)
Lemma at_map_seq (f : nat -> Z) i : 0 <= i < 16 -> at_ (List.map f (seq 0 16)) i = f (Z.to_nat i).
Proof.
  intros Hi. unfold at_. rewrite (nth_indep _ 0 (f 0%nat)) by (rewrite List.length_map, length_seq; lia).
  rewrite map_nth, seq_nth by lia. done.
Qed.

Lemma zlen_map_seq (f : nat -> Z) : zlen (List.map f (seq 0 16)) = 16.
Proof. unfold zlen. by rewrite List.length_map, length_seq. Qed.

Lemma u128_lxor x y : 0 <= x < 2 ^ 128 -> 0 <= y < 2 ^ 128 -> 0 <= Z.lxor x y < 2 ^ 128.
Proof.
  intros Hx Hy. assert (0 <= Z.lxor x y) by (apply Z.lxor_nonneg; lia). split; [done|].
  destruct (Z.eq_dec (Z.lxor x y) 0) as [->|]; [lia|]. apply Z.log2_lt_pow2; [lia|].
  eapply Z.le_lt_trans; [apply Z.log2_lxor; lia|]. apply Z.max_lub_lt.
  - destruct (Z.eq_dec x 0) as [->|]; [cbn; lia|apply Z.log2_lt_pow2; lia].
  - destruct (Z.eq_dec y 0) as [->|]; [cbn; lia|apply Z.log2_lt_pow2; lia].
Qed.

(** ** One step *)

Definition block (l : list Z) : Prop := Forall is_u8 l /\ zlen l = 16.

Lemma u8_high x b : is_u8 x -> 8 <= b -> Z.testbit x b = false.
Proof.
  intros Hx Hb. unfold is_u8 in Hx. destruct (Z.eq_dec x 0) as [->|]; [apply Z.testbit_0_l|]. apply Z.bits_above_log2; [lia|].
  apply Z.log2_lt_pow2; [lia|]. apply Z.lt_le_trans with (2 ^ 8); [lia|]. apply Z.pow_le_mono_r; lia.
Qed.

Lemma u8_testbit x b : 0 <= b < 8 -> Z.testbit (u8 x) b = Z.testbit x b.
Proof. intros Hb. unfold u8. change 256 with (2 ^ 8). by rewrite Z.mod_pow2_bits_low by lia. Qed.

Lemma neg_bit x : u8 (- Z.land x 1) = if Z.testbit x 0 then 255 else 0.
Proof.
  change 1 with (Z.ones 1). rewrite Z.land_ones by lia. change (2 ^ 1) with 2. rewrite <- Z.bit0_mod.
  by destruct (Z.testbit x 0).
Qed.

Lemma xor_masked z v (bit : bool) : block z -> block v ->
  let z' := List.map (fun j => Z.lxor (at_ z (Z.of_nat j)) (Z.land (at_ v (Z.of_nat j)) (if bit then 255 else 0))) (seq 0 16) in
  block z' /\ be_value z' = (if bit then Z.lxor (be_value z) (be_value v) else be_value z).
Proof.
  intros [Hz Hz16] [Hv Hv16] z'.
  assert (Hb : block z').
  { split; [|apply zlen_map_seq]. apply map_seq_block. intros i. apply u8_lxor; [by apply at_u8|].
    destruct bit; [|rewrite Z.land_0_r; unfold is_u8; lia]. change 255 with (Z.ones 8). rewrite Z.land_ones by lia. apply u8_range. }
  split; [done|]. destruct Hb as [Hb Hb16]. apply block_value_eq; try done.
  - destruct bit; [apply u128_lxor|]; by apply block_bound.
  - intros i b Hi Hb8. subst z'. rewrite at_map_seq, Z2Nat.id, Z.lxor_spec, Z.land_spec by lia.
    destruct bit.
    + rewrite Z.lxor_spec, !block_testbit by done. f_equal. change 255 with (Z.ones 8).
      by rewrite Z.ones_spec_low, andb_true_r by lia.
    + by rewrite block_testbit, Z.testbit_0_l, andb_false_r, xorb_false_r by done.
Qed.

Lemma shr1_at v i b : block v -> 0 <= i < 16 -> 0 <= b < 8 ->
  Z.testbit (at_ (shr1 v) i) b = Z.testbit (Z.shiftr (be_value v) 1) (8 * (15 - i) + b).
Proof.
  intros [Hv Hv16] Hi Hb. unfold shr1. rewrite at_map_seq by done. rewrite Z.shiftr_spec by lia.
  assert (H7 : b < 7 \/ b = 7) by lia. destruct (Nat.eqb_spec (Z.to_nat i) 0) as [E|E].
  - replace i with 0 by lia. rewrite Z.shiftr_spec by lia. destruct H7 as [H7| ->].
    + replace (8 * (15 - 0) + b + 1) with (8 * (15 - 0) + (b + 1)) by lia. by rewrite block_testbit by (done || lia).
    + rewrite (be_value_high v) by (done || lia). apply u8_high; [by apply at_u8|lia].
  - rewrite u8_testbit, Z.lor_spec, Z.shiftr_spec, Z.shiftl_spec, Z2Nat.id by lia. destruct H7 as [H7| ->].
    + rewrite (Z.testbit_neg_r _ (b - 7)), orb_false_r by lia.
      replace (8 * (15 - i) + b + 1) with (8 * (15 - i) + (b + 1)) by lia. by rewrite block_testbit by (done || lia).
    + rewrite (u8_high (at_ v i)) by (try apply at_u8; done || lia).
      replace (8 * (15 - i) + 7 + 1) with (8 * (15 - (i - 1)) + 0) by lia. rewrite block_testbit by (done || lia). done.
Qed.

Lemma shr1_block v : block v -> block (shr1 v).
Proof.
  intros [Hv Hv16]. split; [|apply zlen_map_seq]. apply map_seq_block. intros i. destruct (_ =? 0)%nat; [|apply u8_range].
  pose proof (at_u8 v 0 Hv) as H. unfold is_u8 in *. rewrite Z.shiftr_div_pow2 by lia. change (2 ^ 1) with 2.
  split; [apply Z.div_pos; lia|apply Z.div_lt_upper_bound; lia].
Qed.

Lemma R_bits i b : 0 <= i < 16 -> 0 <= b < 8 -> Z.testbit gf128_R (8 * (15 - i) + b) = (i =? 0) && Z.testbit 0xe1 b.
Proof.
  intros Hi Hb. unfold gf128_R. rewrite <- Z.shiftl_mul_pow2, Z.shiftl_spec by lia.
  destruct (Z.eqb_spec i 0) as [->|]; cbn [andb]; [f_equal; lia|]. apply Z.testbit_neg_r. lia.
Qed.

Lemma reduced v : block v ->
  let w := shr1 v in
  let v' := <[0%nat := Z.lxor (at_ w 0) (Z.land 0xe1 (u8 (- Z.land (at_ v 15) 1)))]> w in
  block v' /\ be_value v' = if Z.testbit (be_value v) 0 then Z.lxor (Z.shiftr (be_value v) 1) gf128_R else Z.shiftr (be_value v) 1.
Proof.
  intros Hv w v'. pose proof (shr1_block v Hv) as Hw. fold w in Hw. destruct (Hv) as [Hv8 Hv16]. destruct Hw as [Hw Hw16].
  assert (Hbit : Z.testbit (be_value v) 0 = Z.testbit (at_ v 15) 0).
  { pose proof (block_testbit v 15 0 Hv8 Hv16 ltac:(lia) ltac:(lia)) as H. exact H. }
  subst v'. rewrite neg_bit, <- Hbit. set (t := Z.testbit (be_value v) 0).
  set (x := Z.lxor (at_ w 0) (Z.land 225 (if t then 255 else 0))).
  assert (Hx : is_u8 x) by (apply u8_lxor; [by apply at_u8|destruct t; closed_arith]).
  assert (Hblk : block (<[0%nat:=x]> w)).
  { split; [|by rewrite zlen_insert]. by apply Forall_insert. }
  split; [done|]. destruct Hblk as [Hb8 Hb16].
  assert (Hsh : 0 <= Z.shiftr (be_value v) 1 < 2 ^ 128).
  { pose proof (block_bound v Hv8 Hv16). rewrite Z.shiftr_div_pow2 by lia. change (2 ^ 1) with 2.
    split; [apply Z.div_pos; lia|apply Z.div_lt_upper_bound; lia]. }
  apply block_value_eq; try done.
  - destruct t; [apply u128_lxor; [done|]|done]. unfold gf128_R. lia.
  - intros i b Hi Hb. assert (Hat : at_ (<[0%nat:=x]> w) i = if i =? 0 then x else at_ w i).
    { unfold at_. destruct (Z.eqb_spec i 0) as [->|Hne].
      - destruct w; [cbn in Hw16; unfold zlen in Hw16; cbn in Hw16; lia|done].
      - destruct w as [|w0 w']; [done|]. replace (Z.to_nat i) with (S (Z.to_nat (i - 1))) by lia. done. }
    rewrite Hat. pose proof (shr1_at v i b Hv Hi Hb) as Hs. fold w in Hs.
    destruct (Z.eqb_spec i 0) as [->|Hne].
    + subst x. rewrite Z.lxor_spec, Hs. destruct t.
      * rewrite Z.lxor_spec, R_bits by lia. done.
      * by rewrite Z.land_0_r, Z.testbit_0_l, xorb_false_r.
    + rewrite Hs. destruct t; [|done]. rewrite Z.lxor_spec, R_bits by lia. zdecide. cbn [andb]. by rewrite xorb_false_r.
Qed.

Lemma gf_step_exact z v (bit : bool) : block z -> block v ->
  let zv := gf_step (z, v) (if bit then 255 else 0) in
  block (fst zv) /\ block (snd zv) /\ (be_value (fst zv), be_value (snd zv)) = gf128_step (be_value z, be_value v) bit.
Proof.
  intros Hz Hv. cbn [gf_step fst snd]. destruct (xor_masked z v bit Hz Hv) as [B1 E1]. destruct (reduced v Hv) as [B2 E2].
  cbv zeta in *. unfold gf128_step. rewrite <- E1, <- E2. done.
Qed.

Lemma gf_bit_exact y i : block y -> (i < 128)%nat ->
  gf_bit y i = if Z.testbit (be_value y) (127 - Z.of_nat i) then 255 else 0.
Proof.
  intros [Hy Hy16] Hi. unfold gf_bit. rewrite neg_bit, Z.shiftr_spec by lia.
  pose proof (Z.mod_pos_bound (Z.of_nat i) 8 ltac:(lia)). pose proof (Z.div_mod (Z.of_nat i) 8 ltac:(lia)).
  assert (0 <= Z.of_nat i / 8 < 16) by (split; [apply Z.div_pos; lia|apply Z.div_lt_upper_bound; lia]).
  replace (127 - Z.of_nat i) with (8 * (15 - Z.of_nat i / 8) + (7 - Z.of_nat i mod 8)) by lia.
  rewrite block_testbit by (done || lia). by rewrite Z.add_0_l.
Qed.

(** C23: GHASH multiplication: on any two 16-octet blocks the masked, octet-wise
    [gf_mul] of gcm.c returns the block of the product that Algorithm 1 of NIST SP
    800-38D defines on 128-bit integers. *)
Theorem gf_mul_exact x y : Forall is_u8 x -> zlen x = 16 -> Forall is_u8 y -> zlen y = 16 ->
  Forall is_u8 (gf_mul x y) /\ zlen (gf_mul x y) = 16 /\ be_value (gf_mul x y) = gf128_mul (be_value x) (be_value y).
Proof.
  intros Hx Hx16 Hy Hy16. unfold gf_mul, gf128_mul.
  assert (Hc : copy16 x = x).
  { apply list_eq_load; [unfold copy16; rewrite zlen_map_seq; lia|]. intros i Hi. unfold copy16 in *. rewrite zlen_map_seq in Hi.
    destruct (load_is_Some x i) as [b Hb]; [lia|]. rewrite Hb. destruct (load_is_Some (List.map (fun i => at_ x (Z.of_nat i)) (seq 0 16)) i) as [c Hc]; [rewrite zlen_map_seq; lia|].
    rewrite Hc. f_equal. unfold load in Hb, Hc. revert Hb Hc. zdecide. intros Hb Hc. apply (nth_lookup_Some _ _ 0) in Hb, Hc.
    fold (at_ x i) in Hb. fold (at_ (List.map (fun i => at_ x (Z.of_nat i)) (seq 0 16)) i) in Hc.
    rewrite at_map_seq, Z2Nat.id in Hc by lia. congruence. }
  rewrite Hc. clear Hc.
  assert (Hinv : forall l, (forall i, In i l -> (i < 128)%nat) -> forall z v, block z -> block v ->
    let r := fold_left (fun zv bit => gf_step zv (gf_bit y bit)) l (z, v) in
    block (fst r) /\ block (snd r) /\ (be_value (fst r), be_value (snd r)) =
      fold_left (fun zv i => gf128_step zv (Z.testbit (be_value y) (127 - Z.of_nat i))) l (be_value z, be_value v)).
  { induction l as [|i l IH]; intros Hin z v Hz Hv; [done|]. cbn [fold_left].
    rewrite (gf_bit_exact y i) by (done || apply Hin; by left).
    set (bit := Z.testbit (be_value y) (127 - Z.of_nat i)). destruct (gf_step_exact z v bit Hz Hv) as (B1 & B2 & E).
    destruct (gf_step (z, v) (if bit then 255 else 0)) as [z1 v1]. cbn [fst snd] in *. rewrite <- E. apply IH; try done.
    intros j Hj. apply Hin. by right. }
  destruct (Hinv (seq 0 128) ltac:(intros i Hi%in_seq; lia) (repeat 0 16) x) as ([B1 B2] & _ & E).
  - split; [|done]. apply List.Forall_forall. intros b ->%repeat_spec. unfold is_u8. lia.
  - done.
  - assert (H0 : be_value (repeat 0 16) = 0) by reflexivity. rewrite H0 in E. revert B1 B2 E.
    generalize (fold_left (fun zv bit => gf_step zv (gf_bit y bit)) (seq 0 128) (repeat 0 16, x)).
    generalize (fold_left (fun zv i => gf128_step zv (Z.testbit (be_value y) (127 - Z.of_nat i))) (seq 0 128) (0, be_value x)).
    intros q r B1 B2 E. split; [done|]. split; [done|]. by rewrite <- E.
Qed.

(** Witness of C23: squaring a block. *)
Lemma gf_mul_exact_witness :
  let x := [102; 233; 75; 212; 239; 138; 44; 59; 136; 76; 250; 89; 202; 52; 43; 46] in
  Forall is_u8 (gf_mul x x) /\ zlen (gf_mul x x) = 16 /\ be_value (gf_mul x x) = gf128_mul (be_value x) (be_value x).
Proof.
  intros x. apply (gf_mul_exact x x); try done; unfold x; repeat apply List.Forall_cons; try apply List.Forall_nil; by unfold is_u8.
Defined.
