(* ===== verification/Poly1305.v ===== *)
(** Poly1305.

    [crypto/symmetric/aead/chacha/poly1305.c]: the accumulator is kept in five
    26-bit limbs, all arithmetic is on [u32] and [u64].  The reference is RFC 8439
    section 2.5, on integers modulo 2^130 - 5. *)
From S2P Require Import Prelude.
From S2P Require Import Buffers.
From S2P Require Import Aes.

Definition QUIC_POLY1305_KEY : Z := 32.
Definition QUIC_POLY1305_TAG : Z := 16.

Record poly := Poly { po_r : list Z; po_h : list Z; po_pad : list Z }.

Definition rd32le (p : list Z) (o : Z) : Z :=
  Z.lor (Z.lor (Z.lor (at_ p o) (Z.shiftl (at_ p (o + 1)) 8)) (Z.shiftl (at_ p (o + 2)) 16)) (Z.shiftl (at_ p (o + 3)) 24).

Definition poly_init (key : list Z) : poly :=
  let t0 := rd32le key 0 in let t1 := rd32le key 4 in let t2 := rd32le key 8 in let t3 := rd32le key 12 in
  Poly [Z.land t0 0x3ffffff;
        Z.land (Z.lor (Z.shiftr t0 26) (u32 (Z.shiftl t1 6))) 0x3ffff03;
        Z.land (Z.lor (Z.shiftr t1 20) (u32 (Z.shiftl t2 12))) 0x3ffc0ff;
        Z.land (Z.lor (Z.shiftr t2 14) (u32 (Z.shiftl t3 18))) 0x3f03fff;
        Z.land (Z.shiftr t3 8) 0x00fffff]
       [0; 0; 0; 0; 0]
       [rd32le key 16; rd32le key 20; rd32le key 24; rd32le key 28].

Definition poly_add (st : poly) (m : list Z) (hibit : Z) : poly :=
  let t0 := rd32le m 0 in let t1 := rd32le m 4 in let t2 := rd32le m 8 in let t3 := rd32le m 12 in
  let h := po_h st in
  Poly (po_r st)
       [u32 (at_ h 0 + Z.land t0 0x3ffffff);
        u32 (at_ h 1 + Z.land (Z.lor (Z.shiftr t0 26) (u32 (Z.shiftl t1 6))) 0x3ffffff);
        u32 (at_ h 2 + Z.land (Z.lor (Z.shiftr t1 20) (u32 (Z.shiftl t2 12))) 0x3ffffff);
        u32 (at_ h 3 + Z.land (Z.lor (Z.shiftr t2 14) (u32 (Z.shiftl t3 18))) 0x3ffffff);
        u32 (at_ h 4 + Z.lor (Z.shiftr t3 8) hibit)]
       (po_pad st).

(** [d[i] += c; h[i] = (u32)d[i] & 0x3ffffff; c = d[i] >> 26]. *)
Fixpoint carry_loop (d : list Z) (c : Z) : list Z * Z :=
  match d with
  | [] => ([], c)
  | x :: d' => let x' := x +w c in
               let '(hs, c') := carry_loop d' (Z.shiftr x' 26) in (Z.land (u32 x') 0x3ffffff :: hs, c')
  end.

Definition carry_reduce (st : poly) (d : list Z) : poly :=
  let '(h, c) := carry_loop d 0 in
  let h0 := u32 (at_ h 0 + u32 (u32 c * 5)) in
  let h1 := u32 (at_ h 1 + Z.shiftr h0 26) in
  Poly (po_r st) [Z.land h0 0x3ffffff; h1; at_ h 2; at_ h 3; at_ h 4] (po_pad st).

Definition poly_mulmod (st : poly) : poly :=
  let r0 := at_ (po_r st) 0 in let r1 := at_ (po_r st) 1 in let r2 := at_ (po_r st) 2 in
  let r3 := at_ (po_r st) 3 in let r4 := at_ (po_r st) 4 in
  let s1 := u32 (r1 * 5) in let s2 := u32 (r2 * 5) in let s3 := u32 (r3 * 5) in let s4 := u32 (r4 * 5) in
  let h0 := at_ (po_h st) 0 in let h1 := at_ (po_h st) 1 in let h2 := at_ (po_h st) 2 in
  let h3 := at_ (po_h st) 3 in let h4 := at_ (po_h st) 4 in
  carry_reduce st
    [h0 *w r0 +w h1 *w s4 +w h2 *w s3 +w h3 *w s2 +w h4 *w s1;
     h0 *w r1 +w h1 *w r0 +w h2 *w s4 +w h3 *w s3 +w h4 *w s2;
     h0 *w r2 +w h1 *w r1 +w h2 *w r0 +w h3 *w s4 +w h4 *w s3;
     h0 *w r3 +w h1 *w r2 +w h2 *w r1 +w h3 *w r0 +w h4 *w s4;
     h0 *w r4 +w h1 *w r3 +w h2 *w r2 +w h3 *w r1 +w h4 *w r0].

Definition pad_byte (m : list Z) (i n : Z) : Z := if i <? n then at_ m i else if i =? n then 1 else 0.

Definition poly_final_block (st : poly) (m : list Z) (n : Z) : poly :=
  poly_mulmod (poly_add st (List.map (fun i => pad_byte m (Z.of_nat i) n) (seq 0 16)) 0).

(** [while (len - off >= 16)], then the rest; [None] outside [msg]. *)
Fixpoint poly_blocks_loop (fuel : nat) (st : poly) (msg : list Z) (len off : Z) : option poly :=
  if 16 <=? len -w off
  then match fuel with
       | O => None
       | S f => if off + 16 <=? zlen msg
                then poly_blocks_loop f (poly_mulmod (poly_add st (slice msg off 16) (2 ^ 24))) msg len (off +w 16)
                else None
       end
  else if off <? len
  then if len <=? zlen msg then Some (poly_final_block st (slice msg off (len -w off)) (len -w off)) else None
  else Some st.

Definition poly_blocks (st : poly) (msg : list Z) (len : Z) : option poly :=
  poly_blocks_loop (Z.to_nat (len / 16)) st msg len 0.

Definition full_carry (h : list Z) : list Z :=
  let h1 := u32 (at_ h 1 + Z.shiftr (at_ h 0) 26) in let h0 := Z.land (at_ h 0) 0x3ffffff in
  let h2 := u32 (at_ h 2 + Z.shiftr h1 26) in let h1 := Z.land h1 0x3ffffff in
  let h3 := u32 (at_ h 3 + Z.shiftr h2 26) in let h2 := Z.land h2 0x3ffffff in
  let h4 := u32 (at_ h 4 + Z.shiftr h3 26) in let h3 := Z.land h3 0x3ffffff in
  let h0 := u32 (h0 + u32 (Z.shiftr h4 26 * 5)) in
  let h1 := u32 (h1 + Z.shiftr h0 26) in
  [Z.land h0 0x3ffffff; h1; h2; h3; Z.land h4 0x3ffffff].

(** The carry is masked off in every limb, the last one included. *)
Fixpoint plus_loop (h : list Z) (c : Z) : list Z :=
  match h with
  | [] => []
  | x :: h' => let g := u32 (x + c) in Z.land g 0x3ffffff :: plus_loop h' (Z.shiftr g 26)
  end.
Definition plus_five (h : list Z) : list Z :=
  let g := plus_loop h 5 in <[4%nat := u32 (at_ g 4 - 2 ^ 26)]> g.

Definition select_mod (h g : list Z) : list Z :=
  let mask := u32 (Z.shiftr (at_ g 4) 31 - 1) in
  List.map (fun i => Z.lor (Z.land (at_ h (Z.of_nat i)) (u32 (Z.lnot mask))) (Z.land (at_ g (Z.of_nat i)) mask)) (seq 0 5).

Definition pack (h : list Z) : list Z :=
  [Z.lor (at_ h 0) (u32 (Z.shiftl (at_ h 1) 26));
   Z.lor (Z.shiftr (at_ h 1) 6) (u32 (Z.shiftl (at_ h 2) 20));
   Z.lor (Z.shiftr (at_ h 2) 12) (u32 (Z.shiftl (at_ h 3) 14));
   Z.lor (Z.shiftr (at_ h 3) 18) (u32 (Z.shiftl (at_ h 4) 8))].

(** [f += w[i] + pad[i]; four octets of f; f >>= 32]. *)
Fixpoint tag_loop (w pad : list Z) (f : Z) : list Z :=
  match w, pad with
  | x :: w', y :: pad' => let f' := f +w (x +w y) in
      [u8 f'; u8 (Z.shiftr f' 8); u8 (Z.shiftr f' 16); u8 (Z.shiftr f' 24)] ++ tag_loop w' pad' (Z.shiftr f' 32)
  | _, _ => []
  end.

Definition poly_finish (st : poly) : list Z :=
  let h := full_carry (po_h st) in
  tag_loop (pack (select_mod h (plus_five h))) (po_pad st) 0.

Definition quic_poly1305 (key msg : list Z) (len : Z) : option (list Z) :=
  st ← poly_blocks (poly_init key) msg len; Some (poly_finish st).

(** * RFC 8439 section 2.5 *)

Definition P1305 : Z := 2 ^ 130 - 5.

Fixpoint le_value (l : list Z) : Z := match l with [] => 0 | b :: l' => b + 256 * le_value l' end.
Fixpoint le_bytes (k : nat) (v : Z) : list Z := match k with O => [] | S k' => v mod 256 :: le_bytes k' (v / 256) end.

(** r with the bits of section 2.5.1 cleared. *)
Definition clamp (r : Z) : Z := Z.land r 0x0ffffffc0ffffffc0ffffffc0fffffff.

(** a = ((a + block) * r) for each block of at most 16 octets with a one added
    after its last octet; [n] is at least the number of blocks. *)
Fixpoint poly_acc (n : nat) (r a : Z) (m : list Z) : Z :=
  match n, m with
  | S n', _ :: _ => poly_acc n' r (((a + le_value (take 16 m ++ [1])) * r) mod P1305) (drop 16 m)
  | _, _ => a
  end.

Definition poly1305_residue (key m : list Z) : Z := poly_acc (length m) (clamp (le_value (take 16 key))) 0 m.

Definition poly1305_spec (key m : list Z) : list Z :=
  le_bytes 16 (poly1305_residue key m + le_value (drop 16 key)).

(** * Limbs *)

(** Read constant indices of an explicit list. *)
Ltac read_at :=
  unfold at_;
  repeat match goal with
  | |- context [nth (Z.to_nat ?k)] => let n := eval vm_compute in (Z.to_nat k) in change (Z.to_nat k) with n
  end; cbn [nth].

Definition limbs (h0 h1 h2 h3 h4 : Z) : Z := h0 + 2 ^ 26 * h1 + 2 ^ 52 * h2 + 2 ^ 78 * h3 + 2 ^ 104 * h4.

Lemma rd32le_value p o : Forall is_u8 p -> 0 <= o ->
  rd32le p o = at_ p o + 256 * at_ p (o + 1) + 65536 * at_ p (o + 2) + 16777216 * at_ p (o + 3) /\ 0 <= rd32le p o < 2 ^ 32.
Proof.
  intros Hp Ho. unfold rd32le. pose proof (at_u8 p o Hp) as H0. pose proof (at_u8 p (o + 1) Hp) as H1.
  pose proof (at_u8 p (o + 2) Hp) as H2. pose proof (at_u8 p (o + 3) Hp) as H3. unfold is_u8 in *.
  rewrite !Z.shiftl_mul_pow2 by lia. set (b0 := at_ p o) in *. set (b1 := at_ p (o + 1)) in *.
  set (b2 := at_ p (o + 2)) in *. set (b3 := at_ p (o + 3)) in *.
  rewrite (Z.lor_comm b0), (lor_low b1 b0 8) by lia.
  rewrite (Z.lor_comm (b1 * 2 ^ 8 + b0)), (lor_low b2 _ 16) by (change (2 ^ 8) with 256; change (2 ^ 16) with 65536; lia).
  rewrite (Z.lor_comm (b2 * 2 ^ 16 + _)), (lor_low b3 _ 24) by
    (change (2 ^ 8) with 256; change (2 ^ 16) with 65536; change (2 ^ 24) with 16777216; lia).
  change (2 ^ 8) with 256; change (2 ^ 16) with 65536; change (2 ^ 24) with 16777216; change (2 ^ 32) with 4294967296. lia.
Qed.

Lemma land_26 x : Z.land x 0x3ffffff = x mod 2 ^ 26.
Proof. change 0x3ffffff with (Z.ones 26). by rewrite Z.land_ones by lia. Qed.

(** Bits that straddle two words. *)
Lemma word_mix x y k : 0 <= k <= 32 -> 0 <= x < 2 ^ k ->
  Z.lor x (u32 (Z.shiftl y k)) = x + 2 ^ k * (y mod 2 ^ (32 - k)).
Proof.
  intros Hk Hx. rewrite Z.shiftl_mul_pow2 by lia. unfold u32.
  change 4294967296 with (2 ^ 32). replace 32 with ((32 - k) + k) at 1 by lia. rewrite Z.pow_add_r by lia.
  rewrite Zmult_mod_distr_r, Z.lor_comm, lor_low by lia. lia.
Qed.

Lemma limb_mix x y k : 0 <= k <= 26 -> 0 <= x < 2 ^ k ->
  Z.land (Z.lor x (u32 (Z.shiftl y k))) 0x3ffffff = x + 2 ^ k * (y mod 2 ^ (26 - k)).
Proof.
  intros Hk Hx. rewrite land_26, word_mix by lia.
  replace (2 ^ 26) with (2 ^ (26 - k) * 2 ^ k) by (rewrite <- Z.pow_add_r by lia; f_equal; lia).
  assert (Hp : 0 < 2 ^ k) by (apply Z.pow_pos_nonneg; lia). assert (Hq : 0 < 2 ^ (26 - k)) by (apply Z.pow_pos_nonneg; lia).
  rewrite (Z.mul_comm (2 ^ (26 - k))), Z.rem_mul_r by lia.
  rewrite (Z.mul_comm (2 ^ k) (y mod _)), Z.mod_add, Z.mod_small, Z.div_add, Z.div_small by lia. rewrite Z.add_0_l.
  rewrite Z.mod_mod_divide; [done|].
  exists (2 ^ 6). rewrite <- Z.pow_add_r by lia. f_equal. lia.
Qed.

(** The five limbs of four words. *)
Definition split_words (t0 t1 t2 t3 : Z) : Z * Z * Z * Z * Z :=
  (t0 mod 2 ^ 26, t0 / 2 ^ 26 + 2 ^ 6 * (t1 mod 2 ^ 20), t1 / 2 ^ 20 + 2 ^ 12 * (t2 mod 2 ^ 14),
   t2 / 2 ^ 14 + 2 ^ 18 * (t3 mod 2 ^ 8), t3 / 2 ^ 8).

Definition is_word (t : Z) : Prop := 0 <= t < 2 ^ 32.

Ltac div_facts t k :=
  pose proof (Z.div_mod t (2 ^ k) ltac:(done)); pose proof (Z.mod_pos_bound t (2 ^ k) ltac:(done)).

Lemma split_words_value t0 t1 t2 t3 : is_word t0 -> is_word t1 -> is_word t2 -> is_word t3 ->
  let '(l0, l1, l2, l3, l4) := split_words t0 t1 t2 t3 in
  limbs l0 l1 l2 l3 l4 = t0 + 2 ^ 32 * t1 + 2 ^ 64 * t2 + 2 ^ 96 * t3 /\
  0 <= l0 < 2 ^ 26 /\ 0 <= l1 < 2 ^ 26 /\ 0 <= l2 < 2 ^ 26 /\ 0 <= l3 < 2 ^ 26 /\ 0 <= l4 < 2 ^ 24.
Proof.
  unfold is_word, split_words, limbs. intros H0 H1 H2 H3.
  div_facts t0 26. div_facts t1 20. div_facts t2 14. div_facts t3 8.
  change (2 ^ 104) with (2 ^ 96 * 2 ^ 8) in *. change (2 ^ 78) with (2 ^ 64 * 2 ^ 14) in *.
  split_and!; lia.
Qed.

(** Limbs between two blocks: reduced except for a small excess in the second. *)
Definition carried (h : list Z) : Prop := exists h0 h1 h2 h3 h4, h = [h0; h1; h2; h3; h4] /\
  0 <= h0 < 2 ^ 26 /\ 0 <= h1 < 2 ^ 26 + 64 /\ 0 <= h2 < 2 ^ 26 /\ 0 <= h3 < 2 ^ 26 /\ 0 <= h4 < 2 ^ 26.

(** Limbs that may go into a product. *)
Definition loose (h : list Z) : Prop := exists h0 h1 h2 h3 h4, h = [h0; h1; h2; h3; h4] /\
  0 <= h0 < 2 ^ 27 /\ 0 <= h1 < 2 ^ 27 + 64 /\ 0 <= h2 < 2 ^ 27 /\ 0 <= h3 < 2 ^ 27 /\ 0 <= h4 < 2 ^ 27.

Definition tight (r : list Z) : Prop := exists r0 r1 r2 r3 r4, r = [r0; r1; r2; r3; r4] /\
  0 <= r0 < 2 ^ 26 /\ 0 <= r1 < 2 ^ 26 /\ 0 <= r2 < 2 ^ 26 /\ 0 <= r3 < 2 ^ 26 /\ 0 <= r4 < 2 ^ 26.

Definition val (h : list Z) : Z := limbs (at_ h 0) (at_ h 1) (at_ h 2) (at_ h 3) (at_ h 4).

Lemma u32_small z : 0 <= z < 2 ^ 32 -> u32 z = z.
Proof. intros Hz. unfold u32. apply Z.mod_small. exact Hz. Qed.

Lemma block_words m : Forall is_u8 m -> length m = 16%nat ->
  rd32le m 0 + 2 ^ 32 * rd32le m 4 + 2 ^ 64 * rd32le m 8 + 2 ^ 96 * rd32le m 12 = le_value m.
Proof.
  intros Hm Hl. destruct (rd32le_value m 0 Hm) as [-> _]; [lia|]. destruct (rd32le_value m 4 Hm) as [-> _]; [lia|].
  destruct (rd32le_value m 8 Hm) as [-> _]; [lia|]. destruct (rd32le_value m 12 Hm) as [-> _]; [lia|].
  do 16 (destruct m as [|? m]; [done|]). destruct m; [|done]. cbn [le_value]. read_at. lia.
Qed.

Lemma add_spec st m hibit : carried (po_h st) -> Forall is_u8 m -> length m = 16%nat -> hibit = 0 \/ hibit = 2 ^ 24 ->
  loose (po_h (poly_add st m hibit)) /\ val (po_h (poly_add st m hibit)) = val (po_h st) + le_value m + 2 ^ 104 * hibit /\
  po_r (poly_add st m hibit) = po_r st /\ po_pad (poly_add st m hibit) = po_pad st.
Proof.
  intros (h0 & h1 & h2 & h3 & h4 & Hh & B0 & B1 & B2 & B3 & B4) Hm Hl Hhi.
  rewrite <- (block_words m Hm Hl). unfold poly_add. rewrite Hh. cbn [po_h po_r po_pad].
  destruct (rd32le_value m 0 Hm ltac:(lia)) as [_ W0]. destruct (rd32le_value m 4 Hm ltac:(lia)) as [_ W1].
  destruct (rd32le_value m 8 Hm ltac:(lia)) as [_ W2]. destruct (rd32le_value m 12 Hm ltac:(lia)) as [_ W3].
  set (t0 := rd32le m 0) in *. set (t1 := rd32le m 4) in *. set (t2 := rd32le m 8) in *. set (t3 := rd32le m 12) in *.
  pose proof (split_words_value t0 t1 t2 t3 W0 W1 W2 W3) as Hs. unfold split_words in Hs.
  rewrite land_26, !Z.shiftr_div_pow2 by lia.
  div_facts t0 26. div_facts t1 20. div_facts t2 14. div_facts t3 8.
  rewrite (limb_mix (t0 / 2 ^ 26) t1 6) by lia.
  rewrite (limb_mix (t1 / 2 ^ 20) t2 12) by lia.
  rewrite (limb_mix (t2 / 2 ^ 14) t3 18) by lia.
  change (26 - 6) with 20. change (26 - 12) with 14. change (26 - 18) with 8.
  set (l0 := t0 mod 2 ^ 26) in *. set (l1 := t0 / 2 ^ 26 + _) in *. set (l2 := t1 / 2 ^ 20 + _) in *.
  set (l3 := t2 / 2 ^ 14 + _) in *. set (l4 := t3 / 2 ^ 8) in *.
  destruct Hs as (Hv & L0 & L1 & L2 & L3 & L4).
  assert (Hor : Z.lor l4 hibit = l4 + hibit).
  { destruct Hhi as [-> | ->]; [by rewrite Z.lor_0_r, Z.add_0_r|]. rewrite Z.lor_comm.
    replace (2 ^ 24) with (1 * 2 ^ 24) at 1 by lia. rewrite lor_low by lia. lia. }
  rewrite Hor. read_at.
  assert (Hhb : 0 <= hibit <= 2 ^ 24) by (destruct Hhi; lia).
  rewrite !u32_small by lia. split_and!; try done.
  - eexists _, _, _, _, _. split; [done|]. lia.
  - rewrite <- Hv. unfold val. read_at. unfold limbs. lia.
Qed.

(** * The product *)

Lemma u64_small z : 0 <= z < 2 ^ 64 -> u64 z = z.
Proof. intros Hz. unfold u64. apply Z.mod_small. exact Hz. Qed.

Lemma mul_bounds a b A B : 0 <= a <= A -> 0 <= b <= B -> 0 <= a * b <= A * B.
Proof. intros Ha Hb. split; [apply Z.mul_nonneg_nonneg; lia|apply Z.mul_le_mono_nonneg; lia]. Qed.

Lemma u32_mod_26 x : u32 x mod 2 ^ 26 = x mod 2 ^ 26.
Proof. unfold u32. rewrite Z.mod_mod_divide; [done|]. by exists (2 ^ 6). Qed.

(** One round of the carry chain. *)
Lemma carry_step x c d : 0 <= x -> 0 <= c -> x + c < 2 ^ 64 ->
  carry_loop (x :: d) c = (let '(hs, c') := carry_loop d ((x + c) / 2 ^ 26) in ((x + c) mod 2 ^ 26 :: hs, c')) /\
  0 <= (x + c) / 2 ^ 26 < 2 ^ 38 /\ 0 <= (x + c) mod 2 ^ 26 < 2 ^ 26 /\ x + c = 2 ^ 26 * ((x + c) / 2 ^ 26) + (x + c) mod 2 ^ 26.
Proof.
  intros Hx Hc Hxc. cbn [carry_loop]. rewrite u64_small by lia. rewrite Z.shiftr_div_pow2, land_26, u32_mod_26 by lia.
  split; [done|]. div_facts (x + c) 26. split_and!; lia.
Qed.

Lemma carry_reduce_spec st d0 d1 d2 d3 d4 :
  0 <= d0 < 2 ^ 63 -> 0 <= d1 < 2 ^ 63 -> 0 <= d2 < 2 ^ 63 -> 0 <= d3 < 2 ^ 63 -> 0 <= d4 <= 5 * (2 ^ 27 + 63) * 2 ^ 26 ->
  let h' := po_h (carry_reduce st [d0; d1; d2; d3; d4]) in
  carried h' /\ val h' mod P1305 = limbs d0 d1 d2 d3 d4 mod P1305.
Proof.
  intros B0 B1 B2 B3 B4. unfold carry_reduce.
  destruct (carry_step d0 0 [d1; d2; d3; d4]) as (-> & C1 & L0 & E0); try lia. set (c1 := (d0 + 0) / 2 ^ 26) in *.
  destruct (carry_step d1 c1 [d2; d3; d4]) as (-> & C2 & L1 & E1); try lia. set (c2 := (d1 + c1) / 2 ^ 26) in *.
  destruct (carry_step d2 c2 [d3; d4]) as (-> & C3 & L2 & E2); try lia. set (c3 := (d2 + c2) / 2 ^ 26) in *.
  destruct (carry_step d3 c3 [d4]) as (-> & C4 & L3 & E3); try lia. set (c4 := (d3 + c3) / 2 ^ 26) in *.
  destruct (carry_step d4 c4 []) as (-> & C5 & L4 & E4); try lia. set (c5 := (d4 + c4) / 2 ^ 26) in *.
  cbn [carry_loop]. generalize dependent ((d0 + 0) mod 2 ^ 26). generalize dependent ((d1 + c1) mod 2 ^ 26).
  generalize dependent ((d2 + c2) mod 2 ^ 26). generalize dependent ((d3 + c3) mod 2 ^ 26).
  generalize dependent ((d4 + c4) mod 2 ^ 26). intros l4 L4 E4 l3 L3 E3 l2 L2 E2 l1 L1 E1 l0 L0 E0.
  assert (Hc5 : c5 <= 5 * (2 ^ 27 + 63) + 2 ^ 12) by lia. cbn [po_h]. read_at.
  rewrite (u32_small c5), (u32_small (c5 * 5)), (u32_small (l0 + c5 * 5)) by lia.
  rewrite land_26, Z.shiftr_div_pow2 by lia. div_facts (l0 + c5 * 5) 26.
  rewrite u32_small by lia. split.
  - eexists _, _, _, _, _. split; [done|]. lia.
  - assert (Hv : val [(l0 + c5 * 5) mod 2 ^ 26; l1 + (l0 + c5 * 5) / 2 ^ 26; l2; l3; l4] =
      limbs d0 d1 d2 d3 d4 + (- c5) * P1305).
    { unfold val. read_at. unfold limbs, P1305. change (2 ^ 104) with (2 ^ 78 * 2 ^ 26). change (2 ^ 130) with (2 ^ 104 * 2 ^ 26).
      clearbody c1 c2 c3 c4 c5. lia. }
    rewrite Hv, Z.mod_add by done. done.
Qed.

(** The limbs of a product, and the multiple of 2^130 - 5 left out of it. *)
Lemma product_limbs h0 h1 h2 h3 h4 r0 r1 r2 r3 r4 :
  limbs h0 h1 h2 h3 h4 * limbs r0 r1 r2 r3 r4 =
  limbs (h0 * r0 + h1 * (r4 * 5) + h2 * (r3 * 5) + h3 * (r2 * 5) + h4 * (r1 * 5))
        (h0 * r1 + h1 * r0 + h2 * (r4 * 5) + h3 * (r3 * 5) + h4 * (r2 * 5))
        (h0 * r2 + h1 * r1 + h2 * r0 + h3 * (r4 * 5) + h4 * (r3 * 5))
        (h0 * r3 + h1 * r2 + h2 * r1 + h3 * r0 + h4 * (r4 * 5))
        (h0 * r4 + h1 * r3 + h2 * r2 + h3 * r1 + h4 * r0) +
  ((h1 * r4 + h2 * r3 + h3 * r2 + h4 * r1) + 2 ^ 26 * (h2 * r4 + h3 * r3 + h4 * r2) +
   2 ^ 52 * (h3 * r4 + h4 * r3) + 2 ^ 78 * (h4 * r4)) * P1305.
Proof. unfold limbs, P1305. ring. Qed.

(** A row of the product does not overflow 64 bits. *)
Lemma row_exact M a0 a1 a2 a3 a4 b0 b1 b2 b3 b4 : 0 <= M < 2 ^ 32 ->
  0 <= a0 < 2 ^ 27 -> 0 <= a1 < 2 ^ 27 + 64 -> 0 <= a2 < 2 ^ 27 -> 0 <= a3 < 2 ^ 27 -> 0 <= a4 < 2 ^ 27 ->
  0 <= b0 <= M -> 0 <= b1 <= M -> 0 <= b2 <= M -> 0 <= b3 <= M -> 0 <= b4 <= M ->
  a0 *w b0 +w a1 *w b1 +w a2 *w b2 +w a3 *w b3 +w a4 *w b4 = a0 * b0 + a1 * b1 + a2 * b2 + a3 * b3 + a4 * b4 /\
  0 <= a0 * b0 + a1 * b1 + a2 * b2 + a3 * b3 + a4 * b4 <= 5 * ((2 ^ 27 + 63) * M).
Proof.
  intros HM A0 A1 A2 A3 A4 B0 B1 B2 B3 B4.
  pose proof (mul_bounds a0 b0 (2 ^ 27 + 63) M ltac:(lia) B0). pose proof (mul_bounds a1 b1 (2 ^ 27 + 63) M ltac:(lia) B1).
  pose proof (mul_bounds a2 b2 (2 ^ 27 + 63) M ltac:(lia) B2). pose proof (mul_bounds a3 b3 (2 ^ 27 + 63) M ltac:(lia) B3).
  pose proof (mul_bounds a4 b4 (2 ^ 27 + 63) M ltac:(lia) B4).
  assert (0 <= (2 ^ 27 + 63) * M <= (2 ^ 27 + 63) * 2 ^ 32) by lia.
  split; [|lia]. rewrite !(u64_small (_ * _)) by lia. rewrite (u64_small (a0 * b0 + a1 * b1)) by lia.
  rewrite (u64_small (_ + a2 * b2)) by lia. rewrite (u64_small (_ + a3 * b3)) by lia. rewrite u64_small by lia. done.
Qed.

Lemma mulmod_spec st : loose (po_h st) -> tight (po_r st) ->
  (carried (po_h (poly_mulmod st)) /\ val (po_h (poly_mulmod st)) mod P1305 = (val (po_h st) * val (po_r st)) mod P1305) /\
  po_r (poly_mulmod st) = po_r st /\ po_pad (poly_mulmod st) = po_pad st.
Proof.
  intros (h0 & h1 & h2 & h3 & h4 & Hh & A0 & A1 & A2 & A3 & A4) (r0 & r1 & r2 & r3 & r4 & Hr & B0 & B1 & B2 & B3 & B4).
  split; [|unfold poly_mulmod, carry_reduce; by destruct (carry_loop _ _)].
  unfold poly_mulmod. rewrite Hh, Hr. unfold val at 2 3. read_at. rewrite !(u32_small (_ * 5)) by lia.
  rewrite product_limbs, Z.mod_add by done.
  destruct (row_exact (5 * 2 ^ 26) h0 h1 h2 h3 h4 r0 (r4 * 5) (r3 * 5) (r2 * 5) (r1 * 5)) as [-> D0]; try lia.
  destruct (row_exact (5 * 2 ^ 26) h0 h1 h2 h3 h4 r1 r0 (r4 * 5) (r3 * 5) (r2 * 5)) as [-> D1]; try lia.
  destruct (row_exact (5 * 2 ^ 26) h0 h1 h2 h3 h4 r2 r1 r0 (r4 * 5) (r3 * 5)) as [-> D2]; try lia.
  destruct (row_exact (5 * 2 ^ 26) h0 h1 h2 h3 h4 r3 r2 r1 r0 (r4 * 5)) as [-> D3]; try lia.
  destruct (row_exact (2 ^ 26) h0 h1 h2 h3 h4 r4 r3 r2 r1 r0) as [-> D4]; try lia.
  apply carry_reduce_spec; lia.
Qed.

(** * The key *)

Lemma cat_testbit a b k n : 0 <= k -> 0 <= a < 2 ^ k -> 0 <= n ->
  Z.testbit (a + 2 ^ k * b) n = if n <? k then Z.testbit a n else Z.testbit b (n - k).
Proof.
  intros Hk Ha Hn. rewrite Z.add_comm, (Z.mul_comm (2 ^ k)), <- lor_low by lia. rewrite Z.lor_spec, <- Z.shiftl_mul_pow2 by lia.
  destruct (Z.ltb_spec n k) as [Hlt|Hge].
  - by rewrite Z.shiftl_spec_low, orb_false_l by lia.
  - rewrite Z.shiftl_spec by lia. destruct (Z.eq_dec a 0) as [->|Hz]; [by rewrite Z.bits_0, orb_false_r|].
    rewrite (Z.bits_above_log2 a n), orb_false_r; [done|lia|]. apply Z.log2_lt_pow2; [lia|].
    apply Z.lt_le_trans with (2 ^ k); [lia|]. apply Z.pow_le_mono_r; lia.
Qed.

Lemma land_small x m k : 0 <= k -> 0 <= x < 2 ^ k -> 0 <= Z.land x m < 2 ^ k.
Proof.
  intros Hk Hx. rewrite <- (Z.mod_small x (2 ^ k)), <- Z.land_ones by lia.
  rewrite <- Z.land_assoc, (Z.land_comm _ m), Z.land_assoc, Z.land_ones by lia. apply Z.mod_pos_bound. lia.
Qed.

Lemma land_split a b c d k : 0 <= k -> 0 <= a < 2 ^ k -> 0 <= c < 2 ^ k ->
  Z.land (a + 2 ^ k * b) (c + 2 ^ k * d) = Z.land a c + 2 ^ k * Z.land b d.
Proof.
  intros Hk Ha Hc. apply Z.bits_inj'. intros n Hn.
  pose proof (land_small a c k Hk Ha) as Hac.
  rewrite Z.land_spec, !cat_testbit, !Z.land_spec by done. by destruct (n <? k).
Qed.

Lemma limbs_nest a b c d e : limbs a b c d e = a + 2 ^ 26 * (b + 2 ^ 26 * (c + 2 ^ 26 * (d + 2 ^ 26 * e))).
Proof. unfold limbs. ring. Qed.

Lemma land_limbs a b c d e a' b' c' d' e' :
  0 <= a < 2 ^ 26 -> 0 <= b < 2 ^ 26 -> 0 <= c < 2 ^ 26 -> 0 <= d < 2 ^ 26 ->
  0 <= a' < 2 ^ 26 -> 0 <= b' < 2 ^ 26 -> 0 <= c' < 2 ^ 26 -> 0 <= d' < 2 ^ 26 ->
  Z.land (limbs a b c d e) (limbs a' b' c' d' e') =
  limbs (Z.land a a') (Z.land b b') (Z.land c c') (Z.land d d') (Z.land e e').
Proof. intros. rewrite !limbs_nest, !land_split; auto; lia. Qed.

Lemma clamp_mask : 0x0ffffffc0ffffffc0ffffffc0fffffff = limbs 0x3ffffff 0x3ffff03 0x3ffc0ff 0x3f03fff 0x00fffff.
Proof. reflexivity. Qed.

(** A narrower mask goes through the mask of a whole limb. *)
Lemma mask_limb x m : Z.land 0x3ffffff m = m -> Z.land x m = Z.land (Z.land x 0x3ffffff) m.
Proof. intros Hm. by rewrite <- Z.land_assoc, Hm. Qed.

Lemma at_take l i k : 0 <= i < k -> at_ (take (Z.to_nat k) l) i = at_ l i.
Proof.
  intros Hi. unfold at_. rewrite !nth_lookup. f_equal. apply lookup_take_lt. lia.
Qed.

Lemma rd32le_take p o k : 0 <= o -> o + 4 <= k -> rd32le p o = rd32le (take (Z.to_nat k) p) o.
Proof. intros Ho Hk. unfold rd32le. by rewrite !at_take by lia. Qed.

Lemma init_spec key : Forall is_u8 key -> zlen key = 32 ->
  tight (po_r (poly_init key)) /\ val (po_r (poly_init key)) = clamp (le_value (take 16 key)).
Proof.
  intros Hk Hl. assert (Ht : Forall is_u8 (take 16 key)) by by apply Forall_take.
  assert (Hl16 : length (take 16 key) = 16%nat) by (rewrite length_take; unfold zlen in Hl; lia).
  rewrite <- (block_words _ Ht Hl16). unfold poly_init. cbn [po_r].
  rewrite (rd32le_take key 0 16), (rd32le_take key 4 16), (rd32le_take key 8 16), (rd32le_take key 12 16) by lia.
  change (Z.to_nat 16) with 16%nat.
  destruct (rd32le_value _ 0 Ht ltac:(lia)) as [_ W0]. destruct (rd32le_value _ 4 Ht ltac:(lia)) as [_ W1].
  destruct (rd32le_value _ 8 Ht ltac:(lia)) as [_ W2]. destruct (rd32le_value _ 12 Ht ltac:(lia)) as [_ W3].
  generalize dependent (rd32le (take 16 key) 0). generalize dependent (rd32le (take 16 key) 4).
  generalize dependent (rd32le (take 16 key) 8). generalize dependent (rd32le (take 16 key) 12). intros t3 W3 t2 W2 t1 W1 t0 W0.
  pose proof (split_words_value t0 t1 t2 t3 W0 W1 W2 W3) as Hs. unfold split_words in Hs.
  rewrite !Z.shiftr_div_pow2 by lia. div_facts t0 26. div_facts t1 20. div_facts t2 14. div_facts t3 8.
  rewrite (mask_limb (Z.lor (t0 / 2 ^ 26) _)), (mask_limb (Z.lor (t1 / 2 ^ 20) _)), (mask_limb (Z.lor (t2 / 2 ^ 14) _)) by done.
  rewrite (limb_mix (t0 / 2 ^ 26) t1 6), (limb_mix (t1 / 2 ^ 20) t2 12), (limb_mix (t2 / 2 ^ 14) t3 18) by lia.
  change (26 - 6) with 20. change (26 - 12) with 14. change (26 - 18) with 8.
  replace (Z.land t0 0x3ffffff) with (Z.land (t0 mod 2 ^ 26) 0x3ffffff) by (by rewrite !land_26, Z.mod_mod).
  destruct Hs as (Hv & L0 & L1 & L2 & L3 & L4). split.
  - eexists _, _, _, _, _. split; [done|]. refine (conj _ (conj _ (conj _ (conj _ _)))); apply land_small; lia.
  - rewrite <- Hv. unfold clamp, val. read_at. rewrite clamp_mask, land_limbs by lia. done.
Qed.

(** * Blocks *)

Lemma le_value_app a b : le_value (a ++ b) = le_value a + 256 ^ zlen a * le_value b.
Proof.
  induction a as [|x a IH]; cbn [app le_value]; [change (zlen (@nil Z)) with 0; lia|].
  rewrite IH, zlen_cons, Z.pow_add_r by (try apply zlen_nonneg; lia). ring.
Qed.

Lemma le_value_zeros k : le_value (repeat 0 k) = 0.
Proof. induction k as [|k IH]; cbn [repeat le_value]; lia. Qed.

Lemma block_step st m hibit : carried (po_h st) -> tight (po_r st) -> Forall is_u8 m -> length m = 16%nat ->
  hibit = 0 \/ hibit = 2 ^ 24 ->
  let st' := poly_mulmod (poly_add st m hibit) in
  (carried (po_h st') /\
   val (po_h st') mod P1305 = ((val (po_h st) mod P1305 + (le_value m + 2 ^ 104 * hibit)) * val (po_r st)) mod P1305) /\
  po_r st' = po_r st /\ po_pad st' = po_pad st.
Proof.
  intros Hc Ht Hm Hl Hhi. destruct (add_spec st m hibit Hc Hm Hl Hhi) as (Hlo & Hv & Hr & Hp).
  destruct (mulmod_spec (poly_add st m hibit) Hlo) as ((Hc' & Hv') & Hr' & Hp'); [by rewrite Hr|].
  cbv zeta. rewrite Hr', Hp', Hr, Hp, Hv', Hv, Hr. split_and!; try done.
  rewrite <- Z.mul_mod_idemp_l, (Z.add_assoc (_ mod _)), <- (Z.mul_mod_idemp_l (_ mod _ + _ + _)) by done.
  rewrite <- !Z.add_assoc, Z.add_mod_idemp_l by done. done.
Qed.

Lemma pad_block m n : n = zlen m -> n < 16 ->
  List.map (fun i => pad_byte m (Z.of_nat i) n) (seq 0 16) = m ++ [1] ++ repeat 0 (15 - length m).
Proof.
  intros -> Hn. unfold zlen in *.
  do 16 (destruct m as [|? m]; [reflexivity|]). cbn [length] in Hn. lia.
Qed.

Lemma final_step st m : carried (po_h st) -> tight (po_r st) -> Forall is_u8 m -> zlen m < 16 ->
  let st' := poly_final_block st m (zlen m) in
  (carried (po_h st') /\ val (po_h st') mod P1305 = ((val (po_h st) mod P1305 + le_value (m ++ [1])) * val (po_r st)) mod P1305) /\
  po_r st' = po_r st /\ po_pad st' = po_pad st.
Proof.
  intros Hc Ht Hm Hl. unfold poly_final_block. rewrite pad_block by done.
  replace (le_value (m ++ [1])) with (le_value (m ++ [1] ++ repeat 0 (15 - length m)) + 2 ^ 104 * 0).
  2:{ rewrite !le_value_app, le_value_zeros. lia. }
  apply block_step; try done; [| |by left].
  - apply Forall_app. split; [done|]. apply Forall_app. split; [repeat constructor; unfold is_u8; lia|].
    apply List.Forall_forall. intros x Hx. apply repeat_spec in Hx. subst x. unfold is_u8. lia.
  - rewrite !length_app, repeat_length. unfold zlen in Hl. cbn [length]. lia.
Qed.

Lemma poly_acc_cons n r a m : m <> [] -> poly_acc (S n) r a m =
  poly_acc n r (((a + le_value (take 16 m ++ [1])) * r) mod P1305) (drop 16 m).
Proof. by destruct m. Qed.

Lemma poly_acc_nil n r a : poly_acc n r a [] = a.
Proof. by destruct n. Qed.

(** What is left after the whole blocks. *)
Lemma tail_spec st msg len off n : Forall is_u8 msg -> 0 <= off <= len -> len <= zlen msg -> len - off < 16 ->
  len - off <= Z.of_nat n -> carried (po_h st) -> tight (po_r st) ->
  exists st', (if off <? len
    then if len <=? zlen msg then Some (poly_final_block st (slice msg off (len - off)) (len - off)) else None
    else Some st) = Some st' /\ carried (po_h st') /\ po_pad st' = po_pad st /\
    val (po_h st') mod P1305 = poly_acc n (val (po_r st)) (val (po_h st) mod P1305) (slice msg off (len - off)).
Proof.
  intros Hm Ho Hlen Hlt Hn Hc Ht. destruct (Z.ltb_spec off len) as [Hol|Hol].
  - destruct (Z.leb_spec len (zlen msg)); [|lia].
    assert (Hz : zlen (slice msg off (len - off)) = len - off) by (rewrite zlen_slice; lia).
    assert (Hu : Forall is_u8 (slice msg off (len - off))) by by apply Forall_take, Forall_drop.
    generalize dependent (slice msg off (len - off)). intros m Hz Hu. rewrite <- Hz in *.
    destruct (final_step st m) as ((Hc' & Hv) & Hr & Hp); try done.
    eexists. split; [done|]. split; [done|]. split; [done|]. rewrite Hv. destruct n as [|n]; [lia|].
    rewrite poly_acc_cons by (intros ->; change (zlen (@nil Z)) with 0 in *; lia).
    rewrite take_ge, drop_ge, poly_acc_nil by (unfold zlen in *; lia). done.
  - replace (len - off) with 0 by lia. exists st. split_and!; try done. change (slice msg off 0) with (@nil Z).
    by rewrite poly_acc_nil.
Qed.

Lemma le_value_block m : zlen m = 16 -> le_value (m ++ [1]) = le_value m + 2 ^ 104 * 2 ^ 24.
Proof. intros Hm. rewrite le_value_app, Hm. cbn [le_value]. lia. Qed.

(** The blocks of [len] octets of [msg] from [off] on, with [n] rounds of the reference. *)
Lemma blocks_spec fuel : forall st msg len off n, Forall is_u8 msg -> 0 <= off <= len -> len <= zlen msg -> zlen msg < 2 ^ 63 ->
  (len - off) / 16 <= Z.of_nat fuel -> len - off <= Z.of_nat n -> carried (po_h st) -> tight (po_r st) ->
  exists st', poly_blocks_loop fuel st msg len off = Some st' /\ carried (po_h st') /\ po_pad st' = po_pad st /\
    val (po_h st') mod P1305 = poly_acc n (val (po_r st)) (val (po_h st) mod P1305) (slice msg off (len - off)).
Proof.
  induction fuel as [|fuel IH]; intros st msg len off n Hm Ho Hlen H63 Hf Hn Hc Ht; cbn [poly_blocks_loop];
    rewrite !(u64_small (len - off)) by lia; destruct (Z.leb_spec 16 (len - off)) as [Hge|Hlt].
  - pose proof (Z.div_le_mono 16 (len - off) 16 ltac:(lia) Hge). change (16 / 16) with 1 in *. lia.
  - by apply tail_spec.
  - destruct (Z.leb_spec (off + 16) (zlen msg)); [|lia]. rewrite (u64_small (off + 16)) by lia.
    assert (Hb : zlen (slice msg off 16) = 16) by (rewrite zlen_slice; lia).
    destruct (block_step st (slice msg off 16) (2 ^ 24)) as ((Hc' & Hv) & Hr & Hp); try done; [|unfold zlen in Hb; lia|by right|].
    { by apply Forall_take, Forall_drop. }
    destruct n as [|n]; [lia|].
    destruct (IH (poly_mulmod (poly_add st (slice msg off 16) (2 ^ 24))) msg len (off + 16) n) as (st' & -> & Hc'' & Hp' & Hv');
      try done; try lia.
    { replace (len - (off + 16)) with ((len - off) + (-1) * 16) by lia. rewrite Z.div_add by lia. lia. }
    exists st'. split_and!; [done|done|congruence|]. rewrite Hv', Hr, Hv.
    replace (len - off) with (16 + (len - (off + 16))) by lia. rewrite slice_split by lia.
    rewrite poly_acc_cons by (intros E; apply (f_equal zlen) in E; rewrite zlen_app, Hb in E;
      pose proof (zlen_nonneg (slice msg (off + 16) (len - (off + 16)))); change (zlen (@nil Z)) with 0 in E; lia).
    rewrite take_app_length', drop_app_length' by (unfold zlen in Hb; lia).
    by rewrite (le_value_block _ Hb).
  - by apply tail_spec.
Qed.

(** * The tag *)

Lemma full_carry_spec h : carried h -> tight (full_carry h) /\ val (full_carry h) mod P1305 = val h mod P1305.
Proof.
  intros (h0 & h1 & h2 & h3 & h4 & -> & B0 & B1 & B2 & B3 & B4). unfold full_carry. read_at. cbv zeta.
  rewrite !land_26, !Z.shiftr_div_pow2 by lia. rewrite (Z.div_small h0), (Z.mod_small h0), Z.add_0_r, (u32_small h1) by lia.
  destruct (Z.lt_ge_cases h1 (2 ^ 26)) as [Hlt|Hge].
  - rewrite (Z.div_small h1), (Z.mod_small h1), !Z.add_0_r, (u32_small h2) by lia.
    rewrite (Z.div_small h2), (Z.mod_small h2), !Z.add_0_r, (u32_small h3) by lia.
    rewrite (Z.div_small h3), (Z.mod_small h3), !Z.add_0_r, (u32_small h4) by lia.
    rewrite (Z.div_small h4), (Z.mod_small h4), Z.mul_0_l by lia. change (u32 0) with 0.
    rewrite Z.add_0_r, (u32_small h0), (Z.div_small h0), (Z.mod_small h0), Z.add_0_r, (u32_small h1) by lia.
    split; [|done]. eexists _, _, _, _, _. split; [done|]. lia.
  - assert (Hd1 : h1 / 2 ^ 26 = 1) by (div_facts h1 26; lia). assert (Hm1 : h1 mod 2 ^ 26 = h1 - 2 ^ 26) by (div_facts h1 26; lia).
    rewrite Hd1, Hm1. rewrite (u32_small (h2 + 1)) by lia. div_facts (h2 + 1) 26.
    rewrite (u32_small (h3 + _)) by lia. div_facts (h3 + (h2 + 1) / 2 ^ 26) 26.
    rewrite (u32_small (h4 + _)) by lia. div_facts (h4 + (h3 + (h2 + 1) / 2 ^ 26) / 2 ^ 26) 26.
    set (c2 := (h2 + 1) / 2 ^ 26) in *. set (c3 := (h3 + c2) / 2 ^ 26) in *. set (c4 := (h4 + c3) / 2 ^ 26) in *.
    assert (Hc4 : 0 <= c4 <= 1) by lia. rewrite (u32_small (c4 * 5)), (u32_small (h0 + c4 * 5)) by lia. div_facts (h0 + c4 * 5) 26.
    rewrite u32_small by lia. split; [eexists _, _, _, _, _; split; [done|]; lia|].
    match goal with |- val ?l mod _ = val ?m mod _ => assert (Hv : val l = val m + (- c4) * P1305) end.
    { unfold val. read_at. unfold limbs, P1305. change (2 ^ 104) with (2 ^ 78 * 2 ^ 26).
      change (2 ^ 130) with (2 ^ 104 * 2 ^ 26). clearbody c2 c3 c4. lia. }
    rewrite Hv, Z.mod_add by done. done.
Qed.

Lemma tight_val h : tight h -> 0 <= val h < 2 ^ 130.
Proof. intros (h0 & h1 & h2 & h3 & h4 & -> & B0 & B1 & B2 & B3 & B4). unfold val. read_at. unfold limbs. lia. Qed.

(** The candidate g is never selected. *)
Lemma select_mod_keeps h : tight h -> select_mod h (plus_five h) = h.
Proof.
  intros (h0 & h1 & h2 & h3 & h4 & -> & B0 & B1 & B2 & B3 & B4). unfold select_mod.
  assert (Hmask : u32 (Z.shiftr (at_ (plus_five [h0; h1; h2; h3; h4]) 4) 31 - 1) = 0).
  { unfold plus_five. cbn [plus_loop]. set (g0 := u32 (h0 + 5)). set (g1 := u32 (h1 + _)). set (g2 := u32 (h2 + _)).
    set (g3 := u32 (h3 + _)). set (g4 := u32 (h4 + _)). clearbody g0 g1 g2 g3 g4. cbn [insert list_insert]. read_at.
    rewrite land_26. pose proof (Z.mod_pos_bound g4 (2 ^ 26) ltac:(done)). unfold u32 at 2.
    replace ((g4 mod 2 ^ 26 - 2 ^ 26) mod 4294967296) with (g4 mod 2 ^ 26 - 2 ^ 26 + 2 ^ 32).
    2:{ apply Z.mod_unique with (-1); lia. }
    rewrite Z.shiftr_div_pow2 by lia.
    replace ((g4 mod 2 ^ 26 - 2 ^ 26 + 2 ^ 32) / 2 ^ 31) with 1 by (apply Z.div_unique with (g4 mod 2 ^ 26 - 2 ^ 26 + 2 ^ 31); lia).
    done. }
  rewrite Hmask. change (u32 (Z.lnot 0)) with (Z.ones 32). cbn [List.map seq].
  change (Z.of_nat 0) with 0. change (Z.of_nat 1) with 1. change (Z.of_nat 2) with 2. change (Z.of_nat 3) with 3.
  change (Z.of_nat 4) with 4. rewrite !Z.land_0_r, !Z.lor_0_r, !Z.land_ones by lia. read_at.
  rewrite !Z.mod_small by lia. done.
Qed.

Fixpoint words_value (l : list Z) : Z := match l with [] => 0 | x :: l' => x + 2 ^ 32 * words_value l' end.

Lemma pack_spec h : tight h -> Forall is_word (pack h) /\ length (pack h) = 4%nat /\ words_value (pack h) = val h mod 2 ^ 128.
Proof.
  intros (h0 & h1 & h2 & h3 & h4 & -> & B0 & B1 & B2 & B3 & B4). unfold pack. read_at. rewrite !Z.shiftr_div_pow2 by lia.
  div_facts h1 6. div_facts h2 12. div_facts h3 18. div_facts h4 24.
  rewrite (word_mix h0 h1 26), (word_mix (h1 / 2 ^ 6) h2 20), (word_mix (h2 / 2 ^ 12) h3 14), (word_mix (h3 / 2 ^ 18) h4 8) by lia.
  change (32 - 26) with 6. change (32 - 20) with 12. change (32 - 14) with 18. change (32 - 8) with 24.
  split; [|split; [done|]]. { rewrite !List.Forall_cons_iff. unfold is_word. split_and!; try lia. constructor. }
  unfold val. read_at. unfold limbs. cbn [words_value]. apply Z.mod_unique with (h4 / 2 ^ 24); [|lia].
  left. lia.
Qed.

Lemma low_octet x v j : 0 <= j <= 24 -> (x + 2 ^ 32 * v) / 2 ^ j mod 256 = x / 2 ^ j mod 256.
Proof.
  intros Hj. replace (2 ^ 32) with (2 ^ (24 - j) * 256 * 2 ^ j).
  2:{ change 256 with (2 ^ 8). rewrite <- !Z.pow_add_r by lia. f_equal. lia. }
  replace (x + _ * v) with (x + (2 ^ (24 - j) * v * 256) * 2 ^ j) by ring.
  rewrite Z.div_add by (apply Z.pow_nonzero; lia). by rewrite Z.mod_add by lia.
Qed.

Lemma le_bytes_4 k v x :
  le_bytes (4 + k) (x + 2 ^ 32 * v) =
  [u8 x; u8 (Z.shiftr x 8); u8 (Z.shiftr x 16); u8 (Z.shiftr x 24)] ++ le_bytes k (x / 2 ^ 32 + v).
Proof.
  rewrite !Z.shiftr_div_pow2 by lia. cbn [Nat.add le_bytes app]. unfold u8. rewrite !Z.div_div by lia.
  change (256 * 256) with (2 ^ 16). change (2 ^ 16 * 256) with (2 ^ 24). change (2 ^ 24 * 256) with (2 ^ 32).
  rewrite (low_octet x v 16), (low_octet x v 24) by lia. change 256 with (2 ^ 8) at 2. rewrite (low_octet x v 8) by lia.
  rewrite <- (Z.div_1_r (x + _)) at 1. change 1 with (2 ^ 0). rewrite (low_octet x v 0) by lia.
  change (2 ^ 0) with 1. rewrite Z.div_1_r. rewrite (Z.mul_comm (2 ^ 32)), Z.div_add by lia. done.
Qed.

Lemma tag_loop_spec w : forall pad f, Forall is_word w -> Forall is_word pad -> length w = length pad -> 0 <= f <= 1 ->
  tag_loop w pad f = le_bytes (4 * length w) (f + words_value w + words_value pad).
Proof.
  induction w as [|x w IH]; intros [|y pad] f Hw Hp Hl Hf; try done. cbn [tag_loop words_value length].
  apply List.Forall_cons_iff in Hw as [Hx Hw]. apply List.Forall_cons_iff in Hp as [Hy Hp]. unfold is_word in Hx, Hy.
  rewrite (u64_small (x + y)), u64_small by lia. replace (4 * S (length w))%nat with (4 + 4 * length w)%nat by lia.
  replace (f + (x + 2 ^ 32 * words_value w) + (y + 2 ^ 32 * words_value pad)) with
    (f + (x + y) + 2 ^ 32 * (words_value w + words_value pad)) by ring.
  rewrite le_bytes_4, (Z.shiftr_div_pow2 _ 32) by lia. f_equal. rewrite (Z.add_assoc (_ / _)). apply IH; try done; [cbn in Hl; lia|].
  div_facts (f + (x + y)) 32. lia.
Qed.

Lemma le_bytes_mod k : forall v, le_bytes k (v mod 256 ^ Z.of_nat k) = le_bytes k v.
Proof.
  induction k as [|k IH]; intros v; [done|]. cbn [le_bytes]. rewrite Nat2Z.inj_succ, Z.pow_succ_r by lia.
  rewrite Z.rem_mul_r by lia. rewrite (Z.mul_comm 256), Z.mod_add, Z.mod_mod, Z.div_add by lia.
  rewrite (Z.div_small (v mod 256)) by (apply Z.mod_pos_bound; lia). by rewrite Z.add_0_l, IH.
Qed.

Lemma pad_words key : Forall is_u8 key -> zlen key = 32 ->
  Forall is_word (po_pad (poly_init key)) /\ words_value (po_pad (poly_init key)) = le_value (drop 16 key).
Proof.
  intros Hk Hl. unfold poly_init. cbn [po_pad]. split.
  - rewrite !List.Forall_cons_iff. split_and!; try (apply rd32le_value; [done|lia]). constructor.
  - destruct (rd32le_value key 16 Hk) as [-> _]; [lia|]. destruct (rd32le_value key 20 Hk) as [-> _]; [lia|].
    destruct (rd32le_value key 24 Hk) as [-> _]; [lia|]. destruct (rd32le_value key 28 Hk) as [-> _]; [lia|].
    unfold zlen in Hl. do 32 (destruct key as [|? key]; [done|]). destruct key; [|cbn [length] in Hl; lia].
    cbn [drop le_value words_value]. read_at. lia.
Qed.

(** The tag is made of some representative of the residue, below 2^130. *)
Lemma finish_spec st : carried (po_h st) -> Forall is_word (po_pad st) -> length (po_pad st) = 4%nat ->
  exists v, poly_finish st = le_bytes 16 (v + words_value (po_pad st)) /\ 0 <= v < 2 ^ 130 /\ v mod P1305 = val (po_h st) mod P1305.
Proof.
  intros Hc Hp Hl. destruct (full_carry_spec _ Hc) as [Ht Hv]. exists (val (full_carry (po_h st))).
  split; [|split; [by apply tight_val|done]]. unfold poly_finish. cbv zeta. rewrite select_mod_keeps by done.
  destruct (pack_spec _ Ht) as (Hw & Hlw & Hval). rewrite tag_loop_spec, Hlw, Hval by (try done; lia). rewrite Z.add_0_l.
  rewrite <- (le_bytes_mod (4 * 4)), <- (le_bytes_mod 16 (_ + _)). change (256 ^ Z.of_nat (4 * 4)) with (2 ^ 128).
  change (256 ^ Z.of_nat 16) with (2 ^ 128). by rewrite Z.add_mod_idemp_l.
Qed.

Lemma tag_spec key msg len : Forall is_u8 key -> zlen key = 32 -> Forall is_u8 msg -> 0 <= len <= zlen msg -> zlen msg < 2 ^ 63 ->
  exists v, quic_poly1305 key msg len = Some (le_bytes 16 (v + le_value (drop 16 key))) /\ 0 <= v < 2 ^ 130 /\
    v mod P1305 = poly1305_residue key (take (Z.to_nat len) msg).
Proof.
  intros Hk Hkl Hm Hlen H63. destruct (init_spec key Hk Hkl) as [Ht Hr]. destruct (pad_words key Hk Hkl) as [Hpw Hpv].
  destruct (blocks_spec (Z.to_nat (len / 16)) (poly_init key) msg len 0 (length (take (Z.to_nat len) msg)))
    as (st & Hst & Hc & Hp & Hv); try done; try lia.
  { rewrite Z.sub_0_r, Z2Nat.id; [done|]. apply Z.div_pos; lia. }
  { rewrite length_take. unfold zlen in Hlen. lia. }
  { eexists _, _, _, _, _. split; [done|]. lia. }
  unfold quic_poly1305, poly_blocks. rewrite Hst. cbn [mbind option_bind].
  destruct (finish_spec st Hc) as (v & -> & Hb & Hres); [by rewrite Hp|by rewrite Hp|].
  exists v. rewrite Hp, Hpv. split_and!; try done; try lia. rewrite Hres, Hv, Hr. unfold poly1305_residue.
  f_equal. rewrite Z.sub_0_r. done.
Qed.

Lemma residue_range n r : forall a m, 0 <= a < P1305 -> 0 <= poly_acc n r a m < P1305.
Proof.
  induction n as [|n IH]; intros a m Ha; [done|]. destruct m as [|x m]; [done|]. cbn [poly_acc]. apply IH.
  by apply Z.mod_pos_bound.
Qed.

(** Only the first [len] octets count. *)
Lemma slice_take (l : list Z) i k n : 0 <= i -> 0 <= k -> i + k <= n -> slice (take (Z.to_nat n) l) i k = slice l i k.
Proof.
  intros Hi Hk Hn. unfold slice. rewrite skipn_firstn_comm, take_take. f_equal. lia.
Qed.

Lemma blocks_front fuel : forall st msg len off, 0 <= off <= len -> len <= zlen msg -> len < 2 ^ 63 ->
  poly_blocks_loop fuel st msg len off = poly_blocks_loop fuel st (take (Z.to_nat len) msg) len off.
Proof.
  assert (Htl : forall (msg : list Z) len, 0 <= len <= zlen msg -> zlen (take (Z.to_nat len) msg) = len)
    by (intros; unfold zlen in *; rewrite length_take; lia).
  induction fuel as [|fuel IH]; intros st msg len off Ho Hl H63; cbn [poly_blocks_loop];
    rewrite !Htl, !(u64_small (len - off)) by lia; rewrite (slice_take msg off (len - off)) by lia;
    destruct (Z.leb_spec 16 (len - off)); try done.
  - destruct (Z.leb_spec len (zlen msg)); [|lia]. by rewrite Z.leb_refl.
  - destruct (Z.leb_spec (off + 16) (zlen msg)); [|lia]. destruct (Z.leb_spec (off + 16) len); [|lia].
    rewrite u64_small, slice_take, IH by lia. done.
  - destruct (Z.leb_spec len (zlen msg)); [|lia]. by rewrite Z.leb_refl.
Qed.

Lemma poly1305_front key msg len : 0 <= len <= zlen msg -> len < 2 ^ 63 ->
  quic_poly1305 key msg len = quic_poly1305 key (take (Z.to_nat len) msg) len.
Proof. intros Hl H63. unfold quic_poly1305, poly_blocks. rewrite blocks_front by lia. done. Qed.

(** C21: The Poly1305 tag of the code is the RFC 8439 tag: the limbs never overflow 32 or 64 bits,
    the accumulator is the residue of the reference after every block, the last partial block included,
    and the tag is the low 128 bits of the residue plus s.  The final subtraction of 2^130 - 5 is never
    made, so the residues 0 to 4, which the limbs may hold as 2^130 - 5 to 2^130 - 1, are left out. *)
Theorem poly1305_exact key msg len : Forall is_u8 key -> zlen key = 32 -> Forall is_u8 msg -> 0 <= len <= zlen msg ->
  zlen msg < 2 ^ 63 -> 5 <= poly1305_residue key (take (Z.to_nat len) msg) ->
  quic_poly1305 key msg len = Some (poly1305_spec key (take (Z.to_nat len) msg)).
Proof.
  intros Hk Hkl Hm Hlen H63 Hres. destruct (tag_spec key msg len Hk Hkl Hm Hlen H63) as (v & -> & Hv & Hmod).
  unfold poly1305_spec. rewrite <- Hmod in *. do 3 f_equal. symmetry. apply Z.mod_small.
  split; [lia|]. destruct (Z.lt_ge_cases v P1305) as [|Hge]; [done|].
  assert (Hs : v mod P1305 = v - P1305) by (symmetry; apply Z.mod_unique with 1; unfold P1305 in *; lia).
  unfold P1305 in *. lia.
Qed.

(** Witness of C21: the vector of RFC 8439 section 2.5.2. *)
Lemma poly1305_exact_witness :
  let key := [0x85; 0xd6; 0xbe; 0x78; 0x57; 0x55; 0x6d; 0x33; 0x7f; 0x44; 0x52; 0xfe; 0x42; 0xd5; 0x06; 0xa8;
              0x01; 0x03; 0x80; 0x8a; 0xfb; 0x0d; 0xb2; 0xfd; 0x4a; 0xbf; 0xf6; 0xaf; 0x41; 0x49; 0xf5; 0x1b] in
  let msg := List.map (fun i => Z.of_nat i + 60) (seq 0 34) in
  quic_poly1305 key msg 34 = Some (poly1305_spec key msg).
Proof.
  intros key msg. apply (poly1305_exact key msg 34); [ | reflexivity | | | | ];
    try (apply (bool_decide_unpack _); vm_compute; exact I); try (vm_compute; discriminate); try (split; vm_compute; discriminate).
Defined.

(** The final reduction is lost: with r = 2, s = 0 and one block of 0xff octets the residue is 3. *)
Example poly1305_small_residue :
  let key := 2 :: repeat 0 31 in let msg := repeat 255 16 in
  poly1305_residue key msg = 3 /\ poly1305_spec key msg = 3 :: repeat 0 15 /\
  quic_poly1305 key msg 16 = Some (254 :: repeat 255 15).
Proof. split; [vm_compute; reflexivity|]. split; vm_compute; reflexivity. Qed.
