(* ===== verification/ChaCha.v ===== *)
(** ChaCha20 and ChaCha20-Poly1305.

    [crypto/symmetric/aead/chacha/chacha20.c] and [aead.c].  The state of the
    block function is a list of sixteen [u32]; the quarter round macro is a
    function on four words.  The encryption loop is that of CtrMode, with 64-octet
    blocks and a [u32] counter.  The message authenticated by the AEAD is built in
    a local array of 3032 octets, [None] when an octet is written outside it. *)
From S2P Require Import Prelude.
From S2P Require Import Buffers.
From S2P Require Import Headers.
From S2P Require Import Aes.
From S2P Require Import CtrMode.
From S2P Require Import Poly1305.

Definition QUIC_CHACHA_KEY : Z := 32.
Definition QUIC_CHACHA_NONCE : Z := 12.
Definition QUIC_CHACHA_BLOCK : Z := 64.
Definition QUIC_CHAPOLY_TAG : Z := 16.

(** * ChaCha20 *)

Definition ROTL (x n : Z) : Z := Z.lor (u32 (Z.shiftl x n)) (Z.shiftr x (32 - n)).

Definition QR (a b c d : Z) : Z * Z * Z * Z :=
  let a := u32 (a + b) in let d := Z.lxor d a in let d := ROTL d 16 in
  let c := u32 (c + d) in let b := Z.lxor b c in let b := ROTL b 12 in
  let a := u32 (a + b) in let d := Z.lxor d a in let d := ROTL d 8 in
  let c := u32 (c + d) in let b := Z.lxor b c in let b := ROTL b 7 in
  (a, b, c, d).

(** [QR(x[i], x[j], x[k], x[l])]. *)
Definition qr_at (x : list Z) (i j k l : nat) : list Z :=
  let '(a, b, c, d) := QR (nth i x 0) (nth j x 0) (nth k x 0) (nth l x 0) in
  <[l := d]> (<[k := c]> (<[j := b]> (<[i := a]> x))).

Definition double_round (x : list Z) : list Z :=
  let x := qr_at x 0 4 8 12 in let x := qr_at x 1 5 9 13 in
  let x := qr_at x 2 6 10 14 in let x := qr_at x 3 7 11 15 in
  let x := qr_at x 0 5 10 15 in let x := qr_at x 1 6 11 12 in
  let x := qr_at x 2 7 8 13 in qr_at x 3 4 9 14.

Definition rd32 (p : list Z) (o : Z) : Z := rd32le p o.

Definition init_state (key : list Z) (counter : Z) (nonce : list Z) : list Z :=
  [0x61707865; 0x3320646e; 0x79622d32; 0x6b206574] ++
  List.map (fun i => rd32 key (4 * Z.of_nat i)) (seq 0 8) ++ [counter] ++
  List.map (fun i => rd32 nonce (4 * Z.of_nat i)) (seq 0 3).

(** The four octets of one word of the output. *)
Definition serialize_word (v : Z) : list Z := [u8 v; u8 (Z.shiftr v 8); u8 (Z.shiftr v 16); u8 (Z.shiftr v 24)].

Definition serialize (x s : list Z) : list Z :=
  concat (List.map (fun i => serialize_word (u32 (nth i x 0 + nth i s 0))) (seq 0 16)).

Definition quic_chacha20_block (key : list Z) (counter : Z) (nonce : list Z) : list Z :=
  let s := init_state key counter nonce in
  serialize (Nat.iter 10 double_round s) s.

Definition counter_next (c : Z) : Z := u32 (c + 1).

Definition quic_chacha20_xor (key : list Z) (counter : Z) (nonce : list Z) (inp : source) (len : Z) (out : list Z)
  : option (list Z) :=
  ctr_xor_ QUIC_CHACHA_BLOCK (fun c => quic_chacha20_block key c nonce) counter_next counter inp len out.

(** * The AEAD *)

(** Copy, zero up to a multiple of 16; the new end. *)
Definition put_padded (buf : list Z) (off : Z) (src : list Z) (n : Z) : option (list Z * Z) :=
  let pad := (16 - n mod 16) mod 16 in
  if n <=? zlen src
  then buf1 ← store_bytes buf off (take (Z.to_nat n) src);
       buf2 ← store_bytes buf1 (off +w n) (repeat 0 (Z.to_nat pad));
       Some (buf2, off +w n +w pad)
  else None.

Definition put_le64 (buf : list Z) (off v : Z) : option (list Z * Z) :=
  buf' ← store_bytes buf off (List.map (fun i => u8 (Z.shiftr v (8 * Z.of_nat i))) (seq 0 8));
  Some (buf', off +w 8).

Definition poly_key (key nonce : list Z) : list Z := take 32 (quic_chacha20_block key 0 nonce).

(** [u8 mac[16 + 1500 + 1500 + 16]]. *)
Definition MAC_CAP : Z := 16 + 1500 + 1500 + 16.

Definition chapoly_tag (key nonce aad : list Z) (aad_len : Z) (ct : list Z) (ct_len : Z) : option (list Z) :=
  let pk := poly_key key nonce in
  '(mac, n) ← put_padded (local MAC_CAP) 0 aad aad_len;
  '(mac, n) ← put_padded mac n ct ct_len;
  '(mac, n) ← put_le64 mac n aad_len;
  '(mac, n) ← put_le64 mac n ct_len;
  quic_poly1305 pk mac n.

(** The ciphertext array and the tag; [ct] is the output array. *)
Definition quic_chapoly_seal (key nonce aad : list Z) (aad_len : Z) (pt : source) (pt_len : Z) (ct : list Z)
  : option (list Z * list Z) :=
  ct' ← quic_chacha20_xor key 1 nonce pt pt_len ct;
  tag ← chapoly_tag key nonce aad aad_len ct' pt_len;
  Some (ct', tag).

(** [Some None] on a tag mismatch; [pt] is the output array. *)
Definition quic_chapoly_open (key nonce aad : list Z) (aad_len : Z) (ct : source) (ct_len : Z) (tag pt : list Z)
  : option (option (list Z)) :=
  want ← chapoly_tag key nonce aad aad_len (source_of ct pt) ct_len;
  if negb (quic_ct_diff16 want tag =? 0) then Some None
  else pt' ← quic_chacha20_xor key 1 nonce ct ct_len pt; Some (Some pt').

(** * What the AEAD authenticates *)

Definition pad16 (n : Z) : Z := (16 - n mod 16) mod 16.
Definition zeros16 (n : Z) : list Z := repeat 0 (Z.to_nat (pad16 n)).

(** RFC 8439 section 2.8: both texts filled with zeros to a multiple of 16, then their lengths. *)
Definition mac_data (aad ct : list Z) : list Z :=
  aad ++ zeros16 (zlen aad) ++ ct ++ zeros16 (zlen ct) ++ le_bytes 8 (zlen aad) ++ le_bytes 8 (zlen ct).

Definition chacha_cipher (key nonce m : list Z) : list Z :=
  ctr_crypt (fun c => quic_chacha20_block key c nonce) counter_next 1 m.

Lemma pad16_bounds n : 0 <= pad16 n < 16.
Proof. unfold pad16. apply Z.mod_pos_bound. lia. Qed.

Lemma zlen_zeros16 n : zlen (zeros16 n) = pad16 n.
Proof. unfold zeros16, zlen. rewrite repeat_length. pose proof (pad16_bounds n). lia. Qed.

Lemma zlen_le_bytes k : forall v, zlen (le_bytes k v) = Z.of_nat k.
Proof. induction k as [|k IH]; intros v; [done|]. cbn [le_bytes]. rewrite zlen_cons, IH. lia. Qed.

Lemma le64_bytes v : List.map (fun i => u8 (Z.shiftr v (8 * Z.of_nat i))) (seq 0 8) = le_bytes 8 v.
Proof.
  cbn [List.map seq le_bytes]. unfold u8. rewrite !Z.shiftr_div_pow2 by lia. rewrite !Z.div_div by lia.
  change (2 ^ (8 * Z.of_nat 0)) with 1. rewrite Z.div_1_r. reflexivity.
Qed.

Lemma put_padded_front (l w src : list Z) n : zlen w <= zlen l -> 0 <= n <= zlen src -> zlen src < 2 ^ 60 -> zlen l < 2 ^ 60 ->
  put_padded (splice l 0 w) (zlen w) src n =
  let t := take (Z.to_nat n) src ++ zeros16 n in
  if zlen w + zlen t <=? zlen l then Some (splice l 0 (w ++ t), zlen (w ++ t)) else None.
Proof.
  change (2 ^ 60) with 1152921504606846976. intros Hw Hn Hs Hl. unfold put_padded. fold (pad16 n). pose proof (pad16_bounds n).
  pose proof (zlen_nonneg w). zdecide.
  assert (Ht : zlen (take (Z.to_nat n) src) = n) by (unfold zlen in *; rewrite length_take; lia). cbv zeta.
  rewrite store_bytes_front, !zlen_app, Ht, zlen_zeros16 by lia. unwrap.
  destruct (Z.leb_spec (zlen w + n) (zlen l)).
  - cbn [mbind option_bind]. fold (zeros16 n). replace (zlen w + n) with (zlen (w ++ take (Z.to_nat n) src)) by (rewrite zlen_app; lia).
    rewrite store_bytes_front by (rewrite zlen_app; lia). rewrite zlen_app, zlen_zeros16, Ht, <- Z.add_assoc.
    destruct (_ <=? _); [|done]. cbn [mbind option_bind]. by rewrite <- app_assoc.
  - cbn [mbind option_bind]. destruct (Z.leb_spec (zlen w + (n + pad16 n)) (zlen l)); [lia|done].
Qed.

Lemma put_le64_front (l w : list Z) v : zlen w <= zlen l -> zlen l < 2 ^ 60 ->
  put_le64 (splice l 0 w) (zlen w) v =
  if zlen w + 8 <=? zlen l then Some (splice l 0 (w ++ le_bytes 8 v), zlen (w ++ le_bytes 8 v)) else None.
Proof.
  change (2 ^ 60) with 1152921504606846976. intros Hw Hl. unfold put_le64. pose proof (zlen_nonneg w).
  rewrite le64_bytes, store_bytes_front, !zlen_app, zlen_le_bytes by lia. change (Z.of_nat 8) with 8.
  destruct (Z.leb_spec (zlen w + 8) (zlen l)); cbn [mbind option_bind]; [|done]. by unwrap.
Qed.

Lemma zlen_mac_data aad ct : zlen (mac_data aad ct) = zlen aad + pad16 (zlen aad) + zlen ct + pad16 (zlen ct) + 16.
Proof. unfold mac_data. rewrite !zlen_app, !zlen_zeros16, !zlen_le_bytes. lia. Qed.

(** The tag is Poly1305 over [mac_data] when that fits the local array, and the
    code writes outside the array otherwise. *)
Lemma chapoly_tag_spec key nonce aad aad_len ct ct_len : 0 <= aad_len <= zlen aad -> 0 <= ct_len <= zlen ct ->
  zlen aad < 2 ^ 60 -> zlen ct < 2 ^ 60 ->
  chapoly_tag key nonce aad aad_len ct ct_len =
  let d := mac_data (take (Z.to_nat aad_len) aad) (take (Z.to_nat ct_len) ct) in
  if zlen d <=? MAC_CAP then quic_poly1305 (poly_key key nonce) d (zlen d) else None.
Proof.
  intros Ha Hc Hao Hco. unfold chapoly_tag. cbv zeta. rewrite zlen_mac_data.
  assert (Hta : zlen (take (Z.to_nat aad_len) aad) = aad_len) by (unfold zlen in *; rewrite length_take; lia).
  assert (Htc : zlen (take (Z.to_nat ct_len) ct) = ct_len) by (unfold zlen in *; rewrite length_take; lia).
  rewrite Hta, Htc. set (a := take (Z.to_nat aad_len) aad) in *. set (c := take (Z.to_nat ct_len) ct) in *.
  pose proof (pad16_bounds aad_len). pose proof (pad16_bounds ct_len).
  assert (Hm : zlen (local MAC_CAP) = MAC_CAP) by (apply zlen_local; done). change MAC_CAP with 3032 in *.
  pose proof (put_padded_front (local 3032) [] aad aad_len) as P1. rewrite splice_nil in P1. change (zlen (@nil Z)) with 0 in P1.
  rewrite P1 by (try done; lia). fold a. cbv zeta. cbn [app]. rewrite zlen_app, Hta, zlen_zeros16, Hm.
  destruct (Z.leb_spec (0 + (aad_len + pad16 aad_len)) 3032); cbn [mbind option_bind]; [|by zdecide].
  replace (aad_len + pad16 aad_len) with (zlen (a ++ zeros16 aad_len)) by (rewrite zlen_app, Hta, zlen_zeros16; done).
  rewrite put_padded_front by (try done; rewrite ?zlen_app, ?Hta, ?zlen_zeros16; lia). fold c. cbv zeta.
  rewrite !zlen_app, Hta, Htc, !zlen_zeros16, Hm.
  destruct (Z.leb_spec (aad_len + pad16 aad_len + (ct_len + pad16 ct_len)) 3032); cbn [mbind option_bind]; [|by zdecide].
  set (w := (a ++ zeros16 aad_len) ++ c ++ zeros16 ct_len).
  assert (Hw : zlen w = aad_len + pad16 aad_len + (ct_len + pad16 ct_len))
    by (subst w; rewrite !zlen_app, Hta, Htc, !zlen_zeros16; done).
  rewrite <- Hw. rewrite put_le64_front by (try done; lia). rewrite Hm.
  destruct (Z.leb_spec (zlen w + 8) 3032); cbn [mbind option_bind]; [|by zdecide].
  rewrite put_le64_front by (try done; rewrite zlen_app, zlen_le_bytes; lia). rewrite Hm, zlen_app, zlen_le_bytes. change (Z.of_nat 8) with 8.
  replace (zlen w + 8 + 8) with (aad_len + pad16 aad_len + ct_len + pad16 ct_len + 16) by lia.
  destruct (Z.leb_spec (aad_len + pad16 aad_len + ct_len + pad16 ct_len + 16) 3032); cbn [mbind option_bind]; [|done].
  set (d := (w ++ le_bytes 8 aad_len) ++ le_bytes 8 ct_len).
  assert (Hd : zlen d = aad_len + pad16 aad_len + ct_len + pad16 ct_len + 16)
    by (subst d; rewrite !zlen_app, !zlen_le_bytes; lia).
  rewrite poly1305_front by (rewrite ?zlen_splice by lia; lia). rewrite take_splice_front, <- Hd. f_equal.
  subst d w. unfold mac_data. rewrite Hta, Htc, <- !app_assoc. done.
Qed.

(** * Seal and open *)

Lemma length_block key c nonce : zlen (quic_chacha20_block key c nonce) = 64.
Proof.
  unfold quic_chacha20_block, serialize. cbv zeta. generalize (Nat.iter 10 double_round (init_state key c nonce)). intros x.
  generalize (init_state key c nonce). intros s. reflexivity.
Qed.

Lemma serialize_word_u8 v : Forall is_u8 (serialize_word v).
Proof. unfold serialize_word. repeat constructor; apply u8_range. Qed.

Lemma block_u8 key c nonce : Forall is_u8 (quic_chacha20_block key c nonce).
Proof.
  unfold quic_chacha20_block, serialize. cbv zeta. generalize (Nat.iter 10 double_round (init_state key c nonce)). intros x.
  generalize (init_state key c nonce). intros s. apply Forall_concat, List.Forall_forall. intros l Hl.
  apply in_map_iff in Hl as (i & <- & _). apply serialize_word_u8.
Qed.

Lemma zlen_poly_key key nonce : zlen (poly_key key nonce) = 32.
Proof. pose proof (length_block key 0 nonce) as H. unfold poly_key, zlen in *. rewrite length_take. lia. Qed.

Lemma poly_key_u8 key nonce : Forall is_u8 (poly_key key nonce).
Proof. apply Forall_take, block_u8. Qed.

Lemma chacha20_xor_spec key c nonce inp len out : 0 <= len <= zlen out -> len <= zlen (source_of inp out) -> zlen out < max_object ->
  quic_chacha20_xor key c nonce inp len out =
  Some (splice out 0 (ctr_crypt (fun c => quic_chacha20_block key c nonce) counter_next c (take (Z.to_nat len) (source_of inp out)))).
Proof. apply ctr_xor_spec; [unfold QUIC_CHACHA_BLOCK; lia|intros c'; apply length_block]. Qed.

Lemma zlen_chacha_cipher key nonce m : zlen (chacha_cipher key nonce m) = zlen m.
Proof. apply (zlen_ctr_crypt 64); [lia|intros c; apply length_block]. Qed.

Lemma chacha_cipher_twice key nonce m : chacha_cipher key nonce (chacha_cipher key nonce m) = m.
Proof. apply (ctr_crypt_twice 64); [lia|intros c; apply length_block]. Qed.

Lemma chacha_cipher_u8 key nonce m : Forall is_u8 m -> Forall is_u8 (chacha_cipher key nonce m).
Proof. apply ctr_crypt_u8. intros c. apply block_u8. Qed.

Lemma mac_data_u8 aad ct : Forall is_u8 aad -> Forall is_u8 ct -> Forall is_u8 (mac_data aad ct).
Proof.
  assert (Hz : forall n, Forall is_u8 (zeros16 n)).
  { intros n. apply List.Forall_forall. intros x Hx. apply repeat_spec in Hx. subst x. unfold is_u8. lia. }
  assert (Hb : forall k v, Forall is_u8 (le_bytes k v)).
  { induction k as [|k IH]; intros v; cbn [le_bytes]; constructor; [|apply IH]. unfold is_u8.
    pose proof (Z.mod_pos_bound v 256). lia. }
  intros Ha Hc. unfold mac_data. rewrite !Forall_app. auto 10.
Qed.

(** The tag of the AEAD, over the additional data and the ciphertext. *)
Definition chapoly_mac (key nonce aad ct : list Z) : list Z :=
  let d := mac_data aad ct in default [] (quic_poly1305 (poly_key key nonce) d (zlen d)).

Lemma zlen_poly1305 key msg len : Forall is_u8 key -> zlen key = 32 -> Forall is_u8 msg -> 0 <= len <= zlen msg -> zlen msg < 2 ^ 63 ->
  exists t, quic_poly1305 key msg len = Some t /\ zlen t = 16.
Proof.
  intros Hk Hkl Hm Hl H63. destruct (tag_spec key msg len Hk Hkl Hm Hl H63) as (v & -> & _). eexists. split; [done|].
  apply zlen_le_bytes.
Qed.

(** The sizes the local array of [chapoly_tag] has room for. *)
Definition chapoly_fits (aad_len ct_len : Z) : Prop :=
  aad_len + pad16 aad_len + ct_len + pad16 ct_len + 16 <= MAC_CAP.

Lemma tag_is_mac key nonce aad aad_len ct ct_len : 0 <= aad_len <= zlen aad -> 0 <= ct_len <= zlen ct ->
  zlen aad < 2 ^ 60 -> zlen ct < 2 ^ 60 -> chapoly_fits aad_len ct_len ->
  Forall is_u8 (take (Z.to_nat aad_len) aad) -> Forall is_u8 (take (Z.to_nat ct_len) ct) ->
  chapoly_tag key nonce aad aad_len ct ct_len = Some (chapoly_mac key nonce (take (Z.to_nat aad_len) aad) (take (Z.to_nat ct_len) ct)) /\
  zlen (chapoly_mac key nonce (take (Z.to_nat aad_len) aad) (take (Z.to_nat ct_len) ct)) = 16.
Proof.
  intros Ha Hc Hao Hco Hf Hau Hcu. rewrite chapoly_tag_spec by done. unfold chapoly_mac. cbv zeta.
  set (a := take (Z.to_nat aad_len) aad). set (c := take (Z.to_nat ct_len) ct).
  assert (Hza : zlen a = aad_len) by (subst a; unfold zlen in *; rewrite length_take; lia).
  assert (Hzc : zlen c = ct_len) by (subst c; unfold zlen in *; rewrite length_take; lia).
  pose proof (zlen_mac_data a c) as Hd. rewrite Hza, Hzc in Hd. unfold chapoly_fits in Hf.
  assert (Hd' : zlen (mac_data a c) <= MAC_CAP) by (rewrite Hd; exact Hf). zdecide.
  assert (H63 : zlen (mac_data a c) < 2 ^ 63) by (eapply Z.le_lt_trans; [exact Hd'|by vm_compute]).
  assert (Hu : Forall is_u8 (mac_data a c)) by by apply mac_data_u8.
  pose proof (zlen_nonneg (mac_data a c)).
  destruct (zlen_poly1305 (poly_key key nonce) (mac_data a c) (zlen (mac_data a c)) (poly_key_u8 key nonce)
    (zlen_poly_key key nonce) Hu ltac:(lia) H63) as (t & -> & Ht). done.
Qed.

Lemma chapoly_seal_spec key nonce aad aad_len pt pt_len ct : 0 <= aad_len <= zlen aad -> zlen aad < 2 ^ 60 ->
  0 <= pt_len <= zlen ct -> pt_len <= zlen (source_of pt ct) -> zlen ct < 2 ^ 60 -> chapoly_fits aad_len pt_len ->
  Forall is_u8 (take (Z.to_nat aad_len) aad) -> Forall is_u8 (take (Z.to_nat pt_len) (source_of pt ct)) ->
  let c := chacha_cipher key nonce (take (Z.to_nat pt_len) (source_of pt ct)) in
  quic_chapoly_seal key nonce aad aad_len pt pt_len ct =
  Some (splice ct 0 c, chapoly_mac key nonce (take (Z.to_nat aad_len) aad) c).
Proof.
  intros Ha Hao Hp Hs Ho Hf Hau Hsu c. unfold quic_chapoly_seal.
  rewrite chacha20_xor_spec by (try done; unfold max_object; lia). cbn [mbind option_bind].
  fold (chacha_cipher key nonce (take (Z.to_nat pt_len) (source_of pt ct))). fold c.
  assert (Hc : zlen c = pt_len). { subst c. rewrite zlen_chacha_cipher. unfold zlen in *. rewrite length_take. lia. }
  destruct (tag_is_mac key nonce aad aad_len (splice ct 0 c) pt_len) as [-> _]; try done; try (rewrite zlen_splice by lia; lia).
  - rewrite (take_splice_n ct c pt_len Hc). by apply chacha_cipher_u8.
  - cbn [mbind option_bind]. by rewrite (take_splice_n ct c pt_len Hc).
Qed.

Lemma chapoly_open_spec key nonce aad aad_len ct ct_len tag pt : 0 <= aad_len <= zlen aad -> zlen aad < 2 ^ 60 ->
  0 <= ct_len <= zlen pt -> ct_len <= zlen (source_of ct pt) -> zlen pt < 2 ^ 60 -> zlen (source_of ct pt) < 2 ^ 60 ->
  chapoly_fits aad_len ct_len -> Forall is_u8 (take (Z.to_nat aad_len) aad) ->
  Forall is_u8 (take (Z.to_nat ct_len) (source_of ct pt)) -> zlen tag = 16 ->
  let c := take (Z.to_nat ct_len) (source_of ct pt) in
  quic_chapoly_open key nonce aad aad_len ct ct_len tag pt =
  Some (if bool_decide (tag = chapoly_mac key nonce (take (Z.to_nat aad_len) aad) c)
        then Some (splice pt 0 (chacha_cipher key nonce c)) else None).
Proof.
  intros Ha Hao Hp Hs Ho Hso Hf Hau Hsu Ht c. unfold quic_chapoly_open.
  destruct (tag_is_mac key nonce aad aad_len (source_of ct pt) ct_len) as [-> Hz]; try done; [lia|]. cbn [mbind option_bind]. fold c in Hz |- *.
  rewrite (ct_diff16_eq _ tag Hz Ht). case_bool_decide; cbn [negb]; [|done].
  rewrite chacha20_xor_spec by (try done; unfold max_object; lia). done.
Qed.

(** RFC 8439 section 2.3.2. *)
Example chacha20_block_vector :
  take 8 (quic_chacha20_block (List.map Z.of_nat (seq 0 32)) 1 [0; 0; 0; 9; 0; 0; 0; 74; 0; 0; 0; 0]) =
  [16; 241; 231; 228; 209; 59; 89; 21].
Proof. vm_compute. reflexivity. Qed.

(** A protected packet of 3001 octets with a header of 25 is more than the local array holds. *)
Example chapoly_overflow key nonce aad ct : zlen aad = 25 -> zlen ct = 3001 -> chapoly_tag key nonce aad 25 ct 3001 = None.
Proof.
  intros Ha Hc. rewrite chapoly_tag_spec by (rewrite ?Ha, ?Hc; (split; discriminate) || reflexivity || lia). cbv zeta.
  rewrite zlen_mac_data. rewrite !take_ge, Ha, Hc by (unfold zlen in *; lia). reflexivity.
Qed.
