(* ===== verification/Suite.v ===== *)
(** Cipher suites.

    [transport/packet/protect/protect_suite/aead_suite.c], [hp_suite.c] and
    [transport/packet/protect/hp/]: the AEAD and the header-protection mask of a
    suite.  What packet protection needs of an AEAD is the class [Aead] with its
    laws [AeadLaws]; AES-128-GCM and ChaCha20-Poly1305 are its two instances, and
    everything about packets is proved against the class. *)
From S2P Require Import Prelude.
From S2P Require Import Buffers.
From S2P Require Import Varint.
From S2P Require Import Headers.
From S2P Require Import Aes.
From S2P Require Import CtrMode.
From S2P Require Import Gcm.
From S2P Require Import Poly1305.
From S2P Require Import ChaCha.

(** * The interface *)

(** The operations of an AEAD with keys [K], and the functions they compute. *)
Class Aead (K : Type) := {
  aead_seal : K -> list Z -> list Z -> Z -> source -> Z -> list Z -> option (list Z * list Z);
  aead_open : K -> list Z -> list Z -> Z -> source -> Z -> list Z -> list Z -> option (option (list Z));
  cipher : K -> list Z -> list Z -> list Z;
  mac : K -> list Z -> list Z -> list Z -> list Z;
  fits : Z -> Z -> Prop
}.

(** Lengths and octets an AEAD is called with. *)
Definition aead_args (aad : list Z) (aad_len : Z) (src : list Z) (len : Z) (out : list Z) : Prop :=
  0 <= aad_len <= zlen aad /\ zlen aad < 2 ^ 60 /\ 0 <= len <= zlen out /\ len <= zlen src /\ zlen out < 2 ^ 60 /\ zlen src < 2 ^ 60 /\
  Forall is_u8 (take (Z.to_nat aad_len) aad) /\ Forall is_u8 (take (Z.to_nat len) src).

Class AeadLaws (K : Type) `{Aead K} := {
  aead_seal_spec k nonce aad aad_len pt len out : aead_args aad aad_len (source_of pt out) len out -> fits aad_len len ->
    let c := cipher k nonce (take (Z.to_nat len) (source_of pt out)) in
    aead_seal k nonce aad aad_len pt len out = Some (splice out 0 c, mac k nonce (take (Z.to_nat aad_len) aad) c);
  aead_open_spec k nonce aad aad_len ct len tag out : aead_args aad aad_len (source_of ct out) len out -> fits aad_len len ->
    zlen tag = 16 ->
    let c := take (Z.to_nat len) (source_of ct out) in
    aead_open k nonce aad aad_len ct len tag out =
    Some (if bool_decide (tag = mac k nonce (take (Z.to_nat aad_len) aad) c) then Some (splice out 0 (cipher k nonce c)) else None);
  cipher_twice k nonce m : cipher k nonce (cipher k nonce m) = m;
  zlen_cipher k nonce m : zlen (cipher k nonce m) = zlen m;
  cipher_u8 k nonce m : Forall is_u8 m -> Forall is_u8 (cipher k nonce m);
  zlen_mac k nonce aad ct : Forall is_u8 aad -> Forall is_u8 ct -> fits (zlen aad) (zlen ct) ->
    zlen aad < 2 ^ 60 -> zlen ct < 2 ^ 60 -> zlen (mac k nonce aad ct) = 16
}.

#[export] Instance gcm_aead : Aead quic_aes128 := {
  aead_seal := quic_gcm_seal; aead_open := quic_gcm_open; cipher := gcm_cipher; mac := gcm_mac;
  fits := fun _ _ => True }.

#[export] Instance gcm_laws : AeadLaws quic_aes128.
Proof.
  split; unfold aead_args; cbn [aead_seal aead_open cipher mac fits gcm_aead].
  - intros k nonce aad aad_len pt len out (Ha & Hao & Hl & Hs & Ho & _) _. apply gcm_seal_spec; unfold max_object; lia.
  - intros k nonce aad aad_len ct len tag out (Ha & Hao & Hl & Hs & Ho & _) _ Ht. apply gcm_open_spec; unfold max_object; lia.
  - intros k nonce m. apply gcm_cipher_twice.
  - intros k nonce m. apply zlen_gcm_cipher.
  - intros k nonce m. apply gcm_cipher_u8.
  - intros k nonce aad ct _ _ _ _ _. apply zlen_gcm_mac.
Qed.

(** ChaCha20-Poly1305 keys; the texts have to fit the array the tag is made in. *)
Record chapoly_key := ChapolyKey { ck_bytes : list Z }.

#[export] Instance chapoly_aead : Aead chapoly_key := {
  aead_seal := fun k => quic_chapoly_seal (ck_bytes k); aead_open := fun k => quic_chapoly_open (ck_bytes k);
  cipher := fun k => chacha_cipher (ck_bytes k); mac := fun k => chapoly_mac (ck_bytes k); fits := chapoly_fits }.

#[export] Instance chapoly_laws : AeadLaws chapoly_key.
Proof.
  split; unfold aead_args; cbn [aead_seal aead_open cipher mac fits chapoly_aead].
  - intros k nonce aad aad_len pt len out (Ha & Hao & Hl & Hs & Ho & Hso & Hau & Hsu) Hf. by apply chapoly_seal_spec.
  - intros k nonce aad aad_len ct len tag out (Ha & Hao & Hl & Hs & Ho & Hso & Hau & Hsu) Hf Ht. by apply chapoly_open_spec.
  - intros k nonce m. apply chacha_cipher_twice.
  - intros k nonce m. apply zlen_chacha_cipher.
  - intros k nonce m. apply chacha_cipher_u8.
  - intros k nonce aad ct Ha Hc Hf Hao Hco. pose proof (zlen_nonneg aad). pose proof (zlen_nonneg ct).
    pose proof (tag_is_mac (ck_bytes k) nonce aad (zlen aad) ct (zlen ct)) as T.
    rewrite !take_ge in T by (unfold zlen; lia). apply T; try done; lia.
Qed.

(** * An AEAD inside a packet

    The code seals into [out + off] with the tag right after the ciphertext, and
    opens a packet in place: the header is the additional data, the output is the
    array the ciphertext is in.  [None] when the region is outside the array. *)

Definition seal_at {K} `{Aead K} (k : K) (nonce : list Z) (aad : source) (aad_len : Z) (pt : source) (pt_len : Z)
  (out : list Z) (off : Z) : option (list Z) :=
  if off <=? zlen out
  then '(t, tag) ← aead_seal k nonce (source_of aad out) aad_len pt pt_len (drop (Z.to_nat off) out);
       store_bytes (take (Z.to_nat off) out ++ t) (off + pt_len) tag
  else None.

Definition open_at {K} `{Aead K} (k : K) (nonce : list Z) (pkt : list Z) (hdr_len ct_len : Z) : option (option (list Z)) :=
  if hdr_len + ct_len + 16 <=? zlen pkt
  then r ← aead_open k nonce pkt hdr_len InPlace ct_len (slice pkt (hdr_len + ct_len) 16) (drop (Z.to_nat hdr_len) pkt);
       Some (option_map (fun t => take (Z.to_nat hdr_len) pkt ++ t) r)
  else None.

(** * aead_suite.c *)

Definition QUIC_TLS_AES_128_GCM_SHA256 : Z := 0x1301.
Definition QUIC_TLS_CHACHA20_POLY1305_SHA256 : Z := 0x1303.

Definition suite_nonce (iv : list Z) (pn : Z) : list Z :=
  List.map (fun i => if (i <? 4)%nat then at_ iv (Z.of_nat i)
    else Z.lxor (at_ iv (Z.of_nat i)) (u8 (Z.shiftr pn (8 * (11 - Z.of_nat i))))) (seq 0 12).

Definition gcm_seal (key nonce : list Z) (aad : source) (aad_len : Z) (pt : source) (pt_len : Z) (out : list Z) (off : Z)
  : option (Z * list Z) :=
  out' ← seal_at (quic_aes128_init key) nonce aad aad_len pt pt_len out off; Some (pt_len +w 16, out').

Definition cha_seal (key nonce : list Z) (aad : source) (aad_len : Z) (pt : source) (pt_len : Z) (out : list Z) (off : Z)
  : option (Z * list Z) :=
  out' ← seal_at (ChapolyKey key) nonce aad aad_len pt pt_len out off; Some (pt_len +w QUIC_CHAPOLY_TAG, out').

Definition quic_aead_suite_seal (suite : Z) (key iv : list Z) (pn : Z) (aad : source) (aad_len : Z) (pt : source) (pt_len : Z)
  (out : list Z) (off : Z) : option (Z * list Z) :=
  let nonce := suite_nonce iv pn in
  if suite =? QUIC_TLS_AES_128_GCM_SHA256 then gcm_seal key nonce aad aad_len pt pt_len out off
  else if suite =? QUIC_TLS_CHACHA20_POLY1305_SHA256 then cha_seal key nonce aad aad_len pt pt_len out off
  else Some (0, out).

(** The length, 0 on a mismatch, and the packet. *)
Definition gcm_open (key nonce pkt : list Z) (hdr_len ct_len : Z) : option (Z * list Z) :=
  r ← open_at (quic_aes128_init key) nonce pkt hdr_len ct_len;
  Some (match r with Some pkt' => (ct_len, pkt') | None => (0, pkt) end).

Definition cha_open (key nonce pkt : list Z) (hdr_len ct_len : Z) : option (Z * list Z) :=
  r ← open_at (ChapolyKey key) nonce pkt hdr_len ct_len;
  Some (match r with Some pkt' => (ct_len, pkt') | None => (0, pkt) end).

Definition quic_aead_suite_open (suite : Z) (key iv : list Z) (pn : Z) (pkt : list Z) (hdr_len ct_len : Z) : option (Z * list Z) :=
  let nonce := suite_nonce iv pn in
  if suite =? QUIC_TLS_AES_128_GCM_SHA256 then gcm_open key nonce pkt hdr_len ct_len
  else if suite =? QUIC_TLS_CHACHA20_POLY1305_SHA256 then cha_open key nonce pkt hdr_len ct_len
  else Some (0, pkt).

(** * Header protection: hp.c, hp_chacha.c, hpapply.c, hpsample.c, hp_suite.c *)

Definition QUIC_HP_LONG_MASK : Z := 0x0f.
Definition QUIC_HP_SHORT_MASK : Z := 0x1f.

Definition quic_hp_mask (hp : quic_aes128) (sample : list Z) : list Z := take 5 (quic_aes128_encrypt hp sample).

Definition quic_hp_chacha_mask (hp_key sample : list Z) : list Z :=
  take 5 (quic_chacha20_block hp_key (rd32le sample 0) (drop 4 sample)).

(** [None] for an unknown suite. *)
Definition quic_hp_suite_mask (suite : Z) (hp_key sample : list Z) : option (list Z) :=
  if suite =? QUIC_TLS_AES_128_GCM_SHA256 then Some (quic_hp_mask (quic_aes128_init hp_key) sample)
  else if suite =? QUIC_TLS_CHACHA20_POLY1305_SHA256 then Some (quic_hp_chacha_mask hp_key sample)
  else None.

Definition quic_hp_protect_byte0 (byte0 mask0 : Z) (is_long : bool) : Z :=
  Z.lxor byte0 (Z.land mask0 (if is_long then 0x0f else 0x1f)).

(** [pkt[j] ^= mask[i]] for [k] octets. *)
Fixpoint hp_pn_loop (k : nat) (pkt : list Z) (j : Z) (mask : list Z) (i : Z) : option (list Z) :=
  match k with
  | O => Some pkt
  | S k' => m ← load mask i; b ← load pkt j; pkt' ← store pkt j (Z.lxor b m); hp_pn_loop k' pkt' (j + 1) mask (i + 1)
  end.

Definition quic_hp_protect_pn (pkt : list Z) (pn_off pn_len : Z) (mask : list Z) : option (list Z) :=
  hp_pn_loop (Z.to_nat pn_len) pkt pn_off mask 1.

(** [pkt[0] ^= mask[0] & bits]. *)
Definition mask_byte0 (mask : list Z) (pkt : list Z) (bits_mask : Z) : option (list Z) :=
  b ← load pkt 0; store pkt 0 (Z.lxor b (Z.land (at_ mask 0) bits_mask)).

Definition quic_hp_apply (mask pkt : list Z) (pn_off pn_len bits_mask : Z) : option (list Z) :=
  pkt' ← mask_byte0 mask pkt bits_mask; quic_hp_protect_pn pkt' pn_off pn_len mask.

Definition quic_hp_sample_offset (pn_offset : Z) : Z := pn_offset +w 4.
Definition quic_hp_sample_ok (packet_len sample_offset : Z) : bool := sample_offset +w 16 <=? packet_len.

(** The 16 octets at [off]. *)
Definition sample_at (pkt : list Z) (off : Z) : option (list Z) :=
  if off + 16 <=? zlen pkt then Some (slice pkt off 16) else None.

(** * protectcs.c *)

Definition form_mask (byte0 : Z) : Z := if Z.land byte0 0x80 =? 0 then QUIC_HP_SHORT_MASK else QUIC_HP_LONG_MASK.

(** The packet, and its length when it has been sealed. *)
Definition quic_protectcs_seal (suite : Z) (key iv hp_key : list Z) (pn : Z) (pkt : list Z) (pn_off pn_len payload_len : Z)
  : option (list Z * option Z) :=
  let hdr_len := pn_off +w pn_len in
  '(n, pkt) ← quic_aead_suite_seal suite key iv pn InPlace hdr_len InPlace payload_len pkt hdr_len;
  if n =? 0 then Some (pkt, None) else
  s ← sample_at pkt (pn_off +w 4);
  match quic_hp_suite_mask suite hp_key s with
  | None => Some (pkt, None)
  | Some mask => b ← load pkt 0;
                 pkt ← quic_hp_apply mask pkt pn_off pn_len (form_mask b);
                 Some (pkt, Some (hdr_len +w n))
  end.

Definition pcs_read_pn (pkt : list Z) (pn_off pn_len : Z) : option Z := get_be_loop (Z.to_nat pn_len) pkt pn_off 0.

(** The packet number length, 0 for an unknown suite, and the packet. *)
Definition pcs_remove_hp (suite : Z) (hp_key pkt : list Z) (pn_off : Z) : option (Z * list Z) :=
  s ← sample_at pkt (pn_off +w 4);
  match quic_hp_suite_mask suite hp_key s with
  | None => Some (0, pkt)
  | Some mask =>
      b ← load pkt 0;
      pkt ← mask_byte0 mask pkt (form_mask b);
      b ← load pkt 0;
      let pn_len := Z.land b 0x03 + 1 in
      pkt ← quic_hp_protect_pn pkt pn_off pn_len mask;
      Some (pn_len, pkt)
  end.

(** The packet, and where the payload is in it. *)
Definition quic_protectcs_open (suite : Z) (key iv hp_key pkt : list Z) (len pn_off : Z) : option (list Z * option (Z * Z)) :=
  '(pn_len, pkt) ← pcs_remove_hp suite hp_key pkt pn_off;
  if pn_len =? 0 then Some (pkt, None) else
  let hdr_len := pn_off +w pn_len in
  let ct_len := len -w hdr_len -w 16 in
  pn ← pcs_read_pn pkt pn_off pn_len;
  '(r, pkt) ← quic_aead_suite_open suite key iv pn pkt hdr_len ct_len;
  if r =? 0 then Some (pkt, None) else Some (pkt, Some (hdr_len, ct_len)).

(** * Lemmas *)

Lemma splice_tail (l bs : list Z) : zlen bs <= zlen l -> splice l 0 bs = bs ++ drop (length bs) l.
Proof. intros Hl. unfold splice. change (Z.to_nat 0) with 0%nat. by rewrite take_0, Nat.add_0_l. Qed.

Section Aead.
Context {K : Type} `{AeadLaws K}.

(** Seal after a header: the ciphertext and the tag, then what was there. *)
Lemma seal_at_spec k nonce aad pt len hdr tl :
  take (length hdr) (source_of aad (hdr ++ tl)) = hdr -> zlen hdr <= zlen (source_of aad (hdr ++ tl)) ->
  zlen (source_of aad (hdr ++ tl)) < 2 ^ 60 -> zlen tl < 2 ^ 60 -> zlen (source_of pt tl) < 2 ^ 60 ->
  0 <= len <= zlen (source_of pt tl) -> len + 16 <= zlen tl -> fits (zlen hdr) len ->
  Forall is_u8 hdr -> Forall is_u8 (take (Z.to_nat len) (source_of pt tl)) ->
  let c := cipher k nonce (take (Z.to_nat len) (source_of pt tl)) in
  seal_at k nonce aad (zlen hdr) pt len (hdr ++ tl) (zlen hdr) =
  Some (hdr ++ c ++ mac k nonce hdr c ++ drop (Z.to_nat (len + 16)) tl).
Proof.
  intros Hh Hhl Hao Hto Hpo Hl Ht Hf Hhu Hmu c. pose proof (zlen_nonneg hdr). unfold seal_at.
  assert (Hz : Z.to_nat (zlen hdr) = length hdr) by (unfold zlen; lia).
  destruct (Z.leb_spec (zlen hdr) (zlen (hdr ++ tl))) as [_|Hbad]; [|rewrite zlen_app in Hbad; pose proof (zlen_nonneg tl); lia].
  rewrite Hz, drop_app_length, take_app_length.
  assert (Hc : zlen c = len). { subst c. rewrite zlen_cipher. unfold zlen in *. rewrite length_take. lia. }
  rewrite aead_seal_spec; [|unfold aead_args; rewrite ?Hz, ?Hh; split_and!; try done; lia|done]. cbn [mbind option_bind].
  fold c. rewrite Hz, Hh.
  assert (Hm : zlen (mac k nonce hdr c) = 16).
  { apply zlen_mac; try done; [by apply cipher_u8|by rewrite Hc|lia|lia]. }
  rewrite splice_tail by lia. rewrite store_bytes_spec by (unfold zlen in *; rewrite ?length_app, ?length_drop; lia).
  f_equal. rewrite app_assoc.
  replace (zlen hdr + len) with (zlen (hdr ++ c)) by (rewrite zlen_app; lia). rewrite splice_app, <- !app_assoc by (unfold zlen in *; rewrite length_drop; lia).
  rewrite drop_drop. do 4 f_equal. unfold zlen in *. lia.
Qed.

(** Open in place: the payload is decrypted when the tag is that of the header and the ciphertext. *)
Lemma open_at_spec k nonce hdr ct tag post : zlen tag = 16 -> zlen (hdr ++ ct ++ tag ++ post) < 2 ^ 60 -> fits (zlen hdr) (zlen ct) ->
  Forall is_u8 hdr -> Forall is_u8 ct ->
  open_at k nonce (hdr ++ ct ++ tag ++ post) (zlen hdr) (zlen ct) =
  Some (if bool_decide (tag = mac k nonce hdr ct) then Some (hdr ++ cipher k nonce ct ++ tag ++ post) else None).
Proof.
  intros Ht Ho Hf Hhu Hcu. pose proof (zlen_nonneg hdr). pose proof (zlen_nonneg ct). pose proof (zlen_nonneg post). unfold open_at.
  assert (Hz : Z.to_nat (zlen hdr) = length hdr) by (unfold zlen; lia).
  assert (Hzc : Z.to_nat (zlen ct) = length ct) by (unfold zlen; lia).
  destruct (Z.leb_spec (zlen hdr + zlen ct + 16) (zlen (hdr ++ ct ++ tag ++ post))) as [_|Hbad]; [|rewrite !zlen_app in Hbad; lia].
  assert (Hs : slice (hdr ++ ct ++ tag ++ post) (zlen hdr + zlen ct) 16 = tag).
  { rewrite app_assoc, slice_app_r by (rewrite zlen_app; lia). rewrite zlen_app. replace (zlen hdr + zlen ct - (zlen hdr + zlen ct)) with 0 by lia.
    by apply slice_prefix. }
  rewrite Hs, Hz, drop_app_length, take_app_length. rewrite !zlen_app in Ho.
  rewrite aead_open_spec; [| |done|done].
  2:{ unfold aead_args, source_of. rewrite Hz, Hzc, !take_app_length, !zlen_app. split_and!; try done; lia. }
  cbn [mbind option_bind source_of]. rewrite Hz, Hzc, !take_app_length. f_equal.
  case_bool_decide; cbn [option_map]; [|done]. rewrite splice_tail by (rewrite zlen_cipher, zlen_app, ?zlen_app; lia).
  do 3 f_equal. pose proof (zlen_cipher k nonce ct) as Hc. unfold zlen in Hc.
  by rewrite drop_app_length' by lia.
Qed.
End Aead.

Lemma store_app_head (l : list Z) x y r : store (l ++ x :: r) (zlen l) y = Some (l ++ y :: r).
Proof.
  pose proof (zlen_nonneg l). pose proof (zlen_nonneg r). rewrite store_ok by (rewrite zlen_app, zlen_cons; lia). f_equal.
  unfold zlen. rewrite Nat2Z.id. rewrite insert_app_r_alt, Nat.sub_diag by lia. done.
Qed.

Lemma hp_pn_loop_spec pn : forall pre rest mask i, 0 <= i -> i + zlen pn <= zlen mask ->
  hp_pn_loop (length pn) (pre ++ pn ++ rest) (zlen pre) mask i = Some (pre ++ zip_xor pn (drop (Z.to_nat i) mask) ++ rest).
Proof.
  induction pn as [|b pn IH]; intros pre rest mask i Hi Hm; cbn [length hp_pn_loop zip_xor app]; [done|].
  rewrite zlen_cons in Hm. pose proof (zlen_nonneg pn). destruct (load_is_Some mask i) as [m Hml]; [lia|]. rewrite Hml. cbn [mbind option_bind].
  rewrite load_head by done. cbn [mbind option_bind]. rewrite store_app_head. cbn [mbind option_bind].
  replace (pre ++ Z.lxor b m :: pn ++ rest) with ((pre ++ [Z.lxor b m]) ++ pn ++ rest) by (by rewrite <- app_assoc).
  replace (zlen pre + 1) with (zlen (pre ++ [Z.lxor b m])) by (rewrite zlen_app; done). rewrite IH by lia.
  unfold load in Hml. destruct (Z.leb_spec 0 i); [|done]. rewrite (drop_S mask m (Z.to_nat i) Hml).
  replace (Z.to_nat (i + 1)) with (S (Z.to_nat i)) by lia. cbn [zip_xor app]. by rewrite <- app_assoc.
Qed.

Lemma protect_pn_spec pre pn rest mask : zlen pn < zlen mask ->
  quic_hp_protect_pn (pre ++ pn ++ rest) (zlen pre) (zlen pn) mask = Some (pre ++ zip_xor pn (drop 1 mask) ++ rest).
Proof.
  intros Hm. unfold quic_hp_protect_pn. replace (Z.to_nat (zlen pn)) with (length pn) by (unfold zlen; lia).
  by rewrite hp_pn_loop_spec by lia.
Qed.

Lemma mask_byte0_spec mask b rest bits : mask_byte0 mask (b :: rest) bits = Some (Z.lxor b (Z.land (at_ mask 0) bits) :: rest).
Proof.
  unfold mask_byte0. change (load (b :: rest) 0) with (Some b).
  cbn [mbind option_bind]. apply (store_app_head []).
Qed.

Lemma hp_apply_spec mask b mid pn rest bits : zlen pn < zlen mask ->
  quic_hp_apply mask (b :: mid ++ pn ++ rest) (1 + zlen mid) (zlen pn) bits =
  Some (Z.lxor b (Z.land (at_ mask 0) bits) :: mid ++ zip_xor pn (drop 1 mask) ++ rest).
Proof.
  intros Hm. unfold quic_hp_apply. rewrite mask_byte0_spec. cbn [mbind option_bind].
  rewrite app_comm_cons, <- (zlen_cons (Z.lxor b (Z.land (at_ mask 0) bits)) mid). by rewrite protect_pn_spec.
Qed.

(** A header with its protection; the same masking takes it off. *)
Definition hp_header (mask : list Z) (bits b : Z) (mid pn : list Z) : list Z :=
  Z.lxor b (Z.land (at_ mask 0) bits) :: mid ++ zip_xor pn (drop 1 mask).

Lemma zlen_hp_header mask bits b mid pn : zlen pn < zlen mask -> zlen (hp_header mask bits b mid pn) = 1 + zlen mid + zlen pn.
Proof.
  intros Hm. unfold hp_header. rewrite zlen_cons, zlen_app. unfold zlen in *. rewrite length_zip_xor; [lia|]. rewrite length_drop. lia.
Qed.

Lemma lxor_twice a b : Z.lxor (Z.lxor a b) b = a.
Proof. by rewrite Z.lxor_assoc, Z.lxor_nilpotent, Z.lxor_0_r. Qed.

Lemma land_masked b m bits c : Z.land bits c = 0 -> Z.land (Z.lxor b (Z.land m bits)) c = Z.land b c.
Proof.
  intros Hc. apply Z.bits_inj'. intros n Hn. rewrite !Z.land_spec, Z.lxor_spec, Z.land_spec.
  assert (Hb : Z.testbit bits n && Z.testbit c n = false) by (by rewrite <- Z.land_spec, Hc, Z.bits_0).
  destruct (Z.testbit c n); [|by rewrite !andb_false_r]. rewrite andb_true_r in Hb. by rewrite Hb, andb_false_r, xorb_false_r.
Qed.

Lemma form_mask_masked b m : form_mask (Z.lxor b (Z.land m (form_mask b))) = form_mask b.
Proof. unfold form_mask at 1. rewrite land_masked; [done|]. unfold form_mask. by destruct (_ =? 0). Qed.

Lemma get_be_value (pre bs post : list Z) : Forall is_u8 bs -> zlen bs <= 8 ->
  get_be_loop (length bs) (pre ++ bs ++ post) (zlen pre) 0 = Some (be_value bs).
Proof.
  intros Hu Hl. rewrite get_be_loop_spec; [done|done|lia|]. pose proof (Z.pow_le_mono_r 256 (zlen bs) 8 ltac:(lia) Hl). lia.
Qed.

(** A sample behind the header does not depend on it. *)
Lemma sample_at_body (hdr body : list Z) d : 0 <= d -> sample_at (hdr ++ body) (zlen hdr + d) = sample_at body d.
Proof.
  intros Hd. unfold sample_at. rewrite zlen_app, slice_app_r by lia. replace (zlen hdr + d - zlen hdr) with d by lia.
  destruct (Z.leb_spec (d + 16) (zlen body)), (Z.leb_spec (zlen hdr + d + 16) (zlen hdr + zlen body)); lia || done.
Qed.

Definition suite_known (suite : Z) : Prop := suite = QUIC_TLS_AES_128_GCM_SHA256 \/ suite = QUIC_TLS_CHACHA20_POLY1305_SHA256.
Definition suite_fits (suite aad_len len : Z) : Prop :=
  suite = QUIC_TLS_CHACHA20_POLY1305_SHA256 -> chapoly_fits aad_len len.

Lemma zlen_hp_mask hp sample : zlen (quic_hp_mask hp sample) = 5.
Proof. pose proof (encrypt_block hp sample). unfold quic_hp_mask, zlen in *. rewrite length_take. lia. Qed.

Lemma suite_mask suite hp_key sample : suite_known suite -> exists mask, quic_hp_suite_mask suite hp_key sample = Some mask /\ zlen mask = 5.
Proof.
  intros [-> | ->]; (eexists; split; [reflexivity|]); [apply zlen_hp_mask|].
  pose proof (length_block hp_key (rd32le sample 0) (drop 4 sample)). unfold quic_hp_chacha_mask, zlen in *. rewrite length_take. lia.
Qed.

Section SealOpen.
Context {K : Type} `{AeadLaws K}.

(** What is sealed in place opens in place. *)
Lemma seal_open_at k nonce hdr payload room post : zlen room = 16 -> zlen (hdr ++ payload ++ room ++ post) < 2 ^ 60 ->
  fits (zlen hdr) (zlen payload) -> Forall is_u8 hdr -> Forall is_u8 payload ->
  exists ct tag, zlen ct = zlen payload /\ zlen tag = 16 /\
    seal_at k nonce InPlace (zlen hdr) InPlace (zlen payload) (hdr ++ payload ++ room ++ post) (zlen hdr) = Some (hdr ++ ct ++ tag ++ post) /\
    open_at k nonce (hdr ++ ct ++ tag ++ post) (zlen hdr) (zlen payload) = Some (Some (hdr ++ payload ++ tag ++ post)).
Proof.
  intros Hr Ho Hf Hhu Hpu. pose proof (zlen_nonneg hdr). pose proof (zlen_nonneg payload). pose proof (zlen_nonneg post).
  assert (Hz : Z.to_nat (zlen payload) = length payload) by (unfold zlen; lia).
  set (c := cipher k nonce payload). assert (Hc : zlen c = zlen payload) by apply zlen_cipher.
  rewrite !zlen_app in Ho.
  assert (Hm : zlen (mac k nonce hdr c) = 16) by (apply zlen_mac; try done; [by apply cipher_u8|by rewrite Hc|lia|lia]).
  exists c, (mac k nonce hdr c). split_and!; [done|done| |].
  - rewrite seal_at_spec; cbn [source_of]; rewrite ?Hz, ?take_app_length, ?zlen_app; try done; try lia.
    fold c. do 4 f_equal. rewrite app_assoc, drop_app_length'; [done|]. rewrite length_app. unfold zlen in *. lia.
  - rewrite <- Hc. rewrite open_at_spec; try done; [|rewrite !zlen_app; lia|by rewrite Hc|by apply cipher_u8].
    rewrite bool_decide_eq_true_2 by done. subst c. by rewrite cipher_twice.
Qed.
End SealOpen.

Lemma suite_seal_open suite key iv pn hdr payload room post : suite_known suite -> zlen room = 16 ->
  zlen (hdr ++ payload ++ room ++ post) < 2 ^ 60 -> suite_fits suite (zlen hdr) (zlen payload) -> Forall is_u8 hdr -> Forall is_u8 payload ->
  exists ct tag, zlen ct = zlen payload /\ zlen tag = 16 /\
    quic_aead_suite_seal suite key iv pn InPlace (zlen hdr) InPlace (zlen payload) (hdr ++ payload ++ room ++ post) (zlen hdr) =
      Some (zlen payload + 16, hdr ++ ct ++ tag ++ post) /\
    quic_aead_suite_open suite key iv pn (hdr ++ ct ++ tag ++ post) (zlen hdr) (zlen payload) =
      Some (zlen payload, hdr ++ payload ++ tag ++ post).
Proof.
  change (2 ^ 60) with 1152921504606846976. intros Hs Hr Ho Hf Hhu Hpu.
  pose proof (zlen_nonneg payload). pose proof (zlen_nonneg hdr). pose proof (zlen_nonneg post).
  assert (Hw : zlen payload < 2 ^ 60) by (rewrite !zlen_app in Ho; lia). change (2 ^ 60) with 1152921504606846976 in Hw.
  destruct Hs as [-> | ->].
  - destruct (seal_open_at (K := quic_aes128) (quic_aes128_init key) (suite_nonce iv pn) hdr payload room post)
      as (ct & tag & Hc & Ht & Es & Eo); [done..|].
    exists ct, tag. split_and!; try done.
    + unfold quic_aead_suite_seal, gcm_seal. cbv zeta. rewrite Z.eqb_refl, Es. cbn [mbind option_bind]. by unwrap.
    + unfold quic_aead_suite_open, gcm_open. cbv zeta. by rewrite Z.eqb_refl, Eo.
  - destruct (seal_open_at (K := chapoly_key) (ChapolyKey key) (suite_nonce iv pn) hdr payload room post)
      as (ct & tag & Hc & Ht & Es & Eo); [done|done|by apply Hf|done|done|].
    exists ct, tag. split_and!; try done.
    + unfold quic_aead_suite_seal, cha_seal. cbv zeta. change (_ =? QUIC_TLS_AES_128_GCM_SHA256) with false. rewrite Z.eqb_refl, Es.
      cbn [mbind option_bind]. unfold QUIC_CHAPOLY_TAG. by unwrap.
    + unfold quic_aead_suite_open, cha_open. cbv zeta. change (_ =? QUIC_TLS_AES_128_GCM_SHA256) with false. by rewrite Z.eqb_refl, Eo.
Qed.

(** Header protection comes off the way it went on. *)
Lemma remove_hp_spec suite hp_key b mid pn body s mask : sample_at body (4 - zlen pn) = Some s ->
  quic_hp_suite_mask suite hp_key s = Some mask -> zlen mask = 5 -> zlen pn = Z.land b 0x03 + 1 -> zlen pn <= 4 ->
  zlen mid + zlen body < 2 ^ 60 ->
  pcs_remove_hp suite hp_key (hp_header mask (form_mask b) b mid pn ++ body) (1 + zlen mid) = Some (zlen pn, (b :: mid ++ pn) ++ body).
Proof.
  change (2 ^ 60) with 1152921504606846976. intros Hs Hm Hml Hpn H4 Ho. pose proof (zlen_nonneg mid). pose proof (zlen_nonneg body). pose proof (zlen_nonneg pn).
  unfold pcs_remove_hp. pose proof (zlen_hp_header mask (form_mask b) b mid pn ltac:(lia)) as Hh. unwrap.
  replace (1 + zlen mid + 4) with (zlen (hp_header mask (form_mask b) b mid pn) + (4 - zlen pn)) by lia.
  rewrite sample_at_body, Hs by lia. cbn [mbind option_bind]. rewrite Hm. unfold hp_header. cbn [app].
  set (b' := Z.lxor b _). change (load (b' :: ?r) 0) with (Some b'). cbn [mbind option_bind].
  subst b'. rewrite mask_byte0_spec, form_mask_masked, lxor_twice. cbn [mbind option_bind].
  change (load (b :: ?r) 0) with (Some b). cbn [mbind option_bind]. rewrite <- Hpn, <- app_assoc, app_comm_cons, <- (zlen_cons b mid).
  assert (Hd : length (drop 1 mask) = 4%nat) by (rewrite length_drop; unfold zlen in Hml; lia).
  assert (Hz : zlen (zip_xor pn (drop 1 mask)) = zlen pn) by (unfold zlen in *; rewrite length_zip_xor; lia).
  rewrite <- Hz at 1. rewrite protect_pn_spec by lia. cbn [mbind option_bind].
  rewrite zip_xor_twice by (unfold zlen in *; lia). cbn [app]. by rewrite <- app_assoc.
Qed.

(** C19: For both cipher suites, protecting a packet in place and opening the result gives the
    header and the payload back: the header ends with the packet number, whose length is in the first
    octet, and the packet number is the one the nonce was made from.  The payload has at least one octet,
    the packet is long enough for the header-protection sample, and with ChaCha20-Poly1305
    the padded header and payload fit the array the tag is computed in. *)
Theorem protectcs_roundtrip (suite : Z) (key iv hp_key : list Z) (b : Z) (mid pn payload room post : list Z)
  (Hs : suite_known suite) (Hpn : zlen pn = Z.land b 0x03 + 1) (Hr : zlen room = 16)
  (Hlen : zlen ((b :: mid ++ pn) ++ payload ++ room ++ post) < 2 ^ 60) (Hfit : suite_fits suite (1 + zlen mid + zlen pn) (zlen payload))
  (Hu : Forall is_u8 ((b :: mid ++ pn) ++ payload)) (Hp : 1 <= zlen payload) (Hsample : 4 <= zlen pn + zlen payload) :
  let pn_off := 1 + zlen mid in let hdr := b :: mid ++ pn in let total := zlen hdr + zlen payload + 16 in
  exists prot tag, zlen prot = total /\ zlen tag = 16 /\
    quic_protectcs_seal suite key iv hp_key (be_value pn) (hdr ++ payload ++ room ++ post) pn_off (zlen pn) (zlen payload) =
      Some (prot ++ post, Some total) /\
    quic_protectcs_open suite key iv hp_key (prot ++ post) total pn_off =
      Some (hdr ++ payload ++ tag ++ post, Some (zlen hdr, zlen payload)).
Proof.
  change (2 ^ 60) with 1152921504606846976 in *. intros pn_off hdr total. pose proof (zlen_nonneg mid). pose proof (zlen_nonneg post).
  assert (Hn4 : 1 <= zlen pn <= 4).
  { rewrite Hpn. pose proof (Z.land_ones b 2 ltac:(lia)) as E. change (Z.ones 2) with 0x03 in E. rewrite E.
    pose proof (Z.mod_pos_bound b (2 ^ 2) ltac:(lia)). lia. }
  assert (Hhl : zlen hdr = 1 + zlen mid + zlen pn) by (subst hdr; rewrite zlen_cons, zlen_app; lia).
  apply Forall_app in Hu as [Hhu Hpu]. rewrite <- Hhl in Hfit. fold hdr in Hlen.
  destruct (suite_seal_open suite key iv (be_value pn) hdr payload room post Hs Hr Hlen Hfit Hhu Hpu) as (ct & tag & Hc & Ht & Es & Eo).
  rewrite !zlen_app in Hlen.
  assert (Hsam : exists s, sample_at (ct ++ tag ++ post) (4 - zlen pn) = Some s).
  { unfold sample_at. rewrite !zlen_app. zdecide. by eexists. }
  destruct Hsam as [s Hsam]. destruct (suite_mask suite hp_key s Hs) as (mask & Hm & Hml).
  assert (Hprot : zlen (hp_header mask (form_mask b) b mid pn) = zlen hdr) by (rewrite zlen_hp_header by lia; lia).
  exists (hp_header mask (form_mask b) b mid pn ++ ct ++ tag), tag. split_and!; [|done| |].
  - rewrite !zlen_app. lia.
  - unfold quic_protectcs_seal. unwrap. subst pn_off. rewrite <- Hhl, Es. cbn [mbind option_bind].
    destruct (Z.eqb_spec (zlen payload + 16) 0); [lia|].
    replace (1 + zlen mid + 4) with (zlen hdr + (4 - zlen pn)) by lia. rewrite sample_at_body, Hsam by lia.
    cbn [mbind option_bind]. rewrite Hm. subst hdr. cbn [app]. change (load (b :: ?r) 0) with (Some b). cbn [mbind option_bind].
    rewrite <- (app_assoc mid), hp_apply_spec by lia. cbn [mbind option_bind]. unfold hp_header. cbn [app].
    rewrite <- !app_assoc. unwrap. by rewrite Z.add_assoc.
  - unfold quic_protectcs_open. rewrite <- !app_assoc. rewrite (remove_hp_spec suite hp_key b mid pn (ct ++ tag ++ post) s) by
      (done || lia || (rewrite !zlen_app; lia)).
    cbn [mbind option_bind]. destruct (Z.eqb_spec (zlen pn) 0); [lia|]. unwrap. unfold pcs_read_pn. subst pn_off.
    rewrite (app_comm_cons mid), <- app_assoc, <- (zlen_cons b mid).
    replace (Z.to_nat (zlen pn)) with (length pn) by (unfold zlen; lia).
    rewrite get_be_value; [|subst hdr; rewrite app_comm_cons in Hhu; by apply Forall_app in Hhu as [_ ?]|lia]. cbn [mbind option_bind].
    rewrite app_assoc. change ((b :: mid) ++ pn) with hdr. rewrite zlen_cons, <- Hhl.
    replace (total - zlen hdr - 16) with (zlen payload) by (subst total; lia). unwrap. rewrite Eo. cbn [mbind option_bind].
    destruct (Z.eqb_spec (zlen payload) 0); [lia|done].
Qed.

(** Witness of C19: a short header with a two-octet packet number, ChaCha20-Poly1305. *)
Lemma protectcs_roundtrip_witness :
  let key := repeat 7 32 in let iv := repeat 9 12 in let hp_key := repeat 5 32 in
  exists prot tag, zlen prot = 27 /\ zlen tag = 16 /\
    quic_protectcs_seal 0x1303 key iv hp_key 258 ([0x41; 0xaa; 0xbb; 1; 2] ++ [1; 2; 3; 4; 5; 6] ++ repeat 0 16 ++ []) 3 2 6 =
      Some (prot ++ [], Some 27) /\
    quic_protectcs_open 0x1303 key iv hp_key (prot ++ []) 27 3 =
      Some ([0x41; 0xaa; 0xbb; 1; 2] ++ [1; 2; 3; 4; 5; 6] ++ tag ++ [], Some (5, 6)).
Proof.
  intros key iv hp_key.
  apply (protectcs_roundtrip 0x1303 key iv hp_key 0x41 [0xaa; 0xbb] [1; 2] [1; 2; 3; 4; 5; 6] (repeat 0 16) []);
    [by right|done|done|closed_arith|intros _; closed_arith|by apply u8_by_eval|closed_arith|closed_arith].
Defined.
