(* ===== verification/Protect.v ===== *)
(** Packet protection and whole packets.

    [tls/handshake/core/tls/initial.c] (Initial keys),
    [transport/packet/protect/protect/protect.c] (AES-128-GCM protection of a
    packet), [transport/packet/frame/pipeline/txpacket.c] and [rxpacket.c],
    [transport/packet/build/vpn/vpn_open.c] (long-header packets),
    [transport/packet/build/hspkt/] (Handshake and 1-RTT packets),
    [transport/packet/build/initpkt/] (Initial packets) and
    [transport/packet/build/pktbuild/].

    A packet is an array of octets; the outer [option] is an access outside an
    array, results that the code reports (a length of 0, a return value of 0) are
    values. *)
From S2P Require Import Prelude.
From S2P Require Import Buffers.
From S2P Require Import CStrings.
From S2P Require Import Varint.
From S2P Require Import Codec.
From S2P Require Import Frames.
From S2P Require Import PacketNumber.
From S2P Require Import Headers.
From S2P Require Import CryptoStream.
From S2P Require Import Sha2.
From S2P Require Import Hkdf.
From S2P Require Import Aes.
From S2P Require Import CtrMode.
From S2P Require Import Gcm.
From S2P Require Import Poly1305.
From S2P Require Import Suite.

(** * initial.c, initkeys.c *)

Record quic_initial_keys := mk_ikeys { ik_key : list Z; ik_iv : list Z; ik_hp : list Z }.

Definition QUIC_INITIAL_KEY : Z := 16.
Definition QUIC_INITIAL_IV : Z := 12.
Definition QUIC_INITIAL_HP : Z := 16.

Definition INITIAL_SALT : list Z :=
  [56; 118; 44; 247; 245; 89; 52; 179; 77; 23; 154; 230; 164; 200; 12; 173; 204; 187; 127; 10].

(** "client in", "server in", "quic key", "quic iv", "quic hp". *)
Definition client_in : list Z := [99; 108; 105; 101; 110; 116; 32; 105; 110].
Definition server_in : list Z := [115; 101; 114; 118; 101; 114; 32; 105; 110].
Definition quic_key_label : list Z := [113; 117; 105; 99; 32; 107; 101; 121].
Definition quic_iv_label : list Z := [113; 117; 105; 99; 32; 105; 118].
Definition quic_hp_label : list Z := [113; 117; 105; 99; 32; 104; 112].

(** The array [out] after [quic_hkdf_expand_label], whose result the code ignores. *)
Definition derive_field (secret label : list Z) (label_len : Z) (out : list Z) (len : Z) : option (list Z) :=
  '(_, out') ← quic_hkdf_expand_label secret label label_len [] 0 out len; Some out'.

Definition derive_keys (secret : list Z) (out : quic_initial_keys) : option quic_initial_keys :=
  k ← derive_field secret quic_key_label 8 (ik_key out) QUIC_INITIAL_KEY;
  v ← derive_field secret quic_iv_label 7 (ik_iv out) QUIC_INITIAL_IV;
  h ← derive_field secret quic_hp_label 7 (ik_hp out) QUIC_INITIAL_HP;
  Some (mk_ikeys k v h).

(** The struct before it is filled. *)
Definition keys_blank : quic_initial_keys := mk_ikeys (local 16) (local 12) (local 16).

Definition quic_initial_derive (dcid : list Z) (dcid_len : Z) (is_server : bool) (out : quic_initial_keys) : option quic_initial_keys :=
  let label := if is_server then server_in else client_in in
  initial_secret ← quic_hkdf_extract INITIAL_SALT 20 dcid dcid_len;
  side_secret ← derive_field initial_secret label 9 (local QUIC_HKDF_PRK) QUIC_HKDF_PRK;
  derive_keys side_secret out.

(** Client and server keys. *)
Definition quic_initpkt_derive (dcid : list Z) (dcid_len : Z) : option (quic_initial_keys * quic_initial_keys) :=
  c ← quic_initial_derive dcid dcid_len false keys_blank;
  s ← quic_initial_derive dcid dcid_len true keys_blank;
  Some (c, s).

(** * protect.c *)

Definition quic_protect_nonce (iv : list Z) (pn : Z) : list Z :=
  List.map (fun i => if (i <? 4)%nat then at_ iv (Z.of_nat i)
    else Z.lxor (at_ iv (Z.of_nat i)) (u8 (Z.shiftr pn (8 * (12 - 1 - Z.of_nat i))))) (seq 0 12).

(** The total length, 0 when it does not fit, and the output array. *)
Definition seal_into (keys : quic_initial_keys) (hdr : list Z) (hdr_len pn : Z) (payload : list Z) (pl : Z) (out : list Z) (cap : Z)
  : option (Z * list Z) :=
  let need := hdr_len +w pl +w QUIC_GCM_TAG in
  if cap <? need then Some (0, out)
  else out1 ← copy_loop (Z.to_nat hdr_len) out 0 hdr 0;
       out2 ← seal_at (quic_aes128_init (ik_key keys)) (quic_protect_nonce (ik_iv keys) pn) (Apart hdr) hdr_len (Apart payload) pl out1 hdr_len;
       Some (need, out2).

Definition protect_header (hp : quic_aes128) (out : list Z) (pn_off pn_len : Z) : option (list Z) :=
  s ← sample_at out (pn_off +w 4);
  quic_hp_apply (quic_hp_mask hp s) out pn_off pn_len QUIC_HP_LONG_MASK.

Definition quic_protect_seal (keys : quic_initial_keys) (hp : quic_aes128) (hdr : list Z) (hdr_len pn_off pn_len pn : Z)
  (payload : list Z) (payload_len : Z) (out : list Z) (cap : Z) : option (Z * list Z) :=
  '(total, out) ← seal_into keys hdr hdr_len pn payload payload_len out cap;
  if total =? 0 then Some (0, out)
  else out ← protect_header hp out pn_off pn_len; Some (total, out).

(** The plaintext length, 0 on a mismatch, and the packet. *)
Definition quic_protect_open (keys : quic_initial_keys) (hp : quic_aes128) (pkt : list Z) (pkt_len hdr_len pn_off pn_len pn : Z)
  : option (Z * list Z) :=
  let ct_len := pkt_len -w hdr_len -w QUIC_GCM_TAG in
  pkt ← protect_header hp pkt pn_off pn_len;
  r ← open_at (quic_aes128_init (ik_key keys)) (quic_protect_nonce (ik_iv keys) pn) pkt hdr_len ct_len;
  Some (match r with Some pkt' => (ct_len, pkt') | None => (0, pkt) end).

(** * txpacket.c, hspkt_build.c *)

Definition QUIC_TX_PN_LEN : Z := 4.
Definition HDR_CAP : Z := 64 + 2 * QUIC_MAX_CID_LEN.

Definition quic_tx_packet (keys : quic_initial_keys) (hp : quic_aes128) (byte0 : Z) (dcid : list Z) (dcid_len : Z) (scid : list Z) (scid_len : Z)
  (is_initial : Z) (token : list Z) (token_len pn : Z) (frames : list Z) (frames_len : Z) (out : list Z) (cap : Z) : option (Z * list Z) :=
  '(w, hdr) ← quic_lhdr_build byte0 1 dcid dcid_len scid scid_len is_initial token token_len frames_len pn QUIC_TX_PN_LEN (local HDR_CAP) HDR_CAP;
  match w with
  | None => Some (0, out)
  | Some (hdr_len, _) =>
      if hdr_len =? 0 then Some (0, out)
      else quic_protect_seal keys hp hdr hdr_len (hdr_len -w QUIC_TX_PN_LEN) QUIC_TX_PN_LEN pn frames frames_len out cap
  end.

Definition QUIC_HSPKT_BYTE0 : Z := 0xe3.

(** The output array, and its length when the packet fits. *)
Definition quic_hspkt_build (hs_keys : quic_initial_keys) (hp : quic_aes128) (dcid : list Z) (dcid_len : Z) (scid : list Z) (scid_len pn : Z)
  (payload : list Z) (payload_len : Z) (out : list Z) (cap : Z) : option (list Z * option Z) :=
  '(total, out) ← quic_tx_packet hs_keys hp QUIC_HSPKT_BYTE0 dcid dcid_len scid scid_len 0 [] 0 pn payload payload_len out cap;
  Some (out, if total =? 0 then None else Some total).

(** * vpn_open.c, rxpacket.c, hspkt_open.c *)

Definition pn_len_of (byte0 : Z) : Z := Z.land byte0 0x03 + 1.

Definition read_pn (pkt : list Z) (pn_off pn_len : Z) : option Z := get_be_loop (Z.to_nat pn_len) pkt pn_off 0.

Definition region_ok (len pn_off length : Z) : bool :=
  if negb (quic_hp_sample_ok len (quic_hp_sample_offset pn_off)) then false
  else (4 + QUIC_GCM_TAG <=? length) && (length <=? len -w pn_off).

(** The packet number and its length, and the packet. *)
Definition remove_hp (hp : quic_aes128) (pkt : list Z) (pn_off : Z) : option (Z * Z * list Z) :=
  s ← sample_at pkt (quic_hp_sample_offset pn_off);
  let mask := quic_hp_mask hp s in
  pkt ← mask_byte0 mask pkt QUIC_HP_LONG_MASK;
  b ← load pkt 0;
  let pn_len := pn_len_of b in
  pkt ← quic_hp_protect_pn pkt pn_off pn_len mask;
  pn ← read_pn pkt pn_off pn_len;
  Some (pn, pn_len, pkt).

Definition vpn_aead_open (keys : quic_initial_keys) (pkt : list Z) (hdr_len ct_len pn : Z) : option (option (list Z)) :=
  open_at (quic_aes128_init (ik_key keys)) (quic_protect_nonce (ik_iv keys) pn) pkt hdr_len ct_len.

(** The packet, and where the payload is in it. *)
Definition quic_vpn_open (keys : quic_initial_keys) (hp : quic_aes128) (pkt : list Z) (len pn_off length : Z)
  : option (list Z * option (Z * Z)) :=
  if negb (region_ok len pn_off length) then Some (pkt, None)
  else '(pn, pn_len, pkt) ← remove_hp hp pkt pn_off;
       let hdr_len := pn_off +w pn_len in
       let ct_len := length -w pn_len -w QUIC_GCM_TAG in
       r ← vpn_aead_open keys pkt hdr_len ct_len pn;
       Some (match r with None => (pkt, None) | Some pkt' => (pkt', Some (hdr_len, ct_len)) end).

(** [h0] is what the uninitialised local header holds. *)
Definition quic_rx_packet (h0 : quic_header) (keys : quic_initial_keys) (hp : quic_aes128) (pkt : list Z) (pkt_len is_initial : Z)
  : option (list Z * option (Z * Z)) :=
  v ← quic_lhdr_parse h0 is_initial pkt pkt_len;
  match v with
  | None => Some (pkt, None)
  | Some v => quic_vpn_open keys hp pkt pkt_len (lv_pn_off v) (lv_length v)
  end.

Definition quic_hspkt_open (h0 : quic_header) (hs_keys : quic_initial_keys) (hp : quic_aes128) (pkt : list Z) (len : Z)
  : option (list Z * option (Z * Z)) :=
  v ← quic_lhdr_parse h0 0 pkt len;
  match v with
  | None => Some (pkt, None)
  | Some v => quic_vpn_open hs_keys hp pkt len (lv_pn_off v) (lv_length v)
  end.

(** * unprotect.c, onertt.c *)

Definition aead_open (keys : quic_initial_keys) (pkt : list Z) (hdr_len ct_len pn : Z) : option (option (list Z)) :=
  open_at (quic_aes128_init (ik_key keys)) (quic_protect_nonce (ik_iv keys) pn) pkt hdr_len ct_len.

Definition open_pkt (keys : quic_initial_keys) (pkt : list Z) (len pn_off : Z) (mask : list Z) (largest_pn : Z)
  : option (list Z * option (Z * Z)) :=
  b ← load pkt 0;
  let pn_len := Z.land b 0x03 + 1 in
  let hdr_len := pn_off +w pn_len in
  pkt ← quic_hp_protect_pn pkt pn_off pn_len mask;
  if len <=? hdr_len +w QUIC_GCM_TAG then Some (pkt, None)
  else let ct_len := len -w hdr_len -w QUIC_GCM_TAG in
       pn ← quic_pnum_decode (drop (Z.to_nat pn_off) pkt) pn_len largest_pn;
       r ← aead_open keys pkt hdr_len ct_len pn;
       Some (match r with None => (pkt, None) | Some pkt' => (pkt', Some (hdr_len, ct_len)) end).

Definition quic_hspkt_unprotect (keys : quic_initial_keys) (hp : quic_aes128) (pkt : list Z) (len hdr_len pn_off bits_mask largest_pn : Z)
  : option (list Z * option (Z * Z)) :=
  if len <=? hdr_len +w QUIC_GCM_TAG then Some (pkt, None)
  else s ← sample_at pkt (pn_off +w 4);
       let mask := quic_hp_mask hp s in
       pkt ← mask_byte0 mask pkt bits_mask;
       open_pkt keys pkt len pn_off mask largest_pn.

Definition QUIC_ONERTT_BYTE0 : Z := 0x43.

Definition build_short_header (hdr dcid : list Z) (dcid_len pn : Z) : option (Z * list Z) :=
  h ← store hdr 0 QUIC_ONERTT_BYTE0;
  h ← copy_loop (Z.to_nat dcid_len) h 1 dcid 0;
  h ← store_bytes h (1 + dcid_len) (List.map (fun i => u8 (Z.shiftr pn (8 * (3 - Z.of_nat i)))) (seq 0 4));
  Some (5 + dcid_len, h).

(** The output array, and the length when the packet fits; the header is written
    before the capacity is looked at. *)
Definition quic_hspkt_onertt_build (keys : quic_initial_keys) (hp : quic_aes128) (dcid : list Z) (dcid_len pn : Z)
  (payload : list Z) (payload_len : Z) (out : list Z) (cap : Z) : option (list Z * option Z) :=
  '(hdr_len, out) ← build_short_header out dcid dcid_len pn;
  let pn_off := 1 + dcid_len in
  let need := hdr_len +w payload_len +w QUIC_GCM_TAG in
  if cap <? need then Some (out, None)
  else out ← seal_at (quic_aes128_init (ik_key keys)) (quic_protect_nonce (ik_iv keys) pn) InPlace hdr_len (Apart payload) payload_len out hdr_len;
       s ← sample_at out (pn_off +w 4);
       out ← quic_hp_apply (quic_hp_mask hp s) out pn_off 4 QUIC_HP_SHORT_MASK;
       Some (out, Some need).

Definition quic_hspkt_onertt_open (keys : quic_initial_keys) (hp : quic_aes128) (pkt : list Z) (len dcid_len largest_pn : Z)
  : option (list Z * option (Z * Z)) :=
  quic_hspkt_unprotect keys hp pkt len (5 + dcid_len) (1 + dcid_len) QUIC_HP_SHORT_MASK largest_pn.

(** * initpkt.c, initopen.c *)

Definition pad_target (dcid_len scid_len : Z) : Z :=
  let overhead := 30 + dcid_len + scid_len in if overhead <? 1200 then 1200 - overhead else 0.

Definition initpkt_min_usz (a b : Z) : Z := if a <? b then a else b.

(** [for (; n < fill; n++) buf[n] = 0x00;] *)
Fixpoint fill_zero (k : nat) (buf : list Z) (n fill : Z) : option (list Z * Z) :=
  if n <? fill
  then match k with
       | O => None
       | S k' => buf' ← store buf n 0x00; fill_zero k' buf' (n + 1) fill
       end
  else Some (buf, n).

(** The buffer, and [*plen] on success. *)
Definition build_payload (crypto_payload : list Z) (payload_len target : Z) (buf : list Z) (cap : Z) : option (list Z * option Z) :=
  let fill := initpkt_min_usz target cap in
  '(ok, n, buf) ← quic_crypto_stream_emit crypto_payload payload_len 0 payload_len buf cap;
  if negb ok then Some (buf, None)
  else '(buf, n) ← fill_zero (Z.to_nat fill) buf n fill; Some (buf, Some n).

Definition quic_initpkt_build (dcid : list Z) (dcid_len : Z) (scid : list Z) (scid_len : Z) (crypto_payload : list Z) (payload_len pn : Z)
  (out : list Z) (cap : Z) : option (list Z * option Z) :=
  '(ck, _) ← quic_initpkt_derive dcid dcid_len;
  let hp := quic_aes128_init (ik_hp ck) in
  '(payload, plen) ← build_payload crypto_payload payload_len (pad_target dcid_len scid_len) (local 1200) 1200;
  match plen with
  | None => Some (out, None)
  | Some plen =>
      '(total, out) ← quic_tx_packet ck hp 0xc3 dcid dcid_len scid scid_len 1 [] 0 pn payload plen out cap;
      Some (out, if total =? 0 then None else Some total)
  end.

Definition quic_initpkt_open (h0 : quic_header) (dcid : list Z) (dcid_len : Z) (pkt : list Z) (len : Z) : option (list Z * option (Z * Z)) :=
  '(ck, _) ← quic_initpkt_derive dcid dcid_len;
  quic_rx_packet h0 ck (quic_aes128_init (ik_hp ck)) pkt len 1.

(** * pktbuild: eliciting.c, framepack.c, initpad.c *)

Definition eliciting_non_kinds : list Z := [0x00; 0x02; 0x03; 0x1c; 0x1d].

Definition is_non_eliciting (t : Z) : bool := existsb (fun k => k =? t) eliciting_non_kinds.

(** [n] types of the array. *)
Fixpoint is_eliciting_loop (n : nat) (frame_types : list Z) (i : Z) : option bool :=
  match n with
  | O => Some false
  | S n' => t ← load frame_types i; if negb (is_non_eliciting t) then Some true else is_eliciting_loop n' frame_types (i + 1)
  end.
Definition quic_pktbuild_is_eliciting (frame_types : list Z) (n : Z) : option bool := is_eliciting_loop (Z.to_nat n) frame_types 0.

(** The frames with their lengths; the cursor is local. *)
Definition quic_pktbuild_framepack (frames : list (list Z * Z)) (payload : list Z) (cap : Z) : option (list Z * option Z) :=
  match each (fun p : list Z * Z => quic_put_bytes (fst p) (snd p)) frames cap (payload, 0) with
  | None => None
  | Some (ok, (payload, off)) => Some (payload, if ok : bool then Some off else None)
  end.

Definition pad_fits (current_len need cap : Z) : bool := negb (need =? 0) && (current_len +w need <=? cap).

Definition quic_pktbuild_init_pad (datagram : list Z) (current_len cap : Z) : option (Z * list Z) :=
  let need := quic_pad_needed current_len in
  if negb (pad_fits current_len need cap) then Some (current_len, datagram)
  else d ← store_bytes datagram current_len (repeat 0 (Z.to_nat need)); Some (current_len +w need, d).

(** * Initial keys *)

Lemma length_hkdf_blocks n prk info : forall prev i, length (hkdf_blocks n prk info prev i) = (32 * n)%nat.
Proof.
  induction n as [|n IH]; intros prev i; [done|]. cbn [hkdf_blocks]. cbv zeta. rewrite length_app, IH.
  pose proof (zlen_hmac_spec prk (prev ++ info ++ [i])) as H. unfold zlen in H. lia.
Qed.

Lemma zlen_hkdf_okm prk info len : 0 <= len <= 8160 -> zlen (hkdf_okm prk info len) = len.
Proof. intros Hl. unfold hkdf_okm, zlen. rewrite length_take, length_hkdf_blocks. lia. Qed.

(** One field of RFC 9001 section 5.1: HKDF-Expand-Label with an empty context. *)
Definition expand_field (secret label : list Z) (len : Z) : list Z := hkdf_okm secret (hkdf_label label [] len) len.

Lemma derive_field_spec secret label n out len : n = zlen label -> zlen secret = 32 -> n <= 64 -> 0 <= len <= 8160 -> zlen out = len ->
  derive_field secret label n out len = Some (expand_field secret label len).
Proof.
  intros -> Hs Hl Hn Ho. unfold derive_field, expand_field. change 0 with (zlen (@nil Z)). rewrite expand_label_ok by (try done; try lia; rewrite Ho; unfold max_object; lia).
  cbn [mbind option_bind]. f_equal. rewrite splice_tail by (rewrite zlen_hkdf_okm by lia; lia).
  rewrite drop_ge by (pose proof (zlen_hkdf_okm secret (hkdf_label label [] len) len Hn) as Hz; unfold zlen in *; lia). by rewrite app_nil_r.
Qed.

(** RFC 9001 section 5.2. *)
Definition initial_keys_spec (dcid : list Z) (is_server : bool) : quic_initial_keys :=
  let side := expand_field (hmac_spec INITIAL_SALT dcid) (if is_server then server_in else client_in) 32 in
  mk_ikeys (expand_field side quic_key_label 16) (expand_field side quic_iv_label 12) (expand_field side quic_hp_label 16).

Definition keys_wf (k : quic_initial_keys) : Prop := zlen (ik_key k) = 16 /\ zlen (ik_iv k) = 12 /\ zlen (ik_hp k) = 16.

Lemma derive_keys_spec side out : zlen side = 32 -> keys_wf out ->
  derive_keys side out = Some (mk_ikeys (expand_field side quic_key_label 16) (expand_field side quic_iv_label 12) (expand_field side quic_hp_label 16)).
Proof.
  intros Hz (Hk & Hv & Hh). unfold derive_keys.
  rewrite (derive_field_spec side quic_key_label 8) by (done || lia). cbn [mbind option_bind].
  rewrite (derive_field_spec side quic_iv_label 7) by (done || lia). cbn [mbind option_bind].
  rewrite (derive_field_spec side quic_hp_label 7) by (done || lia). reflexivity.
Qed.

Lemma initial_derive_spec dcid is_server out : zlen dcid < 2 ^ 60 -> keys_wf out ->
  quic_initial_derive dcid (zlen dcid) is_server out = Some (initial_keys_spec dcid is_server).
Proof.
  change (2 ^ 60) with 1152921504606846976. intros Hd Hwf. unfold quic_initial_derive, quic_hkdf_extract, initial_keys_spec, QUIC_HKDF_PRK.
  pose proof (zlen_hmac_spec INITIAL_SALT dcid) as Hs.
  change 20 with (zlen INITIAL_SALT). rewrite hmac_exact by (done || (change (2 ^ 63) with 9223372036854775808; lia)).
  generalize dependent (hmac_spec INITIAL_SALT dcid). intros secret Hs. cbn [mbind option_bind].
  rewrite (derive_field_spec secret (if is_server then server_in else client_in) 9) by (done || lia || by destruct is_server).
  cbn [mbind option_bind].
  assert (Hz : zlen (expand_field secret (if is_server then server_in else client_in) 32) = 32) by (apply zlen_hkdf_okm; lia).
  generalize dependent (expand_field secret (if is_server then server_in else client_in) 32). intros side Hz.
  exact (derive_keys_spec side out Hz Hwf).
Qed.

Lemma initpkt_derive_spec dcid : zlen dcid < 2 ^ 60 ->
  quic_initpkt_derive dcid (zlen dcid) = Some (initial_keys_spec dcid false, initial_keys_spec dcid true).
Proof.
  intros Hd. unfold quic_initpkt_derive. rewrite initial_derive_spec by done. cbn [mbind option_bind].
  rewrite initial_derive_spec by done. done.
Qed.

(** * Opening a packet with the packet number in its header

    Whatever the octets of a packet are, it is [hp_header mask ...] of an
    unprotected header, the mask being that of its sample, followed by a ciphertext
    and a tag. *)

Definition pkt_nonce (keys : quic_initial_keys) (pn : Z) : list Z := quic_protect_nonce (ik_iv keys) pn.
Definition pkt_mac (keys : quic_initial_keys) (pn : Z) (hdr ct : list Z) : list Z :=
  gcm_mac (quic_aes128_init (ik_key keys)) (pkt_nonce keys pn) hdr ct.
Definition pkt_cipher (keys : quic_initial_keys) (pn : Z) (m : list Z) : list Z :=
  gcm_cipher (quic_aes128_init (ik_key keys)) (pkt_nonce keys pn) m.

(** The result of opening [hdr ++ ct ++ tag ++ post]: accepted exactly when the tag is right. *)
Definition opened (keys : quic_initial_keys) (pn : Z) (hdr ct tag post : list Z) : list Z * option (Z * Z) :=
  if bool_decide (tag = pkt_mac keys pn hdr ct) then (hdr ++ pkt_cipher keys pn ct ++ tag ++ post, Some (zlen hdr, zlen ct))
  else (hdr ++ ct ++ tag ++ post, None).

Lemma gcm_open_at keys pn hdr ct tag post : zlen tag = 16 -> zlen (hdr ++ ct ++ tag ++ post) < 2 ^ 60 -> Forall is_u8 hdr -> Forall is_u8 ct ->
  open_at (quic_aes128_init (ik_key keys)) (quic_protect_nonce (ik_iv keys) pn) (hdr ++ ct ++ tag ++ post) (zlen hdr) (zlen ct) =
  Some (if bool_decide (tag = pkt_mac keys pn hdr ct) then Some (hdr ++ pkt_cipher keys pn ct ++ tag ++ post) else None).
Proof. intros Ht Ho Hh Hc. exact (open_at_spec (K := quic_aes128) _ _ hdr ct tag post Ht Ho I Hh Hc). Qed.

Lemma pn_len_range b : 1 <= Z.land b 0x03 + 1 <= 4.
Proof.
  pose proof (Z.land_ones b 2 ltac:(lia)) as E. change (Z.ones 2) with 0x03 in E. rewrite E.
  pose proof (Z.mod_pos_bound b (2 ^ 2) ltac:(lia)). lia.
Qed.

(** Header protection comes off the packet number once the first octet is back. *)
Lemma unmask_pn b mid pn rest mask : zlen mask = 5 -> zlen pn <= 4 ->
  quic_hp_protect_pn (b :: mid ++ zip_xor pn (drop 1 mask) ++ rest) (1 + zlen mid) (zlen pn) mask = Some ((b :: mid ++ pn) ++ rest).
Proof.
  intros Hm Hp. assert (Hd : length (drop 1 mask) = 4%nat) by (rewrite length_drop; unfold zlen in Hm; lia).
  assert (Hz : zlen (zip_xor pn (drop 1 mask)) = zlen pn) by (unfold zlen in *; rewrite length_zip_xor; lia).
  rewrite app_comm_cons, <- (zlen_cons b mid), <- Hz, protect_pn_spec by lia.
  rewrite zip_xor_twice by (unfold zlen in *; lia). cbn [app]. by rewrite <- app_assoc.
Qed.

Lemma open_pkt_spec keys b mid pn ct tag post mask largest full : zlen mask = 5 -> zlen pn = Z.land b 0x03 + 1 -> zlen tag = 16 ->
  1 <= zlen ct -> Forall is_u8 (b :: mid ++ pn) -> Forall is_u8 ct -> zlen mid + zlen ct + zlen post < 2 ^ 59 ->
  quic_pnum_decode (pn ++ ct ++ tag ++ post) (zlen pn) largest = Some full ->
  open_pkt keys (b :: mid ++ zip_xor pn (drop 1 mask) ++ ct ++ tag ++ post) (1 + zlen mid + zlen pn + zlen ct + 16) (1 + zlen mid) mask largest =
  Some (opened keys full (b :: mid ++ pn) ct tag post).
Proof.
  change (2 ^ 59) with 576460752303423488. intros Hm Hpn Ht Hct Hhu Hcu Ho Hdec. pose proof (pn_len_range b). pose proof (zlen_nonneg mid).
  pose proof (zlen_nonneg post). unfold open_pkt. change (load (b :: ?r) 0) with (Some b). cbn [mbind option_bind]. rewrite <- Hpn.
  rewrite unmask_pn by lia. cbn [mbind option_bind]. unfold QUIC_GCM_TAG. unwrap. zdecide. set (hdr := b :: mid ++ pn) in *.
  assert (Hh : zlen hdr = 1 + zlen mid + zlen pn) by (subst hdr; rewrite zlen_cons, zlen_app; lia). unwrap.
  replace (drop (Z.to_nat (1 + zlen mid)) (hdr ++ ct ++ tag ++ post)) with (pn ++ ct ++ tag ++ post).
  2:{ subst hdr. rewrite app_comm_cons, <- app_assoc. rewrite drop_app_length'; [done|]. unfold zlen. cbn [length]. lia. }
  rewrite Hdec. cbn [mbind option_bind]. unfold aead_open. rewrite <- Hh.
  replace (zlen hdr + zlen ct + 16 - zlen hdr - 16) with (zlen ct) by lia.
  rewrite gcm_open_at by (try done; change (2 ^ 60) with 1152921504606846976; rewrite !zlen_app; lia). cbn [mbind option_bind].
  unfold opened. by case_bool_decide.
Qed.

Lemma unprotect_spec keys hp bits b mid pn ct tag post s largest full : let mask := quic_hp_mask hp s in
  sample_at (ct ++ tag ++ post) (4 - zlen pn) = Some s -> zlen pn = Z.land b 0x03 + 1 -> zlen tag = 16 ->
  5 <= zlen pn + zlen ct -> Forall is_u8 (b :: mid ++ pn) -> Forall is_u8 ct -> zlen mid + zlen ct + zlen post < 2 ^ 59 ->
  quic_pnum_decode (pn ++ ct ++ tag ++ post) (zlen pn) largest = Some full ->
  quic_hspkt_unprotect keys hp (hp_header mask bits b mid pn ++ ct ++ tag ++ post) (1 + zlen mid + zlen pn + zlen ct + 16)
    (5 + zlen mid) (1 + zlen mid) bits largest = Some (opened keys full (b :: mid ++ pn) ct tag post).
Proof.
  change (2 ^ 59) with 576460752303423488. intros mask Hs Hpn Ht Hct Hhu Hcu Ho Hdec. pose proof (pn_len_range b). pose proof (zlen_nonneg mid).
  pose proof (zlen_nonneg post). pose proof (zlen_hp_mask hp s) as Hm. fold mask in Hm. pose proof (zlen_hp_header mask bits b mid pn ltac:(lia)) as Hh.
  unfold quic_hspkt_unprotect, QUIC_GCM_TAG. unwrap. zdecide. unwrap.
  replace (1 + zlen mid + 4) with (zlen (hp_header mask bits b mid pn) + (4 - zlen pn)) by lia.
  rewrite sample_at_body, Hs by lia. cbn [mbind option_bind]. fold mask. unfold hp_header. cbn [app].
  rewrite mask_byte0_spec, lxor_twice. cbn [mbind option_bind]. rewrite <- app_assoc. apply open_pkt_spec; try done; lia.
Qed.

Lemma pnum_decode_front pn rest largest : Forall is_u8 pn -> zlen pn <= 4 ->
  exists full, quic_pnum_decode (pn ++ rest) (zlen pn) largest = Some full /\ quic_pnum_decode pn (zlen pn) largest = Some full.
Proof.
  intros Hu Hl. unfold quic_pnum_decode, read_be. replace (Z.to_nat (zlen pn)) with (length pn) by (unfold zlen; lia).
  pose proof (get_be_value [] pn rest Hu ltac:(lia)) as G1. pose proof (get_be_value [] pn [] Hu ltac:(lia)) as G2.
  cbn [app] in G1, G2. change (zlen (@nil Z)) with 0 in *. rewrite app_nil_r in G2. rewrite G1, G2. eexists. split; reflexivity.
Qed.

(** * 1-RTT packets *)

(** The parts of a short-header packet of [len] octets as a receiver sees them. *)
Record parts := Parts { p_hdr : list Z; p_pn : list Z; p_ct : list Z; p_tag : list Z }.

Definition onertt_parts (hp : quic_aes128) (pkt : list Z) (len dcid_len : Z) : parts :=
  let mask := quic_hp_mask hp (slice pkt (5 + dcid_len) 16) in
  let b := Z.lxor (at_ pkt 0) (Z.land (at_ mask 0) QUIC_HP_SHORT_MASK) in
  let n := Z.land b 0x03 + 1 in
  let pn := zip_xor (slice pkt (1 + dcid_len) n) (drop 1 mask) in
  let ct_off := 1 + dcid_len + n in
  Parts (b :: slice pkt 1 dcid_len ++ pn) pn (slice pkt ct_off (len - ct_off - 16)) (slice pkt (len - 16) 16).

Lemma load_at (l : list Z) i : 0 <= i < zlen l -> load l i = Some (at_ l i).
Proof.
  intros Hi. destruct (load_is_Some l i Hi) as [x Hx]. rewrite Hx. unfold load in Hx. destruct (Z.leb_spec 0 i); [|lia].
  unfold at_. by rewrite (nth_lookup_Some _ _ 0 _ Hx).
Qed.

Lemma hp_mask_u8 hp s : Forall is_u8 (quic_hp_mask hp s).
Proof. apply Forall_take, encrypt_u8. Qed.

Lemma land_u8 x m : is_u8 x -> is_u8 (Z.land x m).
Proof. exact (land_small x m 8 ltac:(lia)). Qed.

(** A list is its slices. *)
Lemma slices_app (l : list Z) i n m : 0 <= i -> 0 <= n -> 0 <= m -> i + n + m <= zlen l ->
  drop (Z.to_nat i) l = slice l i n ++ slice l (i + n) m ++ drop (Z.to_nat (i + n + m)) l.
Proof.
  intros Hi Hn Hm Hl. unfold slice. rewrite <- (take_drop (Z.to_nat n) (drop (Z.to_nat i) l)) at 1. f_equal.
  rewrite drop_drop. replace (Z.to_nat i + Z.to_nat n)%nat with (Z.to_nat (i + n)) by lia.
  rewrite <- (take_drop (Z.to_nat m) (drop (Z.to_nat (i + n)) l)) at 1. f_equal. rewrite drop_drop. f_equal. lia.
Qed.

(** Every packet that is long enough is made of its parts. *)
Lemma onertt_parts_spec hp pkt len dcid_len : Forall is_u8 pkt -> len <= zlen pkt -> 0 <= dcid_len -> 21 + dcid_len < len ->
  let s := slice pkt (5 + dcid_len) 16 in let mask := quic_hp_mask hp s in let p := onertt_parts hp pkt len dcid_len in
  let post := drop (Z.to_nat len) pkt in
  exists b mid, p_hdr p = b :: mid ++ p_pn p /\ zlen mid = dcid_len /\ zlen (p_pn p) = Z.land b 0x03 + 1 /\
    pkt = hp_header mask QUIC_HP_SHORT_MASK b mid (p_pn p) ++ p_ct p ++ p_tag p ++ post /\
    len = 1 + zlen mid + zlen (p_pn p) + zlen (p_ct p) + 16 /\ zlen (p_tag p) = 16 /\
    Forall is_u8 (p_hdr p) /\ Forall is_u8 (p_ct p) /\ sample_at (p_ct p ++ p_tag p ++ post) (4 - zlen (p_pn p)) = Some s.
Proof.
  intros Hu Hl Hd Hlen s mask p post. set (b := Z.lxor (at_ pkt 0) (Z.land (at_ mask 0) QUIC_HP_SHORT_MASK)).
  set (n := Z.land b 0x03 + 1). pose proof (pn_len_range b) as Hn. fold n in Hn. set (mid := slice pkt 1 dcid_len).
  assert (Hm : zlen mask = 5) by apply zlen_hp_mask. assert (Hd4 : length (drop 1 mask) = 4%nat) by (rewrite length_drop; unfold zlen in Hm; lia).
  assert (Hmid : zlen mid = dcid_len) by (apply zlen_slice; lia).
  set (raw := slice pkt (1 + dcid_len) n). assert (Hraw : zlen raw = n) by (apply zlen_slice; lia).
  assert (Hpn : zlen (p_pn p) = n) by (change (p_pn p) with (zip_xor raw (drop 1 mask)); unfold zlen in *; rewrite length_zip_xor; lia).
  assert (Hct : zlen (p_ct p) = len - (1 + dcid_len + n) - 16) by (apply zlen_slice; fold s mask b n; lia).
  assert (Htag : zlen (p_tag p) = 16) by (apply zlen_slice; lia).
  assert (Hsl : forall i k, Forall is_u8 (slice pkt i k)) by (intros; by apply Forall_take, Forall_drop).
  assert (Hb : is_u8 b). { apply u8_lxor; [by apply at_u8|]. apply land_u8, at_u8, hp_mask_u8. }
  assert (Hpu : Forall is_u8 (p_pn p)) by (apply zip_xor_u8; [apply Hsl|apply Forall_drop, hp_mask_u8]).
  assert (Hpkt : pkt = hp_header mask QUIC_HP_SHORT_MASK b mid (p_pn p) ++ p_ct p ++ p_tag p ++ post).
  { assert (Hhd : hp_header mask QUIC_HP_SHORT_MASK b mid (p_pn p) = at_ pkt 0 :: mid ++ raw).
    { unfold hp_header. subst b. rewrite lxor_twice. change (p_pn p) with (zip_xor raw (drop 1 mask)).
      rewrite zip_xor_twice; [done|unfold zlen in *; lia]. }
    rewrite Hhd. cbn [app]. rewrite <- app_assoc.
    pose proof (slices_app pkt 1 dcid_len n ltac:(lia) Hd ltac:(lia) ltac:(lia)) as S1. fold mid raw in S1.
    pose proof (slices_app pkt (1 + dcid_len + n) (len - (1 + dcid_len + n) - 16) 16 ltac:(lia) ltac:(lia) ltac:(lia) ltac:(lia)) as S2.
    replace (1 + dcid_len + n + (len - (1 + dcid_len + n) - 16)) with (len - 16) in S2 by lia.
    replace (len - 16 + 16) with len in S2 by lia. rewrite S2 in S1. change (p_ct p ++ p_tag p ++ post) with
      (slice pkt (1 + dcid_len + n) (len - (1 + dcid_len + n) - 16) ++ slice pkt (len - 16) 16 ++ drop (Z.to_nat len) pkt).
    rewrite <- S1. destruct pkt as [|x pkt']; [change (zlen (@nil Z)) with 0 in Hl; lia|]. done. }
  exists b, mid. split_and!; try done; try lia.
  - apply List.Forall_cons; [done|]. apply Forall_app. split; [apply Hsl|done].
  - apply Hsl.
  - pose proof (zlen_hp_header mask QUIC_HP_SHORT_MASK b mid (p_pn p) ltac:(lia)) as Hz.
    rewrite <- (sample_at_body (hp_header mask QUIC_HP_SHORT_MASK b mid (p_pn p))) by lia. rewrite <- Hpkt.
    unfold sample_at. replace (zlen (hp_header mask QUIC_HP_SHORT_MASK b mid (p_pn p)) + (4 - zlen (p_pn p))) with (5 + dcid_len) by lia.
    by zdecide.
Qed.

(** C5: Opening a 1-RTT packet does exactly what RFC 9001 section 5 asks, for every array of octets:
    a packet of at most 21 octets plus the connection ID is refused untouched; from any other the header-protection mask
    of the sample gives back the first octet, the packet number length and the packet number, the full
    packet number is decoded against the largest received, and the payload is decrypted in place when,
    and only when, the last 16 octets are the AES-128-GCM tag of the unprotected header and the ciphertext
    under the nonce of that packet number.  No octet outside the packet is read or written. *)
Theorem onertt_open_exact (keys : quic_initial_keys) (hp : quic_aes128) (pkt : list Z) (len dcid_len largest : Z)
  (Hu : Forall is_u8 pkt) (Hl : 0 <= len <= zlen pkt) (Ho : zlen pkt < 2 ^ 58) (Hd : 0 <= dcid_len < 256) :
  if len <=? 21 + dcid_len then quic_hspkt_onertt_open keys hp pkt len dcid_len largest = Some (pkt, None)
  else let p := onertt_parts hp pkt len dcid_len in
       exists full, quic_pnum_decode (p_pn p) (zlen (p_pn p)) largest = Some full /\
         quic_hspkt_onertt_open keys hp pkt len dcid_len largest =
         Some (opened keys full (p_hdr p) (p_ct p) (p_tag p) (drop (Z.to_nat len) pkt)).
Proof.
  change (2 ^ 58) with 288230376151711744 in Ho. destruct (Z.leb_spec len (21 + dcid_len)) as [Hs|Hs].
  { unfold quic_hspkt_onertt_open, quic_hspkt_unprotect, QUIC_GCM_TAG. unwrap. by zdecide. }
  cbv zeta. destruct (onertt_parts_spec hp pkt len dcid_len Hu ltac:(lia) ltac:(lia) Hs) as (b & mid & Hh & Hmid & Hpn & Hpkt & Hlen & Ht & Hhu & Hcu & Hsam).
  set (p := onertt_parts hp pkt len dcid_len) in *. rewrite Hh in *. pose proof (pn_len_range b).
  assert (Hpu : Forall is_u8 (p_pn p)). { rewrite app_comm_cons in Hhu. by apply Forall_app in Hhu as [_ ?]. }
  destruct (pnum_decode_front (p_pn p) (p_ct p ++ p_tag p ++ drop (Z.to_nat len) pkt) largest Hpu ltac:(lia)) as (full & Hf1 & Hf2).
  exists full. split; [done|]. unfold quic_hspkt_onertt_open. rewrite <- Hmid.
  assert (Hz : zlen (drop (Z.to_nat len) pkt) = zlen pkt - len) by (apply zlen_drop; lia).
  pose proof (unprotect_spec keys hp QUIC_HP_SHORT_MASK b mid (p_pn p) (p_ct p) (p_tag p) (drop (Z.to_nat len) pkt)
    (slice pkt (5 + dcid_len) 16) largest full Hsam Hpn Ht ltac:(lia) Hhu Hcu ltac:(change (2 ^ 59) with 576460752303423488; lia) Hf1) as U.
  rewrite <- Hpkt, <- Hlen in U. exact U.
Qed.

(** Witness of C5: a packet of 30 equal octets. *)
Lemma onertt_open_exact_witness :
  let keys := mk_ikeys (repeat 1 16) (repeat 2 12) (repeat 3 16) in let hp := quic_aes128_init (repeat 3 16) in
  let pkt := repeat 0x40 30 in let p := onertt_parts hp pkt 30 4 in
  exists full, quic_pnum_decode (p_pn p) (zlen (p_pn p)) 7 = Some full /\
    quic_hspkt_onertt_open keys hp pkt 30 4 7 = Some (opened keys full (p_hdr p) (p_ct p) (p_tag p) []).
Proof.
  intros keys hp pkt p. apply (onertt_open_exact keys hp pkt 30 4 7); [exact (u8_by_eval pkt eq_refl)|closed_arith..].
Defined.

Lemma be_bytes_4 v : List.map (fun i => u8 (Z.shiftr v (8 * (3 - Z.of_nat i)))) (seq 0 4) = be_bytes 4 v.
Proof.
  cbn [List.map seq be_bytes app]. unfold u8. rewrite !Z.shiftr_div_pow2 by lia. rewrite !Z.div_div by lia.
  change (2 ^ (8 * (3 - Z.of_nat 3))) with 1. by rewrite Z.div_1_r.
Qed.

Definition short_hdr (dcid : list Z) (pn : Z) : list Z := QUIC_ONERTT_BYTE0 :: dcid ++ be_bytes 4 pn.

Lemma zlen_short_hdr dcid pn : zlen (short_hdr dcid pn) = 5 + zlen dcid.
Proof. unfold short_hdr. rewrite zlen_cons, zlen_app, zlen_be_bytes. lia. Qed.

Lemma short_header_spec out dcid pn : 5 + zlen dcid <= zlen out ->
  build_short_header out dcid (zlen dcid) pn = Some (5 + zlen dcid, splice out 0 (short_hdr dcid pn)).
Proof.
  intros Ho. pose proof (zlen_nonneg dcid). unfold build_short_header. rewrite be_bytes_4.
  rewrite <- (splice_nil out 0) at 1. rewrite store_front by (done || (change (zlen (@nil Z)) with 0; lia)). cbn [mbind option_bind app].
  rewrite copy_front by (rewrite ?zlen_splice by (change (zlen [QUIC_ONERTT_BYTE0]) with 1; lia); lia). cbn [mbind option_bind].
  replace (take (Z.to_nat (zlen dcid)) dcid) with dcid by (unfold zlen; by rewrite Nat2Z.id, firstn_all).
  pose proof (splice_splice out [QUIC_ONERTT_BYTE0] dcid 0 ltac:(lia)) as S1. change (0 + zlen [QUIC_ONERTT_BYTE0]) with 1 in S1.
  rewrite S1 by (change (zlen [QUIC_ONERTT_BYTE0]) with 1; lia). cbn [app].
  replace (1 + zlen dcid) with (zlen (QUIC_ONERTT_BYTE0 :: dcid)) by (rewrite zlen_cons; lia).
  rewrite store_bytes_front, zlen_be_bytes by (rewrite zlen_cons; lia).
  destruct (Z.leb_spec (zlen (QUIC_ONERTT_BYTE0 :: dcid) + Z.of_nat 4) (zlen out)) as [_|Hbad]; [|rewrite zlen_cons in Hbad; lia]. done.
Qed.

(** A packet before header protection. *)
Definition sealed (keys : quic_initial_keys) (pn : Z) (hdr payload : list Z) : list Z :=
  let ct := pkt_cipher keys pn payload in ct ++ pkt_mac keys pn hdr ct.

Lemma zlen_sealed keys pn hdr payload : zlen (sealed keys pn hdr payload) = zlen payload + 16.
Proof. unfold sealed. rewrite zlen_app. unfold pkt_mac, pkt_cipher. by rewrite zlen_gcm_mac, zlen_gcm_cipher. Qed.

(** The code seals [payload] after a header that is in the array. *)
Lemma gcm_seal_at keys pn aad hdr payload pl tl : take (length hdr) (source_of aad (hdr ++ tl)) = hdr -> zlen hdr <= zlen (source_of aad (hdr ++ tl)) ->
  zlen (source_of aad (hdr ++ tl)) < 2 ^ 60 -> zlen tl < 2 ^ 60 -> zlen payload < 2 ^ 60 -> 0 <= pl <= zlen payload -> pl + 16 <= zlen tl ->
  Forall is_u8 hdr -> Forall is_u8 payload ->
  seal_at (quic_aes128_init (ik_key keys)) (quic_protect_nonce (ik_iv keys) pn) aad (zlen hdr) (Apart payload) pl (hdr ++ tl) (zlen hdr) =
  Some (hdr ++ sealed keys pn hdr (take (Z.to_nat pl) payload) ++ drop (Z.to_nat (pl + 16)) tl).
Proof.
  intros Hh Hhl Hao Hto Hpo Hpl Ht Hhu Hpu. unfold sealed. cbv zeta. rewrite <- app_assoc.
  refine (seal_at_spec (K := quic_aes128) _ _ aad (Apart payload) pl hdr tl Hh Hhl Hao Hto Hpo Hpl Ht I Hhu _). by apply Forall_take.
Qed.

Lemma sealed_sample keys pn hdr payload post d : 0 <= d -> d <= zlen payload -> exists s,
  sample_at (sealed keys pn hdr payload ++ post) d = Some s.
Proof.
  intros Hd Hp. unfold sample_at. rewrite zlen_app, zlen_sealed. pose proof (zlen_nonneg post). zdecide. by eexists.
Qed.

(** The 1-RTT packet: the protected header, the ciphertext and the tag. *)
Definition onertt_packet (keys : quic_initial_keys) (hp : quic_aes128) (dcid : list Z) (pn : Z) (payload : list Z) : list Z :=
  let body := sealed keys pn (short_hdr dcid pn) payload in
  hp_header (quic_hp_mask hp (take 16 body)) QUIC_HP_SHORT_MASK QUIC_ONERTT_BYTE0 dcid (be_bytes 4 pn) ++ body.

Lemma zlen_onertt_packet keys hp dcid pn payload : zlen (onertt_packet keys hp dcid pn payload) = 21 + zlen dcid + zlen payload.
Proof.
  unfold onertt_packet. cbv zeta. rewrite zlen_app, zlen_sealed, zlen_hp_header, zlen_be_bytes by (rewrite zlen_hp_mask, zlen_be_bytes; lia). lia.
Qed.

Lemma short_hdr_u8 dcid pn : Forall is_u8 dcid -> Forall is_u8 (short_hdr dcid pn).
Proof. intros Hd. apply List.Forall_cons; [unfold QUIC_ONERTT_BYTE0, is_u8; lia|]. apply Forall_app. split; [done|apply be_bytes_u8]. Qed.

Lemma sealed_front keys pn hdr payload post : sample_at (sealed keys pn hdr payload ++ post) 0 = Some (take 16 (sealed keys pn hdr payload)).
Proof.
  pose proof (zlen_sealed keys pn hdr payload) as Hz. pose proof (zlen_nonneg payload). pose proof (zlen_nonneg post).
  unfold sample_at. rewrite zlen_app. zdecide. unfold slice. change (drop (Z.to_nat 0) ?l) with l. change (Z.to_nat 16) with 16%nat.
  rewrite take_app_le by (unfold zlen in *; lia). done.
Qed.

Lemma onertt_build_spec keys hp dcid pn payload pl out cap : zlen dcid < 256 -> Forall is_u8 dcid -> Forall is_u8 payload ->
  0 <= pl <= zlen payload -> zlen payload < 2 ^ 60 -> zlen out < 2 ^ 59 -> cap <= zlen out -> 5 + zlen dcid <= zlen out ->
  quic_hspkt_onertt_build keys hp dcid (zlen dcid) pn payload pl out cap =
  if cap <? 21 + zlen dcid + pl then Some (splice out 0 (short_hdr dcid pn), None)
  else Some (splice out 0 (onertt_packet keys hp dcid pn (take (Z.to_nat pl) payload)), Some (21 + zlen dcid + pl)).
Proof.
  change (2 ^ 60) with 1152921504606846976. change (2 ^ 59) with 576460752303423488. intros Hd Hdu Hpu Hpl Hpo Ho Hcap Hroom. pose proof (zlen_nonneg dcid).
  unfold quic_hspkt_onertt_build. rewrite short_header_spec by done. cbn [mbind option_bind]. unfold QUIC_GCM_TAG. unwrap.
  replace (5 + zlen dcid + pl + 16) with (21 + zlen dcid + pl) by lia. destruct (Z.ltb_spec cap (21 + zlen dcid + pl)) as [|Hfit]; [done|].
  set (hdr := short_hdr dcid pn). assert (Hh : zlen hdr = 5 + zlen dcid) by apply zlen_short_hdr.
  rewrite splice_tail by lia. set (tl := drop (length hdr) out). assert (Htl : zlen tl = zlen out - zlen hdr) by (unfold tl, zlen in *; rewrite length_drop; lia).
  rewrite <- Hh. rewrite gcm_seal_at; cbn [source_of]; rewrite ?take_app_length; try done; try (rewrite ?zlen_app; lia); [|by apply short_hdr_u8].
  cbn [mbind option_bind]. set (m := take (Z.to_nat pl) payload). set (body := sealed keys pn hdr m). set (post := drop _ tl).
  replace (1 + zlen dcid + 4) with (zlen hdr + 0) by lia. rewrite sample_at_body by lia.
  assert (Hsam : sample_at (body ++ post) 0 = Some (take 16 body)) by apply sealed_front. rewrite Hsam. cbn [mbind option_bind].
  unfold hdr at 1, short_hdr. cbn [app]. rewrite <- (app_assoc dcid).
  change 4 with (zlen (be_bytes 4 pn)) at 1. rewrite hp_apply_spec by (rewrite zlen_hp_mask, zlen_be_bytes; lia). cbn [mbind option_bind].
  f_equal. f_equal. assert (Hm : zlen m = pl) by (apply zlen_take; lia).
  pose proof (zlen_onertt_packet keys hp dcid pn m) as Hz. rewrite splice_tail by lia.
  unfold onertt_packet at 1. cbv zeta. fold hdr body. unfold hp_header. cbn [app]. rewrite <- !app_assoc. do 4 f_equal.
  unfold post, tl. rewrite drop_drop. f_equal. unfold zlen in *. lia.
Qed.

(** What is sealed with a packet number is accepted with it. *)
Lemma opened_sealed keys pn hdr payload post : let ct := pkt_cipher keys pn payload in
  opened keys pn hdr ct (pkt_mac keys pn hdr ct) post = (hdr ++ payload ++ pkt_mac keys pn hdr ct ++ post, Some (zlen hdr, zlen payload)).
Proof.
  intros ct. unfold opened. rewrite bool_decide_eq_true_2 by done. unfold ct at 1, pkt_cipher at 1 2. rewrite gcm_cipher_twice.
  unfold ct at 2, pkt_cipher. by rewrite zlen_gcm_cipher.
Qed.

Lemma pkt_cipher_u8 keys pn m : Forall is_u8 m -> Forall is_u8 (pkt_cipher keys pn m).
Proof. apply gcm_cipher_u8. Qed.

Lemma zlen_pkt_mac keys pn hdr ct : zlen (pkt_mac keys pn hdr ct) = 16.
Proof. apply zlen_gcm_mac. Qed.

Lemma zlen_pkt_cipher keys pn m : zlen (pkt_cipher keys pn m) = zlen m.
Proof. apply zlen_gcm_cipher. Qed.

Lemma onertt_open_packet keys hp dcid pn payload post largest : Forall is_u8 dcid -> Forall is_u8 payload -> 1 <= zlen payload ->
  zlen dcid < 256 -> zlen payload + zlen post < 2 ^ 58 -> 0 <= pn < 2 ^ 62 -> -1 <= largest < 2 ^ 62 ->
  largest + 1 - 2 ^ 31 < pn <= largest + 1 + 2 ^ 31 ->
  let hdr := short_hdr dcid pn in let tag := pkt_mac keys pn hdr (pkt_cipher keys pn payload) in
  quic_hspkt_onertt_open keys hp (onertt_packet keys hp dcid pn payload ++ post) (21 + zlen dcid + zlen payload) (zlen dcid) (u64 largest) =
  Some (hdr ++ payload ++ tag ++ post, Some (5 + zlen dcid, zlen payload)).
Proof.
  intros Hdu Hpu Hp Hd Ho Hpn Hla Hwin hdr tag. set (ct := pkt_cipher keys pn payload).
  assert (Hct : zlen ct = zlen payload) by apply zlen_pkt_cipher. assert (Htag : zlen tag = 16) by apply zlen_pkt_mac.
  set (s := take 16 (ct ++ tag)).
  assert (Hs : sample_at (ct ++ tag ++ post) (4 - zlen (be_bytes 4 pn)) = Some s).
  { rewrite zlen_be_bytes, app_assoc. apply (sealed_front keys pn hdr payload post). }
  pose proof (unprotect_spec keys hp QUIC_HP_SHORT_MASK QUIC_ONERTT_BYTE0 dcid (be_bytes 4 pn) ct tag post s (u64 largest) pn Hs) as U.
  rewrite Hct, zlen_be_bytes in U. change (Z.of_nat 4) with 4 in U.
  assert (Hop : opened keys pn (QUIC_ONERTT_BYTE0 :: dcid ++ be_bytes 4 pn) ct tag post = (hdr ++ payload ++ tag ++ post, Some (5 + zlen dcid, zlen payload))).
  { change (QUIC_ONERTT_BYTE0 :: dcid ++ be_bytes 4 pn) with hdr. rewrite <- (zlen_short_hdr dcid pn). apply opened_sealed. }
  rewrite Hop in U. unfold quic_hspkt_onertt_open, onertt_packet. cbv zeta. rewrite <- app_assoc.
  replace (21 + zlen dcid + zlen payload) with (1 + zlen dcid + 4 + zlen payload + 16) by lia.
  unfold sealed. cbv zeta. fold hdr ct tag s. rewrite <- app_assoc. apply U.
  - reflexivity.
  - exact Htag.
  - lia.
  - by apply short_hdr_u8.
  - by apply pkt_cipher_u8.
  - change (2 ^ 58) with 288230376151711744 in Ho. change (2 ^ 59) with 576460752303423488. lia.
  - apply (pnum_decode_bytes 4); [lia|exact Hpn|exact Hla|exact Hwin].
Qed.

(** C4: 1-RTT packets round trip: for every key, connection ID, packet number below 2^62 and non-empty
    payload, a packet that fits is written at the front of the output and nothing behind it, and the receiver that
    opens it with any largest packet number whose window of 2^31 around the next one contains the packet number finds the payload
    at the offset reported, the header unprotected.  When the packet does not fit, 0 is returned. *)
Theorem onertt_roundtrip (keys : quic_initial_keys) (hp : quic_aes128) (dcid : list Z) (pn : Z) (payload out : list Z) (cap largest : Z)
  (Hdu : Forall is_u8 dcid) (Hpu : Forall is_u8 payload) (Hp : 1 <= zlen payload) (Hd : zlen dcid < 256)
  (Hcap : cap <= zlen out) (Hroom : 5 + zlen dcid <= zlen out) (Ho : zlen payload + zlen out < 2 ^ 58)
  (Hpn : 0 <= pn < 2 ^ 62) (Hla : -1 <= largest < 2 ^ 62) (Hwin : largest + 1 - 2 ^ 31 < pn <= largest + 1 + 2 ^ 31) :
  let total := 21 + zlen dcid + zlen payload in
  (cap < total -> exists out', quic_hspkt_onertt_build keys hp dcid (zlen dcid) pn payload (zlen payload) out cap = Some (out', None) /\
     drop (Z.to_nat (5 + zlen dcid)) out' = drop (Z.to_nat (5 + zlen dcid)) out) /\
  (total <= cap -> exists out' tag,
     quic_hspkt_onertt_build keys hp dcid (zlen dcid) pn payload (zlen payload) out cap = Some (out', Some total) /\
     zlen tag = 16 /\ drop (Z.to_nat total) out' = drop (Z.to_nat total) out /\
     quic_hspkt_onertt_open keys hp out' total (zlen dcid) (u64 largest) =
       Some (short_hdr dcid pn ++ payload ++ tag ++ drop (Z.to_nat total) out, Some (5 + zlen dcid, zlen payload))).
Proof.
  intros total. change (2 ^ 58) with 288230376151711744 in Ho. pose proof (zlen_nonneg out).
  rewrite onertt_build_spec by (try done; change (2 ^ 60) with 1152921504606846976; change (2 ^ 59) with 576460752303423488; lia).
  fold total. replace (take (Z.to_nat (zlen payload)) payload) with payload by (unfold zlen; by rewrite Nat2Z.id, firstn_all).
  pose proof (zlen_onertt_packet keys hp dcid pn payload) as Hz. pose proof (zlen_short_hdr dcid pn). pose proof (zlen_nonneg dcid). split; intros Hc.
  - destruct (Z.ltb_spec cap total); [|lia]. eexists. split; [done|]. apply drop_splice; lia.
  - destruct (Z.ltb_spec cap total); [lia|].
    exists (splice out 0 (onertt_packet keys hp dcid pn payload)), (pkt_mac keys pn (short_hdr dcid pn) (pkt_cipher keys pn payload)).
    split_and!; [done|apply zlen_pkt_mac|apply drop_splice; lia|]. rewrite splice_tail by lia.
    replace (length (onertt_packet keys hp dcid pn payload)) with (Z.to_nat total) by (unfold zlen in *; lia).
    apply onertt_open_packet; try done. rewrite zlen_drop by lia. change (2 ^ 58) with 288230376151711744. lia.
Qed.

(** Witness of C4: a packet with an 8-octet connection ID. *)
Lemma onertt_roundtrip_witness :
  let keys := mk_ikeys (repeat 1 16) (repeat 2 12) (repeat 3 16) in let hp := quic_aes128_init (repeat 3 16) in
  let dcid := [1; 2; 3; 4; 5; 6; 7; 8] in
  exists out' tag, quic_hspkt_onertt_build keys hp dcid 8 700 [6; 0; 1; 5] 4 (repeat 0 40) 40 = Some (out', Some 33) /\
    zlen tag = 16 /\ drop 33 out' = repeat 0 7 /\
    quic_hspkt_onertt_open keys hp out' 33 8 650 = Some (short_hdr dcid 700 ++ [6; 0; 1; 5] ++ tag ++ repeat 0 7, Some (13, 4)).
Proof.
  intros keys hp dcid.
  refine (proj2 (onertt_roundtrip keys hp dcid 700 [6; 0; 1; 5] (repeat 0 40) 40 650 (u8_by_eval dcid eq_refl) (u8_by_eval [6; 0; 1; 5] eq_refl) _ _ _ _ _ _ _ _) _); closed_arith.
Defined.
