(* ===== verification/LongPackets.v ===== *)
(** Long-header packets.

    The properties of the packets [quic_tx_packet], [quic_hspkt_build] and
    [quic_initpkt_build] of Protect make and [quic_rx_packet], [quic_hspkt_open]
    and [quic_initpkt_open] read: they round trip, an Initial datagram reaches
    1200 octets, and Initial keys are those of RFC 9001 section 5.2. *)
From S2P Require Import Prelude.
From S2P Require Import Buffers.
From S2P Require Import CStrings.
From S2P Require Import Varint.
From S2P Require Import Codec.
From S2P Require Import Frames.
From S2P Require Import PacketNumber.
From S2P Require Import Headers.
From S2P Require Import CryptoStream.
From S2P Require Import Hkdf.
From S2P Require Import Aes.
From S2P Require Import CtrMode.
From S2P Require Import Gcm.
From S2P Require Import Poly1305.
From S2P Require Import Suite.
From S2P Require Import Protect.

(** * Sealing *)

(** A packet with a long header [b :: mid ++ pnb]. *)
Definition long_packet (keys : quic_initial_keys) (hp : quic_aes128) (b : Z) (mid pnb : list Z) (pn : Z) (payload : list Z) : list Z :=
  let body := sealed keys pn (b :: mid ++ pnb) payload in
  hp_header (quic_hp_mask hp (take 16 body)) QUIC_HP_LONG_MASK b mid pnb ++ body.

Lemma zlen_long_packet keys hp b mid pnb pn payload : zlen pnb = 4 ->
  zlen (long_packet keys hp b mid pnb pn payload) = 21 + zlen mid + zlen payload.
Proof.
  intros Hp. unfold long_packet. cbv zeta. rewrite zlen_app, zlen_sealed, zlen_hp_header by (rewrite zlen_hp_mask; lia). lia.
Qed.

Lemma seal_into_spec keys harr hdr pn payload pl out cap : take (length hdr) harr = hdr -> zlen hdr <= zlen harr -> zlen harr < 2 ^ 58 ->
  Forall is_u8 hdr -> Forall is_u8 payload -> 0 <= pl <= zlen payload -> zlen payload < 2 ^ 58 -> zlen out < 2 ^ 58 -> cap <= zlen out ->
  seal_into keys harr (zlen hdr) pn payload pl out cap =
  if cap <? zlen hdr + pl + 16 then Some (0, out)
  else Some (zlen hdr + pl + 16, splice out 0 (hdr ++ sealed keys pn hdr (take (Z.to_nat pl) payload))).
Proof.
  change (2 ^ 58) with 288230376151711744. intros Hh Hhl Hho Hhu Hpu Hpl Hpo Ho Hcap. pose proof (zlen_nonneg hdr).
  unfold seal_into, QUIC_GCM_TAG. unwrap. destruct (Z.ltb_spec cap (zlen hdr + pl + 16)); [done|].
  assert (Hz : Z.to_nat (zlen hdr) = length hdr) by (unfold zlen; lia).
  rewrite copy_front by lia. cbn [mbind option_bind]. rewrite Hz, Hh. rewrite splice_tail by lia. set (tl := drop (length hdr) out).
  assert (Htl : zlen tl = zlen out - zlen hdr) by (unfold tl, zlen in *; rewrite length_drop; lia).
  rewrite gcm_seal_at; cbn [source_of]; try assumption; try (change (2 ^ 60) with 1152921504606846976; lia). cbn [mbind option_bind].
  do 2 f_equal. pose proof (zlen_sealed keys pn hdr (take (Z.to_nat pl) payload)) as Hs. rewrite zlen_take in Hs by lia.
  rewrite splice_tail by (rewrite zlen_app; lia). rewrite <- app_assoc. do 2 f_equal. unfold tl. rewrite drop_drop. f_equal.
  rewrite length_app. unfold zlen in *. lia.
Qed.

Lemma protect_seal_spec keys hp harr b mid pnb pn payload pl out cap : let hdr := b :: mid ++ pnb in
  take (length hdr) harr = hdr -> zlen hdr <= zlen harr -> zlen harr < 2 ^ 58 -> zlen pnb = 4 ->
  Forall is_u8 hdr -> Forall is_u8 payload -> 0 <= pl <= zlen payload -> zlen payload < 2 ^ 58 -> zlen out < 2 ^ 58 -> cap <= zlen out ->
  quic_protect_seal keys hp harr (zlen hdr) (1 + zlen mid) 4 pn payload pl out cap =
  if cap <? zlen hdr + pl + 16 then Some (0, out)
  else Some (zlen hdr + pl + 16, splice out 0 (long_packet keys hp b mid pnb pn (take (Z.to_nat pl) payload))).
Proof.
  intros hdr Hh Hhl Hho Hpnb Hhu Hpu Hpl Hpo Ho Hcap. unfold quic_protect_seal. rewrite seal_into_spec by assumption.
  assert (Hhz : zlen hdr = 5 + zlen mid) by (unfold hdr; rewrite zlen_cons, zlen_app; lia). pose proof (zlen_nonneg mid).
  destruct (Z.ltb_spec cap (zlen hdr + pl + 16)) as [|Hfit]; cbn [mbind option_bind]; [done|].
  destruct (Z.eqb_spec (zlen hdr + pl + 16) 0); [lia|]. set (m := take (Z.to_nat pl) payload). set (body := sealed keys pn hdr m).
  assert (Hm : zlen m = pl) by (apply zlen_take; lia).
  assert (Hb : zlen body = pl + 16) by (unfold body; rewrite zlen_sealed; lia).
  unfold protect_header. change (2 ^ 58) with 288230376151711744 in *. unwrap.
  rewrite splice_tail by (rewrite zlen_app; lia). set (post := drop _ out). rewrite <- app_assoc.
  replace (1 + zlen mid + 4) with (zlen hdr + 0) by lia. rewrite sample_at_body by lia.
  assert (Hsam : sample_at (body ++ post) 0 = Some (take 16 body)) by apply sealed_front. rewrite Hsam. cbn [mbind option_bind].
  change (hdr ++ body ++ post) with (b :: (mid ++ pnb) ++ body ++ post). rewrite <- (app_assoc mid). rewrite <- Hpnb at 1. rewrite hp_apply_spec by (rewrite zlen_hp_mask; lia).
  cbn [mbind option_bind]. do 2 f_equal. pose proof (zlen_long_packet keys hp b mid pnb pn m Hpnb) as Hz.
  rewrite splice_tail by lia. unfold long_packet at 1. cbv zeta. fold hdr body. unfold hp_header. cbn [app]. rewrite <- !app_assoc. do 4 f_equal.
  unfold post. f_equal. rewrite length_app. unfold zlen in *. lia.
Qed.

(** * Opening *)

Lemma vpn_open_spec keys hp b mid pnb ct tag post s len : let mask := quic_hp_mask hp s in
  sample_at (ct ++ tag ++ post) (4 - zlen pnb) = Some s -> zlen pnb = Z.land b 0x03 + 1 -> zlen tag = 16 ->
  4 <= zlen pnb + zlen ct -> Forall is_u8 (b :: mid ++ pnb) -> Forall is_u8 ct ->
  1 + zlen mid + zlen pnb + zlen ct + 16 <= len <= 1 + zlen mid + zlen pnb + zlen ct + 16 + zlen post -> len < 2 ^ 58 ->
  zlen mid + zlen ct + zlen post < 2 ^ 58 ->
  quic_vpn_open keys hp (hp_header mask QUIC_HP_LONG_MASK b mid pnb ++ ct ++ tag ++ post) len (1 + zlen mid) (zlen pnb + zlen ct + 16) =
  Some (opened keys (be_value pnb) (b :: mid ++ pnb) ct tag post).
Proof.
  change (2 ^ 58) with 288230376151711744. intros mask Hs Hpn Ht Hct Hhu Hcu Hlen Hlo Ho. pose proof (pn_len_range b). pose proof (zlen_nonneg mid).
  pose proof (zlen_nonneg post). pose proof (zlen_nonneg ct). pose proof (zlen_hp_mask hp s) as Hm. fold mask in Hm.
  pose proof (zlen_hp_header mask QUIC_HP_LONG_MASK b mid pnb ltac:(lia)) as Hh.
  unfold quic_vpn_open, region_ok, quic_hp_sample_ok, quic_hp_sample_offset, QUIC_GCM_TAG. unwrap. zdecide. cbn [negb andb].
  unfold remove_hp, quic_hp_sample_offset. unwrap.
  replace (1 + zlen mid + 4) with (zlen (hp_header mask QUIC_HP_LONG_MASK b mid pnb) + (4 - zlen pnb)) by lia.
  rewrite sample_at_body, Hs by lia. cbn [mbind option_bind]. fold mask. unfold hp_header. cbn [app].
  rewrite mask_byte0_spec, lxor_twice. cbn [mbind option_bind]. change (load (b :: ?r) 0) with (Some b). cbn [mbind option_bind].
  unfold pn_len_of. rewrite <- Hpn, <- app_assoc. rewrite unmask_pn by lia. cbn [mbind option_bind].
  unfold read_pn. rewrite (app_comm_cons mid), <- (app_assoc (b :: mid)), <- (zlen_cons b mid).
  replace (Z.to_nat (zlen pnb)) with (length pnb) by (unfold zlen; lia).
  rewrite get_be_value; [|rewrite app_comm_cons in Hhu; by apply Forall_app in Hhu as [_ ?]|lia]. cbn [mbind option_bind].
  rewrite (app_assoc (b :: mid)). set (hdr := (b :: mid) ++ pnb). change (b :: mid ++ pnb) with hdr.
  assert (Hhz : zlen hdr = 1 + zlen mid + zlen pnb) by (subst hdr; rewrite zlen_app, zlen_cons; lia). rewrite zlen_cons. unwrap.
  rewrite <- Hhz. replace (zlen pnb + zlen ct + 16 - zlen pnb - 16) with (zlen ct) by lia. unfold vpn_aead_open.
  rewrite gcm_open_at; [|done|rewrite !zlen_app; change (2 ^ 60) with 1152921504606846976; lia|exact Hhu|done].
  cbn [mbind option_bind]. unfold opened. by case_bool_decide.
Qed.

(** * The header in pieces *)

(** Between the first octet and the packet number. *)
Definition long_mid (dcid scid : list Z) (is_initial : Z) (token : list Z) (length : Z) : list Z :=
  be_bytes 4 1 ++ cid_bytes dcid ++ cid_bytes scid ++ token_field is_initial token ++ varint_bytes length.

Lemma lhdr_bytes_split byte0 dcid scid is_initial token pl pn :
  lhdr_bytes byte0 1 dcid scid is_initial token pl pn 4 =
  quic_lhdr_byte0_pnlen byte0 4 :: long_mid dcid scid is_initial token (4 + pl + 16) ++ be_bytes 4 pn.
Proof. unfold lhdr_bytes, long_bytes, long_mid, len_pn_bytes. cbn [app]. by rewrite <- !app_assoc. Qed.

Lemma token_field_u8 is_initial token : Forall is_u8 token -> Forall is_u8 (token_field is_initial token).
Proof.
  intros Ht. unfold token_field. destruct (is_initial =? 0); [apply List.Forall_nil|]. apply Forall_app. split; [apply be_bytes_u8|done].
Qed.

Lemma cid_bytes_u8 cid : zlen cid <= QUIC_MAX_CID_LEN -> Forall is_u8 cid -> Forall is_u8 (cid_bytes cid).
Proof.
  intros Hl Hc. pose proof (zlen_nonneg cid). apply List.Forall_cons; [|done]. unfold is_u8, QUIC_MAX_CID_LEN in *. lia.
Qed.

Lemma long_mid_u8 dcid scid is_initial token length : zlen dcid <= QUIC_MAX_CID_LEN -> zlen scid <= QUIC_MAX_CID_LEN ->
  Forall is_u8 dcid -> Forall is_u8 scid -> Forall is_u8 token -> Forall is_u8 (long_mid dcid scid is_initial token length).
Proof.
  intros Hd Hs Hdu Hsu Htu. unfold long_mid. rewrite !Forall_app. split_and!; try apply be_bytes_u8; try (by apply cid_bytes_u8).
  by apply token_field_u8.
Qed.

(** The arguments of a packet to send. *)
Definition tx_ok (byte0 : Z) (dcid scid token : list Z) (payload : list Z) : Prop :=
  is_u8 byte0 /\ Z.land byte0 0x80 <> 0 /\ zlen dcid <= QUIC_MAX_CID_LEN /\ zlen scid <= QUIC_MAX_CID_LEN /\ zlen token < 2 ^ 16 /\ zlen payload < 2 ^ 56 /\
  Forall is_u8 dcid /\ Forall is_u8 scid /\ Forall is_u8 token /\ Forall is_u8 payload.

Lemma tx_args byte0 dcid scid token payload pl : tx_ok byte0 dcid scid token payload -> 0 <= pl <= zlen payload -> lhdr_args_ok 1 dcid scid token pl 4.
Proof.
  intros (_ & _ & Hd & Hs & Ht & Hp & _) Hpl. pose proof (zlen_nonneg token). change (2 ^ 56) with 72057594037927936 in Hp. change (2 ^ 16) with 65536 in Ht.
  unfold lhdr_args_ok, is_u32, is_varint, QUIC_VARINT_MAX. split_and!; try done; lia.
Qed.

(** The packet [quic_tx_packet] writes. *)
Definition tx_bytes (keys : quic_initial_keys) (hp : quic_aes128) (byte0 : Z) (dcid scid : list Z) (is_initial : Z) (token : list Z) (pn : Z) (payload : list Z) : list Z :=
  long_packet keys hp (quic_lhdr_byte0_pnlen byte0 4) (long_mid dcid scid is_initial token (4 + zlen payload + 16)) (be_bytes 4 pn) pn payload.

Definition tx_hdr_len (dcid scid : list Z) (is_initial : Z) (token : list Z) (pl : Z) : Z := 5 + zlen (long_mid dcid scid is_initial token (4 + pl + 16)).

Lemma tx_packet_spec keys hp byte0 dcid scid is_initial token pn payload pl out cap : tx_ok byte0 dcid scid token payload -> 0 <= pl <= zlen payload ->
  zlen out < 2 ^ 58 -> 0 <= cap <= zlen out -> let hl := tx_hdr_len dcid scid is_initial token pl in
  quic_tx_packet keys hp byte0 dcid (zlen dcid) scid (zlen scid) is_initial token (zlen token) pn payload pl out cap =
  if (HDR_CAP <? hl) || (cap <? hl + pl + 16) then Some (0, out)
  else Some (hl + pl + 16, splice out 0 (tx_bytes keys hp byte0 dcid scid is_initial token pn (take (Z.to_nat pl) payload))).
Proof.
  intros Hok Hpl Ho Hcap hl. pose proof (tx_args _ _ _ _ _ pl Hok Hpl) as Hargs. destruct Hok as (Hb & Hf & Hd & Hs & Ht & Hp & Hdu & Hsu & Htu & Hpu).
  unfold quic_tx_packet, QUIC_TX_PN_LEN. set (bytes := lhdr_bytes byte0 1 dcid scid is_initial token pl pn 4).
  assert (Hz : zlen bytes = hl).
  { unfold bytes. rewrite lhdr_bytes_split, zlen_cons, zlen_app, zlen_be_bytes. unfold hl, tx_hdr_len. lia. }
  pose proof (lhdr_build_spec byte0 1 dcid scid is_initial token pl pn 4 (local HDR_CAP) HDR_CAP Hargs
    ltac:(rewrite zlen_local; [unfold HDR_CAP, QUIC_MAX_CID_LEN; lia|done]) ltac:(done)) as L. cbv zeta in L. fold bytes in L. rewrite Hz in L.
  destruct (Z.leb_spec hl HDR_CAP) as [Hle|Hgt].
  2:{ destruct L as (o' & -> & _). cbn [mbind option_bind]. ztrue (HDR_CAP <? hl). done. }
  rewrite L. cbn [mbind option_bind]. zfalse (HDR_CAP <? hl). cbn [orb].
  set (b := quic_lhdr_byte0_pnlen byte0 4). set (mid := long_mid dcid scid is_initial token (4 + pl + 16)).
  assert (Hhl : hl = 5 + zlen mid) by done. pose proof (zlen_nonneg mid). destruct (Z.eqb_spec hl 0); [lia|].
  assert (Hbytes : bytes = b :: mid ++ be_bytes 4 pn) by apply lhdr_bytes_split.
  assert (Hlc : zlen (local HDR_CAP) = 104) by reflexivity. change HDR_CAP with 104 in Hle. unwrap.
  replace (hl - 4) with (1 + zlen mid) by lia. rewrite <- Hz, Hbytes.
  rewrite protect_seal_spec; rewrite <- ?Hbytes, ?Hz.
  - destruct (cap <? hl + pl + 16); [done|]. unfold tx_bytes. by rewrite zlen_take by lia.
  - apply take_splice_0.
  - rewrite zlen_splice by lia. lia.
  - rewrite zlen_splice, Hlc by lia. lia.
  - apply zlen_be_bytes.
  - rewrite Hbytes. apply List.Forall_cons; [by apply byte0_pnlen_long|]. apply Forall_app. split; [by apply long_mid_u8|apply be_bytes_u8].
  - exact Hpu.
  - exact Hpl.
  - change (2 ^ 56) with 72057594037927936 in Hp. change (2 ^ 58) with 288230376151711744. lia.
  - exact Ho.
  - lia.
Qed.

Definition tx_hdr (byte0 : Z) (dcid scid : list Z) (is_initial : Z) (token : list Z) (pl pn : Z) : list Z :=
  quic_lhdr_byte0_pnlen byte0 4 :: long_mid dcid scid is_initial token (4 + pl + 16) ++ be_bytes 4 pn.

Lemma masked_long b m : is_u8 b -> is_u8 m -> Z.land b 0x80 <> 0 ->
  is_u8 (Z.lxor b (Z.land m QUIC_HP_LONG_MASK)) /\ Z.land (Z.lxor b (Z.land m QUIC_HP_LONG_MASK)) 0x80 <> 0.
Proof. intros Hb Hm Hf. split; [apply u8_lxor; [done|by apply land_u8]|]. by rewrite land_masked. Qed.

Lemma be_value_4 pn : 0 <= pn < 2 ^ 32 -> be_value (be_bytes 4 pn) = pn.
Proof. intros Hp. rewrite be_value_be_bytes. apply Z.mod_small. exact Hp. Qed.

(** The receiver finds the parts of a packet sent, whatever follows it in the datagram. *)
Lemma rx_packet_spec h0 keys hp byte0 dcid scid is_initial token pn payload post len : tx_ok byte0 dcid scid token payload -> 0 <= pn < 2 ^ 32 ->
  zlen (qh_dcid h0) = QUIC_MAX_CID_LEN -> zlen (qh_scid h0) = QUIC_MAX_CID_LEN -> zlen post < 2 ^ 56 ->
  let hdr := tx_hdr byte0 dcid scid is_initial token (zlen payload) pn in let pkt := tx_bytes keys hp byte0 dcid scid is_initial token pn payload in
  zlen pkt <= len <= zlen pkt + zlen post ->
  quic_rx_packet h0 keys hp (pkt ++ post) len is_initial =
  Some (hdr ++ payload ++ pkt_mac keys pn hdr (pkt_cipher keys pn payload) ++ post, Some (zlen hdr, zlen payload)).
Proof.
  intros Hok Hpn Hd0 Hs0 Hpost hdr pkt Hlen. pose proof (zlen_nonneg payload). pose proof (tx_args _ _ _ _ _ (zlen payload) Hok ltac:(lia)) as (_ & _ & _ & Hvt & _ & _ & Hvl).
  destruct Hok as (Hb & Hf & Hd & Hs & Ht & Hp & Hdu & Hsu & Htu & Hpu). change (2 ^ 56) with 72057594037927936 in *. change (2 ^ 16) with 65536 in Ht.
  set (length := 4 + zlen payload + 16) in *. set (b := quic_lhdr_byte0_pnlen byte0 4). set (mid := long_mid dcid scid is_initial token length).
  set (ct := pkt_cipher keys pn payload). set (tag := pkt_mac keys pn hdr ct).
  assert (Hct : zlen ct = zlen payload) by apply zlen_pkt_cipher. assert (Htag : zlen tag = 16) by apply zlen_pkt_mac.
  pose proof (byte0_pnlen_long byte0 4 Hb Hf) as [Hb' Hf']. fold b in Hb', Hf'.
  assert (Hpz : zlen pkt = 21 + zlen mid + zlen payload) by (apply zlen_long_packet, zlen_be_bytes).
  set (mask := quic_hp_mask hp (take 16 (ct ++ tag))). assert (Hpkt : pkt ++ post = hp_header mask QUIC_HP_LONG_MASK b mid (be_bytes 4 pn) ++ ct ++ tag ++ post).
  { unfold pkt, tx_bytes, long_packet. cbv zeta. fold length b mid. unfold sealed. cbv zeta. change (b :: mid ++ be_bytes 4 pn) with hdr. fold ct tag mask.
    by rewrite <- !app_assoc. }
  assert (Hmz : zlen mid <= 4 + 21 + 21 + (8 + 65536) + 8).
  { unfold mid, long_mid. rewrite !zlen_app, !zlen_cid_bytes, zlen_be_bytes, zlen_varint_bytes by done. unfold token_field.
    pose proof (varint_len_pos _ Hvt). pose proof (varint_len_pos _ Hvl). unfold QUIC_MAX_CID_LEN in *.
    destruct (is_initial =? 0); [change (zlen (@nil Z)) with 0|rewrite zlen_app, zlen_varint_bytes by done]; lia. }
  set (b' := Z.lxor b (Z.land (at_ mask 0) QUIC_HP_LONG_MASK)).
  destruct (masked_long b (at_ mask 0) Hb' (at_u8 _ _ (hp_mask_u8 _ _)) Hf') as [Hb'' Hf'']. fold b' in Hb'', Hf''.
  set (rest := zip_xor (be_bytes 4 pn) (drop 1 mask) ++ ct ++ tag ++ post).
  assert (Hfr : pkt ++ post = (long_bytes b' 1 dcid scid ++ token_field is_initial token ++ varint_bytes length) ++ rest).
  { rewrite Hpkt. unfold hp_header, rest, long_bytes, mid, long_mid. cbn [app]. by rewrite <- !app_assoc. }
  assert (Hfz : zlen (long_bytes b' 1 dcid scid ++ token_field is_initial token ++ varint_bytes length) = 1 + zlen mid).
  { unfold long_bytes, mid, long_mid. rewrite <- (zlen_cons b'). f_equal. cbn [app]. by rewrite <- !app_assoc. }
  unfold quic_rx_packet. rewrite Hfr at 1. pose proof (zlen_nonneg mid). pose proof (zlen_nonneg post).
  rewrite lhdr_parse_front; try assumption; [|done| |unfold max_object; lia].
  2:{ rewrite <- Hfr, zlen_app. lia. }
  rewrite Hfz. ztrue (1 + zlen mid <=? len). cbn [mbind option_bind lv_pn_off lv_length]. rewrite Hpkt.
  replace length with (zlen (be_bytes 4 pn) + zlen ct + 16) by (rewrite zlen_be_bytes; unfold length; lia).
  unfold mask. rewrite (vpn_open_spec keys hp b mid (be_bytes 4 pn) ct tag post); rewrite ?zlen_be_bytes; change (Z.of_nat 4) with 4.
  - rewrite be_value_4 by done. change (b :: mid ++ be_bytes 4 pn) with hdr. f_equal. apply opened_sealed.
  - rewrite app_assoc. apply (sealed_front keys pn hdr payload post).
  - symmetry. apply (pn_len_byte0 byte0 4). lia.
  - exact Htag.
  - lia.
  - apply List.Forall_cons; [exact Hb'|]. apply Forall_app. split; [by apply long_mid_u8|apply be_bytes_u8].
  - by apply pkt_cipher_u8.
  - lia.
  - change (2 ^ 58) with 288230376151711744. lia.
  - change (2 ^ 58) with 288230376151711744. lia.
Qed.

(** C6: Long-header packets round trip.  For every key, header form, pair of connection IDs, token, packet number below 2^32 and
    payload, [quic_tx_packet] writes header, ciphertext and tag at the front of the output and nothing behind it when the
    header fits its 104-octet buffer and the packet the output, and returns 0 otherwise; and [quic_rx_packet] on that
    output, with any length from the packet's on (other packets may follow in the datagram), finds
    the payload at the offset reported and the header unprotected. *)
Theorem long_packet_roundtrip (h0 : quic_header) (keys : quic_initial_keys) (hp : quic_aes128) (byte0 : Z) (dcid scid : list Z)
  (is_initial : Z) (token : list Z) (pn : Z) (payload out : list Z) (cap : Z)
  (Hok : tx_ok byte0 dcid scid token payload) (Hpn : 0 <= pn < 2 ^ 32) (Ho : zlen out < 2 ^ 56) (Hcap : 0 <= cap <= zlen out)
  (Hd0 : zlen (qh_dcid h0) = QUIC_MAX_CID_LEN) (Hs0 : zlen (qh_scid h0) = QUIC_MAX_CID_LEN) :
  let hdr := lhdr_bytes byte0 1 dcid scid is_initial token (zlen payload) pn 4 in let total := zlen hdr + zlen payload + 16 in
  let tx := quic_tx_packet keys hp byte0 dcid (zlen dcid) scid (zlen scid) is_initial token (zlen token) pn payload (zlen payload) out cap in
  (104 < zlen hdr \/ cap < total -> tx = Some (0, out)) /\
  (zlen hdr <= 104 -> total <= cap -> exists out' tag, tx = Some (total, out') /\ zlen tag = 16 /\
     drop (Z.to_nat total) out' = drop (Z.to_nat total) out /\
     forall len, total <= len <= zlen out ->
       quic_rx_packet h0 keys hp out' len is_initial = Some (hdr ++ payload ++ tag ++ drop (Z.to_nat total) out, Some (zlen hdr, zlen payload))).
Proof.
  intros hdr total tx. pose proof (zlen_nonneg payload). pose proof Hok as (_ & _ & _ & _ & _ & Hp & _). change (2 ^ 56) with 72057594037927936 in *.
  assert (Hhd : hdr = tx_hdr byte0 dcid scid is_initial token (zlen payload) pn) by apply lhdr_bytes_split.
  assert (Hhz : zlen hdr = tx_hdr_len dcid scid is_initial token (zlen payload))
    by (rewrite Hhd; unfold tx_hdr, tx_hdr_len; rewrite zlen_cons, zlen_app, zlen_be_bytes; lia).
  assert (Hpz : zlen (tx_bytes keys hp byte0 dcid scid is_initial token pn payload) = total)
    by (unfold tx_bytes; rewrite zlen_long_packet by apply zlen_be_bytes; unfold total; rewrite Hhz; unfold tx_hdr_len; lia).
  assert (Htx : tx = if (HDR_CAP <? zlen hdr) || (cap <? total) then Some (0, out)
    else Some (total, splice out 0 (tx_bytes keys hp byte0 dcid scid is_initial token pn payload))).
  { unfold tx. rewrite tx_packet_spec; [|exact Hok|lia|change (2 ^ 58) with 288230376151711744; lia|lia]. cbv zeta. rewrite <- Hhz.
    replace (take (Z.to_nat (zlen payload)) payload) with payload by (unfold zlen; by rewrite Nat2Z.id, firstn_all). reflexivity. }
  rewrite Htx. change HDR_CAP with 104. split.
  - intros [Hbig|Hsmall]; [by ztrue (104 <? zlen hdr)|]. ztrue (cap <? total). by rewrite orb_true_r.
  - intros Hfit Hroom. zfalse (104 <? zlen hdr). zfalse (cap <? total). cbn [orb]. pose proof (zlen_nonneg hdr).
    exists (splice out 0 (tx_bytes keys hp byte0 dcid scid is_initial token pn payload)), (pkt_mac keys pn hdr (pkt_cipher keys pn payload)).
    split_and!; [reflexivity|apply zlen_pkt_mac|apply drop_splice; lia|]. intros len Hlen. rewrite splice_tail by lia.
    replace (length (tx_bytes keys hp byte0 dcid scid is_initial token pn payload)) with (Z.to_nat total) by (unfold zlen in *; lia).
    rewrite Hhd. assert (Hdz : zlen (drop (Z.to_nat total) out) = zlen out - total) by (apply zlen_drop; lia).
    apply rx_packet_spec; try assumption; [change (2 ^ 56) with 72057594037927936; lia|lia].
Qed.

(** Witness of C6: an Initial packet with a token. *)
Lemma long_packet_roundtrip_witness :
  let keys := mk_ikeys (repeat 1 16) (repeat 2 12) (repeat 3 16) in let hp := quic_aes128_init (repeat 3 16) in
  exists out' tag,
    quic_tx_packet keys hp 0xc0 [1; 2; 3; 4] 4 [5; 6] 2 1 [7; 8; 9] 3 77 [6; 0; 1; 5] 4 (repeat 0 60) 50 = Some (42, out') /\
    zlen tag = 16 /\ drop 42 out' = repeat 0 18 /\
    forall len, 42 <= len <= 60 -> quic_rx_packet header_blank keys hp out' len 1 =
      Some (lhdr_bytes 0xc0 1 [1; 2; 3; 4] [5; 6] 1 [7; 8; 9] 4 77 4 ++ [6; 0; 1; 5] ++ tag ++ repeat 0 18, Some (22, 4)).
Proof.
  intros keys hp. refine (proj2 (long_packet_roundtrip header_blank keys hp 0xc0 [1; 2; 3; 4] [5; 6] 1 [7; 8; 9] 77 [6; 0; 1; 5] (repeat 0 60) 50
    _ _ _ _ eq_refl eq_refl) _ _); try closed_arith.
  split_and!; try closed_arith; by apply u8_by_eval.
Defined.

(** * Initial packets *)

Definition crypto_frame (tls : list Z) : list Z := fc_bytes (mk_crypto 0 (zlen tls) tls).

(** With [max_frame] the whole length, one CRYPTO frame is emitted. *)
Lemma emit_whole tls out cap : 1 <= zlen tls < 2 ^ 30 -> 0 <= cap <= zlen out -> cap < max_object ->
  let bs := crypto_frame tls in
  if zlen bs <=? cap then quic_crypto_stream_emit tls (zlen tls) 0 (zlen tls) out cap = Some (true, zlen bs, splice out 0 bs)
  else exists out' n, quic_crypto_stream_emit tls (zlen tls) 0 (zlen tls) out cap = Some (false, n, out').
Proof.
  intros Ht Hcap Ho. change (2 ^ 30) with 1073741824 in Ht. unfold quic_crypto_stream_emit. destruct (Z.eqb_spec (zlen tls) 0); [lia|]. cbn [negb].
  pose proof (emit_loop_spec tls 0 (zlen tls) cap ltac:(lia) ltac:(lia) Ho ltac:(unfold QUIC_VARINT_MAX; lia) (Z.to_nat (zlen tls)) out 0 0
    ltac:(lia) ltac:(lia) ltac:(lia) ltac:(lia)) as E. cbv zeta in E.
  assert (Hp : pieces (Z.to_nat (zlen tls)) (zlen tls) (zlen tls) 0 = [(0, zlen tls)]).
  { destruct (Z.to_nat (zlen tls)) as [|k] eqn:Ek; [lia|]. cbn [pieces]. ztrue (0 <? zlen tls). rewrite Z.sub_0_r, Z.min_id, Z.add_0_l. f_equal.
    destruct k; cbn [pieces]; [done|]. by rewrite Z.ltb_irrefl. }
  assert (Hb : frames_bytes (map (piece_frame tls 0) [(0, zlen tls)]) = crypto_frame tls).
  { unfold frames_bytes, crypto_frame, piece_frame. cbn [map concat fst snd]. rewrite app_nil_r, Z.add_0_l.
    replace (slice tls 0 (zlen tls)) with tls; [done|]. unfold slice, zlen. by rewrite Nat2Z.id, firstn_all. }
  rewrite Hp, Hb, !Z.add_0_l in E. destruct (zlen (crypto_frame tls) <=? cap); [by rewrite E|].
  destruct E as (out' & pos' & w' & -> & _). by eexists _, _.
Qed.

Lemma fill_zero_spec k : forall buf w fill, zlen w <= fill -> fill <= zlen buf -> fill - zlen w <= Z.of_nat k ->
  fill_zero k (splice buf 0 w) (zlen w) fill = Some (splice buf 0 (w ++ repeat 0 (Z.to_nat (fill - zlen w))), fill).
Proof.
  induction k as [|k IH]; intros buf w fill Hw Hf Hk; cbn [fill_zero]; destruct (Z.ltb_spec (zlen w) fill) as [Hlt|Hge]; try lia;
    try (replace fill with (zlen w) by lia; rewrite Z.sub_diag; change (repeat 0 (Z.to_nat 0)) with (@nil Z); by rewrite app_nil_r).
  rewrite store_front by (done || lia). cbn [mbind option_bind]. replace (zlen w + 1) with (zlen (w ++ [0])) by (rewrite zlen_app; done).
  assert (H1 : zlen (w ++ [0]) = zlen w + 1) by (rewrite zlen_app; done).
  rewrite IH by lia. do 3 f_equal. rewrite H1. replace (Z.to_nat (fill - zlen w)) with (S (Z.to_nat (fill - (zlen w + 1)))) by lia.
  cbn [repeat]. by rewrite <- app_assoc.
Qed.

(** The plaintext of an Initial packet: the CRYPTO frame and PADDING up to the target. *)
Definition initial_payload (tls : list Z) (target : Z) : list Z :=
  crypto_frame tls ++ repeat 0 (Z.to_nat (target - zlen (crypto_frame tls))).

Lemma zlen_initial_payload tls target : zlen (initial_payload tls target) = Z.max (zlen (crypto_frame tls)) target.
Proof. unfold initial_payload. rewrite zlen_app. unfold zlen at 2. rewrite repeat_length. lia. Qed.

Lemma build_payload_spec tls target : 1 <= zlen tls < 2 ^ 30 -> 0 <= target <= 1200 ->
  if zlen (crypto_frame tls) <=? 1200
  then build_payload tls (zlen tls) target (local 1200) 1200 =
       Some (splice (local 1200) 0 (initial_payload tls target), Some (zlen (initial_payload tls target)))
  else exists buf, build_payload tls (zlen tls) target (local 1200) 1200 = Some (buf, None).
Proof.
  intros Ht Hta. assert (Hl : zlen (local 1200) = 1200) by (apply zlen_local; lia). unfold build_payload.
  pose proof (emit_whole tls (local 1200) 1200 Ht ltac:(lia) ltac:(done)) as E. cbv zeta in E.
  rewrite zlen_initial_payload. unfold initial_payload. set (bs := crypto_frame tls) in *. pose proof (zlen_nonneg bs).
  assert (Hf : initpkt_min_usz target 1200 = target) by (unfold initpkt_min_usz; zcase; lia). rewrite Hf.
  destruct (Z.leb_spec (zlen bs) 1200) as [Hle|Hgt].
  - rewrite E. cbn [mbind option_bind negb]. destruct (Z.le_ge_cases (zlen bs) target) as [Hlt|Hge].
    + rewrite fill_zero_spec by lia. cbn [mbind option_bind]. by rewrite Z.max_r by lia.
    + rewrite Z.max_l by lia. replace (Z.to_nat (target - zlen bs)) with 0%nat by lia. cbn [repeat]. rewrite app_nil_r.
      destruct (Z.to_nat target); cbn [fill_zero]; by zfalse (zlen bs <? target).
  - destruct E as (out' & n & ->). by eexists.
Qed.

(** The header of an Initial packet with an empty token and a payload around 1200 octets. *)
Lemma initial_hdr_len dcid scid pl : zlen dcid <= QUIC_MAX_CID_LEN -> zlen scid <= QUIC_MAX_CID_LEN -> 44 <= pl <= 1200 ->
  tx_hdr_len dcid scid 1 [] pl = 14 + zlen dcid + zlen scid.
Proof.
  intros Hd Hs Hp. unfold tx_hdr_len, long_mid. rewrite !zlen_app, !zlen_cid_bytes, zlen_be_bytes.
  assert (Hv : zlen (varint_bytes (4 + pl + 16)) = 2).
  { rewrite zlen_varint_bytes by (unfold is_varint, QUIC_VARINT_MAX; lia). unfold quic_varint_len.
    change varint_max with [0x3F; 0x3FFF; 0x3FFFFFFF; 0x3FFFFFFFFFFFFFFF]. cbn [len_class]. by zdecide. }
  rewrite Hv. change (zlen (token_field 1 [])) with 1. lia.
Qed.

Lemma pad_target_spec d s : 0 <= d <= 20 -> 0 <= s <= 20 -> pad_target d s = 1170 - d - s.
Proof. intros Hd Hs. unfold pad_target. zdecide. lia. Qed.

Lemma crypto_frame_u8 tls : zlen tls < 2 ^ 30 -> Forall is_u8 tls -> Forall is_u8 (crypto_frame tls).
Proof.
  intros Hl Ht. change (crypto_frame tls) with ([QUIC_FRAME_CRYPTO] ++ varint_bytes 0 ++ varint_bytes (zlen tls) ++ tls).
  rewrite !Forall_app. split_and!; [by apply u8_by_eval|apply be_bytes_u8..|done].
Qed.

Lemma initial_payload_u8 tls target : zlen tls < 2 ^ 30 -> Forall is_u8 tls -> Forall is_u8 (initial_payload tls target).
Proof.
  intros Hl Ht. apply Forall_app. split; [by apply crypto_frame_u8|]. apply List.Forall_forall. intros x Hx. apply repeat_spec in Hx.
  subst x. unfold is_u8. lia.
Qed.

(** The array the plaintext is built in. *)
Definition payload_array (payload : list Z) : list Z := splice (local 1200) 0 payload.

Lemma payload_array_ok dcid scid payload : zlen dcid <= QUIC_MAX_CID_LEN -> zlen scid <= QUIC_MAX_CID_LEN ->
  Forall is_u8 dcid -> Forall is_u8 scid -> Forall is_u8 payload -> zlen payload <= 1200 ->
  tx_ok 0xc3 dcid scid [] (payload_array payload) /\ zlen (payload_array payload) = 1200 /\
  take (Z.to_nat (zlen payload)) (payload_array payload) = payload.
Proof.
  intros Hd Hs Hdu Hsu Hpu Hp. assert (Hl : zlen (local 1200) = 1200) by (apply zlen_local; lia).
  assert (Hz : zlen (payload_array payload) = 1200) by (unfold payload_array; rewrite zlen_splice by lia; done).
  split; [|split; [done|apply take_splice_front]]. unfold tx_ok. rewrite Hz. split_and!; try done.
  unfold payload_array. rewrite splice_tail by lia. apply Forall_app. split; [done|]. apply Forall_drop, List.Forall_forall.
  intros x Hx. apply repeat_spec in Hx. subst x. unfold is_u8. lia.
Qed.

(** What [quic_initpkt_build] does after the plaintext is built. *)
Lemma initpkt_build_spec dcid scid tls pn out cap : zlen dcid <= QUIC_MAX_CID_LEN -> zlen scid <= QUIC_MAX_CID_LEN ->
  Forall is_u8 dcid -> Forall is_u8 scid -> 1 <= zlen tls < 2 ^ 30 -> Forall is_u8 tls -> zlen out < 2 ^ 56 -> 0 <= cap <= zlen out ->
  let target := 1170 - zlen dcid - zlen scid in let payload := initial_payload tls target in
  let keys := initial_keys_spec dcid false in let total := 30 + zlen dcid + zlen scid + zlen payload in
  quic_initpkt_build dcid (zlen dcid) scid (zlen scid) tls (zlen tls) pn out cap =
  Some (if (zlen (crypto_frame tls) <=? 1200) && (total <=? cap)
        then (splice out 0 (tx_bytes keys (quic_aes128_init (ik_hp keys)) 0xc3 dcid scid 1 [] pn payload), Some total) else (out, None)).
Proof.
  intros Hd Hs Hdu Hsu Ht Htu Ho Hcap target payload keys total. pose proof (zlen_nonneg dcid). pose proof (zlen_nonneg scid).
  pose proof (zlen_nonneg (crypto_frame tls)). change QUIC_MAX_CID_LEN with 20 in Hd, Hs.
  unfold quic_initpkt_build. rewrite initpkt_derive_spec by (change (2 ^ 60) with 1152921504606846976; lia). fold keys. cbn [mbind option_bind].
  rewrite pad_target_spec by lia. fold target. pose proof (build_payload_spec tls target Ht ltac:(unfold target; lia)) as Hb. fold payload in Hb.
  destruct (Z.leb_spec (zlen (crypto_frame tls)) 1200) as [Hle|Hgt]; [|destruct Hb as [buf ->]; reflexivity]. rewrite Hb. cbn [mbind option_bind andb].
  fold (payload_array payload). assert (Hpz : zlen payload = Z.max (zlen (crypto_frame tls)) target) by apply zlen_initial_payload.
  destruct (payload_array_ok dcid scid payload Hd Hs Hdu Hsu (initial_payload_u8 tls target ltac:(lia) Htu) ltac:(unfold target in *; lia)) as (Hok & Haz & Htk).
  pose proof (tx_packet_spec keys (quic_aes128_init (ik_hp keys)) 0xc3 dcid scid 1 [] pn (payload_array payload) (zlen payload) out cap Hok
    ltac:(unfold target in *; lia) ltac:(change (2 ^ 56) with 72057594037927936 in Ho; change (2 ^ 58) with 288230376151711744; lia) Hcap) as T.
  change (zlen (@nil Z)) with 0 in T. rewrite T.
  cbv zeta. rewrite initial_hdr_len, Htk by (unfold QUIC_MAX_CID_LEN, target in *; lia). change HDR_CAP with 104. zfalse (104 <? 14 + zlen dcid + zlen scid). cbn [orb].
  replace (14 + zlen dcid + zlen scid + zlen payload + 16) with total by (unfold total; lia).
  destruct (Z.ltb_spec cap total), (Z.leb_spec total cap); try lia; cbn [mbind option_bind]; [reflexivity|].
  destruct (Z.eqb_spec total 0); [unfold total, target in *; lia|reflexivity].
Qed.

(** C7: Initial packets.  A ClientHello whose CRYPTO frame fits 1200 octets is sent in a datagram of at least
    1200 octets, of exactly 1200 when the frame leaves room for padding: the plaintext is one CRYPTO frame with all of
    the octets at offset 0, then PADDING; it is sealed with the client keys of RFC 9001 section 5.2 (HKDF-Extract of
    the connection ID with the version 1 salt, HKDF-Expand-Label with "client in", "quic key", "quic iv",
    "quic hp"); and the server, which derives the same keys from the connection ID, opens the datagram to that
    plaintext.  A frame that does not fit, or an output that is too small, is refused. *)
Theorem initial_packet_roundtrip (h0 : quic_header) (dcid scid tls : list Z) (pn : Z) (out : list Z) (cap : Z)
  (Hd : zlen dcid <= QUIC_MAX_CID_LEN) (Hs : zlen scid <= QUIC_MAX_CID_LEN) (Hdu : Forall is_u8 dcid) (Hsu : Forall is_u8 scid)
  (Ht : 1 <= zlen tls < 2 ^ 30) (Htu : Forall is_u8 tls) (Hpn : 0 <= pn < 2 ^ 32) (Ho : zlen out < 2 ^ 56) (Hcap : 0 <= cap <= zlen out)
  (Hd0 : zlen (qh_dcid h0) = QUIC_MAX_CID_LEN) (Hs0 : zlen (qh_scid h0) = QUIC_MAX_CID_LEN) :
  let frame := crypto_frame tls in let target := 1170 - zlen dcid - zlen scid in let payload := initial_payload tls target in
  let keys := initial_keys_spec dcid false in let hl := 14 + zlen dcid + zlen scid in let total := hl + zlen payload + 16 in
  let built := quic_initpkt_build dcid (zlen dcid) scid (zlen scid) tls (zlen tls) pn out cap in
  quic_initial_derive dcid (zlen dcid) false keys_blank = Some keys /\
  1200 <= total /\ (zlen frame <= target -> total = 1200) /\
  (1200 < zlen frame \/ cap < total -> built = Some (out, None)) /\
  (zlen frame <= 1200 -> total <= cap -> exists out' hdr tag, built = Some (out', Some total) /\ zlen hdr = hl /\ zlen tag = 16 /\
     drop (Z.to_nat total) out' = drop (Z.to_nat total) out /\
     quic_initpkt_open h0 dcid (zlen dcid) out' total = Some (hdr ++ payload ++ tag ++ drop (Z.to_nat total) out, Some (hl, zlen payload))).
Proof.
  intros frame target payload keys hl total built. pose proof (zlen_nonneg dcid). pose proof (zlen_nonneg scid). pose proof (zlen_nonneg frame).
  change QUIC_MAX_CID_LEN with 20 in Hd, Hs. assert (Hd60 : zlen dcid < 2 ^ 60) by (change (2 ^ 60) with 1152921504606846976; lia).
  pose proof (zlen_initial_payload tls target) as Hpz. fold frame payload in Hpz. change (2 ^ 56) with 72057594037927936 in Ho.
  assert (Hb : built = Some (if (zlen frame <=? 1200) && (total <=? cap)
    then (splice out 0 (tx_bytes keys (quic_aes128_init (ik_hp keys)) 0xc3 dcid scid 1 [] pn payload), Some total) else (out, None))).
  { unfold built. rewrite initpkt_build_spec by assumption. fold target payload keys.
    by replace (30 + zlen dcid + zlen scid + zlen payload) with total by (unfold total, hl; lia). }
  split_and!; [by apply initial_derive_spec|unfold total, hl, target in *; lia|unfold total, hl, target in *; lia| |].
  - intros Hbad. rewrite Hb. destruct (Z.leb_spec (zlen frame) 1200), (Z.leb_spec total cap); try done. lia.
  - intros Hf Hc. rewrite Hb. ztrue (zlen frame <=? 1200). ztrue (total <=? cap). cbn [andb].
    set (hp := quic_aes128_init (ik_hp keys)). set (pkt := tx_bytes keys hp 0xc3 dcid scid 1 [] pn payload). set (hdr := tx_hdr 0xc3 dcid scid 1 [] (zlen payload) pn).
    assert (Hhl : zlen hdr = hl).
    { transitivity (tx_hdr_len dcid scid 1 [] (zlen payload)); [|apply initial_hdr_len; unfold QUIC_MAX_CID_LEN, target in *; lia].
      unfold hdr, tx_hdr, tx_hdr_len. rewrite zlen_cons, zlen_app, zlen_be_bytes. lia. }
    assert (Hpkt : zlen pkt = total).
    { unfold pkt, tx_bytes. rewrite zlen_long_packet by apply zlen_be_bytes. unfold total. rewrite <- Hhl. unfold hdr, tx_hdr.
      rewrite zlen_cons, zlen_app, zlen_be_bytes. lia. }
    exists (splice out 0 pkt), hdr, (pkt_mac keys pn hdr (pkt_cipher keys pn payload)).
    split_and!; [reflexivity|exact Hhl|apply zlen_pkt_mac|apply drop_splice; unfold total, hl in *; lia|]. rewrite splice_tail by lia.
    replace (length pkt) with (Z.to_nat total) by (unfold zlen in *; lia).
    unfold quic_initpkt_open. rewrite initpkt_derive_spec by exact Hd60. fold keys. cbn [mbind option_bind]. fold hp. rewrite <- Hhl.
    assert (Hdz : zlen (drop (Z.to_nat total) out) = zlen out - total) by (apply zlen_drop; unfold total, hl in *; lia).
    apply rx_packet_spec; try assumption; [|change (2 ^ 56) with 72057594037927936; lia|fold pkt; lia].
    destruct (payload_array_ok dcid scid payload Hd Hs Hdu Hsu (initial_payload_u8 tls target ltac:(lia) Htu) ltac:(unfold target in *; lia)) as (Hok & _ & _).
    destruct Hok as (Hx1 & Hx2 & Hx3 & Hx4 & Hx5 & _ & Hx6 & Hx7 & Hx8 & _). unfold tx_ok. split_and!; try assumption.
    + unfold target in *. change (2 ^ 56) with 72057594037927936. lia. + apply initial_payload_u8; [lia|done].
Qed.

(** Witness of C7: a ClientHello of three octets. *)
Lemma initial_packet_roundtrip_witness :
  let dcid := [0x83; 0x94; 0xc8; 0xf0; 0x3e; 0x51; 0x57; 0x08] in let payload := initial_payload [1; 2; 3] 1160 in
  exists out' hdr tag, quic_initpkt_build dcid 8 [7; 7] 2 [1; 2; 3] 3 2 (repeat 0 1300) 1250 = Some (out', Some 1200) /\ zlen hdr = 24 /\ zlen tag = 16 /\
    drop 1200 out' = repeat 0 100 /\
    quic_initpkt_open header_blank dcid 8 out' 1200 = Some (hdr ++ payload ++ tag ++ repeat 0 100, Some (24, 1160)).
Proof.
  intros dcid payload.
  refine (proj2 (proj2 (proj2 (proj2 (initial_packet_roundtrip header_blank dcid [7; 7] [1; 2; 3] 2 (repeat 0 1300) 1250
    _ _ (u8_by_eval dcid eq_refl) (u8_by_eval [7; 7] eq_refl) _ (u8_by_eval [1; 2; 3] eq_refl) _ _ _ eq_refl eq_refl)))) _ _); closed_arith.
Defined.

(** RFC 9001 section A.1: the client Initial key and IV of the example connection ID. *)
Example initial_keys_vector :
  option_map (fun k => (ik_key k, ik_iv k)) (quic_initial_derive [0x83; 0x94; 0xc8; 0xf0; 0x3e; 0x51; 0x57; 0x08] 8 false keys_blank) =
  Some ([31; 54; 150; 19; 221; 118; 213; 70; 119; 48; 239; 203; 227; 177; 162; 45],
        [250; 4; 75; 47; 66; 163; 253; 59; 70; 251; 37; 92]).
Proof. vm_compute. reflexivity. Qed.

(** * Handshake packets, and the small builders of pktbuild *)

(** A Handshake packet is opened as a received packet without a token. *)
Lemma hspkt_open_rx h0 keys hp pkt len : quic_hspkt_open h0 keys hp pkt len = quic_rx_packet h0 keys hp pkt len 0.
Proof. reflexivity. Qed.

(** The frames one after the other, or nothing reported. *)
Lemma framepack_spec frames payload cap : Forall (fun f => zlen f < max_object) frames -> 0 <= cap <= zlen payload -> cap < max_object ->
  if zlen (concat frames) <=? cap
  then quic_pktbuild_framepack (map (fun f => (f, zlen f)) frames) payload cap = Some (splice payload 0 (concat frames), Some (zlen (concat frames)))
  else exists payload', quic_pktbuild_framepack (map (fun f => (f, zlen f)) frames) payload cap = Some (payload', None).
Proof.
  intros Hf Hcap Ho. unfold quic_pktbuild_framepack.
  assert (W : Writes (each (fun p : list Z * Z => quic_put_bytes (fst p) (snd p)) (map (fun f => (f, zlen f)) frames)) (concat frames)).
  { replace (concat frames) with (concat (map (fun p : list Z * Z => fst p) (map (fun f => (f, zlen f)) frames)))
      by (rewrite map_map; cbn [fst]; by rewrite map_id).
    apply writes_each. intros [f l] Hin. apply list_elem_of_In, in_map_iff in Hin as (f' & [= <- <-] & Hin). cbn [fst snd].
    apply writes_put_bytes_all. rewrite List.Forall_forall in Hf. exact (Hf f' Hin). }
  specialize (W cap payload 0 ltac:(lia) ltac:(lia) Ho). rewrite Z.add_0_l in W.
  destruct (zlen (concat frames) <=? cap); [by rewrite W|]. destruct W as (buf' & off' & -> & _). by eexists.
Qed.

(** A datagram is padded to 1200 octets when there is room, with zeros right behind it. *)
Lemma init_pad_spec datagram n cap : 0 <= n <= zlen datagram -> cap <= zlen datagram -> zlen datagram < max_object ->
  quic_pktbuild_init_pad datagram n cap =
  if (n <? 1200) && (1200 <=? cap) then Some (1200, splice datagram n (repeat 0 (Z.to_nat (1200 - n)))) else Some (n, datagram).
Proof.
  intros Hn Hcap Ho. unfold quic_pktbuild_init_pad, pad_fits, quic_pad_needed. change QUIC_MIN_INITIAL_DATAGRAM with 1200.
  destruct (Z.leb_spec 1200 n); [by zdecide|]. zdecide. cbn [negb andb]. unwrap. replace (n + (1200 - n)) with 1200 by lia.
  destruct (Z.leb_spec 1200 cap); cbn [negb]; [|done].
  rewrite store_bytes_spec by (unfold zlen in *; rewrite ?repeat_length; lia). cbn [mbind option_bind]. unwrap.
  by replace (n + (1200 - n)) with 1200 by lia.
Qed.

(** A packet is ack-eliciting when one of its frames is not PADDING, ACK or CONNECTION_CLOSE. *)
Lemma is_eliciting_spec types n : 0 <= n <= zlen types ->
  quic_pktbuild_is_eliciting types n = Some (existsb (fun t => negb (is_non_eliciting t)) (take (Z.to_nat n) types)).
Proof.
  intros Hn. unfold quic_pktbuild_is_eliciting.
  assert (G : forall k i, 0 <= i -> i + Z.of_nat k <= zlen types ->
    is_eliciting_loop k types i = Some (existsb (fun t => negb (is_non_eliciting t)) (slice types i (Z.of_nat k)))).
  { induction k as [|k IH]; intros i Hi Hk; cbn [is_eliciting_loop]; [done|].
    rewrite slice_cons by lia. destruct (load_is_Some types i) as [t Ht]; [lia|]. rewrite Ht. cbn [mbind option_bind app existsb].
    destruct (negb (is_non_eliciting t)); [done|]. cbn [orb]. replace (Z.of_nat (S k) - 1) with (Z.of_nat k) by lia. apply IH; lia. }
  rewrite G by lia. rewrite Z2Nat.id by lia. done.
Qed.
