(* ===== verification/Cid.v ===== *)
(** Connection IDs and paths: [transport/conn/cid] (issuing and retiring
    connection IDs, the Initial exchange, Retry, stateless reset, path validation
    and migration, path MTU discovery, the spin bit) and the constant-time
    comparison [tls/ext/tpverify] it uses.  Tokens are HMACs ([Hkdf]). *)
From S2P Require Import Prelude Buffers Slots Headers Lifecycle Sha2 Hkdf.

(** * cidpool.c *)

Record quic_cidpool := mk_pool { cp_limit : Z; cp_next_seq : Z; cp_retire_lo : Z }.

Definition quic_cidpool_init (limit : Z) : quic_cidpool := mk_pool limit 0 0.

Definition quic_cidpool_active_count (p : quic_cidpool) : Z := cp_next_seq p -w cp_retire_lo p.

Definition quic_cidpool_issue (p : quic_cidpool) : option Z * quic_cidpool :=
  if cp_limit p <=? quic_cidpool_active_count p then (None, p)
  else (Some (cp_next_seq p), mk_pool (cp_limit p) (cp_next_seq p +w 1) (cp_retire_lo p)).

Definition quic_cidpool_retire_prior_to (p : quic_cidpool) (retire_prior_to : Z) : bool * quic_cidpool :=
  if cp_next_seq p <? retire_prior_to then (false, p)
  else (true, if cp_retire_lo p <? retire_prior_to
              then mk_pool (cp_limit p) (cp_next_seq p) retire_prior_to else p).

(** * path.c, antiamp.c, prefaddr.c *)

Record quic_path_state := mk_pstate {
  pt_challenge : Z; pt_bytes_sent : Z; pt_bytes_received : Z; pt_validated : Z; pt_confirmed : Z }.

Definition QUIC_PATH_COUNT : Z := 2.

Record quic_path := mk_path { pa_paths : list quic_path_state; pa_active : Z }.

(** All fields of both entries are assigned. *)
Definition quic_path_init (p : quic_path) : quic_path :=
  mk_path (map (fun _ => mk_pstate 0 0 0 0 0) (pa_paths p)) 0.

Definition set_challenge (s : quic_path_state) (v : Z) : quic_path_state :=
  mk_pstate v (pt_bytes_sent s) (pt_bytes_received s) (pt_validated s) (pt_confirmed s).
Definition set_validated (s : quic_path_state) : quic_path_state :=
  mk_pstate (pt_challenge s) (pt_bytes_sent s) (pt_bytes_received s) 1 (pt_confirmed s).
Definition set_confirmed (s : quic_path_state) (v : Z) : quic_path_state :=
  mk_pstate (pt_challenge s) (pt_bytes_sent s) (pt_bytes_received s) (pt_validated s) v.

Definition quic_path_send_challenge (p : quic_path) (path value : Z) : option quic_path :=
  match load (pa_paths p) path with
  | None => None
  | Some s => match store (pa_paths p) path (set_challenge s value) with
              | None => None
              | Some l => Some (mk_path l (pa_active p))
              end
  end.

Definition response_matches (s : quic_path_state) (value : Z) : bool :=
  negb (pt_challenge s =? 0) && (pt_challenge s =? value).

Definition quic_path_recv_response (p : quic_path) (path value : Z) : option (bool * quic_path) :=
  match load (pa_paths p) path with
  | None => None
  | Some s =>
      if negb (response_matches s value) then Some (false, p)
      else match store (pa_paths p) path (set_validated s) with
           | None => None
           | Some l => Some (true, mk_path l (pa_active p))
           end
  end.

Definition quic_path_can_send (p : quic_path) (path n : Z) : option bool :=
  match load (pa_paths p) path with
  | None => None
  | Some s =>
      if negb (pt_validated s =? 0) then Some true
      else Some (pt_bytes_sent s +w n <=? 3 *w pt_bytes_received s)
  end.

Definition clear_confirmed (p : quic_path) : quic_path :=
  mk_path (map (fun s => set_confirmed s 0) (pa_paths p)) (pa_active p).

Definition quic_path_confirm (p : quic_path) (path : Z) : option (bool * quic_path) :=
  match load (pa_paths p) path with
  | None => None
  | Some s =>
      if pt_validated s =? 0 then Some (false, p)
      else let p1 := clear_confirmed p in
           match store (pa_paths p1) path (set_confirmed s 1) with
           | None => None
           | Some l => Some (true, mk_path l path)
           end
  end.

Definition quic_antiamp_budget (received sent : Z) : Z :=
  let cap := 3 *w received in if cap <=? sent then 0 else cap -w sent.
Definition quic_antiamp_can_send (received sent want : Z) : bool := want <=? quic_antiamp_budget received sent.

Definition quic_prefaddr_may_migrate (path_validated handshake_confirmed : bool) : bool :=
  path_validated && handshake_confirmed.
Definition quic_prefaddr_use_cid (has_preferred_cid : bool) : bool := has_preferred_cid.

(** * migrate.c *)

Record quic_migrate := mk_migrate {
  mg_handshake_confirmed : bool; mg_detected : bool; mg_challenged : bool; mg_validated : bool;
  mg_confirmed : bool; mg_cur_cid : Z; mg_cc_reset : bool; mg_port_only : bool }.

Definition quic_migrate_init (cid : Z) : quic_migrate := mk_migrate false false false false false cid false false.

Definition quic_migrate_detect (m : quic_migrate) : quic_migrate :=
  if mg_handshake_confirmed m
  then mk_migrate (mg_handshake_confirmed m) true (mg_challenged m) (mg_validated m) (mg_confirmed m)
                  (mg_cur_cid m) (mg_cc_reset m) (mg_port_only m)
  else m.

Definition quic_migrate_challenge (m : quic_migrate) : quic_migrate :=
  if mg_detected m
  then mk_migrate (mg_handshake_confirmed m) (mg_detected m) true (mg_validated m) (mg_confirmed m)
                  (mg_cur_cid m) (mg_cc_reset m) (mg_port_only m)
  else m.

Definition quic_migrate_validate (m : quic_migrate) : bool * quic_migrate :=
  if negb (mg_detected m) || negb (mg_challenged m) then (false, m)
  else (true, mk_migrate (mg_handshake_confirmed m) (mg_detected m) (mg_challenged m) true (mg_confirmed m)
                         (mg_cur_cid m) (mg_cc_reset m) (mg_port_only m)).

Definition confirm_ok (m : quic_migrate) (new_cid : Z) : bool := mg_validated m && negb (new_cid =? mg_cur_cid m).

Definition quic_migrate_confirm (m : quic_migrate) (new_cid : Z) (port_only : bool) : bool * quic_migrate :=
  if negb (confirm_ok m new_cid) then (false, m)
  else (true, mk_migrate (mg_handshake_confirmed m) (mg_detected m) (mg_challenged m) (mg_validated m) true
                         new_cid (negb port_only) port_only).

(** * pmtu.c *)

Definition QUIC_PMTU_BASE : Z := 1200.
Definition QUIC_PMTU_MAX : Z := 1452.
Definition QUIC_PMTU_STEP : Z := 64.

Record quic_pmtu := mk_pmtu {
  pm_validated : Z; pm_probe : Z; pm_ceiling : Z; pm_lost : Z; pm_searching : bool }.

Definition quic_pmtu_init : quic_pmtu := mk_pmtu QUIC_PMTU_BASE 0 QUIC_PMTU_MAX 0 true.

Definition candidate (p : quic_pmtu) : Z :=
  let want := pm_validated p +w QUIC_PMTU_STEP in if want <? pm_ceiling p then want else pm_ceiling p.

Definition pmtu_viable (p : quic_pmtu) (next : Z) : bool :=
  (pm_validated p <? next) && negb (next =? pm_lost p).

Definition quic_pmtu_next_probe (p : quic_pmtu) : Z * quic_pmtu :=
  let next := candidate p in
  if negb (pm_searching p) || negb (pmtu_viable p next)
  then (0, mk_pmtu (pm_validated p) (pm_probe p) (pm_ceiling p) (pm_lost p) false)
  else (next, mk_pmtu (pm_validated p) next (pm_ceiling p) (pm_lost p) (pm_searching p)).

Definition quic_pmtu_on_ack (p : quic_pmtu) (size : Z) : quic_pmtu :=
  mk_pmtu (if pm_validated p <? size then size else pm_validated p) 0 (pm_ceiling p) (pm_lost p) (pm_searching p).

Definition quic_pmtu_on_loss (p : quic_pmtu) (size : Z) : quic_pmtu :=
  mk_pmtu (pm_validated p) 0 (if size <? pm_ceiling p then size else pm_ceiling p) size (pm_searching p).

(** * spin.c *)

Definition QUIC_SPIN_BIT : Z := 0x20.

Definition quic_spin_outgoing (is_server : bool) (peer_spin : Z) : Z :=
  if is_server then Z.land peer_spin 1 else Z.lxor (Z.land peer_spin 1) 1.
Definition quic_spin_get (byte0 : Z) : bool := negb (Z.land byte0 QUIC_SPIN_BIT =? 0).
Definition quic_spin_set (byte0 : Z) (spin : bool) : Z :=
  let cleared := Z.land byte0 (u8 (Z.lnot QUIC_SPIN_BIT)) in
  if spin then Z.lor cleared QUIC_SPIN_BIT else cleared.

(** * tpverify *)

Definition quic_tpverify_cid_eq (a : list Z) (alen : Z) (b : list Z) (blen : Z) : option bool :=
  let d := u8 (Z.lxor alen blen) in
  let n := if alen <? blen then alen else blen in
  match diff_loop (Z.to_nat n) d a b 0 with
  | None => None
  | Some d => Some (d =? 0)
  end.

Definition quic_tpverify_odcid (sent_dcid : list Z) (sent_len : Z) (tp_odcid : list Z) (tp_len : Z) :=
  quic_tpverify_cid_eq sent_dcid sent_len tp_odcid tp_len.
Definition quic_tpverify_iscid (first_scid : list Z) (scid_len : Z) (tp_iscid : list Z) (tp_len : Z) :=
  quic_tpverify_cid_eq first_scid scid_len tp_iscid tp_len.

Definition presence_ok (retry_occurred tp_present : bool) : bool :=
  Bool.eqb (negb retry_occurred) (negb tp_present).

Definition quic_tpverify_rscid (retry_occurred : bool) (retry_scid : list Z) (retry_len : Z)
  (tp_rscid : list Z) (tp_len : Z) (tp_present : bool) : option bool :=
  if negb (presence_ok retry_occurred tp_present) then Some false
  else if negb retry_occurred then Some true
  else quic_tpverify_cid_eq retry_scid retry_len tp_rscid tp_len.

(** * cidxchg.c *)

Record quic_cidxchg := mk_xchg {
  cx_init_dcid : list Z; cx_init_dcid_len : Z; cx_own_scid : list Z; cx_own_scid_len : Z;
  cx_dcid : list Z; cx_dcid_len : Z }.

Definition cidxchg_fits (a b : Z) : bool := (a <=? 20) && (b <=? 20).

(** The array and the length after [cidxchg_set(dst, &dst_len, src, len)]. *)
Definition cidxchg_set (dst src : list Z) (len : Z) : option (list Z * Z) :=
  match quic_put_bytes src len 20 (dst, 0) with
  | None => None
  | Some (_, (dst', _)) => Some (dst', len)
  end.

Definition quic_cidxchg_init (x : quic_cidxchg) (init_dcid : list Z) (dcid_len : Z) (own_scid : list Z) (scid_len : Z)
  : option (bool * quic_cidxchg) :=
  if negb (cidxchg_fits dcid_len scid_len) then Some (false, x)
  else match cidxchg_set (cx_init_dcid x) init_dcid dcid_len, cidxchg_set (cx_own_scid x) own_scid scid_len,
             cidxchg_set (cx_dcid x) init_dcid dcid_len with
       | Some (a, al), Some (b, bl), Some (c, cl) => Some (true, mk_xchg a al b bl c cl)
       | _, _, _ => None
       end.

Definition quic_cidxchg_on_server_scid (x : quic_cidxchg) (server_scid : list Z) (scid_len : Z)
  : option (bool * quic_cidxchg) :=
  if 20 <? scid_len then Some (false, x)
  else match cidxchg_set (cx_dcid x) server_scid scid_len with
       | None => None
       | Some (c, cl) => Some (true, mk_xchg (cx_init_dcid x) (cx_init_dcid_len x) (cx_own_scid x) (cx_own_scid_len x) c cl)
       end.

Definition quic_cidxchg_remember_odcid (x : quic_cidxchg) (initial_dcid : list Z) (len : Z)
  : option (bool * quic_cidxchg) :=
  if 20 <? len then Some (false, x)
  else match cidxchg_set (cx_init_dcid x) initial_dcid len with
       | None => None
       | Some (a, al) => Some (true, mk_xchg a al (cx_own_scid x) (cx_own_scid_len x) (cx_dcid x) (cx_dcid_len x))
       end.

Definition quic_cidxchg_verify_odcid (x : quic_cidxchg) (odcid_tp : list Z) (len : Z) : option bool :=
  quic_tpverify_odcid (cx_init_dcid x) (cx_init_dcid_len x) odcid_tp len.

(** * retrydrive *)

Record quic_retrydrive_state := mk_retryst {
  rs_received : Z; rs_key_rederive : Z; rs_token : list Z; rs_token_len : Z; rs_dcid : list Z; rs_dcid_len : Z }.

Definition quic_retrydrive_accept (already_received_retry integrity_tag_valid : bool) : bool :=
  negb already_received_retry && integrity_tag_valid.

(** [sizeof token] is 256. *)
Definition fits (token_len scid_len : Z) : bool := (token_len <=? 256) && (scid_len <=? QUIC_MAX_CID_LEN).

Definition quic_retrydrive_apply (retry_token : list Z) (token_len : Z) (retry_scid : list Z) (scid_len : Z)
  (out : quic_retrydrive_state) : option (bool * quic_retrydrive_state) :=
  if negb (fits token_len scid_len) then Some (false, out)
  else match quic_put_bytes retry_token token_len 256 (rs_token out, 0),
             quic_put_bytes retry_scid scid_len QUIC_MAX_CID_LEN (rs_dcid out, 0) with
       | Some (_, (tok, _)), Some (_, (dcid, _)) =>
           Some (true, mk_retryst 1 1 tok token_len dcid (u8 scid_len))
       | _, _ => None
       end.

Definition quic_retrydrive_initial_token (s : quic_retrydrive_state) : list Z * Z :=
  (rs_token s, if rs_received s =? 0 then 0 else rs_token_len s).

(** * retrytoken: [tokentype.c] and [retrytoken.c] *)

Definition QUIC_TOKEN_TAG_RETRY : Z := 0x01.
Definition QUIC_TOKEN_TAG_NEWTOKEN : Z := 0x02.

(** The tag byte and the body; the buffer and the return value. *)
Definition token_tag (out : list Z) (cap t : Z) (body : list Z) (body_len : Z) : option (Z * list Z) :=
  if cap <? 1 then Some (0, out)
  else match store out 0 t with
       | None => None
       | Some out1 =>
           match quic_put_bytes body body_len cap (out1, 1) with
           | None => None
           | Some (false, (out2, _)) => Some (0, out2)
           | Some (true, (out2, off)) => Some (off, out2)
           end
       end.
Definition quic_token_tag_retry (out : list Z) (cap : Z) (body : list Z) (body_len : Z) :=
  token_tag out cap QUIC_TOKEN_TAG_RETRY body body_len.
Definition quic_token_tag_newtoken (out : list Z) (cap : Z) (body : list Z) (body_len : Z) :=
  token_tag out cap QUIC_TOKEN_TAG_NEWTOKEN body body_len.

Definition quic_token_is_retry (token : list Z) (len : Z) : option bool :=
  if 0 <? len then match load token 0 with None => None | Some t => Some (t =? QUIC_TOKEN_TAG_RETRY) end
  else Some false.

Definition QUIC_RETRYTOKEN_MSG : Z := 64.
Definition QUIC_RETRYTOKEN_KEY : Z := 32.
Definition QUIC_RETRYTOKEN_LEN : Z := 32.

(** The local [msg] array and the length. *)
Definition build_msg (msg addr : list Z) (addr_len : Z) (odcid : list Z) (odcid_len : Z) : option (list Z * Z) :=
  if QUIC_RETRYTOKEN_MSG <? addr_len +w odcid_len then Some (msg, 0)
  else match copy_loop (Z.to_nat addr_len) msg 0 addr 0 with
       | None => None
       | Some m1 => match copy_loop (Z.to_nat odcid_len) m1 addr_len odcid 0 with
                    | None => None
                    | Some m2 => Some (m2, addr_len +w odcid_len)
                    end
       end.

(** [msg0] is what the uninitialised local array holds. *)
Definition quic_retrytoken_make (msg0 key addr : list Z) (addr_len : Z) (odcid : list Z) (odcid_len : Z)
  : option (list Z) :=
  '(msg, n) ← build_msg msg0 addr addr_len odcid odcid_len;
  quic_hmac_sha256 key QUIC_RETRYTOKEN_KEY msg n.

Definition quic_retrytoken_verify (msg0 key addr : list Z) (addr_len : Z) (odcid : list Z) (odcid_len : Z)
  (token : list Z) : option bool :=
  want ← quic_retrytoken_make msg0 key addr addr_len odcid odcid_len;
  Some (quic_ct_diff32 want token =? 0).

(** * sreset.c *)

Definition QUIC_SRESET_TOKEN : Z := 16.
Definition QUIC_SRESET_KEY : Z := 32.

Definition quic_sreset_token (key cid : list Z) (cid_len : Z) : option (list Z) :=
  mac ← quic_hmac_sha256 key QUIC_SRESET_KEY cid cid_len;
  Some (take (Z.to_nat QUIC_SRESET_TOKEN) mac).

Definition quic_sreset_detect (dgram : list Z) (len : Z) (token : list Z) : bool :=
  if len <? QUIC_SRESET_TOKEN then false
  else quic_ct_diff16 (drop (Z.to_nat (len - QUIC_SRESET_TOKEN)) dgram) token =? 0.

(** * sresetdrive: [detect.c], [onreset.c], [tokenmap.c] *)

Definition QUIC_SRESETDRIVE_TOKEN : Z := 16.
Definition QUIC_SRESETDRIVE_MIN : Z := 21.

Definition quic_sresetdrive_is_reset (packet : list Z) (len : Z) (expected_token : list Z) : bool :=
  if len <? QUIC_SRESETDRIVE_MIN then false
  else quic_ct_diff16 (drop (Z.to_nat (len - QUIC_SRESETDRIVE_TOKEN)) packet) expected_token =? 0.

Definition quic_sresetdrive_on_detected (is_reset : bool) : bool := is_reset.

Definition QUIC_SRESETDRIVE_MAX_CID : Z := 20.
Definition QUIC_SRESETDRIVE_CAP : Z := 8.

Record quic_sresetdrive_entry := mk_rentry { re_cid : list Z; re_cid_len : Z; re_token : list Z }.
Record quic_sresetdrive_map := mk_rmap { rm_e : list quic_sresetdrive_entry; rm_count : Z }.

Definition quic_sresetdrive_map_init (m : quic_sresetdrive_map) : quic_sresetdrive_map := mk_rmap (rm_e m) 0.

Definition cid_eq (e : quic_sresetdrive_entry) (cid : list Z) (cid_len : Z) : option bool :=
  if negb (re_cid_len e =? cid_len) then Some false
  else match diff_loop (Z.to_nat cid_len) 0 (re_cid e) cid 0 with
       | None => None
       | Some d => Some (d =? 0)
       end.

Definition can_add (m : quic_sresetdrive_map) (cid_len : Z) : bool :=
  (rm_count m <? QUIC_SRESETDRIVE_CAP) && (cid_len <=? QUIC_SRESETDRIVE_MAX_CID).

Definition entry_set (e : quic_sresetdrive_entry) (cid : list Z) (cid_len : Z) (token : list Z)
  : option quic_sresetdrive_entry :=
  match copy_loop (Z.to_nat cid_len) (re_cid e) 0 cid 0,
        copy_loop (Z.to_nat QUIC_SRESETDRIVE_TOKEN) (re_token e) 0 token 0 with
  | Some c, Some t => Some (mk_rentry c cid_len t)
  | _, _ => None
  end.

Definition quic_sresetdrive_map_add (m : quic_sresetdrive_map) (cid : list Z) (cid_len : Z) (token : list Z)
  : option (bool * quic_sresetdrive_map) :=
  if negb (can_add m cid_len) then Some (false, m)
  else match load (rm_e m) (rm_count m) with
       | None => None
       | Some e =>
           match entry_set e cid cid_len token with
           | None => None
           | Some e' => match store (rm_e m) (rm_count m) e' with
                        | None => None
                        | Some l => Some (true, mk_rmap l (rm_count m +w 1))
                        end
           end
       end.

(** [for (i = 0; i < m->count; i++)], [k] rounds from [i] on;
    [Some (Some token)]: returned 1. *)
Fixpoint map_find_loop (k : nat) (m : quic_sresetdrive_map) (cid : list Z) (cid_len i : Z) : option (option (list Z)) :=
  match k with
  | O => Some None
  | S k' =>
      match load (rm_e m) i with
      | None => None
      | Some e =>
          match cid_eq e cid cid_len with
          | None => None
          | Some true => Some (Some (re_token e))
          | Some false => map_find_loop k' m cid cid_len (i + 1)
          end
      end
  end.
Definition quic_sresetdrive_map_find (m : quic_sresetdrive_map) (cid : list Z) (cid_len : Z) : option (option (list Z)) :=
  map_find_loop (Z.to_nat (rm_count m)) m cid cid_len 0.

(** * Comparing connection IDs *)

Lemma eq_loop_spec (k : nat) a b : forall e i, 0 <= i ->
  i + Z.of_nat k <= zlen a -> i + Z.of_nat k <= zlen b ->
  exists e', eq_loop k e a b i = Some e' /\
    (e' = true <-> e = true /\ slice a i (Z.of_nat k) = slice b i (Z.of_nat k)).
Proof.
  induction k as [|k IH]; intros e i Hi H1 H2; cbn [eq_loop].
  - exists e. split; [done|]. unfold slice. simpl. rewrite !take_0. tauto.
  - destruct (load_is_Some a i) as [x Hx]; [lia|]. destruct (load_is_Some b i) as [y Hy]; [lia|].
    rewrite Hx, Hy. destruct (IH (e && (x =? y)) (i + 1)) as (d' & -> & Hd); [lia..|].
    exists d'. split; [done|]. rewrite Hd, andb_true_iff, Z.eqb_eq.
    rewrite !(slice_cons _ i) by lia. rewrite Hx, Hy. replace (Z.of_nat (S k) - 1) with (Z.of_nat k) by lia.
    simpl. split; [intros [[-> ->] ->]; done|intros [-> [= -> ->]]; done].
Qed.

Lemma slice_0 {A} (l : list A) n : slice l 0 n = take (Z.to_nat n) l.
Proof. done. Qed.

Lemma take_eq_len {A} (a b : list A) alen blen :
  0 <= alen <= zlen a -> 0 <= blen <= zlen b ->
  take (Z.to_nat alen) a = take (Z.to_nat blen) b <->
  alen = blen /\ slice a 0 (Z.min alen blen) = slice b 0 (Z.min alen blen).
Proof.
  intros Ha Hb. rewrite !slice_0. split.
  - intros E. assert (alen = blen) as <-.
    { apply (f_equal length) in E. rewrite !length_take in E. unfold zlen in *. lia. }
    by rewrite Z.min_id.
  - intros [<- E]. by rewrite Z.min_id in E.
Qed.

(** The three comparisons of connection IDs (demultiplexing, negotiation, transport
    parameters) agree: they hold exactly when the two byte strings are equal. *)
Lemma cid_comparisons_agree a alen b blen :
  Forall is_u8 a -> Forall is_u8 b -> 0 <= alen <= zlen a -> 0 <= blen <= zlen b -> alen < 256 -> blen < 256 ->
  let same := bool_decide (take (Z.to_nat alen) a = take (Z.to_nat blen) b) in
  quic_demux_match a alen b blen = Some same /\ quic_cidnego_match a alen b blen = Some same /\
  quic_tpverify_cid_eq a alen b blen = Some same.
Proof.
  intros Ha Hb Hal Hbl Hal8 Hbl8 same.
  assert (Hs : same = true <-> alen = blen /\ slice a 0 (Z.min alen blen) = slice b 0 (Z.min alen blen)).
  { unfold same. rewrite bool_decide_eq_true. by apply take_eq_len. }
  assert (Hmin : (if alen <? blen then alen else blen) = Z.min alen blen) by (zcase; lia).
  split_and!.
  - unfold quic_demux_match. destruct (Z.eqb_spec alen blen) as [<-|Hne]; cbn [negb].
    + destruct (diff_loop_spec (Z.to_nat alen) a b Ha Hb 0 0) as (d & -> & Hd); [lia..|]. f_equal. apply eq_true_iff_eq.
      rewrite Z.eqb_eq, Hd, Hs, Z.min_id, Z2Nat.id by lia. tauto.
    + f_equal. symmetry. apply not_true_iff_false. rewrite Hs. tauto.
  - unfold quic_cidnego_match. rewrite Hmin.
    destruct (eq_loop_spec (Z.to_nat (Z.min alen blen)) a b (alen =? blen) 0) as (e & -> & He); [lia..|].
    f_equal. apply eq_true_iff_eq. rewrite He, Hs, Z.eqb_eq, Z2Nat.id by lia. done.
  - unfold quic_tpverify_cid_eq. rewrite Hmin.
    destruct (diff_loop_spec (Z.to_nat (Z.min alen blen)) a b Ha Hb (u8 (Z.lxor alen blen)) 0) as (d & -> & Hd); [lia..|].
    f_equal. apply eq_true_iff_eq. rewrite Z.eqb_eq, Hd, Hs, lxor_u8, Z.lxor_eq_0_iff, Z2Nat.id by (unfold is_u8; lia). done.
Qed.

(** * Stateless reset *)

Lemma is_reset_spec packet token : zlen token = 16 ->
  quic_sresetdrive_is_reset packet (zlen packet) token =
  (21 <=? zlen packet) && bool_decide (drop (length packet - 16) packet = token).
Proof.
  intros Ht. unfold quic_sresetdrive_is_reset, QUIC_SRESETDRIVE_MIN, QUIC_SRESETDRIVE_TOKEN.
  destruct (Z.leb_spec 21 (zlen packet)); zdecide; [|done]. cbn [andb].
  replace (Z.to_nat (zlen packet - 16)) with (length packet - 16)%nat by (unfold zlen in *; lia).
  unfold quic_ct_diff16. apply eq_true_iff_eq. rewrite Z.eqb_eq, bool_decide_eq_true.
  unfold zlen in *. rewrite !firstn_all2 by (rewrite ?length_drop; lia).
  rewrite ct_diff_loop_spec by (rewrite length_drop; lia). tauto.
Qed.

(** The first token recorded for a connection ID. *)
Fixpoint assoc_cid (l : list (list Z * list Z)) (cid : list Z) : option (list Z) :=
  match l with
  | [] => None
  | (c, t) :: l' => if bool_decide (c = cid) then Some t else assoc_cid l' cid
  end.

Definition entry_sized (e : quic_sresetdrive_entry) : Prop :=
  zlen (re_cid e) = QUIC_SRESETDRIVE_MAX_CID /\ zlen (re_token e) = QUIC_SRESETDRIVE_TOKEN /\ Forall is_u8 (re_cid e).

Definition entry_holds (e : quic_sresetdrive_entry) (ct : list Z * list Z) : Prop :=
  re_cid_len e = zlen (fst ct) /\ zlen (fst ct) <= QUIC_SRESETDRIVE_MAX_CID /\
  take (length (fst ct)) (re_cid e) = fst ct /\ re_token e = snd ct.

(** The map holds the pairs [acc], in order, in its first entries. *)
Definition map_holds (m : quic_sresetdrive_map) (acc : list (list Z * list Z)) : Prop :=
  zlen (rm_e m) = QUIC_SRESETDRIVE_CAP /\ Forall entry_sized (rm_e m) /\ rm_count m = zlen acc /\
  zlen acc <= QUIC_SRESETDRIVE_CAP /\ Forall2 entry_holds (take (length acc) (rm_e m)) acc.

Lemma Forall_splice_u8 (l bs : list Z) i : Forall is_u8 l -> Forall is_u8 bs -> Forall is_u8 (splice l i bs).
Proof. intros. unfold splice. rewrite !Forall_app. split_and!; [by apply Forall_take|done|by apply Forall_drop]. Qed.

Lemma entry_set_spec e cid token :
  entry_sized e -> Forall is_u8 cid -> zlen cid <= QUIC_SRESETDRIVE_MAX_CID -> zlen token = QUIC_SRESETDRIVE_TOKEN ->
  exists e', entry_set e cid (zlen cid) token = Some e' /\ entry_sized e' /\ entry_holds e' (cid, token).
Proof.
  unfold QUIC_SRESETDRIVE_MAX_CID, QUIC_SRESETDRIVE_TOKEN.
  intros (H1 & H2 & H3) Hc Hl Ht. unfold QUIC_SRESETDRIVE_MAX_CID, QUIC_SRESETDRIVE_TOKEN in *. unfold entry_set, QUIC_SRESETDRIVE_TOKEN.
  pose proof (zlen_nonneg cid).
  rewrite !copy_loop_len by lia. eexists. split; [reflexivity|].
  rewrite !Z2Nat.id by lia. rewrite !slice_0.
  replace (take (Z.to_nat (zlen cid)) cid) with cid by (unfold zlen; rewrite Nat2Z.id; symmetry; apply firstn_all).
  replace (take (Z.to_nat 16) token) with token by (symmetry; apply firstn_all2; unfold zlen in *; lia).
  assert (Htk : splice (re_token e) 0 token = token).
  { unfold splice. change (Z.to_nat 0) with 0%nat. rewrite take_0, app_nil_l.
    rewrite drop_ge by (unfold zlen in *; lia). apply app_nil_r. }
  split.
  - unfold entry_sized, QUIC_SRESETDRIVE_MAX_CID, QUIC_SRESETDRIVE_TOKEN. cbn. rewrite zlen_splice, Htk by lia.
    split_and!; [done|done|by apply Forall_splice_u8].
  - unfold entry_holds, QUIC_SRESETDRIVE_MAX_CID. cbn. split_and!; [done|done|apply take_splice_0|done].
Qed.

Lemma map_add_spec m acc cid token :
  map_holds m acc -> Forall is_u8 cid -> zlen token = QUIC_SRESETDRIVE_TOKEN ->
  let ok := (zlen acc <? QUIC_SRESETDRIVE_CAP) && (zlen cid <=? QUIC_SRESETDRIVE_MAX_CID) in
  exists m', quic_sresetdrive_map_add m cid (zlen cid) token = Some (ok, m') /\
             map_holds m' (if ok then acc ++ [(cid, token)] else acc).
Proof.
  intros (H1 & H2 & H3 & H4 & H5) Hc Ht ok. unfold quic_sresetdrive_map_add, can_add. rewrite H3. fold ok.
  destruct ok eqn:E; cbn [negb]; [|by exists m]. unfold ok in E. zbool. unfold QUIC_SRESETDRIVE_CAP in *.
  pose proof (zlen_nonneg acc).
  destruct (load_is_Some (rm_e m) (zlen acc)) as [e He]; [lia|]. rewrite He.
  assert (Hsz : entry_sized e).
  { apply load_elem, list_elem_of_In in He. rewrite List.Forall_forall in H2. by apply H2. }
  destruct (entry_set_spec e cid token Hsz Hc) as (e' & -> & Hsz' & Hh'); [done|done|].
  rewrite store_ok by lia. eexists. split; [reflexivity|].
  rewrite u64_id by (unfold is_u64; lia). unfold map_holds, QUIC_SRESETDRIVE_CAP. cbn [rm_e rm_count].
  rewrite zlen_insert, zlen_app. change (zlen [(cid, token)]) with 1. split_and!; [done| |lia|lia|].
  - by apply Forall_insert.
  - rewrite length_app. cbn [length]. unfold zlen. rewrite Nat2Z.id, Nat.add_1_r.
    assert (Hlt : (length acc < length (rm_e m))%nat) by (unfold zlen in *; lia).
    rewrite (take_S_r _ _ e'), take_insert_ge by (lia || (rewrite list_lookup_insert_eq by lia; done)).
    apply Forall2_app; [done|]. by constructor.
Qed.

Lemma cid_eq_spec e ct cid : entry_sized e -> entry_holds e ct -> Forall is_u8 cid ->
  cid_eq e cid (zlen cid) = Some (bool_decide (fst ct = cid)).
Proof.
  intros (H1 & _ & H3) (H4 & H5 & H6 & _) Hc. unfold QUIC_SRESETDRIVE_MAX_CID in *. unfold cid_eq. rewrite H4.
  assert (Hu : Forall is_u8 (fst ct)) by (rewrite <- H6; by apply Forall_take).
  destruct (Z.eqb_spec (zlen (fst ct)) (zlen cid)) as [He|Hne]; cbn [negb].
  - destruct (diff_loop_spec (Z.to_nat (zlen cid)) (re_cid e) cid H3 Hc 0 0) as (d & -> & Hd);
      [lia|rewrite Z2Nat.id by apply zlen_nonneg; lia|rewrite Z2Nat.id by apply zlen_nonneg; lia|].
    assert (Hs1 : slice (re_cid e) 0 (Z.of_nat (Z.to_nat (zlen cid))) = fst ct).
    { rewrite slice_0, Z2Nat.id, <- He by apply zlen_nonneg. unfold zlen. by rewrite Nat2Z.id. }
    assert (Hs2 : slice cid 0 (Z.of_nat (Z.to_nat (zlen cid))) = cid).
    { rewrite slice_0, Z2Nat.id by apply zlen_nonneg. unfold zlen. rewrite Nat2Z.id. apply firstn_all. }
    f_equal. apply eq_true_iff_eq. rewrite Z.eqb_eq, Hd, bool_decide_eq_true, Hs1, Hs2. tauto.
  - f_equal. symmetry. apply bool_decide_eq_false_2. intros Heq. apply Hne. by rewrite Heq.
Qed.

Lemma map_find_spec m acc cid : map_holds m acc -> Forall is_u8 cid ->
  quic_sresetdrive_map_find m cid (zlen cid) = Some (assoc_cid acc cid).
Proof.
  intros (H1 & H2 & H3 & H4 & H5) Hc. unfold quic_sresetdrive_map_find. rewrite H3. unfold zlen at 1. rewrite Nat2Z.id.
  unfold QUIC_SRESETDRIVE_CAP in *.
  assert (Hgen : forall suf pre, acc = pre ++ suf -> map_find_loop (length suf) m cid (zlen cid) (zlen pre) = Some (assoc_cid suf cid)).
  { induction suf as [|[c t] suf IH]; intros pre E; [done|]. cbn [length map_find_loop assoc_cid].
    assert (Hlen : zlen pre < zlen acc) by (rewrite E, zlen_app, zlen_cons; pose proof (zlen_nonneg suf); lia).
    pose proof (zlen_nonneg pre). destruct (load_is_Some (rm_e m) (zlen pre)) as [e He]; [lia|]. rewrite He.
    assert (Hsz : entry_sized e).
    { pose proof (load_elem _ _ _ He) as Hin. rewrite list_elem_of_In in Hin. rewrite List.Forall_forall in H2. by apply H2. }
    assert (Hh : entry_holds e (c, t)).
    { unfold load in He. destruct (0 <=? zlen pre); [|done]. unfold zlen in He, Hlen. rewrite Nat2Z.id in He.
      eapply (Forall2_lookup_lr _ _ _ (length pre)); [exact H5| |].
      - rewrite lookup_take_lt by lia. done.
      - rewrite E, lookup_app_r, Nat.sub_diag by lia. done. }
    rewrite (cid_eq_spec e (c, t)) by done. cbn [fst].
    destruct (bool_decide (c = cid)); [by destruct Hh as (_ & _ & _ & ->)|].
    replace (zlen pre + 1) with (zlen (pre ++ [(c, t)])) by (rewrite zlen_app; done).
    apply IH. by rewrite <- app_assoc. }
  exact (Hgen acc [] eq_refl).
Qed.

(** Recording a list of pairs, in order. *)
Fixpoint map_adds (adds : list (list Z * list Z)) (m : quic_sresetdrive_map) : option quic_sresetdrive_map :=
  match adds with
  | [] => Some m
  | (cid, token) :: adds' =>
      match quic_sresetdrive_map_add m cid (zlen cid) token with
      | None => None
      | Some (_, m') => map_adds adds' m'
      end
  end.

(** The pairs the map keeps: the first eight whose CID is a legal one. *)
Definition kept (adds : list (list Z * list Z)) : list (list Z * list Z) :=
  take 8 (List.filter (fun ct => zlen (fst ct) <=? 20) adds).

Lemma map_adds_spec adds : forall m acc, map_holds m acc ->
  Forall (fun ct => Forall is_u8 (fst ct) /\ zlen (snd ct) = QUIC_SRESETDRIVE_TOKEN) adds ->
  exists m', map_adds adds m = Some m' /\
    map_holds m' (take 8 (acc ++ List.filter (fun ct => zlen (fst ct) <=? 20) adds)).
Proof.
  induction adds as [|[cid token] adds IH]; intros m acc Hm Hadds; cbn [map_adds].
  - exists m. split; [done|]. cbn. rewrite app_nil_r, firstn_all2; [done|].
    destruct Hm as (_ & _ & _ & H4 & _). unfold QUIC_SRESETDRIVE_CAP, zlen in H4. lia.
  - apply Forall_cons_iff in Hadds as [[Hc Ht] Hadds]. cbn [fst snd] in *.
    destruct (map_add_spec m acc cid token Hm Hc Ht) as (m1 & -> & Hm1). cbv zeta in Hm1.
    unfold QUIC_SRESETDRIVE_CAP, QUIC_SRESETDRIVE_MAX_CID in Hm1. cbn [List.filter fst].
    assert (Hlen : zlen acc <= 8) by (destruct Hm as (_ & _ & _ & H4 & _); exact H4).
    destruct (zlen cid <=? 20).
    + destruct (Z.ltb_spec (zlen acc) 8); cbn [andb] in Hm1.
      * destruct (IH m1 _ Hm1 Hadds) as (m' & -> & Hm'). exists m'. split; [done|]. by rewrite <- app_assoc in Hm'.
      * destruct (IH m1 _ Hm1 Hadds) as (m' & -> & Hm'). exists m'. split; [done|].
        rewrite take_app_le in Hm' |- * by (unfold zlen in *; lia). done.
    + rewrite andb_false_r in Hm1. exact (IH m1 _ Hm1 Hadds).
Qed.

(** Stateless resets are recognised exactly.  After recording any list of
    connection IDs with their tokens, in a map whose memory held anything, looking a
    connection ID up returns the token first recorded for it among the eight pairs
    kept (those with a legal CID, in order), and nothing for any other CID; and a
    datagram is taken for a reset of that connection exactly when it has at least 21
    bytes and ends in that token. *)
Theorem stateless_reset_exact m adds cid packet
  (Hsz : zlen (rm_e m) = QUIC_SRESETDRIVE_CAP) (Hm : Forall entry_sized (rm_e m))
  (Hadds : Forall (fun ct => Forall is_u8 (fst ct) /\ zlen (snd ct) = QUIC_SRESETDRIVE_TOKEN) adds)
  (Hc : Forall is_u8 cid) :
  exists m', map_adds adds (quic_sresetdrive_map_init m) = Some m' /\
    quic_sresetdrive_map_find m' cid (zlen cid) = Some (assoc_cid (kept adds) cid) /\
    forall token, assoc_cid (kept adds) cid = Some token ->
      quic_sresetdrive_is_reset packet (zlen packet) token =
      (21 <=? zlen packet) && bool_decide (drop (length packet - 16) packet = token).
Proof.
  destruct (map_adds_spec adds (quic_sresetdrive_map_init m) []) as (m' & Hm' & Hh); [|done|].
  { unfold map_holds, QUIC_SRESETDRIVE_CAP. cbn [quic_sresetdrive_map_init rm_e rm_count]. split_and!; [done|done|done|closed_arith|constructor]. }
  exists m'. split_and!; [done|by apply map_find_spec|]. intros token Ha. apply is_reset_spec.
  assert (Hin : exists c, In (c, token) (kept adds)).
  { clear -Ha. induction (kept adds) as [|[c t] l IH]; [done|]. cbn in Ha.
    case_bool_decide; [injection Ha as ->; exists c; by left|]. destruct (IH Ha) as [c' ?]. exists c'. by right. }
  destruct Hin as [c Hin].
  assert (Hi : In (c, token) (List.filter (fun ct => zlen (fst ct) <=? 20) adds)).
  { rewrite <- (take_drop 8). apply in_or_app. by left. }
  apply filter_In in Hi as [Hi _].
  rewrite List.Forall_forall in Hadds. by destruct (Hadds _ Hi).
Qed.

(** Witness: two connections, the second of which is reset. *)
Definition reset_map_blank : quic_sresetdrive_map := mk_rmap (repeat (mk_rentry (repeat 9 20) 3 (repeat 9 16)) 8) 5.
Definition reset_adds : list (list Z * list Z) := [([1; 2], repeat 17 16); ([3], repeat 18 16)].

Lemma stateless_reset_exact_witness :
  exists m', map_adds reset_adds (quic_sresetdrive_map_init reset_map_blank) = Some m' /\
    quic_sresetdrive_map_find m' [3] 1 = Some (Some (repeat 18 16)) /\
    forall token, Some (repeat 18 16) = Some token ->
      quic_sresetdrive_is_reset ([64; 0; 0; 0; 0] ++ repeat 18 16) 21 token =
      (21 <=? 21) && bool_decide (repeat 18 16 = token).
Proof.
  apply (stateless_reset_exact reset_map_blank reset_adds [3] ([64; 0; 0; 0; 0] ++ repeat 18 16)).
  - reflexivity.
  - apply List.Forall_forall. intros e He. apply repeat_spec in He. subst e. split_and!; [reflexivity|reflexivity|].
    apply List.Forall_forall. intros x Hx. apply repeat_spec in Hx. subst. closed_arith.
  - apply List.Forall_forall. intros ct [<-|[<-|[]]]; (split; [|reflexivity]);
      (repeat apply List.Forall_cons; [closed_arith..|apply List.Forall_nil]).
  - apply Forall_cons_iff. split; [closed_arith|constructor].
Defined.

(** Retry tokens: the token is the HMAC of address and original connection ID one
    after the other, and it alone is accepted. *)
Lemma retrytoken_exact msg0 key addr odcid token : zlen msg0 = 64 -> zlen key = 32 -> zlen token = 32 ->
  zlen addr + zlen odcid <= 64 ->
  quic_retrytoken_make msg0 key addr (zlen addr) odcid (zlen odcid) = Some (hmac_spec key (addr ++ odcid)) /\
  quic_retrytoken_verify msg0 key addr (zlen addr) odcid (zlen odcid) token =
    Some (bool_decide (token = hmac_spec key (addr ++ odcid))).
Proof.
  intros Hm Hk Ht Hl. pose proof (zlen_nonneg addr). pose proof (zlen_nonneg odcid).
  assert (Hmake : quic_retrytoken_make msg0 key addr (zlen addr) odcid (zlen odcid) = Some (hmac_spec key (addr ++ odcid))).
  { unfold quic_retrytoken_make, build_msg, QUIC_RETRYTOKEN_MSG. unwrap. zdecide. rewrite copy_front by lia.
    assert (Hall : forall l : list Z, take (Z.to_nat (zlen l)) l = l) by (intros; unfold zlen; by rewrite Nat2Z.id, firstn_all).
    rewrite Hall, copy_front, Hall by (rewrite ?zlen_splice by lia; lia). cbn [mbind option_bind].
    pose proof (splice_splice msg0 addr odcid 0) as Hs. rewrite Z.add_0_l in Hs. rewrite Hs by lia.
    change QUIC_RETRYTOKEN_KEY with 32. rewrite <- Hk at 1. rewrite hmac_front.
    - rewrite <- zlen_app. by rewrite take_splice_front.
    - rewrite Hk. done.
    - rewrite zlen_splice by (rewrite ?zlen_app; lia). lia.
    - change (2 ^ 63) with 9223372036854775808. lia. }
  split; [done|]. unfold quic_retrytoken_verify. rewrite Hmake. cbn [mbind option_bind]. f_equal.
  pose proof (zlen_hmac_spec key (addr ++ odcid)) as Hz.
  apply eq_true_iff_eq. rewrite Z.eqb_eq, bool_decide_eq_true. unfold quic_ct_diff32.
  rewrite !take_ge by (unfold zlen in *; lia). rewrite ct_diff_loop_spec by (unfold zlen in *; lia). split; [intros [_ ->]; done|done].
Qed.

Lemma sreset_token_exact key cid : zlen key = 32 -> zlen cid <= 64 ->
  quic_sreset_token key cid (zlen cid) = Some (take 16 (hmac_spec key cid)).
Proof.
  intros Hk Hc. unfold quic_sreset_token. change QUIC_SRESET_KEY with 32. rewrite <- Hk at 1.
  rewrite hmac_exact; [done|rewrite Hk; done|]. change (2 ^ 63) with 9223372036854775808. lia.
Qed.
