(* ===== verification/Paths.v ===== *)
(** Path validation, connection migration, the pool of connection IDs and the
    path MTU search, over sequences of events: theorems about the operations of
    [Cid] ([path.c], [cidpool.c], [pmtu.c]). *)
From S2P Require Import Prelude Buffers Slots Cid.

(** * Path validation *)

(** What happens to a path: a PATH_CHALLENGE sent on it, a PATH_RESPONSE received on
    it, an attempt to make it the active one. *)
Inductive path_event :=
| ev_challenge (path value : Z)
| ev_response (path value : Z)
| ev_confirm (path : Z).

Definition ev_path (e : path_event) : Z :=
  match e with ev_challenge i _ | ev_response i _ | ev_confirm i => i end.

Definition path_step (p : quic_path) (e : path_event) : option quic_path :=
  match e with
  | ev_challenge i v => quic_path_send_challenge p i v
  | ev_response i v => option_map snd (quic_path_recv_response p i v)
  | ev_confirm i => option_map snd (quic_path_confirm p i)
  end.

(** The state after a sequence of events, most recent first. *)
Fixpoint path_run (p : quic_path) (evs : list path_event) : option quic_path :=
  match evs with
  | [] => Some p
  | e :: evs' => match path_run p evs' with None => None | Some p' => path_step p' e end
  end.

(** The challenge last sent on path [i]; 0 when there is none. *)
Fixpoint last_challenge (evs : list path_event) (i : Z) : Z :=
  match evs with
  | [] => 0
  | ev_challenge j v :: evs' => if j =? i then v else last_challenge evs' i
  | _ :: evs' => last_challenge evs' i
  end.

(** Some response on path [i] echoed the nonzero challenge outstanding when it came. *)
Fixpoint answered (evs : list path_event) (i : Z) : bool :=
  match evs with
  | [] => false
  | ev_response j v :: evs' =>
      ((j =? i) && negb (v =? 0) && (v =? last_challenge evs' i)) || answered evs' i
  | _ :: evs' => answered evs' i
  end.

(** The path last confirmed successfully. *)
Fixpoint migrated_to (evs : list path_event) : option Z :=
  match evs with
  | [] => None
  | ev_confirm i :: evs' => if answered evs' i then Some i else migrated_to evs'
  | _ :: evs' => migrated_to evs'
  end.

Definition path_entry (evs : list path_event) (i : Z) : quic_path_state :=
  mk_pstate (last_challenge evs i) 0 0 (Z.b2z (answered evs i)) (Z.b2z (bool_decide (migrated_to evs = Some i))).

(** The whole state as a function of the history. *)
Definition path_of (evs : list path_event) : quic_path :=
  mk_path [path_entry evs 0; path_entry evs 1] (default 0 (migrated_to evs)).

Lemma load_cases2 {A} (x y z : A) i : load [x; y] i = Some z -> (i = 0 /\ z = x) \/ (i = 1 /\ z = y).
Proof.
  unfold load. destruct (Z.leb_spec 0 i); [|done]. intros Hlk.
  assert (Hl := lookup_lt_Some _ _ _ Hlk). cbn in Hl.
  assert (i = 0 \/ i = 1) as [->| ->] by lia; cbn in Hlk; injection Hlk as <-; auto.
Qed.

Lemma recv_response_of evs i v : i = 0 \/ i = 1 ->
  quic_path_recv_response (path_of evs) i v =
  Some (negb (v =? 0) && (v =? last_challenge evs i), path_of (ev_response i v :: evs)).
Proof.
  intros Hi. unfold quic_path_recv_response.
  replace (load (pa_paths (path_of evs)) i) with (Some (path_entry evs i)) by (destruct Hi as [->| ->]; reflexivity).
  unfold response_matches. cbn [path_entry pt_challenge]. rewrite (Z.eqb_sym v (last_challenge evs i)).
  destruct (Z.eqb_spec (last_challenge evs i) v) as [E|E].
  - subst v. rewrite !andb_true_r. destruct (Z.eqb_spec (last_challenge evs i) 0) as [E|E].
    + destruct Hi as [->| ->]; unfold path_of, path_entry; cbn; rewrite E; reflexivity.
    + apply Z.eqb_neq in E. destruct Hi as [->| ->]; unfold path_of, path_entry; cbn; rewrite E, Z.eqb_refl; reflexivity.
  - rewrite !andb_false_r. apply Z.eqb_neq in E. rewrite Z.eqb_sym in E.
    destruct Hi as [->| ->]; unfold path_of, path_entry; cbn; rewrite E, andb_false_r; reflexivity.
Qed.

Lemma confirm_of evs i : i = 0 \/ i = 1 ->
  quic_path_confirm (path_of evs) i = Some (answered evs i, path_of (ev_confirm i :: evs)).
Proof.
  intros Hi. unfold quic_path_confirm.
  replace (load (pa_paths (path_of evs)) i) with (Some (path_entry evs i)) by (destruct Hi as [->| ->]; reflexivity).
  destruct Hi as [->| ->]; unfold path_of, path_entry; cbn;
    [destruct (answered evs 0) eqn:E|destruct (answered evs 1) eqn:E]; cbn; rewrite ?E; reflexivity.
Qed.

Lemma path_step_spec evs e : 0 <= ev_path e < QUIC_PATH_COUNT ->
  path_step (path_of evs) e = Some (path_of (e :: evs)).
Proof.
  unfold QUIC_PATH_COUNT. intros Hi.
  assert (ev_path e = 0 \/ ev_path e = 1) as [H|H] by lia;
    destruct e as [i v|i v|i]; cbn in H; subst i; cbn [path_step].
  1, 4: reflexivity.
  - rewrite recv_response_of by (by left). reflexivity.
  - rewrite confirm_of by (by left). reflexivity.
  - rewrite recv_response_of by (by right). reflexivity.
  - rewrite confirm_of by (by right). reflexivity.
Qed.

Lemma path_run_spec p evs : length (pa_paths p) = 2%nat ->
  Forall (fun e => 0 <= ev_path e < QUIC_PATH_COUNT) evs ->
  path_run (quic_path_init p) evs = Some (path_of evs).
Proof.
  intros Hp. induction evs as [|e evs IH]; intros Hev; cbn [path_run].
  - destruct p as [[|? [|? [|]]] a]; try discriminate Hp. reflexivity.
  - apply Forall_cons_iff in Hev as [He Hev]. rewrite (IH Hev). by apply path_step_spec.
Qed.

Lemma answered_spec evs i : answered evs i = true <->
  exists post v pre, evs = post ++ ev_response i v :: pre /\ v <> 0 /\ last_challenge pre i = v.
Proof.
  induction evs as [|e evs IH]; cbn.
  { split; [done|]. intros (post & ? & ? & ? & _). by destruct post. }
  assert (Hshift : answered evs i = true -> exists post v pre,
    e :: evs = post ++ ev_response i v :: pre /\ v <> 0 /\ last_challenge pre i = v).
  { intros H. apply IH in H as (post & v & pre & -> & H). by exists (e :: post), v, pre. }
  assert (Hback : forall post v pre, e :: evs = post ++ ev_response i v :: pre -> v <> 0 -> last_challenge pre i = v ->
    e = ev_response i v /\ evs = pre \/ answered evs i = true).
  { intros [|e' post] v pre; cbn; intros [= -> ->] Hv Hl; [by left|right]. apply IH. by exists post, v, pre. }
  destruct e as [j w|j w|j]; (split; [intros H|intros (post & v & pre & E & Hv & Hl)]).
  1, 5: exact (Hshift H).
  1, 4: by destruct (Hback _ _ _ E Hv Hl) as [[? _]|].
  - apply orb_true_iff in H as [H|H]; [|exact (Hshift H)]. zbool.
    exists [], w, evs. cbn. split_and!; [by f_equal; f_equal|lia|lia].
  - apply orb_true_iff. destruct (Hback _ _ _ E Hv Hl) as [[[= -> ->] ->]|]; [left|by right].
    rewrite Hl, !Z.eqb_refl. cbn. rewrite andb_true_r. apply negb_true_iff, Z.eqb_neq. done.
Qed.

Lemma migrated_answered evs i : migrated_to evs = Some i -> answered evs i = true.
Proof.
  induction evs as [|e evs IH]; cbn; [done|]. destruct e as [j w|j w|j]; [done| |].
  - intros H. by rewrite (IH H), orb_true_r.
  - destruct (answered evs j) eqn:E; [intros [= ->]; exact E|exact IH].
Qed.

(** C39: path validation is sound and complete.  From any initial memory, after any
    sequence of challenges, responses and migrations on the two paths, a path is
    validated exactly when some PATH_RESPONSE on it carried the nonzero payload of the
    PATH_CHALLENGE last sent on it before; the confirmed path is the one the last
    successful migration chose, it is validated, it is the active path, and no other
    path is confirmed; without a successful migration the active path is path 0 and
    none is confirmed. *)
Theorem path_validation p evs (Hp : length (pa_paths p) = 2%nat)
  (Hev : Forall (fun e => 0 <= ev_path e < QUIC_PATH_COUNT) evs) :
  exists q, path_run (quic_path_init p) evs = Some q /\ forall i s, load (pa_paths q) i = Some s ->
    (pt_validated s <> 0 <->
     exists post v pre, evs = post ++ ev_response i v :: pre /\ v <> 0 /\ last_challenge pre i = v) /\
    (pt_confirmed s <> 0 <-> migrated_to evs = Some i) /\
    (pt_confirmed s <> 0 -> pt_validated s <> 0 /\ pa_active q = i) /\
    (migrated_to evs = None -> pa_active q = 0).
Proof.
  exists (path_of evs). split; [by apply path_run_spec|]. intros i s Hs.
  assert (Es : s = path_entry evs i).
  { apply load_cases2 in Hs as [[-> ->]|[-> ->]]; reflexivity. }
  subst s. cbn [path_entry pt_validated pt_confirmed path_of pa_active].
  assert (Hb : forall b, Z.b2z b <> 0 <-> b = true) by (intros []; cbn; split; done || lia).
  rewrite !Hb, bool_decide_eq_true. split_and!; [apply answered_spec|done| |by intros ->].
  intros Hm. split; [by apply migrated_answered|by rewrite Hm].
Qed.

(** Witness of C39: path 1 answers the second challenge and becomes the active path. *)
Definition path_blank : quic_path := mk_path (repeat (mk_pstate 5 5 5 5 5) 2) 7.
Definition path_history : list path_event :=
  [ev_confirm 1; ev_response 1 22; ev_response 1 11; ev_challenge 1 22; ev_challenge 1 11].

Lemma path_validation_witness :
  exists q, path_run (quic_path_init path_blank) path_history = Some q /\ forall i s, load (pa_paths q) i = Some s ->
    (pt_validated s <> 0 <->
     exists post v pre, path_history = post ++ ev_response i v :: pre /\ v <> 0 /\ last_challenge pre i = v) /\
    (pt_confirmed s <> 0 <-> migrated_to path_history = Some i) /\
    (pt_confirmed s <> 0 -> pt_validated s <> 0 /\ pa_active q = i) /\
    (migrated_to path_history = None -> pa_active q = 0).
Proof.
  apply (path_validation path_blank path_history); [reflexivity|].
  repeat (apply List.Forall_cons; [closed_arith|]). apply List.Forall_nil.
Defined.

(** While no sum wraps, the two anti-amplification checks agree: at most three times
    the bytes received may be sent on a path that is not validated. *)
Lemma antiamp_checks_agree p i s n :
  load (pa_paths p) i = Some s -> pt_validated s = 0 -> is_u64 n ->
  is_u64 (pt_bytes_sent s + n) -> 0 <= pt_bytes_sent s -> is_u64 (3 * pt_bytes_received s) ->
  quic_path_can_send p i n = Some (pt_bytes_sent s + n <=? 3 * pt_bytes_received s) /\
  quic_antiamp_can_send (pt_bytes_received s) (pt_bytes_sent s) n =
    (n =? 0) || (pt_bytes_sent s + n <=? 3 * pt_bytes_received s).
Proof.
  intros Hs Hv Hn Hsum Hsent Hrecv. unfold quic_path_can_send, quic_antiamp_can_send, quic_antiamp_budget.
  rewrite Hs, Hv. cbn [Z.eqb negb]. rewrite !u64_id by done. split; [done|]. unfold is_u64 in *.
  apply eq_true_iff_eq. rewrite orb_true_iff, Z.eqb_eq, !Z.leb_le.
  destruct (Z.leb_spec (3 * pt_bytes_received s) (pt_bytes_sent s)); [lia|].
  rewrite u64_id by (unfold is_u64; lia). lia.
Qed.

(** * The pool of connection IDs *)

(** Issue a connection ID, or retire those below a sequence number. *)
Inductive pool_event := ev_issue | ev_retire (prior_to : Z).

(** The sequence numbers issued and the pool afterwards. *)
Fixpoint pool_run (p : quic_cidpool) (evs : list pool_event) : list Z * quic_cidpool :=
  match evs with
  | [] => ([], p)
  | ev_issue :: evs' =>
      let (seq, p') := quic_cidpool_issue p in
      let (l, q) := pool_run p' evs' in (match seq with Some s => s :: l | None => l end, q)
  | ev_retire r :: evs' => pool_run (snd (quic_cidpool_retire_prior_to p r)) evs'
  end.

Definition pool_inv (p : quic_cidpool) : Prop :=
  0 <= cp_retire_lo p <= cp_next_seq p /\ cp_next_seq p - cp_retire_lo p <= cp_limit p.

Lemma pool_issue_spec p : pool_inv p -> cp_next_seq p < 2 ^ 64 - 1 ->
  let room := cp_next_seq p - cp_retire_lo p <? cp_limit p in
  quic_cidpool_issue p =
    (if room then (Some (cp_next_seq p), mk_pool (cp_limit p) (cp_next_seq p + 1) (cp_retire_lo p)) else (None, p)) /\
  pool_inv (snd (quic_cidpool_issue p)).
Proof.
  intros [H1 H2] Hn. cbv zeta. unfold quic_cidpool_issue, quic_cidpool_active_count.
  rewrite !u64_id by (unfold is_u64; lia). destruct (Z.leb_spec (cp_limit p) (cp_next_seq p - cp_retire_lo p)); zdecide;
    (split; [done|]); unfold pool_inv; cbn; lia.
Qed.

Lemma pool_retire_inv p r : pool_inv p -> pool_inv (snd (quic_cidpool_retire_prior_to p r)).
Proof.
  intros [H1 H2]. unfold quic_cidpool_retire_prior_to, pool_inv. zcase; cbn; try (split; lia). zcase; cbn; split; lia.
Qed.

Lemma pool_retire_next p r : cp_next_seq (snd (quic_cidpool_retire_prior_to p r)) = cp_next_seq p /\
  cp_limit (snd (quic_cidpool_retire_prior_to p r)) = cp_limit p.
Proof. unfold quic_cidpool_retire_prior_to. zcase; cbn; [done|]. zcase; done. Qed.

(** The integers from [a], [n] of them. *)
Fixpoint zseq (a : Z) (n : nat) : list Z := match n with O => [] | S n' => a :: zseq (a + 1) n' end.

Lemma pool_run_spec evs : forall p, pool_inv p -> cp_next_seq p + Z.of_nat (length evs) < 2 ^ 64 ->
  let (l, q) := pool_run p evs in
  pool_inv q /\ cp_limit q = cp_limit p /\ l = zseq (cp_next_seq p) (length l) /\ cp_next_seq q = cp_next_seq p + zlen l.
Proof.
  induction evs as [|[|r] evs IH]; intros p Hp Hb; cbn [pool_run length] in *.
  - rewrite zlen_nil. cbn. split_and!; [apply Hp..|done|done|lia].
  - destruct (pool_issue_spec p Hp ltac:(lia)) as [E Hp']. rewrite E in *.
    destruct (_ <? _); cbn [snd] in Hp'.
    + specialize (IH _ Hp'). destruct (pool_run _ evs) as [l q]. cbn [cp_next_seq cp_limit] in IH.
      destruct (IH ltac:(lia)) as (I1 & I2 & I3 & I4). rewrite zlen_cons. cbn [length zseq].
      split_and!; [apply I1..|done|by f_equal|lia].
    + specialize (IH p Hp ltac:(lia)). by destruct (pool_run p evs).
  - destruct (pool_retire_next p r) as [E1 E2]. specialize (IH _ (pool_retire_inv p r Hp)). rewrite E1, E2 in IH.
    specialize (IH ltac:(lia)). by destruct (pool_run _ evs).
Qed.

(** The connection ID pool.  Along every sequence of issue and retire requests
    (fewer than 2^64), the sequence numbers handed out are 0, 1, 2, ... without a gap or a
    repetition, the number of active connection IDs the pool reports never exceeds the
    peer's limit, an issue is refused exactly when the limit is reached, and a retirement is
    refused exactly when it names a number that was never issued. *)
Theorem cidpool_invariant limit evs r (Hl : is_u64 limit) (Hb : Z.of_nat (length evs) < 2 ^ 64 - 1) :
  let (l, q) := pool_run (quic_cidpool_init limit) evs in
  l = zseq 0 (length l) /\
  0 <= quic_cidpool_active_count q <= limit /\
  fst (quic_cidpool_issue q) = (if quic_cidpool_active_count q =? limit then None else Some (zlen l)) /\
  fst (quic_cidpool_retire_prior_to q r) = (r <=? zlen l).
Proof.
  assert (Hlen : forall evs p, (length (fst (pool_run p evs)) <= length evs)%nat).
  { clear. induction evs as [|[|r] evs IH]; intros p; cbn; [lia| |specialize (IH (snd (quic_cidpool_retire_prior_to p r))); lia].
    destruct (quic_cidpool_issue p) as [[s|] p']; specialize (IH p'); destruct (pool_run p' evs); cbn in *; lia. }
  pose proof (pool_run_spec evs (quic_cidpool_init limit)) as H. specialize (Hlen evs (quic_cidpool_init limit)).
  destruct (pool_run _ evs) as [l q]. cbn in H, Hlen. unfold is_u64 in Hl.
  destruct H as ([I1 I2] & I3 & I4 & I5); [unfold pool_inv; cbn; lia|lia|].
  assert (Hq : zlen l <= Z.of_nat (length evs)) by (unfold zlen; lia).
  destruct (pool_issue_spec q) as [Ei _]; [split; lia|lia|].
  rewrite Ei. unfold quic_cidpool_active_count. rewrite I3, I5 in *. rewrite u64_id by (unfold is_u64; lia).
  split_and!; [exact I4|lia|lia| |].
  - destruct (Z.ltb_spec (0 + zlen l - cp_retire_lo q) limit); zdecide; done.
  - unfold quic_cidpool_retire_prior_to. rewrite I5. destruct (Z.ltb_spec (0 + zlen l) r); zdecide; done.
Qed.

(** Witness: with a limit of 2, the third issue waits for a retirement. *)
Definition pool_history : list pool_event := [ev_issue; ev_issue; ev_issue; ev_retire 1; ev_issue].

Lemma cidpool_invariant_witness :
  let (l, q) := pool_run (quic_cidpool_init 2) pool_history in
  l = zseq 0 (length l) /\
  0 <= quic_cidpool_active_count q <= 2 /\
  fst (quic_cidpool_issue q) = (if quic_cidpool_active_count q =? 2 then None else Some (zlen l)) /\
  fst (quic_cidpool_retire_prior_to q 3) = (3 <=? zlen l).
Proof. apply (cidpool_invariant 2 pool_history 3); closed_arith. Defined.

(** * The path MTU search *)

(** The sender probes until [quic_pmtu_next_probe] says to stop; [acked size] tells
    whether the probe of that size arrives.  The number of probes sent, and the state;
    [None] when [fuel] probes were not enough. *)
Fixpoint pmtu_search (fuel : nat) (acked : Z -> bool) (p : quic_pmtu) : option (nat * quic_pmtu) :=
  match fuel with
  | O => None
  | S fuel' =>
      let (size, p1) := quic_pmtu_next_probe p in
      if size =? 0 then Some (O, p1)
      else match pmtu_search fuel' acked (if acked size then quic_pmtu_on_ack p1 size else quic_pmtu_on_loss p1 size) with
           | None => None
           | Some (n, q) => Some (S n, q)
           end
  end.

(** One round of the search, from the state [(v, c, l)] left by acknowledgements and losses. *)
Lemma pmtu_search_probe fuel acked v c l s : is_u64 (v + 64) -> Z.min (v + 64) c = s -> 0 < v < s -> s <> l ->
  pmtu_search (S fuel) acked (mk_pmtu v 0 c l true) =
  option_map (fun '(n, q) => (S n, q))
    (pmtu_search fuel acked (if acked s then mk_pmtu s 0 c l true else mk_pmtu v 0 s s true)).
Proof.
  intros Hu Hs Hv Hl. cbn [pmtu_search].
  assert (Hc : candidate (mk_pmtu v 0 c l true) = s).
  { unfold candidate, QUIC_PMTU_STEP. cbn [pm_validated pm_ceiling]. rewrite u64_id by done. zcase; lia. }
  unfold quic_pmtu_next_probe. rewrite Hc. unfold pmtu_viable. cbn [pm_validated pm_lost pm_searching pm_ceiling negb].
  zdecide. cbn [negb andb orb]. zdecide. unfold quic_pmtu_on_ack, quic_pmtu_on_loss. cbn [pm_validated pm_ceiling pm_lost pm_searching].
  replace (if s <? c then s else c) with s by (zcase; lia). zdecide.
  by destruct (pmtu_search fuel acked _) as [[n q]|].
Qed.

Lemma pmtu_search_stop fuel acked v c l : is_u64 (v + 64) -> Z.min (v + 64) c <= v \/ Z.min (v + 64) c = l ->
  pmtu_search (S fuel) acked (mk_pmtu v 0 c l true) = Some (O, mk_pmtu v 0 c l false).
Proof.
  intros Hu Hv. cbn [pmtu_search].
  assert (Hc : candidate (mk_pmtu v 0 c l true) = Z.min (v + 64) c).
  { unfold candidate, QUIC_PMTU_STEP. cbn [pm_validated pm_ceiling]. rewrite u64_id by done. zcase; lia. }
  unfold quic_pmtu_next_probe. rewrite Hc.
  replace (pmtu_viable _ _) with false; [done|]. symmetry. unfold pmtu_viable. cbn. apply andb_false_iff.
  rewrite Z.ltb_ge, negb_false_iff, Z.eqb_eq. lia.
Qed.

(** The search is over: compute its result. *)
Ltac settled :=
  rewrite pmtu_search_stop by (closed_arith || lia); do 2 eexists; split; [reflexivity|];
  cbn; split_and!; first [lia | by left | by right | done].

(** The path MTU search ends and finds what it can.  Whatever probes the network
    delivers, the search stops after at most four probes (five calls); the size it settles
    on is the base size or was acknowledged; it is the largest size probed unless the next
    probe up (64 bytes more, at most 1452) was lost; and the search stays stopped. *)
Theorem pmtu_search_ends acked : exists n q, pmtu_search 5 acked quic_pmtu_init = Some (n, q) /\ (n <= 4)%nat /\
  let v := pm_validated q in
  QUIC_PMTU_BASE <= v <= QUIC_PMTU_MAX /\ (v = QUIC_PMTU_BASE \/ acked v = true) /\
  (v = QUIC_PMTU_MAX \/ acked (Z.min (v + QUIC_PMTU_STEP) QUIC_PMTU_MAX) = false) /\
  fst (quic_pmtu_next_probe q) = 0.
Proof.
  unfold quic_pmtu_init, QUIC_PMTU_BASE, QUIC_PMTU_MAX, QUIC_PMTU_STEP.
  rewrite (pmtu_search_probe _ _ _ _ _ 1264) by closed_arith. destruct (acked 1264) eqn:A1.
  2: settled.
  rewrite (pmtu_search_probe _ _ _ _ _ 1328) by closed_arith. destruct (acked 1328) eqn:A2.
  2: settled.
  rewrite (pmtu_search_probe _ _ _ _ _ 1392) by closed_arith. destruct (acked 1392) eqn:A3.
  2: settled.
  rewrite (pmtu_search_probe _ _ _ _ _ 1452) by closed_arith. destruct (acked 1452) eqn:A4;
    settled.
Qed.
