(* ===== verification/TransportParams.v ===== *)
(** Transport parameters: [tls/ext/tparam] (integer, opaque and preferred_address
    parameters, the connection ID checks) and [tls/ext/stp] (the server's list of
    parameters and the search for one of them).

    The C code joins several steps with the operator [&], which evaluates all of them
    and then combines the results; [wr_and] and [rd_and] are that operator. *)
From S2P Require Import Prelude Buffers Varint Lifecycle Cid.

(** [p & q] on writers: [q] runs whatever [p] returned. *)
Definition wr_and (p q : wr) : wr := fun cap st =>
  match p cap st with
  | None => None
  | Some (b1, st1) => match q cap st1 with
                      | None => None
                      | Some (b2, st2) => Some (b1 && b2, st2)
                      end
  end.

(** [p & q] on readers. *)
Definition rd_and {A B} (p : rd A) (q : rd B) : rd (A * B) := fun buf n off =>
  match p buf n off with
  | None => None
  | Some (ra, off1) =>
      match q buf n off1 with
      | None => None
      | Some (rb, off2) => Some (match ra, rb with Some a, Some b => Some (a, b) | _, _ => None end, off2)
      end
  end.

(** * tparam.c *)

Definition QUIC_TP_ORIGINAL_DESTINATION_CONNECTION_ID : Z := 0x00.
Definition QUIC_TP_MAX_IDLE_TIMEOUT : Z := 0x01.
Definition QUIC_TP_INITIAL_MAX_DATA : Z := 0x04.
Definition QUIC_TP_INITIAL_MAX_STREAM_DATA_BIDI_LOCAL : Z := 0x05.
Definition QUIC_TP_INITIAL_MAX_STREAM_DATA_BIDI_REMOTE : Z := 0x06.
Definition QUIC_TP_INITIAL_MAX_STREAM_DATA_UNI : Z := 0x07.
Definition QUIC_TP_INITIAL_MAX_STREAMS_BIDI : Z := 0x08.
Definition QUIC_TP_INITIAL_MAX_STREAMS_UNI : Z := 0x09.
Definition QUIC_TP_PREFERRED_ADDRESS : Z := 0x0d.
Definition QUIC_TP_INITIAL_SOURCE_CONNECTION_ID : Z := 0x0f.

(** The bytes written and the buffer. *)
Definition quic_tparam_put_int (id value : Z) (buf : list Z) (cap : Z) : option (Z * list Z) :=
  let vlen := quic_varint_len value in
  let need := quic_varint_len id +w 1 +w vlen in
  if (vlen =? 0) || (cap <? need) then Some (0, buf)
  else match quic_varint_encode buf 0 id with
       | None => None
       | Some (o1, buf1) =>
           match quic_varint_encode buf1 o1 vlen with
           | None => None
           | Some (o2, buf2) =>
               match quic_varint_encode buf2 (o1 + o2) value with
               | None => None
               | Some (o3, buf3) => Some (o1 +w o2 +w o3, buf3)
               end
           end
       end.

Definition take_value (vlen : Z) : rd Z := fun buf n off =>
  if n -w off <? vlen then Some (None, off)
  else match quic_varint_take buf (off +w vlen) off with
       | None => None
       | Some (None, off') => Some (None, off')
       | Some (Some v, off') => Some (if off' -w off =? vlen then Some v else None, off')
       end.

Definition take_id_len : rd (Z * Z) := id <- quic_varint_take ;; vlen <- quic_varint_take ;; rd_ret (id, vlen).

(** [Some (Some ((id, value), used))]. *)
Definition quic_tparam_get_int (buf : list Z) (n : Z) : option (option ((Z * Z) * Z)) :=
  decode_from 0 (h <- take_id_len ;; v <- take_value (snd h) ;; rd_ret (fst h, v)) buf n.

(** * tpblob.c *)

Definition quic_tparam_put_blob (id : Z) (val : list Z) (val_len : Z) : list Z -> Z -> option (Z * list Z) :=
  encode_to (wr_and (wr_and (quic_varint_put id) (quic_varint_put val_len)) (quic_put_bytes val val_len)).

Definition blob_take_hdr : rd (Z * Z) := fun buf n off =>
  match rd_and quic_varint_take quic_varint_take buf n off with
  | None => None
  | Some (Some (id, len), off') => Some (if len <=? n -w off' then Some (id, len) else None, off')
  | Some (None, off') => Some (None, off')
  end.

(** [Some (Some (id, off, len, used))]: the value is the [len] bytes at [buf + off]. *)
Definition quic_tparam_get_blob (buf : list Z) (n : Z) : option (option (Z * Z * Z * Z)) :=
  match blob_take_hdr buf n 0 with
  | None => None
  | Some (None, _) => Some None
  | Some (Some (id, len), off) => Some (Some (id, off, len, off +w len))
  end.

(** ** preferred_address *)

Record quic_preferred_address := mk_pa {
  pa_ipv4 : list Z; pa_ipv4_port : Z; pa_ipv6 : list Z; pa_ipv6_port : Z;
  pa_cid_len : Z; pa_cid : list Z; pa_reset_token : list Z }.

Definition take_be16 (v : list Z) (i : Z) : option Z :=
  match load v i, load v (i + 1) with
  | Some a, Some b => Some (Z.lor (u16 (Z.shiftl a 8)) b)
  | _, _ => None
  end.

Definition pa_put_port (port : Z) : wr := fun cap '(v, off) =>
  if cap <? off +w 2 then Some (false, (v, off))
  else match quic_put_be16 port with
       | [a; b] => match store v off a with
                   | None => None
                   | Some v1 => match store v1 (off + 1) b with
                                | None => None
                                | Some v2 => Some (true, (v2, off +w 2))
                                end
                   end
       | _ => None
       end.

(** The conjunction is combined at the end: every step runs, also when [cid_len > 20]. *)
Definition pa_build_value (pa : quic_preferred_address) (v : list Z) (cap : Z) : option (Z * list Z) :=
  let cl := pa_cid_len pa in
  match wr_and (wr_and (wr_and (wr_and (wr_and (wr_and
          (quic_put_bytes (pa_ipv4 pa) 4) (pa_put_port (pa_ipv4_port pa)))
          (quic_put_bytes (pa_ipv6 pa) 16)) (pa_put_port (pa_ipv6_port pa)))
          (quic_put_bytes [cl] 1)) (quic_put_bytes (pa_cid pa) cl)) (quic_put_bytes (pa_reset_token pa) 16) cap (v, 0) with
  | None => None
  | Some (ok, (v', off)) => Some (if (cl <=? 20) && ok then off else 0, v')
  end.

(** [v0] is the uninitialised local array of 61 bytes. *)
Definition quic_tparam_put_preferred_address (v0 : list Z) (pa : quic_preferred_address) (buf : list Z) (cap : Z)
  : option (Z * list Z) :=
  match pa_build_value pa v0 61 with
  | None => None
  | Some (vlen, v) => if vlen =? 0 then Some (0, buf) else quic_tparam_put_blob QUIC_TP_PREFERRED_ADDRESS v vlen buf cap
  end.

Definition pa_take_port : rd Z := fun v len off =>
  if len <? off +w 2 then Some (None, off)
  else match take_be16 v off with
       | None => None
       | Some p => Some (Some p, off +w 2)
       end.

Definition pa_take_addrs (pa : quic_preferred_address) : rd (list Z * Z * list Z * Z) :=
  rd_and (rd_and (rd_and (quic_take_bytes (pa_ipv4 pa) 4) pa_take_port) (quic_take_bytes (pa_ipv6 pa) 16)) pa_take_port.

(** The connection ID is copied for whatever length was read (for the old value of the field
    when reading it failed); the check [cid_len <= 20] only enters the result. *)
Definition pa_take_cid_token (pa : quic_preferred_address) : rd (Z * list Z * list Z) := fun v len off =>
  match quic_take_bytes [pa_cid_len pa] 1 v len off with
  | None => None
  | Some (r, off1) =>
      let cl := match r with Some [c] => c | _ => pa_cid_len pa end in
      match rd_and (quic_take_bytes (pa_cid pa) cl) (quic_take_bytes (pa_reset_token pa) 16) v len off1 with
      | None => None
      | Some (Some (cid, token), off2) =>
          Some (match r with Some _ => if cl <=? 20 then Some (cl, cid, token) else None | None => None end, off2)
      | Some (None, off2) => Some (None, off2)
      end
  end.

(** [Some None]: returned 0. *)
Definition pa_parse_value (pa : quic_preferred_address) (v : list Z) (len : Z) : option (option quic_preferred_address) :=
  match rd_and (pa_take_addrs pa) (pa_take_cid_token pa) v len 0 with
  | None => None
  | Some (None, _) => Some None
  | Some (Some (a, c), off) =>
      if off =? len
      then let '(ipv4, p4, ipv6, p6) := a in let '(cl, cid, token) := c in
           Some (Some (mk_pa ipv4 p4 ipv6 p6 cl cid token))
      else Some None
  end.

Definition quic_tparam_get_preferred_address (pa : quic_preferred_address) (buf : list Z) (n : Z)
  : option (option (quic_preferred_address * Z)) :=
  match quic_tparam_get_blob buf n with
  | None => None
  | Some None => Some None
  | Some (Some (id, off, vlen, used)) =>
      if negb ((negb (used =? 0)) && (id =? QUIC_TP_PREFERRED_ADDRESS)) then Some None
      else match pa_parse_value pa (drop (Z.to_nat off) buf) vlen with
           | None => None
           | Some None => Some None
           | Some (Some pa') => Some (Some (pa', used))
           end
  end.

(** * tpcheck.c *)

(** [for (i = 0; i < n; i++) if (a[i] != b[i]) return 0; return 1;], [k] rounds from [i] on. *)
Fixpoint bytes_eq_loop (k : nat) (a b : list Z) (i : Z) : option bool :=
  match k with
  | O => Some true
  | S k' => match load a i, load b i with
            | Some x, Some y => if x =? y then bytes_eq_loop k' a b (i + 1) else Some false
            | _, _ => None
            end
  end.
Definition bytes_eq (a b : list Z) (n : Z) : option bool := bytes_eq_loop (Z.to_nat n) a b 0.

Definition quic_tparam_cid_match (got : list Z) (got_len : Z) (expected : list Z) (exp_len : Z) : option bool :=
  if negb (got_len =? exp_len) then Some false else bytes_eq got expected got_len.
Definition quic_tparam_check_initial_scid (got : list Z) (got_len : Z) (observed : list Z) (observed_len : Z) :=
  quic_tparam_cid_match got got_len observed observed_len.
Definition quic_tparam_check_original_dcid (got : list Z) (got_len : Z) (sent_dcid : list Z) (sent_len : Z) :=
  quic_tparam_cid_match got got_len sent_dcid sent_len.
Definition quic_tparam_check_retry_scid (did_retry has_param : Z) (got : list Z) (got_len : Z) (retry_scid : list Z)
  (retry_len : Z) : option bool :=
  if negb (did_retry =? has_param) then Some false
  else if did_retry =? 0 then Some true
  else quic_tparam_cid_match got got_len retry_scid retry_len.

(** * server_tp.c *)

Definition int_params : list (Z * Z) :=
  [ (QUIC_TP_MAX_IDLE_TIMEOUT, 30000); (QUIC_TP_INITIAL_MAX_DATA, 1048576);
    (QUIC_TP_INITIAL_MAX_STREAM_DATA_BIDI_LOCAL, 262144); (QUIC_TP_INITIAL_MAX_STREAM_DATA_BIDI_REMOTE, 262144);
    (QUIC_TP_INITIAL_MAX_STREAM_DATA_UNI, 262144); (QUIC_TP_INITIAL_MAX_STREAMS_BIDI, 100);
    (QUIC_TP_INITIAL_MAX_STREAMS_UNI, 100) ].

(** [w = put(out + *off, cap - *off, ...); *off += w; return w != 0;]. *)
Definition put_tp (enc : list Z -> Z -> option (Z * list Z)) : wr := fun cap '(out, off) =>
  match on_tail off (fun b => enc b (cap -w off)) out with
  | None => None
  | Some (w, out') => Some (negb (w =? 0), (out', off +w w))
  end.
Definition put_int (id val : Z) : wr := put_tp (quic_tparam_put_int id val).
Definition put_blob (id : Z) (val : list Z) (val_len : Z) : wr := put_tp (quic_tparam_put_blob id val val_len).

Fixpoint put_int_params_loop (l : list (Z * Z)) : wr :=
  match l with
  | [] => wr_ok
  | (id, val) :: l' => wr_and (put_int id val) (put_int_params_loop l')
  end.
Definition put_int_params : wr := put_int_params_loop int_params.

(** [Some (Some out_len, out)]: returned 1. *)
Definition quic_stp_build_server (original_dcid : list Z) (odcid_len : Z) (initial_scid : list Z) (scid_len : Z)
  (out : list Z) (cap : Z) : option (option Z * list Z) :=
  match wr_and (wr_and (put_blob QUIC_TP_ORIGINAL_DESTINATION_CONNECTION_ID original_dcid odcid_len) put_int_params)
          (put_blob QUIC_TP_INITIAL_SOURCE_CONNECTION_ID initial_scid scid_len) cap (out, 0) with
  | None => None
  | Some (ok, (out', off)) => Some (if ok then Some off else None, out')
  end.

(** * parse_tp.c *)

(** The integer reported for a value of [vlen] bytes at [val]. *)
Definition emit_int (val : list Z) (vlen : Z) : option Z :=
  match quic_varint_decode val vlen with
  | None => None
  | Some None => Some 0
  | Some (Some (_, v)) => Some v
  end.

(** What a match reports: the integer, and where the value is and how long. *)
Definition stp_emit (tp : list Z) (pos vlen : Z) : option (Z * Z * Z) :=
  match emit_int (drop (Z.to_nat pos) tp) vlen with
  | None => None
  | Some v => Some (v, pos, vlen)
  end.

(** [Some None]: -1; [Some (Some (None, off'))]: no match; otherwise a match. *)
Definition step_tlv (tp : list Z) (len off param_id : Z) : option (option (option (Z * Z * Z) * Z)) :=
  match quic_tparam_get_blob (drop (Z.to_nat off) tp) (len -w off) with
  | None => None
  | Some None => Some None
  | Some (Some (id, pos, vlen, r)) =>
      if r =? 0 then Some None
      else if negb (id =? param_id) then Some (Some (None, off +w r))
      else match stp_emit tp (off + pos) vlen with
           | None => None
           | Some e => Some (Some (Some e, off +w r))
           end
  end.

(** [while (off < len)]; a step that does not end the loop consumes at least two bytes.
    [None]: an access out of bounds or more than [fuel] rounds. *)
Fixpoint stp_parse_loop (fuel : nat) (tp : list Z) (len off param_id : Z) : option (option (Z * Z * Z)) :=
  match fuel with
  | O => None
  | S fuel' =>
      if off <? len
      then match step_tlv tp len off param_id with
           | None => None
           | Some None => Some None
           | Some (Some (None, off')) => stp_parse_loop fuel' tp len off' param_id
           | Some (Some (Some e, _)) => Some (Some e)
           end
      else Some None
  end.
Definition quic_stp_parse (tp : list Z) (len param_id : Z) : option (option (Z * Z * Z)) :=
  stp_parse_loop (S (Z.to_nat len)) tp len 0 param_id.

(** * The combined steps *)

#[export] Instance writes_and (p q : wr) b1 b2 : Writes p b1 -> Writes q b2 -> Writes (wr_and p q) (b1 ++ b2).
Proof.
  intros Hp Hq cap buf off Hoff Hcap Hobj. unfold wr_and. rewrite zlen_app.
  pose proof (zlen_nonneg b1). pose proof (zlen_nonneg b2).
  specialize (Hp cap buf off Hoff Hcap Hobj). destruct (Z.leb_spec (off + zlen b1) cap).
  - rewrite Hp. specialize (Hq cap (splice buf off b1) (off + zlen b1) ltac:(lia)).
    rewrite zlen_splice in Hq by lia. specialize (Hq Hcap Hobj).
    destruct (Z.leb_spec (off + zlen b1 + zlen b2) cap); zdecide.
    + rewrite Hq. rewrite splice_splice by lia. by rewrite Z.add_assoc.
    + destruct Hq as (buf' & off' & -> & Hl & Hr & Hd). exists buf', off'.
      split_and!; [done|done|lia|lia|]. rewrite Hd, drop_splice by lia. done.
  - zdecide. destruct Hp as (buf1 & off1 & -> & Hl & Hr & Hd).
    specialize (Hq cap buf1 off1 ltac:(lia) ltac:(lia) Hobj).
    destruct (off1 + zlen b2 <=? cap) eqn:E.
    + apply Z.leb_le in E. rewrite Hq. eexists _, _. split; [reflexivity|]. rewrite zlen_splice by lia.
      split_and!; [done|lia|lia|]. by rewrite drop_splice by lia.
    + destruct Hq as (buf' & off' & -> & Hl' & Hr' & Hd'). exists buf', off'. split_and!; [done|lia|lia|lia|].
      by rewrite Hd'.
Qed.

Lemma writes_put_tp enc bs : Encodes enc bs -> 0 < zlen bs -> Writes (put_tp enc) bs.
Proof.
  intros He Hb cap buf off Hoff Hcap Hobj. unfold put_tp.
  pose proof (on_tail_spec enc bs buf cap off He Hoff Hcap Hobj) as Ht.
  destruct (Z.leb_spec (off + zlen bs) cap).
  - rewrite Ht. zdecide. unwrap. done.
  - destruct Ht as (buf' & -> & Hl & _ & Hd). cbn [Z.eqb negb]. rewrite Z.add_0_r. unwrap.
    exists buf', off. split_and!; done || lia.
Qed.

(** * One parameter *)

(** A parameter on the wire. *)
Definition tlv_bytes (p : Z * list Z) : list Z := varint_bytes (fst p) ++ varint_bytes (zlen (snd p)) ++ snd p.

Definition tlv_ok (p : Z * list Z) : Prop := is_varint (fst p) /\ zlen (snd p) < 2 ^ 40.

Lemma zlen_tlv p : tlv_ok p -> 2 <= zlen (tlv_bytes p).
Proof.
  intros [Hi Hl]. unfold tlv_bytes. rewrite !zlen_app. pose proof (zlen_nonneg (snd p)).
  assert (is_varint (zlen (snd p))) by (unfold is_varint, QUIC_VARINT_MAX; lia). rewrite !zlen_varint_bytes by done.
  pose proof (varint_len_pos (fst p) Hi). pose proof (varint_len_pos (zlen (snd p)) ltac:(done)). lia.
Qed.

Lemma encodes_blob id val : tlv_ok (id, val) -> Encodes (quic_tparam_put_blob id val (zlen val)) (tlv_bytes (id, val)).
Proof.
  intros [Hi Hl]. cbn [fst snd] in *. pose proof (zlen_nonneg val).
  assert (is_varint (zlen val)) by (unfold is_varint, QUIC_VARINT_MAX; lia).
  unfold tlv_bytes. cbn [fst snd]. rewrite app_assoc. apply encodes_to. apply writes_and.
  - apply writes_and; by apply writes_varint.
  - apply writes_put_bytes_all. unfold max_object. lia.
Qed.

Lemma encodes_int id v : is_varint id -> is_varint v ->
  Encodes (quic_tparam_put_int id v) (tlv_bytes (id, varint_bytes v)).
Proof.
  intros Hi Hv buf cap Hcap Ho. unfold quic_tparam_put_int. unfold tlv_bytes. cbn [fst snd].
  pose proof (varint_len_pos id Hi). pose proof (varint_len_pos v Hv).
  assert (Hl1 : is_varint (quic_varint_len v)) by (unfold is_varint, QUIC_VARINT_MAX; lia).
  assert (Hone : quic_varint_len (quic_varint_len v) = 1) by (destruct (varint_cases _ Hl1) as [(_ & E & _)|[E|[E|E]]]; [exact E|lia..]).
  rewrite !zlen_app, (zlen_varint_bytes v) by done. rewrite !zlen_varint_bytes, Hone by done.
  rewrite !u64_id by (unfold is_u64; rewrite ?u64_id; unfold is_u64; lia). zfalse (quic_varint_len v =? 0). cbn [orb].
  destruct (Z.leb_spec (quic_varint_len id + (1 + quic_varint_len v)) cap); zdecide.
  - rewrite varint_encode_spec by (done || lia).
    assert (L1 : zlen (splice buf 0 (varint_bytes id)) = zlen buf) by (apply zlen_splice; rewrite ?zlen_varint_bytes by done; lia).
    rewrite varint_encode_spec by (rewrite ?L1, ?Hone; done || lia). rewrite Hone.
    pose proof (splice_splice buf (varint_bytes id) (varint_bytes (quic_varint_len v)) 0) as S1.
    rewrite !zlen_varint_bytes, Hone, Z.add_0_l in S1 by done. rewrite S1 by lia.
    rewrite varint_encode_spec; [|done|lia|].
    + pose proof (splice_splice buf (varint_bytes id ++ varint_bytes (quic_varint_len v)) (varint_bytes v) 0) as S2.
      rewrite zlen_app, !zlen_varint_bytes, Hone, Z.add_0_l in S2 by done. rewrite S2, <- app_assoc by lia.
      rewrite !u64_id by (unfold is_u64; rewrite ?u64_id; unfold is_u64; lia). do 2 f_equal. lia.
    + rewrite zlen_splice; rewrite ?zlen_app, ?zlen_varint_bytes, ?Hone by done; lia.
  - exists buf. done.
Qed.

Lemma get_blob_spec p post n : tlv_ok p -> 0 <= n <= zlen (tlv_bytes p ++ post) -> n < max_object ->
  exists pos, zlen (tlv_bytes p) = pos + zlen (snd p) /\ 2 <= pos /\ drop (Z.to_nat pos) (tlv_bytes p) = snd p /\
  quic_tparam_get_blob (tlv_bytes p ++ post) n =
  Some (if zlen (tlv_bytes p) <=? n then Some (fst p, pos, zlen (snd p), zlen (tlv_bytes p)) else None).
Proof.
  intros [Hi Hl] Hn Ho. destruct p as [id val]. cbn [fst snd] in *. pose proof (zlen_nonneg val). pose proof (zlen_nonneg post).
  assert (Hv : is_varint (zlen val)) by (unfold is_varint, QUIC_VARINT_MAX; lia).
  set (h1 := varint_bytes id). set (h2 := varint_bytes (zlen val)).
  assert (H1 : 1 <= zlen h1) by (unfold h1; rewrite zlen_varint_bytes by done; by apply varint_len_pos).
  assert (H2 : 1 <= zlen h2) by (unfold h2; rewrite zlen_varint_bytes by done; by apply varint_len_pos).
  assert (Hb : tlv_bytes (id, val) ++ post = h1 ++ h2 ++ val ++ post) by (unfold tlv_bytes; cbn [fst snd]; by rewrite <- !app_assoc).
  assert (Hz : zlen (tlv_bytes (id, val)) = zlen h1 + zlen h2 + zlen val) by (unfold tlv_bytes; cbn [fst snd]; rewrite !zlen_app; fold h1 h2; lia).
  exists (zlen h1 + zlen h2). split_and!; [lia|lia| |].
  { unfold tlv_bytes. cbn [fst snd]. fold h1 h2. rewrite app_assoc. apply drop_app_length'. rewrite length_app. unfold zlen. lia. }
  rewrite Hb in *. rewrite Hz. unfold quic_tparam_get_blob, blob_take_hdr, rd_and.
  pose proof (reads_varint id [] (h2 ++ val ++ post) n ltac:(rewrite zlen_nil; lia) (proj2 Hn) Ho) as R1.
  rewrite zlen_nil in R1. cbn [app] in R1. fold h1 in R1. rewrite Z.add_0_l in R1.
  destruct (Z.leb_spec (zlen h1) n) as [L1|L1].
  - rewrite R1. pose proof (reads_varint (zlen val) h1 (val ++ post) n ltac:(lia) (proj2 Hn) Ho) as R2. fold h2 in R2.
    destruct (Z.leb_spec (zlen h1 + zlen h2) n) as [L2|L2].
    + rewrite R2. rewrite (u64_id (n - _)) by (unfold is_u64, max_object in *; lia).
      destruct (Z.leb_spec (zlen val) (n - (zlen h1 + zlen h2))); zdecide; [|done].
      rewrite u64_id by (unfold is_u64, max_object in *; lia). done.
    + destruct R2 as [off2 ->]. by zdecide.
  - destruct R1 as [off1 R1].
    assert (off1 = 0) as ->.
    { unfold quic_varint_take in R1. destruct (quic_varint_decode _ _) as [[[u v]|]|]; [discriminate R1|by injection R1|discriminate R1]. }
    rewrite R1, R1. by zdecide.
Qed.

(** * A list of parameters *)

Definition tlvs_bytes (l : list (Z * list Z)) : list Z := concat (map tlv_bytes l).

(** The value of the first parameter with this id. *)
Fixpoint find_tp (l : list (Z * list Z)) (id : Z) : option (list Z) :=
  match l with
  | [] => None
  | (i, val) :: l' => if i =? id then Some val else find_tp l' id
  end.

(** The integer a value stands for: the varint it starts with. *)
Definition int_of (val : list Z) : Z :=
  match quic_varint_decode val (zlen val) with Some (Some (_, v)) => v | _ => 0 end.

(** The integer parse_tp.h documents: the value as a varint, 0 if it is not a single one. *)
Definition documented_int (val : list Z) : Z :=
  match quic_varint_decode val (zlen val) with
  | Some (Some (used, v)) => if used =? zlen val then v else 0
  | _ => 0
  end.

Lemma emit_int_spec val rest : Forall is_u8 val -> emit_int (val ++ rest) (zlen val) = Some (int_of val).
Proof.
  intros Hu. unfold emit_int, int_of. rewrite varint_decode_prefix by done.
  destruct val as [|b val]; [done|]. apply Forall_cons_iff in Hu as [Hb Hu]. pose proof (zlen_nonneg val).
  rewrite varint_decode_spec by (done || (by apply Forall_take) || (rewrite zlen_cons; lia)).
  by destruct (zlen (b :: val) <? _).
Qed.

Lemma stp_parse_loop_spec id l : forall fuel pre post,
  Forall tlv_ok l -> Forall (fun p => Forall is_u8 (snd p)) l -> zlen (pre ++ tlvs_bytes l) < max_object -> (length l < fuel)%nat ->
  match find_tp l id with
  | None => stp_parse_loop fuel (pre ++ tlvs_bytes l ++ post) (zlen (pre ++ tlvs_bytes l)) (zlen pre) id = Some None
  | Some val => exists pos,
      stp_parse_loop fuel (pre ++ tlvs_bytes l ++ post) (zlen (pre ++ tlvs_bytes l)) (zlen pre) id =
        Some (Some (int_of val, pos, zlen val)) /\ zlen pre <= pos /\ pos + zlen val <= zlen (pre ++ tlvs_bytes l) /\
      slice (pre ++ tlvs_bytes l ++ post) pos (zlen val) = val
  end.
Proof.
  induction l as [|p l IH]; intros [|fuel] pre post Hok Hu Ho Hf; try (simpl in Hf; lia); cbn [find_tp stp_parse_loop].
  { cbn [tlvs_bytes map concat]. rewrite app_nil_r. zdecide. done. }
  apply Forall_cons_iff in Hok as [Hp Hok], Hu as [Hpu Hu]. pose proof (zlen_tlv p Hp). pose proof (zlen_nonneg pre).
  change (tlvs_bytes (p :: l)) with (tlv_bytes p ++ tlvs_bytes l) in *. rewrite <- app_assoc in *.
  pose proof (zlen_nonneg (tlvs_bytes l)). pose proof (zlen_nonneg post).
  assert (Hlen : zlen (pre ++ tlv_bytes p ++ tlvs_bytes l) = zlen pre + zlen (tlv_bytes p) + zlen (tlvs_bytes l)) by (rewrite !zlen_app; lia).
  rewrite Hlen in *. ztrue (zlen pre <? zlen pre + zlen (tlv_bytes p) + zlen (tlvs_bytes l)). unfold step_tlv.
  rewrite drop_app_length' by (unfold zlen; lia). rewrite (u64_id (_ - zlen pre)) by (unfold is_u64, max_object in *; lia).
  replace (zlen pre + zlen (tlv_bytes p) + zlen (tlvs_bytes l) - zlen pre) with (zlen (tlv_bytes p) + zlen (tlvs_bytes l)) by lia.
  destruct (get_blob_spec p (tlvs_bytes l ++ post) (zlen (tlv_bytes p) + zlen (tlvs_bytes l)) Hp) as (pos & Hz & Hpos & Hd & ->);
    [rewrite !zlen_app; lia|lia|].
  ztrue (zlen (tlv_bytes p) <=? zlen (tlv_bytes p) + zlen (tlvs_bytes l)). zfalse (zlen (tlv_bytes p) =? 0).
  destruct p as [i val]. cbn [fst snd] in *. destruct (Z.eqb_spec i id) as [->|Hne]; cbn [negb].
  - unfold stp_emit. assert (Hdr : drop (Z.to_nat (zlen pre + pos)) (pre ++ tlv_bytes (id, val) ++ tlvs_bytes l ++ post) = val ++ tlvs_bytes l ++ post).
    { rewrite Z2Nat.inj_add by lia. rewrite <- drop_drop. rewrite drop_app_length' by (unfold zlen; lia).
      rewrite drop_app_le by (unfold zlen in *; lia). by rewrite Hd. }
    pose proof (zlen_nonneg val). rewrite Hdr, emit_int_spec by done. eexists. split; [reflexivity|]. split_and!; [lia|lia|].
    unfold slice. rewrite Hdr. unfold zlen. rewrite Nat2Z.id. apply take_app_length.
  - rewrite u64_id by (unfold is_u64, max_object in *; lia).
    specialize (IH fuel (pre ++ tlv_bytes (i, val)) post Hok Hu). rewrite <- !app_assoc, !zlen_app in IH.
    replace (zlen pre + zlen (tlv_bytes (i, val)) + zlen (tlvs_bytes l)) with (zlen pre + (zlen (tlv_bytes (i, val)) + zlen (tlvs_bytes l))) in * by lia.
    specialize (IH ltac:(lia) ltac:(simpl in Hf; lia)).
    destruct (find_tp l id) as [v|]; [|done]. destruct IH as (q & E & Hq1 & Hq2 & Hq3). exists q. split_and!; [done|lia|lia|done].
Qed.

(** The server's parameters. *)
Definition server_params (odcid scid : list Z) : list (Z * list Z) :=
  (QUIC_TP_ORIGINAL_DESTINATION_CONNECTION_ID, odcid) ::
  map (fun iv => (fst iv, varint_bytes (snd iv))) int_params ++ [(QUIC_TP_INITIAL_SOURCE_CONNECTION_ID, scid)].

Lemma writes_int_params l : Forall (fun iv => is_varint (fst iv) /\ is_varint (snd iv)) l ->
  Writes (put_int_params_loop l) (tlvs_bytes (map (fun iv => (fst iv, varint_bytes (snd iv))) l)).
Proof.
  induction l as [|[id v] l IH]; intros Hl; cbn [put_int_params_loop]; [apply writes_ok_nil|].
  apply Forall_cons_iff in Hl as [[Hi Hv] Hl]. cbn [fst snd] in *.
  change (tlvs_bytes (map _ ((id, v) :: l))) with
    (tlv_bytes (id, varint_bytes v) ++ tlvs_bytes (map (fun iv => (fst iv, varint_bytes (snd iv))) l)).
  apply writes_and; [|by apply IH].
  apply writes_put_tp; [by apply encodes_int|]. pose proof (zlen_tlv (id, varint_bytes v)) as Hz.
  assert (2 <= zlen (tlv_bytes (id, varint_bytes v))); [|lia]. apply Hz. split; [done|]. cbn.
  rewrite zlen_varint_bytes by done. pose proof (varint_len_pos v Hv). lia.
Qed.

Lemma int_params_ok : Forall (fun iv => is_varint (fst iv) /\ is_varint (snd iv)) int_params.
Proof. repeat (apply List.Forall_cons; [split; closed_arith|]). apply List.Forall_nil. Qed.

Section Server.
Context (odcid scid : list Z) (Ho8 : Forall is_u8 odcid) (Hs8 : Forall is_u8 scid) (Hol : zlen odcid <= 20) (Hsl : zlen scid <= 20).

Lemma server_params_ok : Forall tlv_ok (server_params odcid scid) /\ Forall (fun p => Forall is_u8 (snd p)) (server_params odcid scid).
Proof using Ho8 Hs8 Hol Hsl.
  assert (Hi : Forall (fun p => tlv_ok p /\ Forall is_u8 (snd p)) (map (fun iv => (fst iv, varint_bytes (snd iv))) int_params)).
  { apply Forall_map. eapply List.Forall_impl; [|exact int_params_ok]. intros [i v] [H1 H2]. cbn in *. split.
    - split; [done|]. cbn. rewrite zlen_varint_bytes by done. pose proof (varint_len_pos v H2). lia.
    - apply be_bytes_u8. }
  assert (Ha : Forall (fun p => tlv_ok p /\ Forall is_u8 (snd p)) (server_params odcid scid)).
  { unfold server_params. apply List.Forall_cons; [split; [split; [closed_arith|cbn; lia]|done]|]. apply Forall_app. split; [done|].
    apply List.Forall_cons; [split; [split; [closed_arith|cbn; lia]|done]|apply List.Forall_nil]. }
  split; (eapply List.Forall_impl; [|exact Ha]); by intros p [? ?].
Qed.

Lemma writes_server :
  Writes (wr_and (wr_and (put_blob QUIC_TP_ORIGINAL_DESTINATION_CONNECTION_ID odcid (zlen odcid)) put_int_params)
            (put_blob QUIC_TP_INITIAL_SOURCE_CONNECTION_ID scid (zlen scid))) (tlvs_bytes (server_params odcid scid)).
Proof using Hol Hsl.
  assert (H1 : tlv_ok (QUIC_TP_ORIGINAL_DESTINATION_CONNECTION_ID, odcid)) by (split; [closed_arith|cbn; lia]).
  assert (H2 : tlv_ok (QUIC_TP_INITIAL_SOURCE_CONNECTION_ID, scid)) by (split; [closed_arith|cbn; lia]).
  unfold server_params, tlvs_bytes. cbn [map concat]. rewrite map_app, concat_app. cbn [map concat]. rewrite app_nil_r, app_assoc.
  apply writes_and; [apply writes_and|].
  - apply writes_put_tp; [by apply encodes_blob|]. pose proof (zlen_tlv _ H1). lia.
  - exact (writes_int_params int_params int_params_ok).
  - apply writes_put_tp; [by apply encodes_blob|]. pose proof (zlen_tlv _ H2). lia.
Qed.

Lemma server_params_bytes_len : zlen (tlvs_bytes (server_params odcid scid)) < 2 ^ 20 /\
  Z.of_nat (length (server_params odcid scid)) <= zlen (tlvs_bytes (server_params odcid scid)).
Proof using Hol Hsl.
  unfold server_params, tlvs_bytes. cbn [map concat]. rewrite map_app, concat_app. cbn [map concat]. rewrite app_nil_r, !zlen_app.
  set (mid := concat (map tlv_bytes (map (fun iv => (fst iv, varint_bytes (snd iv))) int_params))).
  assert (Hm : zlen mid = 38) by reflexivity.
  assert (Ht : forall id v, is_varint id -> zlen v <= 20 -> 2 <= zlen (tlv_bytes (id, v)) <= 40).
  { intros id v Hi Hv. split; [apply zlen_tlv; split; [done|cbn; lia]|]. unfold tlv_bytes. cbn [fst snd]. pose proof (zlen_nonneg v).
    assert (is_varint (zlen v)) by (unfold is_varint, QUIC_VARINT_MAX; lia). rewrite !zlen_app, !zlen_varint_bytes by done.
    pose proof (varint_len_pos id Hi). pose proof (varint_len_pos (zlen v) ltac:(done)). lia. }
  pose proof (Ht QUIC_TP_ORIGINAL_DESTINATION_CONNECTION_ID odcid ltac:(closed_arith) Hol).
  pose proof (Ht QUIC_TP_INITIAL_SOURCE_CONNECTION_ID scid ltac:(closed_arith) Hsl).
  cbn [length]. rewrite length_app, length_map. change (length int_params) with 7%nat. cbn [length]. lia.
Qed.
End Server.

Lemma bytes_eq_loop_spec k a b : forall i, 0 <= i -> i + Z.of_nat k <= zlen a -> i + Z.of_nat k <= zlen b ->
  bytes_eq_loop k a b i = Some (bool_decide (slice a i (Z.of_nat k) = slice b i (Z.of_nat k))).
Proof.
  induction k as [|k IH]; intros i Hi H1 H2; cbn [bytes_eq_loop].
  - by rewrite bool_decide_eq_true_2.
  - destruct (load_is_Some a i) as [x Hx]; [lia|]. destruct (load_is_Some b i) as [y Hy]; [lia|]. rewrite Hx, Hy.
    rewrite !(slice_cons _ i) by lia. rewrite Hx, Hy. replace (Z.of_nat (S k) - 1) with (Z.of_nat k) by lia.
    destruct (Z.eqb_spec x y) as [->|Hne].
    + rewrite IH by lia. f_equal. apply bool_decide_ext. split; [by intros ->|by intros [= ->]].
    + f_equal. symmetry. apply bool_decide_eq_false. by intros [= ? ?].
Qed.

(** The check of a connection ID parameter is equality of the two byte strings. *)
Lemma cid_match_spec got expected :
  quic_tparam_cid_match got (zlen got) expected (zlen expected) = Some (bool_decide (got = expected)).
Proof.
  unfold quic_tparam_cid_match, bytes_eq. destruct (Z.eqb_spec (zlen got) (zlen expected)) as [E|E]; cbn [negb].
  - pose proof (zlen_nonneg got). rewrite bytes_eq_loop_spec by lia. rewrite !slice_0. f_equal. apply bool_decide_ext.
    rewrite Z2Nat.id by lia. replace (take (Z.to_nat (zlen got)) got) with got by (unfold zlen; by rewrite Nat2Z.id, firstn_all).
    replace (take (Z.to_nat (zlen got)) expected) with expected by (rewrite E; unfold zlen; by rewrite Nat2Z.id, firstn_all). done.
  - f_equal. symmetry. apply bool_decide_eq_false. by intros ->.
Qed.

(** Code and documentation agree on a value's integer exactly here. *)
Lemma documented_int_iff val : int_of val = documented_int val <->
  int_of val = 0 \/ exists v, quic_varint_decode val (zlen val) = Some (Some (zlen val, v)).
Proof.
  unfold int_of, documented_int. destruct (quic_varint_decode val (zlen val)) as [[[used v]|]|]; [|tauto..].
  destruct (Z.eqb_spec used (zlen val)) as [->|Hne]; [split; [by right; exists v|done]|].
  split; [by left|]. intros [H|[w [= ? ?]]]; done.
Qed.

(** The limits the server writes, read back. *)
Lemma int_params_values odcid scid id n val : In (id, n) int_params -> find_tp (server_params odcid scid) id = Some val ->
  int_of val = n /\ documented_int val = n.
Proof.
  intros Hin Hf. unfold int_params in Hin. cbn [In] in Hin.
  repeat (destruct Hin as [[= <- <-]|Hin]; [vm_compute in Hf; injection Hf as <-; split; reflexivity|]). done.
Qed.

(** C30: the server's transport parameters reach the client.  What [quic_stp_build_server]
    writes for two connection IDs (at most 20 bytes each), when it fits and otherwise it
    returns 0, is searched by [quic_stp_parse] for any parameter id: exactly the parameters of
    the list are found, each with its bytes, and no other id is.  For the seven limits the
    integer reported is the limit, as parse_tp.h says.  For the two connection IDs it is the
    varint their bytes start with; parse_tp.h says 0 unless the whole value is one varint,
    which holds of the code exactly when it is one or the first varint is 0 or missing.  A client that compares the
    original_destination_connection_id it finds with the DCID it sent accepts exactly when
    they are equal, with either of the two comparisons. *)
Theorem server_params_end_to_end odcid scid sent out cap id
  (Ho8 : Forall is_u8 odcid) (Hs8 : Forall is_u8 scid) (Hd8 : Forall is_u8 sent)
  (Hol : zlen odcid <= 20) (Hsl : zlen scid <= 20) (Hdl : zlen sent <= 20)
  (Hcap : 0 <= cap <= zlen out) (Hobj : cap < max_object) :
  let l := server_params odcid scid in
  if zlen (tlvs_bytes l) <=? cap
  then exists out', quic_stp_build_server odcid (zlen odcid) scid (zlen scid) out cap = Some (Some (zlen (tlvs_bytes l)), out') /\
    match find_tp l id with
    | None => quic_stp_parse out' (zlen (tlvs_bytes l)) id = Some None
    | Some val => exists pos,
        quic_stp_parse out' (zlen (tlvs_bytes l)) id = Some (Some (int_of val, pos, zlen val)) /\
        slice out' pos (zlen val) = val /\
        (forall n, In (id, n) int_params -> int_of val = n /\ documented_int val = n) /\
        (int_of val = documented_int val <->
         int_of val = 0 \/ exists v, quic_varint_decode val (zlen val) = Some (Some (zlen val, v))) /\
        (id = QUIC_TP_ORIGINAL_DESTINATION_CONNECTION_ID ->
         quic_tparam_check_original_dcid val (zlen val) sent (zlen sent) = Some (bool_decide (sent = odcid)) /\
         quic_tpverify_odcid sent (zlen sent) val (zlen val) = Some (bool_decide (sent = odcid)))
    end
  else exists out', quic_stp_build_server odcid (zlen odcid) scid (zlen scid) out cap = Some (None, out').
Proof.
  cbv zeta. set (l := server_params odcid scid). unfold quic_stp_build_server.
  pose proof (writes_server odcid scid Hol Hsl cap out 0 ltac:(lia) ltac:(lia) Hobj) as Hw. fold l in Hw. rewrite Z.add_0_l in Hw.
  destruct (Z.leb_spec (zlen (tlvs_bytes l)) cap).
  2: { destruct Hw as (out' & off' & -> & _). by exists out'. }
  rewrite Hw. eexists. split; [reflexivity|].
  destruct (server_params_bytes_len odcid scid Hol Hsl) as [Hlen Hcount]. fold l in Hlen, Hcount.
  destruct (server_params_ok odcid scid Ho8 Hs8 Hol Hsl) as [Hok Hu8]. fold l in Hok, Hu8.
  assert (Hsp : splice out 0 (tlvs_bytes l) = [] ++ tlvs_bytes l ++ drop (length (tlvs_bytes l)) out) by reflexivity.
  pose proof (stp_parse_loop_spec id l (S (Z.to_nat (zlen (tlvs_bytes l)))) [] (drop (length (tlvs_bytes l)) out) Hok Hu8) as Hp.
  rewrite <- Hsp in Hp. cbn [app] in Hp. change (zlen (@nil Z)) with 0 in Hp. unfold quic_stp_parse.
  specialize (Hp ltac:(unfold max_object; lia) ltac:(lia)).
  destruct (find_tp l id) as [val|] eqn:Ef; [|done]. destruct Hp as (pos & H1 & _ & _ & H4). exists pos.
  split_and!; [done|done| |exact (documented_int_iff val)|].
  { intros n Hin. exact (int_params_values odcid scid id n val Hin Ef). }
  intros ->. assert (val = odcid) as -> by (unfold l, server_params in Ef; cbn in Ef; congruence).
  split.
  - unfold quic_tparam_check_original_dcid. rewrite cid_match_spec. f_equal. apply bool_decide_ext. split; by intros ->.
  - pose proof (zlen_nonneg sent). pose proof (zlen_nonneg odcid).
    destruct (cid_comparisons_agree sent (zlen sent) odcid (zlen odcid) Hd8 Ho8 ltac:(lia) ltac:(lia) ltac:(lia) ltac:(lia)) as (_ & _ & H3).
    unfold quic_tpverify_odcid. rewrite H3. unfold zlen. by rewrite !Nat2Z.id, !firstn_all.
Qed.

(** Witness of C30: a client that sent the DCID 1 2 3 4 5 6 7 8. *)
Lemma server_params_end_to_end_witness :
  exists out', quic_stp_build_server [1; 2; 3; 4; 5; 6; 7; 8] 8 [9; 9] 2 (repeat 0 64) 64 = Some (Some 52, out') /\
    exists pos, quic_stp_parse out' 52 QUIC_TP_INITIAL_MAX_DATA = Some (Some (1048576, pos, 4)).
Proof.
  pose proof (server_params_end_to_end [1; 2; 3; 4; 5; 6; 7; 8] [9; 9] [1; 2] (repeat 0 64) 64 QUIC_TP_INITIAL_MAX_DATA) as H.
  destruct H as (out' & H1 & pos & H2 & _);
    [repeat (apply List.Forall_cons; [closed_arith|]); apply List.Forall_nil..|closed_arith|closed_arith|closed_arith|closed_arith|closed_arith|].
  exists out'. split; [exact H1|]. exists pos. exact H2.
Defined.

(** The original destination connection ID 1 2 3 4 is no varint, and is reported as the
    integer 1. *)
Example cid_reported_as_integer : int_of [1; 2; 3; 4] = 1 /\ documented_int [1; 2; 3; 4] = 0.
Proof. by vm_compute. Qed.

(** * preferred_address *)

Lemma copy_loop_overflow k : forall dst doff src soff,
  0 <= doff <= zlen dst -> zlen dst < doff + Z.of_nat k -> copy_loop k dst doff src soff = None.
Proof.
  induction k as [|k IH]; intros dst doff src soff Hd Hl; cbn [copy_loop]; [lia|].
  destruct (load src soff) as [b|]; [|done]. destruct (Z.lt_ge_cases doff (zlen dst)).
  - rewrite store_ok by lia. apply IH; rewrite zlen_insert; lia.
  - unfold store. by replace ((0 <=? doff) && (doff <? zlen dst)) with false by (symmetry; apply andb_false_iff; right; apply Z.ltb_ge; lia).
Qed.

(** What [quic_take_bytes] does with an array of any size. *)
Lemma take_bytes_cases dst k v len off : 0 <= k < 2 ^ 32 -> 0 <= off <= len -> len <= zlen v -> len < max_object ->
  quic_take_bytes dst k v len off =
  if off + k <=? len
  then if k <=? zlen dst then Some (Some (splice dst 0 (slice v off k)), off + k) else None
  else Some (None, off).
Proof.
  intros Hk Hoff Hl Ho. unfold quic_take_bytes. unwrap. destruct (Z.leb_spec (off + k) len); zdecide; [|done].
  destruct (Z.leb_spec k (zlen dst)).
  - rewrite copy_loop_len by lia. by rewrite Z2Nat.id by lia.
  - by rewrite copy_loop_overflow by (pose proof (zlen_nonneg dst); lia).
Qed.

Lemma take_port_cases v len off : 0 <= off <= len -> len <= zlen v -> len < max_object ->
  exists r off', pa_take_port v len off = Some (r, off') /\
    (if off + 2 <=? len then (exists p, r = Some p /\ take_be16 v off = Some p) /\ off' = off + 2 else r = None /\ off' = off).
Proof.
  intros Hoff Hl Ho. unfold pa_take_port. unwrap. destruct (Z.leb_spec (off + 2) len); zdecide; [|by eexists _, _].
  unfold take_be16. destruct (load_is_Some v off) as [x ->]; [lia|]. destruct (load_is_Some v (off + 1)) as [y ->]; [lia|].
  eexists _, _. split; [reflexivity|]. split; [by eexists|done].
Qed.

Definition pa_sized (pa : quic_preferred_address) : Prop :=
  zlen (pa_ipv4 pa) = 4 /\ zlen (pa_ipv6 pa) = 16 /\ zlen (pa_cid pa) = 20 /\ zlen (pa_reset_token pa) = 16 /\ is_u8 (pa_cid_len pa).

Lemma take_addrs_cases pa v len : pa_sized pa -> 0 <= len <= zlen v -> len < max_object ->
  exists r off', pa_take_addrs pa v len 0 = Some (r, off') /\ 0 <= off' <= len /\
    (24 <= len -> off' = 24) /\ (len < 24 -> len - off' <= 15).
Proof.
  intros (H1 & H2 & _) Hl Ho. unfold pa_take_addrs, rd_and. rewrite take_bytes_cases by (unfold max_object in *; lia).
  rewrite H1. change (4 <=? 4) with true. cbv iota.
  set (o1 := if 0 + 4 <=? len then 0 + 4 else 0).
  assert (Ho1 : 0 <= o1 <= len /\ (4 <= len -> o1 = 4)) by (unfold o1; zcase; lia).
  replace (if 0 + 4 <=? len then Some (Some (splice (pa_ipv4 pa) 0 (slice v 0 4)), 0 + 4) else Some (None, 0))
    with (Some (if 0 + 4 <=? len then Some (splice (pa_ipv4 pa) 0 (slice v 0 4)) else None, o1)) by (unfold o1; by zcase).
  destruct (take_port_cases v len o1 ltac:(lia) ltac:(lia) Ho) as (r2 & o2 & -> & C2).
  assert (Ho2 : o1 <= o2 <= len /\ (6 <= len -> o2 = 6)).
  { destruct (Z.leb_spec (o1 + 2) len); [destruct C2 as [_ ->]|destruct C2 as [_ ->]]; lia. }
  rewrite take_bytes_cases by (unfold max_object in *; lia). rewrite H2. change (16 <=? 16) with true. cbv iota.
  set (o3 := if o2 + 16 <=? len then o2 + 16 else o2).
  assert (Ho3 : o2 <= o3 <= len /\ (22 <= len -> o3 = 22)) by (unfold o3; zcase; lia).
  replace (if o2 + 16 <=? len then Some (Some (splice (pa_ipv6 pa) 0 (slice v o2 16)), o2 + 16) else Some (None, o2))
    with (Some (if o2 + 16 <=? len then Some (splice (pa_ipv6 pa) 0 (slice v o2 16)) else None, o3)) by (unfold o3; by zcase).
  destruct (take_port_cases v len o3 ltac:(lia) ltac:(lia) Ho) as (r4 & o4 & -> & C4).
  assert (Ho4 : o3 <= o4 <= len /\ (24 <= len -> o4 = 24)).
  { destruct (Z.leb_spec (o3 + 2) len); [destruct C4 as [_ ->]|destruct C4 as [_ ->]]; lia. }
  eexists _, o4. split; [reflexivity|]. split_and!; [lia|lia|lia|].
  intros Hlt. destruct (Z.lt_ge_cases len 4); [lia|]. destruct (Z.lt_ge_cases len 6); [lia|]. destruct (Z.lt_ge_cases len 22); lia.
Qed.

(** A result that is [Some] on every branch is no fault. *)
Ltac no_fault r :=
  destruct r as [[[[? ?] ?] ?]|]; cbv beta iota;
  repeat match goal with |- context [if ?b then _ else _] => destruct b end; intros Efault; discriminate Efault.

(** The decoder of preferred_address overflows its connection ID.  The length byte is
    checked together with the copy and not before it: on arbitrary bytes, parsed into a
    structure with its 20-byte connection ID, the decoder writes out of bounds exactly when the
    25th byte of the value announces more than 20 bytes and the value has them; in every
    other case it stays inside its arrays. *)
Theorem preferred_address_overflow pa v len (Hs : pa_sized pa) (Hu : Forall is_u8 v)
  (Hl : 0 <= len <= zlen v) (Ho : len < max_object) :
  pa_parse_value pa v len = None <-> exists c, load v 24 = Some c /\ 20 < c /\ 25 + c <= len.
Proof.
  pose proof Hs as (_ & _ & H3 & H4 & H5). unfold pa_parse_value, rd_and at 1.
  destruct (take_addrs_cases pa v len Hs Hl Ho) as (r & off & -> & Hoff & H24 & Hlt).
  unfold pa_take_cid_token. rewrite take_bytes_cases by (unfold max_object in *; lia). change (zlen [pa_cid_len pa]) with 1.
  change (1 <=? 1) with true. cbv iota.
  destruct (Z.leb_spec (off + 1) len) as [Hb|Hb].
  - destruct (load_is_Some v off) as [c Hc]; [lia|]. pose proof (load_u8 _ _ _ Hu Hc) as Hc8. unfold is_u8 in Hc8.
    replace (splice [pa_cid_len pa] 0 (slice v off 1)) with [c].
    2: { rewrite slice_cons by lia. rewrite Hc. reflexivity. }
    unfold rd_and. rewrite take_bytes_cases by (unfold max_object in *; lia). rewrite H3.
    destruct (Z.leb_spec (off + 1 + c) len).
    + destruct (Z.leb_spec c 20).
      * rewrite take_bytes_cases by (unfold max_object in *; lia). rewrite H4. change (16 <=? 16) with true. cbv iota.
        split.
        -- destruct (off + 1 + c + 16 <=? len); no_fault r.
        -- intros (c' & Hc' & Hc1 & Hc2). rewrite (H24 ltac:(lia)) in Hc. rewrite Hc in Hc'. injection Hc' as <-. lia.
      * split; [intros _|done]. assert (24 <= len) by lia. rewrite (H24 ltac:(lia)) in *. exists c. split_and!; [done|lia|lia].
    + rewrite take_bytes_cases by (unfold max_object in *; lia). rewrite H4. change (16 <=? 16) with true. cbv iota.
      split.
      * destruct (off + 1 + 16 <=? len); no_fault r.
      * intros (c' & Hc' & Hc1 & Hc2). rewrite (H24 ltac:(lia)) in *. rewrite Hc in Hc'. injection Hc' as <-. lia.
  - assert (off = len) as -> by lia. unfold is_u8 in H5. unfold rd_and.
    rewrite take_bytes_cases by (unfold max_object in *; lia). rewrite H3.
    split; [|intros (c & _ & Hc1 & Hc2); rewrite (H24 ltac:(lia)) in *; lia].
    destruct (Z.leb_spec (len + pa_cid_len pa) len).
    + ztrue (pa_cid_len pa <=? 20). rewrite take_bytes_cases by (unfold max_object in *; lia). rewrite H4. change (16 <=? 16) with true. cbv iota.
      destruct (_ <=? len); no_fault r.
    + rewrite take_bytes_cases by (unfold max_object in *; lia). rewrite H4. change (16 <=? 16) with true. cbv iota.
      destruct (_ <=? len); no_fault r.
Qed.

(** Witness: a length byte of 40. *)
Definition pa_blank : quic_preferred_address := mk_pa (repeat 0 4) 0 (repeat 0 16) 0 0 (repeat 0 20) (repeat 0 16).

Lemma preferred_address_overflow_witness :
  pa_parse_value pa_blank (repeat 1 24 ++ [40] ++ repeat 2 56) 81 = None.
Proof.
  apply (proj2 (preferred_address_overflow pa_blank (repeat 1 24 ++ [40] ++ repeat 2 56) 81
    ltac:(repeat split; closed_arith) ltac:(cbn; repeat (apply List.Forall_cons; [closed_arith|]); apply List.Forall_nil)
    ltac:(closed_arith) ltac:(closed_arith))).
  exists 40. repeat split; closed_arith.
Defined.
