(* ===== verification/QpackInt.v ===== *)
(** QPACK prefixed integers and the codecs built from them alone.

    [app/qpack/qpack/integer.c] (RFC 7541 section 5.1), the indexed field line of
    [fieldline.c], the section prefix of [prefix.c] and the encoder and decoder
    stream instructions of [instruction.c].  Decoders take a pointer and the
    number of readable bytes, so a call on [buf + off, n - off] is modelled on the
    tail of the buffer; [Some None] stands for a return of 0 and [None] for an
    access outside the buffer. *)
From S2P Require Import Prelude.
From S2P Require Import Buffers.

(** * Decoders of a whole buffer *)

Definition dec (A : Type) : Type := list Z -> Z -> option (option (A * Z)).

(** [Decodes d bs a]: [d] reads [a] from [bs] whatever follows, reports that it
    consumed exactly [bs], and returns 0 on every input that stops inside them.
    [SafeDec d Q]: on arbitrary bytes [d] stays inside the readable bytes,
    consumes at least one of them when it succeeds, and its results satisfy [Q]. *)
Class Decodes {A} (d : dec A) (bs : list Z) (a : A) : Prop := decodes_spec :
  forall post n, 0 <= n <= zlen (bs ++ post) -> n < max_object ->
  d (bs ++ post) n = Some (if zlen bs <=? n then Some (a, zlen bs) else None).

Class SafeDec {A} (d : dec A) (Q : A -> Prop) : Prop := safedec_spec :
  forall buf n, Forall is_u8 buf -> 0 <= n <= zlen buf -> n < max_object ->
  exists r, d buf n = Some r /\ forall a used, r = Some (a, used) -> Q a /\ 0 < used <= n.

(** [off = d(buf, n); w = off ? e(buf + off, n - off) : 0; return join(off, w)]. *)
Definition dec_join {A B} (d : dec A) (e : A -> dec B) : dec B := fun buf n =>
  match d buf n with
  | None => None
  | Some None => Some None
  | Some (Some (a, off)) =>
      match e a (drop (Z.to_nat off) buf) (n -w off) with
      | None => None
      | Some None => Some None
      | Some (Some (b, w)) => Some (Some (b, off +w w))
      end
  end.

(** [off = enc(buf, cap); if (off == 0) return 0; if (!p(buf, cap, &off)) return
    0; return off]. *)
Definition enc_then (enc : list Z -> Z -> option (Z * list Z)) (p : wr) (buf : list Z) (cap : Z)
  : option (Z * list Z) :=
  match enc buf cap with
  | None => None
  | Some (off, buf') =>
      if off =? 0 then Some (0, buf')
      else match p cap (buf', off) with
           | None => None
           | Some (false, (buf'', _)) => Some (0, buf'')
           | Some (true, (buf'', off')) => Some (off', buf'')
           end
  end.

(** * integer.c *)

Definition prefix_max (prefix_bits : Z) : Z := (1 <<w prefix_bits) -w 1.

Definition more_groups (v : Z) : bool := 0x80 <=? v.

(** The loop body overwrites [ok]; a [put_byte] that fails leaves the cursor, so
    the ones after it fail too.  Ten groups hold any [u64]. *)
Fixpoint put_groups_loop (fuel : nat) (v : Z) (ok : bool) : wr := fun cap st =>
  if more_groups v
  then match fuel with
       | O => None
       | S f =>
           match put_byte (Z.lor (u8 (Z.land v 0x7f)) 0x80) cap st with
           | None => None
           | Some (ok', st') => put_groups_loop f (Z.shiftr v 7) ok' cap st'
           end
       end
  else match put_byte (u8 v) cap st with
       | None => None
       | Some (r, st') => Some (r && ok, st')
       end.

Definition put_groups (v : Z) : wr := put_groups_loop 10 v true.

Definition prefix_byte (value pmax : Z) : Z := if value <? pmax then u8 value else u8 pmax.

Definition encode_body (value pmax : Z) : wr :=
  if value <? pmax then wr_ok else put_groups (value -w pmax).

Definition quic_qpack_int_encode (prefix_bits prefix_value value : Z) : list Z -> Z -> option (Z * list Z) :=
  let pmax := prefix_max prefix_bits in
  encode_to (put_byte (Z.lor prefix_value (prefix_byte value pmax)) ;;; encode_body value pmax).

Definition take_group (value m : Z) : rd (Z * bool) := fun buf n off =>
  if (n <=? off) || (56 <? m) then Some (None, off)
  else match load buf off with
       | None => None
       | Some b => Some (Some (value +w (Z.land b 0x7f <<w m), negb (Z.land b 0x80 =? 0)), off +w 1)
       end.

(** [m] grows by 7 from 0 and a group at [m > 56] is refused, so the tenth
    iteration is the last. *)
Fixpoint take_groups_loop (fuel : nat) (value m : Z) : rd Z :=
  match fuel with
  | O => fun _ _ _ => None
  | S f => r <- take_group value m ;;
           if snd r then take_groups_loop f (fst r) (m +w 7) else rd_ret (fst r)
  end.

Definition take_groups (value : Z) : rd Z := take_groups_loop 10 value 0.

Definition decode_body (value pmax : Z) : rd Z :=
  if value <? pmax then rd_ret value else take_groups value.

Definition quic_qpack_int_decode (prefix_bits : Z) : dec Z := fun buf n =>
  let pmax := prefix_max prefix_bits in
  if n =? 0 then Some None
  else match load buf 0 with
       | None => None
       | Some b0 => decode_from 1 (decode_body (Z.land b0 pmax) pmax) buf n
       end.

(** * fieldline.c *)

Definition QPACK_INDEXED : Z := 0x80.
Definition QPACK_STATIC : Z := 0x40.

Definition indexed_prefix (is_static : bool) : Z :=
  Z.lor QPACK_INDEXED (if is_static then QPACK_STATIC else 0).

Definition quic_qpack_indexed_encode (index : Z) (is_static : bool) : list Z -> Z -> option (Z * list Z) :=
  quic_qpack_int_encode 6 (indexed_prefix is_static) index.

(** A predicate on the first byte, behind [n != 0]. *)
Definition first_byte (test : Z -> bool) (buf : list Z) (n : Z) : option (option Z) :=
  if n =? 0 then Some None
  else match load buf 0 with
       | None => None
       | Some b0 => Some (if test b0 then Some b0 else None)
       end.

Definition is_indexed (b0 : Z) : bool := negb (Z.land b0 QPACK_INDEXED =? 0).

Definition flag (b mask : Z) : bool := negb (Z.land b mask =? 0).

(** Read the first byte, then decode from the same position. *)
Definition dec_first {A} (test : Z -> bool) (d : Z -> dec A) : dec A := fun buf n =>
  match first_byte test buf n with
  | None => None
  | Some None => Some None
  | Some (Some b0) => d b0 buf n
  end.

Definition dec_map {A B} (f : A -> B) (d : dec A) : dec B := fun buf n =>
  match d buf n with
  | None => None
  | Some None => Some None
  | Some (Some (a, used)) => Some (Some (f a, used))
  end.

Definition quic_qpack_indexed_decode : dec (Z * bool) :=
  dec_first is_indexed (fun b0 =>
    dec_map (fun index => (index, flag b0 QPACK_STATIC)) (quic_qpack_int_decode 6)).

(** * prefix.c *)

Definition PREFIX_SIGN_BIT : Z := 0x80.

Record quic_qpack_prefix := Qpre { required_insert_count : Z; sign : bool; delta_base : Z }.

Definition sign_prefix (sign : bool) : Z := if sign then PREFIX_SIGN_BIT else 0.

Definition quic_qpack_prefix_encode (p : quic_qpack_prefix) : list Z -> Z -> option (Z * list Z) :=
  enc_then (quic_qpack_int_encode 8 0 (required_insert_count p))
    (emit_at (quic_qpack_int_encode 7 (sign_prefix (sign p)) (delta_base p))).

(** The sign is read from [buf[off]] before the second integer checks that a
    byte is there. *)
Definition quic_qpack_prefix_decode : dec quic_qpack_prefix :=
  dec_join (quic_qpack_int_decode 8) (fun ric tail n' =>
    match load tail 0 with
    | None => None
    | Some b => dec_map (Qpre ric (flag b PREFIX_SIGN_BIT)) (quic_qpack_int_decode 7) tail n'
    end).

(** * instruction.c *)

Record instr_spec := Ispec { pattern : Z; mask : Z; prefix_bits : Z }.

Inductive quic_qpack_enc_kind :=
  QUIC_QPACK_ENC_SET_CAPACITY | QUIC_QPACK_ENC_INSERT_NAME_REF
| QUIC_QPACK_ENC_INSERT_LITERAL | QUIC_QPACK_ENC_DUPLICATE.

Inductive quic_qpack_dec_kind :=
  QUIC_QPACK_DEC_SECTION_ACK | QUIC_QPACK_DEC_STREAM_CANCEL | QUIC_QPACK_DEC_INSERT_COUNT.

Definition enc_specs : list instr_spec :=
  [Ispec 0x20 0xe0 5; Ispec 0x80 0x80 6; Ispec 0x40 0xc0 5; Ispec 0x00 0xe0 5].

Definition dec_specs : list instr_spec :=
  [Ispec 0x80 0x80 7; Ispec 0x40 0xc0 6; Ispec 0x00 0xc0 6].

(** The values of the two enums. *)
Definition enc_ord (k : quic_qpack_enc_kind) : nat :=
  match k with
  | QUIC_QPACK_ENC_SET_CAPACITY => 0
  | QUIC_QPACK_ENC_INSERT_NAME_REF => 1
  | QUIC_QPACK_ENC_INSERT_LITERAL => 2
  | QUIC_QPACK_ENC_DUPLICATE => 3
  end.
Definition enc_cast (i : nat) : quic_qpack_enc_kind :=
  nth i [QUIC_QPACK_ENC_SET_CAPACITY; QUIC_QPACK_ENC_INSERT_NAME_REF;
         QUIC_QPACK_ENC_INSERT_LITERAL] QUIC_QPACK_ENC_DUPLICATE.
Definition dec_ord (k : quic_qpack_dec_kind) : nat :=
  match k with
  | QUIC_QPACK_DEC_SECTION_ACK => 0
  | QUIC_QPACK_DEC_STREAM_CANCEL => 1
  | QUIC_QPACK_DEC_INSERT_COUNT => 2
  end.
Definition dec_cast (i : nat) : quic_qpack_dec_kind :=
  nth i [QUIC_QPACK_DEC_SECTION_ACK; QUIC_QPACK_DEC_STREAM_CANCEL] QUIC_QPACK_DEC_INSERT_COUNT.

Definition instr_encode (s : instr_spec) (value : Z) : list Z -> Z -> option (Z * list Z) :=
  quic_qpack_int_encode (prefix_bits s) (pattern s) value.

Definition spec_matches (s : instr_spec) (b : Z) : bool := Z.land b (mask s) =? pattern s.

(** [while (i < count && !spec_matches(&specs[i], b)) i++], over the specs not
    yet tested. *)
Fixpoint spec_classify (specs : list instr_spec) (b : Z) (i : nat) : nat :=
  match specs with
  | [] => i
  | s :: specs' => if spec_matches s b then i else spec_classify specs' b (S i)
  end.

Definition instr_decode (specs : list instr_spec) : dec (nat * Z) :=
  dec_first (fun _ => true) (fun b0 buf n =>
    let kind := spec_classify specs b0 0 in
    match nth_error specs kind with
    | None => Some None
    | Some s => dec_map (pair kind) (quic_qpack_int_decode (prefix_bits s)) buf n
    end).

Definition quic_qpack_enc_instr_encode (kind : quic_qpack_enc_kind) (value : Z)
  : list Z -> Z -> option (Z * list Z) :=
  instr_encode (nth (enc_ord kind) enc_specs (Ispec 0 0 0)) value.
Definition quic_qpack_enc_instr_decode : dec (quic_qpack_enc_kind * Z) :=
  dec_map (fun kv => (enc_cast (fst kv), snd kv)) (instr_decode enc_specs).
Definition quic_qpack_dec_instr_encode (kind : quic_qpack_dec_kind) (value : Z)
  : list Z -> Z -> option (Z * list Z) :=
  instr_encode (nth (dec_ord kind) dec_specs (Ispec 0 0 0)) value.
Definition quic_qpack_dec_instr_decode : dec (quic_qpack_dec_kind * Z) :=
  dec_map (fun kv => (dec_cast (fst kv), snd kv)) (instr_decode dec_specs).

(** * The wire image of a prefixed integer *)

Fixpoint group_bytes (fuel : nat) (v : Z) : list Z :=
  match fuel with
  | O => []
  | S f => if v <? 128 then [v] else (v mod 128 + 128) :: group_bytes f (v / 128)
  end.

Definition pmax_of (bits : Z) : Z := 2 ^ bits - 1.

Definition int_bytes (bits prefix_value v : Z) : list Z :=
  if v <? pmax_of bits then [Z.lor prefix_value v]
  else Z.lor prefix_value (pmax_of bits) :: group_bytes 11 (v - pmax_of bits).

(** ** Composition of encoders and decoders *)

Lemma encodes_then enc p b1 b2 :
  Encodes enc b1 -> 0 < zlen b1 -> Writes p b2 -> Encodes (enc_then enc p) (b1 ++ b2).
Proof.
  intros He Hb Hp buf cap Hc Ho. unfold enc_then. rewrite zlen_app.
  pose proof (zlen_nonneg b2). specialize (He buf cap Hc Ho).
  destruct (Z.leb_spec (zlen b1) cap) as [H1|H1].
  - rewrite He. zdecide. specialize (Hp cap (splice buf 0 b1) (zlen b1) ltac:(lia)).
    rewrite zlen_splice in Hp by lia. specialize (Hp ltac:(lia) Ho).
    destruct (Z.leb_spec (zlen b1 + zlen b2) cap).
    + rewrite Hp. f_equal. f_equal. rewrite <- (Z.add_0_l (zlen b1)) at 1. apply splice_splice; lia.
    + destruct Hp as (buf' & off' & -> & Hl & _ & Hd). exists buf'. split_and!; [done|done|].
      rewrite Hd. apply drop_splice; lia.
  - zdecide. destruct He as (buf' & -> & Hl & Hd). simpl. by exists buf'.
Qed.

Lemma decodes_join {A B} (d : dec A) (e : A -> dec B) b1 b2 a b :
  Decodes d b1 a -> Decodes (e a) b2 b -> Decodes (dec_join d e) (b1 ++ b2) b.
Proof.
  intros Hd He post n Hn Ho. unfold dec_join. rewrite <- app_assoc in *.
  pose proof (zlen_nonneg b1); pose proof (zlen_nonneg b2).
  rewrite (Hd (b2 ++ post) n Hn Ho), zlen_app. destruct (Z.leb_spec (zlen b1) n); zdecide; [|done].
  unfold zlen at 1. rewrite Nat2Z.id, drop_app_length. unwrap. rewrite zlen_app in Hn.
  rewrite (He post (n - zlen b1) ltac:(lia) ltac:(lia)).
  destruct (Z.leb_spec (zlen b2) (n - zlen b1)); zdecide; [|done]. by unwrap.
Qed.

Lemma safedec_join {A B} (d : dec A) (e : A -> dec B) (Q : A -> Prop) (R : B -> Prop) :
  SafeDec d Q -> (forall a, Q a -> SafeDec (e a) R) -> SafeDec (dec_join d e) R.
Proof.
  intros Hd He buf n Hb Hn Ho. unfold dec_join.
  destruct (Hd buf n Hb Hn Ho) as ([[a off]|] & -> & HQ); [|by exists None].
  destruct (HQ a off eq_refl) as [Ha Hoff].
  destruct (He a Ha (drop (Z.to_nat off) buf) (n -w off)) as ([[b w]|] & -> & HR).
  - by apply Forall_drop.
  - unwrap. unfold zlen in *. rewrite length_drop. lia.
  - unwrap. lia.
  - destruct (HR b w eq_refl) as [HRb Hw]. unwrap in Hw. unwrap. eexists. split; [done|].
    intros ? ? [= <- <-]. split; [done|lia].
  - by exists None.
Qed.

Lemma decodes_map {A B} (f : A -> B) (d : dec A) bs a : Decodes d bs a -> Decodes (dec_map f d) bs (f a).
Proof.
  intros Hd post n Hn Ho. unfold dec_map. rewrite (Hd post n Hn Ho). by destruct (_ <=? n).
Qed.

Lemma safedec_map {A B} (f : A -> B) (d : dec A) (Q : A -> Prop) (R : B -> Prop) :
  SafeDec d Q -> (forall a, Q a -> R (f a)) -> SafeDec (dec_map f d) R.
Proof.
  intros Hd HR buf n Hb Hn Ho. unfold dec_map.
  destruct (Hd buf n Hb Hn Ho) as ([[a off]|] & -> & HQ); eexists; (split; [done|]); [|done].
  intros ? ? [= <- <-]. destruct (HQ a off eq_refl). auto.
Qed.

Lemma decodes_first {A} test (d : Z -> dec A) b0 bs a :
  test b0 = true -> Decodes (d b0) (b0 :: bs) a -> Decodes (dec_first test d) (b0 :: bs) a.
Proof.
  intros Ht Hd post n Hn Ho. unfold dec_first, first_byte. pose proof (zlen_nonneg bs).
  destruct (Z.eqb_spec n 0) as [->|Hz].
  - rewrite zlen_cons. zdecide. done.
  - change (load ((b0 :: bs) ++ post) 0) with (Some b0). cbv beta iota. rewrite Ht. by apply Hd.
Qed.

Lemma safedec_first {A} test (d : Z -> dec A) (Q : A -> Prop) :
  (forall b0, is_u8 b0 -> test b0 = true -> SafeDec (d b0) Q) -> SafeDec (dec_first test d) Q.
Proof.
  intros Hd buf n Hb Hn Ho. unfold dec_first, first_byte.
  destruct (Z.eqb_spec n 0) as [->|Hz]; [by exists None|].
  destruct (load_is_Some buf 0) as [b0 Hb0]; [lia|]. rewrite Hb0.
  destruct (test b0) eqn:Ht; [|by exists None].
  apply Hd; try done. by eapply load_u8.
Qed.

(** What an encoder writes its decoder reads back. *)
Lemma dec_roundtrip {A} enc (d : dec A) bs a buf cap n :
  Encodes enc bs -> Decodes d bs a -> zlen bs <= cap -> cap <= zlen buf -> zlen buf < max_object ->
  0 <= n <= zlen buf ->
  exists buf', enc buf cap = Some (zlen bs, buf') /\
    d buf' n = Some (if zlen bs <=? n then Some (a, zlen bs) else None).
Proof.
  intros He Hd Hfit Hcap Ho Hn. pose proof (zlen_nonneg bs).
  specialize (He buf cap ltac:(lia) ltac:(lia)). revert He. zdecide. intros He.
  exists (splice buf 0 bs). split; [done|].
  destruct (splice_at buf bs 0) as (pre & old & post & Hb & Hp & Hold & ->); [lia|lia|].
  destruct pre as [|? ?]; [|unfold zlen in Hp; simpl in Hp; lia]. simpl app in *.
  apply Hd; [|lia]. subst buf. rewrite !zlen_app in *. lia.
Qed.

(** ** Prefixed integers *)

Lemma prefix_max_of bits : 1 <= bits <= 8 -> prefix_max bits = pmax_of bits.
Proof.
  intros Hb. unfold prefix_max, pmax_of. rewrite Z.shiftl_1_l.
  assert (2 ^ 1 <= 2 ^ bits <= 2 ^ 8) by (split; apply Z.pow_le_mono_r; lia).
  change (2 ^ 1) with 2 in *. change (2 ^ 8) with 256 in *. by unwrap.
Qed.

Lemma pmax_bounds bits : 1 <= bits <= 8 -> 1 <= pmax_of bits <= 255.
Proof.
  intros Hb. unfold pmax_of.
  assert (2 ^ 1 <= 2 ^ bits <= 2 ^ 8) by (split; apply Z.pow_le_mono_r; lia).
  change (2 ^ 1) with 2 in *. change (2 ^ 8) with 256 in *. lia.
Qed.

Lemma land_pmax bits x : 1 <= bits <= 8 -> Z.land x (pmax_of bits) = x mod 2 ^ bits.
Proof. intros Hb. unfold pmax_of. rewrite <- Z.land_ones by lia. by rewrite Z.ones_equiv. Qed.

Lemma land_prefix bits pv x : 1 <= bits <= 8 -> Z.land pv (pmax_of bits) = 0 -> 0 <= x <= pmax_of bits ->
  Z.land (Z.lor pv x) (pmax_of bits) = x.
Proof.
  intros Hb Hpv Hx. rewrite Z.land_lor_distr_l, Hpv, Z.lor_0_l, land_pmax by lia.
  apply Z.mod_small. unfold pmax_of in Hx. lia.
Qed.

Lemma group_low v : 0 <= v -> Z.lor (u8 (Z.land v 0x7f)) 0x80 = v mod 128 + 128.
Proof.
  intros Hv. change 0x7f with (Z.ones 7). rewrite Z.land_ones by lia. change (2 ^ 7) with 128.
  pose proof (Z.mod_pos_bound v 128 ltac:(lia)). rewrite u8_id by (unfold is_u8; lia).
  rewrite Z.lor_comm. pose proof (lor_low 1 (v mod 128) 7 ltac:(lia) ltac:(lia)) as Hl.
  change (1 * 2 ^ 7) with 128 in Hl. rewrite Hl. lia.
Qed.

Lemma shiftr_7 v : Z.shiftr v 7 = v / 128.
Proof. by rewrite Z.shiftr_div_pow2 by lia. Qed.

Lemma land_0x7f b : Z.land b 0x7f = b mod 128.
Proof. change 0x7f with (Z.ones 7). by rewrite Z.land_ones by lia. Qed.

Lemma land_0x80 b : is_u8 b -> negb (Z.land b 0x80 =? 0) = (128 <=? b).
Proof.
  intros Hb. assert (H : forall x, is_u8 x -> Z.land x 0x80 = if 128 <=? x then 128 else 0).
  { intros x Hx. unfold is_u8 in Hx.
    assert (Hall : forallb (fun k => Z.land (Z.of_nat k) 0x80 =? (if 128 <=? Z.of_nat k then 128 else 0)) (seq 0 256) = true) by by vm_compute.
    rewrite forallb_forall in Hall. specialize (Hall (Z.to_nat x)). rewrite Z2Nat.id in Hall by lia.
    apply Z.eqb_eq, Hall, in_seq. lia. }
  rewrite H by done. by destruct (128 <=? b).
Qed.

Lemma group_bytes_S f v :
  group_bytes (S f) v = if v <? 128 then [v] else (v mod 128 + 128) :: group_bytes f (v / 128).
Proof. done. Qed.

Lemma zlen_group_bytes f v : 0 < zlen (group_bytes (S f) v).
Proof.
  rewrite group_bytes_S. destruct (v <? 128); rewrite zlen_cons; [done|]. pose proof (zlen_nonneg (group_bytes f (v / 128))). lia.
Qed.

Lemma put_groups_full f v cap buf off : 0 <= v < 128 ^ (Z.of_nat f + 1) -> cap <= off ->
  put_groups_loop f v false cap (buf, off) = Some (false, (buf, off)).
Proof.
  revert v. induction f as [|f IH]; intros v Hv Ho; cbn [put_groups_loop]; unfold more_groups, put_byte.
  - zdecide. done.
  - destruct (Z.leb_spec 128 v); zdecide; [|done]. rewrite shiftr_7. apply IH; [|done].
    rewrite Nat2Z.inj_succ in Hv. split; [apply Z.div_pos; lia|].
    apply Z.div_lt_upper_bound; [lia|]. rewrite <- Z.pow_succ_r by lia.
    replace (Z.succ (Z.of_nat f + 1)) with (Z.succ (Z.of_nat f) + 1) by lia. lia.
Qed.

Lemma put_groups_writes f v : 0 <= v < 128 ^ (Z.of_nat f + 1) ->
  Writes (put_groups_loop f v true) (group_bytes (S f) v).
Proof.
  revert v. induction f as [|f IH]; intros v Hv cap buf off Hoff Hcap Hobj;
    cbn [put_groups_loop]; unfold more_groups.
  - change (128 ^ (Z.of_nat 0 + 1)) with 128 in Hv. zdecide. cbn [group_bytes]. zdecide.
    pose proof (writes_put_byte v cap buf off Hoff Hcap Hobj) as Hp. rewrite u8_id by (unfold is_u8; lia).
    destruct (_ <=? cap); [by rewrite Hp|]. destruct Hp as (b' & o' & -> & ?). by exists b', o'.
  - rewrite (group_bytes_S (S f)). destruct (Z.leb_spec 128 v); zdecide.
    + rewrite group_low, shiftr_7 by lia. set (b := v mod 128 + 128).
      assert (Hd : 0 <= v / 128 < 128 ^ (Z.of_nat f + 1)).
      { split; [apply Z.div_pos; lia|]. apply Z.div_lt_upper_bound; [lia|].
        rewrite <- Z.pow_succ_r by lia. rewrite Nat2Z.inj_succ in Hv.
        replace (Z.succ (Z.of_nat f + 1)) with (Z.succ (Z.of_nat f) + 1) by lia. lia. }
      change (b :: group_bytes (S f) (v / 128)) with ([b] ++ group_bytes (S f) (v / 128)).
      destruct (Z.ltb_spec off cap) as [Hlt|Hge].
      * pose proof (writes_seq _ _ _ _ (writes_put_byte b) (IH _ Hd) cap buf off Hoff Hcap Hobj) as Hs.
        unfold wr_seq in Hs. unfold put_byte in *. revert Hs. zdecide. by rewrite store_ok by lia.
      * pose proof (zlen_nonneg (group_bytes (S f) (v / 128))). rewrite zlen_app.
        change (zlen [b]) with 1. unfold put_byte. zdecide.
        rewrite put_groups_full by done. exists buf, off. split_and!; done || lia.
    + pose proof (writes_put_byte v cap buf off Hoff Hcap Hobj) as Hp. rewrite u8_id by (unfold is_u8; lia).
      destruct (_ <=? cap); [by rewrite Hp|]. destruct Hp as (b' & o' & -> & ?). by exists b', o'.
Qed.

Lemma int_encodes bits pv v : 1 <= bits <= 8 -> is_u64 v ->
  Encodes (quic_qpack_int_encode bits pv v) (int_bytes bits pv v).
Proof.
  intros Hb Hv. unfold quic_qpack_int_encode, int_bytes. rewrite prefix_max_of by done.
  pose proof (pmax_bounds bits Hb). apply encodes_to. unfold prefix_byte, encode_body.
  destruct (Z.ltb_spec v (pmax_of bits)).
  - rewrite u8_id by (unfold is_u8, is_u64 in *; lia).
    rewrite <- (app_nil_r [_]). apply writes_seq; [apply writes_put_byte|apply writes_ok_nil].
  - rewrite u8_id by (unfold is_u8; lia). unwrap.
    change (?x :: ?l) with ([x] ++ l). apply writes_seq; [apply writes_put_byte|].
    apply put_groups_writes. unfold is_u64 in Hv. change (128 ^ (Z.of_nat 10 + 1)) with 151115727451828646838272. lia.
Qed.

Lemma zlen_int_bytes bits pv v : 0 < zlen (int_bytes bits pv v).
Proof.
  unfold int_bytes. destruct (v <? _); rewrite zlen_cons; [done|].
  pose proof (zlen_group_bytes 10 (v - pmax_of bits)). lia.
Qed.

(** Shifting a 7-bit group into place. *)
Lemma group_shift g m : 0 <= g < 128 -> 0 <= m <= 56 -> (g <<w m) = g * 2 ^ m.
Proof.
  intros Hg Hm. rewrite Z.shiftl_mul_pow2 by lia.
  assert (2 ^ m <= 2 ^ 56) by (apply Z.pow_le_mono_r; lia).
  change (2 ^ 56) with 72057594037927936 in *. pose proof (Z.pow_pos_nonneg 2 m ltac:(lia) ltac:(lia)).
  apply u64_id. unfold is_u64. nia.
Qed.

Lemma pow_m7 m : 0 <= m -> 2 ^ (m + 7) = 128 * 2 ^ m.
Proof. intros. rewrite Z.pow_add_r by lia. change (2 ^ 7) with 128. lia. Qed.

(** One group of the encoding, read at shift [m]. *)
Lemma reads_take_group value m b :
  is_u8 b -> 0 <= m <= 56 -> is_u64 (value + (b mod 128) * 2 ^ m) ->
  Reads (take_group value m) [b] (value + (b mod 128) * 2 ^ m, 128 <=? b).
Proof.
  intros Hb Hm Hv pre post n H1 H2 H3. unfold take_group. change (zlen [b]) with 1.
  pose proof (zlen_nonneg pre). pose proof (Z.mod_pos_bound b 128 ltac:(lia)).
  destruct (Z.leb_spec (zlen pre + 1) n); zdecide; simpl orb; [|by exists (zlen pre)].
  change ([b] ++ post) with (b :: post). rewrite load_head by done. rewrite land_0x7f, land_0x80, group_shift by (done || lia).
  rewrite (u64_id (value + _)) by done. by unwrap.
Qed.

Lemma reads_groups f : forall value m v,
  m = 70 - 7 * Z.of_nat f -> (2 <= f <= 10)%nat -> 0 <= v < 2 ^ (63 - m) -> 0 <= value ->
  is_u64 (value + v * 2 ^ m) ->
  Reads (take_groups_loop f value m) (group_bytes 11 v) (value + v * 2 ^ m).
Proof.
  assert (Hg : forall g value m v, m = 70 - 7 * Z.of_nat f -> (2 <= f <= 10)%nat ->
    (f <= g)%nat -> 0 <= v < 2 ^ (63 - m) -> 0 <= value -> is_u64 (value + v * 2 ^ m) ->
    Reads (take_groups_loop f value m) (group_bytes g v) (value + v * 2 ^ m)).
  2: { intros value m v Hm Hf Hv Hval Hu. apply Hg; try done. lia. }
  induction f as [|f IH]; intros g value m v Hm Hf Hg Hv Hval Hu; [lia|].
  destruct g as [|g]; [lia|]. rewrite group_bytes_S. cbn [take_groups_loop].
  assert (Hmr : 0 <= m <= 56) by lia. pose proof (Z.pow_pos_nonneg 2 m ltac:(lia) ltac:(lia)).
  destruct (Z.ltb_spec v 128) as [Hs|Hb].
  - eapply reads_bind_last.
    + pose proof (reads_take_group value m v ltac:(unfold is_u8; lia) Hmr) as Hr.
      rewrite Z.mod_small in Hr by lia. apply Hr. done.
    + cbn [fst snd]. zdecide. apply reads_ret.
  - pose proof (Z.mod_pos_bound v 128 ltac:(lia)) as Hr.
    pose proof (Z.div_mod v 128 ltac:(lia)) as Hdm.
    assert (Hdiv : 0 <= v / 128) by (apply Z.div_pos; lia).
    assert (Hmod : (v mod 128 + 128) mod 128 = v mod 128).
    { rewrite <- (Z.mul_1_l 128) at 2. rewrite Z.mod_add by lia. by rewrite Z.mod_mod by lia. }
    assert (Hf2 : (2 <= f)%nat).
    { destruct (Nat.le_gt_cases 2 f); [done|]. exfalso. assert (f = 1%nat) by lia. subst f.
      change (2 ^ (63 - m)) with (2 ^ (63 - m)) in Hv. replace (63 - m) with 7 in Hv by lia.
      change (2 ^ 7) with 128 in Hv. lia. }
    change (?x :: ?l) with ([x] ++ l). eapply reads_bind.
    + apply reads_take_group; [unfold is_u8; lia|done|]. rewrite Hmod. unfold is_u64 in *. nia.
    + cbn [fst snd]. rewrite Hmod. zdecide. rewrite (u64_id (m + 7)) by (unfold is_u64; lia).
      replace (value + v * 2 ^ m) with (value + v mod 128 * 2 ^ m + (v / 128) * 2 ^ (m + 7))
        by (rewrite pow_m7 by lia; nia).
      apply IH; [lia|lia|lia| |nia|].
      * split; [done|]. apply Z.div_lt_upper_bound; [lia|].
        replace (63 - m) with (63 - (m + 7) + 7) in Hv by lia. rewrite pow_m7 in Hv by lia. lia.
      * rewrite pow_m7 by lia. unfold is_u64 in *. nia.
Qed.

Lemma int_decodes bits pv v : 1 <= bits <= 8 -> Z.land pv (pmax_of bits) = 0 ->
  0 <= v < pmax_of bits + 2 ^ 63 ->
  Decodes (quic_qpack_int_decode bits) (int_bytes bits pv v) v.
Proof.
  intros Hb Hpv Hv post n Hn Ho. unfold quic_qpack_int_decode. rewrite prefix_max_of by done.
  pose proof (pmax_bounds bits Hb). change (2 ^ 63) with 9223372036854775808 in Hv.
  pose proof (zlen_int_bytes bits pv v). destruct (Z.eqb_spec n 0) as [->|Hn0]; [by zdecide|].
  unfold int_bytes in *. destruct (Z.ltb_spec v (pmax_of bits)).
  - change (load ([?b] ++ ?p) 0) with (Some b). cbv beta iota.
    rewrite land_prefix by (done || lia). unfold decode_body. zdecide.
    apply (decode_from_reads (rd_ret v) [Z.lor pv v] [] post v n); [apply reads_ret| |apply Hn|done].
    change (zlen [_]) with 1. lia.
  - change (load ((?b :: ?l) ++ ?p) 0) with (Some b). cbv beta iota.
    rewrite land_prefix by (done || lia). unfold decode_body. zdecide.
    rewrite !zlen_cons in *. change (?x :: ?l) with ([x] ++ l). rewrite <- app_assoc in *.
    pose proof (decode_from_reads (take_groups (pmax_of bits)) [Z.lor pv (pmax_of bits)]
      (group_bytes 11 (v - pmax_of bits)) post v n) as Hd.
    change (zlen [_]) with 1 in Hd. apply Hd; [|lia|apply Hn|done].
    pose proof (reads_groups 10 (pmax_of bits) 0 (v - pmax_of bits)) as Hr.
    rewrite Z.pow_0_r, Z.mul_1_r, Z.add_comm, Z.sub_add in Hr. apply Hr; try done; try lia.
    unfold is_u64. lia.
Qed.

(** ** Arbitrary input *)

Lemma saferd_groups f : forall value m,
  m = 70 - 7 * Z.of_nat f -> (1 <= f <= 10)%nat -> 0 <= value < 255 + 2 ^ m ->
  SafeRd (take_groups_loop f value m) (fun v => 0 <= v < 255 + 2 ^ 63).
Proof.
  induction f as [|f IH]; intros value m Hm Hf Hv; [lia|]. cbn [take_groups_loop].
  apply saferd_bind with (Q := fun r => m <= 56 /\ 0 <= fst r < 255 + 2 ^ (m + 7)).
  - intros buf n off Hb Hoff Hn Ho. unfold take_group.
    destruct (Z.leb_spec n off); simpl orb; [exists None, off; split_and!; done || lia|].
    destruct (Z.ltb_spec 56 m); [exists None, off; split_and!; done || lia|].
    destruct (load_is_Some buf off) as [b Hl]; [lia|]. rewrite Hl.
    pose proof (Z.mod_pos_bound b 128 ltac:(lia)). rewrite land_0x7f, group_shift by lia.
    assert (Hp : 2 ^ (m + 7) <= 2 ^ 63) by (apply Z.pow_le_mono_r; lia).
    change (2 ^ 63) with 9223372036854775808 in Hp. rewrite pow_m7 in * by lia.
    pose proof (Z.pow_pos_nonneg 2 m ltac:(lia) ltac:(lia)).
    rewrite (u64_id (value + _)) by (unfold is_u64; nia). unwrap.
    eexists _, _. split_and!; [done|lia..|]. intros ? [= <-]. cbn [fst]. split; [lia|nia].
  - intros [v go] [Hm56 Hvv]. cbn [fst snd] in *. destruct go.
    + rewrite (u64_id (m + 7)) by (unfold is_u64; lia). apply IH; [lia|lia|done].
    + apply saferd_ret. assert (2 ^ (m + 7) <= 2 ^ 63) by (apply Z.pow_le_mono_r; lia). lia.
Qed.

Lemma safedec_int bits : 1 <= bits <= 8 ->
  SafeDec (quic_qpack_int_decode bits) (fun v => 0 <= v < 255 + 2 ^ 63).
Proof.
  intros Hb buf n Hbuf Hn Ho. unfold quic_qpack_int_decode. rewrite prefix_max_of by done.
  pose proof (pmax_bounds bits Hb). destruct (Z.eqb_spec n 0); [by exists None|].
  destruct (load_is_Some buf 0) as [b0 Hb0]; [lia|]. rewrite Hb0, land_pmax by done.
  pose proof (Z.mod_pos_bound b0 (2 ^ bits) ltac:(unfold pmax_of in *; lia)).
  destruct (decode_from_safe (decode_body (b0 mod 2 ^ bits) (pmax_of bits))
    (fun v => 0 <= v < 255 + 2 ^ 63) 1 buf n) as (r & -> & Hr); try done; try lia.
  - unfold decode_body, pmax_of in *. destruct (_ <? _).
    + apply saferd_ret. assert (0 < 2 ^ 63) by done. lia.
    + apply saferd_groups; [done|lia|]. change (2 ^ 0) with 1. lia.
  - exists r. split; [done|]. intros a used Ha. apply Hr in Ha as [? ?]. split; [done|lia].
Qed.

(** Values too large for nine groups are encoded but never accepted. *)
Lemma groups_refused f : forall g value m v pre post n,
  m = 70 - 7 * Z.of_nat f -> (1 <= f <= 10)%nat -> (f <= g)%nat -> 2 ^ (63 - m) <= v ->
  zlen pre <= n -> n <= zlen (pre ++ group_bytes g v ++ post) -> n < max_object ->
  exists off', take_groups_loop f value m (pre ++ group_bytes g v ++ post) n (zlen pre) = Some (None, off').
Proof.
  induction f as [|f IH]; intros g value m v pre post n Hm Hf Hg Hv H1 H2 H3; [lia|].
  cbn [take_groups_loop]. unfold rd_bind at 1, take_group. pose proof (zlen_nonneg pre).
  destruct (Z.leb_spec n (zlen pre)); simpl orb; [by exists (zlen pre)|].
  destruct (Z.ltb_spec 56 m); [by exists (zlen pre)|].
  assert (Hv128 : 128 <= v).
  { assert (2 ^ 7 <= 2 ^ (63 - m)) by (apply Z.pow_le_mono_r; lia). change (2 ^ 7) with 128 in *. lia. }
  destruct g as [|g]; [lia|]. rewrite group_bytes_S in *. revert H2. zfalse (v <? 128). intros H2.
  change ((?x :: ?l) ++ post) with (x :: l ++ post) in *. rewrite load_head by done.
  pose proof (Z.mod_pos_bound v 128 ltac:(lia)). rewrite land_0x80 by (unfold is_u8; lia). cbn [fst snd].
  zdecide. unwrap. change (?x :: ?l) with ([x] ++ l) in *. rewrite app_assoc in *.
  replace (zlen pre + 1) with (zlen (pre ++ [v mod 128 + 128])) by by rewrite zlen_app.
  apply IH; try done; try lia; [|rewrite zlen_app; change (zlen [_]) with 1; lia].
  apply Z.div_le_lower_bound; [lia|]. rewrite <- pow_m7 by lia.
  replace (63 - (m + 7) + 7) with (63 - m) by lia. done.
Qed.

Lemma int_refused bits pv v post n : 1 <= bits <= 8 -> Z.land pv (pmax_of bits) = 0 ->
  pmax_of bits + 2 ^ 63 <= v -> 0 <= n <= zlen (int_bytes bits pv v ++ post) -> n < max_object ->
  quic_qpack_int_decode bits (int_bytes bits pv v ++ post) n = Some None.
Proof.
  intros Hb Hpv Hv Hn Ho. unfold quic_qpack_int_decode. rewrite prefix_max_of by done.
  pose proof (pmax_bounds bits Hb). assert (0 < 2 ^ 63) by done.
  destruct (Z.eqb_spec n 0) as [->|Hn0]; [done|]. unfold int_bytes in *. revert Hn.
  zfalse (v <? pmax_of bits). intros Hn. change (load ((?b :: ?l) ++ ?p) 0) with (Some b). cbv beta iota.
  rewrite land_prefix by (done || lia). unfold decode_body, decode_from. zdecide.
  change ((?x :: ?l) ++ post) with ([x] ++ l ++ post) in *. change 1 with (zlen [Z.lor pv (pmax_of bits)]).
  destruct (groups_refused 10 11 (pmax_of bits) 0 (v - pmax_of bits) [Z.lor pv (pmax_of bits)] post n)
    as [off' Hoff]; try done; try lia; try (change (zlen [_]) with 1; lia).
  unfold take_groups. by rewrite Hoff.
Qed.

(** ** Field lines, section prefixes and instructions *)

Definition indexed_bytes (index : Z) (is_static : bool) : list Z :=
  int_bytes 6 (indexed_prefix is_static) index.

Definition prefix_bytes (p : quic_qpack_prefix) : list Z :=
  int_bytes 8 0 (required_insert_count p) ++ int_bytes 7 (sign_prefix (sign p)) (delta_base p).

Definition instr_bytes (s : instr_spec) (v : Z) : list Z := int_bytes (prefix_bits s) (pattern s) v.

(** The first byte of an encoded integer. *)
Lemma int_bytes_head bits pv v : 1 <= bits <= 8 -> 0 <= v ->
  exists x l, int_bytes bits pv v = Z.lor pv x :: l /\ 0 <= x <= pmax_of bits.
Proof.
  intros Hb Hv. unfold int_bytes. pose proof (pmax_bounds bits Hb).
  destruct (Z.ltb_spec v (pmax_of bits)); eexists _, _; (split; [done|lia]).
Qed.

Lemma nat_range_forall (P : Z -> bool) (k : nat) :
  forallb (fun i => P (Z.of_nat i)) (seq 0 k) = true -> forall x, 0 <= x < Z.of_nat k -> P x = true.
Proof.
  intros H x Hx. rewrite forallb_forall in H. specialize (H (Z.to_nat x)). rewrite Z2Nat.id in H by lia.
  apply H, in_seq. lia.
Qed.

(** The decoder of a representation whose first byte is tested and whose flag
    bits lie above the prefix. *)
Lemma decodes_first_int {A} test bits pv v (f : Z -> Z -> A) a :
  1 <= bits <= 8 -> 0 <= v < pmax_of bits + 2 ^ 63 -> Z.land pv (pmax_of bits) = 0 ->
  (forall x, 0 <= x < 2 ^ bits -> test (Z.lor pv x) = true /\ f (Z.lor pv x) v = a) ->
  Decodes (dec_first test (fun b0 => dec_map (f b0) (quic_qpack_int_decode bits))) (int_bytes bits pv v) a.
Proof.
  intros Hb Hv Hpv Ht. pose proof (int_decodes bits pv v Hb Hpv Hv) as Hd.
  destruct (int_bytes_head bits pv v Hb) as (x & l & Hx & Hr); [lia|]. rewrite Hx in *.
  destruct (Ht x) as [H1 H2]; [unfold pmax_of in Hr; lia|].
  apply decodes_first; [done|]. rewrite <- H2. by apply decodes_map.
Qed.

Lemma indexed_decodes index is_static : 0 <= index < 2 ^ 63 ->
  Decodes quic_qpack_indexed_decode (indexed_bytes index is_static) (index, is_static).
Proof.
  intros Hi. apply decodes_first_int; [lia|change (pmax_of 6) with 63; lia|by destruct is_static|].
  intros x Hx. change (2 ^ 6) with (Z.of_nat 64) in Hx.
  pose proof (nat_range_forall (fun x => is_indexed (Z.lor (indexed_prefix is_static) x) &&
    Bool.eqb (flag (Z.lor (indexed_prefix is_static) x) QPACK_STATIC) is_static) 64) as Hn.
  specialize (Hn ltac:(by destruct is_static; vm_compute) x Hx).
  apply andb_true_iff in Hn as [-> Hf]. by rewrite (eqb_prop _ _ Hf).
Qed.

Lemma indexed_encodes index is_static : is_u64 index ->
  Encodes (quic_qpack_indexed_encode index is_static) (indexed_bytes index is_static).
Proof. intros. by apply int_encodes. Qed.

Lemma prefix_encodes p : is_u64 (required_insert_count p) -> is_u64 (delta_base p) ->
  Encodes (quic_qpack_prefix_encode p) (prefix_bytes p).
Proof.
  intros H1 H2. unfold quic_qpack_prefix_encode, prefix_bytes. apply encodes_then.
  - by apply int_encodes.
  - apply zlen_int_bytes.
  - apply writes_emit_at; [by apply int_encodes|apply zlen_int_bytes].
Qed.

(** The section prefix is read back when at least its two integers' bytes are in
    memory; [n] may cut it, but only where the byte after the first integer is
    still addressable. *)
Lemma prefix_decodes p : 0 <= required_insert_count p < 2 ^ 63 -> 0 <= delta_base p < 2 ^ 63 ->
  Decodes quic_qpack_prefix_decode (prefix_bytes p) p.
Proof.
  intros H1 H2. unfold quic_qpack_prefix_decode, prefix_bytes. eapply decodes_join.
  - apply int_decodes; [lia|done|change (pmax_of 8) with 255; lia].
  - destruct p as [r sg d]. cbn [required_insert_count sign delta_base] in *.
    assert (Hd : Decodes (quic_qpack_int_decode 7) (int_bytes 7 (sign_prefix sg) d) d).
    { apply int_decodes; [lia|by destruct sg|change (pmax_of 7) with 127; lia]. }
    intros post n Hn Ho. destruct (int_bytes_head 7 (sign_prefix sg) d) as (x & l & Hx & Hr); [lia..|].
    assert (Hf : flag (Z.lor (sign_prefix sg) x) PREFIX_SIGN_BIT = sg).
    { change (pmax_of 7) with 127 in Hr.
      pose proof (nat_range_forall (fun x => Bool.eqb (flag (Z.lor (sign_prefix sg) x) PREFIX_SIGN_BIT) sg) 128) as Hn'.
      specialize (Hn' ltac:(by destruct sg; vm_compute) x ltac:(lia)). by apply eqb_prop in Hn'. }
    rewrite Hx in *. change (load ((?b :: ?l) ++ ?p) 0) with (Some b). cbv beta iota. rewrite Hf.
    by apply (decodes_map (Qpre r sg) _ _ d Hd).
Qed.

(** Every instruction's first byte is classified as that instruction. *)
Definition classified (specs : list instr_spec) (i : nat) : bool :=
  match nth_error specs i with
  | None => true
  | Some s => forallb (fun x => spec_classify specs (Z.lor (pattern s) (Z.of_nat x)) 0 =? i)%nat
                      (seq 0 (Z.to_nat (2 ^ prefix_bits s)))
  end.

Lemma instr_decodes specs i s v :
  classified specs i = true -> nth_error specs i = Some s ->
  1 <= prefix_bits s <= 8 -> Z.land (pattern s) (pmax_of (prefix_bits s)) = 0 -> 0 <= v < 2 ^ 63 ->
  Decodes (instr_decode specs) (instr_bytes s v) (i, v).
Proof.
  intros Hc Hs Hb Hp Hv. unfold classified in Hc. rewrite Hs in Hc. pose proof (pmax_bounds _ Hb).
  pose proof (int_decodes (prefix_bits s) (pattern s) v Hb Hp ltac:(lia)) as Hd. unfold instr_bytes.
  destruct (int_bytes_head (prefix_bits s) (pattern s) v Hb) as (x & l & Hx & Hr); [lia|]. rewrite Hx in *.
  apply decodes_first; [done|]. intros post n Hn Ho.
  rewrite forallb_forall in Hc. specialize (Hc (Z.to_nat x)). rewrite Z2Nat.id in Hc by lia.
  rewrite Nat.eqb_eq in Hc. cbv zeta. rewrite Hc by (apply in_seq; unfold pmax_of in Hr; lia). rewrite Hs.
  by apply (decodes_map (pair i) _ _ v Hd).
Qed.

Lemma safedec_instr specs : Forall (fun s => 1 <= prefix_bits s <= 8) specs ->
  SafeDec (instr_decode specs) (fun kv => (fst kv < length specs)%nat /\ 0 <= snd kv < 255 + 2 ^ 63).
Proof.
  intros Hs. apply safedec_first. intros b0 Hb0 _ buf n Hb Hn Ho. cbv zeta.
  destruct (nth_error specs _) as [s|] eqn:E; [|by exists None].
  pose proof (nth_error_In _ _ E) as Hin. rewrite List.Forall_forall in Hs.
  eapply (safedec_map (pair (spec_classify specs b0 0))); [by apply safedec_int, Hs| |done..].
  intros v Hv. cbn [fst snd]. split; [|done]. apply nth_error_Some. by rewrite E.
Qed.

(** * Properties *)

(** A prefixed integer written by [quic_qpack_int_encode] above any pattern bits
    is read back by [quic_qpack_int_decode] exactly when it is below [2^N - 1 +
    2^63]; the bytes may be followed by anything, an input cut inside them is
    refused, and a larger [u64] (which the encoder still writes) is refused at
    every length: the decoder's nine groups cannot hold it. *)
Theorem qpack_int_exact bits pv v buf cap n :
  1 <= bits <= 8 -> Z.land pv (prefix_max bits) = 0 -> is_u64 v ->
  zlen (int_bytes bits pv v) <= cap -> cap <= zlen buf -> zlen buf < max_object -> 0 <= n <= zlen buf ->
  exists buf', quic_qpack_int_encode bits pv v buf cap = Some (zlen (int_bytes bits pv v), buf') /\
    drop (Z.to_nat cap) buf' = drop (Z.to_nat cap) buf /\
    quic_qpack_int_decode bits buf' n =
      Some (if (v <? prefix_max bits + 2 ^ 63) && (zlen (int_bytes bits pv v) <=? n)
            then Some (v, zlen (int_bytes bits pv v)) else None).
Proof.
  intros Hb Hpv Hv Hfit Hcap Ho Hn. rewrite prefix_max_of in * by done.
  set (bs := int_bytes bits pv v) in *. pose proof (zlen_nonneg bs).
  pose proof (int_encodes bits pv v Hb Hv buf cap ltac:(lia) ltac:(lia)) as He. fold bs in He.
  revert He. ztrue (zlen bs <=? cap). intros He. exists (splice buf 0 bs). split; [done|].
  split; [apply drop_splice; lia|].
  destruct (splice_at buf bs 0) as (pre & old & post & Hsp & Hp & Hold & ->); [lia|lia|].
  destruct pre as [|? ?]; [|unfold zlen in Hp; simpl in Hp; lia]. simpl app in *.
  assert (Hlen : 0 <= n <= zlen (bs ++ post)) by (subst buf; rewrite !zlen_app in *; lia).
  destruct (Z.ltb_spec v (pmax_of bits + 2 ^ 63)); simpl andb.
  - apply int_decodes; [done|done|unfold is_u64 in Hv; lia|done|lia].
  - apply int_refused; try done; lia.
Qed.

(** Witness: 1337 in five bits, the example of RFC 7541 section C.1.2. *)
Lemma qpack_int_exact_witness :
  exists buf', quic_qpack_int_encode 5 0xe0 1337 (repeat 0 8) 4 = Some (3, buf') /\
    drop 4 buf' = repeat 0 4 /\ quic_qpack_int_decode 5 buf' 8 = Some (Some (1337, 3)).
Proof.
  exact (qpack_int_exact 5 0xe0 1337 (repeat 0 8) 4 8 ltac:(lia) eq_refl ltac:(unfold is_u64; lia)
    ltac:(vm_compute; discriminate) ltac:(vm_compute; discriminate) ltac:(vm_compute; reflexivity)
    ltac:(closed_arith)).
Defined.

(** The stream instructions of both directions are read back as the instruction
    and value they were written for. *)
Theorem qpack_instr_roundtrip v : 0 <= v < 2 ^ 63 ->
  (forall k, exists bs, Encodes (quic_qpack_enc_instr_encode k v) bs /\
     Decodes quic_qpack_enc_instr_decode bs (k, v)) /\
  (forall k, exists bs, Encodes (quic_qpack_dec_instr_encode k v) bs /\
     Decodes quic_qpack_dec_instr_decode bs (k, v)).
Proof.
  intros Hv. assert (Hu : is_u64 v) by (unfold is_u64; change (2 ^ 63) with 9223372036854775808 in Hv; lia).
  split; intros k.
  - exists (instr_bytes (nth (enc_ord k) enc_specs (Ispec 0 0 0)) v). split.
    + destruct k; apply int_encodes; done || (cbn; lia).
    + pose proof (decodes_map (fun kv : nat * Z => (enc_cast (fst kv), snd kv)) (instr_decode enc_specs)) as Hm.
      destruct k; [apply (Hm _ (0%nat, v))|apply (Hm _ (1%nat, v))|apply (Hm _ (2%nat, v))|apply (Hm _ (3%nat, v))];
        apply instr_decodes; try done; by vm_compute.
  - exists (instr_bytes (nth (dec_ord k) dec_specs (Ispec 0 0 0)) v). split.
    + destruct k; apply int_encodes; done || (cbn; lia).
    + pose proof (decodes_map (fun kv : nat * Z => (dec_cast (fst kv), snd kv)) (instr_decode dec_specs)) as Hm.
      destruct k; [apply (Hm _ (0%nat, v))|apply (Hm _ (1%nat, v))|apply (Hm _ (2%nat, v))];
        apply instr_decodes; try done; by vm_compute.
Qed.

(** A prefix that is read takes part of the input. *)
Lemma prefix_decode_used buf n p used : Forall is_u8 buf -> 0 <= n <= zlen buf -> n < max_object ->
  quic_qpack_prefix_decode buf n = Some (Some (p, used)) -> 0 < used <= n.
Proof.
  intros Hb Hn Ho. unfold quic_qpack_prefix_decode, dec_join.
  destruct (safedec_int 8 ltac:(lia) buf n Hb ltac:(lia) Ho) as ([[ric off]|] & -> & Hr); [|done].
  destruct (Hr ric off eq_refl) as [_ Hoff]. unwrap.
  assert (Hdl : zlen (drop (Z.to_nat off) buf) = zlen buf - off) by (unfold zlen in *; rewrite length_drop; lia).
  destruct (load (drop (Z.to_nat off) buf) 0) as [b|]; [|done]. unfold dec_map.
  destruct (safedec_int 7 ltac:(lia) (drop (Z.to_nat off) buf) (n - off)) as ([[d w]|] & -> & Hd);
    [by apply Forall_drop|lia|lia| |done].
  destruct (Hd d w eq_refl) as [_ Hw]. unwrap. intros [= <- <-]. lia.
Qed.

(** Section prefixes: on arbitrary bytes the decoder stays inside the buffer as
    long as one byte after the [n] it was told about is addressable. *)
Lemma prefix_decode_safe buf n : Forall is_u8 buf -> 0 <= n < zlen buf -> n < max_object ->
  exists r, quic_qpack_prefix_decode buf n = Some r /\ forall p used, r = Some (p, used) -> 0 < used <= n.
Proof.
  intros Hb Hn Ho. unfold quic_qpack_prefix_decode, dec_join.
  destruct (safedec_int 8 ltac:(lia) buf n Hb ltac:(lia) Ho) as ([[ric off]|] & -> & Hr); [|by exists None].
  destruct (Hr ric off eq_refl) as [_ Hoff]. unwrap.
  assert (Hdl : zlen (drop (Z.to_nat off) buf) = zlen buf - off) by (unfold zlen in *; rewrite length_drop; lia).
  destruct (load_is_Some (drop (Z.to_nat off) buf) 0) as [b ->]; [lia|]. unfold dec_map.
  destruct (safedec_int 7 ltac:(lia) (drop (Z.to_nat off) buf) (n - off)) as ([[d w]|] & -> & Hd);
    [by apply Forall_drop|lia|lia| |by exists None].
  destruct (Hd d w eq_refl) as [_ Hw]. unwrap. eexists. split; [done|]. intros ? ? [= <- <-]. lia.
Qed.

(** A field section that ends after its first integer: the sign bit is read one
    byte past the end. *)
Example prefix_decode_overread ric : 0 <= ric < 255 ->
  quic_qpack_prefix_decode [ric] 1 = None /\ quic_qpack_prefix_decode [ric; 0] 1 = Some None.
Proof.
  intros Hr. change [ric] with ([ric] ++ []). change [ric; 0] with ([ric] ++ [0]).
  unfold quic_qpack_prefix_decode, dec_join.
  assert (Hd : Decodes (quic_qpack_int_decode 8) [ric] ric).
  { pose proof (int_decodes 8 0 ric ltac:(lia) eq_refl) as Hi. unfold int_bytes in Hi.
    change (pmax_of 8) with 255 in Hi. revert Hi. ztrue (ric <? 255). intros Hi. apply Hi.
    assert (0 < 2 ^ 63) by done. lia. }
  rewrite !Hd by (closed_arith). split; by vm_compute.
Qed.
