(* ===== verification/Huffman.v ===== *)
(** The Huffman decoder of QPACK string literals ([app/qpack/qpack/huffman.c]).

    The decoder walks the input bit by bit and recognises a code from the four
    canonical tables.  Its reference is the code itself: RFC 7541 Appendix B
    gives every symbol a length, and the canonical code of a symbol counts, at
    its own scale, the codes that come before it in the order of (length, symbol).
    The theorem says the decoder accepts exactly the padded encodings. *)
From S2P Require Import Prelude.
From S2P Require Import Buffers.

(** * The tables *)

Definition HUFF_MAXLEN : Z := 30.

Definition HSYM : list Z :=
  [48; 49; 50; 97; 99; 101; 105; 111; 115; 116; 32; 37; 45; 46; 47; 51; 52; 53; 54; 55; 56;
  57; 61; 65; 95; 98; 100; 102; 103; 104; 108; 109; 110; 112; 114; 117; 58; 66; 67; 68; 69;
  70; 71; 72; 73; 74; 75; 76; 77; 78; 79; 80; 81; 82; 83; 84; 85; 86; 87; 89; 106; 107; 113;
  118; 119; 120; 121; 122; 38; 42; 44; 59; 88; 90; 33; 34; 40; 41; 63; 39; 43; 124; 35; 62;
  0; 36; 64; 91; 93; 126; 94; 125; 60; 96; 123; 92; 195; 208; 128; 130; 131; 162; 184; 194;
  224; 226; 153; 161; 167; 172; 176; 177; 179; 209; 216; 217; 227; 229; 230; 129; 132; 133;
  134; 136; 146; 154; 156; 160; 163; 164; 169; 170; 173; 178; 181; 185; 186; 187; 189; 190;
  196; 198; 228; 232; 233; 1; 135; 137; 138; 139; 140; 141; 143; 147; 149; 150; 151; 152;
  155; 157; 158; 165; 166; 168; 174; 175; 180; 182; 183; 188; 191; 197; 231; 239; 9; 142;
  144; 145; 148; 159; 171; 206; 215; 225; 236; 237; 199; 207; 234; 235; 192; 193; 200; 201;
  202; 205; 210; 213; 218; 219; 238; 240; 242; 243; 255; 203; 204; 211; 212; 214; 221; 222;
  223; 241; 244; 245; 246; 247; 248; 250; 251; 252; 253; 254; 2; 3; 4; 5; 6; 7; 8; 11; 12;
  14; 15; 16; 17; 18; 19; 20; 21; 23; 24; 25; 26; 27; 28; 29; 30; 31; 127; 220; 249; 10; 13;
  22; 256].

Definition HFIRST : list Z :=
  [0; 0; 0; 0; 0; 0; 20; 92; 248; 508; 1016; 2042; 4090; 8184; 16380; 32764; 65534; 131068;
  262136; 524272; 1048550; 2097116; 4194258; 8388568; 16777194; 33554412; 67108832;
  134217694; 268435426; 536870910; 1073741820].

Definition HIDX : list Z :=
  [0; 0; 0; 0; 0; 0; 10; 36; 68; 74; 74; 79; 82; 84; 90; 92; 95; 95; 95; 95; 98; 106; 119;
  145; 174; 186; 190; 205; 224; 253; 253].

Definition HCNT : list Z :=
  [0; 0; 0; 0; 0; 10; 26; 32; 6; 0; 5; 3; 2; 6; 2; 3; 0; 0; 0; 3; 8; 13; 26; 29; 12; 4; 15;
  19; 29; 0; 4].

(** * The decoder *)

Record hctx := Hctx { acc : Z; nbits : Z; out : list Z; dcap : Z; olen : Z; ok : bool }.

Definition set_ok (c : hctx) (b : bool) : hctx := Hctx (acc c) (nbits c) (out c) (dcap c) (olen c) b.
Definition set_bits (c : hctx) (a n : Z) : hctx := Hctx a n (out c) (dcap c) (olen c) (ok c).
Definition set_out (c : hctx) (o : list Z) (k : Z) : hctx := Hctx (acc c) (nbits c) o (dcap c) k (ok c).

Definition code_ready (acc L : Z) : option bool :=
  cnt ← load HCNT L; first ← load HFIRST L;
  Some (negb (cnt =? 0) && (u32 (acc - first) <? cnt)).

Definition put_sym (c : hctx) (sym : Z) : option hctx :=
  if (255 <? sym) || (dcap c <=? olen c) then Some (set_ok c false)
  else o ← store (out c) (olen c) (u8 sym); Some (set_out c o (olen c +w 1)).

Definition emit_code (c : hctx) : option hctx :=
  idx ← load HIDX (nbits c); first ← load HFIRST (nbits c);
  sym ← load HSYM (u32 (idx + u32 (acc c - first)));
  c' ← put_sym c sym; Some (set_bits c' 0 0).

Definition step_bit (c : hctx) (bit : Z) : option hctx :=
  let c := set_bits c (Z.lor (u32 (Z.shiftl (acc c) 1)) bit) (u32 (nbits c + 1)) in
  if HUFF_MAXLEN <? nbits c then Some (set_ok c false)
  else r ← code_ready (acc c) (nbits c); if (r : bool) then emit_code c else Some c.

(** [for (b = 8; b != 0 && c->ok; b--)]. *)
Fixpoint step_octet_loop (b : nat) (byte : Z) (c : hctx) : option hctx :=
  match b with
  | O => Some c
  | S b' => if ok c
            then c' ← step_bit c (Z.land (Z.shiftr byte (Z.of_nat b')) 1); step_octet_loop b' byte c'
            else Some c
  end.

Definition step_octet (c : hctx) (byte : Z) : option hctx := step_octet_loop 8 byte c.

(** [for (i = 0; i < src_len; i++) step_octet(c, src[i])]. *)
Fixpoint feed_loop (k : nat) (c : hctx) (src : list Z) (i : Z) : option hctx :=
  match k with
  | O => Some c
  | S k' => b ← load src i; c' ← step_octet c b; feed_loop k' c' src (i + 1)
  end.

Definition feed (c : hctx) (src : list Z) (src_len : Z) : option hctx :=
  feed_loop (Z.to_nat src_len) c src 0.

Definition pad_valid (c : hctx) : bool :=
  (nbits c <? 8) && ((nbits c =? 0) || (acc c =? u32 (u32 (Z.shiftl 1 (nbits c)) - 1))).

Definition decode_ok (c : hctx) : bool := ok c && pad_valid c.

(** [Some (Some (dst', out_len))] on a return of 1; [dst] is the destination
    before the call. *)
Definition quic_qpack_huffman_decode (src : list Z) (src_len : Z) (dst : list Z) (dcap : Z)
  : option (option (list Z * Z)) :=
  c ← feed (Hctx 0 0 dst dcap 0 true) src src_len;
  Some (if decode_ok c then Some (out c, olen c) else None).

(** * The code of RFC 7541 Appendix B *)

(** The length in bits of the code of each symbol; 256 is EOS. *)
Definition code_lengths : list nat :=
  [13; 23; 28; 28; 28; 28; 28; 28; 28; 24; 30; 28; 28; 30; 28; 28; 28; 28; 28; 28; 28; 28;
  30; 28; 28; 28; 28; 28; 28; 28; 28; 28; 6; 10; 10; 12; 13; 6; 8; 11; 10; 10; 8; 11; 8; 6;
  6; 6; 5; 5; 5; 6; 6; 6; 6; 6; 6; 6; 7; 8; 15; 6; 12; 10; 13; 6; 7; 7; 7; 7; 7; 7; 7; 7; 7;
  7; 7; 7; 7; 7; 7; 7; 7; 7; 7; 7; 7; 7; 8; 7; 8; 13; 19; 13; 14; 6; 15; 5; 6; 5; 6; 5; 6;
  6; 6; 5; 7; 7; 6; 6; 6; 5; 6; 7; 6; 5; 5; 6; 7; 7; 7; 7; 7; 15; 11; 14; 13; 28; 20; 22;
  20; 20; 22; 22; 22; 23; 22; 23; 23; 23; 23; 23; 24; 23; 24; 24; 22; 23; 24; 23; 23; 23;
  23; 21; 22; 23; 22; 23; 23; 24; 22; 21; 20; 22; 22; 23; 23; 21; 23; 22; 22; 24; 21; 22;
  23; 23; 21; 21; 22; 21; 23; 22; 23; 23; 20; 22; 22; 22; 23; 22; 22; 23; 26; 26; 20; 19;
  22; 23; 22; 25; 26; 26; 26; 27; 27; 26; 24; 25; 19; 21; 26; 27; 27; 26; 27; 24; 21; 21;
  26; 26; 28; 27; 27; 27; 20; 24; 20; 21; 22; 21; 21; 23; 22; 22; 25; 25; 24; 24; 26; 23;
  26; 27; 26; 26; 27; 27; 27; 27; 27; 28; 27; 27; 27; 27; 27; 26; 30]%nat.

Definition code_len (s : nat) : nat := nth s code_lengths 0%nat.

(** [t] comes before [s] in the canonical order. *)
Definition code_before (t s : nat) : bool :=
  ((code_len t <? code_len s) || ((code_len t =? code_len s) && (t <? s)))%nat.

Definition code_value (s : nat) : Z :=
  fold_left (fun v t => if code_before t s then v + 2 ^ Z.of_nat (code_len s - code_len t) else v)
            (seq 0 257) 0.

(** The [k] low bits of [v], most significant first. *)
Fixpoint bits (k : nat) (v : Z) : list bool :=
  match k with
  | O => []
  | S k' => Z.testbit v (Z.of_nat k') :: bits k' v
  end.

Definition huff_code (s : Z) : list bool := bits (code_len (Z.to_nat s)) (code_value (Z.to_nat s)).

Definition octet_bits (b : Z) : list bool := bits 8 b.

(** [src] is the encoding of [bs]: the codes one after the other, then fewer
    than eight one bits. *)
Definition huff_encoding (src bs : list Z) : Prop :=
  exists k, (k < 8)%nat /\
    concat (map octet_bits src) = concat (map huff_code bs) ++ repeat true k.

(** * Bit strings *)

Definition bits_value (l : list bool) : Z := fold_left (fun v b => 2 * v + Z.b2z b) l 0.

Lemma length_bits k v : length (bits k v) = k.
Proof. induction k; simpl; auto. Qed.

Lemma bits_value_snoc l b : bits_value (l ++ [b]) = 2 * bits_value l + Z.b2z b.
Proof. unfold bits_value. by rewrite fold_left_app. Qed.

Lemma bits_value_range l : 0 <= bits_value l < 2 ^ zlen l.
Proof.
  induction l as [|b l IH] using rev_ind; [done|]. rewrite bits_value_snoc, zlen_app.
  change (zlen [b]) with 1. rewrite Z.pow_add_r by (try apply zlen_nonneg; lia).
  change (2 ^ 1) with 2. destruct b; simpl Z.b2z; lia.
Qed.

Lemma bits_snoc k v : bits (S k) v = bits k (v / 2) ++ [Z.odd v].
Proof.
  induction k as [|k IH]; [by rewrite <- Z.bit0_odd|].
  change (bits (S (S k)) v) with (Z.testbit v (Z.of_nat (S k)) :: bits (S k) v).
  rewrite IH. change (bits (S k) (v / 2)) with (Z.testbit (v / 2) (Z.of_nat k) :: bits k (v / 2)).
  rewrite Z.div2_bits by lia. rewrite <- Nat2Z.inj_succ. done.
Qed.

Lemma bits_bits_value l : bits (length l) (bits_value l) = l.
Proof.
  induction l as [|b l IH] using rev_ind; [done|].
  rewrite length_app, Nat.add_comm. cbn [length Nat.add]. rewrite bits_snoc, bits_value_snoc.
  replace (Z.odd (2 * bits_value l + Z.b2z b)) with b
    by (rewrite Z.add_comm, Z.odd_add_mul_2; by destruct b).
  replace ((2 * bits_value l + Z.b2z b) / 2) with (bits_value l); [by rewrite IH|].
  rewrite Z.add_comm, Z.mul_comm, Z.div_add by lia. by destruct b.
Qed.

Lemma bits_value_ones k : bits_value (repeat true k) = 2 ^ Z.of_nat k - 1.
Proof.
  induction k as [|k IH]; [done|]. cbn [repeat]. rewrite repeat_cons, bits_value_snoc, IH, Nat2Z.inj_succ.
  rewrite Z.pow_succ_r by lia. simpl Z.b2z. lia.
Qed.

Lemma bits_value_inj l k : length l = length k -> bits_value l = bits_value k -> l = k.
Proof. intros Hl Hv. rewrite <- (bits_bits_value l), <- (bits_bits_value k). congruence. Qed.

(** * One bit, without the output *)

Inductive advanced := More (a n : Z) | Symbol (s : Z) | Overrun.

Definition advance (a n bit : Z) : option advanced :=
  let a := Z.lor (u32 (Z.shiftl a 1)) bit in
  let n := u32 (n + 1) in
  if HUFF_MAXLEN <? n then Some Overrun
  else r ← code_ready a n;
       if (r : bool)
       then idx ← load HIDX n; first ← load HFIRST n;
            sym ← load HSYM (u32 (idx + u32 (a - first))); Some (Symbol sym)
       else Some (More a n).

Lemma step_bit_advance c bit :
  match advance (acc c) (nbits c) bit with
  | None => True
  | Some (More a n) => step_bit c bit = Some (set_bits c a n)
  | Some (Symbol s) => step_bit c bit = (c' ← put_sym c s; Some (set_bits c' 0 0))
  | Some Overrun => exists c', step_bit c bit = Some c' /\ ok c' = false
  end.
Proof.
  unfold advance, step_bit, emit_code. cbn [acc nbits set_bits].
  destruct (HUFF_MAXLEN <? _); [by eexists|].
  destruct (code_ready _ _) as [[|]|]; simpl mbind; [|done|done].
  destruct (load HIDX _); simpl mbind; [|done]. destruct (load HFIRST _); simpl mbind; [|done].
  destruct (load HSYM _); simpl mbind; [|done]. unfold put_sym. cbn [dcap olen set_bits out].
  destruct (_ || _); [done|]. by destruct (store _ _ _).
Qed.

(** ** Facts of the tables, by evaluation *)

(** Every slot of the tables holds the symbol whose code it stands for. *)
Definition slot_ok (L off : nat) : bool :=
  match load HIDX (Z.of_nat L), load HFIRST (Z.of_nat L) with
  | Some idx, Some first =>
      match load HSYM (idx + Z.of_nat off) with
      | Some s => (0 <=? s) && (s <=? 256) && (code_len (Z.to_nat s) =? L)%nat &&
                  (code_value (Z.to_nat s) =? first + Z.of_nat off)
      | None => false
      end
  | _, _ => false
  end.

Definition slots_ok (L : nat) : bool :=
  match load HCNT (Z.of_nat L) with
  | Some cnt => forallb (slot_ok L) (seq 0 (Z.to_nat cnt))
  | None => false
  end.

(** Reading a code from the initial state yields its symbol at the last bit. *)
Fixpoint run_code (l : list bool) (a n : Z) : option Z :=
  match l with
  | [] => None
  | b :: l' =>
      match advance a n (Z.b2z b) with
      | Some (More a' n') => run_code l' a' n'
      | Some (Symbol s) => match l' with [] => Some s | _ => None end
      | _ => None
      end
  end.

Definition code_ok (s : nat) : bool :=
  match run_code (huff_code (Z.of_nat s)) 0 0 with
  | Some s' => s' =? Z.of_nat s
  | None => false
  end.

Lemma slots_ok_true : forallb slots_ok (seq 0 31) = true.
Proof. by vm_compute. Qed.

Lemma codes_ok_true : forallb code_ok (seq 0 257) = true.
Proof. by vm_compute. Qed.

Lemma slots_ok_at L off cnt : (L <= 30)%nat -> load HCNT (Z.of_nat L) = Some cnt -> Z.of_nat off < cnt ->
  slot_ok L off = true.
Proof.
  intros HL Hc Ho. pose proof (proj1 (forallb_forall _ _) slots_ok_true L) as Hs.
  specialize (Hs ltac:(apply in_seq; lia)). unfold slots_ok in Hs. rewrite Hc in Hs.
  apply (proj1 (forallb_forall _ _) Hs). apply in_seq. lia.
Qed.

Lemma code_ok_at b : is_u8 b -> run_code (huff_code b) 0 0 = Some b.
Proof.
  intros Hb. unfold is_u8 in Hb. pose proof (proj1 (forallb_forall _ _) codes_ok_true (Z.to_nat b)) as Hc.
  specialize (Hc ltac:(apply in_seq; lia)). unfold code_ok in Hc. rewrite Z2Nat.id in Hc by lia.
  destruct (run_code _ 0 0); [|done]. apply Z.eqb_eq in Hc. by subst.
Qed.

Lemma tables_len : zlen HCNT = 31 /\ zlen HFIRST = 31 /\ zlen HIDX = 31 /\ zlen HSYM = 257.
Proof. by vm_compute. Qed.

Lemma table_bounds i cnt first : load HCNT i = Some cnt -> load HFIRST i = Some first ->
  cnt <= 257 /\ 0 <= first < 2 ^ 30.
Proof.
  intros H1 H2. apply load_elem, list_elem_of_In in H1, H2.
  assert (A1 : forallb (fun x => x <=? 257) HCNT = true) by by vm_compute.
  assert (A2 : forallb (fun x => (0 <=? x) && (x <? 2 ^ 30)) HFIRST = true) by by vm_compute.
  rewrite forallb_forall in A1, A2. apply A1 in H1. apply A2 in H2. zbool. lia.
Qed.

(** Reading pending bits without completing a code. *)
Fixpoint run_more (l : list bool) (a n : Z) : option (Z * Z) :=
  match l with
  | [] => Some (a, n)
  | b :: l' => match advance a n (Z.b2z b) with
               | Some (More a' n') => run_more l' a' n'
               | _ => None
               end
  end.

Lemma run_more_ones k : (k < 8)%nat -> run_more (repeat true k) 0 0 = Some (2 ^ Z.of_nat k - 1, Z.of_nat k).
Proof. intros Hk. do 8 (destruct k as [|k]; [by vm_compute|]). lia. Qed.

(** The state after the pending bits [p], and one bit more. *)
Lemma advance_spec p b : zlen p <= 30 ->
  advance (bits_value p) (zlen p) (Z.b2z b) = Some Overrun \/
  (advance (bits_value p) (zlen p) (Z.b2z b) = Some (More (bits_value (p ++ [b])) (zlen (p ++ [b]))) /\
   zlen (p ++ [b]) <= 30) \/
  exists s, advance (bits_value p) (zlen p) (Z.b2z b) = Some (Symbol s) /\
    0 <= s <= 256 /\ huff_code s = p ++ [b].
Proof.
  intros Hp. unfold advance. pose proof (zlen_nonneg p). pose proof (bits_value_range p) as Hr.
  assert (Hpow : 2 ^ zlen p <= 2 ^ 30) by (apply Z.pow_le_mono_r; lia). change (2 ^ 30) with 1073741824 in Hpow.
  assert (Hacc : Z.lor (u32 (Z.shiftl (bits_value p) 1)) (Z.b2z b) = bits_value (p ++ [b])).
  { rewrite Z.shiftl_mul_pow2, bits_value_snoc by lia. change (2 ^ 1) with 2.
    unfold u32. rewrite Z.mod_small by lia. pose proof (lor_low (bits_value p) (Z.b2z b) 1) as Hl.
    change (2 ^ 1) with 2 in Hl. rewrite Hl by (destruct b; simpl; lia). lia. }
  rewrite Hacc. assert (Hn : u32 (zlen p + 1) = zlen (p ++ [b])).
  { rewrite zlen_app. change (zlen [b]) with 1. unfold u32. apply Z.mod_small. lia. }
  rewrite Hn. pose proof (bits_value_range (p ++ [b])) as Hrb. pose proof (bits_bits_value (p ++ [b])) as Hbb.
  set (q := p ++ [b]) in *. assert (Hq : 0 < zlen q) by (unfold q; rewrite zlen_app; change (zlen [b]) with 1; lia).
  destruct (Z.ltb_spec HUFF_MAXLEN (zlen q)) as [|Hmax]; [by left|]. unfold HUFF_MAXLEN in Hmax. right.
  destruct tables_len as (T1 & T2 & T3 & T4). unfold code_ready.
  destruct (load_is_Some HCNT (zlen q)) as [cnt Hcnt]; [lia|].
  destruct (load_is_Some HFIRST (zlen q)) as [first Hfirst]; [lia|].
  destruct (load_is_Some HIDX (zlen q)) as [idx Hidx]; [lia|].
  rewrite Hcnt, Hfirst, Hidx. simpl mbind.
  destruct (negb (cnt =? 0) && (u32 (bits_value q - first) <? cnt)) eqn:E; [right|by left].
  zbool. assert (Hql : Z.of_nat (length q) = zlen q) by done.
  pose proof (u32_range (bits_value q - first)) as Hu. unfold is_u32 in Hu.
  set (off := u32 (bits_value q - first)) in *.
  pose proof (slots_ok_at (length q) (Z.to_nat off) cnt ltac:(lia) Hcnt ltac:(lia)) as Hs.
  unfold slot_ok in Hs. rewrite Hql, Hidx, Hfirst, Z2Nat.id in Hs by lia.
  destruct (load HSYM (idx + off)) as [s|] eqn:Hsym; [|done].
  assert (Hix : u32 (idx + off) = idx + off).
  { apply load_range in Hsym. unfold u32. apply Z.mod_small. lia. }
  rewrite Hix, Hsym. simpl mbind. exists s. zbool. apply Nat.eqb_eq in H4. split_and!; [done|lia..|].
  unfold huff_code. rewrite H4, H3.
  replace (first + off) with (bits_value q); [done|].
  destruct (table_bounds _ _ _ Hcnt Hfirst) as [Hc' Hf].
  assert (2 ^ zlen q <= 2 ^ 30) by (apply Z.pow_le_mono_r; lia). change (2 ^ 30) with 1073741824 in *.
  unfold off, u32 in *. destruct (Z.le_gt_cases first (bits_value q)).
  - rewrite Z.mod_small by lia. lia.
  - exfalso. rewrite <- (Z.mod_add _ 1), Z.mod_small in H1 by lia. lia.
Qed.

(** * Whole inputs *)

(** The bits one after the other, stopping at the first broken rule. *)
Fixpoint steps (l : list bool) (c : hctx) : option hctx :=
  match l with
  | [] => Some c
  | b :: l' => if ok c then c' ← step_bit c (Z.b2z b); steps l' c' else Some c
  end.

Lemma steps_not_ok l c : ok c = false -> steps l c = Some c.
Proof. intros Hc. destruct l as [|b l]; cbn [steps]; by rewrite ?Hc. Qed.

Lemma steps_app l1 l2 c : steps (l1 ++ l2) c = (c' ← steps l1 c; steps l2 c').
Proof.
  revert c. induction l1 as [|b l1 IH]; intros c; [done|]. cbn [app steps].
  destruct (ok c) eqn:E; [|simpl mbind; by rewrite steps_not_ok].
  destruct (step_bit c _); simpl mbind; [|done]. apply IH.
Qed.

Lemma land_bit byte i : 0 <= i -> Z.land (Z.shiftr byte i) 1 = Z.b2z (Z.testbit byte i).
Proof.
  intros Hi. change 1 with (Z.ones 1). rewrite Z.land_ones, Z.shiftr_div_pow2, Z.testbit_spec' by lia. done.
Qed.

Lemma step_octet_steps k byte c : step_octet_loop k byte c = steps (bits k byte) c.
Proof.
  revert c. induction k as [|k IH]; intros c; [done|]. cbn [step_octet_loop bits steps].
  rewrite land_bit by lia. destruct (ok c); [|done]. destruct (step_bit _ _); simpl mbind; [|done]. apply IH.
Qed.

Lemma feed_steps bs : forall pre post c,
  feed_loop (length bs) c (pre ++ bs ++ post) (zlen pre) = steps (concat (map octet_bits bs)) c.
Proof.
  induction bs as [|b bs IH]; intros pre post c; [done|]. cbn [length feed_loop map concat app].
  rewrite load_head by done. simpl mbind. rewrite steps_app. unfold step_octet.
  rewrite step_octet_steps. fold (octet_bits b). destruct (steps (octet_bits b) c); simpl mbind; [|done].
  replace (pre ++ b :: bs ++ post) with ((pre ++ [b]) ++ bs ++ post) by by rewrite <- app_assoc.
  replace (zlen pre + 1) with (zlen (pre ++ [b])) by by rewrite zlen_app. apply IH.
Qed.

Lemma feed_all src n c : 0 <= n <= zlen src ->
  feed c src n = steps (concat (map octet_bits (take (Z.to_nat n) src))) c.
Proof.
  intros Hn. unfold feed. pose proof (feed_steps (take (Z.to_nat n) src) [] (drop (Z.to_nat n) src) c) as Hf.
  simpl app in Hf. rewrite take_drop, length_take in Hf.
  replace (Z.to_nat n `min` length src)%nat with (Z.to_nat n) in Hf by (unfold zlen in *; lia). done.
Qed.

(** ** What an intact state stands for *)

Section Destination.
Context (dst : list Z) (dc : Z) (Hdc : 0 <= dc <= zlen dst) (Hobj : dc < max_object).

(** [c] has read the bits [l]: the codes of the bytes written so far, then the
    pending bits. *)
Definition reading (l : list bool) (c : hctx) : Prop :=
  exists bs p, l = concat (map huff_code bs) ++ p /\ Forall is_u8 bs /\ zlen bs <= dc /\ zlen p <= 30 /\
    c = Hctx (bits_value p) (zlen p) (splice dst 0 bs) dc (zlen bs) true.

Lemma reading_init : reading [] (Hctx 0 0 dst dc 0 true).
Proof. exists [], []. split_and!; try done. change (zlen []) with 0. lia. Qed.

Lemma put_sym_room bs a n s : zlen bs < dc -> is_u8 s ->
  put_sym (Hctx a n (splice dst 0 bs) dc (zlen bs) true) s =
  Some (Hctx a n (splice dst 0 (bs ++ [s])) dc (zlen (bs ++ [s])) true).
Proof.
  intros Hl Hs. pose proof (zlen_nonneg bs). unfold put_sym, is_u8 in *. cbn [dcap olen out]. zdecide. simpl orb.
  rewrite u8_id by (unfold is_u8; lia). rewrite store_ok by (rewrite zlen_splice; lia). simpl mbind.
  unwrap. unfold set_out. cbn [acc nbits dcap ok]. rewrite zlen_app. change (zlen [s]) with 1.
  rewrite insert_splice by (rewrite zlen_splice; lia).
  pose proof (splice_splice dst bs [s] 0) as Hsp. rewrite Z.add_0_l in Hsp. change (zlen [s]) with 1 in Hsp.
  by rewrite Hsp by lia.
Qed.

Lemma step_reading l b c : reading l c ->
  exists c', step_bit c (Z.b2z b) = Some c' /\ (ok c' = false \/ reading (l ++ [b]) c').
Proof.
  intros (bs & p & -> & Hbs & Hlen & Hp & ->).
  pose proof (step_bit_advance (Hctx (bits_value p) (zlen p) (splice dst 0 bs) dc (zlen bs) true) (Z.b2z b)) as Hs.
  cbn [acc nbits] in Hs. destruct (advance_spec p b Hp) as [Ha|[[Ha Hq]|(s & Ha & Hsr & Hc)]]; rewrite Ha in Hs.
  - destruct Hs as (c' & ? & ?). exists c'. auto.
  - eexists. split; [exact Hs|]. right. exists bs, (p ++ [b]). by rewrite <- app_assoc.
  - destruct (Z.leb_spec dc (zlen bs)) as [Hfull|Hroom].
    + rewrite Hs. unfold put_sym. cbn [dcap olen]. ztrue (dc <=? zlen bs). rewrite orb_true_r.
      eexists. split; [done|]. by left.
    + destruct (Z.eq_dec s 256) as [->|Hne]; [rewrite Hs; eexists; (split; [done|]); by left|].
      rewrite put_sym_room in Hs by (unfold is_u8; lia). eexists. split; [exact Hs|]. right.
      exists (bs ++ [s]), []. rewrite map_app, concat_app. simpl map. simpl concat. rewrite Hc, !app_nil_r, app_assoc.
      split_and!; try done; [|rewrite zlen_app; change (zlen [s]) with 1; lia].
      apply Forall_app; split; [done|]. repeat constructor; unfold is_u8; lia.
Qed.

Lemma steps_reading k : forall l c, reading l c ->
  exists c', steps k c = Some c' /\ (ok c' = false \/ reading (l ++ k) c').
Proof.
  induction k as [|b k IH]; intros l c Hc; cbn [steps].
  - exists c. rewrite app_nil_r. auto.
  - assert (Hok : ok c = true) by by destruct Hc as (? & ? & _ & _ & _ & _ & ->). rewrite Hok.
    destruct (step_reading l b c Hc) as (c' & -> & [Hno|Hr]); simpl mbind.
    + exists c'. rewrite steps_not_ok by done. auto.
    + destruct (IH _ _ Hr) as (c'' & ? & H). exists c''. by rewrite <- app_assoc in H.
Qed.

(** ** The encodings are accepted *)

Lemma run_code_steps l : forall a n c s, run_code l a n = Some s -> acc c = a -> nbits c = n -> ok c = true ->
  steps l c = (c' ← put_sym c s; Some (set_bits c' 0 0)).
Proof.
  induction l as [|b l IH]; intros a n c s Hr Ha Hn Hok; [done|]. cbn [run_code steps] in *. rewrite Hok.
  pose proof (step_bit_advance c (Z.b2z b)) as Hs. rewrite Ha, Hn in Hs.
  destruct (advance a n (Z.b2z b)) as [[a' n'|s'|]|]; [| |done|done].
  - rewrite Hs. simpl mbind. rewrite (IH _ _ (set_bits c a' n') s Hr) by done.
    unfold put_sym. cbn [dcap olen set_bits out]. destruct (_ || _); [done|]. by destruct (store _ _ _).
  - destruct l; [|done]. injection Hr as ->. rewrite Hs. by destruct (put_sym c s).
Qed.

Lemma run_more_steps l : forall a n a' n' c, run_more l a n = Some (a', n') -> acc c = a -> nbits c = n -> ok c = true ->
  steps l c = Some (set_bits c a' n').
Proof.
  induction l as [|b l IH]; intros a n a' n' c Hr Ha Hn Hok; cbn [run_more steps] in *.
  - injection Hr as <- <-. subst. by destruct c.
  - rewrite Hok. pose proof (step_bit_advance c (Z.b2z b)) as Hs. rewrite Ha, Hn in Hs.
    destruct (advance a n (Z.b2z b)) as [[a1 n1|s'|]|]; [|done..].
    rewrite Hs. simpl mbind. by rewrite (IH _ _ _ _ (set_bits c a1 n1) Hr).
Qed.

Lemma steps_codes bs : forall ds, Forall is_u8 bs -> zlen ds + zlen bs <= dc ->
  steps (concat (map huff_code bs)) (Hctx 0 0 (splice dst 0 ds) dc (zlen ds) true) =
  Some (Hctx 0 0 (splice dst 0 (ds ++ bs)) dc (zlen (ds ++ bs)) true).
Proof.
  induction bs as [|b bs IH]; intros ds Hb Hl; cbn [map concat].
  - by rewrite app_nil_r.
  - apply List.Forall_cons_iff in Hb as [Hb Hbs]. rewrite zlen_cons in Hl. pose proof (zlen_nonneg bs).
    rewrite steps_app. assert (Hrun : run_code (huff_code b) 0 0 = Some b).
    { by apply code_ok_at. }
    rewrite (run_code_steps _ _ _ _ _ Hrun) by done. rewrite put_sym_room by (done || lia). simpl mbind.
    unfold set_bits. cbn [out dcap olen ok].
    replace (ds ++ b :: bs) with ((ds ++ [b]) ++ bs) by by rewrite <- app_assoc.
    apply IH; [done|]. rewrite zlen_app. change (zlen [b]) with 1. lia.
Qed.

End Destination.

(** The padding check accepts exactly fewer than eight one bits. *)
Lemma pad_valid_ones p o d k g : zlen p <= 30 ->
  (pad_valid (Hctx (bits_value p) (zlen p) o d k g) = true <-> (length p < 8)%nat /\ p = repeat true (length p)).
Proof.
  intros Hp. unfold pad_valid. cbn [nbits acc]. pose proof (zlen_nonneg p).
  rewrite andb_true_iff, Z.ltb_lt. assert (Hl : zlen p < 8 <-> (length p < 8)%nat) by (unfold zlen; lia).
  rewrite Hl. apply and_iff_left. intros H8. rewrite Z.shiftl_1_l.
  assert (Hpow : 1 <= 2 ^ zlen p <= 2 ^ 7).
  { split; [pose proof (Z.pow_pos_nonneg 2 (zlen p)); lia|apply Z.pow_le_mono_r; unfold zlen; lia]. }
  change (2 ^ 7) with 128 in Hpow. unfold u32. rewrite !Z.mod_small by (rewrite ?Z.mod_small; lia).
  rewrite orb_true_iff, !Z.eqb_eq. change (zlen p) with (Z.of_nat (length p)).
  rewrite <- bits_value_ones. split.
  - intros [Hz|Hv]; [by destruct p|]. apply bits_value_inj; [by rewrite repeat_length|done].
  - intros ->. rewrite !repeat_length. by right.
Qed.

(** * Properties *)

Lemma huffman_decode_runs src n dst dc : 0 <= n <= zlen src ->
  quic_qpack_huffman_decode src n dst dc =
  (c ← steps (concat (map octet_bits (take (Z.to_nat n) src))) (Hctx 0 0 dst dc 0 true);
   Some (if decode_ok c then Some (out c, olen c) else None)).
Proof. intros Hn. unfold quic_qpack_huffman_decode. by rewrite feed_all. Qed.

Lemma huffman_sound src n dst dc : 0 <= n <= zlen src -> 0 <= dc <= zlen dst -> dc < max_object ->
  exists r, quic_qpack_huffman_decode src n dst dc = Some r /\
    forall dst' k, r = Some (dst', k) -> exists bs, Forall is_u8 bs /\ k = zlen bs /\ zlen bs <= dc /\
      dst' = splice dst 0 bs /\ huff_encoding (take (Z.to_nat n) src) bs.
Proof.
  intros Hn Hdc Ho. rewrite huffman_decode_runs by done.
  destruct (steps_reading dst dc Hdc Ho (concat (map octet_bits (take (Z.to_nat n) src))) []
    _ (reading_init dst dc Hdc)) as (c & -> & Hc). simpl mbind. eexists. split; [done|].
  intros dst' k Hr. destruct (decode_ok c) eqn:E; [|done]. injection Hr as <- <-.
  unfold decode_ok in E. apply andb_true_iff in E as [Hok Hpad]. destruct Hc as [Hc|Hc]; [by rewrite Hc in Hok|].
  destruct Hc as (bs & p & Hl & Hbs & Hlen & Hp & ->). apply pad_valid_ones in Hpad as [Hp8 Hones]; [|done].
  exists bs. split_and!; try done. exists (length p). simpl app in Hl. by rewrite <- Hones.
Qed.

Lemma huffman_complete src n dst dc bs : 0 <= n <= zlen src -> 0 <= dc <= zlen dst -> dc < max_object ->
  Forall is_u8 bs -> zlen bs <= dc -> huff_encoding (take (Z.to_nat n) src) bs ->
  quic_qpack_huffman_decode src n dst dc = Some (Some (splice dst 0 bs, zlen bs)).
Proof.
  intros Hn Hdc Ho Hb Hl (k & Hk & He). rewrite huffman_decode_runs, He, steps_app by done.
  pose proof (steps_codes dst dc Hdc Ho bs [] Hb) as Hs. change (zlen (@nil Z)) with 0 in Hs.
  rewrite splice_nil in Hs. rewrite Hs by lia. simpl app. simpl mbind.
  rewrite (run_more_steps _ _ _ _ _ _ (run_more_ones k Hk)) by done. simpl mbind.
  unfold decode_ok, set_bits. cbn [out dcap olen ok]. rewrite andb_true_l.
  replace (2 ^ Z.of_nat k - 1) with (bits_value (repeat true k)) by apply bits_value_ones.
  replace (Z.of_nat k) with (zlen (repeat true k)) by (unfold zlen; by rewrite repeat_length).
  rewrite (proj2 (pad_valid_ones (repeat true k) (splice dst 0 bs) dc (zlen bs) true
    ltac:(unfold zlen; rewrite repeat_length; lia))); [done|].
  by rewrite repeat_length.
Qed.

(** C15: [quic_qpack_huffman_decode] is the inverse of the Huffman code of RFC 7541
    Appendix B: on any input and any destination it stays inside both arrays,
    and it returns bytes exactly when the input is the concatenation of their
    codes followed by fewer than eight one bits and they fit in the destination. *)
Theorem huffman_exact src n dst dc :
  0 <= n <= zlen src -> 0 <= dc <= zlen dst -> dc < max_object ->
  exists r, quic_qpack_huffman_decode src n dst dc = Some r /\
    forall dst' k, r = Some (dst', k) <->
      exists bs, Forall is_u8 bs /\ k = zlen bs /\ zlen bs <= dc /\ dst' = splice dst 0 bs /\
        huff_encoding (take (Z.to_nat n) src) bs.
Proof.
  intros Hn Hdc Ho. destruct (huffman_sound src n dst dc Hn Hdc Ho) as (r & Hr & Hs).
  exists r. split; [done|]. intros dst' k. split; [apply Hs|].
  intros (bs & Hb & -> & Hl & -> & He).
  pose proof (huffman_complete src n dst dc bs Hn Hdc Ho Hb Hl He) as Hc. congruence.
Qed.

(** Witness of C15: ["no-cache"], the example of RFC 7541 section C.4.2. *)
Lemma huffman_exact_witness :
  exists r, quic_qpack_huffman_decode [0xa8; 0xeb; 0x10; 0x64; 0x9c; 0xbf] 6 (repeat 0 8) 8 = Some r /\
    forall dst' k, r = Some (dst', k) <->
      exists bs, Forall is_u8 bs /\ k = zlen bs /\ zlen bs <= 8 /\ dst' = splice (repeat 0 8) 0 bs /\
        huff_encoding [0xa8; 0xeb; 0x10; 0x64; 0x9c; 0xbf] bs.
Proof.
  exact (huffman_exact [0xa8; 0xeb; 0x10; 0x64; 0x9c; 0xbf] 6 (repeat 0 8) 8
    ltac:(closed_arith) ltac:(closed_arith) ltac:(closed_arith)).
Defined.

Example huffman_no_cache :
  quic_qpack_huffman_decode [0xa8; 0xeb; 0x10; 0x64; 0x9c; 0xbf] 6 (repeat 0 8) 8 =
  Some (Some ([110; 111; 45; 99; 97; 99; 104; 101], 8)).
Proof. by vm_compute. Qed.

(** The code determines the bytes: two encodings of one input are equal. *)
Lemma huff_encoding_unique src b1 b2 : Forall is_u8 b1 -> Forall is_u8 b2 ->
  zlen b1 < max_object -> zlen b2 < max_object ->
  huff_encoding src b1 -> huff_encoding src b2 -> b1 = b2.
Proof.
  intros H1 H2 L1 L2 E1 E2. set (m := Z.max (zlen b1) (zlen b2)).
  assert (Hm : zlen (repeat 0 (Z.to_nat m)) = m).
  { unfold zlen. rewrite repeat_length. pose proof (zlen_nonneg b1). lia. }
  pose proof (zlen_nonneg b1). pose proof (zlen_nonneg src).
  assert (Ht : take (Z.to_nat (zlen src)) src = src) by (unfold zlen; by rewrite Nat2Z.id, firstn_all).
  rewrite <- Ht in E1, E2.
  pose proof (huffman_complete src (zlen src) (repeat 0 (Z.to_nat m)) m b1) as C1.
  pose proof (huffman_complete src (zlen src) (repeat 0 (Z.to_nat m)) m b2) as C2.
  rewrite C1 in C2 by (done || lia). specialize (C2 ltac:(lia) ltac:(lia) ltac:(lia) H2 ltac:(lia) E2).
  injection C2 as Hs Hl. rewrite <- (take_splice_front (repeat 0 (Z.to_nat m)) b1), Hs, Hl.
  apply take_splice_front.
Qed.
