(* ===== verification/QpackString.v ===== *)
(** QPACK string literals and the field lines that carry them.

    [app/qpack/qpack/string.c] and [literal.c], and the Insert With Literal Name
    instruction of [app/qpack/qpackdyn/insert_encode.c].  A decoder that fills a
    destination array returns the array and the length written; what it leaves
    in the array when it returns 0 is not part of the model. *)
From S2P Require Import Prelude.
From S2P Require Import Buffers.
From S2P Require Import QpackInt.
From S2P Require Import Huffman.

(** * string.c *)

Definition QPACK_STR_HUFFMAN : Z := 0x80.

Definition quic_qpack_string_encode (src : list Z) (len : Z) : list Z -> Z -> option (Z * list Z) :=
  enc_then (quic_qpack_int_encode 7 0 len) (quic_put_bytes src len).

(** The length and the H flag. *)
Definition take_header : dec (Z * bool) :=
  dec_first (fun _ => true) (fun b0 =>
    dec_map (fun v => (v, flag b0 QPACK_STR_HUFFMAN)) (quic_qpack_int_decode 7)).

(** A filled destination: the array and the length written. *)
Definition str_raw (buf : list Z) (n off : Z) (dst : list Z) (dcap len : Z) : option (option (list Z * Z)) :=
  if dcap <? len then Some None
  else match quic_take_bytes dst len buf n off with
       | None => None
       | Some (None, _) => Some None
       | Some (Some dst', _) => Some (Some (dst', len))
       end.

Definition str_value (buf : list Z) (n off : Z) (huff : bool) (dst : list Z) (dcap len : Z)
  : option (option (list Z * Z)) :=
  if n <? off +w len then Some None
  else if huff then quic_qpack_huffman_decode (drop (Z.to_nat off) buf) len dst dcap
  else str_raw buf n off dst dcap len.

(** [d] reads a length and an H flag, then the octets follow. *)
Definition dec_octets
    (value : list Z -> Z -> Z -> bool -> list Z -> Z -> Z -> option (option (list Z * Z)))
    (d : dec (Z * bool)) (dst : list Z) (dcap : Z) : dec (list Z * Z) := fun buf n =>
  match d buf n with
  | None => None
  | Some None => Some None
  | Some (Some ((len, huff), off)) =>
      match value buf n off huff dst dcap len with
      | None => None
      | Some None => Some None
      | Some (Some v) => Some (Some (v, off +w len))
      end
  end.

Definition quic_qpack_string_decode (dst : list Z) (dcap : Z) : dec (list Z * Z) :=
  dec_octets str_value take_header dst dcap.

(** * literal.c *)

Definition QPACK_NAMREF : Z := 0x40.
Definition QPACK_NAMREF_N : Z := 0x20.
Definition QPACK_NAMREF_T : Z := 0x10.
Definition QPACK_LITNAME : Z := 0x20.
Definition QPACK_LITNAME_N : Z := 0x10.
Definition QPACK_LITNAME_H : Z := 0x08.

Definition bit (set : bool) (mask : Z) : Z := if set then mask else 0.

Definition namref_prefix (is_static never : bool) : Z :=
  Z.lor (Z.lor QPACK_NAMREF (bit never QPACK_NAMREF_N)) (bit is_static QPACK_NAMREF_T).

Definition quic_qpack_literal_namref_encode (index : Z) (is_static never : bool) (value : list Z) (vlen : Z)
  : list Z -> Z -> option (Z * list Z) :=
  enc_then (quic_qpack_int_encode 4 (namref_prefix is_static never) index)
    (emit_at (quic_qpack_string_encode value vlen)).

Definition is_namref (b0 : Z) : bool := Z.land b0 0xc0 =? QPACK_NAMREF.

(** A field line with a name reference: index, T, N and the value. *)
Record namref := Namref { nr_index : Z; nr_static : bool; nr_never : bool; nr_value : list Z * Z }.

Definition quic_qpack_literal_namref_decode (val : list Z) (vcap : Z) : dec namref :=
  dec_first is_namref (fun b0 =>
    dec_join (quic_qpack_int_decode 4) (fun index =>
      dec_map (Namref index (flag b0 QPACK_NAMREF_T) (flag b0 QPACK_NAMREF_N))
        (quic_qpack_string_decode val vcap))).

Definition litname_name_encode (never : bool) (name : list Z) (nlen : Z) : list Z -> Z -> option (Z * list Z) :=
  enc_then (quic_qpack_int_encode 3 (Z.lor QPACK_LITNAME (bit never QPACK_LITNAME_N)) nlen)
    (quic_put_bytes name nlen).

Definition quic_qpack_literal_name_encode (never : bool) (name : list Z) (nlen : Z) (value : list Z) (vlen : Z)
  : list Z -> Z -> option (Z * list Z) :=
  enc_then (litname_name_encode never name nlen) (emit_at (quic_qpack_string_encode value vlen)).

Definition is_litname (b0 : Z) : bool := Z.land b0 0xe0 =? QPACK_LITNAME.

Definition name_raw (buf : list Z) (n off : Z) (nm : list Z) (ncap len : Z) : option (option (list Z * Z)) :=
  if ncap <? len then Some None
  else match quic_take_bytes nm len buf n off with
       | None => None
       | Some (None, _) => Some None
       | Some (Some nm', _) => Some (Some (nm', len))
       end.

Definition name_octets (buf : list Z) (n off : Z) (huff : bool) (nm : list Z) (ncap len : Z)
  : option (option (list Z * Z)) :=
  if n <? off +w len then Some None
  else if huff then quic_qpack_huffman_decode (drop (Z.to_nat off) buf) len nm ncap
  else name_raw buf n off nm ncap len.

Definition litname_name_decode (huff : bool) (nm : list Z) (ncap : Z) : dec (list Z * Z) :=
  dec_octets name_octets (dec_map (fun len => (len, huff)) (quic_qpack_int_decode 3)) nm ncap.

Record litname := Litname { ln_never : bool; ln_name : list Z * Z; ln_value : list Z * Z }.

Definition quic_qpack_literal_name_decode (nm : list Z) (ncap : Z) (val : list Z) (vcap : Z) : dec litname :=
  dec_first is_litname (fun b0 =>
    dec_join (litname_name_decode (flag b0 QPACK_LITNAME_H) nm ncap) (fun name =>
      dec_map (Litname (flag b0 QPACK_LITNAME_N) name) (quic_qpack_string_decode val vcap))).

(** * insert_encode.c *)

Definition QPACK_INSERT_LITNAME : Z := 0x40.

Definition encode_name (name : list Z) (name_len : Z) : list Z -> Z -> option (Z * list Z) :=
  enc_then (quic_qpack_int_encode 5 QPACK_INSERT_LITNAME name_len) (quic_put_bytes name name_len).

Definition quic_qdyn_insert_literal (name : list Z) (name_len : Z) (value : list Z) (value_len : Z)
  : list Z -> Z -> option (Z * list Z) :=
  enc_then (encode_name name name_len) (emit_at (quic_qpack_string_encode value value_len)).

(** * Wire images *)

(** [hdr] announces [w] octets, which are [bs] either raw or Huffman coded. *)
Definition octets_of (huff : bool) (w bs : list Z) : Prop := if huff then huff_encoding w bs else w = bs.

Definition string_bytes (huff : bool) (w : list Z) : list Z := int_bytes 7 (bit huff QPACK_STR_HUFFMAN) (zlen w) ++ w.

Definition namref_bytes (index : Z) (is_static never : bool) (sv : list Z) : list Z :=
  int_bytes 4 (namref_prefix is_static never) index ++ sv.

Definition litname_prefix (never huff : bool) : Z :=
  Z.lor (Z.lor QPACK_LITNAME (bit never QPACK_LITNAME_N)) (bit huff QPACK_LITNAME_H).

Definition litname_bytes (never huff : bool) (w sv : list Z) : list Z :=
  (int_bytes 3 (litname_prefix never huff) (zlen w) ++ w) ++ sv.

(** ** Encoders *)

Lemma string_encodes_front src k : 0 <= k <= zlen src -> k < max_object ->
  Encodes (quic_qpack_string_encode src k) (string_bytes false (take (Z.to_nat k) src)).
Proof.
  intros Hk Ho. assert (Hz : zlen (take (Z.to_nat k) src) = k) by (unfold zlen in *; rewrite length_take; lia).
  unfold string_bytes. rewrite Hz. apply encodes_then.
  - apply int_encodes; [lia|]. unfold is_u64, max_object in *. lia.
  - apply zlen_int_bytes.
  - by apply writes_put_bytes.
Qed.

Lemma string_encodes src : zlen src < max_object ->
  Encodes (quic_qpack_string_encode src (zlen src)) (string_bytes false src).
Proof.
  intros Hs. pose proof (zlen_nonneg src).
  pose proof (string_encodes_front src (zlen src) ltac:(lia) Hs) as H0.
  unfold zlen in H0 at 2. by rewrite Nat2Z.id, firstn_all in H0.
Qed.

Lemma zlen_string_bytes h w : 0 < zlen (string_bytes h w).
Proof. unfold string_bytes. rewrite zlen_app. pose proof (zlen_int_bytes 7 (bit h QPACK_STR_HUFFMAN) (zlen w)). pose proof (zlen_nonneg w). lia. Qed.

Lemma namref_encodes_front index is_static never value k : is_u64 index -> 0 <= k <= zlen value -> k < max_object ->
  Encodes (quic_qpack_literal_namref_encode index is_static never value k)
    (namref_bytes index is_static never (string_bytes false (take (Z.to_nat k) value))).
Proof.
  intros Hi Hk Hv. apply encodes_then; [by apply int_encodes|apply zlen_int_bytes|].
  apply writes_emit_at; [by apply string_encodes_front|apply zlen_string_bytes].
Qed.

Lemma namref_encodes index is_static never value : is_u64 index -> zlen value < max_object ->
  Encodes (quic_qpack_literal_namref_encode index is_static never value (zlen value))
    (namref_bytes index is_static never (string_bytes false value)).
Proof.
  intros Hi Hv. pose proof (zlen_nonneg value).
  pose proof (namref_encodes_front index is_static never value (zlen value) Hi ltac:(lia) Hv) as H0.
  unfold zlen in H0 at 2. by rewrite Nat2Z.id, firstn_all in H0.
Qed.

(** A length in an [N]-bit prefix, then the octets. *)
Lemma name_encodes bits pv name : 1 <= bits <= 8 -> zlen name < max_object ->
  Encodes (enc_then (quic_qpack_int_encode bits pv (zlen name)) (quic_put_bytes name (zlen name)))
    (int_bytes bits pv (zlen name) ++ name).
Proof.
  intros Hb Hn. pose proof (zlen_nonneg name). apply encodes_then.
  - apply int_encodes; [done|]. unfold is_u64, max_object in *. lia.
  - apply zlen_int_bytes.
  - by apply writes_put_bytes_all.
Qed.

Lemma zlen_name_bytes bits pv v w : 0 < zlen (int_bytes bits pv v ++ w).
Proof. rewrite zlen_app. pose proof (zlen_int_bytes bits pv v). pose proof (zlen_nonneg w). lia. Qed.

Lemma litname_encodes never name value : zlen name < max_object -> zlen value < max_object ->
  Encodes (quic_qpack_literal_name_encode never name (zlen name) value (zlen value))
    (litname_bytes never false name (string_bytes false value)).
Proof.
  intros Hn Hv. apply encodes_then; [|apply zlen_name_bytes|].
  - unfold litname_prefix. simpl bit. rewrite Z.lor_0_r. apply name_encodes; [lia|done].
  - apply writes_emit_at; [by apply string_encodes|apply zlen_string_bytes].
Qed.

(** ** Decoders *)

Lemma octets_decodes d hdr w huff bs dst dcap :
  Decodes d hdr (zlen w, huff) -> octets_of huff w bs -> Forall is_u8 bs ->
  zlen bs <= dcap -> dcap <= zlen dst -> dcap < max_object -> zlen w < max_object ->
  Decodes (dec_octets str_value d dst dcap) (hdr ++ w) (splice dst 0 bs, zlen bs).
Proof.
  intros Hd Hw Hbs Hl Hc Ho Hwo post n Hn Hno. unfold dec_octets. rewrite <- app_assoc in *.
  pose proof (zlen_nonneg hdr). pose proof (zlen_nonneg w). pose proof (zlen_nonneg bs).
  rewrite (Hd (w ++ post) n Hn Hno), zlen_app.
  destruct (Z.leb_spec (zlen hdr) n); [|by zdecide]. unfold str_value. unwrap.
  destruct (Z.leb_spec (zlen hdr + zlen w) n); zdecide; [|done]. destruct huff; simpl in Hw.
  - unfold zlen at 1. rewrite Nat2Z.id, drop_app_length.
    rewrite (huffman_complete (w ++ post) (zlen w) dst dcap bs); [by unwrap|..]; try done; try lia.
    + rewrite zlen_app. pose proof (zlen_nonneg post). lia.
    + unfold zlen. by rewrite Nat2Z.id, take_app_length.
  - subst w. unfold str_raw. zdecide.
    pose proof (reads_take_bytes dst bs ltac:(lia) ltac:(lia) hdr post n ltac:(lia) ltac:(lia) Hno) as Hr.
    revert Hr. zdecide. intros ->. by unwrap.
Qed.

Lemma take_groups_used f : forall value m buf n off v off',
  is_u64 (off + Z.of_nat f) -> 0 <= off ->
  take_groups_loop f value m buf n off = Some (Some v, off') -> off' <= off + Z.of_nat f.
Proof.
  induction f as [|f IH]; intros value m buf n off v off' Hu Ho; [done|]. cbn [take_groups_loop].
  unfold rd_bind, take_group. destruct (_ || _); [done|]. destruct (load buf off) as [b|]; [|done]. cbn [fst snd].
  rewrite (u64_id (off + 1)) by (unfold is_u64 in *; lia). destruct (negb _).
  - intros H. apply IH in H; [lia|unfold is_u64 in *; lia|lia].
  - intros [= <- <-]. lia.
Qed.

(** A prefixed integer is at most eleven bytes. *)
Lemma int_decode_used bits buf n v used :
  quic_qpack_int_decode bits buf n = Some (Some (v, used)) -> used <= 11.
Proof.
  unfold quic_qpack_int_decode. destruct (n =? 0); [done|]. destruct (load buf 0) as [b0|]; [|done].
  unfold decode_from, decode_body. destruct (_ <? _); [intros [= <- <-]; lia|].
  destruct (take_groups _ buf n 1) as [[[v'|] off']|] eqn:E; [|done|done]. intros [= <- <-].
  apply take_groups_used in E; [lia|unfold is_u64; lia|lia].
Qed.

(** What a filled destination looks like. *)
Definition filled (dst : list Z) (dcap : Z) (v : list Z * Z) : Prop :=
  exists bs, v = (splice dst 0 bs, zlen bs) /\ Forall is_u8 bs /\ zlen bs <= dcap.

Lemma safedec_octets d dst dcap :
  SafeDec d (fun r => 0 <= fst r < 255 + 2 ^ 63) ->
  (forall buf n r used, d buf n = Some (Some (r, used)) -> used <= 11) ->
  0 <= dcap <= zlen dst -> dcap < max_object ->
  SafeDec (dec_octets str_value d dst dcap) (filled dst dcap).
Proof.
  intros Hd Hu Hc Ho buf n Hb Hn Hno. unfold dec_octets.
  destruct (Hd buf n Hb Hn Hno) as ([[[len huff] off]|] & Hd' & HQ); rewrite Hd'; [|by exists None].
  destruct (HQ _ _ eq_refl) as [Hlen Hoff]. apply Hu in Hd'. cbn [fst] in Hlen.
  change (2 ^ 63) with 9223372036854775808 in Hlen. unfold str_value. unwrap.
  destruct (Z.ltb_spec n (off + len)); [by exists None|].
  assert (Hdrop : zlen (drop (Z.to_nat off) buf) = zlen buf - off) by (unfold zlen in *; rewrite length_drop; lia).
  destruct huff.
  - destruct (huffman_sound (drop (Z.to_nat off) buf) len dst dcap ltac:(lia) Hc Ho) as ([[d' k]|] & -> & Hr).
    + destruct (Hr _ _ eq_refl) as (bs & Hbs & -> & Hl & -> & _). unwrap. eexists. split; [done|].
      intros ? ? [= <- <-]. split; [by exists bs|lia].
    + by exists None.
  - unfold str_raw. destruct (Z.ltb_spec dcap len); [by exists None|]. unfold quic_take_bytes. unwrap. zdecide.
    rewrite copy_loop_len by lia. rewrite Z2Nat.id by lia. unwrap. eexists. split; [done|].
    intros ? ? [= <- <-]. assert (Hs : zlen (slice buf off len) = len) by (apply zlen_slice; lia).
    split; [|lia]. exists (slice buf off len). rewrite Hs. split_and!; try done.
    unfold slice. by apply Forall_take, Forall_drop.
Qed.

Lemma header_decodes huff (w : list Z) : zlen w < max_object ->
  Decodes take_header (int_bytes 7 (bit huff QPACK_STR_HUFFMAN) (zlen w)) (zlen w, huff).
Proof.
  intros Hw. pose proof (zlen_nonneg w). apply decodes_first_int; [lia| |by destruct huff|].
  - change (pmax_of 7) with 127. unfold max_object in Hw. change (2 ^ 63) with 9223372036854775808. lia.
  - intros x Hx. split; [done|]. f_equal.
    pose proof (nat_range_forall (fun x => Bool.eqb (flag (Z.lor (bit huff QPACK_STR_HUFFMAN) x) QPACK_STR_HUFFMAN) huff) 128) as Hn.
    by apply eqb_prop, Hn; [destruct huff; vm_compute|].
Qed.

Lemma string_decodes huff w bs dst dcap : octets_of huff w bs -> Forall is_u8 bs ->
  zlen bs <= dcap -> dcap <= zlen dst -> dcap < max_object -> zlen w < max_object ->
  Decodes (quic_qpack_string_decode dst dcap) (string_bytes huff w) (splice dst 0 bs, zlen bs).
Proof. intros. by eapply octets_decodes; [apply header_decodes|..]. Qed.

Lemma safedec_string dst dcap : 0 <= dcap <= zlen dst -> dcap < max_object ->
  SafeDec (quic_qpack_string_decode dst dcap) (filled dst dcap).
Proof.
  intros. apply safedec_octets; try done.
  - apply safedec_first. intros b0 _ _. by eapply safedec_map; [apply safedec_int; lia|].
  - intros buf n r used. unfold take_header, dec_first, dec_map.
    destruct (first_byte _ buf n) as [[b0|]|]; [|done|done].
    destruct (quic_qpack_int_decode 7 buf n) as [[[v u]|]|] eqn:E; [|done|done].
    intros [= <- <-]. by apply int_decode_used in E.
Qed.

(** A representation: the first byte is tested, an integer follows, then [e]. *)
Lemma decodes_first_join {A} test bits pv v (e : Z -> Z -> dec A) b2 a :
  1 <= bits <= 8 -> 0 <= v < pmax_of bits + 2 ^ 63 -> Z.land pv (pmax_of bits) = 0 ->
  (forall x, 0 <= x < 2 ^ bits -> test (Z.lor pv x) = true /\ Decodes (e (Z.lor pv x) v) b2 a) ->
  Decodes (dec_first test (fun b0 => dec_join (quic_qpack_int_decode bits) (e b0))) (int_bytes bits pv v ++ b2) a.
Proof.
  intros Hb Hv Hpv He. pose proof (int_decodes bits pv v Hb Hpv Hv) as Hd.
  destruct (int_bytes_head bits pv v Hb) as (x & l & Hx & Hr); [lia|]. rewrite Hx in *.
  destruct (He x) as [H1 H2]; [unfold pmax_of in Hr; lia|].
  apply decodes_first; [done|]. exact (decodes_join _ (e (Z.lor pv x)) (Z.lor pv x :: l) b2 v a Hd H2).
Qed.

Lemma namref_decodes index is_static never huff w bs val vcap :
  0 <= index < 2 ^ 63 -> octets_of huff w bs -> Forall is_u8 bs ->
  zlen bs <= vcap -> vcap <= zlen val -> vcap < max_object -> zlen w < max_object ->
  Decodes (quic_qpack_literal_namref_decode val vcap)
    (namref_bytes index is_static never (string_bytes huff w))
    (Namref index is_static never (splice val 0 bs, zlen bs)).
Proof.
  intros Hi Hw Hbs H1 H2 H3 H4. unfold quic_qpack_literal_namref_decode, namref_bytes.
  apply (decodes_first_join is_namref 4 _ _ (fun b0 index => dec_map _ (quic_qpack_string_decode val vcap)));
    [lia|change (pmax_of 4) with 15; lia|by destruct is_static, never|].
  intros x Hx. change (2 ^ 4) with (Z.of_nat 16) in Hx.
  pose proof (nat_range_forall (fun x => let b := Z.lor (namref_prefix is_static never) x in is_namref b &&
    Bool.eqb (flag b QPACK_NAMREF_T) is_static && Bool.eqb (flag b QPACK_NAMREF_N) never) 16) as Hn.
  specialize (Hn ltac:(by destruct is_static, never; vm_compute) x Hx). cbv zeta in Hn.
  apply andb_true_iff in Hn as [Hn ->%eqb_prop]. apply andb_true_iff in Hn as [-> ->%eqb_prop].
  split; [done|]. by apply decodes_map, string_decodes.
Qed.

Lemma litname_decodes never hn wn name hv wv value nm ncap val vcap :
  octets_of hn wn name -> Forall is_u8 name -> zlen name <= ncap -> ncap <= zlen nm -> ncap < max_object ->
  zlen wn < max_object ->
  octets_of hv wv value -> Forall is_u8 value -> zlen value <= vcap -> vcap <= zlen val -> vcap < max_object ->
  zlen wv < max_object ->
  Decodes (quic_qpack_literal_name_decode nm ncap val vcap)
    (litname_bytes never hn wn (string_bytes hv wv))
    (Litname never (splice nm 0 name, zlen name) (splice val 0 value, zlen value)).
Proof.
  intros N1 N2 N3 N4 N5 N6 V1 V2 V3 V4 V5 V6. unfold litname_bytes. pose proof (zlen_nonneg wn).
  assert (Hd : Decodes (quic_qpack_int_decode 3) (int_bytes 3 (litname_prefix never hn) (zlen wn)) (zlen wn)).
  { apply int_decodes; [lia|by destruct never, hn|]. change (pmax_of 3) with 7. unfold max_object in *.
    change (2 ^ 63) with 9223372036854775808. lia. }
  destruct (int_bytes_head 3 (litname_prefix never hn) (zlen wn)) as (x & l & Hx & Hr); [lia..|].
  change (pmax_of 3) with 7 in Hr. rewrite Hx in *.
  pose proof (nat_range_forall (fun x => let b := Z.lor (litname_prefix never hn) x in is_litname b &&
    Bool.eqb (flag b QPACK_LITNAME_H) hn && Bool.eqb (flag b QPACK_LITNAME_N) never) 8) as Hn.
  specialize (Hn ltac:(by destruct never, hn; vm_compute) x ltac:(lia)). cbv zeta in Hn.
  apply andb_true_iff in Hn as [Hn HN%eqb_prop]. apply andb_true_iff in Hn as [Ht HH%eqb_prop].
  apply decodes_first; [done|]. rewrite HN, HH.
  change (?b :: ?t) with ((((b :: l) ++ wn) ++ string_bytes hv wv)). eapply decodes_join.
  - apply (octets_decodes _ _ wn hn name nm ncap); [|done..].
    exact (decodes_map (fun len => (len, hn)) _ _ _ Hd).
  - by apply decodes_map, string_decodes.
Qed.

Lemma safedec_namref val vcap : 0 <= vcap <= zlen val -> vcap < max_object ->
  SafeDec (quic_qpack_literal_namref_decode val vcap)
    (fun r => 0 <= nr_index r < 255 + 2 ^ 63 /\ filled val vcap (nr_value r)).
Proof.
  intros Hv Ho. apply safedec_first. intros b0 _ _. eapply safedec_join; [apply safedec_int; lia|].
  intros index Hi. eapply safedec_map; [by apply safedec_string|]. by intros.
Qed.

Lemma safedec_litname nm ncap val vcap :
  0 <= ncap <= zlen nm -> ncap < max_object -> 0 <= vcap <= zlen val -> vcap < max_object ->
  SafeDec (quic_qpack_literal_name_decode nm ncap val vcap)
    (fun r => filled nm ncap (ln_name r) /\ filled val vcap (ln_value r)).
Proof.
  intros Hn Hno Hv Ho. apply safedec_first. intros b0 _ _. eapply safedec_join.
  - apply (safedec_octets (dec_map _ (quic_qpack_int_decode 3)) nm ncap); try done.
    + by eapply safedec_map; [apply safedec_int; lia|].
    + intros buf n r used. unfold dec_map.
      destruct (quic_qpack_int_decode 3 buf n) as [[[v u]|]|] eqn:E; [|done|done].
      intros [= <- <-]. by apply int_decode_used in E.
  - intros name Hname. eapply safedec_map; [by apply safedec_string|]. by intros.
Qed.

(** The encoder-stream instruction: its first integer is the name length of an
    Insert With Literal Name, then the name octets and the value. *)
Lemma insert_literal_spec name value : zlen name < max_object -> zlen value < max_object ->
  exists hdr, Encodes (quic_qdyn_insert_literal name (zlen name) value (zlen value))
      ((hdr ++ name) ++ string_bytes false value) /\
    Decodes quic_qpack_enc_instr_decode hdr (QUIC_QPACK_ENC_INSERT_LITERAL, zlen name).
Proof.
  intros Hn Hv. pose proof (zlen_nonneg name). exists (int_bytes 5 QPACK_INSERT_LITNAME (zlen name)). split.
  - apply encodes_then; [apply name_encodes; [lia|done]|apply zlen_name_bytes|].
    apply writes_emit_at; [by apply string_encodes|apply zlen_string_bytes].
  - pose proof (instr_decodes enc_specs 2 (Ispec 0x40 0xc0 5) (zlen name)) as Hi.
    specialize (Hi ltac:(by vm_compute) eq_refl ltac:(cbn; lia) eq_refl).
    unfold max_object in Hn. specialize (Hi ltac:(change (2 ^ 63) with 9223372036854775808; lia)).
    exact (decodes_map (fun kv : nat * Z => (enc_cast (fst kv), snd kv)) _ _ _ Hi).
Qed.
