(* ===== verification/QpackTable.v ===== *)
(** The QPACK tables and the references into them.

    [app/qpack/qpack/static_table.c], [dyntable.c], [dynget.c], [dynfind.c],
    [insertcount.c], [relindex.c] and [base.c], and the references of
    [app/qpack/qpackdyn].  The dynamic table is a ring of 64 slots; its abstract
    specification is the list of live entries, oldest first, with the number of
    entries dropped before them. *)
From Stdlib Require Import Ascii String.
From S2P Require Import Prelude.
From S2P Require Import Buffers.
From S2P Require Import CStrings.
From S2P Require Import QpackInt.

(** * static_table.c *)

Definition QUIC_QPACK_STATIC_COUNT : Z := 99.

Definition table_rows : list (string * string) :=
  [(":authority", EmptyString);
   (":path", "/");
   ("age", "0");
   ("content-disposition", EmptyString);
   ("content-length", "0");
   ("cookie", EmptyString);
   ("date", EmptyString);
   ("etag", EmptyString);
   ("if-modified-since", EmptyString);
   ("if-none-match", EmptyString);
   ("last-modified", EmptyString);
   ("link", EmptyString);
   ("location", EmptyString);
   ("referer", EmptyString);
   ("set-cookie", EmptyString);
   (":method", "CONNECT");
   (":method", "DELETE");
   (":method", "GET");
   (":method", "HEAD");
   (":method", "OPTIONS");
   (":method", "POST");
   (":method", "PUT");
   (":scheme", "http");
   (":scheme", "https");
   (":status", "103");
   (":status", "200");
   (":status", "304");
   (":status", "404");
   (":status", "503");
   ("accept", "*/*");
   ("accept", "application/dns-message");
   ("accept-encoding", "gzip, deflate, br");
   ("accept-ranges", "bytes");
   ("access-control-allow-headers", "cache-control");
   ("access-control-allow-headers", "content-type");
   ("access-control-allow-origin", "*");
   ("cache-control", "max-age=0");
   ("cache-control", "max-age=2592000");
   ("cache-control", "max-age=604800");
   ("cache-control", "no-cache");
   ("cache-control", "no-store");
   ("cache-control", "public, max-age=31536000");
   ("content-encoding", "br");
   ("content-encoding", "gzip");
   ("content-type", "application/dns-message");
   ("content-type", "application/javascript");
   ("content-type", "application/json");
   ("content-type", "application/x-www-form-urlencoded");
   ("content-type", "image/gif");
   ("content-type", "image/jpeg");
   ("content-type", "image/png");
   ("content-type", "text/css");
   ("content-type", "text/html; charset=utf-8");
   ("content-type", "text/plain");
   ("content-type", "text/plain;charset=utf-8");
   ("range", "bytes=0-");
   ("strict-transport-security", "max-age=31536000");
   ("strict-transport-security", "max-age=31536000; includesubdomains");
   ("strict-transport-security", "max-age=31536000; includesubdomains; preload");
   ("vary", "accept-encoding");
   ("vary", "origin");
   ("x-content-type-options", "nosniff");
   ("x-xss-protection", "1; mode=block");
   (":status", "100");
   (":status", "204");
   (":status", "206");
   (":status", "302");
   (":status", "400");
   (":status", "403");
   (":status", "421");
   (":status", "425");
   (":status", "500");
   ("accept-language", EmptyString);
   ("access-control-allow-credentials", "FALSE");
   ("access-control-allow-credentials", "TRUE");
   ("access-control-allow-headers", "*");
   ("access-control-allow-methods", "get");
   ("access-control-allow-methods", "get, post, options");
   ("access-control-allow-methods", "options");
   ("access-control-expose-headers", "content-length");
   ("access-control-request-headers", "content-type");
   ("access-control-request-method", "get");
   ("access-control-request-method", "post");
   ("alt-svc", "clear");
   ("authorization", EmptyString);
   ("content-security-policy", "script-src 'none'; object-src 'none'; base-uri 'none'");
   ("early-data", "1");
   ("expect-ct", EmptyString);
   ("forwarded", EmptyString);
   ("if-range", EmptyString);
   ("origin", EmptyString);
   ("purpose", "prefetch");
   ("server", EmptyString);
   ("timing-allow-origin", "*");
   ("upgrade-insecure-requests", "1");
   ("user-agent", EmptyString);
   ("x-forwarded-for", EmptyString);
   ("x-frame-options", "deny");
   ("x-frame-options", "sameorigin")]%string.


Definition table : list (list Z * list Z) :=
  List.map (fun e => (c_str (fst e), c_str (snd e))) table_rows.

(** [Some None] stands for a return of 0. *)
Definition quic_qpack_static_get (index : Z) : option (option (list Z * list Z)) :=
  if QUIC_QPACK_STATIC_COUNT <=? index then Some None
  else match load table index with
       | None => None
       | Some e => Some (Some e)
       end.

(** [while ( *a == *b) { if ( *a == 0) return 1; a++; b++; } return 0;]: [None]
    when the end of an array is reached without a NUL. *)
Fixpoint str_eq (a b : list Z) : option bool :=
  match a, b with
  | x :: a', y :: b' => if x =? y then (if x =? 0 then Some true else str_eq a' b') else Some false
  | _, _ => None
  end.

Definition entry_eq (e : list Z * list Z) (name value : list Z) : option bool :=
  match str_eq (fst e) name with
  | None => None
  | Some false => Some false
  | Some true => str_eq (snd e) value
  end.

(** [for (i = 0; i < COUNT; i++) if (entry_eq(i, ...)) return i; return -1;],
    over the entries from [i] on. *)
Fixpoint static_find_loop (entries : list (list Z * list Z)) (i : Z) (name value : list Z) : option Z :=
  match entries with
  | [] => Some (-1)
  | e :: entries' =>
      match entry_eq e name value with
      | None => None
      | Some true => Some i
      | Some false => static_find_loop entries' (i + 1) name value
      end
  end.

Definition quic_qpack_static_find (name value : list Z) : option Z := static_find_loop table 0 name value.

(** * cstr.h: [while (s[n]) n++] *)

Fixpoint quic_qdyn_cstr_len (s : list Z) : option Z :=
  match s with
  | [] => None
  | x :: s' => if x =? 0 then Some 0 else n ← quic_qdyn_cstr_len s'; Some (n + 1)
  end.

(** * dyntable.c *)

Definition QUIC_QPACK_DYN_MAX_ENTRIES : Z := 64.
Definition QUIC_QPACK_DYN_MAX_NAME : Z := 256.
Definition QUIC_QPACK_DYN_MAX_VALUE : Z := 1024.

Record quic_qpack_dyn_entry := Dent { de_name : list Z; de_value : list Z; de_name_len : Z; de_value_len : Z }.

Record quic_qpack_dyn := Dyn {
  ring : list quic_qpack_dyn_entry; head : Z; count : Z; dropped : Z; size : Z; capacity : Z }.

Definition entry_size (name_len value_len : Z) : Z := (name_len +w value_len) +w 32.

(** [init] leaves the slots as they are. *)
Definition quic_qpack_dyn_init (ring0 : list quic_qpack_dyn_entry) (capacity : Z) : quic_qpack_dyn :=
  Dyn ring0 0 0 0 0 capacity.

Definition quic_qpack_dyn_size (t : quic_qpack_dyn) : Z := size t.

Definition evict_oldest (t : quic_qpack_dyn) : option quic_qpack_dyn :=
  e ← load (ring t) (head t);
  Some (Dyn (ring t) ((head t +w 1) mod QUIC_QPACK_DYN_MAX_ENTRIES) (count t -w 1) (dropped t +w 1)
            (size t -w entry_size (de_name_len e) (de_value_len e)) (capacity t)).

Definition fits_fields (name_len value_len : Z) : bool :=
  (name_len <=? QUIC_QPACK_DYN_MAX_NAME) && (value_len <=? QUIC_QPACK_DYN_MAX_VALUE).

Definition over_capacity (t : quic_qpack_dyn) (need : Z) : bool := capacity t <? size t +w need.

(** Each round removes one entry, so [count] rounds are enough; running out of
    them would be [None]. *)
Fixpoint make_room_loop (fuel : nat) (t : quic_qpack_dyn) (need : Z) : option quic_qpack_dyn :=
  if (0 <? count t) && over_capacity t need
  then match fuel with
       | O => None
       | S f => t' ← evict_oldest t; make_room_loop f t' need
       end
  else Some t.

Definition make_room (t : quic_qpack_dyn) (need : Z) : option quic_qpack_dyn :=
  make_room_loop (Z.to_nat (count t)) t need.

Definition can_insert (t : quic_qpack_dyn) (need name_len value_len : Z) : bool :=
  if negb (fits_fields name_len value_len) then false
  else if capacity t <? need then false
  else count t <? QUIC_QPACK_DYN_MAX_ENTRIES.

Definition copy_field (dst src : list Z) (n : Z) : option (list Z) := copy_loop (Z.to_nat n) dst 0 src 0.

Definition store_entry (t : quic_qpack_dyn) (name : list Z) (name_len : Z) (value : list Z) (value_len : Z)
  : option quic_qpack_dyn :=
  let slot := (head t +w count t) mod QUIC_QPACK_DYN_MAX_ENTRIES in
  e ← load (ring t) slot;
  nm ← copy_field (de_name e) name name_len;
  vl ← copy_field (de_value e) value value_len;
  ring' ← store (ring t) slot (Dent nm vl name_len value_len);
  Some (Dyn ring' (head t) (count t +w 1) (dropped t) (size t +w entry_size name_len value_len) (capacity t)).

(** The return value and the table after the call. *)
Definition quic_qpack_dyn_insert (t : quic_qpack_dyn) (name : list Z) (name_len : Z) (value : list Z) (value_len : Z)
  : option (bool * quic_qpack_dyn) :=
  let need := entry_size name_len value_len in
  if negb (can_insert t need name_len value_len) then Some (false, t)
  else t1 ← make_room t need; t2 ← store_entry t1 name name_len value value_len; Some (true, t2).

(** * dynget.c *)

Definition is_live (t : quic_qpack_dyn) (abs_index : Z) : bool :=
  (dropped t <=? abs_index) && (abs_index <? dropped t +w count t).

(** The borrowed name and value: each array with its length. *)
Definition field : Type := (list Z * Z) * (list Z * Z).

Definition entry_field (e : quic_qpack_dyn_entry) : field :=
  ((de_name e, de_name_len e), (de_value e, de_value_len e)).

Definition quic_qpack_dyn_get (t : quic_qpack_dyn) (abs_index : Z) : option (option field) :=
  if negb (is_live t abs_index) then Some None
  else let off := abs_index -w dropped t in
       e ← load (ring t) ((head t +w off) mod QUIC_QPACK_DYN_MAX_ENTRIES); Some (Some (entry_field e)).

(** * dynfind.c *)

Definition df_bytes_eq (a : list Z) (alen : Z) (b : list Z) (blen : Z) : option bool :=
  if negb (alen =? blen) then Some false
  else d ← diff_loop (Z.to_nat alen) 0 a b 0; Some (d =? 0).

Definition df_name_eq (e : quic_qpack_dyn_entry) (name : list Z) (name_len : Z) : option bool :=
  df_bytes_eq (de_name e) (de_name_len e) name name_len.

Definition value_eq (e : quic_qpack_dyn_entry) (value : list Z) (value_len : Z) : option bool :=
  df_bytes_eq (de_value e) (de_value_len e) value value_len.

Definition classify (e : quic_qpack_dyn_entry) (name : list Z) (name_len : Z) (value : list Z) (value_len : Z)
  : option Z :=
  n ← df_name_eq e name name_len;
  if negb n then Some 0 else v ← value_eq e value value_len; Some (if v : bool then 2 else 1).

Definition entry_at (t : quic_qpack_dyn) (off : Z) : option quic_qpack_dyn_entry :=
  load (ring t) ((head t +w off) mod QUIC_QPACK_DYN_MAX_ENTRIES).

(** The two out parameters: [*abs_index] and [*value_matched]. *)
Definition record (t : quic_qpack_dyn) (off : Z) (full : bool) : Z * bool := (dropped t +w off, full).

Definition want_name_only (m : Z) (found : bool) : bool := (m =? 1) && negb found.

(** What [scan_one] does with the best match so far: [inl] stops the scan. *)
Definition scan_one (t : quic_qpack_dyn) (off : Z) (best : option (Z * bool))
    (name : list Z) (name_len : Z) (value : list Z) (value_len : Z) : option ((Z * bool) + option (Z * bool)) :=
  e ← entry_at t off;
  m ← classify e name name_len value value_len;
  Some (if m =? 2 then inl (record t off true)
        else if want_name_only m (match best with Some _ => true | None => false end)
        then inr (Some (record t off false)) else inr best).

Fixpoint find_loop (k : nat) (t : quic_qpack_dyn) (off : Z) (best : option (Z * bool))
    (name : list Z) (name_len : Z) (value : list Z) (value_len : Z) : option (option (Z * bool)) :=
  match k with
  | O => Some best
  | S k' =>
      r ← scan_one t off best name name_len value value_len;
      match r with
      | inl hit => Some (Some hit)
      | inr best' => find_loop k' t (off + 1) best' name name_len value value_len
      end
  end.

(** [Some None]: a return of 0. *)
Definition quic_qpack_dyn_find (t : quic_qpack_dyn) (name : list Z) (name_len : Z) (value : list Z) (value_len : Z)
  : option (option (Z * bool)) :=
  find_loop (Z.to_nat (count t)) t 0 None name name_len value value_len.

(** * insertcount.c *)

(** [None] is the division by zero of [max_entries = 0]. *)
Definition quic_qpack_ric_encode (ric max_entries : Z) : option Z :=
  if ric =? 0 then Some 0
  else if 2 *w max_entries =? 0 then None
  else Some ((ric mod (2 *w max_entries)) +w 1).

Definition ric_candidate (encoded full_range max_value : Z) : option Z :=
  if full_range =? 0 then None
  else let max_wrapped := (max_value / full_range) *w full_range in
       Some ((max_wrapped +w encoded) -w 1).

(** [Some None]: a return of 0. *)
Definition ric_correct (ric max_value full_range : Z) : option Z :=
  if ric <=? max_value then Some ric
  else if ric <=? full_range then None
  else Some (ric -w full_range).

Definition ric_resolve (encoded full_range max_value : Z) : option (option Z) :=
  if full_range <? encoded then Some None
  else match ric_candidate encoded full_range max_value with
       | None => None
       | Some c => match ric_correct c max_value full_range with
                   | None => Some None
                   | Some ric => Some (if ric =? 0 then None else Some ric)
                   end
       end.

Definition quic_qpack_ric_decode (encoded max_entries total_inserts : Z) : option (option Z) :=
  if encoded =? 0 then Some (Some 0)
  else ric_resolve encoded (2 *w max_entries) (total_inserts +w max_entries).

(** * relindex.c and base.c *)

Definition quic_qpack_rel_to_abs (base rel : Z) : Z := (base -w rel) -w 1.
Definition quic_qpack_postbase_to_abs (base postbase : Z) : Z := base +w postbase.
Definition quic_qpack_base (ric : Z) (sign : bool) (delta_base : Z) : Z :=
  if negb sign then ric +w delta_base else (ric -w delta_base) -w 1.

(** * qpackdyn: references into the tables *)

Definition resolve_static (index : Z) : option (option field) :=
  match quic_qpack_static_get index with
  | None => None
  | Some None => Some None
  | Some (Some (n, v)) => nl ← quic_qdyn_cstr_len n; vl ← quic_qdyn_cstr_len v; Some (Some ((n, nl), (v, vl)))
  end.

Definition resolve_dynamic (t : quic_qpack_dyn) (base rel : Z) : option (option field) :=
  quic_qpack_dyn_get t (quic_qpack_rel_to_abs base rel).

(** [Some (Some (f, consumed))] on a return of 1. *)
Definition quic_qdyn_decode_field (t : quic_qpack_dyn) (base : Z) (fs : list Z) (fs_len pos : Z)
  : option (option (field * Z)) :=
  match quic_qpack_indexed_decode (drop (Z.to_nat pos) fs) (fs_len -w pos) with
  | None => None
  | Some None => Some None
  | Some (Some ((index, is_static), used)) =>
      match (if (is_static : bool) then resolve_static index else resolve_dynamic t base index) with
      | None => None
      | Some None => Some None
      | Some (Some f) => Some (Some (f, used))
      end
  end.

Definition quic_qdyn_indexed_dynamic (rel_index : Z) (out : list Z) (cap : Z) : option (Z * list Z) :=
  quic_qpack_indexed_encode rel_index false out cap.

(** * Abstract table *)

(** The live entries as (name, value), oldest first, and the number of entries
    dropped before the first of them. *)
Record atable := Atab { a_live : list (list Z * list Z); a_dropped : Z; a_cap : Z }.

Definition asize (e : list Z * list Z) : Z := zlen (fst e) + zlen (snd e) + 32.

Fixpoint atotal (l : list (list Z * list Z)) : Z :=
  match l with
  | [] => 0
  | e :: l' => asize e + atotal l'
  end.

(** Drop the oldest entries until [need] more bytes fit. *)
Fixpoint a_evict (cap need : Z) (l : list (list Z * list Z)) : list (list Z * list Z) :=
  match l with
  | [] => []
  | _ :: l' => if cap <? atotal l + need then a_evict cap need l' else l
  end.

Definition a_accepts (a : atable) (e : list Z * list Z) : bool :=
  (zlen (fst e) <=? QUIC_QPACK_DYN_MAX_NAME) && (zlen (snd e) <=? QUIC_QPACK_DYN_MAX_VALUE) &&
  (asize e <=? a_cap a) && (zlen (a_live a) <? QUIC_QPACK_DYN_MAX_ENTRIES).

Definition a_insert (a : atable) (e : list Z * list Z) : bool * atable :=
  if a_accepts a e
  then let l := a_evict (a_cap a) (asize e) (a_live a) in
       (true, Atab (l ++ [e]) (a_dropped a + (zlen (a_live a) - zlen l)) (a_cap a))
  else (false, a).

Lemma atotal_app l k : atotal (l ++ k) = atotal l + atotal k.
Proof. induction l as [|e l IH]; cbn [app atotal]; lia. Qed.

Lemma asize_pos e : 32 <= asize e.
Proof. unfold asize. pose proof (zlen_nonneg (fst e)). pose proof (zlen_nonneg (snd e)). lia. Qed.

Lemma atotal_nonneg l : 0 <= atotal l.
Proof. induction l as [|e l IH]; cbn [atotal]; [lia|]. pose proof (asize_pos e). lia. Qed.

(** Eviction removes a prefix, leaves what fits, and removes no more than it has to. *)
Lemma a_evict_spec cap need l : exists gone, l = gone ++ a_evict cap need l /\
  (need <= cap -> atotal (a_evict cap need l) + need <= cap) /\
  (forall g e, gone = g ++ [e] -> cap < asize e + atotal (a_evict cap need l) + need).
Proof.
  induction l as [|e l IH]; cbn [a_evict].
  - exists []. split_and!; [done|cbn [atotal]; lia|]. intros g e H. by destruct g.
  - destruct (Z.ltb_spec cap (atotal (e :: l) + need)) as [Hlt|Hge].
    + destruct IH as (gone & Hl & Hfit & Hmin). exists (e :: gone). split_and!; [by rewrite Hl at 1|done|].
      intros g e' Hg. destruct gone as [|x gone].
      * destruct g as [|y g]; [|by destruct g]. injection Hg as <-. simpl app in Hl. rewrite <- Hl.
        cbn [atotal] in Hlt. lia.
      * destruct g as [|y g]; [done|]. injection Hg as -> Hg. by eapply Hmin.
    + exists []. split_and!; [done|lia|]. intros g e' H. by destruct g.
Qed.

(** ** The ring represents the list *)

Definition entry_wf (e : quic_qpack_dyn_entry) : Prop :=
  zlen (de_name e) = QUIC_QPACK_DYN_MAX_NAME /\ zlen (de_value e) = QUIC_QPACK_DYN_MAX_VALUE /\
  Forall is_u8 (de_name e) /\ Forall is_u8 (de_value e).

(** Slot [e] holds the field [f]. *)
Definition holds (e : quic_qpack_dyn_entry) (f : list Z * list Z) : Prop :=
  de_name_len e = zlen (fst f) /\ de_value_len e = zlen (snd f) /\
  take (List.length (fst f)) (de_name e) = fst f /\ take (List.length (snd f)) (de_value e) = snd f /\
  zlen (fst f) <= QUIC_QPACK_DYN_MAX_NAME /\ zlen (snd f) <= QUIC_QPACK_DYN_MAX_VALUE.

Record represents (t : quic_qpack_dyn) (a : atable) : Prop := {
  rp_ring : zlen (ring t) = QUIC_QPACK_DYN_MAX_ENTRIES;
  rp_wf : Forall entry_wf (ring t);
  rp_head : 0 <= head t < QUIC_QPACK_DYN_MAX_ENTRIES;
  rp_count : count t = zlen (a_live a);
  rp_room : zlen (a_live a) <= QUIC_QPACK_DYN_MAX_ENTRIES;
  rp_live : forall i f, load (a_live a) i = Some f ->
    exists e, load (ring t) ((head t + i) mod QUIC_QPACK_DYN_MAX_ENTRIES) = Some e /\ holds e f;
  rp_size : size t = atotal (a_live a);
  rp_dropped : dropped t = a_dropped a;
  rp_cap : capacity t = a_cap a;
}.

Lemma represents_init ring0 cap : zlen ring0 = QUIC_QPACK_DYN_MAX_ENTRIES -> Forall entry_wf ring0 ->
  represents (quic_qpack_dyn_init ring0 cap) (Atab [] 0 cap).
Proof.
  intros Hl Hw. split; cbn [quic_qpack_dyn_init ring head count dropped size capacity a_live a_dropped a_cap]; try done.
  intros i f Hf. by rewrite load_nil in Hf.
Qed.

Lemma holds_asize e f : holds e f -> asize f <= 1312.
Proof. intros (_ & _ & _ & _ & H1 & H2). unfold asize, QUIC_QPACK_DYN_MAX_NAME, QUIC_QPACK_DYN_MAX_VALUE in *. lia. Qed.

Lemma represents_size t a : represents t a -> 0 <= atotal (a_live a) <= 83968.
Proof.
  intros Hr. split; [apply atotal_nonneg|].
  assert (Hall : Forall (fun f => asize f <= 1312) (a_live a)).
  { apply List.Forall_forall. intros f Hf. apply list_elem_of_In, list_elem_of_lookup in Hf as [i Hi].
    destruct (rp_live t a Hr (Z.of_nat i) f) as (e & _ & He); [|by eapply holds_asize].
    unfold load. zdecide. by rewrite Nat2Z.id. }
  assert (Hb : atotal (a_live a) <= 1312 * zlen (a_live a)).
  { clear Hr. induction (a_live a) as [|e l IH]; cbn [atotal]; [done|].
    apply List.Forall_cons_iff in Hall as [He Hl]. specialize (IH Hl). rewrite zlen_cons. lia. }
  pose proof (rp_room t a Hr). unfold QUIC_QPACK_DYN_MAX_ENTRIES in *. lia.
Qed.

Lemma entry_size_holds e f : holds e f -> entry_size (de_name_len e) (de_value_len e) = asize f.
Proof.
  intros Hh. pose proof (holds_asize e f Hh). destruct Hh as (-> & -> & _). unfold entry_size, asize in *.
  pose proof (zlen_nonneg (fst f)). pose proof (zlen_nonneg (snd f)). by unwrap.
Qed.

Lemma evict_represents t f l d cap :
  represents t (Atab (f :: l) d cap) -> 0 <= d -> is_u64 (d + 1) ->
  exists t', evict_oldest t = Some t' /\ represents t' (Atab l (d + 1) cap).
Proof.
  intros Hr Hd0 Hd. pose proof (represents_size _ _ Hr) as Hsz. destruct Hr. cbn [a_live a_dropped a_cap atotal] in *.
  destruct (rp_live0 0 f eq_refl) as (e & He & Hh). rewrite Z.add_0_r, Z.mod_small in He by done.
  unfold evict_oldest. rewrite He. simpl mbind. rewrite (entry_size_holds e f Hh). pose proof (zlen_nonneg l).
  pose proof (asize_pos f). pose proof (atotal_nonneg l). rewrite zlen_cons in *.
  unfold QUIC_QPACK_DYN_MAX_ENTRIES in *. rewrite rp_size0, rp_count0, rp_dropped0. unwrap.
  eexists. split; [done|]. split; cbn [ring head count dropped size capacity a_live a_dropped a_cap]; try done; try lia.
  - by apply Z.mod_pos_bound.
  - unfold QUIC_QPACK_DYN_MAX_ENTRIES. lia.
  - intros i g Hg. pose proof (load_range _ _ _ Hg). destruct (rp_live0 (i + 1) g) as (e' & He' & Hh').
    + change (f :: l) with ([f] ++ l). rewrite load_app_r by (change (zlen [f]) with 1; lia).
      change (zlen [f]) with 1. by replace (i + 1 - 1) with i by lia.
    + exists e'. split; [|done]. rewrite <- He'. f_equal. change QUIC_QPACK_DYN_MAX_ENTRIES with 64. rewrite Z.add_mod_idemp_l by lia.
      f_equal. lia.
Qed.

Lemma make_room_represents l : forall t d cap need,
  represents t (Atab l d cap) -> 0 <= d -> is_u64 (d + zlen l) -> 0 <= need <= 1312 ->
  exists t', make_room_loop (List.length l) t need = Some t' /\
    represents t' (Atab (a_evict cap need l) (d + (zlen l - zlen (a_evict cap need l))) cap).
Proof.
  induction l as [|f l IH]; intros t d cap need Hr Hd0 Hd Hn.
  - cbn [List.length make_room_loop a_evict]. rewrite (rp_count _ _ Hr). simpl.
    exists t. split; [done|]. by rewrite Z.add_0_r.
  - pose proof (represents_size _ _ Hr) as Hsz. cbn [a_live] in Hsz. pose proof (zlen_nonneg l). rewrite zlen_cons in *.
    cbn [List.length make_room_loop a_evict]. unfold over_capacity.
    rewrite (rp_count _ _ Hr), (rp_cap _ _ Hr), (rp_size _ _ Hr). cbn [a_live a_cap]. rewrite zlen_cons.
    unwrap. ztrue (0 <? 1 + zlen l). simpl andb. cbn [atotal]. destruct (cap <? asize f + atotal l + need).
    + destruct (evict_represents t f l d cap Hr) as (t1 & -> & Hr1); [done|unfold is_u64 in *; lia|]. simpl mbind.
      destruct (IH t1 (d + 1) cap need Hr1) as (t2 & -> & Hr2); [lia|unfold is_u64 in *; lia|done|].
      exists t2. split; [done|].
      by replace (d + (1 + zlen l - zlen (a_evict cap need l))) with
        (d + 1 + (zlen l - zlen (a_evict cap need l))) by lia.
    + exists t. split; [done|]. rewrite zlen_cons. by replace (d + _) with d by lia.
Qed.

(** Distinct live offsets are distinct slots. *)
Lemma slot_ne h i j : 0 <= h < 64 -> 0 <= i < 64 -> 0 <= j < 64 -> i <> j -> (h + i) mod 64 <> (h + j) mod 64.
Proof. intros. Z.to_euclidean_division_equations. lia. Qed.

Lemma copy_field_spec dst src n : 0 <= n <= zlen src -> n <= zlen dst ->
  copy_field dst src n = Some (splice dst 0 (take (Z.to_nat n) src)).
Proof.
  intros Hn Hd. unfold copy_field. rewrite copy_loop_len by lia. do 2 f_equal. unfold slice.
  rewrite Z2Nat.id by lia. done.
Qed.

Lemma Forall_splice (l bs : list Z) i : Forall is_u8 l -> Forall is_u8 bs -> Forall is_u8 (splice l i bs).
Proof. intros. unfold splice. rewrite !Forall_app. split_and!; [by apply Forall_take|done|by apply Forall_drop]. Qed.

Lemma store_represents t l d cap name nl value vl :
  represents t (Atab l d cap) -> Forall is_u8 name -> Forall is_u8 value -> zlen l < QUIC_QPACK_DYN_MAX_ENTRIES ->
  0 <= nl <= zlen name -> 0 <= vl <= zlen value ->
  nl <= QUIC_QPACK_DYN_MAX_NAME -> vl <= QUIC_QPACK_DYN_MAX_VALUE ->
  exists t', store_entry t name nl value vl = Some t' /\
    represents t' (Atab (l ++ [(take (Z.to_nat nl) name, take (Z.to_nat vl) value)]) d cap).
Proof.
  intros Hr Un Uv Hroom Hnl Hvl Hn Hv. pose proof (represents_size _ _ Hr) as Hsz. destruct Hr.
  cbn [a_live a_dropped a_cap] in *. pose proof (zlen_nonneg l).
  pose proof (zlen_take name nl Hnl) as Ln. pose proof (zlen_take value vl Hvl) as Lv.
  set (f := (take (Z.to_nat nl) name, take (Z.to_nat vl) value)).
  assert (Hsize : asize f = nl + vl + 32) by (unfold asize, f; cbn [fst snd]; lia).
  unfold store_entry, QUIC_QPACK_DYN_MAX_ENTRIES, QUIC_QPACK_DYN_MAX_NAME, QUIC_QPACK_DYN_MAX_VALUE in *.
  rewrite rp_count0. unwrap. set (slot := (head t + zlen l) mod 64).
  assert (Hslot : 0 <= slot < 64) by (apply Z.mod_pos_bound; lia).
  destruct (load_is_Some (ring t) slot) as [e He]; [lia|]. rewrite He. simpl mbind.
  assert (Hwf : entry_wf e).
  { rewrite List.Forall_forall in rp_wf0. apply rp_wf0, list_elem_of_In. by eapply load_elem. }
  destruct Hwf as (Wn & Wv & Wun & Wuv). unfold QUIC_QPACK_DYN_MAX_NAME, QUIC_QPACK_DYN_MAX_VALUE in *.
  rewrite !copy_field_spec by lia. simpl mbind. rewrite store_ok by lia. simpl mbind.
  unfold entry_size. rewrite rp_size0. unwrap. eexists. split; [done|].
  split; cbn [ring head count dropped size capacity a_live a_dropped a_cap]; try done; try lia.
  - by rewrite zlen_insert.
  - apply Forall_insert; [done|]. unfold entry_wf, QUIC_QPACK_DYN_MAX_NAME, QUIC_QPACK_DYN_MAX_VALUE.
    cbn [de_name de_value]. rewrite !zlen_splice by lia.
    split_and!; [done..| |]; by apply Forall_splice, Forall_take.
  - rewrite zlen_app. change (zlen [f]) with 1. lia.
  - rewrite zlen_app. change (zlen [f]) with 1. unfold QUIC_QPACK_DYN_MAX_ENTRIES. lia.
  - intros i g Hg. pose proof (load_range _ _ _ Hg) as Hi. rewrite zlen_app in Hi. change (zlen [f]) with 1 in Hi.
    change QUIC_QPACK_DYN_MAX_ENTRIES with 64 in *.
    rewrite load_insert by lia. destruct (Z.lt_ge_cases i (zlen l)) as [Hlt|Hge].
    + pose proof (slot_ne (head t) i (zlen l)) as Hne. fold slot in Hne.
      zfalse ((head t + i) mod 64 =? slot). rewrite load_app_l in Hg by done. by apply rp_live0.
    + assert (i = zlen l) by lia. subst i. rewrite load_head in Hg by done. injection Hg as <-. fold slot.
      rewrite Z.eqb_refl. eexists. split; [done|]. unfold holds, f. cbn [de_name de_value de_name_len de_value_len fst snd].
      rewrite !take_splice_0. unfold QUIC_QPACK_DYN_MAX_NAME, QUIC_QPACK_DYN_MAX_VALUE. split_and!; try done; lia.
  - rewrite atotal_app. cbn [atotal]. lia.
Qed.

(** ** Insertion *)

Definition field_of (name : list Z) (nl : Z) (value : list Z) (vl : Z) : list Z * list Z :=
  (take (Z.to_nat nl) name, take (Z.to_nat vl) value).

Lemma dyn_insert_refines t a name nl value vl :
  represents t a -> 0 <= a_dropped a -> is_u64 (a_dropped a + QUIC_QPACK_DYN_MAX_ENTRIES) ->
  0 <= nl <= zlen name -> 0 <= vl <= zlen value -> zlen name < max_object -> zlen value < max_object ->
  Forall is_u8 name -> Forall is_u8 value ->
  exists t', quic_qpack_dyn_insert t name nl value vl =
      Some (fst (a_insert a (field_of name nl value vl)), t') /\
    represents t' (snd (a_insert a (field_of name nl value vl))) /\
    (fst (a_insert a (field_of name nl value vl)) = false -> t' = t).
Proof.
  intros Hr Hd0 Hd Hnl Hvl Hno Hvo Un Uv. destruct a as [l d cap]. cbn [a_dropped] in *.
  pose proof (zlen_take name nl Hnl) as Ln. pose proof (zlen_take value vl Hvl) as Lv.
  set (f := field_of name nl value vl).
  assert (Hsize : asize f = nl + vl + 32) by (unfold asize, f, field_of; cbn [fst snd]; lia).
  assert (Hneed : nl <= 256 -> vl <= 1024 -> entry_size nl vl = asize f)
    by (intros; unfold entry_size; rewrite Hsize; by unwrap).
  assert (Hacc : can_insert t (entry_size nl vl) nl vl = a_accepts (Atab l d cap) f).
  { unfold can_insert, a_accepts, fits_fields. rewrite (rp_cap _ _ Hr), (rp_count _ _ Hr). cbn [a_cap a_live].
    replace (zlen (fst f)) with nl by done. replace (zlen (snd f)) with vl by done.
    destruct (Z.leb_spec nl QUIC_QPACK_DYN_MAX_NAME), (Z.leb_spec vl QUIC_QPACK_DYN_MAX_VALUE); simpl; try done.
    rewrite Hneed by done. by destruct (Z.ltb_spec cap (asize f)), (Z.leb_spec (asize f) cap); try lia. }
  unfold quic_qpack_dyn_insert, a_insert. cbv zeta. rewrite Hacc.
  destruct (a_accepts (Atab l d cap) f) eqn:Ea; cbn [negb fst snd]; [|by exists t].
  unfold a_accepts in Ea. zbool. cbn [a_cap a_live] in *.
  change (zlen (fst f)) with (zlen (take (Z.to_nat nl) name)) in *.
  change (zlen (snd f)) with (zlen (take (Z.to_nat vl) value)) in *. rewrite Ln in *. rewrite Lv in *. unfold QUIC_QPACK_DYN_MAX_NAME, QUIC_QPACK_DYN_MAX_VALUE in *.
  pose proof (zlen_nonneg l). unfold make_room. rewrite (rp_count _ _ Hr), Hneed by done. cbn [a_live].
  replace (Z.to_nat (zlen l)) with (List.length l) by (unfold zlen; lia).
  destruct (make_room_represents l t d cap (asize f) Hr Hd0) as (t1 & -> & Hr1);
    [unfold is_u64, QUIC_QPACK_DYN_MAX_ENTRIES in *; lia|lia|]. simpl mbind.
  destruct (a_evict_spec cap (asize f) l) as (gone & Hgone & _).
  assert (zlen (a_evict cap (asize f) l) <= zlen l).
  { rewrite Hgone at 2. rewrite zlen_app. pose proof (zlen_nonneg gone). lia. }
  destruct (store_represents t1 _ _ cap name nl value vl Hr1 Un Uv) as (t2 & -> & Hr2);
    [unfold QUIC_QPACK_DYN_MAX_ENTRIES in *; lia|done..|]. simpl mbind. by exists t2.
Qed.

(** ** Lookup *)

Definition a_get (a : atable) (i : Z) : option (list Z * list Z) := load (a_live a) (i - a_dropped a).

(** A borrowed field shows exactly the bytes of [f]. *)
Definition shows (r : field) (f : list Z * list Z) : Prop :=
  snd (fst r) = zlen (fst f) /\ snd (snd r) = zlen (snd f) /\
  take (List.length (fst f)) (fst (fst r)) = fst f /\ take (List.length (snd f)) (fst (snd r)) = snd f.

Lemma get_refines t a i : represents t a -> 0 <= a_dropped a ->
  is_u64 (a_dropped a + QUIC_QPACK_DYN_MAX_ENTRIES) -> is_u64 i ->
  match a_get a i with
  | Some f => exists r, quic_qpack_dyn_get t i = Some (Some r) /\ shows r f
  | None => quic_qpack_dyn_get t i = Some None
  end.
Proof.
  intros Hr Hd0 Hd Hi. destruct a as [l d cap]. unfold a_get, quic_qpack_dyn_get, is_live. cbn [a_live a_dropped] in *.
  pose proof (rp_room _ _ Hr) as Hroom. pose proof (rp_head _ _ Hr) as Hh. cbn [a_live] in Hroom. pose proof (zlen_nonneg l).
  rewrite (rp_dropped _ _ Hr), (rp_count _ _ Hr). cbn [a_live a_dropped].
  unfold QUIC_QPACK_DYN_MAX_ENTRIES in *. rewrite (u64_id (d + zlen l)) by (unfold is_u64 in *; lia).
  destruct (load l (i - d)) as [f|] eqn:E.
  - pose proof (load_range _ _ _ E). zdecide. simpl. unwrap.
    unwrap. destruct (rp_live _ _ Hr (i - d) f E) as (e & He & H1 & H2 & H3 & H4 & _).
    unfold QUIC_QPACK_DYN_MAX_ENTRIES in He. rewrite He. simpl mbind. eexists. split; [done|].
    by unfold shows, entry_field.
  - destruct (Z.leb_spec d i); simpl; [|done]. destruct (Z.ltb_spec i (d + zlen l)); simpl; [|done].
    destruct (load_is_Some l (i - d)) as [x Hx]; [lia|congruence].
Qed.

(** ** Search *)

(** The index, counting from [i], of the first element that satisfies [p]. *)
Fixpoint first_at {A} (p : A -> bool) (l : list A) (i : Z) : option Z :=
  match l with
  | [] => None
  | x :: l' => if p x then Some i else first_at p l' (i + 1)
  end.

Definition name_is (name : list Z) (f : list Z * list Z) : bool := bool_decide (fst f = name).
Definition field_is (name value : list Z) (f : list Z * list Z) : bool := bool_decide (f = (name, value)).

(** The oldest entry with the name and the value, else the oldest with the name. *)
Definition a_find (a : atable) (name value : list Z) : option (Z * bool) :=
  match first_at (field_is name value) (a_live a) (a_dropped a) with
  | Some i => Some (i, true)
  | None => match first_at (name_is name) (a_live a) (a_dropped a) with
            | Some i => Some (i, false)
            | None => None
            end
  end.

Lemma df_bytes_eq_spec a b f : Forall is_u8 a -> Forall is_u8 b -> take (List.length f) a = f ->
  zlen f <= zlen a -> df_bytes_eq a (zlen f) b (zlen b) = Some (bool_decide (f = b)).
Proof.
  intros Ua Ub Hf Hl. unfold df_bytes_eq. pose proof (zlen_nonneg f).
  destruct (Z.eqb_spec (zlen f) (zlen b)) as [He|Hne]; cbn [negb].
  - destruct (diff_loop_spec (Z.to_nat (zlen f)) a b Ua Ub 0 0) as (d & -> & Hd); [lia..|]. simpl mbind. f_equal.
    apply eq_true_iff_eq. rewrite Z.eqb_eq, Hd, bool_decide_eq_true. unfold slice.
    change (Z.to_nat 0) with 0%nat. rewrite !drop_0, Z2Nat.id by lia.
    replace (Z.to_nat (zlen f)) with (List.length f) by (unfold zlen; lia).
    rewrite Hf, (take_ge b) by (unfold zlen in He; lia). tauto.
  - rewrite bool_decide_eq_false_2; [done|]. intros ->. done.
Qed.

Lemma classify_spec e f name value : entry_wf e -> holds e f -> Forall is_u8 name -> Forall is_u8 value ->
  classify e name (zlen name) value (zlen value) =
  Some (if field_is name value f then 2 else if name_is name f then 1 else 0).
Proof.
  intros (W1 & W2 & W3 & W4) (H1 & H2 & H3 & H4 & H5 & H6) Un Uv. unfold classify, df_name_eq, value_eq.
  rewrite H1, H2, (df_bytes_eq_spec _ name (fst f)) by (done || lia). simpl mbind. unfold field_is, name_is.
  destruct f as [fn fv]. cbn [fst snd] in *. case_bool_decide as E1; cbn [negb].
  - rewrite (df_bytes_eq_spec _ value fv) by (done || lia). simpl mbind. subst fn.
    case_bool_decide as E2; case_bool_decide as E3; try done; congruence.
  - rewrite bool_decide_eq_false_2; [done|]. congruence.
Qed.

Lemma find_loop_spec t a name value : represents t a -> 0 <= a_dropped a ->
  is_u64 (a_dropped a + QUIC_QPACK_DYN_MAX_ENTRIES) -> Forall is_u8 name -> Forall is_u8 value ->
  forall l pre best, a_live a = pre ++ l ->
  find_loop (List.length l) t (zlen pre) best name (zlen name) value (zlen value) =
  Some (match first_at (field_is name value) l (a_dropped a + zlen pre) with
        | Some i => Some (i, true)
        | None => match best with
                  | Some b => Some b
                  | None => match first_at (name_is name) l (a_dropped a + zlen pre) with
                            | Some i => Some (i, false)
                            | None => None
                            end
                  end
        end).
Proof.
  intros Hr Hd0 Hd Un Uv l. induction l as [|f l IH]; intros pre best Hl.
  - cbn [List.length find_loop first_at]. by destruct best.
  - cbn [List.length find_loop first_at]. pose proof (zlen_nonneg pre). pose proof (zlen_nonneg l).
    pose proof (rp_room _ _ Hr) as Hroom. pose proof (rp_head _ _ Hr) as Hh.
    rewrite Hl, zlen_app, zlen_cons in Hroom. unfold scan_one, entry_at.
    destruct (rp_live _ _ Hr (zlen pre) f) as (e & He & Hf); [rewrite Hl; by apply load_head|].
    assert (Hwf : entry_wf e).
    { pose proof (rp_wf _ _ Hr) as Hw. rewrite List.Forall_forall in Hw. apply Hw, list_elem_of_In. by eapply load_elem. }
    unfold QUIC_QPACK_DYN_MAX_ENTRIES in *. rewrite (u64_id (head t + zlen pre)) by (unfold is_u64; lia).
    rewrite He. simpl mbind. rewrite (classify_spec e f) by done. simpl mbind. unfold record. rewrite (rp_dropped _ _ Hr).
    rewrite (u64_id (a_dropped a + zlen pre)) by (unfold is_u64 in *; lia).
    destruct (field_is name value f) eqn:Ef; [done|].
    specialize (IH (pre ++ [f])). rewrite <- app_assoc, zlen_app in IH. change (zlen [f]) with 1 in IH.
    rewrite Z.add_assoc in IH. unfold want_name_only.
    destruct (name_is name f); destruct best as [b|]; cbn; by rewrite (IH _ Hl).
Qed.

Lemma find_refines t a name value : represents t a -> 0 <= a_dropped a ->
  is_u64 (a_dropped a + QUIC_QPACK_DYN_MAX_ENTRIES) -> Forall is_u8 name -> Forall is_u8 value ->
  quic_qpack_dyn_find t name (zlen name) value (zlen value) = Some (a_find a name value).
Proof.
  intros Hr Hd0 Hd Un Uv. unfold quic_qpack_dyn_find. rewrite (rp_count _ _ Hr).
  replace (Z.to_nat (zlen (a_live a))) with (List.length (a_live a)) by (unfold zlen; lia).
  change 0 with (zlen (@nil (list Z * list Z))). rewrite (find_loop_spec t a name value Hr Hd0 Hd Un Uv (a_live a) [] None eq_refl).
  change (zlen (@nil (list Z * list Z))) with 0. rewrite Z.add_0_r. done.
Qed.

(** ** Histories *)

(** Insert the fields one after the other; the second component collects those
    the table accepted. *)
Fixpoint dyn_run (t : quic_qpack_dyn) (fs acc : list (list Z * list Z))
  : option (quic_qpack_dyn * list (list Z * list Z)) :=
  match fs with
  | [] => Some (t, acc)
  | f :: fs' =>
      r ← quic_qpack_dyn_insert t (fst f) (zlen (fst f)) (snd f) (zlen (snd f));
      dyn_run (snd r) fs' (if (fst r : bool) then acc ++ [f] else acc)
  end.

Definition field_ok (f : list Z * list Z) : Prop :=
  Forall is_u8 (fst f) /\ Forall is_u8 (snd f) /\ zlen (fst f) < max_object /\ zlen (snd f) < max_object.

(** *** What the table holds, from the fields alone

    An entry fits an empty table (RFC 9204 section 3.2.2, with the array bounds of dyntable.h). *)
Definition fits_alone (cap : Z) (f : list Z * list Z) : bool :=
  (zlen (fst f) <=? QUIC_QPACK_DYN_MAX_NAME) && (zlen (snd f) <=? QUIC_QPACK_DYN_MAX_VALUE) && (asize f <=? cap).

(** The newest entries that fit together: the longest suffix of at most [cap] bytes. *)
Fixpoint newest_fit (cap : Z) (l : list (list Z * list Z)) : list (list Z * list Z) :=
  match l with
  | [] => []
  | _ :: l' => if atotal l <=? cap then l else newest_fit cap l'
  end.

(** The fields accepted after [acc]: those that fit an empty table, while fewer than the 64
    slots are in use. *)
Fixpoint accepted_fields (cap : Z) (acc fs : list (list Z * list Z)) : list (list Z * list Z) :=
  match fs with
  | [] => acc
  | f :: fs' =>
      accepted_fields cap
        (if fits_alone cap f && (zlen (newest_fit cap acc) <? QUIC_QPACK_DYN_MAX_ENTRIES) then acc ++ [f] else acc) fs'
  end.

Lemma newest_fit_all cap l : atotal l <= cap -> newest_fit cap l = l.
Proof. intros H. destruct l as [|e l]; [done|]. cbn [newest_fit]. by ztrue (atotal (e :: l) <=? cap). Qed.

Lemma newest_fit_suffix cap l : 0 <= cap -> exists gone, l = gone ++ newest_fit cap l /\ atotal (newest_fit cap l) <= cap.
Proof.
  intros Hc. induction l as [|e l IH]; cbn [newest_fit]; [by exists []|].
  destruct (Z.leb_spec (atotal (e :: l)) cap); [by exists []|].
  destruct IH as (gone & Hl & Ht). exists (e :: gone). split; [by rewrite Hl at 1|done].
Qed.

(** Evicting for a new entry and adding it keeps the newest that fit. *)
Lemma newest_fit_snoc cap l f : asize f <= cap ->
  newest_fit cap (l ++ [f]) = a_evict cap (asize f) (newest_fit cap l) ++ [f].
Proof.
  intros Hf. induction l as [|e l IH].
  - cbn [app newest_fit atotal a_evict]. by ztrue (asize f + 0 <=? cap).
  - cbn [app newest_fit]. pose proof (asize_pos e). pose proof (asize_pos f).
    assert (Ht : atotal (e :: l ++ [f]) = atotal (e :: l) + asize f) by (cbn [atotal]; rewrite atotal_app; cbn [atotal]; lia).
    rewrite Ht. destruct (Z.leb_spec (atotal (e :: l) + asize f) cap) as [Hle|Hgt].
    + ztrue (atotal (e :: l) <=? cap). cbn [a_evict]. by zfalse (cap <? atotal (e :: l) + asize f).
    + rewrite IH. destruct (Z.leb_spec (atotal (e :: l)) cap) as [Hl|Hl]; [|done].
      cbn [a_evict]. ztrue (cap <? atotal (e :: l) + asize f). rewrite newest_fit_all; [done|]. cbn [atotal] in Hl. lia.
Qed.

(** A table that never has 64 live entries accepts all that fits, as documented. *)
Lemma atotal_count l : 32 * zlen l <= atotal l.
Proof. induction l as [|e l IH]; [done|]. cbn [atotal]. rewrite zlen_cons. pose proof (asize_pos e). lia. Qed.

Lemma accepted_documented cap fs : 0 <= cap < 2048 -> forall acc,
  accepted_fields cap acc fs = acc ++ List.filter (fits_alone cap) fs.
Proof.
  intros Hc. induction fs as [|f fs IH]; intros acc; cbn [accepted_fields List.filter]; [by rewrite app_nil_r|].
  destruct (newest_fit_suffix cap acc) as (_ & _ & Ht); [lia|]. pose proof (atotal_count (newest_fit cap acc)).
  unfold QUIC_QPACK_DYN_MAX_ENTRIES. ztrue (zlen (newest_fit cap acc) <? 64). rewrite andb_true_r, IH.
  destruct (fits_alone cap f); [by rewrite <- app_assoc|done].
Qed.

Lemma accepted_stuck cap acc fs : zlen (newest_fit cap acc) = QUIC_QPACK_DYN_MAX_ENTRIES -> accepted_fields cap acc fs = acc.
Proof.
  intros H. induction fs as [|f fs IH]; [done|]. cbn [accepted_fields]. by rewrite H, Z.ltb_irrefl, andb_false_r.
Qed.

Lemma accepted_fields_app cap fs more : forall acc,
  accepted_fields cap acc (fs ++ more) = accepted_fields cap (accepted_fields cap acc fs) more.
Proof. induction fs as [|f fs IH]; intros acc; [done|]. cbn [app accepted_fields]. apply IH. Qed.

(** The table holds the newest of the accepted fields that fit. *)
Definition after (cap : Z) (acc : list (list Z * list Z)) (t : quic_qpack_dyn) : Prop :=
  represents t (Atab (newest_fit cap acc) (zlen acc - zlen (newest_fit cap acc)) cap).

Lemma after_insert cap acc t f : after cap acc t -> field_ok f -> 0 <= cap -> zlen acc < max_object ->
  let r := fits_alone cap f && (zlen (newest_fit cap acc) <? QUIC_QPACK_DYN_MAX_ENTRIES) in
  exists t', quic_qpack_dyn_insert t (fst f) (zlen (fst f)) (snd f) (zlen (snd f)) = Some (r, t') /\
    after cap (if r then acc ++ [f] else acc) t'.
Proof.
  intros Hr (Uf & Us & Lf & Ls) Hcap Hlen r. unfold after in *.
  destruct (newest_fit_suffix cap acc Hcap) as (gone & Hacc & Hsz). set (live := newest_fit cap acc) in *.
  pose proof (zlen_nonneg gone). pose proof (zlen_nonneg live). pose proof (zlen_nonneg (fst f)). pose proof (zlen_nonneg (snd f)).
  assert (Hg : zlen acc = zlen gone + zlen live) by (rewrite Hacc at 1; by rewrite zlen_app). unfold max_object in *.
  destruct (dyn_insert_refines t (Atab live (zlen acc - zlen live) cap) (fst f) (zlen (fst f)) (snd f) (zlen (snd f)) Hr)
    as (t' & Hins & Hr' & Hno); cbn [a_dropped]; try done; try (unfold max_object; lia);
    [unfold is_u64, QUIC_QPACK_DYN_MAX_ENTRIES; lia|].
  assert (Hf : field_of (fst f) (zlen (fst f)) (snd f) (zlen (snd f)) = f).
  { unfold field_of, zlen. rewrite !Nat2Z.id, !firstn_all. by destruct f. }
  rewrite Hf in *. unfold a_insert in *. change (a_accepts _ f) with r in *. destruct r eqn:Ea; cbn [fst snd] in *.
  - cbn [a_live a_dropped a_cap] in *. exists t'. split; [done|].
    assert (Hfit : asize f <= cap) by (unfold r, fits_alone in Ea; zbool; lia).
    rewrite newest_fit_snoc by done. fold live. rewrite !zlen_app. set (l := a_evict cap (asize f) live) in *.
    by replace (zlen acc + zlen [f] - (zlen l + zlen [f])) with (zlen acc - zlen live + (zlen live - zlen l)) by lia.
  - exists t'. split; [done|]. by rewrite (Hno eq_refl) in *.
Qed.

Lemma dyn_run_after cap fs : forall t acc, after cap acc t -> Forall field_ok fs -> 0 <= cap ->
  zlen acc + zlen fs < max_object ->
  exists t', dyn_run t fs acc = Some (t', accepted_fields cap acc fs) /\ after cap (accepted_fields cap acc fs) t' /\
    zlen (accepted_fields cap acc fs) <= zlen acc + zlen fs.
Proof.
  induction fs as [|f fs IH]; intros t acc Ha Hf Hcap Hl.
  - exists t. split_and!; [done|done|]. cbn [accepted_fields]. change (zlen []) with 0. lia.
  - apply List.Forall_cons_iff in Hf as [Hf Hfs]. rewrite zlen_cons in Hl. pose proof (zlen_nonneg fs).
    destruct (after_insert cap acc t f Ha Hf Hcap) as (t1 & Hi & Ha1); [lia|].
    cbn [dyn_run accepted_fields]. rewrite Hi. simpl mbind. cbn [fst snd]. set (r := fits_alone cap f && _) in *.
    assert (Hl1 : zlen (if r then acc ++ [f] else acc) <= zlen acc + 1).
    { destruct r; [rewrite zlen_app; change (zlen [f]) with 1|]; lia. }
    destruct (IH t1 _ Ha1 Hfs Hcap) as (t' & ? & ? & ?); [lia|].
    exists t'. split_and!; [done|done|]. rewrite zlen_cons. lia.
Qed.

(** * Properties *)

(** C13: A dynamic table fed any sequence of fields (RFC 9204 section 3.2): no
    insertion leaves the ring; a field is accepted exactly when it would fit an
    empty table and fewer than 64 entries are live; the table then holds exactly the
    newest of the accepted fields that fit the capacity together, so no entry is evicted
    that need not be; the absolute index of a field is its position
    among the accepted ones; [quic_qpack_dyn_get] at index [i] yields the [i]-th
    accepted field exactly when it is not yet evicted and fails at every other
    index; the recorded size is the sum of the live entries' sizes; and
    [quic_qpack_dyn_find] yields the oldest live field with that
    name and value, or else the oldest with that name.  dyntable.h says that only what
    does not fit an empty table is refused: this holds of every table below 2048 bytes,
    while a table that reaches 64 live entries refuses everything for ever, since the slot is
    looked for before the eviction that would free one. *)
Theorem dyntable_history ring0 cap fs :
  zlen ring0 = QUIC_QPACK_DYN_MAX_ENTRIES -> Forall entry_wf ring0 -> is_u64 cap ->
  Forall field_ok fs -> zlen fs < max_object ->
  let acc := accepted_fields cap [] fs in
  let live := newest_fit cap acc in
  exists t, dyn_run (quic_qpack_dyn_init ring0 cap) fs [] = Some (t, acc) /\
    count t = zlen live /\ dropped t = zlen acc - zlen live /\ quic_qpack_dyn_size t = atotal live /\
    (forall i, is_u64 i ->
       match (if i <? dropped t then None else load acc i) with
       | Some f => exists r, quic_qpack_dyn_get t i = Some (Some r) /\ shows r f
       | None => quic_qpack_dyn_get t i = Some None
       end) /\
    (forall name value, Forall is_u8 name -> Forall is_u8 value ->
       quic_qpack_dyn_find t name (zlen name) value (zlen value) =
       Some (a_find (Atab live (dropped t) cap) name value)) /\
    (cap < 2048 -> acc = List.filter (fits_alone cap) fs) /\
    (zlen live = QUIC_QPACK_DYN_MAX_ENTRIES -> forall more, accepted_fields cap [] (fs ++ more) = acc).
Proof.
  intros Hl Hw Hcap Hf Hlen acc live. unfold is_u64 in Hcap.
  destruct (dyn_run_after cap fs (quic_qpack_dyn_init ring0 cap) []) as (t & Hrun & Hr & Hacc);
    [by apply represents_init|done|lia|change (zlen []) with 0; lia|].
  change (zlen []) with 0 in Hacc. fold acc in Hrun, Hr, Hacc. unfold after in Hr. fold live in Hr.
  destruct (newest_fit_suffix cap acc) as (gone & Hsplit & _); [lia|]. fold live in Hsplit.
  assert (Hg : zlen acc = zlen gone + zlen live) by (rewrite Hsplit at 1; by rewrite zlen_app).
  pose proof (zlen_nonneg gone). pose proof (zlen_nonneg live).
  pose proof (rp_dropped _ _ Hr) as Hd. cbn [a_dropped] in Hd. exists t. rewrite Hd.
  assert (Hu : is_u64 (zlen acc - zlen live + QUIC_QPACK_DYN_MAX_ENTRIES)).
  { unfold is_u64, QUIC_QPACK_DYN_MAX_ENTRIES, max_object in *. lia. }
  split_and!; [done|exact (rp_count _ _ Hr)|done|exact (rp_size _ _ Hr)| | | |].
  - intros i Hi. pose proof (get_refines t _ i Hr ltac:(cbn; lia) Hu Hi) as Hget. unfold a_get in Hget. cbn [a_live a_dropped] in Hget.
    destruct (Z.ltb_spec i (zlen acc - zlen live)).
    + unfold load in Hget. revert Hget. by zfalse (0 <=? i - (zlen acc - zlen live)).
    + rewrite Hsplit, load_app_r by lia. by replace (i - zlen gone) with (i - (zlen acc - zlen live)) by lia.
  - intros name value Un Uv. apply find_refines; [done|cbn; lia|done..].
  - intros H2. unfold acc. by rewrite accepted_documented by lia.
  - intros Hfull more. rewrite accepted_fields_app. by apply accepted_stuck.
Qed.

Definition blank_entry : quic_qpack_dyn_entry := Dent (repeat 0 256) (repeat 0 1024) 0 0.
Definition blank_ring : list quic_qpack_dyn_entry := repeat blank_entry 64.

Lemma Forall_repeat {A} (P : A -> Prop) x k : P x -> Forall P (repeat x k).
Proof. intros Hx. apply List.Forall_forall. intros y Hy. by apply repeat_spec in Hy as ->. Qed.

Lemma blank_ring_wf : Forall entry_wf blank_ring.
Proof.
  apply Forall_repeat. unfold entry_wf, blank_entry. cbn [de_name de_value].
  split_and!; [by vm_compute..|apply Forall_repeat; unfold is_u8; lia|apply Forall_repeat; unfold is_u8; lia].
Qed.

(** Witness of C13: a table of 70 bytes keeps the last of three fields of 34, 35
    and 36 bytes. *)
Lemma dyntable_history_witness :
  exists t, dyn_run (quic_qpack_dyn_init blank_ring 70) [([97], [98]); ([97], [98; 99]); ([97; 97], [1; 2])] [] =
      Some (t, [([97], [98]); ([97], [98; 99]); ([97; 97], [1; 2])]) /\
    count t = 1 /\ dropped t = 2 /\ quic_qpack_dyn_size t = 36.
Proof.
  destruct (dyntable_history blank_ring 70 [([97], [98]); ([97], [98; 99]); ([97; 97], [1; 2])])
    as (t & Hrun & Hc & Hd & Hs & _).
  - by vm_compute.
  - exact blank_ring_wf.
  - unfold is_u64. lia.
  - repeat constructor; unfold is_u8; cbn; try lia.
  - by vm_compute.
  - exists t. exact (conj Hrun (conj Hc (conj Hd Hs))).
Defined.

(** A table that holds 64 entries refuses every insertion from then on: the room
    for the entry is checked before the eviction that would make it. *)
Theorem dyn_full_stuck t a name nl value vl :
  represents t a -> zlen (a_live a) = QUIC_QPACK_DYN_MAX_ENTRIES ->
  quic_qpack_dyn_insert t name nl value vl = Some (false, t).
Proof.
  intros Hr Hfull. unfold quic_qpack_dyn_insert, can_insert. rewrite (rp_count _ _ Hr), Hfull, Z.ltb_irrefl.
  by destruct (negb (fits_fields nl vl)), (capacity t <? entry_size nl vl).
Qed.

(** 64 empty fields in a table of 4096 bytes: 2048 bytes are free, yet the next
    field is refused. *)
Example dyn_full_reached :
  exists t acc, dyn_run (quic_qpack_dyn_init blank_ring 4096) (repeat ([], []) 64) [] = Some (t, acc) /\
    quic_qpack_dyn_size t = 2048 /\ quic_qpack_dyn_insert t [97] 1 [98] 1 = Some (false, t).
Proof. eexists _, _. split; [vm_compute; reflexivity|]. split; by vm_compute. Qed.

(** ** Required Insert Count *)

Lemma candidate_mod F M e : 0 < F -> 1 <= e <= F -> (M / F * F + e - 1) mod F = e - 1.
Proof.
  intros HF He. replace (M / F * F + e - 1) with (e - 1 + M / F * F) by lia.
  rewrite Z.mod_add by lia. apply Z.mod_small. lia.
Qed.

(** The window of width [F] below [M] holds one number of each residue. *)
Lemma window_unique F M e c z : 0 < F -> 1 <= e <= F -> c = M / F * F + e - 1 ->
  z mod F = e - 1 -> M - F < z <= M -> z = if c <=? M then c else c - F.
Proof.
  intros HF He -> Hz Hr. pose proof (candidate_mod F M e HF He) as Hc.
  pose proof (Z.div_mod M F ltac:(lia)). pose proof (Z.mod_pos_bound M F HF).
  set (c := M / F * F + e - 1) in *.
  assert (Hzc : (z - c) mod F = 0) by (rewrite Zminus_mod, Hz, Hc, Z.sub_diag; apply Z.mod_0_l; lia).
  apply Z.mod_divide in Hzc as [k Hk]; [|lia].
  assert (Hcr : M - F < c < M + F) by (unfold c; lia).
  destruct (Z.leb_spec c M).
  - assert (k = 0) as -> by nia. lia.
  - assert (k = -1) as -> by nia. lia.
Qed.

(** [quic_qpack_ric_decode] inverts [quic_qpack_ric_encode] exactly on the
    window RFC 9204 section 4.5.1.1 allows: an encoded count is accepted as [ric]
    if and only if [ric] encodes to it and lies within [max_entries] below and
    above the number of insertions received, and zero stands for zero. *)
Theorem ric_exact encoded max_entries total_inserts ric :
  0 < max_entries -> 0 <= total_inserts -> total_inserts + 3 * max_entries < 18446744073709551616 ->
  is_u64 encoded ->
  exists r, quic_qpack_ric_decode encoded max_entries total_inserts = Some r /\
    (r = Some ric <-> (0 <= ric /\ quic_qpack_ric_encode ric max_entries = Some encoded /\
       (ric = 0 \/ total_inserts - max_entries < ric <= total_inserts + max_entries))).
Proof.
  intros Hm Ht Hw He. unfold quic_qpack_ric_decode, quic_qpack_ric_encode, ric_resolve, ric_candidate, is_u64 in *.
  rewrite (u64_id (2 * max_entries)), (u64_id (total_inserts + max_entries)) by (unfold is_u64; lia).
  set (F := 2 * max_entries) in *. set (M := total_inserts + max_entries) in *. zfalse (F =? 0).
  assert (HF : 0 < F) by lia. assert (HmodF : forall z, 0 <= z mod F < F) by (intros; apply Z.mod_pos_bound; lia).
  assert (Henc : forall z, (z mod F +w 1) = z mod F + 1) by (intros z; specialize (HmodF z); by unwrap).
  rewrite Henc. destruct (Z.eqb_spec encoded 0) as [->|Hne].
  - exists (Some 0). split; [done|]. destruct (Z.eqb_spec ric 0) as [->|Hz]; [split; [intros _; split_and!; [lia|done|by left]|done]|].
    split; [congruence|]. intros (_ & [= Hx] & _). specialize (HmodF ric). lia.
  - destruct (Z.ltb_spec F encoded) as [Hbig|Hsm].
    { exists None. split; [done|]. split; [done|]. intros (_ & Hx & _).
      destruct (Z.eqb_spec ric 0); [congruence|]. injection Hx as Hx. specialize (HmodF ric). lia. }
    pose proof (Z.div_mod M F ltac:(lia)) as Hdm. pose proof (HmodF M) as HM.
    assert (Hq : 0 <= M / F) by (apply Z.div_pos; lia).
    assert (Hmw : 0 <= M / F * F <= M) by nia. rewrite (u64_id (M / F * F)) by (unfold is_u64; lia). unwrap.
    set (c := M / F * F + encoded - 1).
    assert (Hcm : c mod F = encoded - 1) by (apply candidate_mod; lia).
    assert (Huniq : forall z, z mod F = encoded - 1 -> M - F < z <= M -> z = if c <=? M then c else c - F)
      by (intros; eapply window_unique; eauto; lia).
    unfold ric_correct. destruct (Z.leb_spec c M) as [Hc|Hc].
    + eexists. split; [done|]. destruct (Z.eqb_spec c 0) as [Hc0|Hc0].
      * split; [done|]. intros (Hr0 & Hx & Hw'). destruct (Z.eqb_spec ric 0); [congruence|]. injection Hx as Hx.
        assert (ric = c) by (apply Huniq; lia). lia.
      * split.
        -- intros [= <-]. zfalse (c =? 0). split_and!; [lia|f_equal; lia|]. right. lia.
        -- intros (Hr0 & Hx & Hw'). destruct (Z.eqb_spec ric 0); [congruence|]. injection Hx as Hx.
           f_equal. symmetry. apply Huniq; lia.
    + destruct (Z.leb_spec c F) as [HcF|HcF].
      * eexists. split; [done|]. split; [done|]. intros (Hr0 & Hx & Hw').
        destruct (Z.eqb_spec ric 0); [congruence|]. injection Hx as Hx.
        assert (ric = c - F) by (apply Huniq; lia). lia.
      * unwrap. eexists. split; [done|]. zfalse (c - F =? 0). split.
        -- intros [= <-]. zfalse (c - F =? 0). split_and!; [lia| |right; lia]. f_equal.
           replace (c - F) with (c + (-1) * F) by lia. rewrite Z.mod_add by lia. lia.
        -- intros (Hr0 & Hx & Hw'). destruct (Z.eqb_spec ric 0); [congruence|]. injection Hx as Hx.
           f_equal. symmetry. apply Huniq; lia.
Qed.

(** Witness: the example of RFC 9204 section 4.5.1.1 with 100-byte tables. *)
Lemma ric_exact_witness :
  exists r, quic_qpack_ric_decode 4 3 10 = Some r /\
    (r = Some 9 <-> (0 <= 9 /\ quic_qpack_ric_encode 9 3 = Some 4 /\ (9 = 0 \/ 10 - 3 < 9 <= 10 + 3))).
Proof. exact (ric_exact 4 3 10 9 ltac:(lia) ltac:(lia) ltac:(lia) ltac:(unfold is_u64; lia)). Defined.

Example ric_rfc_example : quic_qpack_ric_decode 4 3 10 = Some (Some 9).
Proof. by vm_compute. Qed.

(** With no dynamic table the encoder divides by zero for any non-zero count. *)
Example ric_encode_traps ric : ric <> 0 -> quic_qpack_ric_encode ric 0 = None.
Proof. intros H. unfold quic_qpack_ric_encode. by rewrite (proj2 (Z.eqb_neq ric 0) H). Qed.

(** ** The static table *)

Definition nonzero (x : Z) : Prop := x <> 0.

Lemma str_eq_spec a : forall b p q, Forall nonzero a -> Forall nonzero b ->
  str_eq (a ++ 0 :: p) (b ++ 0 :: q) = Some (bool_decide (a = b)).
Proof.
  induction a as [|x a IH]; intros b p q Ha Hb.
  - destruct b as [|y b]; [done|]. apply List.Forall_cons_iff in Hb as [Hy _]. cbn [app str_eq].
    unfold nonzero in Hy. zdecide. done.
  - apply List.Forall_cons_iff in Ha as [Hx Ha]. unfold nonzero in Hx. destruct b as [|y b]; cbn [app str_eq]; [by zdecide|].
    apply List.Forall_cons_iff in Hb as [Hy Hb]. destruct (Z.eqb_spec x y) as [->|Hne].
    + zdecide. rewrite IH by done. f_equal. apply bool_decide_ext. split; congruence.
    + rewrite bool_decide_eq_false_2; [done|congruence].
Qed.

(** No name or value of the table contains a NUL. *)
Definition row_bytes (r : string * string) : list Z * list Z := (c_bytes (fst r), c_bytes (snd r)).

Lemma rows_nonzero r : In r table_rows -> Forall nonzero (c_bytes (fst r)) /\ Forall nonzero (c_bytes (snd r)).
Proof.
  intros Hr. assert (Hall : forallb (fun r => forallb (fun x => negb (x =? 0)) (c_bytes (fst r) ++ c_bytes (snd r))) table_rows = true)
    by by vm_compute.
  rewrite forallb_forall in Hall. specialize (Hall r Hr). rewrite forallb_forall in Hall.
  split; apply List.Forall_forall; intros x Hx; specialize (Hall x ltac:(apply in_or_app; auto)); by zbool.
Qed.

Lemma static_find_loop_spec rows name value p q : forall i,
  (forall r, In r rows -> Forall nonzero (c_bytes (fst r)) /\ Forall nonzero (c_bytes (snd r))) ->
  Forall nonzero name -> Forall nonzero value ->
  static_find_loop (List.map (fun e => (c_str (fst e), c_str (snd e))) rows) i (name ++ 0 :: p) (value ++ 0 :: q) =
  Some (match first_at (fun r => field_is name value (row_bytes r)) rows i with Some k => k | None => -1 end).
Proof.
  induction rows as [|r rows IH]; intros i Hr Hn Hv; [done|]. cbn [List.map static_find_loop first_at].
  destruct (Hr r (or_introl eq_refl)) as [H1 H2]. unfold entry_eq, c_str. cbn [fst snd]. rewrite !str_eq_spec by done.
  unfold field_is at 1, row_bytes at 1. specialize (IH (i + 1) (fun r' H => Hr r' (or_intror H)) Hn Hv).
  unfold c_str in IH. case_bool_decide as E1; case_bool_decide as E3; try case_bool_decide as E2; try done; congruence.
Qed.

(** [quic_qpack_static_find] returns the first row with the name and the value,
    or -1; what follows the terminating NULs does not matter. *)
Theorem static_find_exact name value p q : Forall nonzero name -> Forall nonzero value ->
  quic_qpack_static_find (name ++ 0 :: p) (value ++ 0 :: q) =
  Some (match first_at (fun r => field_is name value (row_bytes r)) table_rows 0 with Some k => k | None => -1 end).
Proof. intros Hn Hv. apply static_find_loop_spec; [apply rows_nonzero|done|done]. Qed.

Lemma cstr_len_spec a p : Forall nonzero a -> quic_qdyn_cstr_len (a ++ 0 :: p) = Some (zlen a).
Proof.
  induction a as [|x a IH]; intros Ha; [done|]. apply List.Forall_cons_iff in Ha as [Hx Ha]. unfold nonzero in Hx.
  cbn [app quic_qdyn_cstr_len]. zdecide. rewrite IH by done. simpl mbind. rewrite zlen_cons. f_equal. lia.
Qed.

(** The table entry of a row. *)
Lemma static_get_row i r : load table_rows i = Some r ->
  quic_qpack_static_get i = Some (Some (c_str (fst r), c_str (snd r))).
Proof.
  intros Hr. pose proof (load_range _ _ _ Hr) as Hi. change (zlen table_rows) with 99 in Hi.
  unfold quic_qpack_static_get, QUIC_QPACK_STATIC_COUNT. zfalse (99 <=? i).
  unfold load, table in *. revert Hr. zdecide. intros Hr. rewrite list_lookup_fmap. by rewrite Hr.
Qed.

Lemma resolve_static_spec i : 0 <= i ->
  match load table_rows i with
  | Some r => exists f, resolve_static i = Some (Some f) /\ shows f (row_bytes r)
  | None => resolve_static i = Some None
  end.
Proof.
  intros Hi. unfold resolve_static. destruct (load table_rows i) as [r|] eqn:E.
  - rewrite (static_get_row _ _ E). destruct (rows_nonzero r) as [H1 H2]; [by apply list_elem_of_In; eapply load_elem|].
    unfold c_str. rewrite !cstr_len_spec by done. simpl mbind. eexists. split; [done|].
    unfold shows, row_bytes. cbn [fst snd]. rewrite !take_app_length. done.
  - unfold quic_qpack_static_get, QUIC_QPACK_STATIC_COUNT. destruct (Z.leb_spec 99 i); [done|].
    destruct (load_is_Some table_rows i) as [x Hx]; [change (zlen table_rows) with 99; lia|congruence].
Qed.

(** ** References *)

Lemma first_at_spec {A} (p : A -> bool) l : forall i k, first_at p l i = Some k ->
  exists x, load l (k - i) = Some x /\ p x = true.
Proof.
  induction l as [|y l IH]; intros i k; cbn [first_at]; [done|]. destruct (p y) eqn:E.
  - intros [= <-]. exists y. by rewrite Z.sub_diag.
  - intros H. destruct (IH (i + 1) k H) as (x & Hx & Hp). exists x. split; [|done].
    pose proof (load_range _ _ _ Hx). change (y :: l) with ([y] ++ l).
    rewrite load_app_r by (change (zlen [y]) with 1; lia). change (zlen [y]) with 1.
    by replace (k - i - 1) with (k - (i + 1)) by lia.
Qed.

Lemma indexed_bytes_len i s : 0 < zlen (indexed_bytes i s).
Proof. apply zlen_int_bytes. Qed.

(** Reference round trip over the dynamic table: when [quic_qpack_dyn_find]
    reports a full match at absolute index [i], the indexed field line that
    [quic_qdyn_indexed_dynamic] writes for it relative to any [base] above [i]
    resolves, through [quic_qdyn_decode_field] with the same base, to exactly
    that name and value, consuming exactly the bytes written. *)
Theorem dynamic_reference_roundtrip t a name value i base buf cap :
  represents t a -> 0 <= a_dropped a -> is_u64 (a_dropped a + QUIC_QPACK_DYN_MAX_ENTRIES) ->
  Forall is_u8 name -> Forall is_u8 value ->
  quic_qpack_dyn_find t name (zlen name) value (zlen value) = Some (Some (i, true)) ->
  i < base < max_object -> zlen (indexed_bytes (base - i - 1) false) <= cap -> cap <= zlen buf -> zlen buf < max_object ->
  exists used buf' r, quic_qdyn_indexed_dynamic (base - i - 1) buf cap = Some (used, buf') /\ 0 < used /\
    quic_qdyn_decode_field t base buf' (zlen buf) 0 = Some (Some (r, used)) /\ shows r (name, value).
Proof.
  intros Hr Hd0 Hd Un Uv Hfind Hb Hfit Hcap Ho. rewrite (find_refines t a) in Hfind by done. injection Hfind as Hfind.
  unfold a_find in Hfind. destruct (first_at _ _ _) as [k|] eqn:E; [|by destruct (first_at (name_is name) (a_live a) (a_dropped a))].
  injection Hfind as ->. destruct (first_at_spec _ _ _ _ E) as (f & Hl & Hf).
  apply bool_decide_eq_true in Hf as ->. pose proof (load_range _ _ _ Hl) as Hrange.
  pose proof (rp_room _ _ Hr). unfold max_object in *.
  assert (Hi : 0 <= i) by lia. set (rel := base - i - 1) in *.
  pose proof (indexed_bytes_len rel false). pose proof (zlen_nonneg buf).
  destruct (dec_roundtrip (quic_qpack_indexed_encode rel false) quic_qpack_indexed_decode (indexed_bytes rel false)
    (rel, false) buf cap (zlen buf)) as (buf' & He & Hdec); try done; try (unfold max_object; lia).
  { apply indexed_encodes. unfold is_u64, rel. lia. }
  { apply indexed_decodes. unfold rel. change (2 ^ 63) with 9223372036854775808. lia. }
  revert Hdec. ztrue (zlen (indexed_bytes rel false) <=? zlen buf). intros Hdec.
  pose proof (get_refines t a i Hr Hd0 Hd ltac:(unfold is_u64; lia)) as Hg. unfold a_get in Hg. rewrite Hl in Hg.
  destruct Hg as (r & Hg & Hs). exists (zlen (indexed_bytes rel false)), buf', r. split_and!; try done.
  unfold quic_qdyn_decode_field. change (Z.to_nat 0) with 0%nat. rewrite drop_0, Z.sub_0_r, u64_id, Hdec by (unfold is_u64; lia).
  unfold resolve_dynamic, quic_qpack_rel_to_abs. unfold rel. unwrap. by replace (base - (base - i - 1) - 1) with i by lia; rewrite Hg.
Qed.

(** Witness: one field inserted, found at index 0 and referenced from base 1. *)
Lemma dynamic_reference_roundtrip_witness :
  exists t acc used buf' r, dyn_run (quic_qpack_dyn_init blank_ring 100) [([97], [98])] [] = Some (t, acc) /\
    quic_qdyn_indexed_dynamic 0 (repeat 0 4) 4 = Some (used, buf') /\ 0 < used /\
    quic_qdyn_decode_field t 1 buf' 4 0 = Some (Some (r, used)) /\ shows r ([97], [98]).
Proof.
  destruct (dyn_run_after 100 [([97], [98])] (quic_qpack_dyn_init blank_ring 100) []) as (t & Hrun & Hr & _).
  - apply represents_init; [by vm_compute|exact blank_ring_wf].
  - repeat constructor; unfold is_u8; cbn; lia.
  - lia.
  - by vm_compute.
  - assert (Hc : (r ← dyn_run (quic_qpack_dyn_init blank_ring 100) [([97], [98])] [];
      Some (quic_qpack_dyn_find (fst r) [97] 1 [98] 1, dropped (fst r))) = Some (Some (Some (0, true)), 0)) by by vm_compute.
    rewrite Hrun in Hc. simpl in Hc. injection Hc as Hfind Hd.
    pose proof (rp_dropped _ _ Hr) as Hd'. cbn [a_dropped] in Hd'.
    destruct (dynamic_reference_roundtrip t _ [97] [98] 0 1 (repeat 0 4) 4 Hr) as (used & buf' & r & H1 & H2 & H3 & H4).
    + cbn [a_dropped]. lia.
    + cbn [a_dropped]. unfold is_u64, QUIC_QPACK_DYN_MAX_ENTRIES. lia.
    + repeat constructor; lia.
    + repeat constructor; lia.
    + exact Hfind.
    + unfold max_object. lia.
    + by vm_compute.
    + by vm_compute.
    + by vm_compute.
    + exists t, (accepted_fields 100 [] [([97], [98])]), used, buf', r. exact (conj Hrun (conj H1 (conj H2 (conj H3 H4)))).
Defined.
