(* ===== verification/H3Core.v ===== *)
(** HTTP/3 framing and the control stream ([app/http3/core]).

    [h3/frame.c] (the frame codec, the single-varint frames and SETTINGS), the
    per-frame rules of [frame_permit.c], [firstframe.c], [grease.c],
    [stream_type.c], [critical.c], [settings_check.c], [settings_dup.c],
    [goaway_check.c] and [pushid.c], the control-stream state of [control.c] and
    [h3run], and the opening of a connection ([h3settings], [h3conn/establish.c],
    [server/h3srv/control.c], [peer.c]).  A payload view is the list of bytes it
    points at. *)
From S2P Require Import Prelude.
From S2P Require Import Buffers.
From S2P Require Import Varint.
From S2P Require Import Frames.
From S2P Require Import QpackInt.

(** * frame.h *)

Definition QUIC_H3_FRAME_DATA : Z := 0x00.
Definition QUIC_H3_FRAME_HEADERS : Z := 0x01.
Definition QUIC_H3_FRAME_CANCEL_PUSH : Z := 0x03.
Definition QUIC_H3_FRAME_SETTINGS : Z := 0x04.
Definition QUIC_H3_FRAME_PUSH_PROMISE : Z := 0x05.
Definition QUIC_H3_FRAME_GOAWAY : Z := 0x07.
Definition QUIC_H3_FRAME_MAX_PUSH_ID : Z := 0x0d.

Definition QUIC_H3_STREAM_CONTROL : Z := 0x00.
Definition QUIC_H3_STREAM_PUSH : Z := 0x01.
Definition QUIC_H3_STREAM_QPACK_ENCODER : Z := 0x02.
Definition QUIC_H3_STREAM_QPACK_DECODER : Z := 0x03.

Definition QUIC_H3_NO_ERROR : Z := 0x0100.
Definition QUIC_H3_STREAM_CREATION_ERROR : Z := 0x0103.
Definition QUIC_H3_CLOSED_CRITICAL_STREAM : Z := 0x0104.
Definition QUIC_H3_FRAME_UNEXPECTED : Z := 0x0105.
Definition QUIC_H3_MISSING_SETTINGS : Z := 0x010a.
Definition QUIC_H3_REQUEST_CANCELLED : Z := 0x010c.
Definition QUIC_H3_VERSION_FALLBACK : Z := 0x0110.

Definition QUIC_H3_SETTINGS_MAX_FIELD_SECTION_SIZE : Z := 0x06.
Definition QUIC_H3_SETTINGS_MAX : Z := 8.

(** The [n] first pairs of the array. *)
Definition quic_h3_settings : Type := list (Z * Z).

(** * frame.c *)

Definition put_head (type len : Z) : wr := quic_varint_put type ;;; quic_varint_put len.

Definition quic_h3_frame_put (type : Z) (payload : list Z) (payload_len : Z) : list Z -> Z -> option (Z * list Z) :=
  encode_to (put_head type payload_len ;;; quic_put_bytes payload payload_len).

Definition get_head : rd (Z * Z) :=
  type <- quic_varint_take ;; len <- quic_varint_take ;; rd_ret (type, len).

(** The view [buf + off] of [len] bytes, behind [if (off + len > n) return 0]. *)
Definition take_view (len : Z) : rd (list Z) := fun buf n off =>
  if n <? off +w len then Some (None, off) else Some (Some (slice buf off len), off +w len).

Definition quic_h3_frame_get : dec (Z * list Z) :=
  decode_from 0 (h <- get_head ;; p <- take_view (snd h) ;; rd_ret (fst h, p)).

Definition put_one (type v : Z) : list Z -> Z -> option (Z * list Z) :=
  encode_to (put_head type (quic_varint_len v) ;;; quic_varint_put v).

Definition get_one_head (want_type : Z) : rd Z :=
  h <- get_head ;; u <- rd_guard (fst h =? want_type) ;; rd_ret (snd h).

Definition get_one_body (len : Z) : rd Z := fun buf n off =>
  match quic_varint_take buf n off with
  | None => None
  | Some (None, off') => Some (None, off')
  | Some (Some v, off') => Some (if off' -w off =? len then Some v else None, off')
  end.

Definition get_one (want_type : Z) : dec Z :=
  decode_from 0 (len <- get_one_head want_type ;; get_one_body len).

Definition quic_h3_cancel_push_put (push_id : Z) := put_one QUIC_H3_FRAME_CANCEL_PUSH push_id.
Definition quic_h3_cancel_push_get := get_one QUIC_H3_FRAME_CANCEL_PUSH.
Definition quic_h3_goaway_put (id : Z) := put_one QUIC_H3_FRAME_GOAWAY id.
Definition quic_h3_goaway_get := get_one QUIC_H3_FRAME_GOAWAY.
Definition quic_h3_max_push_id_put (push_id : Z) := put_one QUIC_H3_FRAME_MAX_PUSH_ID push_id.
Definition quic_h3_max_push_id_get := get_one QUIC_H3_FRAME_MAX_PUSH_ID.

Definition frame_put_pair (p : Z * Z) : wr := quic_varint_put (fst p) ;;; quic_varint_put (snd p).

Definition take_pair_id (s : quic_h3_settings) : rd Z :=
  u <- rd_guard (zlen s <? QUIC_H3_SETTINGS_MAX) ;; quic_varint_take.

Definition frame_take_pair (s : quic_h3_settings) : rd quic_h3_settings :=
  id <- take_pair_id s ;; value <- quic_varint_take ;; rd_ret (s ++ [(id, value)]).

(** Leaves the cursor at the first pair; the value is the payload's end. *)
Definition get_settings_head : rd Z := fun buf n off =>
  match get_head buf n off with
  | None => None
  | Some (None, off') => Some (None, off')
  | Some (Some (type, len), off') =>
      if negb (type =? QUIC_H3_FRAME_SETTINGS) then Some (None, off')
      else let end_ := off' +w len in
           Some (if end_ <=? n then Some end_ else None, off')
  end.

Fixpoint settings_body_len (s : quic_h3_settings) (total : Z) : Z :=
  match s with
  | [] => total
  | (id, value) :: s' => settings_body_len s' (total +w (quic_varint_len id +w quic_varint_len value))
  end.

(** A pair that does not fit does not end the loop. *)
Fixpoint put_settings_pairs (s : quic_h3_settings) (ok : bool) : wr := fun cap st =>
  match s with
  | [] => Some (ok, st)
  | p :: s' => match frame_put_pair p cap st with
               | None => None
               | Some (r, st') => put_settings_pairs s' (if r then ok else false) cap st'
               end
  end.

Definition put_settings_head (s : quic_h3_settings) : wr :=
  if QUIC_H3_SETTINGS_MAX <? zlen s then wr_no
  else put_head QUIC_H3_FRAME_SETTINGS (settings_body_len s 0).

Definition quic_h3_settings_put (s : quic_h3_settings) : list Z -> Z -> option (Z * list Z) :=
  encode_to (put_settings_head s ;;; put_settings_pairs s true).

(** [while ( *off < end)]: each round stores a pair and the ninth is refused, so
    nine rounds are enough. *)
Fixpoint get_settings_pairs (fuel : nat) (s : quic_h3_settings) : rd quic_h3_settings := fun buf end_ off =>
  if off <? end_
  then match fuel with
       | O => None
       | S f => rd_bind (frame_take_pair s) (get_settings_pairs f) buf end_ off
       end
  else Some (Some s, off).

Definition quic_h3_settings_get (buf : list Z) (n : Z) : option (option (quic_h3_settings * Z)) :=
  match get_settings_head buf n 0 with
  | None => None
  | Some (None, _) => Some None
  | Some (Some end_, off) => decode_from off (get_settings_pairs 9 []) buf end_
  end.

(** * Rules on frame and stream types *)

Inductive stream_kind := QUIC_H3_STREAM_KIND_CONTROL | QUIC_H3_STREAM_KIND_REQUEST | QUIC_H3_STREAM_KIND_PUSH.

Definition kind_bit (k : stream_kind) : Z :=
  match k with QUIC_H3_STREAM_KIND_CONTROL => 0 | QUIC_H3_STREAM_KIND_REQUEST => 1 | QUIC_H3_STREAM_KIND_PUSH => 2 end.

Definition permit_tab : list Z := [6; 6; 0; 1; 1; 2; 0; 1; 0; 0; 0; 0; 0; 1].

Definition permit_mask (frame_type : Z) : Z :=
  if zlen permit_tab <=? frame_type then 7
  else let m := nth (Z.to_nat frame_type) permit_tab 0 in if m =? 0 then 7 else m.

Definition quic_h3_frame_on_stream (frame_type : Z) (k : stream_kind) : bool :=
  Z.land (Z.shiftr (permit_mask frame_type) (kind_bit k)) 1 =? 1.

Definition quic_h3_first_frame_ok (k : stream_kind) (frame_type : Z) : bool :=
  match k with
  | QUIC_H3_STREAM_KIND_CONTROL => frame_type =? QUIC_H3_FRAME_SETTINGS
  | QUIC_H3_STREAM_KIND_REQUEST => frame_type =? QUIC_H3_FRAME_HEADERS
  | QUIC_H3_STREAM_KIND_PUSH => false
  end.

Definition quic_h3_is_reserved (value : Z) : bool :=
  if value <? 0x21 then false else (value - 0x21) mod 0x1f =? 0.

Definition quic_h3_error_is_known (code : Z) : bool :=
  (QUIC_H3_NO_ERROR <=? code) && (code <=? QUIC_H3_VERSION_FALLBACK).
Definition quic_h3_error_is_reserved (code : Z) : bool := quic_h3_is_reserved code.

Definition quic_h3_stream_type_parse : dec Z := decode_from 0 quic_varint_take.
Definition quic_h3_stream_type_is_control (type : Z) : bool := type =? QUIC_H3_STREAM_CONTROL.
Definition quic_h3_stream_type_is_push (type : Z) : bool := type =? QUIC_H3_STREAM_PUSH.
Definition quic_h3_stream_type_is_qpack (type : Z) : bool :=
  (type =? QUIC_H3_STREAM_QPACK_ENCODER) || (type =? QUIC_H3_STREAM_QPACK_DECODER).

Definition quic_h3_stream_is_critical (stream_type : Z) : bool :=
  (stream_type =? QUIC_H3_STREAM_CONTROL) || (stream_type =? QUIC_H3_STREAM_QPACK_ENCODER) ||
  (stream_type =? QUIC_H3_STREAM_QPACK_DECODER).
Definition quic_h3_critical_close_error (stream_type : Z) : Z :=
  if quic_h3_stream_is_critical stream_type then QUIC_H3_CLOSED_CRITICAL_STREAM else 0.

Definition QUIC_H3_SETTING_RESERVED_LOW : Z := 0x02.
Definition QUIC_H3_SETTING_RESERVED_HIGH : Z := 0x05.
Definition quic_h3_setting_allowed (id : Z) : bool :=
  (id <? QUIC_H3_SETTING_RESERVED_LOW) || (QUIC_H3_SETTING_RESERVED_HIGH <? id).

Definition QUIC_H3_SETTINGS_SEEN_MAX : Z := 16.
(** The [n] first identifiers of the array. *)
Definition quic_h3_settings_seen : Type := list Z.
Definition quic_h3_settings_seen_init : quic_h3_settings_seen := [].
Fixpoint seen (s : quic_h3_settings_seen) (id : Z) : bool :=
  match s with [] => false | x :: s' => if x =? id then true else seen s' id end.
Definition quic_h3_settings_mark (s : quic_h3_settings_seen) (id : Z) : bool * quic_h3_settings_seen :=
  if QUIC_H3_SETTINGS_SEEN_MAX <=? zlen s then (false, s)
  else if seen s id then (false, s) else (true, s ++ [id]).

Definition quic_h3_goaway_id_ok (id : Z) (from_server : bool) : bool := negb from_server || (id mod 4 =? 0).
Definition quic_h3_shutdown_processes (request_id goaway_limit : Z) : bool := request_id <? goaway_limit.
Definition quic_h3_shutdown_id_monotone (prev next : Z) : bool := next <=? prev.

Record quic_h3_push_state := Push { push_max : Z }.
Definition quic_h3_push_init : quic_h3_push_state := Push 0.
Definition quic_h3_push_set_max (s : quic_h3_push_state) (max : Z) : bool * quic_h3_push_state :=
  if max <? push_max s then (false, s) else (true, Push max).
Definition quic_h3_push_allowed (s : quic_h3_push_state) (id : Z) : bool := id <? push_max s.

Definition quic_h3_quarter_stream_id (stream_id : Z) : Z := stream_id / 4.
Definition quic_h3_stream_from_quarter (quarter : Z) : Z := quarter *w 4.

Definition quic_h3_content_length_ok (declared actual : Z) : bool := declared =? actual.
Definition quic_h3_content_length_exceeded (declared received_so_far : Z) : bool := declared <? received_so_far.
Definition quic_h3_field_section_ok (size max_size : Z) : bool := if max_size =? 0 then true else size <=? max_size.
Definition quic_h3_qpack_max_table (setting_value : Z) : Z := setting_value.
Definition quic_h3_qpack_blocked_streams (setting_value : Z) : Z := setting_value.

Definition QUIC_H3_URGENCY_DEFAULT : Z := 3.
Definition QUIC_H3_URGENCY_MAX : Z := 7.
Record quic_h3_priority := Prio { urgency : Z; incremental : bool }.
Definition quic_h3_priority_init : quic_h3_priority := Prio QUIC_H3_URGENCY_DEFAULT false.
Definition quic_h3_priority_higher (urg_a urg_b : Z) : bool := urg_a <? urg_b.
Definition quic_h3_urgency_valid (u : Z) : bool := u <=? QUIC_H3_URGENCY_MAX.

Definition quic_h3_conn_reusable (same_origin conn_alive version_compatible : bool) : bool :=
  same_origin && conn_alive && version_compatible.

(** * control.c *)

Inductive quic_h3_error :=
  QUIC_H3_ERR_NONE | QUIC_H3_ERR_STREAM_CREATION | QUIC_H3_ERR_CLOSED_CRITICAL
| QUIC_H3_ERR_MISSING_SETTINGS | QUIC_H3_ERR_FRAME_UNEXPECTED | QUIC_H3_ERR_ID.

#[export] Instance quic_h3_error_eq : EqDecision quic_h3_error.
Proof. solve_decision. Defined.

Record quic_h3_control := Ctl {
  control_open : bool; settings_seen : bool; goaway_seen : bool; goaway_limit : Z; error : quic_h3_error }.

Definition quic_h3_control_init : quic_h3_control := Ctl false false false 0 QUIC_H3_ERR_NONE.

Definition fail (c : quic_h3_control) (e : quic_h3_error) : quic_h3_control :=
  if bool_decide (error c = QUIC_H3_ERR_NONE)
  then Ctl (control_open c) (settings_seen c) (goaway_seen c) (goaway_limit c) e else c.

Definition quic_h3_control_open (c : quic_h3_control) : quic_h3_control :=
  let c := if control_open c then fail c QUIC_H3_ERR_STREAM_CREATION else c in
  Ctl true (settings_seen c) (goaway_seen c) (goaway_limit c) (error c).

Definition quic_h3_control_closed (c : quic_h3_control) : quic_h3_control := fail c QUIC_H3_ERR_CLOSED_CRITICAL.

Definition first_frame (c : quic_h3_control) (is_settings : bool) : quic_h3_control :=
  if negb is_settings then fail c QUIC_H3_ERR_MISSING_SETTINGS
  else Ctl (control_open c) true (goaway_seen c) (goaway_limit c) (error c).

Definition quic_h3_control_frame (c : quic_h3_control) (is_settings : bool) : quic_h3_control :=
  if negb (settings_seen c) then first_frame c is_settings
  else if is_settings then fail c QUIC_H3_ERR_FRAME_UNEXPECTED else c.

Definition goaway_increases (c : quic_h3_control) (id : Z) : bool := goaway_seen c && (goaway_limit c <? id).

Definition quic_h3_control_goaway (c : quic_h3_control) (id : Z) : quic_h3_control :=
  if goaway_increases c id then fail c QUIC_H3_ERR_ID
  else Ctl (control_open c) (settings_seen c) true id (error c).

Definition quic_h3_control_accept_request (c : quic_h3_control) (id : Z) : bool :=
  if negb (goaway_seen c) then true else id <? goaway_limit c.

(** * h3run *)

Definition quic_h3run_control_open (buf : list Z) (cap : Z) : option (Z * list Z) :=
  if cap <? 1 then Some (0, buf)
  else match store buf 0 0x00 with None => None | Some buf' => Some (1, buf') end.

Definition quic_h3_control_seen (count : Z) : bool * Z := if negb (count =? 0) then (false, count) else (true, 1).

Record quic_h3_goaway_state := Gst { gs_seen : bool; gs_last : Z }.
Definition quic_h3_goaway_ok (s : quic_h3_goaway_state) (id : Z) : bool * quic_h3_goaway_state :=
  if gs_seen s && (gs_last s <? id) then (false, s) else (true, Gst true id).

Definition quic_h3_settings_first (settings_done : bool) (first_frame_type : Z) : bool * bool :=
  if settings_done then (false, settings_done)
  else if negb (first_frame_type =? QUIC_H3_FRAME_SETTINGS) then (false, settings_done) else (true, true).

(** * h3settings *)

Definition quic_h3settings_control_prefix : list Z -> Z -> option (Z * list Z) :=
  encode_to (quic_varint_put QUIC_H3_STREAM_CONTROL).

Definition QPACK_MAX_TABLE_CAPACITY : Z := 0x01.
Definition QPACK_BLOCKED_STREAMS : Z := 0x07.

Definition quic_h3settings_build (max_field_section_size qpack_max_table_capacity qpack_blocked_streams : Z)
  : list Z -> Z -> option (Z * list Z) :=
  quic_h3_settings_put [(QUIC_H3_SETTINGS_MAX_FIELD_SECTION_SIZE, max_field_section_size);
                        (QPACK_MAX_TABLE_CAPACITY, qpack_max_table_capacity);
                        (QPACK_BLOCKED_STREAMS, qpack_blocked_streams)].

Definition DEFAULT_MAX_FIELD_SECTION_SIZE : Z := 0x4000.
Definition DEFAULT_QPACK_MAX_TABLE_CAP : Z := 0.
Definition DEFAULT_QPACK_BLOCKED_STREAMS : Z := 0.

Definition quic_h3settings_control_stream : list Z -> Z -> option (Z * list Z) :=
  enc_then quic_h3settings_control_prefix
    (emit_at (quic_h3settings_build DEFAULT_MAX_FIELD_SECTION_SIZE DEFAULT_QPACK_MAX_TABLE_CAP
                DEFAULT_QPACK_BLOCKED_STREAMS)).

(** * h3conn/establish.c *)

Definition QUIC_H3_CONTROL_STREAM_TYPE : Z := 0x00.

Definition quic_h3conn_open_control : list Z -> Z -> option (Z * list Z) := quic_h3settings_control_stream.

(** The offset of the first frame. *)
Definition skip_control_type (s : list Z) (len : Z) : option (option Z) :=
  match quic_varint_decode s len with
  | None => None
  | Some None => Some None
  | Some (Some (n, type)) =>
      if (n =? 0) || negb (type =? QUIC_H3_CONTROL_STREAM_TYPE) then Some None else Some (Some n)
  end.

Definition quic_h3conn_peer_settings_ok (control_stream : list Z) (len : Z) : option bool :=
  match skip_control_type control_stream len with
  | None => None
  | Some None => Some false
  | Some (Some off) =>
      match quic_h3_frame_get (drop (Z.to_nat off) control_stream) (len -w off) with
      | None => None
      | Some None => Some false
      | Some (Some ((ftype, _), _)) => Some (fst (quic_h3_settings_first false ftype))
      end
  end.

(** * server/h3srv: the server's side of the control streams *)

Record quic_h3srv_state := Srv { settings_sent : bool; peer_control : Z; peer_settings : bool; request_seen : bool }.

(** The state and what [quic_h3conn_open_control] returned. *)
Definition quic_h3srv_open_control (st : quic_h3srv_state) (out : list Z) (cap : Z)
  : option (Z * list Z * quic_h3srv_state) :=
  match quic_h3conn_open_control out cap with
  | None => None
  | Some (w, out') =>
      Some (w, out', if w =? 0 then st else Srv true (peer_control st) (peer_settings st) (request_seen st))
  end.

Definition is_second_settings (st : quic_h3srv_state) (ft : Z) : bool := peer_settings st && (ft =? QUIC_H3_FRAME_SETTINGS).
Definition is_second_control (st : quic_h3srv_state) (ft : Z) : bool := 1 <=? peer_control st.
Definition is_missing_settings (st : quic_h3srv_state) (ft : Z) : bool := negb (ft =? QUIC_H3_FRAME_SETTINGS).

Definition peer_control_rules : list ((quic_h3srv_state -> Z -> bool) * Z) :=
  [(is_second_settings, QUIC_H3_FRAME_UNEXPECTED); (is_second_control, QUIC_H3_STREAM_CREATION_ERROR);
   (is_missing_settings, QUIC_H3_MISSING_SETTINGS)].

Fixpoint peer_control_scan (rules : list ((quic_h3srv_state -> Z -> bool) * Z)) (st : quic_h3srv_state) (ft : Z) : Z :=
  match rules with
  | [] => 0
  | (hit, code) :: rules' => if hit st ft then code else peer_control_scan rules' st ft
  end.
Definition peer_control_error (st : quic_h3srv_state) (ft : Z) : Z := peer_control_scan peer_control_rules st ft.

(** The return value, [*err] and the state. *)
Definition quic_h3srv_on_peer_control (st : quic_h3srv_state) (first_frame_type : Z) : bool * Z * quic_h3srv_state :=
  let err := peer_control_error st first_frame_type in
  if negb (err =? 0) then (false, err, st)
  else (true, err, Srv (settings_sent st) 1 true (request_seen st)).

Definition quic_h3srv_accept_uni (stream_type : Z) : bool :=
  quic_h3_stream_type_is_control stream_type || quic_h3_stream_type_is_qpack stream_type.

(** * Frames on the wire *)

Definition h3frame_bytes (type : Z) (payload : list Z) : list Z :=
  varint_bytes type ++ varint_bytes (zlen payload) ++ payload.

Lemma decodes_from0 {A} (p : rd A) bs a : Reads p bs a -> Decodes (decode_from 0 p) bs a.
Proof.
  intros Hp post n Hn Ho. pose proof (decode_from_reads p [] bs post a n Hp) as Hd. change (zlen (@nil Z)) with 0 in Hd.
  exact (Hd ltac:(lia) ltac:(apply Hn) Ho).
Qed.

Lemma varint_take_advances buf n off v off' : Forall is_u8 buf -> 0 <= off <= n -> n <= zlen buf -> n < max_object ->
  quic_varint_take buf n off = Some (Some v, off') -> off < off'.
Proof.
  intros Hb Hoff Hn Ho. unfold quic_varint_take, quic_varint_decode. unwrap.
  destruct (Z.eqb_spec (n - off) 0); [done|].
  destruct (load (drop (Z.to_nat off) buf) 0) as [b|] eqn:Eb; [|done]. cbv zeta.
  assert (Hu : is_u8 b) by (eapply load_u8; [by apply Forall_drop|done]).
  set (need := nth _ _ _). assert (Hneed : 1 <= need <= 8).
  { unfold need, is_u8 in *. rewrite Z.shiftr_div_pow2 by lia. change (2 ^ 6) with 64.
    assert (0 <= b / 64 < 4) by (split; [apply Z.div_pos; lia|apply Z.div_lt_upper_bound; lia]).
    assert (b / 64 = 0 \/ b / 64 = 1 \/ b / 64 = 2 \/ b / 64 = 3) as [->|[->|[->| ->]]] by lia; simpl; lia. }
  destruct (Z.ltb_spec (n - off) need); [done|]. destruct (get_be _ need); [|done].
  intros [= <- <-]. unwrap. lia.
Qed.

Lemma safedec_from0 {A} (p : rd A) (Q : A -> Prop) : SafeRd p Q ->
  (forall buf n a off, Forall is_u8 buf -> 0 <= n <= zlen buf -> n < max_object ->
     p buf n 0 = Some (Some a, off) -> 0 < off) ->
  SafeDec (decode_from 0 p) Q.
Proof.
  intros Hp Hpos buf n Hb Hn Ho. unfold decode_from.
  destruct (Hp buf n 0 Hb ltac:(lia) ltac:(lia) Ho) as ([a|] & off & Hr & Hoff & HQ); rewrite Hr.
  - eexists. split; [done|]. intros ? ? [= <- <-]. specialize (Hpos buf n a off Hb Hn Ho Hr). split; [auto|lia].
  - by exists None.
Qed.

Lemma reads_take_view bs : zlen bs < max_object -> Reads (take_view (zlen bs)) bs bs.
Proof. intros H. exact (reads_read_bytes bs (zlen bs) eq_refl H). Qed.

Lemma saferd_take_view len : is_varint len -> SafeRd (take_view len) (fun d => zlen d = len /\ Forall is_u8 d).
Proof.
  unfold is_varint, QUIC_VARINT_MAX. intros Hl buf n off Hb Hoff Hn Hobj. unfold take_view. unwrap.
  destruct (Z.ltb_spec n (off + len)); [exists None, off; split_and!; done || lia|].
  eexists _, _. split; [done|]. split; [lia|]. intros ? [= <-]. split; [apply zlen_slice; lia|].
  unfold slice. by apply Forall_take, Forall_drop.
Qed.

Lemma h3_frame_encodes type payload : is_varint type -> is_varint (zlen payload) ->
  Encodes (quic_h3_frame_put type payload (zlen payload)) (h3frame_bytes type payload).
Proof.
  intros Ht Hp. apply encodes_to. unfold put_head, h3frame_bytes. rewrite app_assoc.
  apply writes_seq; [by apply writes_seq; apply writes_varint|]. apply writes_put_bytes_all. by apply varint_lt_object.
Qed.

Lemma reads_get_head type len : is_varint type -> is_varint len ->
  Reads get_head (varint_bytes type ++ varint_bytes len) (type, len).
Proof.
  intros Ht Hl. unfold get_head. eapply reads_bind; [by apply reads_varint|].
  eapply reads_bind_last; [by apply reads_varint|apply reads_ret].
Qed.

Lemma saferd_get_head : SafeRd get_head (fun h => is_varint (fst h) /\ is_varint (snd h)).
Proof.
  unfold get_head. eapply saferd_bind; [apply saferd_varint|intros t Ht].
  eapply saferd_bind; [apply saferd_varint|intros l Hl]. by apply saferd_ret.
Qed.

Lemma h3_frame_decodes type payload : is_varint type -> is_varint (zlen payload) ->
  Decodes quic_h3_frame_get (h3frame_bytes type payload) (type, payload).
Proof.
  intros Ht Hp. apply decodes_from0. unfold h3frame_bytes. rewrite app_assoc.
  eapply reads_bind; [by apply reads_get_head|]. cbn [fst snd].
  eapply reads_bind_last; [apply reads_take_view; by apply varint_lt_object|apply reads_ret].
Qed.

Lemma get_head_advances buf n off h off' : Forall is_u8 buf -> 0 <= off <= n -> n <= zlen buf -> n < max_object ->
  get_head buf n off = Some (Some h, off') -> off < off'.
Proof.
  intros Hb Hoff Hn Ho. unfold get_head, rd_bind.
  destruct (saferd_varint buf n off Hb Hoff Hn Ho) as ([t|] & o1 & E1 & H1 & _); rewrite E1; [|done].
  destruct (saferd_varint buf n o1 Hb ltac:(lia) Hn Ho) as ([l|] & o2 & E2 & H2 & _); rewrite E2; [|done].
  intros [= <- <-]. apply varint_take_advances in E1; try done. lia.
Qed.

#[export] Instance safedec_h3_frame : SafeDec quic_h3_frame_get
    (fun f => is_varint (fst f) /\ Forall is_u8 (snd f) /\ is_varint (zlen (snd f))).
Proof.
  apply safedec_from0.
  - eapply saferd_bind; [apply saferd_get_head|intros [t l] [Ht Hl]]. cbn [fst snd] in *.
    eapply saferd_bind; [by apply saferd_take_view|intros p [Hlp Hp]]. apply saferd_ret. cbn [fst snd]. by rewrite Hlp.
  - intros buf n a off Hb Hn Ho. unfold rd_bind at 1.
    destruct (saferd_get_head buf n 0 Hb ltac:(lia) ltac:(lia) Ho) as ([[t l]|] & o1 & E1 & H1 & HQ); rewrite E1; [|done].
    apply get_head_advances in E1; try done; [|lia|lia]. destruct (HQ _ eq_refl) as [_ Hl]. cbn [fst snd] in *.
    unfold rd_bind. destruct (saferd_take_view l Hl buf n o1 Hb ltac:(lia) ltac:(lia) Ho) as ([p|] & o2 & -> & H2 & _); [|done].
    intros [= <- <-]. lia.
Qed.

(** ** Frames that hold one varint *)

Definition one_bytes (type v : Z) : list Z := h3frame_bytes type (varint_bytes v).

Lemma one_roundtrip type v : is_varint type -> is_varint v ->
  Encodes (put_one type v) (one_bytes type v) /\ Decodes (get_one type) (one_bytes type v) v.
Proof.
  intros Ht Hv. pose proof (varint_len_pos v Hv). pose proof (zlen_varint_bytes v Hv) as Hz.
  assert (Hl : is_varint (quic_varint_len v)) by (unfold is_varint, QUIC_VARINT_MAX; lia).
  unfold one_bytes, h3frame_bytes. rewrite Hz, app_assoc. split.
  - apply encodes_to. unfold put_head. apply writes_seq; [by apply writes_seq; apply writes_varint|by apply writes_varint].
  - apply decodes_from0. unfold get_one_head. eapply reads_bind.
    + eapply reads_bind_last; [by apply reads_get_head|]. cbn [fst snd].
      apply reads_guard_then; [apply Z.eqb_refl|apply reads_ret].
    + intros pre post n H1 H2 H3. unfold get_one_body. pose proof (reads_varint v pre post n H1 H2 H3) as Hr.
      pose proof (zlen_nonneg pre). rewrite Hz in *. destruct (_ <=? n) eqn:E.
      * rewrite Hr. zbool. unwrap. replace (zlen pre + quic_varint_len v - zlen pre) with (quic_varint_len v) by lia.
        by rewrite Z.eqb_refl.
      * destruct Hr as [off' ->]. by exists off'.
Qed.

(** ** SETTINGS *)

Definition pair_bytes (p : Z * Z) : list Z := varint_bytes (fst p) ++ varint_bytes (snd p).
Definition pairs_bytes (s : quic_h3_settings) : list Z := concat (map pair_bytes s).
Definition settings_bytes (s : quic_h3_settings) : list Z := h3frame_bytes QUIC_H3_FRAME_SETTINGS (pairs_bytes s).
Definition pair_ok (p : Z * Z) : Prop := is_varint (fst p) /\ is_varint (snd p).

Lemma put_pairs_false s : Forall pair_ok s -> forall cap buf off,
  0 <= off <= cap -> cap <= zlen buf -> cap < max_object ->
  exists buf' off', put_settings_pairs s false cap (buf, off) = Some (false, (buf', off')) /\
    zlen buf' = zlen buf /\ off <= off' <= cap /\ drop (Z.to_nat cap) buf' = drop (Z.to_nat cap) buf.
Proof.
  induction s as [|p s IH]; intros Hs cap buf off Hoff Hcap Ho; cbn [put_settings_pairs].
  - exists buf, off. split_and!; done || lia.
  - apply List.Forall_cons_iff in Hs as [[H1 H2] Hs].
    assert (Hw : BoundedWr (frame_put_pair p)) by (apply bounded_seq; eapply writes_bounded; by apply writes_varint).
    destruct (Hw cap buf off Hoff Hcap Ho) as (r & b1 & o1 & -> & L1 & R1 & D1).
    replace (if r then false else false) with false by by destruct r.
    destruct (IH Hs cap b1 o1) as (b2 & o2 & -> & L2 & R2 & D2); [lia|lia|done|].
    exists b2, o2. split_and!; try done; try lia; congruence.
Qed.

Lemma put_pairs_writes s : Forall pair_ok s -> Writes (put_settings_pairs s true) (pairs_bytes s).
Proof.
  induction s as [|p s IH]; intros Hs; [exact writes_ok_nil|].
  apply List.Forall_cons_iff in Hs as [[H1 H2] Hs]. specialize (IH Hs). intros cap buf off Hoff Hcap Ho.
  assert (Hw : Writes (frame_put_pair p) (pair_bytes p)) by (apply writes_seq; by apply writes_varint).
  pose proof (writes_seq _ _ _ _ Hw IH cap buf off Hoff Hcap Ho) as Hseq.
  unfold pairs_bytes in *. cbn [map concat put_settings_pairs]. unfold wr_seq in Hseq.
  specialize (Hw cap buf off Hoff Hcap Ho). pose proof (zlen_nonneg (concat (map pair_bytes s))).
  destruct (Z.leb_spec (off + zlen (pair_bytes p)) cap) as [Hfit|Hno].
  - rewrite Hw in *. exact Hseq.
  - rewrite zlen_app. zdecide. destruct Hw as (b1 & o1 & -> & L1 & R1 & D1).
    destruct (put_pairs_false s Hs cap b1 o1) as (b2 & o2 & -> & L2 & R2 & D2); [lia|lia|done|].
    exists b2, o2. split_and!; try done; try lia; congruence.
Qed.

Lemma zlen_pair_bytes p : pair_ok p -> zlen (pair_bytes p) = quic_varint_len (fst p) + quic_varint_len (snd p) /\ 2 <= zlen (pair_bytes p) <= 16.
Proof.
  intros [H1 H2]. unfold pair_bytes. rewrite zlen_app, !zlen_varint_bytes by done.
  pose proof (varint_len_pos _ H1). pose proof (varint_len_pos _ H2). lia.
Qed.

Lemma settings_body_len_spec s : forall total, Forall pair_ok s -> 0 <= total -> total + 16 * zlen s < max_object ->
  settings_body_len s total = total + zlen (pairs_bytes s) /\ zlen (pairs_bytes s) <= 16 * zlen s.
Proof.
  induction s as [|[i v] s IH]; intros total Hs Ht Hl; [by change (zlen (pairs_bytes [])) with 0; rewrite Z.add_0_r|].
  apply List.Forall_cons_iff in Hs as [Hp Hs]. unfold pairs_bytes in *. cbn [settings_body_len map concat].
  destruct (zlen_pair_bytes (i, v) Hp) as [Hz Hb]. cbn [fst snd] in Hz. rewrite zlen_cons in *. rewrite zlen_app.
  pose proof (zlen_nonneg s). unfold max_object in *.
  rewrite (u64_id (quic_varint_len i + quic_varint_len v)), u64_id by (unfold is_u64; lia).
  destruct (IH (total + (quic_varint_len i + quic_varint_len v)) Hs ltac:(lia) ltac:(lia)) as [-> ?]. lia.
Qed.

Definition settings_wf (s : quic_h3_settings) : Prop := Forall pair_ok s /\ zlen s <= QUIC_H3_SETTINGS_MAX.

Lemma settings_payload s : settings_wf s -> settings_body_len s 0 = zlen (pairs_bytes s) /\ is_varint (zlen (pairs_bytes s)).
Proof.
  intros [Hs Hl]. unfold QUIC_H3_SETTINGS_MAX in Hl.
  destruct (settings_body_len_spec s 0 Hs ltac:(lia)) as [-> Hb]; [unfold max_object; lia|].
  pose proof (zlen_nonneg (pairs_bytes s)). split; [lia|unfold is_varint, QUIC_VARINT_MAX; lia].
Qed.

Lemma settings_encodes s : settings_wf s -> Encodes (quic_h3_settings_put s) (settings_bytes s).
Proof.
  intros Hwf. destruct (settings_payload s Hwf) as [Hlen Hv]. destruct Hwf as [Hs Hl]. apply encodes_to.
  unfold put_settings_head, settings_bytes, h3frame_bytes. unfold QUIC_H3_SETTINGS_MAX in *. zdecide. rewrite Hlen, app_assoc.
  apply writes_seq; [|by apply put_pairs_writes]. by apply writes_seq; apply writes_varint.
Qed.

Lemma reads_take_pair s p : zlen s < QUIC_H3_SETTINGS_MAX -> pair_ok p ->
  Reads (frame_take_pair s) (pair_bytes p) (s ++ [p]).
Proof.
  intros Hs [H1 H2]. unfold frame_take_pair, take_pair_id, pair_bytes. eapply reads_bind.
  - apply reads_guard_then; [by apply Z.ltb_lt|by apply reads_varint].
  - eapply reads_bind_last; [by apply reads_varint|]. destruct p. apply reads_ret.
Qed.

Lemma get_pairs_spec l : forall f s pre post, Forall pair_ok l -> (length l <= f)%nat ->
  zlen s + zlen l <= QUIC_H3_SETTINGS_MAX ->
  zlen pre + zlen (pairs_bytes l) < max_object ->
  get_settings_pairs f s (pre ++ pairs_bytes l ++ post) (zlen pre + zlen (pairs_bytes l)) (zlen pre) =
  Some (Some (s ++ l), zlen pre + zlen (pairs_bytes l)).
Proof.
  induction l as [|p l IH]; intros f s pre post Hl Hf Hs Ho.
  - change (zlen (pairs_bytes [])) with 0. rewrite Z.add_0_r, app_nil_r.
    destruct f; cbn [get_settings_pairs]; by rewrite Z.ltb_irrefl.
  - apply List.Forall_cons_iff in Hl as [Hp Hl]. destruct f as [|f]; [simpl in Hf; lia|].
    unfold pairs_bytes in *. cbn [map concat]. rewrite zlen_cons in Hs. cbn [map concat] in Ho.
    rewrite zlen_app in Ho |- *. rewrite <- app_assoc.
    destruct (zlen_pair_bytes p Hp) as [_ Hpb]. pose proof (zlen_nonneg (concat (map pair_bytes l))).
    pose proof (zlen_nonneg pre). pose proof (zlen_nonneg post). pose proof (zlen_nonneg l).
    cbn [get_settings_pairs]. zdecide. unfold rd_bind at 1.
    pose proof (reads_take_pair s p ltac:(unfold QUIC_H3_SETTINGS_MAX in *; lia) Hp pre (concat (map pair_bytes l) ++ post)
      (zlen pre + (zlen (pair_bytes p) + zlen (concat (map pair_bytes l)))) ltac:(lia)) as Hr.
    specialize (Hr ltac:(rewrite !zlen_app; lia) ltac:(lia)). revert Hr. zdecide. intros ->.
    specialize (IH f (s ++ [p]) (pre ++ pair_bytes p) post Hl).
    rewrite !zlen_app, <- !app_assoc in IH. change (zlen [p]) with 1 in IH.
    rewrite Z.add_assoc. apply IH; [simpl in Hf; lia|lia|lia].
Qed.

Lemma settings_decodes s : settings_wf s -> Decodes quic_h3_settings_get (settings_bytes s) s.
Proof.
  intros Hwf. destruct (settings_payload s Hwf) as [_ Hv]. destruct Hwf as [Hs Hl]. intros post n Hn Ho.
  set (hd := varint_bytes QUIC_H3_FRAME_SETTINGS ++ varint_bytes (zlen (pairs_bytes s))).
  assert (Hr : Reads get_head hd (QUIC_H3_FRAME_SETTINGS, zlen (pairs_bytes s)))
    by (apply reads_get_head; [unfold QUIC_H3_FRAME_SETTINGS; eauto with typeclass_instances|done]).
  assert (Heq : settings_bytes s = hd ++ pairs_bytes s)
    by (unfold settings_bytes, h3frame_bytes, hd; by rewrite app_assoc).
  rewrite Heq in *. rewrite <- app_assoc in *. unfold quic_h3_settings_get, get_settings_head.
  specialize (Hr [] (pairs_bytes s ++ post) n). change (zlen (@nil Z)) with 0 in Hr. change ([] ++ ?x) with x in Hr.
  specialize (Hr ltac:(lia) ltac:(lia) Ho). pose proof (zlen_nonneg hd). pose proof (zlen_nonneg (pairs_bytes s)).
  pose proof (zlen_nonneg post). rewrite zlen_app. unfold is_varint, QUIC_VARINT_MAX in Hv.
  destruct (Z.leb_spec (0 + zlen hd) n) as [Hh|Hh].
  - rewrite Hr. cbn [negb]. rewrite Z.eqb_refl. cbn [negb]. rewrite !Z.add_0_l in *. unwrap.
    destruct (Z.leb_spec (zlen hd + zlen (pairs_bytes s)) n); [|done].
    unfold decode_from, QUIC_H3_SETTINGS_MAX in *.
    rewrite (get_pairs_spec s 9 [] hd post Hs); [done|unfold zlen in Hl; lia|unfold QUIC_H3_SETTINGS_MAX; change (zlen []) with 0; lia|lia].
  - destruct Hr as [off' ->]. by zdecide.
Qed.

(** On arbitrary bytes the SETTINGS reader stays inside the buffer, always ends,
    and never stores more than eight pairs. *)
Lemma get_pairs_safe f : forall s buf end_ off, Forall is_u8 buf -> 0 <= off -> end_ <= zlen buf -> end_ < max_object ->
  (1 <= f)%nat -> zlen s + Z.of_nat f = 9 -> Forall pair_ok s ->
  exists r off', get_settings_pairs f s buf end_ off = Some (r, off') /\ off <= off' /\ (off <= end_ -> off' <= end_) /\
    forall s', r = Some s' -> settings_wf s'.
Proof.
  induction f as [|f IH]; intros s buf end_ off Hb Hoff Hend Ho Hf Hs Hp; [lia|]. cbn [get_settings_pairs].
  destruct (Z.ltb_spec off end_) as [Hlt|Hge].
  2:{ exists (Some s), off. split_and!; try done; try lia. intros s' [= <-]. split; [done|unfold QUIC_H3_SETTINGS_MAX; lia]. }
  assert (Hsafe : SafeRd (frame_take_pair s) (fun s' => zlen s < 8 /\ exists p, pair_ok p /\ s' = s ++ [p])).
  { unfold frame_take_pair, take_pair_id, QUIC_H3_SETTINGS_MAX. eapply saferd_bind with (Q := fun i => zlen s < 8 /\ is_varint i).
    - eapply saferd_bind with (Q := fun _ => zlen s < 8); [apply saferd_guard; intros; by zbool|intros u Hu].
      eapply saferd_weaken; [apply saferd_varint|auto].
    - intros i [Hz Hi]. eapply saferd_bind; [apply saferd_varint|intros v Hv]. apply saferd_ret. split; [done|]. by exists (i, v). }
  unfold rd_bind at 1. destruct (Hsafe buf end_ off Hb ltac:(lia) Hend Ho) as ([s'|] & off' & -> & Hr & HQ).
  - destruct (HQ s' eq_refl) as (Hz & p & Hpp & ->).
    destruct (IH (s ++ [p]) buf end_ off' Hb ltac:(lia) Hend Ho) as (r & o2 & -> & H1 & H2 & H3); [lia| | |].
    + rewrite zlen_app. change (zlen [p]) with 1. lia.
    + apply Forall_app. split; [done|]. by constructor.
    + exists r, o2. split_and!; try done; lia.
  - exists None, off'. split_and!; try done; lia.
Qed.

(** * The control stream as a state machine *)

Inductive ctl_event := EvOpen | EvClosed | EvFrame (is_settings : bool) | EvGoaway (id : Z).

Definition ctl_step (c : quic_h3_control) (e : ctl_event) : quic_h3_control :=
  match e with
  | EvOpen => quic_h3_control_open c
  | EvClosed => quic_h3_control_closed c
  | EvFrame b => quic_h3_control_frame c b
  | EvGoaway id => quic_h3_control_goaway c id
  end.

Definition ctl_run (evs : list ctl_event) : quic_h3_control := fold_left ctl_step evs quic_h3_control_init.

Fixpoint opens (evs : list ctl_event) : nat :=
  match evs with [] => 0 | EvOpen :: evs' => S (opens evs') | _ :: evs' => opens evs' end.
Fixpoint frames (evs : list ctl_event) : list bool :=
  match evs with [] => [] | EvFrame b :: evs' => b :: frames evs' | _ :: evs' => frames evs' end.
Fixpoint goaways (evs : list ctl_event) : list Z :=
  match evs with [] => [] | EvGoaway id :: evs' => id :: goaways evs' | _ :: evs' => goaways evs' end.

Fixpoint non_increasing (l : list Z) : Prop :=
  match l with
  | x :: l' => match l' with y :: _ => y <= x | [] => True end /\ non_increasing l'
  | [] => True
  end.

(** What RFC 9114 asks of the peer: one control stream, never closed; its first
    frame is SETTINGS and no other is; GOAWAY identifiers do not grow. *)
Definition conforming (evs : list ctl_event) : Prop :=
  (opens evs <= 1)%nat /\ ~ In EvClosed evs /\
  (frames evs = [] \/ exists k, frames evs = true :: repeat false k) /\ non_increasing (goaways evs).

Lemma opens_app a b : opens (a ++ b) = (opens a + opens b)%nat.
Proof. induction a as [|[] a IH]; simpl; lia. Qed.
Lemma frames_app a b : frames (a ++ b) = frames a ++ frames b.
Proof. induction a as [|[] a IH]; simpl; congruence. Qed.
Lemma goaways_app a b : goaways (a ++ b) = goaways a ++ goaways b.
Proof. induction a as [|[] a IH]; simpl; congruence. Qed.

Fixpoint last_of (l : list Z) : option Z :=
  match l with [] => None | x :: l' => match l' with [] => Some x | _ => last_of l' end end.

Lemma last_of_snoc l y : last_of (l ++ [y]) = Some y.
Proof. induction l as [|x l IH]; [done|]. cbn [app last_of]. rewrite IH. by destruct l. Qed.

Lemma non_increasing_snoc l y : non_increasing (l ++ [y]) <->
  non_increasing l /\ match last_of l with Some x => y <= x | None => True end.
Proof.
  induction l as [|x l IH]; [cbn; tauto|]. cbn [app non_increasing]. rewrite IH.
  destruct l as [|z l]; [cbn; tauto|]. change ((z :: l) ++ [y]) with (z :: (l ++ [y])).
  change (last_of (x :: z :: l)) with (last_of (z :: l)). tauto.
Qed.

(** The state remembers of a conforming prefix just what the next event needs. *)
Record ctl_tracks (evs : list ctl_event) (c : quic_h3_control) : Prop := {
  ct_open : control_open c = negb (opens evs =? 0)%nat;
  ct_settings : settings_seen c = match frames evs with [] => false | _ => true end;
  ct_goaway : goaway_seen c = match last_of (goaways evs) with Some _ => true | None => false end;
  ct_limit : forall x, last_of (goaways evs) = Some x -> goaway_limit c = x;
}.

Lemma error_fail c e : e <> QUIC_H3_ERR_NONE -> error (fail c e) <> QUIC_H3_ERR_NONE.
Proof. intros He. unfold fail. case_bool_decide; [done|done]. Qed.

Lemma error_step c e : error (ctl_step c e) = QUIC_H3_ERR_NONE -> error c = QUIC_H3_ERR_NONE.
Proof.
  intros H. destruct (decide (error c = QUIC_H3_ERR_NONE)) as [|Hne]; [done|exfalso]. revert H.
  assert (Hf : forall x, fail c x = c) by (intros; unfold fail; by rewrite bool_decide_eq_false_2).
  destruct e as [| |b|id]; cbn [ctl_step];
    unfold quic_h3_control_open, quic_h3_control_closed, quic_h3_control_frame, first_frame, quic_h3_control_goaway;
    rewrite ?Hf; repeat (case_match; cbn [error]); done.
Qed.

(** A well-formed frame sequence and its last frame. *)
Definition frames_ok (l : list bool) : Prop := l = [] \/ exists k, l = true :: repeat false k.

Lemma frames_snoc l b : frames_ok (l ++ [b]) <-> frames_ok l /\ b = match l with [] => true | _ => false end.
Proof.
  unfold frames_ok. split.
  - intros [H|[k H]]; [by destruct l|]. destruct l as [|x l]; [injection H as -> _; auto|].
    injection H as -> H. assert (Hk : k = (length l + 1)%nat).
    { apply (f_equal length) in H. rewrite length_app, repeat_length in H. simpl in H. lia. }
    subst k. rewrite repeat_app in H. apply app_inj_2 in H as [-> [= ->]]; [|done]. split; [|done]. right. eauto.
  - intros [[->|[k ->]] ->]; right; [by exists 0%nat|]. exists (S k). cbn [repeat app]. f_equal. symmetry. apply repeat_cons.
Qed.

(** What the next event must satisfy. *)
Definition next_ok (evs : list ctl_event) (e : ctl_event) : Prop :=
  match e with
  | EvOpen => opens evs = 0%nat
  | EvClosed => False
  | EvFrame b => b = match frames evs with [] => true | _ => false end
  | EvGoaway id => match last_of (goaways evs) with Some x => id <= x | None => True end
  end.

Lemma conforming_snoc evs e : conforming (evs ++ [e]) <-> conforming evs /\ next_ok evs e.
Proof.
  unfold conforming. fold (frames_ok (frames (evs ++ [e]))) (frames_ok (frames evs)).
  rewrite opens_app, frames_app, goaways_app, in_app_iff.
  destruct e as [| |b|id]; cbn [opens frames goaways next_ok]; rewrite ?app_nil_r, ?frames_snoc, ?non_increasing_snoc, ?Nat.add_0_r;
    cbn [In]; intuition (try discriminate; try lia).
Qed.

Lemma ctl_run_snoc evs e : ctl_run (evs ++ [e]) = ctl_step (ctl_run evs) e.
Proof. unfold ctl_run. by rewrite fold_left_app. Qed.

(** One event, from a state that tracks a conforming prefix. *)
Lemma ctl_step_tracks evs c e : ctl_tracks evs c -> error c = QUIC_H3_ERR_NONE ->
  (error (ctl_step c e) = QUIC_H3_ERR_NONE <-> next_ok evs e) /\ (next_ok evs e -> ctl_tracks (evs ++ [e]) (ctl_step c e)).
Proof.
  intros [To Ts Tg Tl] He. destruct c as [op se go li er]. cbn in To, Ts, Tg, Tl, He. subst er.
  assert (Hf : forall o s g l x, fail (Ctl o s g l QUIC_H3_ERR_NONE) x = Ctl o s g l x) by done.
  destruct e as [| |b|id]; cbn [ctl_step next_ok];
    unfold quic_h3_control_open, quic_h3_control_closed, quic_h3_control_frame, first_frame, quic_h3_control_goaway, goaway_increases;
    cbn [control_open settings_seen goaway_seen goaway_limit]; rewrite ?Hf.
  - destruct (Nat.eqb_spec (opens evs) 0) as [E|E]; subst op; cbn; split; try tauto; [|by intuition discriminate].
    intros _. split; rewrite ?opens_app, ?frames_app, ?goaways_app, ?app_nil_r; cbn; try done. by rewrite E.
  - cbn. split; [intuition discriminate|done].
  - destruct (frames evs) as [|x l] eqn:E; subst se; destruct b; cbn; split; try (intuition discriminate); try done; intros _;
      split; rewrite ?opens_app, ?frames_app, ?goaways_app, ?app_nil_r, ?E; cbn; rewrite ?Nat.add_0_r; done.
  - destruct (last_of (goaways evs)) as [x|] eqn:E; subst go; cbn.
    + rewrite (Tl x eq_refl). destruct (Z.ltb_spec x id); cbn; split; try (intuition (discriminate || lia)).
      intros _. split; rewrite ?opens_app, ?frames_app, ?goaways_app, ?app_nil_r; cbn; rewrite ?Nat.add_0_r, ?last_of_snoc; try done.
      intros y [= ->]. done.
    + split; [tauto|]. intros _. split; rewrite ?opens_app, ?frames_app, ?goaways_app, ?app_nil_r; cbn; rewrite ?Nat.add_0_r, ?last_of_snoc; try done.
      intros y [= ->]. done.
Qed.

Lemma ctl_conforming evs :
  (error (ctl_run evs) = QUIC_H3_ERR_NONE <-> conforming evs) /\ (conforming evs -> ctl_tracks evs (ctl_run evs)).
Proof.
  induction evs as [|e evs [IHe IHt]] using rev_ind.
  - split; [split; [intros _|done]|intros _; by split]. unfold conforming. cbn. split_and!; [lia|tauto|by left|done].
  - rewrite ctl_run_snoc, conforming_snoc. split; [split|].
    + intros H. pose proof (error_step _ _ H) as H0. apply IHe in H0 as Hc. split; [done|].
      by apply (ctl_step_tracks evs (ctl_run evs) e (IHt Hc) H0).
    + intros [Hc Hn]. by apply (ctl_step_tracks evs (ctl_run evs) e (IHt Hc) (proj2 IHe Hc)).
    + intros [Hc Hn]. by apply (ctl_step_tracks evs (ctl_run evs) e (IHt Hc) (proj2 IHe Hc)).
Qed.

(** The error RFC 9114 and control.h give to an event that may not come. *)
Definition violation_error (e : ctl_event) : quic_h3_error :=
  match e with
  | EvOpen => QUIC_H3_ERR_STREAM_CREATION
  | EvClosed => QUIC_H3_ERR_CLOSED_CRITICAL
  | EvFrame false => QUIC_H3_ERR_MISSING_SETTINGS
  | EvFrame true => QUIC_H3_ERR_FRAME_UNEXPECTED
  | EvGoaway _ => QUIC_H3_ERR_ID
  end.

(** The event that violates the rules latches its error. *)
Lemma ctl_step_violation evs c e : ctl_tracks evs c -> error c = QUIC_H3_ERR_NONE -> ~ next_ok evs e ->
  error (ctl_step c e) = violation_error e.
Proof.
  intros [To Ts Tg Tl] He Hn. destruct c as [op se go li er]. cbn in To, Ts, Tg, Tl, He. subst er.
  assert (Hf : forall o s g l x, fail (Ctl o s g l QUIC_H3_ERR_NONE) x = Ctl o s g l x) by done.
  destruct e as [| |b|id]; cbn [ctl_step next_ok violation_error] in *;
    unfold quic_h3_control_open, quic_h3_control_closed, quic_h3_control_frame, first_frame, quic_h3_control_goaway, goaway_increases;
    cbn [control_open settings_seen goaway_seen goaway_limit]; rewrite ?Hf; try done.
  - subst op. by destruct (Nat.eqb_spec (opens evs) 0).
  - subst se. by destruct (frames evs), b.
  - subst go. destruct (last_of (goaways evs)) as [x|]; [|done]. rewrite (Tl x eq_refl). by zfalse (id <=? x); ztrue (x <? id).
Qed.

(** A latched error is never replaced. *)
Lemma error_latched post : forall c, error c <> QUIC_H3_ERR_NONE -> error (fold_left ctl_step post c) = error c.
Proof.
  induction post as [|e post IH]; intros c Hc; [done|]. cbn [fold_left].
  assert (Hs : error (ctl_step c e) = error c).
  { assert (Hf : forall x, fail c x = c) by (intros; unfold fail; by rewrite bool_decide_eq_false_2).
    destruct e as [| |b|id]; cbn [ctl_step];
      unfold quic_h3_control_open, quic_h3_control_closed, quic_h3_control_frame, first_frame, quic_h3_control_goaway;
      rewrite ?Hf; repeat (case_match; cbn [error]); done. }
  rewrite IH; [done|]. by rewrite Hs.
Qed.

(** * Properties *)

(** C16: The control stream accepts exactly the conforming peers: after any sequence
    of events (stream opened, stream closed, a frame that is SETTINGS or not, a
    GOAWAY) no error is latched if and only if the peer opened at most one control
    stream, never closed it, sent SETTINGS as the first frame and never again, and
    never raised a GOAWAY identifier; otherwise the error latched is that of the
    first event that broke these rules, whatever came after it; and for a conforming
    peer a new request is accepted exactly when its identifier is below every GOAWAY
    received. *)
Theorem control_exact evs :
  (error (ctl_run evs) = QUIC_H3_ERR_NONE <-> conforming evs) /\
  (forall pre e post, evs = pre ++ e :: post -> conforming pre -> ~ conforming (pre ++ [e]) ->
     error (ctl_run evs) = violation_error e) /\
  (conforming evs -> forall id,
     quic_h3_control_accept_request (ctl_run evs) id = true <-> (forall g, In g (goaways evs) -> id < g)).
Proof.
  destruct (ctl_conforming evs) as [He Ht]. split; [done|]. split.
  { intros pre e post -> Hc Hn. destruct (ctl_conforming pre) as [Hp Htp]. rewrite conforming_snoc in Hn.
    pose proof (ctl_step_violation pre (ctl_run pre) e (Htp Hc) (proj2 Hp Hc) ltac:(tauto)) as Hv.
    change (ctl_run (pre ++ e :: post)) with (fold_left ctl_step (pre ++ e :: post) quic_h3_control_init).
    rewrite fold_left_app. cbn [fold_left]. rewrite error_latched; [exact Hv|]. fold (ctl_run pre). rewrite Hv.
    by destruct e as [| |[]|]. }
  intros Hc id. specialize (Ht Hc).
  destruct Hc as (_ & _ & _ & Hg). unfold quic_h3_control_accept_request. rewrite (ct_goaway _ _ Ht).
  pose proof (ct_limit _ _ Ht) as Hl. destruct (last_of (goaways evs)) as [x|] eqn:E; cbn [negb].
  - rewrite (Hl x eq_refl), Z.ltb_lt. clear -E Hg. induction (goaways evs) as [|y l IH]; [done|].
    destruct Hg as [Hy Hg]. destruct l as [|z l].
    + injection E as ->. split; [intros ? g [->|[]]; done|intros H; apply H; by left].
    + specialize (IH Hg E). rewrite IH. split; [|intros H g Hin; apply H; by right].
      intros H g [->|Hin]; [|by apply H]. specialize (H z (or_introl eq_refl)). lia.
  - destruct (goaways evs) as [|y l]; [by split|]. exfalso. clear -E. revert y E. induction l as [|z l IH]; intros y E; [done|].
    by apply (IH z).
Qed.

(** SETTINGS written by [quic_h3_settings_put] are read back pair for pair by
    [quic_h3_settings_get], whatever follows them, an input cut inside the frame
    is refused, a table of more than eight pairs is not written, and on arbitrary
    bytes the reader ends inside the buffer with at most eight pairs. *)
Theorem h3_settings_exact s buf cap n input m :
  settings_wf s -> zlen (settings_bytes s) <= cap -> cap <= zlen buf -> zlen buf < max_object -> 0 <= n <= zlen buf ->
  Forall is_u8 input -> 0 <= m <= zlen input -> m < max_object ->
  (exists buf', quic_h3_settings_put s buf cap = Some (zlen (settings_bytes s), buf') /\
     quic_h3_settings_get buf' n =
       Some (if zlen (settings_bytes s) <=? n then Some (s, zlen (settings_bytes s)) else None)) /\
  (exists r, quic_h3_settings_get input m = Some r /\
     forall s' used, r = Some (s', used) -> settings_wf s' /\ used <= m).
Proof.
  intros Hs Hfit Hcap Ho Hn Hin Hm Hmo. split.
  - by apply (dec_roundtrip _ _ _ s buf cap n (settings_encodes s Hs) (settings_decodes s Hs)).
  - unfold quic_h3_settings_get, get_settings_head.
    destruct (saferd_get_head input m 0 Hin ltac:(lia) ltac:(lia) Hmo) as ([[t l]|] & off & -> & Hoff & HQ); [|by exists None].
    destruct (HQ _ eq_refl) as [_ Hl]. cbn [snd] in Hl. unfold is_varint, QUIC_VARINT_MAX in Hl.
    destruct (negb _); [by exists None|]. unwrap. destruct (Z.leb_spec (off + l) m); [|by exists None].
    unfold decode_from. destruct (get_pairs_safe 9 [] input (off + l) off Hin) as (r & o & -> & H1 & H2 & H3);
      try done; try lia. destruct r as [s'|]; [|by exists None]. eexists. split; [done|].
    intros ? ? [= <- <-]. split; [by apply H3|lia].
Qed.

(** Witness: the two settings [(6, 16384)] and [(1, 0)]; the input announces
    nine pairs. *)
Lemma h3_settings_exact_witness :
  (exists buf', quic_h3_settings_put [(6, 16384); (1, 0)] (repeat 0 16) 16 = Some (9, buf') /\
     quic_h3_settings_get buf' 16 = Some (Some ([(6, 16384); (1, 0)], 9))) /\
  (exists r, quic_h3_settings_get (4 :: 18 :: repeat 1 18) 20 = Some r /\
     forall s' used, r = Some (s', used) -> settings_wf s' /\ used <= 20).
Proof.
  refine (h3_settings_exact [(6, 16384); (1, 0)] (repeat 0 16) 16 16 (4 :: 18 :: repeat 1 18) 20 _ _ _ _ _ _ _ _).
  - split; [|by vm_compute]. repeat constructor; unfold QUIC_VARINT_MAX; cbn; lia.
  - by vm_compute.
  - by vm_compute.
  - by vm_compute.
  - by vm_compute.
  - repeat constructor; lia.
  - by vm_compute.
  - by vm_compute.
Defined.

(** Opening a connection: the bytes of the control stream are accepted by the
    peer, and carry the default settings. *)
Lemma open_control_accepted buf cap : 12 <= cap -> cap <= zlen buf -> zlen buf < max_object ->
  exists w buf', quic_h3conn_open_control buf cap = Some (w, buf') /\ 0 < w <= cap /\
    quic_h3conn_peer_settings_ok buf' (zlen buf) = Some true /\
    quic_h3_stream_type_parse buf' (zlen buf) = Some (Some (QUIC_H3_STREAM_CONTROL, 1)) /\
    quic_h3_settings_get (drop 1 buf') (zlen buf - 1) = Some (Some ([(6, 0x4000); (1, 0); (7, 0)], w - 1)).
Proof.
  intros Hc Hl Ho. set (s := [(6, 0x4000); (1, 0); (7, 0)]).
  assert (Hs : settings_wf s) by (split; [repeat constructor; unfold QUIC_VARINT_MAX; cbn; lia|by vm_compute]).
  assert (He : Encodes quic_h3conn_open_control ([0] ++ settings_bytes s)).
  { apply encodes_then; [|done|].
    - apply encodes_to. exact (writes_varint 0).
    - apply writes_emit_at; [by apply settings_encodes|done]. }
  specialize (He buf cap ltac:(lia) ltac:(lia)). revert He. change (zlen ([0] ++ settings_bytes s)) with 12. zdecide.
  intros ->. exists 12, (splice buf 0 ([0] ++ settings_bytes s)). split; [done|]. split; [lia|].
  destruct (splice_at buf ([0] ++ settings_bytes s) 0) as (pre & old & post & Hb & Hp & Hold & ->);
    [lia|change (zlen ([0] ++ settings_bytes s)) with 12; lia|].
  destruct pre as [|? ?]; [|unfold zlen in Hp; simpl in Hp; lia]. change ([] ++ ?x) with x in *. rewrite <- app_assoc.
  change ([0] ++ settings_bytes s ++ post) with (0 :: settings_bytes s ++ post).
  assert (Hn : 12 <= zlen buf) by lia. assert (Hlen : zlen buf = 12 + zlen post).
  { rewrite Hb, zlen_app, Hold. done. }
  assert (Hz : forall t, quic_varint_decode (0 :: t) (zlen buf) = Some (Some (1, 0))).
  { intros t. unfold quic_varint_decode. zdecide. simpl. zdecide. done. }
  pose proof (zlen_nonneg post). set (bs := settings_bytes s) in *. assert (Hbs : zlen bs = 11) by done.
  assert (Hsz : 0 <= zlen buf - 1 <= zlen (bs ++ post)) by (rewrite zlen_app; lia).
  split_and!.
  - unfold quic_h3conn_peer_settings_ok, skip_control_type. rewrite Hz. cbv beta iota.
    change ((1 =? 0) || negb (0 =? QUIC_H3_CONTROL_STREAM_TYPE)) with false. cbv iota.
    change (drop (Z.to_nat 1) (0 :: bs ++ post)) with (bs ++ post). unwrap.
    assert (Hf : Decodes quic_h3_frame_get bs (QUIC_H3_FRAME_SETTINGS, pairs_bytes s))
      by (apply h3_frame_decodes; by vm_compute).
    rewrite (Hf post (zlen buf - 1) Hsz ltac:(lia)), Hbs. by zdecide.
  - unfold quic_h3_stream_type_parse, decode_from, quic_varint_take. change (Z.to_nat 0) with 0%nat.
    rewrite drop_0, Z.sub_0_r, u64_id, Hz by (unfold is_u64, max_object in *; lia). done.
  - change (drop 1 (0 :: bs ++ post)) with (bs ++ post).
    assert (Hf : Decodes quic_h3_settings_get bs s) by by apply settings_decodes.
    rewrite (Hf post (zlen buf - 1) Hsz ltac:(lia)), Hbs. by zdecide.
Qed.
