(* ===== verification/H3Message.v ===== *)
(** HTTP/3 messages: the rules on field sections and frame order.

    [app/http3/core/h3/pseudoheader.c], [headercase.c], [reqstream.c],
    [connect.c] and [app/http3/request/h3req/reqorder.c].  The two machines that
    check the frame order of a request stream are shown equivalent, and the
    pseudo-header set is related to the list of names it was fed. *)
From Stdlib Require Import Ascii String.
From S2P Require Import Prelude.
From S2P Require Import Buffers.
From S2P Require Import CStrings.
From S2P Require Import H3Core.
From S2P Require Import QpackTable.

(** * headercase.c *)

Definition upper (c : Z) : bool := (65 <=? c) && (c <=? 90).

Fixpoint header_name_loop (k : nat) (name : list Z) (i : Z) : option bool :=
  match k with
  | O => Some true
  | S k' => c ← load name i; if upper c then Some false else header_name_loop k' name (i + 1)
  end.
Definition quic_h3_header_name_ok (name : list Z) (len : Z) : option bool := header_name_loop (Z.to_nat len) name 0.

(** * pseudoheader.c *)

Inductive quic_h3_ph_kind :=
  QUIC_H3_PH_NONE | QUIC_H3_PH_METHOD | QUIC_H3_PH_SCHEME | QUIC_H3_PH_AUTHORITY | QUIC_H3_PH_PATH
| QUIC_H3_PH_STATUS | QUIC_H3_PH_UNKNOWN.

#[export] Instance ph_kind_eq : EqDecision quic_h3_ph_kind.
Proof. solve_decision. Defined.

Definition ph_ord (k : quic_h3_ph_kind) : Z :=
  match k with
  | QUIC_H3_PH_NONE => 0 | QUIC_H3_PH_METHOD => 1 | QUIC_H3_PH_SCHEME => 2 | QUIC_H3_PH_AUTHORITY => 3
  | QUIC_H3_PH_PATH => 4 | QUIC_H3_PH_STATUS => 5 | QUIC_H3_PH_UNKNOWN => 6
  end.

Definition byte_differs (name lit : list Z) (i : Z) : option bool :=
  c ← load lit i; if c =? 0 then Some true else x ← load name i; Some (negb (x =? c)).

(** [for (; i < len; i++) if (byte_differs(...)) return 0; return lit[i] == 0;]. *)
Fixpoint name_eq_loop (k : nat) (name lit : list Z) (i : Z) : option bool :=
  match k with
  | O => c ← load lit i; Some (c =? 0)
  | S k' => d ← byte_differs name lit i; if (d : bool) then Some false else name_eq_loop k' name lit (i + 1)
  end.
Definition name_eq (name : list Z) (len : Z) (lit : list Z) : option bool := name_eq_loop (Z.to_nat len) name lit 0.

Definition known : list (string * quic_h3_ph_kind) :=
  [(":method", QUIC_H3_PH_METHOD); (":scheme", QUIC_H3_PH_SCHEME); (":authority", QUIC_H3_PH_AUTHORITY);
   (":path", QUIC_H3_PH_PATH); (":status", QUIC_H3_PH_STATUS)]%string.

Definition is_pseudo (name : list Z) (len : Z) : option bool :=
  if len =? 0 then Some false else c ← load name 0; Some (c =? 58).

Fixpoint pseudoheader_lookup (rows : list (string * quic_h3_ph_kind)) (name : list Z) (len : Z) : option quic_h3_ph_kind :=
  match rows with
  | [] => Some QUIC_H3_PH_UNKNOWN
  | (lit, kind) :: rows' =>
      e ← name_eq name len (c_str lit); if (e : bool) then Some kind else pseudoheader_lookup rows' name len
  end.

Definition quic_h3_ph_classify (name : list Z) (len : Z) : option quic_h3_ph_kind :=
  p ← is_pseudo name len; if negb p then Some QUIC_H3_PH_NONE else pseudoheader_lookup known name len.

Record quic_h3_ph_set := Phs { ph_seen : Z; saw_regular : bool; ph_ok : bool }.

Definition quic_h3_ph_init : quic_h3_ph_set := Phs 0 false true.

Definition BIT (k : quic_h3_ph_kind) : Z := u8 (Z.shiftl 1 (ph_ord k)).

Definition on_pseudo (p : quic_h3_ph_set) (k : quic_h3_ph_kind) : quic_h3_ph_set :=
  let bit := BIT k in
  Phs (Z.lor (ph_seen p) bit) (saw_regular p)
      (if saw_regular p || negb (Z.land (ph_seen p) bit =? 0) then false else ph_ok p).

(** [quic_h3_ph_field] after the name is classified. *)
Definition ph_kind_field (p : quic_h3_ph_set) (k : quic_h3_ph_kind) : quic_h3_ph_set :=
  match k with
  | QUIC_H3_PH_NONE => Phs (ph_seen p) true (ph_ok p)
  | QUIC_H3_PH_UNKNOWN => Phs (ph_seen p) (saw_regular p) false
  | _ => on_pseudo p k
  end.

Definition quic_h3_ph_field (p : quic_h3_ph_set) (name : list Z) (len : Z) : option quic_h3_ph_set :=
  k ← quic_h3_ph_classify name len; Some (ph_kind_field p k).

Definition has_all (p : quic_h3_ph_set) (req : Z) : bool := Z.land (ph_seen p) req =? req.

Definition quic_h3_ph_request_ok (p : quic_h3_ph_set) : bool :=
  ph_ok p && has_all p (Z.lor (Z.lor (BIT QUIC_H3_PH_METHOD) (BIT QUIC_H3_PH_SCHEME)) (BIT QUIC_H3_PH_PATH)).

Definition quic_h3_ph_response_ok (p : quic_h3_ph_set) : bool := ph_ok p && has_all p (BIT QUIC_H3_PH_STATUS).

(** * reqstream.c *)

Inductive quic_h3_req_state := QUIC_H3_REQ_START | QUIC_H3_REQ_HEADERS | QUIC_H3_REQ_DATA | QUIC_H3_REQ_TRAILERS.

Definition on_headers (s : quic_h3_req_state) : bool * quic_h3_req_state :=
  match s with
  | QUIC_H3_REQ_START => (true, QUIC_H3_REQ_HEADERS)
  | QUIC_H3_REQ_TRAILERS => (false, s)
  | _ => (true, QUIC_H3_REQ_TRAILERS)
  end.

Definition on_data (s : quic_h3_req_state) : bool * quic_h3_req_state :=
  match s with
  | QUIC_H3_REQ_HEADERS | QUIC_H3_REQ_DATA => (true, QUIC_H3_REQ_DATA)
  | _ => (false, s)
  end.

Definition quic_h3_reqstream_frame (s : quic_h3_req_state) (frame_type : Z) : bool * quic_h3_req_state :=
  if frame_type =? QUIC_H3_FRAME_HEADERS then on_headers s
  else if frame_type =? QUIC_H3_FRAME_DATA then on_data s
  else (false, s).

(** * reqorder.c *)

Definition QUIC_H3REQ_ORDER_START : Z := 0.
Definition QUIC_H3REQ_ORDER_HEADERS : Z := 1.
Definition QUIC_H3REQ_ORDER_DATA : Z := 2.
Definition QUIC_H3REQ_ORDER_TRAILERS : Z := 3.

Definition next_headers : list Z :=
  [QUIC_H3REQ_ORDER_HEADERS; QUIC_H3REQ_ORDER_TRAILERS; QUIC_H3REQ_ORDER_TRAILERS; 0].
Definition next_data : list Z := [0; QUIC_H3REQ_ORDER_DATA; QUIC_H3REQ_ORDER_DATA; 0].

Definition quic_h3req_order_init : Z := QUIC_H3REQ_ORDER_START.

Definition row_for (frame_type : Z) : option (list Z) :=
  if frame_type =? QUIC_H3_FRAME_HEADERS then Some next_headers
  else if frame_type =? QUIC_H3_FRAME_DATA then Some next_data
  else None.

(** The return value and the state; the outer [None] is an index outside the row. *)
Definition quic_h3req_order_accept (s frame_type : Z) : option (bool * Z) :=
  match row_for frame_type with
  | None => Some (false, s)
  | Some row => nx ← load row s; Some (if nx =? 0 then (false, s) else (true, nx))
  end.

(** * connect.c: the tunnel *)

Definition connect_required (has_method_connect has_authority : bool) : bool := has_method_connect && has_authority.
Definition connect_forbidden (has_scheme has_path : bool) : bool := has_scheme || has_path.
Definition quic_h3_connect_ok (has_method_connect has_authority has_scheme has_path : bool) : bool :=
  if negb (connect_required has_method_connect has_authority) then false
  else if connect_forbidden has_scheme has_path then false else true.

Definition quic_h3_connect_established (status : Z) : bool := (200 <=? status) && (status <? 300).

Inductive quic_h3_tunnel :=
  QUIC_H3_TUNNEL_REQ | QUIC_H3_TUNNEL_VALIDATED | QUIC_H3_TUNNEL_ESTABLISHED | QUIC_H3_TUNNEL_FAILED
| QUIC_H3_TUNNEL_RELAY | QUIC_H3_TUNNEL_CLOSED.

Definition quic_h3_tunnel_init : quic_h3_tunnel := QUIC_H3_TUNNEL_REQ.
Definition quic_h3_tunnel_validated (st : quic_h3_tunnel) : quic_h3_tunnel :=
  match st with QUIC_H3_TUNNEL_REQ => QUIC_H3_TUNNEL_VALIDATED | _ => st end.
Definition quic_h3_tunnel_response (st : quic_h3_tunnel) (status : Z) : bool * quic_h3_tunnel :=
  match st with
  | QUIC_H3_TUNNEL_VALIDATED =>
      if quic_h3_connect_established status then (true, QUIC_H3_TUNNEL_ESTABLISHED) else (false, QUIC_H3_TUNNEL_FAILED)
  | _ => (false, st)
  end.
Definition quic_h3_tunnel_relay (st : quic_h3_tunnel) : bool * quic_h3_tunnel :=
  match st with QUIC_H3_TUNNEL_ESTABLISHED => (true, QUIC_H3_TUNNEL_RELAY) | _ => (false, st) end.
Definition quic_h3_tunnel_close (st : quic_h3_tunnel) : quic_h3_tunnel := QUIC_H3_TUNNEL_CLOSED.

(** * Names *)

Lemma load_drop_cons {A} (l : list A) (i : Z) x : load l i = Some x -> drop (Z.to_nat i) l = x :: drop (Z.to_nat (i + 1)) l.
Proof.
  intros H. pose proof (load_range _ _ _ H). unfold load in H. revert H. zdecide. intros H.
  rewrite (drop_S _ _ _ H). do 2 f_equal. lia.
Qed.

Lemma drop_zlen {A} (l : list A) : drop (Z.to_nat (zlen l)) l = [].
Proof. unfold zlen. by rewrite Nat2Z.id, drop_all. Qed.

Lemma name_eq_loop_spec k : forall name lit i, 0 <= i -> i + Z.of_nat k <= zlen name -> Forall nonzero lit -> i <= zlen lit ->
  name_eq_loop k name (lit ++ [0]) i =
  Some (bool_decide (take k (drop (Z.to_nat i) name) = drop (Z.to_nat i) lit)).
Proof.
  induction k as [|k IH]; intros name lit i Hi Hn Hl Hil; cbn [name_eq_loop].
  - rewrite take_0. destruct (Z.eq_dec i (zlen lit)) as [->|Hne].
    + rewrite load_head by done. simpl mbind. by rewrite drop_zlen.
    + destruct (load_is_Some lit i) as [c Hc]; [lia|]. rewrite load_app_l, Hc by lia. simpl mbind.
      rewrite (load_drop_cons lit i c Hc). f_equal. rewrite bool_decide_eq_false_2 by done.
      apply Z.eqb_neq. rewrite List.Forall_forall in Hl. apply Hl, list_elem_of_In. by eapply load_elem.
  - unfold byte_differs. destruct (load_is_Some name i) as [x Hx]; [lia|].
    rewrite (load_drop_cons name i x Hx). cbn [take].
    destruct (Z.eq_dec i (zlen lit)) as [->|Hne].
    + rewrite load_head by done. simpl mbind. rewrite drop_zlen. by rewrite bool_decide_eq_false_2.
    + destruct (load_is_Some lit i) as [c Hc]; [lia|]. rewrite load_app_l, Hc by lia. simpl mbind.
      assert (c <> 0) by (rewrite List.Forall_forall in Hl; apply Hl, list_elem_of_In; by eapply load_elem).
      rewrite (proj2 (Z.eqb_neq c 0)) by done. rewrite Hx. simpl mbind. rewrite (load_drop_cons lit i c Hc).
      destruct (Z.eqb_spec x c) as [->|Hxc]; cbn [negb].
      * rewrite IH by (done || lia). f_equal. apply bool_decide_ext. split; congruence.
      * rewrite bool_decide_eq_false_2; [done|congruence].
Qed.

Lemma name_eq_spec name len lit : 0 <= len <= zlen name -> Forall nonzero (c_bytes lit) ->
  name_eq name len (c_str lit) = Some (bool_decide (take (Z.to_nat len) name = c_bytes lit)).
Proof.
  intros Hl Hz. unfold name_eq, c_str. rewrite name_eq_loop_spec by (done || (pose proof (zlen_nonneg (c_bytes lit)); lia)). done.
Qed.

(** The kind of a field name. *)
Definition kind_of (nm : list Z) : quic_h3_ph_kind :=
  match nm with
  | c :: _ => if c =? 58
              then match find (fun r => bool_decide (nm = c_bytes (fst r))) known with
                   | Some r => snd r
                   | None => QUIC_H3_PH_UNKNOWN
                   end
              else QUIC_H3_PH_NONE
  | [] => QUIC_H3_PH_NONE
  end.

Lemma known_nonzero r : In r known -> Forall nonzero (c_bytes (fst r)).
Proof.
  intros Hr. assert (Hall : forallb (fun r => forallb (fun x => negb (x =? 0)) (c_bytes (fst r))) known = true) by by vm_compute.
  rewrite forallb_forall in Hall. specialize (Hall r Hr). rewrite forallb_forall in Hall.
  apply List.Forall_forall. intros x Hx. specialize (Hall x Hx). by zbool.
Qed.

Lemma lookup_spec rows name len : (forall r, In r rows -> Forall nonzero (c_bytes (fst r))) -> 0 <= len <= zlen name ->
  pseudoheader_lookup rows name len =
  Some (match find (fun r => bool_decide (take (Z.to_nat len) name = c_bytes (fst r))) rows with
        | Some r => snd r
        | None => QUIC_H3_PH_UNKNOWN
        end).
Proof.
  intros Hr Hl. induction rows as [|[lit k] rows IH]; [done|]. cbn [pseudoheader_lookup find fst].
  rewrite name_eq_spec; [|done|apply (Hr (lit, k)); by left]. simpl mbind.
  case_bool_decide; [done|]. apply IH. intros r H'. apply Hr. by right.
Qed.

Lemma classify_exact name len : 0 <= len <= zlen name ->
  quic_h3_ph_classify name len = Some (kind_of (take (Z.to_nat len) name)).
Proof.
  intros Hl. unfold quic_h3_ph_classify, is_pseudo. destruct (Z.eqb_spec len 0) as [->|Hz].
  - simpl mbind. change (Z.to_nat 0) with 0%nat. by rewrite take_0.
  - destruct (load_is_Some name 0) as [c Hc]; [lia|]. rewrite Hc. simpl mbind.
    assert (Ht : take (Z.to_nat len) name = c :: take (Z.to_nat len - 1) (drop 1 name)).
    { pose proof (load_drop_cons name 0 c Hc) as Hd. change (Z.to_nat 0) with 0%nat in Hd. rewrite drop_0 in Hd.
      rewrite Hd at 1. replace (Z.to_nat len) with (S (Z.to_nat len - 1)) at 1 by lia. done. }
    pose proof (lookup_spec known name len known_nonzero Hl) as Hk. rewrite Ht in Hk |- *. cbn [kind_of].
    destruct (c =? 58); cbn [negb]; done.
Qed.

(** * Field sections *)

Definition ph_run (ks : list quic_h3_ph_kind) : quic_h3_ph_set := fold_left ph_kind_field ks quic_h3_ph_init.

(** Known pseudo-headers only, none twice, none after a regular field. *)
Definition section_ok (ks : list quic_h3_ph_kind) : Prop :=
  forall pre k post, ks = pre ++ k :: post ->
    k <> QUIC_H3_PH_UNKNOWN /\ (k <> QUIC_H3_PH_NONE -> (QUIC_H3_PH_NONE ∉ pre) /\ (k ∉ pre)).

Lemma section_ok_snoc ks k : section_ok (ks ++ [k]) <->
  section_ok ks /\ k <> QUIC_H3_PH_UNKNOWN /\ (k <> QUIC_H3_PH_NONE -> (QUIC_H3_PH_NONE ∉ ks) /\ (k ∉ ks)).
Proof.
  split.
  - intros H. split; [|by apply (H ks k [])]. intros pre x post ->. apply (H pre x (post ++ [k])). by rewrite <- app_assoc.
  - intros [H [Hk Hn]] pre x post Heq. destruct post as [|y post _] using rev_ind.
    + apply app_inj_tail in Heq as [<- <-]. done.
    + replace (pre ++ x :: post ++ [y]) with ((pre ++ x :: post) ++ [y]) in Heq by by rewrite <- app_assoc.
      apply app_inj_tail in Heq as [-> _]. by apply (H pre x post).
Qed.

(** The bit mask of a set of kinds. *)
Definition ph_mask (b1 b2 b3 b4 b5 : bool) : Z :=
  Z.b2z b1 * 2 + Z.b2z b2 * 4 + Z.b2z b3 * 8 + Z.b2z b4 * 16 + Z.b2z b5 * 32.

Definition has (k : quic_h3_ph_kind) (ks : list quic_h3_ph_kind) : bool := bool_decide (k ∈ ks).

Lemma has_snoc k ks x : has k (ks ++ [x]) = has k ks || bool_decide (k = x).
Proof.
  unfold has. destruct (decide (k ∈ ks)) as [H|H], (decide (k = x)) as [E|E];
    rewrite ?(bool_decide_eq_true_2 (k ∈ ks)), ?(bool_decide_eq_false_2 (k ∈ ks)), ?(bool_decide_eq_true_2 (k = x)),
      ?(bool_decide_eq_false_2 (k = x)) by done; simpl; first [apply bool_decide_eq_true_2|apply bool_decide_eq_false_2];
    rewrite list_elem_of_In, in_app_iff in *; cbn [In]; intuition congruence.
Qed.

Lemma ph_run_spec ks : 
  ph_seen (ph_run ks) = ph_mask (has QUIC_H3_PH_METHOD ks) (has QUIC_H3_PH_SCHEME ks) (has QUIC_H3_PH_AUTHORITY ks)
                          (has QUIC_H3_PH_PATH ks) (has QUIC_H3_PH_STATUS ks) /\
  saw_regular (ph_run ks) = has QUIC_H3_PH_NONE ks /\ (ph_ok (ph_run ks) = true <-> section_ok ks).
Proof.
  induction ks as [|k ks (Hs & Hr & Hok)] using rev_ind.
  - split_and!; [done..|]. split; [|done]. intros _ pre k post H. by destruct pre.
  - unfold ph_run in *. rewrite fold_left_app. cbn [fold_left]. set (p := fold_left _ _ _) in *.
    rewrite !has_snoc, section_ok_snoc.
    assert (Hin : forall x, (x ∉ ks) <-> has x ks = false) by (intros x; unfold has; by rewrite bool_decide_eq_false).
    destruct k; cbn [ph_kind_field]; unfold on_pseudo; cbn [ph_seen saw_regular ph_ok]; rewrite Hs, ?Hr.
    1: { split_and!; [by rewrite !orb_false_r|by rewrite orb_true_r|]. rewrite Hok. intuition discriminate. }
    6: { split_and!; [by rewrite !orb_false_r|by rewrite orb_false_r|]. intuition discriminate. }
    all: split_and!;
      [ destruct (has QUIC_H3_PH_METHOD ks), (has QUIC_H3_PH_SCHEME ks), (has QUIC_H3_PH_AUTHORITY ks),
          (has QUIC_H3_PH_PATH ks), (has QUIC_H3_PH_STATUS ks); by vm_compute
      | by rewrite orb_false_r
      | rewrite !Hin; destruct (has QUIC_H3_PH_NONE ks); cbn [orb]; [intuition discriminate|];
        destruct (has QUIC_H3_PH_METHOD ks), (has QUIC_H3_PH_SCHEME ks), (has QUIC_H3_PH_AUTHORITY ks),
          (has QUIC_H3_PH_PATH ks), (has QUIC_H3_PH_STATUS ks); cbn; intuition discriminate ].
Qed.

(** Feed the names of a field section one after the other. *)
Fixpoint ph_feed (p : quic_h3_ph_set) (names : list (list Z)) : option quic_h3_ph_set :=
  match names with
  | [] => Some p
  | nm :: names' => p' ← quic_h3_ph_field p nm (zlen nm); ph_feed p' names'
  end.

Lemma take_zlen {A} (l : list A) : take (Z.to_nat (zlen l)) l = l.
Proof. unfold zlen. by rewrite Nat2Z.id, firstn_all. Qed.

Lemma ph_feed_spec names : forall p, ph_feed p names = Some (fold_left ph_kind_field (map kind_of names) p).
Proof.
  induction names as [|nm names IH]; intros p; [done|]. cbn [ph_feed map fold_left]. unfold quic_h3_ph_field.
  rewrite classify_exact, take_zlen by (pose proof (zlen_nonneg nm); lia). simpl mbind. apply IH.
Qed.

Lemma mask_has_all b1 b2 b3 b4 b5 :
  ((Z.land (ph_mask b1 b2 b3 b4 b5) 22 =? 22) = b1 && b2 && b4) /\ ((Z.land (ph_mask b1 b2 b3 b4 b5) 32 =? 32) = b5).
Proof. by destruct b1, b2, b3, b4, b5. Qed.

(** * Frame order *)

(** Run a machine over the frames of a stream; every frame must be accepted. *)
Fixpoint reqstream_run (s : quic_h3_req_state) (fs : list Z) : bool :=
  match fs with
  | [] => true
  | t :: fs' => let r := quic_h3_reqstream_frame s t in if fst r then reqstream_run (snd r) fs' else false
  end.

Definition order_of (s : quic_h3_req_state) : Z :=
  match s with
  | QUIC_H3_REQ_START => QUIC_H3REQ_ORDER_START | QUIC_H3_REQ_HEADERS => QUIC_H3REQ_ORDER_HEADERS
  | QUIC_H3_REQ_DATA => QUIC_H3REQ_ORDER_DATA | QUIC_H3_REQ_TRAILERS => QUIC_H3REQ_ORDER_TRAILERS
  end.

(** The message of RFC 9114 section 4.1: nothing yet, or a header section, any
    number of DATA frames and at most one trailer section. *)
Definition message (fs : list Z) : Prop :=
  fs = [] \/ exists k, fs = QUIC_H3_FRAME_HEADERS :: repeat QUIC_H3_FRAME_DATA k \/
                       fs = QUIC_H3_FRAME_HEADERS :: repeat QUIC_H3_FRAME_DATA k ++ [QUIC_H3_FRAME_HEADERS].

Lemma order_step s t :
  quic_h3req_order_accept (order_of s) t =
  Some (fst (quic_h3_reqstream_frame s t), order_of (snd (quic_h3_reqstream_frame s t))).
Proof.
  unfold quic_h3req_order_accept, quic_h3_reqstream_frame, row_for.
  destruct (t =? QUIC_H3_FRAME_HEADERS); [by destruct s|]. destruct (t =? QUIC_H3_FRAME_DATA); [by destruct s|done].
Qed.

(** What may follow the leading section. *)
Definition rest (fs : list Z) : Prop :=
  exists k, fs = repeat QUIC_H3_FRAME_DATA k \/ fs = repeat QUIC_H3_FRAME_DATA k ++ [QUIC_H3_FRAME_HEADERS].

Lemma rest_cons t fs : rest (t :: fs) <-> (t = QUIC_H3_FRAME_DATA /\ rest fs) \/ (t = QUIC_H3_FRAME_HEADERS /\ fs = []).
Proof.
  split.
  - intros [[|k] [H|H]]; cbn [repeat app] in H; try discriminate H.
    + injection H as -> ->. by right.
    + injection H as -> ->. left. split; [done|]. exists k. by left.
    + injection H as -> ->. left. split; [done|]. exists k. by right.
  - intros [[-> [k [->| ->]]]|[-> ->]]; [exists (S k); by left|exists (S k); by right|exists 0%nat; by right].
Qed.

Lemma reqstream_done fs : reqstream_run QUIC_H3_REQ_TRAILERS fs = true <-> fs = [].
Proof.
  destruct fs as [|t fs]; [by split|]. cbn [reqstream_run]. unfold quic_h3_reqstream_frame.
  destruct (t =? QUIC_H3_FRAME_HEADERS); [by split|]. by destruct (t =? QUIC_H3_FRAME_DATA).
Qed.

Lemma reqstream_rest fs : forall s, s = QUIC_H3_REQ_HEADERS \/ s = QUIC_H3_REQ_DATA ->
  (reqstream_run s fs = true <-> rest fs).
Proof.
  induction fs as [|t fs IH]; intros s Hs; [split; [intros _; exists 0%nat; by left|done]|].
  cbn [reqstream_run]. unfold quic_h3_reqstream_frame. rewrite rest_cons.
  destruct (Z.eqb_spec t QUIC_H3_FRAME_HEADERS) as [->|H1].
  - destruct Hs as [-> | ->]; cbn; rewrite reqstream_done; unfold QUIC_H3_FRAME_HEADERS, QUIC_H3_FRAME_DATA; intuition lia.
  - destruct (Z.eqb_spec t QUIC_H3_FRAME_DATA) as [->|H2].
    + destruct Hs as [-> | ->]; cbn; rewrite (IH QUIC_H3_REQ_DATA) by auto; intuition.
    + cbn. intuition discriminate.
Qed.

(** * The CONNECT tunnel *)

Inductive tunnel_event := TValidated | TResponse (status : Z) | TRelay | TClose.

Definition tunnel_step (s : quic_h3_tunnel) (e : tunnel_event) : quic_h3_tunnel :=
  match e with
  | TValidated => quic_h3_tunnel_validated s
  | TResponse st => snd (quic_h3_tunnel_response s st)
  | TRelay => snd (quic_h3_tunnel_relay s)
  | TClose => quic_h3_tunnel_close s
  end.

Definition tunnel_run (evs : list tunnel_event) : quic_h3_tunnel := fold_left tunnel_step evs quic_h3_tunnel_init.

(** The tunnel relays only after the request was validated, then answered with a
    2xx status, then the relay asked for, and was never closed. *)
Lemma tunnel_history evs :
  match tunnel_run evs with
  | QUIC_H3_TUNNEL_REQ => True
  | QUIC_H3_TUNNEL_VALIDATED => In TValidated evs
  | QUIC_H3_TUNNEL_ESTABLISHED => exists st a b, evs = a ++ TResponse st :: b /\ In TValidated a /\ 200 <= st < 300
  | QUIC_H3_TUNNEL_RELAY => exists st a b c, evs = a ++ TResponse st :: b ++ TRelay :: c /\ In TValidated a /\ 200 <= st < 300
  | QUIC_H3_TUNNEL_FAILED => exists st a b, evs = a ++ TResponse st :: b /\ In TValidated a /\ ~ 200 <= st < 300
  | QUIC_H3_TUNNEL_CLOSED => In TClose evs
  end.
Proof.
  induction evs as [|e evs IH] using rev_ind; [done|]. unfold tunnel_run in *. rewrite fold_left_app. cbn [fold_left].
  destruct (fold_left tunnel_step evs quic_h3_tunnel_init); destruct e as [|st'| |]; cbn [tunnel_step quic_h3_tunnel_validated
    quic_h3_tunnel_response quic_h3_tunnel_relay quic_h3_tunnel_close snd]; try (apply in_or_app; simpl; auto; fail); try done.
  all: try (destruct IH as (st & a & b & -> & H1 & H2); eexists st, a, _; split; [by rewrite <- app_assoc|done]; fail).
  all: try (destruct IH as (st & a & b & c & -> & H1 & H2); eexists st, a, b, _; split; [by rewrite <- !app_assoc; cbn; rewrite <- app_assoc|done]; fail).
  - unfold quic_h3_connect_established. destruct (Z.leb_spec 200 st'), (Z.ltb_spec st' 300); cbn;
      exists st', evs, []; (split; [done|]); (split; [done|lia]).
  - destruct IH as (st & a & b & -> & H1 & H2). exists st, a, b, []. split; [by rewrite <- app_assoc|done].
Qed.

(** * Properties *)

(** The pseudo-header check accepts exactly the well-formed field sections: fed
    any list of field names, [quic_h3_ph_request_ok] holds if and only if every
    name that starts with a colon is known, none comes twice or after a regular
    field, and [:method], [:scheme] and [:path] are present; and
    [quic_h3_ph_response_ok] if and only if the same rules hold and [:status] is
    present. *)
Theorem field_section_exact names :
  exists p, ph_feed quic_h3_ph_init names = Some p /\
    let ks := map kind_of names in
    (quic_h3_ph_request_ok p = true <->
       section_ok ks /\ QUIC_H3_PH_METHOD ∈ ks /\ QUIC_H3_PH_SCHEME ∈ ks /\ QUIC_H3_PH_PATH ∈ ks) /\
    (quic_h3_ph_response_ok p = true <-> section_ok ks /\ QUIC_H3_PH_STATUS ∈ ks).
Proof.
  eexists. split; [apply ph_feed_spec|]. cbv zeta. set (ks := map kind_of names).
  destruct (ph_run_spec ks) as (Hs & _ & Hok). unfold ph_run in *. set (p := fold_left _ _ _) in *.
  unfold quic_h3_ph_request_ok, quic_h3_ph_response_ok, has_all. rewrite Hs.
  change (Z.lor (Z.lor (BIT QUIC_H3_PH_METHOD) (BIT QUIC_H3_PH_SCHEME)) (BIT QUIC_H3_PH_PATH)) with 22.
  change (BIT QUIC_H3_PH_STATUS) with 32.
  destruct (mask_has_all (has QUIC_H3_PH_METHOD ks) (has QUIC_H3_PH_SCHEME ks) (has QUIC_H3_PH_AUTHORITY ks)
    (has QUIC_H3_PH_PATH ks) (has QUIC_H3_PH_STATUS ks)) as [-> ->].
  rewrite !andb_true_iff, Hok. unfold has. rewrite !bool_decide_eq_true. tauto.
Qed.

(** A request that also carries [:status] passes the request check. *)
Example status_in_request :
  exists p, ph_feed quic_h3_ph_init (map c_bytes [":method"; ":scheme"; ":path"; ":status"]%string) = Some p /\
    quic_h3_ph_request_ok p = true.
Proof. eexists. split; [vm_compute; reflexivity|]. by vm_compute. Qed.

(** The two request-stream machines accept the same streams, which are exactly
    the messages of RFC 9114 section 4.1: [quic_h3_reqstream_frame] and
    [quic_h3req_order_accept] agree on every frame from every state, and from the
    start a sequence of frames is accepted if and only if it is a header section,
    any number of DATA frames and at most one trailer section (or nothing yet). *)
Theorem request_order_exact :
  (forall s t, quic_h3req_order_accept (order_of s) t =
     Some (fst (quic_h3_reqstream_frame s t), order_of (snd (quic_h3_reqstream_frame s t)))) /\
  order_of QUIC_H3_REQ_START = quic_h3req_order_init /\
  (forall fs, reqstream_run QUIC_H3_REQ_START fs = true <-> message fs).
Proof.
  split; [exact order_step|]. split; [done|]. intros [|t fs]; [split; [by left|done]|].
  cbn [reqstream_run]. unfold quic_h3_reqstream_frame.
  assert (Hm : message (t :: fs) <-> t = QUIC_H3_FRAME_HEADERS /\ rest fs).
  { split; [intros [H|[k [[= -> ->]|[= -> ->]]]]; [done|split; [done|exists k; by left]|split; [done|exists k; by right]]|].
    intros [-> [k [->| ->]]]; right; exists k; [by left|by right]. }
  rewrite Hm. destruct (Z.eqb_spec t QUIC_H3_FRAME_HEADERS) as [->|H1].
  - cbn. rewrite reqstream_rest by auto. tauto.
  - destruct (t =? QUIC_H3_FRAME_DATA); cbn; intuition discriminate.
Qed.
