(* ===== verification/H3Request.v ===== *)
(** HTTP/3 requests and responses, from the caller's fields to the STREAM frame
    and back.

    The encoders of [app/http3/request/h3reqenc], [h3req/reqbuild.c] and
    [h3resp], the decoders of [h3reqdrive], [h3req/respparse.c] and
    [core/h3conn/response.c], and the server entry points of
    [server/h3srv/respond.c].  Decoded values are borrowed either from the static
    table or from the caller's scratch buffer; the model keeps the scratch as one
    array that later field lines go on writing to, and a borrowed value is an
    offset into it. *)
From Stdlib Require Import Ascii String.
From S2P Require Import Prelude.
From S2P Require Import Buffers.
From S2P Require Import CStrings.
From S2P Require Import Varint.
From S2P Require Import Codec.
From S2P Require Import Frames.
From S2P Require Import CtlFrames.
From S2P Require Import Streams.
From S2P Require Import QpackInt.
From S2P Require Import QpackString.
From S2P Require Import QpackTable.
From S2P Require Import H3Core.
From S2P Require Import H3Message.

(** * h3reqenc/pseudo_encode.c *)

Definition QPACK_AUTHORITY_NAME_INDEX : Z := 0.
Definition QPACK_PATH_NAME_INDEX : Z := 1.
Definition QPACK_METHOD_NAME_INDEX : Z := 15.
Definition QPACK_SCHEME_NAME_INDEX : Z := 22.
Definition VALBUF_CAP : Z := 16.

(** [val] holds the [vlen] octets. *)
Record pseudo_field := Pf { pf_val : list Z; pf_name : string; pf_name_idx : Z }.

(** [Some None] on a return of 0. *)
Definition val_cstr (val : list Z) (buf : list Z) : option (option (list Z)) :=
  let vlen := zlen val in
  if VALBUF_CAP <=? vlen then Some None
  else buf' ← copy_loop (Z.to_nat vlen) buf 0 val 0; buf'' ← store buf' vlen 0; Some (Some buf'').

Definition static_index (f : pseudo_field) (buf : list Z) : option Z :=
  match val_cstr (pf_val f) buf with
  | None => None
  | Some None => Some (-1)
  | Some (Some buf') => quic_qpack_static_find (c_str (pf_name f)) buf'
  end.

Definition put_pseudo (f : pseudo_field) : list Z -> Z -> option (Z * list Z) := fun out cap =>
  idx ← static_index f (local VALBUF_CAP);
  if 0 <=? idx then quic_qpack_indexed_encode idx true out cap
  else quic_qpack_literal_namref_encode (pf_name_idx f) true false (pf_val f) (zlen (pf_val f)) out cap.

Definition put_section_prefix : list Z -> Z -> option (Z * list Z) := quic_qpack_prefix_encode (Qpre 0 false 0).

Definition put_fields (fields : list pseudo_field) : wr := each (fun f => emit_at (put_pseudo f)) fields.

Definition put_section (fields : list pseudo_field) : list Z -> Z -> option (Z * list Z) :=
  enc_then put_section_prefix (put_fields fields).

Definition quic_h3req_enc_pseudo (method path scheme authority : list Z) : list Z -> Z -> option (Z * list Z) :=
  put_section [Pf method ":method" QPACK_METHOD_NAME_INDEX; Pf scheme ":scheme" QPACK_SCHEME_NAME_INDEX;
               Pf authority ":authority" QPACK_AUTHORITY_NAME_INDEX; Pf path ":path" QPACK_PATH_NAME_INDEX].

Definition quic_h3req_enc_connect (authority : list Z) : list Z -> Z -> option (Z * list Z) :=
  put_section [Pf (c_bytes "CONNECT") ":method" QPACK_METHOD_NAME_INDEX;
               Pf authority ":authority" QPACK_AUTHORITY_NAME_INDEX].

(** * h3reqenc/request_headers.c, header_encode.c *)

Definition quic_h3req_enc_method (method path authority : list Z) : list Z -> Z -> option (Z * list Z) :=
  quic_h3req_enc_pseudo method path (c_bytes "https") authority.

Definition quic_h3req_enc_get (path authority : list Z) : list Z -> Z -> option (Z * list Z) :=
  quic_h3req_enc_method (c_bytes "GET") path authority.

Definition quic_h3req_enc_header (name value : list Z) : list Z -> Z -> option (Z * list Z) :=
  quic_qpack_literal_name_encode false name (zlen name) value (zlen value).

(** * h3req/reqbuild.c *)

Definition append_body (body : list Z) : wr :=
  if zlen body =? 0 then wr_ok else emit_at (quic_h3_frame_put QUIC_H3_FRAME_DATA body (zlen body)).

Definition quic_h3req_build (qpack_headers : list Z) (body : list Z) : list Z -> Z -> option (Z * list Z) :=
  enc_then (quic_h3_frame_put QUIC_H3_FRAME_HEADERS qpack_headers (zlen qpack_headers)) (append_body body).

(** * h3conn/request.c *)

(** [build] fills a local array of [size] bytes, then its content goes out as one
    STREAM frame with FIN. *)
Definition send_stream (size : Z) (build : list Z -> Z -> option (Z * list Z)) (stream_id : Z)
    (out : list Z) (cap : Z) : option (option Z * list Z) :=
  match build (local size) size with
  | None => None
  | Some (h3_len, h3) =>
      if h3_len =? 0 then Some (None, out)
      else quic_appdata_stream_frame stream_id 0 (take (Z.to_nat h3_len) h3) h3_len 1 out cap
  end.

Definition quic_h3conn_send_request (stream_id : Z) (qpack_headers body : list Z) (out : list Z) (cap : Z) :=
  send_stream 1500 (quic_h3req_build qpack_headers body) stream_id out cap.

(** * h3reqdrive/request_drive.c: sending *)

Definition quic_h3reqdrive_send_method (stream_id : Z) (method path authority body : list Z) (out : list Z) (cap : Z)
  : option (option Z * list Z) :=
  match quic_h3req_enc_method method path authority (local 256) 256 with
  | None => None
  | Some (fs_len, fs) =>
      if fs_len =? 0 then Some (None, out)
      else quic_h3conn_send_request stream_id (take (Z.to_nat fs_len) fs) body out cap
  end.

Definition quic_h3reqdrive_send_get (stream_id : Z) (path authority : list Z) (out : list Z) (cap : Z) :=
  quic_h3reqdrive_send_method stream_id (c_bytes "GET") path authority [] out cap.

(** * h3cancel/cancel.c *)

Definition put_reset (stream_id final_size : Z) : list Z -> Z -> option (Z * list Z) :=
  quic_reset_stream_encode (mk_reset stream_id QUIC_H3_REQUEST_CANCELLED final_size).
Definition put_stop (stream_id : Z) : list Z -> Z -> option (Z * list Z) :=
  quic_stop_sending_encode (mk_stop stream_id QUIC_H3_REQUEST_CANCELLED).
Definition quic_h3cancel_request (stream_id final_size : Z) : list Z -> Z -> option (Z * list Z) :=
  enc_then (put_reset stream_id final_size) (emit_at (put_stop stream_id)).

(** * h3recv/req_frames.c *)

Definition quic_h3req_recv_first_headers (stream : list Z) (len : Z) : option (option (list Z)) :=
  match quic_h3_frame_get stream len with
  | None => None
  | Some None => Some None
  | Some (Some ((type, payload), _)) => Some (if negb (type =? QUIC_H3_FRAME_HEADERS) then None else Some payload)
  end.

(** * h3reqdrive/request_parse.c *)

(** [while (type != HEADERS)]: each frame takes at least one byte, so [n + 1]
    rounds are enough.  The field section and the offset after it. *)
Fixpoint find_headers_loop (fuel : nat) (h3 : list Z) (n off type : Z) (fs : list Z) : option (option (list Z * Z)) :=
  if type =? QUIC_H3_FRAME_HEADERS then Some (Some (fs, off))
  else match fuel with
       | O => None
       | S f =>
           match quic_h3_frame_get (drop (Z.to_nat off) h3) (n -w off) with
           | None => None
           | Some None => Some None
           | Some (Some ((t, p), used)) => find_headers_loop f h3 n (off +w used) t p
           end
       end.

Definition find_headers (h3 : list Z) (n : Z) : option (option (list Z * Z)) :=
  find_headers_loop (Z.to_nat n + 1) h3 n 0 0 [].

(** [Some None]: a truncated frame; [Some (Some (body, off))]: the frame at [off]
    was read, and [body] is its content when it is DATA. *)
Definition body_step (h3 : list Z) (n off : Z) : option (option (option (list Z) * Z)) :=
  match quic_h3_frame_get (drop (Z.to_nat off) h3) (n -w off) with
  | None => None
  | Some None => Some None
  | Some (Some ((t, p), used)) =>
      Some (Some (if negb (t =? QUIC_H3_FRAME_DATA) then None else Some p, off +w used))
  end.

(** [Some (Some body)] on a return of 1. *)
Fixpoint find_body_loop (fuel : nat) (h3 : list Z) (n off : Z) : option (option (option (list Z))) :=
  if off <? n
  then match fuel with
       | O => None
       | S f =>
           match body_step h3 n off with
           | None => None
           | Some None => Some None
           | Some (Some (Some p, _)) => Some (Some (Some p))
           | Some (Some (None, off')) => find_body_loop f h3 n off'
           end
       end
  else Some (Some None).

Definition find_body (h3 : list Z) (n off : Z) : option (option (option (list Z))) :=
  find_body_loop (Z.to_nat n + 1) h3 n off.

(** The field section and the body. *)
Definition quic_h3reqdrive_request_sections (stream_data : list Z) (len : Z)
  : option (option (list Z * option (list Z))) :=
  match quic_frame_get_stream stream_data len with
  | None => None
  | Some None => Some None
  | Some (Some (f, _)) =>
      match find_headers (sf_data f) (sf_length f) with
      | None => None
      | Some None => Some None
      | Some (Some (fs, end_)) =>
          match find_body (sf_data f) (sf_length f) end_ with
          | None => None
          | Some None => Some None
          | Some (Some body) => Some (Some (fs, body))
          end
      end
  end.

(** * h3reqdrive/request_drive.c: receiving *)

(** A borrowed value: bytes of the static table, or [len] bytes at an offset of
    the scratch buffer. *)
Inductive view := VStatic (bytes : list Z) | VScratch (off len : Z).

Definition see (scratch : list Z) (v : view) : list Z :=
  match v with VStatic b => b | VScratch off len => slice scratch off len end.

Record quic_h3reqdrive_req := Req {
  r_method : option view; r_scheme : option view; r_authority : option view; r_path : option view;
  r_body : option (list Z) }.

(** One recovered line; offsets are relative to the scratch cursor. *)
Record rline := Rline { rl_name : view; rl_value : view; scratch_used : Z }.

(** The static strings of entry [index], without their NUL. *)
Definition static_strings (index : Z) : option (option (list Z * list Z)) :=
  match quic_qpack_static_get index with
  | None => None
  | Some None => Some None
  | Some (Some (n, v)) => nl ← quic_qdyn_cstr_len n; vl ← quic_qdyn_cstr_len v;
                          Some (Some (take (Z.to_nat nl) n, take (Z.to_nat vl) v))
  end.

(** The line, the bytes consumed and the scratch from the cursor on. *)
Definition line_result : Type := option (option (rline * Z * list Z)).

(** The T bit is decoded and not looked at. *)
Definition line_indexed (fs : list Z) (n : Z) (scr : list Z) : line_result :=
  match quic_qpack_indexed_decode fs n with
  | None => None
  | Some None => Some None
  | Some (Some ((index, _), c)) =>
      match static_strings index with
      | None => None
      | Some None => Some None
      | Some (Some (name, value)) => Some (Some (Rline (VStatic name) (VStatic value) 0, c, scr))
      end
  end.

Definition line_namref (fs : list Z) (n : Z) (scr : list Z) (scap : Z) : line_result :=
  match quic_qpack_literal_namref_decode scr scap fs n with
  | None => None
  | Some None => Some None
  | Some (Some (r, c)) =>
      match static_strings (nr_index r) with
      | None => None
      | Some None => Some None
      | Some (Some (name, _)) =>
          let '(scr', vlen) := nr_value r in
          Some (Some (Rline (VStatic name) (VScratch 0 vlen) vlen, c, scr'))
      end
  end.

Definition line_litname (fs : list Z) (n : Z) (scr : list Z) (scap : Z) : line_result :=
  let half := scap / 2 in
  match quic_qpack_literal_name_decode (take (Z.to_nat half) scr) half (drop (Z.to_nat half) scr) (scap -w half) fs n with
  | None => None
  | Some None => Some None
  | Some (Some (r, c)) =>
      let '(nm, nlen) := ln_name r in
      let '(vl, vlen) := ln_value r in
      Some (Some (Rline (VScratch 0 nlen) (VScratch half vlen) (half +w vlen), c, nm ++ vl))
  end.

Definition decode_line (fs : list Z) (n : Z) (scr : list Z) (scap : Z) : line_result :=
  match line_indexed fs n scr with
  | None => None
  | Some (Some r) => Some (Some r)
  | Some None =>
      match line_namref fs n scr scap with
      | None => None
      | Some (Some r) => Some (Some r)
      | Some None => line_litname fs n scr scap
      end
  end.

Definition is_request_pseudo (k : quic_h3_ph_kind) : bool :=
  (ph_ord QUIC_H3_PH_METHOD <=? ph_ord k) && (ph_ord k <=? ph_ord QUIC_H3_PH_PATH).

Definition rebase (used : Z) (v : view) : view :=
  match v with VStatic b => VStatic b | VScratch off len => VScratch (used + off) len end.

Definition set_slot (k : quic_h3_ph_kind) (v : view) (r : quic_h3reqdrive_req) : quic_h3reqdrive_req :=
  match k with
  | QUIC_H3_PH_METHOD => Req (Some v) (r_scheme r) (r_authority r) (r_path r) (r_body r)
  | QUIC_H3_PH_SCHEME => Req (r_method r) (Some v) (r_authority r) (r_path r) (r_body r)
  | QUIC_H3_PH_AUTHORITY => Req (r_method r) (r_scheme r) (Some v) (r_path r) (r_body r)
  | QUIC_H3_PH_PATH => Req (r_method r) (r_scheme r) (r_authority r) (Some v) (r_body r)
  | _ => r
  end.

(** [name] is the line's name as it reads now. *)
Definition classify_line (name : list Z) (v : view) (r : quic_h3reqdrive_req) : option quic_h3reqdrive_req :=
  k ← quic_h3_ph_classify name (zlen name);
  Some (if negb (is_request_pseudo k) then r else set_slot k v r).

(** The cursors and the scratch after one line, with the request so far. *)
Record scan := Scan { sc_off : Z; sc_used : Z; sc_scratch : list Z; sc_req : quic_h3reqdrive_req }.

Definition step_line (fs : list Z) (n scap : Z) (s : scan) : option (option scan) :=
  match decode_line (drop (Z.to_nat (sc_off s)) fs) (n -w sc_off s)
          (drop (Z.to_nat (sc_used s)) (sc_scratch s)) (scap -w sc_used s) with
  | None => None
  | Some None => Some None
  | Some (Some (L, c, tail)) =>
      let scratch := take (Z.to_nat (sc_used s)) (sc_scratch s) ++ tail in
      r ← classify_line (see tail (rl_name L)) (rebase (sc_used s) (rl_value L)) (sc_req s);
      Some (Some (Scan (sc_off s +w c) (sc_used s +w scratch_used L) scratch r))
  end.

(** [while (off < n)]: a line takes at least one byte. *)
Fixpoint scan_lines (fuel : nat) (fs : list Z) (n scap : Z) (s : scan) : option (option scan) :=
  if sc_off s <? n
  then match fuel with
       | O => None
       | S f => match step_line fs n scap s with
                | None => None
                | Some None => Some None
                | Some (Some s') => scan_lines f fs n scap s'
                end
       end
  else Some (Some s).

Definition decode_lines (fs : list Z) (n : Z) (scratch : list Z) (scap : Z) (r : quic_h3reqdrive_req)
  : option (option (quic_h3reqdrive_req * list Z)) :=
  match quic_qpack_prefix_decode fs n with
  | None => None
  | Some None => Some None
  | Some (Some (_, off)) =>
      match scan_lines (Z.to_nat n + 1) fs n scap (Scan off 0 scratch r) with
      | None => None
      | Some None => Some None
      | Some (Some s) => Some (Some (sc_req s, sc_scratch s))
      end
  end.

(** The request and the scratch buffer its views point into. *)
Definition quic_h3reqdrive_recv_get (stream_data : list Z) (len : Z) (scratch : list Z) (scap : Z)
  : option (option (quic_h3reqdrive_req * list Z)) :=
  match quic_h3reqdrive_request_sections stream_data len with
  | None => None
  | Some None => Some None
  | Some (Some (fs, body)) => decode_lines fs (zlen fs) scratch scap (Req None None None None body)
  end.

(** * connect.c on a decoded request *)

Definition method_is_connect (m : option (list Z)) : bool :=
  match m with None => false | Some b => bool_decide (b = c_bytes "CONNECT") end.

Definition present (v : option view) : bool := match v with Some _ => true | None => false end.

Definition quic_h3_connect_req_ok (r : quic_h3reqdrive_req) (scratch : list Z) : bool :=
  quic_h3_connect_ok (method_is_connect (option_map (see scratch) (r_method r)))
    (present (r_authority r)) (present (r_scheme r)) (present (r_path r)).

(** * h3resp: building a response *)

Definition QPACK_STATUS_NAME_INDEX : Z := 24.

(** The four octets, NUL included. *)
Definition status_digits (status : Z) : list Z :=
  [u8 (48 + (status / 100) mod 10); u8 (48 + (status / 10) mod 10); u8 (48 + status mod 10); 0].

Definition resp_put_prefix : list Z -> Z -> option (Z * list Z) := quic_qpack_prefix_encode (Qpre 0 false 0).

Definition put_status_line (status : Z) : list Z -> Z -> option (Z * list Z) := fun out cap =>
  let digits := status_digits status in
  idx ← quic_qpack_static_find (c_str ":status") digits;
  if 0 <=? idx then quic_qpack_indexed_encode idx true out cap
  else quic_qpack_literal_namref_encode QPACK_STATUS_NAME_INDEX true false digits 3 out cap.

Definition quic_h3resp_encode_status (status : Z) : list Z -> Z -> option (Z * list Z) :=
  enc_then resp_put_prefix (emit_at (put_status_line status)).

Definition resp_append_body (body : list Z) : wr :=
  if zlen body =? 0 then wr_ok else emit_at (quic_h3_frame_put QUIC_H3_FRAME_DATA body (zlen body)).

Definition put_headers (status : Z) : list Z -> Z -> option (Z * list Z) := fun out cap =>
  match quic_h3resp_encode_status status (local 16) 16 with
  | None => None
  | Some (flen, field) =>
      if flen =? 0 then Some (0, out)
      else quic_h3_frame_put QUIC_H3_FRAME_HEADERS field flen out cap
  end.

Definition quic_h3resp_build (status : Z) (body : list Z) : list Z -> Z -> option (Z * list Z) :=
  enc_then (put_headers status) (resp_append_body body).

Definition quic_h3resp_hello : list Z -> Z -> option (Z * list Z) :=
  quic_h3resp_build 200 (c_bytes "hello" ++ [10]).

(** * h3req/respparse.c *)

Definition get_typed (want : Z) (buf : list Z) (n : Z) : option (option (list Z * Z)) :=
  match quic_h3_frame_get buf n with
  | None => None
  | Some None => Some None
  | Some (Some ((type, p), used)) => Some (if negb (type =? want) then None else Some (p, used))
  end.

(** The body: empty when nothing is left. *)
Definition parse_body (rem : list Z) (len : Z) : option (option (list Z)) :=
  if len =? 0 then Some (Some [])
  else match get_typed QUIC_H3_FRAME_DATA rem len with
       | None => None
       | Some None => Some None
       | Some (Some (p, _)) => Some (Some p)
       end.

Definition quic_h3req_resp_parse (stream : list Z) (len : Z) : option (option (list Z * list Z)) :=
  match get_typed QUIC_H3_FRAME_HEADERS stream len with
  | None => None
  | Some None => Some None
  | Some (Some (headers, off)) =>
      match parse_body (drop (Z.to_nat off) stream) (len -w off) with
      | None => None
      | Some None => Some None
      | Some (Some body) => Some (Some (headers, body))
      end
  end.

(** * h3conn/response.c *)

Definition quic_h3conn_send_response (stream_id status : Z) (body : list Z) (out : list Z) (cap : Z) :=
  send_stream 1500 (quic_h3resp_build status body) stream_id out cap.

(** Reads three octets whatever the length of [d]. *)
Definition digits_to_status (d : list Z) : option Z :=
  d0 ← load d 0; d1 ← load d 1; d2 ← load d 2;
  Some (((d0 - 48) * 100 + (d1 - 48) * 10 + (d2 - 48)) mod 65536).

(** Neither the T bit nor the name of the entry is looked at. *)
Definition status_from_indexed (buf : list Z) (n : Z) : option (option Z) :=
  match quic_qpack_indexed_decode buf n with
  | None => None
  | Some None => Some None
  | Some (Some ((index, _), _)) =>
      match quic_qpack_static_get index with
      | None => None
      | Some None => Some None
      | Some (Some (_, value)) => s ← digits_to_status value; Some (Some s)
      end
  end.

Definition status_from_literal (buf : list Z) (n : Z) : option (option Z) :=
  match quic_qpack_literal_namref_decode (local 8) 8 buf n with
  | None => None
  | Some None => Some None
  | Some (Some (r, _)) =>
      let '(val, vlen) := nr_value r in
      if negb (vlen =? 3) then Some None else s ← digits_to_status val; Some (Some s)
  end.

Definition decode_status (fs : list Z) (n : Z) : option (option Z) :=
  match quic_qpack_prefix_decode fs n with
  | None => None
  | Some None => Some None
  | Some (Some (_, off)) =>
      match status_from_indexed (drop (Z.to_nat off) fs) (n -w off) with
      | None => None
      | Some (Some s) => Some (Some s)
      | Some None => status_from_literal (drop (Z.to_nat off) fs) (n -w off)
      end
  end.

(** The status and the body. *)
Definition quic_h3conn_recv_response (stream_data : list Z) (len : Z) : option (option (Z * list Z)) :=
  match quic_frame_get_stream stream_data len with
  | None => None
  | Some None => Some None
  | Some (Some (f, _)) =>
      match quic_h3req_resp_parse (sf_data f) (sf_length f) with
      | None => None
      | Some None => Some None
      | Some (Some (headers, body)) =>
          match decode_status headers (zlen headers) with
          | None => None
          | Some None => Some None
          | Some (Some status) => Some (Some (status, body))
          end
      end
  end.

(** * server/h3srv/respond.c *)

Definition quic_h3srv_on_request (st : quic_h3srv_state) (stream_data : list Z) (len : Z) (scratch : list Z) (scap : Z)
  : option (option (quic_h3reqdrive_req * list Z) * quic_h3srv_state) :=
  match quic_h3reqdrive_recv_get stream_data len scratch scap with
  | None => None
  | Some None => Some (None, st)
  | Some (Some r) => Some (Some r, Srv (settings_sent st) (peer_control st) (peer_settings st) true)
  end.

Definition may_respond (st : quic_h3srv_state) : bool := settings_sent st && request_seen st.

Definition quic_h3srv_build_response (st : quic_h3srv_state) (stream_id status : Z) (body : list Z) (out : list Z) (cap : Z)
  : option (option Z * list Z) :=
  if negb (may_respond st) then Some (None, out) else quic_h3conn_send_response stream_id status body out cap.

(** [diff |= method[i] ^ head[i]] over the octets both have. *)
Definition is_head (method : list Z) : option bool :=
  diff ← diff_loop (Z.to_nat (Z.min 4 (zlen method))) (if zlen method =? 4 then 0 else 1) method (c_bytes "HEAD") 0;
  Some (diff =? 0).

Definition quic_h3srv_build_response_for_method (st : quic_h3srv_state) (stream_id : Z) (method : list Z) (status : Z)
    (body : list Z) (out : list Z) (cap : Z) : option (option Z * list Z) :=
  head ← is_head method;
  quic_h3srv_build_response st stream_id status (if (head : bool) then [] else body) out cap.

(** * Field lines *)

(** How a line goes out: [k] is the static entry with the name and the value if
    there is one, else the value follows the index [idx] of the name. *)
Definition line_bytes (k : option Z) (idx : Z) (v : list Z) : list Z :=
  match k with
  | Some i => indexed_bytes i true
  | None => namref_bytes idx true false (string_bytes false v)
  end.

(** What its decoder copies to the scratch buffer, and the view it returns. *)
Definition line_lit (k : option Z) (v : list Z) : list Z := match k with Some _ => [] | None => v end.
Definition line_view (k : option Z) (v : list Z) : view :=
  match k with Some _ => VStatic v | None => VScratch 0 (zlen v) end.

Definition static_line (name v : list Z) : option Z :=
  first_at (fun r => field_is name v (row_bytes r)) table_rows 0.

Definition resolves (k : option Z) (name v : list Z) : Prop :=
  match k with Some i => exists r, load table_rows i = Some r /\ row_bytes r = (name, v) | None => True end.

Lemma static_line_resolves name v : resolves (static_line name v) name v.
Proof.
  unfold resolves. destruct (static_line name v) as [i|] eqn:E; [|done].
  apply first_at_spec in E as (r & Hr & Hf). rewrite Z.sub_0_r in Hr. exists r. split; [done|].
  by apply bool_decide_eq_true in Hf.
Qed.

Lemma rows_range i r : load table_rows i = Some r -> 0 <= i < 99.
Proof. intros H%load_range. by change (zlen table_rows) with 99 in H. Qed.

Lemma zlen_line_bytes k idx v : 0 < zlen (line_bytes k idx v).
Proof. destruct k; [apply indexed_bytes_len|apply zlen_name_bytes]. Qed.

Lemma line_encodes k idx name v : resolves k name v -> is_u64 idx -> zlen v < max_object ->
  Encodes (match k with
           | Some i => quic_qpack_indexed_encode i true
           | None => quic_qpack_literal_namref_encode idx true false v (zlen v)
           end) (line_bytes k idx v).
Proof.
  intros Hk Hi Hv. destruct k as [i|]; [|by apply namref_encodes].
  destruct Hk as (r & Hr & _). apply rows_range in Hr. apply indexed_encodes. unfold is_u64. lia.
Qed.

(** A lookup that says -1 for "not there" decides between the two forms. *)
Lemma encodes_found {A} (k : option Z) (a b : Z -> A) :
  (forall i, k = Some i -> 0 <= i) ->
  (let idx := match k with Some i => i | None => -1 end in if 0 <=? idx then a idx else b idx) =
  match k with Some i => a i | None => b (-1) end.
Proof. intros Hk. destruct k as [i|]; [|done]. cbv zeta. specialize (Hk i eq_refl). by zdecide. Qed.

Lemma static_strings_spec i r : load table_rows i = Some r -> static_strings i = Some (Some (row_bytes r)).
Proof.
  intros Hr. unfold static_strings. rewrite (static_get_row _ _ Hr).
  destruct (rows_nonzero r) as [H1 H2]; [by apply list_elem_of_In; eapply load_elem|].
  unfold c_str. rewrite !cstr_len_spec by done. simpl mbind.
  unfold zlen. rewrite !Nat2Z.id. by rewrite (take_app_length (c_bytes (fst r))), (take_app_length (c_bytes (snd r))).
Qed.

(** A line with a name reference is not an indexed line. *)
Lemma namref_not_indexed idx sv post n : 0 <= idx -> 0 <= n ->
  quic_qpack_indexed_decode (namref_bytes idx true false sv ++ post) n = Some None.
Proof.
  intros Hi Hn. unfold quic_qpack_indexed_decode, dec_first, first_byte, namref_bytes.
  destruct (n =? 0); [done|].
  destruct (int_bytes_head 4 (namref_prefix true false) idx) as (x & l & -> & Hx); [lia..|].
  change (pmax_of 4) with 15 in Hx. change (load _ 0) with (Some (Z.lor (namref_prefix true false) x)).
  pose proof (nat_range_forall (fun x => negb (is_indexed (Z.lor (namref_prefix true false) x))) 16) as Hf.
  specialize (Hf ltac:(by vm_compute) x ltac:(lia)). apply negb_true_iff in Hf. cbv beta iota. by rewrite Hf.
Qed.

(** One line as [decode_line] reads it back. *)
Lemma line_decodes k idx name v r0 scr scap post n :
  resolves k name v -> load table_rows idx = Some r0 -> c_bytes (fst r0) = name ->
  Forall is_u8 v -> zlen (line_lit k v) <= scap -> scap <= zlen scr -> scap < max_object -> 
  zlen (line_bytes k idx v) <= n <= zlen (line_bytes k idx v ++ post) -> n < max_object ->
  decode_line (line_bytes k idx v ++ post) n scr scap =
  Some (Some (Rline (VStatic name) (line_view k v) (zlen (line_lit k v)), zlen (line_bytes k idx v),
              splice scr 0 (line_lit k v))).
Proof.
  intros Hk Hidx Hname Hv Hl Hs Hso Hn Hno. pose proof (rows_range _ _ Hidx) as Hir.
  pose proof (zlen_line_bytes k idx v). unfold decode_line, line_indexed. destruct k as [i|].
  - destruct Hk as (r & Hr & Hrow). pose proof (rows_range _ _ Hr). cbn [line_bytes] in *.
    rewrite (indexed_decodes i true ltac:(change (2 ^ 63) with 9223372036854775808; lia) post n ltac:(lia) Hno). zdecide.
    rewrite (static_strings_spec _ _ Hr), Hrow. cbn [line_view line_lit]. by rewrite splice_nil.
  - cbn [line_bytes line_lit line_view] in *. rewrite namref_not_indexed by lia. unfold line_namref.
    assert (Hd : Decodes (quic_qpack_literal_namref_decode scr scap)
      (namref_bytes idx true false (string_bytes false v)) (Namref idx true false (splice scr 0 v, zlen v))).
    { apply namref_decodes; try done; [change (2 ^ 63) with 9223372036854775808|]; lia. }
    rewrite (Hd post n ltac:(lia) Hno). zdecide. cbn [nr_index nr_value].
    rewrite (static_strings_spec _ _ Hidx). unfold row_bytes. by rewrite Hname.
Qed.

(** ** The four pseudo-header lines *)

Definition pf_line (f : pseudo_field) : option Z :=
  if VALBUF_CAP <=? zlen (pf_val f) then None else static_line (c_bytes (pf_name f)) (pf_val f).

Definition pf_bytes (f : pseudo_field) : list Z := line_bytes (pf_line f) (pf_name_idx f) (pf_val f).
Definition pf_lit (f : pseudo_field) : list Z := line_lit (pf_line f) (pf_val f).

(** A field that [put_pseudo] treats as the caller means it: a value that goes
    through the NUL-terminated lookup contains no NUL, and the index names the
    static row with this name. *)
Definition pf_ok (f : pseudo_field) : Prop :=
  (zlen (pf_val f) < VALBUF_CAP -> Forall nonzero (pf_val f)) /\ Forall is_u8 (pf_val f) /\
  zlen (pf_val f) < max_object /\
  (exists v, load table_rows (pf_name_idx f) = Some (pf_name f, v)).

Lemma pf_resolves f : resolves (pf_line f) (c_bytes (pf_name f)) (pf_val f).
Proof. unfold pf_line. destruct (_ <=? _); [done|]. apply static_line_resolves. Qed.

Lemma pf_name_nonzero f : pf_ok f -> Forall nonzero (c_bytes (pf_name f)).
Proof.
  intros (_ & _ & _ & v & Hr). apply load_elem, list_elem_of_In, rows_nonzero in Hr. by destruct Hr.
Qed.

Lemma static_index_spec f : pf_ok f ->
  static_index f (local VALBUF_CAP) = Some (match pf_line f with Some i => i | None => -1 end).
Proof.
  intros Hf. destruct (Hf) as (Hz & _ & _ & _). unfold static_index, val_cstr, pf_line.
  pose proof (zlen_nonneg (pf_val f)). destruct (Z.leb_spec VALBUF_CAP (zlen (pf_val f))) as [|Hlt]; [done|].
  assert (Hl : zlen (local VALBUF_CAP) = 16) by done. unfold VALBUF_CAP in Hlt.
  rewrite copy_loop_len, Z2Nat.id by lia. simpl mbind.
  assert (Hs : slice (pf_val f) 0 (zlen (pf_val f)) = pf_val f) by (unfold slice; rewrite drop_0; apply take_zlen).
  rewrite Hs, store_ok by (rewrite zlen_splice; lia). simpl mbind.
  rewrite insert_splice by (rewrite zlen_splice; lia).
  pose proof (splice_splice (local VALBUF_CAP) (pf_val f) [0] 0) as Hsp. rewrite Z.add_0_l in Hsp.
  rewrite Hsp by (change (zlen [0]) with 1; lia).
  unfold splice. change (Z.to_nat 0) with 0%nat. rewrite take_0. cbn [app]. rewrite <- app_assoc. cbn [app].
  unfold c_str. by rewrite static_find_exact; [|apply pf_name_nonzero|apply Hz].
Qed.

Lemma put_pseudo_encodes f : pf_ok f -> Encodes (put_pseudo f) (pf_bytes f).
Proof.
  intros Hf buf cap Hc Ho. unfold put_pseudo. rewrite static_index_spec by done. simpl mbind.
  destruct (Hf) as (_ & _ & Hv & v & Hr). apply rows_range in Hr. pose proof (pf_resolves f) as Hk.
  pose proof (encodes_found (pf_line f) (fun idx => quic_qpack_indexed_encode idx true buf cap)
    (fun _ => quic_qpack_literal_namref_encode (pf_name_idx f) true false (pf_val f) (zlen (pf_val f)) buf cap)) as He.
  cbv zeta beta in He. rewrite He.
  - pose proof (line_encodes _ (pf_name_idx f) _ _ Hk ltac:(unfold is_u64; lia) Hv buf cap Hc Ho) as Hl.
    unfold pf_bytes. by destruct (pf_line f).
  - intros i Hi. rewrite Hi in Hk. destruct Hk as (r & Hr' & _). apply rows_range in Hr'. lia.
Qed.

Definition section_bytes (fields : list pseudo_field) : list Z :=
  prefix_bytes (Qpre 0 false 0) ++ concat (map pf_bytes fields).

Lemma put_section_encodes fields : Forall pf_ok fields -> Encodes (put_section fields) (section_bytes fields).
Proof.
  intros Hf. apply encodes_then; [apply prefix_encodes; cbn; unfold is_u64; lia|apply zlen_name_bytes|].
  apply writes_each. intros f Hin. rewrite List.Forall_forall in Hf. apply list_elem_of_In in Hin.
  apply writes_emit_at; [by apply put_pseudo_encodes, Hf|apply zlen_line_bytes].
Qed.

(** ** Reading a section back *)

(** What one line does to the request when [used] octets of scratch are taken. *)
Definition assign (used : Z) (f : pseudo_field) (r : quic_h3reqdrive_req) : quic_h3reqdrive_req :=
  let k := kind_of (c_bytes (pf_name f)) in
  if negb (is_request_pseudo k) then r else set_slot k (rebase used (line_view (pf_line f) (pf_val f))) r.

Fixpoint assign_all (used : Z) (fields : list pseudo_field) (r : quic_h3reqdrive_req) : quic_h3reqdrive_req :=
  match fields with
  | [] => r
  | f :: fields' => assign_all (used + zlen (pf_lit f)) fields' (assign used f r)
  end.

Lemma step_line_spec f pre post n scap used scratch r :
  pf_ok f -> n = zlen (pre ++ pf_bytes f ++ post) -> n < max_object ->
  0 <= used -> used + zlen (pf_lit f) <= scap -> scap <= zlen scratch -> scap < max_object ->
  step_line (pre ++ pf_bytes f ++ post) n scap (Scan (zlen pre) used scratch r) =
  Some (Some (Scan (zlen (pre ++ pf_bytes f)) (used + zlen (pf_lit f)) (splice scratch used (pf_lit f)) (assign used f r))).
Proof.
  intros Hf Hn Hno Hu Hl Hs Hso. unfold step_line. cbn [sc_off sc_used sc_scratch sc_req].
  pose proof (zlen_nonneg pre). pose proof (zlen_nonneg (pf_lit f)). pose proof (zlen_nonneg post).
  rewrite !zlen_app in Hn. pose proof (zlen_line_bytes (pf_line f) (pf_name_idx f) (pf_val f)) as Hb.
  fold (pf_bytes f) in Hb. unwrap. unfold zlen at 1. rewrite Nat2Z.id, drop_app_length.
  assert (Hd : zlen (drop (Z.to_nat used) scratch) = zlen scratch - used) by (unfold zlen in *; rewrite length_drop; lia).
  destruct (Hf) as (_ & Hv8 & Hv & v & Hr). unfold pf_bytes, pf_lit in *.
  rewrite (line_decodes _ _ (c_bytes (pf_name f)) _ (pf_name f, v)); try done; try lia;
    [|apply pf_resolves|rewrite zlen_app; lia].
  cbn [rl_name rl_value scratch_used see]. unfold classify_line.
  rewrite classify_exact, take_zlen by (pose proof (zlen_nonneg (c_bytes (pf_name f))); lia). simpl mbind.
  rewrite take_app_splice by lia. unwrap. by rewrite zlen_app.
Qed.

Lemma scan_lines_spec fields : forall fuel pre n scap used scratch r,
  Forall pf_ok fields -> (List.length fields <= fuel)%nat ->
  n = zlen (pre ++ concat (map pf_bytes fields)) -> n < max_object ->
  0 <= used -> used + zlen (concat (map pf_lit fields)) <= scap -> scap <= zlen scratch -> scap < max_object ->
  scan_lines fuel (pre ++ concat (map pf_bytes fields)) n scap (Scan (zlen pre) used scratch r) =
  Some (Some (Scan n (used + zlen (concat (map pf_lit fields))) (splice scratch used (concat (map pf_lit fields)))
    (assign_all used fields r))).
Proof.
  induction fields as [|f fields IH]; intros fuel pre n scap used scratch r Hf Hfu Hn Hno Hu Hl Hs Hso;
    cbn [map concat assign_all] in *.
  - rewrite app_nil_r in Hn. rewrite zlen_nil, Z.add_0_r, splice_nil, Hn.
    destruct fuel; cbn [scan_lines sc_off]; by rewrite Z.ltb_irrefl.
  - apply List.Forall_cons_iff in Hf as [Hf Hfs]. destruct fuel as [|fuel]; [cbn in Hfu; lia|].
    pose proof (zlen_line_bytes (pf_line f) (pf_name_idx f) (pf_val f)) as Hb. fold (pf_bytes f) in Hb.
    pose proof (zlen_nonneg (concat (map pf_bytes fields))). pose proof (zlen_nonneg (concat (map pf_lit fields))).
    pose proof (zlen_nonneg pre). pose proof (zlen_nonneg (pf_lit f)). rewrite zlen_app in Hl.
    cbn [scan_lines]. rewrite step_line_spec by (done || lia). cbn [sc_off].
    rewrite app_assoc in Hn |- *. rewrite IH; try done; try lia.
    + rewrite !zlen_app in Hn. zdecide. rewrite zlen_app, Z.add_assoc. by rewrite splice_splice by lia.
    + cbn in Hfu. lia.
    + by rewrite zlen_splice by lia.
Qed.

Lemma decode_lines_spec fields scratch scap r :
  Forall pf_ok fields -> zlen (section_bytes fields) < max_object ->
  zlen (concat (map pf_lit fields)) <= scap -> scap <= zlen scratch -> scap < max_object ->
  decode_lines (section_bytes fields) (zlen (section_bytes fields)) scratch scap r =
  Some (Some (assign_all 0 fields r, splice scratch 0 (concat (map pf_lit fields)))).
Proof.
  intros Hf Hn Hl Hs Hso. unfold decode_lines, section_bytes in *.
  assert (Hd : Decodes quic_qpack_prefix_decode (prefix_bytes (Qpre 0 false 0)) (Qpre 0 false 0))
    by (apply prefix_decodes; cbn; lia).
  pose proof (zlen_nonneg (concat (map pf_bytes fields))) as Hc0.
  rewrite (Hd (concat (map pf_bytes fields))) by (pose proof (zlen_nonneg (prefix_bytes (Qpre 0 false 0) ++ concat (map pf_bytes fields))); lia).
  rewrite zlen_app in Hn |- *. zdecide. rewrite scan_lines_spec; try done; try lia; [|by rewrite zlen_app].
  assert (Hlen : Z.of_nat (List.length fields) <= zlen (concat (map pf_bytes fields))).
  { clear. induction fields as [|f fields IH]; [done|]. cbn [map concat List.length]. rewrite zlen_app.
    pose proof (zlen_line_bytes (pf_line f) (pf_name_idx f) (pf_val f)) as Hb. fold (pf_bytes f) in Hb. lia. }
  pose proof (zlen_nonneg (prefix_bytes (Qpre 0 false 0))). lia.
Qed.

(** A line's view reads its value as long as the octets it was given stay where
    they are. *)
Lemma view_reads f pre post :
  see (pre ++ pf_lit f ++ post) (rebase (zlen pre) (line_view (pf_line f) (pf_val f))) = pf_val f.
Proof.
  unfold pf_lit. destruct (pf_line f); cbn; [done|]. rewrite Z.add_0_r. by apply slice_app.
Qed.

(** ** A message on a stream *)

Definition message_bytes (fs body : list Z) : list Z :=
  h3frame_bytes QUIC_H3_FRAME_HEADERS fs ++
  (if zlen body =? 0 then [] else h3frame_bytes QUIC_H3_FRAME_DATA body).

Lemma zlen_h3frame type payload : is_varint type -> 0 < zlen (h3frame_bytes type payload).
Proof.
  intros Ht. unfold h3frame_bytes. rewrite !zlen_app, zlen_varint_bytes by done. pose proof (varint_len_pos type Ht). pose proof (zlen_nonneg payload).
  pose proof (zlen_nonneg (varint_bytes (zlen payload))). lia.
Qed.

Lemma zlen_message fs body : 0 < zlen (message_bytes fs body).
Proof.
  unfold message_bytes. rewrite zlen_app. pose proof (zlen_h3frame QUIC_H3_FRAME_HEADERS fs ltac:(done)).
  match goal with |- context [zlen ?h + zlen ?t] => pose proof (zlen_nonneg t) end. lia.
Qed.

Lemma body_varint fs body : zlen (message_bytes fs body) <= 1500 -> is_varint (zlen body).
Proof.
  unfold message_bytes. intros Hm. pose proof (zlen_nonneg body). rewrite zlen_app in Hm.
  pose proof (zlen_nonneg (h3frame_bytes QUIC_H3_FRAME_HEADERS fs)).
  unfold is_varint, QUIC_VARINT_MAX. destruct (Z.eqb_spec (zlen body) 0); [lia|].
  unfold h3frame_bytes in Hm at 2. rewrite !zlen_app in Hm. pose proof (zlen_nonneg (varint_bytes QUIC_H3_FRAME_DATA)).
  pose proof (zlen_nonneg (varint_bytes (zlen body))). lia.
Qed.

Lemma body_writes body : is_varint (zlen body) ->
  Writes (append_body body) (if zlen body =? 0 then [] else h3frame_bytes QUIC_H3_FRAME_DATA body).
Proof.
  intros Hb. unfold append_body. destruct (zlen body =? 0); [apply writes_ok_nil|].
  apply writes_emit_at; [by apply h3_frame_encodes|by apply zlen_h3frame].
Qed.

Lemma request_encodes fs body : is_varint (zlen fs) -> is_varint (zlen body) ->
  Encodes (quic_h3req_build fs body) (message_bytes fs body).
Proof.
  intros Hf Hb. apply encodes_then; [by apply h3_frame_encodes|by apply zlen_h3frame|by apply body_writes].
Qed.

(** [send_stream] puts the image of its builder in one STREAM frame that the
    frame decoder reads back. *)
Lemma send_stream_spec size build bs stream_id out cap :
  Encodes build bs -> 0 < zlen bs <= size -> is_varint size -> is_varint stream_id ->
  let f := mk_stream stream_id 0 (zlen bs) bs 1 in
  zlen (fc_bytes f) <= cap <= zlen out -> zlen out < max_object ->
  exists out', send_stream size build stream_id out cap = Some (Some (zlen (fc_bytes f)), out') /\
    quic_frame_get_stream out' (zlen out) = Some (Some (f, zlen (fc_bytes f))).
Proof.
  intros He Hbs Hs Hid f Hcap Ho. pose proof (varint_lt_object size Hs).
  assert (Hl : zlen (local size) = size) by (unfold local, zlen; rewrite repeat_length; lia).
  specialize (He (local size) size ltac:(lia) ltac:(lia)). unfold send_stream. revert He. zdecide. intros ->.
  zdecide. rewrite take_splice_front. unfold is_varint in Hs.
  apply (appdata_stream_frame_decodes stream_id 0 bs 1 out cap Hid); unfold is_varint, QUIC_VARINT_MAX in *; lia || done.
Qed.

(** Both readers of a message find its parts. *)
Lemma h3_frame_get_head type payload post n : is_varint type -> is_varint (zlen payload) ->
  n = zlen (h3frame_bytes type payload ++ post) -> n < max_object ->
  quic_h3_frame_get (h3frame_bytes type payload ++ post) n = Some (Some ((type, payload), zlen (h3frame_bytes type payload))).
Proof.
  intros Ht Hp Hn Hno. pose proof (zlen_nonneg (h3frame_bytes type payload)). pose proof (zlen_nonneg post).
  assert (Hsum := Hn). rewrite zlen_app in Hsum.
  rewrite (h3_frame_decodes type payload Ht Hp post n ltac:(lia) Hno). by zdecide.
Qed.

Lemma message_sections fs body : is_varint (zlen fs) -> is_varint (zlen body) ->
  zlen (message_bytes fs body) < max_object ->
  let m := message_bytes fs body in
  find_headers m (zlen m) = Some (Some (fs, zlen (h3frame_bytes QUIC_H3_FRAME_HEADERS fs))) /\
  find_body m (zlen m) (zlen (h3frame_bytes QUIC_H3_FRAME_HEADERS fs)) =
    Some (Some (if zlen body =? 0 then None else Some body)) /\
  quic_h3req_resp_parse m (zlen m) = Some (Some (fs, body)).
Proof.
  intros Hf Hb Hm m. pose proof (zlen_message fs body) as Hm0. subst m. unfold message_bytes in *.
  set (h := h3frame_bytes QUIC_H3_FRAME_HEADERS fs) in *.
  assert (Hh : 0 < zlen h) by by apply zlen_h3frame. rewrite zlen_app in *.
  set (t := if zlen body =? 0 then [] else h3frame_bytes QUIC_H3_FRAME_DATA body) in *.
  pose proof (zlen_nonneg t).
  assert (Hg : quic_h3_frame_get (h ++ t) (zlen h + zlen t) = Some (Some ((QUIC_H3_FRAME_HEADERS, fs), zlen h))).
  { apply h3_frame_get_head; [done..|by rewrite zlen_app|lia]. }
  assert (Hdrop : drop (Z.to_nat (zlen h)) (h ++ t) = t) by (unfold zlen; by rewrite Nat2Z.id, drop_app_length).
  assert (Ht : zlen body <> 0 -> quic_h3_frame_get t (zlen t) = Some (Some ((QUIC_H3_FRAME_DATA, body), zlen t))).
  { intros Hz. subst t. zdecide. pose proof (h3_frame_get_head QUIC_H3_FRAME_DATA body [] (zlen (h3frame_bytes QUIC_H3_FRAME_DATA body))) as Hx.
    rewrite app_nil_r in Hx. apply Hx; [done..|]. revert Hm. zdecide. lia. }
  split_and!.
  - unfold find_headers. rewrite Nat.add_1_r. cbn [find_headers_loop]. change (0 =? QUIC_H3_FRAME_HEADERS) with false. cbv iota.
    unwrap. rewrite Z.sub_0_r. change (Z.to_nat 0) with 0%nat. rewrite drop_0, Hg. rewrite Z.add_0_l. unwrap.
    by destruct (Z.to_nat (zlen h + zlen t)).
  - unfold find_body. rewrite Nat.add_1_r. cbn [find_body_loop]. unfold body_step. rewrite Hdrop. unwrap.
    replace (zlen h + zlen t - zlen h) with (zlen t) by lia.
    destruct (Z.eqb_spec (zlen body) 0) as [Hz|Hz].
    + subst t. rewrite zlen_nil. by zdecide.
    + assert (0 < zlen t) by (subst t; zdecide; by apply zlen_h3frame). zdecide. by rewrite Ht.
  - unfold quic_h3req_resp_parse, get_typed. rewrite Hg. cbn [negb]. change (negb (_ =? _)) with false. cbv iota.
    rewrite Hdrop. unwrap. replace (zlen h + zlen t - zlen h) with (zlen t) by lia. unfold parse_body, get_typed.
    destruct (Z.eqb_spec (zlen body) 0) as [Hz|Hz].
    + subst t. rewrite zlen_nil. zdecide. by destruct body.
    + assert (0 < zlen t) by (subst t; zdecide; by apply zlen_h3frame). zdecide. by rewrite Ht.
Qed.

(** ** Round trips *)

Definition request_fields (method path scheme authority : list Z) : list pseudo_field :=
  [Pf method ":method" QPACK_METHOD_NAME_INDEX; Pf scheme ":scheme" QPACK_SCHEME_NAME_INDEX;
   Pf authority ":authority" QPACK_AUTHORITY_NAME_INDEX; Pf path ":path" QPACK_PATH_NAME_INDEX].

(** A value the encoder can carry: octets, with no NUL when it is short. *)
Definition value_ok (v : list Z) : Prop :=
  Forall is_u8 v /\ (zlen v < VALBUF_CAP -> Forall nonzero v) /\ zlen v < max_object.

Lemma request_fields_ok method path scheme authority :
  value_ok method -> value_ok path -> value_ok scheme -> value_ok authority ->
  Forall pf_ok (request_fields method path scheme authority).
Proof.
  intros (A1 & A2 & A3) (B1 & B2 & B3) (C1 & C2 & C3) (D1 & D2 & D3). unfold request_fields.
  repeat apply List.Forall_cons; try apply List.Forall_nil; unfold pf_ok; cbn [pf_val pf_name pf_name_idx];
    (split_and!; [done..|eexists; vm_compute; done]).
Qed.

(** The request a section of these fields decodes to, read through its scratch. *)
Lemma assign_request method path scheme authority body rest :
  let fields := request_fields method path scheme authority in
  let r := assign_all 0 fields (Req None None None None body) in
  let scratch := concat (map pf_lit fields) ++ rest in
  option_map (see scratch) (r_method r) = Some method /\ option_map (see scratch) (r_scheme r) = Some scheme /\
  option_map (see scratch) (r_authority r) = Some authority /\ option_map (see scratch) (r_path r) = Some path /\
  r_body r = body.
Proof.
  intros fields r scratch.
  set (fm := Pf method ":method" QPACK_METHOD_NAME_INDEX) in *.
  set (fs := Pf scheme ":scheme" QPACK_SCHEME_NAME_INDEX) in *.
  set (fa := Pf authority ":authority" QPACK_AUTHORITY_NAME_INDEX) in *.
  set (fp := Pf path ":path" QPACK_PATH_NAME_INDEX) in *.
  assert (Hs : scratch = pf_lit fm ++ pf_lit fs ++ pf_lit fa ++ pf_lit fp ++ rest).
  { subst scratch fields. unfold request_fields. cbn [map concat]. by rewrite app_nil_r, <- !app_assoc. }
  assert (Hr : r = Req (Some (rebase 0 (line_view (pf_line fm) method)))
    (Some (rebase (0 + zlen (pf_lit fm)) (line_view (pf_line fs) scheme)))
    (Some (rebase (0 + zlen (pf_lit fm) + zlen (pf_lit fs)) (line_view (pf_line fa) authority)))
    (Some (rebase (0 + zlen (pf_lit fm) + zlen (pf_lit fs) + zlen (pf_lit fa)) (line_view (pf_line fp) path))) body).
  { subst r fields. unfold request_fields. cbn [assign_all]. unfold assign.
    repeat match goal with |- context [kind_of ?n] =>
      let k := eval vm_compute in (kind_of n) in change (kind_of n) with k end. done. }
  rewrite Hr, Hs. cbn [r_method r_scheme r_authority r_path r_body option_map]. split_and!; try done; f_equal.
  - exact (view_reads fm [] _).
  - exact (view_reads fs (pf_lit fm) _).
  - replace (0 + zlen (pf_lit fm) + zlen (pf_lit fs)) with (zlen (pf_lit fm ++ pf_lit fs)) by (rewrite zlen_app; lia).
    rewrite app_assoc. exact (view_reads fa (pf_lit fm ++ pf_lit fs) _).
  - replace (0 + zlen (pf_lit fm) + zlen (pf_lit fs) + zlen (pf_lit fa))
      with (zlen ((pf_lit fm ++ pf_lit fs) ++ pf_lit fa)) by (rewrite !zlen_app; lia).
    rewrite !app_assoc, <- app_assoc. exact (view_reads fp ((pf_lit fm ++ pf_lit fs) ++ pf_lit fa) rest).
Qed.

(** C12: End-to-end round trip of a request: what [quic_h3reqdrive_send_method]
    puts in a STREAM frame, [quic_h3reqdrive_recv_get] reads back as the same
    method, the scheme "https", the same authority and path (seen through the
    scratch buffer after the whole section is decoded, so no later line has
    overwritten an earlier value) and the same body, whenever the sizes fit the
    buffers and a value shorter than 16 octets contains no NUL. *)
Theorem request_roundtrip stream_id method path authority body out cap scratch scap :
  let fields := request_fields method path (c_bytes "https") authority in
  let m := message_bytes (section_bytes fields) body in
  is_varint stream_id -> value_ok method -> value_ok path -> value_ok authority ->
  zlen (section_bytes fields) <= 256 -> zlen m <= 1500 ->
  zlen (fc_bytes (mk_stream stream_id 0 (zlen m) m 1)) <= cap <= zlen out -> zlen out < max_object ->
  zlen (concat (map pf_lit fields)) <= scap <= zlen scratch -> scap < max_object ->
  exists len out' r scratch',
    quic_h3reqdrive_send_method stream_id method path authority body out cap = Some (Some len, out') /\
    quic_h3reqdrive_recv_get out' (zlen out) scratch scap = Some (Some (r, scratch')) /\
    option_map (see scratch') (r_method r) = Some method /\
    option_map (see scratch') (r_scheme r) = Some (c_bytes "https") /\
    option_map (see scratch') (r_authority r) = Some authority /\
    option_map (see scratch') (r_path r) = Some path /\
    r_body r = (if zlen body =? 0 then None else Some body).
Proof.
  intros fields m Hid Hme Hpa Hau Hfs Hm Hcap Ho Hsc Hso.
  assert (Hok : Forall pf_ok fields).
  { apply request_fields_ok; try done. split_and!; [|intros _|by vm_compute];
      repeat apply List.Forall_cons; try apply List.Forall_nil; by unfold is_u8, nonzero. }
  pose proof (put_section_encodes fields Hok (local 256) 256 ltac:(done) ltac:(done)) as He. revert He.
  pose proof (zlen_nonneg (section_bytes fields)). ztrue (zlen (section_bytes fields) <=? 256). intros He.
  assert (Hpos : 0 < zlen (section_bytes fields)).
  { unfold section_bytes. rewrite zlen_app. pose proof (zlen_nonneg (concat (map pf_bytes fields))).
    change (zlen (prefix_bytes (Qpre 0 false 0))) with 2. lia. }
  assert (Hbody : is_varint (zlen body)) by (by eapply body_varint).
  assert (Hvfs : is_varint (zlen (section_bytes fields))) by (unfold is_varint, QUIC_VARINT_MAX; lia).
  destruct (send_stream_spec 1500 _ m stream_id out cap (request_encodes _ body Hvfs Hbody)) as (out' & Hsend & Hget);
    [pose proof (zlen_message (section_bytes fields) body); subst m; lia|unfold is_varint, QUIC_VARINT_MAX; lia|done..|].
  assert (Hmo : zlen m < max_object) by (unfold max_object; lia).
  destruct (message_sections (section_bytes fields) body Hvfs Hbody Hmo) as (Hh & Hb & _).
  eexists _, out', _, _. split; [|split].
  - unfold quic_h3reqdrive_send_method, quic_h3req_enc_method, quic_h3req_enc_pseudo. fold (request_fields method path (c_bytes "https") authority).
    fold fields. rewrite He. zdecide. rewrite take_splice_front. exact Hsend.
  - unfold quic_h3reqdrive_recv_get, quic_h3reqdrive_request_sections. rewrite Hget. cbn [sf_data sf_length].
    fold m in Hh, Hb. rewrite Hh, Hb. apply decode_lines_spec; try done; try lia. unfold max_object. lia.
  - unfold splice. change (Z.to_nat 0) with 0%nat. rewrite take_0. cbn [app]. apply assign_request.
Qed.

(** Witness of C12: a POST with a body, a literal path and an authority in scratch. *)
Lemma request_roundtrip_witness :
  exists len out' r scratch',
    quic_h3reqdrive_send_method 4 (c_bytes "POST") (c_bytes "/upload") (c_bytes "example.com") [1; 0; 2] (local 100) 90
      = Some (Some len, out') /\
    quic_h3reqdrive_recv_get out' 100 (local 64) 64 = Some (Some (r, scratch')) /\
    option_map (see scratch') (r_method r) = Some (c_bytes "POST") /\
    option_map (see scratch') (r_scheme r) = Some (c_bytes "https") /\
    option_map (see scratch') (r_authority r) = Some (c_bytes "example.com") /\
    option_map (see scratch') (r_path r) = Some (c_bytes "/upload") /\
    r_body r = Some [1; 0; 2].
Proof.
  refine (request_roundtrip 4 (c_bytes "POST") (c_bytes "/upload") (c_bytes "example.com") [1; 0; 2] (local 100) 90
    (local 64) 64 _ _ _ _ _ _ _ _ _ _); try closed_arith.
  all: split_and!; [|intros _|by vm_compute]; repeat apply List.Forall_cons; try apply List.Forall_nil;
    by unfold is_u8, nonzero.
Defined.

(** ** Responses *)

Lemma h3_frame_encodes_front type payload k : is_varint type -> is_varint k -> k <= zlen payload ->
  Encodes (quic_h3_frame_put type payload k) (h3frame_bytes type (take (Z.to_nat k) payload)).
Proof.
  intros Ht Hk Hl. assert (0 <= k) by (unfold is_varint in Hk; lia).
  assert (Hz : zlen (take (Z.to_nat k) payload) = k) by (unfold zlen in *; rewrite length_take; lia).
  apply encodes_to. unfold put_head, h3frame_bytes. rewrite app_assoc, Hz.
  apply writes_seq; [by apply writes_seq; apply writes_varint|]. apply writes_put_bytes; [lia|by apply varint_lt_object].
Qed.

Definition status_text (status : Z) : list Z :=
  [u8 (48 + (status / 100) mod 10); u8 (48 + (status / 10) mod 10); u8 (48 + status mod 10)].

Definition status_section (status : Z) : list Z :=
  prefix_bytes (Qpre 0 false 0) ++
  line_bytes (static_line (c_bytes ":status") (status_text status)) QPACK_STATUS_NAME_INDEX (status_text status).

Lemma status_text_ok status : Forall is_u8 (status_text status) /\ Forall nonzero (status_text status).
Proof.
  unfold status_text, nonzero, u8.
  pose proof (Z.mod_pos_bound (status / 100) 10 ltac:(lia)). pose proof (Z.mod_pos_bound (status / 10) 10 ltac:(lia)).
  pose proof (Z.mod_pos_bound status 10 ltac:(lia)). rewrite !(Z.mod_small (48 + _)) by lia.
  split; repeat apply List.Forall_cons; try apply List.Forall_nil; unfold is_u8; lia.
Qed.

Lemma status_line_encodes status :
  Encodes (put_status_line status)
    (line_bytes (static_line (c_bytes ":status") (status_text status)) QPACK_STATUS_NAME_INDEX (status_text status)).
Proof.
  intros buf cap Hc Ho. destruct (status_text_ok status) as [_ Hnz]. unfold put_status_line. cbv zeta.
  assert (Hf : quic_qpack_static_find (c_str ":status") (status_digits status) =
    Some (match static_line (c_bytes ":status") (status_text status) with Some k => k | None => -1 end)).
  { apply (static_find_exact (c_bytes ":status") (status_text status) [] []); [|done].
    repeat apply List.Forall_cons; try apply List.Forall_nil; by unfold nonzero. }
  rewrite Hf. simpl mbind.
  pose proof (static_line_resolves (c_bytes ":status") (status_text status)) as Hk.
  destruct (static_line (c_bytes ":status") (status_text status)) as [i|].
  - destruct Hk as (r & Hr & _). apply rows_range in Hr. zdecide. apply indexed_encodes; [unfold is_u64; lia|done..].
  - change (0 <=? -1) with false. cbv iota.
    by apply (namref_encodes_front QPACK_STATUS_NAME_INDEX true false (status_digits status) 3).
Qed.

Lemma status_section_len status : 0 < zlen (status_section status) <= 8.
Proof.
  unfold status_section. rewrite zlen_app. change (zlen (prefix_bytes (Qpre 0 false 0))) with 2.
  pose proof (static_line_resolves (c_bytes ":status") (status_text status)) as Hk.
  destruct (static_line _ _) as [i|]; cbn [line_bytes].
  - destruct Hk as (r & Hr & _). apply rows_range in Hr. unfold indexed_bytes, int_bytes. change (pmax_of 6) with 63.
    destruct (Z.ltb_spec i 63); [done|]. cbn [group_bytes]. by zdecide.
  - vm_compute. done.
Qed.

Lemma status_encodes status : Encodes (quic_h3resp_encode_status status) (status_section status).
Proof.
  apply encodes_then; [apply prefix_encodes; cbn; unfold is_u64; lia|done|].
  apply writes_emit_at; [apply status_line_encodes|apply zlen_line_bytes].
Qed.

Lemma response_encodes status body : is_varint (zlen body) ->
  Encodes (quic_h3resp_build status body) (message_bytes (status_section status) body).
Proof.
  intros Hb. apply encodes_then; [|by apply zlen_h3frame|by apply body_writes].
  intros buf cap Hc Ho. unfold put_headers. pose proof (status_section_len status).
  pose proof (status_encodes status (local 16) 16 ltac:(done) ltac:(done)) as He.
  revert He. ztrue (zlen (status_section status) <=? 16). intros ->. zdecide.
  assert (Hl : zlen (splice (local 16) 0 (status_section status)) = 16).
  { rewrite zlen_splice; [done|lia|]. change (zlen (local 16)) with 16. lia. }
  pose proof (h3_frame_encodes_front QUIC_H3_FRAME_HEADERS (splice (local 16) 0 (status_section status))
    (zlen (status_section status)) ltac:(done)) as Hf.
  rewrite take_splice_front in Hf. apply Hf; [unfold is_varint, QUIC_VARINT_MAX; lia|lia|done|done].
Qed.

Lemma digits_value status : 0 <= status <= 999 -> forall rest, digits_to_status (status_text status ++ rest) = Some status.
Proof.
  intros Hs rest. unfold digits_to_status, status_text, u8.
  pose proof (Z.mod_pos_bound (status / 100) 10 ltac:(lia)). pose proof (Z.mod_pos_bound (status / 10) 10 ltac:(lia)).
  pose proof (Z.mod_pos_bound status 10 ltac:(lia)). rewrite !(Z.mod_small (48 + _)) by lia.
  unfold load. simpl. f_equal.
  assert (Hd : status = (status / 100) mod 10 * 100 + (status / 10) mod 10 * 10 + status mod 10).
  { pose proof (Z.div_mod status 10 ltac:(lia)). pose proof (Z.div_mod (status / 10) 10 ltac:(lia)) as Hq.
    rewrite Z.div_div in Hq by lia. change (10 * 10) with 100 in Hq.
    assert (0 <= status / 100 < 10) by (split; [apply Z.div_pos; lia|apply Z.div_lt_upper_bound; lia]).
    rewrite (Z.mod_small (status / 100)) by lia. lia. }
  rewrite Hd at 4. rewrite Z.mod_small; lia.
Qed.

Lemma status_decodes status : 0 <= status <= 999 ->
  decode_status (status_section status) (zlen (status_section status)) = Some (Some status).
Proof.
  intros Hs. pose proof (status_section_len status) as Hl. destruct (status_text_ok status) as [H8 _].
  unfold decode_status, status_section in *. rewrite zlen_app in *.
  set (p := prefix_bytes (Qpre 0 false 0)) in *. change (zlen p) with 2 in *.
  pose proof (static_line_resolves (c_bytes ":status") (status_text status)) as Hk.
  set (k := static_line (c_bytes ":status") (status_text status)) in *.
  set (l := line_bytes k QPACK_STATUS_NAME_INDEX (status_text status)) in *.
  pose proof (zlen_line_bytes k QPACK_STATUS_NAME_INDEX (status_text status)) as Hlp. fold l in Hlp.
  assert (Hd : Decodes quic_qpack_prefix_decode p (Qpre 0 false 0)) by (apply prefix_decodes; cbn; lia).
  rewrite (Hd l) by (rewrite ?zlen_app; change (zlen p) with 2; unfold max_object; lia). change (zlen p) with 2. zdecide.
  change (drop (Z.to_nat 2) (p ++ l)) with l. unwrap. replace (2 + zlen l - 2) with (zlen l) by lia.
  unfold status_from_indexed. subst l. destruct k as [i|]; cbn [line_bytes] in *.
  - destruct Hk as (r & Hr & Hrow). pose proof (rows_range _ _ Hr).
    pose proof (indexed_decodes i true ltac:(change (2 ^ 63) with 9223372036854775808; lia) [] (zlen (indexed_bytes i true))) as Hi.
    rewrite app_nil_r in Hi. rewrite Hi by (unfold max_object; lia). rewrite Z.leb_refl.
    assert (Hv : c_bytes (snd r) = status_text status) by exact (f_equal snd Hrow).
    rewrite (static_get_row _ _ Hr). unfold c_str. rewrite Hv. by rewrite digits_value.
  - set (w := namref_bytes QPACK_STATUS_NAME_INDEX true false (string_bytes false (status_text status))) in *.
    pose proof (namref_not_indexed QPACK_STATUS_NAME_INDEX (string_bytes false (status_text status)) [] (zlen w)
      ltac:(done) ltac:(lia)) as Hx. fold w in Hx. rewrite app_nil_r in Hx. rewrite Hx. unfold status_from_literal.
    assert (Hn : Decodes (quic_qpack_literal_namref_decode (local 8) 8) w
      (Namref QPACK_STATUS_NAME_INDEX true false (splice (local 8) 0 (status_text status), 3))).
    { by apply (namref_decodes _ _ _ false (status_text status) (status_text status)). }
    pose proof (Hn [] (zlen w)) as Hn'. rewrite app_nil_r in Hn'. rewrite Hn' by (unfold max_object; lia).
    rewrite Z.leb_refl. cbn [nr_value]. change (negb (3 =? 3)) with false. cbv iota.
    unfold splice. change (Z.to_nat 0) with 0%nat. rewrite take_0. change ([] ++ ?x) with x. by rewrite digits_value.
Qed.

(** End-to-end round trip of a response: for every status of at most three
    digits and every body that fits, [quic_h3conn_recv_response] reads from the
    STREAM frame of [quic_h3conn_send_response] the same status and the same
    body, whether the status has a static table entry or goes out as a literal. *)
Theorem response_roundtrip stream_id status body out cap :
  let m := message_bytes (status_section status) body in
  is_varint stream_id -> 0 <= status <= 999 -> zlen m <= 1500 ->
  zlen (fc_bytes (mk_stream stream_id 0 (zlen m) m 1)) <= cap <= zlen out -> zlen out < max_object ->
  exists len out', quic_h3conn_send_response stream_id status body out cap = Some (Some len, out') /\
    quic_h3conn_recv_response out' (zlen out) = Some (Some (status, body)).
Proof.
  intros m Hid Hs Hm Hcap Ho. pose proof (status_section_len status) as Hl.
  assert (Hbody : is_varint (zlen body)) by (by eapply body_varint).
  assert (Hvfs : is_varint (zlen (status_section status))) by (unfold is_varint, QUIC_VARINT_MAX; lia).
  destruct (send_stream_spec 1500 _ m stream_id out cap (response_encodes status body Hbody)) as (out' & Hsend & Hget);
    [pose proof (zlen_message (status_section status) body); subst m; lia|unfold is_varint, QUIC_VARINT_MAX; lia|done..|].
  assert (Hmo : zlen m < max_object) by (unfold max_object; lia).
  destruct (message_sections (status_section status) body Hvfs Hbody Hmo) as (_ & _ & Hp). fold m in Hp.
  eexists _, out'. split; [exact Hsend|]. unfold quic_h3conn_recv_response. rewrite Hget. cbn [sf_data sf_length].
  by rewrite Hp, status_decodes.
Qed.

(** Witness: 200 has a static entry, 418 does not. *)
Lemma response_roundtrip_witness :
  (exists len out', quic_h3conn_send_response 0 200 (c_bytes "hello") (local 64) 64 = Some (Some len, out') /\
    quic_h3conn_recv_response out' 64 = Some (Some (200, c_bytes "hello"))) /\
  (exists len out', quic_h3conn_send_response 0 418 [] (local 64) 64 = Some (Some len, out') /\
    quic_h3conn_recv_response out' 64 = Some (Some (418, []))).
Proof.
  split; [refine (response_roundtrip 0 200 (c_bytes "hello") (local 64) 64 _ _ _ _ _)
         |refine (response_roundtrip 0 418 [] (local 64) 64 _ _ _ _ _)]; closed_arith.
Defined.

(** ** Arbitrary input *)

(** Bytes short enough for the sums of their offsets. *)
Definition section_in (fs : list Z) : Prop := Forall is_u8 fs /\ is_varint (zlen fs).

Lemma find_headers_safe h3 n : Forall is_u8 h3 -> n <= zlen h3 -> n < max_object ->
  forall fuel off type fs, 0 <= off <= n -> n - off < Z.of_nat fuel -> section_in fs ->
  exists r, find_headers_loop fuel h3 n off type fs = Some r /\
    forall fs' off', r = Some (fs', off') -> section_in fs' /\ 0 <= off' <= n.
Proof.
  intros Hb Hn Ho. induction fuel as [|fuel IH]; intros off type fs Hoff Hfu Hfs; [lia|]. cbn [find_headers_loop].
  destruct (type =? QUIC_H3_FRAME_HEADERS); [eexists; split; [done|]; by intros ? ? [= <- <-]|]. unwrap.
  destruct (safedec_h3_frame (drop (Z.to_nat off) h3) (n - off)) as ([[[t p] used]|] & -> & Hr);
    [by apply Forall_drop|rewrite zlen_drop; lia|lia| |by exists None].
  destruct (Hr _ _ eq_refl) as [(_ & Hp & Hv) Hu]. unwrap. apply IH; [lia|lia|done].
Qed.

Lemma find_body_safe h3 n : Forall is_u8 h3 -> n <= zlen h3 -> n < max_object ->
  forall fuel off, 0 <= off <= n -> n - off < Z.of_nat fuel -> exists r, find_body_loop fuel h3 n off = Some r.
Proof.
  intros Hb Hn Ho. induction fuel as [|fuel IH]; intros off Hoff Hfu; [lia|]. cbn [find_body_loop].
  destruct (off <? n); [|by eexists]. unfold body_step. unwrap.
  destruct (safedec_h3_frame (drop (Z.to_nat off) h3) (n - off)) as ([[[t p] used]|] & -> & Hr);
    [by apply Forall_drop|rewrite zlen_drop; lia|lia| |by eexists].
  destruct (Hr _ _ eq_refl) as [_ Hu]. unwrap. destruct (negb _); [|by eexists]. apply IH; lia.
Qed.

Lemma stream_data_u8 buf n f used : Forall is_u8 buf -> 1 <= n <= zlen buf -> n < max_object ->
  quic_frame_get_stream buf n = Some (Some (f, used)) -> Forall is_u8 (sf_data f).
Proof.
  intros Hb Hn Ho. unfold quic_frame_get_stream. destruct (load buf 0) as [t|]; [|done].
  unfold decode_from, rd_bind at 1. destruct (take_stream_hdr t buf n 1) as [[[h|] o1]|]; [|done|done].
  unfold rd_bind, read_bytes. destruct (_ <? _); [done|]. intros [= <- <-]. cbn [sf_data].
  unfold slice. by apply Forall_take, Forall_drop.
Qed.

(** The walk over the frames of a request ends and stays inside the stream data. *)
Lemma sections_safe buf len : Forall is_u8 buf -> 1 <= len <= zlen buf -> len < max_object ->
  exists r, quic_h3reqdrive_request_sections buf len = Some r /\
    forall fs body, r = Some (fs, body) -> section_in fs.
Proof.
  intros Hb Hl Ho. unfold quic_h3reqdrive_request_sections.
  destruct (fc_decode_safe (F := quic_stream_frame) buf len Hb Hl Ho) as ([[f used]|] & Hg & Hr);
    cbn [fc_decode stream_codec] in Hg; rewrite Hg; [|by exists None].
  pose proof (stream_data_u8 _ _ _ _ Hb Hl Ho Hg) as Hd. destruct (Hr _ _ eq_refl) as [(_ & _ & Hlen & Hz & _) Hu].
  pose proof (varint_lt_object _ Hlen). assert (0 <= sf_length f) by (unfold is_varint in Hlen; lia).
  destruct (find_headers_safe (sf_data f) (sf_length f) Hd ltac:(lia) ltac:(lia) (Z.to_nat (sf_length f) + 1) 0 0 [])
    as ([[fs off]|] & Hh & Hs); [lia|lia|split; [done|done]| |].
  - fold (find_headers (sf_data f) (sf_length f)) in Hh. rewrite Hh. destruct (Hs _ _ eq_refl) as [Hfs Hoff].
    destruct (find_body_safe (sf_data f) (sf_length f) Hd ltac:(lia) ltac:(lia) (Z.to_nat (sf_length f) + 1) off)
      as ([body|] & Hbd); [lia|lia| |]; fold (find_body (sf_data f) (sf_length f) off) in Hbd; rewrite Hbd;
      eexists; (split; [done|]); by intros ? ? [= <- <-].
  - fold (find_headers (sf_data f) (sf_length f)) in Hh. rewrite Hh. by exists None.
Qed.

(** A view inside the first [n] octets of the scratch buffer. *)
Definition view_in (n : Z) (v : view) : Prop :=
  match v with VStatic _ => True | VScratch off len => 0 <= off /\ 0 <= len /\ off + len <= n end.

Lemma view_in_mono n m v : n <= m -> view_in n v -> view_in m v.
Proof. destruct v; cbn; [done|lia]. Qed.

Lemma rebase_in used n v : 0 <= used -> view_in n v -> view_in (used + n) (rebase used v).
Proof. destruct v; cbn; [done|lia]. Qed.

Definition line_good (n : Z) (scr : list Z) (scap : Z) (r : option (rline * Z * list Z)) : Prop :=
  forall L c tail, r = Some (L, c, tail) ->
  0 < c <= n /\ zlen tail = zlen scr /\ 0 <= scratch_used L <= scap /\ view_in (scratch_used L) (rl_value L).

Lemma static_strings_total i : 0 <= i -> exists r, static_strings i = Some r.
Proof.
  intros Hi. destruct (load table_rows i) as [r|] eqn:E; [by rewrite (static_strings_spec _ _ E); eexists|].
  unfold static_strings, quic_qpack_static_get, QUIC_QPACK_STATIC_COUNT. destruct (Z.leb_spec 99 i); [by eexists|].
  destruct (load_is_Some table_rows i) as [x Hx]; [change (zlen table_rows) with 99; lia|congruence].
Qed.

Lemma line_indexed_safe fs n scr scap : Forall is_u8 fs -> 0 <= n <= zlen fs -> n < max_object -> 0 <= scap ->
  exists r, line_indexed fs n scr = Some r /\ line_good n scr scap r.
Proof.
  intros Hb Hn Ho Hs. unfold line_indexed.
  assert (Hd : SafeDec quic_qpack_indexed_decode (fun r => 0 <= fst r)).
  { apply safedec_first. intros b0 _ _. eapply safedec_map; [apply safedec_int; lia|]. cbn. lia. }
  destruct (Hd fs n Hb Hn Ho) as ([[[i t] c]|] & -> & Hr); [|by exists None].
  destruct (Hr _ _ eq_refl) as [Hi Hc]. destruct (static_strings_total i Hi) as ([[nm v]|] & ->); [|by exists None].
  eexists. split; [done|]. intros ? ? ? [= <- <- <-]. cbn. split_and!; lia || done.
Qed.

Lemma filled_zlen dst dcap a k : filled dst dcap (a, k) -> dcap <= zlen dst -> zlen a = zlen dst /\ 0 <= k <= dcap.
Proof.
  intros (bs & Heq & _ & Hl) Hd. injection Heq as -> ->. pose proof (zlen_nonneg bs). rewrite zlen_splice by lia. lia.
Qed.

Lemma line_namref_safe fs n scr scap : Forall is_u8 fs -> 0 <= n <= zlen fs -> n < max_object ->
  0 <= scap <= zlen scr -> scap < max_object ->
  exists r, line_namref fs n scr scap = Some r /\ line_good n scr scap r.
Proof.
  intros Hb Hn Ho Hs Hso. unfold line_namref.
  destruct (safedec_namref scr scap Hs Hso fs n Hb Hn Ho) as ([[r c]|] & -> & Hr); [|by exists None].
  destruct (Hr _ _ eq_refl) as [[Hi Hf] Hc]. destruct (static_strings_total (nr_index r) ltac:(lia)) as ([[nm v]|] & ->);
    [|by exists None].
  destruct (nr_value r) as [scr' vlen]. apply filled_zlen in Hf as [Hz Hv]; [|lia]. eexists. split; [done|].
  intros ? ? ? [= <- <- <-]. cbn. split_and!; lia.
Qed.

Lemma line_litname_safe fs n scr scap : Forall is_u8 fs -> 0 <= n <= zlen fs -> n < max_object ->
  0 <= scap <= zlen scr -> scap < max_object ->
  exists r, line_litname fs n scr scap = Some r /\ line_good n scr scap r.
Proof.
  intros Hb Hn Ho Hs Hso. unfold line_litname. cbv zeta.
  assert (Hh : 0 <= scap / 2 <= scap) by (split; [apply Z.div_pos; lia|apply Z.div_le_upper_bound; lia]).
  set (half := scap / 2) in *. unwrap.
  assert (H1 : zlen (take (Z.to_nat half) scr) = half) by (unfold zlen in *; rewrite length_take; lia).
  assert (H2 : zlen (drop (Z.to_nat half) scr) = zlen scr - half) by (apply zlen_drop; lia).
  destruct (safedec_litname (take (Z.to_nat half) scr) half (drop (Z.to_nat half) scr) (scap - half)
    ltac:(lia) ltac:(lia) ltac:(lia) ltac:(lia) fs n Hb Hn Ho) as ([[r c]|] & -> & Hr); [|by exists None].
  destruct (Hr _ _ eq_refl) as [[Hf1 Hf2] Hc]. destruct (ln_name r) as [nm nlen], (ln_value r) as [vl vlen].
  apply filled_zlen in Hf1 as [Hz1 Hv1]; [|lia]. apply filled_zlen in Hf2 as [Hz2 Hv2]; [|lia].
  eexists. split; [done|]. intros ? ? ? [= <- <- <-]. cbn. unwrap. rewrite zlen_app. split_and!; lia.
Qed.

Lemma decode_line_safe fs n scr scap : Forall is_u8 fs -> 0 <= n <= zlen fs -> n < max_object ->
  0 <= scap <= zlen scr -> scap < max_object ->
  exists r, decode_line fs n scr scap = Some r /\ line_good n scr scap r.
Proof.
  intros Hb Hn Ho Hs Hso. unfold decode_line.
  destruct (line_indexed_safe fs n scr scap Hb Hn Ho ltac:(lia)) as ([r|] & -> & Hr); [by eexists|].
  destruct (line_namref_safe fs n scr scap Hb Hn Ho Hs Hso) as ([r|] & -> & Hr'); [by eexists|].
  by apply line_litname_safe.
Qed.

(** The request points into the scratch used so far. *)
Definition opt_in (n : Z) (v : option view) : Prop := match v with Some v => view_in n v | None => True end.
Definition req_in (n : Z) (r : quic_h3reqdrive_req) : Prop :=
  opt_in n (r_method r) /\ opt_in n (r_scheme r) /\ opt_in n (r_authority r) /\ opt_in n (r_path r).

Lemma req_in_mono n m r : n <= m -> req_in n r -> req_in m r.
Proof.
  assert (Hm : forall v, n <= m -> opt_in n v -> opt_in m v) by (intros [v|]; cbn; [apply view_in_mono|done]).
  intros H (H1 & H2 & H3 & H4). split_and!; by apply Hm.
Qed.

Lemma set_slot_in n k v r : view_in n v -> req_in n r -> req_in n (set_slot k v r).
Proof. intros Hv (H1 & H2 & H3 & H4). destruct k; split_and!; done. Qed.

Record scan_ok (n scap zs : Z) (s : scan) : Prop := {
  so_off : 0 <= sc_off s <= n;
  so_used : 0 <= sc_used s <= scap;
  so_scratch : zlen (sc_scratch s) = zs;
  so_req : req_in (sc_used s) (sc_req s) }.

Lemma step_line_safe fs n scap zs s : Forall is_u8 fs -> n = zlen fs -> n < max_object -> scap <= zs -> scap < max_object ->
  scan_ok n scap zs s ->
  exists r, step_line fs n scap s = Some r /\ forall s', r = Some s' -> scan_ok n scap zs s' /\ sc_off s < sc_off s'.
Proof.
  intros Hb Hn Ho Hz Hso [Hoff Hu Hs Hr]. unfold step_line. unwrap.
  assert (Hd : zlen (drop (Z.to_nat (sc_used s)) (sc_scratch s)) = zs - sc_used s) by (rewrite zlen_drop; lia).
  destruct (decode_line_safe (drop (Z.to_nat (sc_off s)) fs) (n - sc_off s) (drop (Z.to_nat (sc_used s)) (sc_scratch s))
    (scap - sc_used s)) as ([[[L c] tail]|] & -> & HL);
    [by apply Forall_drop|rewrite zlen_drop; lia|lia|lia|lia| |by exists None].
  destruct (HL _ _ _ eq_refl) as (Hc & Ht & Hsu & Hv). unfold classify_line.
  set (nm := see tail (rl_name L)). rewrite classify_exact by (pose proof (zlen_nonneg nm); lia). simpl mbind.
  eexists. split; [done|]. intros s' [= <-]. unwrap. cbn. split; [|lia]. split; cbn; try lia.
  - rewrite zlen_app, Ht, Hd. unfold zlen in *. rewrite length_take. lia.
  - assert (req_in (sc_used s + scratch_used L) (sc_req s)) by (eapply req_in_mono; [|done]; lia).
    destruct (negb _); [done|]. apply set_slot_in; [|done]. apply rebase_in; [lia|done].
Qed.

Lemma scan_lines_safe fs n scap zs : Forall is_u8 fs -> n = zlen fs -> n < max_object -> scap <= zs -> scap < max_object ->
  forall fuel s, scan_ok n scap zs s -> n - sc_off s < Z.of_nat fuel ->
  exists r, scan_lines fuel fs n scap s = Some r /\ forall s', r = Some s' -> scan_ok n scap zs s' /\ sc_off s' = n.
Proof.
  intros Hb Hn Ho Hz Hso. induction fuel as [|fuel IH]; intros s Hs Hfu.
  { destruct Hs as [? _ _ _]. lia. }
  cbn [scan_lines]. destruct (Z.ltb_spec (sc_off s) n) as [Hlt|Hge].
  - destruct (step_line_safe fs n scap zs s Hb Hn Ho Hz Hso Hs) as ([s'|] & -> & Hs'); [|by exists None].
    destruct (Hs' _ eq_refl) as [Hok Hadv]. apply IH; [done|lia].
  - eexists. split; [done|]. intros s' [= <-]. split; [done|]. destruct Hs as [? _ _ _]. lia.
Qed.

(** The one reader that can leave its input. *)
Definition prefix_overreads (fs : list Z) : Prop := quic_qpack_prefix_decode fs (zlen fs) = None.

Lemma decode_lines_safe fs scratch scap r0 : section_in fs -> 0 <= scap <= zlen scratch -> scap < max_object ->
  req_in 0 r0 -> ~ prefix_overreads fs ->
  exists r, decode_lines fs (zlen fs) scratch scap r0 = Some r /\
    forall q scratch', r = Some (q, scratch') -> req_in scap q /\ zlen scratch' = zlen scratch.
Proof.
  intros [Hb Hv] Hs Hso Hr0 Hp. pose proof (varint_lt_object _ Hv). pose proof (zlen_nonneg fs). unfold decode_lines.
  unfold prefix_overreads in Hp.
  destruct (quic_qpack_prefix_decode fs (zlen fs)) as [[[p off]|]|] eqn:E; [|by exists None|done].
  assert (Hoff : 0 < off <= zlen fs) by (by apply (prefix_decode_used fs (zlen fs) p off)).
  destruct (scan_lines_safe fs (zlen fs) scap (zlen scratch) Hb eq_refl ltac:(lia) ltac:(lia) Hso
    (Z.to_nat (zlen fs) + 1) (Scan off 0 scratch r0)) as ([s|] & -> & Hsc);
    [split; cbn; lia || done|cbn; lia| |by exists None].
  destruct (Hsc _ eq_refl) as [[_ Hu Hz Hq] _]. eexists. split; [done|]. intros ? ? [= <- <-]. split; [|done].
  eapply req_in_mono; [|done]. lia.
Qed.

(** C34: Server entry point on arbitrary bytes, none included: [quic_h3reqdrive_recv_get]
    always ends, and leaves the bytes it was given in exactly two cases: when there are none,
    where [quic_frame_get_stream] reads the type byte all the same, and when the field section
    stops after its first integer, where [quic_qpack_prefix_decode] reads the byte behind it.
    Otherwise it returns 0 or a request whose four values lie in the static table or in the
    first [scap] octets of the scratch buffer. *)
Theorem request_recv_safe buf scratch scap :
  Forall is_u8 buf -> zlen buf < max_object -> 0 <= scap <= zlen scratch -> scap < max_object ->
  (quic_h3reqdrive_recv_get buf (zlen buf) scratch scap = None <->
    buf = [] \/
    exists fs body, quic_h3reqdrive_request_sections buf (zlen buf) = Some (Some (fs, body)) /\ prefix_overreads fs) /\
  (forall r scratch', quic_h3reqdrive_recv_get buf (zlen buf) scratch scap = Some (Some (r, scratch')) ->
    req_in scap r /\ zlen scratch' = zlen scratch).
Proof.
  intros Hb Ho Hs Hso. destruct buf as [|b0 rest]; [split; [split; [by left|done]|done]|]. set (buf := b0 :: rest) in *.
  assert (Hl : 1 <= zlen buf <= zlen buf) by (unfold buf; rewrite zlen_cons; pose proof (zlen_nonneg rest); lia).
  destruct (sections_safe buf (zlen buf) Hb Hl Ho) as ([[fs body]|] & Hsec & Hfs);
    unfold quic_h3reqdrive_recv_get; rewrite Hsec.
  - specialize (Hfs _ _ eq_refl). destruct (quic_qpack_prefix_decode fs (zlen fs)) as [x|] eqn:E.
    + destruct (decode_lines_safe fs scratch scap (Req None None None None body) Hfs Hs Hso) as (r & -> & Hr);
        [done|unfold prefix_overreads; by rewrite E|]. split; [|by intros q s' [= ->]; apply Hr].
      split; [done|]. intros [? | (fs' & b' & [= <- <-] & Hp)]; [done|]. unfold prefix_overreads in Hp. congruence.
    + unfold decode_lines. rewrite E. split; [|done]. split; [|done]. intros _. right. by exists fs, body.
  - split; [|done]. split; [done|]. by intros [? | (fs & body & ? & _)].
Qed.

(** Witness of C34: a STREAM frame whose HEADERS frame holds the single byte 0 makes
    the prefix decoder read the byte after the field section. *)
Lemma request_recv_safe_witness : quic_h3reqdrive_recv_get [0x0a; 0; 3; 1; 1; 0] 6 (local 8) 8 = None.
Proof.
  refine (proj2 (proj1 (request_recv_safe [0x0a; 0; 3; 1; 1; 0] (local 8) 8 _ _ _ _)) _);
    [|closed_arith|closed_arith|closed_arith|].
  - repeat apply List.Forall_cons; try apply List.Forall_nil; by unfold is_u8.
  - right. exists [0], None. split; by vm_compute.
Defined.

(** ** Corner cases of the code *)

(** With a length of 0 the type byte is read before the length is looked at, and the
    rest [n - off] of the varint reader wraps: the header too is read behind the empty
    input, here until the array ends, before the frame is refused. *)
Example get_stream_empty_overread :
  quic_frame_get_stream [] 0 = None /\ quic_frame_get_stream [0x0a] 0 = None /\
  quic_frame_get_stream [0x0a; 4] 0 = None /\ quic_frame_get_stream [0x0a; 4; 0; 7] 0 = Some None.
Proof. by vm_compute. Qed.

(** A short value with a NUL in it goes out as the static entry of its part
    before the NUL. *)
Example nul_value_truncated :
  put_pseudo (Pf (c_str "GET" ++ [1; 2]) ":method" QPACK_METHOD_NAME_INDEX) (local 4) 4 =
  put_pseudo (Pf (c_bytes "GET") ":method" QPACK_METHOD_NAME_INDEX) (local 4) 4.
Proof. by vm_compute. Qed.

(** An indexed line with T = 0 (dynamic table) is answered from the static table. *)
Example dynamic_reference_read_as_static :
  decode_line [0x91] 1 (local 4) 4 =
  Some (Some (Rline (VStatic (c_bytes ":method")) (VStatic (c_bytes "GET")) 0, 1, local 4)).
Proof. by vm_compute. Qed.

(** The status of an indexed line is taken from any entry: three octets of a
    shorter static value are read past its end, and a value that is no status
    gives a number. *)
Example status_overread : decode_status [0; 0; 0xc0] 3 = None.
Proof. by vm_compute. Qed.
Example status_of_method : decode_status [0; 0; 0xd1] 3 = Some (Some 2546).
Proof. by vm_compute. Qed.

(** DATA before HEADERS is skipped like an unknown frame. *)
Example data_before_headers : find_headers [0; 1; 7; 1; 2; 0; 0] 7 = Some (Some ([0; 0], 7)).
Proof. by vm_compute. Qed.

(** ** The server's response *)

Lemma is_head_exact method : Forall is_u8 method -> is_head method = Some (bool_decide (method = c_bytes "HEAD")).
Proof.
  intros Hm. unfold is_head. pose proof (zlen_nonneg method).
  assert (Hh : Forall is_u8 (c_bytes "HEAD")) by (repeat apply List.Forall_cons; try apply List.Forall_nil; by unfold is_u8).
  destruct (diff_loop_spec (Z.to_nat (Z.min 4 (zlen method))) method (c_bytes "HEAD") Hm Hh
    (if zlen method =? 4 then 0 else 1) 0) as (d & -> & Hd); [lia|lia|change (zlen (c_bytes "HEAD")) with 4; lia|].
  simpl mbind. f_equal. apply eq_true_iff_eq. rewrite Z.eqb_eq, bool_decide_eq_true, Hd.
  destruct (Z.eqb_spec (zlen method) 4) as [Hz|Hz].
  - rewrite Hz. change (Z.of_nat (Z.to_nat (Z.min 4 4))) with 4. rewrite <- Hz at 1. unfold slice at 1.
    change (drop (Z.to_nat 0) method) with method. rewrite take_zlen.
    change (slice (c_bytes "HEAD") 0 4) with (c_bytes "HEAD"). tauto.
  - split; [intros [? _]; lia|]. intros ->. by destruct Hz.
Qed.

(** A HEAD response is the response with no body, any other the one with it;
    nothing goes out before the SETTINGS and a request. *)
Lemma response_for_method_cases st stream_id method status body out cap : Forall is_u8 method ->
  quic_h3srv_build_response_for_method st stream_id method status body out cap =
  if settings_sent st && request_seen st
  then quic_h3conn_send_response stream_id status (if bool_decide (method = c_bytes "HEAD") then [] else body) out cap
  else Some (None, out).
Proof.
  intros Hm. unfold quic_h3srv_build_response_for_method. rewrite is_head_exact by done. simpl mbind.
  unfold quic_h3srv_build_response, may_respond. by destruct (_ && _).
Qed.
