(* ===== verification/Datagram.v ===== *)
(** QUIC DATAGRAM frames (RFC 9221): the codec and the size arithmetic of
    [app/datagram/datagram] and the sender and receiver of [app/datagram/dgdeliver]. *)
From S2P Require Import Prelude.
From S2P Require Import Buffers.
From S2P Require Import Varint.
From S2P Require Import Codec.

(** * datagram.c *)

Definition QUIC_FRAME_DATAGRAM : Z := 0x30.
Definition QUIC_FRAME_DATAGRAM_LEN : Z := 0x31.

(** [dg_data] is the array the frame's pointer refers to. *)
Record quic_datagram_frame := mk_datagram { dg_length : Z; dg_data : list Z }.

Definition datagram_type (with_len : bool) : Z :=
  if with_len then QUIC_FRAME_DATAGRAM_LEN else QUIC_FRAME_DATAGRAM.

Definition put_datagram_head (f : quic_datagram_frame) (with_len : bool) : wr :=
  quic_varint_put (datagram_type with_len) ;;;
  (if negb with_len then wr_ok else quic_varint_put (dg_length f)).

Definition quic_datagram_encode (f : quic_datagram_frame) (with_len : bool) (buf : list Z) (cap : Z)
  : option (Z * list Z) :=
  encode_to (put_datagram_head f with_len ;;; quic_put_bytes (dg_data f) (dg_length f)) buf cap.

Definition decode_no_len (buf : list Z) (n off : Z) : option (option (quic_datagram_frame * Z)) :=
  Some (Some (mk_datagram (n -w off) (slice buf off (n -w off)), n)).

Definition decode_with_len (buf : list Z) (n off : Z) : option (option (quic_datagram_frame * Z)) :=
  match quic_varint_take buf n off with
  | None => None
  | Some (None, _) => Some None
  | Some (Some len, off) =>
      if n <? off +w len then Some None
      else Some (Some (mk_datagram len (slice buf off len), off +w len))
  end.

Definition quic_datagram_decode (buf : list Z) (n : Z) : option (option (quic_datagram_frame * Z)) :=
  if n =? 0 then Some None
  else match load buf 0 with
       | None => None
       | Some b => if b =? QUIC_FRAME_DATAGRAM then decode_no_len buf n 1 else decode_with_len buf n 1
       end.

Definition quic_datagram_allowed (max_datagram_frame_size frame_len : Z) : bool :=
  if max_datagram_frame_size =? 0 then false else frame_len <=? max_datagram_frame_size.

(** * dgcc.c, dgcheck.c, zerortt_dgram.c *)

Definition quic_datagram_flow_controlled : bool := false.
Definition quic_datagram_congestion_controlled : bool := true.
Definition quic_datagram_counts_in_flight (size : Z) : Z := size.
Definition quic_datagram_ack_eliciting : bool := true.
Definition quic_datagram_retransmittable : bool := false.

Definition quic_datagram_recv_ok (advertised_max : Z) (we_advertised : bool) (frame_size : Z) : bool :=
  if negb we_advertised then false else frame_size <=? advertised_max.

Definition quic_datagram_0rtt_ok (remembered_max frame_size : Z) : bool :=
  negb (remembered_max =? 0) && (frame_size <=? remembered_max).

(** * dgsize.c *)

Definition dg_varint_max : list Z := [0x3F; 0x3FFF; 0x3FFFFFFF; 0x3FFFFFFFFFFFFFFF].

Definition dg_payload_in_width (room cap : Z) : Z :=
  let vlen := quic_varint_len cap in
  if room <=? vlen then 0
  else if room -w vlen <? cap then room -w vlen else cap.

Fixpoint dg_best_loop (caps : list Z) (room best : Z) : Z :=
  match caps with
  | [] => best
  | cap :: caps' =>
      let p := dg_payload_in_width room cap in
      dg_best_loop caps' room (if best <? p then p else best)
  end.
Definition dg_best_payload (room : Z) : Z := dg_best_loop dg_varint_max room 0.

Definition quic_datagram_max_payload (max_frame_size : Z) (with_len : bool) : Z :=
  if max_frame_size <? 2 then 0
  else let room := max_frame_size -w 1 in
       if with_len then dg_best_payload room else room.

(** * dgdeliver: dg_send.c, dg_recv.c, dg_loss.c *)

(** [Some (Some w, out')]: returned 1 with [*out_len = w]. *)
Definition quic_dgdeliver_frame (data : list Z) (len : Z) (with_length : bool) (max_frame_size : Z)
    (out : list Z) (cap : Z) : option (option Z * list Z) :=
  match quic_datagram_encode (mk_datagram len data) with_length out cap with
  | None => None
  | Some (w, out') =>
      if w =? 0 then Some (None, out')
      else if negb (quic_datagram_allowed max_frame_size w) then Some (None, out')
      else Some (Some w, out')
  end.

Definition quic_dgdeliver_extract (frame : list Z) (len : Z) : option (option (list Z * Z)) :=
  match quic_datagram_decode frame len with
  | None => None
  | Some None => Some None
  | Some (Some (f, used)) => if used =? 0 then Some None else Some (Some (dg_data f, dg_length f))
  end.

Definition quic_dgdeliver_on_loss (is_datagram_frame : bool) : Z := if is_datagram_frame then 1 else 0.
Definition quic_dgdeliver_retransmit_never : Z := 0.

(** * The frame on the wire *)

(** RFC 9221 section 4: the bytes of a DATAGRAM frame. *)
Definition datagram_bytes (with_len : bool) (data : list Z) : list Z :=
  datagram_type with_len :: (if with_len then varint_bytes (zlen data) else []) ++ data.

(** Its size as a function of the payload length. *)
Definition datagram_size (with_len : bool) (p : Z) : Z :=
  1 + (if with_len then quic_varint_len p else 0) + p.

Lemma zlen_datagram_bytes w data : is_varint (zlen data) ->
  zlen (datagram_bytes w data) = datagram_size w (zlen data).
Proof.
  intros Hv. unfold datagram_bytes, datagram_size. rewrite zlen_cons, zlen_app.
  destruct w; [rewrite zlen_varint_bytes by done|rewrite zlen_nil]; lia.
Qed.

Lemma encodes_datagram w data : is_varint (zlen data) ->
  Encodes (quic_datagram_encode (mk_datagram (zlen data) data) w) (datagram_bytes w data).
Proof.
  intros Hv. unfold quic_datagram_encode. apply encodes_to.
  assert (Hm : zlen data < max_object) by (unfold is_varint, QUIC_VARINT_MAX, max_object in *; lia).
  change (datagram_bytes w data) with
    (([datagram_type w] ++ if w then varint_bytes (zlen data) else []) ++ data).
  apply writes_seq; [|by apply writes_put_bytes_all]. unfold put_datagram_head. cbn [dg_length].
  apply writes_seq; [apply writes_type; by destruct w|]. destruct w; cbn [negb].
  - by apply writes_varint.
  - apply writes_ok_nil.
Qed.

(** ** The receiver sees what the sender was given *)

Lemma decode_datagram_no_len data post : zlen data < max_object - 1 ->
  quic_datagram_decode (datagram_bytes false data ++ post) (1 + zlen data) =
  Some (Some (mk_datagram (zlen data) data, 1 + zlen data)).
Proof.
  intros Hm. pose proof (zlen_nonneg data). unfold quic_datagram_decode, datagram_bytes. zdecide.
  change (load _ 0) with (Some QUIC_FRAME_DATAGRAM). cbn [QUIC_FRAME_DATAGRAM Z.eqb].
  unfold decode_no_len. unwrap. replace (1 + zlen data - 1) with (zlen data) by lia.
  do 4 f_equal. apply (slice_app [QUIC_FRAME_DATAGRAM] data post); done.
Qed.

Lemma decode_datagram_len data post n : is_varint (zlen data) ->
  zlen (datagram_bytes true data) <= n <= zlen (datagram_bytes true data ++ post) -> n < max_object ->
  quic_datagram_decode (datagram_bytes true data ++ post) n =
  Some (Some (mk_datagram (zlen data) data, zlen (datagram_bytes true data))).
Proof.
  intros Hv Hn Hm. pose proof (zlen_nonneg data). pose proof (varint_len_pos _ Hv).
  pose proof (zlen_datagram_bytes true data Hv) as Hl. unfold datagram_size in Hl.
  unfold quic_datagram_decode. zdecide. unfold datagram_bytes in *.
  change (load _ 0) with (Some QUIC_FRAME_DATAGRAM_LEN). cbn [QUIC_FRAME_DATAGRAM_LEN QUIC_FRAME_DATAGRAM Z.eqb Pos.eqb].
  unfold decode_with_len. pose proof (zlen_varint_bytes _ Hv) as Hvl.
  pose proof (@reads_varint _ Hv [QUIC_FRAME_DATAGRAM_LEN] (data ++ post) n) as Hr.
  change (zlen [_]) with 1 in Hr. rewrite Hvl in Hr.
  replace ((datagram_type true :: varint_bytes (zlen data) ++ data) ++ post) with
    ([QUIC_FRAME_DATAGRAM_LEN] ++ varint_bytes (zlen data) ++ data ++ post) in *
    by (simpl; by rewrite <- app_assoc).
  specialize (Hr ltac:(lia) ltac:(lia) Hm). revert Hr. zdecide. intros ->.
  unwrap. zdecide. do 3 f_equal; [|lia]. f_equal.
  rewrite app_assoc. apply slice_app; [|done]. by rewrite zlen_app, Hvl.
Qed.

(** The peer's limit, of which 0 says that it takes no datagrams (RFC 9221 section 3). *)
Lemma datagram_allowed_iff max_size n : 0 <= max_size ->
  quic_datagram_allowed max_size n = (0 <? max_size) && (n <=? max_size).
Proof. intros H. unfold quic_datagram_allowed. by destruct (Z.eqb_spec max_size 0), (Z.ltb_spec 0 max_size); try lia. Qed.

(** C33: a datagram handed to [quic_dgdeliver_frame] is framed exactly when its
    frame fits the output buffer, the peer takes datagrams (its
    max_datagram_frame_size is not 0) and the frame is no longer than that
    maximum; the frame is then the RFC 9221 encoding, nothing past it is touched, and [quic_dgdeliver_extract] on the written bytes gives
    the payload back.  Otherwise 0 is returned and nothing past the capacity
    is touched. *)
Theorem datagram_delivery (data out : list Z) (with_len : bool) (max_size cap : Z)
  (Hdata : zlen data <= 4611686018427387903)
  (Hmax : 0 <= max_size) (Hcap : 0 <= cap <= zlen out) (Hobj : cap < max_object) :
  let fr := datagram_bytes with_len data in
  if (zlen fr <=? cap) && ((0 <? max_size) && (zlen fr <=? max_size))
  then quic_dgdeliver_frame data (zlen data) with_len max_size out cap =
         Some (Some (zlen fr), splice out 0 fr) /\
       quic_dgdeliver_extract (splice out 0 fr) (zlen fr) = Some (Some (data, zlen data))
  else exists out', quic_dgdeliver_frame data (zlen data) with_len max_size out cap = Some (None, out') /\
       zlen out' = zlen out /\ drop (Z.to_nat cap) out' = drop (Z.to_nat cap) out.
Proof.
  intros fr. pose proof (zlen_nonneg data) as Hd0.
  assert (Hv : is_varint (zlen data)) by (unfold is_varint, QUIC_VARINT_MAX; lia).
  pose proof (zlen_datagram_bytes with_len data Hv) as Hl.
  pose proof (encodes_datagram with_len data Hv out cap Hcap Hobj) as He.
  assert (Hpos : 0 < datagram_size with_len (zlen data)).
  { unfold datagram_size. pose proof (varint_len_pos _ Hv). destruct with_len; lia. }
  unfold quic_dgdeliver_frame. fold fr in Hl, He.
  destruct (Z.leb_spec (zlen fr) cap) as [Hf|Hf]; cbn [andb].
  - rewrite He. zdecide. rewrite datagram_allowed_iff by done. destruct ((0 <? max_size) && (zlen fr <=? max_size)); cbn [negb].
    + split; [done|]. unfold quic_dgdeliver_extract.
      assert (Hs : splice out 0 fr = fr ++ drop (length fr) out) by done. rewrite Hs. unfold fr in *.
      destruct with_len.
      * rewrite decode_datagram_len by (rewrite ?zlen_app; unfold max_object in *; done || (pose proof (zlen_nonneg (drop (length (datagram_bytes true data)) out)); lia)).
        zdecide. done.
      * unfold datagram_size in Hl. rewrite Hl. replace (1 + 0 + zlen data) with (1 + zlen data) by lia.
        rewrite decode_datagram_no_len by (unfold max_object; lia). zdecide. done.
    + exists (splice out 0 fr). split; [done|]. rewrite zlen_splice, drop_splice by lia. done.
  - destruct He as (out' & -> & Hz & Hd). exists out'. done.
Qed.

(** Witness of C33: a three-byte datagram in a ten-byte buffer. *)
Lemma datagram_delivery_witness :
  quic_dgdeliver_frame [7; 8; 9] 3 true 100 (repeat 0 10) 10 = Some (Some 5, [0x31; 3; 7; 8; 9; 0; 0; 0; 0; 0]) /\
  quic_dgdeliver_extract [0x31; 3; 7; 8; 9; 0; 0; 0; 0; 0] 5 = Some (Some ([7; 8; 9], 3)).
Proof. refine (datagram_delivery [7; 8; 9] (repeat 0 10) true 100 10 _ _ _ _); closed_arith. Defined.

(** ** The advertised maximum payload is exact *)

Lemma varint_len_mono a b : 0 <= a <= b -> is_varint b -> quic_varint_len a <= quic_varint_len b.
Proof.
  intros Hab Hb. unfold quic_varint_len, varint_max, len_class, is_varint, QUIC_VARINT_MAX in *.
  repeat zcase; cbn; lia.
Qed.

Lemma varint_len_le p c : 0 <= p -> In c dg_varint_max -> p <= c -> quic_varint_len p <= quic_varint_len c.
Proof.
  intros Hp Hc Hle. apply varint_len_mono; [lia|]. unfold is_varint, QUIC_VARINT_MAX.
  repeat destruct Hc as [<-|Hc]; [lia..|done].
Qed.

(** The payload chosen for one width fits, and so does every running maximum. *)
Lemma payload_in_width_fits room c : 0 < room < 18446744073709551616 -> In c dg_varint_max ->
  let p := dg_payload_in_width room c in
  0 <= p <= QUIC_VARINT_MAX /\ quic_varint_len p + p <= room.
Proof.
  intros Hr Hc p. assert (Hc0 : 0 < c <= QUIC_VARINT_MAX /\ 1 <= quic_varint_len c <= 8).
  { unfold QUIC_VARINT_MAX. repeat destruct Hc as [<-|Hc]; [cbn; lia..|done]. }
  assert (Hp : quic_varint_len 0 = 1) by done. unfold p, dg_payload_in_width.
  destruct (Z.leb_spec room (quic_varint_len c)); [rewrite Hp; unfold QUIC_VARINT_MAX in *; lia|].
  unwrap. destruct (Z.ltb_spec (room - quic_varint_len c) c).
  - pose proof (varint_len_le (room - quic_varint_len c) c ltac:(lia) Hc ltac:(lia)). lia.
  - lia.
Qed.

Lemma best_loop_spec room caps : forall best, 0 < room < 18446744073709551616 ->
  (forall c, In c caps -> In c dg_varint_max) ->
  0 <= best <= QUIC_VARINT_MAX -> quic_varint_len best + best <= room ->
  let r := dg_best_loop caps room best in
  0 <= r <= QUIC_VARINT_MAX /\ quic_varint_len r + r <= room /\ best <= r /\
  (forall c, In c caps -> dg_payload_in_width room c <= r).
Proof.
  induction caps as [|c caps IH]; intros best Hr Hc Hb Hf; cbn [dg_best_loop].
  { split_and!; try done; lia. }
  pose proof (payload_in_width_fits room c Hr (Hc c (or_introl eq_refl))) as [Hp1 Hp2].
  specialize (IH (if best <? dg_payload_in_width room c then dg_payload_in_width room c else best) Hr
    (fun x Hx => Hc x (or_intror Hx))).
  destruct (Z.ltb_spec best (dg_payload_in_width room c)); destruct IH as (H1 & H2 & H3 & H4); try done;
    (split_and!; [lia|lia|done|lia|]; intros x [<-|Hx]; [lia|auto]).
Qed.

Lemma best_payload_max room p : 0 < room < 18446744073709551616 -> is_varint p ->
  p <= dg_best_payload room <-> quic_varint_len p + p <= room \/ p = 0.
Proof.
  intros Hr Hp. destruct (best_loop_spec room dg_varint_max 0 Hr (fun _ H => H)) as (H1 & H2 & H3 & H4);
    [unfold QUIC_VARINT_MAX; lia|cbn; lia|]. fold (dg_best_payload room) in *.
  unfold is_varint in Hp. split.
  - intros Hle. pose proof (varint_len_mono p (dg_best_payload room) ltac:(lia) H1). lia.
  - intros [Hfit| ->]; [|lia].
    assert (Hw : forall c, In c dg_varint_max -> quic_varint_len c = quic_varint_len p -> p <= c ->
      p <= dg_best_payload room).
    { intros c Hc Hlc Hpc. specialize (H4 c Hc). unfold dg_payload_in_width in H4. rewrite Hlc in H4.
      destruct (Z.eq_dec p 0) as [->|]; [lia|].
      pose proof (varint_len_pos p Hp). revert H4. zdecide. unwrap. destruct (Z.ltb_spec (room - quic_varint_len p) c); lia. }
    destruct (Z.le_gt_cases p 0x3F); [apply (Hw 0x3F)|
      destruct (Z.le_gt_cases p 0x3FFF); [apply (Hw 0x3FFF)|
      destruct (Z.le_gt_cases p 0x3FFFFFFF); [apply (Hw 0x3FFFFFFF)|apply (Hw QUIC_VARINT_MAX)]]];
      try (cbn; tauto); try lia;
      unfold quic_varint_len, varint_max, len_class, QUIC_VARINT_MAX in *; zdecide; done.
Qed.

(** [quic_datagram_max_payload] is exact: with an output buffer large
    enough for the frame, a datagram is sent if and only if its payload is at
    most the value computed from the peer's max_datagram_frame_size, for both
    frame types and across every width of the length field. *)
Theorem datagram_max_payload_exact (data out : list Z) (with_len : bool) (max_size : Z)
  (Hdata : zlen data <= 4611686018427387903) (Hmax : 2 <= max_size < 18446744073709551616)
  (Hout : zlen (datagram_bytes with_len data) <= zlen out) (Hobj : zlen out < max_object) :
  (exists w out', quic_dgdeliver_frame data (zlen data) with_len max_size out (zlen out) = Some (Some w, out'))
  <-> zlen data <= quic_datagram_max_payload max_size with_len.
Proof.
  pose proof (zlen_nonneg data) as Hd0. pose proof (zlen_nonneg out).
  assert (Hv : is_varint (zlen data)) by (unfold is_varint, QUIC_VARINT_MAX; lia).
  pose proof (encodes_datagram with_len data Hv out (zlen out) ltac:(lia) Hobj) as He.
  rewrite (zlen_datagram_bytes with_len data Hv) in *.
  unfold quic_dgdeliver_frame, quic_datagram_max_payload. revert He. zdecide. intros ->.
  pose proof (varint_len_pos _ Hv). unwrap.
  assert (Hs : datagram_size with_len (zlen data) =? 0 = false).
  { apply Z.eqb_neq. unfold datagram_size. destruct with_len; lia. }
  rewrite Hs. unfold quic_datagram_allowed. zdecide.
  destruct (Z.leb_spec (datagram_size with_len (zlen data)) max_size) as [Hf|Hf]; cbn [negb];
    unfold datagram_size in Hf; destruct with_len.
  - rewrite best_payload_max by (done || lia). split; [lia|eauto].
  - split; [lia|eauto].
  - rewrite best_payload_max by (done || lia). split; [by intros (? & ? & ?)|].
    intros [Hc|Hc]; [lia|]. rewrite Hc in Hf. cbn in Hf. lia.
  - split; [by intros (? & ? & ?)|lia].
Qed.

(** Witness: a frame of at most 5 bytes carries the three-byte payload. *)
Lemma datagram_max_payload_exact_witness :
  (exists w out', quic_dgdeliver_frame [7; 8; 9] 3 true 5 (repeat 0 10) 10 = Some (Some w, out')) /\
  3 <= quic_datagram_max_payload 5 true.
Proof.
  split; [|closed_arith].
  refine (proj2 (datagram_max_payload_exact [7; 8; 9] (repeat 0 10) true 5 _ _ _ _) _); closed_arith.
Defined.
