(* ===== verification/Fifo.v ===== *)
(** The fixed-capacity datagram queues: the in-process link of
    [transport/io/socket/net/memlink.c] and the retransmission queue of
    [transport/io/socket/io/retransmit.c].  Both are the same ring of slots with
    different dimensions; the section below is that ring, and the two queues are
    its instances. *)
From S2P Require Import Prelude.
From S2P Require Import Buffers.

(** [quic_memlink_dgram] and [quic_rtx_frame]: [sl_data] is the whole array. *)
Record fifo_slot := mk_slot { sl_data : list Z; sl_len : Z }.

(** [quic_memlink] and [quic_rtx_queue]. *)
Record fifo := mk_fifo { ff_slots : list fifo_slot; ff_head : Z; ff_tail : Z; ff_count : Z }.

Section Ring.
Context (SLOTS MTU : Z).

Definition fifo_init (l : fifo) : fifo := mk_fifo (ff_slots l) 0 0 0.

(** Copy [len] bytes into the tail slot and advance. *)
Definition enqueue (l : fifo) (buf : list Z) (len : Z) : option fifo :=
  match load (ff_slots l) (ff_tail l) with
  | None => None
  | Some d =>
      match copy_loop (Z.to_nat len) (sl_data d) 0 buf 0 with
      | None => None
      | Some data =>
          match store (ff_slots l) (ff_tail l) (mk_slot data len) with
          | None => None
          | Some slots =>
              Some (mk_fifo slots (ff_head l) ((ff_tail l +w 1) mod SLOTS) (ff_count l +w 1))
          end
      end
  end.

Definition fifo_send (l : fifo) (buf : list Z) (len : Z) : option (bool * fifo) :=
  if (ff_count l =? SLOTS) || (MTU <? len) then Some (false, l)
  else match enqueue l buf len with None => None | Some l' => Some (true, l') end.

(** Copy the head slot into [out] and advance. *)
Definition dequeue (l : fifo) (out : list Z) : option (Z * list Z * fifo) :=
  match load (ff_slots l) (ff_head l) with
  | None => None
  | Some d =>
      match copy_loop (Z.to_nat (sl_len d)) out 0 (sl_data d) 0 with
      | None => None
      | Some out' =>
          Some (sl_len d, out', mk_fifo (ff_slots l) ((ff_head l +w 1) mod SLOTS) (ff_tail l) (ff_count l -w 1))
      end
  end.

Definition fifo_recv (l : fifo) (out : list Z) (cap : Z) : option (Z * list Z * fifo) :=
  if ff_count l =? 0 then Some (0, out, l)
  else match load (ff_slots l) (ff_head l) with
       | None => None
       | Some d => if cap <? sl_len d then Some (0, out, l) else dequeue l out
       end.

(** ** Invariant and abstraction *)

Definition slot_payload (s : fifo_slot) : list Z := take (Z.to_nat (sl_len s)) (sl_data s).

Record fifo_wf (l : fifo) : Prop := {
  wf_slots : zlen (ff_slots l) = SLOTS;
  wf_data : Forall (fun s => zlen (sl_data s) = MTU) (ff_slots l);
  wf_head : 0 <= ff_head l < SLOTS;
  wf_count : 0 <= ff_count l <= SLOTS;
  wf_tail : ff_tail l = (ff_head l + ff_count l) mod SLOTS;
  wf_used : forall i s, 0 <= i < ff_count l ->
    load (ff_slots l) ((ff_head l + i) mod SLOTS) = Some s -> 0 <= sl_len s <= MTU }.

(** The [k] datagrams from slot [h] on, oldest first. *)
Fixpoint queue_from (slots : list fifo_slot) (h : Z) (k : nat) : list (list Z) :=
  match k with
  | O => []
  | S k' =>
      match load slots (h mod SLOTS) with
      | None => []
      | Some s => slot_payload s :: queue_from slots (h + 1) k'
      end
  end.

Definition fifo_queue (l : fifo) : list (list Z) :=
  queue_from (ff_slots l) (ff_head l) (Z.to_nat (ff_count l)).

(** ** The abstract queue *)

(** [Send]: the bytes of a datagram.  [Recv]: the caller's buffer. *)
Inductive fifo_op := Send (buf : list Z) | Recv (out : list Z).
Inductive fifo_reply := Sent (ok : bool) | Got (w : Z) (out : list Z).

(** A bounded queue of datagrams: a send fails when it is full or the datagram
    exceeds [MTU]; a receive takes the oldest datagram when the buffer holds
    it, and otherwise changes nothing. *)
Definition spec_step (q : list (list Z)) (o : fifo_op) : fifo_reply * list (list Z) :=
  match o with
  | Send buf =>
      if (zlen q =? SLOTS) || (MTU <? zlen buf) then (Sent false, q) else (Sent true, q ++ [buf])
  | Recv out =>
      match q with
      | [] => (Got 0 out, q)
      | d :: q' => if zlen out <? zlen d then (Got 0 out, q) else (Got (zlen d) (splice out 0 d), q')
      end
  end.

Fixpoint spec_run (q : list (list Z)) (ops : list fifo_op) : list fifo_reply * list (list Z) :=
  match ops with
  | [] => ([], q)
  | o :: ops' =>
      let '(r, q') := spec_step q o in
      let '(rs, q'') := spec_run q' ops' in (r :: rs, q'')
  end.

Definition fifo_step (l : fifo) (o : fifo_op) : option (fifo_reply * fifo) :=
  match o with
  | Send buf => match fifo_send l buf (zlen buf) with
                | None => None
                | Some (b, l') => Some (Sent b, l')
                end
  | Recv out => match fifo_recv l out (zlen out) with
                | None => None
                | Some (w, out', l') => Some (Got w out', l')
                end
  end.

Fixpoint fifo_run (l : fifo) (ops : list fifo_op) : option (list fifo_reply * fifo) :=
  match ops with
  | [] => Some ([], l)
  | o :: ops' =>
      match fifo_step l o with
      | None => None
      | Some (r, l') => match fifo_run l' ops' with
                        | None => None
                        | Some (rs, l'') => Some (r :: rs, l'')
                        end
      end
  end.

(** ** Ring arithmetic *)

Context (HS : 0 < SLOTS < max_object) (HM : 0 <= MTU < max_object).

Lemma ring_distinct h i c : 0 <= i < c -> c < i + SLOTS -> (h + i) mod SLOTS <> (h + c) mod SLOTS.
Proof.
  intros Hi Hc He. assert ((c - i) mod SLOTS = 0) as Hz.
  { replace (c - i) with ((h + c) - (h + i)) by lia. rewrite Zminus_mod, He, Z.sub_diag. apply Z.mod_0_l. lia. }
  rewrite Z.mod_small in Hz; lia.
Qed.

Lemma ring_index h : 0 <= h mod SLOTS < SLOTS.
Proof. apply Z.mod_pos_bound. lia. Qed.

Lemma queue_from_mod slots h k : queue_from slots (h mod SLOTS) k = queue_from slots h k.
Proof.
  revert h; induction k as [|k IH]; intros h; cbn [queue_from]; [done|]. rewrite Z.mod_mod by lia.
  destruct (load slots (h mod SLOTS)); [|done]. f_equal.
  rewrite <- (IH (h + 1)), <- (IH (h mod SLOTS + 1)). by rewrite Zplus_mod_idemp_l.
Qed.

Lemma queue_from_insert slots h k t x : zlen slots = SLOTS -> 0 <= t < SLOTS ->
  (forall i, 0 <= i < Z.of_nat k -> (h + i) mod SLOTS <> t) ->
  queue_from (<[Z.to_nat t := x]> slots) h k = queue_from slots h k.
Proof.
  intros Hl Ht. revert h; induction k as [|k IH]; intros h Hne; cbn [queue_from]; [done|].
  rewrite load_insert by lia. pose proof (Hne 0 ltac:(lia)) as H0. rewrite Z.add_0_r in H0. zdecide.
  destruct (load slots (h mod SLOTS)); [|done]. f_equal. apply IH. intros i Hi.
  replace (h + 1 + i) with (h + (i + 1)) by lia. apply Hne. lia.
Qed.

Lemma queue_from_snoc slots h k s : zlen slots = SLOTS ->
  load slots ((h + Z.of_nat k) mod SLOTS) = Some s ->
  queue_from slots h (S k) = queue_from slots h k ++ [slot_payload s].
Proof.
  intros Hl. revert h; induction k as [|k IH]; intros h Hs.
  - cbn. rewrite Z.add_0_r in Hs. by rewrite Hs.
  - change (queue_from slots h (S (S k))) with
      (match load slots (h mod SLOTS) with None => [] | Some s => slot_payload s :: queue_from slots (h + 1) (S k) end).
    rewrite IH by (rewrite <- Hs; do 2 f_equal; lia). cbn [queue_from].
    destruct (load_is_Some slots (h mod SLOTS)) as [s0 Hs0]; [rewrite Hl; apply ring_index|]. by rewrite Hs0.
Qed.

Lemma zlen_queue_from slots h k : zlen slots = SLOTS -> zlen (queue_from slots h k) = Z.of_nat k.
Proof.
  intros Hl. revert h; induction k as [|k IH]; intros h; cbn [queue_from]; [done|].
  destruct (load_is_Some slots (h mod SLOTS)) as [s0 Hs0]; [rewrite Hl; apply ring_index|].
  rewrite Hs0, zlen_cons, IH. lia.
Qed.

Lemma zlen_fifo_queue l : fifo_wf l -> zlen (fifo_queue l) = ff_count l.
Proof. intros W. unfold fifo_queue. rewrite zlen_queue_from by apply W. pose proof (wf_count _ W). lia. Qed.

(** ** The ring simulates the queue *)

Lemma enqueue_spec l buf : fifo_wf l -> ff_count l < SLOTS -> zlen buf <= MTU ->
  exists l', enqueue l buf (zlen buf) = Some l' /\ fifo_wf l' /\ fifo_queue l' = fifo_queue l ++ [buf].
Proof.
  intros [Wl Wd Wh Wc Wt Wu] Hc Hb. pose proof (zlen_nonneg buf).
  pose proof (ring_index (ff_head l + ff_count l)) as Ht. rewrite <- Wt in Ht.
  destruct (load_is_Some (ff_slots l) (ff_tail l)) as [d Hd]; [lia|].
  assert (Hdl : zlen (sl_data d) = MTU).
  { apply load_elem, list_elem_of_In in Hd. by apply (proj1 (Forall_forall _ _) Wd). }
  unfold enqueue. rewrite Hd, copy_loop_len by (unfold zlen in *; lia). rewrite store_ok by lia. unwrap.
  rewrite Z2Nat.id by lia.
  assert (Hsl : slice buf 0 (zlen buf) = buf) by (unfold slice, zlen; by rewrite drop_0, Nat2Z.id, firstn_all).
  rewrite Hsl. set (x := mk_slot (splice (sl_data d) 0 buf) (zlen buf)).
  eexists. split; [done|]. split.
  - constructor; cbn [ff_slots ff_head ff_tail ff_count]; try lia.
    + by rewrite zlen_insert.
    + apply Forall_insert; [done|]. cbn. rewrite zlen_splice; lia.
    + rewrite Wt, Zplus_mod_idemp_l. f_equal. lia.
    + intros i s Hi. rewrite load_insert by lia. destruct (Z.eqb_spec ((ff_head l + i) mod SLOTS) (ff_tail l)).
      * intros [= <-]. cbn. lia.
      * intros Hs. apply (Wu i s); [|done]. destruct (Z.eq_dec i (ff_count l)) as [->|]; [congruence|lia].
  - unfold fifo_queue. cbn [ff_slots ff_head ff_count].
    replace (Z.to_nat (ff_count l + 1)) with (S (Z.to_nat (ff_count l))) by lia.
    rewrite (queue_from_snoc _ _ _ x) by (rewrite ?zlen_insert, ?Z2Nat.id, <- ?Wt, ?load_insert by lia; by zdecide).
    rewrite queue_from_insert by (done || intros i Hi; rewrite Wt; apply ring_distinct; lia).
    do 2 f_equal. unfold slot_payload, x. cbn. by apply take_splice_n.
Qed.

Lemma dequeue_spec l out d q : fifo_wf l -> fifo_queue l = d :: q -> zlen d <= zlen out ->
  exists l', dequeue l out = Some (zlen d, splice out 0 d, l') /\ fifo_wf l' /\ fifo_queue l' = q.
Proof.
  intros W Hq Ho. pose proof (zlen_fifo_queue l W) as Hcnt. rewrite Hq, zlen_cons in Hcnt.
  pose proof (zlen_nonneg q). destruct W as [Wl Wd Wh Wc Wt Wu].
  destruct (load_is_Some (ff_slots l) (ff_head l)) as [s Hs]; [lia|].
  assert (Hm : ff_head l mod SLOTS = ff_head l) by (apply Z.mod_small; lia).
  unfold fifo_queue in Hq. replace (Z.to_nat (ff_count l)) with (S (Z.to_nat (ff_count l - 1))) in Hq by lia.
  cbn [queue_from] in Hq. rewrite Hm, Hs in Hq. injection Hq as Hd Hq.
  assert (Hsl : 0 <= sl_len s <= MTU) by (apply (Wu 0); [lia|]; by rewrite Z.add_0_r, Hm).
  assert (Hdl : zlen (sl_data s) = MTU).
  { pose proof Hs as He. apply load_elem, list_elem_of_In in He. by apply (proj1 (Forall_forall _ _) Wd). }
  assert (Hz : zlen d = sl_len s) by (rewrite <- Hd; unfold slot_payload; apply zlen_take; lia).
  unfold dequeue. rewrite Hs, copy_loop_len by lia. rewrite Z2Nat.id by lia. unwrap.
  eexists. split; [|split].
  - rewrite <- Hz. do 4 f_equal. rewrite Hz. unfold slice. change (Z.to_nat 0) with 0%nat. by rewrite drop_0.
  - constructor; cbn [ff_slots ff_head ff_tail ff_count]; try done; try lia.
    + apply ring_index.
    + rewrite Zplus_mod_idemp_l, Wt. f_equal. lia.
    + intros i s' Hi. rewrite Zplus_mod_idemp_l. replace (ff_head l + 1 + i) with (ff_head l + (i + 1)) by lia.
      apply Wu. lia.
  - unfold fifo_queue. cbn [ff_slots ff_head ff_count]. by rewrite queue_from_mod.
Qed.

Lemma fifo_step_refines l o : fifo_wf l ->
  exists l', fifo_step l o = Some (fst (spec_step (fifo_queue l) o), l') /\ fifo_wf l' /\
             fifo_queue l' = snd (spec_step (fifo_queue l) o).
Proof.
  intros W. pose proof (zlen_fifo_queue l W) as Hc. destruct o as [buf|out]; cbn [fifo_step spec_step].
  - unfold fifo_send. rewrite Hc. destruct (_ || _) eqn:E; [by exists l|]. zbool.
    pose proof (wf_count _ W). destruct (enqueue_spec l buf W) as (l' & -> & ? & ?); [lia..|]. by exists l'.
  - unfold fifo_recv. destruct (fifo_queue l) as [|d q] eqn:Eq.
    + rewrite zlen_nil in Hc. zdecide. by exists l.
    + rewrite zlen_cons in Hc. pose proof (zlen_nonneg q). zdecide.
      pose proof (wf_head _ W) as Wh. destruct (load_is_Some (ff_slots l) (ff_head l)) as [s Hs];
        [rewrite (wf_slots _ W); lia|].
      assert (Hz : zlen d = sl_len s).
      { unfold fifo_queue in Eq. replace (Z.to_nat (ff_count l)) with (S (Z.to_nat (ff_count l - 1))) in Eq by lia.
        cbn [queue_from] in Eq. rewrite Z.mod_small, Hs in Eq by lia. injection Eq as <- _. unfold slot_payload.
        apply zlen_take. assert (0 <= sl_len s <= MTU) by (apply (wf_used _ W 0); [lia|]; by rewrite Z.add_0_r, Z.mod_small).
        replace (zlen (sl_data s)) with MTU; [lia|]. apply load_elem, list_elem_of_In in Hs.
        symmetry. by apply (proj1 (Forall_forall _ _) (wf_data _ W)). }
      rewrite Hs, <- Hz. destruct (Z.ltb_spec (zlen out) (zlen d)); [by exists l; rewrite Eq|].
      destruct (dequeue_spec l out d q W Eq) as (l' & -> & ? & ?); [lia|]. by exists l'.
Qed.

Lemma fifo_run_refines ops : forall l, fifo_wf l ->
  exists l', fifo_run l ops = Some (fst (spec_run (fifo_queue l) ops), l') /\ fifo_wf l' /\
             fifo_queue l' = snd (spec_run (fifo_queue l) ops).
Proof.
  induction ops as [|o ops IH]; intros l W; cbn [fifo_run spec_run]; [by exists l|].
  destruct (fifo_step_refines l o W) as (l1 & -> & W1 & Hq1). destruct (spec_step (fifo_queue l) o) as [r q1].
  destruct (IH l1 W1) as (l2 & -> & W2 & Hq2). cbn [snd] in Hq1. rewrite Hq1 in *.
  destruct (spec_run q1 ops) as [rs q2]. by exists l2.
Qed.

(** A queue that was just initialised, whatever its slots held before. *)
Lemma fifo_init_wf l : zlen (ff_slots l) = SLOTS -> Forall (fun s => zlen (sl_data s) = MTU) (ff_slots l) ->
  fifo_wf (fifo_init l) /\ fifo_queue (fifo_init l) = [].
Proof.
  intros Hl Hd. split; [|done]. constructor; cbn; done || lia.
Qed.
End Ring.

Arguments fifo_wf SLOTS MTU l : assert.

(** * memlink.c *)

Definition QUIC_MEMLINK_SLOTS : Z := 16.
Definition QUIC_MEMLINK_MTU : Z := 1500.
Definition quic_memlink_init : fifo -> fifo := fifo_init.
Definition quic_memlink_send : fifo -> list Z -> Z -> option (bool * fifo) :=
  fifo_send QUIC_MEMLINK_SLOTS QUIC_MEMLINK_MTU.
Definition quic_memlink_recv : fifo -> list Z -> Z -> option (Z * list Z * fifo) :=
  fifo_recv QUIC_MEMLINK_SLOTS.

(** * retransmit.c *)

Definition QUIC_RTX_SLOTS : Z := 64.
Definition QUIC_RTX_FRAME : Z := 1200.
Definition quic_rtx_init : fifo -> fifo := fifo_init.
Definition quic_rtx_push : fifo -> list Z -> Z -> option (bool * fifo) := fifo_send QUIC_RTX_SLOTS QUIC_RTX_FRAME.
Definition quic_rtx_pop : fifo -> list Z -> Z -> option (Z * list Z * fifo) := fifo_recv QUIC_RTX_SLOTS.

(** C32: the in-process link and the retransmission queue are bounded first-in
    first-out queues.  Whatever their slots held before initialisation, every
    sequence of sends and receives (of any sizes, through any number of turns
    of the ring) stays inside the arrays and gives exactly the replies of the
    abstract queue: a send is refused only when the queue is full or the
    datagram too large, and a receive returns the oldest datagram unchanged. *)
Theorem fifo_refines_queue (slots mtu : Z) (l : fifo) (ops : list fifo_op)
  (Hdim : (slots, mtu) = (QUIC_MEMLINK_SLOTS, QUIC_MEMLINK_MTU) \/ (slots, mtu) = (QUIC_RTX_SLOTS, QUIC_RTX_FRAME))
  (Hslots : zlen (ff_slots l) = slots) (Hdata : Forall (fun s => zlen (sl_data s) = mtu) (ff_slots l)) :
  exists l', fifo_run slots mtu (fifo_init l) ops = Some (fst (spec_run slots mtu [] ops), l') /\
    fifo_wf slots mtu l' /\ fifo_queue slots l' = snd (spec_run slots mtu [] ops).
Proof.
  assert (HS : 0 < slots < max_object) by (destruct Hdim as [[= -> ->]|[= -> ->]]; closed_arith).
  assert (HM : 0 <= mtu < max_object) by (destruct Hdim as [[= -> ->]|[= -> ->]]; closed_arith).
  destruct (fifo_init_wf slots mtu HS l Hslots Hdata) as [W Hq].
  destruct (fifo_run_refines slots mtu HS HM ops (fifo_init l) W) as (l' & Hr & W' & Hq'). rewrite Hq in *. by exists l'.
Qed.

(** Witness of C32: two sends and three receives on a link with stale slots. *)
Lemma fifo_refines_queue_witness :
  exists l', fifo_run 16 1500 (fifo_init (mk_fifo (repeat (mk_slot (repeat 9 1500) 77) 16) 3 5 2))
    [Send [1; 2]; Send [3]; Recv [0]; Recv [0; 0; 0]; Recv [0]] =
    Some ([Sent true; Sent true; Got 0 [0]; Got 2 [1; 2; 0]; Got 1 [3]], l').
Proof.
  destruct (fifo_refines_queue 16 1500 (mk_fifo (repeat (mk_slot (repeat 9 1500) 77) 16) 3 5 2)
    [Send [1; 2]; Send [3]; Recv [0]; Recv [0; 0; 0]; Recv [0]]) as (l' & H & _);
    [by left|closed_arith|apply Forall_forall; intros s Hs; by apply repeat_spec in Hs; subst s|by exists l'].
Defined.
