(* ===== verification/Net.v ===== *)
(** The user-space IPv4/UDP path: the Internet checksum ([checksum.c]), the IPv4
    header ([ipv4.c]) and the UDP datagram ([udp4.c]) of
    [transport/io/socket/net], and the addresses of [transport/io/socket/io]
    ([addr.c], [quic_udp_addr] of [udp.c]). *)
From S2P Require Import Prelude.
From S2P Require Import Buffers.
From S2P Require Import Headers.

(** * checksum.c *)

(** The [while (i + 1 < len)] loop and the odd last byte. *)
Fixpoint accum_loop (fuel : nat) (sum : Z) (data : list Z) (i len : Z) : option Z :=
  match fuel with
  | O => None
  | S fuel' =>
      if i +w 1 <? len then
        match load data i, load data (i + 1) with
        | Some a, Some b => accum_loop fuel' (u32 (sum + Z.lor (Z.shiftl a 8) b)) data (i +w 2) len
        | _, _ => None
        end
      else if i <? len then
        match load data i with
        | Some a => Some (u32 (sum + Z.shiftl a 8))
        | None => None
        end
      else Some sum
  end.

Definition quic_cksum_accum (sum : Z) (data : list Z) (len : Z) : option Z :=
  accum_loop (S (Z.to_nat len)) sum data 0 len.

(** [while (sum >> 16) sum = (sum & 0xffff) + (sum >> 16);]: three tests are
    enough for any 32-bit sum. *)
Fixpoint fold_loop (fuel : nat) (sum : Z) : option Z :=
  match fuel with
  | O => None
  | S fuel' =>
      if Z.shiftr sum 16 =? 0 then Some sum
      else fold_loop fuel' (u32 (Z.land sum 0xffff + Z.shiftr sum 16))
  end.

Definition quic_cksum_fold (sum : Z) : option Z :=
  match fold_loop 3 sum with None => None | Some s => Some (u16 (Z.lnot s)) end.

Definition quic_cksum (data : list Z) (len : Z) : option Z :=
  match quic_cksum_accum 0 data len with None => None | Some s => quic_cksum_fold s end.

(** * ipv4.c *)

Definition QUIC_IPV4_HDR : Z := 20.
Definition QUIC_IP_PROTO_UDP : Z := 17.

Definition quic_ipv4_build (out : list Z) (total_len src dst proto : Z) : option (Z * list Z) :=
  out ← fill_loop (Z.to_nat QUIC_IPV4_HDR) out 0 0;
  out ← store out 0 0x45;
  out ← store_bytes out 2 (quic_put_be16 total_len);
  out ← store out 8 64;
  out ← store out 9 proto;
  out ← store_bytes out 12 (quic_put_be32 src);
  out ← store_bytes out 16 (quic_put_be32 dst);
  ck ← quic_cksum out QUIC_IPV4_HDR;
  out ← store_bytes out 10 (quic_put_be16 ck);
  Some (QUIC_IPV4_HDR, out).

Definition quic_ipv4_check (hdr : list Z) : option bool :=
  match quic_cksum hdr QUIC_IPV4_HDR with None => None | Some c => Some (c =? 0) end.

(** * udp4.c *)

Definition QUIC_UDP_HDR : Z := 8.

Definition pseudo_header (src dst udp_len : Z) : list Z :=
  [u8 (Z.shiftr src 24); u8 (Z.shiftr src 16); u8 (Z.shiftr src 8); u8 src;
   u8 (Z.shiftr dst 24); u8 (Z.shiftr dst 16); u8 (Z.shiftr dst 8); u8 dst;
   0; QUIC_IP_PROTO_UDP] ++ quic_put_be16 udp_len.

Definition pseudo_sum (sum src dst udp_len : Z) : option Z :=
  quic_cksum_accum sum (pseudo_header src dst udp_len) 12.

Definition put_udp (out : list Z) (sport dport udp_len : Z) (payload : list Z) (payload_len : Z) : option (list Z) :=
  out ← store_bytes out 0 (quic_put_be16 sport);
  out ← store_bytes out 2 (quic_put_be16 dport);
  out ← store_bytes out 4 (quic_put_be16 udp_len);
  out ← store out 6 0;
  out ← store out 7 0;
  copy_loop (Z.to_nat payload_len) out QUIC_UDP_HDR payload 0.

Definition quic_udp4_build (out : list Z) (cap sport dport src dst : Z) (payload : list Z) (payload_len : Z)
  : option (Z * list Z) :=
  let udp_len := u16 (QUIC_UDP_HDR + payload_len) in
  if cap <? udp_len then Some (0, out)
  else
    out ← put_udp out sport dport udp_len payload payload_len;
    sum ← pseudo_sum 0 src dst udp_len;
    sum ← quic_cksum_accum sum out udp_len;
    ck ← quic_cksum_fold sum;
    out ← store_bytes out 6 (quic_put_be16 ck);
    Some (udp_len, out).

Definition quic_udp4_check (dgram : list Z) (len src dst : Z) : option bool :=
  sum ← pseudo_sum 0 src dst (u16 len);
  sum ← quic_cksum_accum sum dgram len;
  c ← quic_cksum_fold sum;
  Some (c =? 0).

(** * addr.c, and the socket address of udp.c *)

Definition quic_addr_from_octets (a b c d : Z) : Z :=
  Z.lor (Z.lor (Z.lor (u32 (Z.shiftl a 24)) (u32 (Z.shiftl b 16))) (u32 (Z.shiftl c 8))) d.

Definition quic_addr_to_octets (addr : Z) : list Z :=
  [u8 (Z.shiftr addr 24); u8 (Z.shiftr addr 16); u8 (Z.shiftr addr 8); u8 addr].

Definition quic_port_be (port : Z) : Z := u16 (Z.lor (Z.shiftr port 8) (Z.shiftl port 8)).

Definition hton16 (v : Z) : Z := u16 (Z.lor (Z.shiftr v 8) (Z.shiftl v 8)).
Definition hton32 (v : Z) : Z :=
  Z.lor (Z.lor (Z.lor (Z.land (Z.shiftr v 24) 0xff) (Z.land (Z.shiftr v 8) 0xff00))
               (Z.land (u32 (Z.shiftl v 8)) 0xff0000))
        (Z.land (u32 (Z.shiftl v 24)) 0xff000000).

Definition QUIC_AF_INET : Z := 2.
Record quic_sockaddr_in := mk_sockaddr { sa_family : Z; sa_port_be : Z; sa_addr_be : Z; sa_zero : list Z }.

Definition quic_udp_addr (port a b c d : Z) : quic_sockaddr_in :=
  let addr := Z.lor (Z.lor (Z.lor (u32 (Z.shiftl a 24)) (u32 (Z.shiftl b 16))) (u32 (Z.shiftl c 8))) d in
  mk_sockaddr QUIC_AF_INET (hton16 port) (hton32 addr) (repeat 0 8).

(** * The reference checksum *)

(** The sum of the big-endian 16-bit words, an odd last byte padded with 0. *)
Fixpoint word_sum (l : list Z) : Z :=
  match l with
  | [] => 0
  | [a] => a * 256
  | a :: b :: l' => a * 256 + b + word_sum l'
  end.

(** RFC 1071: a 32-bit sum after end-around carries. *)
Definition ones_sum (s : Z) : Z := if s =? 0 then 0 else (s - 1) mod 65535 + 1.

(** Induction two bytes at a time. *)
Lemma pair_ind (P : list Z -> Prop) :
  P [] -> (forall a, P [a]) -> (forall a b l, P l -> P (a :: b :: l)) -> forall l, P l.
Proof.
  intros H0 H1 H2. assert (forall l, P l /\ forall a, P (a :: l)) as H; [|intros; apply H].
  induction l as [|b l [IH1 IH2]]; split; auto.
Qed.

Lemma word_sum_bound l : Forall is_u8 l -> 0 <= word_sum l /\ 2 * word_sum l <= 65535 * (zlen l + 1).
Proof.
  revert l. apply (pair_ind (fun l => Forall is_u8 l -> _)); cbn [word_sum].
  - change (zlen (@nil Z)) with 0. lia.
  - intros a Ha. apply Forall_cons_iff in Ha as [Ha _]. unfold is_u8 in *. change (zlen [a]) with 1. lia.
  - intros a b l IH Hl. apply Forall_cons_iff in Hl as [Ha Hl]. apply Forall_cons_iff in Hl as [Hb Hl].
    specialize (IH Hl). rewrite !zlen_cons. unfold is_u8 in *. lia.
Qed.

Lemma word_sum_app a b : Z.even (zlen a) = true -> word_sum (a ++ b) = word_sum a + word_sum b.
Proof.
  revert a. apply (pair_ind (fun a => Z.even (zlen a) = true -> _)); [done|done|].
  intros x y a IH He. cbn [app word_sum]. rewrite IH; [lia|].
  rewrite !zlen_cons in He. replace (1 + (1 + zlen a)) with (zlen a + 2 * 1) in He by lia.
  by rewrite Z.even_add_mul_2 in He.
Qed.

(** Changing one byte moves the sum by a multiple of 1 or of 256. *)
Lemma word_sum_insert l : forall (i : nat) x y, l !! i = Some x ->
  word_sum (<[i := y]> l) = word_sum l + (y - x) * (if Nat.even i then 256 else 1).
Proof.
  induction l as [|a|a b l IH] using pair_ind; intros i x y Hx.
  - done.
  - destruct i; [|done]. injection Hx as <-. cbn. lia.
  - destruct i as [|[|i]]; [injection Hx as <-; cbn [list_insert insert word_sum Nat.even]; lia..|].
    change (<[S (S i) := y]> (a :: b :: l)) with (a :: b :: <[i := y]> l). cbn [word_sum Nat.even].
    rewrite (IH i x y Hx). lia.
Qed.

(** ** The loops compute the reference *)

Lemma u32_add_l a b : u32 (u32 a + b) = u32 (a + b).
Proof. unfold u32. by rewrite Zplus_mod_idemp_l. Qed.

Lemma accum_loop_spec bs : forall fuel sum pre post,
  Forall is_u8 bs -> is_u32 sum -> zlen (pre ++ bs) < max_object -> (length bs < fuel)%nat ->
  accum_loop fuel sum (pre ++ bs ++ post) (zlen pre) (zlen (pre ++ bs)) = Some (u32 (sum + word_sum bs)).
Proof.
  induction bs as [|a|a b bs IH] using pair_ind; intros fuel sum pre post Hb Hs Hm Hf;
    (destruct fuel as [|fuel]; [lia|]); pose proof (zlen_nonneg pre); cbn [accum_loop word_sum].
  - rewrite app_nil_r in *. unwrap. zdecide. unfold u32. rewrite Z.add_0_r, Z.mod_small by done. done.
  - rewrite zlen_app in *. change (zlen [a]) with 1 in *. unwrap. zdecide. cbn [app].
    rewrite load_head by done. by rewrite Z.shiftl_mul_pow2 by lia.
  - pose proof (zlen_nonneg bs). rewrite zlen_app, !zlen_cons in *. unwrap. zdecide. cbn [app].
    rewrite load_head by done.
    replace (pre ++ a :: b :: bs ++ post) with ((pre ++ [a]) ++ b :: bs ++ post) at 1 by by rewrite <- app_assoc.
    rewrite load_head by (rewrite zlen_app; done).
    apply Forall_cons_iff in Hb as [Ha Hb]. apply Forall_cons_iff in Hb as [Hb Hbs]. unfold is_u8 in *.
    rewrite Z.shiftl_mul_pow2, lor_low by lia. change (2 ^ 8) with 256.
    specialize (IH fuel (u32 (sum + (a * 256 + b))) (pre ++ [a; b]) post Hbs (u32_range _)).
    rewrite !zlen_app, <- !app_assoc in IH. change (zlen [a; b]) with 2 in IH. cbn [app] in IH.
    cbn [length] in Hf. replace (zlen pre + (1 + (1 + zlen bs))) with (zlen pre + 2 + zlen bs) by lia.
    rewrite IH by lia. rewrite u32_add_l. do 2 f_equal. lia.
Qed.

(** The first [zlen bs] bytes of an array. *)
Lemma cksum_accum_spec bs post sum : Forall is_u8 bs -> is_u32 sum -> zlen bs < max_object ->
  quic_cksum_accum sum (bs ++ post) (zlen bs) = Some (u32 (sum + word_sum bs)).
Proof.
  intros Hb Hs Hm. unfold quic_cksum_accum.
  apply (accum_loop_spec bs _ sum [] post Hb Hs Hm). unfold zlen. lia.
Qed.

Lemma ones_sum_range s : 0 <= s -> 0 <= ones_sum s <= 65535.
Proof. intros. unfold ones_sum. zcase; [lia|]. pose proof (Z.mod_pos_bound (s - 1) 65535). lia. Qed.

Lemma ones_sum_small s : 0 <= s < 65536 -> ones_sum s = s.
Proof. intros. unfold ones_sum. zcase; [lia|]. rewrite Z.mod_small; lia. Qed.

(** One end-around carry keeps the residue. *)
Lemma ones_sum_carry s : 65536 <= s -> ones_sum (s mod 65536 + s / 65536) = ones_sum s.
Proof.
  intros Hs. unfold ones_sum. pose proof (Z.mod_pos_bound s 65536 ltac:(lia)).
  assert (1 <= s / 65536) by (apply Z.div_le_lower_bound; lia). zdecide. f_equal.
  rewrite <- (Z.mod_add (s mod 65536 + s / 65536 - 1) (s / 65536) 65535) by lia. f_equal.
  pose proof (Z.div_mod s 65536). lia.
Qed.

Lemma fold_loop_step fuel s : 0 <= s < 4294967296 ->
  fold_loop (S fuel) s = if s <? 65536 then Some s else fold_loop fuel (s mod 65536 + s / 65536).
Proof.
  intros Hs. cbn [fold_loop]. rewrite Z.shiftr_div_pow2 by lia. change 0xffff with (Z.ones 16).
  rewrite Z.land_ones by lia. change (2 ^ 16) with 65536. destruct (Z.ltb_spec s 65536).
  - rewrite Z.div_small by lia. done.
  - assert (1 <= s / 65536) by (apply Z.div_le_lower_bound; lia).
    assert (s / 65536 < 65536) by (apply Z.div_lt_upper_bound; lia).
    pose proof (Z.mod_pos_bound s 65536 ltac:(lia)). zdecide. unfold u32. rewrite Z.mod_small by lia. done.
Qed.

Lemma fold_loop_spec s : 0 <= s < 4294967296 -> fold_loop 3 s = Some (ones_sum s).
Proof.
  intros Hs. rewrite fold_loop_step by done. destruct (Z.ltb_spec s 65536); [by rewrite ones_sum_small by lia|].
  rewrite <- ones_sum_carry by done.
  assert (1 <= s / 65536) by (apply Z.div_le_lower_bound; lia).
  assert (s / 65536 < 65536) by (apply Z.div_lt_upper_bound; lia).
  pose proof (Z.mod_pos_bound s 65536 ltac:(lia)). set (t := s mod 65536 + s / 65536) in *.
  rewrite fold_loop_step by lia. destruct (Z.ltb_spec t 65536); [by rewrite ones_sum_small by lia|].
  rewrite <- ones_sum_carry by done.
  assert (Hq : t / 65536 = 1) by (symmetry; apply (Z.div_unique t 65536 1 (t - 65536)); lia).
  assert (t mod 65536 = t - 65536) by (rewrite Z.mod_eq by lia; lia).
  rewrite fold_loop_step by lia. zdecide. by rewrite ones_sum_small by lia.
Qed.

(** The folded sum, complemented. *)
Lemma cksum_fold_spec s : is_u32 s -> quic_cksum_fold s = Some (65535 - ones_sum s).
Proof.
  intros Hs. unfold quic_cksum_fold. rewrite fold_loop_spec by exact Hs. f_equal.
  pose proof (ones_sum_range s ltac:(unfold is_u32 in *; lia)). unfold u16, Z.lnot.
  symmetry. apply (Z.mod_unique _ _ (-1)); lia.
Qed.

Lemma ones_sum_full s : 0 < s -> 65535 - ones_sum s = 0 <-> s mod 65535 = 0.
Proof.
  intros Hs. unfold ones_sum. zdecide.
  pose proof (Z.mod_pos_bound (s - 1) 65535 ltac:(lia)).
  pose proof (Z.div_mod (s - 1) 65535 ltac:(lia)) as Hd. split; intros He.
  - replace s with (((s - 1) / 65535 + 1) * 65535) by lia. by apply Z.mod_mul.
  - pose proof (Z.div_mod s 65535 ltac:(lia)). assert ((s - 1) mod 65535 = 65534); [|lia].
    symmetry. apply (Z.mod_unique _ _ (s / 65535 - 1)); lia.
Qed.

(** The complement makes the total a multiple of 65535. *)
Lemma ones_sum_complete s : 0 <= s -> (s + (65535 - ones_sum s)) mod 65535 = 0.
Proof.
  intros Hs. unfold ones_sum. zcase; [subst; done|].
  pose proof (Z.div_mod (s - 1) 65535 ltac:(lia)).
  replace (s + (65535 - ((s - 1) mod 65535 + 1))) with (((s - 1) / 65535 + 1) * 65535) by lia. by apply Z.mod_mul.
Qed.

(** ** Verification of a datagram *)

Lemma put_be16_u8 v : Forall is_u8 (quic_put_be16 v).
Proof. rewrite put_be16_bytes. apply be_bytes_u8. Qed.

Lemma pseudo_header_u8 src dst n : Forall is_u8 (pseudo_header src dst n).
Proof.
  unfold pseudo_header. apply Forall_app. split; [|apply put_be16_u8].
  repeat (apply Forall_cons; [first [apply u8_range | unfold is_u8, QUIC_IP_PROTO_UDP; lia]|]). constructor.
Qed.

(** The pseudo-header's sum is positive (it holds the protocol number) and small. *)
Lemma pseudo_word_sum src dst n : 17 <= word_sum (pseudo_header src dst n) <= 425977.
Proof.
  pose proof (word_sum_bound _ (pseudo_header_u8 src dst n)) as [_ Hu].
  change (zlen (pseudo_header src dst n)) with 12 in Hu. split; [|lia].
  unfold pseudo_header, quic_put_be16, QUIC_IP_PROTO_UDP. cbn [app word_sum].
  pose proof (u8_range (Z.shiftr src 24)); pose proof (u8_range (Z.shiftr src 16)).
  pose proof (u8_range (Z.shiftr src 8)); pose proof (u8_range src).
  pose proof (u8_range (Z.shiftr dst 24)); pose proof (u8_range (Z.shiftr dst 16)).
  pose proof (u8_range (Z.shiftr dst 8)); pose proof (u8_range dst).
  pose proof (u8_range (Z.shiftr n 8)); pose proof (u8_range n). unfold is_u8 in *. lia.
Qed.

Lemma pseudo_sum_spec src dst n : pseudo_sum 0 src dst n = Some (word_sum (pseudo_header src dst n)).
Proof.
  unfold pseudo_sum. rewrite <- (app_nil_r (pseudo_header src dst n)).
  change 12 with (zlen (pseudo_header src dst n)).
  rewrite cksum_accum_spec by (apply pseudo_header_u8 || done). rewrite Z.add_0_l, app_nil_r.
  f_equal. pose proof (pseudo_word_sum src dst n). unfold u32. apply Z.mod_small. lia.
Qed.

(** The total never reaches 2^32 for a datagram of at most 65535 bytes. *)
Lemma udp_sum_range src dst n bs : Forall is_u8 bs -> zlen bs <= 65535 ->
  0 < word_sum (pseudo_header src dst n) + word_sum bs < 4294967296.
Proof. intros Hb Hl. pose proof (word_sum_bound bs Hb). pose proof (pseudo_word_sum src dst n). lia. Qed.

Lemma udp_accum_fold bs post src dst n : Forall is_u8 bs -> zlen bs <= 65535 ->
  (quic_cksum_accum (word_sum (pseudo_header src dst n)) (bs ++ post) (zlen bs) ≫= quic_cksum_fold) =
  Some (65535 - ones_sum (word_sum (pseudo_header src dst n) + word_sum bs)).
Proof.
  intros Hb Hl. pose proof (udp_sum_range src dst n bs Hb Hl) as Hr. pose proof (pseudo_word_sum src dst n).
  rewrite cksum_accum_spec by (done || unfold is_u32, max_object; lia).
  cbn [mbind option_bind]. rewrite cksum_fold_spec by apply u32_range.
  unfold u32. rewrite Z.mod_small by lia. done.
Qed.

Lemma udp4_check_spec bs post src dst : Forall is_u8 bs -> zlen bs <= 65535 ->
  quic_udp4_check (bs ++ post) (zlen bs) src dst =
  Some ((word_sum (pseudo_header src dst (zlen bs)) + word_sum bs) mod 65535 =? 0).
Proof.
  intros Hb Hl. pose proof (zlen_nonneg bs). unfold quic_udp4_check.
  assert (Hu : u16 (zlen bs) = zlen bs) by (unfold u16; rewrite Z.mod_small; lia). rewrite Hu.
  rewrite pseudo_sum_spec. cbn [mbind option_bind].
  pose proof (udp_accum_fold bs post src dst (zlen bs) Hb Hl) as Hf.
  destruct (quic_cksum_accum _ _ _) as [s|]; [|done]. cbn [mbind option_bind] in *. rewrite Hf. cbn [mbind option_bind]. f_equal.
  pose proof (udp_sum_range src dst (zlen bs) bs Hb Hl) as Hr.
  apply Bool.eq_true_iff_eq. rewrite !Z.eqb_eq. apply ones_sum_full. lia.
Qed.

(** ** Building *)

(** The UDP datagram of RFC 768. *)
Definition udp_bytes (sport dport ck : Z) (payload : list Z) : list Z :=
  quic_put_be16 sport ++ quic_put_be16 dport ++ quic_put_be16 (QUIC_UDP_HDR + zlen payload) ++
  quic_put_be16 ck ++ payload.

Lemma zlen_udp_bytes s d c p : zlen (udp_bytes s d c p) = 8 + zlen p.
Proof. unfold udp_bytes. rewrite !zlen_app. change (zlen (quic_put_be16 _)) with 2. lia. Qed.

Lemma udp_bytes_u8 s d c p : Forall is_u8 p -> Forall is_u8 (udp_bytes s d c p).
Proof. intros. unfold udp_bytes. rewrite !Forall_app. auto using put_be16_u8. Qed.

(** The checksum enters the sum as one word. *)
Lemma udp_bytes_sum s d c p : 0 <= c < 65536 -> word_sum (udp_bytes s d c p) = word_sum (udp_bytes s d 0 p) + c.
Proof.
  intros Hc. unfold udp_bytes. rewrite !word_sum_app by done. cbn [quic_put_be16 word_sum].
  assert (He : u8 (Z.shiftr c 8) * 256 + u8 c = c).
  { unfold u8. rewrite shiftr_8, (Z.mod_small (c / 256)) by (split; [apply Z.div_pos|apply Z.div_lt_upper_bound]; lia).
    pose proof (Z.div_mod c 256). lia. }
  change (u8 (Z.shiftr 0 8)) with 0. change (u8 0) with 0. lia.
Qed.

Lemma put_udp_spec out s d p : 8 + zlen p <= zlen out ->
  put_udp out s d (8 + zlen p) p (zlen p) = Some (splice out 0 (udp_bytes s d 0 p)).
Proof.
  intros Hl. pose proof (zlen_nonneg p). unfold put_udp.
  pose proof (store_bytes_front out [] (quic_put_be16 s)) as H1. rewrite splice_nil in H1.
  change (zlen (@nil Z)) with 0 in H1. rewrite H1 by lia. change (zlen (quic_put_be16 s)) with 2. zdecide.
  cbn [mbind option_bind app].
  pose proof (store_bytes_front out (quic_put_be16 s) (quic_put_be16 d)) as H2.
  change (zlen (quic_put_be16 s)) with 2 in H2. change (zlen (quic_put_be16 d)) with 2 in H2.
  rewrite H2 by lia. zdecide. cbn [mbind option_bind].
  pose proof (store_bytes_front out (quic_put_be16 s ++ quic_put_be16 d) (quic_put_be16 (8 + zlen p))) as H3.
  change (zlen (quic_put_be16 s ++ quic_put_be16 d)) with 4 in H3.
  change (zlen (quic_put_be16 (8 + zlen p))) with 2 in H3. rewrite H3 by lia. zdecide. cbn [mbind option_bind].
  set (w := (quic_put_be16 s ++ quic_put_be16 d) ++ quic_put_be16 (8 + zlen p)).
  pose proof (store_bytes_front out w [0; 0]) as H4. change (zlen w) with 6 in H4. change (zlen [0; 0]) with 2 in H4.
  assert (H5 : store (splice out 0 w) 6 0 ≫= (fun o => store o 7 0) = store_bytes (splice out 0 w) 6 [0; 0]).
  { cbn [store_bytes]. destruct (store _ 6 0) as [o|]; cbn; [|done]. change (6 + 1) with 7. by destruct (store o 7 0). }
  rewrite H4 in H5 by lia. revert H5. zdecide. intros H5.
  destruct (store (splice out 0 w) 6 0) as [o|]; [|done]. cbn [mbind option_bind] in *. rewrite H5.
  cbn [mbind option_bind]. unfold QUIC_UDP_HDR.
  change 8 with (0 + zlen (w ++ [0; 0])) at 1.
  rewrite copy_loop_len by (rewrite ?zlen_splice; change (zlen (w ++ [0; 0])) with 8; lia).
  rewrite Z2Nat.id by lia. rewrite splice_splice by (rewrite ?zlen_slice; change (zlen (w ++ [0; 0])) with 8; lia).
  do 2 f_equal. replace (slice p 0 (zlen p)) with p by (unfold slice, zlen; by rewrite drop_0, Nat2Z.id, firstn_all).
  unfold udp_bytes, w. rewrite <- !app_assoc. done.
Qed.

(** Overwriting the checksum field. *)
Lemma udp_set_checksum out s d c p : 8 + zlen p <= zlen out ->
  store_bytes (splice out 0 (udp_bytes s d 0 p)) 6 (quic_put_be16 c) = Some (splice out 0 (udp_bytes s d c p)).
Proof.
  intros Hl. pose proof (zlen_nonneg p).
  rewrite store_bytes_spec by (rewrite ?zlen_splice, ?zlen_udp_bytes by (rewrite ?zlen_udp_bytes; lia); change (zlen (quic_put_be16 c)) with 2; lia).
  f_equal.
Qed.

Lemma udp4_build_spec out cap s d src dst p : Forall is_u8 p -> zlen p <= 65527 ->
  8 + zlen p <= cap <= zlen out ->
  exists ck, 0 <= ck < 65536 /\
    quic_udp4_build out cap s d src dst p (zlen p) = Some (8 + zlen p, splice out 0 (udp_bytes s d ck p)) /\
    (word_sum (pseudo_header src dst (8 + zlen p)) + word_sum (udp_bytes s d ck p)) mod 65535 = 0.
Proof.
  intros Hp Hl Hc. pose proof (zlen_nonneg p). unfold quic_udp4_build, QUIC_UDP_HDR.
  assert (Hu : u16 (8 + zlen p) = 8 + zlen p) by (unfold u16; rewrite Z.mod_small; lia). rewrite Hu. zdecide.
  rewrite put_udp_spec by lia. cbn [mbind option_bind]. rewrite pseudo_sum_spec. cbn [mbind option_bind].
  pose proof (udp_accum_fold (udp_bytes s d 0 p) (drop (length (udp_bytes s d 0 p)) out) src dst (8 + zlen p)
    (udp_bytes_u8 _ _ _ _ Hp)) as Hf. rewrite zlen_udp_bytes in Hf. specialize (Hf ltac:(lia)).
  change (udp_bytes s d 0 p ++ drop (length (udp_bytes s d 0 p)) out) with (splice out 0 (udp_bytes s d 0 p)) in Hf.
  destruct (quic_cksum_accum _ _ _) as [x|]; [|done]. cbn [mbind option_bind] in *. rewrite Hf. cbn [mbind option_bind].
  pose proof (udp_sum_range src dst (8 + zlen p) (udp_bytes s d 0 p) (udp_bytes_u8 _ _ _ _ Hp)) as Hr.
  rewrite zlen_udp_bytes in Hr. specialize (Hr ltac:(lia)).
  pose proof (ones_sum_range _ (Z.lt_le_incl _ _ (proj1 Hr))) as Ho.
  exists (65535 - ones_sum (word_sum (pseudo_header src dst (8 + zlen p)) + word_sum (udp_bytes s d 0 p))).
  split; [lia|]. split.
  - rewrite udp_set_checksum by lia. done.
  - rewrite udp_bytes_sum by lia. rewrite Z.add_assoc. apply ones_sum_complete. lia.
Qed.

(** A changed byte moves the total off the multiples of 65535. *)
Lemma byte_change_detected S d (i : nat) : S mod 65535 = 0 -> -256 < d < 256 -> d <> 0 ->
  (S + d * (if Nat.even i then 256 else 1)) mod 65535 <> 0.
Proof.
  intros HS Hd Hne He. set (m := if Nat.even i then 256 else 1) in *.
  assert (Hm : m = 256 \/ m = 1) by (unfold m; destruct (Nat.even i); auto).
  rewrite <- Zplus_mod_idemp_l, HS, Z.add_0_l in He. apply Z.mod_divide in He as [k Hk]; [|lia].
  destruct Hm; nia.
Qed.

(** A UDP datagram built by [quic_udp4_build] fills exactly its 8 + payload
    bytes with the RFC 768 header and the payload, verifies with
    [quic_udp4_check] under the same addresses, and fails to verify after any
    change of any single byte of it. *)
Theorem udp4_build_check (out payload : list Z) (cap sport dport src dst : Z)
  (Hp : Forall is_u8 payload) (Hlen : zlen payload <= 65527)
  (Hcap : 8 + zlen payload <= cap <= zlen out) :
  exists ck, let fr := udp_bytes sport dport ck payload in
    quic_udp4_build out cap sport dport src dst payload (zlen payload) =
      Some (8 + zlen payload, splice out 0 fr) /\
    quic_udp4_check (splice out 0 fr) (8 + zlen payload) src dst = Some true /\
    forall (i : nat) x y post, fr !! i = Some x -> is_u8 y -> y <> x ->
      quic_udp4_check (<[i := y]> fr ++ post) (8 + zlen payload) src dst = Some false.
Proof.
  destruct (udp4_build_spec out cap sport dport src dst payload Hp Hlen Hcap) as (ck & _ & Hb & Hs).
  exists ck. intros fr. pose proof (zlen_udp_bytes sport dport ck payload) as Hz. fold fr in Hz, Hs, Hb.
  pose proof (udp_bytes_u8 sport dport ck payload Hp) as Hu. fold fr in Hu. split; [done|]. split.
  - change (splice out 0 fr) with (fr ++ drop (length fr) out). rewrite <- Hz, udp4_check_spec by (done || lia).
    rewrite Hz, Hs. done.
  - intros i x y post Hx Hy Hne. rewrite <- Hz, <- (zlen_insert fr i y).
    rewrite udp4_check_spec by (try (apply Forall_insert; done); rewrite zlen_insert; lia).
    rewrite zlen_insert, Hz, (word_sum_insert fr i x y Hx), Z.add_assoc. f_equal. apply Z.eqb_neq.
    assert (is_u8 x) by (apply (proj1 (Forall_forall _ _) Hu), list_elem_of_In, (list_elem_of_lookup_2 _ _ _ Hx)).
    apply byte_change_detected; [done| |]; unfold is_u8 in *; lia.
Qed.

(** Witness: five payload bytes from 10.0.0.1 to 10.0.0.2. *)
Lemma udp4_build_check_witness :
  exists ck, let fr := udp_bytes 4433 443 ck [1; 2; 3; 4; 5] in
    quic_udp4_build (repeat 0 20) 20 4433 443 167772161 167772162 [1; 2; 3; 4; 5] 5 = Some (13, splice (repeat 0 20) 0 fr) /\
    quic_udp4_check (splice (repeat 0 20) 0 fr) 13 167772161 167772162 = Some true /\
    quic_udp4_check (<[2%nat := 9]> fr ++ []) 13 167772161 167772162 = Some false.
Proof.
  destruct (udp4_build_check (repeat 0 20) [1; 2; 3; 4; 5] 20 4433 443 167772161 167772162) as (ck & H1 & H2 & H3);
    [by apply u8_by_eval|closed_arith|closed_arith|].
  exists ck. split; [exact H1|]. split; [exact H2|].
  apply (H3 2%nat 1 9 []); [done|closed_arith|discriminate].
Defined.

(** ** Where the build goes wrong *)

Lemma copy_loop_none k : forall dst doff src soff, 0 <= doff <= zlen dst -> zlen dst < doff + Z.of_nat k ->
  copy_loop k dst doff src soff = None.
Proof.
  induction k as [|k IH]; intros dst doff src soff Hd Hl; [lia|cbn [copy_loop]].
  destruct (load src soff); [|done]. unfold store. zdecide.
  destruct (Z.ltb_spec doff (zlen dst)); [|done]. cbn [andb]. apply IH; rewrite zlen_insert; lia.
Qed.

Lemma store_zlen (l l' : list Z) i x : store l i x = Some l' -> 0 <= i < zlen l /\ zlen l' = zlen l.
Proof.
  unfold store. destruct (_ && _) eqn:E; [|done]. intros [= <-]. zbool. rewrite zlen_insert. lia.
Qed.

Lemma store_bytes_zlen bs : forall (l l' : list Z) i, store_bytes l i bs = Some l' -> zlen l' = zlen l.
Proof.
  induction bs as [|b bs IH]; intros l l' i; cbn [store_bytes]; [by intros [= <-]|].
  destruct (store l i b) as [l1|] eqn:E; [|done]. intros H%IH. apply store_zlen in E. lia.
Qed.

(** The length field is 16 bits wide and is what the capacity is compared
    with: for a payload of 65528 bytes or more the comparison passes on the
    truncated length, and the copy of the payload runs past the end of the
    caller's buffer whenever that is smaller than the datagram. *)
Theorem udp4_build_overflow (out payload : list Z) (sport dport src dst : Z) :
  65527 < zlen payload -> u16 (8 + zlen payload) <= zlen out < 8 + zlen payload ->
  quic_udp4_build out (zlen out) sport dport src dst payload (zlen payload) = None.
Proof.
  intros Hp Hc. unfold quic_udp4_build, QUIC_UDP_HDR. zdecide.
  set (n := u16 (8 + zlen payload)) in *. assert (put_udp out sport dport n payload (zlen payload) = None) as ->; [|done].
  unfold put_udp. pose proof (zlen_nonneg payload).
  destruct (store_bytes out 0 _) as [o1|] eqn:E1; [|done]. apply store_bytes_zlen in E1. cbn [mbind option_bind].
  destruct (store_bytes o1 2 _) as [o2|] eqn:E2; [|done]. apply store_bytes_zlen in E2. cbn [mbind option_bind].
  destruct (store_bytes o2 4 _) as [o3|] eqn:E3; [|done]. apply store_bytes_zlen in E3. cbn [mbind option_bind].
  destruct (store o3 6 0) as [o4|] eqn:E4; [|done]. apply store_zlen in E4. cbn [mbind option_bind].
  destruct (store o4 7 0) as [o5|] eqn:E5; [|done]. apply store_zlen in E5. cbn [mbind option_bind].
  unfold QUIC_UDP_HDR. apply copy_loop_none; lia.
Qed.

(** RFC 768 sends a computed checksum of zero as all ones, because zero means
    that no checksum was computed; here the zero is sent. *)
Lemma udp4_zero_checksum :
  quic_udp4_build (repeat 0 10) 10 0 0 0 0 [255; 218] 2 = Some (10, [0; 0; 0; 0; 0; 10; 0; 0; 255; 218]).
Proof. vm_compute. reflexivity. Qed.

(** ** The IPv4 header *)

(** RFC 791, no options, the fields the code leaves at zero spelled out. *)
Definition ipv4_bytes (total_len src dst proto ck : Z) : list Z :=
  [0x45; 0] ++ quic_put_be16 total_len ++ [0; 0; 0; 0; 64; proto] ++ quic_put_be16 ck ++
  quic_put_be32 src ++ quic_put_be32 dst.

Lemma cksum_spec bs post : Forall is_u8 bs -> zlen bs <= 65535 ->
  quic_cksum (bs ++ post) (zlen bs) = Some (65535 - ones_sum (word_sum bs)).
Proof.
  intros Hb Hl. unfold quic_cksum. pose proof (word_sum_bound bs Hb).
  rewrite cksum_accum_spec by (done || unfold max_object; lia). rewrite cksum_fold_spec by apply u32_range.
  unfold u32. rewrite Z.add_0_l, Z.mod_small by lia. done.
Qed.

Lemma ipv4_bytes_u8 t s d p c : is_u8 p -> Forall is_u8 (ipv4_bytes t s d p c).
Proof.
  intros Hp. unfold ipv4_bytes. rewrite !Forall_app, put_be32_bytes, !put_be16_bytes.
  assert (Forall is_u8 (be_bytes 4 s) /\ Forall is_u8 (quic_put_be32 d)) as [? ?]
    by (rewrite put_be32_bytes; auto using be_bytes_u8).
  repeat (apply conj); auto using be_bytes_u8; repeat (apply Forall_cons; [done|]); constructor.
Qed.

Lemma ipv4_bytes_sum t s d p c : 0 <= c < 65536 ->
  word_sum (ipv4_bytes t s d p c) = word_sum (ipv4_bytes t s d p 0) + c.
Proof.
  intros Hc. unfold ipv4_bytes. rewrite !word_sum_app by done. cbn [quic_put_be16 word_sum].
  assert (He : u8 (Z.shiftr c 8) * 256 + u8 c = c).
  { unfold u8. rewrite shiftr_8, (Z.mod_small (c / 256)) by (split; [apply Z.div_pos|apply Z.div_lt_upper_bound]; lia).
    pose proof (Z.div_mod c 256). lia. }
  change (u8 (Z.shiftr 0 8)) with 0. change (u8 0) with 0. lia.
Qed.

Lemma fill_loop_spec k : forall dst i c, 0 <= i -> i + Z.of_nat k <= zlen dst ->
  fill_loop k dst i c = Some (splice dst i (repeat (u8 c) k)).
Proof.
  induction k as [|k IH]; intros dst i c Hi Hl; cbn [fill_loop repeat]; [by rewrite splice_nil|].
  rewrite store_ok by lia. rewrite IH by (rewrite ?zlen_insert; lia). f_equal. apply splice_cons; [lia|].
  unfold zlen in *. rewrite repeat_length. lia.
Qed.

(** A store, or a run of stores, into the first 20 bytes of [w ++ r]. *)
Lemma store_in_front (w r : list Z) i x : 0 <= i < zlen w -> store (w ++ r) i x = Some (<[Z.to_nat i := x]> w ++ r).
Proof.
  intros Hi. pose proof (zlen_nonneg r). rewrite store_ok by (rewrite zlen_app; lia).
  rewrite insert_app_l by (unfold zlen in *; lia). done.
Qed.

Lemma store_bytes_in_front bs (r : list Z) : forall w i, 0 <= i -> i + zlen bs <= zlen w ->
  store_bytes (w ++ r) i bs = Some (splice w i bs ++ r).
Proof.
  induction bs as [|b bs IH]; intros w i Hi Hl; cbn [store_bytes]; [by rewrite splice_nil|].
  rewrite zlen_cons in Hl. pose proof (zlen_nonneg bs). rewrite store_in_front by lia.
  rewrite IH by (rewrite ?zlen_insert; lia). rewrite splice_cons by lia. done.
Qed.

(** Two explicit byte lists over the same opaque bytes. *)
Ltac same_bytes :=
  unfold ipv4_bytes, quic_put_be16, quic_put_be32;
  change (u8 (Z.shiftr 0 8)) with 0; change (u8 0) with 0;
  repeat match goal with |- context [u8 ?x] => generalize (u8 x); intro end; reflexivity.

(** The next store of a sequence into a 20-byte front whose length is known. *)
Ltac front_store :=
  rewrite ?bind_some;
  lazymatch goal with
  | L : zlen ?w = 20 |- context [store (?w ++ ?r) ?i ?x] =>
      rewrite (store_in_front w r i x) by lia;
      pose proof (eq_trans (zlen_insert w (Z.to_nat i) x) L); clear L
  | L : zlen ?w = 20 |- context [store_bytes (?w ++ ?r) ?i ?bs] =>
      let n := eval lazy in (zlen bs) in pose proof (eq_refl : zlen bs = n);
      rewrite (store_bytes_in_front bs r w i) by lia;
      pose proof (eq_trans (zlen_splice w bs i ltac:(lia) ltac:(lia)) L); clear L
  end.

Lemma splice_front (l bs : list Z) k : length bs = k -> splice l 0 bs = bs ++ drop k l.
Proof. by intros <-. Qed.

Lemma ipv4_front t s d p :
  splice (splice (<[Z.to_nat 9 := p]> (<[Z.to_nat 8 := 64]> (splice (<[Z.to_nat 0 := 69]> (repeat 0 20)) 2
    (quic_put_be16 t)))) 12 (quic_put_be32 s)) 16 (quic_put_be32 d) = ipv4_bytes t s d p 0.
Proof. same_bytes. Qed.

Lemma ipv4_set_checksum t s d p ck : splice (ipv4_bytes t s d p 0) 10 (quic_put_be16 ck) = ipv4_bytes t s d p ck.
Proof. same_bytes. Qed.

Lemma ipv4_build_bytes out t s d p ck : 20 <= zlen out ->
  quic_cksum (ipv4_bytes t s d p 0 ++ drop 20 out) 20 = Some ck ->
  quic_ipv4_build out t s d p = Some (20, splice out 0 (ipv4_bytes t s d p ck)).
Proof.
  intros Hout Hc. unfold quic_ipv4_build, QUIC_IPV4_HDR.
  rewrite fill_loop_spec by lia. rewrite (splice_front out (repeat (u8 0) (Z.to_nat 20)) 20) by done.
  change (repeat (u8 0) (Z.to_nat 20)) with (repeat 0 20).
  pose proof (eq_refl : zlen (repeat 0 20) = 20) as L0. rewrite ?bind_some.
  do 6 front_store. rewrite ?bind_some.
  rewrite ipv4_front, Hc. rewrite ?bind_some.
  rewrite store_bytes_in_front by (change (zlen (ipv4_bytes t s d p 0)) with 20; change (zlen (quic_put_be16 ck)) with 2; lia).
  rewrite ipv4_set_checksum, (splice_front out (ipv4_bytes t s d p ck) 20) by done. by rewrite bind_some.
Qed.

(** An IPv4 header built by [quic_ipv4_build] is the RFC 791 header of the
    given length, addresses and protocol, fills exactly 20 bytes, verifies with
    [quic_ipv4_check], and fails to verify after any change of any single byte. *)
Theorem ipv4_build_check (out : list Z) (total_len src dst proto : Z)
  (Hout : 20 <= zlen out) (Hproto : is_u8 proto) :
  exists ck, let hdr := ipv4_bytes total_len src dst proto ck in
    quic_ipv4_build out total_len src dst proto = Some (20, splice out 0 hdr) /\
    quic_ipv4_check (splice out 0 hdr) = Some true /\
    forall (i : nat) x y post, hdr !! i = Some x -> is_u8 y -> y <> x ->
      quic_ipv4_check (<[i := y]> hdr ++ post) = Some false.
Proof.
  set (h0 := ipv4_bytes total_len src dst proto 0). set (ck := 65535 - ones_sum (word_sum h0)).
  pose proof (word_sum_bound h0 (ipv4_bytes_u8 total_len src dst proto 0 Hproto)) as [Hs0 Hs1].
  change (zlen h0) with 20 in Hs1.
  assert (Hck : 0 <= ck < 65536) by (pose proof (ones_sum_range (word_sum h0) Hs0); unfold ck; lia).
  exists ck. intros hdr. pose proof (ipv4_bytes_u8 total_len src dst proto ck Hproto) as Hu. fold hdr in Hu.
  assert (Hsum : word_sum hdr mod 65535 = 0).
  { unfold hdr. rewrite ipv4_bytes_sum by done. by apply ones_sum_complete. }
  assert (Hpos : 17664 <= word_sum hdr).
  { unfold hdr, ipv4_bytes. rewrite word_sum_app by done. cbn [word_sum].
    match goal with |- context [word_sum ?r] => assert (Forall is_u8 r) as Hr end.
    { unfold hdr, ipv4_bytes in Hu. by apply Forall_app in Hu as [_ ?]. }
    apply word_sum_bound in Hr. lia. }
  assert (Hchk : forall bs post, Forall is_u8 bs -> zlen bs = 20 -> 0 < word_sum bs ->
    quic_ipv4_check (bs ++ post) = Some (word_sum bs mod 65535 =? 0)).
  { intros bs post Hb Hl Hp. unfold quic_ipv4_check, QUIC_IPV4_HDR. rewrite <- Hl, cksum_spec by (done || lia).
    f_equal. apply Bool.eq_true_iff_eq. rewrite !Z.eqb_eq. by apply ones_sum_full. }
  split; [|split].
  - apply ipv4_build_bytes; [done|]. unfold ck. rewrite <- cksum_spec with (post := drop 20 out);
      [done|by apply ipv4_bytes_u8|]. change (zlen h0) with 20. lia.
  - change (splice out 0 hdr) with (hdr ++ drop (length hdr) out). rewrite Hchk by (done || lia). by rewrite Hsum.
  - intros i x y post Hx Hy Hne. pose proof (word_sum_insert hdr i x y Hx) as Hi.
    assert (is_u8 x) by (apply (proj1 (Forall_forall _ _) Hu), list_elem_of_In, (list_elem_of_lookup_2 _ _ _ Hx)).
    pose proof (byte_change_detected (word_sum hdr) (y - x) i Hsum) as Hd. unfold is_u8 in *.
    rewrite Hchk; [|apply Forall_insert; done|by rewrite zlen_insert| ].
    + rewrite Hi. f_equal. apply Z.eqb_neq. apply Hd; lia.
    + assert (Forall is_u8 (<[i:=y]> hdr)) as Hui by (apply Forall_insert; done).
      apply word_sum_bound in Hui. assert (word_sum (<[i := y]> hdr) <> 0); [|lia].
      intros He. rewrite He in Hi. rewrite <- Hi in Hd. by apply Hd; [lia..|].
Qed.

(** Witness: a UDP header from 10.0.0.1 to 10.0.0.2. *)
Lemma ipv4_build_check_witness :
  exists ck, let hdr := ipv4_bytes 48 167772161 167772162 17 ck in
    quic_ipv4_build (repeat 9 24) 48 167772161 167772162 17 = Some (20, splice (repeat 9 24) 0 hdr) /\
    quic_ipv4_check (splice (repeat 9 24) 0 hdr) = Some true.
Proof.
  destruct (ipv4_build_check (repeat 9 24) 48 167772161 167772162 17) as (ck & H1 & H2 & _);
    [closed_arith|closed_arith|by exists ck].
Defined.

(** ** Addresses *)

Lemma octets_value a b c d : is_u8 a -> is_u8 b -> is_u8 c -> is_u8 d ->
  quic_addr_from_octets a b c d = ((a * 256 + b) * 256 + c) * 256 + d.
Proof.
  unfold is_u8, quic_addr_from_octets, u32. intros Ha Hb Hc Hd.
  rewrite !Z.shiftl_mul_pow2 by lia. rewrite !Z.mod_small by lia.
  rewrite (lor_low a _ 24) by lia.
  replace (a * 2 ^ 24 + b * 2 ^ 16) with ((a * 256 + b) * 2 ^ 16) by lia. rewrite (lor_low _ _ 16) by lia.
  replace ((a * 256 + b) * 2 ^ 16 + c * 2 ^ 8) with (((a * 256 + b) * 256 + c) * 2 ^ 8) by lia.
  rewrite (lor_low _ _ 8) by lia. lia.
Qed.

(** One byte of a value, in place. *)
Lemma land_byte x k : 0 <= k -> Z.land x (Z.shiftl 255 k) = ((x / 2 ^ k) mod 256) * 2 ^ k.
Proof.
  intros Hk. change 256 with (2 ^ 8). rewrite <- Z.shiftr_div_pow2, <- Z.land_ones, <- Z.shiftl_mul_pow2 by lia.
  apply Z.bits_inj'. intros n Hn. rewrite Z.land_spec, !Z.shiftl_spec, Z.land_spec by lia.
  change (Z.ones 8) with 255. destruct (Z.le_gt_cases k n).
  - rewrite Z.shiftr_spec by lia. by replace (n - k + k) with n by lia.
  - rewrite !(Z.testbit_neg_r _ (n - k)) by lia. by rewrite andb_false_r.
Qed.

Lemma div_octets a b k : 0 < k -> 0 <= b < k -> (a * k + b) / k = a.
Proof. intros. rewrite Z.div_add_l, (Z.div_small b) by lia. lia. Qed.

(** Swapping the bytes of a value. *)
Lemma hton32_octets a b c d : is_u8 a -> is_u8 b -> is_u8 c -> is_u8 d ->
  hton32 (((a * 256 + b) * 256 + c) * 256 + d) = ((d * 256 + c) * 256 + b) * 256 + a.
Proof.
  unfold is_u8. intros Ha Hb Hc Hd. set (v := ((a * 256 + b) * 256 + c) * 256 + d). unfold hton32.
  change 0xff000000 with (Z.shiftl 255 24). change 0xff0000 with (Z.shiftl 255 16).
  change 0xff00 with (Z.shiftl 255 8). change 0xff with (Z.shiftl 255 0). rewrite !land_byte by lia.
  rewrite !Z.shiftr_div_pow2, !Z.shiftl_mul_pow2, !Z.div_div by lia. rewrite <- !Z.pow_add_r by lia.
  assert (E1 : v / 2 ^ (24 + 0) mod 256 = a).
  { replace v with (a * 2 ^ (24 + 0) + ((b * 256 + c) * 256 + d)) by (unfold v; lia).
    rewrite div_octets, Z.mod_small; lia. }
  assert (E2 : v / 2 ^ (8 + 8) mod 256 = b).
  { replace v with ((a * 256 + b) * 2 ^ (8 + 8) + (c * 256 + d)) by (unfold v; lia).
    rewrite div_octets by lia. rewrite Z.add_comm, Z.mod_add, Z.mod_small; lia. }
  assert (E3 : u32 (v * 2 ^ 8) / 2 ^ 16 mod 256 = c).
  { unfold u32. replace (v * 2 ^ 8) with ((b * 16777216 + c * 65536 + d * 256) + a * 4294967296) by (unfold v; lia).
    rewrite Z.mod_add, (Z.mod_small _ 4294967296) by lia.
    replace (b * 16777216 + c * 65536 + d * 256) with ((b * 256 + c) * 2 ^ 16 + d * 256) by lia.
    rewrite div_octets by lia. rewrite Z.add_comm, Z.mod_add, Z.mod_small; lia. }
  assert (E4 : u32 (v * 2 ^ 24) / 2 ^ 24 mod 256 = d).
  { unfold u32. replace (v * 2 ^ 24) with (d * 16777216 + ((a * 256 + b) * 256 + c) * 4294967296) by (unfold v; lia).
    rewrite Z.mod_add, (Z.mod_small _ 4294967296) by lia. change (2 ^ 24) with 16777216. rewrite Z.div_mul, Z.mod_small; lia. }
  rewrite E1, E2, E3, E4.
  rewrite (Z.lor_comm (a * 2 ^ 0)), (lor_low b) by lia. rewrite Z.lor_comm, (Z.lor_comm _ (c * 2 ^ 16)).
  rewrite (lor_low c) by lia. rewrite (lor_low d) by lia. lia.
Qed.

Lemma hton16_octets h l : is_u8 h -> is_u8 l -> hton16 (h * 256 + l) = l * 256 + h.
Proof.
  unfold is_u8, hton16, u16. intros Hh Hl. rewrite Z.shiftr_div_pow2, Z.shiftl_mul_pow2 by lia.
  rewrite (div_octets h l) by lia. rewrite Z.lor_comm, lor_low by lia.
  replace ((h * 256 + l) * 2 ^ 8 + h) with ((l * 256 + h) + h * 65536) by lia.
  rewrite Z.mod_add, Z.mod_small; lia.
Qed.

(** Packing and unpacking an address are inverse. *)
Lemma addr_octets_roundtrip a b c d : is_u8 a -> is_u8 b -> is_u8 c -> is_u8 d ->
  quic_addr_to_octets (quic_addr_from_octets a b c d) = [a; b; c; d].
Proof.
  intros Ha Hb Hc Hd. rewrite octets_value by done. change (quic_addr_to_octets ?v) with (quic_put_be32 v).
  rewrite put_be32_bytes.
  replace (((a * 256 + b) * 256 + c) * 256 + d) with (be_value [a; b; c; d]) by (cbn; lia).
  apply (be_bytes_be_value [a; b; c; d]). by rewrite !Forall_cons_iff.
Qed.

(** The little-endian bytes a field of the socket address occupies in memory. *)
Definition mem16 (v : Z) : list Z := [v mod 256; v / 256].
Definition mem32 (v : Z) : list Z := [v mod 256; v / 256 mod 256; v / 65536 mod 256; v / 16777216].

(** The socket address handed to the kernel holds the port and the address in
    network byte order. *)
Lemma udp_addr_network_order port a b c d :
  0 <= port < 65536 -> is_u8 a -> is_u8 b -> is_u8 c -> is_u8 d ->
  let sa := quic_udp_addr port a b c d in
  mem16 (sa_port_be sa) = be_bytes 2 port /\ mem32 (sa_addr_be sa) = [a; b; c; d].
Proof.
  intros Hp Ha Hb Hc Hd. unfold quic_udp_addr. cbn [sa_port_be sa_addr_be].
  change (Z.lor _ d) with (quic_addr_from_octets a b c d). rewrite octets_value, hton32_octets by done.
  pose proof (Z.div_mod port 256 ltac:(lia)) as Hdm. pose proof (Z.mod_pos_bound port 256 ltac:(lia)).
  assert (0 <= port / 256 < 256) by (split; [apply Z.div_pos|apply Z.div_lt_upper_bound]; lia).
  rewrite (Z.mul_comm 256) in Hdm. split.
  - rewrite Hdm at 1. rewrite hton16_octets by done. unfold mem16. cbn [be_bytes app].
    rewrite (Z.mod_small (port / 256)) by done. rewrite div_octets by lia.
    rewrite Z.add_comm, Z.mod_add, Z.mod_small by lia. done.
  - unfold mem32, is_u8 in *. rewrite (div_octets _ a) by lia.
    replace (((d * 256 + c) * 256 + b) * 256 + a) with ((d * 256 + c) * 65536 + (b * 256 + a)) at 2 by lia.
    replace (((d * 256 + c) * 256 + b) * 256 + a) with (d * 16777216 + (c * 65536 + b * 256 + a)) at 2 by lia.
    rewrite !div_octets by lia. rewrite (Z.add_comm _ a), (Z.add_comm _ b), (Z.add_comm _ c), !Z.mod_add, !Z.mod_small by lia.
    done.
Qed.
