(* ===== verification/KeySched.v ===== *)
(** The TLS 1.3 key schedule and the QUIC key update.

    [tls/handshake/core/tls/schedule.c], [master.c], [appkeys.c], [finished.c],
    [transcript.c] and [transcript_stage.c]; the staged driver
    [tls/keys/schedule_drive/keyschedule.c]; the key update of [tls/keys/keyupdate],
    [kuswitch] and [kudrive].  The references are RFC 8446 section 7.1 and RFC 9001
    sections 5.1 and 6 over the HKDF of [Hkdf]. *)
From Stdlib Require Import Ascii String.
From S2P Require Import Prelude.
From S2P Require Import Buffers.
From S2P Require Import CStrings.
From S2P Require Import Sha2.
From S2P Require Import Hkdf.
From S2P Require Import Suite.
From S2P Require Import Protect.

(** * schedule.c, master.c, appkeys.c *)

Definition quic_tls_derive_secret (secret label : list Z) (label_len : Z) (messages : list Z) (messages_len : Z)
  : option (list Z) :=
  thash ← hash256 messages messages_len;
  '(_, out) ← quic_hkdf_expand_label secret label label_len thash QUIC_SHA256_DIGEST (local QUIC_HKDF_PRK) QUIC_HKDF_PRK;
  Some out.

Definition quic_tls_handshake_secret (ecdhe : list Z) : option (list Z) :=
  let zero := local QUIC_HKDF_PRK in
  early ← quic_hkdf_extract zero QUIC_HKDF_PRK zero QUIC_HKDF_PRK;
  derived ← quic_tls_derive_secret early (c_bytes "derived") 7 zero 0;
  quic_hkdf_extract derived QUIC_HKDF_PRK ecdhe 32.

Definition hs_field (secret label : list Z) (label_len : Z) (out : list Z) (len : Z) : option (list Z) :=
  '(_, out') ← quic_hkdf_expand_label secret label label_len [] 0 out len; Some out'.

Definition protection_keys (ts : list Z) (out : quic_initial_keys) : option quic_initial_keys :=
  k ← hs_field ts quic_key_label 8 (ik_key out) QUIC_INITIAL_KEY;
  v ← hs_field ts quic_iv_label 7 (ik_iv out) QUIC_INITIAL_IV;
  h ← hs_field ts quic_hp_label 7 (ik_hp out) QUIC_INITIAL_HP;
  Some (mk_ikeys k v h).

Definition quic_tls_handshake_keys (hs_secret transcript : list Z) (transcript_len : Z) (is_server : bool)
    (out : quic_initial_keys) : option quic_initial_keys :=
  let label := if is_server then c_bytes "s hs traffic" else c_bytes "c hs traffic" in
  ts ← quic_tls_derive_secret hs_secret label 12 transcript transcript_len;
  protection_keys ts out.

Definition quic_tls_early_keys (psk client_hello : list Z) (client_hello_len : Z) (out : quic_initial_keys)
  : option quic_initial_keys :=
  let zero := local QUIC_HKDF_PRK in
  early ← quic_hkdf_extract zero QUIC_HKDF_PRK psk QUIC_HKDF_PRK;
  ts ← quic_tls_derive_secret early (c_bytes "c e traffic") 11 client_hello client_hello_len;
  protection_keys ts out.

Definition quic_tls_master_secret (hs_secret : list Z) : option (list Z) :=
  let zero := local QUIC_HKDF_PRK in
  derived ← quic_tls_derive_secret hs_secret (c_bytes "derived") 7 zero 0;
  quic_hkdf_extract derived QUIC_HKDF_PRK zero QUIC_HKDF_PRK.

Definition quic_tls_app_keys (master transcript : list Z) (tlen : Z) (is_server : bool) (out : quic_initial_keys)
  : option quic_initial_keys :=
  let label := if is_server then c_bytes "s ap traffic" else c_bytes "c ap traffic" in
  ts ← quic_tls_derive_secret master label 12 transcript tlen;
  k ← hs_field ts quic_key_label 8 (ik_key out) QUIC_INITIAL_KEY;
  v ← hs_field ts quic_iv_label 7 (ik_iv out) QUIC_INITIAL_IV;
  h ← hs_field ts quic_hp_label 7 (ik_hp out) QUIC_INITIAL_HP;
  Some (mk_ikeys k v h).

(** * finished.c *)

Definition quic_tls_finished_verify_data (base_key transcript_hash : list Z) : option (list Z) :=
  '(_, finished_key) ← quic_hkdf_expand_label base_key (c_bytes "finished") 8 [] 0 (local QUIC_SHA256_DIGEST) QUIC_SHA256_DIGEST;
  quic_hmac_sha256 finished_key QUIC_SHA256_DIGEST transcript_hash QUIC_SHA256_DIGEST.

Definition digest_diff (a b : list Z) : Z := ct_diff_loop 0 (take 32 a) (take 32 b).

Definition quic_tls_finished_check (base_key transcript_hash received : list Z) : option bool :=
  want ← quic_tls_finished_verify_data base_key transcript_hash;
  Some (digest_diff want received =? 0).

(** * transcript.c, transcript_stage.c *)

Record quic_transcript := mk_transcript { tr_h : sha_ctx }.

Definition quic_transcript_init (buf0 : list Z) : quic_transcript := mk_transcript (quic_sha256_init buf0).
Definition quic_transcript_add (t : quic_transcript) (msg : list Z) (len : Z) : option quic_transcript :=
  h ← quic_sha256_update (tr_h t) msg len; Some (mk_transcript h).
(** A copy is finalised; [t] is not changed. *)
Definition quic_transcript_hash (t : quic_transcript) : option (list Z) := quic_sha256_final (tr_h t).
Definition quic_transcript_ch_sh := quic_transcript_hash.
Definition quic_transcript_ch_sfin := quic_transcript_hash.

(** * keyschedule.c *)

Definition QUIC_KS_CLIENT_HS : Z := 0.
Definition QUIC_KS_SERVER_HS : Z := 1.
Definition QUIC_KS_CLIENT_AP : Z := 2.
Definition QUIC_KS_SERVER_AP : Z := 3.

Record quic_keysched := mk_keysched { ks_stage : Z; ks_master : list Z; ks_keys : list quic_initial_keys }.

Definition quic_keysched_init (st : quic_keysched) : quic_keysched := mk_keysched 0 (ks_master st) (ks_keys st).

Definition ecdhe_ok (stage ecdhe_len : Z) : bool := (stage =? 0) && (ecdhe_len =? 32).

(** The keys are written into [st->keys[i]]. *)
Definition set_keys (keys : list quic_initial_keys) (i : Z)
    (derive : quic_initial_keys -> option quic_initial_keys) : option (list quic_initial_keys) :=
  k ← load keys i; k' ← derive k; store keys i k'.

Definition quic_keysched_advance_handshake (st : quic_keysched) (ecdhe : list Z) (ecdhe_len : Z)
    (transcript : list Z) (transcript_len : Z) : option (bool * quic_keysched) :=
  if negb (ecdhe_ok (ks_stage st) ecdhe_len) then Some (false, st)
  else
    hs ← quic_tls_handshake_secret ecdhe;
    k1 ← set_keys (ks_keys st) QUIC_KS_CLIENT_HS (quic_tls_handshake_keys hs transcript transcript_len false);
    k2 ← set_keys k1 QUIC_KS_SERVER_HS (quic_tls_handshake_keys hs transcript transcript_len true);
    master ← quic_tls_master_secret hs;
    Some (true, mk_keysched 1 master k2).

Definition quic_keysched_advance_master (st : quic_keysched) (transcript : list Z) (transcript_len : Z)
  : option (bool * quic_keysched) :=
  if negb (ks_stage st =? 1) then Some (false, st)
  else
    k1 ← set_keys (ks_keys st) QUIC_KS_CLIENT_AP (quic_tls_app_keys (ks_master st) transcript transcript_len false);
    k2 ← set_keys k1 QUIC_KS_SERVER_AP (quic_tls_app_keys (ks_master st) transcript transcript_len true);
    Some (true, mk_keysched 2 (ks_master st) k2).

Definition have (stage which : Z) : bool := if which <=? QUIC_KS_SERVER_HS then 1 <=? stage else 2 <=? stage.

Definition quic_keysched_get (st : quic_keysched) (which : Z) : option (option quic_initial_keys) :=
  if negb (have (ks_stage st) which) then Some None
  else k ← load (ks_keys st) which; Some (Some k).

(** * keyupdate: keyupdate.c, keyphase.c, kuderive.c, aeadlimit.c, initiate.c, oldkey.c *)

Record quic_keyupdate := mk_ku { ku_gen : Z; ku_lowest : Z; ku_updating : bool }.

Definition quic_keyupdate_init : quic_keyupdate := mk_ku 0 0 false.
Definition quic_keyupdate_phase (k : quic_keyupdate) : Z := u8 (Z.land (ku_gen k) 1).
Definition advance (k : quic_keyupdate) : quic_keyupdate :=
  let gen := ku_gen k +w 1 in mk_ku gen (gen -w 1) (ku_updating k).
Definition quic_keyupdate_initiate (k : quic_keyupdate) : bool * quic_keyupdate :=
  if ku_updating k then (false, k)
  else let k' := advance k in (true, mk_ku (ku_gen k') (ku_lowest k') true).
Definition quic_keyupdate_acked (k : quic_keyupdate) : quic_keyupdate := mk_ku (ku_gen k) (ku_lowest k) false.
Definition quic_keyupdate_follow (k : quic_keyupdate) : bool * quic_keyupdate :=
  if ku_updating k then (false, k) else (true, advance k).
Definition quic_keyupdate_can_decrypt (k : quic_keyupdate) (g : Z) : bool :=
  (ku_lowest k <=? g) && (g <=? ku_gen k +w 1).

Definition QUIC_KEYPHASE_MASK : Z := 0x04.
Definition quic_keyphase_bit (generation : Z) : Z := u8 (Z.land generation 1).
Definition quic_keyphase_get (byte0 : Z) : Z := Z.land (Z.shiftr byte0 2) 1.
Definition quic_keyphase_set (byte0 phase : Z) : Z :=
  u8 (Z.lor (Z.land byte0 (Z.lnot QUIC_KEYPHASE_MASK)) (Z.shiftl (Z.land phase 1) 2)).

Definition quic_ku_label : list Z := c_bytes "quic ku".
Definition quic_ku_next_secret (cur next : list Z) : option (list Z) :=
  '(_, out) ← quic_hkdf_expand_label cur quic_ku_label 7 [] 0 next 32; Some out.

Definition QUIC_AEAD_LIMIT_AESGCM : Z := 8388608.
Definition QUIC_AEAD_LIMIT_CHACHA : Z := 4611686018427387904.
Definition quic_aead_needs_update (packets_encrypted : Z) (is_chacha : bool) : bool :=
  (if is_chacha then QUIC_AEAD_LIMIT_CHACHA else QUIC_AEAD_LIMIT_AESGCM) <=? packets_encrypted.

Definition quic_keyupdate_may_initiate (handshake_confirmed : bool) (last_update now pto : Z) : bool :=
  handshake_confirmed && (last_update +w (3 *w pto) <=? now).
Definition quic_oldkey_retain (update_time now pto : Z) : bool := now <? update_time +w (3 *w pto).
Definition quic_oldkey_can_discard (update_time now pto : Z) : bool := negb (quic_oldkey_retain update_time now pto).

(** * kudrive *)

Definition retention_elapsed (now mark pto : Z) : bool := mark +w (3 *w pto) <=? now.
Definition quic_kudrive_can_discard_old (now update_completed_at pto : Z) : bool := retention_elapsed now update_completed_at pto.
Definition quic_kudrive_can_initiate_again (now last_update_at pto : Z) : bool := retention_elapsed now last_update_at pto.
Definition quic_kudrive_key_generation (recv_phase_bit current_phase_bit update_in_progress : Z) : bool :=
  negb (recv_phase_bit =? current_phase_bit).
Definition at_limit (sent threshold : Z) (confirmed : bool) : bool := confirmed && (threshold <=? sent).
Definition quic_kudrive_should_initiate (packets_sent_in_phase update_threshold : Z) (handshake_confirmed : bool) : bool :=
  at_limit packets_sent_in_phase update_threshold handshake_confirmed.

(** * kuswitch: derive.c, phasebit.c, twogen.c *)

Definition quic_kuswitch_next_keys (current_secret : list Z) (next_keys : quic_initial_keys) (next_secret : list Z)
  : option (quic_initial_keys * list Z) :=
  next_secret ← quic_ku_next_secret current_secret next_secret;
  k ← hs_field next_secret quic_key_label 8 (ik_key next_keys) QUIC_INITIAL_KEY;
  v ← hs_field next_secret quic_iv_label 7 (ik_iv next_keys) QUIC_INITIAL_IV;
  Some (mk_ikeys k v (ik_hp next_keys), next_secret).

Definition quic_kuswitch_phase_bit (generation : Z) : Z := quic_keyphase_bit generation.
Definition quic_kuswitch_apply_phase (byte0 generation : Z) : Z := quic_keyphase_set byte0 (quic_keyphase_bit generation).

Record quic_kuswitch_state := mk_kuswitch {
  kw_cur : quic_initial_keys; kw_old : quic_initial_keys; kw_generation : Z; kw_have_old : bool }.

Definition quic_kuswitch_init (state : quic_kuswitch_state) (gen0 : quic_initial_keys) : quic_kuswitch_state :=
  mk_kuswitch gen0 (kw_old state) 0 false.
Definition quic_kuswitch_rotate (state : quic_kuswitch_state) (next : quic_initial_keys) : quic_kuswitch_state :=
  mk_kuswitch next (kw_cur state) (kw_generation state +w 1) true.
Definition wants_current (state : quic_kuswitch_state) (recv_phase_bit : Z) : bool :=
  recv_phase_bit =? quic_keyphase_bit (kw_generation state).
Definition quic_kuswitch_key_for_phase (state : quic_kuswitch_state) (recv_phase_bit : Z) : option quic_initial_keys :=
  if wants_current state recv_phase_bit then Some (kw_cur state)
  else if negb (kw_have_old state) then None
  else Some (kw_old state).
Definition quic_kuswitch_discard_old (state : quic_kuswitch_state) : quic_kuswitch_state :=
  mk_kuswitch (kw_cur state) (kw_old state) (kw_generation state) false.

(** * RFC 8446 section 7.1 *)

Definition derive_spec (secret label messages : list Z) : list Z :=
  hkdf_okm secret (hkdf_label label (sha256_spec messages) 32) 32.

Definition early_secret (psk : list Z) : list Z := hmac_spec (local 32) psk.
Definition handshake_secret (ecdhe : list Z) : list Z :=
  hmac_spec (derive_spec (early_secret (local 32)) (c_bytes "derived") []) ecdhe.
Definition master_secret (hs : list Z) : list Z := hmac_spec (derive_spec hs (c_bytes "derived") []) (local 32).

(** RFC 9001 section 5.1. *)
Definition traffic_keys (ts : list Z) : quic_initial_keys :=
  mk_ikeys (expand_field ts quic_key_label 16) (expand_field ts quic_iv_label 12) (expand_field ts quic_hp_label 16).

Definition hs_keys_spec (hs transcript : list Z) (is_server : bool) : quic_initial_keys :=
  traffic_keys (derive_spec hs (if is_server then c_bytes "s hs traffic" else c_bytes "c hs traffic") transcript).
Definition ap_keys_spec (hs transcript : list Z) (is_server : bool) : quic_initial_keys :=
  traffic_keys (derive_spec (master_secret hs) (if is_server then c_bytes "s ap traffic" else c_bytes "c ap traffic") transcript).

Lemma zlen_derive_spec secret label messages : zlen (derive_spec secret label messages) = 32.
Proof. apply zlen_hkdf_okm. lia. Qed.

Lemma zlen_handshake_secret ecdhe : zlen (handshake_secret ecdhe) = 32.
Proof. unfold handshake_secret. apply zlen_hmac_spec. Qed.
Lemma zlen_master_secret hs : zlen (master_secret hs) = 32.
Proof. unfold master_secret. apply zlen_hmac_spec. Qed.

Lemma keys_wf_traffic ts : keys_wf (traffic_keys ts).
Proof. unfold keys_wf, traffic_keys, expand_field. cbn [ik_key ik_iv ik_hp]. rewrite !zlen_hkdf_okm by lia. done. Qed.

(** The digest of the first [n] bytes. *)
Lemma hash256_front data n : 0 <= n <= zlen data -> n < 1152921504606846976 ->
  hash256 data n = Some (sha256_spec (take (Z.to_nat n) data)).
Proof.
  intros Hn Hz. unfold hash256, quic_sha256, quic_sha256_update, quic_sha256_init, quic_sha256_final. change QUIC_SHA256_BLOCK with 64.
  destruct (update_spec 64 compress 8 H0 ltac:(lia) ltac:(lia) _ data n [] (absorbed_init 64 compress H0 ltac:(lia) (local 64) eq_refl))
    as (s1 & He1 & Ha1); [lia|unfold max_object; lia|]. change ([] ++ take (Z.to_nat n) data) with (take (Z.to_nat n) data) in Ha1.
  rewrite He1, bind_some. rewrite (final_spec 64 compress 8 H0 ltac:(lia) ltac:(lia) s1 _ Ha1); [exact eq_refl|].
  rewrite zlen_take by lia. change (2 ^ 64) with 18446744073709551616. lia.
Qed.

Lemma hash256_all data : zlen data < 1152921504606846976 -> hash256 data (zlen data) = Some (sha256_spec data).
Proof. intros Hz. pose proof (zlen_nonneg data). rewrite hash256_front by lia. unfold zlen. by rewrite Nat2Z.id, firstn_all. Qed.

(** A label expanded over a 32-byte context. *)
Lemma derive_expand secret label ll h : ll = zlen label -> zlen secret = 32 -> ll <= 64 -> zlen h = 32 ->
  ('(_, out) ← quic_hkdf_expand_label secret label ll h QUIC_SHA256_DIGEST (local QUIC_HKDF_PRK) QUIC_HKDF_PRK; Some out) =
  Some (hkdf_okm secret (hkdf_label label h 32) 32).
Proof.
  intros -> Hs Hl Hh. unfold QUIC_SHA256_DIGEST, QUIC_HKDF_PRK.
  pose proof (expand_label_ok secret label h (local 32) 32 Hs Hl ltac:(lia) ltac:(lia)) as He. rewrite Hh in He.
  rewrite He by closed_arith. rewrite bind_some. f_equal.
  pose proof (zlen_hkdf_okm secret (hkdf_label label h 32) 32 ltac:(lia)) as Hz.
  generalize dependent (hkdf_okm secret (hkdf_label label h 32) 32). intros l _ Hz.
  rewrite splice_tail by (rewrite Hz; closed_arith). rewrite drop_ge by (change (length (local 32)) with 32%nat; unfold zlen in Hz; lia).
  by rewrite app_nil_r.
Qed.

Lemma derive_secret_front secret label ll messages n : ll = zlen label -> zlen secret = 32 -> ll <= 64 ->
  0 <= n <= zlen messages -> n < 1152921504606846976 ->
  quic_tls_derive_secret secret label ll messages n = Some (derive_spec secret label (take (Z.to_nat n) messages)).
Proof.
  intros Hl Hs Hb Hn Hz. unfold quic_tls_derive_secret. rewrite hash256_front, bind_some by done.
  by apply derive_expand; [done..|apply zlen_sha256_spec].
Qed.

Lemma derive_secret_spec secret label ll messages : ll = zlen label -> zlen secret = 32 -> ll <= 64 ->
  zlen messages < 1152921504606846976 ->
  quic_tls_derive_secret secret label ll messages (zlen messages) = Some (derive_spec secret label messages).
Proof.
  intros. pose proof (zlen_nonneg messages). rewrite derive_secret_front by (done || lia).
  unfold zlen. by rewrite Nat2Z.id, firstn_all.
Qed.

(** An extraction from 32-byte inputs. *)
Lemma extract32 salt ikm : zlen salt = 32 -> zlen ikm = 32 -> quic_hkdf_extract salt 32 ikm 32 = Some (hmac_spec salt ikm).
Proof. intros Hs Hi. unfold quic_hkdf_extract. pose proof (hmac_exact salt ikm) as H. rewrite Hs, Hi in H. by apply H. Qed.

Lemma hs_field_spec secret label n out len : n = zlen label -> zlen secret = 32 -> n <= 64 -> 0 <= len <= 8160 -> zlen out = len ->
  hs_field secret label n out len = Some (expand_field secret label len).
Proof. exact (derive_field_spec secret label n out len). Qed.

Lemma protection_keys_spec ts out : zlen ts = 32 -> keys_wf out -> protection_keys ts out = Some (traffic_keys ts).
Proof. exact (derive_keys_spec ts out). Qed.

Lemma handshake_secret_spec ecdhe : zlen ecdhe = 32 -> quic_tls_handshake_secret ecdhe = Some (handshake_secret ecdhe).
Proof.
  intros He. unfold quic_tls_handshake_secret, handshake_secret, early_secret, QUIC_HKDF_PRK. cbv zeta.
  rewrite extract32, bind_some by done. pose proof (zlen_hmac_spec (local 32) (local 32)) as Hz.
  generalize dependent (hmac_spec (local 32) (local 32)). intros early Hz.
  rewrite derive_secret_front, bind_some by (done || closed_arith).
  change (take (Z.to_nat 0) (local 32)) with (@nil Z). apply extract32; [apply zlen_derive_spec|done].
Qed.

Lemma master_secret_spec hs : zlen hs = 32 -> quic_tls_master_secret hs = Some (master_secret hs).
Proof.
  intros Hz. unfold quic_tls_master_secret, master_secret, QUIC_HKDF_PRK. cbv zeta.
  rewrite derive_secret_front, bind_some by (done || closed_arith).
  change (take (Z.to_nat 0) (local 32)) with (@nil Z). apply extract32; [apply zlen_derive_spec|done].
Qed.

Lemma handshake_keys_spec hs transcript is_server out : zlen hs = 32 -> keys_wf out ->
  zlen transcript < 1152921504606846976 ->
  quic_tls_handshake_keys hs transcript (zlen transcript) is_server out = Some (hs_keys_spec hs transcript is_server).
Proof.
  intros Hz Hw Ht. unfold quic_tls_handshake_keys, hs_keys_spec. cbv zeta.
  rewrite derive_secret_spec, bind_some by (done || by destruct is_server).
  apply protection_keys_spec; [apply zlen_derive_spec|done].
Qed.

Lemma app_keys_spec hs transcript is_server out : keys_wf out -> zlen transcript < 1152921504606846976 ->
  quic_tls_app_keys (master_secret hs) transcript (zlen transcript) is_server out = Some (ap_keys_spec hs transcript is_server).
Proof.
  intros Hw Ht. unfold quic_tls_app_keys, ap_keys_spec. cbv zeta.
  pose proof (zlen_master_secret hs) as Hz. generalize dependent (master_secret hs). intros master Hz.
  rewrite derive_secret_spec, bind_some by (done || by destruct is_server).
  pose proof (zlen_derive_spec master (if is_server then c_bytes "s ap traffic" else c_bytes "c ap traffic") transcript) as Hd.
  generalize dependent (derive_spec master (if is_server then c_bytes "s ap traffic" else c_bytes "c ap traffic") transcript).
  intros ts Hd. destruct Hw as (Hk & Hv & Hh).
  rewrite (hs_field_spec ts quic_key_label 8), bind_some by (done || lia).
  rewrite (hs_field_spec ts quic_iv_label 7), bind_some by (done || lia).
  rewrite (hs_field_spec ts quic_hp_label 7), bind_some by (done || lia). done.
Qed.

(** 0-RTT keys: the early secret of the PSK over the ClientHello. *)
Lemma early_keys_spec psk ch out : zlen psk = 32 -> keys_wf out -> zlen ch < 1152921504606846976 ->
  quic_tls_early_keys psk ch (zlen ch) out = Some (traffic_keys (derive_spec (early_secret psk) (c_bytes "c e traffic") ch)).
Proof.
  intros Hp Hw Ht. unfold quic_tls_early_keys, early_secret, QUIC_HKDF_PRK. cbv zeta. rewrite extract32, bind_some by done.
  pose proof (zlen_hmac_spec (local 32) psk) as Hz. rewrite derive_secret_spec, bind_some by (done || lia).
  apply protection_keys_spec; [apply zlen_derive_spec|done].
Qed.

(** * The staged driver refines the schedule *)

(** What has been derived so far, from which inputs. *)
Inductive ks_spec :=
  | KsEarly
  | KsHandshake (hs transcript : list Z)
  | KsMaster (hs transcript transcript2 : list Z).

Inductive ks_op := OpHandshake (ecdhe transcript : list Z) | OpMaster (transcript : list Z).

Definition ks_op_ok (o : ks_op) : Prop :=
  match o with OpHandshake _ t | OpMaster t => zlen t < 1152921504606846976 end.

(** The stages follow each other once; everything else is refused. *)
Definition ks_spec_step (s : ks_spec) (o : ks_op) : bool * ks_spec :=
  match s, o with
  | KsEarly, OpHandshake e t => if zlen e =? 32 then (true, KsHandshake (handshake_secret e) t) else (false, s)
  | KsHandshake hs t, OpMaster t2 => (true, KsMaster hs t t2)
  | _, _ => (false, s)
  end.

(** The keys available at a stage (0 and 1: handshake, 2 and 3: application;
    odd: the server's). *)
Definition ks_spec_get (s : ks_spec) (which : Z) : option quic_initial_keys :=
  match s with
  | KsEarly => None
  | KsHandshake hs t => if which <=? 1 then Some (hs_keys_spec hs t (which =? 1)) else None
  | KsMaster hs t t2 =>
      Some (if which <=? 1 then hs_keys_spec hs t (which =? 1) else ap_keys_spec hs t2 (which =? 3))
  end.

Definition ks_step (st : quic_keysched) (o : ks_op) : option (bool * quic_keysched) :=
  match o with
  | OpHandshake e t => quic_keysched_advance_handshake st e (zlen e) t (zlen t)
  | OpMaster t => quic_keysched_advance_master st t (zlen t)
  end.

Fixpoint ks_run (st : quic_keysched) (ops : list ks_op) : option (list bool * quic_keysched) :=
  match ops with
  | [] => Some ([], st)
  | o :: ops' =>
      '(r, st1) ← ks_step st o;
      '(rs, st2) ← ks_run st1 ops';
      Some (r :: rs, st2)
  end.

Fixpoint ks_spec_run (s : ks_spec) (ops : list ks_op) : list bool * ks_spec :=
  match ops with
  | [] => ([], s)
  | o :: ops' => let '(r, s1) := ks_spec_step s o in let '(rs, s2) := ks_spec_run s1 ops' in (r :: rs, s2)
  end.

(** The abstraction relation. *)
Definition ks_rel (st : quic_keysched) (s : ks_spec) : Prop :=
  zlen (ks_keys st) = 4 /\ Forall keys_wf (ks_keys st) /\
  match s with
  | KsEarly => ks_stage st = 0
  | KsHandshake hs t => ks_stage st = 1 /\ ks_master st = master_secret hs /\
      forall w, 0 <= w <= 1 -> load (ks_keys st) w = Some (hs_keys_spec hs t (w =? 1))
  | KsMaster hs t t2 => ks_stage st = 2 /\
      forall w, 0 <= w <= 3 -> load (ks_keys st) w =
        Some (if w <=? 1 then hs_keys_spec hs t (w =? 1) else ap_keys_spec hs t2 (w =? 3))
  end.

Lemma set_keys_ok keys i derive k' : zlen keys = 4 -> Forall keys_wf keys -> 0 <= i < 4 -> keys_wf k' ->
  (forall k, keys_wf k -> derive k = Some k') ->
  set_keys keys i derive = Some (<[Z.to_nat i := k']> keys) /\
  zlen (<[Z.to_nat i := k']> keys) = 4 /\ Forall keys_wf (<[Z.to_nat i := k']> keys).
Proof.
  intros Hl Hw Hi Hk Hd. destruct (load_is_Some keys i) as [k Hlk]; [lia|].
  assert (Hwk : keys_wf k) by (apply (proj1 (Forall_forall _ _) Hw), list_elem_of_In, (load_elem _ _ _ Hlk)).
  unfold set_keys. rewrite Hlk, bind_some, (Hd k Hwk), bind_some, store_ok by lia.
  rewrite zlen_insert. split_and!; [done|done|]. by apply Forall_insert.
Qed.

Lemma hs_keys_wf hs t b : keys_wf (hs_keys_spec hs t b).
Proof. apply keys_wf_traffic. Qed.
Lemma ap_keys_wf hs t b : keys_wf (ap_keys_spec hs t b).
Proof. apply keys_wf_traffic. Qed.

Lemma advance_handshake_ok st e t : zlen (ks_keys st) = 4 -> Forall keys_wf (ks_keys st) -> ks_stage st = 0 ->
  zlen e = 32 -> zlen t < 1152921504606846976 ->
  exists st', quic_keysched_advance_handshake st e (zlen e) t (zlen t) = Some (true, st') /\
    ks_rel st' (KsHandshake (handshake_secret e) t).
Proof.
  intros Hl Hw Hs He Ht. unfold quic_keysched_advance_handshake, ecdhe_ok. rewrite Hs, He. cbn [Z.eqb andb negb Pos.eqb].
  rewrite handshake_secret_spec, bind_some by done. pose proof (zlen_handshake_secret e) as Hz.
  generalize dependent (handshake_secret e). intros hs Hz.
  destruct (set_keys_ok (ks_keys st) QUIC_KS_CLIENT_HS (quic_tls_handshake_keys hs t (zlen t) false) (hs_keys_spec hs t false))
    as (-> & Hl1 & Hw1); [done|done|closed_arith|apply hs_keys_wf|intros k Hk; by apply handshake_keys_spec|].
  rewrite bind_some.
  destruct (set_keys_ok (<[Z.to_nat QUIC_KS_CLIENT_HS:=hs_keys_spec hs t false]> (ks_keys st)) QUIC_KS_SERVER_HS
    (quic_tls_handshake_keys hs t (zlen t) true) (hs_keys_spec hs t true))
    as (-> & Hl2 & Hw2); [done|done|closed_arith|apply hs_keys_wf|intros k Hk; by apply handshake_keys_spec|].
  rewrite bind_some, master_secret_spec, bind_some by done. eexists. split; [done|].
  unfold ks_rel. cbn [ks_keys ks_stage ks_master]. split_and!; try assumption; [reflexivity..|].
  intros w Hwd. unfold QUIC_KS_SERVER_HS, QUIC_KS_CLIENT_HS in *. rewrite zlen_insert in Hl1.
  rewrite load_insert by (rewrite zlen_insert; lia). destruct (Z.eqb_spec w 1); [done|].
  rewrite load_insert by lia. by zdecide.
Qed.

Lemma advance_master_ok st hs t t2 : ks_rel st (KsHandshake hs t) -> zlen t2 < 1152921504606846976 ->
  exists st', quic_keysched_advance_master st t2 (zlen t2) = Some (true, st') /\ ks_rel st' (KsMaster hs t t2).
Proof.
  intros (Hl & Hw & Hs & Hm & Hk) Ht. unfold quic_keysched_advance_master. rewrite Hs, Hm. cbn [Z.eqb negb Pos.eqb].
  destruct (set_keys_ok (ks_keys st) QUIC_KS_CLIENT_AP (quic_tls_app_keys (master_secret hs) t2 (zlen t2) false) (ap_keys_spec hs t2 false))
    as (-> & Hl1 & Hw1); [done|done|closed_arith|apply ap_keys_wf|intros k Hk'; by apply app_keys_spec|].
  rewrite bind_some.
  destruct (set_keys_ok (<[Z.to_nat QUIC_KS_CLIENT_AP:=ap_keys_spec hs t2 false]> (ks_keys st)) QUIC_KS_SERVER_AP
    (quic_tls_app_keys (master_secret hs) t2 (zlen t2) true) (ap_keys_spec hs t2 true))
    as (-> & Hl2 & Hw2); [done|done|closed_arith|apply ap_keys_wf|intros k Hk'; by apply app_keys_spec|].
  rewrite bind_some. eexists. split; [done|].
  unfold ks_rel. cbn [ks_keys ks_stage ks_master]. split_and!; try assumption; [reflexivity|].
  intros w Hwd. unfold QUIC_KS_SERVER_AP, QUIC_KS_CLIENT_AP in *. rewrite zlen_insert in Hl1.
  rewrite load_insert by (rewrite zlen_insert; lia). destruct (Z.eqb_spec w 3) as [->|]; [done|].
  rewrite load_insert by lia. destruct (Z.eqb_spec w 2) as [->|]; [done|]. zdecide. apply Hk. lia.
Qed.

Lemma ks_step_refines st s o : ks_rel st s -> ks_op_ok o ->
  exists st', ks_step st o = Some (fst (ks_spec_step s o), st') /\ ks_rel st' (snd (ks_spec_step s o)).
Proof.
  intros HR Ho. destruct HR as (Hl & Hw & Hs) eqn:EHR. destruct o as [e t|t]; cbn [ks_step ks_op_ok] in *.
  - destruct s; cbn [ks_spec_step].
    + destruct (Z.eqb_spec (zlen e) 32).
      * by apply advance_handshake_ok.
      * exists st. unfold quic_keysched_advance_handshake, ecdhe_ok. zdecide. by rewrite andb_false_r.
    + exists st. unfold quic_keysched_advance_handshake, ecdhe_ok. rewrite (proj1 Hs). done.
    + exists st. unfold quic_keysched_advance_handshake, ecdhe_ok. rewrite (proj1 Hs). done.
  - destruct s; cbn [ks_spec_step].
    + exists st. unfold quic_keysched_advance_master. by rewrite Hs.
    + by apply advance_master_ok.
    + exists st. unfold quic_keysched_advance_master. by rewrite (proj1 Hs).
Qed.

Lemma ks_run_refines ops : forall st s, ks_rel st s -> Forall ks_op_ok ops ->
  exists st', ks_run st ops = Some (fst (ks_spec_run s ops), st') /\ ks_rel st' (snd (ks_spec_run s ops)).
Proof.
  induction ops as [|o ops IH]; intros st s HR Ho; cbn [ks_run ks_spec_run]; [by exists st|].
  apply Forall_cons_iff in Ho as [Ho Hos].
  destruct (ks_step_refines st s o HR Ho) as (st1 & -> & HR1). rewrite bind_some. cbv beta iota.
  destruct (ks_spec_step s o) as [r s1]. cbn [fst snd] in *.
  destruct (IH st1 s1 HR1 Hos) as (st2 & -> & HR2). rewrite bind_some. cbv beta iota.
  destruct (ks_spec_run s1 ops) as [rs s2]. by exists st2.
Qed.

Lemma ks_get_refines st s which : ks_rel st s -> 0 <= which <= 3 ->
  quic_keysched_get st which = Some (ks_spec_get s which).
Proof.
  intros (_ & _ & Hs) Hw. unfold quic_keysched_get, have, QUIC_KS_SERVER_HS.
  destruct s as [|hs t|hs t t2]; cbn [ks_spec_get].
  - rewrite Hs. destruct (which <=? 1); done.
  - destruct Hs as (-> & _ & Hk). destruct (Z.leb_spec which 1); cbn [Z.leb Z.compare Pos.compare Pos.compare_cont negb].
    + rewrite Hk, bind_some by lia. done.
    + done.
  - destruct Hs as (-> & Hk). specialize (Hk which Hw). destruct (which <=? 1);
      cbn [Z.leb Z.compare Pos.compare Pos.compare_cont negb]; rewrite Hk, bind_some; done.
Qed.

(** C10: the staged key schedule implements RFC 8446 section 7.1.  From any
    memory, after any sequence of attempts to advance (in any order, with any
    shared secrets and transcripts) the replies are those of the abstract
    schedule Early -> Handshake -> Master, out-of-order advances being refused,
    and each of the four key sets is available exactly from its stage on and
    equals the RFC's traffic keys for the shared secret and transcripts that
    were accepted. *)
Theorem keysched_refines (st : quic_keysched) (ops : list ks_op)
  (Hlen : zlen (ks_keys st) = 4) (Hwf : Forall keys_wf (ks_keys st)) (Hops : Forall ks_op_ok ops) :
  exists st', ks_run (quic_keysched_init st) ops = Some (fst (ks_spec_run KsEarly ops), st') /\
    forall which, 0 <= which <= 3 ->
      quic_keysched_get st' which = Some (ks_spec_get (snd (ks_spec_run KsEarly ops)) which).
Proof.
  destruct (ks_run_refines ops (quic_keysched_init st) KsEarly) as (st' & Hr & HR); [done|done|].
  exists st'. split; [exact Hr|]. intros which Hw. by apply ks_get_refines.
Qed.

(** Witness of C10: a master advance before the handshake is refused. *)
Lemma keysched_refines_witness :
  exists st', ks_run (quic_keysched_init (mk_keysched 7 [] (repeat keys_blank 4)))
      [OpMaster [1]; OpHandshake (repeat 5 32) [2]; OpMaster [3]] = Some ([false; true; true], st') /\
    quic_keysched_get st' 3 = Some (Some (ap_keys_spec (handshake_secret (repeat 5 32)) [3] true)).
Proof.
  destruct (keysched_refines (mk_keysched 7 [] (repeat keys_blank 4)) [OpMaster [1]; OpHandshake (repeat 5 32) [2]; OpMaster [3]])
    as (st' & H1 & H2); [exact eq_refl|repeat (constructor; [closed_arith|]); constructor|repeat (constructor; [closed_arith|]); constructor|].
  exists st'. split; [exact H1|]. exact (H2 3 ltac:(closed_arith)).
Defined.

(** * Key update *)

(** RFC 9001 section 6.1: the chain of secrets, and the keys of a generation;
    the header protection key does not change. *)
Definition ku_secret (s0 : list Z) (n : nat) : list Z := Nat.iter n (fun s => expand_field s quic_ku_label 32) s0.
Definition ku_keys (s0 hp : list Z) (n : nat) : quic_initial_keys :=
  mk_ikeys (expand_field (ku_secret s0 n) quic_key_label 16) (expand_field (ku_secret s0 n) quic_iv_label 12) hp.

(** One update: derive into a copy of the current keys (whose header protection
    key is left untouched), then rotate. *)
Definition ku_update (st : quic_kuswitch_state * list Z) : option (quic_kuswitch_state * list Z) :=
  let '(state, secret) := st in
  '(next, secret') ← quic_kuswitch_next_keys secret (kw_cur state) (local 32);
  Some (quic_kuswitch_rotate state next, secret').

Fixpoint ku_updates (n : nat) (st : quic_kuswitch_state * list Z) : option (quic_kuswitch_state * list Z) :=
  match n with
  | O => Some st
  | S n' => st' ← ku_updates n' st; ku_update st'
  end.

Lemma zlen_expand_field s label len : 0 <= len <= 8160 -> zlen (expand_field s label len) = len.
Proof. unfold expand_field. apply zlen_hkdf_okm. Qed.

Lemma ku_secret_S s0 n : ku_secret s0 (S n) = expand_field (ku_secret s0 n) quic_ku_label 32.
Proof. reflexivity. Qed.

Lemma zlen_ku_secret s0 n : zlen s0 = 32 -> zlen (ku_secret s0 n) = 32.
Proof. intros Hs. destruct n; [done|]. cbn. apply zlen_expand_field. lia. Qed.

Lemma next_keys_spec s cur : zlen s = 32 -> zlen (ik_key cur) = 16 -> zlen (ik_iv cur) = 12 ->
  quic_kuswitch_next_keys s cur (local 32) =
  Some (mk_ikeys (expand_field (expand_field s quic_ku_label 32) quic_key_label 16)
                 (expand_field (expand_field s quic_ku_label 32) quic_iv_label 12) (ik_hp cur), expand_field s quic_ku_label 32).
Proof.
  intros Hs Hk Hv. unfold quic_kuswitch_next_keys.
  assert (Hn : quic_ku_next_secret s (local 32) = Some (expand_field s quic_ku_label 32)).
  { exact (derive_field_spec s quic_ku_label 7 (local 32) 32 eq_refl Hs ltac:(lia) ltac:(lia) eq_refl). }
  rewrite Hn, bind_some. pose proof (zlen_expand_field s quic_ku_label 32 ltac:(lia)) as Hz.
  generalize dependent (expand_field s quic_ku_label 32). intros s' _ Hz.
  rewrite (hs_field_spec s' quic_key_label 8), bind_some by (done || lia).
  rewrite (hs_field_spec s' quic_iv_label 7), bind_some by (done || lia). done.
Qed.

Lemma ku_updates_spec n s0 hp old : zlen s0 = 32 -> Z.of_nat n < 18446744073709551616 ->
  ku_updates n (quic_kuswitch_init (mk_kuswitch old old 0 true) (ku_keys s0 hp 0), s0) =
  Some (mk_kuswitch (ku_keys s0 hp n) (match n with O => old | S m => ku_keys s0 hp m end) (Z.of_nat n)
          (match n with O => false | _ => true end), ku_secret s0 n).
Proof.
  intros Hs. induction n as [|n IH]; intros Hn; [done|].
  cbn [ku_updates]. rewrite IH by lia. rewrite bind_some. unfold ku_update. cbn [kw_cur].
  rewrite next_keys_spec; [|by apply zlen_ku_secret|cbn [ku_keys ik_key]; apply zlen_expand_field; lia|cbn [ku_keys ik_iv]; apply zlen_expand_field; lia].
  rewrite bind_some. cbv beta iota. unfold quic_kuswitch_rotate. cbn [kw_cur kw_generation].
  unwrap. rewrite <- ku_secret_S. replace (Z.of_nat n + 1) with (Z.of_nat (S n)) by lia.
  cbn [ku_keys ik_hp]. unfold ku_keys. reflexivity.
Qed.

Lemma phase_parity n : quic_keyphase_bit (Z.of_nat n) = if Nat.even n then 0 else 1.
Proof.
  unfold quic_keyphase_bit. change 1 with (Z.ones 1) at 1. rewrite Z.land_ones by lia. change (2 ^ 1) with 2.
  rewrite Zmod_even. replace (Z.even (Z.of_nat n)) with (Nat.even n); [by destruct (Nat.even n)|].
  induction n as [|n IH]; [done|]. rewrite Nat2Z.inj_succ, Z.even_succ, Nat.even_succ, <- Nat.negb_even, <- Z.negb_even. by rewrite IH.
Qed.

(** After any number of key updates the receiver's two-generation store holds
    the RFC 9001 section 6.1 keys: a packet whose Key Phase bit is that of the
    current generation selects the keys derived by that many applications of
    "quic ku", the other bit selects the previous generation's keys, or nothing
    before the first update and after the old keys were discarded; the header
    protection key never changes. *)
Theorem key_update_generations (n : nat) (s0 hp : list Z) (old : quic_initial_keys)
  (Hs : zlen s0 = 32) (Hn : Z.of_nat n < 18446744073709551616) :
  exists st, ku_updates n (quic_kuswitch_init (mk_kuswitch old old 0 true) (ku_keys s0 hp 0), s0) = Some (st, ku_secret s0 n) /\
    quic_kuswitch_key_for_phase st (quic_kuswitch_phase_bit (Z.of_nat n)) = Some (ku_keys s0 hp n) /\
    quic_kuswitch_key_for_phase st (quic_kuswitch_phase_bit (Z.of_nat (S n))) =
      (match n with O => None | S m => Some (ku_keys s0 hp m) end) /\
    quic_kuswitch_key_for_phase (quic_kuswitch_discard_old st) (quic_kuswitch_phase_bit (Z.of_nat (S n))) = None.
Proof.
  eexists. split; [apply ku_updates_spec; done|].
  unfold quic_kuswitch_key_for_phase, wants_current, quic_kuswitch_phase_bit, quic_kuswitch_discard_old.
  cbn [kw_generation kw_have_old kw_old kw_cur]. rewrite !phase_parity, Nat.even_succ, <- Nat.negb_even.
  destruct n as [|n]; [done|]. destruct (Nat.even (S n)); done.
Qed.

(** Witness: two updates. *)
Lemma key_update_generations_witness :
  exists st, ku_updates 2 (quic_kuswitch_init (mk_kuswitch keys_blank keys_blank 0 true) (ku_keys (repeat 1 32) (repeat 2 16) 0), repeat 1 32)
      = Some (st, ku_secret (repeat 1 32) 2) /\
    quic_kuswitch_key_for_phase st 0 = Some (ku_keys (repeat 1 32) (repeat 2 16) 2) /\
    quic_kuswitch_key_for_phase st 1 = Some (ku_keys (repeat 1 32) (repeat 2 16) 1).
Proof.
  destruct (key_update_generations 2 (repeat 1 32) (repeat 2 16) keys_blank eq_refl ltac:(closed_arith)) as (st & H1 & H2 & H3 & _).
  exists st. exact (conj H1 (conj H2 H3)).
Defined.

(** The Key Phase bit is the only bit of the first byte that changes. *)
Lemma keyphase_set_get byte0 phase : is_u8 byte0 ->
  quic_keyphase_get (quic_keyphase_set byte0 phase) = Z.land phase 1 /\
  Z.land (quic_keyphase_set byte0 phase) 0xfb = Z.land byte0 0xfb.
Proof.
  intros Hb. unfold quic_keyphase_set.
  assert (Hp : Z.land phase 1 = 0 \/ Z.land phase 1 = 1).
  { pose proof (Z.land_ones phase 1 ltac:(lia)) as Hl. change (Z.ones 1) with 1 in Hl. change (2 ^ 1) with 2 in Hl.
    pose proof (Z.mod_pos_bound phase 2). lia. }
  set (p := Z.land phase 1) in *. clearbody p.
  assert (forallb (fun p => forallb (fun n => let b := Z.of_nat n in
     let r := u8 (Z.lor (Z.land b (Z.lnot QUIC_KEYPHASE_MASK)) (Z.shiftl p 2)) in
     (quic_keyphase_get r =? p) && (Z.land r 0xfb =? Z.land b 0xfb)) (seq 0 256)) [0; 1] = true) as H by (vm_compute; reflexivity).
  rewrite forallb_forall in H. specialize (H p ltac:(cbn; lia)). rewrite forallb_forall in H.
  specialize (H (Z.to_nat byte0)). rewrite in_seq in H. unfold is_u8 in Hb. specialize (H ltac:(lia)).
  rewrite Z2Nat.id in H by lia. cbv zeta in H. zbool. done.
Qed.

(** ** The send side's window *)

(** What happens to the machine, and its reply. *)
Inductive ku_event := KuInitiate | KuAcked | KuFollow.

Definition ku_exec (e : ku_event) (k : quic_keyupdate) : bool * quic_keyupdate :=
  match e with
  | KuInitiate => quic_keyupdate_initiate k
  | KuAcked => (true, quic_keyupdate_acked k)
  | KuFollow => quic_keyupdate_follow k
  end.

Fixpoint kw_run (es : list ku_event) (k : quic_keyupdate) : list bool * quic_keyupdate :=
  match es with
  | [] => ([], k)
  | e :: es' =>
      let '(ok, k1) := ku_exec e k in
      let '(oks, k2) := kw_run es' k1 in (ok :: oks, k2)
  end.

(** RFC 9001 section 6.1, from the events alone: one of our updates is unacknowledged
    when the last event that is not a [KuFollow] is a [KuInitiate]; an update is accepted
    exactly while none is; and the generation counts the updates accepted. *)
Definition unacked_after (p : bool) (e : ku_event) : bool :=
  match e with KuInitiate => true | KuAcked => false | KuFollow => p end.
Definition unacked (es : list ku_event) : bool := fold_left unacked_after es false.

Definition ku_reply (p : bool) (e : ku_event) : bool := match e with KuAcked => true | _ => negb p end.
Fixpoint ku_replies (p : bool) (es : list ku_event) : list bool :=
  match es with [] => [] | e :: es' => ku_reply p e :: ku_replies (unacked_after p e) es' end.

Definition ku_counts (p : bool) (e : ku_event) : Z := match e with KuAcked => 0 | _ => Z.b2z (negb p) end.
Fixpoint ku_accepted (p : bool) (es : list ku_event) : Z :=
  match es with [] => 0 | e :: es' => ku_counts p e + ku_accepted (unacked_after p e) es' end.

(** The state after [es]: the generation, the lowest retained one, and the flag. *)
Definition ku_tracks (p : bool) (g : Z) (k : quic_keyupdate) : Prop :=
  ku_updating k = p /\ ku_gen k = g /\ ku_lowest k = Z.max 0 (g - 1).

Lemma ku_exec_tracks e p g k : ku_tracks p g k -> 0 <= g < 18446744073709551615 ->
  fst (ku_exec e k) = ku_reply p e /\ ku_tracks (unacked_after p e) (g + ku_counts p e) (snd (ku_exec e k)).
Proof.
  intros (<- & <- & Hl) Hg. destruct k as [gen low u]. unfold ku_tracks. cbn in *.
  destruct e, u; cbn; unwrap; (split_and!; [done|done|lia..]).
Qed.

Lemma kw_run_tracks es : forall p g k, ku_tracks p g k -> 0 <= g -> g + Z.of_nat (length es) <= 18446744073709551615 ->
  fst (kw_run es k) = ku_replies p es /\
  ku_tracks (fold_left unacked_after es p) (g + ku_accepted p es) (snd (kw_run es k)) /\ 0 <= ku_accepted p es <= Z.of_nat (length es).
Proof.
  induction es as [|e es IH]; intros p g k Hk H0 Hg; cbn [kw_run ku_replies ku_accepted fold_left length] in *.
  - rewrite Z.add_0_r. by split_and!.
  - destruct (ku_exec_tracks e p g k Hk ltac:(lia)) as [He Hk1]. destruct (ku_exec e k) as [ok k1]. cbn [fst snd] in *.
    assert (Hc : 0 <= ku_counts p e <= 1) by (destruct e, p; cbn; lia).
    destruct (IH _ _ _ Hk1 ltac:(lia) ltac:(lia)) as (Hr & Ht & Hu). destruct (kw_run es k1) as [oks k2]. cbn [fst snd] in *.
    rewrite He, Hr. split_and!; [done| |lia|lia]. by rewrite Z.add_assoc.
Qed.

(** C27: along every sequence of initiated updates, acknowledgements and updates followed,
    the machine's replies are those RFC 9001 section 6.1 asks for: an update, whether
    initiated or followed, is refused exactly while one of ours is unacknowledged.  The
    generation is the number of updates accepted, the phase bit its parity, the flag
    [updating] says whether an update is unacknowledged, and the generations that can be
    decrypted are exactly the previous one (once there is one), the current one and the
    next. *)
Theorem keyupdate_window (es : list ku_event) (Hn : Z.of_nat (length es) < 18446744073709551615) :
  exists k, kw_run es quic_keyupdate_init = (ku_replies false es, k) /\
    ku_updating k = unacked es /\
    quic_keyupdate_phase k = ku_accepted false es mod 2 /\
    (forall g, 0 <= g ->
       quic_keyupdate_can_decrypt k g = (ku_accepted false es - 1 <=? g) && (g <=? ku_accepted false es + 1)).
Proof.
  destruct (kw_run_tracks es false 0 quic_keyupdate_init) as (Hr & (Hu & Hg & Hl) & Hb); [done|lia|lia|].
  destruct (kw_run es quic_keyupdate_init) as [oks k]. cbn [fst snd] in *. rewrite Z.add_0_l in Hg, Hl.
  exists k. split_and!; [by rewrite Hr|exact Hu| |].
  - unfold quic_keyupdate_phase. change (Z.land (ku_gen k) 1) with (Z.land (ku_gen k) (Z.ones 1)).
    rewrite Z.land_ones, Hg by lia. change (2 ^ 1) with 2.
    apply u8_id. pose proof (Z.mod_pos_bound (ku_accepted false es) 2). unfold is_u8. lia.
  - intros g H0. unfold quic_keyupdate_can_decrypt. rewrite Hl, Hg. unwrap. f_equal.
    apply eq_true_iff_eq. rewrite !Z.leb_le. lia.
Qed.

(** Witness of C27: a second update is refused until the first is acknowledged. *)
Lemma keyupdate_window_witness :
  exists k, kw_run [KuInitiate; KuInitiate; KuFollow; KuAcked; KuFollow] quic_keyupdate_init =
      ([true; false; false; true; true], k) /\
    ku_updating k = false /\ quic_keyupdate_phase k = 0 /\ quic_keyupdate_can_decrypt k 4 = false.
Proof.
  destruct (keyupdate_window [KuInitiate; KuInitiate; KuFollow; KuAcked; KuFollow] ltac:(closed_arith)) as (k & H1 & H2 & H3 & H4).
  exists k. exact (conj H1 (conj H2 (conj H3 (H4 4 ltac:(closed_arith))))).
Defined.

(** * Finished *)

(** RFC 8446 section 4.4.4. *)
Definition finished_spec (base_key transcript_hash : list Z) : list Z :=
  hmac_spec (expand_field base_key (c_bytes "finished") 32) transcript_hash.

Lemma expand_fresh secret label n : n = zlen label -> zlen secret = 32 -> n <= 64 ->
  quic_hkdf_expand_label secret label n [] 0 (local QUIC_SHA256_DIGEST) QUIC_SHA256_DIGEST =
  Some (true, expand_field secret label 32).
Proof.
  intros -> Hs Hl. unfold QUIC_SHA256_DIGEST, expand_field.
  pose proof (expand_label_ok secret label [] (local 32) 32 Hs Hl) as He. change (zlen (@nil Z)) with 0 in He.
  rewrite He by closed_arith. do 2 f_equal.
  pose proof (zlen_hkdf_okm secret (hkdf_label label [] 32) 32 ltac:(lia)) as Hz.
  generalize dependent (hkdf_okm secret (hkdf_label label [] 32) 32). intros l _ Hz.
  rewrite splice_tail by (rewrite Hz; closed_arith). rewrite drop_ge by (change (length (local 32)) with 32%nat; unfold zlen in Hz; lia).
  by rewrite app_nil_r.
Qed.

Lemma finished_verify_data_spec base_key h : zlen base_key = 32 -> zlen h = 32 ->
  quic_tls_finished_verify_data base_key h = Some (finished_spec base_key h).
Proof.
  intros Hb Hh. unfold quic_tls_finished_verify_data, finished_spec.
  rewrite (expand_fresh base_key (c_bytes "finished") 8), bind_some by (done || lia). cbv beta iota.
  pose proof (zlen_expand_field base_key (c_bytes "finished") 32 ltac:(lia)) as Hz.
  generalize dependent (expand_field base_key (c_bytes "finished") 32). intros fk Hz.
  pose proof (hmac_exact fk h) as He. rewrite Hz, Hh in He. unfold QUIC_SHA256_DIGEST. apply He; reflexivity.
Qed.

(** The handshake messages, added one by one. *)
Fixpoint transcript_feed (t : quic_transcript) (msgs : list (list Z)) : option quic_transcript :=
  match msgs with [] => Some t | m :: msgs' => t' ← quic_transcript_add t m (zlen m); transcript_feed t' msgs' end.

Lemma transcript_feed_sha msgs : forall t,
  transcript_feed t msgs = (h ← sha_feed quic_sha256_update (tr_h t) msgs; Some (mk_transcript h)).
Proof.
  induction msgs as [|m msgs IH]; intros [h]; cbn [transcript_feed sha_feed tr_h]; [done|]. unfold quic_transcript_add. cbn [tr_h].
  destruct (quic_sha256_update h m (zlen m)) as [h'|]; [|done]. rewrite !bind_some. by rewrite IH.
Qed.

(** C25: a received Finished is accepted if and only if it is the RFC 8446 section
    4.4.4 verify_data, HMAC under the key expanded from the base secret of the
    hash of the transcript; the transcript hash is the SHA-256 of the
    concatenation of the handshake messages, however they were split. *)
Theorem finished_check_exact (base_key received buf0 : list Z) (msgs : list (list Z))
  (Hb : zlen base_key = 32) (Hr : zlen received = 32) (Hbuf : zlen buf0 = 64)
  (Hm : 8 * zlen (concat msgs) < 18446744073709551616) :
  exists t h, transcript_feed (quic_transcript_init buf0) msgs = Some t /\
    quic_transcript_hash t = Some h /\ h = sha256_spec (concat msgs) /\
    quic_tls_finished_check base_key h received = Some (bool_decide (received = finished_spec base_key h)).
Proof.
  pose proof (sha256_stream buf0 msgs Hbuf Hm) as Hs. rewrite transcript_feed_sha. cbn [tr_h quic_transcript_init].
  destruct (sha_feed quic_sha256_update (quic_sha256_init buf0) msgs) as [c|]; [|discriminate Hs].
  rewrite bind_some in Hs. exists (mk_transcript c), (sha256_spec (concat msgs)).
  pose proof (zlen_sha256_spec (concat msgs)) as Hz.
  split; [reflexivity|]. split; [exact Hs|]. split; [reflexivity|].
  generalize dependent (sha256_spec (concat msgs)). intros h _ Hz. unfold quic_tls_finished_check.
  rewrite finished_verify_data_spec, bind_some by done. f_equal.
  assert (Hf : zlen (finished_spec base_key h) = 32) by apply zlen_hmac_spec.
  generalize dependent (finished_spec base_key h). intros want Hf. unfold digest_diff.
  rewrite !take_ge by (unfold zlen in *; lia). apply eq_true_iff_eq.
  rewrite Z.eqb_eq, bool_decide_eq_true, ct_diff_loop_spec by (unfold zlen in *; lia).
  split; [intros [_ ->]; done|intros ->; done].
Qed.

(** Witness of C25: a transcript of two messages, an all-zero Finished. *)
Lemma finished_check_exact_witness :
  exists t h, transcript_feed (quic_transcript_init (local 64)) [[1; 2]; [3]] = Some t /\
    quic_transcript_hash t = Some h /\ h = sha256_spec (concat [[1; 2]; [3]]) /\
    quic_tls_finished_check (local 32) h (local 32) = Some (bool_decide (local 32 = finished_spec (local 32) h)).
Proof. exact (finished_check_exact (local 32) (local 32) (local 64) [[1; 2]; [3]] eq_refl eq_refl eq_refl eq_refl). Defined.
