(* ===== verification/ConnKeys.v ===== *)
(** The connection's keys: the per-level key sets of [crypto/kdf/keys] and the
    1-RTT key update of [transport/conn/loop/connrunner/keyupdate.c]. *)
From Stdlib Require Import Ascii String.
From S2P Require Import Prelude.
From S2P Require Import Buffers.
From S2P Require Import CStrings.
From S2P Require Import Hkdf.
From S2P Require Import Protect.
From S2P Require Import KeySched.

(** * keyset.c, discard_driver.c, promote.c *)

Definition QUIC_LEVEL_INITIAL : Z := 0.
Definition QUIC_LEVEL_HANDSHAKE : Z := 1.
Definition QUIC_LEVEL_ONERTT : Z := 2.
Definition QUIC_KEYSET_LEVELS : Z := 3.

Record quic_keyset := mk_keyset { kset_keys : list quic_initial_keys; kset_installed : list bool }.

Definition quic_level_valid (level : Z) : bool := (0 <=? level) && (level <? QUIC_KEYSET_LEVELS).

Definition quic_keyset_init (state : quic_keyset) : quic_keyset := mk_keyset (kset_keys state) (repeat false 3).

Definition quic_keyset_install (state : quic_keyset) (level : Z) (keys : quic_initial_keys) : option (bool * quic_keyset) :=
  if negb (quic_level_valid level) then Some (false, state)
  else k ← store (kset_keys state) level keys;
       i ← store (kset_installed state) level true;
       Some (true, mk_keyset k i).

Definition quic_keyset_for_level (state : quic_keyset) (level : Z) : option (option quic_initial_keys) :=
  if negb (quic_level_valid level) then Some None
  else i ← load (kset_installed state) level;
       if negb (i : bool) then Some None
       else k ← load (kset_keys state) level; Some (Some k).

Definition quic_key_should_discard_initial (handshake_keys_installed : bool) : bool := handshake_keys_installed.
Definition quic_key_should_discard_handshake (handshake_confirmed : bool) : bool := handshake_confirmed.

Definition quic_keyset_discard (state : quic_keyset) (level : Z) : option (bool * quic_keyset) :=
  if (level <? 0) || (QUIC_KEYSET_LEVELS <=? level) then Some (false, state)
  else i ← store (kset_installed state) level false; Some (true, mk_keyset (kset_keys state) i).

Definition quic_key_promote_ok (current_max_level new_level : Z) : bool := new_level =? current_max_level + 1.
Definition quic_key_send_level (handshake_complete handshake_confirmed : bool) : Z :=
  if handshake_complete || handshake_confirmed then QUIC_LEVEL_ONERTT else QUIC_LEVEL_HANDSHAKE.

(** * connrunner/keyupdate.c *)

(** The fields of [quic_connrunner] the key update uses: [cr_keys] and
    [cr_confirmed] are [io.loop.keys] and [io.loop.handshake_confirmed]. *)
Record quic_connrunner := mk_runner {
  cr_keys : quic_keyset; cr_confirmed : bool; cr_ku : quic_kuswitch_state; cr_ku_secret : list Z;
  cr_ku_phase : Z; cr_ku_completed_at : Z; cr_ku_sent_in_phase : Z; cr_ku_unacked : bool }.

(** [(u64)-1]: no completed update. *)
Definition ku_unset : Z := 18446744073709551615.

Definition zero_keys : quic_initial_keys := mk_ikeys (local 16) (local 12) (local 16).

Definition cur_keys (r : quic_connrunner) : option quic_initial_keys :=
  k ← quic_keyset_for_level (cr_keys r) QUIC_LEVEL_ONERTT;
  Some (match k with Some k => k | None => zero_keys end).

Definition quic_connrunner_keyupdate_init (r : quic_connrunner) : option quic_connrunner :=
  gen0 ← cur_keys r;
  Some (mk_runner (cr_keys r) (cr_confirmed r) (quic_kuswitch_init (cr_ku r) gen0) (local QUIC_HKDF_PRK)
          0 ku_unset 0 false).

Definition recv_next_allowed (r : quic_connrunner) (recv_bit cur_bit : Z) : bool :=
  cr_confirmed r && quic_kudrive_key_generation recv_bit cur_bit (if cr_ku_unacked r then 1 else 0).
Definition select_next (r : quic_connrunner) (recv_bit cur_bit : Z) : bool :=
  (kw_generation (cr_ku r) =? 0) && recv_next_allowed r recv_bit cur_bit.

(** 1: the next generation; -1: drop; 0: current or retained old. *)
Definition quic_connrunner_recv_keygen (r : quic_connrunner) (byte0 : Z) : Z :=
  let recv_bit := quic_keyphase_get byte0 in
  let cur_bit := quic_kuswitch_phase_bit (kw_generation (cr_ku r)) in
  if select_next r recv_bit cur_bit then 1
  else match quic_kuswitch_key_for_phase (cr_ku r) recv_bit with None => -1 | Some _ => 0 end.

Definition reinit_floor_ok (r : quic_connrunner) (now pto : Z) : bool :=
  if cr_ku_completed_at r =? ku_unset then true
  else quic_kudrive_can_initiate_again now (cr_ku_completed_at r) pto.
Definition may_initiate (r : quic_connrunner) (now threshold pto : Z) : bool :=
  quic_kudrive_should_initiate (cr_ku_sent_in_phase r) threshold (cr_confirmed r) &&
  negb (cr_ku_unacked r) && reinit_floor_ok r now pto.

Definition do_initiate (r : quic_connrunner) : option quic_connrunner :=
  '(next, next_secret) ← quic_kuswitch_next_keys (cr_ku_secret r) zero_keys (local QUIC_HKDF_PRK);
  let ku := quic_kuswitch_rotate (cr_ku r) next in
  ku_secret ← copy_loop (Z.to_nat QUIC_HKDF_PRK) (cr_ku_secret r) 0 next_secret 0;
  '(_, keys) ← quic_keyset_install (cr_keys r) QUIC_LEVEL_ONERTT next;
  Some (mk_runner keys (cr_confirmed r) ku ku_secret
          (quic_kuswitch_apply_phase (cr_ku_phase r) (kw_generation ku)) ku_unset 0 true).

Definition quic_connrunner_maybe_initiate_ku (r : quic_connrunner) (now threshold pto : Z) : option (bool * quic_connrunner) :=
  if negb (may_initiate r now threshold pto) then Some (false, r)
  else r' ← do_initiate r; Some (true, r').

Definition may_discard (r : quic_connrunner) (now pto : Z) : bool :=
  kw_have_old (cr_ku r) && negb (cr_ku_completed_at r =? ku_unset) &&
  quic_kudrive_can_discard_old now (cr_ku_completed_at r) pto.

Definition quic_connrunner_maybe_discard_ku (r : quic_connrunner) (now pto : Z) : bool * quic_connrunner :=
  if negb (may_discard r now pto) then (false, r)
  else (true, mk_runner (cr_keys r) (cr_confirmed r) (quic_kuswitch_discard_old (cr_ku r)) (cr_ku_secret r)
          (cr_ku_phase r) (cr_ku_completed_at r) (cr_ku_sent_in_phase r) (cr_ku_unacked r)).

Definition quic_connrunner_ku_completed (r : quic_connrunner) (now : Z) : quic_connrunner :=
  if negb (cr_ku_unacked r) then r
  else mk_runner (cr_keys r) (cr_confirmed r) (cr_ku r) (cr_ku_secret r) (cr_ku_phase r) now (cr_ku_sent_in_phase r) false.

(** * Key sets *)

Definition keyset_wf (s : quic_keyset) : Prop := zlen (kset_keys s) = 3 /\ zlen (kset_installed s) = 3.

(** What a level holds. *)
Definition keyset_at (s : quic_keyset) (level : Z) : option quic_initial_keys :=
  match load (kset_installed s) level with Some true => load (kset_keys s) level | _ => None end.

Lemma level_valid_iff level : quic_level_valid level = true <-> 0 <= level < 3.
Proof. unfold quic_level_valid, QUIC_KEYSET_LEVELS. rewrite andb_true_iff, Z.leb_le, Z.ltb_lt. done. Qed.

Lemma keyset_for_level_spec s level : keyset_wf s -> quic_keyset_for_level s level = Some (keyset_at s level).
Proof.
  intros [Hk Hi]. unfold quic_keyset_for_level, keyset_at. destruct (quic_level_valid level) eqn:E; cbn [negb].
  - apply level_valid_iff in E. destruct (load_is_Some (kset_installed s) level) as [b Hb]; [lia|].
    destruct (load_is_Some (kset_keys s) level) as [k Hlk]; [lia|]. rewrite Hb, bind_some.
    destruct b; cbn [negb]; [rewrite Hlk, bind_some|]; done.
  - destruct (load (kset_installed s) level) as [b|] eqn:Hb; [|done]. apply load_range in Hb.
    assert (quic_level_valid level = true) by (apply level_valid_iff; lia). congruence.
Qed.

Lemma keyset_install_spec s level k : keyset_wf s -> 0 <= level < 3 ->
  exists s', quic_keyset_install s level k = Some (true, s') /\ keyset_wf s' /\
    forall l, keyset_at s' l = if l =? level then Some k else keyset_at s l.
Proof.
  intros [Hk Hi] Hl. unfold quic_keyset_install. rewrite (proj2 (level_valid_iff level)) by done. cbn [negb].
  rewrite (store_ok (kset_keys s)), bind_some by lia. rewrite (store_ok (kset_installed s)), bind_some by lia.
  eexists. split; [done|]. split.
  - split; cbn [kset_keys kset_installed]; by rewrite zlen_insert.
  - intros l. unfold keyset_at. cbn [kset_keys kset_installed]. rewrite !load_insert by lia.
    destruct (Z.eqb_spec l level); done.
Qed.

Lemma keyset_discard_spec s level : keyset_wf s -> 0 <= level < 3 ->
  exists s', quic_keyset_discard s level = Some (true, s') /\ keyset_wf s' /\
    forall l, keyset_at s' l = if l =? level then None else keyset_at s l.
Proof.
  intros [Hk Hi] Hl. unfold quic_keyset_discard, QUIC_KEYSET_LEVELS. zdecide. cbn [orb].
  rewrite store_ok, bind_some by lia. eexists. split; [done|]. split.
  - split; cbn [kset_keys kset_installed]; [done|by rewrite zlen_insert].
  - intros l. unfold keyset_at. cbn [kset_keys kset_installed]. rewrite load_insert by lia.
    destruct (Z.eqb_spec l level); done.
Qed.

(** * Updates of a connection *)

(** A runner right after [quic_connrunner_keyupdate_init], whatever its 1-RTT
    keys are. *)
Definition runner_keys_wf (r : quic_connrunner) : Prop :=
  keyset_wf (cr_keys r) /\ zlen (cr_ku_secret r) = 32.

Lemma zero_keys_eq : zero_keys = keys_blank.
Proof. reflexivity. Qed.

Lemma do_initiate_spec r : runner_keys_wf r -> 0 <= kw_generation (cr_ku r) < 18446744073709551615 ->
  exists r', do_initiate r = Some r' /\ runner_keys_wf r' /\
    cr_ku_secret r' = expand_field (cr_ku_secret r) quic_ku_label 32 /\
    keyset_at (cr_keys r') 2 = Some (kw_cur (cr_ku r')) /\
    kw_cur (cr_ku r') = mk_ikeys (expand_field (cr_ku_secret r') quic_key_label 16)
                                 (expand_field (cr_ku_secret r') quic_iv_label 12) (local 16) /\
    kw_old (cr_ku r') = kw_cur (cr_ku r) /\ kw_have_old (cr_ku r') = true /\
    kw_generation (cr_ku r') = kw_generation (cr_ku r) + 1 /\
    cr_confirmed r' = cr_confirmed r /\ cr_ku_unacked r' = true /\ cr_ku_sent_in_phase r' = 0 /\ cr_ku_completed_at r' = ku_unset.
Proof.
  intros [Hks Hs] Hg. unfold do_initiate, QUIC_HKDF_PRK. rewrite next_keys_spec, bind_some by done. cbv beta iota zeta.
  pose proof (zlen_expand_field (cr_ku_secret r) quic_ku_label 32 ltac:(lia)) as Hz.
  generalize dependent (expand_field (cr_ku_secret r) quic_ku_label 32). intros sec Hz.
  rewrite copy_loop_len, bind_some by (rewrite ?Hs, ?Hz; closed_arith). change (Z.of_nat (Z.to_nat 32)) with 32.
  assert (He : splice (cr_ku_secret r) 0 (slice sec 0 32) = sec).
  { unfold slice, splice, zlen in *. change (Z.to_nat 0) with 0%nat. rewrite drop_0, take_0, app_nil_l, (take_ge sec) by lia.
    rewrite drop_ge by lia. by rewrite app_nil_r. }
  rewrite He.
  destruct (keyset_install_spec (cr_keys r) QUIC_LEVEL_ONERTT
    (mk_ikeys (expand_field sec quic_key_label 16) (expand_field sec quic_iv_label 12) (ik_hp zero_keys)) Hks)
    as (s' & -> & Hws & Hat); [closed_arith|]. rewrite bind_some. cbv beta iota.
  eexists. split; [reflexivity|]. cbn [cr_keys cr_confirmed cr_ku cr_ku_secret cr_ku_phase cr_ku_completed_at cr_ku_sent_in_phase cr_ku_unacked quic_kuswitch_rotate kw_cur kw_old kw_generation kw_have_old].
  split; [split; assumption|]. split; [reflexivity|]. split; [rewrite Hat; reflexivity|].
  split; [reflexivity|]. split; [reflexivity|]. split; [reflexivity|]. split; [unwrap; lia|]. done.
Qed.

(** Events on the runner that concern the key update: an attempt to initiate, the
    acknowledgement of our update, a discard, packets sent in the phase and the
    confirmation of the handshake. *)
Inductive kr_step : quic_connrunner -> quic_connrunner -> Prop :=
  | kr_initiate r now threshold pto b r' :
      quic_connrunner_maybe_initiate_ku r now threshold pto = Some (b, r') -> kr_step r r'
  | kr_completed r now : kr_step r (quic_connrunner_ku_completed r now)
  | kr_discard r now pto : kr_step r (snd (quic_connrunner_maybe_discard_ku r now pto))
  | kr_sent r n : kr_step r (mk_runner (cr_keys r) (cr_confirmed r) (cr_ku r) (cr_ku_secret r) (cr_ku_phase r)
                    (cr_ku_completed_at r) n (cr_ku_unacked r))
  | kr_confirm r : kr_step r (mk_runner (cr_keys r) true (cr_ku r) (cr_ku_secret r) (cr_ku_phase r)
                    (cr_ku_completed_at r) (cr_ku_sent_in_phase r) (cr_ku_unacked r)).

Inductive kr_reach (r0 : quic_connrunner) : nat -> quic_connrunner -> Prop :=
  | kr_start r : quic_connrunner_keyupdate_init r0 = Some r -> kr_reach r0 0 r
  | kr_next n r r' : kr_reach r0 n r -> kr_step r r' -> kr_reach r0 (S n) r'.

(** The key state of a runner that has updated [g] times: the chain starts from
    the all-zero secret, and the header protection key is all zero. *)
Definition kr_inv (n : nat) (r : quic_connrunner) : Prop :=
  exists g : nat, (g <= n)%nat /\ kw_generation (cr_ku r) = Z.of_nat g /\ runner_keys_wf r /\
    cr_ku_secret r = ku_secret (local 32) g /\
    ((0 < g)%nat -> keyset_at (cr_keys r) 2 = Some (ku_keys (local 32) (local 16) g)).

Lemma kr_inv_init r0 r : keyset_wf (cr_keys r0) -> quic_connrunner_keyupdate_init r0 = Some r -> kr_inv 0 r.
Proof.
  intros Hk. unfold quic_connrunner_keyupdate_init, cur_keys. rewrite keyset_for_level_spec, !bind_some by done.
  intros [= <-]. exists 0%nat. cbn [cr_ku quic_kuswitch_init kw_generation cr_ku_secret cr_keys].
  split; [lia|]. split; [done|]. split; [split; done|]. split; [done|]. intros H. exfalso. lia.
Qed.

Lemma kr_inv_step n r r' : kr_inv n r -> kr_step r r' -> Z.of_nat n < 18446744073709551615 -> kr_inv (S n) r'.
Proof.
  intros (g & Hg & Hgen & Hw & Hs & Hk) Hst Hn.
  assert (Hsame : kr_inv (S n) r) by (exists g; split_and!; try done; lia).
  destruct Hst as [r now threshold pto b r' Hi|r now|r now pto|r m|r].
  - unfold quic_connrunner_maybe_initiate_ku in Hi. destruct (may_initiate r now threshold pto); cbn [negb] in Hi;
      [|by injection Hi as <- <-].
    destruct (do_initiate_spec r Hw) as (r1 & He & Hw1 & Hs1 & Hk1 & Hc1 & _ & _ & Hg1 & _); [lia|].
    rewrite He, bind_some in Hi. injection Hi as <- <-. exists (S g). rewrite Hs, <- ku_secret_S in Hs1.
    split; [lia|]. split; [lia|]. split; [done|]. split; [done|]. intros _. rewrite Hk1, Hc1, Hs1. reflexivity.
  - unfold quic_connrunner_ku_completed. destruct (cr_ku_unacked r); cbn [negb]; [|done]. exists g. split_and!; try done; lia.
  - unfold quic_connrunner_maybe_discard_ku. destruct (may_discard r now pto); cbn [negb snd]; [|done]. exists g. split_and!; try done; lia.
  - exists g. split_and!; try done; lia.
  - exists g. split_and!; try done; lia.
Qed.

Lemma kr_reach_inv r0 n r : keyset_wf (cr_keys r0) -> kr_reach r0 n r -> Z.of_nat n <= 18446744073709551615 -> kr_inv n r.
Proof.
  intros Hk H. induction H as [r Hi|n r r' _ IH Hs]; intros Hn.
  - exact (kr_inv_init r0 r Hk Hi).
  - apply (kr_inv_step n r r'); [apply IH; lia|done|lia].
Qed.

(** C28: the keys a connection installs at a key update do not come from its
    handshake.  In every reachable state whose generation is positive, the
    installed 1-RTT keys are the generation's keys of the chain that starts from
    the all-zero secret, with an all-zero header protection key: they are the
    same for every connection, whatever keys were installed before.  (The
    comment on [ku_secret] calls it the application traffic secret, but nothing
    ever writes the connection's secret there; and RFC 9001 section 6 keeps the
    header protection key, which the derivation leaves untouched in a zeroed
    structure.) *)
Theorem connrunner_update_keys_public (r0 r : quic_connrunner) (n : nat)
  (Hwf : keyset_wf (cr_keys r0)) (Hr : kr_reach r0 n r) (Hn : Z.of_nat n <= 18446744073709551615)
  (Hg : 0 < kw_generation (cr_ku r)) :
  quic_keyset_for_level (cr_keys r) QUIC_LEVEL_ONERTT =
  Some (Some (ku_keys (local 32) (local 16) (Z.to_nat (kw_generation (cr_ku r))))).
Proof.
  destruct (kr_reach_inv r0 n r Hwf Hr Hn) as (g & _ & Hgen & [Hw _] & _ & Hk).
  rewrite keyset_for_level_spec by done. rewrite Hgen, Nat2Z.id in *. unfold QUIC_LEVEL_ONERTT. rewrite Hk by lia. reflexivity.
Qed.

(** A runner with 1-RTT keys of 1s at level 2, confirmed, after one update. *)
Definition runner_example : quic_connrunner :=
  mk_runner (mk_keyset (repeat (mk_ikeys (repeat 1 16) (repeat 1 12) (repeat 1 16)) 3) [true; true; true]) true
    (mk_kuswitch zero_keys zero_keys 0 false) (repeat 7 32) 0 0 9 false.

(** Witness of C28: one update of a confirmed connection. *)
Lemma connrunner_update_keys_public_witness :
  exists r, kr_reach runner_example 1 r /\
    quic_keyset_for_level (cr_keys r) QUIC_LEVEL_ONERTT = Some (Some (ku_keys (local 32) (local 16) 1)).
Proof.
  assert (Hk : keyset_wf (cr_keys runner_example)) by (split; reflexivity).
  assert (Hi : exists r, quic_connrunner_keyupdate_init runner_example = Some r) by (eexists; reflexivity).
  destruct Hi as [r Hi]. pose proof (kr_reach_inv runner_example 0 r Hk (kr_start _ r Hi) ltac:(closed_arith)) as (g & Hg & Hgen & Hw & _).
  destruct (do_initiate_spec r Hw) as (r' & Hd & _ & _ & _ & _ & _ & _ & Hg' & _); [lia|].
  assert (Hm : quic_connrunner_maybe_initiate_ku r 0 0 0 = Some (true, r')).
  { unfold quic_connrunner_maybe_initiate_ku. rewrite Hd. injection Hi as <-. reflexivity. }
  pose proof (kr_next runner_example 0 r r' (kr_start _ r Hi) (kr_initiate r 0 0 0 true r' Hm)) as Hr.
  exists r'. split; [exact Hr|].
  assert (g = 0%nat) as -> by lia. rewrite Hgen in Hg'.
  rewrite (connrunner_update_keys_public runner_example r' 1 Hk Hr ltac:(closed_arith) ltac:(rewrite Hg'; reflexivity)).
  rewrite Hg'. reflexivity.
Defined.

(** A key update is initiated exactly when the handshake is confirmed, the
    packets sent under the current keys reach the threshold, no update of ours is
    unacknowledged, and three PTOs have passed since the last completed one (if
    any).  It then moves to the next generation, keeps the previous keys and
    blocks further updates until it is acknowledged; otherwise nothing changes. *)
Theorem connrunner_initiate_gates (r0 r : quic_connrunner) (n : nat) (now threshold pto : Z)
  (Hwf : keyset_wf (cr_keys r0)) (Hr : kr_reach r0 n r) (Hn : Z.of_nat n < 18446744073709551615)
  (Hpto : 0 <= pto) (Hc : cr_ku_completed_at r = ku_unset \/
                          0 <= cr_ku_completed_at r /\ cr_ku_completed_at r + 3 * pto < ku_unset) :
  exists b r', quic_connrunner_maybe_initiate_ku r now threshold pto = Some (b, r') /\
    (b = true <-> cr_confirmed r = true /\ threshold <= cr_ku_sent_in_phase r /\ cr_ku_unacked r = false /\
       (cr_ku_completed_at r = ku_unset \/ cr_ku_completed_at r + 3 * pto <= now)) /\
    if b then kw_generation (cr_ku r') = kw_generation (cr_ku r) + 1 /\
              quic_kuswitch_key_for_phase (cr_ku r') (quic_kuswitch_phase_bit (kw_generation (cr_ku r))) = Some (kw_cur (cr_ku r)) /\
              forall now' threshold' pto', quic_connrunner_maybe_initiate_ku r' now' threshold' pto' = Some (false, r')
    else r' = r.
Proof.
  destruct (kr_reach_inv r0 n r Hwf Hr ltac:(lia)) as (g & Hg & Hgen & Hw & _ & _).
  unfold quic_connrunner_maybe_initiate_ku.
  assert (Hiff : may_initiate r now threshold pto = true <-> cr_confirmed r = true /\ threshold <= cr_ku_sent_in_phase r /\
    cr_ku_unacked r = false /\ (cr_ku_completed_at r = ku_unset \/ cr_ku_completed_at r + 3 * pto <= now)).
  { unfold may_initiate, quic_kudrive_should_initiate, at_limit, reinit_floor_ok, quic_kudrive_can_initiate_again, retention_elapsed.
    rewrite !andb_true_iff, negb_true_iff, Z.leb_le. destruct (Z.eqb_spec (cr_ku_completed_at r) ku_unset) as [E|E].
    - split; [intros [[[? ?] ?] _]|intros (? & ? & ? & _)]; split_and!; try done; auto.
    - destruct Hc as [Hc|[Hc1 Hc2]]; [done|]. unfold ku_unset in *. unwrap. rewrite Z.leb_le. split.
      + intros [[[? ?] ?] ?]. split_and!; try done; auto.
      + intros (? & ? & ? & [?|?]); split_and!; done. }
  destruct (may_initiate r now threshold pto); cbn [negb].
  - destruct (do_initiate_spec r Hw) as (r' & He & _ & _ & _ & _ & Ho & Hh & Hg' & Hcf & Hu & _ & _); [lia|].
    rewrite He, bind_some. exists true, r'. split; [reflexivity|]. split; [exact Hiff|]. split; [exact Hg'|]. split.
    + unfold quic_kuswitch_key_for_phase, wants_current, quic_kuswitch_phase_bit. rewrite Hg', Hh, Ho, Hgen.
      replace (Z.of_nat g + 1) with (Z.of_nat (S g)) by lia. rewrite !phase_parity, Nat.even_succ, <- Nat.negb_even.
      destruct (Nat.even g); reflexivity.
    + intros now' threshold' pto'. unfold may_initiate. rewrite Hu, andb_false_r. reflexivity.
  - exists false, r. split; [reflexivity|]. split; [exact Hiff|reflexivity].
Qed.

(** Witness: nothing happens below the threshold. *)
Lemma connrunner_initiate_gates_witness :
  exists r b r', quic_connrunner_keyupdate_init runner_example = Some r /\
    quic_connrunner_maybe_initiate_ku r 100 5 10 = Some (b, r') /\ (if b then False else r' = r).
Proof.
  assert (Hi : exists r, quic_connrunner_keyupdate_init runner_example = Some r) by (eexists; reflexivity).
  destruct Hi as [r Hi].
  destruct (connrunner_initiate_gates runner_example r 0 100 5 10 (conj eq_refl eq_refl) (kr_start _ r Hi)
    ltac:(closed_arith) ltac:(closed_arith)) as (b & r' & H1 & H2 & H3); [injection Hi as <-; left; reflexivity|].
  exists r, b, r'. split; [exact Hi|]. split; [exact H1|]. injection Hi as <-. destruct b; [|exact H3].
  destruct (proj1 H2 eq_refl) as (_ & Ht & _). cbn in Ht. lia.
Defined.

(** The receiver follows a peer's update only from generation 0: once it has
    updated and discarded the old keys, a packet of the peer's next generation is
    dropped. *)
Lemma recv_drops_second_update (r : quic_connrunner) (byte0 : Z) :
  0 < kw_generation (cr_ku r) -> kw_have_old (cr_ku r) = false ->
  quic_keyphase_get byte0 <> quic_keyphase_bit (kw_generation (cr_ku r)) ->
  quic_connrunner_recv_keygen r byte0 = -1.
Proof.
  intros Hg Hh Hb. unfold quic_connrunner_recv_keygen, select_next, quic_kuswitch_key_for_phase, wants_current.
  zdecide. cbn [andb]. rewrite Hh. done.
Qed.
