(* ===== verification/TlsMsg.v ===== *)
(** TLS 1.3 handshake messages: building and parsing.

    Under [tls/handshake]: the message header ([core/tls/handshake.c],
    [hs_message.c], [msgassembly.c]), the extension encoders ([ext_versions.c],
    [ext_algs.c], [ext_keyshare.c], [ext_block.c], [alpn.c], [alpn_match.c], [sni.c],
    [tpext.c]), the ClientHello ([clienthello.c]), the ServerHello parser
    ([serverhello.c]) and builder ([roles/shbuild]), and the ClientHello extension
    lookup of [tls/ext/salpn/ch_ext.c] with ALPN and SNI selection
    ([negotiate.c], [sni_extract.c]).

    A pointer into a message is the list from that position on; a returned view
    is the bytes it denotes. *)
From Stdlib Require Import Ascii String.
From S2P Require Import Prelude.
From S2P Require Import Buffers.
From S2P Require Import CStrings.
From S2P Require Import Headers.
From S2P Require Import TransportParams.

(** [(b[i] << 8) | b[i + 1]]. *)
Definition be16_at (l : list Z) (i : Z) : option Z :=
  a ← load l i; b ← load l (i + 1); Some (Z.lor (Z.shiftl a 8) b).

(** [p + k]. *)
Definition ptr (l : list Z) (k : Z) : list Z := drop (Z.to_nat k) l.

(** * handshake.c, hs_message.c, msgassembly.c *)

Definition QUIC_HS_CLIENT_HELLO : Z := 1.
Definition QUIC_HS_SERVER_HELLO : Z := 2.
Definition QUIC_HS_ENCRYPTED_EXT : Z := 8.
Definition QUIC_HS_FINISHED : Z := 20.
Definition QUIC_TLS_AES128_GCM_SHA256 : Z := 0x1301.
Definition QUIC_EXT_SUPPORTED_VERSIONS : Z := 43.
Definition QUIC_EXT_KEY_SHARE : Z := 51.
Definition QUIC_GROUP_X25519 : Z := 0x001d.
Definition QUIC_HS_HEADER : Z := 4.

Definition quic_hs_begin (out : list Z) (cap msg_type : Z) : option (Z * list Z) :=
  if cap <? 4 then Some (0, out)
  else out ← store_bytes out 0 [msg_type; 0; 0; 0]; Some (4, out).

Definition quic_hs_finish (out : list Z) (total : Z) : option (list Z) :=
  let body := total -w 4 in
  store_bytes out 1 [u8 (Z.shiftr body 16); u8 (Z.shiftr body 8); u8 body].

(** [(b[1] << 16) | (b[2] << 8) | b[3]]. *)
Definition be24_at1 (buf : list Z) : option Z :=
  b1 ← load buf 1; b2 ← load buf 2; b3 ← load buf 3;
  Some (Z.lor (Z.lor (Z.shiftl b1 16) (Z.shiftl b2 8)) b3).

(** [Some (Some (type, body_len))] when it returns 4. *)
Definition quic_hs_parse (buf : list Z) (n : Z) : option (option (Z * Z)) :=
  if n <? 4 then Some None
  else len ← be24_at1 buf;
       if n <? 4 +w len then Some None
       else t ← load buf 0; Some (Some (t, len)).

Definition quic_hs_message_ready (buf : list Z) (buffered : Z) : option (option Z) :=
  if buffered <? QUIC_HS_HEADER then Some None
  else body ← be24_at1 buf;
       let total := QUIC_HS_HEADER +w body in
       if buffered <? total then Some None else Some (Some total).
Definition quic_hs_message_type (buf : list Z) : option Z := load buf 0.

Definition quic_tls_message_complete (buffered declared_len : Z) : bool := declared_len +w 4 <=? buffered.
Definition quic_tls_message_len (hs_header : list Z) : option Z := be24_at1 hs_header.

(** The minimal hello of [quic_hs_build_hello] and its reader. *)
Definition put_key_share (out : list Z) (off : Z) (pub : list Z) : option (list Z * Z) :=
  out ← store_bytes out off (quic_put_be16 QUIC_EXT_KEY_SHARE);
  out ← store_bytes out (off + 2) (quic_put_be16 36);
  out ← store_bytes out (off + 4) (quic_put_be16 QUIC_GROUP_X25519);
  out ← store_bytes out (off + 6) (quic_put_be16 32);
  out ← copy_loop 32 out (off + 8) pub 0;
  Some (out, off + 40).

Definition put_hello_prefix (out : list Z) (off : Z) (random : list Z) : option (list Z * Z) :=
  out ← store_bytes out off (quic_put_be16 0x0303);
  out ← copy_loop 32 out (off + 2) random 0;
  out ← store out (off + 34) 0;
  Some (out, off + 35).

Definition quic_hs_build_hello (out : list Z) (cap msg_type : Z) (random pub : list Z) : option (Z * list Z) :=
  '(off, out) ← quic_hs_begin out cap msg_type;
  if (off =? 0) || (cap <? 4 + 35 + 4 + 40) then Some (0, out)
  else
    '(out, off) ← put_hello_prefix out off random;
    out ← store_bytes out off (quic_put_be16 QUIC_TLS_AES128_GCM_SHA256);
    out ← store out (off + 2) 0;
    out ← store_bytes out (off + 3) (quic_put_be16 40);
    '(out, off) ← put_key_share out (off + 5) pub;
    out ← quic_hs_finish out off;
    Some (off, out).

Definition share_present (body : list Z) (body_len ks : Z) : option bool :=
  if body_len <? ks + 40 then Some false
  else a ← load body ks; b ← load body (ks + 1); Some ((a =? 0) && (b =? QUIC_EXT_KEY_SHARE)).

(** [pub0] is the caller's array before the call. *)
Definition quic_hs_peer_share (body : list Z) (body_len : Z) (pub0 : list Z) : option (option (list Z)) :=
  let ks := 35 + 2 + 1 + 2 in
  b ← share_present body body_len ks;
  if negb b then Some None
  else pub ← copy_loop 32 pub0 0 body (ks + 8); Some (Some pub).

(** * ext_versions.c, ext_algs.c, ext_block.c *)

Definition QUIC_TLS13_VERSION : Z := 0x0304.
Definition QUIC_EXT_SUPPORTED_GROUPS : Z := 0x000a.
Definition QUIC_EXT_SIGNATURE_ALGORITHMS : Z := 0x000d.
Definition QUIC_SIG_ECDSA_SECP256R1_SHA256 : Z := 0x0403.
Definition QUIC_SIG_RSA_PSS_RSAE_SHA256 : Z := 0x0804.
Definition QUIC_SIG_ED25519 : Z := 0x0807.

Definition quic_tls_ext_supported_versions (buf : list Z) (cap : Z) : option (Z * list Z) :=
  if cap <? 7 then Some (0, buf)
  else
    buf ← store_bytes buf 0 (quic_put_be16 QUIC_EXT_SUPPORTED_VERSIONS);
    buf ← store_bytes buf 2 (quic_put_be16 3);
    buf ← store buf 4 2;
    buf ← store_bytes buf 5 (quic_put_be16 QUIC_TLS13_VERSION);
    Some (7, buf).

Definition versions_header_ok (buf : list Z) (n : Z) : option bool :=
  dlen ← be16_at buf 2;
  t ← be16_at buf 0;
  Some ((t =? QUIC_EXT_SUPPORTED_VERSIONS) && (4 + dlen <=? n)).
Definition versions_framed (buf : list Z) (n : Z) : option bool :=
  if n <? 5 then Some false
  else
    h ← versions_header_ok buf n;
    if negb (h : bool) then Some false
    else dlen ← be16_at buf 2; l ← load buf 4; Some (dlen =? l + 1).
Definition versions_count (buf : list Z) : option Z :=
  llen ← load buf 4; Some (if Z.land llen 1 =? 0 then llen / 2 else 0).
Definition is_tls13_at (buf : list Z) (i : Z) : option bool :=
  v ← be16_at buf (5 + 2 * i); Some (v =? QUIC_TLS13_VERSION).
Fixpoint versions_scan (k : nat) (buf : list Z) (i : Z) : option bool :=
  match k with
  | O => Some false
  | S k' => b ← is_tls13_at buf i; if (b : bool) then Some true else versions_scan k' buf (i + 1)
  end.
Definition quic_tls_ext_versions_has_tls13 (buf : list Z) (n : Z) : option bool :=
  f ← versions_framed buf n;
  if negb (f : bool) then Some false else cnt ← versions_count buf; versions_scan (Z.to_nat cnt) buf 0.

Definition quic_tls_ext_supported_groups (buf : list Z) (cap : Z) : option (Z * list Z) :=
  if cap <? 8 then Some (0, buf)
  else
    buf ← store_bytes buf 0 (quic_put_be16 QUIC_EXT_SUPPORTED_GROUPS);
    buf ← store_bytes buf 2 (quic_put_be16 4);
    buf ← store_bytes buf 4 (quic_put_be16 2);
    buf ← store_bytes buf 6 (quic_put_be16 QUIC_GROUP_X25519);
    Some (8, buf).

Definition quic_tls_ext_sig_algs (buf : list Z) (cap : Z) : option (Z * list Z) :=
  if cap <? 12 then Some (0, buf)
  else
    buf ← store_bytes buf 0 (quic_put_be16 QUIC_EXT_SIGNATURE_ALGORITHMS);
    buf ← store_bytes buf 2 (quic_put_be16 8);
    buf ← store_bytes buf 4 (quic_put_be16 6);
    buf ← store_bytes buf 6 (quic_put_be16 QUIC_SIG_ECDSA_SECP256R1_SHA256);
    buf ← store_bytes buf 8 (quic_put_be16 QUIC_SIG_RSA_PSS_RSAE_SHA256);
    buf ← store_bytes buf 10 (quic_put_be16 QUIC_SIG_ED25519);
    Some (12, buf).

Definition quic_tls_ext_block_begin (cap : Z) : option Z := if cap <? 2 then None else Some 2.
Definition quic_tls_ext_append (ext : list Z) (ext_len : Z) : wr := quic_put_bytes ext ext_len.
Definition quic_tls_ext_block_finish (buf : list Z) (off block_start : Z) : option (Z * list Z) :=
  let body := off -w block_start -w 2 in
  if 0xFFFF <? body then Some (0, buf)
  else buf ← store_bytes buf block_start (quic_put_be16 (u16 body)); Some (off, buf).

(** * ext_keyshare.c *)

Definition quic_tls_ext_key_share (buf : list Z) (cap : Z) (pub : list Z) : option (Z * list Z) :=
  if cap <? 42 then Some (0, buf)
  else
    buf ← store_bytes buf 0 (quic_put_be16 QUIC_EXT_KEY_SHARE);
    buf ← store_bytes buf 2 (quic_put_be16 38);
    buf ← store_bytes buf 4 (quic_put_be16 36);
    buf ← store_bytes buf 6 (quic_put_be16 QUIC_GROUP_X25519);
    buf ← store_bytes buf 8 (quic_put_be16 32);
    buf ← copy_loop 32 buf 10 pub 0;
    Some (42, buf).

Definition entry_ok (buf : list Z) (n : Z) : option bool :=
  if n <? 36 then Some false
  else g ← be16_at buf 0;
       if negb (g =? QUIC_GROUP_X25519) then Some false
       else k ← be16_at buf 2; Some (k =? 32).

Definition quic_tls_ext_key_share_parse (buf : list Z) (n : Z) (pub0 : list Z) : option (option (list Z)) :=
  b ← entry_ok buf n;
  if negb (b : bool) then Some None else pub ← copy_loop 32 pub0 0 buf 4; Some (Some pub).

Definition ks_entry_fits (e : list Z) (avail : Z) : option bool :=
  if avail <? 4 then Some false else kelen ← be16_at e 2; Some (4 + kelen <=? avail).

Definition ks_list_len (buf : list Z) (n : Z) : option (option Z) :=
  if n <? 2 then Some None
  else list ← be16_at buf 0; Some (if 2 + list <=? n then Some list else None).

(** [fuel] bounds the entries: each one is at least four bytes. *)
Fixpoint ks_find_x25519 (fuel : nat) (buf : list Z) (off end_ : Z) (pub0 : list Z) : option (option (list Z)) :=
  match fuel with
  | O => None
  | S fuel' =>
      f ← ks_entry_fits (ptr buf off) (end_ -w off);
      if negb (f : bool) then Some None
      else
        b ← entry_ok (ptr buf off) (end_ -w off);
        if (b : bool) then
          match quic_take_bytes pub0 32 buf end_ (off + 4) with
          | None => None
          | Some (r, _) => Some r
          end
        else kelen ← be16_at buf (off + 2); ks_find_x25519 fuel' buf (off + (4 + kelen)) end_ pub0
  end.

Definition quic_tls_ext_key_share_scan (buf : list Z) (n : Z) (pub0 : list Z) : option (option (list Z)) :=
  l ← ks_list_len buf n;
  match l with
  | None => Some None
  | Some list => ks_find_x25519 (S (Z.to_nat n)) buf 2 (2 + list) pub0
  end.

(** * alpn.c, alpn_match.c, sni.c, tpext.c *)

Definition QUIC_ALPN_TYPE : Z := 0x0010.
Definition QUIC_SNI_TYPE : Z := 0x0000.
Definition QUIC_SNI_HOST_NAME : Z := 0x00.
Definition QUIC_TPEXT_TYPE : Z := 0x39.

Definition alpn_fits (proto_len cap : Z) : bool :=
  if (proto_len =? 0) || (0xFF <? proto_len) then false else 3 + proto_len <=? cap.

(** The tail [quic_put_bytes(buf, cap, &off, ...)] whose result is ignored. *)
Definition put_ignored (src : list Z) (n cap : Z) (buf : list Z) (off : Z) : option (Z * list Z) :=
  match quic_put_bytes src n cap (buf, off) with None => None | Some (_, (buf', off')) => Some (off', buf') end.

Definition quic_tls_alpn_encode (buf : list Z) (cap : Z) (proto : list Z) (proto_len : Z) : option (Z * list Z) :=
  if negb (alpn_fits proto_len cap) then Some (0, buf)
  else
    buf ← store_bytes buf 0 (quic_put_be16 (u16 (1 + proto_len)));
    buf ← store buf 2 (u8 proto_len);
    put_ignored proto proto_len cap buf 3.

Definition alpn_head (buf : list Z) (n list_len : Z) : option (option Z) :=
  if (list_len <? 1) || (n <? 2 + list_len) then Some None
  else name_len ← load buf 2; Some (if 1 + name_len <=? list_len then Some name_len else None).

(** [Some (Some (proto, consumed))]. *)
Definition quic_tls_alpn_decode_first (buf : list Z) (n : Z) : option (option (list Z * Z)) :=
  if n <? 3 then Some None
  else list_len ← be16_at buf 0;
       h ← alpn_head buf n list_len;
       match h with
       | None => Some None
       | Some name_len => Some (Some (slice buf 3 name_len, 2 + list_len))
       end.

Definition quic_tls_alpn_equal (a : list Z) (alen : Z) (b : list Z) (blen : Z) : option bool :=
  if negb (alen =? blen) then Some false
  else d ← diff_loop (Z.to_nat alen) 0 a b 0; Some (d =? 0).
Definition h3_name : list Z := [0x68; 0x33].
Definition quic_tls_alpn_is_h3 (proto : list Z) (len : Z) : option bool := quic_tls_alpn_equal proto len h3_name 2.

Definition quic_tls_sni_encode (buf : list Z) (cap : Z) (host : list Z) (host_len : Z) : option (Z * list Z) :=
  if (0xFFFF <? host_len) || (cap <? 3 +w host_len) then Some (0, buf)
  else
    buf ← store buf 0 QUIC_SNI_HOST_NAME;
    buf ← store_bytes buf 1 (quic_put_be16 (u16 host_len));
    put_ignored host host_len cap buf 3.

Definition sni_head (buf : list Z) (n : Z) : option (option Z) :=
  if n <? 3 then Some None
  else len ← be16_at buf 1; t ← load buf 0;
       Some (if (t =? QUIC_SNI_HOST_NAME) && (3 + len <=? n) then Some len else None).

Definition quic_tls_sni_decode (buf : list Z) (n : Z) : option (option (list Z * Z)) :=
  h ← sni_head buf n;
  match h with None => Some None | Some len => Some (Some (slice buf 3 len, 3 + len)) end.

Definition quic_tpext_encode (buf : list Z) (cap : Z) (tp_data : list Z) (tp_len : Z) : option (Z * list Z) :=
  if (0xFFFF <? tp_len) || (cap <? 4 +w tp_len) then Some (0, buf)
  else
    buf ← store_bytes buf 0 (quic_put_be16 QUIC_TPEXT_TYPE);
    buf ← store_bytes buf 2 (quic_put_be16 (u16 tp_len));
    put_ignored tp_data tp_len cap buf 4.

Definition tpext_head (buf : list Z) (n : Z) : option (option Z) :=
  if n <? 4 then Some None
  else t ← be16_at buf 0;
       if negb (t =? QUIC_TPEXT_TYPE) then Some None
       else len ← be16_at buf 2; Some (if 4 + len <=? n then Some len else None).

Definition quic_tpext_decode (buf : list Z) (n : Z) : option (option (list Z * Z)) :=
  h ← tpext_head buf n;
  match h with None => Some None | Some len => Some (Some (slice buf 4 len, 4 + len)) end.

(** * clienthello.c *)

Definition put_prefix (out : list Z) (off : Z) (random : list Z) : option (list Z * Z) :=
  out ← store_bytes out off (quic_put_be16 0x0303);
  out ← copy_loop 32 out (off + 2) random 0;
  out ← store out (off + 34) 0;
  out ← store_bytes out (off + 35) (quic_put_be16 2);
  out ← store_bytes out (off + 37) (quic_put_be16 QUIC_TLS_AES128_GCM_SHA256);
  out ← store out (off + 39) 1;
  out ← store out (off + 40) 0;
  Some (out, off + 41).

Definition append_wrapped (type : Z) (body : list Z) (body_len : Z) : wr :=
  let hdr := quic_put_be16 type ++ quic_put_be16 (u16 body_len) in
  quic_tls_ext_append hdr 4 ;;; quic_tls_ext_append body body_len.

(** [(w != 0) & append(...)]: the extension was encoded into a scratch array. *)
Definition append_if (w : Z) (p : wr) : wr := fun cap st =>
  match p cap st with None => None | Some (b, st') => Some (negb (w =? 0) && b, st') end.

Definition append_self (enc : list Z -> Z -> option (Z * list Z)) : wr := fun cap st =>
  match enc (local 16) 16 with
  | None => None
  | Some (w, scratch) => append_if w (quic_tls_ext_append scratch w) cap st
  end.

Definition append_core (pub : list Z) : wr := fun cap st =>
  match quic_tls_ext_key_share (local 42) 42 pub with
  | None => None
  | Some (kw, ks) =>
      wr_and (wr_and (wr_and (append_self quic_tls_ext_supported_versions) (append_self quic_tls_ext_supported_groups))
                     (append_self quic_tls_ext_sig_algs))
             (append_if kw (quic_tls_ext_append ks kw)) cap st
  end.

Definition append_sni (sni : list Z) (sni_len : Z) : wr := fun cap st =>
  if sni_len =? 0 then Some (true, st)
  else match on_tail 2 (fun b => quic_tls_sni_encode b (260 - 2) sni sni_len) (local 260) with
       | None => None
       | Some (e, body) =>
           match store_bytes body 0 (quic_put_be16 (u16 e)) with
           | None => None
           | Some body => append_if e (append_wrapped QUIC_SNI_TYPE body (e + 2)) cap st
           end
       end.

Definition append_alpn : wr := fun cap st =>
  match quic_tls_alpn_encode (local 16) 16 (c_str "h3") 2 with
  | None => None
  | Some (a, body) => append_if a (append_wrapped QUIC_ALPN_TYPE body a) cap st
  end.

Definition append_tp (tp : list Z) (tp_len : Z) : wr := fun cap st =>
  match quic_tpext_encode (local 2048) 2048 tp tp_len with
  | None => None
  | Some (w, ext) => append_if w (quic_tls_ext_append ext w) cap st
  end.

(** The end offset, 0 on overflow. *)
Definition append_exts (buf : list Z) (cap off : Z) (pub sni : list Z) (sni_len : Z) (tp : list Z) (tp_len : Z)
  : option (Z * list Z) :=
  match wr_and (wr_and (wr_and (append_core pub) (append_sni sni sni_len)) append_alpn) (append_tp tp tp_len) cap (buf, off) with
  | None => None
  | Some (ok, (buf', off')) => Some (if ok then off' else 0, buf')
  end.

Definition ch_finish (buf : list Z) (off block_start : Z) : option (Z * list Z) :=
  if off =? 0 then Some (0, buf)
  else
    '(end_, buf) ← quic_tls_ext_block_finish buf off block_start;
    if negb (end_ =? 0) then buf ← quic_hs_finish buf end_; Some (end_, buf) else Some (end_, buf).

Definition quic_tls_client_hello (buf : list Z) (cap : Z) (random pub sni : list Z) (sni_len : Z) (tp : list Z) (tp_len : Z)
  : option (Z * list Z) :=
  '(off, buf) ← quic_hs_begin buf cap QUIC_HS_CLIENT_HELLO;
  if (off =? 0) || (cap <? off + 41 + 2) then Some (0, buf)
  else
    '(buf, block_start) ← put_prefix buf off random;
    '(off, buf) ← append_exts buf cap (block_start + 2) pub sni sni_len tp tp_len;
    ch_finish buf off block_start.

(** * salpn: ch_ext.c *)

Definition rd16 (p : list Z) : option Z := be16_at p 0.

(** The position after the vector, [None] when it does not fit. *)
Definition salpn_skip_v8 (m : list Z) (end_ p : Z) : option (option Z) :=
  if end_ <? p +w 1 then Some None
  else n ← load m p; let p' := p +w (1 + n) in Some (if p' <=? end_ then Some p' else None).
Definition salpn_skip_v16 (m : list Z) (end_ p : Z) : option (option Z) :=
  if end_ <? p +w 2 then Some None
  else n ← rd16 (ptr m p); let p' := p +w (2 + n) in Some (if p' <=? end_ then Some p' else None).

(** [if (!p) return 0;] on a step that yields a new position. *)
Definition step_pos {A} (o : option (option Z)) (k : Z -> option (option A)) : option (option A) :=
  r ← o; match r with None => Some None | Some p => k p end.

Definition to_exts (m : list Z) (end_ p : Z) : option (option Z) :=
  let p := p + (2 + 32) in
  step_pos (salpn_skip_v8 m end_ p) (fun p =>
  step_pos (salpn_skip_v16 m end_ p) (fun p =>
  salpn_skip_v8 m end_ p)).

(** [Some (inl r)]: the scan returns [r]; [Some (inr q')]: it goes on at [q']. *)
Definition one_ext (m : list Z) (q end_ ext_type : Z) : option (option (list Z * Z) + Z) :=
  dlen ← rd16 (ptr m (q + 2));
  if end_ <? q + 4 +w dlen then Some (inl None)
  else t ← rd16 (ptr m q);
       if t =? ext_type then Some (inl (Some (slice m (q + 4) dlen, dlen)))
       else Some (inr (q + (4 + dlen))).

(** [while (q + 4 <= end)]: every turn advances by at least four. *)
Fixpoint scan (fuel : nat) (m : list Z) (q end_ ext_type : Z) : option (option (list Z * Z)) :=
  match fuel with
  | O => None
  | S fuel' =>
      if q +w 4 <=? end_ then
        r ← one_ext m q end_ ext_type;
        match r with inl r => Some r | inr q' => scan fuel' m q' end_ ext_type end
      else Some None
  end.

(** [Some (Some (q, end))]. *)
Definition block_end (m : list Z) (n p : Z) : option (option (Z * Z)) :=
  if n <? p +w 2 then Some None
  else l ← rd16 (ptr m p);
       let end_ := p + 2 + l in Some (if end_ <=? n then Some (p + 2, end_) else None).
Definition exts_bounds (m : list Z) (n : Z) : option (option (Z * Z)) :=
  step_pos (to_exts m n 4) (block_end m n).

Definition quic_salpn_find_extension (ch_msg : list Z) (ch_len ext_type : Z) : option (option (list Z * Z)) :=
  b ← exts_bounds ch_msg ch_len;
  match b with
  | None => Some None
  | Some (q, end_) => scan (S (Z.to_nat ch_len)) ch_msg q end_ ext_type
  end.

(** * salpn: negotiate.c, sni_extract.c *)

(** The result and the next position. *)
Definition entry_is_h3 (m : list Z) (end_ p : Z) : option (bool * Z) :=
  nlen ← load m p;
  if end_ <? p + 1 + nlen then Some (false, end_)
  else b ← quic_tls_alpn_is_h3 (ptr m (p + 1)) nlen; Some (b, p + (1 + nlen)).

Definition list_end (m : list Z) (len : Z) : option Z :=
  if len <? 2 then Some 0
  else l ← be16_at m 0; let end_ := 2 + l in Some (if end_ <=? len then end_ else 0).

Fixpoint select_h3_loop (fuel : nat) (m : list Z) (p end_ : Z) (hit : bool) : option bool :=
  match fuel with
  | O => None
  | S fuel' =>
      if p <? end_ then
        '(hit, p) ← entry_is_h3 m end_ p;
        select_h3_loop fuel' m (if (hit : bool) then end_ else p) end_ hit
      else Some hit
  end.
Definition quic_salpn_select_h3 (alpn_ext_data : list Z) (len : Z) : option bool :=
  end_ ← list_end alpn_ext_data len;
  select_h3_loop (S (Z.to_nat len)) alpn_ext_data 2 end_ false.

Definition alpn_response : list Z := [0x00; 0x10; 0x00; 0x05; 0x00; 0x03; 0x02; 0x68; 0x33].
Definition quic_salpn_build_response (out : list Z) (cap : Z) : option (option Z * list Z) :=
  if cap <? 9 then Some (None, out) else out ← copy_loop 9 out 0 alpn_response 0; Some (Some 9, out).

Definition quic_salpn_extract_sni (sni_ext_data : list Z) (len : Z) : option (option (list Z)) :=
  if len <? 2 then Some None
  else list_len ← be16_at sni_ext_data 0;
       if len <? 2 + list_len then Some None
       else r ← quic_tls_sni_decode (ptr sni_ext_data 2) list_len;
            Some (match r with None => None | Some (h, used) => if used =? 0 then None else Some h end).

(** * serverhello.c *)

(** [Some (Some (cipher, exts))]. *)
Definition sh_prefix (b : list Z) (n : Z) : option (option (Z * Z)) :=
  if n <? 35 then Some None
  else sid ← load b 34;
       let p := 34 + (1 + sid) in
       if n <? p + 3 then Some None
       else c ← be16_at b p; Some (Some (c, p + 3)).

Definition take_version (d : list Z) (dlen version : Z) : option Z :=
  if dlen =? 2 then be16_at d 0 else Some version.

(** The outputs threaded through the walk. *)
Record sh_out := mk_shout { so_pub : list Z; so_version : Z; so_have_ks : bool }.

Definition sh_ext (t : Z) (d : list Z) (dlen : Z) (o : sh_out) : option sh_out :=
  if t =? QUIC_EXT_KEY_SHARE then
    r ← quic_tls_ext_key_share_parse d dlen (so_pub o);
    Some (match r with
          | Some pub => mk_shout pub (so_version o) true
          | None => mk_shout (so_pub o) (so_version o) false
          end)
  else if t =? QUIC_EXT_SUPPORTED_VERSIONS then
    v ← take_version d dlen (so_version o); Some (mk_shout (so_pub o) v (so_have_ks o))
  else Some o.

Fixpoint sh_walk (fuel : nat) (b : list Z) (q end_ : Z) (o : sh_out) : option (bool * sh_out) :=
  match fuel with
  | O => None
  | S fuel' =>
      if q +w 4 <=? end_ then
        t ← be16_at b q;
        dlen ← be16_at b (q + 2);
        if end_ <? q + 4 + dlen then Some (false, o)
        else o ← sh_ext t (ptr b (q + 4)) dlen o; sh_walk fuel' b (q + (4 + dlen)) end_ o
      else Some (so_have_ks o, o)
  end.

Definition sh_block (b : list Z) (n exts : Z) : option (option (Z * Z)) :=
  if n <? exts + 2 then Some None
  else blen ← be16_at b exts;
       let q := exts + 2 in let end_ := q + blen in
       Some (if end_ <=? n then Some (q, end_) else None).

Definition is_server_hello (buf : list Z) (n : Z) : option (option Z) :=
  r ← quic_hs_parse buf n;
  Some (match r with
        | Some (t, body_len) => if t =? QUIC_HS_SERVER_HELLO then Some body_len else None
        | None => None
        end).

(** [Some (Some (cipher, q, end))]. *)
Definition sh_locate (b : list Z) (body_len : Z) : option (option (Z * Z * Z)) :=
  r ← sh_prefix b body_len;
  match r with
  | None => Some None
  | Some (cipher, exts) =>
      s ← sh_block b body_len exts;
      Some (match s with None => None | Some (q, end_) => Some (cipher, q, end_) end)
  end.

(** [pub0] and [version0] are the outputs before the call; on success the key,
    the cipher suite and the version. *)
Definition quic_tls_parse_server_hello (buf : list Z) (n : Z) (pub0 : list Z) (version0 : Z)
  : option (option (list Z * Z * Z)) :=
  h ← is_server_hello buf n;
  match h with
  | None => Some None
  | Some body_len =>
      l ← sh_locate (ptr buf 4) body_len;
      match l with
      | None => Some None
      | Some (cipher, q, end_) =>
          '(ok, o) ← sh_walk (S (Z.to_nat body_len)) (ptr buf 4) q end_ (mk_shout pub0 version0 false);
          Some (if (ok : bool) then Some (so_pub o, cipher, so_version o) else None)
      end
  end.

(** * shbuild.c *)

Definition shb_prefix (out : list Z) (off : Z) (random sid : list Z) (sid_len cipher : Z) : option (list Z * Z) :=
  out ← store_bytes out off (quic_put_be16 0x0303);
  out ← copy_loop 32 out (off + 2) random 0;
  out ← store out (off + 34) sid_len;
  out ← copy_loop (Z.to_nat sid_len) out (off + 35) sid 0;
  let off := off + (35 + sid_len) in
  out ← store_bytes out off (quic_put_be16 cipher);
  out ← store out (off + 2) 0;
  Some (out, off + 3).

Definition shb_versions : wr :=
  quic_tls_ext_append (quic_put_be16 QUIC_EXT_SUPPORTED_VERSIONS ++ quic_put_be16 2 ++ quic_put_be16 QUIC_TLS13_VERSION) 6.

Definition shb_key_share (pub : list Z) : wr := fun cap st =>
  match copy_loop 32 (quic_put_be16 QUIC_EXT_KEY_SHARE ++ quic_put_be16 36 ++ quic_put_be16 QUIC_GROUP_X25519 ++
                      quic_put_be16 32 ++ local 32) 8 pub 0 with
  | None => None
  | Some ext => quic_tls_ext_append ext 40 cap st
  end.

Definition shb_exts (buf : list Z) (cap off : Z) (pub : list Z) : option (Z * list Z) :=
  match wr_and shb_versions (shb_key_share pub) cap (buf, off) with
  | None => None
  | Some (ok, (buf', off')) => Some (if ok then off' else 0, buf')
  end.

Definition shb_finish (buf : list Z) (off block_start : Z) : option (Z * list Z) :=
  if off =? 0 then Some (0, buf)
  else
    '(end_, buf) ← quic_tls_ext_block_finish buf off block_start;
    if negb (end_ =? 0) then buf ← quic_hs_finish buf end_; Some (end_, buf) else Some (end_, buf).

Definition shb_fits (off sid_len cap : Z) : bool := negb (off =? 0) && (off + 38 + sid_len + 2 <=? cap).

(** [Some (Some len, out')]: returned 1 with [*out_len = len]. *)
Definition quic_shbuild_server_hello (random session_id : list Z) (sid_len cipher_suite : Z) (server_pub out : list Z) (cap : Z)
  : option (option Z * list Z) :=
  '(off, out) ← quic_hs_begin out cap QUIC_HS_SERVER_HELLO;
  if negb (shb_fits off sid_len cap) then Some (None, out)
  else
    '(out, block_start) ← shb_prefix out off random session_id sid_len cipher_suite;
    '(off, out) ← shb_exts out cap (block_start + 2) server_pub;
    '(end_, out) ← shb_finish out off block_start;
    Some (if end_ =? 0 then None else Some end_, out).

(** * Fields of a message *)

Lemma be16_value h l : is_u8 h -> is_u8 l -> Z.lor (Z.shiftl h 8) l = h * 256 + l.
Proof. unfold is_u8. intros Hh Hl. rewrite Z.shiftl_mul_pow2, lor_low by lia. done. Qed.

Lemma be16_at_put pre v post : 0 <= v < 65536 -> be16_at (pre ++ quic_put_be16 v ++ post) (zlen pre) = Some v.
Proof.
  intros Hv. unfold be16_at, quic_put_be16. cbn [app]. rewrite (load_head pre _ _ (zlen pre)), bind_some by done.
  replace (pre ++ u8 (v ≫ 8) :: u8 v :: post) with ((pre ++ [u8 (v ≫ 8)]) ++ u8 v :: post) by by rewrite <- app_assoc.
  rewrite load_head, bind_some by (rewrite zlen_app; done). f_equal. rewrite be16_value by apply u8_range.
  unfold u8. rewrite shiftr_8, (Z.mod_small (v / 256)) by (split; [apply Z.div_pos|apply Z.div_lt_upper_bound]; lia).
  pose proof (Z.div_mod v 256). lia.
Qed.

Lemma be16_at_put0 v post : 0 <= v < 65536 -> be16_at (quic_put_be16 v ++ post) 0 = Some v.
Proof. intros Hv. exact (be16_at_put [] v post Hv). Qed.

(** On arbitrary bytes. *)
Lemma be16_at_safe l i : Forall is_u8 l -> 0 <= i -> i + 2 <= zlen l ->
  exists v, be16_at l i = Some v /\ 0 <= v < 65536.
Proof.
  intros Hl Hi Hz. destruct (load_is_Some l i) as [a Ha]; [lia|]. destruct (load_is_Some l (i + 1)) as [b Hb]; [lia|].
  unfold be16_at. rewrite Ha, bind_some, Hb, bind_some. eexists. split; [done|].
  pose proof (load_u8 _ _ _ Hl Ha). pose proof (load_u8 _ _ _ Hl Hb). rewrite be16_value by done. unfold is_u8 in *. lia.
Qed.

Lemma ptr_app l k i : i = zlen l -> ptr (l ++ k) i = k.
Proof. intros ->. unfold ptr, zlen. by rewrite Nat2Z.id, drop_app_length. Qed.

Lemma zlen_ptr l k : 0 <= k <= zlen l -> zlen (ptr l k) = zlen l - k.
Proof. apply zlen_drop. Qed.

Lemma ptr_u8 l k : Forall is_u8 l -> Forall is_u8 (ptr l k).
Proof. apply Forall_drop. Qed.

Lemma zlen_put16 v : zlen (quic_put_be16 v) = 2.
Proof. done. Qed.

(** ** Writing at the end of what is already in the buffer *)

(** Overwriting a field of the front. *)
Lemma patch_front (buf a old new b : list Z) i : i = zlen a -> zlen old = zlen new -> zlen (a ++ old ++ b) <= zlen buf ->
  store_bytes (splice buf 0 (a ++ old ++ b)) i new = Some (splice buf 0 (a ++ new ++ b)).
Proof.
  intros -> He Hl. rewrite !zlen_app in Hl. pose proof (zlen_nonneg a). pose proof (zlen_nonneg b). pose proof (zlen_nonneg old).
  rewrite store_bytes_spec by (rewrite ?zlen_splice by (rewrite ?zlen_app; lia); lia). f_equal.
  unfold splice at 2. change (Z.to_nat 0) with 0%nat. rewrite take_0. cbn [app]. rewrite <- !app_assoc.
  rewrite splice_app by (rewrite !zlen_app; pose proof (zlen_nonneg (drop (0 + length (a ++ old ++ b)) buf)); lia).
  unfold splice. change (Z.to_nat 0) with 0%nat. rewrite take_0. cbn [app]. rewrite <- !app_assoc. do 2 f_equal.
  unfold zlen in He. rewrite drop_app_ge by lia. replace (length new - length old)%nat with 0%nat by lia. rewrite drop_0.
  f_equal. f_equal. rewrite !length_app. lia.
Qed.

(** Bytes not yet written can be counted as part of the front. *)
Lemma splice_extend (buf w : list Z) k : 0 <= k -> zlen w + k <= zlen buf ->
  splice buf 0 w = splice buf 0 (w ++ slice buf (zlen w) k).
Proof.
  intros Hk Hl. unfold splice. change (Z.to_nat 0) with 0%nat. rewrite !take_0. cbn [app]. rewrite <- app_assoc. f_equal.
  unfold slice. rewrite length_app, length_take, length_drop. unfold zlen in *. rewrite Nat2Z.id.
  replace (0 + (length w + Z.to_nat k `min` (length buf - length w)))%nat with (length w + Z.to_nat k)%nat by lia.
  rewrite <- (take_drop (Z.to_nat k) (drop (0 + length w) buf)) at 1. by rewrite drop_drop.
Qed.

Lemma store_front_byte (buf w : list Z) x i : i = zlen w -> zlen w + 1 <= zlen buf ->
  store (splice buf 0 w) i x = Some (splice buf 0 (w ++ [x])).
Proof.
  intros -> Hl. pose proof (zlen_nonneg w). rewrite store_ok by (rewrite zlen_splice; lia).
  rewrite insert_splice by (rewrite zlen_splice; lia). f_equal.
  pose proof (splice_splice buf w [x] 0) as H0. rewrite Z.add_0_l in H0. apply H0; [lia|]. change (zlen [x]) with 1. lia.
Qed.

Lemma store_front_bytes (buf w bs : list Z) i : i = zlen w -> zlen w + zlen bs <= zlen buf ->
  store_bytes (splice buf 0 w) i bs = Some (splice buf 0 (w ++ bs)).
Proof. intros -> Hl. pose proof (zlen_nonneg bs). rewrite store_bytes_front by lia. by zdecide. Qed.

Lemma copy_front_bytes (buf w src : list Z) k i : i = zlen w -> Z.of_nat k <= zlen src -> zlen w + Z.of_nat k <= zlen buf ->
  copy_loop k (splice buf 0 w) i src 0 = Some (splice buf 0 (w ++ take k src)).
Proof.
  intros -> Hs Hl. pose proof (zlen_nonneg w). rewrite copy_loop_len by (rewrite ?zlen_splice; lia). f_equal.
  pose proof (splice_splice buf w (slice src 0 (Z.of_nat k)) 0) as H0. rewrite Z.add_0_l in H0.
  rewrite H0 by (rewrite ?zlen_slice; lia). unfold slice. by rewrite Nat2Z.id, drop_0.
Qed.

(** A writer at the end of the front. *)
Lemma writes_front p bs cap (buf w : list Z) i : Writes p bs -> i = zlen w -> zlen w <= cap -> cap <= zlen buf -> cap < max_object ->
  if zlen w + zlen bs <=? cap
  then p cap (splice buf 0 w, i) = Some (true, (splice buf 0 (w ++ bs), zlen w + zlen bs))
  else exists buf' off', p cap (splice buf 0 w, i) = Some (false, (buf', off')) /\
         zlen buf' = zlen buf /\ zlen w <= off' <= cap /\ drop (Z.to_nat cap) buf' = drop (Z.to_nat cap) buf.
Proof.
  intros Hp -> Hw Hc Ho. pose proof (zlen_nonneg w). pose proof (zlen_nonneg bs).
  pose proof (Hp cap (splice buf 0 w) (zlen w)) as Hq. rewrite zlen_splice in Hq by lia.
  specialize (Hq ltac:(lia) Hc Ho). destruct (Z.leb_spec (zlen w + zlen bs) cap).
  - rewrite Hq. pose proof (splice_splice buf w bs 0) as Hs. rewrite Z.add_0_l in Hs. by rewrite Hs by lia.
  - destruct Hq as (b' & o' & Ha & Hb & Hd & He). exists b', o'. split_and!; try done; try lia.
    rewrite He. apply drop_splice; lia.
Qed.

(** ** The handshake header *)

Definition hs_message (t : Z) (body : list Z) : list Z := t :: be_bytes 3 (zlen body) ++ body.

Lemma zlen_hs_message t body : zlen (hs_message t body) = 4 + zlen body.
Proof. unfold hs_message. rewrite zlen_cons, zlen_app, zlen_be_bytes. lia. Qed.

Lemma hs_begin_spec buf cap t : 4 <= cap <= zlen buf -> quic_hs_begin buf cap t = Some (4, splice buf 0 [t; 0; 0; 0]).
Proof. intros Hc. unfold quic_hs_begin. zdecide. rewrite store_bytes_spec by (change (zlen [t; 0; 0; 0]) with 4; lia). done. Qed.

Lemma be3_bytes v : [u8 (v ≫ 16); u8 (v ≫ 8); u8 v] = be_bytes 3 v.
Proof.
  unfold u8. cbn [be_bytes app]. rewrite !Z.shiftr_div_pow2 by lia. change (2 ^ 16) with (256 * 256). change (2 ^ 8) with 256.
  by rewrite Z.div_div by lia.
Qed.

Lemma hs_finish_spec buf t body : 4 + zlen body <= zlen buf -> zlen body < max_object ->
  quic_hs_finish (splice buf 0 (t :: 0 :: 0 :: 0 :: body)) (4 + zlen body) = Some (splice buf 0 (hs_message t body)).
Proof.
  intros Hl Ho. pose proof (zlen_nonneg body). unfold quic_hs_finish. unwrap. replace (4 + zlen body - 4) with (zlen body) by lia.
  rewrite be3_bytes. apply (patch_front buf [t] [0; 0; 0] (be_bytes 3 (zlen body)) body); [done|done|].
  rewrite !zlen_app. change (zlen [t]) with 1. change (zlen [0; 0; 0]) with 3. lia.
Qed.

Lemma be24_at1_spec t v post : 0 <= v < 16777216 -> be24_at1 (t :: be_bytes 3 v ++ post) = Some v.
Proof.
  intros Hv. rewrite <- be3_bytes. unfold be24_at1. cbn [app].
  change (load (t :: ?a :: ?b :: ?c :: ?l) 1) with (Some a). rewrite bind_some.
  change (load (t :: ?a :: ?b :: ?c :: ?l) 2) with (Some b). rewrite bind_some.
  change (load (t :: ?a :: ?b :: ?c :: ?l) 3) with (Some c). rewrite bind_some. f_equal.
  pose proof (be_value_be_bytes 3 v) as Hb. rewrite <- be3_bytes in Hb. change (256 ^ Z.of_nat 3) with 16777216 in Hb.
  rewrite Z.mod_small in Hb by done. unfold be_value in Hb. cbn [fold_left] in Hb.
  pose proof (u8_range (v ≫ 16)). pose proof (u8_range (v ≫ 8)). pose proof (u8_range v). unfold is_u8 in *.
  rewrite !Z.shiftl_mul_pow2 by lia. rewrite (lor_low _ _ 16) by lia.
  replace (u8 (v ≫ 16) * 2 ^ 16 + u8 (v ≫ 8) * 2 ^ 8) with ((u8 (v ≫ 16) * 256 + u8 (v ≫ 8)) * 2 ^ 8) by lia.
  rewrite (lor_low _ _ 8) by lia. lia.
Qed.

Lemma hs_parse_spec t body post n : zlen body < 16777216 ->
  4 + zlen body <= n -> n < max_object ->
  quic_hs_parse (hs_message t body ++ post) n = Some (Some (t, zlen body)).
Proof.
  intros Hb Hn Ho. pose proof (zlen_nonneg body). unfold quic_hs_parse, hs_message. zdecide. cbn [app].
  rewrite <- app_assoc, be24_at1_spec, bind_some by lia. unwrap. zdecide. done.
Qed.

(** ** Extensions *)

(** An extension: its type and its data. *)
Definition ext : Type := Z * list Z.
Definition ext_bytes (e : ext) : list Z := quic_put_be16 (fst e) ++ quic_put_be16 (zlen (snd e)) ++ snd e.
Definition exts_bytes (l : list ext) : list Z := concat (List.map ext_bytes l).
Definition ext_wf (e : ext) : Prop := 0 <= fst e < 65536 /\ zlen (snd e) < 65536.

(** The data of the first extension of a type. *)
Fixpoint ext_find (ty : Z) (l : list ext) : option (list Z) :=
  match l with
  | [] => None
  | (t, d) :: l' => if t =? ty then Some d else ext_find ty l'
  end.

Lemma zlen_ext_bytes e : zlen (ext_bytes e) = 4 + zlen (snd e).
Proof. unfold ext_bytes. rewrite !zlen_app, !zlen_put16. lia. Qed.

Lemma exts_bytes_cons e l : exts_bytes (e :: l) = ext_bytes e ++ exts_bytes l.
Proof. done. Qed.

Lemma exts_bytes_app l k : exts_bytes (l ++ k) = exts_bytes l ++ exts_bytes k.
Proof. unfold exts_bytes. by rewrite List.map_app, List.concat_app. Qed.

(** The fields of the extension at a position. *)
Lemma ext_at pre t d post : ext_wf (t, d) ->
  let m := pre ++ ext_bytes (t, d) ++ post in
  be16_at m (zlen pre) = Some t /\ be16_at m (zlen pre + 2) = Some (zlen d) /\
  slice m (zlen pre + 4) (zlen d) = d /\ ptr m (zlen pre + 4) = d ++ post.
Proof.
  intros [Ht Hd] m. cbn [fst snd] in *. pose proof (zlen_nonneg d). unfold m, ext_bytes. cbn [fst snd].
  split; [|split; [|split]].
  - rewrite <- !app_assoc. by apply be16_at_put.
  - replace (pre ++ (quic_put_be16 t ++ quic_put_be16 (zlen d) ++ d) ++ post)
      with ((pre ++ quic_put_be16 t) ++ quic_put_be16 (zlen d) ++ d ++ post) by (rewrite <- !app_assoc; done).
    replace (zlen pre + 2) with (zlen (pre ++ quic_put_be16 t)) by (rewrite zlen_app; done). apply be16_at_put. lia.
  - replace (pre ++ (quic_put_be16 t ++ quic_put_be16 (zlen d) ++ d) ++ post)
      with ((pre ++ quic_put_be16 t ++ quic_put_be16 (zlen d)) ++ d ++ post) by (rewrite <- !app_assoc; done).
    apply slice_app; [|done]. rewrite !zlen_app, !zlen_put16. lia.
  - replace (pre ++ (quic_put_be16 t ++ quic_put_be16 (zlen d) ++ d) ++ post)
      with ((pre ++ quic_put_be16 t ++ quic_put_be16 (zlen d)) ++ d ++ post) by (rewrite <- !app_assoc; done).
    apply ptr_app. rewrite !zlen_app, !zlen_put16. lia.
Qed.

(** Reading at a pointer is reading at the offset. *)
Lemma load_ptr (l : list Z) k i : 0 <= k -> 0 <= i -> load (ptr l k) i = load l (k + i).
Proof.
  intros Hk Hi. unfold load, ptr. zdecide. rewrite lookup_drop. f_equal. lia.
Qed.

Lemma rd16_ptr l k : 0 <= k -> rd16 (ptr l k) = be16_at l k.
Proof. intros Hk. unfold rd16, be16_at. rewrite (load_ptr l k 0), (load_ptr l k (0 + 1)) by lia. by rewrite Z.add_0_r. Qed.

Lemma scan_spec l ty : forall fuel pre post, Forall ext_wf l -> (length l < fuel)%nat ->
  zlen (pre ++ exts_bytes l) < max_object - 4 ->
  scan fuel (pre ++ exts_bytes l ++ post) (zlen pre) (zlen (pre ++ exts_bytes l)) ty =
  Some (match ext_find ty l with Some d => Some (d, zlen d) | None => None end).
Proof.
  induction l as [|[t d] l IH]; intros fuel pre post Hl Hf Hm; (destruct fuel as [|fuel]; [cbn in Hf; lia|]); cbn [scan];
    pose proof (zlen_nonneg pre).
  - rewrite !app_nil_r in *. unwrap. zdecide. done.
  - apply Forall_cons_iff in Hl as [He Hl]. rewrite exts_bytes_cons in *. pose proof (zlen_nonneg d).
    pose proof (zlen_nonneg (exts_bytes l)). rewrite !zlen_app, zlen_ext_bytes in Hm. cbn [snd] in Hm.
    destruct (ext_at pre t d (exts_bytes l ++ post) He) as (Ha & Hb & Hc & _).
    rewrite <- (app_assoc (ext_bytes (t, d))). unfold one_ext. rewrite !rd16_ptr by lia. rewrite Ha, Hb.
    rewrite !zlen_app, zlen_ext_bytes. cbn [snd]. unwrap. zdecide. rewrite !bind_some. cbv beta. unwrap. zdecide.
    cbn [ext_find]. destruct (t =? ty); rewrite bind_some.
    + by rewrite Hc.
    + specialize (IH fuel (pre ++ ext_bytes (t, d)) post Hl ltac:(cbn in Hf; lia)).
      rewrite <- !app_assoc, !zlen_app, zlen_ext_bytes in IH. cbn [snd] in IH.
      rewrite IH by lia. done.
Qed.

(** ** The ClientHello *)

(** RFC 8446 section 4.1.2, as this client sends it. *)
Definition ch_prefix (random : list Z) : list Z :=
  [3; 3] ++ random ++ [0] ++ [0; 2; 0x13; 0x01] ++ [1; 0].

Definition ks_ext (pub : list Z) : ext := (QUIC_EXT_KEY_SHARE, [0; 36; 0; 29; 0; 32] ++ pub).
Definition sni_ext (sni : list Z) : list ext :=
  if zlen sni =? 0 then []
  else [(QUIC_SNI_TYPE, quic_put_be16 (3 + zlen sni) ++ [QUIC_SNI_HOST_NAME] ++ quic_put_be16 (zlen sni) ++ sni)].
Definition alpn_ext : ext := (QUIC_ALPN_TYPE, [0; 3; 2; 0x68; 0x33]).

Definition ch_exts (pub sni tp : list Z) : list ext :=
  [(QUIC_EXT_SUPPORTED_VERSIONS, [2; 3; 4]); (QUIC_EXT_SUPPORTED_GROUPS, [0; 2; 0; 29]);
   (QUIC_EXT_SIGNATURE_ALGORITHMS, [0; 6; 4; 3; 8; 4; 8; 7]); ks_ext pub] ++
  sni_ext sni ++ [alpn_ext; (QUIC_TPEXT_TYPE, tp)].

Definition ch_body (random pub sni tp : list Z) : list Z :=
  let e := exts_bytes (ch_exts pub sni tp) in ch_prefix random ++ quic_put_be16 (zlen e) ++ e.
Definition ch_message (random pub sni tp : list Z) : list Z := hs_message QUIC_HS_CLIENT_HELLO (ch_body random pub sni tp).

Lemma writes_same p q bs : (forall cap buf off, p cap (buf, off) = q cap (buf, off)) -> Writes q bs -> Writes p bs.
Proof. intros He Hq cap buf off H1 H2 H3. rewrite He. by apply Hq. Qed.

Lemma writes_append_if w p bs : w <> 0 -> Writes p bs -> Writes (append_if w p) bs.
Proof.
  intros Hw Hp cap buf off H1 H2 H3. specialize (Hp cap buf off H1 H2 H3). unfold append_if. zfalse (w =? 0).
  destruct (off + zlen bs <=? cap); [by rewrite Hp|]. destruct Hp as (b' & o' & -> & ?). by exists b', o'.
Qed.

Lemma writes_append ext0 k bs : 0 <= k <= zlen ext0 -> k < max_object -> take (Z.to_nat k) ext0 = bs ->
  Writes (quic_tls_ext_append ext0 k) bs.
Proof. intros H1 H2 <-. by apply writes_put_bytes. Qed.

Lemma writes_self enc w scratch bs : enc (local 16) 16 = Some (w, scratch) -> w <> 0 -> 0 <= w <= zlen scratch -> w < max_object ->
  take (Z.to_nat w) scratch = bs -> Writes (append_self enc) bs.
Proof.
  intros He Hw Hr Ho Hb cap buf off H1 H2 H3. unfold append_self. rewrite He.
  exact (writes_append_if w _ bs Hw (writes_append scratch w bs Hr Ho Hb) cap buf off H1 H2 H3).
Qed.

Lemma writes_wrapped t body k d : 0 <= k <= zlen body -> k < 65536 -> take (Z.to_nat k) body = d ->
  Writes (append_wrapped t body k) (ext_bytes (t, d)).
Proof.
  intros Hk Hm Hd. unfold append_wrapped, ext_bytes. cbn [fst snd]. rewrite app_assoc.
  assert (Hz : zlen d = k) by (rewrite <- Hd; by apply zlen_take). rewrite Hz.
  replace (u16 k) with k by (unfold u16; rewrite Z.mod_small; lia).
  apply writes_seq; apply writes_append; try done; try (unfold max_object; lia).
Qed.

Lemma key_share_ext_spec pub : zlen pub = 32 ->
  exists ks, quic_tls_ext_key_share (local 42) 42 pub = Some (42, ks) /\ ks = ext_bytes (ks_ext pub).
Proof.
  intros Hp. unfold zlen in Hp. do 32 (destruct pub as [|? pub]; [discriminate Hp|]). destruct pub; [|cbn in Hp; lia].
  eexists. split; vm_compute; reflexivity.
Qed.

Lemma writes_core pub : zlen pub = 32 ->
  Writes (append_core pub) (exts_bytes [(QUIC_EXT_SUPPORTED_VERSIONS, [2; 3; 4]); (QUIC_EXT_SUPPORTED_GROUPS, [0; 2; 0; 29]);
   (QUIC_EXT_SIGNATURE_ALGORITHMS, [0; 6; 4; 3; 8; 4; 8; 7]); ks_ext pub]).
Proof.
  intros Hp. destruct (key_share_ext_spec pub Hp) as (ks & Ek & Hks).
  assert (Hz : zlen ks = 42) by (rewrite Hks, zlen_ext_bytes; unfold ks_ext; cbn [snd]; rewrite zlen_app, Hp; done).
  eapply writes_same; [intros cap buf off; unfold append_core; rewrite Ek; reflexivity|].
  rewrite !exts_bytes_cons. change (exts_bytes []) with (@nil Z). rewrite app_nil_r, !app_assoc.
  refine (writes_and _ _ _ _ (writes_and _ _ _ _ (writes_and _ _ _ _ _ _) _) _).
  - refine (writes_self _ 7 _ _ eq_refl _ _ _ eq_refl); done.
  - refine (writes_self _ 8 _ _ eq_refl _ _ _ eq_refl); done.
  - refine (writes_self _ 12 _ _ eq_refl _ _ _ eq_refl); done.
  - apply writes_append_if; [done|]. apply writes_append; [lia|done|]. rewrite <- Hks. apply take_ge. unfold zlen in Hz. lia.
Qed.

Lemma put_ignored_front src cap buf w i : i = zlen w -> zlen w + zlen src <= cap -> cap <= zlen buf -> cap < max_object ->
  put_ignored src (zlen src) cap (splice buf 0 w) i = Some (zlen w + zlen src, splice buf 0 (w ++ src)).
Proof.
  intros -> Hc Hb Ho. pose proof (zlen_nonneg w). pose proof (zlen_nonneg src). unfold put_ignored.
  pose proof (writes_front _ src cap buf w (zlen w) (writes_put_bytes_all src ltac:(unfold max_object in *; lia)) eq_refl) as Hw.
  specialize (Hw ltac:(lia) Hb Ho). revert Hw. zdecide. intros ->. done.
Qed.

Lemma sni_encode_spec buf cap sni : zlen sni <= 0xFFFF -> 3 + zlen sni <= cap <= zlen buf -> cap < max_object ->
  quic_tls_sni_encode buf cap sni (zlen sni) =
  Some (3 + zlen sni, splice buf 0 ([QUIC_SNI_HOST_NAME] ++ quic_put_be16 (zlen sni) ++ sni)).
Proof.
  intros Hl Hc Ho. pose proof (zlen_nonneg sni). unfold quic_tls_sni_encode. unwrap. zdecide. cbn [orb].
  pose proof (store_front_byte buf [] QUIC_SNI_HOST_NAME 0 eq_refl) as Hs. rewrite splice_nil in Hs.
  rewrite Hs, bind_some by (change (zlen (@nil Z)) with 0; lia). cbn [app].
  replace (u16 (zlen sni)) with (zlen sni) by (unfold u16; rewrite Z.mod_small; lia).
  rewrite store_front_bytes, bind_some by (rewrite ?zlen_put16; done || (change (zlen [QUIC_SNI_HOST_NAME]) with 1; lia)).
  rewrite put_ignored_front by (rewrite ?zlen_app, ?zlen_put16; change (zlen [QUIC_SNI_HOST_NAME]) with 1; done || lia).
  rewrite zlen_app, zlen_put16, <- app_assoc. done.
Qed.

Lemma tpext_encode_spec buf cap tp : zlen tp <= 0xFFFF -> 4 + zlen tp <= cap <= zlen buf -> cap < max_object ->
  quic_tpext_encode buf cap tp (zlen tp) = Some (4 + zlen tp, splice buf 0 (ext_bytes (QUIC_TPEXT_TYPE, tp))).
Proof.
  intros Hl Hc Ho. pose proof (zlen_nonneg tp). unfold quic_tpext_encode. unwrap. zdecide. cbn [orb].
  pose proof (store_front_bytes buf [] (quic_put_be16 QUIC_TPEXT_TYPE) 0 eq_refl) as Hs. rewrite splice_nil in Hs.
  rewrite Hs, bind_some by (change (zlen (@nil Z)) with 0; rewrite zlen_put16; lia). rewrite app_nil_l.
  replace (u16 (zlen tp)) with (zlen tp) by (unfold u16; rewrite Z.mod_small; lia).
  rewrite store_front_bytes, bind_some by (rewrite ?zlen_put16; done || lia).
  rewrite put_ignored_front by (rewrite ?zlen_app, ?zlen_put16; done || lia).
  rewrite zlen_app, !zlen_put16, <- app_assoc. done.
Qed.

Lemma writes_alpn : Writes append_alpn (ext_bytes alpn_ext).
Proof.
  apply (writes_same _ (append_if 5 (append_wrapped QUIC_ALPN_TYPE ([0; 3; 2; 0x68; 0x33] ++ local 11) 5))).
  { intros cap buf off. unfold append_alpn. reflexivity. }
  apply writes_append_if; [done|]. by apply writes_wrapped.
Qed.

Lemma writes_tp tp : zlen tp <= 2044 -> Writes (append_tp tp (zlen tp)) (ext_bytes (QUIC_TPEXT_TYPE, tp)).
Proof.
  intros Hl. pose proof (zlen_nonneg tp). eapply writes_same.
  { intros cap buf off. unfold append_tp.
    rewrite tpext_encode_spec by (change (zlen (local 2048)) with 2048; unfold max_object; lia). reflexivity. }
  apply writes_append_if; [lia|].
  pose proof (zlen_ext_bytes (QUIC_TPEXT_TYPE, tp)) as Hz. cbn [snd] in Hz.
  apply writes_append; [|unfold max_object; lia|by apply take_splice_n].
  rewrite zlen_splice; change (zlen (local 2048)) with 2048; lia.
Qed.

Lemma writes_sni sni : zlen sni <= 255 -> Writes (append_sni sni (zlen sni)) (exts_bytes (sni_ext sni)).
Proof.
  intros Hl. pose proof (zlen_nonneg sni). unfold sni_ext. destruct (Z.eqb_spec (zlen sni) 0) as [He|Hne].
  { apply (writes_same _ wr_ok); [|apply writes_ok_nil]. intros cap buf off. unfold append_sni. rewrite He. reflexivity. }
  set (w := [QUIC_SNI_HOST_NAME] ++ quic_put_be16 (zlen sni) ++ sni).
  assert (Hw : zlen w = 3 + zlen sni) by (unfold w; rewrite !zlen_app, zlen_put16; change (zlen [QUIC_SNI_HOST_NAME]) with 1; lia).
  apply (writes_same _ (append_if (3 + zlen sni) (append_wrapped QUIC_SNI_TYPE
    (splice (local 260) 0 ([] ++ quic_put_be16 (3 + zlen sni) ++ w)) (3 + zlen sni + 2)))).
  { intros cap buf off. unfold append_sni. zdecide.
  unfold on_tail. change (drop (Z.to_nat 2) (local 260)) with (local 258). change (260 - 2) with 258.
    rewrite sni_encode_spec by (change (zlen (local 258)) with 258; unfold max_object; lia). fold w.
    change (take (Z.to_nat 2) (local 260)) with [0; 0].
    replace ([0; 0] ++ splice (local 258) 0 w) with (splice (local 260) 0 ([] ++ [0; 0] ++ w)).
    2: { unfold splice. change (Z.to_nat 0) with 0%nat. rewrite !take_0. cbn [app]. do 2 f_equal. }
    replace (u16 (3 + zlen sni)) with (3 + zlen sni) by (unfold u16; rewrite Z.mod_small; lia).
    rewrite (patch_front (local 260) [] [0; 0] (quic_put_be16 (3 + zlen sni)) w 0) by
      (done || (rewrite !zlen_app, Hw; change (zlen (local 260)) with 260; change (zlen [0; 0]) with 2; change (zlen (@nil Z)) with 0; lia)). reflexivity. }
  apply writes_append_if; [lia|].
  unfold exts_bytes. cbn [List.map concat]. rewrite app_nil_r.
  apply writes_wrapped; [|lia|].
  - rewrite zlen_splice; rewrite ?zlen_app, ?Hw, ?zlen_put16; change (zlen (local 260)) with 260; change (zlen (@nil Z)) with 0; lia.
  - apply take_splice_n. rewrite !zlen_app, Hw, zlen_put16. change (zlen (@nil Z)) with 0. lia.
Qed.

(** A writer that returns 0 from every state, inside the capacity. *)
Definition FailsWr (p : wr) : Prop :=
  forall cap buf off, 0 <= off <= cap -> cap <= zlen buf -> cap < max_object ->
  exists buf' off', p cap (buf, off) = Some (false, (buf', off')) /\ zlen buf' = zlen buf /\
    off <= off' <= cap /\ drop (Z.to_nat cap) buf' = drop (Z.to_nat cap) buf.

Lemma fails_and_l p q : FailsWr p -> BoundedWr q -> FailsWr (wr_and p q).
Proof.
  intros Hp Hq cap buf off Hf Hc Ho. destruct (Hp cap buf off Hf Hc Ho) as (b1 & o1 & E1 & Hz1 & Hr1 & Hd1).
  destruct (Hq cap b1 o1) as (r & b2 & o2 & E2 & Hz2 & Hr2 & Hd2); [lia|lia|done|].
  exists b2, o2. unfold wr_and. rewrite E1, E2. split_and!; [done|lia|lia|lia|congruence].
Qed.

Lemma fails_and_r p q : BoundedWr p -> FailsWr q -> FailsWr (wr_and p q).
Proof.
  intros Hp Hq cap buf off Hf Hc Ho. destruct (Hp cap buf off Hf Hc Ho) as (r & b1 & o1 & E1 & Hz1 & Hr1 & Hd1).
  destruct (Hq cap b1 o1) as (b2 & o2 & E2 & Hz2 & Hr2 & Hd2); [lia|lia|done|].
  exists b2, o2. unfold wr_and. rewrite E1, E2, andb_false_r. split_and!; [done|lia|lia|lia|congruence].
Qed.

Lemma bounded_and p q : BoundedWr p -> BoundedWr q -> BoundedWr (wr_and p q).
Proof.
  intros Hp Hq cap buf off Hf Hc Ho. destruct (Hp cap buf off Hf Hc Ho) as (r & b1 & o1 & E1 & Hz1 & Hr1 & Hd1).
  destruct (Hq cap b1 o1) as (r2 & b2 & o2 & E2 & Hz2 & Hr2 & Hd2); [lia|lia|done|].
  exists (r && r2), b2, o2. unfold wr_and. rewrite E1, E2. split_and!; [done|lia|lia|lia|congruence].
Qed.

Lemma fails_bounded p : FailsWr p -> BoundedWr p.
Proof. intros Hp cap buf off H1 H2 H3. destruct (Hp cap buf off H1 H2 H3) as (b & o & ?). by exists false, b, o. Qed.

Lemma fails_append_if p : BoundedWr p -> FailsWr (append_if 0 p).
Proof.
  intros Hp cap buf off Hf Hc Ho. destruct (Hp cap buf off Hf Hc Ho) as (r & b1 & o1 & E1 & Hz1 & Hr1 & Hd1).
  exists b1, o1. unfold append_if. rewrite E1. done.
Qed.

Lemma fails_same p q : (forall cap buf off, p cap (buf, off) = q cap (buf, off)) -> FailsWr q -> FailsWr p.
Proof. intros He Hq cap buf off H1 H2 H3. rewrite He. by apply Hq. Qed.

Lemma fails_sni sni : 255 < zlen sni < max_object -> FailsWr (append_sni sni (zlen sni)).
Proof.
  intros Hl. apply (fails_same _ (append_if 0 (append_wrapped QUIC_SNI_TYPE (local 260) 2))).
  - intros cap buf off. unfold append_sni, on_tail, quic_tls_sni_encode. change (260 - 2) with 258. unwrap. zdecide.
    rewrite orb_true_r. reflexivity.
  - apply fails_append_if. eapply writes_bounded, writes_wrapped; done.
Qed.

Lemma fails_tp tp : 2044 < zlen tp < max_object -> FailsWr (append_tp tp (zlen tp)).
Proof.
  intros Hl. apply (fails_same _ (append_if 0 (quic_tls_ext_append (local 2048) 0))).
  - intros cap buf off. unfold append_tp, quic_tpext_encode. unwrap. zdecide. rewrite orb_true_r. reflexivity.
  - apply fails_append_if. eapply writes_bounded, writes_append; done.
Qed.

(** The four groups of extensions, in the order they are appended. *)
Lemma ch_exts_writes pub sni tp : zlen pub = 32 -> zlen sni <= 255 -> zlen tp <= 2044 ->
  Writes (wr_and (wr_and (wr_and (append_core pub) (append_sni sni (zlen sni))) append_alpn) (append_tp tp (zlen tp)))
    (exts_bytes (ch_exts pub sni tp)).
Proof.
  intros Hp Hs Ht. unfold ch_exts. rewrite !exts_bytes_app.
  replace (exts_bytes [alpn_ext; (QUIC_TPEXT_TYPE, tp)]) with (ext_bytes alpn_ext ++ ext_bytes (QUIC_TPEXT_TYPE, tp))
    by (unfold exts_bytes; cbn [List.map concat]; by rewrite app_nil_r).
  rewrite !app_assoc. refine (writes_and _ _ _ _ (writes_and _ _ _ _ (writes_and _ _ _ _ _ _) _) _).
  - by apply writes_core.
  - by apply writes_sni.
  - apply writes_alpn.
  - by apply writes_tp.
Qed.

Lemma ch_exts_fails pub sni tp : zlen pub = 32 -> zlen sni < max_object -> zlen tp < max_object ->
  255 < zlen sni \/ 2044 < zlen tp ->
  FailsWr (wr_and (wr_and (wr_and (append_core pub) (append_sni sni (zlen sni))) append_alpn) (append_tp tp (zlen tp))).
Proof.
  intros Hp Hs Ht Hlong.
  assert (Bc : BoundedWr (append_core pub)) by (eapply writes_bounded, writes_core; done).
  assert (Ba : BoundedWr append_alpn) by (eapply writes_bounded, writes_alpn).
  assert (Bt : BoundedWr (append_tp tp (zlen tp))).
  { destruct (Z.le_gt_cases (zlen tp) 2044); [eapply writes_bounded, writes_tp|apply fails_bounded, fails_tp]; lia. }
  destruct (Z.le_gt_cases (zlen sni) 255).
  - apply fails_and_r; [|apply fails_tp; lia]. apply bounded_and; [|done]. apply bounded_and; [done|].
    eapply writes_bounded, writes_sni. lia.
  - apply fails_and_l; [|done]. apply fails_and_l; [|done]. apply fails_and_r; [done|]. apply fails_sni. lia.
Qed.

Lemma zlen_ch_prefix random : zlen random = 32 -> zlen (ch_prefix random) = 41.
Proof. intros Hr. unfold ch_prefix. rewrite !zlen_app, Hr. done. Qed.

Lemma put_prefix_spec buf w random : zlen random = 32 -> zlen w + 41 <= zlen buf ->
  put_prefix (splice buf 0 w) (zlen w) random = Some (splice buf 0 (w ++ ch_prefix random), zlen w + 41).
Proof.
  intros Hr Hl. pose proof (zlen_nonneg w). unfold put_prefix.
  rewrite store_front_bytes, bind_some by (done || (rewrite zlen_put16; lia)).
  rewrite copy_front_bytes, bind_some by (rewrite ?zlen_app, ?zlen_put16, ?Hr; done || lia).
  rewrite (take_ge random) by (unfold zlen in Hr; lia).
  rewrite store_front_byte, bind_some by (rewrite ?zlen_app, ?zlen_put16, ?Hr; done || lia).
  rewrite store_front_bytes, bind_some by (rewrite ?zlen_app, ?zlen_put16, ?Hr; change (zlen [0]) with 1; done || lia).
  rewrite store_front_bytes, bind_some by (rewrite ?zlen_app, ?zlen_put16, ?Hr; change (zlen [0]) with 1; done || lia).
  rewrite store_front_byte, bind_some by (rewrite ?zlen_app, ?zlen_put16, ?Hr; change (zlen [0]) with 1; done || lia).
  rewrite store_front_byte, bind_some by (rewrite ?zlen_app, ?zlen_put16, ?Hr; change (zlen [0]) with 1; change (zlen [1]) with 1; done || lia).
  do 3 f_equal. unfold ch_prefix. rewrite <- !app_assoc. reflexivity.
Qed.

Lemma zlen_ch_body random pub sni tp : zlen random = 32 ->
  zlen (ch_body random pub sni tp) = 43 + zlen (exts_bytes (ch_exts pub sni tp)).
Proof. intros Hr. unfold ch_body. cbv zeta. rewrite !zlen_app, zlen_ch_prefix, zlen_put16 by done. lia. Qed.

Lemma zlen_ch_exts pub sni tp : zlen pub = 32 -> zlen sni <= 255 -> zlen tp <= 2044 ->
  82 <= zlen (exts_bytes (ch_exts pub sni tp)) <= 2500.
Proof.
  intros Hp Hs Ht. pose proof (zlen_nonneg sni). pose proof (zlen_nonneg tp).
  unfold ch_exts. rewrite !exts_bytes_app, !exts_bytes_cons, !zlen_app, !zlen_ext_bytes. unfold ks_ext, alpn_ext. cbn [snd].
  rewrite zlen_app, Hp. change (exts_bytes []) with (@nil Z). change (zlen (@nil Z)) with 0.
  change (zlen [2; 3; 4]) with 3. change (zlen [0; 2; 0; 29]) with 4. change (zlen [0; 6; 4; 3; 8; 4; 8; 7]) with 8.
  change (zlen [0; 36; 0; 29; 0; 32]) with 6. change (zlen [0; 3; 2; 104; 51]) with 5.
  unfold sni_ext. destruct (Z.eqb_spec (zlen sni) 0).
  - change (exts_bytes []) with (@nil Z). change (zlen (@nil Z)) with 0. lia.
  - unfold exts_bytes. cbn [List.map concat]. rewrite app_nil_r, zlen_ext_bytes. cbn [snd].
    rewrite !zlen_app, !zlen_put16. change (zlen [QUIC_SNI_HOST_NAME]) with 1. lia.
Qed.

(** The block length and the message length are patched in. *)
Lemma ch_finish_spec buf t pre gap e : zlen gap = 2 -> 0 < zlen e <= 65535 ->
  zlen (t :: 0 :: 0 :: 0 :: pre) + 2 + zlen e <= zlen buf -> zlen buf < max_object ->
  let w := t :: 0 :: 0 :: 0 :: pre in
  ch_finish (splice buf 0 (w ++ gap ++ e)) (zlen w + 2 + zlen e) (zlen w) =
  Some (zlen w + 2 + zlen e, splice buf 0 (hs_message t (pre ++ quic_put_be16 (zlen e) ++ e))).
Proof.
  intros Hg He Hl Ho w. fold w in Hl. pose proof (zlen_nonneg w). unfold ch_finish, quic_tls_ext_block_finish. cbv zeta.
  zdecide. unwrap. replace (zlen w + 2 + zlen e - zlen w - 2) with (zlen e) by lia. zdecide.
  replace (u16 (zlen e)) with (zlen e) by (unfold u16; rewrite Z.mod_small; lia).
  rewrite patch_front, !bind_some by (rewrite ?zlen_app, ?Hg, ?zlen_put16; done || lia). cbv beta iota. zdecide. cbn [negb].
  assert (Hw : zlen w = 4 + zlen pre) by (unfold w; rewrite !zlen_cons; lia).
  assert (Hb : zlen (pre ++ quic_put_be16 (zlen e) ++ e) = zlen pre + (2 + zlen e)) by (rewrite !zlen_app, zlen_put16; done).
  replace (zlen w + 2 + zlen e) with (4 + zlen (pre ++ quic_put_be16 (zlen e) ++ e)) by lia.
  change (w ++ quic_put_be16 (zlen e) ++ e) with (t :: 0 :: 0 :: 0 :: pre ++ quic_put_be16 (zlen e) ++ e).
  rewrite hs_finish_spec, bind_some by (rewrite ?Hb; lia). done.
Qed.

Lemma client_hello_spec buf cap random pub sni tp : zlen random = 32 -> zlen pub = 32 ->
  zlen sni < max_object -> zlen tp < max_object -> 0 <= cap <= zlen buf -> zlen buf < max_object ->
  let m := ch_message random pub sni tp in
  if (zlen sni <=? 255) && (zlen tp <=? 2044) && (zlen m <=? cap)
  then quic_tls_client_hello buf cap random pub sni (zlen sni) tp (zlen tp) = Some (zlen m, splice buf 0 m)
  else exists buf', quic_tls_client_hello buf cap random pub sni (zlen sni) tp (zlen tp) = Some (0, buf') /\
         zlen buf' = zlen buf /\ drop (Z.to_nat cap) buf' = drop (Z.to_nat cap) buf.
Proof.
  intros Hr Hp Hs0 Ht0 Hc Ho m. assert (Hm : zlen m = 47 + zlen (exts_bytes (ch_exts pub sni tp))).
  { unfold m, ch_message. rewrite zlen_hs_message, zlen_ch_body by done. lia. }
  pose proof (zlen_nonneg (exts_bytes (ch_exts pub sni tp))) as Hnn. unfold quic_tls_client_hello.
  destruct (Z.lt_ge_cases cap 4).
  { unfold quic_hs_begin. zdecide. rewrite bind_some. rewrite andb_false_r. by exists buf. }
  rewrite hs_begin_spec, bind_some by lia. cbv beta iota. cbn [Z.eqb orb].
  destruct (Z.ltb_spec cap (4 + 41 + 2)).
  { zdecide. rewrite andb_false_r. eexists. split; [done|]. rewrite zlen_splice, drop_splice by (change (zlen [QUIC_HS_CLIENT_HELLO; 0; 0; 0]) with 4; lia). done. }
  pose proof (put_prefix_spec buf [QUIC_HS_CLIENT_HELLO; 0; 0; 0] random Hr) as Hpp. change (zlen [QUIC_HS_CLIENT_HELLO; 0; 0; 0]) with 4 in Hpp.
  rewrite Hpp, bind_some by lia. cbv beta iota. change (4 + 41) with 45.
  set (w := [QUIC_HS_CLIENT_HELLO; 0; 0; 0] ++ ch_prefix random).
  assert (Hw : zlen w = 45) by (unfold w; rewrite zlen_app, zlen_ch_prefix by done; done).
  rewrite (splice_extend buf w 2) by lia. rewrite Hw. set (gap := slice buf 45 2).
  assert (Hg : zlen gap = 2) by (apply zlen_slice; lia). assert (Hwg : zlen (w ++ gap) = 47) by (rewrite zlen_app; lia).
  unfold append_exts. change (45 + 2) with 47.
  destruct ((zlen sni <=? 255) && (zlen tp <=? 2044)) eqn:E; cbn [andb].
  - zbool. pose proof (zlen_ch_exts pub sni tp Hp ltac:(done) ltac:(done)) as Hce.
    pose proof (writes_front _ _ cap buf (w ++ gap) 47 (ch_exts_writes pub sni tp Hp ltac:(done) ltac:(done))) as Hwf.
    specialize (Hwf ltac:(lia) ltac:(lia) ltac:(lia) ltac:(lia)). rewrite Hwg in Hwf. rewrite Hm.
    destruct (Z.leb_spec (47 + zlen (exts_bytes (ch_exts pub sni tp))) cap).
    + rewrite Hwf, bind_some. cbv beta iota. rewrite <- app_assoc. pose proof (ch_finish_spec buf QUIC_HS_CLIENT_HELLO (ch_prefix random) gap
        (exts_bytes (ch_exts pub sni tp)) Hg ltac:(lia)) as Hcf. cbv zeta in Hcf.
      change (QUIC_HS_CLIENT_HELLO :: 0 :: 0 :: 0 :: ch_prefix random) with w in Hcf. rewrite Hw in Hcf.
      change (45 + 2) with 47 in Hcf. exact (Hcf ltac:(lia) Ho).
    + destruct Hwf as (b' & o' & -> & Hz & _ & Hd). rewrite bind_some. cbv beta iota. exists b'. done.
  - apply andb_false_iff in E.
    assert (Hlong : 255 < zlen sni \/ 2044 < zlen tp) by (destruct E as [E|E]; apply Z.leb_gt in E; auto).
    destruct (ch_exts_fails pub sni tp Hp Hs0 Ht0 Hlong cap (splice buf 0 (w ++ gap)) 47) as (b' & o' & -> & Hz & _ & Hd);
      [lia|rewrite zlen_splice; lia|lia|]. rewrite bind_some. cbv beta iota. exists b'. split; [done|].
    rewrite Hz, Hd, zlen_splice, drop_splice by lia. done.
Qed.

(** ** Looking an extension up in a ClientHello *)

Lemma ch_exts_wf pub sni tp : zlen pub = 32 -> zlen sni <= 255 -> zlen tp <= 2044 -> Forall ext_wf (ch_exts pub sni tp).
Proof.
  intros Hp Hs Ht. pose proof (zlen_nonneg sni). unfold ch_exts. rewrite Forall_app. split.
  - repeat (apply Forall_cons; [split; cbn [fst snd ks_ext]; first [done|rewrite zlen_app, Hp; done]|]). constructor.
  - rewrite Forall_app. split.
    + unfold sni_ext. destruct (Z.eqb_spec (zlen sni) 0); [constructor|]. apply Forall_cons; [|constructor].
      split; [done|]. cbn [snd]. rewrite !zlen_app, !zlen_put16. change (zlen [QUIC_SNI_HOST_NAME]) with 1. lia.
    + repeat (apply Forall_cons; [split; cbn [fst snd]; done || lia|]). constructor.
Qed.

Lemma skip_v8_at pre x rest end_ : zlen pre + 1 + x <= end_ -> 0 <= x -> end_ < max_object ->
  salpn_skip_v8 (pre ++ x :: rest) end_ (zlen pre) = Some (Some (zlen pre + 1 + x)).
Proof.
  intros Hl Hx Ho. pose proof (zlen_nonneg pre). unfold salpn_skip_v8. unwrap. zdecide. rewrite load_head, bind_some by done.
  cbv zeta. unwrap. zdecide. do 2 f_equal. lia.
Qed.

Lemma skip_v16_at pre v rest end_ : zlen pre + 2 + v <= end_ -> 0 <= v < 65536 -> end_ < max_object ->
  salpn_skip_v16 (pre ++ quic_put_be16 v ++ rest) end_ (zlen pre) = Some (Some (zlen pre + 2 + v)).
Proof.
  intros Hl Hx Ho. pose proof (zlen_nonneg pre). unfold salpn_skip_v16. unwrap. zdecide.
  rewrite rd16_ptr, be16_at_put, bind_some by lia. cbv zeta. unwrap. zdecide. do 2 f_equal. lia.
Qed.

(** The scan starts right after the length of the block. *)
Lemma find_extension_spec t random l post ty : zlen random = 32 -> Forall ext_wf l -> zlen (exts_bytes l) <= 65535 ->
  let m := hs_message t (ch_prefix random ++ quic_put_be16 (zlen (exts_bytes l)) ++ exts_bytes l) in
  quic_salpn_find_extension (m ++ post) (zlen m) ty =
  Some (match ext_find ty l with Some d => Some (d, zlen d) | None => None end).
Proof.
  intros Hr Hw Hl m. pose proof (zlen_nonneg (exts_bytes l)) as Hn. set (e := exts_bytes l) in *.
  assert (Hm : zlen m = 47 + zlen e).
  { unfold m. rewrite zlen_hs_message, !zlen_app, zlen_ch_prefix, zlen_put16 by done. lia. }
  set (h := t :: be_bytes 3 (zlen (ch_prefix random ++ quic_put_be16 (zlen e) ++ e)) ++ [3; 3] ++ random).
  assert (Hh : zlen h = 38) by (unfold h; rewrite zlen_cons, !zlen_app, zlen_be_bytes, Hr; done).
  assert (Em : forall k, m ++ k = h ++ 0 :: quic_put_be16 2 ++ [0x13; 1] ++ 1 :: 0 :: quic_put_be16 (zlen e) ++ e ++ k).
  { intros k. unfold m, hs_message, h, ch_prefix. cbn [app]. rewrite <- !app_assoc. cbn [app]. rewrite <- ?app_assoc. done. }
  unfold quic_salpn_find_extension, exts_bounds, to_exts, step_pos. cbv zeta. change (4 + (2 + 32)) with 38.
  rewrite (Em post). rewrite Hm.
  assert (S1 := skip_v8_at h 0 (quic_put_be16 2 ++ [0x13; 1] ++ 1 :: 0 :: quic_put_be16 (zlen e) ++ e ++ post) (47 + zlen e)).
  rewrite Hh in S1. rewrite S1, bind_some by (unfold max_object; lia). cbv beta iota. change (38 + 1 + 0) with 39.
  assert (S2 := skip_v16_at (h ++ [0]) 2 ([0x13; 1] ++ 1 :: 0 :: quic_put_be16 (zlen e) ++ e ++ post) (47 + zlen e)).
  rewrite zlen_app, Hh, <- app_assoc in S2. change (38 + zlen [0]) with 39 in S2. change ([0] ++ ?x) with (0 :: x) in S2.
  rewrite S2, bind_some by (unfold max_object; lia). cbv beta iota. change (39 + 2 + 2) with 43.
  assert (S3 := skip_v8_at (h ++ [0] ++ quic_put_be16 2 ++ [0x13; 1]) 1 (0 :: quic_put_be16 (zlen e) ++ e ++ post) (47 + zlen e)).
  rewrite !zlen_app, Hh, <- !app_assoc in S3. change (38 + (zlen [0] + (zlen (quic_put_be16 2) + zlen [0x13; 1]))) with 43 in S3. change ([0] ++ ?x) with (0 :: x) in S3.
  rewrite S3, bind_some by (unfold max_object; lia). cbv beta iota. change (43 + 1 + 1) with 45.
  set (q := h ++ [0] ++ quic_put_be16 2 ++ [0x13; 1] ++ [1; 0]).
  assert (Hq : zlen q = 45) by (unfold q; rewrite !zlen_app, Hh; done).
  assert (Eq : h ++ 0 :: quic_put_be16 2 ++ [0x13; 1] ++ 1 :: 0 :: quic_put_be16 (zlen e) ++ e ++ post = q ++ quic_put_be16 (zlen e) ++ e ++ post)
    by (unfold q; rewrite <- !app_assoc; done).
  rewrite Eq. unfold block_end. unwrap. zdecide. rewrite rd16_ptr by lia. rewrite <- Hq, be16_at_put, bind_some by lia.
  cbv zeta. rewrite Hq. zdecide. rewrite bind_some. cbv beta iota.
  assert (S4 := scan_spec l ty (S (Z.to_nat (47 + zlen e))) (q ++ quic_put_be16 (zlen e)) post Hw).
  fold e in S4. rewrite !zlen_app, Hq, zlen_put16, <- app_assoc in S4. change (45 + 2) with 47 in *. apply S4; [|unfold max_object; lia].
  assert (Hll : Z.of_nat (List.length l) <= zlen e).
  { unfold e. clear. induction l as [|x l IH]; [done|]. rewrite exts_bytes_cons, zlen_app, zlen_ext_bytes. cbn [List.length].
    pose proof (zlen_nonneg (snd x)). lia. }
  lia.
Qed.

(** ** What the server reads out of the extensions *)

Lemma list32 (l : list Z) : zlen l = 32 -> exists f : nat -> Z, l = List.map f (seq 0 32).
Proof.
  intros Hl. exists (fun i => nth i l 0). unfold zlen in Hl.
  apply nth_ext with 0 0; [rewrite length_map, length_seq; lia|]. intros n Hn.
  rewrite (nth_indep (List.map _ _) 0 (nth 0 l 0)) by (rewrite length_map, length_seq; lia).
  rewrite (List.map_nth (fun i => nth i l 0)), seq_nth by lia. done.
Qed.

Lemma key_share_scan_spec pub pub0 : zlen pub = 32 -> zlen pub0 = 32 ->
  quic_tls_ext_key_share_scan ([0; 36; 0; 29; 0; 32] ++ pub) 38 pub0 = Some (Some pub).
Proof. intros H1 H2. destruct (list32 pub H1) as [f ->]. destruct (list32 pub0 H2) as [g ->]. reflexivity. Qed.

Lemma extract_sni_spec sni : 0 < zlen sni <= 255 ->
  let d := quic_put_be16 (3 + zlen sni) ++ [QUIC_SNI_HOST_NAME] ++ quic_put_be16 (zlen sni) ++ sni in
  quic_salpn_extract_sni d (zlen d) = Some (Some sni).
Proof.
  intros Hs d. assert (Hd : zlen d = 5 + zlen sni) by (unfold d; rewrite !zlen_app, !zlen_put16; change (zlen [QUIC_SNI_HOST_NAME]) with 1; lia).
  unfold quic_salpn_extract_sni. rewrite Hd. zdecide.
  assert (H0 : be16_at d 0 = Some (3 + zlen sni)) by (unfold d; apply be16_at_put0; lia). rewrite H0, bind_some. zdecide.
  unfold d. rewrite ptr_app by done. unfold quic_tls_sni_decode, sni_head. zdecide.
  pose proof (be16_at_put [QUIC_SNI_HOST_NAME] (zlen sni) sni ltac:(lia)) as Hb. change (zlen [QUIC_SNI_HOST_NAME]) with 1 in Hb.
  rewrite Hb, bind_some. change (load ([QUIC_SNI_HOST_NAME] ++ _) 0) with (Some QUIC_SNI_HOST_NAME). rewrite bind_some.
  cbn [Z.eqb QUIC_SNI_HOST_NAME andb]. zdecide. rewrite !bind_some. zdecide.
  do 2 f_equal. pose proof (slice_app ([QUIC_SNI_HOST_NAME] ++ quic_put_be16 (zlen sni)) sni [] 3 (zlen sni) eq_refl eq_refl) as Hsl.
  by rewrite app_nil_r, <- app_assoc in Hsl.
Qed.

(** C9: a ClientHello built by the client is understood by the server.  It is
    built exactly when the host name has at most 255 bytes, the transport
    parameters at most 2044 and the message fits; it is then the RFC 8446
    section 4.1.2 message and nothing past it is touched.  In it the server's
    lookup returns, for every extension type, the data of the first such
    extension, and from these the server's readers recover the client's x25519
    key, the host name, the ALPN protocol "h3" and the transport parameters.
    Otherwise 0 is returned and nothing past the capacity is touched. *)
Theorem client_hello_roundtrip (buf random pub sni tp pub0 : list Z) (cap : Z)
  (Hr : zlen random = 32) (Hp : zlen pub = 32) (Hp0 : zlen pub0 = 32)
  (Hs : zlen sni < max_object) (Ht : zlen tp < max_object)
  (Hcap : 0 <= cap <= zlen buf) (Hbuf : zlen buf < max_object) :
  let m := ch_message random pub sni tp in
  if (zlen sni <=? 255) && (zlen tp <=? 2044) && (zlen m <=? cap)
  then quic_tls_client_hello buf cap random pub sni (zlen sni) tp (zlen tp) = Some (zlen m, splice buf 0 m) /\
    (forall ty, quic_salpn_find_extension (splice buf 0 m) (zlen m) ty =
       Some (match ext_find ty (ch_exts pub sni tp) with Some d => Some (d, zlen d) | None => None end)) /\
    (exists d, ext_find QUIC_EXT_KEY_SHARE (ch_exts pub sni tp) = Some d /\
               quic_tls_ext_key_share_scan d (zlen d) pub0 = Some (Some pub)) /\
    (if zlen sni =? 0 then ext_find QUIC_SNI_TYPE (ch_exts pub sni tp) = None
     else exists d, ext_find QUIC_SNI_TYPE (ch_exts pub sni tp) = Some d /\
                    quic_salpn_extract_sni d (zlen d) = Some (Some sni)) /\
    (exists d, ext_find QUIC_ALPN_TYPE (ch_exts pub sni tp) = Some d /\ quic_salpn_select_h3 d (zlen d) = Some true) /\
    ext_find QUIC_TPEXT_TYPE (ch_exts pub sni tp) = Some tp
  else exists buf', quic_tls_client_hello buf cap random pub sni (zlen sni) tp (zlen tp) = Some (0, buf') /\
         zlen buf' = zlen buf /\ drop (Z.to_nat cap) buf' = drop (Z.to_nat cap) buf.
Proof.
  intros m. pose proof (client_hello_spec buf cap random pub sni tp Hr Hp Hs Ht Hcap Hbuf) as Hspec. cbv zeta in Hspec. fold m in Hspec.
  destruct ((zlen sni <=? 255) && (zlen tp <=? 2044)) eqn:E; cbn [andb] in *; [|exact Hspec]. zbool.
  destruct (zlen m <=? cap); [|exact Hspec]. split; [exact Hspec|]. pose proof (zlen_nonneg sni).
  pose proof (zlen_ch_exts pub sni tp Hp ltac:(done) ltac:(done)) as Hce. split; [|split; [|split; [|split]]].
  - intros ty. change (splice buf 0 m) with (m ++ drop (length m) buf).
    apply (find_extension_spec QUIC_HS_CLIENT_HELLO random (ch_exts pub sni tp)); [done|by apply ch_exts_wf|lia].
  - eexists. split; [reflexivity|]. rewrite zlen_app, Hp. by apply key_share_scan_spec.
  - unfold ch_exts, sni_ext. destruct (Z.eqb_spec (zlen sni) 0); [reflexivity|]. eexists. split; [reflexivity|].
    apply extract_sni_spec. lia.
  - unfold ch_exts, sni_ext. destruct (Z.eqb_spec (zlen sni) 0); eexists; (split; [reflexivity|vm_compute; reflexivity]).
  - unfold ch_exts, sni_ext. destruct (Z.eqb_spec (zlen sni) 0); reflexivity.
Qed.

(** Witness of C9: a small ClientHello. *)
Lemma client_hello_roundtrip_witness :
  exists m, quic_tls_client_hello (local 300) 300 (repeat 7 32) (repeat 9 32) (c_bytes "ex.org") 6 [1; 2; 3] 3 = Some (147, splice (local 300) 0 m) /\
    quic_salpn_find_extension (splice (local 300) 0 m) 147 QUIC_TPEXT_TYPE = Some (Some ([1; 2; 3], 3)).
Proof.
  destruct (client_hello_roundtrip (local 300) (repeat 7 32) (repeat 9 32) (c_bytes "ex.org") [1; 2; 3] (local 32) 300)
    as (H1 & H2 & _); [closed_arith..|].
  exists (ch_message (repeat 7 32) (repeat 9 32) (c_bytes "ex.org") [1; 2; 3]). exact (conj H1 (H2 QUIC_TPEXT_TYPE)).
Defined.

(** ** Arbitrary input *)

Lemma skip_v8_safe m end_ p : Forall is_u8 m -> 0 <= p < max_object -> end_ <= zlen m -> end_ < max_object ->
  exists r, salpn_skip_v8 m end_ p = Some r /\ forall p', r = Some p' -> p < p' <= end_.
Proof.
  intros Hm Hp He Ho. unfold salpn_skip_v8. unwrap. destruct (Z.ltb_spec end_ (p + 1)); [by exists None|].
  destruct (load_is_Some m p) as [x Hx]; [lia|]. pose proof (load_u8 _ _ _ Hm Hx) as Hu. unfold is_u8 in Hu.
  rewrite Hx, bind_some. cbv zeta. unwrap. eexists. split; [done|]. intros p'. zcase; [intros [= <-]; lia|done].
Qed.

Lemma skip_v16_safe m end_ p : Forall is_u8 m -> 0 <= p < max_object -> end_ <= zlen m -> end_ < max_object ->
  exists r, salpn_skip_v16 m end_ p = Some r /\ forall p', r = Some p' -> p < p' <= end_.
Proof.
  intros Hm Hp He Ho. unfold salpn_skip_v16. unwrap. destruct (Z.ltb_spec end_ (p + 2)); [by exists None|].
  destruct (be16_at_safe m p Hm) as (v & Hv & Hb); [lia|lia|]. rewrite rd16_ptr, Hv, bind_some by lia. cbv zeta. unwrap.
  eexists. split; [done|]. intros p'. zcase; [intros [= <-]; lia|done].
Qed.

Lemma scan_safe m ty : Forall is_u8 m -> forall fuel q end_, 0 <= q -> q <= end_ + 4 -> end_ <= zlen m -> end_ < max_object - 65600 ->
  end_ - q < Z.of_nat fuel * 4 -> (0 < fuel)%nat ->
  exists r, scan fuel m q end_ ty = Some r /\
    forall d l, r = Some (d, l) -> exists p, q + 4 <= p /\ p + l <= end_ /\ d = slice m p l /\ 0 <= l.
Proof.
  intros Hm. induction fuel as [|fuel IH]; intros q end_ Hq Hqe He Ho Hf H0; [lia|]. cbn [scan]. unwrap.
  destruct (Z.leb_spec (q + 4) end_); [|by exists None]. unfold one_ext. rewrite !rd16_ptr by lia.
  destruct (be16_at_safe m (q + 2) Hm) as (dl & Hdl & Hb); [lia|lia|]. destruct (be16_at_safe m q Hm) as (t & Ht & Hbt); [lia|lia|].
  rewrite Hdl, Ht, !bind_some. cbv beta. unwrap. destruct (Z.ltb_spec end_ (q + 4 + dl)); [rewrite bind_some; by exists None|].
  destruct (t =? ty); rewrite bind_some.
  - eexists. split; [done|]. intros d l [= <- <-]. exists (q + 4). split_and!; try done; lia.
  - destruct (IH (q + (4 + dl)) end_) as (r & -> & Hr); [lia..|].
    eexists. split; [done|]. intros d l Hd. destruct (Hr d l Hd) as (p & ? & ? & ? & ?). exists p. split_and!; try done; lia.
Qed.

(** C26: on any ClientHello an attacker sends, of any length, the server's extension
    lookup reads only inside the message, terminates, and a view it returns lies
    inside the message. *)
Theorem find_extension_safe (m : list Z) (n ty : Z)
  (Hm : Forall is_u8 m) (Hn : 0 <= n <= zlen m) (Ho : n < 9223372036854000000) :
  exists r, quic_salpn_find_extension m n ty = Some r /\
    forall d l, r = Some (d, l) -> exists p, 0 <= p /\ p + l <= n /\ d = slice m p l /\ 0 <= l.
Proof.
  unfold quic_salpn_find_extension, exts_bounds, to_exts, step_pos. cbv zeta.
  assert (Hmax : n < max_object - 65600) by (unfold max_object; lia).
  destruct (skip_v8_safe m n (4 + (2 + 32)) Hm) as ([p1|] & -> & H1); [unfold max_object; lia..| |]; rewrite bind_some;
    [|rewrite ?bind_some; by exists None].
  specialize (H1 p1 eq_refl). destruct (skip_v16_safe m n p1 Hm) as ([p2|] & -> & H2); [lia..| |]; rewrite ?bind_some;
    [|by exists None].
  specialize (H2 p2 eq_refl). destruct (skip_v8_safe m n p2 Hm) as ([p3|] & -> & H3); [lia..| |]; rewrite ?bind_some;
    [|by exists None].
  specialize (H3 p3 eq_refl). unfold block_end. unwrap. destruct (Z.ltb_spec n (p3 + 2)); [rewrite bind_some; by exists None|].
  destruct (be16_at_safe m p3 Hm) as (l & Hl & Hb); [lia|lia|]. rewrite rd16_ptr, Hl, bind_some by lia. cbv zeta.
  destruct (Z.leb_spec (p3 + 2 + l) n); rewrite bind_some; [|by exists None].
  destruct (scan_safe m ty Hm (S (Z.to_nat n)) (p3 + 2) (p3 + 2 + l)) as (r & -> & Hr); [lia..|].
  exists r. split; [done|]. intros d k Hd. destruct (Hr d k Hd) as (p & ? & ? & ? & ?). exists p. split_and!; try done; lia.
Qed.

(** Witness of C26: a truncated message. *)
Lemma find_extension_safe_witness :
  exists r, quic_salpn_find_extension (repeat 255 45) 45 51 = Some r.
Proof.
  destruct (find_extension_safe (repeat 255 45) 45 51) as (r & H & _); [by apply u8_by_eval|closed_arith|closed_arith|by exists r].
Defined.

(** * ServerHello: built and parsed *)

Definition sh_exts (pub : list Z) : list ext :=
  [(QUIC_EXT_SUPPORTED_VERSIONS, [3; 4]); (QUIC_EXT_KEY_SHARE, [0; 29; 0; 32] ++ pub)].
Definition sh_prefix_bytes (random sid : list Z) (cipher : Z) : list Z :=
  [3; 3] ++ random ++ [zlen sid] ++ sid ++ quic_put_be16 cipher ++ [0].
Definition sh_message (random sid : list Z) (cipher : Z) (pub : list Z) : list Z :=
  hs_message QUIC_HS_SERVER_HELLO (sh_prefix_bytes random sid cipher ++ quic_put_be16 46 ++ exts_bytes (sh_exts pub)).

Lemma zlen_sh_exts pub : zlen pub = 32 -> zlen (exts_bytes (sh_exts pub)) = 46.
Proof.
  intros Hp. unfold sh_exts. rewrite !exts_bytes_cons, !zlen_app, !zlen_ext_bytes. cbn [snd]. rewrite zlen_app, Hp. done.
Qed.

Lemma zlen_sh_prefix random sid c : zlen random = 32 -> zlen (sh_prefix_bytes random sid c) = 38 + zlen sid.
Proof. intros Hr. unfold sh_prefix_bytes. rewrite !zlen_app, Hr, zlen_put16. change (zlen [3; 3]) with 2. change (zlen [zlen sid]) with 1. change (zlen [0]) with 1. lia. Qed.

Lemma shb_prefix_spec buf w random sid c : zlen random = 32 -> zlen w + 38 + zlen sid <= zlen buf ->
  shb_prefix (splice buf 0 w) (zlen w) random sid (zlen sid) c =
  Some (splice buf 0 (w ++ sh_prefix_bytes random sid c), zlen w + 38 + zlen sid).
Proof.
  intros Hr Hl. pose proof (zlen_nonneg w). pose proof (zlen_nonneg sid). unfold shb_prefix.
  rewrite store_front_bytes, bind_some by (done || (rewrite zlen_put16; lia)).
  rewrite copy_front_bytes, bind_some by (rewrite ?zlen_app, ?zlen_put16, ?Hr; done || lia).
  rewrite (take_ge random) by (unfold zlen in Hr; lia).
  rewrite store_front_byte, bind_some by (rewrite ?zlen_app, ?zlen_put16, ?Hr; done || lia).
  rewrite copy_front_bytes, bind_some by (rewrite ?zlen_app, ?zlen_put16, ?Hr; change (zlen [zlen sid]) with 1; lia).
  rewrite (take_ge sid) by (unfold zlen; lia). cbv zeta.
  rewrite store_front_bytes, bind_some by (rewrite ?zlen_app, ?zlen_put16, ?Hr; change (zlen [zlen sid]) with 1; lia).
  rewrite store_front_byte, bind_some by (rewrite ?zlen_app, ?zlen_put16, ?Hr; change (zlen [zlen sid]) with 1; lia).
  replace (zlen w + (35 + zlen sid) + 3) with (zlen w + 38 + zlen sid) by lia. unfold sh_prefix_bytes. rewrite <- !app_assoc. reflexivity.
Qed.

Lemma shb_exts_writes pub : zlen pub = 32 -> Writes (wr_and shb_versions (shb_key_share pub)) (exts_bytes (sh_exts pub)).
Proof.
  intros Hp. unfold sh_exts. rewrite !exts_bytes_cons. change (exts_bytes []) with (@nil Z). rewrite app_nil_r.
  apply writes_and; [by apply writes_append|].
  apply (writes_same _ (quic_tls_ext_append (ext_bytes (QUIC_EXT_KEY_SHARE, [0; 29; 0; 32] ++ pub)) 40)).
  - intros cap buf off. unfold shb_key_share. destruct (list32 pub Hp) as [f ->]. reflexivity.
  - pose proof (zlen_ext_bytes (QUIC_EXT_KEY_SHARE, [0; 29; 0; 32] ++ pub)) as Hz. cbn [snd] in Hz.
    rewrite zlen_app, Hp in Hz. change (4 + (zlen [0; 29; 0; 32] + 32)) with 40 in Hz.
    apply writes_append; [lia|done|]. apply take_ge. unfold zlen in Hz. lia.
Qed.

Lemma zlen_sh_message random sid c pub : zlen random = 32 -> zlen pub = 32 -> zlen (sh_message random sid c pub) = 90 + zlen sid.
Proof. intros Hr Hp. unfold sh_message. rewrite zlen_hs_message, !zlen_app, zlen_sh_prefix, zlen_put16, zlen_sh_exts by done. lia. Qed.

Lemma shbuild_spec random sid c pub out cap : zlen random = 32 -> zlen pub = 32 -> zlen sid <= 255 ->
  0 <= cap <= zlen out -> zlen out < max_object ->
  let m := sh_message random sid c pub in
  if zlen m <=? cap
  then quic_shbuild_server_hello random sid (zlen sid) c pub out cap = Some (Some (zlen m), splice out 0 m)
  else exists out', quic_shbuild_server_hello random sid (zlen sid) c pub out cap = Some (None, out') /\
         zlen out' = zlen out /\ drop (Z.to_nat cap) out' = drop (Z.to_nat cap) out.
Proof.
  intros Hr Hp Hsid Hc Ho m. assert (Hm : zlen m = 90 + zlen sid) by (by apply zlen_sh_message). rewrite Hm.
  pose proof (zlen_nonneg sid). unfold quic_shbuild_server_hello, shb_fits.
  destruct (Z.lt_ge_cases cap 4).
  { unfold quic_hs_begin. zdecide. rewrite bind_some. cbn [Z.eqb negb andb]. by exists out. }
  rewrite hs_begin_spec, bind_some by lia. cbv beta iota. cbn [Z.eqb negb andb].
  destruct (Z.leb_spec (4 + 38 + zlen sid + 2) cap) as [Hfit|Hfit]; cbn [negb].
  2: { zdecide. eexists. split; [done|]. rewrite zlen_splice, drop_splice by (change (zlen [QUIC_HS_SERVER_HELLO; 0; 0; 0]) with 4; lia). done. }
  pose proof (shb_prefix_spec out [QUIC_HS_SERVER_HELLO; 0; 0; 0] random sid c Hr) as Hpp.
  change (zlen [QUIC_HS_SERVER_HELLO; 0; 0; 0]) with 4 in Hpp. rewrite Hpp, bind_some by lia. cbv beta iota.
  set (w := [QUIC_HS_SERVER_HELLO; 0; 0; 0] ++ sh_prefix_bytes random sid c).
  assert (Hw : zlen w = 4 + 38 + zlen sid) by (unfold w; rewrite zlen_app, zlen_sh_prefix by done; change (zlen [QUIC_HS_SERVER_HELLO; 0; 0; 0]) with 4; lia).
  rewrite (splice_extend out w 2) by lia. rewrite Hw. set (gap := slice out (4 + 38 + zlen sid) 2).
  assert (Hg : zlen gap = 2) by (apply zlen_slice; lia). assert (Hwg : zlen (w ++ gap) = 4 + 38 + zlen sid + 2) by (rewrite zlen_app; lia).
  pose proof (zlen_sh_exts pub Hp) as Hze. unfold shb_exts.
  pose proof (writes_front _ _ cap out (w ++ gap) (4 + 38 + zlen sid + 2) (shb_exts_writes pub Hp)) as Hwf.
  specialize (Hwf ltac:(lia) ltac:(lia) ltac:(lia) ltac:(lia)). rewrite Hwg, Hze in Hwf. rewrite <- Hm. rewrite Hm.
  destruct (Z.leb_spec (4 + 38 + zlen sid + 2 + 46) cap); zdecide.
  - rewrite Hwf, bind_some. cbv beta iota. rewrite <- app_assoc.
    pose proof (ch_finish_spec out QUIC_HS_SERVER_HELLO (sh_prefix_bytes random sid c) gap (exts_bytes (sh_exts pub)) Hg ltac:(lia)) as Hcf.
    cbv zeta in Hcf. change (QUIC_HS_SERVER_HELLO :: 0 :: 0 :: 0 :: sh_prefix_bytes random sid c) with w in Hcf. rewrite Hw, Hze in Hcf.
    change shb_finish with ch_finish. rewrite Hcf, bind_some by (lia || done). cbv beta iota. zdecide.
    replace (4 + 38 + zlen sid + 2 + 46) with (90 + zlen sid) by lia. reflexivity.
  - destruct Hwf as (b' & o' & -> & Hz & _ & Hd). rewrite bind_some. cbv beta iota. exists b'. done.
Qed.

Lemma entry_parse_spec pub pub0 post : zlen pub = 32 -> zlen pub0 = 32 ->
  quic_tls_ext_key_share_parse (([0; 29; 0; 32] ++ pub) ++ post) 36 pub0 = Some (Some pub).
Proof. intros H1 H2. destruct (list32 pub H1) as [f ->]. destruct (list32 pub0 H2) as [g ->]. reflexivity. Qed.

Lemma sh_ext_version rest o :
  sh_ext QUIC_EXT_SUPPORTED_VERSIONS ([3; 4] ++ rest) 2 o = Some (mk_shout (so_pub o) QUIC_TLS13_VERSION (so_have_ks o)).
Proof. reflexivity. Qed.

Lemma sh_ext_ks pub rest o : zlen pub = 32 -> zlen (so_pub o) = 32 ->
  sh_ext QUIC_EXT_KEY_SHARE (([0; 29; 0; 32] ++ pub) ++ rest) 36 o = Some (mk_shout pub (so_version o) true).
Proof.
  intros Hp Ho. unfold sh_ext. change (QUIC_EXT_KEY_SHARE =? QUIC_EXT_KEY_SHARE) with true. cbv iota.
  rewrite entry_parse_spec, bind_some by done. reflexivity.
Qed.

Lemma sh_walk_spec pub pub0 v0 pre post fuel : zlen pub = 32 -> zlen pub0 = 32 -> (2 < fuel)%nat -> zlen pre < 1000 ->
  sh_walk fuel (pre ++ exts_bytes (sh_exts pub) ++ post) (zlen pre) (zlen pre + 46) (mk_shout pub0 v0 false) =
  Some (true, mk_shout pub QUIC_TLS13_VERSION true).
Proof.
  intros Hp Hp0 Hf Hpre. pose proof (zlen_nonneg pre). destruct fuel as [|[|[|fuel]]]; try lia. cbn [sh_walk].
  unfold sh_exts. rewrite !exts_bytes_cons. change (exts_bytes []) with (@nil Z). rewrite app_nil_r.
  set (ks := (QUIC_EXT_KEY_SHARE, [0; 29; 0; 32] ++ pub)). set (ve := (QUIC_EXT_SUPPORTED_VERSIONS, [3; 4])).
  assert (Hzk : zlen (snd ks) = 36) by (unfold ks; cbn [snd]; rewrite zlen_app, Hp; done).
  assert (Wk : ext_wf ks) by (split; [done|lia]). assert (Wv : ext_wf ve) by done.
  destruct (ext_at pre QUIC_EXT_SUPPORTED_VERSIONS [3; 4] (ext_bytes ks ++ post) Wv) as (V1 & V2 & _ & V4). fold ve in V1, V2, V4.
  rewrite <- (app_assoc (ext_bytes ve)). unwrap. zdecide. rewrite V1, V2, !bind_some. cbv beta. change (zlen [3; 4]) with 2. zdecide.
  rewrite V4, sh_ext_version, bind_some. cbn [so_pub so_have_ks].
  assert (Hq : zlen (pre ++ ext_bytes ve) = zlen pre + (4 + 2)) by (rewrite zlen_app, zlen_ext_bytes; done).
  destruct (ext_at (pre ++ ext_bytes ve) QUIC_EXT_KEY_SHARE ([0; 29; 0; 32] ++ pub) post Wk) as (K1 & K2 & _ & K4). fold ks in K1, K2, K4.
  rewrite <- app_assoc, Hq in K1, K2, K4. unwrap. zdecide. rewrite K1, K2, !bind_some. cbv beta.
  change (zlen ([0; 29; 0; 32] ++ pub)) with (zlen (snd ks)). rewrite Hzk. zdecide. rewrite K4.
  rewrite sh_ext_ks, bind_some by done.
  unwrap. zdecide. reflexivity.
Qed.

(** C18: a ServerHello built by the server for any session id of at most 255 bytes,
    cipher suite and x25519 key is built exactly when it fits, and the client's
    parser, run on it with any bytes behind, returns that key, that cipher suite
    and TLS 1.3. *)
Theorem server_hello_roundtrip (random sid pub pub0 out : list Z) (cipher version0 cap : Z)
  (Hr : zlen random = 32) (Hp : zlen pub = 32) (Hp0 : zlen pub0 = 32) (Hsid : zlen sid <= 255)
  (Hc : 0 <= cipher < 65536) (Hcap : 0 <= cap <= zlen out) (Ho : zlen out < max_object) :
  let m := sh_message random sid cipher pub in
  if zlen m <=? cap
  then quic_shbuild_server_hello random sid (zlen sid) cipher pub out cap = Some (Some (zlen m), splice out 0 m) /\
       forall n, zlen m <= n -> n < max_object ->
         quic_tls_parse_server_hello (splice out 0 m) n pub0 version0 = Some (Some (pub, cipher, QUIC_TLS13_VERSION))
  else exists out', quic_shbuild_server_hello random sid (zlen sid) cipher pub out cap = Some (None, out') /\
         zlen out' = zlen out /\ drop (Z.to_nat cap) out' = drop (Z.to_nat cap) out.
Proof.
  intros m. pose proof (shbuild_spec random sid cipher pub out cap Hr Hp Hsid Hcap Ho) as Hb. cbv zeta in Hb. fold m in Hb.
  destruct (zlen m <=? cap); [|exact Hb]. split; [exact Hb|]. clear Hb. intros n Hn Hno. pose proof (zlen_nonneg sid).
  assert (Hm : zlen m = 90 + zlen sid) by (by apply zlen_sh_message).
  change (splice out 0 m) with (m ++ drop (length m) out). set (post := drop (length m) out).
  set (pre := sh_prefix_bytes random sid cipher). pose proof (zlen_sh_prefix random sid cipher Hr) as Hpre. fold pre in Hpre.
  set (body := pre ++ quic_put_be16 46 ++ exts_bytes (sh_exts pub)).
  assert (Hbody : zlen body = 86 + zlen sid) by (unfold body; rewrite !zlen_app, zlen_put16, zlen_sh_exts, Hpre by done; lia).
  unfold quic_tls_parse_server_hello, is_server_hello. change m with (hs_message QUIC_HS_SERVER_HELLO body).
  rewrite hs_parse_spec, bind_some by lia. change (QUIC_HS_SERVER_HELLO =? QUIC_HS_SERVER_HELLO) with true. cbv iota. rewrite bind_some.
  assert (Eptr : ptr (hs_message QUIC_HS_SERVER_HELLO body ++ post) 4 = body ++ post).
  { unfold hs_message. rewrite app_comm_cons. rewrite <- app_assoc. by apply ptr_app. }
  rewrite Eptr, Hbody. unfold sh_locate, sh_prefix. zdecide.
  assert (E34 : load (body ++ post) 34 = Some (zlen sid)).
  { unfold body, pre, sh_prefix_bytes. rewrite <- !app_assoc. rewrite (app_assoc [3; 3] random). apply load_head. rewrite zlen_app, Hr. done. }
  rewrite E34, bind_some. cbv zeta. zdecide.
  assert (Ec : be16_at (body ++ post) (34 + (1 + zlen sid)) = Some cipher).
  { replace (body ++ post) with (([3; 3] ++ random ++ [zlen sid] ++ sid) ++ quic_put_be16 cipher ++ [0] ++ quic_put_be16 46 ++ exts_bytes (sh_exts pub) ++ post)
      by (unfold body, pre, sh_prefix_bytes; rewrite <- !app_assoc; done).
    replace (34 + (1 + zlen sid)) with (zlen ([3; 3] ++ random ++ [zlen sid] ++ sid)) by (rewrite !zlen_app, Hr; change (zlen [3; 3]) with 2; change (zlen [zlen sid]) with 1; lia).
    by apply be16_at_put. }
  rewrite Ec, !bind_some. unfold sh_block. zdecide.
  assert (Eb : be16_at (body ++ post) (34 + (1 + zlen sid) + 3) = Some 46).
  { unfold body. rewrite <- !app_assoc. replace (34 + (1 + zlen sid) + 3) with (zlen pre) by lia. by apply be16_at_put. }
  rewrite Eb, bind_some. cbv zeta. zdecide. rewrite !bind_some.
  pose proof (sh_walk_spec pub pub0 version0 (pre ++ quic_put_be16 46) post (S (Z.to_nat (86 + zlen sid))) Hp Hp0 ltac:(lia)) as Hwalk.
  rewrite zlen_app, zlen_put16, Hpre in Hwalk. specialize (Hwalk ltac:(lia)). unfold body. rewrite <- !app_assoc in *.
  replace (34 + (1 + zlen sid) + 3 + 2) with (38 + zlen sid + 2) by lia. rewrite Hwalk, bind_some. reflexivity.
Qed.

(** Witness of C18: a ServerHello with a two-byte session id. *)
Lemma server_hello_roundtrip_witness :
  exists m, quic_shbuild_server_hello (repeat 7 32) [1; 2] 2 0x1301 (repeat 9 32) (local 120) 120 = Some (Some 92, splice (local 120) 0 m) /\
    quic_tls_parse_server_hello (splice (local 120) 0 m) 92 (local 32) 0 = Some (Some (repeat 9 32, 0x1301, 0x0304)).
Proof.
  destruct (server_hello_roundtrip (repeat 7 32) [1; 2] (repeat 9 32) (local 32) (local 120) 0x1301 0 120) as (H1 & H2); [closed_arith..|].
  exists (sh_message (repeat 7 32) [1; 2] 0x1301 (repeat 9 32)). exact (conj H1 (H2 92 ltac:(closed_arith) ltac:(closed_arith))).
Defined.
