(* ===== verification/X25519.v ===== *)
(** X25519 Diffie-Hellman ([tls/handshake/core/tls/x25519.c]).

    The field GF(2^255-19) as five 51-bit limbs in 64-bit words, the column
    products in 128 bits, the Montgomery ladder, inversion by an addition chain
    and the byte encodings.  The section [rfc7748] states the function of RFC 7748
    section 5 over integers modulo p; [x25519_refines_rfc7748] shows that the code
    computes it, with no overflow that changes a result on the way.

    Arrays have fixed length and every index is a constant below it, so an array
    is a list and [limb] reads it.  A function that writes its result over one of
    its arguments reads that argument first. *)
From S2P Require Import Prelude.
From S2P Require Import Buffers.
From S2P Require Import Poly1305.
From S2P Require Import ChaCha.

Definition u128 (z : Z) : Z := z mod 2 ^ 128.
Definition MASK51 : Z := 0x7ffffffffffff.
Definition limb (f : list Z) (i : nat) : Z := nth i f 0.

(** * The field *)

Definition x25519_fe_0 : list Z := [0; 0; 0; 0; 0].
Definition x25519_fe_1 : list Z := [1; 0; 0; 0; 0].
Definition x25519_fe_copy (f : list Z) : list Z := f.
Definition x25519_fe_add (f g : list Z) : list Z := List.map (fun i => u64 (limb f i + limb g i)) (seq 0 5).
Definition twop : list Z := [0xfffffffffffda; 0xffffffffffffe; 0xffffffffffffe; 0xffffffffffffe; 0xffffffffffffe].
Definition x25519_fe_sub (f g : list Z) : list Z := List.map (fun i => u64 (limb f i + limb twop i - limb g i)) (seq 0 5).

Definition x25519_mul_col (f g : list Z) (i : nat) : Z :=
  fold_left (fun t j =>
    let gj := if (j <=? i)%nat then limb g (i - j) else u64 (limb g (5 + i - j) * 19) in
    u128 (t + limb f j * gj)) (seq 0 5) 0.

(** The carry loop: the limbs and the last carry. *)
Fixpoint x25519_reduce_loop (t : list Z) (c : Z) : list Z * Z :=
  match t with
  | [] => ([], c)
  | x :: t' =>
      let x := u128 (x + c) in
      let '(h, c') := x25519_reduce_loop t' (u64 (Z.shiftr x 51)) in
      (Z.land (u64 x) MASK51 :: h, c')
  end.
Definition x25519_fe_reduce (t : list Z) : list Z :=
  let '(h, c) := x25519_reduce_loop t 0 in
  let h0 := u64 (limb h 0 + u64 (c * 19)) in
  let h1 := u64 (limb h 1 + Z.shiftr h0 51) in
  [Z.land h0 MASK51; h1; limb h 2; limb h 3; limb h 4].

Definition x25519_fe_mul (f g : list Z) : list Z := x25519_fe_reduce (List.map (x25519_mul_col f g) (seq 0 5)).
Definition x25519_fe_sq (f : list Z) : list Z := x25519_fe_mul f f.
Definition fe_mul121666 (f : list Z) : list Z := x25519_fe_reduce (List.map (fun i => u128 (limb f i * 121666)) (seq 0 5)).

Definition fe_cswap (f g : list Z) (swap : Z) : list Z * list Z :=
  let mask := u64 (0 - swap) in
  let x i := Z.land mask (Z.lxor (limb f i) (limb g i)) in
  (List.map (fun i => Z.lxor (limb f i) (x i)) (seq 0 5), List.map (fun i => Z.lxor (limb g i) (x i)) (seq 0 5)).

Definition x25519_fe_sqn (in_ : list Z) (n : nat) : list Z := Nat.iter n x25519_fe_sq (x25519_fe_copy in_).

Definition x25519_fe_invert (z : list Z) : list Z :=
  let t0 := x25519_fe_sq z in
  let t1 := x25519_fe_sqn t0 2 in
  let t1 := x25519_fe_mul z t1 in
  let t0 := x25519_fe_mul t0 t1 in
  let t2 := x25519_fe_sq t0 in
  let t1 := x25519_fe_mul t1 t2 in
  let t2 := x25519_fe_sqn t1 5 in
  let t1 := x25519_fe_mul t2 t1 in
  let t2 := x25519_fe_sqn t1 10 in
  let t2 := x25519_fe_mul t2 t1 in
  let t3 := x25519_fe_sqn t2 20 in
  let t2 := x25519_fe_mul t3 t2 in
  let t2 := x25519_fe_sqn t2 10 in
  let t1 := x25519_fe_mul t2 t1 in
  let t2 := x25519_fe_sqn t1 50 in
  let t2 := x25519_fe_mul t2 t1 in
  let t3 := x25519_fe_sqn t2 100 in
  let t2 := x25519_fe_mul t3 t2 in
  let t2 := x25519_fe_sqn t2 50 in
  let t1 := x25519_fe_mul t2 t1 in
  let t1 := x25519_fe_sqn t1 5 in
  x25519_fe_mul t1 t0.

Definition fe_word (s : list Z) (i : nat) : Z :=
  fold_left (fun t j => Z.lor t (u64 (Z.shiftl (limb s (i * 8 + j)) (8 * Z.of_nat j)))) (seq 0 8) 0.
Definition x25519_fe_frombytes (s : list Z) : list Z :=
  let t := fe_word s in
  [Z.land (t 0%nat) MASK51;
   Z.land (Z.lor (Z.shiftr (t 0%nat) 51) (u64 (Z.shiftl (t 1%nat) 13))) MASK51;
   Z.land (Z.lor (Z.shiftr (t 1%nat) 38) (u64 (Z.shiftl (t 2%nat) 26))) MASK51;
   Z.land (Z.lor (Z.shiftr (t 2%nat) 25) (u64 (Z.shiftl (t 3%nat) 39))) MASK51;
   Z.land (Z.shiftr (t 3%nat) 12) MASK51].

Definition x25519_store_reduced (r : list Z) : list Z :=
  let w := [Z.lor (limb r 0) (u64 (Z.shiftl (limb r 1) 51));
            Z.lor (Z.shiftr (limb r 1) 13) (u64 (Z.shiftl (limb r 2) 38));
            Z.lor (Z.shiftr (limb r 2) 26) (u64 (Z.shiftl (limb r 3) 25));
            Z.lor (Z.shiftr (limb r 3) 39) (u64 (Z.shiftl (limb r 4) 12))] in
  concat (List.map (fun x => List.map (fun j => u8 (Z.shiftr x (8 * Z.of_nat j))) (seq 0 8)) w).

Fixpoint x25519_carry_loop (r : list Z) (c : Z) : list Z * Z :=
  match r with
  | [] => ([], c)
  | x :: r' =>
      let x := u64 (x + c) in
      let '(h, c') := x25519_carry_loop r' (Z.shiftr x 51) in (Z.land x MASK51 :: h, c')
  end.
Definition x25519_carry_pass (r : list Z) : list Z :=
  let '(h, c) := x25519_carry_loop r 0 in
  [u64 (limb h 0 + u64 (c * 19)); limb h 1; limb h 2; limb h 3; limb h 4].
Definition x25519_carry_final (r : list Z) : list Z := fst (x25519_carry_loop r 0).

Definition fe_quotient (r : list Z) : Z :=
  fold_left (fun q i => Z.shiftr (u64 (limb r i + q)) 51) (seq 1 4) (Z.shiftr (u64 (limb r 0 + 19)) 51).
Definition x25519_fe_tobytes (h : list Z) : list Z :=
  let r := x25519_carry_pass (x25519_carry_pass (x25519_fe_copy h)) in
  let q := fe_quotient r in
  let r := [u64 (limb r 0 + u64 (19 * q)); limb r 1; limb r 2; limb r 3; limb r 4] in
  x25519_store_reduced (x25519_carry_final r).

(** * The ladder *)

Definition ladder_step (x2 z2 x3 z3 x1 : list Z) : list Z * list Z * list Z * list Z :=
  let a := x25519_fe_add x2 z2 in
  let b := x25519_fe_sub x2 z2 in
  let c := x25519_fe_add x3 z3 in
  let d := x25519_fe_sub x3 z3 in
  let da := x25519_fe_mul d a in
  let cb := x25519_fe_mul c b in
  let x3 := x25519_fe_add da cb in
  let x3 := x25519_fe_sq x3 in
  let z3 := x25519_fe_sub da cb in
  let z3 := x25519_fe_sq z3 in
  let z3 := x25519_fe_mul z3 x1 in
  let a := x25519_fe_sq a in
  let b := x25519_fe_sq b in
  let x2 := x25519_fe_mul a b in
  let e := x25519_fe_sub a b in
  let da := fe_mul121666 e in
  let da := x25519_fe_add da b in
  let z2 := x25519_fe_mul e da in
  (x2, z2, x3, z3).

(** [e] and [scalar] as arrays of 32 bytes. *)
Definition x25519_clamp (scalar : list Z) : list Z :=
  let e := take 32 scalar in
  let e := <[0%nat := Z.land (limb e 0) 248]> e in
  <[31%nat := Z.lor (Z.land (limb e 31) 127) 64]> e.

Definition ladder_bit (e : list Z) (pos : nat) : Z :=
  Z.land (Z.shiftr (limb e (pos / 8)) (Z.land (Z.of_nat pos) 7)) 1.

(** [for (pos = n; pos-- > 0;)]. *)
Fixpoint ladder_loop (n : nat) (e x1 x2 z2 x3 z3 : list Z) (swap : Z) : list Z * list Z * list Z * list Z * Z :=
  match n with
  | O => (x2, z2, x3, z3, swap)
  | S pos =>
      let bit := ladder_bit e pos in
      let swap := Z.lxor swap bit in
      let '(x2, x3) := fe_cswap x2 x3 swap in
      let '(z2, z3) := fe_cswap z2 z3 swap in
      let '(x2, z2, x3, z3) := ladder_step x2 z2 x3 z3 x1 in
      ladder_loop pos e x1 x2 z2 x3 z3 bit
  end.
Definition ladder (e x1 : list Z) : list Z * list Z :=
  let '(x2, z2, x3, z3, swap) := ladder_loop 255 e x1 x25519_fe_1 x25519_fe_0 (x25519_fe_copy x1) x25519_fe_1 0 in
  let '(x2, _) := fe_cswap x2 x3 swap in
  let '(z2, _) := fe_cswap z2 z3 swap in
  (x2, z2).

Definition x25519_nonzero (out : list Z) : bool := negb (fold_left (fun d i => Z.lor d (limb out i)) (seq 0 32) 0 =? 0).

(** The 32 bytes and the returned flag. *)
Definition quic_x25519 (scalar point : list Z) : list Z * bool :=
  let e := x25519_clamp scalar in
  let x1 := x25519_fe_frombytes point in
  let '(x2, z2) := ladder e x1 in
  let zinv := x25519_fe_invert z2 in
  let x2 := x25519_fe_mul x2 zinv in
  let out := x25519_fe_tobytes x2 in
  (out, x25519_nonzero out).

Definition quic_x25519_base (scalar : list Z) : list Z * bool := quic_x25519 scalar (9 :: repeat 0 31).

(** * Values *)

Definition P25519 : Z := 2 ^ 255 - 19.
Fixpoint eval51 (l : list Z) : Z := match l with [] => 0 | x :: l' => x + 2 ^ 51 * eval51 l' end.

(** The element of the field an array of limbs stands for. *)
Definition fe_val (f : list Z) : Z := eval51 f mod P25519.

(** Five limbs of at most [b]. *)
Definition fe_le (b : Z) (f : list Z) : Prop := length f = 5%nat /\ Forall (fun x => 0 <= x <= b) f.
(** What a product leaves; what a product accepts. *)
Definition fe_red : list Z -> Prop := fe_le (2 ^ 51 + 2 ^ 13).
Definition fe_loose : list Z -> Prop := fe_le (2 ^ 54 - 1).
(** What can be subtracted without a borrow. *)
Definition fe_subtrahend (g : list Z) : Prop := Forall2 (fun x m => 0 <= x <= m) g twop.

Lemma fe_le_inv b f : fe_le b f -> exists a0 a1 a2 a3 a4, f = [a0; a1; a2; a3; a4] /\
  0 <= a0 <= b /\ 0 <= a1 <= b /\ 0 <= a2 <= b /\ 0 <= a3 <= b /\ 0 <= a4 <= b.
Proof.
  intros [Hl Hf]. destruct f as [|a0 [|a1 [|a2 [|a3 [|a4 [|]]]]]]; try done. rewrite !Forall_cons_iff in Hf.
  exists a0, a1, a2, a3, a4. tauto.
Qed.

Lemma fe_le_intro b a0 a1 a2 a3 a4 : 0 <= a0 <= b -> 0 <= a1 <= b -> 0 <= a2 <= b -> 0 <= a3 <= b -> 0 <= a4 <= b ->
  fe_le b [a0; a1; a2; a3; a4].
Proof. intros. split; [done|]. by rewrite !Forall_cons_iff. Qed.

Lemma fe_le_weaken b b' f : fe_le b f -> b <= b' -> fe_le b' f.
Proof. intros [Hl Hf] Hb. split; [done|]. eapply Forall_impl; [|exact Hf]. intros x Hx. cbv beta in *. lia. Qed.

Lemma fe_red_loose f : fe_red f -> fe_loose f.
Proof. intros H. eapply fe_le_weaken; [exact H|lia]. Qed.

Lemma fe_red_subtrahend f : fe_red f -> fe_subtrahend f.
Proof.
  intros H. destruct (fe_le_inv _ _ H) as (a0 & a1 & a2 & a3 & a4 & -> & ? & ? & ? & ? & ?). unfold fe_subtrahend, twop.
  repeat constructor; lia.
Qed.

Lemma fe_subtrahend_le f : fe_subtrahend f -> fe_le (2 ^ 52 - 2) f.
Proof.
  intros H. pose proof (Forall2_length H) as Hl. split; [exact Hl|].
  destruct f as [|a0 [|a1 [|a2 [|a3 [|a4 [|]]]]]]; try done. unfold fe_subtrahend, twop in H.
  repeat match goal with H : Forall2 _ (_ :: _) (_ :: _) |- _ => inversion_clear H end.
  repeat constructor; lia.
Qed.

(** ** Addition and subtraction *)

Lemma fe_add_spec b c f g : fe_le b f -> fe_le c g -> b + c < 2 ^ 64 ->
  fe_le (b + c) (x25519_fe_add f g) /\ eval51 (x25519_fe_add f g) = eval51 f + eval51 g.
Proof.
  intros Hf Hg Hb. destruct (fe_le_inv _ _ Hf) as (f0 & f1 & f2 & f3 & f4 & -> & ? & ? & ? & ? & ?).
  destruct (fe_le_inv _ _ Hg) as (g0 & g1 & g2 & g3 & g4 & -> & ? & ? & ? & ? & ?).
  unfold x25519_fe_add. cbn [List.map seq limb nth]. unfold u64. change 18446744073709551616 with (2 ^ 64).
  rewrite !Z.mod_small by lia. split; [apply fe_le_intro; lia|]. cbn [eval51]. ring.
Qed.

Lemma fe_sub_spec b f g : fe_le b f -> fe_subtrahend g -> b < 2 ^ 54 ->
  fe_le (b + 2 ^ 52) (x25519_fe_sub f g) /\ eval51 (x25519_fe_sub f g) = eval51 f - eval51 g + 2 * P25519.
Proof.
  intros Hf Hg Hb. destruct (fe_le_inv _ _ Hf) as (f0 & f1 & f2 & f3 & f4 & -> & ? & ? & ? & ? & ?).
  pose proof (Forall2_length Hg) as Hl. destruct g as [|g0 [|g1 [|g2 [|g3 [|g4 [|]]]]]]; try done. unfold fe_subtrahend, twop in Hg.
  repeat match goal with H : Forall2 _ (_ :: _) (_ :: _) |- _ => inversion_clear H end.
  unfold x25519_fe_sub, twop. cbn [List.map seq limb nth]. unfold u64. rewrite !Z.mod_small by lia.
  split; [apply fe_le_intro; lia|]. cbn [eval51]. unfold P25519. ring.
Qed.

(** ** Carries *)

Lemma land_mask51 x : Z.land x MASK51 = x mod 2 ^ 51.
Proof. change MASK51 with (Z.ones 51). by rewrite Z.land_ones. Qed.

Lemma mod64_mod51 x : u64 x mod 2 ^ 51 = x mod 2 ^ 51.
Proof.
  unfold u64. change 18446744073709551616 with (2 ^ 51 * 2 ^ 13). rewrite Z.rem_mul_r by lia.
  rewrite Z.mul_comm, Z.mod_add by lia. apply Z.mod_mod. lia.
Qed.

Lemma reduce_loop_spec t : forall c, Forall (fun x => 0 <= x < 2 ^ 115 - 2 ^ 64) t -> 0 <= c < 2 ^ 64 ->
  let '(h, c') := x25519_reduce_loop t c in
  length h = length t /\ Forall (fun x => 0 <= x <= 2 ^ 51 - 1) h /\ 0 <= c' /\
  eval51 h + 2 ^ (51 * zlen t) * c' = eval51 t + c.
Proof.
  induction t as [|x t IH]; intros c Ht Hc; cbn [x25519_reduce_loop].
  { split_and!; [done|constructor|lia|]. cbn [eval51]. change (2 ^ (51 * zlen [])) with 1. lia. }
  apply Forall_cons_iff in Ht as [Hx Ht].
  assert (E1 : u128 (x + c) = x + c) by (unfold u128; apply Z.mod_small; lia). rewrite E1.
  assert (Hd : 0 <= (x + c) / 2 ^ 51 < 2 ^ 64) by (split; [apply Z.div_pos; lia|apply Z.div_lt_upper_bound; lia]).
  assert (E2 : u64 (Z.shiftr (x + c) 51) = (x + c) / 2 ^ 51)
    by (rewrite Z.shiftr_div_pow2 by lia; unfold u64; rewrite Z.mod_small; lia).
  rewrite E2. specialize (IH _ Ht Hd). destruct (x25519_reduce_loop t ((x + c) / 2 ^ 51)) as [h c'].
  destruct IH as (Hl & Hh & Hc' & He). rewrite land_mask51, mod64_mod51. pose proof (Z.mod_pos_bound (x + c) (2 ^ 51) ltac:(lia)).
  split_and!; [cbn; lia|apply Forall_cons; [lia|done]|done|]. cbn [eval51]. rewrite zlen_cons.
  replace (51 * (1 + zlen t)) with (51 + 51 * zlen t) by lia. pose proof (zlen_nonneg t). rewrite Z.pow_add_r by lia.
  pose proof (Z.div_mod (x + c) (2 ^ 51) ltac:(lia)). nia.
Qed.

(** Reducing columns: the value modulo p is kept and the limbs are small. *)
Lemma fe_reduce_spec t0 t1 t2 t3 t4 : let B := 2 ^ 115 - 2 ^ 64 in
  0 <= t0 < B -> 0 <= t1 < B -> 0 <= t2 < B -> 0 <= t3 < B -> 0 <= t4 < 5 * 2 ^ 108 ->
  fe_red (x25519_fe_reduce [t0; t1; t2; t3; t4]) /\
  exists c, 0 <= c /\ 2 ^ 255 * c <= eval51 [t0; t1; t2; t3; t4] /\
    eval51 (x25519_fe_reduce [t0; t1; t2; t3; t4]) = eval51 [t0; t1; t2; t3; t4] - c * P25519.
Proof.
  intros B H0 H1 H2 H3 H4. unfold x25519_fe_reduce.
  pose proof (reduce_loop_spec [t0; t1; t2; t3; t4] 0) as Hr.
  destruct (x25519_reduce_loop [t0; t1; t2; t3; t4] 0) as [h c].
  destruct Hr as (Hl & Hh & Hc & He); [unfold B in *; repeat apply Forall_cons; try lia; constructor|lia|].
  destruct (fe_le_inv (2 ^ 51 - 1) h (conj Hl Hh)) as (h0 & h1 & h2 & h3 & h4 & -> & ? & ? & ? & ? & ?).
  change (51 * zlen [t0; t1; t2; t3; t4]) with 255 in He. cbn [limb nth]. cbn [eval51] in He.
  assert (Hcb : c < 5 * 2 ^ 57 + 2 ^ 15) by (unfold B in *; lia).
  assert (E0 : u64 (h0 + u64 (c * 19)) = h0 + c * 19) by (unfold u64; rewrite (Z.mod_small (c * 19)), Z.mod_small by lia; done).
  rewrite E0. set (q := h0 + c * 19). assert (Hq : 0 <= q < 2 ^ 64) by (unfold q; lia).
  rewrite Z.shiftr_div_pow2, land_mask51 by lia.
  assert (Hd : 0 <= q / 2 ^ 51 < 2 ^ 13) by (split; [apply Z.div_pos; lia|apply Z.div_lt_upper_bound; lia]).
  assert (E1 : u64 (h1 + q / 2 ^ 51) = h1 + q / 2 ^ 51) by (unfold u64; apply Z.mod_small; lia). rewrite E1.
  pose proof (Z.mod_pos_bound q (2 ^ 51) ltac:(lia)). pose proof (Z.div_mod q (2 ^ 51) ltac:(lia)) as Hqd.
  split; [apply fe_le_intro; lia|]. exists c. cbn [eval51]. unfold P25519, q in *. split_and!; lia.
Qed.

Lemma reduced_val t r c : eval51 r = eval51 t - c * P25519 -> fe_val r = fe_val t.
Proof. intros E. unfold fe_val. rewrite E. replace (eval51 t - c * P25519) with (eval51 t + - c * P25519) by ring. by apply Z.mod_add. Qed.

(** ** Products *)

Lemma prod_bound M N a b : 0 <= a <= M -> 0 <= b <= N -> 0 <= a * b <= M * N.
Proof. intros Ha Hb. nia. Qed.

Lemma u128_id x : 0 <= x < 2 ^ 128 -> u128 x = x.
Proof. apply Z.mod_small. Qed.

Lemma col_sum a b c d e : 0 <= a < 2 ^ 113 -> 0 <= b < 2 ^ 113 -> 0 <= c < 2 ^ 113 -> 0 <= d < 2 ^ 113 -> 0 <= e < 2 ^ 113 ->
  u128 (u128 (u128 (u128 (u128 (0 + a) + b) + c) + d) + e) = a + b + c + d + e.
Proof.
  intros. rewrite Z.add_0_l, (u128_id a) by lia. rewrite (u128_id (a + b)) by lia. rewrite (u128_id (a + b + c)) by lia.
  rewrite (u128_id (a + b + c + d)) by lia. apply u128_id. lia.
Qed.

Lemma prod_19 a b : a * (b * 19) = 19 * (a * b).
Proof. ring. Qed.

(** Bounded products become variables. *)
Ltac abstract_products :=
  repeat match goal with H : 0 <= ?a * ?b < _ |- _ => let m := fresh "m" in set (m := a * b) in *; clearbody m end.

(** The five columns without wraps. *)
Lemma mul_cols_spec f0 f1 f2 f3 f4 g0 g1 g2 g3 g4 : fe_loose [f0; f1; f2; f3; f4] -> fe_loose [g0; g1; g2; g3; g4] ->
  let cols := [f0 * g0 + 19 * (f1 * g4) + 19 * (f2 * g3) + 19 * (f3 * g2) + 19 * (f4 * g1);
               f0 * g1 + f1 * g0 + 19 * (f2 * g4) + 19 * (f3 * g3) + 19 * (f4 * g2);
               f0 * g2 + f1 * g1 + f2 * g0 + 19 * (f3 * g4) + 19 * (f4 * g3);
               f0 * g3 + f1 * g2 + f2 * g1 + f3 * g0 + 19 * (f4 * g4);
               f0 * g4 + f1 * g3 + f2 * g2 + f3 * g1 + f4 * g0] in
  List.map (x25519_mul_col [f0; f1; f2; f3; f4] [g0; g1; g2; g3; g4]) (seq 0 5) = cols /\
  Forall (fun x => 0 <= x < 77 * 2 ^ 108) cols /\ 0 <= nth 4 cols 0 < 5 * 2 ^ 108.
Proof.
  intros Hf Hg cols. destruct Hf as [_ Hf], Hg as [_ Hg]. rewrite !Forall_cons_iff in Hf, Hg.
  destruct Hf as (F0 & F1 & F2 & F3 & F4 & _), Hg as (G0 & G1 & G2 & G3 & G4 & _).
  assert (HB : forall a b, 0 <= a <= 2 ^ 54 - 1 -> 0 <= b <= 2 ^ 54 - 1 -> 0 <= a * b < 2 ^ 108).
  { intros a b Ha Hb. pose proof (prod_bound _ _ a b Ha Hb). lia. }
  pose proof (HB f0 g0 F0 G0). pose proof (HB f0 g1 F0 G1). pose proof (HB f0 g2 F0 G2). pose proof (HB f0 g3 F0 G3). pose proof (HB f0 g4 F0 G4).
  pose proof (HB f1 g0 F1 G0). pose proof (HB f1 g1 F1 G1). pose proof (HB f1 g2 F1 G2). pose proof (HB f1 g3 F1 G3). pose proof (HB f1 g4 F1 G4).
  pose proof (HB f2 g0 F2 G0). pose proof (HB f2 g1 F2 G1). pose proof (HB f2 g2 F2 G2). pose proof (HB f2 g3 F2 G3). pose proof (HB f2 g4 F2 G4).
  pose proof (HB f3 g0 F3 G0). pose proof (HB f3 g1 F3 G1). pose proof (HB f3 g2 F3 G2). pose proof (HB f3 g3 F3 G3). pose proof (HB f3 g4 F3 G4).
  pose proof (HB f4 g0 F4 G0). pose proof (HB f4 g1 F4 G1). pose proof (HB f4 g2 F4 G2). pose proof (HB f4 g3 F4 G3). pose proof (HB f4 g4 F4 G4).
  clear HB. unfold cols, x25519_mul_col. cbn [List.map seq fold_left limb nth Nat.leb Nat.sub Nat.add]. unfold u64.
  rewrite !Z.mod_small by (clear - G0 G1 G2 G3 G4; lia). rewrite !prod_19. clear F0 F1 F2 F3 F4 G0 G1 G2 G3 G4 cols. abstract_products.
  split; [by rewrite !col_sum by lia|]. rewrite !Forall_cons_iff. split_and!; try lia. constructor.
Qed.

(** The wrapped product, as an identity of polynomials in the radix. *)
Lemma mul_wrap B f0 f1 f2 f3 f4 g0 g1 g2 g3 g4 :
  (f0 + B * (f1 + B * (f2 + B * (f3 + B * f4)))) * (g0 + B * (g1 + B * (g2 + B * (g3 + B * g4)))) =
  (f0 * g0 + 19 * (f1 * g4) + 19 * (f2 * g3) + 19 * (f3 * g2) + 19 * (f4 * g1)) +
  B * ((f0 * g1 + f1 * g0 + 19 * (f2 * g4) + 19 * (f3 * g3) + 19 * (f4 * g2)) +
  B * ((f0 * g2 + f1 * g1 + f2 * g0 + 19 * (f3 * g4) + 19 * (f4 * g3)) +
  B * ((f0 * g3 + f1 * g2 + f2 * g1 + f3 * g0 + 19 * (f4 * g4)) +
  B * (f0 * g4 + f1 * g3 + f2 * g2 + f3 * g1 + f4 * g0)))) +
  ((f1 * g4 + f2 * g3 + f3 * g2 + f4 * g1) + B * (f2 * g4 + f3 * g3 + f4 * g2) + B * B * (f3 * g4 + f4 * g3) + B * B * B * (f4 * g4)) *
  (B * B * B * B * B - 19).
Proof. ring. Qed.

(** The column sums fit in what the reduction accepts. *)
Lemma fe_mul_spec f g : fe_loose f -> fe_loose g ->
  fe_red (x25519_fe_mul f g) /\ fe_val (x25519_fe_mul f g) = (fe_val f * fe_val g) mod P25519.
Proof.
  intros Hf Hg. destruct (fe_le_inv _ _ Hf) as (f0 & f1 & f2 & f3 & f4 & -> & _).
  destruct (fe_le_inv _ _ Hg) as (g0 & g1 & g2 & g3 & g4 & -> & _).
  destruct (mul_cols_spec f0 f1 f2 f3 f4 g0 g1 g2 g3 g4 Hf Hg) as (He & Hb & H4). unfold x25519_fe_mul. rewrite He. cbn [nth] in H4.
  rewrite !Forall_cons_iff in Hb. destruct Hb as (B0 & B1 & B2 & B3 & _).
  assert (W : forall x, 0 <= x < 77 * 2 ^ 108 -> 0 <= x < 2 ^ 115 - 2 ^ 64) by (intros; lia).
  destruct (fe_reduce_spec _ _ _ _ _ (W _ B0) (W _ B1) (W _ B2) (W _ B3) H4) as (Hr & c & _ & _ & Hv).
  split; [exact Hr|]. rewrite (reduced_val _ _ _ Hv). unfold fe_val. rewrite <- Z.mul_mod by done. cbn [eval51]. rewrite !Z.mul_0_r, !Z.add_0_r.
  rewrite (mul_wrap (2 ^ 51)). change (2 ^ 51 * 2 ^ 51 * 2 ^ 51 * 2 ^ 51 * 2 ^ 51 - 19) with P25519. symmetry. apply Z.mod_add. done.
Qed.

Lemma fe_mul121666_spec f : fe_loose f ->
  fe_red (fe_mul121666 f) /\ fe_val (fe_mul121666 f) = (121666 * fe_val f) mod P25519.
Proof.
  intros Hf. destruct (fe_le_inv _ _ Hf) as (f0 & f1 & f2 & f3 & f4 & -> & ? & ? & ? & ? & ?). unfold fe_mul121666.
  cbn [List.map seq limb nth]. repeat (rewrite u128_id by lia).
  destruct (fe_reduce_spec (f0 * 121666) (f1 * 121666) (f2 * 121666) (f3 * 121666) (f4 * 121666)) as (Hr & c & _ & _ & Hv); [lia..|].
  split; [exact Hr|]. rewrite (reduced_val _ _ _ Hv). unfold fe_val. rewrite Z.mul_mod_idemp_r by done. f_equal. cbn [eval51]. ring.
Qed.

(** ** Powers *)

(** [f] is a reduced representation of [z^e]. *)
Definition fe_pow (z e : Z) (f : list Z) : Prop := fe_red f /\ fe_val f = z ^ e mod P25519 /\ 0 <= e.

Lemma fe_pow_1 f : fe_red f -> fe_pow (fe_val f) 1 f.
Proof. intros H. split; [done|]. split; [|lia]. rewrite Z.pow_1_r. unfold fe_val. by rewrite Z.mod_mod. Qed.

Lemma fe_pow_mul z a b f g : fe_pow z a f -> fe_pow z b g -> fe_pow z (a + b) (x25519_fe_mul f g).
Proof.
  intros (Rf & Vf & Ha) (Rg & Vg & Hb). destruct (fe_mul_spec f g (fe_red_loose _ Rf) (fe_red_loose _ Rg)) as [Hr Hv].
  split; [done|]. split; [|lia]. rewrite Hv, Vf, Vg, <- Z.mul_mod by done. by rewrite Z.pow_add_r.
Qed.

Lemma sqn_S f n : x25519_fe_sqn f (S n) = x25519_fe_mul (x25519_fe_sqn f n) (x25519_fe_sqn f n).
Proof. done. Qed.

Lemma fe_pow_sqn z n : forall a f, fe_pow z a f -> fe_pow z (a * 2 ^ Z.of_nat n) (x25519_fe_sqn f n).
Proof.
  induction n as [|n IH]; intros a f Hf.
  - change (2 ^ Z.of_nat 0) with 1. rewrite Z.mul_1_r. exact Hf.
  - replace (a * 2 ^ Z.of_nat (S n)) with (a * 2 ^ Z.of_nat n + a * 2 ^ Z.of_nat n) by (rewrite Nat2Z.inj_succ, Z.pow_succ_r by lia; ring).
    pose proof (IH a f Hf) as Hn. rewrite sqn_S. exact (fe_pow_mul z _ _ _ _ Hn Hn).
Qed.

(** The exponent is computed, not the power. *)
Lemma fe_pow_eq z a b f : fe_pow z a f -> a = b -> fe_pow z b f.
Proof. by intros H <-. Qed.

Lemma fe_pow_sq z a f : fe_pow z a f -> fe_pow z (a + a) (x25519_fe_sq f).
Proof. intros H. exact (fe_pow_mul z a a f f H H). Qed.

Lemma fe_pow_let z k e x (body : list Z -> list Z) : fe_pow z k x -> (forall t, fe_pow z k t -> fe_pow z e (body t)) ->
  fe_pow z e (let t := x in body t).
Proof. intros Hx Hb. exact (Hb x Hx). Qed.

(** One statement of an addition chain: its result gets a name and an exponent. *)
Ltac pow_step :=
  lazymatch goal with
  | H : fe_pow _ _ ?f |- fe_pow _ _ ?f => exact H
  | |- fe_pow _ _ (x25519_fe_sq _) => simple eapply fe_pow_sq; pow_step
  | |- fe_pow _ _ (x25519_fe_mul _ _) => simple eapply fe_pow_mul; pow_step
  | |- fe_pow _ _ (x25519_fe_sqn _ _) => simple eapply fe_pow_sqn; pow_step
  end.
Ltac pow_exp := match goal with |- ?a = _ => let v := eval vm_compute in a in transitivity v; [vm_compute; reflexivity|reflexivity] end.
Ltac pow_chain :=
  repeat match goal with |- fe_pow ?z ?e (let t := ?x in @?b t) =>
    refine (fe_pow_let z _ e x b _ _); [eapply fe_pow_eq; [pow_step|pow_exp]|cbv beta; intros ? ?] end;
  eapply fe_pow_eq; [pow_step|vm_compute; reflexivity].

(** The addition chain raises to p - 2. *)
Lemma fe_invert_spec f : fe_red f -> fe_pow (fe_val f) (P25519 - 2) (x25519_fe_invert f).
Proof. intros Hf. pose proof (fe_pow_1 f Hf) as P0. set (z := fe_val f) in *. cbv beta delta [x25519_fe_invert]. pow_chain. Qed.

(** ** Bytes *)

Lemma u64_shiftl b k : 0 <= b -> 0 <= k <= 64 -> u64 (Z.shiftl b k) = 2 ^ k * (b mod 2 ^ (64 - k)).
Proof.
  intros Hb Hk. rewrite Z.shiftl_mul_pow2 by lia. unfold u64. change 18446744073709551616 with (2 ^ 64).
  replace (2 ^ 64) with (2 ^ (64 - k) * 2 ^ k) by (rewrite <- Z.pow_add_r by lia; f_equal; lia).
  rewrite Z.mul_mod_distr_r by (pose proof (Z.pow_pos_nonneg 2 (64 - k)); pose proof (Z.pow_pos_nonneg 2 k); lia). ring.
Qed.

(** Two fields side by side in a word. *)
Lemma lor_join a b k : 0 <= a < 2 ^ k -> 0 <= b -> 0 <= k <= 64 -> Z.lor a (u64 (Z.shiftl b k)) = a + 2 ^ k * (b mod 2 ^ (64 - k)).
Proof. intros Ha Hb Hk. rewrite u64_shiftl by lia. rewrite Z.lor_comm, Z.mul_comm, lor_low by lia. ring. Qed.

Lemma word_byte t b k : 0 <= t < 2 ^ k -> 0 <= b < 256 -> 0 <= k <= 56 -> Z.lor t (u64 (Z.shiftl b k)) = t + 2 ^ k * b.
Proof.
  intros Ht Hb Hk. rewrite lor_join by lia. rewrite Z.mod_small; [done|]. split; [lia|].
  apply Z.lt_le_trans with (2 ^ 8); [lia|]. apply Z.pow_le_mono_r; lia.
Qed.

Lemma fe_word_spec b0 b1 b2 b3 b4 b5 b6 b7 s i : (forall j, (j < 8)%nat -> limb s (i * 8 + j) = nth j [b0; b1; b2; b3; b4; b5; b6; b7] 0) ->
  Forall is_u8 [b0; b1; b2; b3; b4; b5; b6; b7] -> fe_word s i = le_value [b0; b1; b2; b3; b4; b5; b6; b7].
Proof.
  intros Hs Hb. rewrite !Forall_cons_iff in Hb. unfold is_u8 in Hb. destruct Hb as (? & ? & ? & ? & ? & ? & ? & ? & _).
  unfold fe_word. cbn [fold_left seq]. rewrite !Hs by lia. cbn [nth].
  change (8 * Z.of_nat 0) with 0. change (8 * Z.of_nat 1) with 8. change (8 * Z.of_nat 2) with 16. change (8 * Z.of_nat 3) with 24.
  change (8 * Z.of_nat 4) with 32. change (8 * Z.of_nat 5) with 40. change (8 * Z.of_nat 6) with 48. change (8 * Z.of_nat 7) with 56.
  rewrite (word_byte 0 b0 0) by lia. rewrite (word_byte (0 + 2 ^ 0 * b0)) by lia. do 6 (rewrite (word_byte (_ + _)) by lia). cbn [le_value]. lia.
Qed.

Lemma take_8 (l : list Z) : (8 <= length l)%nat -> take 8 l = List.map (fun j => nth j l 0) (seq 0 8).
Proof. intros Hl. do 8 (destruct l as [|? l]; [cbn in Hl; lia|]). done. Qed.

Lemma nth_dropped (l : list Z) n j : nth j (drop n l) 0 = nth (n + j) l 0.
Proof. revert n; induction l as [|x l IH]; intros [|n]; cbn; first [done | by destruct j | apply IH]. Qed.

Lemma le_value_bound l : Forall is_u8 l -> 0 <= le_value l < 256 ^ zlen l.
Proof.
  induction 1 as [|x l Hx Hl IH]; [done|]. cbn [le_value]. rewrite zlen_cons, Z.add_comm, Z.pow_add_r, Z.pow_1_r by (pose proof (zlen_nonneg l); lia).
  unfold is_u8 in Hx. lia.
Qed.

Lemma fe_word_value s i : Forall is_u8 s -> (i * 8 + 8 <= length s)%nat ->
  fe_word s i = le_value (take 8 (drop (i * 8) s)) /\ 0 <= fe_word s i < 2 ^ 64.
Proof.
  intros Hs Hl. assert (He : fe_word s i = le_value (take 8 (drop (i * 8) s))).
  { rewrite take_8 by (rewrite length_drop; lia). cbn [List.map seq]. rewrite !nth_dropped. apply fe_word_spec.
    - intros j Hj. unfold limb. do 8 (destruct j as [|j]; [done|]). lia.
    - assert (Hn : forall j, is_u8 (nth j s 0)) by (intros j; destruct (nth_in_or_default j s 0) as [Hi| ->];
        [rewrite List.Forall_forall in Hs; by apply Hs|done]).
      repeat apply Forall_cons; auto. }
  split; [exact He|]. rewrite He. pose proof (le_value_bound (take 8 (drop (i * 8) s))) as Hb. unfold zlen in Hb.
  rewrite length_take, length_drop, Nat.min_l in Hb by lia. change (256 ^ Z.of_nat 8) with (2 ^ 64) in Hb. apply Hb. by apply Forall_take, Forall_drop.
Qed.

Lemma le_value_words s : length s = 32%nat -> Forall is_u8 s ->
  le_value s = fe_word s 0 + 2 ^ 64 * fe_word s 1 + 2 ^ 128 * fe_word s 2 + 2 ^ 192 * fe_word s 3.
Proof.
  intros Hl Hs. rewrite !(fun i H => proj1 (fe_word_value s i Hs H)) by (rewrite Hl; lia).
  assert (Hstep : forall l : list Z, (8 <= length l)%nat -> le_value l = le_value (take 8 l) + 2 ^ 64 * le_value (drop 8 l)).
  { intros l Hll. rewrite <- (take_drop 8 l) at 1. rewrite le_value_app. unfold zlen. rewrite length_take, Nat.min_l by lia. reflexivity. }
  change (0 * 8)%nat with 0%nat. change (1 * 8)%nat with 8%nat. rewrite drop_0, (Hstep s), (Hstep (drop 8 s)) by (rewrite ?length_drop; lia).
  rewrite drop_drop, (Hstep (drop _ s)) by (rewrite ?length_drop; lia). rewrite !drop_drop. change (8 + 8)%nat with (2 * 8)%nat.
  rewrite (Hstep (drop (2 * 8 + 8) s)) by (rewrite ?length_drop; lia). rewrite !drop_drop. change (2 * 8 + 8)%nat with (3 * 8)%nat.
  rewrite (drop_ge s (3 * 8 + 8)) by lia. cbn [le_value]. lia.
Qed.

(** A limb across two words. *)
Lemma limb_across w v a : 0 <= w < 2 ^ 64 -> 0 <= v -> 13 <= 64 - a <= 51 ->
  Z.land (Z.lor (Z.shiftr w a) (u64 (Z.shiftl v (64 - a)))) MASK51 = w / 2 ^ a + 2 ^ (64 - a) * (v mod 2 ^ (a - 13)).
Proof.
  intros Hw Hv Ha. rewrite Z.shiftr_div_pow2 by lia. pose proof (Z.pow_pos_nonneg 2 a ltac:(lia) ltac:(lia)).
  assert (E64 : 2 ^ 64 = 2 ^ a * 2 ^ (64 - a)) by (rewrite <- Z.pow_add_r by lia; f_equal; lia).
  assert (Hd : 0 <= w / 2 ^ a < 2 ^ (64 - a)) by (split; [apply Z.div_pos; lia|apply Z.div_lt_upper_bound; lia]).
  rewrite lor_join, land_mask51 by lia. replace (64 - (64 - a)) with a by lia.
  assert (Em : 2 ^ 51 = 2 ^ (64 - a) * 2 ^ (a - 13)) by (rewrite <- Z.pow_add_r by lia; f_equal; lia).
  pose proof (Z.pow_pos_nonneg 2 (a - 13) ltac:(lia) ltac:(lia)). pose proof (Z.pow_pos_nonneg 2 (64 - a) ltac:(lia) ltac:(lia)).
  rewrite Em, Z.rem_mul_r by lia. rewrite (Z.mul_comm (2 ^ (64 - a)) (v mod 2 ^ a)).
  rewrite Z.mod_add, Z.div_add, (Z.mod_small (w / 2 ^ a)), (Z.div_small (w / 2 ^ a)) by lia. rewrite Z.add_0_l. do 2 f_equal.
  replace (2 ^ a) with (2 ^ (a - 13) * 2 ^ 13) by (rewrite <- Z.pow_add_r by lia; f_equal; lia).
  rewrite Z.rem_mul_r by lia. rewrite Z.mul_comm, Z.mod_add by lia. apply Z.mod_mod. lia.
Qed.

Lemma fe_frombytes_spec s : length s = 32%nat -> Forall is_u8 s ->
  fe_le (2 ^ 51 - 1) (x25519_fe_frombytes s) /\ eval51 (x25519_fe_frombytes s) = le_value s mod 2 ^ 255.
Proof.
  intros Hl Hs. rewrite (le_value_words s Hl Hs). unfold x25519_fe_frombytes. cbv zeta.
  pose proof (proj2 (fe_word_value s 0 Hs ltac:(lia))) as H0. pose proof (proj2 (fe_word_value s 1 Hs ltac:(lia))) as H1.
  pose proof (proj2 (fe_word_value s 2 Hs ltac:(lia))) as H2. pose proof (proj2 (fe_word_value s 3 Hs ltac:(lia))) as H3.
  set (w0 := fe_word s 0) in *. set (w1 := fe_word s 1) in *. set (w2 := fe_word s 2) in *. set (w3 := fe_word s 3) in *.
  clearbody w0 w1 w2 w3. clear s Hl Hs.
  pose proof (limb_across w0 w1 51 H0 ltac:(lia) ltac:(lia)) as L1. pose proof (limb_across w1 w2 38 H1 ltac:(lia) ltac:(lia)) as L2.
  pose proof (limb_across w2 w3 25 H2 ltac:(lia) ltac:(lia)) as L3.
  change (64 - 51) with 13 in L1. change (51 - 13) with 38 in L1. change (64 - 38) with 26 in L2. change (38 - 13) with 25 in L2.
  change (64 - 25) with 39 in L3. change (25 - 13) with 12 in L3. rewrite L1, L2, L3, !land_mask51. clear L1 L2 L3.
  rewrite Z.shiftr_div_pow2 by lia. split.
  - apply fe_le_intro; Z.to_euclidean_division_equations; lia.
  - apply (Z.mod_unique _ _ (w3 / 2 ^ 63)); [left|]; cbn [eval51]; Z.to_euclidean_division_equations; lia.
Qed.

Lemma carry_loop_spec r : forall c, Forall (fun x => 0 <= x < 2 ^ 63) r -> 0 <= c < 2 ^ 13 ->
  let '(h, c') := x25519_carry_loop r c in
  length h = length r /\ Forall (fun x => 0 <= x <= 2 ^ 51 - 1) h /\ 0 <= c' /\
  eval51 h + 2 ^ (51 * zlen r) * c' = eval51 r + c.
Proof.
  induction r as [|x r IH]; intros c Hr Hc; cbn [x25519_carry_loop].
  { split_and!; [done|constructor|lia|]. cbn [eval51]. change (2 ^ (51 * zlen [])) with 1. lia. }
  apply Forall_cons_iff in Hr as [Hx Hr].
  assert (E1 : u64 (x + c) = x + c) by (unfold u64; apply Z.mod_small; lia). rewrite E1, Z.shiftr_div_pow2, land_mask51 by lia.
  assert (Hd : 0 <= (x + c) / 2 ^ 51 < 2 ^ 13) by (split; [apply Z.div_pos; lia|apply Z.div_lt_upper_bound; lia]).
  specialize (IH _ Hr Hd). destruct (x25519_carry_loop r ((x + c) / 2 ^ 51)) as [h c'].
  destruct IH as (Hl & Hh & Hc' & He). pose proof (Z.mod_pos_bound (x + c) (2 ^ 51) ltac:(lia)).
  split_and!; [cbn; lia|apply Forall_cons; [lia|done]|done|]. cbn [eval51]. rewrite zlen_cons.
  replace (51 * (1 + zlen r)) with (51 + 51 * zlen r) by lia. pose proof (zlen_nonneg r). rewrite Z.pow_add_r by lia.
  pose proof (Z.div_mod (x + c) (2 ^ 51) ltac:(lia)). nia.
Qed.

(** Five limbs through the loop. *)
Lemma carry_loop_five b r : fe_le b r -> b < 2 ^ 63 ->
  exists h0 h1 h2 h3 h4 c, x25519_carry_loop r 0 = ([h0; h1; h2; h3; h4], c) /\ fe_le (2 ^ 51 - 1) [h0; h1; h2; h3; h4] /\ 0 <= c /\
    eval51 [h0; h1; h2; h3; h4] + 2 ^ 255 * c = eval51 r.
Proof.
  intros [Hl Hb] Hlt. pose proof (carry_loop_spec r 0) as Hc. destruct (x25519_carry_loop r 0) as [h c].
  destruct Hc as (Hlen & Hh & Hc0 & He); [eapply Forall_impl; [|exact Hb]; intros x Hx; cbv beta in *; lia|lia|].
  destruct (fe_le_inv (2 ^ 51 - 1) h (conj (eq_trans Hlen Hl) Hh)) as (h0 & h1 & h2 & h3 & h4 & -> & ?).
  exists h0, h1, h2, h3, h4, c. split; [done|]. split; [split; done|]. split; [done|]. unfold zlen in He. rewrite Hl in He.
  change (51 * Z.of_nat 5) with 255 in He. lia.
Qed.

Lemma eval51_le b a0 a1 a2 a3 a4 : fe_le b [a0; a1; a2; a3; a4] ->
  0 <= eval51 [a0; a1; a2; a3; a4] <= b * (1 + 2 ^ 51 + 2 ^ 102 + 2 ^ 153 + 2 ^ 204).
Proof. intros [_ H]. rewrite !Forall_cons_iff in H. cbn [eval51]. lia. Qed.

Lemma carry_pass_spec b r : fe_le b r -> b < 2 ^ 54 ->
  exists c, 0 <= c <= 8 /\ 2 ^ 255 * c <= eval51 r < 2 ^ 255 * (c + 1) /\ eval51 (x25519_carry_pass r) = eval51 r - c * P25519 /\
    fe_le (2 ^ 51 - 1 + 19 * c) (x25519_carry_pass r) /\ eval51 (x25519_carry_pass r) < 2 ^ 255 + 19 * c.
Proof.
  intros Hr Hb. destruct (carry_loop_five b r Hr ltac:(lia)) as (h0 & h1 & h2 & h3 & h4 & c & Hc & Hh & H0 & He). unfold x25519_carry_pass. rewrite Hc.
  pose proof (eval51_le _ _ _ _ _ _ Hh) as Hbd. destruct (fe_le_inv _ _ Hr) as (a0 & a1 & a2 & a3 & a4 & -> & _).
  pose proof (eval51_le _ _ _ _ _ _ Hr) as Hbr. assert (Hc8 : c <= 8) by lia. cbn [limb nth].
  destruct (fe_le_inv _ _ Hh) as (? & ? & ? & ? & ? & [= <- <- <- <- <-] & ? & ? & ? & ? & ?).
  assert (E : u64 (h0 + u64 (c * 19)) = h0 + c * 19) by (unfold u64; rewrite (Z.mod_small (c * 19)), Z.mod_small by lia; done).
  rewrite E. exists c. split; [lia|]. split; [lia|]. split; [cbn [eval51] in *; unfold P25519; lia|].
  split; [apply fe_le_intro; lia|]. cbn [eval51] in *. lia.
Qed.

(** Two passes leave digits below 2^51. *)
Lemma carry_twice f : fe_loose f ->
  let r := x25519_carry_pass (x25519_carry_pass f) in fe_le (2 ^ 51 - 1) r /\ fe_val r = fe_val f.
Proof.
  intros Hf r. destruct (carry_pass_spec _ f Hf ltac:(lia)) as (c & Hc & _ & He & Hl & Hg).
  set (g := x25519_carry_pass f) in *. destruct (carry_pass_spec _ g Hl ltac:(lia)) as (d & Hd & Hq & He2 & Hl2 & _). fold r in He2, Hl2.
  split; [|unfold fe_val; rewrite He2, He; replace (eval51 f - c * P25519 - d * P25519) with (eval51 f + - (c + d) * P25519) by ring; by apply Z.mod_add].
  destruct (fe_le_inv _ _ Hl) as (g0 & g1 & g2 & g3 & g4 & Eg & _). rewrite Eg in Hl, Hq, He2, Hg.
  destruct (fe_le_inv _ _ Hl2) as (r0 & r1 & r2 & r3 & r4 & Er & ? & ? & ? & ? & ?). rewrite Er in *.
  assert (d = 0 \/ d = 1) as [-> | ->] by lia; [apply fe_le_intro; lia|]. cbn [eval51] in *. unfold P25519 in *. apply fe_le_intro; lia.
Qed.

Lemma fe_quotient_spec r : fe_le (2 ^ 51 - 1) r -> fe_quotient r = (eval51 r + 19) / 2 ^ 255.
Proof.
  intros Hr. destruct (fe_le_inv _ _ Hr) as (a0 & a1 & a2 & a3 & a4 & -> & ? & ? & ? & ? & ?). unfold fe_quotient. cbn [fold_left seq limb nth].
  assert (S : forall x q, 0 <= x <= 2 ^ 51 - 1 -> 0 <= q <= 19 -> Z.shiftr (u64 (x + q)) 51 = (x + q) / 2 ^ 51 /\ 0 <= (x + q) / 2 ^ 51 <= 1).
  { intros x q Hx Hq. rewrite Z.shiftr_div_pow2 by lia. unfold u64. rewrite Z.mod_small by lia. split; [done|]. Z.to_euclidean_division_equations; lia. }
  destruct (S a0 19) as [-> B0]; [lia..|]. destruct (S a1 ((a0 + 19) / 2 ^ 51)) as [-> B1]; [lia..|]. set (q0 := (a0 + 19) / 2 ^ 51) in *.
  destruct (S a2 ((a1 + q0) / 2 ^ 51)) as [-> B2]; [lia..|]. set (q1 := (a1 + q0) / 2 ^ 51) in *.
  destruct (S a3 ((a2 + q1) / 2 ^ 51)) as [-> B3]; [lia..|]. set (q2 := (a2 + q1) / 2 ^ 51) in *.
  destruct (S a4 ((a3 + q2) / 2 ^ 51)) as [-> B4]; [lia..|]. set (q3 := (a3 + q2) / 2 ^ 51) in *.
  pose proof (Z.div_mod (a0 + 19) (2 ^ 51) ltac:(lia)) as D0. pose proof (Z.mod_pos_bound (a0 + 19) (2 ^ 51) ltac:(lia)) as M0. fold q0 in D0.
  pose proof (Z.div_mod (a1 + q0) (2 ^ 51) ltac:(lia)) as D1. pose proof (Z.mod_pos_bound (a1 + q0) (2 ^ 51) ltac:(lia)) as M1. fold q1 in D1.
  pose proof (Z.div_mod (a2 + q1) (2 ^ 51) ltac:(lia)) as D2. pose proof (Z.mod_pos_bound (a2 + q1) (2 ^ 51) ltac:(lia)) as M2. fold q2 in D2.
  pose proof (Z.div_mod (a3 + q2) (2 ^ 51) ltac:(lia)) as D3. pose proof (Z.mod_pos_bound (a3 + q2) (2 ^ 51) ltac:(lia)) as M3. fold q3 in D3.
  pose proof (Z.div_mod (a4 + q3) (2 ^ 51) ltac:(lia)) as D4. pose proof (Z.mod_pos_bound (a4 + q3) (2 ^ 51) ltac:(lia)) as M4.
  apply (Z.div_unique _ _ _ ((a0 + 19) mod 2 ^ 51 + 2 ^ 51 * ((a1 + q0) mod 2 ^ 51) + 2 ^ 102 * ((a2 + q1) mod 2 ^ 51) +
    2 ^ 153 * ((a3 + q2) mod 2 ^ 51) + 2 ^ 204 * ((a4 + q3) mod 2 ^ 51))); [left|]; cbn [eval51]; lia.
Qed.

Lemma le_bytes_app a : forall b v, le_bytes (a + b) v = le_bytes a v ++ le_bytes b (v / 256 ^ Z.of_nat a).
Proof.
  induction a as [|a IH]; intros b v; cbn [le_bytes Nat.add app].
  - change (256 ^ Z.of_nat 0) with 1. by rewrite Z.div_1_r.
  - rewrite IH, Z.div_div by (pose proof (Z.pow_pos_nonneg 256 (Z.of_nat a)); lia). do 4 f_equal. rewrite Nat2Z.inj_succ, Z.pow_succ_r by lia. done.
Qed.

Lemma le_bytes_words w0 w1 w2 w3 : 0 <= w0 < 2 ^ 64 -> 0 <= w1 < 2 ^ 64 -> 0 <= w2 < 2 ^ 64 -> 0 <= w3 < 2 ^ 64 ->
  concat (List.map (fun x => List.map (fun j => u8 (Z.shiftr x (8 * Z.of_nat j))) (seq 0 8)) [w0; w1; w2; w3]) =
  le_bytes 32 (w0 + 2 ^ 64 * w1 + 2 ^ 128 * w2 + 2 ^ 192 * w3).
Proof.
  intros H0 H1 H2 H3. cbn [List.map concat]. rewrite !le64_bytes, app_nil_r.
  assert (Step : forall k w v, 0 <= w < 2 ^ 64 -> le_bytes (8 + k) (w + 2 ^ 64 * v) = le_bytes 8 w ++ le_bytes k v).
  { intros k w v Hw. rewrite le_bytes_app. rewrite <- (le_bytes_mod 8 (w + 2 ^ 64 * v)). change (256 ^ Z.of_nat 8) with (2 ^ 64).
    rewrite (Z.mul_comm (2 ^ 64)), Z.mod_add, Z.div_add, Z.mod_small, Z.div_small by lia. done. }
  change 32%nat with (8 + (8 + (8 + (8 + 0))))%nat.
  replace (w0 + 2 ^ 64 * w1 + 2 ^ 128 * w2 + 2 ^ 192 * w3) with (w0 + 2 ^ 64 * (w1 + 2 ^ 64 * (w2 + 2 ^ 64 * (w3 + 2 ^ 64 * 0)))) by lia.
  rewrite !Step by done. by rewrite app_nil_r.
Qed.

Lemma store_reduced_spec r : fe_le (2 ^ 51 - 1) r -> x25519_store_reduced r = le_bytes 32 (eval51 r).
Proof.
  intros Hr. destruct (fe_le_inv _ _ Hr) as (a0 & a1 & a2 & a3 & a4 & -> & ? & ? & ? & ? & ?). unfold x25519_store_reduced. cbn [limb nth]. cbv zeta.
  rewrite !Z.shiftr_div_pow2 by lia. rewrite (lor_join a0 a1 51) by lia.
  rewrite (lor_join (a1 / 2 ^ 13) a2 38), (lor_join (a2 / 2 ^ 26) a3 25), (lor_join (a3 / 2 ^ 39) a4 12)
    by (try (split; [apply Z.div_pos; lia|apply Z.div_lt_upper_bound; lia]); lia).
  change (64 - 51) with 13. change (64 - 38) with 26. change (64 - 25) with 39. change (64 - 12) with 52.
  rewrite le_bytes_words; [|Z.to_euclidean_division_equations; lia..]. f_equal. cbn [eval51]. Z.to_euclidean_division_equations; lia.
Qed.

(** The bytes of the canonical representative. *)
Lemma fe_tobytes_spec f : fe_loose f -> x25519_fe_tobytes f = le_bytes 32 (fe_val f).
Proof.
  intros Hf. unfold x25519_fe_tobytes, x25519_fe_copy. destruct (carry_twice f Hf) as [Hl Hv].
  set (r := x25519_carry_pass (x25519_carry_pass f)) in *. clearbody r. cbv zeta. rewrite fe_quotient_spec, <- Hv by done. clear Hf Hv.
  destruct (fe_le_inv _ _ Hl) as (a0 & a1 & a2 & a3 & a4 & -> & ? & ? & ? & ? & ?). pose proof (eval51_le _ _ _ _ _ _ Hl) as He. cbn [limb nth].
  set (v := eval51 [a0; a1; a2; a3; a4]) in *. set (q := (v + 19) / 2 ^ 255).
  assert (Hq : 0 <= q <= 1 /\ (q = 0 <-> v < P25519)) by (unfold q, P25519; Z.to_euclidean_division_equations; lia).
  assert (E : u64 (a0 + u64 (19 * q)) = a0 + 19 * q) by (unfold u64; rewrite (Z.mod_small (19 * q)), Z.mod_small by lia; done). rewrite E.
  unfold x25519_carry_final. destruct (carry_loop_five (2 ^ 51 + 19) [a0 + 19 * q; a1; a2; a3; a4]) as (h0 & h1 & h2 & h3 & h4 & c & Hc & Hh & Hc0 & Hev);
    [apply fe_le_intro; lia|lia|]. rewrite Hc. cbn [fst]. rewrite store_reduced_spec by done. f_equal. unfold fe_val. fold v.
  pose proof (eval51_le _ _ _ _ _ _ Hh) as Hhb. set (x := eval51 [h0; h1; h2; h3; h4]) in *. assert (Hx : x + 2 ^ 255 * c = v + 19 * q) by (rewrite Hev; unfold v; cbn [eval51]; ring).
  destruct Hq as [Hq01 Hq]. apply (Z.mod_unique _ _ q); unfold P25519 in *; [left|]; lia.
Qed.

(** * RFC 7748 *)

Module rfc7748.

Definition fadd (a b : Z) : Z := (a + b) mod P25519.
Definition fsub (a b : Z) : Z := (a - b) mod P25519.
Definition fmul (a b : Z) : Z := (a * b) mod P25519.
Definition a24 : Z := 121665.

Definition cswap (swap : bool) (a b : Z) : Z * Z := if swap then (b, a) else (a, b).

(** One turn of the loop of section 5, on [(x_2, z_2, x_3, z_3)]. *)
Definition step (x_1 x_2 z_2 x_3 z_3 : Z) : Z * Z * Z * Z :=
  let A := fadd x_2 z_2 in
  let AA := fmul A A in
  let B := fsub x_2 z_2 in
  let BB := fmul B B in
  let E := fsub AA BB in
  let C := fadd x_3 z_3 in
  let D := fsub x_3 z_3 in
  let DA := fmul D A in
  let CB := fmul C B in
  let s := fadd DA CB in
  let d := fsub DA CB in
  (fmul AA BB, fmul E (fadd AA (fmul a24 E)), fmul s s, fmul x_1 (fmul d d)).

(** For t = n-1 down to 0. *)
Fixpoint loop (n : nat) (k x_1 x_2 z_2 x_3 z_3 : Z) (swap : bool) : Z * Z * Z * Z * bool :=
  match n with
  | O => (x_2, z_2, x_3, z_3, swap)
  | S t =>
      let k_t := Z.testbit k (Z.of_nat t) in
      let '(x_2, x_3) := cswap (xorb swap k_t) x_2 x_3 in
      let '(z_2, z_3) := cswap (xorb swap k_t) z_2 z_3 in
      let '(x_2, z_2, x_3, z_3) := step x_1 x_2 z_2 x_3 z_3 in
      loop t k x_1 x_2 z_2 x_3 z_3 k_t
  end.

Definition X25519_int (k u : Z) : Z :=
  let '(x_2, z_2, x_3, z_3, swap) := loop 255 k u 1 0 u 1 false in
  let '(x_2, _) := cswap swap x_2 x_3 in
  let '(z_2, _) := cswap swap z_2 z_3 in
  (x_2 * z_2 ^ (P25519 - 2)) mod P25519.

(** The decodings of section 5 and the function on byte strings.  A scalar is 2^254 plus
    eight times a value below 2^251: the three lowest bits and bit 255 of the bytes are
    ignored, and so is bit 254. *)
Definition decodeScalar25519 (k : list Z) : Z := 2 ^ 254 + 8 * ((le_value k / 8) mod 2 ^ 251).
Definition decodeUCoordinate (u : list Z) : Z := (le_value u mod 2 ^ 255) mod P25519.
Definition X25519 (k u : list Z) : list Z := le_bytes 32 (X25519_int (decodeScalar25519 k) (decodeUCoordinate u)).

End rfc7748.

(** [f] is a reduced, or loose, representation of [x]. *)
Definition fe_is (x : Z) (f : list Z) : Prop := fe_red f /\ fe_val f = x.
Definition fe_is_loose (x : Z) (f : list Z) : Prop := fe_loose f /\ fe_val f = x.

Lemma fe_is_weaken x f : fe_is x f -> fe_is_loose x f.
Proof. intros [H1 H2]. split; [by apply fe_red_loose|done]. Qed.

Lemma fe_is_add x y f g : fe_is x f -> fe_is y g -> fe_is_loose (rfc7748.fadd x y) (x25519_fe_add f g).
Proof.
  intros [Rf <-] [Rg <-]. destruct (fe_add_spec _ _ f g Rf Rg ltac:(lia)) as [Hl He]. split; [eapply fe_le_weaken; [exact Hl|lia]|].
  unfold rfc7748.fadd, fe_val. by rewrite He, <- Zplus_mod.
Qed.

Lemma fe_is_sub x y f g : fe_is x f -> fe_is y g -> fe_is_loose (rfc7748.fsub x y) (x25519_fe_sub f g).
Proof.
  intros [Rf <-] [Rg <-]. destruct (fe_sub_spec _ f g Rf (fe_red_subtrahend _ Rg) ltac:(lia)) as [Hl He].
  split; [eapply fe_le_weaken; [exact Hl|lia]|]. unfold rfc7748.fsub, fe_val. rewrite He, <- Zminus_mod. by apply Z.mod_add.
Qed.

Lemma fe_is_mul x y f g : fe_is_loose x f -> fe_is_loose y g -> fe_is (rfc7748.fmul x y) (x25519_fe_mul f g).
Proof. intros [Lf <-] [Lg <-]. by apply fe_mul_spec. Qed.

Lemma fe_is_sq x f : fe_is_loose x f -> fe_is (rfc7748.fmul x x) (x25519_fe_sq f).
Proof. intros H. exact (fe_is_mul x x f f H H). Qed.

Lemma fe_is_121666 x f : fe_is_loose x f -> fe_is (rfc7748.fmul 121666 x) (fe_mul121666 f).
Proof. intros [Lf <-]. by apply fe_mul121666_spec. Qed.

Create HintDb fe discriminated.
#[export] Hint Constants Opaque : fe.
#[export] Hint Resolve fe_is_add fe_is_sub fe_is_mul fe_is_sq fe_is_121666 fe_is_weaken : fe.

(** The code adds [BB] to 121666 E where the RFC adds [AA] to 121665 E. *)
Lemma a24_forms AA BB : let E := rfc7748.fsub AA BB in
  rfc7748.fadd (rfc7748.fmul 121666 E) BB = rfc7748.fadd AA (rfc7748.fmul rfc7748.a24 E).
Proof.
  intros E. unfold E, rfc7748.fadd, rfc7748.fmul, rfc7748.fsub, rfc7748.a24.
  rewrite !Z.mul_mod_idemp_r by done. rewrite Z.add_mod_idemp_l, Z.add_mod_idemp_r by done. f_equal. ring.
Qed.

Lemma ladder_step_spec a x2 z2 x3 z3 x_2 z_2 x_3 z_3 f : fe_is a f -> fe_is x_2 x2 -> fe_is z_2 z2 -> fe_is x_3 x3 -> fe_is z_3 z3 ->
  let '(x2', z2', x3', z3') := ladder_step x2 z2 x3 z3 f in
  let '(x_2', z_2', x_3', z_3') := rfc7748.step a x_2 z_2 x_3 z_3 in
  fe_is x_2' x2' /\ fe_is z_2' z2' /\ fe_is x_3' x3' /\ fe_is z_3' z3'.
Proof.
  intros Ha H2 Hz2 H3 Hz3. unfold ladder_step, rfc7748.step. cbv zeta. split_and!; [auto 8 with fe| |auto 8 with fe|].
  - rewrite <- a24_forms. auto 12 with fe.
  - unfold rfc7748.fmul at 1. rewrite Z.mul_comm. apply fe_is_mul; auto 8 with fe.
Qed.

(** ** Swaps and scalar bits *)

Lemma lxor_lt_pow2 n x y : 0 <= x < 2 ^ n -> 0 <= y < 2 ^ n -> 0 <= Z.lxor x y < 2 ^ n.
Proof.
  intros Hx Hy. assert (Hn : 0 <= n) by (destruct (Z.lt_ge_cases n 0); [rewrite Z.pow_neg_r in Hx; lia|done]).
  assert (E : Z.lxor x y = Z.lxor x y mod 2 ^ n); [|rewrite E; apply Z.mod_pos_bound; lia].
  apply Z.bits_inj'. intros k Hk. destruct (Z.lt_ge_cases k n); [by rewrite Z.mod_pow2_bits_low|].
  rewrite Z.mod_pow2_bits_high, Z.lxor_spec by lia.
  rewrite <- (Z.mod_small x (2 ^ n)), <- (Z.mod_small y (2 ^ n)) by done. by rewrite !Z.mod_pow2_bits_high by lia.
Qed.

Lemma land_ones_lxor a b : 0 <= a < 2 ^ 64 -> 0 <= b < 2 ^ 64 -> Z.land (2 ^ 64 - 1) (Z.lxor a b) = Z.lxor a b.
Proof.
  intros Ha Hb. rewrite Z.land_comm. change (2 ^ 64 - 1) with (Z.ones 64). rewrite Z.land_ones by lia. apply Z.mod_small.
  by apply lxor_lt_pow2.
Qed.

Lemma fe_cswap_spec f g (b : bool) : fe_red f -> fe_red g -> fe_cswap f g (Z.b2z b) = if b then (g, f) else (f, g).
Proof.
  intros Hf Hg. destruct (fe_le_inv _ _ Hf) as (f0 & f1 & f2 & f3 & f4 & -> & ? & ? & ? & ? & ?).
  destruct (fe_le_inv _ _ Hg) as (g0 & g1 & g2 & g3 & g4 & -> & ? & ? & ? & ? & ?). unfold fe_cswap. cbn [List.map seq limb nth].
  destruct b; cbn [Z.b2z].
  - change (u64 (0 - 1)) with (2 ^ 64 - 1). rewrite !land_ones_lxor by lia. rewrite <- !Z.lxor_assoc, !Z.lxor_nilpotent, !Z.lxor_0_l.
    rewrite !(Z.lxor_comm g0), !(Z.lxor_comm g1), !(Z.lxor_comm g2), !(Z.lxor_comm g3), !(Z.lxor_comm g4), !Z.lxor_assoc, !Z.lxor_nilpotent, !Z.lxor_0_r. done.
  - change (u64 (0 - 0)) with 0. rewrite !Z.land_0_l, !Z.lxor_0_r. done.
Qed.

Lemma le_value_testbit l : Forall is_u8 l -> forall n, (n < 8 * length l)%nat ->
  Z.testbit (le_value l) (Z.of_nat n) = Z.testbit (nth (n / 8) l 0) (Z.of_nat (n mod 8)).
Proof.
  induction 1 as [|x l Hx Hl IH]; intros n Hn; cbn [length] in Hn; [lia|]. cbn [le_value]. unfold is_u8 in Hx.
  destruct (Nat.lt_ge_cases n 8) as [H8|H8].
  - rewrite Nat.div_small, Nat.mod_small by lia. cbn [nth]. rewrite <- (Z.mod_pow2_bits_low _ 8) by lia. change (2 ^ 8) with 256.
    rewrite Z.mul_comm, Z.mod_add, Z.mod_small by lia. done.
  - replace n with (8 + (n - 8))%nat by lia. set (k := (n - 8)%nat). replace ((8 + k) / 8)%nat with (S (k / 8)) by (symmetry; exact (Nat.div_add_l 1 8 k ltac:(lia))).
    replace ((8 + k) mod 8)%nat with (k mod 8)%nat by (rewrite <- (Nat.Div0.mod_add k 1 8); f_equal; lia). cbn [nth].
    rewrite <- IH by (unfold k; lia). rewrite Nat2Z.inj_add, (Z.add_comm (Z.of_nat 8)). rewrite <- Z.div_pow2_bits by lia.
    change (2 ^ Z.of_nat 8) with 256. rewrite Z.mul_comm, Z.div_add, Z.div_small by lia. done.
Qed.

Lemma ladder_bit_spec e n : Forall is_u8 e -> (n < 8 * length e)%nat -> ladder_bit e n = Z.b2z (Z.testbit (le_value e) (Z.of_nat n)).
Proof.
  intros He Hn. rewrite (le_value_testbit e He n Hn). unfold ladder_bit, limb. change 1 with (Z.ones 1) at 1. rewrite Z.land_ones by lia.
  change 7 with (Z.ones 3). rewrite Z.land_ones by lia. change (2 ^ 3) with (Z.of_nat 8). rewrite <- Nat2Z.inj_mod.
  rewrite Z.testbit_spec', Z.shiftr_div_pow2 by lia. done.
Qed.

Lemma lxor_b2z a b : Z.lxor (Z.b2z a) (Z.b2z b) = Z.b2z (xorb a b).
Proof. by destruct a, b. Qed.

Lemma ladder_loop_spec n e x1 x2 z2 x3 z3 x_1 x_2 z_2 x_3 z_3 sw : Forall is_u8 e -> (n <= 8 * length e)%nat ->
  fe_is x_1 x1 -> fe_is x_2 x2 -> fe_is z_2 z2 -> fe_is x_3 x3 -> fe_is z_3 z3 ->
  let '(x2', z2', x3', z3', s') := ladder_loop n e x1 x2 z2 x3 z3 (Z.b2z sw) in
  let '(x_2', z_2', x_3', z_3', sw') := rfc7748.loop n (le_value e) x_1 x_2 z_2 x_3 z_3 sw in
  fe_is x_2' x2' /\ fe_is z_2' z2' /\ fe_is x_3' x3' /\ fe_is z_3' z3' /\ s' = Z.b2z sw'.
Proof.
  intros He Hn H1. revert x2 z2 x3 z3 x_2 z_2 x_3 z_3 sw.
  induction n as [|n IH]; intros x2 z2 x3 z3 x_2 z_2 x_3 z_3 sw H2 Hz2 H3 Hz3; cbn [ladder_loop rfc7748.loop]; [by split_and!|].
  rewrite ladder_bit_spec, lxor_b2z by (done || lia). set (kt := Z.testbit (le_value e) (Z.of_nat n)).
  rewrite !fe_cswap_spec by (apply H2 || apply H3 || apply Hz2 || apply Hz3). unfold rfc7748.cswap. destruct (xorb sw kt).
  - pose proof (ladder_step_spec x_1 x3 z3 x2 z2 x_3 z_3 x_2 z_2 x1 H1 H3 Hz3 H2 Hz2) as Hs.
    destruct (ladder_step x3 z3 x2 z2 x1) as [[[? ?] ?] ?]. destruct (rfc7748.step x_1 x_3 z_3 x_2 z_2) as [[[? ?] ?] ?].
    destruct Hs as (? & ? & ? & ?). apply IH; done || lia.
  - pose proof (ladder_step_spec x_1 x2 z2 x3 z3 x_2 z_2 x_3 z_3 x1 H1 H2 Hz2 H3 Hz3) as Hs.
    destruct (ladder_step x2 z2 x3 z3 x1) as [[[? ?] ?] ?]. destruct (rfc7748.step x_1 x_2 z_2 x_3 z_3) as [[[? ?] ?] ?].
    destruct Hs as (? & ? & ? & ?). apply IH; done || lia.
Qed.

(** ** The whole function *)

(** A fact about every byte, by evaluation. *)
Lemma every_byte (P : Z -> bool) : forallb P (List.map Z.of_nat (seq 0 256)) = true -> forall x, is_u8 x -> P x = true.
Proof.
  intros H x Hx. rewrite forallb_forall in H. apply H. unfold is_u8 in Hx. apply in_map_iff. exists (Z.to_nat x).
  split; [lia|]. apply in_seq. lia.
Qed.

Lemma clamp_bytes k : length k = 32%nat -> Forall is_u8 k -> length (x25519_clamp k) = 32%nat /\ Forall is_u8 (x25519_clamp k).
Proof.
  intros Hl Hk. unfold x25519_clamp. cbv zeta. rewrite take_ge by lia. split; [by rewrite !length_insert|].
  assert (Hb : forall x, is_u8 x -> is_u8 (Z.land x 248) /\ is_u8 (Z.lor (Z.land x 127) 64)).
  { intros x Hx. pose proof (every_byte (fun x => (0 <=? Z.land x 248) && (Z.land x 248 <? 256) && (0 <=? Z.lor (Z.land x 127) 64) && (Z.lor (Z.land x 127) 64 <? 256))
      eq_refl x Hx) as H. cbv beta in H. zbool. by split. }
  assert (Hn : forall l j, Forall is_u8 l -> is_u8 (limb l j)).
  { intros l j Hf. unfold limb. destruct (nth_in_or_default j l 0) as [Hi| ->]; [rewrite List.Forall_forall in Hf; by apply Hf|done]. }
  assert (H1 : Forall is_u8 (<[0%nat:=Z.land (limb k 0) 248]> k)) by (apply Forall_insert; [done|apply Hb; auto]).
  apply Forall_insert; [done|apply Hb; auto].
Qed.

(** Clamping the bytes is the decoding of scalars. *)
Lemma clamp_value k : length k = 32%nat -> Forall is_u8 k -> le_value (x25519_clamp k) = rfc7748.decodeScalar25519 k.
Proof.
  intros Hl Hk. destruct k as [|b0 k]; [done|]. destruct (exists_last (l := k)) as (mid & b31 & ->); [by intros ->|].
  assert (Hm : length mid = 30%nat) by (cbn [length] in Hl; rewrite length_app in Hl; cbn [length] in Hl; lia).
  apply Forall_cons_iff in Hk as [H0 Hk]. apply Forall_app in Hk as [Hmid Hk]. apply Forall_cons_iff in Hk as [H31 _].
  assert (Hc : x25519_clamp (b0 :: mid ++ [b31]) = Z.land b0 248 :: mid ++ [Z.lor (Z.land b31 127) 64]).
  { unfold x25519_clamp. cbv zeta. rewrite take_ge by lia. set (v := Z.land (limb _ 0) 248).
    change (<[0%nat:=v]> (b0 :: mid ++ [b31])) with (v :: mid ++ [b31]).
    assert (H31' : limb (v :: mid ++ [b31]) 31 = b31).
    { unfold limb. change (nth 31 (v :: mid ++ [b31]) 0) with (nth 30 (mid ++ [b31]) 0). by rewrite app_nth2, Hm by lia. }
    rewrite H31'. set (w := Z.lor _ 64). change (<[31%nat:=w]> (v :: mid ++ [b31])) with (v :: <[30%nat:=w]> (mid ++ [b31])).
    rewrite insert_app_r_alt by lia. by rewrite Hm. }
  rewrite Hc. unfold rfc7748.decodeScalar25519. cbn [le_value]. rewrite !le_value_app. cbn [le_value].
  pose proof (every_byte (fun x => (Z.land x 248 =? 8 * (x / 8)) && (Z.lor (Z.land x 127) 64 =? 64 + x mod 64)) eq_refl) as Hb.
  pose proof (Hb b0 H0) as Hb0. pose proof (Hb b31 H31) as Hb31. cbv beta in Hb0, Hb31. zbool. clear Hb. replace (Z.land b0 248) with (8 * (b0 / 8)) by lia.
  replace (Z.lor (Z.land b31 127) 64) with (64 + b31 mod 64) by lia.
  pose proof (le_value_bound mid Hmid) as HM. unfold zlen in *. rewrite Hm in *. change (256 ^ Z.of_nat 30) with (2 ^ 240) in *.
  set (M := le_value mid) in *. clearbody M. unfold is_u8 in *.
  replace (b0 + 256 * (M + 2 ^ 240 * (b31 + 256 * 0))) with (b0 mod 8 + (b0 / 8 + 32 * M + 2 ^ 245 * (b31 mod 64) + b31 / 64 * 2 ^ 251) * 8).
  2: { pose proof (Z.div_mod b0 8). pose proof (Z.div_mod b31 64). change (2 ^ 251) with (2 ^ 245 * 64). change (2 ^ 245) with (2 ^ 240 * 32). lia. }
  pose proof (Z.mod_pos_bound b0 8 ltac:(lia)). pose proof (Z.mod_pos_bound b31 64 ltac:(lia)).
  rewrite Z.div_add, (Z.div_small (b0 mod 8)), Z.add_0_l by lia. rewrite Z.mod_add by lia.
  assert (0 <= b0 / 8 < 32) by (split; [apply Z.div_pos; lia|apply Z.div_lt_upper_bound; lia]).
  rewrite (Z.mod_small (b0 / 8 + 32 * M + _)).
  - change (2 ^ 254) with (2 ^ 240 * 16384). change (2 ^ 245) with (2 ^ 240 * 32). lia.
  - change (2 ^ 251) with (2 ^ 240 * 2048). change (2 ^ 245) with (2 ^ 240 * 32). lia.
Qed.

Lemma fold_lor_zero l : forall a, 0 <= a -> Forall is_u8 l -> (fold_left Z.lor l a = 0 <-> a = 0 /\ Forall (fun x => x = 0) l).
Proof.
  induction l as [|x l IH]; intros a Ha Hl; cbn [fold_left]; [split; [by intros ->|tauto]|].
  apply Forall_cons_iff in Hl as [Hx Hl]. unfold is_u8 in Hx. rewrite IH by (try done; apply Z.lor_nonneg; lia).
  rewrite Forall_cons_iff, Z.lor_eq_0_iff. tauto.
Qed.

Lemma le_bytes_u8 k : forall v, Forall is_u8 (le_bytes k v).
Proof. induction k as [|k IH]; intros v; cbn [le_bytes]; constructor; [apply Z.mod_pos_bound; lia|apply IH]. Qed.

Lemma le_value_bytes k : forall v, le_value (le_bytes k v) = v mod 256 ^ Z.of_nat k.
Proof.
  induction k as [|k IH]; intros v; cbn [le_bytes le_value]; [by rewrite Z.mod_1_r|].
  rewrite IH, Nat2Z.inj_succ, Z.pow_succ_r, Z.rem_mul_r by lia. done.
Qed.

Lemma le_bytes_value l : Forall is_u8 l -> le_bytes (length l) (le_value l) = l.
Proof.
  induction 1 as [|x l Hx Hl IH]; [done|]. unfold is_u8 in Hx. cbn [length le_bytes le_value]. rewrite Z.mul_comm.
  rewrite Z.mod_add, Z.div_add, Z.mod_small, Z.div_small by lia. by rewrite Z.add_0_l, IH.
Qed.

Lemma fold_limbs (f : Z -> Z -> Z) (l : list Z) : forall a, fold_left (fun d i => f d (limb l i)) (seq 0 (length l)) a = fold_left f l a.
Proof.
  induction l as [|x l IH]; intros a; [done|]. cbn [length seq fold_left]. rewrite <- IH. change (limb (x :: l) 0) with x.
  generalize (f a x). clear IH a. rewrite <- seq_shift. generalize (seq 0 (length l)). intros js. induction js as [|j js IHj]; intros a; [done|].
  cbn [List.map fold_left]. apply IHj.
Qed.

Lemma nonzero_spec v : 0 <= v < 2 ^ 256 -> x25519_nonzero (le_bytes 32 v) = negb (v =? 0).
Proof.
  intros Hv. unfold x25519_nonzero. f_equal.
  assert (Hl : length (le_bytes 32 v) = 32%nat) by (pose proof (zlen_le_bytes 32 v) as H; unfold zlen in H; lia).
  replace (seq 0 32) with (seq 0 (length (le_bytes 32 v))) by by rewrite Hl. rewrite fold_limbs. apply eq_true_iff_eq. rewrite !Z.eqb_eq, fold_lor_zero by (done || apply le_bytes_u8). split; [|intros ->; split; [done|]; cbn; repeat constructor].
  intros [_ Hz]. rewrite <- (Z.mod_small v (256 ^ Z.of_nat 32)) by done. rewrite <- le_value_bytes.
  revert Hz. generalize (le_bytes 32 v). induction 1 as [|x l -> Hz IH]; [done|]. cbn [le_value]. lia.
Qed.

Lemma fe_is_frombytes s : length s = 32%nat -> Forall is_u8 s -> fe_is (rfc7748.decodeUCoordinate s) (x25519_fe_frombytes s).
Proof.
  intros Hl Hs. destruct (fe_frombytes_spec s Hl Hs) as [Hle He]. split; [eapply fe_le_weaken; [exact Hle|lia]|].
  unfold fe_val. by rewrite He.
Qed.

Lemma fe_is_const x : x = 0 \/ x = 1 -> fe_is x [x; 0; 0; 0; 0].
Proof. intros Hx. split; [apply fe_le_intro; lia|]. by destruct Hx as [-> | ->]. Qed.

(** The quotient x2 / z2 by Fermat's exponent. *)
Lemma fe_is_quotient x z f g : fe_is x f -> fe_is z g ->
  fe_is ((x * z ^ (P25519 - 2)) mod P25519) (x25519_fe_mul f (x25519_fe_invert g)).
Proof.
  intros Hf [Rg <-]. destruct (fe_invert_spec g Rg) as (Ri & Vi & _).
  pose proof (fe_is_mul x (fe_val g ^ (P25519 - 2) mod P25519) f (x25519_fe_invert g) (fe_is_weaken _ _ Hf) (fe_is_weaken _ _ (conj Ri Vi))) as H.
  unfold rfc7748.fmul in H. rewrite Z.mul_mod_idemp_r in H by discriminate. exact H.
Qed.

(** C8: [quic_x25519] is the X25519 function of RFC 7748 on every scalar and every
    point of 32 bytes: the bytes it writes are those of the RFC's ladder over the
    integers modulo 2^255 - 19, and it reports failure exactly when that result is
    zero.  The limb arithmetic in 64 and 128 bits, the constant-time swaps, the
    addition chain of the inversion and the final reduction are all accounted for. *)
Theorem x25519_refines_rfc7748 (scalar point : list Z)
  (Hs : length scalar = 32%nat) (Hsb : Forall is_u8 scalar) (Hp : length point = 32%nat) (Hpb : Forall is_u8 point) :
  quic_x25519 scalar point =
    (rfc7748.X25519 scalar point,
     negb (rfc7748.X25519_int (rfc7748.decodeScalar25519 scalar) (rfc7748.decodeUCoordinate point) =? 0)).
Proof.
  unfold quic_x25519, rfc7748.X25519, rfc7748.X25519_int, ladder, x25519_fe_copy. cbv zeta. rewrite <- (clamp_value scalar Hs Hsb).
  destruct (clamp_bytes scalar Hs Hsb) as [Hel Heb]. set (e := x25519_clamp scalar) in *.
  pose proof (fe_is_frombytes point Hp Hpb) as Hx. set (u := rfc7748.decodeUCoordinate point) in *. set (x1 := x25519_fe_frombytes point) in *.
  pose proof (ladder_loop_spec 255 e x1 x25519_fe_1 x25519_fe_0 x1 x25519_fe_1 u 1 0 u 1 false Heb ltac:(lia) Hx (fe_is_const 1 ltac:(auto)) (fe_is_const 0 ltac:(auto)) Hx (fe_is_const 1 ltac:(auto))) as HL.
  change (Z.b2z false) with 0 in HL. destruct (ladder_loop 255 e x1 x25519_fe_1 x25519_fe_0 x1 x25519_fe_1 0) as [[[[x2 z2] x3] z3] s].
  destruct (rfc7748.loop 255 (le_value e) u 1 0 u 1 false) as [[[[x_2 z_2] x_3] z_3] sw]. destruct HL as (H2 & Hz2 & H3 & Hz3 & ->).
  rewrite !fe_cswap_spec by (apply H2 || apply H3 || apply Hz2 || apply Hz3). unfold rfc7748.cswap.
  assert (Hend : forall f g x z, fe_is x f -> fe_is z g ->
    let out := x25519_fe_tobytes (x25519_fe_mul f (x25519_fe_invert g)) in
    (out, x25519_nonzero out) = (le_bytes 32 ((x * z ^ (P25519 - 2)) mod P25519), negb ((x * z ^ (P25519 - 2)) mod P25519 =? 0))).
  { intros f g x z Hf Hg. destruct (fe_is_quotient x z f g Hf Hg) as [Hr Hv]. cbv zeta. rewrite fe_tobytes_spec by by apply fe_red_loose.
    rewrite Hv. rewrite nonzero_spec; [reflexivity|]. pose proof (Z.mod_pos_bound (x * z ^ (P25519 - 2)) P25519 eq_refl) as Hb.
    assert (P25519 < 2 ^ 256) by reflexivity. lia. }
  destruct sw; apply Hend; done.
Qed.

(** Witness of C8: the scalar 1 (before clamping) and the base point. *)
Lemma x25519_refines_rfc7748_witness :
  quic_x25519 (1 :: repeat 0 31) (9 :: repeat 0 31) =
    (rfc7748.X25519 (1 :: repeat 0 31) (9 :: repeat 0 31),
     negb (rfc7748.X25519_int (rfc7748.decodeScalar25519 (1 :: repeat 0 31)) (rfc7748.decodeUCoordinate (9 :: repeat 0 31)) =? 0)).
Proof. apply (x25519_refines_rfc7748 (1 :: repeat 0 31) (9 :: repeat 0 31)); [reflexivity|by apply u8_by_eval|reflexivity|by apply u8_by_eval]. Defined.
