(* ===== verification/Ed25519.v ===== *)
(** Ed25519 ([crypto/asymmetric/ecc/ed25519]): field and group arithmetic
    ([ed25519_field.c]), scalars, signing and verification ([ed25519_sign.c]).

    The field of [ed25519_field.c] is that of [x25519.c] under other names, except
    the encoding [fe_tobytes], whose last carry pass folds the top carry back.
    Arrays are lists as in [X25519]; a point is a record of its four coordinates. *)
From S2P Require Import Prelude.
From S2P Require Import Buffers.
From S2P Require Import Sha2.
From S2P Require Import Poly1305.
From S2P Require Import ChaCha.
From S2P Require Import X25519.

(** * The field *)

Definition fe_0 := x25519_fe_0.
Definition fe_1 := x25519_fe_1.
Definition fe_copy := x25519_fe_copy.
Definition fe_add := x25519_fe_add.
Definition fe_sub := x25519_fe_sub.
Definition mul_col := x25519_mul_col.
Definition fe_reduce := x25519_fe_reduce.
Definition fe_mul := x25519_fe_mul.
Definition fe_sq := x25519_fe_sq.
Definition fe_sqn := x25519_fe_sqn.
Definition fe_invert := x25519_fe_invert.
Definition fe_frombytes := x25519_fe_frombytes.
Definition store_reduced := x25519_store_reduced.
Definition carry_pass := x25519_carry_pass.

Definition fe_pow_p58 (z : list Z) : list Z :=
  let t0 := fe_sq z in
  let t1 := fe_sqn t0 2 in
  let t1 := fe_mul z t1 in
  let t0 := fe_mul t0 t1 in
  let t0 := fe_sq t0 in
  let t0 := fe_mul t1 t0 in
  let t1 := fe_sqn t0 5 in
  let t0 := fe_mul t1 t0 in
  let t1 := fe_sqn t0 10 in
  let t1 := fe_mul t1 t0 in
  let t2 := fe_sqn t1 20 in
  let t1 := fe_mul t2 t1 in
  let t1 := fe_sqn t1 10 in
  let t0 := fe_mul t1 t0 in
  let t1 := fe_sqn t0 50 in
  let t1 := fe_mul t1 t0 in
  let t2 := fe_sqn t1 100 in
  let t1 := fe_mul t2 t1 in
  let t1 := fe_sqn t1 50 in
  let t0 := fe_mul t1 t0 in
  let t0 := fe_sq t0 in
  let t0 := fe_sq t0 in
  fe_mul t0 z.

Definition fe_tobytes (h : list Z) : list Z :=
  let r := carry_pass (carry_pass (fe_copy h)) in
  let q := fe_quotient r in
  let r := [u64 (limb r 0 + u64 (19 * q)); limb r 1; limb r 2; limb r 3; limb r 4] in
  store_reduced (carry_pass r).

Definition fe_neg (f : list Z) : list Z := fe_sub fe_0 (carry_pass (carry_pass (fe_copy f))).

Definition fe_isnonzero (f : list Z) : bool :=
  let s := fe_tobytes f in negb (fold_left (fun acc i => Z.lor acc (limb s i)) (seq 0 32) 0 =? 0).
Definition fe_isnegative (f : list Z) : Z := Z.land (limb (fe_tobytes f) 0) 1.
Definition fe_equal (a b : list Z) : bool :=
  let sa := fe_tobytes a in
  let sb := fe_tobytes b in
  fold_left (fun diff i => Z.lor diff (Z.lxor (limb sa i) (limb sb i))) (seq 0 32) 0 =? 0.
Definition fe_cmov (h g : list Z) (cond : bool) : list Z :=
  let mask := u64 (0 - Z.b2z cond) in
  List.map (fun i => Z.lxor (limb h i) (Z.land mask (Z.lxor (limb h i) (limb g i)))) (seq 0 5).

Definition fe_sqrtm1 : list Z := fe_frombytes
  [0xb0; 0xa0; 0x0e; 0x4a; 0x27; 0x1b; 0xee; 0xc4; 0x78; 0xe4; 0x2f; 0xad; 0x06; 0x18; 0x43; 0x2f;
   0xa7; 0xd7; 0xfb; 0x3d; 0x99; 0x00; 0x4d; 0x2b; 0x0b; 0xdf; 0xc1; 0x4f; 0x80; 0x24; 0x83; 0x2b].
Definition fe_d_bytes : list Z :=
  [0xa3; 0x78; 0x59; 0x13; 0xca; 0x4d; 0xeb; 0x75; 0xab; 0xd8; 0x41; 0x41; 0x4d; 0x0a; 0x70; 0x00;
   0x98; 0xe8; 0x79; 0x77; 0x79; 0x40; 0xc7; 0x8c; 0x73; 0xfe; 0x6f; 0x2b; 0xee; 0x6c; 0x03; 0x52].
Definition fe_d : list Z := fe_frombytes fe_d_bytes.

(** * The group *)

Record quic_ed_ge := mk_ge { ge_X : list Z; ge_Y : list Z; ge_Z : list Z; ge_T : list Z }.

Definition ge_zero : quic_ed_ge := mk_ge fe_0 fe_1 fe_1 fe_0.

Definition ge_base_x : list Z :=
  [0x1a; 0xd5; 0x25; 0x8f; 0x60; 0x2d; 0x56; 0xc9; 0xb2; 0xa7; 0x25; 0x95; 0x60; 0xc7; 0x2c; 0x69;
   0x5c; 0xdc; 0xd6; 0xfd; 0x31; 0xe2; 0xa4; 0xc0; 0xfe; 0x53; 0x6e; 0xcd; 0xd3; 0x36; 0x69; 0x21].
Definition ge_base_y : list Z := 0x58 :: repeat 0x66 31.
Definition quic_ed_ge_base : quic_ed_ge :=
  let X := fe_frombytes ge_base_x in
  let Y := fe_frombytes ge_base_y in
  mk_ge X Y fe_1 (fe_mul X Y).

Definition quic_ed_ge_add (p1 p2 : quic_ed_ge) : quic_ed_ge :=
  let d2 := fe_d in
  let d2 := fe_add d2 d2 in
  let a := fe_sub (ge_Y p1) (ge_X p1) in
  let t := fe_sub (ge_Y p2) (ge_X p2) in
  let a := fe_mul a t in
  let b := fe_add (ge_Y p1) (ge_X p1) in
  let t := fe_add (ge_Y p2) (ge_X p2) in
  let b := fe_mul b t in
  let c := fe_mul (ge_T p1) (ge_T p2) in
  let c := fe_mul c d2 in
  let d := fe_mul (ge_Z p1) (ge_Z p2) in
  let d := fe_add d d in
  let e := fe_sub b a in
  let f := fe_sub d c in
  let g := fe_add d c in
  let h := fe_add b a in
  mk_ge (fe_mul e f) (fe_mul g h) (fe_mul f g) (fe_mul e h).

Definition ge_bit (scalar : list Z) (i : nat) : Z := Z.land (Z.shiftr (limb scalar (i / 8)) (Z.land (Z.of_nat i) 7)) 1.

(** [for (i = n; i-- > 0;)]. *)
Fixpoint ge_scalarmult_loop (n : nat) (q : quic_ed_ge) (scalar : list Z) (p : quic_ed_ge) : quic_ed_ge :=
  match n with
  | O => q
  | S i =>
      let bit := negb (ge_bit scalar i =? 0) in
      let q := quic_ed_ge_add q q in
      let t := quic_ed_ge_add q p in
      let q := mk_ge (fe_cmov (ge_X q) (ge_X t) bit) (fe_cmov (ge_Y q) (ge_Y t) bit)
                     (fe_cmov (ge_Z q) (ge_Z t) bit) (fe_cmov (ge_T q) (ge_T t) bit) in
      ge_scalarmult_loop i q scalar p
  end.
Definition quic_ed_ge_scalarmult (scalar : list Z) (p : quic_ed_ge) : quic_ed_ge := ge_scalarmult_loop 256 ge_zero scalar p.

Definition quic_ed_ge_encode (p : quic_ed_ge) : list Z :=
  let zi := fe_invert (ge_Z p) in
  let x := fe_mul (ge_X p) zi in
  let y := fe_mul (ge_Y p) zi in
  let out := fe_tobytes y in
  <[31%nat := Z.lxor (limb out 31) (u8 (Z.shiftl (fe_isnegative x) 7))]> out.

Definition recover_x (u v : list Z) : option (list Z) :=
  let v3 := fe_sq v in
  let v3 := fe_mul v3 v in
  let uv7 := fe_sq v3 in
  let uv7 := fe_mul uv7 v in
  let uv7 := fe_mul uv7 u in
  let t := fe_pow_p58 uv7 in
  let x := fe_mul v3 u in
  let x := fe_mul x t in
  let vx2 := fe_sq x in
  let vx2 := fe_mul vx2 v in
  let nu := fe_neg u in
  if fe_equal vx2 u then Some x
  else let x := fe_mul x fe_sqrtm1 in if fe_equal vx2 nu then Some x else None.

Definition decode_sign_fails (x : list Z) (x_0 : Z) : bool := negb (fe_isnonzero x) && negb (x_0 =? 0).
Definition apply_sign (x : list Z) (x_0 : Z) : list Z := fe_cmov x (fe_neg x) (negb (x_0 =? fe_isnegative x)).
Definition decode_uv (y : list Z) : list Z * list Z :=
  let u := fe_sq y in
  let u := fe_sub u fe_1 in
  let dd := fe_d in
  let v := fe_mul u dd in
  let v := fe_add v dd in
  let v := fe_add v fe_1 in
  (u, v).

Definition quic_ed_ge_decode (in_ : list Z) : option quic_ed_ge :=
  let x_0 := Z.shiftr (limb in_ 31) 7 in
  let Y := fe_frombytes in_ in
  let '(u, v) := decode_uv Y in
  match recover_x u v with
  | None => None
  | Some x =>
      if decode_sign_fails x x_0 then None
      else let x := apply_sign x x_0 in Some (mk_ge x Y fe_1 (fe_mul x Y))
  end.

(** * Scalars modulo the group order *)

Definition ORDER_L : list Z :=
  [0xed; 0xd3; 0xf5; 0x5c; 0x1a; 0x63; 0x12; 0x58; 0xd6; 0x9c; 0xf7; 0xa2; 0xde; 0xf9; 0xde; 0x14;
   0; 0; 0; 0; 0; 0; 0; 0; 0; 0; 0; 0; 0; 0; 0; 0x10].

(** [for (i = n; i-- > 0;) if (a[i] != b[i]) return a[i] > b[i]; return 1;]. *)
Fixpoint sc_ge_loop (n : nat) (a b : list Z) : bool :=
  match n with
  | O => true
  | S i => if negb (limb a i =? limb b i) then limb b i <? limb a i else sc_ge_loop i a b
  end.
Definition sc_ge (a b : list Z) : bool := sc_ge_loop 32 a b.

(** Byte by byte with a borrow. *)
Fixpoint sc_subl_loop (r l : list Z) (borrow : Z) : list Z :=
  match r, l with
  | x :: r', y :: l' =>
      let v := x - y - borrow in
      let borrow := Z.b2z (v <? 0) in
      u8 (v + Z.shiftl borrow 8) :: sc_subl_loop r' l' borrow
  | _, _ => []
  end.
Definition sc_subl (r : list Z) : list Z := sc_subl_loop r ORDER_L 0.

(** The shifted bytes and the bit shifted out. *)
Fixpoint sc_shl1 (r : list Z) (carry : Z) : list Z * Z :=
  match r with
  | [] => ([], carry)
  | x :: r' =>
      let v := Z.lor (Z.shiftl x 1) carry in
      let '(h, c) := sc_shl1 r' (Z.shiftr v 8) in (u8 v :: h, c)
  end.

Definition sc_dbl_add_bit (r : list Z) (bit : Z) : list Z :=
  let '(r, overflow) := sc_shl1 r bit in
  let reduce := Z.lor overflow (Z.b2z (sc_ge r ORDER_L)) in
  if negb (reduce =? 0) then sc_subl r else r.

Fixpoint sc_reduce_loop (n : nat) (out in_ : list Z) : list Z :=
  match n with
  | O => out
  | S i => sc_reduce_loop i (sc_dbl_add_bit out (Z.land (Z.shiftr (limb in_ (i / 8)) (Z.land (Z.of_nat i) 7)) 1)) in_
  end.
Definition sc_reduce64 (in_ : list Z) : list Z := sc_reduce_loop 512 (repeat 0 32) in_.

(** [t[i + j] += a[i] * b[j]] for all j. *)
Definition sc_mul_row (t a b : list Z) (i : nat) : list Z :=
  fold_left (fun t j => <[(i + j)%nat := u64 (limb t (i + j) + limb a i * limb b j)]> t) (seq 0 32) t.
Fixpoint sc_mul_carry (t : list Z) (c : Z) : list Z :=
  match t with
  | [] => []
  | x :: t' => let x := u64 (x + c) in u8 x :: sc_mul_carry t' (Z.shiftr x 8)
  end.
Definition sc_mul512 (a b : list Z) : list Z :=
  sc_mul_carry (fold_left (fun t i => sc_mul_row t a b i) (seq 0 32) (repeat 0 64)) 0.

Fixpoint sc_add32_loop (prod : list Z) (i : nat) (c : list Z) (carry : Z) : list Z :=
  match prod with
  | [] => []
  | x :: prod' =>
      let v := x + carry + (if (i <? 32)%nat then limb c i else 0) in
      u8 v :: sc_add32_loop prod' (S i) c (Z.shiftr v 8)
  end.
Definition sc_add32 (prod c : list Z) : list Z := sc_add32_loop prod 0 c 0.
Definition sc_muladd (a b c : list Z) : list Z := sc_reduce64 (sc_add32 (sc_mul512 a b) c).

Definition sc_clamp (a : list Z) : list Z :=
  let a := <[0%nat := Z.land (limb a 0) 0xf8]> a in
  let a := <[31%nat := Z.land (limb a 31) 0x7f]> a in
  <[31%nat := Z.lor (limb a 31) 0x40]> a.

(** * Signing and verification

    The buffer of a fresh hash context is indeterminate; it is taken as zeros
    here, and the digest does not depend on it ([sha512_stream]). *)

Definition hash_k (R A msg : list Z) (msg_len : Z) : option (list Z) :=
  h ← quic_sha512_update (quic_sha512_init (local 128)) R 32;
  h ← quic_sha512_update h A 32;
  h ← quic_sha512_update h msg msg_len;
  digest ← quic_sha512_final h;
  Some (sc_reduce64 digest).

Definition bytes_equal (a b : list Z) : bool :=
  fold_left (fun diff i => Z.lor diff (Z.lxor (limb a i) (limb b i))) (seq 0 32) 0 =? 0.

Definition compute_rhs (k : list Z) (A : quic_ed_ge) (R : list Z) : option (list Z) :=
  let kA := quic_ed_ge_scalarmult k A in
  match quic_ed_ge_decode R with
  | None => None
  | Some rhs => Some (quic_ed_ge_encode (quic_ed_ge_add rhs kA))
  end.

Definition check_equation (S k : list Z) (A : quic_ed_ge) (R : list Z) : bool :=
  match compute_rhs k A R with
  | None => false
  | Some want =>
      let sB := quic_ed_ge_scalarmult S quic_ed_ge_base in
      bytes_equal (quic_ed_ge_encode sB) want
  end.

Definition hash_r (prefix msg : list Z) (msg_len : Z) : option (list Z) :=
  h ← quic_sha512_update (quic_sha512_init (local 128)) prefix 32;
  h ← quic_sha512_update h msg msg_len;
  digest ← quic_sha512_final h;
  Some (sc_reduce64 digest).

Definition quic_ed25519_keypair (seed : list Z) : option (list Z) :=
  h ← quic_sha512 (local 128) seed 32;
  let a := sc_clamp (take 32 h) in
  let A := quic_ed_ge_scalarmult a quic_ed_ge_base in
  Some (quic_ed_ge_encode A).

Definition quic_ed25519_sign (seed msg : list Z) (msg_len : Z) : option (list Z) :=
  h ← quic_sha512 (local 128) seed 32;
  let a := sc_clamp (take 32 h) in
  let A := quic_ed_ge_scalarmult a quic_ed_ge_base in
  let A_enc := quic_ed_ge_encode A in
  r ← hash_r (drop 32 h) msg msg_len;
  let R := quic_ed_ge_scalarmult r quic_ed_ge_base in
  let sigR := quic_ed_ge_encode R in
  k ← hash_k sigR A_enc msg msg_len;
  Some (sigR ++ sc_muladd k a r).

Definition quic_ed25519_verify (sig msg : list Z) (msg_len : Z) (pubkey : list Z) : option bool :=
  let R := sig in
  let S := drop 32 sig in
  if sc_ge S ORDER_L then Some false
  else match quic_ed_ge_decode pubkey with
       | None => Some false
       | Some A => k ← hash_k R pubkey msg msg_len; Some (check_equation S k A R)
       end.

(** * Scalar arithmetic is arithmetic modulo L *)

Definition L25519 : Z := 2 ^ 252 + 27742317777372353535851937790883648493.

Lemma order_value : le_value ORDER_L = L25519.
Proof. reflexivity. Qed.

Lemma sc_subl_loop_spec : forall r l b, Forall is_u8 r -> Forall is_u8 l -> length r = length l -> 0 <= b <= 1 ->
  le_value (sc_subl_loop r l b) = (le_value r - le_value l - b) mod 256 ^ zlen r /\
  length (sc_subl_loop r l b) = length r /\ Forall is_u8 (sc_subl_loop r l b).
Proof.
  induction r as [|x r IH]; intros [|y l] b Hr Hl He Hb; try done; cbn [sc_subl_loop le_value].
  { change (256 ^ zlen (@nil Z)) with 1. rewrite Z.mod_1_r. split_and!; [done|done|constructor]. }
  apply Forall_cons_iff in Hr as [Hx Hr]. apply Forall_cons_iff in Hl as [Hy Hl]. unfold is_u8 in Hx, Hy.
  set (v := x - y - b). assert (Hbb : 0 <= Z.b2z (v <? 0) <= 1) by (destruct (v <? 0); cbn; lia).
  destruct (IH l (Z.b2z (v <? 0)) Hr Hl ltac:(cbn in He; lia) Hbb) as (Hv & Hlen & Hu).
  assert (Ev : u8 (v + Z.shiftl (Z.b2z (v <? 0)) 8) = v + 256 * Z.b2z (v <? 0)).
  { rewrite Z.shiftl_mul_pow2 by lia. unfold u8. change (2 ^ 8) with 256. rewrite Z.mod_small; [lia|]. unfold v. zcase; cbn; lia. }
  split_and!; [|cbn; lia|constructor; [apply u8_range|done]].
  rewrite Ev, Hv, zlen_cons, Z.add_comm, (Z.add_comm 1), Z.pow_add_r, Z.pow_1_r by (pose proof (zlen_nonneg r); lia).
  rewrite (Z.mul_comm (256 ^ zlen r)), Z.rem_mul_r by (pose proof (Z.pow_pos_nonneg 256 (zlen r) ltac:(lia) (zlen_nonneg r)); lia).
  assert (Hm : (x + 256 * le_value r - (y + 256 * le_value l) - b) = v + 256 * Z.b2z (v <? 0) + (le_value r - le_value l - Z.b2z (v <? 0)) * 256) by (unfold v; ring).
  assert (Hsm : 0 <= v + 256 * Z.b2z (v <? 0) < 256) by (unfold v; zcase; cbn; lia).
  rewrite Hm, Z.mod_add, Z.div_add, (Z.mod_small (v + _)), (Z.div_small (v + _)) by lia. rewrite Z.add_0_l. lia.
Qed.

Lemma sc_shl1_spec : forall r bit, Forall is_u8 r -> 0 <= bit <= 1 ->
  let '(h, c) := sc_shl1 r bit in
  le_value h + 256 ^ zlen r * c = 2 * le_value r + bit /\ length h = length r /\ Forall is_u8 h /\ 0 <= c <= 1.
Proof.
  induction r as [|x r IH]; intros bit Hr Hb; cbn [sc_shl1 le_value].
  { change (256 ^ zlen (@nil Z)) with 1. split_and!; [lia|done|constructor|lia|lia]. }
  apply Forall_cons_iff in Hr as [Hx Hr]. unfold is_u8 in Hx.
  assert (Ev : Z.lor (Z.shiftl x 1) bit = 2 * x + bit) by (rewrite Z.shiftl_mul_pow2, lor_low by lia; lia). rewrite Ev, Z.shiftr_div_pow2 by lia.
  change (2 ^ 8) with 256. assert (Hc : 0 <= (2 * x + bit) / 256 <= 1) by (Z.to_euclidean_division_equations; lia).
  specialize (IH _ Hr Hc). destruct (sc_shl1 r ((2 * x + bit) / 256)) as [h c]. destruct IH as (He & Hl & Hu & Hcb).
  split_and!; try lia; [|cbn; lia|constructor; [apply u8_range|done]]. cbn [le_value]. rewrite zlen_cons, Z.pow_add_r, Z.pow_1_r by (pose proof (zlen_nonneg r); lia).
  unfold u8. pose proof (Z.div_mod (2 * x + bit) 256 ltac:(lia)). nia.
Qed.

Lemma le_value_take_S (a : list Z) n : (n < length a)%nat -> le_value (take (S n) a) = le_value (take n a) + 256 ^ Z.of_nat n * limb a n.
Proof.
  intros Hn. unfold limb. assert (Hs : a !! n = Some (nth n a 0)) by (destruct (lookup_lt_is_Some_2 a n Hn) as [x Hx]; by rewrite (nth_lookup_Some _ _ _ _ Hx)).
  rewrite (take_S_r _ _ _ Hs), le_value_app. cbn [le_value]. unfold zlen. rewrite length_take, Nat.min_l by lia. lia.
Qed.

Lemma sc_ge_loop_spec a b : Forall is_u8 a -> Forall is_u8 b -> forall n, (n <= length a)%nat -> (n <= length b)%nat ->
  sc_ge_loop n a b = (le_value (take n b) <=? le_value (take n a)).
Proof.
  intros Ha Hb. induction n as [|n IH]; intros Hna Hnb; cbn [sc_ge_loop]; [done|].
  rewrite !le_value_take_S by lia. rewrite IH by lia.
  pose proof (le_value_bound (take n a) ltac:(by apply Forall_take)) as Ba. pose proof (le_value_bound (take n b) ltac:(by apply Forall_take)) as Bb.
  unfold zlen in Ba, Bb. rewrite length_take, Nat.min_l in Ba, Bb by lia.
  destruct (Z.eqb_spec (limb a n) (limb b n)) as [E|E]; cbn [negb].
  - rewrite E. apply eq_true_iff_eq. rewrite !Z.leb_le. lia.
  - apply eq_true_iff_eq. rewrite Z.leb_le, Z.ltb_lt. set (W := 256 ^ Z.of_nat n) in *. nia.
Qed.

Lemma sc_ge_spec a b : Forall is_u8 a -> Forall is_u8 b -> length a = 32%nat -> length b = 32%nat -> sc_ge a b = (le_value b <=? le_value a).
Proof.
  intros Ha Hb La Lb. unfold sc_ge. rewrite sc_ge_loop_spec by (done || lia). by rewrite !take_ge by lia.
Qed.

(** A reduced scalar: 32 bytes below L. *)
Definition sc_reduced (r : list Z) : Prop := length r = 32%nat /\ Forall is_u8 r /\ le_value r < L25519.

Lemma le_value_nonneg l : Forall is_u8 l -> 0 <= le_value l.
Proof. intros H. pose proof (le_value_bound l H). lia. Qed.

Lemma sc_dbl_add_bit_spec r bit : sc_reduced r -> 0 <= bit <= 1 ->
  sc_reduced (sc_dbl_add_bit r bit) /\ le_value (sc_dbl_add_bit r bit) = (2 * le_value r + bit) mod L25519.
Proof.
  intros (Hl & Hu & Hv) Hb. pose proof (le_value_nonneg r Hu). unfold sc_dbl_add_bit. pose proof (sc_shl1_spec r bit Hu Hb) as Hs.
  destruct (sc_shl1 r bit) as [h c]. destruct Hs as (He & Hlh & Huh & Hc). unfold zlen in He. rewrite Hl in He.
  pose proof (le_value_nonneg h Huh). unfold L25519 in Hv. assert (c = 0) as -> by (change (256 ^ Z.of_nat 32) with (2 ^ 256) in He; lia).
  rewrite Z.mul_0_r, Z.add_0_r in He. rewrite Z.lor_0_l, sc_ge_spec, order_value by (done || by apply u8_by_eval || lia).
  destruct (Z.leb_spec L25519 (le_value h)) as [Hge|Hlt]; cbn [Z.b2z Z.eqb negb].
  - destruct (sc_subl_loop_spec h ORDER_L 0 Huh ltac:(by apply u8_by_eval) ltac:(rewrite Hlh, Hl; done) ltac:(lia)) as (Es & Ls & Us). fold (sc_subl h) in *.
    unfold zlen in Es. rewrite Hlh, Hl, order_value, Z.sub_0_r in Es. change (256 ^ Z.of_nat 32) with (2 ^ 256) in Es.
    rewrite Z.mod_small in Es by (unfold L25519 in *; lia). split; [split_and!; [lia|done|unfold L25519 in *; lia]|].
    rewrite Es, <- He. apply (Z.mod_unique _ _ 1); [left|]; unfold L25519 in *; lia.
  - split; [split_and!; [lia|done|lia]|]. rewrite He in *. symmetry. apply Z.mod_small. lia.
Qed.

(** Bit [n] of a byte string. *)
Lemma bit_at_spec e n : Forall is_u8 e -> (n < 8 * length e)%nat ->
  Z.land (Z.shiftr (limb e (n / 8)) (Z.land (Z.of_nat n) 7)) 1 = (le_value e / 2 ^ Z.of_nat n) mod 2.
Proof. intros He Hn. pose proof (ladder_bit_spec e n He Hn) as H. unfold ladder_bit in H. rewrite H. apply Z.testbit_spec'. lia. Qed.

Lemma sc_reduce_loop_spec n : forall out in_, Forall is_u8 in_ -> (n <= 8 * length in_)%nat -> sc_reduced out ->
  le_value out = (le_value in_ / 2 ^ Z.of_nat n) mod L25519 ->
  sc_reduced (sc_reduce_loop n out in_) /\ le_value (sc_reduce_loop n out in_) = le_value in_ mod L25519.
Proof.
  induction n as [|n IH]; intros out in_ Hu Hn Hr He; cbn [sc_reduce_loop].
  { split; [done|]. by rewrite He, Z.div_1_r. }
  rewrite bit_at_spec by (done || lia). set (b := (le_value in_ / 2 ^ Z.of_nat n) mod 2).
  assert (Hb : 0 <= b <= 1) by (unfold b; pose proof (Z.mod_pos_bound (le_value in_ / 2 ^ Z.of_nat n) 2); lia).
  destruct (sc_dbl_add_bit_spec out b Hr Hb) as [Hr' Hv']. apply IH; try done; [lia|]. rewrite Hv', He.
  rewrite Nat2Z.inj_succ, Z.pow_succ_r, (Z.mul_comm 2 (2 ^ Z.of_nat n)), <- Z.div_div by lia.
  set (q := le_value in_ / 2 ^ Z.of_nat n) in *. assert (Hq : q = 2 * (q / 2) + b) by (unfold b; apply Z.div_mod; lia).
  transitivity ((2 * (q / 2) + b) mod L25519); [|by rewrite <- Hq]. rewrite <- (Z.add_mod_idemp_l (2 * (q / 2))), <- (Z.mul_mod_idemp_r 2 (q / 2)), Z.add_mod_idemp_l by done. done.
Qed.

(** The digest reduced modulo the group order. *)
Lemma sc_reduce64_spec in_ : length in_ = 64%nat -> Forall is_u8 in_ ->
  sc_reduced (sc_reduce64 in_) /\ le_value (sc_reduce64 in_) = le_value in_ mod L25519.
Proof.
  intros Hl Hu. unfold sc_reduce64. apply sc_reduce_loop_spec; [done|lia| |].
  - split_and!; [done|by apply u8_by_eval|done].
  - pose proof (le_value_bound in_ Hu) as Hb. unfold zlen in Hb. rewrite Hl in Hb. rewrite Z.div_small by exact Hb. done.
Qed.

(** ** The product *)

Lemma le_value_insert (t : list Z) : forall k x, (k < length t)%nat -> le_value (<[k := x]> t) = le_value t + 256 ^ Z.of_nat k * (x - limb t k).
Proof.
  induction t as [|y t IH]; intros [|k] x Hk; cbn [length] in Hk; try lia.
  - cbn [insert list_insert le_value limb nth]. change (256 ^ Z.of_nat 0) with 1. lia.
  - change (<[S k:=x]> (y :: t)) with (y :: <[k:=x]> t). cbn [le_value]. rewrite IH by lia. change (limb (y :: t) (S k)) with (limb t k).
    rewrite Nat2Z.inj_succ, Z.pow_succ_r by lia. ring.
Qed.

Lemma limb_bound (P : Z -> Prop) l j : P 0 -> Forall P l -> P (limb l j).
Proof. intros H0 Hl. unfold limb. destruct (nth_in_or_default j l 0) as [Hi| ->]; [rewrite List.Forall_forall in Hl; by apply Hl|done]. Qed.

(** One row: [n] more entries of it, from column [j]. *)
Lemma mul_row_spec a b i B : forall n j t, Forall is_u8 a -> Forall is_u8 b -> (i + j + n <= length t)%nat -> (j + n <= length b)%nat ->
  Forall (fun x => 0 <= x <= B) t -> 0 <= B -> B + 65025 * Z.of_nat n < 2 ^ 64 ->
  let t' := fold_left (fun t j => <[(i + j)%nat := u64 (limb t (i + j) + limb a i * limb b j)]> t) (seq j n) t in
  length t' = length t /\ Forall (fun x => 0 <= x <= B + 65025 * Z.of_nat n) t' /\
  le_value t' = le_value t + 256 ^ Z.of_nat i * limb a i * (le_value (take (j + n) b) - le_value (take j b)).
Proof.
  intros n. revert B. induction n as [|n IH]; intros B j t Ha Hb Hl Hlb Ht HB Hlt; cbn [seq fold_left].
  { rewrite Nat.add_0_r. split_and!; [done|by rewrite Z.add_0_r|lia]. }
  pose proof (limb_bound is_u8 a i ltac:(done) Ha) as Hai. pose proof (limb_bound is_u8 b j ltac:(done) Hb) as Hbj.
  pose proof (limb_bound (fun x => 0 <= x <= B) t (i + j) ltac:(cbv beta; lia) Ht) as Htj. cbv beta in Htj. unfold is_u8 in Hai, Hbj.
  assert (Hp : 0 <= limb a i * limb b j <= 65025) by nia.
  assert (E : u64 (limb t (i + j) + limb a i * limb b j) = limb t (i + j) + limb a i * limb b j) by (unfold u64; rewrite Z.mod_small; lia).
  rewrite E. set (x := limb t (i + j) + limb a i * limb b j). set (t1 := <[(i + j)%nat := x]> t).
  destruct (IH (B + 65025) (S j) t1 Ha Hb) as (L1 & F1 & V1); try lia.
  - unfold t1. rewrite length_insert. lia.
  - unfold t1. apply Forall_insert; [|unfold x; lia]. eapply Forall_impl; [|exact Ht]. intros y Hy. cbv beta in *. lia.
  - split_and!; [rewrite L1; apply length_insert|eapply Forall_impl; [|exact F1]; intros y Hy; cbv beta in *; lia|].
    rewrite V1. unfold t1. rewrite le_value_insert by lia. replace (S j + n)%nat with (j + S n)%nat by lia. rewrite (le_value_take_S b j) by lia.
    unfold x. rewrite Nat2Z.inj_add, Z.pow_add_r by lia. ring.
Qed.

Lemma sc_mul_row_spec a b i B t : Forall is_u8 a -> Forall is_u8 b -> (i + 32 <= length t)%nat -> length b = 32%nat ->
  Forall (fun x => 0 <= x <= B) t -> 0 <= B -> B + 2080800 < 2 ^ 64 ->
  length (sc_mul_row t a b i) = length t /\ Forall (fun x => 0 <= x <= B + 2080800) (sc_mul_row t a b i) /\
  le_value (sc_mul_row t a b i) = le_value t + 256 ^ Z.of_nat i * limb a i * le_value b.
Proof.
  intros Ha Hb Hl Lb Ht HB Hlt. pose proof (mul_row_spec a b i B 32 0 t Ha Hb ltac:(lia) ltac:(lia) Ht HB ltac:(lia)) as H. cbv zeta in H.
  unfold sc_mul_row. destruct H as (H1 & H2 & H3). split_and!; [exact H1|exact H2|]. rewrite H3, take_0. cbn [le_value Nat.add].
  rewrite (take_ge b) by lia. ring.
Qed.

(** A row operation that adds [256^i a_i] times a value, over all rows. *)
Lemma rows_sum (row : list Z -> nat -> list Z) (a : list Z) (vb : Z) :
  (forall i t B, (i + 32 <= length t)%nat -> Forall (fun x => 0 <= x <= B) t -> 0 <= B -> B + 2080800 < 2 ^ 64 ->
     length (row t i) = length t /\ Forall (fun x => 0 <= x <= B + 2080800) (row t i) /\
     le_value (row t i) = le_value t + 256 ^ Z.of_nat i * limb a i * vb) -> length a = 32%nat ->
  forall n i t B, (i + n <= 32)%nat -> length t = 64%nat -> Forall (fun x => 0 <= x <= B) t -> 0 <= B -> B + 2080800 * Z.of_nat n < 2 ^ 64 ->
  let t' := fold_left row (seq i n) t in
  length t' = 64%nat /\ Forall (fun x => 0 <= x <= B + 2080800 * Z.of_nat n) t' /\
  le_value t' = le_value t + (le_value (take (i + n) a) - le_value (take i a)) * vb.
Proof.
  intros Hrow La. induction n as [|n IH]; intros i t B Hi Ht Hf HB Hlt; cbn [seq fold_left].
  { rewrite Nat.add_0_r, Z.mul_0_r, Z.add_0_r. split; [exact Ht|]. split; [exact Hf|ring]. }
  destruct (Hrow i t B ltac:(lia) Hf HB ltac:(lia)) as (L1 & F1 & V1).
  destruct (IH (S i) (row t i) (B + 2080800) ltac:(lia) (eq_trans L1 Ht) F1 ltac:(lia) ltac:(lia)) as (L2 & F2 & V2).
  split; [exact L2|]. split; [eapply Forall_impl; [|exact F2]; intros y Hy; cbv beta in *; lia|].
  rewrite V2, V1. replace (S i + n)%nat with (i + S n)%nat by lia. rewrite (le_value_take_S a i) by lia. ring.
Qed.

Lemma mul_rows_spec a b : Forall is_u8 a -> Forall is_u8 b -> length a = 32%nat -> length b = 32%nat ->
  let t := fold_left (fun t i => sc_mul_row t a b i) (seq 0 32) (repeat 0 64) in
  length t = 64%nat /\ Forall (fun x => 0 <= x <= 66585600) t /\ le_value t = le_value a * le_value b.
Proof.
  intros Ha Hb La Lb. pose proof (rows_sum (fun t i => sc_mul_row t a b i) a (le_value b)
    (fun i t B Hl Ht HB Hlt => sc_mul_row_spec a b i B t Ha Hb Hl Lb Ht HB Hlt) La 32 0 (repeat 0 64) 0) as H.
  cbv zeta in *. generalize dependent (fold_left (fun t i => sc_mul_row t a b i) (seq 0 32) (repeat 0 64)). intros t H.
  destruct H as (H1 & H2 & H3); [lia|done|apply List.Forall_forall; intros x Hx; apply repeat_spec in Hx; lia|lia|lia|]. split; [exact H1|]. split; [exact H2|]. rewrite H3.
  rewrite take_0, (take_ge a) by lia. change (le_value (repeat 0 64)) with 0. cbn [le_value]. ring.
Qed.

Lemma mul_carry_spec : forall t c B, Forall (fun x => 0 <= x <= B) t -> B < 2 ^ 60 -> 0 <= c <= B ->
  le_value (sc_mul_carry t c) = (le_value t + c) mod 256 ^ zlen t /\ length (sc_mul_carry t c) = length t /\ Forall is_u8 (sc_mul_carry t c).
Proof.
  induction t as [|x t IH]; intros c B Ht HB Hc; cbn [sc_mul_carry le_value].
  { change (256 ^ zlen (@nil Z)) with 1. rewrite Z.mod_1_r. split_and!; [done|done|constructor]. }
  apply Forall_cons_iff in Ht as [Hx Ht]. assert (E : u64 (x + c) = x + c) by (unfold u64; rewrite Z.mod_small; lia). rewrite E, Z.shiftr_div_pow2 by lia.
  change (2 ^ 8) with 256. destruct (IH ((x + c) / 256) B Ht HB) as (V & L & U); [Z.to_euclidean_division_equations; lia|].
  split_and!; [|cbn; lia|constructor; [apply u8_range|done]]. rewrite V. unfold u8.
  rewrite zlen_cons, Z.pow_add_r, Z.pow_1_r, Z.rem_mul_r by (pose proof (zlen_nonneg t); pose proof (Z.pow_pos_nonneg 256 (zlen t)); lia).
  replace (x + 256 * le_value t + c) with (x + c + le_value t * 256) by ring. rewrite Z.mod_add, Z.div_add by lia.
  rewrite (Z.add_comm (le_value t)). done.
Qed.

Lemma sc_mul512_spec a b : Forall is_u8 a -> Forall is_u8 b -> length a = 32%nat -> length b = 32%nat ->
  le_value (sc_mul512 a b) = le_value a * le_value b /\ length (sc_mul512 a b) = 64%nat /\ Forall is_u8 (sc_mul512 a b).
Proof.
  intros Ha Hb La Lb. unfold sc_mul512.
  pose proof (mul_rows_spec a b Ha Hb La Lb) as H. cbv zeta in H.
  generalize dependent (fold_left (fun t i => sc_mul_row t a b i) (seq 0 32) (repeat 0 64)). intros t (L1 & F1 & V1).
  destruct (mul_carry_spec t 0 _ F1) as (V & L & U); [lia|lia|]. rewrite L1 in L. split_and!; [|done|done]. rewrite V, V1.
  pose proof (le_value_bound a Ha) as Ba. pose proof (le_value_bound b Hb) as Bb. unfold zlen in *. rewrite La in Ba. rewrite Lb in Bb. rewrite L1, Z.add_0_r. apply Z.mod_small. change (256 ^ Z.of_nat 64) with (256 ^ Z.of_nat 32 * 256 ^ Z.of_nat 32). nia.
Qed.

Lemma add32_loop_spec c : Forall is_u8 c -> length c = 32%nat -> forall prod i carry, Forall is_u8 prod -> 0 <= carry <= 1 ->
  le_value (sc_add32_loop prod i c carry) = (le_value prod + carry + le_value (take (length prod) (drop i c))) mod 256 ^ zlen prod /\
  length (sc_add32_loop prod i c carry) = length prod /\ Forall is_u8 (sc_add32_loop prod i c carry).
Proof.
  intros Hc Lc. induction prod as [|x prod IH]; intros i carry Hp Hcarry; cbn [sc_add32_loop le_value].
  { change (256 ^ zlen (@nil Z)) with 1. rewrite Z.mod_1_r. split_and!; [done|done|constructor]. }
  apply Forall_cons_iff in Hp as [Hx Hp]. unfold is_u8 in Hx. set (ci := if (i <? 32)%nat then limb c i else 0).
  assert (Hci : 0 <= ci < 256) by (unfold ci; destruct (i <? 32)%nat; [apply (limb_bound is_u8); done|lia]).
  rewrite Z.shiftr_div_pow2 by lia. change (2 ^ 8) with 256. destruct (IH (S i) ((x + carry + ci) / 256) Hp) as (V & L & U); [Z.to_euclidean_division_equations; lia|].
  split_and!; [|cbn; lia|constructor; [apply u8_range|done]].
  assert (Ec : le_value (take (length (x :: prod)) (drop i c)) = ci + 256 * le_value (take (length prod) (drop (S i) c))).
  { unfold ci. destruct (Nat.ltb_spec i 32) as [Hi|Hi]; [|rewrite !drop_ge by lia; by rewrite !take_nil].
    destruct (lookup_lt_is_Some_2 c i ltac:(lia)) as [y Hy]. rewrite (drop_S c y i Hy). cbn [length take le_value]. unfold limb. by rewrite (nth_lookup_Some _ _ _ _ Hy). }
  rewrite Ec, V. unfold u8. rewrite zlen_cons, Z.pow_add_r, Z.pow_1_r, Z.rem_mul_r by (pose proof (zlen_nonneg prod); pose proof (Z.pow_pos_nonneg 256 (zlen prod)); lia).
  set (T := le_value (take (length prod) (drop (S i) c))).
  replace (x + 256 * le_value prod + carry + (ci + 256 * T)) with (x + carry + ci + (le_value prod + T) * 256) by ring.
  rewrite Z.mod_add, Z.div_add by lia. do 3 f_equal. lia.
Qed.

(** C20: the scalar arithmetic of Ed25519 is arithmetic modulo the group order L of
    RFC 8032: the reduction of a 64-byte digest is its residue, the fused
    multiply-add is [(a * b + c) mod L], both as 32 bytes below L, and the range check
    on a signature's S accepts exactly the values below L. *)
Theorem ed25519_scalars_mod_L (digest a b c : list Z)
  (Hd : length digest = 64%nat) (Hdb : Forall is_u8 digest) (Ha : length a = 32%nat) (Hab : Forall is_u8 a)
  (Hb : length b = 32%nat) (Hbb : Forall is_u8 b) (Hc : length c = 32%nat) (Hcb : Forall is_u8 c) :
  sc_reduce64 digest = le_bytes 32 (le_value digest mod L25519) /\
  sc_muladd a b c = le_bytes 32 ((le_value a * le_value b + le_value c) mod L25519) /\
  sc_ge a ORDER_L = (L25519 <=? le_value a).
Proof.
  assert (Hcanon : forall r v, sc_reduced r -> le_value r = v -> r = le_bytes 32 v).
  { intros r v (Hl & Hu & _) <-. rewrite <- Hl. symmetry. by apply le_bytes_value. }
  split_and!.
  - destruct (sc_reduce64_spec digest Hd Hdb) as [Hr Hv]. by apply Hcanon.
  - destruct (sc_mul512_spec a b Hab Hbb Ha Hb) as (Vm & Lm & Um). unfold sc_muladd, sc_add32.
    destruct (add32_loop_spec c Hcb Hc (sc_mul512 a b) 0 0 Um ltac:(lia)) as (Va & La & Ua). rewrite Lm in La.
    destruct (sc_reduce64_spec _ La Ua) as [Hr Hv]. apply Hcanon; [done|]. rewrite Hv, Va, Vm, drop_0, Lm, take_ge, Z.add_0_r by lia. f_equal.
    pose proof (le_value_bound a Hab) as Ba. pose proof (le_value_bound b Hbb) as Bb. pose proof (le_value_bound c Hcb) as Bc.
    unfold zlen in *. rewrite Ha in Ba. rewrite Hb in Bb. rewrite Hc in Bc. rewrite Lm. apply Z.mod_small.
    change (256 ^ Z.of_nat 64) with (256 ^ Z.of_nat 32 * 256 ^ Z.of_nat 32). nia.
  - rewrite sc_ge_spec by (done || by apply u8_by_eval). by rewrite order_value.
Qed.

(** Witness of C20: small operands. *)
Lemma ed25519_scalars_mod_L_witness :
  sc_muladd (3 :: repeat 0 31) (5 :: repeat 0 31) (7 :: repeat 0 31) = le_bytes 32 22.
Proof.
  destruct (ed25519_scalars_mod_L (repeat 0 64) (3 :: repeat 0 31) (5 :: repeat 0 31) (7 :: repeat 0 31)) as (_ & H & _);
    [reflexivity|by apply u8_by_eval|reflexivity|by apply u8_by_eval|reflexivity|by apply u8_by_eval|reflexivity|by apply u8_by_eval|].
  exact H.
Defined.

(** * The group: congruences modulo p *)

Definition cong (a b : Z) : Prop := exists k, a = b + k * P25519.
Infix "≡p" := cong (at level 70) : Z_scope.

Lemma cong_iff a b : a ≡p b <-> a mod P25519 = b mod P25519.
Proof.
  split; [intros [k ->]; by apply Z.mod_add|]. intros H. exists (a / P25519 - b / P25519).
  pose proof (Z.div_mod a P25519 ltac:(done)). pose proof (Z.div_mod b P25519 ltac:(done)). lia.
Qed.

#[export] Instance cong_equiv : Equivalence cong.
Proof.
  split; [intros a; exists 0; lia|intros a b [k Hk]; exists (- k); lia|intros a b c [k Hk] [m Hm]; exists (k + m); lia].
Qed.
#[export] Instance cong_add : Proper (cong ==> cong ==> cong) Z.add.
Proof. intros a b [k ->] c d [m ->]. exists (k + m). ring. Qed.
#[export] Instance cong_mul : Proper (cong ==> cong ==> cong) Z.mul.
Proof. intros a b [k ->] c d [m ->]. exists (k * d + b * m + k * m * P25519). ring. Qed.
#[export] Instance cong_sub : Proper (cong ==> cong ==> cong) Z.sub.
Proof. intros a b [k ->] c d [m ->]. exists (k - m). ring. Qed.

Lemma cong_mod a : a mod P25519 ≡p a.
Proof. apply cong_iff. by apply Z.mod_mod. Qed.

Lemma cong_val f : fe_val f ≡p eval51 f.
Proof. apply cong_mod. Qed.

(** Remove inner reductions where both sides have the same shape. *)
Ltac cong_strip :=
  repeat first [reflexivity | lazymatch goal with |- ?x mod P25519 ≡p _ => transitivity x; [apply cong_mod|] end
               | lazymatch goal with |- ?a * ?b ≡p ?c * ?d => apply (cong_mul a c) | |- ?a + ?b ≡p ?c + ?d => apply (cong_add a c)
                 | |- ?a - ?b ≡p ?c - ?d => apply (cong_sub a c) end].

(** ** RFC 8032 section 5.1 over integers modulo p *)

Module rfc8032.

Definition d : Z := le_value fe_d_bytes.
(** Extended coordinates. *)
Record point := mk { px : Z; py : Z; pz : Z; pt : Z }.

(** The curve -x^2 + y^2 = 1 + d x^2 y^2 with x = X/Z, y = Y/Z, x y = T/Z, as equations
    between the extended coordinates; that Z is not 0 is not part of it. *)
Definition on_curve (p : point) : Prop :=
  py p * py p - px p * px p ≡p pz p * pz p + d * (pt p * pt p) /\ px p * py p ≡p pz p * pt p.

(** Section 5.1.4. *)
Definition add (p1 p2 : point) : point :=
  let A := ((py p1 - px p1) * (py p2 - px p2)) mod P25519 in
  let B := ((py p1 + px p1) * (py p2 + px p2)) mod P25519 in
  let C := (pt p1 * pt p2 * (2 * d)) mod P25519 in
  let D := (2 * (pz p1 * pz p2)) mod P25519 in
  let E := (B - A) mod P25519 in
  let F := (D - C) mod P25519 in
  let G := (D + C) mod P25519 in
  let H := (B + A) mod P25519 in
  mk ((E * F) mod P25519) ((G * H) mod P25519) ((F * G) mod P25519) ((E * H) mod P25519).

Definition neutral : point := mk 0 1 1 0.

(** Double and add, from the top bit. *)
Fixpoint mult (n : nat) (k : Z) (q p : point) : point :=
  match n with
  | O => q
  | S i => let q := add q q in mult i k (if Z.testbit k (Z.of_nat i) then add q p else q) p
  end.

(** The constant is -121665/121666. *)
Lemma d_def : (d * 121666) mod P25519 = (-121665) mod P25519.
Proof. reflexivity. Qed.

(** The sum stays on the curve: the identity behind the unified formulas. *)
Lemma curve_identity X1 Y1 Z1 T1 X2 Y2 Z2 T2 :
  Y1 * Y1 - X1 * X1 ≡p Z1 * Z1 + d * (T1 * T1) -> X1 * Y1 ≡p Z1 * T1 ->
  Y2 * Y2 - X2 * X2 ≡p Z2 * Z2 + d * (T2 * T2) -> X2 * Y2 ≡p Z2 * T2 ->
  let e := X1 * Y2 + Y1 * X2 in let h := Y1 * Y2 + X1 * X2 in
  let f := Z1 * Z2 - d * T1 * T2 in let g := Z1 * Z2 + d * T1 * T2 in
  (g * h) * (g * h) - (e * f) * (e * f) ≡p (f * g) * (f * g) + d * ((e * h) * (e * h)).
Proof.
  intros C1 M1 C2 M2 e h f g. set (k := T1 * Z2 + Z1 * T2).
  assert (S1 : (Y1 * Y1 - X1 * X1) * (Y2 * Y2 - X2 * X2) ≡p (Z1 * Z1 + d * (T1 * T1)) * (Z2 * Z2 + d * (T2 * T2))) by (rewrite C1, C2; reflexivity).
  assert (S2 : (X1 * Y1) * (X2 * Y2) ≡p (Z1 * T1) * (Z2 * T2)) by (rewrite M1, M2; reflexivity).
  assert (S3 : e * (Y1 * Y2 - X1 * X2) ≡p g * k).
  { replace (e * (Y1 * Y2 - X1 * X2)) with ((X1 * Y1) * (Y2 * Y2 - X2 * X2) + (X2 * Y2) * (Y1 * Y1 - X1 * X1)) by (unfold e; ring).
    rewrite C1, C2, M1, M2. replace (g * k) with (Z1 * T1 * (Z2 * Z2 + d * (T2 * T2)) + Z2 * T2 * (Z1 * Z1 + d * (T1 * T1))) by (unfold g, k; ring). reflexivity. }
  replace ((g * h) * (g * h) - (e * f) * (e * f)) with
    (e * e * (4 * d * ((Z1 * T1) * (Z2 * T2))) + g * g * ((Y1 * Y1 - X1 * X1) * (Y2 * Y2 - X2 * X2))) by (unfold e, f, g, h; ring).
  rewrite S1, <- S2.
  replace (e * e * (4 * d * ((X1 * Y1) * (X2 * Y2))) + g * g * ((Z1 * Z1 + d * (T1 * T1)) * (Z2 * Z2 + d * (T2 * T2)))) with
    ((f * g) * (f * g) + d * ((e * h) * (e * h)) + d * ((g * k) * (g * k) - (e * (Y1 * Y2 - X1 * X2)) * (e * (Y1 * Y2 - X1 * X2)))) by (unfold e, f, g, h, k; ring).
  rewrite S3. replace (_ + d * (g * k * (g * k) - g * k * (g * k))) with ((f * g) * (f * g) + d * ((e * h) * (e * h))) by ring. reflexivity.
Qed.

Lemma add_on_curve p1 p2 : on_curve p1 -> on_curve p2 -> on_curve (add p1 p2).
Proof.
  destruct p1 as [X1 Y1 Z1 T1], p2 as [X2 Y2 Z2 T2]. intros [C1 M1] [C2 M2]. cbn [px py pz pt] in *.
  pose proof (curve_identity X1 Y1 Z1 T1 X2 Y2 Z2 T2 C1 M1 C2 M2) as HI. cbv zeta in HI. unfold on_curve, add. cbn [px py pz pt]. cbv zeta.
  set (A := (Y1 - X1) * (Y2 - X2)). set (B := (Y1 + X1) * (Y2 + X2)). set (C := T1 * T2 * (2 * d)). set (D := 2 * (Z1 * Z2)).
  assert (EX : ((B mod P25519 - A mod P25519) mod P25519 * ((D mod P25519 - C mod P25519) mod P25519)) mod P25519 ≡p (B - A) * (D - C)) by cong_strip.
  assert (EY : ((D mod P25519 + C mod P25519) mod P25519 * ((B mod P25519 + A mod P25519) mod P25519)) mod P25519 ≡p (D + C) * (B + A)) by cong_strip.
  assert (EZ : ((D mod P25519 - C mod P25519) mod P25519 * ((D mod P25519 + C mod P25519) mod P25519)) mod P25519 ≡p (D - C) * (D + C)) by cong_strip.
  assert (ET : ((B mod P25519 - A mod P25519) mod P25519 * ((B mod P25519 + A mod P25519) mod P25519)) mod P25519 ≡p (B - A) * (B + A)) by cong_strip.
  rewrite EX, EY, EZ, ET. clear EX EY EZ ET. unfold A, B, C, D. split.
  - set (e := X1 * Y2 + Y1 * X2) in *. set (h := Y1 * Y2 + X1 * X2) in *. set (f := Z1 * Z2 - d * T1 * T2) in *. set (g := Z1 * Z2 + d * T1 * T2) in *.
    replace ((Y1 + X1) * (Y2 + X2) - (Y1 - X1) * (Y2 - X2)) with (2 * e) by (unfold e; ring).
    replace ((Y1 + X1) * (Y2 + X2) + (Y1 - X1) * (Y2 - X2)) with (2 * h) by (unfold h; ring).
    replace (2 * (Z1 * Z2) - T1 * T2 * (2 * d)) with (2 * f) by (unfold f; ring).
    replace (2 * (Z1 * Z2) + T1 * T2 * (2 * d)) with (2 * g) by (unfold g; ring).
    replace (2 * g * (2 * h) * (2 * g * (2 * h)) - 2 * e * (2 * f) * (2 * e * (2 * f))) with (16 * ((g * h) * (g * h) - (e * f) * (e * f))) by ring.
    rewrite HI. replace (2 * f * (2 * g) * (2 * f * (2 * g)) + d * (2 * e * (2 * h) * (2 * e * (2 * h)))) with (16 * (f * g * (f * g) + d * (e * h * (e * h)))) by ring. reflexivity.
  - match goal with |- ?a ≡p ?b => replace a with b by ring end. reflexivity.
Qed.

End rfc8032.

(** ** The limb code computes the RFC's group operations *)

Definition ge_wf (p : quic_ed_ge) : Prop :=
  fe_subtrahend (ge_X p) /\ fe_subtrahend (ge_Y p) /\ fe_subtrahend (ge_Z p) /\ fe_subtrahend (ge_T p).
Definition ge_val (p : quic_ed_ge) : rfc8032.point :=
  rfc8032.mk (fe_val (ge_X p)) (fe_val (ge_Y p)) (fe_val (ge_Z p)) (fe_val (ge_T p)).
(** A well-typed point: bounded limbs, on the curve. *)
Definition ge_ok (p : quic_ed_ge) : Prop := ge_wf p /\ rfc8032.on_curve (ge_val p).

Lemma fe_val_add b c f g : fe_le b f -> fe_le c g -> b + c < 2 ^ 54 ->
  fe_le (b + c) (fe_add f g) /\ fe_val (fe_add f g) = (fe_val f + fe_val g) mod P25519.
Proof.
  intros Hf Hg Hb. destruct (fe_add_spec b c f g Hf Hg ltac:(lia)) as [Hl He]. split; [exact Hl|].
  unfold fe_val, fe_add. by rewrite He, <- Zplus_mod.
Qed.

Lemma fe_val_sub b f g : fe_le b f -> fe_subtrahend g -> b + 2 ^ 52 < 2 ^ 54 ->
  fe_le (b + 2 ^ 52) (fe_sub f g) /\ fe_val (fe_sub f g) = (fe_val f - fe_val g) mod P25519.
Proof.
  intros Hf Hg Hb. destruct (fe_sub_spec b f g Hf Hg ltac:(lia)) as [Hl He]. split; [exact Hl|].
  unfold fe_val, fe_sub. rewrite He, <- Zminus_mod. by apply Z.mod_add.
Qed.

Lemma fe_val_mul b c f g : fe_le b f -> fe_le c g -> b < 2 ^ 54 -> c < 2 ^ 54 ->
  fe_red (fe_mul f g) /\ fe_val (fe_mul f g) = (fe_val f * fe_val g) mod P25519.
Proof. intros Hf Hg Hb Hc. apply fe_mul_spec; eapply fe_le_weaken; (eassumption || lia). Qed.

Lemma fe_d_val : fe_le (2 ^ 51 - 1) fe_d /\ fe_val fe_d = rfc8032.d.
Proof. split; [apply fe_frombytes_spec; [done|by apply u8_by_eval]|reflexivity]. Qed.

(** Name an intermediate element with its bound and its value. *)
Ltac fe_let x B V e H := destruct H as [B V]; [lia..|]; generalize dependent e; intros x B V.

Lemma ge_add_spec p1 p2 : ge_wf p1 -> ge_wf p2 ->
  ge_wf (quic_ed_ge_add p1 p2) /\ ge_val (quic_ed_ge_add p1 p2) = rfc8032.add (ge_val p1) (ge_val p2).
Proof.
  intros (X1 & Y1 & Z1 & T1) (X2 & Y2 & Z2 & T2). destruct fe_d_val as [Hd Vd].
  pose proof (fe_subtrahend_le _ Y1) as LY1. pose proof (fe_subtrahend_le _ X1) as LX1. pose proof (fe_subtrahend_le _ Z1) as LZ1. pose proof (fe_subtrahend_le _ T1) as LT1.
  pose proof (fe_subtrahend_le _ Y2) as LY2. pose proof (fe_subtrahend_le _ X2) as LX2. pose proof (fe_subtrahend_le _ Z2) as LZ2. pose proof (fe_subtrahend_le _ T2) as LT2.
  unfold quic_ed_ge_add. cbv zeta.
  fe_let d2 Bd2 Vd2 (fe_add fe_d fe_d) (fe_val_add _ _ _ _ Hd Hd).
  fe_let a1 Ba1 Va1 (fe_sub (ge_Y p1) (ge_X p1)) (fe_val_sub _ _ _ LY1 X1).
  fe_let a2 Ba2 Va2 (fe_sub (ge_Y p2) (ge_X p2)) (fe_val_sub _ _ _ LY2 X2).
  fe_let b1 Bb1 Vb1 (fe_add (ge_Y p1) (ge_X p1)) (fe_val_add _ _ _ _ LY1 LX1).
  fe_let b2 Bb2 Vb2 (fe_add (ge_Y p2) (ge_X p2)) (fe_val_add _ _ _ _ LY2 LX2).
  fe_let a Ba Va (fe_mul a1 a2) (fe_val_mul _ _ _ _ Ba1 Ba2).
  fe_let b Bb Vb (fe_mul b1 b2) (fe_val_mul _ _ _ _ Bb1 Bb2).
  fe_let t12 Btt Vtt (fe_mul (ge_T p1) (ge_T p2)) (fe_val_mul _ _ _ _ LT1 LT2).
  fe_let c Bc Vc (fe_mul t12 d2) (fe_val_mul _ _ _ _ Btt Bd2).
  fe_let z12 Bzz Vzz (fe_mul (ge_Z p1) (ge_Z p2)) (fe_val_mul _ _ _ _ LZ1 LZ2).
  fe_let dd Bdd Vdd (fe_add z12 z12) (fe_val_add _ _ _ _ Bzz Bzz).
  fe_let e Be Ve (fe_sub b a) (fe_val_sub _ _ _ Bb (fe_red_subtrahend _ Ba)).
  fe_let f Bf Vf (fe_sub dd c) (fe_val_sub _ _ _ Bdd (fe_red_subtrahend _ Bc)).
  fe_let g Bg Vg (fe_add dd c) (fe_val_add _ _ _ _ Bdd Bc).
  fe_let h Bh Vh (fe_add b a) (fe_val_add _ _ _ _ Bb Ba).
  destruct (fe_val_mul _ _ _ _ Be Bf ltac:(lia) ltac:(lia)) as [BX VX]. destruct (fe_val_mul _ _ _ _ Bg Bh ltac:(lia) ltac:(lia)) as [BY VY].
  destruct (fe_val_mul _ _ _ _ Bf Bg ltac:(lia) ltac:(lia)) as [BZ VZ]. destruct (fe_val_mul _ _ _ _ Be Bh ltac:(lia) ltac:(lia)) as [BT VT].
  split; [split_and!; by apply fe_red_subtrahend|]. unfold ge_val, rfc8032.add. cbn [ge_X ge_Y ge_Z ge_T rfc8032.px rfc8032.py rfc8032.pz rfc8032.pt]. cbv zeta.
  rewrite Va1, Va2, <- Z.mul_mod in Va by done. rewrite Vb1, Vb2, <- Z.mul_mod in Vb by done.
  rewrite Vtt, Vd2, Vd, <- Z.mul_mod, Z.add_diag in Vc by done. rewrite Vzz, <- Zplus_mod, Z.add_diag in Vdd.
  rewrite VX, VY, VZ, VT, Ve, Vf, Vg, Vh, Va, Vb, Vc, Vdd. reflexivity.
Qed.

Lemma fe_cmov_spec b c h g cond : fe_le b h -> fe_le c g -> b < 2 ^ 64 -> c < 2 ^ 64 -> fe_cmov h g cond = if cond then g else h.
Proof.
  intros Hh Hg Hb Hc. destruct (fe_le_inv _ _ Hh) as (h0 & h1 & h2 & h3 & h4 & -> & ? & ? & ? & ? & ?).
  destruct (fe_le_inv _ _ Hg) as (g0 & g1 & g2 & g3 & g4 & -> & ? & ? & ? & ? & ?). unfold fe_cmov. cbn [List.map seq limb nth].
  destruct cond; cbn [Z.b2z].
  - change (u64 (0 - 1)) with (2 ^ 64 - 1). rewrite !land_ones_lxor by lia. by rewrite <- !Z.lxor_assoc, !Z.lxor_nilpotent, !Z.lxor_0_l.
  - change (u64 (0 - 0)) with 0. by rewrite !Z.land_0_l, !Z.lxor_0_r.
Qed.

Lemma ge_bit_spec s i : Forall is_u8 s -> (i < 8 * length s)%nat -> negb (ge_bit s i =? 0) = Z.testbit (le_value s) (Z.of_nat i).
Proof. intros Hs Hi. change (ge_bit s i) with (ladder_bit s i). rewrite ladder_bit_spec by done. by destruct (Z.testbit _ _). Qed.

Lemma scalarmult_loop_spec s p : Forall is_u8 s -> ge_wf p -> forall n q, (n <= 8 * length s)%nat -> ge_wf q ->
  ge_wf (ge_scalarmult_loop n q s p) /\ ge_val (ge_scalarmult_loop n q s p) = rfc8032.mult n (le_value s) (ge_val q) (ge_val p).
Proof.
  intros Hs Hp. induction n as [|n IH]; intros q Hn Hq; cbn [ge_scalarmult_loop rfc8032.mult]; [done|].
  destruct (ge_add_spec q q Hq Hq) as [Wd Vd]. rewrite <- Vd. generalize dependent (quic_ed_ge_add q q). intros q2 Wd _.
  destruct (ge_add_spec q2 p Wd Hp) as [Wt Vt]. rewrite <- Vt. generalize dependent (quic_ed_ge_add q2 p). intros t Wt _.
  rewrite ge_bit_spec by (done || lia). cbv zeta. pose proof Wd as (DX & DY & DZ & DT). pose proof Wt as (TX & TY & TZ & TT).
  rewrite !(fe_cmov_spec (2 ^ 52 - 2) (2 ^ 52 - 2)) by (by apply fe_subtrahend_le || lia).
  destruct (Z.testbit (le_value s) (Z.of_nat n)).
  - replace (mk_ge (ge_X t) (ge_Y t) (ge_Z t) (ge_T t)) with t by by destruct t. apply IH; [lia|done].
  - replace (mk_ge (ge_X q2) (ge_Y q2) (ge_Z q2) (ge_T q2)) with q2 by by destruct q2. apply IH; [lia|done].
Qed.

Lemma mult_on_curve n k p : rfc8032.on_curve p -> forall q, rfc8032.on_curve q -> rfc8032.on_curve (rfc8032.mult n k q p).
Proof.
  intros Hp. induction n as [|n IH]; intros q Hq; cbn [rfc8032.mult]; [done|]. apply IH.
  pose proof (rfc8032.add_on_curve q q Hq Hq). destruct (Z.testbit k (Z.of_nat n)); [by apply rfc8032.add_on_curve|done].
Qed.

Lemma ge_zero_ok : ge_ok ge_zero /\ ge_val ge_zero = rfc8032.neutral.
Proof.
  split; [split|reflexivity].
  - split_and!; apply fe_red_subtrahend, fe_le_intro; lia.
  - split; apply cong_iff; reflexivity.
Qed.

Lemma ge_base_ok : ge_ok quic_ed_ge_base.
Proof.
  destruct (fe_frombytes_spec ge_base_x) as [BX _]; [done|by apply u8_by_eval|]. destruct (fe_frombytes_spec ge_base_y) as [BY _]; [done|by apply u8_by_eval|].
  destruct (fe_val_mul _ _ _ _ BX BY ltac:(lia) ltac:(lia)) as [BT VT]. split.
  - split_and!; apply fe_red_subtrahend; [eapply fe_le_weaken; [exact BX|lia]|eapply fe_le_weaken; [exact BY|lia]|apply fe_le_intro; lia|exact BT].
  - split; apply cong_iff; vm_compute; reflexivity.
Qed.

(** C11: the points of Ed25519 are well typed: every coordinate keeps limbs that the
    next subtraction can take without a borrow, and the coordinates satisfy the
    curve equation -x^2 + y^2 = 1 + d x^2 y^2 (with x y = T/Z).  The base point and the neutral
    element are well typed, addition and scalar multiplication preserve it, and the
    coordinates they compute are those of RFC 8032's formulas modulo p. *)
Theorem ed25519_points_typed (p q : quic_ed_ge) (scalar : list Z)
  (Hp : ge_ok p) (Hq : ge_ok q) (Hs : length scalar = 32%nat) (Hsb : Forall is_u8 scalar) :
  ge_ok quic_ed_ge_base /\ ge_ok ge_zero /\
  ge_ok (quic_ed_ge_add p q) /\ ge_val (quic_ed_ge_add p q) = rfc8032.add (ge_val p) (ge_val q) /\
  ge_ok (quic_ed_ge_scalarmult scalar p) /\
  ge_val (quic_ed_ge_scalarmult scalar p) = rfc8032.mult 256 (le_value scalar) rfc8032.neutral (ge_val p).
Proof.
  destruct Hp as [Wp Cp], Hq as [Wq Cq]. destruct (ge_add_spec p q Wp Wq) as [Wa Va]. destruct ge_zero_ok as [[Wz Cz] Vz].
  destruct (scalarmult_loop_spec scalar p Hsb Wp 256 ge_zero ltac:(lia) Wz) as [Wm Vm]. rewrite Vz in Vm. cbv beta delta [quic_ed_ge_scalarmult].
  split; [exact ge_base_ok|]. split; [by split|]. split; [split; [exact Wa|rewrite Va; by apply rfc8032.add_on_curve]|]. split; [exact Va|].
  split; [|exact Vm]. split; [exact Wm|]. rewrite Vm. apply mult_on_curve; [exact Cp|]. by rewrite <- Vz.
Qed.

(** Witness of C11: the base point doubled, and three times the base point. *)
Lemma ed25519_points_typed_witness :
  ge_ok (quic_ed_ge_add quic_ed_ge_base quic_ed_ge_base) /\
  ge_val (quic_ed_ge_scalarmult (3 :: repeat 0 31) quic_ed_ge_base) =
    rfc8032.mult 256 3 rfc8032.neutral (ge_val quic_ed_ge_base).
Proof.
  destruct (ed25519_points_typed quic_ed_ge_base quic_ed_ge_base (3 :: repeat 0 31)) as (_ & _ & H & _ & _ & Hm);
    [exact ge_base_ok|exact ge_base_ok|reflexivity|by apply u8_by_eval|].
  exact (conj H Hm).
Defined.

(** * The encoding of field elements *)

(** The bytes [fe_tobytes] writes, from the value after the two carry passes: on
    the residues p .. 2^255 - 1 the last pass folds the carry back. *)
Definition encoded (v : Z) : Z := if v <? P25519 then v else v - P25519 + 19.

Lemma ed_tobytes_spec f : fe_loose f ->
  let v := eval51 (carry_pass (carry_pass f)) in
  fe_tobytes f = le_bytes 32 (encoded v) /\ 0 <= v < 2 ^ 255 /\ v mod P25519 = fe_val f.
Proof.
  intros Hf v. unfold fe_tobytes, fe_copy, x25519_fe_copy, carry_pass, store_reduced in *. destruct (carry_twice f Hf) as [Hl Hv].
  subst v. set (r := x25519_carry_pass (x25519_carry_pass f)) in *. clearbody r. cbv zeta.
  destruct (fe_le_inv _ _ Hl) as (a0 & a1 & a2 & a3 & a4 & -> & ? & ? & ? & ? & ?). pose proof (eval51_le _ _ _ _ _ _ Hl) as He.
  split; [|split; [lia|exact Hv]]. rewrite fe_quotient_spec by done. cbn [limb nth].
  set (v := eval51 [a0; a1; a2; a3; a4]) in *. set (q := (v + 19) / 2 ^ 255).
  assert (Hq : 0 <= q <= 1 /\ (q = 0 <-> v < P25519)) by (unfold q, P25519; Z.to_euclidean_division_equations; lia).
  assert (E : u64 (a0 + u64 (19 * q)) = a0 + 19 * q) by (unfold u64; rewrite (Z.mod_small (19 * q)), Z.mod_small by lia; done). rewrite E.
  destruct (carry_pass_spec (2 ^ 51 + 19) [a0 + 19 * q; a1; a2; a3; a4]) as (c & Hc & Hcv & Hev & Hlh & _); [apply fe_le_intro; lia|lia|].
  assert (Hx : eval51 [a0 + 19 * q; a1; a2; a3; a4] = v + 19 * q) by (unfold v; cbn [eval51]; ring). rewrite Hx in Hcv, Hev.
  assert (Hen : v + 19 * q - c * P25519 = encoded v) by (unfold encoded, P25519 in *; zcase; lia).
  rewrite Hen in Hev. rewrite <- Hev. apply store_reduced_spec.
  destruct (fe_le_inv _ _ Hlh) as (h0 & h1 & h2 & h3 & h4 & Eh & ? & ? & ? & ? & ?). rewrite Eh in *.
  assert (c = 0 \/ c = 1) as [-> | ->] by lia; [apply fe_le_intro; lia|]. unfold P25519 in *. cbn [eval51] in Hev. apply fe_le_intro; lia.
Qed.

(** The canonical bytes, except possibly for the residues 0 .. 18. *)
Lemma ed_tobytes_cases f : fe_loose f ->
  fe_tobytes f = le_bytes 32 (fe_val f) \/ (fe_val f < 19 /\ fe_tobytes f = le_bytes 32 (fe_val f + 19)).
Proof.
  intros Hf. destruct (ed_tobytes_spec f Hf) as (Hb & Hr & Hv). cbv zeta in *. set (v := eval51 _) in *. rewrite Hb. unfold encoded.
  destruct (Z.ltb_spec v P25519); [left; by rewrite <- Hv, Z.mod_small by lia|]. right.
  assert (Hm : v mod P25519 = v - P25519) by (symmetry; apply (Z.mod_unique _ _ 1); [left|]; unfold P25519 in *; lia).
  rewrite <- Hv, Hm. split; [unfold P25519 in *; lia|f_equal; lia].
Qed.

(** The encoding of Ed25519's field elements is not canonical: a difference
    [f - f] is zero in the field, and X25519's encoding writes zero bytes for it,
    but [fe_tobytes] writes 19, so [fe_isnonzero] takes zero for non-zero and
    [fe_isnegative] for negative. *)
Theorem ed_tobytes_zero_is_19 (f : list Z) (Hf : fe_red f) :
  fe_val (fe_sub f f) = 0 /\ x25519_fe_tobytes (fe_sub f f) = le_bytes 32 0 /\
  fe_tobytes (fe_sub f f) = le_bytes 32 19 /\ fe_isnonzero (fe_sub f f) = true /\ fe_isnegative (fe_sub f f) = 1.
Proof.
  assert (E : fe_sub f f = twop).
  { destruct (fe_le_inv _ _ Hf) as (a0 & a1 & a2 & a3 & a4 & -> & ? & ? & ? & ? & ?). unfold fe_sub, x25519_fe_sub. cbn [List.map seq limb nth twop].
    unfold u64. rewrite !Z.mod_small by lia. unfold twop. repeat (f_equal; try lia). }
  rewrite E. split_and!; vm_compute; reflexivity.
Qed.

(** Witness: one minus one. *)
Lemma ed_tobytes_zero_is_19_witness : fe_isnonzero (fe_sub fe_1 fe_1) = true.
Proof. destruct (ed_tobytes_zero_is_19 fe_1) as (_ & _ & _ & H & _); [apply fe_le_intro; lia|exact H]. Defined.

(** ** Decoding y = 1 *)

(** The limbs of p itself. *)
Definition p_limbs : list Z := [2251799813685229; 2251799813685247; 2251799813685247; 2251799813685247; 2251799813685247].

(** A product that is zero in the field, of factors that are not zero as integers,
    comes out as p, never as 0. *)
Lemma mul_zero_rep f g : fe_loose f -> fe_loose g -> eval51 f <> 0 -> eval51 g <> 0 -> (fe_val f * fe_val g) mod P25519 = 0 ->
  fe_mul f g = p_limbs.
Proof.
  intros Hf Hg Nf Ng H0. destruct (fe_mul_spec f g Hf Hg) as [Hr Hv]. rewrite H0 in Hv.
  destruct (fe_le_inv _ _ Hf) as (f0 & f1 & f2 & f3 & f4 & -> & F0 & F1 & F2 & F3 & F4).
  destruct (fe_le_inv _ _ Hg) as (g0 & g1 & g2 & g3 & g4 & -> & G0 & G1 & G2 & G3 & G4).
  assert (Hpos : 0 < eval51 (fe_mul [f0; f1; f2; f3; f4] [g0; g1; g2; g3; g4])).
  { destruct (mul_cols_spec f0 f1 f2 f3 f4 g0 g1 g2 g3 g4 Hf Hg) as (He & Hb & H4). unfold fe_mul, x25519_fe_mul. rewrite He. cbn [nth] in H4.
    rewrite !Forall_cons_iff in Hb. destruct Hb as (B0 & B1 & B2 & B3 & _).
    assert (W : forall x, 0 <= x < 77 * 2 ^ 108 -> 0 <= x < 2 ^ 115 - 2 ^ 64) by (intros; lia).
    destruct (fe_reduce_spec _ _ _ _ _ (W _ B0) (W _ B1) (W _ B2) (W _ B3) H4) as (_ & c & Hc & Hle & ->).
    assert (Hsum : 0 < (f0 + f1 + f2 + f3 + f4) * (g0 + g1 + g2 + g3 + g4)).
    { cbn [eval51] in Nf, Ng. apply Z.mul_pos_pos; lia. }
    revert Hle B0 B1 B2 B3 H4. cbn [eval51]. 
    assert (HW : 0 <= f1 * g4 + f2 * g3 + f3 * g2 + f4 * g1 + f2 * g4 + f3 * g3 + f4 * g2 + f3 * g4 + f4 * g3 + f4 * g4)
      by (repeat apply Z.add_nonneg_nonneg; apply Z.mul_nonneg_nonneg; lia). clear - Hsum Hc HW.
    set (c0 := f0 * g0 + _ + _ + _ + _). set (c1 := f0 * g1 + _ + _ + _ + _). set (c2 := f0 * g2 + _ + _ + _ + _).
    set (c3 := f0 * g3 + _ + _ + _ + _). set (c4 := f0 * g4 + _ + _ + _ + _). intros Hle B0 B1 B2 B3 H4.
    assert (Hcs : (f0 + f1 + f2 + f3 + f4) * (g0 + g1 + g2 + g3 + g4) =
      c0 + c1 + c2 + c3 + c4 - 18 * (f1 * g4 + f2 * g3 + f3 * g2 + f4 * g1 + f2 * g4 + f3 * g3 + f4 * g2 + f3 * g4 + f4 * g3 + f4 * g4)) by (unfold c0, c1, c2, c3, c4; ring).
    assert (Hnn : 0 < c0 + c1 + c2 + c3 + c4) by (clearbody c0 c1 c2 c3 c4; lia).
    unfold P25519. clear - Hnn Hle Hc B0 B1 B2 B3 H4. clearbody c0 c1 c2 c3 c4. lia. }
  unfold fe_mul in *. generalize dependent (x25519_fe_mul [f0; f1; f2; f3; f4] [g0; g1; g2; g3; g4]). intros r Hr Hv Hpos.
  destruct (fe_le_inv _ _ Hr) as (r0 & r1 & r2 & r3 & r4 & -> & R0 & R1 & R2 & R3 & R4).
  apply Z.mod_divide in Hv as [k Hk]; [|done]. assert (k = 1) as -> by (cbn [eval51] in *; unfold P25519 in *; lia).
  clear - Hk R0 R1 R2 R3 R4. unfold p_limbs. cbn [eval51] in Hk. unfold P25519 in Hk. repeat (f_equal; try lia).
Qed.

Lemma p_mul : fe_mul p_limbs p_limbs = p_limbs.
Proof. vm_compute. reflexivity. Qed.

Lemma p_sqn n : fe_sqn p_limbs n = p_limbs.
Proof. unfold fe_sqn. induction n as [|n IH]; [done|]. rewrite sqn_S, IH. exact p_mul. Qed.

(** One statement of a chain on the limbs of p. *)
Lemma p_let (body : list Z -> list Z) x : x = p_limbs -> body p_limbs = p_limbs -> (let t := x in body t) = p_limbs.
Proof. intros -> H. exact H. Qed.

Lemma p_pow58 : fe_pow_p58 p_limbs = p_limbs.
Proof.
  assert (Hsq : fe_sq p_limbs = p_limbs) by exact p_mul. cbv beta delta [fe_pow_p58].
  repeat match goal with |- (let t := ?x in @?b t) = _ => refine (p_let b x _ _); [lazymatch x with fe_sq _ => exact Hsq | fe_mul _ _ => exact p_mul | fe_sqn _ ?n => exact (p_sqn n) end|cbv beta] end.
  exact p_mul.
Qed.

(** v for y = 1. *)
Definition v_one : list Z := snd (decode_uv fe_1).

Lemma recover_one : recover_x twop v_one = Some p_limbs.
Proof.
  unfold recover_x. cbv zeta.
  assert (E7 : fe_mul (fe_mul (fe_sq (fe_mul (fe_sq v_one) v_one)) v_one) twop = p_limbs) by (vm_compute; reflexivity).
  assert (Eu : fe_mul (fe_mul (fe_sq v_one) v_one) twop = p_limbs) by (vm_compute; reflexivity).
  rewrite E7, p_pow58, Eu, p_mul. change (fe_sq p_limbs) with (fe_mul p_limbs p_limbs). rewrite p_mul. vm_compute. reflexivity.
Qed.

(** RFC 8032 section 5.1.3 requires that the encoding of y = 1 with the sign bit
    set be refused (x = 0 has no negative).  [quic_ed_ge_decode] accepts it, and
    decodes it to the same point as the encoding with the sign bit clear. *)
Theorem ed_decode_accepts_negative_zero :
  quic_ed_ge_decode (1 :: repeat 0 30 ++ [0x80]) = Some (mk_ge p_limbs fe_1 fe_1 p_limbs) /\
  quic_ed_ge_decode (1 :: repeat 0 30 ++ [0]) = Some (mk_ge p_limbs fe_1 fe_1 p_limbs) /\
  fe_val p_limbs = 0.
Proof.
  assert (Ed : forall b, b = 0x80 \/ b = 0 -> quic_ed_ge_decode (1 :: repeat 0 30 ++ [b]) = Some (mk_ge p_limbs fe_1 fe_1 p_limbs)).
  { intros b Hb. unfold quic_ed_ge_decode. cbv zeta.
    assert (EY : fe_frombytes (1 :: repeat 0 30 ++ [b]) = fe_1) by (destruct Hb as [-> | ->]; vm_compute; reflexivity). rewrite EY.
    assert (Euv : decode_uv fe_1 = (twop, v_one)) by (vm_compute; reflexivity). rewrite Euv, recover_one.
    destruct Hb as [-> | ->]; vm_compute; reflexivity. }
  split_and!; [apply Ed; auto..|vm_compute; reflexivity].
Qed.
