(* ===== verification/TlsExt.v ===== *)
(** TLS 1.3 extensions and messages around the hellos.

    [tls/ext/tlsext] (early_data, pre_shared_key, psk_key_exchange_modes),
    [tls/ext/legacy], [tls/ext/grease], [tls/ext/alpnver], HelloRetryRequest
    ([tls/handshake/core/hrr]), the server's flight ([roles/eebuild],
    [roles/sflight]), cipher suite selection and the small
    predicates of [tls/handshake/core/tls]. *)
From Stdlib Require Import Ascii String.
From S2P Require Import Prelude.
From S2P Require Import Buffers.
From S2P Require Import CStrings.
From S2P Require Import Varint.
From S2P Require Import Headers.
From S2P Require Import Version.
From S2P Require Import TransportParams.
From S2P Require Import KeySched.
From S2P Require Import Ed25519.
From S2P Require Import TlsMsg.

(** * tlsext/earlydata.c *)

Definition QUIC_TLSEXT_T_EARLY_DATA : Z := 0x002a.

(** [Some (Some n, out')]: returned 1 with [*out_len = n]. *)
Definition quic_tlsext_early_data_ch (out : list Z) (cap : Z) : option (option Z * list Z) :=
  if cap <? 4 then Some (None, out)
  else
    out ← store_bytes out 0 (quic_put_be16 QUIC_TLSEXT_T_EARLY_DATA);
    out ← store_bytes out 2 (quic_put_be16 0);
    Some (Some 4, out).

Definition quic_tlsext_early_data_nst (max_size : Z) (out : list Z) (cap : Z) : option (option Z * list Z) :=
  if cap <? 8 then Some (None, out)
  else
    out ← store_bytes out 0 (quic_put_be16 QUIC_TLSEXT_T_EARLY_DATA);
    out ← store_bytes out 2 (quic_put_be16 4);
    out ← store_bytes out 4 (quic_put_be32 max_size);
    Some (Some 8, out).

Definition nst_framed (out : list Z) (n : Z) : option bool :=
  if n <? 8 then Some false
  else t ← be16_at out 0;
       if negb (t =? QUIC_TLSEXT_T_EARLY_DATA) then Some false
       else l ← be16_at out 2; Some (l =? 4).

Definition quic_tlsext_early_data_nst_parse (out : list Z) (n : Z) : option (option Z) :=
  f ← nst_framed out n;
  if negb (f : bool) then Some None else v ← load_be32 out 4; Some (Some v).

(** * tlsext/preshared.c *)

Definition QUIC_TLSEXT_T_PRE_SHARED_KEY : Z := 0x0029.

Definition psk_total (id_len binder_len : Z) : Z := 4 +w 2 +w (2 +w id_len +w 4) +w 2 +w (1 +w binder_len).

Definition quic_tlsext_pre_shared_key (identity : list Z) (id_len ticket_age : Z) (binder : list Z) (binder_len : Z)
    (out : list Z) (cap : Z) : option (option Z * list Z) :=
  let total := psk_total id_len binder_len in
  if cap <? total then Some (None, out)
  else
    out ← store_bytes out 0 (quic_put_be16 QUIC_TLSEXT_T_PRE_SHARED_KEY);
    out ← store_bytes out 2 (quic_put_be16 (u16 (total - 4)));
    out ← store_bytes out 4 (quic_put_be16 (u16 (2 + id_len + 4)));
    out ← store_bytes out 6 (quic_put_be16 (u16 id_len));
    out ← copy_loop (Z.to_nat id_len) out 8 identity 0;
    out ← store_bytes out (8 + id_len) (quic_put_be32 ticket_age);
    out ← store_bytes out (12 + id_len) (quic_put_be16 (u16 (1 + binder_len)));
    out ← store out (14 + id_len) (u8 binder_len);
    out ← copy_loop (Z.to_nat binder_len) out (15 + id_len) binder 0;
    Some (Some total, out).

(** The length is read before [n >= 4] is tested. *)
Definition psk_header_ok (out : list Z) (n : Z) : option bool :=
  dlen ← be16_at out 2;
  if negb (4 <=? n) then Some false
  else t ← be16_at out 0;
       if negb (t =? QUIC_TLSEXT_T_PRE_SHARED_KEY) then Some false else Some (4 + dlen <=? n).

Definition psk_shape_ok (out : list Z) (n id_len binder_len : Z) : option bool :=
  dlen ← be16_at out 2;
  Some ((psk_total id_len binder_len <=? n) && (dlen =? psk_total id_len binder_len - 4)).

Definition psk_prefix_ok (out : list Z) (n id_len : Z) : option bool :=
  h ← psk_header_ok out n; Some ((h : bool) && (15 + id_len <=? n)).

Definition psk_offer_ok (out : list Z) (n id_len : Z) : option bool :=
  p ← psk_prefix_ok out n id_len;
  if negb (p : bool) then Some false else b ← load out (14 + id_len); psk_shape_ok out n id_len b.

Record quic_tlsext_psk_offer := mk_psk { psk_identity : list Z; psk_age : Z; psk_binder : list Z }.

Definition quic_tlsext_pre_shared_key_parse (out : list Z) (n : Z) : option (option quic_tlsext_psk_offer) :=
  id_len ← (if 8 <=? n then be16_at out 6 else Some 0);
  ok ← psk_offer_ok out n id_len;
  if negb (ok : bool) then Some None
  else
    bl ← load out (14 + id_len);
    age ← load_be32 out (8 + id_len);
    Some (Some (mk_psk (slice out 8 id_len) age (slice out (15 + id_len) bl))).

(** * tlsext/pskmodes.c *)

Definition QUIC_TLSEXT_T_PSK_MODES : Z := 0x002d.
Definition QUIC_TLSEXT_PSK_DHE_KE : Z := 0x01.

Definition quic_tlsext_psk_modes (out : list Z) (cap : Z) : option (option Z * list Z) :=
  if cap <? 6 then Some (None, out)
  else
    out ← store_bytes out 0 (quic_put_be16 QUIC_TLSEXT_T_PSK_MODES);
    out ← store_bytes out 2 (quic_put_be16 2);
    out ← store out 4 1;
    out ← store out 5 QUIC_TLSEXT_PSK_DHE_KE;
    Some (Some 6, out).

Definition modes_framed (out : list Z) (n : Z) : option bool :=
  dlen ← be16_at out 2;
  t ← be16_at out 0;
  if negb (t =? QUIC_TLSEXT_T_PSK_MODES) then Some false
  else if negb (4 + dlen <=? n) then Some false
  else l ← load out 4; Some (dlen =? l + 1).

Fixpoint modes_has_dhe (k : nat) (out : list Z) (i : Z) : option bool :=
  match k with
  | O => Some false
  | S k' => m ← load out (5 + i);
            if m =? QUIC_TLSEXT_PSK_DHE_KE then Some true else modes_has_dhe k' out (i + 1)
  end.

Definition quic_tlsext_psk_modes_parse (out : list Z) (n : Z) : option bool :=
  if n <? 6 then Some false
  else f ← modes_framed out n;
       if negb (f : bool) then Some false else cnt ← load out 4; modes_has_dhe (Z.to_nat cnt) out 0.

(** * legacy_fields.c *)

(** The body's view: its bytes and its length. *)
Definition legacy_ch_body (msg : list Z) (len : Z) : option (option (list Z * Z)) :=
  r ← quic_hs_parse msg len;
  Some (match r with
        | Some (t, body_len) => if t =? QUIC_HS_CLIENT_HELLO then Some (ptr msg 4, body_len) else None
        | None => None
        end).

Definition sid_fits (b : list Z) (n : Z) : option bool :=
  if n <? 35 then Some false
  else s ← load b 34; Some (if 32 <? s then false else 35 + s <=? n).

Definition comp_offset (b : list Z) (n : Z) : option (option Z) :=
  f ← sid_fits b n;
  if negb (f : bool) then Some None
  else s ← load b 34;
       let p := 35 + s in
       if n <? p + 2 then Some None
       else l ← be16_at b p; let p := p + (2 + l) in Some (if p <? n then Some p else None).

Definition comp_is_null_only (b : list Z) (n p : Z) : option bool :=
  c ← load b p;
  if negb (c =? 1) then Some false
  else if n <=? p + 1 then Some false
  else z ← load b (p + 1); Some (z =? 0).

Definition version_ok (b : list Z) (n : Z) : option bool :=
  if n <? 2 then Some false
  else x ← load b 0; if negb (x =? 0x03) then Some false else y ← load b 1; Some (y =? 0x03).

Definition legacy_body_ok (b : list Z) (n : Z) : option bool :=
  v ← version_ok b n;
  if negb (v : bool) then Some false
  else p ← comp_offset b n;
       match p with None => Some false | Some p => comp_is_null_only b n p end.

Definition quic_legacy_check_client_hello (ch_msg : list Z) (len : Z) : option bool :=
  b ← legacy_ch_body ch_msg len;
  match b with None => Some false | Some (b, body_len) => legacy_body_ok b body_len end.

Definition quic_legacy_session_id (ch_msg : list Z) (len : Z) : option (option (list Z)) :=
  b ← legacy_ch_body ch_msg len;
  match b with
  | None => Some None
  | Some (b, body_len) =>
      f ← sid_fits b body_len;
      if negb (f : bool) then Some None else s ← load b 34; Some (Some (slice b 35 s))
  end.

(** * grease *)

Definition QUIC_TP_GREASE_QUIC_BIT : Z := 0x2ab2.
Definition QUIC_BIT_MASK : Z := 0x40.
Definition quic_greasebit_may_clear (peer_advertised : bool) : bool := peer_advertised.
Definition quic_greasebit_apply (byte0 : Z) (clear : bool) : Z :=
  if clear then u8 (Z.land byte0 (Z.lnot QUIC_BIT_MASK)) else u8 (Z.lor byte0 QUIC_BIT_MASK).
Definition quic_greasebit_client_early_ok (remembered_advertised : bool) : bool := remembered_advertised.
Definition quic_greasebit_server_ok (client_tp_processed we_advertised : bool) : bool := client_tp_processed && we_advertised.
Definition quic_grease_encode (buf : list Z) (cap : Z) : option (Z * list Z) :=
  encode_to (quic_varint_put QUIC_TP_GREASE_QUIC_BIT ;;; quic_varint_put 0) buf cap.
Definition take_grease_id : rd unit := id <- quic_varint_take ;; rd_guard (id =? QUIC_TP_GREASE_QUIC_BIT).
Definition take_grease : rd unit := _ <- take_grease_id ;; len <- quic_varint_take ;; rd_guard (len =? 0).
(** The bytes consumed, 0 when it is not the parameter. *)
Definition quic_grease_decode (buf : list Z) (n : Z) : option Z :=
  match take_grease buf n 0 with
  | None => None
  | Some (None, _) => Some 0
  | Some (Some _, off) => Some off
  end.
Definition quic_grease_accept_byte0 (byte0 : Z) (peer_greases : bool) : bool :=
  if peer_greases then true else negb (Z.land byte0 QUIC_BIT_MASK =? 0).
Definition quic_greasebit_sreset_ok (byte0 : Z) : bool := true.

(** * alpnver.c *)

Inductive quic_alpnver_proto := QUIC_ALPNVER_PROTO_NONE | QUIC_ALPNVER_PROTO_H3.
Definition quic_alpnver_require (selected_alpn : option (list Z)) (len : Z) : bool :=
  match selected_alpn with None => false | Some _ => 0 <? len end.
Definition quic_alpnver_protocol (alpn : list Z) (len : Z) : option quic_alpnver_proto :=
  h ← quic_tls_alpn_is_h3 alpn len; Some (if (h : bool) then QUIC_ALPNVER_PROTO_H3 else QUIC_ALPNVER_PROTO_NONE).
Definition quic_alpnver_compatible (version : Z) (alpn : list Z) (len : Z) : option bool :=
  p ← quic_alpnver_protocol alpn len;
  Some (match p with QUIC_ALPNVER_PROTO_NONE => false | QUIC_ALPNVER_PROTO_H3 => quic_version_compatible version version end).

(** * cipher.c, aead_params.c, hp_select.c *)

Definition QUIC_TLS_AES_128_GCM_SHA256 : Z := 0x1301.
Definition QUIC_TLS_CHACHA20_POLY1305_SHA256 : Z := 0x1303.

Definition quic_cipher_supported (suite : Z) : bool :=
  (suite =? QUIC_TLS_AES_128_GCM_SHA256) || (suite =? QUIC_TLS_CHACHA20_POLY1305_SHA256).
Definition prefer (s : Z) (found : bool) : bool := negb found || (s =? QUIC_TLS_AES_128_GCM_SHA256).
(** [(chosen, found)]. *)
Definition cipher_fold (s : Z) (st : Z * bool) : Z * bool :=
  let '(chosen, found) := st in
  if negb (quic_cipher_supported s) then st else (if prefer s found then s else chosen, true).
Fixpoint cipher_loop (k : nat) (offered : list Z) (i : Z) (st : Z * bool) : option (Z * bool) :=
  match k with
  | O => Some st
  | S k' => s ← be16_at offered (2 * i); cipher_loop k' offered (i + 1) (cipher_fold s st)
  end.
(** [Some s] when a suite was chosen. *)
Definition quic_cipher_select (offered : list Z) (n_pairs chosen0 : Z) : option (option Z) :=
  '(chosen, found) ← cipher_loop (Z.to_nat n_pairs) offered 0 (chosen0, false);
  Some (if (found : bool) then Some chosen else None).

Definition quic_aead_key_len (suite : Z) : Z :=
  if suite =? QUIC_TLS_AES_128_GCM_SHA256 then 16 else if suite =? QUIC_TLS_CHACHA20_POLY1305_SHA256 then 32 else 0.
Definition quic_aead_tag_len (suite : Z) : Z := if quic_cipher_supported suite then 16 else 0.
Definition quic_aead_is_chacha (suite : Z) : bool := suite =? QUIC_TLS_CHACHA20_POLY1305_SHA256.
Definition quic_hp_is_chacha (suite : Z) : bool := suite =? QUIC_TLS_CHACHA20_POLY1305_SHA256.
Definition quic_hp_key_len (suite : Z) : Z :=
  if suite =? QUIC_TLS_AES_128_GCM_SHA256 then 16 else if suite =? QUIC_TLS_CHACHA20_POLY1305_SHA256 then 32 else 0.

(** * hsdone.c, keydiscard.c, ticketversion.c, zerortt_*.c, encext_check.c *)

Definition quic_hs_complete (finished_verified finished_sent : bool) : bool := finished_verified && finished_sent.
Definition quic_hs_confirmed (is_server handshake_done_sent handshake_done_received : bool) : bool :=
  if is_server then handshake_done_sent else handshake_done_received.
Definition quic_key_discard_initial (handshake_keys_available : bool) : bool := handshake_keys_available.
Definition quic_key_discard_handshake (handshake_confirmed : bool) : bool := handshake_confirmed.
Definition quic_ticket_version_ok (ticket_version current_version : Z) : bool :=
  if ticket_version =? current_version then true else quic_version_compatible ticket_version current_version.
Definition quic_ticket_0rtt_ok (ticket_version current_version : Z) : bool := quic_version_compatible ticket_version current_version.
Definition quic_zerortt_param_ok (remembered current : Z) : bool := remembered <=? current.
Definition quic_zerortt_on_reject : bool * bool := (true, true).
Definition quic_zerortt_accepted (server_accepted : bool) : bool := server_accepted.
Definition quic_encext_has_tp (found_tp_ext : bool) : bool := found_tp_ext.
Definition quic_encext_required_ok (found_tp : bool) : bool := quic_encext_has_tp found_tp.

(** * hrr_build.c *)

Definition quic_hrr_random : list Z :=
  [0xcf; 0x21; 0xad; 0x74; 0xe5; 0x9a; 0x61; 0x11; 0xbe; 0x1d; 0x8c; 0x02; 0x1e; 0x65; 0xb8; 0x91;
   0xc2; 0xa2; 0x11; 0x16; 0x7a; 0xbb; 0x8c; 0x5e; 0x07; 0x9e; 0x09; 0xe2; 0xc8; 0xa8; 0x33; 0x9c].
Definition QUIC_EXT_COOKIE : Z := 44.

Definition hrr_prefix (out : list Z) (off : Z) : option (list Z * Z) :=
  out ← store_bytes out off (quic_put_be16 0x0303);
  out ← copy_loop 32 out (off + 2) quic_hrr_random 0;
  out ← store out (off + 34) 0;
  out ← store_bytes out (off + 35) (quic_put_be16 QUIC_TLS_AES128_GCM_SHA256);
  out ← store out (off + 37) 0;
  Some (out, off + 38).

Definition hrr_versions : wr :=
  quic_tls_ext_append (quic_put_be16 QUIC_EXT_SUPPORTED_VERSIONS ++ quic_put_be16 2 ++ quic_put_be16 QUIC_TLS13_VERSION) 6.
Definition hrr_key_share (group : Z) : wr :=
  quic_tls_ext_append (quic_put_be16 QUIC_EXT_KEY_SHARE ++ quic_put_be16 2 ++ quic_put_be16 group) 6.
Definition hrr_cookie_hdr (cl : Z) : wr :=
  quic_put_bytes (quic_put_be16 QUIC_EXT_COOKIE ++ quic_put_be16 (u16 (cl + 2)) ++ quic_put_be16 (u16 cl)) 6.
Definition hrr_cookie_body (ck : list Z) (cl : Z) : wr := hrr_cookie_hdr cl ;;; quic_put_bytes ck cl.
Definition hrr_cookie (ck : list Z) (cl : Z) : wr := fun cap st =>
  if cl =? 0 then Some (true, st)
  else if 0xFFFF <? cl then Some (false, st)
  else hrr_cookie_body ck cl cap st.

(** The end offset, 0 on overflow. *)
Definition hrr_exts (buf : list Z) (cap off group : Z) (ck : list Z) (cl : Z) : option (Z * list Z) :=
  match wr_and (wr_and hrr_versions (hrr_key_share group)) (hrr_cookie ck cl) cap (buf, off) with
  | None => None
  | Some (ok, (buf', off')) => Some (if ok then off' else 0, buf')
  end.

Definition hrr_finish (buf : list Z) (off block_start : Z) : option (Z * list Z) :=
  if off =? 0 then Some (0, buf)
  else
    '(end_, buf) ← quic_tls_ext_block_finish buf off block_start;
    if negb (end_ =? 0) then buf ← quic_hs_finish buf end_; Some (end_, buf) else Some (end_, buf).

Definition hrr_head_fits (off cap : Z) : bool := negb (off =? 0) && (off + 40 <=? cap).

(** [Some (Some len, out')]: returned 1 with [*out_len = len]. *)
Definition quic_hrr_build (selected_group : Z) (cookie : list Z) (cookie_len : Z) (out : list Z) (cap : Z)
  : option (option Z * list Z) :=
  '(off, out) ← quic_hs_begin out cap QUIC_HS_SERVER_HELLO;
  if negb (hrr_head_fits off cap) then Some (None, out)
  else
    '(out, block_start) ← hrr_prefix out off;
    '(off, out) ← hrr_exts out cap (block_start + 2) selected_group cookie cookie_len;
    '(end_, out) ← hrr_finish out off block_start;
    Some (if end_ =? 0 then None else Some end_, out).

(** * hrr_detect.c *)

Fixpoint hrr_random_matches (k : nat) (random : list Z) (i : Z) : option bool :=
  match k with
  | O => Some true
  | S k' => a ← load random i; b ← load quic_hrr_random i;
            if negb (a =? b) then Some false else hrr_random_matches k' random (i + 1)
  end.
Definition hrr_has_random (parsed : option (Z * Z)) : bool :=
  match parsed with
  | None => false
  | Some (type, body_len) => (type =? QUIC_HS_SERVER_HELLO) && (34 <=? body_len)
  end.
Definition quic_hrr_is_hello_retry (sh_msg : list Z) (len : Z) : option bool :=
  r ← quic_hs_parse sh_msg len;
  if negb (hrr_has_random r) then Some false else hrr_random_matches 32 (ptr sh_msg (4 + 2)) 0.

(** * hrr_group.c *)

Definition hrr_rd16 (p : list Z) : option Z := be16_at p 0.

Definition hrr_ext_off (body : list Z) (body_len : Z) : option Z :=
  if body_len <? 35 then Some 0
  else sid_len ← load body 34;
       let off := 35 + sid_len + 3 in Some (if off + 2 <=? body_len then off else 0).

Definition hrr_is_key_share (e : list Z) (el : Z) : option bool :=
  t ← hrr_rd16 e; Some ((t =? QUIC_EXT_KEY_SHARE) && (2 <=? el)).

(** [(step, group when found)]; a step of 0 ends the scan with a failure. *)
Definition hrr_step (e : list Z) (room : Z) : option (Z * option Z) :=
  el ← hrr_rd16 (ptr e 2);
  if room <? 4 + el then Some (0, None)
  else
    found ← hrr_is_key_share e el;
    if (found : bool) then g ← hrr_rd16 (ptr e 4); Some (4 + el, Some g) else Some (4 + el, None).

Definition hrr_scan_more (i total : Z) (found : bool) : bool := (i + 4 <=? total) && negb found.

(** [while (hrr_scan_more(...))]; [group] is set exactly when [found] is. *)
Fixpoint hrr_scan_key_share (fuel : nat) (ext : list Z) (total i : Z) (group : option Z) : option (option Z) :=
  match fuel with
  | O => None
  | S fuel' =>
      if hrr_scan_more i total (bool_decide (is_Some group)) then
        '(step, group) ← hrr_step (ptr ext i) (total - i);
        if step =? 0 then Some None else hrr_scan_key_share fuel' ext total (i + step) group
      else Some group
  end.

(** [Some (Some (eoff, total))]. *)
Definition hrr_locate_exts (body : list Z) (body_len : Z) : option (option (Z * Z)) :=
  eoff ← hrr_ext_off body body_len;
  if eoff =? 0 then Some None
  else total ← hrr_rd16 (ptr body eoff);
       Some (if eoff + 2 + total <=? body_len then Some (eoff, total) else None).

Definition hrr_is_server_hello (parsed : option (Z * Z)) : option Z :=
  match parsed with
  | Some (type, body_len) => if type =? QUIC_HS_SERVER_HELLO then Some body_len else None
  | None => None
  end.

Definition quic_hrr_selected_group (hrr_msg : list Z) (len : Z) : option (option Z) :=
  r ← quic_hs_parse hrr_msg len;
  match hrr_is_server_hello r with
  | None => Some None
  | Some body_len =>
      l ← hrr_locate_exts (ptr hrr_msg 4) body_len;
      match l with
      | None => Some None
      | Some (eoff, total) => hrr_scan_key_share (S (Z.to_nat total)) (ptr hrr_msg (4 + eoff + 2)) total 0 None
      end
  end.

(** * eebuild.c, sflight: encext.c, certmsg.c, finished_build.c *)

Definition EEBUILD_ALPN_LEN : Z := 9.
Definition eebuild_fits (tp_len cap : Z) : bool := (tp_len <=? 0xFFFF) && (4 + 2 + EEBUILD_ALPN_LEN + 4 + tp_len <=? cap).

(** The result of the ALPN response is ignored: [alpn] keeps its (indeterminate)
    value when it does not fit, a stop here; the capacity check excludes it. *)
Definition quic_eebuild_encrypted_extensions (transport_params : list Z) (tp_len : Z) (out : list Z) (cap : Z)
  : option (option Z * list Z) :=
  if negb (eebuild_fits tp_len cap) then Some (None, out)
  else
    '(off, out) ← quic_hs_begin out cap QUIC_HS_ENCRYPTED_EXT;
    '(alpn, out) ← on_tail (off + 2) (fun b => '(r, b) ← quic_salpn_build_response b (cap - off - 2);
                                               n ← r; Some (n, b)) out;
    '(ext, out) ← on_tail (off + 2 + alpn) (fun b => quic_tpext_encode b (cap - off - 2 - alpn) transport_params tp_len) out;
    out ← store_bytes out off (quic_put_be16 (u16 (alpn + ext)));
    let out_len := off + 2 + alpn + ext in
    out ← quic_hs_finish out out_len;
    Some (Some out_len, out).

Definition encext_fits (tp_len cap : Z) : bool := (tp_len <=? 0xFFFF) && (4 + 2 + 4 + tp_len <=? cap).
Definition quic_sflight_encrypted_extensions (transport_params : list Z) (tp_len : Z) (out : list Z) (cap : Z)
  : option (option Z * list Z) :=
  if negb (encext_fits tp_len cap) then Some (None, out)
  else
    '(off, out) ← quic_hs_begin out cap QUIC_HS_ENCRYPTED_EXT;
    '(ext, out) ← on_tail (off + 2) (fun b => quic_tpext_encode b (cap - off - 2) transport_params tp_len) out;
    out ← store_bytes out off (quic_put_be16 (u16 ext));
    let out_len := off + 2 + ext in
    out ← quic_hs_finish out out_len;
    Some (Some out_len, out).

Definition QUIC_HS_CERTIFICATE : Z := 11.
Definition put_be24 (v : Z) : list Z := [u8 (Z.shiftr v 16); u8 (Z.shiftr v 8); u8 v].
Definition cert_fits (cert_len cap : Z) : bool := (cert_len <=? 0xFFFFFF) && (4 + 1 + 3 + 3 + cert_len + 2 <=? cap).
Definition put_entry (out : list Z) (cap off : Z) (cert : list Z) (cert_len : Z) : option (list Z * Z) :=
  out ← store_bytes out off (put_be24 (u32 cert_len));
  '(off, out) ← put_ignored cert cert_len cap out (off + 3);
  out ← store_bytes out off (quic_put_be16 0);
  Some (out, off + 2).
Definition quic_sflight_certificate (cert_der : list Z) (cert_len : Z) (out : list Z) (cap : Z) : option (option Z * list Z) :=
  if negb (cert_fits cert_len cap) then Some (None, out)
  else
    '(off, out) ← quic_hs_begin out cap QUIC_HS_CERTIFICATE;
    out ← store out off 0;
    out ← store_bytes out (off + 1) (put_be24 (u32 (cert_len + 5)));
    '(out, end_) ← put_entry out cap (off + 4) cert_der cert_len;
    out ← quic_hs_finish out end_;
    Some (Some end_, out).

Definition QUIC_TLS_VERIFY_DATA : Z := 32.
Definition quic_sflight_finished (finished_key transcript_hash out : list Z) (cap : Z) : option (option Z * list Z) :=
  if cap <? 4 + QUIC_TLS_VERIFY_DATA then Some (None, out)
  else
    '(off, out) ← quic_hs_begin out cap QUIC_HS_FINISHED;
    vd ← quic_tls_finished_verify_data finished_key transcript_hash;
    out ← store_bytes out off vd;
    let out_len := off + QUIC_TLS_VERIFY_DATA in
    out ← quic_hs_finish out out_len;
    Some (Some out_len, out).

(** * certverify_build.c *)

Definition cv_ctx : list Z := c_str "TLS 1.3, server CertificateVerify".
Definition QUIC_HS_CERTIFICATE_VERIFY : Z := 15.
Definition QUIC_SFLIGHT_SCHEME_ED25519 : Z := 0x0807.
Definition QUIC_ED25519_SIG : Z := 64.

Fixpoint cvb_fill_pad (k : nat) (out : list Z) (i : Z) : option (list Z) :=
  match k with O => Some out | S k' => out ← store out i 0x20; cvb_fill_pad k' out (i + 1) end.
Definition cvb_put_ctx (out : list Z) (at_ : Z) : option (list Z) := copy_loop 33 out at_ cv_ctx 0.
Definition cvb_put_hash (out : list Z) (at_ : Z) (transcript_hash : list Z) : option (list Z) :=
  copy_loop 32 out at_ transcript_hash 0.
Definition sflight_cv_signed (transcript_hash out : list Z) : option (list Z) :=
  out ← cvb_fill_pad 64 out 0;
  out ← cvb_put_ctx out 64;
  out ← store out 97 0x00;
  cvb_put_hash out 98 transcript_hash.

Definition quic_sflight_certificate_verify (seed transcript_hash out : list Z) (cap : Z) : option (option Z * list Z) :=
  if cap <? 4 + 2 + 2 + QUIC_ED25519_SIG then Some (None, out)
  else
    '(off, out) ← quic_hs_begin out cap QUIC_HS_CERTIFICATE_VERIFY;
    content ← sflight_cv_signed transcript_hash (local 130);
    out ← store_bytes out off (quic_put_be16 QUIC_SFLIGHT_SCHEME_ED25519);
    out ← store_bytes out (off + 2) (quic_put_be16 QUIC_ED25519_SIG);
    sig ← quic_ed25519_sign seed content 130;
    out ← copy_loop 64 out (off + 4) sig 0;
    let out_len := off + 4 + QUIC_ED25519_SIG in
    out ← quic_hs_finish out out_len;
    Some (Some out_len, out).

(** * hsdriver.c *)

Definition QUIC_HSD_FINISHED : Z := 20.
Definition QUIC_HSD_HANDSHAKE_DONE : Z := 30.
Definition QUIC_HSD_PROT_INITIAL : Z := 0.
Definition HSD_STEPS : Z := 7.
Definition hsd_order : list Z := [1; 2; 8; 11; 15; QUIC_HSD_FINISHED; QUIC_HSD_HANDSHAKE_DONE].
Definition hsd_level : list Z := [0; 0; 1; 1; 1; 1; 2].

Record quic_hsdriver := mk_hsd
  { hsd_is_server : bool; hsd_recv_count : Z; hsd_cert_verified : bool; hsd_lvl : Z; hsd_complete : bool; hsd_confirmed : bool }.

Definition quic_hsdriver_init (is_server : bool) : quic_hsdriver := mk_hsd is_server 0 false QUIC_HSD_PROT_INITIAL false false.
Definition hsd_auth_gate_ok (s : quic_hsdriver) (msg_type : Z) : bool :=
  negb (msg_type =? QUIC_HSD_FINISHED) || hsd_cert_verified s.
Definition hsd_table_match (s : quic_hsdriver) (msg_type level : Z) : option bool :=
  if negb (hsd_recv_count s <? HSD_STEPS) then Some false
  else o ← load hsd_order (hsd_recv_count s);
       if negb (o =? msg_type) then Some false
       else l ← load hsd_level (hsd_recv_count s); Some (l =? level).
Definition hsd_step_legal (s : quic_hsdriver) (msg_type level : Z) : option bool :=
  m ← hsd_table_match s msg_type level; Some ((m : bool) && hsd_auth_gate_ok s msg_type).
Definition hsd_mark (s : quic_hsdriver) (msg_type : Z) : quic_hsdriver :=
  mk_hsd (hsd_is_server s) (hsd_recv_count s) (hsd_cert_verified s) (hsd_lvl s)
         (hsd_complete s || (msg_type =? QUIC_HSD_FINISHED)) (hsd_confirmed s || (msg_type =? QUIC_HSD_HANDSHAKE_DONE)).
Definition quic_hsdriver_recv (s : quic_hsdriver) (msg_type protection_level : Z) : option (bool * quic_hsdriver) :=
  l ← hsd_step_legal s msg_type protection_level;
  if negb (l : bool) then Some (false, s)
  else
    let lvl := if hsd_lvl s <? protection_level then protection_level else hsd_lvl s in
    let s := mk_hsd (hsd_is_server s) (hsd_recv_count s + 1) (hsd_cert_verified s) lvl (hsd_complete s) (hsd_confirmed s) in
    Some (true, hsd_mark s msg_type).
Definition quic_hsdriver_cert_verified (s : quic_hsdriver) : quic_hsdriver :=
  mk_hsd (hsd_is_server s) (hsd_recv_count s) true (hsd_lvl s) (hsd_complete s) (hsd_confirmed s).
Definition quic_hsdriver_complete (s : quic_hsdriver) : bool := hsd_complete s.
Definition quic_hsdriver_confirmed (s : quic_hsdriver) : bool := hsd_confirmed s.

(** * HelloRetryRequest: built, detected and read *)

Definition hrr_cookie_ext (ck : list Z) : list ext :=
  if zlen ck =? 0 then [] else [(QUIC_EXT_COOKIE, quic_put_be16 (zlen ck) ++ ck)].
Definition hrr_ext_list (group : Z) (ck : list Z) : list ext :=
  [(QUIC_EXT_SUPPORTED_VERSIONS, [3; 4]); (QUIC_EXT_KEY_SHARE, quic_put_be16 group)] ++ hrr_cookie_ext ck.
Definition hrr_prefix_bytes : list Z := [3; 3] ++ quic_hrr_random ++ [0] ++ quic_put_be16 QUIC_TLS_AES128_GCM_SHA256 ++ [0].
Definition hrr_message (group : Z) (ck : list Z) : list Z :=
  let e := exts_bytes (hrr_ext_list group ck) in
  hs_message QUIC_HS_SERVER_HELLO (hrr_prefix_bytes ++ quic_put_be16 (zlen e) ++ e).

Lemma zlen_hrr_exts group ck :
  zlen (exts_bytes (hrr_ext_list group ck)) = 12 + (if zlen ck =? 0 then 0 else 6 + zlen ck).
Proof.
  unfold hrr_ext_list, hrr_cookie_ext. rewrite exts_bytes_app, zlen_app, !exts_bytes_cons, !zlen_app, !zlen_ext_bytes. cbn [snd].
  destruct (zlen ck =? 0); [done|]. rewrite exts_bytes_cons, zlen_app, zlen_ext_bytes. cbn [snd]. rewrite zlen_app, !zlen_put16.
  change (zlen (exts_bytes [])) with 0. change (zlen [3; 4]) with 2. change (zlen (quic_put_be16 group)) with 2. lia.
Qed.

Lemma hrr_prefix_spec buf w : zlen w + 38 <= zlen buf ->
  hrr_prefix (splice buf 0 w) (zlen w) = Some (splice buf 0 (w ++ hrr_prefix_bytes), zlen w + 38).
Proof.
  intros Hl. pose proof (zlen_nonneg w). unfold hrr_prefix.
  rewrite store_front_bytes, bind_some by (done || (rewrite zlen_put16; lia)).
  rewrite copy_front_bytes, bind_some by (rewrite ?zlen_app, ?zlen_put16; done || lia).
  change (take 32 quic_hrr_random) with quic_hrr_random. change (zlen quic_hrr_random) with 32 in *.
  rewrite store_front_byte, bind_some by (rewrite ?zlen_app, ?zlen_put16; change (zlen quic_hrr_random) with 32; lia).
  rewrite store_front_bytes, bind_some by (rewrite ?zlen_app, ?zlen_put16; change (zlen quic_hrr_random) with 32; change (zlen [0]) with 1; lia).
  rewrite store_front_byte, bind_some by (rewrite ?zlen_app, ?zlen_put16; change (zlen quic_hrr_random) with 32; change (zlen [0]) with 1; lia).
  unfold hrr_prefix_bytes. rewrite <- !app_assoc. reflexivity.
Qed.

(** The bytes the cookie writer leaves, for every length it accepts. *)
Definition hrr_cookie_bytes (ck : list Z) : list Z :=
  if zlen ck =? 0 then []
  else (quic_put_be16 QUIC_EXT_COOKIE ++ quic_put_be16 (u16 (zlen ck + 2)) ++ quic_put_be16 (u16 (zlen ck))) ++ ck.

Lemma writes_hrr_cookie ck : zlen ck <= 65535 -> Writes (hrr_cookie ck (zlen ck)) (hrr_cookie_bytes ck).
Proof.
  intros Hc. pose proof (zlen_nonneg ck). unfold hrr_cookie, hrr_cookie_bytes. destruct (Z.eqb_spec (zlen ck) 0).
  - intros cap buf off H1 H2 H3. change (zlen []) with 0. zdecide. rewrite splice_nil, Z.add_0_r. done.
  - zdecide. apply (writes_same _ (hrr_cookie_body ck (zlen ck))); [done|]. unfold hrr_cookie_body, hrr_cookie_hdr.
    apply writes_seq; apply writes_append; try (rewrite ?zlen_app, ?zlen_put16; unfold max_object; lia); [done|].
    apply take_ge. unfold zlen. lia.
Qed.

Lemma zlen_hrr_cookie_bytes ck : zlen (hrr_cookie_bytes ck) = if zlen ck =? 0 then 0 else 6 + zlen ck.
Proof. unfold hrr_cookie_bytes. destruct (zlen ck =? 0); [done|]. rewrite zlen_app. done. Qed.

Lemma hrr_cookie_bytes_ext ck : zlen ck <= 65517 -> hrr_cookie_bytes ck = exts_bytes (hrr_cookie_ext ck).
Proof.
  intros Hc. pose proof (zlen_nonneg ck). unfold hrr_cookie_bytes, hrr_cookie_ext. destruct (zlen ck =? 0); [done|].
  rewrite exts_bytes_cons. change (exts_bytes []) with (@nil Z). rewrite app_nil_r. unfold ext_bytes. cbn [fst snd].
  rewrite zlen_app, zlen_put16, (Z.add_comm 2). unfold u16. rewrite !Z.mod_small by lia. rewrite <- !app_assoc. reflexivity.
Qed.

Definition hrr_fixed_bytes (group : Z) : list Z :=
  exts_bytes [(QUIC_EXT_SUPPORTED_VERSIONS, [3; 4]); (QUIC_EXT_KEY_SHARE, quic_put_be16 group)].

Lemma writes_hrr_fixed group : Writes (wr_and hrr_versions (hrr_key_share group)) (hrr_fixed_bytes group).
Proof.
  unfold hrr_fixed_bytes. rewrite !exts_bytes_cons. change (exts_bytes []) with (@nil Z). rewrite app_nil_r.
  apply writes_and; by apply writes_append.
Qed.

Lemma fails_hrr_cookie ck : 65535 < zlen ck -> FailsWr (hrr_cookie ck (zlen ck)).
Proof. intros Hc cap buf off H1 H2 H3. unfold hrr_cookie. zdecide. exists buf, off. split_and!; done || lia. Qed.

(** A finished block longer than a 16-bit length is refused. *)
Lemma hrr_finish_long buf off bs : 0 <= bs -> bs + 2 + 65535 < off < max_object -> hrr_finish buf off bs = Some (0, buf).
Proof.
  intros Hb Ho. unfold hrr_finish, quic_tls_ext_block_finish. cbv zeta. zdecide. unwrap. zdecide. rewrite bind_some. reflexivity.
Qed.

Lemma zlen_hrr_message group ck : zlen (hrr_message group ck) = 44 + zlen (exts_bytes (hrr_ext_list group ck)).
Proof. unfold hrr_message. cbv zeta. rewrite zlen_hs_message, !zlen_app, zlen_put16. change (zlen hrr_prefix_bytes) with 38. lia. Qed.

Lemma hrr_build_spec group ck out cap : zlen ck < max_object -> 0 <= cap <= zlen out -> zlen out < max_object ->
  let m := hrr_message group ck in
  if (zlen ck <=? 65517) && (zlen m <=? cap)
  then quic_hrr_build group ck (zlen ck) out cap = Some (Some (zlen m), splice out 0 m)
  else exists out', quic_hrr_build group ck (zlen ck) out cap = Some (None, out') /\
         zlen out' = zlen out /\ drop (Z.to_nat cap) out' = drop (Z.to_nat cap) out.
Proof.
  intros Hck Hc Ho m. assert (Hm := zlen_hrr_message group ck : zlen m = _). pose proof (zlen_nonneg ck).
  pose proof (zlen_hrr_exts group ck) as Hze. unfold quic_hrr_build, hrr_head_fits.
  destruct (Z.lt_ge_cases cap 44) as [Hs|Hs].
  { assert (HF : (zlen m <=? cap) = false) by (rewrite Hm, Hze; apply Z.leb_gt; destruct (zlen ck =? 0); lia).
    rewrite HF, andb_false_r.
    destruct (Z.lt_ge_cases cap 4).
    - unfold quic_hs_begin. zdecide. rewrite bind_some. by exists out.
    - rewrite hs_begin_spec, bind_some by lia. cbv beta iota. zdecide. eexists. split; [done|].
      rewrite zlen_splice, drop_splice by (change (zlen [QUIC_HS_SERVER_HELLO; 0; 0; 0]) with 4; lia). done. }
  rewrite hs_begin_spec, bind_some by lia. cbv beta iota. cbn [Z.eqb negb andb]. zdecide.
  pose proof (hrr_prefix_spec out [QUIC_HS_SERVER_HELLO; 0; 0; 0]) as Hpp.
  change (zlen [QUIC_HS_SERVER_HELLO; 0; 0; 0]) with 4 in Hpp. rewrite Hpp, bind_some by lia. cbv beta iota.
  change (4 + 38) with 42. set (w := [QUIC_HS_SERVER_HELLO; 0; 0; 0] ++ hrr_prefix_bytes). assert (Hw : zlen w = 42) by done.
  rewrite (splice_extend out w 2) by lia. rewrite Hw. set (gap := slice out 42 2).
  assert (Hg : zlen gap = 2) by (apply zlen_slice; lia). assert (Hwg : zlen (w ++ gap) = 42 + 2) by (rewrite zlen_app; lia).
  unfold hrr_exts. destruct (Z.le_gt_cases (zlen ck) 65535) as [Hl|Hl].
  - pose proof (writes_and _ _ _ _ (writes_hrr_fixed group) (writes_hrr_cookie ck Hl)) as Hwr.
    pose proof (writes_front _ _ cap out (w ++ gap) (42 + 2) Hwr ltac:(lia) ltac:(lia) ltac:(lia) ltac:(lia)) as Hwf.
    set (e := hrr_fixed_bytes group ++ hrr_cookie_bytes ck) in *.
    assert (He : zlen e = zlen (exts_bytes (hrr_ext_list group ck))) by (unfold e; rewrite zlen_app, zlen_hrr_cookie_bytes, Hze; done).
    rewrite Hwg, He in Hwf. rewrite Hm. replace (42 + 2 + zlen (exts_bytes (hrr_ext_list group ck))) with (44 + zlen (exts_bytes (hrr_ext_list group ck))) in Hwf by lia.
    destruct (Z.leb_spec (44 + zlen (exts_bytes (hrr_ext_list group ck))) cap); [|rewrite andb_false_r; destruct Hwf as (b' & o' & -> & Hz & _ & Hd);
      rewrite bind_some; cbv beta iota; by exists b'].
    rewrite Hwf, bind_some, andb_true_r. cbv beta iota. rewrite <- app_assoc. destruct (Z.leb_spec (zlen ck) 65517).
    + unfold e in *. rewrite hrr_cookie_bytes_ext in * by done. unfold hrr_fixed_bytes. rewrite <- exts_bytes_app.
      change (_ ++ hrr_cookie_ext ck) with (hrr_ext_list group ck).
      pose proof (ch_finish_spec out QUIC_HS_SERVER_HELLO hrr_prefix_bytes gap (exts_bytes (hrr_ext_list group ck)) Hg) as Hcf.
      cbv zeta in Hcf. change (QUIC_HS_SERVER_HELLO :: 0 :: 0 :: 0 :: hrr_prefix_bytes) with w in Hcf. rewrite Hw in Hcf.
      change hrr_finish with ch_finish. replace (44 + zlen (exts_bytes (hrr_ext_list group ck))) with (42 + 2 + zlen (exts_bytes (hrr_ext_list group ck))) by lia.
      assert (0 < zlen (exts_bytes (hrr_ext_list group ck)) <= 65535) by (rewrite Hze; destruct (zlen ck =? 0); lia).
      rewrite Hcf, bind_some by (done || lia). cbv beta iota. zdecide. reflexivity.
    + rewrite Hze in *. destruct (zlen ck =? 0) eqn:E0; zbool; [lia|]. rewrite hrr_finish_long, bind_some by lia. cbv beta iota. eexists. split; [done|].
      rewrite zlen_splice, drop_splice by (rewrite !zlen_app in *; lia). done.
  - zdecide. cbn [andb]. destruct (fails_and_r _ _ (writes_bounded _ _ (writes_hrr_fixed group)) (fails_hrr_cookie ck Hl) cap (splice out 0 (w ++ gap)) (42 + 2))
      as (b' & o' & -> & Hz & _ & Hd); [lia|rewrite zlen_splice; lia|lia|]. rewrite bind_some. cbv beta iota. exists b'. split; [done|].
    rewrite Hz, Hd, zlen_splice, drop_splice by lia. done.
Qed.

Lemma hrr_detect_spec tail : hrr_random_matches 32 (quic_hrr_random ++ tail) 0 = Some true.
Proof. reflexivity. Qed.

(** The scan passes the version extension and stops at the group. *)
Lemma hrr_scan_spec group rest post fuel : 0 <= group < 65536 -> (2 < fuel)%nat -> 0 <= rest ->
  hrr_scan_key_share fuel (hrr_fixed_bytes group ++ post) (12 + rest) 0 None = Some (Some group).
Proof.
  intros Hg Hf Hr. destruct fuel as [|[|[|fuel]]]; try lia. cbn [hrr_scan_key_share]. unfold hrr_scan_more at 1. zdecide.
  cbn [andb]. change (bool_decide (is_Some (@None Z))) with false. cbn [negb].
  change (ptr (hrr_fixed_bytes group ++ post) 0) with (hrr_fixed_bytes group ++ post). unfold hrr_step.
  change (hrr_rd16 (ptr (hrr_fixed_bytes group ++ post) 2)) with (Some 2). rewrite bind_some. zdecide.
  change (hrr_is_key_share (hrr_fixed_bytes group ++ post) 2) with (Some false). rewrite !bind_some. cbn [Z.eqb Z.add].
  unfold hrr_scan_more at 1. zdecide. change (bool_decide (is_Some (@None Z))) with false. cbn [andb negb].
  change (hrr_rd16 (ptr (ptr (hrr_fixed_bytes group ++ post) (0 + (4 + 2))) 2)) with (Some 2). rewrite bind_some. zdecide.
  change (hrr_is_key_share (ptr (hrr_fixed_bytes group ++ post) (0 + (4 + 2))) 2) with (Some true). rewrite !bind_some.
  change (ptr (ptr (hrr_fixed_bytes group ++ post) (0 + (4 + 2))) 4) with (quic_put_be16 group ++ post).
  unfold hrr_rd16. rewrite be16_at_put0, !bind_some by lia. cbn [Z.eqb Z.add]. unfold hrr_scan_more.
  change (bool_decide (is_Some (Some group))) with true. rewrite andb_false_r. reflexivity.
Qed.

(** A HelloRetryRequest.  The server builds it exactly when the cookie has at
    most 65517 bytes and the message fits, and then it is RFC 8446 section 4.1.4's
    ServerHello with the fixed random; the client's detector recognises it and
    reads back the group the server selected, whatever bytes follow.  Otherwise
    the builder refuses and nothing past the capacity is touched. *)
Theorem hello_retry_roundtrip (group cap : Z) (ck out : list Z)
  (Hg : 0 <= group < 65536) (Hck : zlen ck < max_object) (Hcap : 0 <= cap <= zlen out) (Ho : zlen out < max_object) :
  let m := hrr_message group ck in
  if (zlen ck <=? 65517) && (zlen m <=? cap)
  then quic_hrr_build group ck (zlen ck) out cap = Some (Some (zlen m), splice out 0 m) /\
       forall n, zlen m <= n -> n < max_object ->
         quic_hrr_is_hello_retry (splice out 0 m) n = Some true /\
         quic_hrr_selected_group (splice out 0 m) n = Some (Some group)
  else exists out', quic_hrr_build group ck (zlen ck) out cap = Some (None, out') /\
         zlen out' = zlen out /\ drop (Z.to_nat cap) out' = drop (Z.to_nat cap) out.
Proof.
  intros m. pose proof (hrr_build_spec group ck out cap Hck Hcap Ho) as Hb. cbv zeta in Hb. fold m in Hb.
  destruct ((zlen ck <=? 65517) && (zlen m <=? cap)) eqn:E; [|exact Hb]. zbool. split; [exact Hb|]. clear Hb. intros n Hn Hno.
  pose proof (zlen_nonneg ck). pose proof (zlen_hrr_message group ck) as Hm. fold m in Hm. pose proof (zlen_hrr_exts group ck) as Hze.
  set (x := if zlen ck =? 0 then 0 else 6 + zlen ck) in *. assert (Hx : 0 <= x <= 65523) by (unfold x; destruct (zlen ck =? 0); lia).
  change (splice out 0 m) with (m ++ drop (length m) out). set (post := drop (length m) out).
  set (e := exts_bytes (hrr_ext_list group ck)) in *. set (body := hrr_prefix_bytes ++ quic_put_be16 (zlen e) ++ e).
  assert (Hbody : zlen body = 40 + zlen e) by (unfold body; rewrite !zlen_app, zlen_put16; change (zlen hrr_prefix_bytes) with 38; lia).
  change m with (hs_message QUIC_HS_SERVER_HELLO body).
  assert (Eptr : ptr (hs_message QUIC_HS_SERVER_HELLO body ++ post) 4 = body ++ post).
  { unfold hs_message. rewrite app_comm_cons. rewrite <- app_assoc. by apply ptr_app. }
  assert (Hp6 : forall k, 0 <= k -> ptr (hs_message QUIC_HS_SERVER_HELLO body ++ post) (4 + k) = ptr (body ++ post) k).
  { intros k Hk. rewrite <- Eptr. unfold ptr. rewrite drop_drop. f_equal. lia. }
  split.
  - unfold quic_hrr_is_hello_retry. rewrite hs_parse_spec, bind_some by lia. unfold hrr_has_random.
    rewrite Z.eqb_refl, Hbody. zdecide. cbn [andb negb]. rewrite Hp6 by lia.
    change (ptr (body ++ post) 2) with (quic_hrr_random ++ ([0] ++ quic_put_be16 QUIC_TLS_AES128_GCM_SHA256 ++ [0] ++ quic_put_be16 (zlen e) ++ e) ++ post).
    apply hrr_detect_spec.
  - unfold quic_hrr_selected_group. rewrite hs_parse_spec, bind_some by lia. unfold hrr_is_server_hello. rewrite Z.eqb_refl, Eptr, Hbody.
    unfold hrr_locate_exts, hrr_ext_off. zdecide. change (load (body ++ post) 34) with (Some 0). rewrite bind_some. cbv zeta. zdecide.
    rewrite bind_some. change (35 + 0 + 3) with 38. cbn [Z.eqb].
    assert (Eb : hrr_rd16 (ptr (body ++ post) 38) = Some (zlen e)).
    { change (ptr (body ++ post) 38) with ((quic_put_be16 (zlen e) ++ e) ++ post). unfold hrr_rd16. rewrite <- app_assoc. apply be16_at_put0. lia. }
    rewrite Eb, bind_some. zdecide. rewrite bind_some. change (4 + 38 + 2) with (4 + 40). rewrite Hp6 by lia.
    change (ptr (body ++ post) 40) with (e ++ post).
    assert (Ee : e ++ post = hrr_fixed_bytes group ++ exts_bytes (hrr_cookie_ext ck) ++ post).
    { unfold e, hrr_ext_list, hrr_fixed_bytes. rewrite exts_bytes_app, <- app_assoc. done. }
    rewrite Ee, Hze. apply hrr_scan_spec; lia.
Qed.

(** Witness: a retry for secp256r1 with a cookie. *)
Lemma hello_retry_roundtrip_witness :
  exists m, quic_hrr_build 0x17 [9; 8; 7] 3 (local 70) 70 = Some (Some 65, splice (local 70) 0 m) /\
    quic_hrr_selected_group (splice (local 70) 0 m) 65 = Some (Some 0x17).
Proof.
  destruct (hello_retry_roundtrip 0x17 70 [9; 8; 7] (local 70)) as (H1 & H2); [closed_arith..|].
  exists (hrr_message 0x17 [9; 8; 7]). exact (conj H1 (proj2 (H2 65 ltac:(closed_arith) ltac:(closed_arith)))).
Defined.

(** * The handshake driver *)

(** What happens to a driver: a message arrives, or the certificate is verified. *)
Inductive hsd_event := HsdRecv (msg_type level : Z) | HsdVerified.

(** The state after the events and the reply to each message. *)
Fixpoint hsd_run (s : quic_hsdriver) (es : list hsd_event) : option (quic_hsdriver * list bool) :=
  match es with
  | [] => Some (s, [])
  | HsdVerified :: es => hsd_run (quic_hsdriver_cert_verified s) es
  | HsdRecv t l :: es =>
      '(ok, s) ← quic_hsdriver_recv s t l;
      '(s, oks) ← hsd_run s es;
      Some (s, (ok : bool) :: oks)
  end.

(** The full handshake of RFC 8446 section 2 with the packet type that carries each message
    (RFC 9001 section 4.1.3; 0 Initial, 1 Handshake, 2 1-RTT): ClientHello 1, ServerHello 2,
    EncryptedExtensions 8, Certificate 11, CertificateVerify 15, Finished 20, and the frame
    HANDSHAKE_DONE, to which hsdriver.h gives the number 30. *)
Definition hsd_flight : list (Z * Z) := [(1, 0); (2, 0); (8, 1); (11, 1); (15, 1); (20, 1); (30, 2)].

(** What the driver owes: [rest] is what is left of the flight.  A message is accepted when it
    is the next one, the Finished only once the certificate is verified; any other is refused
    and changes nothing. *)
Definition flight_next (rest : list (Z * Z)) (verified : bool) (m : Z * Z) : bool :=
  match rest with
  | [] => false
  | next :: _ => bool_decide (m = next) && (negb (fst m =? 20) || verified)
  end.

Fixpoint flight_spec (rest : list (Z * Z)) (verified : bool) (es : list hsd_event) : list bool * list (Z * Z) :=
  match es with
  | [] => ([], rest)
  | HsdVerified :: es => flight_spec rest true es
  | HsdRecv t l :: es =>
      let ok := flight_next rest verified (t, l) in
      let '(oks, rest') := flight_spec (if ok then drop 1 rest else rest) verified es in (ok :: oks, rest')
  end.

Definition hsd_inv (s : quic_hsdriver) : Prop :=
  0 <= hsd_recv_count s <= HSD_STEPS /\
  hsd_complete s = (6 <=? hsd_recv_count s) /\ hsd_confirmed s = (7 <=? hsd_recv_count s) /\
  (hsd_complete s = true -> hsd_cert_verified s = true) /\
  hsd_lvl s = (if hsd_recv_count s <=? 2 then 0 else if hsd_recv_count s <=? 6 then 1 else 2).

Ltac hsd_close := unfold hsd_inv, HSD_STEPS; cbn; split_and?; done || lia || auto.

(** The table entry against the message received. *)
Ltac hsd_case t l :=
  repeat match goal with |- context[load ?a ?k] => let v := eval vm_compute in (load a k) in change (load a k) with v end;
  rewrite ?bind_some; match goal with |- context[?o =? t] => destruct (Z.eqb_spec o t) as [<- | ?] end; cbn [negb];
  rewrite ?bind_some; [match goal with |- context[?o =? l] => destruct (Z.eqb_spec o l) as [<- | ?] end; cbn|];
  first [rewrite bool_decide_false by congruence; cbn; eexists; split_and!; [reflexivity|hsd_close..]
        |rewrite bool_decide_true by done; cbn; try match goal with cv : bool |- _ => destruct cv end; cbn;
         eexists; split_and!; [reflexivity|hsd_close..]].

(** The driver knows what is left of the flight. *)
Definition hsd_rest (s : quic_hsdriver) : list (Z * Z) := drop (Z.to_nat (hsd_recv_count s)) hsd_flight.

(** One message from a state of the invariant. *)
Lemma hsd_recv_step s t l : hsd_inv s ->
  let legal := flight_next (hsd_rest s) (hsd_cert_verified s) (t, l) in
  exists s', quic_hsdriver_recv s t l = Some (legal, s') /\ hsd_inv s' /\
    hsd_rest s' = (if legal then drop 1 (hsd_rest s) else hsd_rest s) /\ hsd_cert_verified s' = hsd_cert_verified s.
Proof.
  intros (Hr & Hc & Hf & Ha & Hl) legal. subst legal. destruct s as [srv n cv lv co cf]. cbn in Hr, Hc, Hf, Ha, Hl. subst lv co cf.
  assert (Hn : n = 0 \/ n = 1 \/ n = 2 \/ n = 3 \/ n = 4 \/ n = 5 \/ n = 6 \/ n = 7) by (unfold HSD_STEPS in Hr; lia).
  unfold quic_hsdriver_recv, hsd_step_legal, hsd_table_match, hsd_auth_gate_ok, QUIC_HSD_FINISHED, hsd_rest.
  destruct Hn as [-> | [-> | [-> | [-> | [-> | [-> | [-> | ->]]]]]]];
    cbn [hsd_recv_count Z.ltb Z.compare HSD_STEPS negb hsd_cert_verified] in *;
    repeat match goal with |- context[drop ?k hsd_flight] => let v := eval vm_compute in (drop k hsd_flight) in change (drop k hsd_flight) with v end;
    cbn [flight_next]; try (eexists; split_and!; [reflexivity|hsd_close..]).
  all: hsd_case t l.
Qed.

Lemma hsd_verified_inv s : hsd_inv s -> hsd_inv (quic_hsdriver_cert_verified s).
Proof. intros (H1 & H2 & H3 & H4 & H5). split; [done|]. by split_and!. Qed.

Lemma hsd_run_spec es : forall s, hsd_inv s ->
  exists s', hsd_run s es = Some (s', fst (flight_spec (hsd_rest s) (hsd_cert_verified s) es)) /\ hsd_inv s' /\
    hsd_rest s' = snd (flight_spec (hsd_rest s) (hsd_cert_verified s) es).
Proof.
  induction es as [|[t l|] es IH]; intros s Hi; cbn [hsd_run flight_spec]; [by exists s| |].
  - destruct (hsd_recv_step s t l Hi) as (s1 & -> & Hi1 & Hd & Hv). rewrite bind_some.
    destruct (IH s1 Hi1) as (s' & -> & Hi' & Hrest). rewrite bind_some, Hd, Hv in *. exists s'.
    destruct (flight_spec _ _ es) as [oks rest]. by split_and!.
  - destruct (IH _ (hsd_verified_inv s Hi)) as (s' & -> & Hi' & Hrest). by exists s'.
Qed.

(** The Finished passes only behind the certificate's verification. *)
Lemma flight_spec_finished es : forall rest verified, (20, 1) ∈ rest -> (20, 1) ∉ snd (flight_spec rest verified es) ->
  exists es1 es2, es = es1 ++ HsdRecv 20 1 :: es2 /\ (verified = true \/ HsdVerified ∈ es1).
Proof.
  induction es as [|[t l|] es IH]; intros rest verified Hin Hout; cbn [flight_spec] in Hout; [done| |].
  - destruct (flight_next rest verified (t, l)) eqn:E.
    + destruct rest as [|next rest]; [done|]. cbn [flight_next fst] in E. apply andb_true_iff in E as [Em Ev].
      apply bool_decide_eq_true in Em as <-. destruct (decide ((t, l) = (20, 1))) as [[= -> ->]|Hne].
      * exists [], es. split; [done|]. left. exact Ev.
      * destruct (IH rest verified) as (es1 & es2 & -> & Hor).
        { apply elem_of_cons in Hin as [Hin|Hin]; [congruence|done]. }
        { destruct (flight_spec (drop 1 ((t, l) :: rest)) verified es) eqn:Es. change (drop 1 ((t, l) :: rest)) with rest in Es. by rewrite Es. }
        exists (HsdRecv t l :: es1), es2. split; [done|]. destruct Hor; [by left|right; by apply list_elem_of_further].
    + destruct (IH rest verified Hin) as (es1 & es2 & -> & Hor); [by destruct (flight_spec rest verified es)|].
      exists (HsdRecv t l :: es1), es2. split; [done|]. destruct Hor; [by left|right; by apply list_elem_of_further].
  - destruct (IH rest true Hin Hout) as (es1 & es2 & -> & _). exists (HsdVerified :: es1), es2.
    split; [done|]. right. apply list_elem_of_here.
Qed.

(** C17: the handshake driver, over every sequence of messages (any type, any
    protection level) and certificate verifications.  A message is accepted if and only if it
    is the next one of the TLS 1.3 flight, at its protection level, and, for the Finished, the
    certificate has been verified; a refused message changes nothing.  The handshake is
    complete exactly from the Finished of the flight on (one Finished: hsdriver.h says "both
    Finished", but the driver sees the messages of one flight only) and confirmed exactly
    from HANDSHAKE_DONE on, the level is that of the last message accepted, and completion
    implies that the certificate was verified before the Finished arrived. *)
Theorem hsdriver_flight (is_server : bool) (es : list hsd_event) :
  exists s, hsd_run (quic_hsdriver_init is_server) es = Some (s, fst (flight_spec hsd_flight false es)) /\
    let rest := snd (flight_spec hsd_flight false es) in
    quic_hsdriver_complete s = bool_decide (length rest <= 1)%nat /\
    quic_hsdriver_confirmed s = bool_decide (rest = []) /\
    hsd_lvl s = (if bool_decide (5 <= length rest)%nat then 0 else if bool_decide (rest = []) then 2 else 1) /\
    (quic_hsdriver_complete s = true -> exists es1 es2, es = es1 ++ HsdRecv 20 1 :: es2 /\ HsdVerified ∈ es1).
Proof.
  destruct (hsd_run_spec es (quic_hsdriver_init is_server)) as (s & Hr & Hi & Hrest); [split; by split_and!|].
  cbn [hsd_rest hsd_recv_count quic_hsdriver_init hsd_cert_verified] in Hr, Hrest.
  change (hsd_rest (quic_hsdriver_init is_server)) with hsd_flight in *. cbv zeta.
  exists s. split; [exact Hr|]. pose proof (flight_spec_finished es hsd_flight false ltac:(apply list_elem_of_In; cbn; tauto)) as Hfin.
  destruct Hi as (Hb & Hc & Hf & _ & Hl). unfold quic_hsdriver_complete, quic_hsdriver_confirmed. rewrite Hc, Hf, Hl.
  rewrite <- Hrest in *. clear -Hb Hfin. unfold hsd_rest, HSD_STEPS in *. set (n := hsd_recv_count s) in *. clearbody n.
  assert (Hn : n = 0 \/ n = 1 \/ n = 2 \/ n = 3 \/ n = 4 \/ n = 5 \/ n = 6 \/ n = 7) by lia.
  destruct Hn as [-> | [-> | [-> | [-> | [-> | [-> | [-> | ->]]]]]]]; (split_and!; [done..|]); intros H; try discriminate H;
    (destruct Hfin as (es1 & es2 & -> & [Hv|Hv]); [intros Hin; apply list_elem_of_In in Hin; vm_compute in Hin; intuition discriminate|done|by exists es1, es2]).
Qed.

(** The whole flight is accepted once the certificate is verified in time. *)
Example hsdriver_full_flight :
  exists s, hsd_run (quic_hsdriver_init false)
    [HsdRecv 1 0; HsdRecv 2 0; HsdRecv 8 1; HsdRecv 11 1; HsdRecv 15 1; HsdRecv 20 1; HsdVerified; HsdRecv 20 1; HsdRecv 30 2] =
      Some (s, [true; true; true; true; true; false; true; true]) /\
    quic_hsdriver_confirmed s = true.
Proof. exists (mk_hsd false 7 true 2 true true). split; vm_compute; reflexivity. Qed.

(** * Cipher suite selection *)

(** AES-128-GCM when offered, else ChaCha20-Poly1305 when offered, else none. *)
Definition cipher_choice (suites : list Z) : option Z :=
  if bool_decide (QUIC_TLS_AES_128_GCM_SHA256 ∈ suites) then Some QUIC_TLS_AES_128_GCM_SHA256
  else if bool_decide (QUIC_TLS_CHACHA20_POLY1305_SHA256 ∈ suites) then Some QUIC_TLS_CHACHA20_POLY1305_SHA256
  else None.

Definition cipher_result (st : Z * bool) : option Z := if snd st then Some (fst st) else None.

Lemma cipher_fold_spec s st done :
  cipher_result st = cipher_choice done -> cipher_result (cipher_fold s st) = cipher_choice (done ++ [s]).
Proof.
  destruct st as [c f]. unfold cipher_result, cipher_choice, cipher_fold, quic_cipher_supported, prefer. cbn [fst snd]. intros H.
  assert (E : forall x, bool_decide (x ∈ done ++ [s]) = bool_decide (x ∈ done) || (s =? x)).
  { intros x. destruct (Z.eqb_spec s x) as [-> | Hn].
    - rewrite orb_true_r. apply bool_decide_eq_true. apply elem_of_app. right. apply list_elem_of_here.
    - rewrite orb_false_r. apply bool_decide_ext. rewrite elem_of_app, list_elem_of_singleton. naive_solver. }
  rewrite !E. unfold QUIC_TLS_AES_128_GCM_SHA256, QUIC_TLS_CHACHA20_POLY1305_SHA256 in *.
  destruct (bool_decide (0x1301 ∈ done)), (bool_decide (0x1303 ∈ done)), f;
    destruct (Z.eqb_spec s 0x1301), (Z.eqb_spec s 0x1303); subst; cbn [orb negb fst snd] in *; try done; congruence.
Qed.

Lemma cipher_loop_spec suites : forall pre seen st, Forall (fun s => 0 <= s < 65536) suites ->
  zlen pre = 2 * zlen seen -> cipher_result st = cipher_choice seen ->
  exists st', cipher_loop (List.length suites) (pre ++ concat (List.map quic_put_be16 suites)) (zlen seen) st = Some st' /\
    cipher_result st' = cipher_choice (seen ++ suites).
Proof.
  induction suites as [|s l IH]; intros pre seen st Hs Hp Hst.
  { exists st. rewrite !app_nil_r. done. }
  apply Forall_cons_iff in Hs as [H0 Hs]. cbn [List.map List.length concat cipher_loop]. rewrite <- Hp, be16_at_put, bind_some by done.
  destruct (IH (pre ++ quic_put_be16 s) (seen ++ [s]) (cipher_fold s st) Hs) as (st' & H1 & H2);
    [rewrite !zlen_app, zlen_put16; change (zlen [s]) with 1; lia|by apply cipher_fold_spec|].
  rewrite <- !app_assoc in *. exists st'. split; [|done]. rewrite zlen_app in H1. exact H1.
Qed.

(** Selection over an offered list of suites, in wire order. *)
Theorem cipher_select_spec (suites : list Z) (chosen0 : Z) (Hs : Forall (fun s => 0 <= s < 65536) suites) :
  quic_cipher_select (concat (List.map quic_put_be16 suites)) (zlen suites) chosen0 = Some (cipher_choice suites).
Proof.
  destruct (cipher_loop_spec suites [] [] (chosen0, false) Hs eq_refl eq_refl) as (st & H1 & H2). cbn [app] in *. change (zlen (@nil Z)) with 0 in H1.
  unfold quic_cipher_select. unfold zlen. rewrite Nat2Z.id, H1, bind_some. destruct st as [c f]. by rewrite <- H2.
Qed.

(** * pre_shared_key: round trip and the short buffer *)

(** A buffer of fewer than four bytes is read past its end. *)
Lemma psk_parse_short (out : list Z) : zlen out < 4 -> quic_tlsext_pre_shared_key_parse out (zlen out) = None.
Proof.
  intros Hl. unfold quic_tlsext_pre_shared_key_parse. zdecide. rewrite bind_some. unfold psk_offer_ok, psk_prefix_ok, psk_header_ok, be16_at.
  destruct (load out 2); [|done]. rewrite bind_some. replace (load out (2 + 1)) with (@None Z); [done|].
  symmetry. unfold load. zdecide. apply lookup_ge_None_2. unfold zlen in Hl. change (Z.to_nat (2 + 1)) with 3%nat. lia.
Qed.

Lemma be32_at_put pre v post : 0 <= v < 2 ^ 32 -> load_be32 (pre ++ quic_put_be32 v ++ post) (zlen pre) = Some v.
Proof. intros Hv. rewrite put_be32_bytes. by apply load_be32_spec. Qed.

Definition psk_bytes (identity : list Z) (age : Z) (binder : list Z) : list Z :=
  quic_put_be16 QUIC_TLSEXT_T_PRE_SHARED_KEY ++ quic_put_be16 (11 + zlen identity + zlen binder) ++
  quic_put_be16 (6 + zlen identity) ++ quic_put_be16 (zlen identity) ++ identity ++ quic_put_be32 age ++
  quic_put_be16 (1 + zlen binder) ++ [zlen binder] ++ binder.

Lemma zlen_psk_bytes identity age binder : zlen (psk_bytes identity age binder) = 15 + zlen identity + zlen binder.
Proof. unfold psk_bytes. rewrite !zlen_app, !zlen_put16. change (zlen (quic_put_be32 age)) with 4. change (zlen [zlen binder]) with 1. lia. Qed.

Lemma psk_encode_spec identity age binder out cap : zlen binder <= 255 -> 11 + zlen identity + zlen binder < 65536 ->
  15 + zlen identity + zlen binder <= cap <= zlen out ->
  quic_tlsext_pre_shared_key identity (zlen identity) age binder (zlen binder) out cap =
  Some (Some (15 + zlen identity + zlen binder), splice out 0 (psk_bytes identity age binder)).
Proof.
  intros Hb Ht Hc. pose proof (zlen_nonneg identity). pose proof (zlen_nonneg binder). unfold quic_tlsext_pre_shared_key, psk_total. cbv zeta. unwrap.
  replace (4 + 2 + (2 + zlen identity + 4) + 2 + (1 + zlen binder)) with (15 + zlen identity + zlen binder) by lia. zdecide.
  replace (u16 (15 + zlen identity + zlen binder - 4)) with (11 + zlen identity + zlen binder) by (unfold u16; rewrite Z.mod_small; lia).
  replace (u16 (2 + zlen identity + 4)) with (6 + zlen identity) by (unfold u16; rewrite Z.mod_small; lia).
  replace (u16 (zlen identity)) with (zlen identity) by (unfold u16; rewrite Z.mod_small; lia).
  replace (u16 (1 + zlen binder)) with (1 + zlen binder) by (unfold u16; rewrite Z.mod_small; lia).
  replace (u8 (zlen binder)) with (zlen binder) by (unfold u8; rewrite Z.mod_small; lia).
  rewrite <- (splice_nil out 0). rewrite store_front_bytes, bind_some by (done || (rewrite zlen_put16, zlen_nil; lia)). cbn [app].
  do 3 (rewrite store_front_bytes, bind_some by (rewrite ?zlen_app, ?zlen_put16; done || lia)).
  rewrite copy_front_bytes, bind_some by (rewrite ?zlen_app, ?zlen_put16; lia || done).
  rewrite (take_ge identity) by (unfold zlen; lia).
  do 2 (rewrite store_front_bytes, bind_some by (rewrite ?zlen_app, ?zlen_put16; change (zlen (quic_put_be32 age)) with 4; lia)).
  rewrite store_front_byte, bind_some by (rewrite ?zlen_app, ?zlen_put16; change (zlen (quic_put_be32 age)) with 4; lia).
  rewrite copy_front_bytes, bind_some by (rewrite ?zlen_app, ?zlen_put16; change (zlen (quic_put_be32 age)) with 4; change (zlen [zlen binder]) with 1; lia).
  rewrite (take_ge binder) by (unfold zlen; lia). unfold psk_bytes. rewrite <- !app_assoc. reflexivity.
Qed.

Lemma psk_parse_spec identity age binder post n : zlen binder <= 255 -> 11 + zlen identity + zlen binder < 65536 -> 0 <= age < 2 ^ 32 ->
  15 + zlen identity + zlen binder <= n ->
  quic_tlsext_pre_shared_key_parse (psk_bytes identity age binder ++ post) n = Some (Some (mk_psk identity age binder)).
Proof.
  intros Hb Ht Ha Hn. pose proof (zlen_nonneg identity). pose proof (zlen_nonneg binder). unfold quic_tlsext_pre_shared_key_parse. zdecide.
  set (h := quic_put_be16 QUIC_TLSEXT_T_PRE_SHARED_KEY ++ quic_put_be16 (11 + zlen identity + zlen binder) ++ quic_put_be16 (6 + zlen identity) ++ quic_put_be16 (zlen identity)).
  set (m := psk_bytes identity age binder ++ post).
  assert (Em : m = h ++ identity ++ quic_put_be32 age ++ quic_put_be16 (1 + zlen binder) ++ [zlen binder] ++ binder ++ post)
    by (unfold m, psk_bytes, h; rewrite <- !app_assoc; done).
  assert (E6 : be16_at m 6 = Some (zlen identity)).
  { rewrite Em. unfold h. rewrite <- !app_assoc. rewrite (app_assoc (quic_put_be16 _)), (app_assoc (quic_put_be16 _ ++ _)). apply be16_at_put. lia. }
  assert (E2 : be16_at m 2 = Some (11 + zlen identity + zlen binder)) by (rewrite Em; unfold h; rewrite <- !app_assoc; apply be16_at_put; lia).
  assert (E0 : be16_at m 0 = Some QUIC_TLSEXT_T_PRE_SHARED_KEY) by (rewrite Em; unfold h; rewrite <- !app_assoc; apply be16_at_put0; done).
  assert (E14 : load m (14 + zlen identity) = Some (zlen binder)).
  { rewrite Em. rewrite !(app_assoc h), !(app_assoc (h ++ identity)), !(app_assoc (_ ++ quic_put_be32 age)).
    apply load_head. rewrite !zlen_app. change (zlen h) with 8. change (zlen (quic_put_be32 age)) with 4. rewrite zlen_put16. lia. }
  rewrite E6, bind_some. unfold psk_offer_ok, psk_prefix_ok, psk_header_ok, psk_shape_ok. rewrite E2, !bind_some. zdecide.
  cbn [negb]. rewrite E0, bind_some. change (negb (_ =? _)) with false. cbv iota. rewrite bind_some. zdecide. cbn [andb]. rewrite bind_some. cbn [negb].
  rewrite E14, !bind_some. unfold psk_total. unwrap. zdecide. cbn [andb negb].
  replace (8 + zlen identity) with (zlen (h ++ identity)) by (rewrite zlen_app; done).
  assert (Eg : load_be32 m (zlen (h ++ identity)) = Some age) by (rewrite Em, (app_assoc h); by apply be32_at_put).
  rewrite Eg, bind_some, Em. do 3 f_equal.
  - apply slice_app; done.
  - rewrite !(app_assoc h), !(app_assoc (h ++ identity)), !(app_assoc (_ ++ quic_put_be32 age)), !(app_assoc (_ ++ quic_put_be16 (1 + zlen binder))).
    apply slice_app; [|done]. rewrite !zlen_app. change (zlen h) with 8. change (zlen (quic_put_be32 age)) with 4. rewrite zlen_put16. change (zlen [zlen binder]) with 1. lia.
Qed.

(** * The server's flight: message by message *)

(** A call on the tail behind the front. *)
Lemma on_tail_front f (buf w bs : list Z) n i : i = zlen w -> zlen w + zlen bs <= zlen buf ->
  (forall tail, zlen tail = zlen buf - zlen w -> f tail = Some (n, splice tail 0 bs)) ->
  on_tail i f (splice buf 0 w) = Some (n, splice buf 0 (w ++ bs)).
Proof.
  intros -> Hl Hf. pose proof (zlen_nonneg w). pose proof (zlen_nonneg bs). unfold on_tail.
  rewrite Hf by (rewrite zlen_drop, zlen_splice; rewrite ?zlen_splice; lia). do 2 f_equal.
  rewrite take_app_splice by (rewrite ?zlen_splice; lia).
  pose proof (splice_splice buf w bs 0) as HS. rewrite Z.add_0_l in HS. apply HS; lia.
Qed.

Lemma salpn_response_spec tail cap : 9 <= cap <= zlen tail ->
  quic_salpn_build_response tail cap = Some (Some 9, splice tail 0 alpn_response).
Proof.
  intros Hc. unfold quic_salpn_build_response. zdecide. rewrite copy_loop_len, bind_some by (change (zlen alpn_response) with 9; lia). done.
Qed.

Definition ee_message (tp : list Z) : list Z :=
  hs_message QUIC_HS_ENCRYPTED_EXT (quic_put_be16 (u16 (13 + zlen tp)) ++ alpn_response ++ ext_bytes (QUIC_TPEXT_TYPE, tp)).

(** The EncryptedExtensions message.  The block length is truncated to 16 bits. *)
Lemma eebuild_spec tp out cap : zlen tp <= 65535 -> 19 + zlen tp <= cap <= zlen out -> zlen out < max_object ->
  quic_eebuild_encrypted_extensions tp (zlen tp) out cap = Some (Some (19 + zlen tp), splice out 0 (ee_message tp)).
Proof.
  intros Ht Hc Ho. pose proof (zlen_nonneg tp). unfold quic_eebuild_encrypted_extensions, eebuild_fits, EEBUILD_ALPN_LEN. zdecide. cbn [andb negb].
  rewrite hs_begin_spec, bind_some by lia. set (h := [QUIC_HS_ENCRYPTED_EXT; 0; 0; 0]). assert (Hh : zlen h = 4) by done.
  rewrite (splice_extend out h 2) by lia. rewrite Hh. set (gap := slice out 4 2). assert (Hg : zlen gap = 2) by (apply zlen_slice; lia).
  assert (Hhg : zlen (h ++ gap) = 6) by (rewrite zlen_app; lia).
  rewrite (on_tail_front _ out (h ++ gap) alpn_response 9), bind_some.
  2: lia. 2: { rewrite Hhg. change (zlen alpn_response) with 9. lia. }
  2: { intros tail Hz. rewrite salpn_response_spec, !bind_some by lia. done. }
  rewrite (on_tail_front _ out ((h ++ gap) ++ alpn_response) (ext_bytes (QUIC_TPEXT_TYPE, tp)) (4 + zlen tp)), bind_some.
  2: { rewrite zlen_app, Hhg. done. } 2: { rewrite zlen_app, Hhg, zlen_ext_bytes. change (zlen alpn_response) with 9. cbn [snd]. lia. }
  2: { intros tail Hz. rewrite zlen_app, Hhg in Hz. change (zlen alpn_response) with 9 in Hz. apply tpext_encode_spec; lia. }
  rewrite <- !app_assoc. set (e := alpn_response ++ ext_bytes (QUIC_TPEXT_TYPE, tp)).
  assert (He : zlen e = 13 + zlen tp) by (unfold e; rewrite zlen_app, zlen_ext_bytes; change (zlen alpn_response) with 9; cbn [snd]; lia).
  replace (9 + (4 + zlen tp)) with (13 + zlen tp) by lia. rewrite (patch_front out h gap), bind_some by (rewrite ?zlen_app, ?zlen_put16; done || lia).
  cbv zeta. set (body := quic_put_be16 (u16 (13 + zlen tp)) ++ e). assert (Hb : zlen body = 15 + zlen tp) by (unfold body; rewrite zlen_app, zlen_put16; lia).
  replace (4 + 2 + 9 + (4 + zlen tp)) with (4 + zlen body) by lia. change (h ++ body) with (QUIC_HS_ENCRYPTED_EXT :: 0 :: 0 :: 0 :: body).
  rewrite hs_finish_spec, bind_some by lia. replace (4 + zlen body) with (19 + zlen tp) by lia. reflexivity.
Qed.

(** Transport parameters of 65523 bytes: the block length written is 0. *)
Lemma eebuild_truncates tp out : zlen tp = 65523 -> 19 + 65523 <= zlen out -> zlen out < max_object ->
  exists rest, quic_eebuild_encrypted_extensions tp (zlen tp) out (zlen out) =
    Some (Some 65542, splice out 0 (hs_message QUIC_HS_ENCRYPTED_EXT ([0; 0] ++ rest))).
Proof.
  intros Ht Hl Ho. exists (alpn_response ++ ext_bytes (QUIC_TPEXT_TYPE, tp)). rewrite eebuild_spec by lia. unfold ee_message. rewrite Ht. reflexivity.
Qed.

Definition sflight_ee_message (tp : list Z) : list Z :=
  hs_message QUIC_HS_ENCRYPTED_EXT (quic_put_be16 (u16 (4 + zlen tp)) ++ ext_bytes (QUIC_TPEXT_TYPE, tp)).

Lemma sflight_encext_spec tp out cap : zlen tp <= 65535 -> 10 + zlen tp <= cap <= zlen out -> zlen out < max_object ->
  quic_sflight_encrypted_extensions tp (zlen tp) out cap = Some (Some (10 + zlen tp), splice out 0 (sflight_ee_message tp)).
Proof.
  intros Ht Hc Ho. pose proof (zlen_nonneg tp). unfold quic_sflight_encrypted_extensions, encext_fits. zdecide. cbn [andb negb].
  rewrite hs_begin_spec, bind_some by lia. set (h := [QUIC_HS_ENCRYPTED_EXT; 0; 0; 0]). assert (Hh : zlen h = 4) by done.
  rewrite (splice_extend out h 2) by lia. rewrite Hh. set (gap := slice out 4 2). assert (Hg : zlen gap = 2) by (apply zlen_slice; lia).
  set (e := ext_bytes (QUIC_TPEXT_TYPE, tp)). assert (He : zlen e = 4 + zlen tp) by apply zlen_ext_bytes.
  rewrite (on_tail_front _ out (h ++ gap) e (4 + zlen tp)), bind_some.
  2: { rewrite zlen_app. lia. } 2: { rewrite zlen_app. lia. }
  2: { intros tail Hz. rewrite zlen_app in Hz. apply tpext_encode_spec; lia. }
  rewrite <- !app_assoc. rewrite (patch_front out h gap), bind_some by (rewrite ?zlen_app, ?zlen_put16; done || lia).
  cbv zeta. set (body := quic_put_be16 (u16 (4 + zlen tp)) ++ e). assert (Hb : zlen body = 6 + zlen tp) by (unfold body; rewrite zlen_app, zlen_put16; lia).
  replace (4 + 2 + (4 + zlen tp)) with (4 + zlen body) by lia. change (h ++ body) with (QUIC_HS_ENCRYPTED_EXT :: 0 :: 0 :: 0 :: body).
  rewrite hs_finish_spec, bind_some by lia. replace (4 + zlen body) with (10 + zlen tp) by lia. reflexivity.
Qed.
